(* ===== verification/_CoqProject ===== *)
-Q . S2P
Prelude.v
Graph.v
Dfs.v
JobDag.v
JobDagWf.v
JobDagSort.v
JobDagDfs.v
JobDagExec.v
Heap.v
DelayedQueue.v
CircuitBreaker.v
TaskRetry.v
Ring.v
WorkerPool.v
PriorityScheduler.v
Arith.v
RateLimiter.v
JobProgress.v
Calendar.v
Cron.v
JobCoordinator.v
JobCoordinatorSafe.v
Bytes.v
BloomFilter.v
ConsistentHash.v
Jwt.v
HttpCore.v
WebSocket.v
Router.v
Json.v
JsonRoundTrip.v
JsonTyped.v
Saga.v
Choreography.v
Middleware.v
Server.v
ServerSpec.v
Session.v
MessageQueue.v
MessageQueueSpec.v
Rbac.v
Grpc.v
Workflow.v
Bpmn.v
ConfigCenter.v
InfraBreaker.v
Gateway.v
ServiceRegistry.v
WebSecurity.v
DistCache.v
DistCacheSpec.v
SessionManager.v
AuditLog.v
OAuth2.v
Sso.v
AuthRateLimiter.v
Crypto.v
Resilience.v
HealthCheck.v
Idempotency.v
Cache.v
CacheSpec.v
BackendLimiter.v
DiContainer.v
Validator.v
DddModel.v
Cqrs.v
Pool.v
ApiVersion.v
Graphql.v
RestDesign.v
OpenApi.v
BackendConfig.v
Orm.v
BackendMiddleware.v
Mvc.v
Serializer.v
StaticServe.v
Cgi.v
