(* ===== verification/Prelude.v ===== *)
(** * A verified model of mini-backend-api-business

    The repository holds seven independent C libraries ([mini-job-system],
    [mini-business-infra], [mini-auth-security], [mini-backend-framework],
    [mini-business-arch], [mini-web-server], [mini-api-engineering]), each a
    directory with [include/*.h] and [src/*.c].  A library is a set of
    components, one per source file; most stand alone.  The components that call
    others are modelled on top of them: the job coordinator owns one of each
    component of the job system and routes jobs between them; the web server
    parses with [http_core], runs the chain of [middleware] and dispatches through
    the [router]; the gateway of the infrastructure library forwards behind its
    circuit breaker; the session store installs itself as a middleware.

    ** How C is modelled

    - A function that changes an object through a pointer becomes a function
      from the old state to a result and a new state; an [int] code is a [Z].
      Pointers to code and user data are opaque integers or parameters, NULL is
      [None].
    - [NULL] receivers and failing allocations are left out, except where the
      source passes a NULL on; destructors that only free memory are left out.
    - Fixed arrays with a live count are lists (the count is the length), where
      writing beyond the array is excluded by the code's own check; rings are
      modelled cell by cell ([Ring]) because their overflow is not checked.
      Where the code does not check, the write is [None] (undefined) or the model
      keeps what lies behind the end.
    - Where pointers are shared the store is explicit: the wrappers of the job
      coordinator and the entries of the distributed cache live in a heap, and
      following a freed address is an outcome of its own.
    - Unsigned arithmetic wraps ([u32], [u64]); [int] conversions use [s32].
      Plain [int] counters that cannot overflow in a defined run are integers.
    - Text is a list of bytes ([Bytes], with the functions of [string.h], the
      decimal and hexadecimal conversions, and [truncated size] for what
      [snprintf] or [strncpy] leave in a buffer of that size); a few early
      components use [String.string].
    - Each reading of [time(NULL)] is an argument, in program order, so no
      theorem assumes a clock that advances, unless it says so; [rand] likewise.
    - Doubles are over the class [Arith] with the order laws [ArithLaws];
      exact rationals are the instance the examples run on, and rationals rounded
      with a relative and an absolute error the one of Turner's bound ([Arith]).
    - Loops are structural recursion, or [while_loop] or a fuel argument with a
      bound that the theorems show to be enough; [None] marks the lack of a result
      (fuel exhausted, or undefined behaviour).
    - User callbacks are parameters, returned as data or recorded in a trace.

    ** Files of the job system

    - [Prelude]: machine integers, C strings, [while_loop] and its total
      correctness rule, linear search, array cells, rings modulo [n], tactics.
    - [Graph]: paths and topological orders of finite graphs, used by the DAG.
    - [JobDag] ([job_dag.c]): the data, edits, cycle guard (breadth-first
      search) and run bookkeeping.  [JobDagWf]: well-formedness and acyclicity are
      kept by all edits, each edit's exact effect.  [JobDagSort]: Kahn's sort, the
      critical path, levels.  [JobDagDfs]: the depth-first sort and cycle
      detector.  [JobDagExec]: which jobs are ready after any run.
    - [Heap]: the sift-up and sift-down loops of a binary min-heap over any key.
    - [DelayedQueue] ([delayed_queue.c]): the delay queue on that heap.
    - [CircuitBreaker] ([circuit_breaker.c]): the three-state machine.
    - [TaskRetry] ([task_retry.c]): retry budget, backoff, dead letters.
    - [Ring]: ring buffers and the queue they represent.
    - [WorkerPool] ([worker_pool.c]): the threads as a transition system, one
      step per critical section, so theorems hold for every interleaving.
    - [PriorityScheduler] ([priority_scheduler.c]): level queues and lottery.
    - [Arith], [RateLimiter] ([rate_limiter.c]): the four limiters.
    - [JobProgress] ([job_progress.c]): the progress tracker.
    - [Calendar]: [localtime_r] and [mktime] at a fixed offset, proved inverse.
    - [Cron] ([cron_scheduler.c]): parsing, the search for fire times, the table.
    - [JobCoordinator] ([job_coordinator.c]): the composition, as a state monad
      with undefined behaviour over the other components' states and a heap of
      job wrappers.  [JobCoordinatorSafe]: its theorems.

    ** Files of the other libraries

    A file [XSpec] holds the theorems on the model in [X]; elsewhere they follow the model
    in its file.
    - [Bytes]: bytes and C strings, for all that parses and prints; [fgets] and the scanning
      of numbers.  [Dfs]: depth-first search in three colors, used by [JobDagDfs] and
      [DiContainer].
    - mini-web-server: [HttpCore] ([http_core.c]: headers, queries, responses),
      [WebSocket] ([websocket.c]: handshake with SHA-1, frames), [Router]
      ([router.c]: the trie of routes), [Json] ([json_helper.c]; [JsonRoundTrip] and
      [JsonTyped] are its theorems), [Middleware] ([middleware.c]), [Session]
      ([session.c]), [Server] and [ServerSpec] ([server.c]: request parsing, the work on a
      request, the table of connections), [StaticServe] ([static_serve.c]: files, entity
      tags, ranges), [Cgi] ([cgi_handler.c]: the environment and the output of a script,
      FastCGI headers).
    - mini-business-infra: [BloomFilter] ([bloom_filter.c]), [ConsistentHash]
      ([consistent_hash.c]), [MessageQueue] and [MessageQueueSpec] ([message_queue.c]),
      [ConfigCenter] ([config_center.c]), [InfraBreaker] ([circuit_breaker.c]),
      [Gateway] ([gateway_routing.c]), [ServiceRegistry] ([service_registry.c]), [DistCache]
      and [DistCacheSpec] ([distributed_cache.c]).
    - mini-auth-security: [Crypto] ([crypto_utils.c]: base64, passwords, over the functions
      of OpenSSL), [Jwt] ([jwt_auth.c]), [Rbac] ([rbac_engine.c]),
      [WebSecurity] ([web_security.c]), [SessionManager] ([session_manager.c]),
      [AuditLog] ([audit_log.c]), [OAuth2] ([oauth2_server.c]), [Sso] ([sso_model.c]),
      [AuthRateLimiter] ([rate_limiter.c]).
    - mini-business-arch: [Saga] and [Choreography] ([saga_orch.c]), [Workflow]
      ([workflow_engine.c]), [Bpmn] ([bpmn_model.c]), [DddModel] ([ddd_model.c]: orders and
      their repository), [Cqrs] ([cqrs_es.c]: event store, buses, projections); and the three
      parts of [business_patterns.c]: [Resilience] (breaker, bucket, backoff, bulkhead and
      their pipeline), [Idempotency] (the store of keys), [HealthCheck] (the failure
      detector).
    - mini-api-engineering: [Grpc] ([grpc_sim.c]), [ApiVersion] ([api_version.c]),
      [Graphql] ([graphql_engine.c]: queries and schema texts), [RestDesign]
      ([rest_design.c]: resources and their router, paging, negotiation), [OpenApi]
      ([openapi_builder.c]: the description and its JSON and YAML).
    - mini-backend-framework: [Cache] and [CacheSpec] ([cache.c]: the LRU cache, with its
      pointers), [BackendLimiter] ([rate_limiter.c]), [Pool] ([pool.c]), [DiContainer]
      ([di_container.c]), [Validator] ([validator.c]), [BackendConfig] ([config.c]), [Orm]
      ([orm_core.c]), [BackendMiddleware] ([middleware.c]), [Mvc] ([mvc_pattern.c]),
      [Serializer] ([serializer.c]).

    ** What the theorems show

    - Job DAG: every edit keeps the graph well formed and acyclic; the cycle
      guard, both sorts, the cycle detector and the critical path agree with their
      mathematical definitions; the ready set is the pending jobs whose
      dependencies completed, after any run.
    - Delayed queue: the heap order is kept, entries come out once, due, in order
      of fire time; deduplication is unique for keys that fit.
    - Breakers: they open at the threshold, isolate during the cooldown, recover
      by successful probes, and the failure window counts exactly.
    - Retry: exactly the budget of retries; the backoff formula and its bounds.
    - Worker pool: each accepted task is held or run exactly once in submission
      order; concurrency limits hold.
    - Priority scheduler: what is picked next, by level and by lottery; that
      boosts and aging do not matter.
    - Rate limiters: levels stay within budget; Turner's bound over any period, with
      the errors of rounding; asking is exact.
    - Cron: the next fire time is the first match; a tick owes and makes exactly
      its calls.
    - Coordinator: no use after free without cron jobs, and what cron jobs break;
      the breakers never open; a drain drains nothing.
    - Parsers and printers: round trips of JSON, HTTP requests and headers, WebSocket
      frames, protobuf messages, tokens, HTML and URL encodings, snapshots of the
      configuration, settings files, versions, GraphQL schemas, serialized structures,
      FastCGI headers and base64; the JSON parser terminates and returns well-formed trees;
      templates are rendered as their parts; the GraphQL parsers and the settings loader end
      on every text, within their arrays.
    - Lookup structures: the Bloom filter has no false negatives; the ring and the
      rendezvous hash pick the specified node and move the least; the router finds
      the routes inserted; sessions, configuration and the caches refine maps and lists
      ordered by use; the tables of the object mapper refine maps from keys to rows, the
      linked middleware a list, the ring of a limiter a list of stamps.
    - Processes: sagas compensate what they ran, in reverse; the approval workflow
      refines its automaton; processes without loops complete; the resilience pipeline
      calls as often as its policy says; a command's events are numbered without gaps.
    - Resources: a pool lends each resource to one holder and its waits end; a key of
      idempotency is accepted once; the cycle check of the container is exact, and without a
      cycle resolution ends, with one object for each singleton.
    - Messages and requests: who receives a message and what is handed out next;
      smooth round robin is fair; a limit by client holds; the REST router picks the first
      of the best routes; a file fetched range by range arrives as it is; validation keeps
      all errors that there is room for.
    - Security: a token is accepted only with its signature; permission checks agree
      with the roles reached; sanitised text cannot leave its place; a session that
      is over stays over; a code or ticket is good once; what the chain of the audit log does and does not show.

    Theorems about what goes wrong (a job lost by a full level, a wrapper used
    after free, a lookup that never ends, a forged record, ...) stand next to the
    others in each file; they describe the code as it is.

    ** Bounds and fuel

    Kahn's sort and the breadth-first searches run at most one round per node; the
    sifts at most one round per heap cell; a dequeue recurses at most [size] times; the
    cron search makes the source's 2,628,000 rounds; catching up takes at most one
    round per second passed; a drain sleeps [timeout / 100 + 1] times.  The JSON parser
    and the tokenizer take at most one round per byte; the processes of [Bpmn] one
    step per node when they have no loop; a chain of the cache is followed for as many
    steps as the fuel given, and [lookup_never_ends] shows where no fuel is enough.
    The parsers, renderers and loaders of [Graphql], [RestDesign],
    [BackendConfig] and [Mvc] get a fuel computed from the length of their text,
    a walk along a linked list the number of nodes and one ([BackendMiddleware], [Cache]); the
    cycle check of [DiContainer] one level per service, its resolution a depth that is shown
    to exist; an acquisition of [Pool] one look per millisecond of its limit.
    The theorems that use these functions show that a result is returned.

    ** Not modelled

    - The event loop and the sockets of [server.c] (input and output only; what is done with
      the bytes received is modelled); in [cgi_handler.c], pipes and processes that cannot be
      made, and the branch for Windows.
    - Thread creation, joining and time-outs of condition variables ([worker_pool.c],
      [server.c]); unsynchronised accesses to plain fields are modelled as atomic (the known
      races are noted in the files).
    - Logarithms and powers of doubles: the sizes [bloom_filter.c] computes for a rate of
      false positives; the few getters that return averages of doubles.
    - In [audit_log.c], the checksum over the raw bytes of a record, which nothing reads.
    - Memory exhaustion, except where the source's reaction to it is part of the model;
      destructors that only free; daylight saving changes.
    - The programs in [examples], [demos] and [tests], which only call the
      libraries; OpenSSL, the C library's file system, environment and clocks, which are
      parameters.

    Coordinator operations are atomic with respect to steps of the workers. *)

From stdpp Require Export base numbers list strings gmap pretty sorting relations.
From coqutil Require Export Datatypes.RecordSettersUsingExistingGetters.

#[global] Open Scope Z_scope.

Create HintDb csim discriminated.

(** A record update of a field by a value computes away. *)
#[global] Arguments const {_} _ _ /.

(** ** Machine integers: a w-bit value is a [Z]; these are the C conversions. *)
Definition u8 (x : Z) : Z := x mod 2 ^ 8.
Definition u32 (x : Z) : Z := x mod 2 ^ 32.
Definition u64 (x : Z) : Z := x mod 2 ^ 64.
Definition s32 (x : Z) : Z := (x + 2 ^ 31) mod 2 ^ 32 - 2 ^ 31.
Definition s64 (x : Z) : Z := (x + 2 ^ 63) mod 2 ^ 64 - 2 ^ 63.

(** A counter of 64 bits goes up. *)
Definition incr (x : Z) : Z := u64 (x + 1).

Lemma u8_range x : 0 <= u8 x < 2 ^ 8.
Proof. apply Z.mod_pos_bound. lia. Qed.
Lemma u32_range x : 0 <= u32 x < 2 ^ 32.
Proof. apply Z.mod_pos_bound. lia. Qed.
Lemma u64_range x : 0 <= u64 x < 2 ^ 64.
Proof. apply Z.mod_pos_bound. lia. Qed.
Lemma s32_range x : - 2 ^ 31 <= s32 x < 2 ^ 31.
Proof. unfold s32. pose proof (Z.mod_pos_bound (x + 2 ^ 31) (2 ^ 32)). lia. Qed.
Lemma u32_small x : 0 <= x < 2 ^ 32 -> u32 x = x.
Proof. apply Z.mod_small. Qed.
Lemma u64_small x : 0 <= x < 2 ^ 64 -> u64 x = x.
Proof. apply Z.mod_small. Qed.
Lemma s32_small x : - 2 ^ 31 <= x < 2 ^ 31 -> s32 x = x.
Proof. intros. unfold s32. rewrite Z.mod_small; lia. Qed.
#[export] Hint Resolve u8_range u32_range u64_range s32_range : csim.

(** The [int] a C comparison yields. *)
Definition c_bool (b : bool) : Z := if b then 1 else 0.

(** ** C strings: [strncpy(dst, s, n); dst[n] = 0] keeps the first [n] characters. *)
Fixpoint str_take (n : nat) (s : string) : string :=
  match n, s with
  | S n', String c s' => String c (str_take n' s')
  | _, _ => EmptyString
  end.

Lemma str_take_length n s : (String.length (str_take n s) <= n)%nat.
Proof. revert s; induction n as [|n IH]; intros [|c s]; simpl; try lia. specialize (IH s). lia. Qed.
Lemma str_take_short n s : (String.length s <= n)%nat -> str_take n s = s.
Proof.
  revert s; induction n as [|n IH]; intros [|c s]; simpl; intros H; try done; [lia|].
  f_equal. apply IH. lia.
Qed.
#[global] Arguments str_take : simpl never.

(** ** Loops.  [while_loop] is a C [while]: [None] when the fuel runs out first. *)
Fixpoint while_loop {St} (fuel : nat) (cond : St -> bool) (body : St -> St) (s : St)
    : option St :=
  if cond s then
    match fuel with
    | O => None
    | S fuel' => while_loop fuel' cond body (body s)
    end
  else Some s.

(** Partial correctness and termination of a loop at once: an invariant and a
    measure that decreases give a result within [measure s] iterations. *)
Lemma while_loop_total {St} (Inv : St -> Prop) (measure : St -> nat) cond body :
  (forall s, Inv s -> cond s = true -> Inv (body s) /\ (measure (body s) < measure s)%nat) ->
  forall fuel s, Inv s -> (measure s <= fuel)%nat ->
  exists s', while_loop fuel cond body s = Some s' /\ Inv s' /\ cond s' = false.
Proof.
  intros Hstep fuel. induction fuel as [|fuel IH]; intros s Hs Hm; simpl.
  - destruct (cond s) eqn:Hc; [|eauto].
    destruct (Hstep s Hs Hc). lia.
  - destruct (cond s) eqn:Hc; [|eauto].
    destruct (Hstep s Hs Hc) as [Hb ?]. apply IH; [done|lia].
Qed.

(** A [for] over a list, with an invariant on the prefix already visited. *)
Lemma foldl_prefix_inv {A B} (P : list B -> A -> Prop) (f : A -> B -> A) (l : list B) (a : A) :
  P [] a ->
  (forall pre x post a', l = pre ++ x :: post -> P pre a' -> P (pre ++ [x]) (f a' x)) ->
  P l (foldl f a l).
Proof.
  intros H0 Hstep.
  assert (forall post pre a', l = pre ++ post -> P pre a' -> P l (foldl f a' post)) as H.
  { induction post as [|x post IH]; intros pre a' -> Hp; simpl.
    - by rewrite app_nil_r.
    - apply (IH (pre ++ [x])); [by rewrite <- app_assoc|]. by eapply Hstep. }
  by apply (H l []).
Qed.

(** ** Linear search: [for (i...) if (p(a[i])) return i;] *)
Fixpoint find_idx {A} (p : A -> bool) (l : list A) : option nat :=
  match l with
  | [] => None
  | x :: l' => if p x then Some O else S <$> find_idx p l'
  end.

Lemma find_idx_Some {A} (p : A -> bool) l i :
  find_idx p l = Some i <->
  exists x, l !! i = Some x /\ p x = true /\
    forall j y, l !! j = Some y -> (j < i)%nat -> p y = false.
Proof.
  revert i. induction l as [|x l IH]; intros i; simpl.
  - split; [done|]. by intros (x & Hx & _).
  - destruct (p x) eqn:Hp.
    + split.
      * intros [= <-]. exists x. repeat split; try done. intros; lia.
      * intros (y & Hy & Hpy & Hmin). destruct i as [|i]; [done|].
        specialize (Hmin O x eq_refl ltac:(lia)). congruence.
    + split.
      * intros (k & Hk & ->)%fmap_Some. apply IH in Hk as (y & Hy & Hpy & Hmin).
        exists y. repeat split; try done. intros [|j] z Hz Hj; simpl in Hz; [by simplify_eq|].
        eapply Hmin; [done|lia].
      * intros (y & Hy & Hpy & Hmin). destruct i as [|i]; simpl in Hy; [congruence|].
        apply fmap_Some. exists i. split; [|done]. apply IH. exists y. repeat split; try done.
        intros j z Hz Hj. apply (Hmin (S j) z Hz). lia.
Qed.

Lemma find_idx_None {A} (p : A -> bool) l :
  find_idx p l = None <-> forall x, x ∈ l -> p x = false.
Proof.
  induction l as [|x l IH]; simpl.
  - split; [|done]. intros _ y Hy. by apply not_elem_of_nil in Hy.
  - destruct (p x) eqn:Hp.
    + split; [done|]. intros H. rewrite H in Hp; [done|left].
    + rewrite fmap_None, IH. split.
      * intros H y [->|Hy]%elem_of_cons; auto.
      * intros H y Hy. apply H. by right.
Qed.

(** The first match stays the first while the list grows and each element keeps matching
    or not. *)
Lemma find_idx_grow {A} (p : A -> bool) l l' i : (forall j x, l !! j = Some x -> exists x', l' !! j = Some x' /\ p x' = p x) ->
  find_idx p l = Some i -> find_idx p l' = Some i.
Proof.
  intros Hg (x & Hi & Hp & Hm)%find_idx_Some. apply find_idx_Some. destruct (Hg _ _ Hi) as (x' & Hi' & Hp'). exists x'. split; [done|]. split; [congruence|].
  intros j y Hj Hlt. destruct (lookup_lt_is_Some_2 l j) as [z Hz]; [apply lookup_lt_Some in Hi; lia|]. destruct (Hg _ _ Hz) as (z' & Hz' & Hpz).
  assert (y = z') as -> by congruence. rewrite Hpz. by eapply Hm.
Qed.

(** Each element of the list remains, in its place, related by [R] to what it becomes. *)
Definition grows {A} (R : A -> A -> Prop) (l l' : list A) : Prop := forall i x, l !! i = Some x -> exists y, l' !! i = Some y /\ R x y.
#[export] Instance grows_refl {A} (R : A -> A -> Prop) `{!Reflexive R} : Reflexive (grows R).
Proof. intros l i x Hi. by exists x. Qed.
#[export] Instance grows_trans {A} (R : A -> A -> Prop) `{!Transitive R} : Transitive (grows R).
Proof. intros l1 l2 l3 H12 H23 i x Hi. destruct (H12 i x Hi) as (y & Hy & Hxy). destruct (H23 i y Hy) as (z & Hz & Hyz). exists z. split; [done|]. by transitivity y. Qed.
Lemma grows_app {A} (R : A -> A -> Prop) `{!Reflexive R} l l' : grows R l (l ++ l').
Proof. intros i x Hi. exists x. split; [by apply lookup_app_l_Some|done]. Qed.
Lemma grows_insert {A} (R : A -> A -> Prop) `{!Reflexive R} l i x y : l !! i = Some x -> R x y -> grows R l (<[i := y]> l).
Proof.
  intros Hi Hxy j z Hj. destruct (decide (i = j)) as [<-|Hne]; [|exists z; by rewrite list_lookup_insert_ne by done].
  exists y. split; [apply list_lookup_insert_eq; by eapply lookup_lt_Some|]. congruence.
Qed.
Lemma grows_alter {A} (R : A -> A -> Prop) `{!Reflexive R} l i f : (forall x, R x (f x)) -> grows R l (alter f i l).
Proof.
  intros Hf j z Hj. destruct (decide (i = j)) as [<-|Hne]; [exists (f z); by rewrite list_lookup_alter_eq, Hj|exists z; by rewrite list_lookup_alter_ne by done].
Qed.
Lemma grows_find {A} (R : A -> A -> Prop) (p : A -> bool) l l' i : (forall x y, R x y -> p y = p x) -> grows R l l' -> find_idx p l = Some i -> find_idx p l' = Some i.
Proof. intros Hp Hg. apply find_idx_grow. intros j x Hj. destruct (Hg j x Hj) as (y & Hy & Hxy). exists y. split; [done|]. by apply Hp. Qed.

(** The [int] of a search: the index, or -1. *)
Definition idx_int (o : option nat) : Z := from_option Z.of_nat (-1) o.

(** ** Counting *)
Definition count_if {A} (p : A -> bool) (l : list A) : nat := length (List.filter p l).

Lemma count_if_app {A} (p : A -> bool) l l' : count_if p (l ++ l') = (count_if p l + count_if p l')%nat.
Proof. unfold count_if. by rewrite List.filter_app, length_app. Qed.
Definition b2z (b : bool) : Z := if b then 1 else 0.

Lemma count_if_insert {A} (f : A -> bool) l k x y :
  l !! k = Some x ->
  Z.of_nat (count_if f (<[k := y]> l)) + b2z (f x) = Z.of_nat (count_if f l) + b2z (f y).
Proof.
  unfold count_if. revert k. induction l as [|z l IH]; intros [|k] Hk; simplify_eq/=.
  - destruct (f x), (f y); cbn [length b2z]; lia.
  - specialize (IH k Hk). destruct (f z); cbn [length]; lia.
Qed.

Lemma count_if_flip {A} `{EqDecision A} (f g : A -> bool) l x :
  NoDup l -> x ∈ l -> f x = true -> g x = false -> (forall y, y <> x -> g y = f y) ->
  count_if f l = S (count_if g l).
Proof.
  intros Hnd Hx Hf Hg Heq. unfold count_if.
  induction l as [|y l IH]; [by apply not_elem_of_nil in Hx|].
  apply NoDup_cons in Hnd as [Hy Hnd]. simpl.
  apply elem_of_cons in Hx as [->|Hx].
  - rewrite Hf, Hg. simpl. f_equal. f_equal. apply List.filter_ext_in.
    intros z Hz%list_elem_of_In. symmetry. apply Heq. by intros ->.
  - assert (y <> x) by (by intros ->). rewrite (Heq y) by done.
    destruct (f y); simpl; by rewrite IH.
Qed.

Lemma count_if_ext {A} (f g : A -> bool) l :
  (forall y, y ∈ l -> g y = f y) -> count_if g l = count_if f l.
Proof.
  intros H. unfold count_if. f_equal. apply List.filter_ext_in. intros y Hy.
  apply H. by apply list_elem_of_In.
Qed.

Lemma count_if_true {A} (l : list A) : count_if (fun _ => true) l = length l.
Proof. unfold count_if. induction l as [|x l IH]; simpl; [done|by rewrite IH]. Qed.

Lemma filter_all_false {A} (p : A -> bool) l : (forall x, x ∈ l -> p x = false) -> List.filter p l = [].
Proof.
  induction l as [|x l IH]; intros H; cbn; [done|].
  rewrite H by left. apply IH. intros. apply H. by right.
Qed.

Lemma filter_bool_Permutation {A} (p : A -> bool) l l' : l ≡ₚ l' -> List.filter p l ≡ₚ List.filter p l'.
Proof.
  induction 1 as [| | |? ? ? ? ? ? ?]; cbn; repeat case_match; try done.
  - by f_equiv.
  - by constructor.
  - by etransitivity.
Qed.

(** ** Array cells.  [a[i] = f(a[i])] and the exchange of two cells. *)
Definition swap {A} (i j : nat) (l : list A) : list A :=
  match l !! i, l !! j with
  | Some x, Some y => <[j := x]> (<[i := y]> l)
  | _, _ => l
  end.

Lemma alter_insert {A} (f : A -> A) i x (l : list A) :
  l !! i = Some x -> alter f i l = <[i := f x]> l.
Proof.
  revert i. induction l as [|y l IH]; intros [|i] H; simplify_eq/=; [done|].
  f_equal. by apply IH.
Qed.

Lemma alter_lookup_Some {A} (f : A -> A) i j (l : list A) y :
  alter f i l !! j = Some y ->
  (i = j /\ exists x, l !! j = Some x /\ y = f x) \/ (i <> j /\ l !! j = Some y).
Proof.
  destruct (decide (i = j)) as [->|Hne].
  - rewrite list_lookup_alter_eq. intros (x & Hx & ->)%fmap_Some. eauto.
  - rewrite list_lookup_alter_ne by done. eauto.
Qed.

Lemma swap_length {A} i j (l : list A) : length (swap i j l) = length l.
Proof. unfold swap. repeat case_match; by rewrite ?length_insert. Qed.

Lemma swap_lookup {A} i j k (l : list A) :
  (i < length l)%nat -> (j < length l)%nat ->
  swap i j l !! k = if decide (k = j) then l !! i else if decide (k = i) then l !! j else l !! k.
Proof.
  intros Hi Hj. unfold swap.
  destruct (lookup_lt_is_Some_2 l i Hi) as [x Hx], (lookup_lt_is_Some_2 l j Hj) as [y Hy].
  rewrite Hx, Hy. case_decide; subst.
  { rewrite list_lookup_insert_eq; [done|]. by rewrite length_insert. }
  rewrite list_lookup_insert_ne by done. case_decide; subst.
  { by rewrite list_lookup_insert_eq. }
  by rewrite list_lookup_insert_ne.
Qed.

Lemma swap_Permutation {A} i j (l : list A) : swap i j l ≡ₚ l.
Proof.
  unfold swap. destruct (l !! i) as [x|] eqn:Hx; [|done].
  destruct (l !! j) as [y|] eqn:Hy; [|done].
  destruct (decide (i = j)) as [->|Hne].
  { simplify_eq. by rewrite list_insert_insert_eq, list_insert_id. }
  assert (Hj : (j < length l)%nat) by (eapply lookup_lt_Some; eauto).
  assert (Hi : (i < length l)%nat) by (eapply lookup_lt_Some; eauto).
  apply Permutation_inj. rewrite !length_insert. split; [done|].
  exists (fun k => if decide (k = j) then i else if decide (k = i) then j else k).
  split.
  - intros a b. repeat case_decide; congruence.
  - intros k. pose proof (swap_lookup i j k l Hi Hj) as H. unfold swap in H.
    rewrite Hx, Hy in H. rewrite H. repeat case_decide; done.
Qed.

(** [a[i] = a[--count]]: the last live cell replaces cell [i] and the array shrinks. *)
Definition swap_remove {A} (i : nat) (l : list A) : list A :=
  match last l with
  | Some x => take (length l - 1) (<[i := x]> l)
  | None => l
  end.

Lemma swap_remove_Permutation {A} i x (l : list A) :
  l !! i = Some x -> l ≡ₚ x :: swap_remove i l.
Proof.
  intros Hi. unfold swap_remove. destruct (last l) as [y|] eqn:Hl.
  2: { apply last_None in Hl as ->. done. }
  apply last_Some in Hl as [l' ->]. rewrite length_app. simpl.
  replace (length l' + 1 - 1)%nat with (length l') by lia.
  destruct (decide (i < length l')%nat) as [Hlt|Hge].
  - rewrite insert_app_l by done. rewrite take_app_length' by (by rewrite length_insert).
    rewrite lookup_app_l in Hi by done.
    apply list_elem_of_split_length in Hi as (l1 & l2 & -> & ->).
    rewrite insert_app_r_alt, Nat.sub_diag by done. simpl.
    rewrite <- app_assoc. simpl. rewrite <- Permutation_middle. f_equiv.
    f_equiv. by rewrite Permutation_app_comm.
  - assert (i = length l') as ->.
    { apply lookup_lt_Some in Hi. rewrite length_app in Hi. simpl in Hi. lia. }
    rewrite lookup_app_r, Nat.sub_diag in Hi by lia. simpl in Hi. simplify_eq.
    rewrite list_insert_id; [|by rewrite lookup_app_r, Nat.sub_diag by lia].
    rewrite take_app_length, Permutation_app_comm. done.
Qed.

Lemma swap_remove_length {A} i x (l : list A) :
  l !! i = Some x -> length l = S (length (swap_remove i l)).
Proof. intros H. by rewrite (swap_remove_Permutation i x l H) at 1. Qed.

Lemma swap_remove_NoDup {A} i x (l : list A) :
  l !! i = Some x -> NoDup l -> NoDup (swap_remove i l).
Proof. intros H. rewrite (swap_remove_Permutation i x l H) at 1. by intros [_ ?]%NoDup_cons. Qed.

Lemma elem_of_swap_remove {A} i x (l : list A) :
  l !! i = Some x -> NoDup l -> forall y, y ∈ swap_remove i l <-> y ∈ l /\ y <> x.
Proof.
  intros H Hnd y. pose proof (swap_remove_Permutation i x l H) as Hp.
  rewrite Hp in Hnd. apply NoDup_cons in Hnd as [Hx _].
  assert (forall l', l ≡ₚ l' -> y ∈ l <-> y ∈ l') as Hel by (by intros l' ->).
  rewrite (Hel _ Hp).
  rewrite elem_of_cons. split; [|naive_solver]. intros Hy. split; [by right|].
  by intros ->.
Qed.

Lemma swap_remove_lookup {A} k i (l : list A) :
  (k < length l)%nat -> (i < length l - 1)%nat ->
  swap_remove k l !! i = l !! (if decide (i = k) then (length l - 1)%nat else i).
Proof.
  intros Hk Hi. unfold swap_remove. destruct (last l) as [y|] eqn:Hl.
  2: { apply last_None in Hl as ->. simpl in *. lia. }
  rewrite lookup_take_lt by done. case_decide; subst.
  - rewrite list_lookup_insert_eq by done. rewrite <- Hl, last_lookup. f_equal. lia.
  - by rewrite list_lookup_insert_ne.
Qed.

(** ** Ring buffers of [n] cells: positions less than [n] apart are distinct cells. *)
Lemma ring_distinct n a b : (a < b < a + n)%nat -> (a mod n <> b mod n)%nat.
Proof.
  intros Hab He. pose proof (Nat.div_mod a n ltac:(lia)) as Ha.
  pose proof (Nat.div_mod b n ltac:(lia)) as Hb. rewrite He in Ha.
  assert (b = a + n * (b / n - a / n))%nat as Hd by nia.
  destruct (b / n - a / n)%nat eqn:Hq; nia.
Qed.

Lemma ring_back n a i : (i < a)%nat -> (i < n)%nat ->
  ((a mod n + n - 1 - i) mod n = (a - 1 - i) mod n)%nat.
Proof.
  intros Ha Hi. replace (a mod n + n - 1 - i)%nat with (a mod n + (n - 1 - i))%nat by lia.
  rewrite Nat.Div0.add_mod_idemp_l.
  replace (a + (n - 1 - i))%nat with ((a - 1 - i) + 1 * n)%nat by lia.
  by rewrite Nat.Div0.mod_add.
Qed.

(** ** Pigeonhole: distinct naturals below [n] *)
Lemma NoDup_bounded_length (l : list nat) n :
  NoDup l -> (forall x, x ∈ l -> (x < n)%nat) -> (length l <= n)%nat.
Proof.
  intros Hnd Hb. rewrite <- (length_seq n 0). apply submseteq_length.
  apply NoDup_submseteq; [done|]. intros x Hx. apply elem_of_seq. specialize (Hb x Hx). lia.
Qed.

Lemma NoDup_bounded_full (l : list nat) n :
  NoDup l -> (forall x, x ∈ l -> (x < n)%nat) -> length l = n ->
  forall x, (x < n)%nat -> x ∈ l.
Proof.
  intros Hnd Hb Hlen x Hx. destruct (decide (x ∈ l)) as [|Hni]; [done|].
  assert (length (x :: l) <= n)%nat; [|simpl in *; lia].
  apply NoDup_bounded_length; [by constructor|].
  intros y [->|Hy]%elem_of_cons; auto.
Qed.

(** ** Tactics *)
(** Splits a goal's boolean guards one at a time and closes what is trivial. *)
Ltac guards := repeat (case_match || case_bool_decide || case_decide); simplify_eq/=; try done.

(** Turns boolean hypotheses on integers into propositions. *)
Ltac zbool :=
  repeat match goal with
  | H : (_ && _)%bool = true |- _ => apply andb_true_iff in H as [? ?]
  | H : (_ || _)%bool = false |- _ => apply orb_false_iff in H as [? ?]
  | H : negb _ = true |- _ => apply negb_true_iff in H
  | H : negb _ = false |- _ => apply negb_false_iff in H
  | H : (_ <? _) = true |- _ => apply Z.ltb_lt in H
  | H : (_ <? _) = false |- _ => apply Z.ltb_ge in H
  | H : (_ <=? _) = true |- _ => apply Z.leb_le in H
  | H : (_ <=? _) = false |- _ => apply Z.leb_gt in H
  | H : (_ =? _) = true |- _ => apply Z.eqb_eq in H
  | H : (_ =? _) = false |- _ => apply Z.eqb_neq in H
  | H : (_ >=? _) = _ |- _ => rewrite Z.geb_leb in H
  | H : (_ >? _) = _ |- _ => rewrite Z.gtb_ltb in H
  | H : (_ <? _)%nat = true |- _ => apply Nat.ltb_lt in H
  | H : (_ <? _)%nat = false |- _ => apply Nat.ltb_ge in H
  | H : (_ <=? _)%nat = true |- _ => apply Nat.leb_le in H
  | H : (_ <=? _)%nat = false |- _ => apply Nat.leb_gt in H
  | H : (_ =? _)%nat = true |- _ => apply Nat.eqb_eq in H
  | H : (_ =? _)%nat = false |- _ => apply Nat.eqb_neq in H
  end.
