(* ===== verification/Graph.v ===== *)
(** Finite directed graphs on the vertices [0 .. n-1], as the dependency graph
    of the job DAG sees them: edges, cycles, topological orders and the length
    of the paths that end at a vertex.  This file is pure graph theory; the
    code is in the files that use it. *)

From S2P Require Import Prelude.

Section graph.
Context (n : nat) (out : nat -> list nat).

Definition edge (u v : nat) : Prop := (u < n)%nat /\ (v < n)%nat /\ v ∈ out u.

#[export] Instance edge_dec u v : Decision (edge u v).
Proof. unfold edge. apply _. Defined.

Definition acyclic : Prop := forall v, ~ tc edge v v.

(** [u] is listed strictly before [v]. *)
Definition before (l : list nat) (u v : nat) : Prop :=
  exists i j, (i < j)%nat /\ l !! i = Some u /\ l !! j = Some v.

(** A topological order: every vertex once, every edge forward. *)
Definition topological (l : list nat) : Prop :=
  NoDup l /\ (forall v, v ∈ l <-> (v < n)%nat) /\ forall u v, edge u v -> before l u v.

Lemma before_app_r l1 l2 u v : before l1 u v -> before (l1 ++ l2) u v.
Proof.
  intros (i & j & Hij & Hi & Hj). exists i, j.
  rewrite !lookup_app_l by (eapply lookup_lt_Some; eauto). done.
Qed.

Lemma before_split l1 v l2 u : u ∈ l1 -> before (l1 ++ v :: l2) u v.
Proof.
  intros [i Hi]%list_elem_of_lookup. exists i, (length l1).
  pose proof (lookup_lt_Some _ _ _ Hi). split; [done|]. split.
  - by rewrite lookup_app_l.
  - by rewrite lookup_app_r, Nat.sub_diag by done.
Qed.

Lemma topological_length l : topological l -> length l = n.
Proof.
  intros (Hnd & Hel & _). apply Nat.le_antisymm.
  - apply NoDup_bounded_length; [done|]. naive_solver.
  - rewrite <- (length_seq n 0). apply submseteq_length, NoDup_submseteq; [apply NoDup_seq|].
    intros x Hx%elem_of_seq. apply Hel. lia.
Qed.

Lemma topological_tc l u v : topological l -> tc edge u v -> before l u v.
Proof.
  intros (Hnd & Hel & Hed) Htc. induction Htc as [u v Huv|u w v Huw _ IH]; [auto|].
  destruct (Hed u w Huw) as (i & j & Hij & Hi & Hj), IH as (i' & j' & Hij' & Hi' & Hj').
  rewrite NoDup_alt in Hnd. assert (j = i') as -> by eauto.
  exists i, j'. split; [lia|done].
Qed.

Lemma topological_acyclic l : topological l -> acyclic.
Proof.
  intros Hl v Hv. destruct (topological_tc l v v Hl Hv) as (i & j & Hij & Hi & Hj).
  destruct Hl as (Hnd & _). rewrite NoDup_alt in Hnd.
  assert (i = j) by eauto. lia.
Qed.

Lemma edge_tc_bound u v : tc edge u v -> (u < n)%nat /\ (v < n)%nat.
Proof. induction 1 as [u v H|u w v H _ IH]; unfold edge in *; naive_solver. Qed.

Lemma tc_flip u v : tc edge u v <-> tc (flip edge) v u.
Proof.
  split.
  - induction 1; [by apply tc_once|]. eapply tc_r; eauto.
  - induction 1; [by apply tc_once|]. eapply tc_r; eauto.
Qed.

(** In a finite acyclic graph one may argue by induction on the predecessors
    of a vertex, and on its successors. *)
Lemma acyclic_pred_ind (P : nat -> Prop) :
  acyclic ->
  (forall v, (v < n)%nat -> (forall u, edge u v -> P u) -> P v) ->
  forall v, (v < n)%nat -> P v.
Proof.
  intros Hac Hstep v. assert (sn (flip edge) v) as Hsn.
  { apply tc_finite_sn.
    - intros x Hx. apply (Hac x). by apply tc_flip.
    - exists (seq 0 n). intros x Hx. apply tc_flip, edge_tc_bound in Hx as [Hx _].
      apply elem_of_seq. lia. }
  induction Hsn as [v _ IH]. intros Hv. apply Hstep; [done|].
  intros u Hu. apply IH; [done|]. by destruct Hu.
Qed.

(** [plen v k]: some path of [k] vertices ends at [v]. *)
Inductive plen : nat -> Z -> Prop :=
  | plen_one v : (v < n)%nat -> plen v 1
  | plen_step u v k : plen u k -> edge u v -> plen v (k + 1).

Lemma plen_pos v k : plen v k -> 1 <= k.
Proof. induction 1; lia. Qed.

(** Adding the edge [f -> t] to an acyclic graph creates a cycle only when
    [f] was reachable from [t]. *)
Lemma acyclic_add_edge (edge' : relation nat) f t :
  (forall u v, edge' u v -> edge u v \/ (u = f /\ v = t)) ->
  acyclic -> ~ rtc edge t f -> forall v, ~ tc edge' v v.
Proof.
  intros Hsub Hac Hnr v Hv.
  assert (forall a b, tc edge' a b -> tc edge a b \/ (rtc edge a f /\ rtc edge t b)) as H.
  { clear v Hv. induction 1 as [a b Hab|a c b Hac' _ IH].
    - destruct (Hsub _ _ Hab) as [?|[-> ->]]; [left; by apply tc_once|]. by right.
    - destruct (Hsub _ _ Hac') as [He|[-> ->]], IH as [IH|[IH1 IH2]].
      + left. by eapply tc_l.
      + right. split; [|done]. by eapply rtc_l.
      + right. split; [done|]. by apply tc_rtc.
      + right. by split. }
  destruct (H v v Hv) as [Htc|[H1 H2]]; [by eapply Hac|].
  apply Hnr. by etransitivity.
Qed.

End graph.

Lemma edge_proper n out out' u v :
  (forall w, (w < n)%nat -> out w = out' w) -> edge n out u v <-> edge n out' u v.
Proof.
  intros H. unfold edge. split; intros (Hu & Hv & Hin); repeat split; try done.
  - by rewrite <- H.
  - by rewrite H.
Qed.

#[export] Hint Resolve before_app_r before_split : csim.
