(* ===== verification/Dfs.v ===== *)
(** Depth-first search in three colors, over the graphs of [Graph]: the invariant and the
    detection of cycles.  The job DAG and the container of services both search this way. *)

From S2P Require Import Prelude Graph.

(** ** Depth-first search for a cycle.  Colors: 0 white, 1 gray, 2 black.

    The pair is whether a successor was gray, and the colors. *)
Fixpoint detect (out : nat -> list nat) (fuel : nat) (u : nat) (color : list Z) : option (bool * list Z) :=
  match fuel with
  | O => None
  | S fuel' =>
      r ← foldl (fun acc v =>
                   s ← acc;
                   if s.1 : bool then Some s
                   else if s.2 !!! v =? 1 then Some (true, s.2)
                   else if s.2 !!! v =? 0 then detect out fuel' v s.2
                   else Some s)
                (Some (false, <[u := 1]> color)) (out u);
      if r.1 : bool then Some r else Some (false, <[u := 2]> r.2)
  end.

(** ** The invariant: black nodes, listed by finishing time *)

Section dfs.
Context (n : nat) (out : nat -> list nat) (Hout : forall u v, v ∈ out u -> edge n out u v).

(** [order] lists the black nodes, the last finished first; a black node's
    successors all finished before it. *)
Record dfs_inv (C : list Z) (order : list nat) : Prop := {
  di_len : (n <= length C)%nat;
  di_range : forall v, (v < n)%nat -> C !!! v = 0 \/ C !!! v = 1 \/ C !!! v = 2;
  di_black : forall v, (v < n)%nat -> C !!! v = 2 <-> v ∈ order;
  di_bound : forall v, v ∈ order -> (v < n)%nat;
  di_nodup : NoDup order;
  di_order : forall l1 v l2, order = l1 ++ v :: l2 -> forall w, w ∈ out v -> w ∈ l2;
}.

Definition whites (C : list Z) : nat := count_if (fun v => C !!! v =? 0) (seq 0 n).

(** Visits only turn white nodes black. *)
Definition dfs_ext (C C' : list Z) : Prop :=
  forall v, (v < n)%nat ->
    (C !!! v <> 0 -> C' !!! v = C !!! v) /\ (C !!! v = 0 -> C' !!! v = 0 \/ C' !!! v = 2).

Lemma dfs_ext_refl C : dfs_ext C C.
Proof. intros v Hv. split; [done|by left]. Qed.

Lemma dfs_ext_trans C1 C2 C3 : dfs_ext C1 C2 -> dfs_ext C2 C3 -> dfs_ext C1 C3.
Proof.
  intros H12 H23 v Hv. destruct (H12 v Hv) as [A1 B1], (H23 v Hv) as [A2 B2]. split.
  - intros H. rewrite A2; rewrite A1; done.
  - intros H. destruct (B1 H) as [H2|H2]; [by apply B2|]. right. rewrite A2; lia.
Qed.

Lemma whites_le C C' : dfs_ext C C' -> (whites C' <= whites C)%nat.
Proof.
  intros H. unfold whites. assert (forall v, v ∈ seq 0 n -> (v < n)%nat) as Hb.
  { intros v Hv%elem_of_seq. lia. }
  revert Hb. generalize (seq 0 n). intros l Hb. unfold count_if.
  induction l as [|v l IH]; [done|]. simpl.
  destruct (H v) as [A B]; [apply Hb; by left|].
  specialize (IH ltac:(intros w Hw; apply Hb; by right)).
  destruct (Z.eqb_spec (C' !!! v) 0), (Z.eqb_spec (C !!! v) 0); simpl; lia.
Qed.

Lemma whites_gray C u :
  (u < n)%nat -> (n <= length C)%nat -> C !!! u = 0 ->
  whites C = S (whites (<[u := 1]> C)).
Proof.
  intros Hu Hlen H0. apply (count_if_flip _ _ _ u).
  - apply NoDup_seq.
  - apply elem_of_seq. lia.
  - by rewrite H0.
  - by rewrite list_lookup_total_insert_eq by lia.
  - intros y Hy. by rewrite list_lookup_total_insert_ne.
Qed.

Lemma dfs_inv_gray C order u :
  dfs_inv C order -> (u < n)%nat -> C !!! u = 0 -> dfs_inv (<[u := 1]> C) order.
Proof.
  intros [Hlen Hr Hb Hbd Hnd Ho] Hu H0. split; try done.
  - by rewrite length_insert.
  - intros v Hv. destruct (decide (v = u)) as [->|Hne].
    + rewrite list_lookup_total_insert_eq by lia. tauto.
    + rewrite list_lookup_total_insert_ne by done. auto.
  - intros v Hv. rewrite <- Hb by done. destruct (decide (v = u)) as [->|Hne].
    + rewrite list_lookup_total_insert_eq by lia. lia.
    + by rewrite list_lookup_total_insert_ne.
Qed.

Lemma dfs_inv_black C order u :
  dfs_inv C order -> (u < n)%nat -> C !!! u = 1 ->
  (forall w, w ∈ out u -> C !!! w = 2) -> dfs_inv (<[u := 2]> C) (u :: order).
Proof.
  intros [Hlen Hr Hb Hbd Hnd Ho] Hu H1 Hw.
  assert (Hu' : u ∉ order) by (rewrite <- Hb by done; lia). split.
  - by rewrite length_insert.
  - intros v Hv. destruct (decide (v = u)) as [->|Hne].
    + rewrite list_lookup_total_insert_eq by lia. tauto.
    + rewrite list_lookup_total_insert_ne by done. auto.
  - intros v Hv. rewrite elem_of_cons. destruct (decide (v = u)) as [->|Hne].
    + rewrite list_lookup_total_insert_eq by lia. naive_solver.
    + rewrite list_lookup_total_insert_ne by done. rewrite Hb by done. naive_solver.
  - intros v [->|Hv]%elem_of_cons; auto.
  - by constructor.
  - intros [|x l1] v l2 Heq w Hwv; simplify_eq/=.
    + apply Hout in Hwv as Hwn. apply Hb; [by apply Hwn|]. by apply Hw.
    + by eapply Ho.
Qed.

Lemma dfs_ext_black C C' u :
  (u < n)%nat -> (n <= length C)%nat -> (n <= length C')%nat ->
  C !!! u = 0 -> dfs_ext (<[u := 1]> C) C' -> dfs_ext C (<[u := 2]> C').
Proof.
  intros Hu Hlen Hlen' H0 He v Hv. destruct (He v Hv) as [A B].
  destruct (decide (v = u)) as [->|Hne].
  - rewrite list_lookup_total_insert_eq by lia. split; [done|by right].
  - rewrite !list_lookup_total_insert_ne in * by done. done.
Qed.

(** Gray nodes lead to the node being visited. *)
Definition gray_above (C : list Z) (u : nat) : Prop :=
  forall g, (g < n)%nat -> C !!! g = 1 -> tc (edge n out) g u.

Lemma gray_above_child C C' u v :
  gray_above C u -> (u < n)%nat -> (n <= length C)%nat ->
  dfs_ext (<[u := 1]> C) C' -> edge n out u v -> gray_above C' v.
Proof.
  intros Hg Hu Hlen He Huv g Hgn Hg1. destruct (He g Hgn) as [A B].
  destruct (decide (g = u)) as [->|Hne]; [by apply tc_once|].
  rewrite !list_lookup_total_insert_ne in A, B by done.
  eapply tc_r; [|done]. apply Hg; [done|]. destruct (decide (C !!! g = 0)) as [H0|H0].
  - destruct (B H0); lia.
  - by rewrite A in Hg1.
Qed.

Lemma gray_stays C C' u :
  (u < n)%nat -> (n <= length C)%nat ->
  dfs_ext (<[u := 1]> C) C' -> C' !!! u = 1.
Proof.
  intros Hu Hlen He. destruct (He u Hu) as [A _].
  rewrite list_lookup_total_insert_eq in A by lia. by apply A.
Qed.

(** ** Cycle detection *)

(** A cycle that can be reached from [u]. *)
Definition cycle_from (u : nat) : Prop := exists v, rtc (edge n out) u v /\ tc (edge n out) v v.
Lemma cycle_from_cyclic u : cycle_from u -> ~ acyclic n out.
Proof. intros (v & _ & Hv) Hac. by apply (Hac v). Qed.

Definition detect_ok (fuel : nat) : Prop :=
  forall u C order,
    dfs_inv C order -> (u < n)%nat -> C !!! u = 0 -> gray_above C u ->
    (whites C <= fuel)%nat ->
    exists b C', detect out fuel u C = Some (b, C') /\
      if b : bool then cycle_from u
      else exists order', dfs_inv C' order' /\ dfs_ext C C' /\ C' !!! u = 2.

Definition detect_round (fuel : nat) (acc : option (bool * list Z)) (v : nat) : option (bool * list Z) :=
  s ← acc;
  if s.1 : bool then Some s
  else if s.2 !!! v =? 1 then Some (true, s.2)
  else if s.2 !!! v =? 0 then detect out fuel v s.2
  else Some s.

Lemma detect_round_found fuel C l : foldl (detect_round fuel) (Some (true, C)) l = Some (true, C).
Proof. induction l as [|v l IH]; [done|]. apply IH. Qed.

Lemma detect_loop fuel u C l :
  detect_ok fuel -> (u < n)%nat -> (n <= length C)%nat -> C !!! u = 0 ->
  gray_above C u -> (whites (<[u := 1%Z]> C) <= fuel)%nat -> (forall v, v ∈ l -> edge n out u v) ->
  forall C1 order1, dfs_inv C1 order1 -> dfs_ext (<[u := 1]> C) C1 ->
  exists b C2,
    foldl (detect_round fuel) (Some (false, C1)) l = Some (b, C2) /\
    if b : bool then cycle_from u
    else exists order2, dfs_inv C2 order2 /\ dfs_ext (<[u := 1]> C) C2 /\ dfs_ext C1 C2 /\
      forall v, v ∈ l -> C2 !!! v = 2.
Proof.
  intros Hvis Hu Hlen H0 Hg Hw Hedge. induction l as [|v l IH]; intros C1 order1 Hi He.
  { exists false, C1. split; [done|]. exists order1. split_and!; [done..|apply dfs_ext_refl|].
    intros v Hv. by apply not_elem_of_nil in Hv. }
  assert (Huv : edge n out u v) by (apply Hedge; by left).
  assert (Hv : (v < n)%nat) by apply Huv.
  assert (Hga : gray_above C1 v) by (by eapply gray_above_child).
  assert (exists b C', detect_round fuel (Some (false, C1)) v = Some (b, C') /\
      if b : bool then cycle_from u
      else exists order', dfs_inv C' order' /\ dfs_ext C1 C' /\ C' !!! v = 2)
    as (b & C' & Hrun & Hb).
  { unfold detect_round. cbn [mbind option_bind fst snd].
    destruct (Z.eqb_spec (C1 !!! v) 1) as [H1|H1].
    - exists true, C1. split; [done|]. exists v. split; [by apply rtc_once|by apply Hga].
    - destruct (Z.eqb_spec (C1 !!! v) 0) as [Hz|Hnz].
      + destruct (Hvis v C1 order1) as (b & C' & -> & Hb); [done..|etransitivity; [by apply whites_le|done]|].
        exists b, C'. split; [done|]. destruct b; [|done]. destruct Hb as (x & Hx1 & Hx2). exists x. split; [by eapply rtc_l|done].
      + exists false, C1. split; [done|]. exists order1. split_and!; [done|apply dfs_ext_refl|].
        by destruct (di_range _ _ Hi v Hv) as [?|[?|?]]. }
  cbn [foldl]. rewrite Hrun. destruct b.
  { exists true, C'. by rewrite detect_round_found. }
  destruct Hb as (order' & Hi' & He' & Hb).
  destruct IH with (C1 := C') (order1 := order') as (b2 & C2 & Hf & Hb2).
  { intros w Hw'. apply Hedge. by right. } { done. } { by eapply dfs_ext_trans. }
  exists b2, C2. split; [done|]. destruct b2; [done|].
  destruct Hb2 as (order2 & Hi2 & He2 & He2' & Hall). exists order2. split_and!; try done.
  - by eapply dfs_ext_trans.
  - intros w [->|Hw']%elem_of_cons; [|by apply Hall]. destruct (He2' v Hv) as [A _]. rewrite A; lia.
Qed.

Lemma detect_correct fuel : detect_ok fuel.
Proof.
  induction fuel as [|fuel IH]; intros u C order Hi Hu H0 Hg Hw.
  { rewrite (whites_gray C u) in Hw by (done || apply Hi). lia. }
  pose proof (di_len _ _ Hi) as Hlen. rewrite (whites_gray C u) in Hw by done.
  destruct (detect_loop fuel u C (out u) IH Hu Hlen H0 Hg) with
    (C1 := <[u := 1]> C) (order1 := order) as (b & C2 & Hf & Hb).
  { lia. } { intros v Hv. by apply Hout. } { by apply dfs_inv_gray. } { apply dfs_ext_refl. }
  cbn [detect].
  change (foldl _ _ _) with (foldl (detect_round fuel) (Some (false, <[u := 1]> C)) (out u)).
  rewrite Hf. cbn [mbind option_bind fst snd]. destruct b; [by exists true, C2|].
  destruct Hb as (order2 & Hi2 & He2 & _ & Hall).
  exists false, (<[u := 2]> C2). split; [done|]. exists (u :: order2). split_and!.
  - apply dfs_inv_black; [done..|by eapply gray_stays|done].
  - eapply dfs_ext_black; try done. apply Hi2.
  - rewrite list_lookup_total_insert_eq; [done|]. pose proof (di_len _ _ Hi2). lia.
Qed.

(** ** The outer loops *)

Definition no_gray (C : list Z) : Prop := forall v, (v < n)%nat -> C !!! v <> 1.

Lemma no_gray_above C u : no_gray C -> gray_above C u.
Proof. intros H g Hg H1. by apply H in H1. Qed.

Lemma no_gray_ext C C' : no_gray C -> dfs_ext C C' -> no_gray C'.
Proof.
  intros H He v Hv. destruct (He v Hv) as [A B]. specialize (H v Hv).
  destruct (decide (C !!! v = 0)) as [H0|H0]; [destruct (B H0); lia|rewrite A; done].
Qed.

Lemma whites_bound C : (whites C <= S n)%nat.
Proof.
  unfold whites, count_if. pose proof (filter_length_le (fun v => C !!! v =? 0) (seq 0 n)) as H.
  rewrite length_seq in H. lia.
Qed.

Lemma black_topological C order :
  dfs_inv C order -> (forall v, (v < n)%nat -> C !!! v = 2) ->
  topological n out order.
Proof.
  intros [Hlen _ Hb Hbd Hnd Ho] Hall. split; [done|]. split.
  - intros v. split; [apply Hbd|]. intros Hv. apply Hb; auto.
  - intros u v Huv. assert (Hu : u ∈ order) by (apply Hb; [apply Huv|apply Hall, Huv]).
    apply list_elem_of_split in Hu as (l1 & l2 & ->).
    assert (v ∈ l2) as [k Hk]%list_elem_of_lookup by (eapply Ho; [done|apply Huv]).
    exists (length l1), (length l1 + S k)%nat. split; [lia|].
    rewrite !lookup_app_r, Nat.sub_diag by lia.
    by replace (length l1 + S k - length l1)%nat with (S k) by lia.
Qed.

Lemma dfs_inv_init size :
  (n <= size)%nat -> dfs_inv (replicate size 0) [] /\
  no_gray (replicate size 0).
Proof.
  intros Hn. assert (Hz : forall v, (v < n)%nat -> replicate size 0 !!! v = 0).
  { intros v Hv. apply lookup_total_replicate_2. lia. }
  split; [|intros v Hv; by rewrite Hz]. split.
  - by rewrite length_replicate.
  - intros v Hv. left. by apply Hz.
  - intros v Hv. rewrite Hz by done. split; [done|]. intros Hx. by apply not_elem_of_nil in Hx.
  - intros v Hx. by apply not_elem_of_nil in Hx.
  - apply NoDup_nil_2.
  - intros l1 v l2 Heq. by destruct l1.
Qed.

(** Once a vertex is black there is no cycle behind it. *)
Lemma black_before C order v w : dfs_inv C order -> v ∈ order -> tc (edge n out) v w -> before order v w.
Proof.
  intros Hi Hv Htc. assert (Hstep : forall a b, a ∈ order -> edge n out a b -> before order a b).
  { intros a b Ha Hab. apply list_elem_of_split in Ha as (l1 & l2 & ->). assert (b ∈ l2) as [k Hk]%list_elem_of_lookup by (eapply (di_order _ _ Hi); [done|apply Hab]).
    exists (length l1), (length l1 + S k)%nat. split; [lia|]. rewrite !lookup_app_r, Nat.sub_diag by lia. by replace (length l1 + S k - length l1)%nat with (S k) by lia. }
  induction Htc as [a b Hab|a c b Hac _ IH]; [auto|]. destruct (Hstep a c Hv Hac) as (i & j & Hij & Hi1 & Hj1).
  destruct IH as (i' & j' & Hij' & Hi2 & Hj2); [by eapply list_elem_of_lookup_2|]. pose proof (di_nodup _ _ Hi) as Hnd. rewrite NoDup_alt in Hnd.
  assert (j = i') as -> by eauto. exists i, j'. split; [lia|done].
Qed.
Lemma black_no_cycle C order u : dfs_inv C order -> (u < n)%nat -> C !!! u = 2 -> ~ cycle_from u.
Proof.
  intros Hi Hu H2 (v & Hr & Hv). assert (Huo : u ∈ order) by by apply (di_black _ _ Hi).
  assert (Hvo : v ∈ order).
  { apply rtc_tc in Hr as [<-|Ht]; [done|]. destruct (black_before _ _ _ _ Hi Huo Ht) as (i & j & _ & _ & Hj). by eapply list_elem_of_lookup_2. }
  destruct (black_before _ _ _ _ Hi Hvo Hv) as (i & j & Hij & H1 & H3). pose proof (di_nodup _ _ Hi) as Hnd. rewrite NoDup_alt in Hnd. assert (i = j) by eauto. lia.
Qed.
(** A search from one vertex finds a cycle exactly when one can be reached from it. *)
Lemma detect_from size u : (n <= size)%nat -> (u < n)%nat -> exists b C, detect out (S n) u (replicate size 0) = Some (b, C) /\ (b = true <-> cycle_from u).
Proof.
  intros Hn Hu. destruct (dfs_inv_init size Hn) as [Hi Hg]. assert (H0 : replicate size 0 !!! u = 0) by (apply lookup_total_replicate_2; lia).
  destruct (detect_correct (S n) u _ _ Hi Hu H0 (no_gray_above _ _ Hg) (whites_bound _)) as (b & C & Hr & Hb). exists b, C. split; [done|]. destruct b; [done|].
  destruct Hb as (order & Hi' & _ & H2). split; [done|]. intros Hc. by destruct (black_no_cycle _ _ _ Hi' Hu H2).
Qed.

End dfs.
