(* ===== verification/JobDag.v ===== *)
(** Model of [mini-job-system/src/job_dag.c]: the job dependency DAG, its node
    and edge management, the cycle guard of [jdag_add_edge] and the execution
    bookkeeping ([jdag_mark_completed], [jdag_mark_failed]).

    A node's [in_edges]/[out_edges] arrays are the live prefixes of the C
    arrays, so [in_count] and [out_count] are their lengths, and [node_count]
    is the length of [nodes].  The sorting and cycle-detection algorithms are
    in the JobDag* files that follow. *)

From S2P Require Import Prelude Graph.

Definition JDAG_MAX_NODES : nat := 128.
Definition JDAG_MAX_NAME : nat := 64.
#[global] Arguments JDAG_MAX_NODES : simpl never.
#[global] Arguments JDAG_MAX_NAME : simpl never.

Inductive jdag_node_state :=
  | NODE_PENDING | NODE_READY | NODE_RUNNING | NODE_COMPLETED | NODE_FAILED | NODE_SKIPPED.

#[export] Instance jdag_node_state_eq_dec : EqDecision jdag_node_state.
Proof. solve_decision. Defined.

Record jdag_node := mk_node {
  node_id : Z;
  node_name : string;
  node_state : jdag_node_state;
  indegree : Z;
  outdegree : Z;
  in_edges : list nat;
  out_edges : list nat;
  node_priority : Z;
  completed_at : Z;
}.

#[export] Instance jdag_node_inhabited : Inhabited jdag_node :=
  populate (mk_node 0 "" NODE_PENDING 0 0 [] [] 0 0).

Record jdag := mk_dag {
  nodes : list jdag_node;
  max_nodes : Z;
  edge_count : Z;
}.

Definition node_count (dag : jdag) : nat := length (nodes dag).
Definition node (dag : jdag) (i : nat) : jdag_node := nodes dag !!! i.

Definition jdag_create (max_nodes : Z) : jdag :=
  mk_dag []
    (if (0 <? max_nodes) && (max_nodes <=? Z.of_nat JDAG_MAX_NODES)
     then max_nodes else Z.of_nat JDAG_MAX_NODES)
    0.

(** ** Nodes *)

(** The loop of [jdag_find_node]; the C function returns -1 for [None]. *)
Definition find_node (dag : jdag) (id : Z) : option nat :=
  find_idx (fun nd => node_id nd =? id) (nodes dag).

Definition jdag_find_node (dag : jdag) (id : Z) : Z := idx_int (find_node dag id).

Definition jdag_add_node (dag : jdag) (id : Z) (name : option string) (priority : Z)
    : Z * jdag :=
  if max_nodes dag <=? Z.of_nat (node_count dag) then (-2, dag)
  else if existsb (fun nd => node_id nd =? id) (nodes dag) then (-3, dag)
  else
    let nm := match name with
              | Some s => str_take (JDAG_MAX_NAME - 1) s
              | None => str_take (JDAG_MAX_NAME - 1) (String.append "node_" (pretty id))
              end in
    let dag' := dag <| nodes ::= fun l => l ++ [mk_node id nm NODE_PENDING 0 0 [] [] priority 0] |> in
    (Z.of_nat (node_count dag') - 1, dag').

(** ** Edges *)

(** [out_edges[i] == ti]: the cell is overwritten by the last one. *)
Definition drop_out (ti : nat) (nd : jdag_node) : jdag_node :=
  match find_idx (Nat.eqb ti) (out_edges nd) with
  | Some i => nd <| out_edges ::= swap_remove i |> <| outdegree ::= Z.pred |>
  | None => nd
  end.

Definition drop_in (fi : nat) (nd : jdag_node) : jdag_node :=
  match find_idx (Nat.eqb fi) (in_edges nd) with
  | Some i => nd <| in_edges ::= swap_remove i |> <| indegree ::= Z.pred |>
  | None => nd
  end.

Definition jdag_remove_edge (dag : jdag) (from_id to_id : Z) : Z * jdag :=
  match find_node dag from_id, find_node dag to_id with
  | Some fi, Some ti =>
      (0, dag <| nodes ::= alter (drop_out ti) fi |>
              <| nodes ::= alter (drop_in fi) ti |>
              <| edge_count ::= Z.pred |>)
  | _, _ => (-2, dag)
  end.

(** One round of the first loop of [jdag_remove_node]. *)
Definition remove_node_edges (id : Z) (idx : nat) (dag : jdag) (i : nat) : jdag :=
  if (i =? idx)%nat then dag
  else
    let dag1 := (jdag_remove_edge dag (node_id (node dag i)) id).2 in
    (jdag_remove_edge dag1 id (node_id (node dag1 i))).2.

(** The index shift: references to the moved node [last] become [idx]. *)
Definition reindex (last idx : nat) (nd : jdag_node) : jdag_node :=
  let f k := if (k =? last)%nat then idx else k in
  nd <| in_edges ::= map f |> <| out_edges ::= map f |>.

Definition jdag_remove_node (dag : jdag) (id : Z) : Z * jdag :=
  match find_node dag id with
  | None => (-1, dag)
  | Some idx =>
      let dag1 := foldl (remove_node_edges id idx) dag (seq 0 (node_count dag)) in
      let dag2 := dag1 <| nodes ::= swap_remove idx |> in
      (0, dag2 <| nodes ::= map (reindex (node_count dag2) idx) |>)
  end.

(** ** The cycle guard: breadth-first search from [to_idx] for [from_idx] *)

Record bfs := mk_bfs {
  bfs_queue : list nat;      (* queue[0 .. qtail) *)
  bfs_head : nat;            (* qhead *)
  bfs_visited : list bool;   (* visited[0 .. JDAG_MAX_NODES) *)
  bfs_found : bool;          (* the [return 1] inside the loop *)
}.

Definition bfs_visit (target : nat) (s : bfs) (v : nat) : bfs :=
  if bfs_found s then s
  else if (v =? target)%nat then s <| bfs_found := true |>
  else if (bfs_visited s !!! v : bool) then s
  else s <| bfs_visited ::= <[v := true]> |> <| bfs_queue ::= fun q => q ++ [v] |>.

Definition bfs_body (dag : jdag) (target : nat) (s : bfs) : bfs :=
  let u := bfs_queue s !!! bfs_head s in
  foldl (bfs_visit target) (s <| bfs_head ::= S |>) (out_edges (node dag u)).

Definition bfs_cond (s : bfs) : bool :=
  negb (bfs_found s) && (bfs_head s <? length (bfs_queue s))%nat.

Definition bfs_run (dag : jdag) (from_idx to_idx : nat) : option bfs :=
  while_loop (node_count dag) bfs_cond (bfs_body dag from_idx)
    (mk_bfs [to_idx] 0 (<[to_idx := true]> (replicate JDAG_MAX_NODES false)) false).

Definition jdag_would_create_cycle (dag : jdag) (from_id to_id : Z) : option Z :=
  match find_node dag from_id, find_node dag to_id with
  | Some from_idx, Some to_idx =>
      if (from_idx =? to_idx)%nat then Some 1
      else s ← bfs_run dag from_idx to_idx; Some (c_bool (bfs_found s))
  | _, _ => Some 0
  end.

Definition link_out (ti : nat) (nd : jdag_node) : jdag_node :=
  nd <| out_edges ::= fun l => l ++ [ti] |> <| outdegree ::= Z.succ |>.
Definition link_in (fi : nat) (nd : jdag_node) : jdag_node :=
  nd <| in_edges ::= fun l => l ++ [fi] |> <| indegree ::= Z.succ |>.

Definition jdag_add_edge (dag : jdag) (from_id to_id : Z) : option (Z * jdag) :=
  match find_node dag from_id, find_node dag to_id with
  | Some fi, Some ti =>
      if (fi =? ti)%nat then Some (-3, dag)
      else if existsb (Nat.eqb ti) (out_edges (node dag fi)) then Some (-4, dag)
      else
        cyc ← jdag_would_create_cycle dag from_id to_id;
        if negb (cyc =? 0) then Some (-5, dag)
        else if (JDAG_MAX_NODES <=? length (out_edges (node dag fi)))%nat then Some (-6, dag)
        else if (JDAG_MAX_NODES <=? length (in_edges (node dag ti)))%nat then Some (-6, dag)
        else Some (0, dag <| nodes ::= alter (link_out ti) fi |>
                          <| nodes ::= alter (link_in fi) ti |>
                          <| edge_count ::= Z.succ |>)
  | _, _ => Some (-2, dag)
  end.

(** ** Execution bookkeeping *)

Definition is_ready (nd : jdag_node) : bool :=
  bool_decide (node_state nd = NODE_PENDING) && (indegree nd =? 0).

(** The ids written to [result], in node order, at most [max] of them. *)
Definition jdag_get_ready_nodes (dag : jdag) (max : Z) : list Z :=
  take (Z.to_nat max) (node_id <$> List.filter is_ready (nodes dag)).

Definition release (nd : jdag_node) : jdag_node :=
  if 0 <? indegree nd then nd <| indegree ::= Z.pred |> else nd.

Definition jdag_mark_completed (dag : jdag) (id now : Z) : Z * jdag :=
  match find_node dag id with
  | None => (-1, dag)
  | Some idx =>
      let dag1 := dag <| nodes ::= alter (fun nd => nd <| node_state := NODE_COMPLETED |>
                                                     <| completed_at := now |>) idx |> in
      (0, dag1 <| nodes ::= fun l => foldl (fun l succ => alter release succ l) l
                                           (out_edges (node dag1 idx)) |>)
  end.

Definition skip_pending (nd : jdag_node) : jdag_node :=
  if decide (node_state nd = NODE_PENDING) then nd <| node_state := NODE_SKIPPED |> else nd.

Definition jdag_mark_failed (dag : jdag) (id : Z) : Z * jdag :=
  match find_node dag id with
  | None => (-1, dag)
  | Some idx =>
      let dag1 := dag <| nodes ::= alter (fun nd => nd <| node_state := NODE_FAILED |>) idx |> in
      (0, dag1 <| nodes ::= fun l => foldl (fun l succ => alter skip_pending succ l) l
                                           (out_edges (node dag1 idx)) |>)
  end.

Definition jdag_node_count (dag : jdag) : Z := Z.of_nat (node_count dag).
Definition jdag_edge_count (dag : jdag) : Z := edge_count dag.

Definition jdag_get_all_nodes (dag : jdag) (max : Z) : list jdag_node :=
  take (Z.to_nat (Z.min (jdag_node_count dag) max)) (nodes dag).
