(* ===== verification/JobDagWf.v ===== *)
(** The well-formedness invariant of the job DAG and its preservation by every
    operation that edits the graph, the specification of the cycle guard, and
    what each edit does to the dependency relation between job ids. *)

From S2P Require Import Prelude Graph JobDag.

(** ** Abstraction: the graph of a DAG *)

Definition outs (dag : jdag) (i : nat) : list nat := out_edges (node dag i).
Definition ins (dag : jdag) (i : nat) : list nat := in_edges (node dag i).
Definition dedge (dag : jdag) : relation nat := edge (node_count dag) (outs dag).

(** Dependencies between jobs by id: the view a client has. *)
Definition depends (dag : jdag) (a b : Z) : Prop :=
  exists i j, dedge dag i j /\ node_id (node dag i) = a /\ node_id (node dag j) = b.

(** Both adjacency arrays describe the same edges, without duplicates. *)
Record links_ok (dag : jdag) : Prop := {
  lo_out : forall i j, j ∈ outs dag i -> (j < node_count dag)%nat /\ i ∈ ins dag j;
  lo_in : forall i j, j ∈ ins dag i -> (j < node_count dag)%nat /\ i ∈ outs dag j;
  lo_nodup_out : forall i, NoDup (outs dag i);
  lo_nodup_in : forall i, NoDup (ins dag i);
}.

(** The degree counters agree with the arrays. *)
Definition deg_ok (nd : jdag_node) : Prop :=
  indegree nd = Z.of_nat (length (in_edges nd)) /\
  outdegree nd = Z.of_nat (length (out_edges nd)).

Record dag_ok (dag : jdag) : Prop := {
  do_size : Z.of_nat (node_count dag) <= max_nodes dag <= Z.of_nat JDAG_MAX_NODES;
  do_ids : NoDup (node_id <$> nodes dag);
  do_links : links_ok dag;
  do_deg : forall i, deg_ok (node dag i);
  do_acyclic : acyclic (node_count dag) (outs dag);
}.

(** ** Access to nodes *)

Lemma node_lookup dag i nd : nodes dag !! i = Some nd -> node dag i = nd.
Proof. apply list_lookup_total_correct. Qed.

Lemma node_lookup_lt dag i : (i < node_count dag)%nat -> nodes dag !! i = Some (node dag i).
Proof. apply list_lookup_lookup_total_lt. Qed.

Lemma node_ge dag i : (node_count dag <= i)%nat -> node dag i = inhabitant.
Proof. intros. unfold node. rewrite list_lookup_total_alt, lookup_ge_None_2; done. Qed.

Lemma outs_lt dag i j : j ∈ outs dag i -> (i < node_count dag)%nat.
Proof.
  intros H. destruct (decide (i < node_count dag)%nat); [done|].
  unfold outs in H. rewrite node_ge in H by lia. by apply not_elem_of_nil in H.
Qed.

Lemma ins_lt dag i j : j ∈ ins dag i -> (i < node_count dag)%nat.
Proof.
  intros H. destruct (decide (i < node_count dag)%nat); [done|].
  unfold ins in H. rewrite node_ge in H by lia. by apply not_elem_of_nil in H.
Qed.

Lemma dedge_alt dag i j : links_ok dag -> dedge dag i j <-> j ∈ outs dag i.
Proof.
  intros H. unfold dedge, edge. split; [naive_solver|]. intros Hj.
  repeat split; [by eapply outs_lt|by eapply lo_out|done].
Qed.

Lemma count_alter f i dag : node_count (dag <| nodes ::= alter f i |>) = node_count dag.
Proof. unfold node_count. cbn. apply length_alter. Qed.

Lemma node_alter f i j dag :
  (i < node_count dag)%nat ->
  node (dag <| nodes ::= alter f i |>) j = if decide (j = i) then f (node dag i) else node dag j.
Proof.
  intros Hi. unfold node. cbn. rewrite !list_lookup_total_alt.
  case_decide; subst.
  - rewrite list_lookup_alter_eq. pose proof (node_lookup_lt dag i Hi) as ->. done.
  - by rewrite list_lookup_alter_ne.
Qed.

Lemma find_node_Some dag id i :
  find_node dag id = Some i -> (i < node_count dag)%nat /\ node_id (node dag i) = id.
Proof.
  intros (nd & Hnd & Hid & _)%find_idx_Some. apply Z.eqb_eq in Hid.
  rewrite (node_lookup _ _ _ Hnd). split; [by eapply lookup_lt_Some|done].
Qed.

Lemma find_node_id dag i :
  NoDup (node_id <$> nodes dag) -> (i < node_count dag)%nat ->
  find_node dag (node_id (node dag i)) = Some i.
Proof.
  intros Hnd Hi. pose proof (node_lookup_lt dag i Hi) as Hl.
  apply find_idx_Some. exists (node dag i). split; [done|]. split; [by apply Z.eqb_refl|].
  intros j nd Hj Hlt. apply Z.eqb_neq. intros He. rewrite NoDup_alt in Hnd.
  assert (j = i); [|lia]. eapply Hnd; rewrite list_lookup_fmap.
  - rewrite Hj. simpl. by rewrite He.
  - by rewrite Hl.
Qed.

Lemma find_node_None dag id : find_node dag id = None -> id ∉ node_id <$> nodes dag.
Proof.
  intros H (nd & -> & Hnd)%list_elem_of_fmap.
  apply (proj1 (find_idx_None _ _) H) in Hnd. by rewrite Z.eqb_refl in Hnd.
Qed.

Lemma node_id_inj dag i j :
  NoDup (node_id <$> nodes dag) -> (i < node_count dag)%nat -> (j < node_count dag)%nat ->
  node_id (node dag i) = node_id (node dag j) -> i = j.
Proof.
  intros Hnd Hi Hj He. apply (find_node_id dag) in Hi, Hj; [|done..].
  rewrite He in Hi. congruence.
Qed.

(** ** Removing one edge *)

Lemma find_eqb_Some v l k : find_idx (Nat.eqb v) l = Some k -> l !! k = Some v.
Proof. intros (x & Hx & He & _)%find_idx_Some. by apply Nat.eqb_eq in He as <-. Qed.

Lemma find_eqb_None v l : find_idx (Nat.eqb v) l = None -> v ∉ l.
Proof. intros H Hv. apply (proj1 (find_idx_None _ _) H) in Hv. by rewrite Nat.eqb_refl in Hv. Qed.

Lemma drop_out_spec ti nd :
  NoDup (out_edges nd) ->
  NoDup (out_edges (drop_out ti nd)) /\
  (forall x, x ∈ out_edges (drop_out ti nd) <-> x ∈ out_edges nd /\ x <> ti) /\
  in_edges (drop_out ti nd) = in_edges nd /\ node_id (drop_out ti nd) = node_id nd /\
  (deg_ok nd -> deg_ok (drop_out ti nd)).
Proof.
  intros Hnd. unfold drop_out, deg_ok. destruct (find_idx _ _) as [k|] eqn:Hf; cbn.
  - apply find_eqb_Some in Hf. pose proof (swap_remove_length _ _ _ Hf).
    split_and!; [by eapply swap_remove_NoDup|by apply elem_of_swap_remove|done|done|lia].
  - apply find_eqb_None in Hf. naive_solver.
Qed.

Lemma drop_in_spec fi nd :
  NoDup (in_edges nd) ->
  NoDup (in_edges (drop_in fi nd)) /\
  (forall x, x ∈ in_edges (drop_in fi nd) <-> x ∈ in_edges nd /\ x <> fi) /\
  out_edges (drop_in fi nd) = out_edges nd /\ node_id (drop_in fi nd) = node_id nd /\
  (deg_ok nd -> deg_ok (drop_in fi nd)).
Proof.
  intros Hnd. unfold drop_in, deg_ok. destruct (find_idx _ _) as [k|] eqn:Hf; cbn.
  - apply find_eqb_Some in Hf. pose proof (swap_remove_length _ _ _ Hf).
    split_and!; [by eapply swap_remove_NoDup|by apply elem_of_swap_remove|done|done|lia].
  - apply find_eqb_None in Hf. naive_solver.
Qed.

(** [dag'] is [dag] with exactly the edges that satisfy [P] kept. *)
Record restricts (P : nat -> nat -> Prop) (dag dag' : jdag) : Prop := {
  rs_count : node_count dag' = node_count dag;
  rs_max : max_nodes dag' = max_nodes dag;
  rs_id : forall i, node_id (node dag' i) = node_id (node dag i);
  rs_out : forall i x, x ∈ outs dag' i <-> x ∈ outs dag i /\ P i x;
  rs_in : forall j x, x ∈ ins dag' j <-> x ∈ ins dag j /\ P x j;
  rs_nodup_out : forall i, NoDup (outs dag' i);
  rs_nodup_in : forall i, NoDup (ins dag' i);
  rs_deg : (forall i, deg_ok (node dag i)) -> forall i, deg_ok (node dag' i);
}.

Lemma node_ids_eq dag dag' :
  node_count dag' = node_count dag ->
  (forall i, node_id (node dag' i) = node_id (node dag i)) ->
  node_id <$> nodes dag' = node_id <$> nodes dag.
Proof.
  intros Hc Hid. apply list_eq_same_length with (n := node_count dag).
  { by rewrite length_fmap. }
  { by rewrite length_fmap. }
  intros i x y Hi Hx Hy. rewrite list_lookup_fmap in Hx, Hy.
  rewrite node_lookup_lt in Hx, Hy by lia. simplify_eq/=. auto.
Qed.

Lemma restricts_links P dag dag' : restricts P dag dag' -> links_ok dag -> links_ok dag'.
Proof.
  intros [Hc _ _ Ho Hi Hno Hni _] [Lo Li _ _]. split; try done.
  - intros i j (Hj & HP)%Ho. rewrite Hc, Hi. destruct (Lo i j Hj). done.
  - intros i j (Hj & HP)%Hi. rewrite Hc, Ho. destruct (Li i j Hj). done.
Qed.

Lemma restricts_edge P dag dag' i j :
  restricts P dag dag' -> dedge dag' i j <-> dedge dag i j /\ P i j.
Proof. intros [Hc _ _ Ho _ _ _ _]. unfold dedge, edge. rewrite Hc, Ho. naive_solver. Qed.

Lemma acyclic_mono (R1 R2 : relation nat) :
  (forall u v, R1 u v -> R2 u v) -> (forall v, ~ tc R2 v v) -> forall v, ~ tc R1 v v.
Proof.
  intros H Hac v Hv. apply (Hac v). cut (forall a b, tc R1 a b -> tc R2 a b); [by auto|].
  clear v Hv Hac. induction 1; [by apply tc_once, H|eapply tc_l; [by apply H|done]].
Qed.

Lemma restricts_ok P dag dag' : restricts P dag dag' -> dag_ok dag -> dag_ok dag'.
Proof.
  intros Hr [Hs Hids Hl Hd Hac]. pose proof Hr as [Hc Hm Hid _ _ _ _ Hdeg]. split.
  - by rewrite Hc, Hm.
  - by rewrite (node_ids_eq dag).
  - by eapply restricts_links.
  - by apply Hdeg.
  - refine (acyclic_mono _ _ _ Hac). intros u v Huv. by apply (restricts_edge _ _ _ u v Hr).
Qed.

Lemma restricts_trans P Q dag dag1 dag2 :
  restricts P dag dag1 -> restricts Q dag1 dag2 ->
  restricts (fun i j => P i j /\ Q i j) dag dag2.
Proof.
  intros [? ? ? Ho ? ? ? ?] [? ? ? Ho' ? ? ? ?]. split; try done; try congruence.
  - intros i x. rewrite Ho', Ho. tauto.
  - intros i x. rewrite rs_in1, rs_in0. tauto.
  - auto.
Qed.

Lemma restricts_refl dag : links_ok dag -> restricts (fun _ _ => True) dag dag.
Proof. intros [_ _ ? ?]. split; try done; naive_solver. Qed.

Lemma restricts_ext P Q dag dag' :
  (forall i j, P i j <-> Q i j) -> restricts P dag dag' -> restricts Q dag dag'.
Proof.
  intros H [? ? ? ? ? ? ? ?]. split; try done.
  - intros i x. by rewrite <- H.
  - intros i x. by rewrite <- H.
Qed.

(** The predicate only matters on the edges of [dag]. *)
Lemma restricts_edges (P Q : nat -> nat -> Prop) dag dag' :
  (forall i j, dedge dag i j -> True -> P i j <-> Q i j) ->
  restricts P dag dag' -> links_ok dag -> restricts Q dag dag'.
Proof.
  intros H [Hc Hm Hid Ho Hi Hno Hni Hd] Hl. split; try done.
  - intros i x. rewrite Ho. split; intros [Hx HP]; (split; [done|]);
      apply (H i x); try done; by apply dedge_alt.
  - intros j x. rewrite Hi. split; intros [Hx HP]; (split; [done|]);
      apply (H x j); try done; apply dedge_alt; try done; by apply (lo_in _ Hl).
Qed.

Lemma remove_edge_restricts dag a b fi ti :
  links_ok dag -> find_node dag a = Some fi -> find_node dag b = Some ti ->
  exists dag', jdag_remove_edge dag a b = (0, dag') /\
    restricts (fun i j => ~ (i = fi /\ j = ti)) dag dag'.
Proof.
  intros [_ _ Hno Hni] Hf Ht. unfold jdag_remove_edge. rewrite Hf, Ht. eexists. split; [done|].
  apply find_node_Some in Hf as [Hf _], Ht as [Ht _].
  set (d1 := dag <| nodes ::= alter (drop_out ti) fi |>).
  assert (Hd1 : forall j, node d1 j = if decide (j = fi) then drop_out ti (node dag fi) else node dag j)
    by (intros; by apply node_alter).
  assert (Ht1 : (ti < node_count d1)%nat) by (unfold d1; by rewrite count_alter).
  assert (Hni1 : NoDup (in_edges (node d1 ti))).
  { rewrite Hd1. case_decide; [|apply Hni]. destruct (drop_out_spec ti _ (Hno fi)) as (_ & _ & -> & _).
    apply Hni. }
  set (d2 := d1 <| nodes ::= alter (drop_in fi) ti |>).
  assert (Hd2 : forall j, node d2 j = if decide (j = ti) then drop_in fi (node d1 ti) else node d1 j)
    by (intros; by apply node_alter).
  destruct (drop_out_spec ti _ (Hno fi)) as (No & Eo & Io & Do & Go).
  destruct (drop_in_spec fi _ Hni1) as (Ni & Ei & Oi & Di & Gi).
  change (restricts (fun i j => ~ (i = fi /\ j = ti)) dag (d2 <| edge_count ::= Z.pred |>)).
  assert (Hout : forall i, out_edges (node d2 i) = out_edges (node d1 i)).
  { intros i. rewrite Hd2. case_decide; [by subst|done]. }
  assert (Hin : forall i, in_edges (node d1 i) = in_edges (node dag i)).
  { intros i. rewrite Hd1. case_decide; [by subst|done]. }
  split; cbn.
  - unfold node_count. cbn. by rewrite !length_alter.
  - done.
  - intros i. change (node_id (node d2 i) = node_id (node dag i)).
    rewrite Hd2. case_decide; subst; rewrite ?Di, Hd1; case_decide; subst; by rewrite ?Do.
  - intros i x. unfold outs. change (x ∈ out_edges (node d2 i) <-> x ∈ out_edges (node dag i) /\ ~ (i = fi /\ x = ti)).
    rewrite Hout, Hd1. case_decide; subst; [rewrite Eo|]; naive_solver.
  - intros i x. unfold ins. change (x ∈ in_edges (node d2 i) <-> x ∈ in_edges (node dag i) /\ ~ (x = fi /\ i = ti)).
    rewrite <- (Hin i), Hd2. case_decide; subst; [rewrite Ei|]; naive_solver.
  - intros i. change (NoDup (out_edges (node d2 i))). rewrite Hout, Hd1. case_decide; [done|apply Hno].
  - intros i. change (NoDup (in_edges (node d2 i))). rewrite Hd2. case_decide; [done|].
    rewrite Hin. apply Hni.
  - intros Hdeg i. change (deg_ok (node d2 i)).
    assert (forall i, deg_ok (node d1 i)) as Hdeg1.
    { intros k. rewrite Hd1. case_decide; auto. }
    rewrite Hd2. case_decide; auto.
Qed.

(** ** The cycle guard decides reachability *)

(** [D u v] holds for the edges already explored. *)
Record bfs_inv (dag : jdag) (from to : nat) (D : nat -> nat -> Prop) (s : bfs) : Prop := {
  bi_len : length (bfs_visited s) = JDAG_MAX_NODES;
  bi_nodup : NoDup (bfs_queue s);
  bi_reach : forall x, x ∈ bfs_queue s -> (x < node_count dag)%nat /\ x <> from /\ rtc (dedge dag) to x;
  bi_visited : forall x, (x < node_count dag)%nat -> bfs_visited s !!! x = true <-> x ∈ bfs_queue s;
  bi_start : to ∈ bfs_queue s;
  bi_found : bfs_found s = true -> rtc (dedge dag) to from;
  bi_closed : bfs_found s = false -> forall u v, D u v -> v ∈ bfs_queue s;
}.

Lemma bfs_inv_weaken dag from to (D D' : nat -> nat -> Prop) s :
  (forall u v, D' u v -> D u v) -> bfs_inv dag from to D s -> bfs_inv dag from to D' s.
Proof. intros H [? ? ? ? ? ? Hc]. split; try done. intros Hf u v HD. eauto. Qed.

Lemma bfs_visit_inv dag from to D u v s :
  links_ok dag -> Z.of_nat (node_count dag) <= Z.of_nat JDAG_MAX_NODES ->
  bfs_inv dag from to D s -> u ∈ bfs_queue s -> dedge dag u v ->
  bfs_inv dag from to (fun a b => D a b \/ (a = u /\ b = v)) (bfs_visit from s v).
Proof.
  intros Hl Hsz Hinv Hu Huv. pose proof Hinv as [Hlen Hnd Hre Hvis Hst Hfo Hcl].
  unfold bfs_visit. destruct (bfs_found s) eqn:Ef; [split; rewrite ?Ef; try done|].
  assert (Hv : (v < node_count dag)%nat) by apply Huv.
  assert (Hrv : rtc (dedge dag) to v) by (by eapply rtc_r; [apply (Hre u)|]).
  destruct (Nat.eqb_spec v from) as [->|Hne].
  { split; cbn; try done. }
  destruct (bfs_visited s !!! v) eqn:Ev.
  { split; rewrite ?Ef; try done. intros _ a b [HD|[-> ->]]; [by eapply Hcl|]. by apply Hvis. }
  assert (Hni : v ∉ bfs_queue s) by (rewrite <- Hvis by done; by rewrite Ev).
  split; cbn.
  - by rewrite length_insert.
  - apply NoDup_app. split; [done|]. split; [|apply NoDup_singleton]. set_solver.
  - intros x [Hx| ->%list_elem_of_singleton]%elem_of_app; auto.
  - intros x Hx. rewrite elem_of_app, list_elem_of_singleton, <- (Hvis x Hx).
    destruct (decide (x = v)) as [->|Hxv].
    + rewrite list_lookup_total_insert_eq by lia. naive_solver.
    + rewrite list_lookup_total_insert_ne by done. naive_solver.
  - apply elem_of_app. by left.
  - by rewrite Ef.
  - intros _ a b [HD|[-> ->]]; apply elem_of_app; [left; by eapply Hcl|right; by left].
Qed.

Lemma bfs_visit_head from s v : bfs_head (bfs_visit from s v) = bfs_head s.
Proof. unfold bfs_visit. by repeat case_match. Qed.

Lemma bfs_visit_queue from s v : exists q, bfs_queue (bfs_visit from s v) = bfs_queue s ++ q.
Proof.
  unfold bfs_visit. repeat case_match; cbn; try (exists []; by rewrite app_nil_r). by exists [v].
Qed.

Definition bfs_done (dag : jdag) (s : bfs) (u v : nat) : Prop :=
  u ∈ take (bfs_head s) (bfs_queue s) /\ v ∈ outs dag u.

Definition bfs_loop_inv dag from to s : Prop :=
  bfs_inv dag from to (bfs_done dag s) s /\ (bfs_head s <= length (bfs_queue s))%nat.

Lemma bfs_body_inv dag from to s :
  links_ok dag -> Z.of_nat (node_count dag) <= Z.of_nat JDAG_MAX_NODES ->
  bfs_loop_inv dag from to s -> bfs_cond s = true ->
  bfs_loop_inv dag from to (bfs_body dag from s) /\
  bfs_head (bfs_body dag from s) = S (bfs_head s).
Proof.
  intros Hl Hsz [Hinv Hh] Hc. unfold bfs_cond in Hc. apply andb_true_iff in Hc as [_ Hc].
  apply Nat.ltb_lt in Hc. unfold bfs_body.
  set (u := bfs_queue s !!! bfs_head s). set (s0 := s <| bfs_head ::= S |>).
  assert (Hqu : bfs_queue s !! bfs_head s = Some u) by (by apply list_lookup_lookup_total_lt).
  set (D (pre : list nat) (a b : nat) := bfs_done dag s a b \/ (a = u /\ b ∈ pre)).
  assert (exists q, bfs_queue (foldl (bfs_visit from) s0 (outs dag u)) = bfs_queue s ++ q /\
      bfs_head (foldl (bfs_visit from) s0 (outs dag u)) = S (bfs_head s) /\
      bfs_inv dag from to (D (outs dag u)) (foldl (bfs_visit from) s0 (outs dag u))) as Hfold.
  { apply (foldl_prefix_inv (fun pre s' => exists q, bfs_queue s' = bfs_queue s ++ q /\
      bfs_head s' = S (bfs_head s) /\ bfs_inv dag from to (D pre) s')).
    - exists []. rewrite app_nil_r. split_and!; [done|done|].
      destruct Hinv as [? ? ? ? ? ? Hcl]. split; try done.
      intros Hf a b [HD|[_ Hb]]; [by eapply Hcl|by apply not_elem_of_nil in Hb].
    - intros pre v post s' Heq (q & Hq & Hhd & Hi).
      destruct (bfs_visit_queue from s' v) as [q' Hq'].
      exists (q ++ q'). split_and!.
      + by rewrite Hq', Hq, app_assoc.
      + by rewrite bfs_visit_head.
      + eapply bfs_inv_weaken, (bfs_visit_inv _ _ _ _ u); [|done..| |].
        * unfold D. intros a b. rewrite elem_of_app, list_elem_of_singleton. naive_solver.
        * rewrite Hq. apply elem_of_app. left. by eapply list_elem_of_lookup_2.
        * apply dedge_alt; [done|]. rewrite Heq. set_solver. }
  destruct Hfold as (q & Hq & Hhd & Hi). split; [split|done].
  - eapply bfs_inv_weaken, Hi. unfold D, bfs_done. intros a b [Ha Hb].
    change (a ∈ take (bfs_head (foldl (bfs_visit from) s0 (outs dag u)))
                  (bfs_queue (foldl (bfs_visit from) s0 (outs dag u)))) in Ha.
    rewrite Hq, Hhd, take_app_le in Ha by lia.
    rewrite (take_S_r _ _ u) in Ha by done.
    apply elem_of_app in Ha as [Ha| ->%list_elem_of_singleton]; [by left|right; by split].
  - change (bfs_head (foldl (bfs_visit from) s0 (outs dag u)) <=
            length (bfs_queue (foldl (bfs_visit from) s0 (outs dag u))))%nat.
    rewrite Hq, Hhd, length_app. lia.
Qed.

Lemma bfs_run_spec dag from to :
  links_ok dag -> Z.of_nat (node_count dag) <= Z.of_nat JDAG_MAX_NODES ->
  (to < node_count dag)%nat -> from <> to ->
  exists s, bfs_run dag from to = Some s /\
    (bfs_found s = true <-> rtc (dedge dag) to from) /\
    (length (bfs_queue s) <= JDAG_MAX_NODES)%nat.
Proof.
  intros Hl Hsz Hto Hne. unfold bfs_run.
  destruct (while_loop_total (bfs_loop_inv dag from to)
              (fun s => node_count dag - bfs_head s)%nat bfs_cond (bfs_body dag from))
    with (fuel := node_count dag)
         (s := mk_bfs [to] 0 (<[to:=true]> (replicate JDAG_MAX_NODES false)) false)
    as (s & Hrun & [Hinv Hh] & Hc).
  - intros s Hs Hc. destruct (bfs_body_inv dag from to s Hl Hsz Hs Hc) as [Hs' Hhd].
    split; [done|]. rewrite Hhd. destruct Hs as [[? Hnd Hre ? ? ? ?] Hh].
    unfold bfs_cond in Hc. apply andb_true_iff in Hc as [_ Hc]. apply Nat.ltb_lt in Hc.
    pose proof (NoDup_bounded_length _ (node_count dag) Hnd ltac:(naive_solver)). lia.
  - split; [|simpl; lia]. split; cbn -[JDAG_MAX_NODES].
    + by rewrite length_insert, length_replicate.
    + apply NoDup_singleton.
    + intros x ->%list_elem_of_singleton. split_and!; [done|congruence|apply rtc_refl].
    + intros x Hx. rewrite list_elem_of_singleton. destruct (decide (x = to)) as [->|Hx'].
      * rewrite list_lookup_total_insert_eq; [done|]. rewrite length_replicate. lia.
      * rewrite list_lookup_total_insert_ne, lookup_total_replicate_2 by (done || lia).
        naive_solver.
    + by left.
    + done.
    + intros _ a b [Ha _]. by apply not_elem_of_nil in Ha.
  - cbn. lia.
  - exists s. split; [done|]. destruct Hinv as [Hlen Hnd Hre Hvis Hst Hfo Hcl].
    pose proof (NoDup_bounded_length _ (node_count dag) Hnd ltac:(naive_solver)).
    split; [|lia]. split; [done|]. intros Hr. destruct (bfs_found s) eqn:Ef; [done|exfalso].
    unfold bfs_cond in Hc. rewrite Ef in Hc. simpl in Hc. apply Nat.ltb_ge in Hc.
    assert (forall x, rtc (dedge dag) to x -> x ∈ bfs_queue s) as Hall.
    { apply (rtc_ind_r (fun x => x ∈ bfs_queue s) to); [done|]. intros y z _ Hyz Hy.
      apply (Hcl eq_refl y z). split; [by rewrite take_ge|]. by apply Hyz. }
    by apply (Hre from (Hall from Hr)).
Qed.

(** ** Adding an edge *)

Lemma links_size dag i : links_ok dag -> (length (outs dag i) <= node_count dag)%nat /\
  (length (ins dag i) <= node_count dag)%nat.
Proof.
  intros [Lo Li No Ni]. split; apply NoDup_bounded_length; auto.
  - intros x Hx. by apply (Lo i).
  - intros x Hx. by apply (Li i).
Qed.

(** A missing edge leaves room in both arrays: the [-6] returns are dead code. *)
Lemma links_room dag i j :
  links_ok dag -> (i < node_count dag)%nat -> (j < node_count dag)%nat -> j ∉ outs dag i ->
  (length (outs dag i) < node_count dag)%nat /\ (length (ins dag j) < node_count dag)%nat.
Proof.
  intros Hl Hi Hj Hni.
  assert (forall (l : list nat) x, (x < node_count dag)%nat -> x ∉ l -> NoDup l ->
    (forall y, y ∈ l -> (y < node_count dag)%nat) -> (length l < node_count dag)%nat) as H.
  { intros l x Hx Hxl Hnd Hb. apply (NoDup_bounded_length (x :: l)); [by constructor|].
    intros y [->|Hy]%elem_of_cons; auto. }
  split.
  - apply (H _ j); [done..|by apply lo_nodup_out|]. intros y Hy. by apply (lo_out _ Hl i).
  - apply (H _ i); [done| |by apply lo_nodup_in|].
    + intros Hx. by apply (lo_in _ Hl) in Hx as [_ ?].
    + intros y Hy. by apply (lo_in _ Hl j).
Qed.

Definition link (fi ti : nat) (dag : jdag) : jdag :=
  dag <| nodes ::= alter (link_out ti) fi |> <| nodes ::= alter (link_in fi) ti |>
      <| edge_count ::= Z.succ |>.

Lemma link_node fi ti dag i :
  (fi < node_count dag)%nat -> (ti < node_count dag)%nat -> fi <> ti ->
  node (link fi ti dag) i =
    if decide (i = fi) then link_out ti (node dag fi)
    else if decide (i = ti) then link_in fi (node dag ti) else node dag i.
Proof.
  intros Hf Ht Hne. unfold link.
  change (node (dag <| nodes ::= alter (link_out ti) fi |> <| nodes ::= alter (link_in fi) ti |>) i =
    if decide (i = fi) then link_out ti (node dag fi)
    else if decide (i = ti) then link_in fi (node dag ti) else node dag i).
  rewrite node_alter by (by rewrite count_alter). rewrite !node_alter by done.
  repeat case_decide; congruence.
Qed.

Lemma link_count fi ti dag : node_count (link fi ti dag) = node_count dag.
Proof. unfold node_count, link. cbn. by rewrite !length_alter. Qed.

Lemma link_outs fi ti dag i :
  (fi < node_count dag)%nat -> (ti < node_count dag)%nat -> fi <> ti ->
  outs (link fi ti dag) i = if decide (i = fi) then outs dag i ++ [ti] else outs dag i.
Proof. intros. unfold outs. rewrite link_node by done. repeat case_decide; by subst. Qed.

Lemma link_ins fi ti dag i :
  (fi < node_count dag)%nat -> (ti < node_count dag)%nat -> fi <> ti ->
  ins (link fi ti dag) i = if decide (i = ti) then ins dag i ++ [fi] else ins dag i.
Proof. intros. unfold ins. rewrite link_node by done. repeat case_decide; by subst. Qed.

Lemma link_id fi ti dag i :
  (fi < node_count dag)%nat -> (ti < node_count dag)%nat -> fi <> ti ->
  node_id (node (link fi ti dag) i) = node_id (node dag i).
Proof. intros. rewrite link_node by done. repeat case_decide; by subst. Qed.

Lemma link_edge fi ti dag i j :
  links_ok dag -> (fi < node_count dag)%nat -> (ti < node_count dag)%nat -> fi <> ti ->
  dedge (link fi ti dag) i j <-> dedge dag i j \/ (i = fi /\ j = ti).
Proof.
  intros Hl Hf Ht Hne. unfold dedge, edge. rewrite link_count, link_outs by done.
  case_decide; subst.
  - rewrite elem_of_app, list_elem_of_singleton. naive_solver.
  - naive_solver.
Qed.

Lemma NoDup_snoc {A} (l : list A) x : NoDup l -> x ∉ l -> NoDup (l ++ [x]).
Proof. intros. apply NoDup_app. split; [done|]. split; [|apply NoDup_singleton]. set_solver. Qed.

Lemma link_links fi ti dag :
  links_ok dag -> (fi < node_count dag)%nat -> (ti < node_count dag)%nat -> fi <> ti ->
  ti ∉ outs dag fi -> links_ok (link fi ti dag).
Proof.
  intros [Lo Li No Ni] Hf Ht Hne Hni.
  assert (Hni' : fi ∉ ins dag ti) by (intros H; by apply Li in H as [_ ?]).
  split; intros i; try intros j.
  - rewrite link_count, link_outs, link_ins by done.
    repeat case_decide; subst; rewrite ?elem_of_app, ?list_elem_of_singleton; naive_solver.
  - rewrite link_count, link_outs, link_ins by done.
    repeat case_decide; subst; rewrite ?elem_of_app, ?list_elem_of_singleton; naive_solver.
  - rewrite link_outs by done. case_decide; subst; [by apply NoDup_snoc|apply No].
  - rewrite link_ins by done. case_decide; subst; [by apply NoDup_snoc|apply Ni].
Qed.

Lemma link_deg fi ti dag i :
  (fi < node_count dag)%nat -> (ti < node_count dag)%nat -> fi <> ti ->
  (forall i, deg_ok (node dag i)) -> deg_ok (node (link fi ti dag) i).
Proof.
  intros Hf Ht Hne Hd. rewrite link_node by done. unfold deg_ok in *.
  repeat case_decide; subst; cbn; rewrite ?length_app; simpl; [destruct (Hd fi)|destruct (Hd ti)|]; lia || apply Hd.
Qed.

Lemma link_ok fi ti dag :
  dag_ok dag -> (fi < node_count dag)%nat -> (ti < node_count dag)%nat -> fi <> ti ->
  ti ∉ outs dag fi -> ~ rtc (dedge dag) ti fi -> dag_ok (link fi ti dag).
Proof.
  intros [Hs Hids Hl Hd Hac] Hf Ht Hne Hni Hnr. split.
  - by rewrite link_count.
  - rewrite (node_ids_eq dag); [done|apply link_count|]. intros. by apply link_id.
  - by apply link_links.
  - intros i. by apply link_deg.
  - refine (acyclic_add_edge _ _ (dedge (link fi ti dag)) fi ti _ Hac Hnr).
    intros u v. by apply link_edge.
Qed.

Lemma depends_intro dag i j : dedge dag i j -> depends dag (node_id (node dag i)) (node_id (node dag j)).
Proof. intros. by exists i, j. Qed.

Lemma dedge_depends_tc dag i j :
  tc (dedge dag) i j -> tc (depends dag) (node_id (node dag i)) (node_id (node dag j)).
Proof.
  induction 1; [by apply tc_once, depends_intro|]. eapply tc_l; [by apply depends_intro|done].
Qed.

Lemma link_depends fi ti dag x y :
  links_ok dag -> (fi < node_count dag)%nat -> (ti < node_count dag)%nat -> fi <> ti ->
  depends (link fi ti dag) x y <->
  depends dag x y \/ (x = node_id (node dag fi) /\ y = node_id (node dag ti)).
Proof.
  intros Hl Hf Ht Hne. unfold depends.
  setoid_rewrite link_edge; [|done..]. setoid_rewrite link_id; [|done..]. naive_solver.
Qed.

(** Every result of [jdag_add_edge], with what it means for the graph. *)
Inductive add_edge_result (dag : jdag) (a b : Z) : Z -> jdag -> Prop :=
  | ae_missing : a ∉ node_id <$> nodes dag \/ b ∉ node_id <$> nodes dag ->
      add_edge_result dag a b (-2) dag
  | ae_self : a = b -> add_edge_result dag a b (-3) dag
  | ae_dup : depends dag a b -> add_edge_result dag a b (-4) dag
  | ae_cycle : a <> b -> tc (depends dag) b a -> add_edge_result dag a b (-5) dag
  | ae_added dag' :
      edge_count dag' = edge_count dag + 1 ->
      ~ depends dag a b ->
      (forall x y, depends dag' x y <-> depends dag x y \/ (x = a /\ y = b)) ->
      add_edge_result dag a b 0 dag'.

Lemma add_edge_spec dag a b :
  dag_ok dag ->
  exists r dag', jdag_add_edge dag a b = Some (r, dag') /\
    dag_ok dag' /\ add_edge_result dag a b r dag'.
Proof.
  intros Hok. pose proof Hok as [Hs Hids Hl Hd Hac]. unfold jdag_add_edge.
  destruct (find_node dag a) as [fi|] eqn:Ha; cycle 1.
  { exists (-2), dag. split_and!; [done..|]. apply ae_missing. left. by apply find_node_None. }
  destruct (find_node dag b) as [ti|] eqn:Hb; cycle 1.
  { exists (-2), dag. split_and!; [done..|]. apply ae_missing. right. by apply find_node_None. }
  pose proof (find_node_Some _ _ _ Ha) as [Hf Hfa]. pose proof (find_node_Some _ _ _ Hb) as [Ht Htb].
  destruct (Nat.eqb_spec fi ti) as [->|Hne].
  { exists (-3), dag. split_and!; [done..|]. apply ae_self. congruence. }
  assert (Hab : a <> b) by (intros ->; congruence).
  destruct (existsb _ _) eqn:Hdup.
  { exists (-4), dag. split_and!; [done..|]. apply ae_dup.
    apply existsb_exists in Hdup as (x & Hx & He). apply Nat.eqb_eq in He as <-.
    subst. apply depends_intro, dedge_alt; [done|]. by apply list_elem_of_In. }
  assert (Hni : ti ∉ outs dag fi).
  { intros Hx. apply not_true_iff_false in Hdup. apply Hdup, existsb_exists. exists ti.
    split; [by apply list_elem_of_In|]. apply Nat.eqb_refl. }
  unfold jdag_would_create_cycle. rewrite Ha, Hb. rewrite (proj2 (Nat.eqb_neq _ _) Hne).
  destruct (bfs_run_spec dag fi ti Hl ltac:(lia) Ht Hne) as (s & Hrun & Hfound & _).
  rewrite Hrun. cbn [mbind option_bind]. destruct (bfs_found s); cbn [c_bool Z.eqb negb].
  { exists (-5), dag. split_and!; [done..|]. apply ae_cycle; [done|]. subst.
    apply dedge_depends_tc. destruct Hfound as [Hr _]. specialize (Hr eq_refl).
    apply rtc_tc in Hr as [->|]; [done|done]. }
  destruct (links_room dag fi ti Hl Hf Ht Hni) as [Hro Hri].
  rewrite (proj2 (Nat.leb_gt _ _)) by (unfold outs in Hro; lia).
  rewrite (proj2 (Nat.leb_gt _ _)) by (unfold ins in Hri; lia).
  exists 0, (link fi ti dag). split; [done|]. split.
  - apply link_ok; try done. intros Hr. by apply Hfound in Hr.
  - apply ae_added; [done| |].
    + intros (i & j & Hij & Hi & Hj). apply Hni.
      assert (i = fi) as -> by (eapply node_id_inj; [done|apply Hij|done|congruence]).
      assert (j = ti) as -> by (eapply node_id_inj; [done|apply Hij|done|congruence]).
      apply Hij.
    + intros x y. rewrite link_depends by done. by rewrite Hfa, Htb.
Qed.

(** ** Creating a graph, adding and removing nodes *)

Lemma jdag_create_ok m : dag_ok (jdag_create m).
Proof.
  assert (Hn : forall i, node (jdag_create m) i = inhabitant) by (intros; apply node_ge; cbn; lia).
  split.
  - unfold jdag_create. cbn. case_match; zbool; unfold JDAG_MAX_NODES in *; lia.
  - constructor.
  - split; intros i; unfold outs, ins; rewrite ?Hn; try apply NoDup_nil_2;
      intros j Hj; by apply not_elem_of_nil in Hj.
  - intros i. by rewrite Hn.
  - intros v Hv. apply edge_tc_bound in Hv as [Hv _]. cbn in Hv. lia.
Qed.

Lemma add_node_app dag nd :
  in_edges nd = [] -> out_edges nd = [] -> indegree nd = 0 -> outdegree nd = 0 ->
  let dag' := dag <| nodes ::= fun l => l ++ [nd] |> in
  dag_ok dag -> Z.of_nat (node_count dag) < max_nodes dag ->
  node_id nd ∉ node_id <$> nodes dag -> dag_ok dag'.
Proof.
  intros Hin Hout Hi0 Ho0 dag' [Hs Hids Hl Hd Hac] Hroom Hfresh.
  assert (Hc : node_count dag' = S (node_count dag)).
  { unfold node_count, dag'. cbn. rewrite length_app. simpl. lia. }
  assert (Hn : forall i, node dag' i = if decide (i = node_count dag) then nd else node dag i).
  { intros i. unfold node, dag'. cbn. rewrite !list_lookup_total_alt. case_decide; subst.
    - rewrite lookup_app_r, Nat.sub_diag by done. done.
    - destruct (decide (i < node_count dag)%nat); [by rewrite lookup_app_l|].
      rewrite !lookup_ge_None_2; [done|unfold node_count in *; lia|].
      rewrite length_app. unfold node_count in *. simpl. lia. }
  assert (Hne : node dag (node_count dag) = inhabitant) by (by apply node_ge).
  assert (Ho : forall i, outs dag' i = outs dag i).
  { intros i. unfold outs. rewrite Hn. case_decide; subst; [by rewrite Hne|done]. }
  assert (Hi : forall i, ins dag' i = ins dag i).
  { intros i. unfold ins. rewrite Hn. case_decide; subst; [by rewrite Hne|done]. }
  destruct Hl as [Lo Li No Ni]. split.
  - rewrite Hc. unfold dag'. cbn. lia.
  - unfold dag'. cbn. rewrite fmap_app. by apply NoDup_snoc.
  - split; intros i; rewrite ?Ho, ?Hi; try done; intros j; rewrite Hc, ?Ho, ?Hi.
    + intros Hj. destruct (Lo i j Hj). split; [lia|done].
    + intros Hj. destruct (Li i j Hj). split; [lia|done].
  - intros i. rewrite Hn. case_decide; [|done]. unfold deg_ok. by rewrite Hin, Hout, Hi0, Ho0.
  - refine (acyclic_mono _ _ _ Hac). intros u v (Hu & Hv & Hvu). rewrite Ho in Hvu.
    apply dedge_alt; [by split|done].
Qed.

Lemma existsb_id dag id :
  existsb (fun nd => node_id nd =? id) (nodes dag) = false -> id ∉ node_id <$> nodes dag.
Proof.
  intros H (nd & -> & Hnd)%list_elem_of_fmap. apply not_true_iff_false in H. apply H.
  apply existsb_exists. exists nd. split; [by apply list_elem_of_In|apply Z.eqb_refl].
Qed.

Lemma jdag_add_node_ok dag id name p : dag_ok dag -> dag_ok (jdag_add_node dag id name p).2.
Proof.
  intros Hok. unfold jdag_add_node. case_match; [done|]. case_match eqn:He; [done|]. zbool.
  apply (add_node_app dag); [done..|by apply existsb_id].
Qed.

Lemma jdag_remove_edge_ok dag a b : dag_ok dag -> dag_ok (jdag_remove_edge dag a b).2.
Proof.
  intros Hok. destruct (find_node dag a) as [fi|] eqn:Ha, (find_node dag b) as [ti|] eqn:Hb.
  2-4: unfold jdag_remove_edge; by rewrite Ha, ?Hb.
  destruct (remove_edge_restricts dag a b fi ti) as (dag' & -> & Hr);
    [apply Hok|done..|]. by eapply restricts_ok.
Qed.

Lemma restricts_find P dag dag' : restricts P dag dag' -> forall k, find_node dag' k = find_node dag k.
Proof.
  intros R k. unfold find_node. pose proof (node_ids_eq _ _ (rs_count _ _ _ R) (rs_id _ _ _ R)) as H.
  revert H. generalize (nodes dag'), (nodes dag). intros l. induction l as [|x l IH]; intros [|y l'] H;
    simplify_eq/=; [done|]. rewrite H. case_match; [done|]. f_equal. by apply IH.
Qed.

(** The edge-removal loop of [jdag_remove_node] cuts every edge at [idx]; it
    decrements [edge_count] twice per other node, whatever edges exist. *)
Lemma remove_node_edges_spec dag id idx i :
  dag_ok dag -> find_node dag id = Some idx -> (i < node_count dag)%nat ->
  let dag' := remove_node_edges id idx dag i in
  restricts (fun a b => i <> idx -> ~ (a = i /\ b = idx) /\ ~ (a = idx /\ b = i)) dag dag' /\
  edge_count dag' = edge_count dag - (if decide (i = idx) then 0 else 2).
Proof.
  intros Hok Hid Hi dag'. unfold dag', remove_node_edges. clear dag'.
  destruct (Nat.eqb_spec i idx) as [->|Hne].
  { rewrite decide_True by done. split; [|lia].
    eapply restricts_ext; [|apply restricts_refl, Hok]. naive_solver. }
  rewrite decide_False by done.
  pose proof (find_node_id dag i (do_ids _ Hok) Hi) as Hfi.
  destruct (remove_edge_restricts dag _ _ _ _ (do_links _ Hok) Hfi Hid) as (d1 & E1 & R1).
  rewrite E1. cbn [snd].
  assert (Hok1 : dag_ok d1) by (by eapply restricts_ok).
  pose proof (restricts_find _ _ _ R1) as Hf1.
  rewrite (rs_id _ _ _ R1).
  destruct (remove_edge_restricts d1 id (node_id (node dag i)) idx i (do_links _ Hok1))
    as (d2 & E2 & R2); [by rewrite Hf1..|].
  rewrite E2. cbn [snd]. split.
  - eapply restricts_ext, (restricts_trans _ _ _ _ _ R1 R2). naive_solver.
  - unfold jdag_remove_edge in E1, E2. rewrite Hfi, Hid in E1. rewrite !Hf1, Hid, Hfi in E2.
    simplify_eq/=. lia.
Qed.

Lemma remove_loop_spec dag id idx :
  dag_ok dag -> find_node dag id = Some idx ->
  let dag1 := foldl (remove_node_edges id idx) dag (seq 0 (node_count dag)) in
  restricts (fun a b => a <> idx /\ b <> idx) dag dag1 /\
  edge_count dag1 = edge_count dag - 2 * (Z.of_nat (node_count dag) - 1).
Proof.
  intros Hok Hid. pose proof (find_node_Some _ _ _ Hid) as [Hidx _].
  set (inv pre d := restricts (fun a b => forall k, k ∈ (pre : list nat) -> k <> idx ->
         ~ (a = k /\ b = idx) /\ ~ (a = idx /\ b = k)) dag d /\ edge_count d = edge_count dag
         - 2 * (Z.of_nat (length pre) - if decide (idx ∈ pre) then 1 else 0)).
  assert (inv (seq 0 (node_count dag))
    (foldl (remove_node_edges id idx) dag (seq 0 (node_count dag)))) as [Hr He].
  { apply foldl_prefix_inv.
    - split; [|rewrite decide_False by apply not_elem_of_nil; simpl; lia].
      eapply restricts_ext; [|apply restricts_refl, Hok]. intros a b. split; [|done].
      intros _ k Hk. by apply not_elem_of_nil in Hk.
    - intros pre k post d Heq [Hr He].
      assert (k ∈ seq 0 (node_count dag)) as Hk%elem_of_seq by (rewrite Heq; set_solver).
      assert (Hkp : k ∉ pre).
      { pose proof (NoDup_seq 0 (node_count dag)) as Hnd. rewrite Heq in Hnd.
        apply NoDup_app in Hnd as (_ & Hd & _). intros Hkp. apply (Hd k Hkp). by left. }
      assert (Hd : find_node d id = Some idx)
        by (by rewrite (restricts_find _ _ _ Hr)).
      destruct (remove_node_edges_spec d id idx k) as [Hr' He'];
        [by eapply restricts_ok|done|rewrite (rs_count _ _ _ Hr); lia|].
      split.
      + eapply restricts_ext, (restricts_trans _ _ _ _ _ Hr Hr'). intros a b.
        setoid_rewrite elem_of_app. setoid_rewrite list_elem_of_singleton. split.
        * intros [H1 H2] k' [Hk'| ->]; auto.
        * intros H. split; [intros k' Hk'|]; apply H; auto.
      + rewrite He', He, length_app. simpl.
        destruct (decide (k = idx)) as [->|Hki].
        * rewrite decide_False by done. rewrite decide_True by set_solver. lia.
        * rewrite (decide_ext (idx ∈ pre ++ [k]) (idx ∈ pre)) by set_solver. case_decide; lia. }
  split.
  - eapply restricts_edges; [|exact Hr|by apply Hok]. intros a b (Ha & Hb & Hab) _.
    assert (Hne : a <> b) by (intros ->; by apply (do_acyclic _ Hok b), tc_once).
    split.
    + intros H. split; intros He'.
      * destruct (H b) as [_ H2]; [apply elem_of_seq; lia|congruence|by apply H2].
      * destruct (H a) as [H1 _]; [apply elem_of_seq; lia|congruence|by apply H1].
    + intros [H1 H2] k _ _. naive_solver.
  - rewrite He, length_seq, decide_True; [lia|]. apply elem_of_seq. lia.
Qed.

(** *** The index compaction of [jdag_remove_node] *)
Section compact.
Context (dag : jdag) (idx : nat).
Context (Hok : dag_ok dag) (Hidx : (idx < node_count dag)%nat).
Context (Hiso : forall i j, dedge dag i j -> i <> idx /\ j <> idx).

Let last := (node_count dag - 1)%nat.
Let f k := if (k =? last)%nat then idx else k.
Let g k := if decide (k = idx) then last else k.
Let dag2 := dag <| nodes ::= swap_remove idx |>.
Definition compacted : jdag := dag2 <| nodes ::= map (reindex (node_count dag2) idx) |>.

Lemma compact_fg j : (j < last)%nat -> f (g j) = j.
Proof.
  intros Hj. unfold f, g. case_decide; subst.
  - by rewrite Nat.eqb_refl.
  - rewrite (proj2 (Nat.eqb_neq _ _)); [done|lia].
Qed.

Lemma compact_gf k : (k < node_count dag)%nat -> k <> idx -> g (f k) = k /\ (f k < last)%nat.
Proof.
  intros Hk Hne. unfold f, g. destruct (Nat.eqb_spec k last) as [->|Hkl].
  - rewrite decide_True by done. unfold last in *. split; [done|lia].
  - rewrite decide_False by done. unfold last in *. split; [done|lia].
Qed.

Lemma compact_count2 : node_count dag2 = last.
Proof.
  pose proof (swap_remove_length _ _ _ (node_lookup_lt dag idx Hidx)) as H.
  unfold node_count, last in *. unfold dag2. cbn. unfold node_count. lia.
Qed.

Lemma compact_count : node_count compacted = last.
Proof. unfold compacted, node_count. cbn. rewrite length_map. apply compact_count2. Qed.

Lemma compact_node i : (i < last)%nat -> node compacted i = reindex last idx (node dag (g i)).
Proof.
  intros Hi. apply node_lookup. unfold compacted. cbn [nodes set].
  change (map ?h ?l) with (h <$> l). rewrite list_lookup_fmap, compact_count2. cbn.
  rewrite swap_remove_lookup by (unfold last in Hi; unfold node_count in *; lia).
  unfold g. change (length (nodes dag)) with (node_count dag). fold last.
  pose proof (node_lookup_lt dag (if decide (i = idx) then last else i)) as H.
  rewrite H; [done|]. unfold last in *. case_decide; lia.
Qed.

Lemma compact_out i j : j ∈ outs compacted i <-> (i < last)%nat /\ (j < last)%nat /\ g j ∈ outs dag (g i).
Proof.
  split.
  - intros Hj. assert (Hi : (i < last)%nat) by (rewrite <- compact_count; by eapply outs_lt).
    unfold outs in Hj. rewrite compact_node in Hj by done. cbn in Hj.
    apply list_elem_of_fmap in Hj as (k & -> & Hk). change (k ∈ outs dag (g i)) in Hk.
    apply dedge_alt in Hk as Hd; [|apply Hok]. destruct (Hiso _ _ Hd) as [_ Hne].
    destruct (compact_gf k) as [Hg Hl]; [apply Hd|done|]. fold (f k). rewrite Hg. done.
  - intros (Hi & Hj & Hin). unfold outs. rewrite compact_node by done. cbn.
    apply list_elem_of_fmap. exists (g j). split; [|done]. symmetry. by apply compact_fg.
Qed.

Lemma compact_in i j : j ∈ ins compacted i <-> (i < last)%nat /\ (j < last)%nat /\ g j ∈ ins dag (g i).
Proof.
  split.
  - intros Hj. assert (Hi : (i < last)%nat) by (rewrite <- compact_count; by eapply ins_lt).
    unfold ins in Hj. rewrite compact_node in Hj by done. cbn in Hj.
    apply list_elem_of_fmap in Hj as (k & -> & Hk). change (k ∈ ins dag (g i)) in Hk.
    apply (lo_in _ (do_links _ Hok)) in Hk as Hd. destruct Hd as [Hkn Hd].
    apply dedge_alt in Hd; [|apply Hok]. destruct (Hiso _ _ Hd) as [Hne _].
    destruct (compact_gf k) as [Hg Hl]; [done|done|]. fold (f k). rewrite Hg. done.
  - intros (Hi & Hj & Hin). unfold ins. rewrite compact_node by done. cbn.
    apply list_elem_of_fmap. exists (g j). split; [|done]. symmetry. by apply compact_fg.
Qed.

Lemma compact_nodup l :
  NoDup l -> (forall k, k ∈ l -> (k < node_count dag)%nat /\ k <> idx) -> NoDup (map f l).
Proof.
  intros Hnd Hl. apply NoDup_fmap_2_strong; [|done]. intros x y Hx Hy Hxy.
  destruct (Hl x Hx) as [Hx1 Hx2], (Hl y Hy) as [Hy1 Hy2].
  destruct (compact_gf x Hx1 Hx2) as [<- _], (compact_gf y Hy1 Hy2) as [<- _]. by rewrite Hxy.
Qed.

Lemma compact_g_lt i : (i < last)%nat -> (g i < node_count dag)%nat.
Proof. unfold g, last. case_decide; lia. Qed.

Lemma compact_links : links_ok compacted.
Proof.
  pose proof (do_links _ Hok) as Hl. destruct Hl as [Lo Li No Ni].
  split.
  - intros i j (Hi & Hj & Hin)%compact_out. rewrite compact_count, compact_in.
    split; [done|]. split_and!; [done..|]. by apply Lo.
  - intros i j (Hi & Hj & Hin)%compact_in. rewrite compact_count, compact_out.
    split; [done|]. split_and!; [done..|]. by apply Li.
  - intros i. destruct (decide (i < last)%nat) as [Hi|Hi].
    + unfold outs. rewrite compact_node by done. cbn. apply compact_nodup; [apply No|].
      intros k Hk. change (k ∈ outs dag (g i)) in Hk. apply dedge_alt in Hk; [|apply Hok].
      split; [apply Hk|by apply (Hiso _ _ Hk)].
    + unfold outs. rewrite node_ge by (rewrite compact_count; lia). apply NoDup_nil_2.
  - intros i. destruct (decide (i < last)%nat) as [Hi|Hi].
    + unfold ins. rewrite compact_node by done. cbn. apply compact_nodup; [apply Ni|].
      intros k Hk. change (k ∈ ins dag (g i)) in Hk. apply Li in Hk as [Hkn Hk].
      apply dedge_alt in Hk; [|apply Hok]. split; [done|by apply (Hiso _ _ Hk)].
    + unfold ins. rewrite node_ge by (rewrite compact_count; lia). apply NoDup_nil_2.
Qed.

Lemma compact_edge i j : dedge compacted i j <-> (i < last)%nat /\ (j < last)%nat /\ dedge dag (g i) (g j).
Proof.
  rewrite dedge_alt by apply compact_links. rewrite compact_out. split.
  - intros (Hi & Hj & Hin). split_and!; [done..|]. apply dedge_alt; [apply Hok|done].
  - intros (Hi & Hj & Hin). split_and!; [done..|]. apply Hin.
Qed.

Lemma compact_ids : node_id <$> nodes dag ≡ₚ node_id (node dag idx) :: (node_id <$> nodes compacted).
Proof.
  pose proof (node_lookup_lt dag idx Hidx) as Hl.
  rewrite (swap_remove_Permutation _ _ _ Hl) at 1. simpl.
  unfold compacted. cbn. change (map ?h ?l) with (h <$> l). rewrite <- list_fmap_compose. done.
Qed.

Lemma compact_ok : dag_ok compacted.
Proof.
  pose proof Hok as [Hs Hids Hl Hd Hac]. split.
  - rewrite compact_count. unfold compacted, dag2, last. cbn. lia.
  - rewrite compact_ids in Hids. by apply NoDup_cons in Hids as [_ ?].
  - apply compact_links.
  - intros i. destruct (decide (i < last)%nat).
    + rewrite compact_node by done. unfold deg_ok. cbn. rewrite !length_map. apply Hd.
    + by rewrite node_ge by (rewrite compact_count; lia).
  - intros v Hv. apply (Hac (g v)). cut (forall a b, tc (dedge compacted) a b -> tc (dedge dag) (g a) (g b)).
    { intros H. by apply H. }
    induction 1 as [a b Hab|a c b Hac' _ IH].
    + apply tc_once. by apply compact_edge in Hab as (_ & _ & ?).
    + eapply tc_l; [|done]. by apply compact_edge in Hac' as (_ & _ & ?).
Qed.

Lemma compact_depends x y : depends compacted x y <-> depends dag x y.
Proof.
  split.
  - intros (i & j & (Hi & Hj & He)%compact_edge & <- & <-). rewrite !compact_node by done. cbn.
    by apply depends_intro.
  - intros (i & j & He & <- & <-). destruct (Hiso _ _ He) as [Hi Hj].
    destruct (compact_gf i) as [Hgi Hfi]; [apply He|done|].
    destruct (compact_gf j) as [Hgj Hfj]; [apply He|done|].
    exists (f i), (f j). rewrite compact_edge, !compact_node by done. cbn. by rewrite Hgi, Hgj.
Qed.

End compact.

Lemma remove_node_spec dag id idx :
  dag_ok dag -> find_node dag id = Some idx ->
  exists dag', jdag_remove_node dag id = (0, dag') /\ dag_ok dag' /\
    node_id <$> nodes dag ≡ₚ id :: (node_id <$> nodes dag') /\
    (forall x y, depends dag' x y <-> depends dag x y /\ x <> id /\ y <> id) /\
    edge_count dag' = edge_count dag - 2 * (Z.of_nat (node_count dag) - 1).
Proof.
  intros Hok Hid. pose proof (find_node_Some _ _ _ Hid) as [Hidx Hnid].
  unfold jdag_remove_node. rewrite Hid. eexists. split; [done|].
  destruct (remove_loop_spec dag id idx Hok Hid) as [Hr He].
  set (dag1 := foldl _ _ _) in *.
  pose proof (restricts_ok _ _ _ Hr Hok) as Hok1.
  assert (Hidx1 : (idx < node_count dag1)%nat) by (by rewrite (rs_count _ _ _ Hr)).
  assert (Hiso : forall i j, dedge dag1 i j -> i <> idx /\ j <> idx).
  { intros i j Hij. by apply (restricts_edge _ _ _ i j Hr) in Hij as [_ ?]. }
  change (foldl _ _ _) with dag1.
  change (dag_ok (compacted dag1 idx) /\
    node_id <$> nodes dag ≡ₚ id :: (node_id <$> nodes (compacted dag1 idx)) /\
    (forall x y, depends (compacted dag1 idx) x y <-> depends dag x y /\ x <> id /\ y <> id) /\
    edge_count dag1 = edge_count dag - 2 * (Z.of_nat (node_count dag) - 1)).
  split_and!; [by apply compact_ok| | |done].
  - rewrite <- (node_ids_eq dag dag1) by apply Hr.
    rewrite (compact_ids dag1 idx) by done. rewrite (rs_id _ _ _ Hr). by rewrite Hnid.
  - intros x y. rewrite compact_depends by done. unfold depends.
    setoid_rewrite (restricts_edge _ _ _ _ _ Hr). setoid_rewrite (rs_id _ _ _ Hr). split.
    + intros (i & j & (He' & Hi & Hj) & <- & <-). split; [by apply depends_intro|]. rewrite <- Hnid.
      split; intros Heq; apply node_id_inj in Heq; try done; try apply Hok; apply He'.
    + intros ((i & j & He' & Hi & Hj) & Hx & Hy). exists i, j. split; [|done].
      split; [done|]. split; intros ->; congruence.
Qed.

(** ** Histories: any sequence of edits of a created DAG *)

Inductive dag_step (dag : jdag) : jdag -> Prop :=
  | step_add_node id name p : dag_step dag (jdag_add_node dag id name p).2
  | step_add_edge a b r dag' : jdag_add_edge dag a b = Some (r, dag') -> dag_step dag dag'
  | step_remove_edge a b : dag_step dag (jdag_remove_edge dag a b).2
  | step_remove_node id : dag_step dag (jdag_remove_node dag id).2.

Definition dag_reachable (dag : jdag) : Prop := exists m, rtc dag_step (jdag_create m) dag.

Lemma dag_step_ok dag dag' : dag_ok dag -> dag_step dag dag' -> dag_ok dag'.
Proof.
  intros Hok [id name p|a b r d Hd|a b|id].
  - by apply jdag_add_node_ok.
  - destruct (add_edge_spec dag a b Hok) as (r' & d' & He & Hok' & _). by simplify_eq.
  - by apply jdag_remove_edge_ok.
  - destruct (find_node dag id) as [idx|] eqn:Hid.
    + by destruct (remove_node_spec dag id idx Hok Hid) as (d & -> & Hok' & _).
    + unfold jdag_remove_node. by rewrite Hid.
Qed.

Lemma dag_reachable_ok dag : dag_reachable dag -> dag_ok dag.
Proof.
  intros [m Hm]. revert Hm. apply rtc_ind_r; [apply jdag_create_ok|].
  intros. by eapply dag_step_ok.
Qed.

#[export] Hint Resolve dag_reachable_ok jdag_create_ok do_links : csim.

(** A small history for the witnesses: a diamond 10 -> {11, 12} -> 13. *)
Definition run_add_edge (dag : jdag) (e : Z * Z) : jdag :=
  from_option snd dag (jdag_add_edge dag e.1 e.2).
Definition run_add_nodes (dag : jdag) (ids : list Z) : jdag :=
  foldl (fun d i => (jdag_add_node d i None 0).2) dag ids.
Definition diamond : jdag :=
  foldl run_add_edge (run_add_nodes (jdag_create 8) [13; 10; 11; 12])
    [(10, 11); (10, 12); (11, 13); (12, 13)].

Lemma run_add_edge_step dag e : rtc dag_step dag (run_add_edge dag e).
Proof.
  unfold run_add_edge. destruct (jdag_add_edge _ _ _) as [[r d]|] eqn:He; [|apply rtc_refl].
  apply rtc_once. by eapply step_add_edge.
Qed.

Lemma diamond_reachable : dag_reachable diamond.
Proof.
  exists 8. unfold diamond. cbn [foldl].
  assert (rtc dag_step (jdag_create 8) (run_add_nodes (jdag_create 8) [13; 10; 11; 12])) as H.
  { unfold run_add_nodes. cbn [foldl].
    do 4 (eapply rtc_r; [|apply step_add_node]). apply rtc_refl. }
  do 4 (etransitivity; [|apply run_add_edge_step]). done.
Qed.

(** C19: no sequence of node and edge edits breaks the graph: the size stays in
    the arrays, ids stay distinct, both adjacency arrays agree and have no
    duplicates, the degree counters are the array lengths, and there is no cycle. *)
Theorem jdag_edits_keep_invariant dag : dag_reachable dag -> dag_ok dag.
Proof. apply dag_reachable_ok. Qed.

Lemma jdag_edits_keep_invariant_witness : dag_ok diamond /\ length (nodes diamond) = 4%nat.
Proof. split; [apply (jdag_edits_keep_invariant diamond), diamond_reachable|reflexivity]. Defined.

(** [jdag_add_edge] always returns; it refuses a missing end (-2), a self
    edge (-3), a duplicate (-4) and exactly the edges whose target already leads
    to their source (-5); otherwise it adds that one dependency, and the result
    is again a well-formed DAG.  The array-full code (-6) is never returned. *)
Theorem jdag_add_edge_correct dag a b :
  dag_reachable dag ->
  exists r dag', jdag_add_edge dag a b = Some (r, dag') /\
    dag_ok dag' /\ add_edge_result dag a b r dag'.
Proof. intros H. by apply add_edge_spec, dag_reachable_ok. Qed.

Lemma jdag_add_edge_correct_witness :
  exists r dag', jdag_add_edge diamond 13 10 = Some (r, dag') /\
    dag_ok dag' /\ add_edge_result diamond 13 10 r dag' /\ r = -5.
Proof.
  destruct (jdag_add_edge_correct diamond 13 10 diamond_reachable) as (r & d & H & Hok & Hr).
  exists r, d. split; [exact H|]. split; [exact Hok|]. split; [exact Hr|].
  vm_compute in H. congruence.
Defined.

(** Removing a node, with its edge cuts, array compaction and index shift,
    removes that id and exactly the dependencies that touch it; every other
    dependency between ids survives. *)
Theorem jdag_remove_node_correct dag id idx :
  dag_reachable dag -> find_node dag id = Some idx ->
  exists dag', jdag_remove_node dag id = (0, dag') /\ dag_ok dag' /\
    node_id <$> nodes dag ≡ₚ id :: (node_id <$> nodes dag') /\
    (forall x y, depends dag' x y <-> depends dag x y /\ x <> id /\ y <> id).
Proof.
  intros Hr Hid. destruct (remove_node_spec dag id idx) as (d & ? & ? & ? & ? & _);
    [by apply dag_reachable_ok|done|]. by exists d.
Qed.

Lemma jdag_remove_node_correct_witness :
  exists dag', jdag_remove_node diamond 10 = (0, dag') /\
    node_id <$> nodes dag' = [13; 12; 11].
Proof.
  destruct (jdag_remove_node_correct diamond 10 1 diamond_reachable eq_refl) as (d & H & _).
  exists d. split; [exact H|]. vm_compute in H. injection H as <-. reflexivity.
Defined.

(** [jdag_remove_node] does not keep the edge counter: it falls by two for
    every other node of the graph, however many edges were removed, so the
    counter no longer counts the edges. *)
Theorem jdag_remove_node_edge_count dag id idx :
  dag_reachable dag -> find_node dag id = Some idx ->
  jdag_edge_count (jdag_remove_node dag id).2 =
    jdag_edge_count dag - 2 * (jdag_node_count dag - 1).
Proof.
  intros Hr Hid. destruct (remove_node_spec dag id idx) as (d & -> & _ & _ & _ & H);
    [by apply dag_reachable_ok|done|]. exact H.
Qed.

Lemma jdag_remove_node_edge_count_witness :
  jdag_edge_count (jdag_remove_node diamond 10).2 = -2 /\ jdag_edge_count diamond = 4.
Proof.
  split; [|reflexivity].
  rewrite (jdag_remove_node_edge_count diamond 10 1 diamond_reachable eq_refl). reflexivity.
Defined.
