(* ===== verification/JobDagSort.v ===== *)
(** Kahn's topological sort ([jdag_topological_sort_kahn]) and the two
    longest-path computations built on the same queue discipline
    ([jdag_critical_path_length], [jdag_get_levels]). *)

From S2P Require Import Prelude Graph JobDag JobDagWf.

(** ** The shared state: [queue[0..qtail)], [qhead], [indegree[]] *)

Record kq := mk_kq {
  queue : list nat;
  qhead : nat;
  indeg : list Z;
}.

(** Steps 1 and 2: copy the indegrees, enqueue the nodes with indegree 0. *)
Definition kq_init (dag : jdag) : kq :=
  let d := indegree <$> nodes dag in
  mk_kq (List.filter (fun i => d !!! i =? 0) (seq 0 (node_count dag))) 0 d.

Definition kq_more (c : kq) : bool := (qhead c <? length (queue c))%nat.

(** [indegree[v]--; if (indegree[v] == 0) queue[qtail++] = v;] *)
Definition relax (c : kq) (v : nat) : kq :=
  let d := indeg c !!! v - 1 in
  let c' := c <| indeg ::= <[v := d]> |> in
  if d =? 0 then c' <| queue ::= fun q => q ++ [v] |> else c'.

(** ** Kahn's sort *)

Record sort_state := mk_sort { ks_q : kq; ks_result : list Z }.

Definition kahn_body (dag : jdag) (s : sort_state) : sort_state :=
  let u : nat := queue (ks_q s) !!! qhead (ks_q s) in
  mk_sort (foldl relax ((ks_q s) <| qhead ::= S |>) (out_edges (node dag u)))
          (ks_result s ++ [node_id (node dag u)]).

Definition jdag_topological_sort_kahn (dag : jdag) (max : Z) : option (Z * list Z) :=
  if max <? Z.of_nat (node_count dag) then Some (-1, [])
  else
    s ← while_loop (node_count dag) (fun s => kq_more (ks_q s)) (kahn_body dag)
          (mk_sort (kq_init dag) []);
    if negb (length (ks_result s) =? node_count dag)%nat then Some (-2, ks_result s)
    else Some (Z.of_nat (length (ks_result s)), ks_result s).

(** ** Longest paths *)

Record path_state := mk_path { ps_q : kq; ps_dist : list Z; ps_max : Z }.

(** [if (dist[u] + 1 > dist[v]) dist[v] = dist[u] + 1;] then the queue step. *)
Definition path_visit (u : nat) (s : path_state) (v : nat) : path_state :=
  let d := ps_dist s in
  mk_path (relax (ps_q s) v)
          (if d !!! v <? d !!! u + 1 then <[v := d !!! u + 1]> d else d)
          (ps_max s).

Definition path_body (dag : jdag) (s : path_state) : path_state :=
  let u : nat := queue (ps_q s) !!! qhead (ps_q s) in
  let s' := mk_path ((ps_q s) <| qhead ::= S |>) (ps_dist s)
              (if ps_max s <? ps_dist s !!! u then ps_dist s !!! u else ps_max s) in
  foldl (path_visit u) s' (out_edges (node dag u)).

(** [src] is the initial distance of the sources: 1 in
    [jdag_critical_path_length], 0 in [jdag_get_levels]. *)
Definition path_run (dag : jdag) (src : Z) : option path_state :=
  let c := kq_init dag in
  while_loop (node_count dag) (fun s => kq_more (ps_q s)) (path_body dag)
    (mk_path c (foldl (fun d i => <[i := src]> d) (replicate JDAG_MAX_NODES 0) (queue c)) 0).

Definition jdag_critical_path_length (dag : jdag) : option Z :=
  if (node_count dag =? 0)%nat then Some 0
  else s ← path_run dag 1; Some (ps_max s).

(** The counting sort of [jdag_get_levels]: nodes per level, the prefix sums
    ([level_boundaries]), then every node id is written at its level's cursor. *)
Definition level_counts (dag : jdag) (dist : list Z) : list Z :=
  foldl (fun cs i => alter Z.succ (Z.to_nat (dist !!! i)) cs)
        (replicate JDAG_MAX_NODES 0) (seq 0 (node_count dag)).

Definition level_bounds (counts : list Z) (max_level : nat) : list Z :=
  (foldl (fun '(acc, pos) i => (acc ++ [pos + counts !!! i], pos + counts !!! i))
         ([], 0) (seq 0 (S max_level))).1.

Definition place_levels (dag : jdag) (dist bounds : list Z) (max_level : nat) : list Z :=
  let next_pos := map (fun i => if (i =? 0)%nat then 0 else bounds !!! (i - 1)%nat)
                      (seq 0 (S max_level)) in
  (foldl (fun '(res, np) i =>
            let lev := Z.to_nat (dist !!! i) in
            (<[Z.to_nat (np !!! lev) := node_id (node dag i)]> res, alter Z.succ lev np))
         (replicate (node_count dag) 0, next_pos) (seq 0 (node_count dag))).1.

(** (number of levels, [result], [level_boundaries]). *)
Definition jdag_get_levels (dag : jdag) (max : Z) : option (Z * list Z * list Z) :=
  if max <? Z.of_nat (node_count dag) then Some (-1, [], [])
  else
    s ← path_run dag 0;
    let ml := Z.to_nat (ps_max s) in
    let bounds := level_bounds (level_counts dag (ps_dist s)) ml in
    Some (ps_max s + 1, place_levels dag (ps_dist s) bounds ml, bounds).

(** ** The queue invariant.  [R u v] holds for the edges already relaxed. *)

Definition pending (dag : jdag) (R : nat -> nat -> bool) (v : nat) : nat :=
  count_if (fun u => negb (R u v)) (ins dag v).

Record kq_inv (dag : jdag) (R : nat -> nat -> bool) (c : kq) : Prop := {
  ki_len : length (indeg c) = node_count dag;
  ki_nodup : NoDup (queue c);
  ki_bound : forall v, v ∈ queue c -> (v < node_count dag)%nat;
  ki_head : (qhead c <= length (queue c))%nat;
  ki_deg : forall v, (v < node_count dag)%nat -> indeg c !!! v = Z.of_nat (pending dag R v);
  ki_zero : forall v, (v < node_count dag)%nat -> v ∈ queue c <-> indeg c !!! v = 0;
  ki_relaxed : forall u v, R u v = true -> u ∈ take (qhead c) (queue c);
  ki_order : forall k v, queue c !! k = Some v -> forall u, u ∈ ins dag v -> u ∈ take k (queue c);
}.

(** Between two rounds of the outer loop the relaxed edges are those that leave
    the dequeued nodes. *)
Definition dequeued (c : kq) (u v : nat) : bool := bool_decide (u ∈ take (qhead c) (queue c)).
Definition kq_ok (dag : jdag) (c : kq) : Prop := kq_inv dag (dequeued c) c.

Lemma kq_inv_ext dag R R' c : (forall u v, u ∈ ins dag v -> R u v = R' u v) ->
  (forall u v, R' u v = true -> u ∈ take (qhead c) (queue c)) ->
  kq_inv dag R c -> kq_inv dag R' c.
Proof.
  intros HR HR' [? ? ? ? Hd ? ? ?]. split; try done. intros v Hv. rewrite Hd by done.
  unfold pending, count_if. do 2 f_equal. apply List.filter_ext_in.
  intros u Hu. rewrite HR; [done|]. by apply list_elem_of_In.
Qed.

Lemma relax_inv dag R c u v :
  links_ok dag -> kq_inv dag R c -> u ∈ take (qhead c) (queue c) -> v ∈ outs dag u -> R u v = false ->
  kq_inv dag (fun a b => R a b || ((a =? u) && (b =? v))%nat) (relax c v).
Proof.
  intros Hl [Hlen Hnd Hb Hh Hd Hz Hrel Hord] Hu Hv HR.
  apply (lo_out _ Hl) in Hv as [Hvn Huv].
  set (R' := fun a b => R a b || ((a =? u) && (b =? v))%nat).
  assert (Hpv : pending dag R v = S (pending dag R' v)).
  { apply (count_if_flip _ _ _ u); unfold R'; [by apply lo_nodup_in|done|by rewrite HR| |].
    - by rewrite !Nat.eqb_refl, orb_true_r.
    - intros y Hy. by rewrite (proj2 (Nat.eqb_neq _ _) Hy), orb_false_r. }
  assert (Hpo : forall w, w <> v -> pending dag R' w = pending dag R w).
  { intros w Hw. apply count_if_ext. intros y _. unfold R'.
    by rewrite (proj2 (Nat.eqb_neq _ _) Hw), andb_false_r, orb_false_r. }
  assert (Hdv : indeg c !!! v - 1 = Z.of_nat (pending dag R' v)) by (rewrite Hd by done; lia).
  assert (Hvq : v ∉ queue c) by (rewrite Hz, Hd by done; lia).
  assert (Hdeg : forall w, (w < node_count dag)%nat ->
    <[v := indeg c !!! v - 1]> (indeg c) !!! w = Z.of_nat (pending dag R' w)).
  { intros w Hw. destruct (decide (w = v)) as [->|Hwv].
    - by rewrite list_lookup_total_insert_eq by lia.
    - rewrite list_lookup_total_insert_ne by done. by rewrite Hpo, Hd. }
  assert (HR' : forall q a b, R' a b = true -> a ∈ take (qhead c) (queue c ++ q)).
  { intros q a b Hab. rewrite take_app_le by done. apply orb_true_iff in Hab as [Hab|Hab].
    - by eapply Hrel.
    - apply andb_true_iff in Hab as [->%Nat.eqb_eq _]. done. }
  assert (Hzero : forall w, (w < node_count dag)%nat ->
    w ∈ queue c \/ (w = v /\ indeg c !!! v - 1 = 0) <-> <[v := indeg c !!! v - 1]> (indeg c) !!! w = 0).
  { intros w Hw. destruct (decide (w = v)) as [->|Hwv].
    - rewrite list_lookup_total_insert_eq by lia. naive_solver.
    - rewrite list_lookup_total_insert_ne by done. rewrite <- Hz by done. naive_solver. }
  unfold relax. destruct (Z.eqb_spec (indeg c !!! v - 1) 0) as [E|E]; split; cbn; try done.
  - by rewrite length_insert.
  - by apply NoDup_snoc.
  - intros w [Hw| ->%list_elem_of_singleton]%elem_of_app; auto.
  - rewrite length_app. lia.
  - intros w Hw. rewrite <- Hzero by done. rewrite elem_of_app, list_elem_of_singleton. naive_solver.
  - intros a b. apply HR'.
  - intros k w Hk x Hx. destruct (decide (k < length (queue c))%nat) as [Hlt|Hge].
    + rewrite lookup_app_l in Hk by done. rewrite take_app_le by lia. by eapply Hord.
    + apply lookup_lt_Some in Hk as Hlt'. rewrite length_app in Hlt'. simpl in Hlt'.
      assert (k = length (queue c)) as -> by lia.
      rewrite lookup_app_r, Nat.sub_diag in Hk by done. simpl in Hk. simplify_eq.
      rewrite take_app_length. destruct (R' x w) eqn:Ex.
      * apply (HR' []) in Ex. rewrite app_nil_r in Ex. by eapply elem_of_take in Ex as (? & ?%list_elem_of_lookup_2 & _).
      * exfalso. assert (0 < pending dag R' w)%nat; [|lia]. unfold pending, count_if.
        destruct (List.filter _ _) eqn:Ef; [|simpl; lia].
        assert (In x []) as []. rewrite <- Ef. apply filter_In. rewrite Ex.
        split; [by apply list_elem_of_In|done].
  - by rewrite length_insert.
  - intros w Hw. rewrite <- Hzero by done. naive_solver.
  - intros a b Hab. specialize (HR' [] a b Hab). by rewrite app_nil_r in HR'.
Qed.

Lemma relax_head c v : qhead (relax c v) = qhead c.
Proof. unfold relax. by case_match. Qed.

Lemma relax_queue c v : exists q, queue (relax c v) = queue c ++ q.
Proof. unfold relax. case_match; cbn; [by exists [v]|exists []; by rewrite app_nil_r]. Qed.

Lemma kq_inv_eq dag R R' c : (forall u v, R u v = R' u v) -> kq_inv dag R c -> kq_inv dag R' c.
Proof.
  intros HR Hi. apply (kq_inv_ext dag R); [by intros..| |done].
  intros u v Hu. rewrite <- HR in Hu. by eapply ki_relaxed.
Qed.

(** The inner loop relaxes the edges of the dequeued node [u] one by one. *)
Lemma relax_loop dag R c u l :
  links_ok dag -> NoDup l -> (forall v, v ∈ l -> v ∈ outs dag u /\ R u v = false) ->
  kq_inv dag R c -> u ∈ take (qhead c) (queue c) ->
  kq_inv dag (fun a b => R a b || ((a =? u)%nat && bool_decide (b ∈ l))) (foldl relax c l) /\
  qhead (foldl relax c l) = qhead c /\ exists q, queue (foldl relax c l) = queue c ++ q.
Proof.
  intros Hl. revert R c. induction l as [|v l IH]; intros R c Hnd Hout Hi Hu; simpl.
  - split; [|split; [done|exists []; by rewrite app_nil_r]].
    apply (kq_inv_eq dag R); [|done]. intros a b. cbv beta.
    by rewrite andb_false_r, orb_false_r.
  - apply NoDup_cons in Hnd as [Hvl Hnd]. destruct (Hout v) as [Hv HR]; [by left|].
    destruct (relax_queue c v) as [q Hq].
    destruct (IH (fun a b => R a b || ((a =? u) && (b =? v))%nat) (relax c v)) as (Hi' & Hh & q' & Hq').
    + done.
    + intros w Hw. destruct (Hout w) as [Hwo HRw]; [by right|]. split; [done|]. rewrite HRw.
      rewrite (proj2 (Nat.eqb_neq w v)), andb_false_r by (by intros ->). done.
    + by apply relax_inv.
    + rewrite relax_head, Hq, take_app_le; [done|by eapply ki_head].
    + rewrite relax_head in Hh. split; [|split; [done|]].
      * eapply kq_inv_eq, Hi'. intros a b. cbn. rewrite <- orb_assoc. f_equal.
        destruct (Nat.eqb_spec a u); [|done]. simpl.
        destruct (Nat.eqb_spec b v) as [->|Hne]; simpl.
        { symmetry. apply bool_decide_eq_true_2. left. }
        apply bool_decide_ext. rewrite elem_of_cons. naive_solver.
      * exists (q ++ q'). by rewrite Hq', Hq, app_assoc.
Qed.

(** One round of the outer loop on the shared state. *)
Definition kq_step (dag : jdag) (c : kq) : kq :=
  foldl relax (c <| qhead ::= S |>) (outs dag (queue c !!! qhead c)).

Lemma kq_advance dag R c u :
  kq_inv dag R c -> queue c !! qhead c = Some u -> kq_inv dag R (c <| qhead ::= S |>).
Proof.
  intros [? ? ? ? ? ? Hr ?] Hu. split; try done; cbn.
  - by apply lookup_lt_Some in Hu.
  - intros a b Hab%Hr. rewrite (take_S_r _ _ u) by done. apply elem_of_app. by left.
Qed.

Lemma kq_step_ok dag c :
  links_ok dag -> kq_ok dag c -> kq_more c = true ->
  kq_ok dag (kq_step dag c) /\ qhead (kq_step dag c) = S (qhead c) /\
  exists q, queue (kq_step dag c) = queue c ++ q.
Proof.
  intros Hl Hok Hm. unfold kq_more in Hm. apply Nat.ltb_lt in Hm. unfold kq_step.
  set (u := queue c !!! qhead c).
  assert (Hqu : queue c !! qhead c = Some u) by (by apply list_lookup_lookup_total_lt).
  assert (Htake : take (S (qhead c)) (queue c) = take (qhead c) (queue c) ++ [u])
    by (by apply take_S_r).
  assert (Hudq : u ∉ take (qhead c) (queue c)).
  { intros (j & Hj & Hlt)%elem_of_take.
    pose proof (proj1 (NoDup_alt _) (ki_nodup _ _ _ Hok) _ _ _ Hqu Hj). lia. }
  destruct (relax_loop dag (dequeued c) (c <| qhead ::= S |>) u (outs dag u))
    as (Hi & Hh & q & Hq).
  - done.
  - by apply lo_nodup_out.
  - intros v Hv. split; [done|]. by apply bool_decide_eq_false.
  - by apply (kq_advance dag _ c u).
  - cbn. rewrite Htake. set_solver.
  - split; [|split; [done|by exists q]]. cbn in Hq, Hh.
    assert (Hdq : forall a b, dequeued (foldl relax (c <| qhead ::= S |>) (outs dag u)) a b =
      bool_decide (a ∈ take (qhead c) (queue c) ++ [u])).
    { intros a b. unfold dequeued. by rewrite Hh, Hq, take_app_le, Htake by lia. }
    eapply kq_inv_ext, Hi.
    + intros a b Ha. rewrite Hdq. apply (lo_in _ Hl) in Ha as [_ Hb]. unfold dequeued.
      destruct (Nat.eqb_spec a u); repeat case_bool_decide; set_solver.
    + intros a b Hab. by apply bool_decide_eq_true in Hab.
Qed.

Lemma kq_init_ok dag :
  links_ok dag -> (forall i, deg_ok (node dag i)) -> kq_ok dag (kq_init dag).
Proof.
  intros Hl Hd.
  assert (Hlk : forall v, (v < node_count dag)%nat ->
    indeg (kq_init dag) !!! v = Z.of_nat (length (ins dag v))).
  { intros v Hv. cbn. rewrite list_lookup_total_alt, list_lookup_fmap, node_lookup_lt by done. apply (Hd v). }
  assert (Hq : forall v, v ∈ queue (kq_init dag) <-> (v < node_count dag)%nat /\ indeg (kq_init dag) !!! v = 0).
  { intros v. unfold kq_init. cbn [queue indeg]. rewrite list_elem_of_In, filter_In, <- list_elem_of_In, elem_of_seq.
    rewrite Z.eqb_eq. split; intros [? ?]; (split; [lia|done]). }
  split.
  - cbn. by rewrite length_fmap.
  - cbn. apply NoDup_ListNoDup, List.NoDup_filter, NoDup_ListNoDup, NoDup_seq.
  - intros v Hv. by apply Hq.
  - cbn. lia.
  - intros v Hv. rewrite Hlk by done. unfold pending.
    rewrite (count_if_ext (fun _ => true)) by done. by rewrite count_if_true.
  - intros v Hv. rewrite Hq. naive_solver.
  - intros u v Huv. by apply bool_decide_eq_true in Huv.
  - intros k v Hk u Hu. apply list_elem_of_lookup_2, Hq in Hk as [Hv Hz].
    rewrite Hlk in Hz by done. destruct (ins dag v); [by apply not_elem_of_nil in Hu|simpl in Hz; lia].
Qed.

(** ** Consequences at the end of the outer loop *)

Lemma kq_length dag R c : kq_inv dag R c -> (length (queue c) <= node_count dag)%nat.
Proof. intros H. apply NoDup_bounded_length; apply H. Qed.

Lemma kq_before dag R c u v :
  links_ok dag -> kq_inv dag R c -> v ∈ queue c -> dedge dag u v -> before (queue c) u v.
Proof.
  intros Hl Hi [k Hk]%list_elem_of_lookup He.
  assert (Hu : u ∈ take k (queue c)) by (apply (ki_order _ _ _ Hi k v Hk), Hl, He).
  apply elem_of_take in Hu as (i & Hi' & Hlt). by exists i, k.
Qed.

(** Nothing is left to dequeue and the graph is acyclic: every node was queued. *)
Lemma kq_complete dag c :
  links_ok dag -> kq_ok dag c -> kq_more c = false -> acyclic (node_count dag) (outs dag) ->
  topological (node_count dag) (outs dag) (queue c).
Proof.
  intros Hl Hi Hm Hac. unfold kq_more in Hm. apply Nat.ltb_ge in Hm.
  assert (Hall : forall v, (v < node_count dag)%nat -> v ∈ queue c).
  { apply (acyclic_pred_ind _ _ _ Hac). intros v Hv IH.
    apply (ki_zero _ _ _ Hi v Hv). rewrite (ki_deg _ _ _ Hi v Hv).
    unfold pending, count_if. destruct (List.filter _ _) as [|x l] eqn:Ef; [done|exfalso].
    assert (In x (x :: l)) as Hx by (by left). rewrite <- Ef in Hx.
    apply filter_In in Hx as [Hx Hr]. apply list_elem_of_In, (lo_in _ Hl) in Hx as [_ Hx].
    apply negb_true_iff, bool_decide_eq_false in Hr. apply Hr. rewrite take_ge by done.
    apply IH. by apply dedge_alt. }
  split; [apply Hi|]. split.
  - intros v. split; [apply Hi|apply Hall].
  - intros u v He. eapply kq_before; [done..| |done]. apply Hall, He.
Qed.

(** ** Kahn's sort *)

Definition ids_of (dag : jdag) (l : list nat) : list Z := (fun i => node_id (node dag i)) <$> l.

Lemma ids_of_seq dag : ids_of dag (seq 0 (node_count dag)) = node_id <$> nodes dag.
Proof.
  unfold ids_of. apply list_eq. intros i. rewrite !list_lookup_fmap.
  destruct (decide (i < node_count dag)%nat) as [Hi|Hi].
  - rewrite lookup_seq_lt, node_lookup_lt by done. done.
  - rewrite !lookup_ge_None_2; [done| |]; unfold node_count in *; rewrite ?length_seq; lia.
Qed.

Lemma ids_of_topological dag l :
  topological (node_count dag) (outs dag) l ->
  ids_of dag l ≡ₚ node_id <$> nodes dag /\ forall a b, depends dag a b ->
    exists i j, (i < j)%nat /\ ids_of dag l !! i = Some a /\ ids_of dag l !! j = Some b.
Proof.
  intros (Hnd & Hel & Hed). split.
  - assert (l ≡ₚ seq 0 (node_count dag)) as Hp.
    { apply NoDup_Permutation; [done|apply NoDup_seq|]. intros x. rewrite Hel, elem_of_seq. lia. }
    rewrite <- ids_of_seq. unfold ids_of. by rewrite Hp.
  - intros a b (u & v & He & <- & <-). destruct (Hed u v He) as (i & j & Hij & Hi & Hj).
    exists i, j. unfold ids_of. rewrite !list_lookup_fmap, Hi, Hj. done.
Qed.

Lemma full_queue_topological dag R c :
  links_ok dag -> kq_inv dag R c -> length (queue c) = node_count dag ->
  topological (node_count dag) (outs dag) (queue c).
Proof.
  intros Hl Hi Hlen. split; [apply Hi|]. split.
  - intros v. split; [apply Hi|]. apply NoDup_bounded_full; [apply Hi..|done].
  - intros u v He. eapply kq_before; [done..| |done].
    eapply NoDup_bounded_full; [apply Hi..|done|apply He].
Qed.

Definition sort_ok (dag : jdag) (s : sort_state) : Prop :=
  kq_ok dag (ks_q s) /\ ks_result s = ids_of dag (take (qhead (ks_q s)) (queue (ks_q s))).

Lemma kahn_body_ok dag s :
  links_ok dag -> sort_ok dag s -> kq_more (ks_q s) = true ->
  sort_ok dag (kahn_body dag s) /\ qhead (ks_q (kahn_body dag s)) = S (qhead (ks_q s)).
Proof.
  intros Hl [Hok Hres] Hm. destruct (kq_step_ok dag (ks_q s) Hl Hok Hm) as (Hok' & Hh & q & Hq).
  split; [|exact Hh]. split; [exact Hok'|].
  change (ks_q (kahn_body dag s)) with (kq_step dag (ks_q s)). cbn. rewrite Hh, Hq, Hres.
  unfold kq_more in Hm. apply Nat.ltb_lt in Hm.
  rewrite take_app_le, (take_S_r _ _ (queue (ks_q s) !!! qhead (ks_q s))) by
    (done || lia || by apply list_lookup_lookup_total_lt).
  unfold ids_of. by rewrite fmap_app.
Qed.

Lemma kahn_spec dag max :
  links_ok dag -> (forall i, deg_ok (node dag i)) -> Z.of_nat (node_count dag) <= max ->
  exists order,
    (length order <= node_count dag)%nat /\
    ((topological (node_count dag) (outs dag) order /\
      jdag_topological_sort_kahn dag max = Some (Z.of_nat (node_count dag), ids_of dag order)) \/
     (~ acyclic (node_count dag) (outs dag) /\
      jdag_topological_sort_kahn dag max = Some (-2, ids_of dag order))).
Proof.
  intros Hl Hd Hmax. unfold jdag_topological_sort_kahn.
  rewrite (proj2 (Z.ltb_ge _ _) Hmax).
  destruct (while_loop_total (sort_ok dag) (fun s => node_count dag - qhead (ks_q s))%nat
              (fun s => kq_more (ks_q s)) (kahn_body dag)) with
    (fuel := node_count dag) (s := mk_sort (kq_init dag) []) as (s & Hrun & [Hok Hres] & Hm).
  - intros s Hs Hc. destruct (kahn_body_ok dag s Hl Hs Hc) as [Hs' Hh]. split; [done|]. rewrite Hh.
    destruct Hs as [Hok _]. pose proof (kq_length _ _ _ Hok). unfold kq_more in Hc. zbool. lia.
  - split; [by apply kq_init_ok|done].
  - cbn. lia.
  - rewrite Hrun. cbn [mbind option_bind]. exists (queue (ks_q s)).
    pose proof (kq_length _ _ _ Hok). split; [done|].
    pose proof Hm as Hm'. unfold kq_more in Hm'. zbool. rewrite take_ge in Hres by done.
    assert (Hlen : length (ks_result s) = length (queue (ks_q s)))
      by (rewrite Hres; apply length_fmap).
    rewrite Hlen. destruct (Nat.eqb_spec (length (queue (ks_q s))) (node_count dag)) as [He|Hne]; simpl.
    + left. split; [by eapply full_queue_topological|]. by rewrite He, Hres.
    + right. split; [|by rewrite Hres]. intros Hac. apply Hne.
      apply (topological_length _ (outs dag)). by apply kq_complete.
Qed.

(** C3: as long as the stored in-degree of every job is the number of its dependencies,
    as every edit leaves it and until jobs are marked completed, Kahn's algorithm
    terminates within [node_count] rounds and within its queue array.  On a graph with a
    cycle it returns -2; otherwise it returns [node_count], and [result] lists every id
    once, each before everything that depends on it. *)
Theorem jdag_topological_sort_kahn_correct dag max :
  links_ok dag -> (forall i, deg_ok (node dag i)) -> Z.of_nat (node_count dag) <= max ->
  exists r result, jdag_topological_sort_kahn dag max = Some (r, result) /\
    (length result <= node_count dag)%nat /\
    (acyclic (node_count dag) (outs dag) -> r = Z.of_nat (node_count dag) /\
       result ≡ₚ node_id <$> nodes dag /\
       forall a b, depends dag a b ->
         exists i j, (i < j)%nat /\ result !! i = Some a /\ result !! j = Some b) /\
    (~ acyclic (node_count dag) (outs dag) -> r = -2).
Proof.
  intros Hl Hd Hmax. destruct (kahn_spec dag max Hl Hd Hmax) as (q & Hlen & [[Ht ->]|[Hc ->]]).
  - eexists _, _. split; [done|]. split; [unfold ids_of; by rewrite length_fmap|]. split.
    + intros _. split; [done|]. by apply ids_of_topological.
    + intros Hc. exfalso. by eapply Hc, topological_acyclic.
  - eexists _, _. split; [done|]. split; [unfold ids_of; by rewrite length_fmap|]. split; [done|].
    by intros.
Qed.

Lemma jdag_topological_sort_kahn_correct_witness :
  exists result, jdag_topological_sort_kahn diamond 8 = Some (4, result) /\
    result = [10; 11; 12; 13] /\ result ≡ₚ node_id <$> nodes diamond.
Proof.
  pose proof (dag_reachable_ok _ diamond_reachable) as Hok.
  destruct (jdag_topological_sort_kahn_correct diamond 8 (do_links _ Hok) (do_deg _ Hok))
    as (r & res & H & _ & Hac & _); [vm_compute; discriminate|].
  destruct (Hac (do_acyclic _ Hok)) as (-> & Hp & _).
  exists res. split; [exact H|]. split; [|exact Hp]. vm_compute in H. congruence.
Defined.

(** ** Longest paths *)

(** The distance updates of the inner loop, apart from the queue. *)
Definition dist_visit (u : nat) (d : list Z) (v : nat) : list Z :=
  if d !!! v <? d !!! u + 1 then <[v := d !!! u + 1]> d else d.

Lemma path_fold u l s :
  foldl (path_visit u) s l =
    mk_path (foldl relax (ps_q s) l) (foldl (dist_visit u) (ps_dist s) l) (ps_max s).
Proof. revert s. induction l as [|v l IH]; intros s; [by destruct s|]. cbn. by rewrite IH. Qed.

Lemma dist_fold u l d :
  NoDup l -> u ∉ l -> (forall v, v ∈ l -> (v < length d)%nat) ->
  length (foldl (dist_visit u) d l) = length d /\
  forall w, foldl (dist_visit u) d l !!! w =
            if decide (w ∈ l) then Z.max (d !!! w) (d !!! u + 1) else d !!! w.
Proof.
  revert d. induction l as [|v l IH]; intros d Hnd Hu Hb; [done|]. cbn [foldl].
  apply NoDup_cons in Hnd as [Hv Hnd]. apply not_elem_of_cons in Hu as [Huv Hu].
  assert (Hvb : (v < length d)%nat) by (apply Hb; by left).
  assert (Hlen : length (dist_visit u d v) = length d)
    by (unfold dist_visit; case_match; by rewrite ?length_insert).
  assert (Hlk : forall w, dist_visit u d v !!! w =
            if decide (w = v) then Z.max (d !!! v) (d !!! u + 1) else d !!! w).
  { intros w. unfold dist_visit. destruct (Z.ltb_spec (d !!! v) (d !!! u + 1)); case_decide; subst.
    - rewrite list_lookup_total_insert_eq by done. lia.
    - by rewrite list_lookup_total_insert_ne.
    - lia.
    - done. }
  destruct (IH (dist_visit u d v) Hnd Hu) as [Hl Hw].
  { intros w Hw. rewrite Hlen. apply Hb. by right. }
  split; [by rewrite Hl|]. intros w. rewrite Hw, !Hlk, (decide_False (P := u = v)) by done.
  destruct (decide (w = v)) as [->|Hwv].
  - rewrite decide_False by done. by rewrite decide_True by left.
  - rewrite (decide_ext (w ∈ v :: l) (w ∈ l)) by (rewrite elem_of_cons; naive_solver). done.
Qed.

Lemma kq_pred_dequeued dag c u v :
  kq_ok dag c -> v ∈ queue c -> u ∈ ins dag v -> u ∈ take (qhead c) (queue c).
Proof.
  intros Hi Hv Hu. pose proof (ki_bound _ _ _ Hi v Hv) as Hvn.
  apply (ki_zero _ _ _ Hi v Hvn) in Hv. rewrite (ki_deg _ _ _ Hi v Hvn) in Hv.
  destruct (decide (u ∈ take (qhead c) (queue c))) as [|Hn]; [done|exfalso].
  unfold pending, count_if in Hv. destruct (List.filter _ _) eqn:Ef; [|simpl in Hv; lia].
  assert (In u []) as []. rewrite <- Ef. apply filter_In. split; [by apply list_elem_of_In|].
  unfold dequeued. by rewrite bool_decide_eq_false_2.
Qed.

(** [src] is the distance given to sources; the path that realises a distance
    has [1 - src] more nodes than it. *)
Record path_ok (dag : jdag) (src : Z) (s : path_state) : Prop := {
  po_q : kq_ok dag (ps_q s);
  po_len : (node_count dag <= length (ps_dist s))%nat;
  po_pos : forall v, 0 <= ps_dist s !!! v;
  po_path : forall v, (v < node_count dag)%nat -> ps_dist s !!! v = 0 \/
    plen (node_count dag) (outs dag) v (ps_dist s !!! v + (1 - src));
  po_src : forall v, (v < node_count dag)%nat -> ins dag v = [] -> src <= ps_dist s !!! v;
  po_edge : forall u v, u ∈ take (qhead (ps_q s)) (queue (ps_q s)) -> v ∈ outs dag u ->
    ps_dist s !!! u + 1 <= ps_dist s !!! v;
  po_max : forall u, u ∈ take (qhead (ps_q s)) (queue (ps_q s)) -> ps_dist s !!! u <= ps_max s;
  po_max_in : ps_max s = 0 \/
    exists u, u ∈ take (qhead (ps_q s)) (queue (ps_q s)) /\ ps_dist s !!! u = ps_max s;
}.

Lemma path_queued dag src s v :
  links_ok dag -> src = 0 \/ src = 1 -> path_ok dag src s -> v ∈ queue (ps_q s) ->
  plen (node_count dag) (outs dag) v (ps_dist s !!! v + (1 - src)).
Proof.
  intros Hl Hsrc [Hq _ Hpos Hpath Hs He _ _] Hv. pose proof (ki_bound _ _ _ Hq v Hv) as Hvn.
  destruct (Hpath v Hvn) as [Hz|]; [|done]. rewrite Hz.
  destruct Hsrc as [->| ->]; [by apply (plen_one _ _ v)|exfalso].
  destruct (ins dag v) as [|u l] eqn:Hin.
  - specialize (Hs v Hvn Hin). lia.
  - assert (Hu : u ∈ ins dag v) by (rewrite Hin; by left).
    pose proof (kq_pred_dequeued _ _ _ _ Hq Hv Hu) as Hud.
    apply (lo_in _ Hl) in Hu as [_ Hu]. specialize (He u v Hud Hu). specialize (Hpos u). lia.
Qed.

Lemma path_body_ok dag src s :
  links_ok dag -> src = 0 \/ src = 1 -> path_ok dag src s -> kq_more (ps_q s) = true ->
  path_ok dag src (path_body dag s) /\ qhead (ps_q (path_body dag s)) = S (qhead (ps_q s)).
Proof.
  intros Hl Hsrc Hok Hm. pose proof Hok as [Hq Hlen Hpos Hpath Hs He Hmx Hmi].
  destruct (kq_step_ok dag (ps_q s) Hl Hq Hm) as (Hq' & Hh & q & Hqq).
  unfold path_body. rewrite path_fold. cbn [ps_q ps_dist ps_max].
  change (foldl relax _ _) with (kq_step dag (ps_q s)). split; [|exact Hh].
  unfold kq_more in Hm. apply Nat.ltb_lt in Hm.
  set (u := queue (ps_q s) !!! qhead (ps_q s)).
  assert (Hqu : queue (ps_q s) !! qhead (ps_q s) = Some u) by (by apply list_lookup_lookup_total_lt).
  assert (Htake : take (qhead (kq_step dag (ps_q s))) (queue (kq_step dag (ps_q s))) =
                  take (qhead (ps_q s)) (queue (ps_q s)) ++ [u]).
  { rewrite Hh, Hqq, take_app_le by lia. by apply take_S_r. }
  assert (Huq : u ∈ queue (ps_q s)) by (by eapply list_elem_of_lookup_2).
  (* a successor of [u] has not been queued, so [u]'s edges leave the prefix *)
  assert (Hout : forall v, v ∈ outs dag u -> v ∉ queue (ps_q s)).
  { intros v Hv Hvq. apply (lo_out _ Hl) in Hv as [_ Hv].
    pose proof (kq_pred_dequeued _ _ _ _ Hq Hvq Hv) as (j & Hj & Hlt)%elem_of_take.
    pose proof (proj1 (NoDup_alt _) (ki_nodup _ _ _ Hq) _ _ _ Hqu Hj). lia. }
  destruct (dist_fold u (outs dag u) (ps_dist s)) as [Hdl Hd].
  { by apply lo_nodup_out. } { intros Hu. by apply (Hout u). }
  { intros v Hv. apply (lo_out _ Hl) in Hv as [Hv _]. lia. }
  change (out_edges (node dag u)) with (outs dag u).
  set (d' := foldl (dist_visit u) (ps_dist s) (outs dag u)) in *.
  assert (Hsame : forall v, v ∈ queue (ps_q s) -> d' !!! v = ps_dist s !!! v).
  { intros v Hv. rewrite Hd, decide_False; [done|]. intros Hvo. by apply (Hout v). }
  assert (Hmono : forall v, ps_dist s !!! v <= d' !!! v) by (intros v; rewrite Hd; case_decide; lia).
  assert (Hmaxu : (if ps_max s <? ps_dist s !!! u then ps_dist s !!! u else ps_max s) =
                  Z.max (ps_max s) (ps_dist s !!! u)).
  { destruct (Z.ltb_spec (ps_max s) (ps_dist s !!! u)); lia. }
  assert (Hpre : forall a, a ∈ take (qhead (ps_q s)) (queue (ps_q s)) -> a ∈ queue (ps_q s)).
  { intros a (j & Hj & _)%elem_of_take. by eapply list_elem_of_lookup_2. }
  split; cbn [ps_q ps_dist ps_max]; rewrite ?Htake, ?Hmaxu; try done.
  - by rewrite Hdl.
  - intros v. specialize (Hmono v). specialize (Hpos v). lia.
  - intros v Hv. rewrite Hd. case_decide as Hvo; [|auto].
    destruct (Z.max_spec (ps_dist s !!! v) (ps_dist s !!! u + 1)) as [[_ ->]|[_ ->]]; [right|auto].
    replace (_ + 1 + (1 - src)) with (ps_dist s !!! u + (1 - src) + 1) by lia.
    eapply plen_step; [by eapply path_queued|by apply dedge_alt].
  - intros v Hv Hin. etransitivity; [by apply Hs|done].
  - intros a v [Ha| ->%list_elem_of_singleton]%elem_of_app Hv.
    + rewrite Hsame by auto. etransitivity; [by apply He|done].
    + rewrite Hsame, Hd, decide_True by done. lia.
  - intros a [Ha| ->%list_elem_of_singleton]%elem_of_app; rewrite Hsame by auto; [|lia].
    specialize (Hmx a Ha). lia.
  - right. destruct (Z.max_spec (ps_max s) (ps_dist s !!! u)) as [[_ ->]|[Hle ->]].
    + exists u. split; [set_solver|by apply Hsame].
    + destruct Hmi as [Hz|(a & Ha & Hae)].
      * exists u. split; [set_solver|]. rewrite Hsame by done. specialize (Hpos u). lia.
      * exists a. split; [set_solver|]. by rewrite Hsame by auto.
Qed.

Lemma source_dist_fold (l : list nat) (src : Z) d :
  NoDup l -> (forall v, v ∈ l -> (v < length d)%nat) ->
  length (foldl (fun d i => <[i := src]> d) d l) = length d /\
  forall w, foldl (fun d i => <[i := src]> d) d l !!! w = if decide (w ∈ l) then src else d !!! w.
Proof.
  revert d. induction l as [|v l IH]; intros d Hnd Hb; [done|]. cbn [foldl].
  apply NoDup_cons in Hnd as [Hv Hnd]. destruct (IH (<[v := src]> d) Hnd) as [Hl Hw].
  { intros w Hw. rewrite length_insert. apply Hb. by right. }
  split; [by rewrite Hl, length_insert|]. intros w. rewrite Hw.
  destruct (decide (w = v)) as [->|Hwv].
  - rewrite decide_False, decide_True by (done || by left).
    apply list_lookup_total_insert_eq, Hb. by left.
  - rewrite list_lookup_total_insert_ne by done.
    by rewrite (decide_ext (w ∈ v :: l) (w ∈ l)) by (rewrite elem_of_cons; naive_solver).
Qed.

Lemma path_init_ok dag src :
  dag_ok dag -> src = 0 \/ src = 1 ->
  path_ok dag src (mk_path (kq_init dag)
    (foldl (fun d i => <[i := src]> d) (replicate JDAG_MAX_NODES 0) (queue (kq_init dag))) 0).
Proof.
  intros Hok Hsrc. pose proof (kq_init_ok dag (do_links _ Hok) (do_deg _ Hok)) as Hq.
  pose proof (do_size _ Hok) as Hsz.
  destruct (source_dist_fold (queue (kq_init dag)) src (replicate JDAG_MAX_NODES 0)) as [Hl Hd].
  { apply Hq. } { intros v Hv. rewrite length_replicate. apply (ki_bound _ _ _ Hq) in Hv. lia. }
  assert (Hz : forall v, (v < node_count dag)%nat -> (replicate JDAG_MAX_NODES 0 !!! v) = 0)
    by (intros v Hv; apply lookup_total_replicate_2; lia).
  assert (Hnn : forall v, 0 <= replicate JDAG_MAX_NODES 0 !!! v).
  { intros v. rewrite list_lookup_total_alt. destruct (_ !! v) eqn:E; [|done].
    by apply lookup_replicate in E as [-> _]. }
  split; cbn [ps_q ps_dist ps_max]; try done.
  - rewrite Hl, length_replicate. lia.
  - intros v. rewrite Hd. specialize (Hnn v). case_decide; lia.
  - intros v Hv. rewrite Hd, Hz by done. case_decide; [right|by left].
    replace (src + (1 - src)) with 1 by lia. by apply plen_one.
  - intros v Hv Hin. rewrite Hd, decide_True; [done|].
    apply (ki_zero _ _ _ Hq v Hv). rewrite (ki_deg _ _ _ Hq v Hv). unfold pending. by rewrite Hin.
  - intros u v Hu. by apply not_elem_of_nil in Hu.
  - intros u Hu. by apply not_elem_of_nil in Hu.
  - by left.
Qed.

(** The loop ends with every distance equal to the longest path's. *)
Lemma path_run_spec dag src :
  dag_ok dag -> src = 0 \/ src = 1 ->
  exists s, path_run dag src = Some s /\
    (forall v, (v < node_count dag)%nat ->
       plen (node_count dag) (outs dag) v (ps_dist s !!! v + (1 - src)) /\
       forall k, plen (node_count dag) (outs dag) v k -> k <= ps_dist s !!! v + (1 - src)) /\
    (forall v, (v < node_count dag)%nat -> 0 <= ps_dist s !!! v <= ps_max s) /\
    (ps_max s = 0 \/ exists v, (v < node_count dag)%nat /\ ps_dist s !!! v = ps_max s).
Proof.
  intros Hok Hsrc. pose proof (do_links _ Hok) as Hl. unfold path_run.
  destruct (while_loop_total (path_ok dag src) (fun s => node_count dag - qhead (ps_q s))%nat
              (fun s => kq_more (ps_q s)) (path_body dag) ) with (fuel := node_count dag)
    (s := mk_path (kq_init dag) (foldl (fun d i => <[i := src]> d)
            (replicate JDAG_MAX_NODES 0) (queue (kq_init dag))) 0) as (s & Hrun & Hp & Hm).
  { intros s Hs Hc. destruct (path_body_ok dag src s Hl Hsrc Hs Hc) as [Hs' Hh]. split; [done|].
    rewrite Hh. pose proof (kq_length _ _ _ (po_q _ _ _ Hs)). unfold kq_more in Hc. zbool. lia. }
  { by apply path_init_ok. }
  { cbn. lia. }
  exists s. split; [exact Hrun|].
  pose proof (kq_complete dag (ps_q s) Hl (po_q _ _ _ Hp) Hm (do_acyclic _ Hok)) as (_ & Hall & _).
  unfold kq_more in Hm. zbool.
  assert (Htake : take (qhead (ps_q s)) (queue (ps_q s)) = queue (ps_q s)) by (by apply take_ge).
  assert (Hplen : forall v, (v < node_count dag)%nat ->
      plen (node_count dag) (outs dag) v (ps_dist s !!! v + (1 - src))).
  { intros v Hv. apply path_queued; try done. by apply Hall. }
  destruct Hp as [_ _ Hpos _ _ He Hmx Hmi]. rewrite Htake in He, Hmx, Hmi. split_and!.
  - intros v Hv. split; [by apply Hplen|]. intros k Hk. clear Hv.
    induction Hk as [v Hv|u v k Hk IH Huv].
    + by eapply plen_pos, Hplen.
    + specialize (He u v). rewrite Hall in He. destruct Huv as (Hu & Hv & Hin).
      specialize (He Hu Hin). lia.
  - intros v Hv. split; [done|]. by apply Hmx, Hall.
  - destruct Hmi as [Hz|(v & Hv & E)]; [by left|right]. exists v. split; [by apply Hall|done].
Qed.

(** [jdag_critical_path_length] of a well-formed DAG is the number of nodes
    on its longest path: some path has that many nodes and none has more. *)
Theorem jdag_critical_path_length_correct dag :
  dag_reachable dag -> (0 < node_count dag)%nat ->
  exists r, jdag_critical_path_length dag = Some r /\
    (exists v, plen (node_count dag) (outs dag) v r) /\
    forall v k, plen (node_count dag) (outs dag) v k -> k <= r.
Proof.
  intros Hok%dag_reachable_ok Hn. unfold jdag_critical_path_length.
  rewrite (proj2 (Nat.eqb_neq _ _)) by lia.
  destruct (path_run_spec dag 1 Hok) as (s & -> & Hlong & Hmax & Hin); [by right|].
  exists (ps_max s). split; [done|]. assert (Hbound : forall v k,
    plen (node_count dag) (outs dag) v k -> (v < node_count dag)%nat /\ k <= ps_dist s !!! v).
  { intros v k Hk. assert (Hv : (v < node_count dag)%nat) by (destruct Hk as [|? ? ? ? H]; [done|apply H]).
    split; [done|]. destruct (Hlong v Hv) as [_ H]. specialize (H k Hk). lia. }
  split.
  - destruct Hin as [Hz|(v & Hv & E)].
    + exfalso. destruct (Hbound 0%nat 1 (plen_one _ _ 0 Hn)) as [_ H].
      specialize (Hmax 0%nat Hn). lia.
    + exists v. destruct (Hlong v Hv) as [H _]. rewrite E in H. by rewrite Z.add_0_r in H.
  - intros v k Hk. destruct (Hbound v k Hk) as [Hv H]. specialize (Hmax v Hv). lia.
Qed.

Lemma jdag_critical_path_length_correct_witness :
  exists r, jdag_critical_path_length diamond = Some r /\ r = 3.
Proof.
  destruct (jdag_critical_path_length_correct diamond diamond_reachable) as (r & H & _);
    [vm_compute; lia|].
  exists r. split; [exact H|]. vm_compute in H. congruence.
Defined.
