(* ===== verification/JobDagDfs.v ===== *)
(** The depth-first algorithms of the job DAG: [jdag_topological_sort_dfs]
    (post-order) and [jdag_has_cycle] (back edges to a gray node).  Both recurse
    on the C stack; the fuel bounds the depth and [S node_count] is enough. *)

From S2P Require Import Prelude Graph Dfs JobDag JobDagWf JobDagSort.

(** ** Definitions.  Colors: 0 white, 1 gray, 2 black. *)

(** [result[--pos] = id] fills the array from the back: the filled part is the
    second component. *)
Fixpoint dfs_visit (fuel : nat) (dag : jdag) (u : nat) (st : list Z * list Z)
    : option (list Z * list Z) :=
  match fuel with
  | O => None
  | S fuel' =>
      r ← foldl (fun acc v =>
                   s ← acc;
                   if s.1 !!! v =? 0 then dfs_visit fuel' dag v s else Some s)
                (Some (<[u := 1]> st.1, st.2)) (out_edges (node dag u));
      Some (<[u := 2]> r.1, node_id (node dag u) :: r.2)
  end.

Definition jdag_topological_sort_dfs (dag : jdag) (max : Z) : option (Z * list Z) :=
  if max <? Z.of_nat (node_count dag) then Some (-1, [])
  else
    s ← foldl (fun acc i =>
                 s ← acc;
                 if s.1 !!! i =? 0 then dfs_visit (S (node_count dag)) dag i s else Some s)
              (Some (replicate JDAG_MAX_NODES 0, [])) (seq 0 (node_count dag));
    Some (Z.of_nat (node_count dag), s.2).

(** The pair is (return value 1, colors). *)
Fixpoint dfs_cycle_detect (fuel : nat) (dag : jdag) (u : nat) (color : list Z)
    : option (bool * list Z) :=
  match fuel with
  | O => None
  | S fuel' =>
      r ← foldl (fun acc v =>
                   s ← acc;
                   if s.1 : bool then Some s
                   else if s.2 !!! v =? 1 then Some (true, s.2)
                   else if s.2 !!! v =? 0 then dfs_cycle_detect fuel' dag v s.2
                   else Some s)
                (Some (false, <[u := 1]> color)) (out_edges (node dag u));
      if r.1 : bool then Some r else Some (false, <[u := 2]> r.2)
  end.

Definition jdag_has_cycle (dag : jdag) : option Z :=
  if (node_count dag =? 0)%nat then Some 0
  else
    s ← foldl (fun acc i =>
                 s ← acc;
                 if s.1 : bool then Some s
                 else if s.2 !!! i =? 0 then dfs_cycle_detect (S (node_count dag)) dag i s.2
                 else Some s)
              (Some (false, replicate JDAG_MAX_NODES 0)) (seq 0 (node_count dag));
    Some (c_bool s.1).

Lemma dfs_cycle_detect_generic fuel dag : forall u color, dfs_cycle_detect fuel dag u color = detect (outs dag) fuel u color.
Proof.
  induction fuel as [|fuel IH]; intros u color; [done|]. cbn [dfs_cycle_detect detect]. unfold outs. f_equal.
  generalize (Some (false, <[u := 1]> color)). induction (out_edges (node dag u)) as [|v l IHl]; intros acc; [done|]. cbn [foldl]. rewrite IHl. f_equal.
  destruct acc as [[[] C]|]; [done| |done]. cbn. by rewrite IH.
Qed.

Section dfs.
Context (dag : jdag) (Hl : links_ok dag).
Local Notation dfs_inv := (Dfs.dfs_inv (node_count dag) (outs dag)).
Local Notation dfs_ext := (Dfs.dfs_ext (node_count dag)).
Local Notation whites := (Dfs.whites (node_count dag)).
Local Notation gray_above := (Dfs.gray_above (node_count dag) (outs dag)).

Lemma outs_edge u v : v ∈ outs dag u -> edge (node_count dag) (outs dag) u v.
Proof. by apply dedge_alt. Qed.

(** ** Post-order sort *)

Section sort.
Context (Hac : acyclic (node_count dag) (outs dag)).

Definition visit_ok (fuel : nat) : Prop :=
  forall u C order,
    dfs_inv C order -> (u < node_count dag)%nat -> C !!! u = 0 -> gray_above C u ->
    (whites C <= fuel)%nat ->
    exists C' order', dfs_visit fuel dag u (C, ids_of dag order) = Some (C', ids_of dag order') /\
      dfs_inv C' order' /\ dfs_ext C C' /\ C' !!! u = 2.

(** The loop over the successors of the gray node [u]. *)
Lemma visit_loop fuel u C l :
  visit_ok fuel -> (u < node_count dag)%nat -> (node_count dag <= length C)%nat -> C !!! u = 0 ->
  gray_above C u -> (whites (<[u := 1%Z]> C) <= fuel)%nat -> (forall v, v ∈ l -> dedge dag u v) ->
  forall C1 order1, dfs_inv C1 order1 -> dfs_ext (<[u := 1]> C) C1 ->
  exists C2 order2,
    foldl (fun acc v => s ← acc; if s.1 !!! v =? 0 then dfs_visit fuel dag v s else Some s)
          (Some (C1, ids_of dag order1)) l = Some (C2, ids_of dag order2) /\
    dfs_inv C2 order2 /\ dfs_ext (<[u := 1]> C) C2 /\ dfs_ext C1 C2 /\
    forall v, v ∈ l -> C2 !!! v = 2.
Proof.
  intros Hvis Hu Hlen H0 Hg Hw Hedge. induction l as [|v l IH]; intros C1 order1 Hi He; simpl.
  { exists C1, order1. split_and!; [done..|apply dfs_ext_refl|]. intros v Hv. by apply not_elem_of_nil in Hv. }
  assert (Huv : dedge dag u v) by (apply Hedge; by left).
  assert (Hv : (v < node_count dag)%nat) by apply Huv.
  assert (exists C' order', (if C1 !!! v =? 0 then dfs_visit fuel dag v (C1, ids_of dag order1)
      else Some (C1, ids_of dag order1)) = Some (C', ids_of dag order') /\
      dfs_inv C' order' /\ dfs_ext C1 C' /\ C' !!! v = 2) as (C' & order' & Hrun & Hi' & He' & Hb).
  { assert (Hga : gray_above C1 v) by (by eapply gray_above_child).
    destruct (Z.eqb_spec (C1 !!! v) 0) as [Hz|Hnz].
    - apply Hvis; try done. etransitivity; [by apply whites_le|done].
    - exists C1, order1. split_and!; [done|done|apply dfs_ext_refl|].
      destruct (di_range _ _ _ _ Hi v Hv) as [?|[H1|?]]; [done| |done].
      exfalso. by apply (Hac v), Hga. }
  rewrite Hrun. destruct IH with (C1 := C') (order1 := order') as (C2 & order2 & Hf & Hi2 & He2 & He2' & Hb2).
  { intros w Hw'. apply Hedge. by right. } { done. } { by eapply dfs_ext_trans. }
  exists C2, order2. split_and!; try done.
  - by eapply dfs_ext_trans.
  - intros w [->|Hw']%elem_of_cons; [|by apply Hb2]. destruct (He2' v Hv) as [A _]. rewrite A; lia.
Qed.

Lemma dfs_visit_ok fuel : visit_ok fuel.
Proof.
  induction fuel as [|fuel IH]; intros u C order Hi Hu H0 Hg Hw.
  { rewrite (whites_gray _ C u) in Hw by (done || apply Hi). lia. }
  pose proof (di_len _ _ _ _ Hi) as Hlen. rewrite (whites_gray _ C u) in Hw by done.
  destruct (visit_loop fuel u C (outs dag u) IH Hu Hlen H0 Hg) with
    (C1 := <[u := 1]> C) (order1 := order) as (C2 & order2 & Hf & Hi2 & He2 & _ & Hb2).
  { lia. } { intros v Hv. by apply dedge_alt. } { by apply dfs_inv_gray. } { apply dfs_ext_refl. }
  exists (<[u := 2]> C2), (u :: order2). cbn [dfs_visit fst snd].
  change (out_edges (node dag u)) with (outs dag u). rewrite Hf. split_and!.
  - done.
  - apply (dfs_inv_black _ _ outs_edge); [done..|by eapply gray_stays|done].
  - eapply dfs_ext_black; try done. apply Hi2.
  - rewrite list_lookup_total_insert_eq; [done|]. pose proof (di_len _ _ _ _ Hi2). lia.
Qed.

End sort.

End dfs.

(** ** Results *)

Lemma sort_dfs_spec dag max :
  dag_ok dag -> Z.of_nat (node_count dag) <= max ->
  exists order, jdag_topological_sort_dfs dag max =
      Some (Z.of_nat (node_count dag), ids_of dag order) /\
    topological (node_count dag) (outs dag) order.
Proof.
  intros Hok Hmax. pose proof (do_links _ Hok) as Hl. pose proof (do_size _ Hok) as Hsz.
  unfold jdag_topological_sort_dfs. rewrite (proj2 (Z.ltb_ge _ _) Hmax).
  set (inv (pre : list nat) (acc : option (list Z * list Z)) := exists C order,
    acc = Some (C, ids_of dag order) /\ dfs_inv (node_count dag) (outs dag) C order /\ no_gray (node_count dag) C /\
    forall v, v ∈ pre -> C !!! v = 2).
  match goal with |- context [foldl ?f ?a ?l] =>
    assert (inv l (foldl f a l)) as (C & order & Hrun & Hi & _ & Hall) end.
  { apply foldl_prefix_inv.
    - destruct (dfs_inv_init (node_count dag) (outs dag) JDAG_MAX_NODES) as [Hi Hn]; [lia|].
      exists (replicate JDAG_MAX_NODES 0), []. split_and!; [done..|].
      intros v Hv. by apply not_elem_of_nil in Hv.
    - intros pre v post acc Heq (C & order & -> & Hi & Hn & Hb). cbn [mbind option_bind fst].
      assert (v ∈ seq 0 (node_count dag)) as Hv%elem_of_seq by (rewrite Heq; set_solver).
      assert (Hpre : forall w, w ∈ pre -> (w < node_count dag)%nat).
      { intros w Hw. assert (w ∈ seq 0 (node_count dag)) as Hw'%elem_of_seq by (rewrite Heq; set_solver). lia. }
      destruct (Z.eqb_spec (C !!! v) 0) as [H0|H0].
      + destruct (dfs_visit_ok dag Hl (do_acyclic _ Hok) (S (node_count dag)) v C order)
          as (C' & order' & Hr & Hi' & He & H2); [done|lia|done|by apply no_gray_above|apply whites_bound|].
        exists C', order'. split_and!; [done..|by eapply no_gray_ext|].
        intros w [Hw| ->%list_elem_of_singleton]%elem_of_app; [|done].
        destruct (He w (Hpre w Hw)) as [A _]. by rewrite A; rewrite Hb.
      + exists C, order. split_and!; [done..|].
        intros w [Hw| ->%list_elem_of_singleton]%elem_of_app; [by apply Hb|].
        destruct (di_range _ _ _ _ Hi v) as [?|[?|?]]; [lia|done| |done]. exfalso. apply (Hn v); [lia|done]. }
  rewrite Hrun. exists order. split; [done|]. eapply black_topological; [done|].
  intros v Hv. apply Hall, elem_of_seq. lia.
Qed.

(** On every DAG the API can build, the depth-first sort terminates within
    its recursion bound and [result] lists every id once, each before
    everything that depends on it. *)
Theorem jdag_topological_sort_dfs_correct dag max :
  dag_reachable dag -> Z.of_nat (node_count dag) <= max ->
  exists result, jdag_topological_sort_dfs dag max = Some (Z.of_nat (node_count dag), result) /\
    result ≡ₚ node_id <$> nodes dag /\
    forall a b, depends dag a b ->
      exists i j, (i < j)%nat /\ result !! i = Some a /\ result !! j = Some b.
Proof.
  intros Hok%dag_reachable_ok Hmax. destruct (sort_dfs_spec dag max Hok Hmax) as (order & -> & Ht).
  eexists. split; [done|]. by apply ids_of_topological.
Qed.

Lemma jdag_topological_sort_dfs_correct_witness :
  exists result, jdag_topological_sort_dfs diamond 8 = Some (4, result) /\
    result = [10; 12; 11; 13].
Proof.
  destruct (jdag_topological_sort_dfs_correct diamond 8 diamond_reachable) as (res & H & _);
    [vm_compute; discriminate|].
  exists res. split; [exact H|]. vm_compute in H. congruence.
Defined.

Lemma has_cycle_spec dag :
  links_ok dag -> (node_count dag <= JDAG_MAX_NODES)%nat ->
  exists b, jdag_has_cycle dag = Some (c_bool b) /\
    if b then ~ acyclic (node_count dag) (outs dag) else acyclic (node_count dag) (outs dag).
Proof.
  intros Hl Hsz. unfold jdag_has_cycle. destruct (Nat.eqb_spec (node_count dag) 0) as [Hz|_].
  { exists false. split; [done|]. intros v Hv. apply edge_tc_bound in Hv. lia. }
  set (inv (pre : list nat) (acc : option (bool * list Z)) := exists b C, acc = Some (b, C) /\
    if b : bool then ~ acyclic (node_count dag) (outs dag) else
    exists order, dfs_inv (node_count dag) (outs dag) C order /\ no_gray (node_count dag) C /\ forall v, v ∈ pre -> C !!! v = 2).
  match goal with |- context [foldl ?f ?a ?l] =>
    assert (inv l (foldl f a l)) as (b & C & Hrun & Hb) end.
  { apply foldl_prefix_inv.
    - destruct (dfs_inv_init (node_count dag) (outs dag) JDAG_MAX_NODES Hsz) as [Hi Hn]. exists false, (replicate JDAG_MAX_NODES 0).
      split; [done|]. exists []. split_and!; [done..|]. intros v Hv. by apply not_elem_of_nil in Hv.
    - intros pre v post acc Heq (b & C & -> & Hb). destruct b.
      { exists true, C. done. }
      destruct Hb as (order & Hi & Hn & Hb). cbn [mbind option_bind fst snd].
      assert (v ∈ seq 0 (node_count dag)) as Hv%elem_of_seq by (rewrite Heq; set_solver).
      assert (Hpre : forall w, w ∈ pre -> (w < node_count dag)%nat).
      { intros w Hw. assert (w ∈ seq 0 (node_count dag)) as Hw'%elem_of_seq by (rewrite Heq; set_solver). lia. }
      destruct (Z.eqb_spec (C !!! v) 0) as [H0|H0].
      + destruct (detect_correct (node_count dag) (outs dag) (outs_edge dag Hl) (S (node_count dag)) v C order) as (b & C' & Hr & Hb');
          [done|lia|done|by apply no_gray_above|apply whites_bound|].
        exists b, C'. rewrite dfs_cycle_detect_generic. split; [done|]. destruct b; [by eapply cycle_from_cyclic|]. destruct Hb' as (order' & Hi' & He & H2).
        exists order'. split_and!; [done|by eapply no_gray_ext|].
        intros w [Hw| ->%list_elem_of_singleton]%elem_of_app; [|done].
        destruct (He w (Hpre w Hw)) as [A _]. by rewrite A; rewrite Hb.
      + exists false, C. split; [done|]. exists order. split_and!; [done..|].
        intros w [Hw| ->%list_elem_of_singleton]%elem_of_app; [by apply Hb|].
        destruct (di_range _ _ _ _ Hi v) as [?|[?|?]]; [lia|done| |done]. exfalso. apply (Hn v); [lia|done]. }
  rewrite Hrun. exists b. split; [done|]. destruct b; [done|].
  destruct Hb as (order & Hi & _ & Hall). eapply topological_acyclic, black_topological; [done|].
  intros v Hv. apply Hall, elem_of_seq. lia.
Qed.

(** The two cycle tests agree and are right, on cyclic graphs too: whenever
    the adjacency arrays and degrees are consistent, [jdag_has_cycle] returns 1
    exactly when the graph has a cycle, which is exactly when Kahn's algorithm
    returns -2. *)
Theorem jdag_has_cycle_correct dag max :
  links_ok dag -> (forall i, deg_ok (node dag i)) ->
  (node_count dag <= JDAG_MAX_NODES)%nat -> Z.of_nat (node_count dag) <= max ->
  exists r s, jdag_has_cycle dag = Some r /\ jdag_topological_sort_kahn dag max = Some s /\
    (r = 0 /\ acyclic (node_count dag) (outs dag) /\ s.1 = Z.of_nat (node_count dag) \/
     r = 1 /\ ~ acyclic (node_count dag) (outs dag) /\ s.1 = -2).
Proof.
  intros Hl Hd Hsz Hmax. destruct (has_cycle_spec dag Hl Hsz) as (b & -> & Hb).
  destruct (kahn_spec dag max Hl Hd Hmax) as (q & _ & [[Ht ->]|[Hc ->]]);
    eexists _, _; (split; [done|]); (split; [done|]); destruct b; cbn.
  - exfalso. by eapply Hb, topological_acyclic.
  - left. done.
  - right. done.
  - done.
Qed.

(** Two nodes that depend on each other, which the API refuses to build. *)
Definition two_cycle : jdag :=
  mk_dag [mk_node 1 "a" NODE_PENDING 1 1 [1%nat] [1%nat] 0 0;
          mk_node 2 "b" NODE_PENDING 1 1 [0%nat] [0%nat] 0 0] 8 2.

Lemma two_cycle_ok : links_ok two_cycle /\ forall i, deg_ok (node two_cycle i).
Proof.
  split; [split|]; intros [|[|i]]; try intros j; cbn; rewrite ?list_elem_of_singleton;
    try (intros ->; split; [lia|by left]); try apply NoDup_singleton; try apply NoDup_nil_2; try done;
    intros H; by apply not_elem_of_nil in H.
Qed.

Lemma jdag_has_cycle_correct_witness :
  exists r s, jdag_has_cycle two_cycle = Some r /\ jdag_topological_sort_kahn two_cycle 2 = Some s /\
    r = 1 /\ s.1 = -2.
Proof.
  destruct (jdag_has_cycle_correct two_cycle 2 (proj1 two_cycle_ok) (proj2 two_cycle_ok))
    as (r & s & H1 & H2 & _); [vm_compute; lia|vm_compute; discriminate|].
  exists r, s. split; [exact H1|]. split; [exact H2|].
  vm_compute in H1, H2. injection H1 as <-. injection H2 as <-. split; reflexivity.
Defined.
