(* ===== verification/JobDagExec.v ===== *)
(** Running a job DAG: completions, failures and the ready set
    ([jdag_mark_completed], [jdag_mark_failed], [jdag_get_ready_nodes]). *)

From S2P Require Import Prelude Graph JobDag JobDagWf JobDagSort.

Definition completed (dag : jdag) (i : nat) : Prop := node_state (node dag i) = NODE_COMPLETED.
#[export] Instance completed_dec dag i : Decision (completed dag i).
Proof. unfold completed. apply _. Defined.

(** The stored indegree counts the dependencies that have not completed. *)
Definition waiting (dag : jdag) (i : nat) : nat :=
  count_if (fun u => negb (bool_decide (completed dag u))) (ins dag i).

Record exec_ok (dag : jdag) : Prop := {
  eo_links : links_ok dag;
  eo_ids : NoDup (node_id <$> nodes dag);
  eo_loop : forall i, i ∉ outs dag i;
  eo_deg : forall i, indegree (node dag i) = Z.of_nat (waiting dag i);
}.

(** Runs: a job completes once, and only a job that has not completed fails. *)
Inductive exec_step (dag : jdag) : jdag -> Prop :=
  | exec_complete id i now : find_node dag id = Some i -> ~ completed dag i ->
      exec_step dag (jdag_mark_completed dag id now).2
  | exec_fail id i : find_node dag id = Some i -> ~ completed dag i ->
      exec_step dag (jdag_mark_failed dag id).2.

(** ** The successor loops *)

Lemma alter_loop_lookup {A} (f : A -> A) (l : list A) succs :
  NoDup succs -> forall i,
  foldl (fun l s => alter f s l) l succs !! i = if decide (i ∈ succs) then f <$> l !! i else l !! i.
Proof.
  revert l. induction succs as [|s succs IH]; intros l Hnd i; [done|]. cbn [foldl].
  apply NoDup_cons in Hnd as [Hs Hnd]. rewrite IH by done.
  destruct (decide (i = s)) as [->|Hne].
  - rewrite decide_False, decide_True by (done || by left). by rewrite list_lookup_alter_eq.
  - rewrite list_lookup_alter_ne by done.
    by rewrite (decide_ext (i ∈ s :: succs) (i ∈ succs)) by (rewrite elem_of_cons; naive_solver).
Qed.

Lemma alter_loop_length {A} (f : A -> A) (l : list A) succs :
  length (foldl (fun l s => alter f s l) l succs) = length l.
Proof. revert l. induction succs as [|s succs IH]; intros l; [done|]. cbn. by rewrite IH, length_alter. Qed.

(** Both marks set one node's state and then touch its successors. *)
Lemma mark_node dag (f g : jdag_node -> jdag_node) idx i :
  links_ok dag -> (idx < node_count dag)%nat ->
  (forall nd, out_edges (f nd) = out_edges nd) ->
  let dag1 := dag <| nodes ::= alter f idx |> in
  let dag2 := dag1 <| nodes ::= fun l => foldl (fun l s => alter g s l) l (out_edges (node dag1 idx)) |> in
  node_count dag2 = node_count dag /\
  node dag2 i = (if decide (i ∈ outs dag idx) then g else id)
                  (if decide (i = idx) then f (node dag idx) else node dag i).
Proof.
  intros Hl Hidx Hf dag1 dag2.
  assert (Hn1 : forall i, node dag1 i = if decide (i = idx) then f (node dag idx) else node dag i)
    by (intros; by apply node_alter).
  assert (Hout : out_edges (node dag1 idx) = outs dag idx).
  { rewrite Hn1, decide_True by done. apply Hf. }
  assert (Hc1 : node_count dag1 = node_count dag) by apply count_alter.
  split.
  { unfold dag2, node_count. cbn. rewrite alter_loop_length. apply Hc1. }
  rewrite <- Hn1. unfold node at 1.
  change (nodes dag2) with
    (foldl (fun l s => alter g s l) (nodes dag1) (out_edges (node dag1 idx))).
  rewrite Hout, list_lookup_total_alt, alter_loop_lookup by apply Hl.
  case_decide as Hi.
  - assert (Hin : (i < node_count dag1)%nat) by (rewrite Hc1; by apply (lo_out _ Hl idx)).
    by rewrite (node_lookup_lt dag1 i Hin).
  - unfold node. by rewrite list_lookup_total_alt.
Qed.

Lemma links_same dag dag' :
  node_count dag' = node_count dag -> (forall i, outs dag' i = outs dag i) ->
  (forall i, ins dag' i = ins dag i) -> links_ok dag -> links_ok dag'.
Proof. intros Hc Ho Hi [Lo Li No Ni]. split; intros i; rewrite ?Ho, ?Hi; try intros j; rewrite ?Hc, ?Ho, ?Hi; auto. Qed.

Lemma exec_init dag : dag_ok dag -> (forall i, ~ completed dag i) -> exec_ok dag.
Proof.
  intros [_ Hids Hl Hd Hac] Hn. split; try done.
  - intros i Hi. apply (Hac i), tc_once. by apply dedge_alt.
  - intros i. destruct (Hd i) as [-> _]. f_equal. unfold waiting.
    rewrite (count_if_ext (fun _ => true)); [by rewrite count_if_true|].
    intros y _. by rewrite bool_decide_eq_false_2.
Qed.

Definition complete_node (now : Z) (nd : jdag_node) : jdag_node :=
  nd <| node_state := NODE_COMPLETED |> <| completed_at := now |>.

Lemma mark_completed_nodes dag jid i now j :
  links_ok dag -> find_node dag jid = Some i ->
  node_count (jdag_mark_completed dag jid now).2 = node_count dag /\
  node (jdag_mark_completed dag jid now).2 j =
    (if decide (j ∈ outs dag i) then release else id)
      (if decide (j = i) then complete_node now (node dag i) else node dag j).
Proof.
  intros Hl Hid. pose proof (find_node_Some _ _ _ Hid) as [Hi _].
  unfold jdag_mark_completed. rewrite Hid. cbn [snd].
  by apply (mark_node dag (complete_node now) release i j Hl Hi).
Qed.

Lemma mark_completed_same dag jid i now :
  links_ok dag -> find_node dag jid = Some i ->
  forall j, node_id (node (jdag_mark_completed dag jid now).2 j) = node_id (node dag j) /\
    outs (jdag_mark_completed dag jid now).2 j = outs dag j /\
    ins (jdag_mark_completed dag jid now).2 j = ins dag j /\
    (completed (jdag_mark_completed dag jid now).2 j <-> completed dag j \/ j = i).
Proof.
  intros Hl Hid j. unfold outs, ins, completed.
  rewrite (proj2 (mark_completed_nodes dag jid i now j Hl Hid)). unfold release, complete_node.
  repeat case_decide; subst; cbn; repeat case_match; cbn; naive_solver.
Qed.

Lemma mark_completed_ok dag jid i now :
  exec_ok dag -> find_node dag jid = Some i -> ~ completed dag i ->
  exec_ok (jdag_mark_completed dag jid now).2 /\
  (forall j, completed (jdag_mark_completed dag jid now).2 j <-> completed dag j \/ j = i).
Proof.
  intros [Hl Hids Hloop Hd] Hid Hnc.
  pose proof (fun j => mark_completed_nodes dag jid i now j Hl Hid) as Hm.
  pose proof (mark_completed_same dag jid i now Hl Hid) as Hsame.
  set (dag2 := (jdag_mark_completed dag jid now).2) in *.
  assert (Hc : node_count dag2 = node_count dag) by (by destruct (Hm 0%nat)).
  assert (Hn := fun j => proj2 (Hm j)).
  split; [|by intros j; apply Hsame]. split.
  - eapply links_same; [exact Hc| | |exact Hl]; intros j; apply Hsame.
  - rewrite (node_ids_eq dag); [done|done|]. intros j. apply Hsame.
  - intros j. rewrite (proj1 (proj2 (Hsame j))). apply Hloop.
  - intros j. unfold waiting. rewrite (proj1 (proj2 (proj2 (Hsame j)))).
    assert (Hcd : forall u, bool_decide (completed dag2 u) = bool_decide (completed dag u \/ u = i)).
    { intros u. apply bool_decide_ext, Hsame. }
    rewrite (count_if_ext (fun u => negb (bool_decide (completed dag u \/ u = i)))) by (intros; by rewrite Hcd).
    rewrite Hn. destruct (decide (j ∈ outs dag i)) as [Hj|Hj].
    + assert (Hji : j <> i) by (intros ->; by apply (Hloop i)).
      apply (lo_out _ Hl) in Hj as [Hjn Hin]. rewrite decide_False by done.
      assert (Hw : waiting dag j = S (count_if (fun u => negb (bool_decide (completed dag u \/ u = i))) (ins dag j))).
      { apply (count_if_flip _ _ _ i); [by apply lo_nodup_in|done| | |].
        - by rewrite bool_decide_eq_false_2.
        - rewrite bool_decide_eq_true_2 by by right. done.
        - intros y Hy. f_equal. apply bool_decide_ext. naive_solver. }
      specialize (Hd j). rewrite Hw in Hd. unfold release. rewrite (proj2 (Z.ltb_lt _ _)) by lia.
      cbn. lia.
    + rewrite <- (count_if_ext _ (fun u => negb (bool_decide (completed dag u)))).
      * change (count_if _ _) with (waiting dag j). rewrite <- Hd. by case_decide; subst.
      * intros u Hu. f_equal. apply bool_decide_ext. split; [by left|]. intros [?| ->]; [done|].
        by apply (lo_in _ Hl) in Hu as [_ ?].
Qed.

Lemma mark_failed_nodes dag jid i j :
  links_ok dag -> find_node dag jid = Some i ->
  node_count (jdag_mark_failed dag jid).2 = node_count dag /\
  node (jdag_mark_failed dag jid).2 j =
    (if decide (j ∈ outs dag i) then skip_pending else id)
      (if decide (j = i) then (node dag i) <| node_state := NODE_FAILED |> else node dag j).
Proof.
  intros Hl Hid. pose proof (find_node_Some _ _ _ Hid) as [Hi _].
  unfold jdag_mark_failed. rewrite Hid. cbn [snd].
  apply (mark_node dag (fun nd => nd <| node_state := NODE_FAILED |>) skip_pending i j Hl Hi).
  done.
Qed.

Lemma mark_failed_ok dag jid i :
  exec_ok dag -> find_node dag jid = Some i -> ~ completed dag i ->
  exec_ok (jdag_mark_failed dag jid).2 /\
  (forall j, completed (jdag_mark_failed dag jid).2 j <-> completed dag j).
Proof.
  intros [Hl Hids Hloop Hd] Hid Hnc.
  pose proof (fun j => mark_failed_nodes dag jid i j Hl Hid) as Hm.
  set (dag2 := (jdag_mark_failed dag jid).2) in *.
  assert (Hc : node_count dag2 = node_count dag) by (by destruct (Hm 0%nat)).
  assert (Hsame : forall j, node_id (node dag2 j) = node_id (node dag j) /\ outs dag2 j = outs dag j /\
    ins dag2 j = ins dag j /\ indegree (node dag2 j) = indegree (node dag j) /\
    (completed dag2 j <-> completed dag j)).
  { intros j. unfold outs, ins, completed in *. rewrite (proj2 (Hm j)). unfold skip_pending.
    clear -Hnc. repeat case_decide; subst; cbn in *; split_and!; try done;
    unfold const in *; intuition congruence. }
  split; [|by intros j; apply Hsame]. split.
  - eapply links_same; [exact Hc| | |exact Hl]; intros j; apply Hsame.
  - rewrite (node_ids_eq dag); [done|done|]. intros j. apply Hsame.
  - intros j. rewrite (proj1 (proj2 (Hsame j))). apply Hloop.
  - intros j. destruct (Hsame j) as (_ & _ & Hin & -> & _). rewrite Hd. unfold waiting. rewrite Hin.
    f_equal. apply count_if_ext. intros u _. f_equal. apply bool_decide_ext. symmetry. apply Hsame.
Qed.

Lemma exec_step_ok dag dag' : exec_ok dag -> exec_step dag dag' -> exec_ok dag'.
Proof.
  intros Hok [jid i now Hid Hn|jid i Hid Hn].
  - by eapply mark_completed_ok.
  - by eapply mark_failed_ok.
Qed.

Lemma exec_reachable_ok dag dag' : exec_ok dag -> rtc exec_step dag dag' -> exec_ok dag'.
Proof. intros Hok Hr. induction Hr; eauto using exec_step_ok. Qed.

Lemma exec_waiting_0 dag i :
  waiting dag i = 0%nat <-> forall u, u ∈ ins dag i -> completed dag u.
Proof.
  unfold waiting, count_if. rewrite length_zero_iff_nil. split.
  - intros Hf u Hu. destruct (decide (completed dag u)) as [|Hn]; [done|].
    assert (u ∈ List.filter (fun u => negb (bool_decide (completed dag u))) (ins dag i)) as Hin.
    { apply list_elem_of_In, filter_In. split; [by apply list_elem_of_In|].
      by rewrite bool_decide_eq_false_2. }
    rewrite Hf in Hin. by apply not_elem_of_nil in Hin.
  - intros Hall. destruct (List.filter _ _) as [|u l] eqn:Hf; [done|].
    assert (u ∈ List.filter (fun u => negb (bool_decide (completed dag u))) (ins dag i)) as Hin
      by (rewrite Hf; left).
    apply list_elem_of_In, filter_In in Hin as [Hu%list_elem_of_In Hb].
    by rewrite bool_decide_eq_true_2 in Hb by auto.
Qed.

Lemma elem_of_ready dag max jid :
  Z.of_nat (node_count dag) <= max ->
  jid ∈ jdag_get_ready_nodes dag max <->
  exists i, (i < node_count dag)%nat /\ node_id (node dag i) = jid /\
    node_state (node dag i) = NODE_PENDING /\ indegree (node dag i) = 0.
Proof.
  intros Hmax. unfold jdag_get_ready_nodes.
  assert (length (List.filter is_ready (nodes dag)) <= node_count dag)%nat as Hlen
    by apply List.filter_length_le.
  rewrite take_ge by (rewrite length_fmap; lia). rewrite list_elem_of_fmap. split.
  - intros (nd & -> & [Hnd Hr]%list_elem_of_In%filter_In).
    apply list_elem_of_In, list_elem_of_lookup in Hnd as [i Hi]. exists i.
    rewrite (node_lookup _ _ _ Hi). unfold is_ready in Hr.
    apply andb_prop in Hr as [Hs%bool_decide_eq_true Hd%Z.eqb_eq].
    split; [by eapply lookup_lt_Some|done].
  - intros (i & Hi & <- & Hs & Hd). exists (node dag i). split; [done|].
    apply list_elem_of_In, filter_In. split.
    + apply list_elem_of_In. eapply list_elem_of_lookup_2, node_lookup_lt, Hi.
    + unfold is_ready. rewrite bool_decide_eq_true_2 by done. by rewrite Hd.
Qed.

Lemma find_node_completed dag a ia now :
  dag_ok dag -> find_node dag a = Some ia ->
  find_node (jdag_mark_completed dag a now).2 a = Some ia /\
  links_ok (jdag_mark_completed dag a now).2.
Proof.
  intros Hok Ha. pose proof (do_links _ Hok) as Hl.
  pose proof (mark_completed_same dag a ia now Hl Ha) as Hs.
  assert (Hc : node_count (jdag_mark_completed dag a now).2 = node_count dag)
    by by apply (mark_completed_nodes dag a ia now 0%nat).
  split; [|eapply links_same; [exact Hc| | |exact Hl]; apply Hs].
  pose proof (find_node_Some _ _ _ Ha) as [Hi Hida].
  rewrite <- Hida at 2. rewrite <- (proj1 (Hs ia)). apply find_node_id; [|lia]. rewrite (node_ids_eq dag); [apply Hok|done|apply Hs].
Qed.

(** Two completions of the same job release each successor twice. *)
Lemma twice_completed_node dag a ia now now' j :
  dag_ok dag -> find_node dag a = Some ia -> ia ∉ outs dag ia -> j <> ia ->
  let dag' := (jdag_mark_completed (jdag_mark_completed dag a now).2 a now').2 in
  node_count dag' = node_count dag /\ ins dag' j = ins dag j /\
  node dag' j = (if decide (j ∈ outs dag ia) then fun nd => release (release nd) else id) (node dag j).
Proof.
  intros Hok Ha Hloop Hj. pose proof (do_links _ Hok) as Hl.
  destruct (find_node_completed dag a ia now Hok Ha) as [Ha1 Hl1].
  destruct (mark_completed_nodes dag a ia now j Hl Ha) as [Hc1 Hn1].
  destruct (mark_completed_same dag a ia now Hl Ha j) as (_ & _ & Hi1 & _).
  destruct (mark_completed_same dag a ia now Hl Ha ia) as (_ & Ho1 & _).
  set (dag1 := (jdag_mark_completed dag a now).2) in *. cbv zeta.
  destruct (mark_completed_nodes dag1 a ia now' j Hl1 Ha1) as [-> ->].
  destruct (mark_completed_same dag1 a ia now' Hl1 Ha1 j) as (_ & _ & -> & _).
  rewrite Hc1, Hi1, Ho1, Hn1, !(decide_False (P := j = ia)) by done. by case_decide.
Qed.

(** ** Properties *)

(** C1: the scheduling guarantee of the DAG.  Start from any well-formed DAG
    in which nothing has completed, and let jobs complete and fail in any order, each
    only while it has not completed (see [jdag_double_completion_releases_early] for
    what a second completion does).  At every moment [jdag_get_ready_nodes] returns exactly
    the ids of the pending jobs all of whose dependencies have completed: no
    job is offered before its last dependency completes, and none is
    withheld after it. *)
Theorem jdag_ready_iff_dependencies_completed dag dag' max jid :
  dag_ok dag -> (forall i, ~ completed dag i) -> rtc exec_step dag dag' ->
  Z.of_nat (node_count dag') <= max ->
  jid ∈ jdag_get_ready_nodes dag' max <->
  exists i, (i < node_count dag')%nat /\ node_id (node dag' i) = jid /\
    node_state (node dag' i) = NODE_PENDING /\
    forall u, u ∈ ins dag' i -> completed dag' u.
Proof.
  intros Hok Hn Hr Hmax. pose proof (exec_reachable_ok _ _ (exec_init _ Hok Hn) Hr) as Hex.
  rewrite elem_of_ready by done. f_equiv. intros i. rewrite (eo_deg _ Hex), <- exec_waiting_0.
  intuition lia.
Qed.

(** [jdag_mark_failed] marks the job FAILED and exactly its direct
    successors that are PENDING as SKIPPED; every other job, indirect
    dependents included, keeps its state, and degrees and edges are
    untouched (the source's comment promises a cascade). *)
Theorem jdag_mark_failed_skips_direct_successors dag jid i :
  dag_ok dag -> find_node dag jid = Some i ->
  (jdag_mark_failed dag jid).1 = 0 /\
  forall j, node (jdag_mark_failed dag jid).2 j =
    (node dag j) <| node_state :=
      if decide (j = i) then NODE_FAILED
      else if decide (j ∈ outs dag i /\ node_state (node dag j) = NODE_PENDING) then NODE_SKIPPED
      else node_state (node dag j) |>.
Proof.
  intros Hok Hid. split; [unfold jdag_mark_failed; by rewrite Hid|]. intros j.
  destruct (mark_failed_nodes dag jid i j (do_links _ Hok) Hid) as [_ ->].
  assert (Hloop : i ∉ outs dag i).
  { intros Hi. apply (do_acyclic _ Hok i), tc_once. apply dedge_alt; [apply Hok|done]. }
  destruct (decide (j = i)) as [->|Hne]; [by rewrite decide_False|].
  unfold skip_pending. destruct (node dag j) eqn:Hnd. cbn.
  repeat case_decide; cbn; simplify_eq/=; naive_solver.
Qed.


(** Completing a job twice releases its successors twice.  A PENDING job
    whose two dependencies have not completed becomes ready when one of them is
    reported complete two times, although the other is still PENDING. *)
Theorem jdag_double_completion_releases_early dag a ia ib ic now now' :
  dag_ok dag -> (forall i, node_state (node dag i) = NODE_PENDING) ->
  find_node dag a = Some ia -> ins dag ic = [ia; ib] ->
  let dag' := (jdag_mark_completed (jdag_mark_completed dag a now).2 a now').2 in
  node_id (node dag ic) ∈ jdag_get_ready_nodes dag' (jdag_node_count dag') /\
  ib ∈ ins dag' ic /\ node_state (node dag' ib) = NODE_PENDING.
Proof.
  intros Hok Hp Ha Hin dag'. pose proof (do_links _ Hok) as Hl.
  assert (Hne : ib <> ia).
  { pose proof (lo_nodup_in _ Hl ic) as Hnd. rewrite Hin in Hnd.
    intros ->. by apply NoDup_cons in Hnd as [[]%not_elem_of_cons _]. }
  assert (Hia : ic ∈ outs dag ia) by (apply (lo_in _ Hl); rewrite Hin; left).
  assert (Hloop : forall i, i ∉ outs dag i).
  { intros i Hi. apply (do_acyclic _ Hok i), tc_once. by apply dedge_alt. }
  assert (Hd : indegree (node dag ic) = 2).
  { rewrite (proj1 (do_deg _ Hok ic)). unfold ins in Hin. by rewrite Hin. }
  destruct (twice_completed_node dag a ia now now' ic Hok Ha) as (Hc & Hi & Hn);
    [done|by intros ->; apply (Hloop ia)|].
  destruct (twice_completed_node dag a ia now now' ib Hok Ha) as (_ & _ & Hn'); [done..|].
  fold dag' in Hc, Hi, Hn, Hn'. split; [|split].
  - apply elem_of_ready; [unfold jdag_node_count; lia|]. exists ic.
    split; [rewrite Hc; by apply (lo_out _ Hl ia)|]. rewrite Hn, decide_True by done.
    specialize (Hp ic). destruct (node dag ic); cbn in *; subst. unfold release. by cbn.
  - rewrite Hi, Hin. right. left.
  - rewrite Hn'. specialize (Hp ib). destruct (node dag ib); cbn in *; subst.
    case_decide; [|done]. unfold release. repeat case_match; done.
Qed.

(** Kahn's sort starts from the stored in-degrees, which completions have lowered: in the
    diamond, once 10, 11 and 12 have completed, 13 comes first although it depends on them. *)
Example kahn_after_completions :
  jdag_topological_sort_kahn (foldl (fun d j => (jdag_mark_completed d j 7).2) diamond [10; 11; 12]) 8 = Some (4, [13; 10; 11; 12]).
Proof. vm_compute. reflexivity. Qed.

Lemma diamond_pending i : node_state (node diamond i) = NODE_PENDING.
Proof. do 4 (destruct i as [|i]; [reflexivity|]). reflexivity. Qed.

Lemma diamond_ok : dag_ok diamond.
Proof. apply dag_reachable_ok, diamond_reachable. Qed.

Lemma jdag_ready_iff_dependencies_completed_witness :
  12 ∈ jdag_get_ready_nodes (jdag_mark_completed diamond 10 7).2 8.
Proof.
  apply (jdag_ready_iff_dependencies_completed diamond (jdag_mark_completed diamond 10 7).2 8 12).
  - apply diamond_ok.
  - intros i. unfold completed. by rewrite diamond_pending.
  - apply rtc_once, (exec_complete diamond 10 1 7); [reflexivity|]. unfold completed. by rewrite diamond_pending.
  - vm_compute. discriminate.
  - exists 3%nat. split; [vm_compute; lia|]. split; [reflexivity|]. split; [reflexivity|].
    intros u Hu. vm_compute in Hu. apply list_elem_of_singleton in Hu as ->. reflexivity.
Defined.

Lemma jdag_mark_failed_skips_direct_successors_witness :
  (jdag_mark_failed diamond 10).1 = 0 /\
  node_state (node (jdag_mark_failed diamond 10).2 3) = NODE_SKIPPED /\
  node_state (node (jdag_mark_failed diamond 10).2 0) = NODE_PENDING.
Proof.
  destruct (jdag_mark_failed_skips_direct_successors diamond 10 1 diamond_ok eq_refl) as [H Hn].
  split; [exact H|]. rewrite !Hn. split; vm_compute; reflexivity.
Defined.

Lemma jdag_double_completion_releases_early_witness :
  13 ∈ jdag_get_ready_nodes
    (jdag_mark_completed (jdag_mark_completed diamond 11 1).2 11 2).2 4 /\
  node_state (node (jdag_mark_completed (jdag_mark_completed diamond 11 1).2 11 2).2 3) = NODE_PENDING.
Proof.
  destruct (jdag_double_completion_releases_early diamond 11 2 3 0 1 2 diamond_ok diamond_pending
    eq_refl eq_refl) as (H & _ & Hs).
  split; [exact H|exact Hs].
Defined.
