(* ===== verification/Heap.v ===== *)
(** Array min-heaps: the sift loops shared by [dq_heap_sift_up/down] of
    [delayed_queue.c] and [mq_pq_sift_up/down] of [message_queue.c], which are
    the same code on different entry types, and their specification.  The list
    is the live prefix [heap[0 .. size)]. *)

From S2P Require Import Prelude.

Definition parent (idx : nat) : nat := ((idx - 1) / 2)%nat.
#[global] Arguments parent : simpl never.

Section heap.
Context {A : Type} `{Inhabited A} (key : A -> Z).
Implicit Types (h : list A) (i j idx : nat).

Definition at_ h i : Z := key (h !!! i).

(** ** Definitions *)

Definition up_cond (s : list A * nat) : bool :=
  (0 <? s.2)%nat && negb (at_ s.1 s.2 >=? at_ s.1 (parent s.2)).
Definition up_body (s : list A * nat) : list A * nat :=
  (swap s.2 (parent s.2) s.1, (parent s.2)).
Definition sift_up h idx : option (list A) :=
  s ← while_loop idx up_cond up_body (h, idx); Some s.1.

Definition smallest h idx : nat :=
  let left := (2 * idx + 1)%nat in
  let right := (2 * idx + 2)%nat in
  let s1 := if (left <? length h)%nat && (at_ h left <? at_ h idx) then left else idx in
  if (right <? length h)%nat && (at_ h right <? at_ h s1) then right else s1.
Definition down_cond (s : list A * nat) : bool := negb (smallest s.1 s.2 =? s.2)%nat.
Definition down_body (s : list A * nat) : list A * nat :=
  (swap s.2 (smallest s.1 s.2) s.1, smallest s.1 s.2).
Definition sift_down h idx : option (list A) :=
  s ← while_loop (length h) down_cond down_body (h, idx); Some s.1.

(** ** Heap order *)

Definition child i j : Prop := j = (2 * i + 1)%nat \/ j = (2 * i + 2)%nat.

Definition heap_ok h : Prop :=
  forall i j, child i j -> (j < length h)%nat -> at_ h i <= at_ h j.

(** Ordered except around [idx], whose children are above its parent. *)
Record heap_but h idx : Prop := {
  hb_rest : forall i j, child i j -> (j < length h)%nat -> i <> idx -> j <> idx ->
    at_ h i <= at_ h j;
  hb_skip : forall i j, child i idx -> child idx j -> (j < length h)%nat ->
    at_ h i <= at_ h j;
}.
Definition kids_ok h idx : Prop :=
  forall j, child idx j -> (j < length h)%nat -> at_ h idx <= at_ h j.
Definition parent_ok h idx : Prop := forall i, child i idx -> at_ h i <= at_ h idx.

Lemma heap_but_ok h idx : heap_but h idx -> kids_ok h idx -> parent_ok h idx -> heap_ok h.
Proof.
  intros [Hr _] Hk Hp i j Hc Hj.
  destruct (decide (i = idx)) as [->|]; [by apply Hk|].
  destruct (decide (j = idx)) as [->|]; [by apply Hp|]. by apply Hr.
Qed.

Lemma heap_ok_but h idx : heap_ok h -> heap_but h idx.
Proof.
  intros Ho. split; [intros; by apply Ho|].
  intros i j Hi Hj Hlt. transitivity (at_ h idx); apply Ho; [done| |done..].
  unfold child in *. lia.
Qed.

Lemma heap_ok_kids h idx : heap_ok h -> kids_ok h idx.
Proof. intros Ho j. apply Ho. Qed.
Lemma heap_ok_parent h idx : (idx < length h)%nat -> heap_ok h -> parent_ok h idx.
Proof. intros Hi Ho i Hc. by apply Ho. Qed.

(** The root is a minimum. *)
Lemma heap_root_min h i : heap_ok h -> (i < length h)%nat -> at_ h 0 <= at_ h i.
Proof.
  intros Ho. induction i as [i IH] using lt_wf_ind. intros Hi.
  destruct (decide (i = 0%nat)) as [->|Hne]; [done|].
  assert (exists p, child p i) as [p Hp].
  { exists (parent i). unfold child, parent.
    pose proof (Nat.div_mod (i - 1) 2). pose proof (Nat.mod_upper_bound (i - 1) 2). lia. }
  transitivity (at_ h p); [apply IH; unfold child in Hp; lia|by apply Ho].
Qed.

Lemma at_swap h i j k : (i < length h)%nat -> (j < length h)%nat ->
  at_ (swap i j h) k = if decide (k = j) then at_ h i else if decide (k = i) then at_ h j else at_ h k.
Proof.
  intros Hi Hj. unfold at_. rewrite !list_lookup_total_alt, swap_lookup by done.
  by repeat case_decide.
Qed.

(** Changing one cell of a heap breaks the order only around it. *)
Lemma heap_but_insert h idx x : heap_ok h -> heap_but (<[idx := x]> h) idx.
Proof.
  intros Ho. assert (Hat : forall i, i <> idx -> at_ (<[idx := x]> h) i = at_ h i).
  { intros i Hi. unfold at_. by rewrite list_lookup_total_insert_ne. }
  split; rewrite length_insert.
  - intros i j Hc Hj Hi' Hj'. rewrite !Hat by done. by apply Ho.
  - intros i j Hi Hj Hlt. rewrite !Hat by (unfold child in *; lia).
    by apply (hb_skip h idx); [apply heap_ok_but| |..].
Qed.

(** ** Sifting up *)

Lemma up_step h i idx :
  heap_but h idx -> child i idx -> (idx < length h)%nat -> at_ h idx < at_ h i ->
  heap_but (swap idx i h) i /\ kids_ok (swap idx i h) i.
Proof.
  intros [Hr Hs] Hc Hidx Hlt. assert (Hi : (i < length h)%nat) by (unfold child in Hc; lia).
  assert (Hsib : forall j, child i j -> (j < length h)%nat -> at_ h i <= at_ h j \/ j = idx).
  { intros j Hj Hjl. destruct (decide (j = idx)) as [->|]; [by right|left].
    apply Hr; [done..| |done]. unfold child in *; lia. }
  assert (Hgp : forall g, child g i -> at_ h g <= at_ h i).
  { intros g Hg. apply Hr; unfold child in *; lia. }
  unfold kids_ok. split; [split|]; rewrite ?swap_length.
  - intros a b Hab Hb Ha' Hb'. rewrite !at_swap by done.
    rewrite !(decide_False (P := _ = i)) by done. repeat case_decide; subst.
    + unfold child in *; lia.
    + by apply Hs.
    + exfalso. unfold child in *; lia.
    + by apply Hr.
  - intros g j Hg Hj Hjl. rewrite !at_swap by done. specialize (Hgp g Hg).
    rewrite (decide_False (P := j = i)), (decide_False (P := g = i)),
      (decide_False (P := g = idx)) by (unfold child in *; lia).
    case_decide; subst; [done|]. destruct (Hsib j Hj Hjl); [lia|done].
  - intros j Hj Hjl. rewrite !at_swap by done. rewrite decide_True by done.
    rewrite decide_False by (unfold child in *; lia). case_decide; subst; [lia|].
    destruct (Hsib j Hj Hjl); [lia|done].
Qed.

Lemma parent_child idx : (0 < idx)%nat -> child (parent idx) idx.
Proof.
  intros. unfold child, parent. pose proof (Nat.div_mod (idx - 1) 2).
  pose proof (Nat.mod_upper_bound (idx - 1) 2). lia.
Qed.

Lemma child_parent i idx : child i idx -> i = parent idx.
Proof.
  unfold parent. intros [->| ->].
  - replace (2 * i + 1 - 1)%nat with (i * 2)%nat by lia. by rewrite Nat.div_mul.
  - replace (2 * i + 2 - 1)%nat with (1 + i * 2)%nat by lia. by rewrite Nat.div_add.
Qed.

Lemma up_exit h idx : up_cond (h, idx) = false -> parent_ok h idx.
Proof.
  unfold up_cond. cbn [fst snd]. intros Hc i Hi. apply child_parent in Hi as Hp. subst i.
  apply andb_false_iff in Hc as [Hz|Hz]; zbool; [unfold child in Hi|]; lia.
Qed.

(** From a heap with one changed cell: either the cell's parent was in order
    and nothing moves, or the result is a heap. *)
Lemma sift_up_spec h idx :
  heap_but h idx -> (idx < length h)%nat ->
  exists h', sift_up h idx = Some h' /\ h' ≡ₚ h /\
    (heap_ok h' \/ h' = h /\ parent_ok h idx).
Proof.
  intros Hb Hidx. unfold sift_up.
  destruct (while_loop_total
    (fun s => (s.2 < length s.1)%nat /\ heap_but s.1 s.2 /\ s.1 ≡ₚ h /\
              (kids_ok s.1 s.2 \/ s = (h, idx)))
    (fun s => s.2) up_cond up_body) with (fuel := idx) (s := (h, idx))
    as ([h' idx'] & Hrun & (Hlt & Hb' & Hperm & Hk) & Hex); cbn [fst snd] in *; [|by auto|done|].
  { clear. intros [s i]. cbn. intros (Hlt & Hb & Hperm & _) Hc. unfold up_cond in Hc. cbn [fst snd] in Hc.
    zbool. pose proof (parent_child i ltac:(done)) as Hch.
    destruct (up_step s _ i Hb Hch Hlt) as [Hb' Hk']; [lia|].
    pose proof (swap_Permutation i (parent i) s) as Hsw. rewrite swap_length.
    unfold child in Hch. split_and!; auto; [lia|by rewrite Hsw|lia]. }
  rewrite Hrun. exists h'. split; [done|]. split; [done|].
  apply up_exit in Hex. destruct Hk as [Hk|[= -> ->]]; [left|by right].
  by eapply heap_but_ok.
Qed.

(** ** Sifting down *)

Lemma smallest_spec h idx : (idx < length h)%nat ->
  (smallest h idx = idx /\ kids_ok h idx) \/
  (child idx (smallest h idx) /\ (smallest h idx < length h)%nat /\
   at_ h (smallest h idx) < at_ h idx /\
   forall j, child idx j -> (j < length h)%nat -> at_ h (smallest h idx) <= at_ h j).
Proof.
  intros Hidx. unfold smallest, kids_ok, child.
  set (l := (2 * idx + 1)%nat). set (r := (2 * idx + 2)%nat).
  destruct (l <? length h)%nat eqn:Hl; cbn [andb];
    [destruct (at_ h l <? at_ h idx) eqn:Hlk|];
    destruct (r <? length h)%nat eqn:Hr; cbn [andb];
    try (match goal with |- context [at_ h r <? ?x] => destruct (at_ h r <? x) eqn:Hrk end);
    zbool; [right|right|right|right|left|left|right|left|left];
    repeat split; auto; try lia; intros j [->| ->] Hj; lia.
Qed.

Lemma down_step h idx j :
  heap_but h idx -> parent_ok h idx -> child idx j -> (j < length h)%nat ->
  at_ h j < at_ h idx -> (forall k, child idx k -> (k < length h)%nat -> at_ h j <= at_ h k) ->
  heap_but (swap idx j h) j /\ parent_ok (swap idx j h) j.
Proof.
  intros [Hr Hs] Hp Hc Hj Hlt Hmin. assert (Hi : (idx < length h)%nat) by (unfold child in Hc; lia).
  split; [split|]; rewrite ?swap_length.
  - intros a b Hab Hb Ha' Hb'. rewrite !at_swap by done.
    rewrite !(decide_False (P := _ = j)) by done. repeat case_decide; subst.
    + unfold child in *; lia.
    + by apply Hmin.
    + by apply (Hs a j).
    + by apply Hr.
  - intros a b Ha Hb Hbl. rewrite !at_swap by done.
    assert (a = idx) as -> by (unfold child in *; lia).
    rewrite (decide_False (P := idx = j)), decide_True, (decide_False (P := b = j)),
      (decide_False (P := b = idx)) by (unfold child in *; lia).
    apply Hr; unfold child in *; lia.
  - intros a Ha. rewrite !at_swap by done. assert (a = idx) as -> by (unfold child in *; lia).
    rewrite (decide_False (P := idx = j)), !decide_True by (unfold child in *; lia). lia.
Qed.

Lemma sift_down_spec h idx :
  heap_but h idx -> parent_ok h idx -> (idx < length h)%nat ->
  exists h', sift_down h idx = Some h' /\ h' ≡ₚ h /\ heap_ok h'.
Proof.
  intros Hb Hp Hidx. unfold sift_down.
  destruct (while_loop_total
    (fun s => (s.2 < length s.1)%nat /\ heap_but s.1 s.2 /\ s.1 ≡ₚ h /\ parent_ok s.1 s.2)
    (fun s => (length s.1 - s.2)%nat) down_cond down_body) with (fuel := length h) (s := (h, idx))
    as ([h' idx'] & Hrun & (Hlt & Hb' & Hperm & Hk) & Hex); cbn [fst snd] in *; [|by auto|lia|].
  { clear. intros [s i]. cbn. intros (Hlt & Hb & Hperm & Hp) Hc. unfold down_cond in Hc.
    cbn in Hc. zbool. destruct (smallest_spec s i Hlt) as [[]|(Hch & Hl & Hk & Hmin)]; [done|].
    destruct (down_step s i _ Hb Hp Hch Hl Hk Hmin) as [Hb' Hp'].
    pose proof (swap_Permutation i (smallest s i) s) as Hsw.
    unfold down_body. cbn [fst snd]. rewrite swap_length.
    unfold child in Hch. split_and!; auto; [by rewrite Hsw|lia]. }
  rewrite Hrun. exists h'. split; [done|]. split; [done|].
  unfold down_cond in Hex. cbn in Hex. zbool.
  destruct (smallest_spec h' idx' Hlt) as [[_ Hkids]|(Hch & _)]; [by eapply heap_but_ok|].
  unfold child in Hch. lia.
Qed.

(** ** Operations built from the sifts *)

Lemma heap_append h x : heap_ok h -> heap_but (h ++ [x]) (length h) /\ kids_ok (h ++ [x]) (length h).
Proof.
  intros Ho. assert (Hat : forall i, (i < length h)%nat -> at_ (h ++ [x]) i = at_ h i).
  { intros i Hi. unfold at_. by rewrite lookup_total_app_l. }
  unfold kids_ok. split; [split|]; rewrite length_app; cbn.
  - intros i j Hc Hj Hi' Hj'. rewrite !Hat by (unfold child in *; lia). apply Ho; [done|lia].
  - intros i j Hi Hj Hlt. unfold child in *; lia.
  - intros j Hj Hlt. unfold child in *; lia.
Qed.

(** Insertion: append, then sift up. *)
Lemma heap_push_spec h x :
  heap_ok h -> exists h', sift_up (h ++ [x]) (length h) = Some h' /\ h' ≡ₚ x :: h /\ heap_ok h'.
Proof.
  intros Ho. destruct (heap_append h x Ho) as [Hb Hk].
  destruct (sift_up_spec _ _ Hb) as (h' & Hup & Hperm & Hor); [rewrite length_app; cbn; lia|].
  exists h'. split; [done|]. split.
  - rewrite Hperm. by rewrite Permutation_app_comm.
  - destruct Hor as [|[-> Hp]]; [done|]. by eapply heap_but_ok.
Qed.

(** Deleting the root: the last cell moves to the root and is sifted down. *)
Lemma heap_pop_spec h x :
  heap_ok h -> h !! 0%nat = Some x -> (1 < length h)%nat ->
  exists h', sift_down (swap_remove 0 h) 0 = Some h' /\ h ≡ₚ x :: h' /\ heap_ok h'.
Proof.
  intros Ho Hx Hlen. pose proof (swap_remove_Permutation 0 x h Hx) as Hperm.
  pose proof (swap_remove_length 0 x h Hx) as Hl.
  assert (Hat : forall i, (0 < i < length h - 1)%nat -> at_ (swap_remove 0 h) i = at_ h i).
  { intros i Hi. unfold at_. rewrite !list_lookup_total_alt, swap_remove_lookup by lia.
    by rewrite decide_False by lia. }
  destruct (sift_down_spec (swap_remove 0 h) 0) as (h' & Hd & Hp & Hok).
  - split; [|unfold child; lia].
    intros i j Hc Hj Hi Hj0. rewrite !Hat by (unfold child in *; lia). apply Ho; [done|lia].
  - unfold parent_ok, child. lia.
  - lia.
  - exists h'. split; [done|]. split; [|done]. by rewrite Hperm, Hp.
Qed.

(** Changing one cell, then both sifts at its index. *)
Lemma heap_update_spec h idx x :
  heap_ok h -> (idx < length h)%nat ->
  exists h1 h', sift_up (<[idx := x]> h) idx = Some h1 /\ sift_down h1 idx = Some h' /\
    h' ≡ₚ <[idx := x]> h /\ heap_ok h'.
Proof.
  intros Ho Hidx. pose proof (heap_but_insert h idx x Ho) as Hb.
  destruct (sift_up_spec _ _ Hb) as (h1 & Hup & Hperm & Hor); [by rewrite length_insert|].
  assert (Hl1 : (idx < length h1)%nat) by (by rewrite Hperm, length_insert).
  assert (heap_but h1 idx /\ parent_ok h1 idx) as [Hb1 Hp1].
  { destruct Hor as [Ho1|[-> Hp]]; [|done].
    split; [by apply heap_ok_but|by apply heap_ok_parent]. }
  destruct (sift_down_spec h1 idx Hb1 Hp1 Hl1) as (h' & Hd & Hp' & Hok).
  exists h1, h'. split_and!; try done. by rewrite Hp'.
Qed.

(** Changing a cell without changing its key keeps the order. *)
Lemma heap_alter_ok h idx f :
  (forall x, key (f x) = key x) -> heap_ok h -> heap_ok (alter f idx h).
Proof.
  intros Hf Ho. assert (forall i, (i < length h)%nat -> at_ (alter f idx h) i = at_ h i) as Hat.
  { intros i Hi. unfold at_. rewrite !list_lookup_total_alt.
    destruct (decide (i = idx)) as [->|]; [|by rewrite list_lookup_alter_ne].
    rewrite list_lookup_alter_eq. destruct (lookup_lt_is_Some_2 h idx Hi) as [y ->]. apply Hf. }
  intros i j Hc. rewrite length_alter. intros Hj. rewrite !Hat by (unfold child in *; lia).
  by apply Ho.
Qed.

Lemma heap_ok_nil : heap_ok [].
Proof. intros i j _ Hj. cbn in Hj. lia. Qed.

Lemma heap_ok_single x : heap_ok [x].
Proof. intros i j Hc Hj. unfold child in *. cbn in Hj. lia. Qed.

Lemma heap_min h x y : heap_ok h -> h !! 0%nat = Some x -> y ∈ h -> key x <= key y.
Proof.
  intros Ho Hx [i Hi]%list_elem_of_lookup.
  pose proof (heap_root_min h i Ho (lookup_lt_Some _ _ _ Hi)) as Hle. unfold at_ in Hle.
  by rewrite (list_lookup_total_correct _ _ _ Hx), (list_lookup_total_correct _ _ _ Hi) in Hle.
Qed.
End heap.
