(* ===== verification/DelayedQueue.v ===== *)
(** Model of [mini-job-system/src/delayed_queue.c]: a delay queue on a binary
    heap ordered by fire time, with cancellation marks and optional
    deduplication by key.

    [heap] is the live prefix of the C array, so its length is [size].  The
    readings of [time(NULL)] are arguments, one per call in program order;
    function and data pointers are opaque integers. *)

From S2P Require Import Prelude Heap.

Definition DQ_MAX_ENTRIES : Z := 1024.
Definition DQ_KEY_LEN : nat := 64.
#[global] Arguments DQ_KEY_LEN : simpl never.

Record dq_entry := mk_dq_entry {
  e_id : Z;
  e_key : string;
  e_callback : Z;
  e_userdata : Z;
  fire_time : Z;
  delay_ms : Z;
  cancelled : bool;
}.

#[export] Instance dq_entry_inhabited : Inhabited dq_entry :=
  populate (mk_dq_entry 0 "" 0 0 0 0 false).

Record delayed_queue := mk_dq {
  heap : list dq_entry;
  capacity : Z;
  dedup_by_key : bool;
}.

Definition dq_size (dq : delayed_queue) : Z := Z.of_nat (length (heap dq)).
Definition dq_is_empty (dq : delayed_queue) : bool := dq_size dq =? 0.

Definition delayed_queue_create (capacity : Z) (dedup : bool) : delayed_queue :=
  mk_dq [] (if capacity <=? 0 then DQ_MAX_ENTRIES else capacity) dedup.

Definition dq_heap_sift_up : list dq_entry -> nat -> option (list dq_entry) := sift_up fire_time.
Definition dq_heap_sift_down : list dq_entry -> nat -> option (list dq_entry) := sift_down fire_time.

Definition dq_find_by_key (dq : delayed_queue) (key : option string) : option nat :=
  match key with
  | Some k => if String.eqb k "" then None
              else find_idx (fun e => String.eqb (e_key e) k) (heap dq)
  | None => None
  end.

Definition dq_find_by_id (dq : delayed_queue) (id : Z) : option nat :=
  find_idx (fun e => e_id e =? id) (heap dq).

(** [(time_t)(time(NULL) + delay_ms / 1000)]: the sum is unsigned 64-bit. *)
Definition fire_at (t delay : Z) : Z := s64 (u64 (t + delay / 1000)).

(** The key copied into an entry. *)
Definition stored_key (key : option string) : string :=
  from_option (str_take (DQ_KEY_LEN - 1)) "" key.

(** The entry a plain enqueue writes; [t2] and [t3] are read after [t1]. *)
Definition new_entry (id : Z) (key : option string) (cb ud delay t1 t2 t3 : Z) : dq_entry :=
  mk_dq_entry id (stored_key key) cb ud
    (if fire_at t1 delay <=? t2 then t3 + 1 else fire_at t1 delay) delay false.

(** The entry a deduplicated enqueue overwrites keeps its key. *)
Definition refresh_entry (id cb ud delay t1 : Z) (e : dq_entry) : dq_entry :=
  mk_dq_entry id (e_key e) cb ud (fire_at t1 delay) delay false.

Definition dq_enqueue (dq : delayed_queue) (id : Z) (key : option string) (cb : option Z)
    (ud delay t1 t2 t3 : Z) : option (Z * delayed_queue) :=
  match cb with
  | None => Some (-1, dq)
  | Some cb =>
      if capacity dq <=? dq_size dq then Some (-2, dq)
      else match (if dedup_by_key dq then dq_find_by_key dq key else None) with
      | Some idx =>
          h1 ← dq_heap_sift_up (alter (refresh_entry id cb ud delay t1) idx (heap dq)) idx;
          h2 ← dq_heap_sift_down h1 idx;
          Some (0, dq <| heap := h2 |>)
      | None =>
          h1 ← dq_heap_sift_up (heap dq ++ [new_entry id key cb ud delay t1 t2 t3]) (length (heap dq));
          Some (0, dq <| heap := h1 |>)
      end
  end.

Inductive dq_delay_level := DQ_LEVEL_1S | DQ_LEVEL_10S | DQ_LEVEL_1MIN | DQ_LEVEL_10MIN | DQ_LEVEL_1HR.

Definition level_ms (level : dq_delay_level) : Z :=
  match level with
  | DQ_LEVEL_1S => 1000
  | DQ_LEVEL_10S => 10000
  | DQ_LEVEL_1MIN => 60000
  | DQ_LEVEL_10MIN => 600000
  | DQ_LEVEL_1HR => 3600000
  end.

Definition dq_enqueue_level (dq : delayed_queue) (id : Z) (key : option string) (cb : option Z)
    (ud : Z) (level : dq_delay_level) (t1 t2 t3 : Z) : option (Z * delayed_queue) :=
  dq_enqueue dq id key cb ud (level_ms level) t1 t2 t3.

Definition cancel_entry (e : dq_entry) : dq_entry := e <| cancelled := true |>.

Definition dq_cancel (dq : delayed_queue) (id : Z) : Z * delayed_queue :=
  match dq_find_by_id dq id with
  | Some idx => (0, dq <| heap ::= alter cancel_entry idx |>)
  | None => (-1, dq)
  end.

Definition dq_cancel_by_key (dq : delayed_queue) (key : option string) : Z * delayed_queue :=
  match dq_find_by_key dq key with
  | Some idx => (0, dq <| heap ::= alter cancel_entry idx |>)
  | None => (-1, dq)
  end.

(** [heap[0] = heap[size-1]; size--; if (size > 0) sift_down(0)]. *)
Definition drop_root (dq : delayed_queue) : option delayed_queue :=
  let h := swap_remove 0 (heap dq) in
  h' ← (if (0 <? length h)%nat then dq_heap_sift_down h 0 else Some h);
  Some (dq <| heap := h' |>).

(** The recursion drops cancelled roots: at most [size] of them. *)
Fixpoint dq_dequeue_rec (fuel : nat) (dq : delayed_queue) (now : Z)
    : option (Z * option dq_entry * delayed_queue) :=
  match heap dq with
  | [] => Some (0, None, dq)
  | root :: _ =>
      if cancelled root then
        match fuel with
        | O => None
        | S fuel' => dq' ← drop_root dq; dq_dequeue_rec fuel' dq' now
        end
      else if now <? fire_time root then Some (0, None, dq)
      else dq' ← drop_root dq; Some (1, Some root, dq')
  end.

Definition dq_dequeue (dq : delayed_queue) (now : Z) : option (Z * option dq_entry * delayed_queue) :=
  dq_dequeue_rec (length (heap dq)) dq now.

Definition dq_peek (dq : delayed_queue) : Z * option dq_entry :=
  match heap dq with
  | [] => (0, None)
  | root :: _ => (1, Some root)
  end.

Definition dq_next_delay_ms (dq : delayed_queue) (now : Z) : Z :=
  match heap dq with
  | [] => 0
  | root :: _ => if fire_time root <=? now then 0 else u64 (u64 (fire_time root - now) * 1000)
  end.

(** ** Invariant *)

Record dq_ok (dq : delayed_queue) : Prop := {
  dq_heap_ok : heap_ok fire_time (heap dq);
  dq_fits : dq_size dq <= capacity dq;
}.

Definition live (e : dq_entry) : bool := negb (cancelled e).

(** ** Each operation *)

Lemma dq_create_ok c d : dq_ok (delayed_queue_create c d).
Proof. split; [apply heap_ok_nil|]. unfold dq_size. cbn. case_match; unfold DQ_MAX_ENTRIES; lia. Qed.

Lemma find_by_key_Some dq key idx :
  dq_find_by_key dq key = Some idx ->
  exists k e, key = Some k /\ k <> ""%string /\ heap dq !! idx = Some e /\ e_key e = k.
Proof.
  unfold dq_find_by_key. destruct key as [k|]; [|done].
  destruct (String.eqb_spec k ""); [done|]. intros (e & He & Hk & _)%find_idx_Some.
  apply String.eqb_eq in Hk. eauto 10.
Qed.

Lemma find_by_key_None dq k e :
  dq_find_by_key dq (Some k) = None -> k <> ""%string -> e ∈ heap dq -> e_key e <> k.
Proof.
  unfold dq_find_by_key. destruct (String.eqb_spec k ""); [done|]. intros Hf _ He.
  apply (proj1 (find_idx_None _ _) Hf) in He. by apply String.eqb_neq in He.
Qed.

(** What [dq_enqueue] does, branch by branch. *)
Inductive enqueue_result (dq : delayed_queue) (id : Z) (key : option string) (cb : option Z)
    (ud delay t1 t2 t3 : Z) : Z -> delayed_queue -> Prop :=
  | enq_no_callback : cb = None -> enqueue_result dq id key cb ud delay t1 t2 t3 (-1) dq
  | enq_full f : cb = Some f -> capacity dq <= dq_size dq ->
      enqueue_result dq id key cb ud delay t1 t2 t3 (-2) dq
  | enq_refresh f dq' idx e :
      cb = Some f -> dq_size dq < capacity dq -> dedup_by_key dq = true ->
      dq_find_by_key dq key = Some idx -> heap dq !! idx = Some e ->
      heap dq' ≡ₚ <[idx := refresh_entry id f ud delay t1 e]> (heap dq) ->
      enqueue_result dq id key cb ud delay t1 t2 t3 0 dq'
  | enq_new f dq' :
      cb = Some f -> dq_size dq < capacity dq ->
      dedup_by_key dq = false \/ dq_find_by_key dq key = None ->
      heap dq' ≡ₚ new_entry id key f ud delay t1 t2 t3 :: heap dq ->
      enqueue_result dq id key cb ud delay t1 t2 t3 0 dq'.

Lemma enqueue_spec dq id key cb ud delay t1 t2 t3 :
  dq_ok dq ->
  exists r dq', dq_enqueue dq id key cb ud delay t1 t2 t3 = Some (r, dq') /\ dq_ok dq' /\
    capacity dq' = capacity dq /\ dedup_by_key dq' = dedup_by_key dq /\
    enqueue_result dq id key cb ud delay t1 t2 t3 r dq'.
Proof.
  intros [Hh Hf]. unfold dq_enqueue. destruct cb as [f|].
  2: { exists (-1), dq. split_and!; [done|by split|done..|by apply enq_no_callback]. }
  destruct (Z.leb_spec (capacity dq) (dq_size dq)).
  { exists (-2), dq. split_and!; [done|by split|done..|by eapply enq_full]. }
  destruct (if dedup_by_key dq then _ else _) as [idx|] eqn:Hfind.
  - destruct (dedup_by_key dq) eqn:Hdd; [|done].
    destruct (find_by_key_Some _ _ _ Hfind) as (k & e & -> & _ & He & Hk).
    unfold dq_heap_sift_up, dq_heap_sift_down.
    rewrite (alter_insert _ _ _ _ He).
    destruct (heap_update_spec fire_time (heap dq) idx (refresh_entry id f ud delay t1 e) Hh)
      as (h1 & h2 & -> & Hd & Hp & Ho); [by eapply lookup_lt_Some|]. cbn. rewrite Hd. cbn.
    assert (Hlen : length h2 = length (heap dq)) by (by rewrite Hp, length_insert).
    eexists _, _. split; [done|]. split; [split; [done|]|].
    { unfold dq_size in *. cbn. lia. }
    split_and!; [done..|]. by eapply enq_refresh.
  - destruct (heap_push_spec fire_time (heap dq) (new_entry id key f ud delay t1 t2 t3) Hh)
      as (h1 & Hu & Hp & Ho). unfold dq_heap_sift_up. rewrite Hu. cbn.
    eexists _, _. split; [done|]. split; [split; [done|]|].
    { unfold dq_size in *. cbn. rewrite Hp. cbn. lia. }
    split_and!; [done..|]. eapply enq_new; [done..| |done].
    destruct (dedup_by_key dq); auto.
Qed.

Lemma drop_root_spec dq root rest :
  dq_ok dq -> heap dq = root :: rest ->
  exists dq', drop_root dq = Some dq' /\ dq_ok dq' /\ heap dq ≡ₚ root :: heap dq' /\
    capacity dq' = capacity dq /\ dedup_by_key dq' = dedup_by_key dq.
Proof.
  intros [Hh Hf] He. unfold drop_root.
  assert (Hx : heap dq !! 0%nat = Some root) by by rewrite He.
  pose proof (swap_remove_length 0 root (heap dq) Hx) as Hl.
  destruct (Nat.ltb_spec 0 (length (swap_remove 0 (heap dq)))) as [Hpos|Hz].
  - destruct (heap_pop_spec fire_time (heap dq) root Hh Hx) as (h' & Hd & Hp & Ho); [lia|].
    unfold dq_heap_sift_down. rewrite Hd. cbn. eexists. split; [done|].
    split_and!; [|done..]. split; [done|]. unfold dq_size in *. cbn. rewrite Hp in Hf. cbn in Hf. lia.
  - cbn. eexists. split; [done|].
    destruct (swap_remove 0 (heap dq)) eqn:Hs; [|cbn in Hz; lia].
    split_and!; [|cbn|done..].
    + split; cbn; [apply heap_ok_nil|]. unfold dq_size in *. cbn. lia.
    + rewrite <- Hs. by apply swap_remove_Permutation.
Qed.

(** What [dq_dequeue] does: it discards a prefix [gone] of cancelled entries,
    all due no later than what remains, and returns the first live entry if due. *)
Inductive dequeue_result (dq : delayed_queue) (now : Z)
    : Z -> option dq_entry -> delayed_queue -> Prop :=
  | deq_none dq' gone :
      heap dq ≡ₚ gone ++ heap dq' -> (forall e, e ∈ gone -> cancelled e = true) ->
      (forall e, e ∈ heap dq -> live e -> now < fire_time e) ->
      dequeue_result dq now 0 None dq'
  | deq_some dq' gone e :
      heap dq ≡ₚ gone ++ e :: heap dq' -> (forall e, e ∈ gone -> cancelled e = true) ->
      live e -> fire_time e <= now ->
      (forall e', e' ∈ heap dq -> live e' -> fire_time e <= fire_time e') ->
      dequeue_result dq now 1 (Some e) dq'.

Lemma dequeue_rec_spec fuel now : forall dq,
  dq_ok dq -> (length (heap dq) <= fuel)%nat ->
  exists r out dq', dq_dequeue_rec fuel dq now = Some (r, out, dq') /\ dq_ok dq' /\
    capacity dq' = capacity dq /\ dedup_by_key dq' = dedup_by_key dq /\
    dequeue_result dq now r out dq'.
Proof.
  induction fuel as [|fuel IH]; intros dq Hok Hlen; cbn [dq_dequeue_rec];
    destruct (heap dq) as [|root rest] eqn:He; cbn in Hlen; try lia;
    try (exists 0, None, dq; split_and!; [done..|]; apply (deq_none _ _ _ []);
         [done| |rewrite He]; intros ? []%not_elem_of_nil).
  destruct (drop_root_spec dq root rest Hok He) as (dq1 & -> & Hok1 & Hp & Hc & Hd).
  assert (Hmin : forall e, e ∈ heap dq -> fire_time root <= fire_time e).
  { intros e. apply heap_min; [apply Hok|by rewrite He]. }
  destruct (cancelled root) eqn:Hcan; cbn.
  - destruct (IH dq1 Hok1) as (r & out & dq' & -> & Hok' & Hc' & Hd' & Hr).
    { rewrite He in Hp. apply Permutation_length in Hp. cbn in Hp. lia. }
    exists r, out, dq'. split_and!; [done..|by rewrite Hc'|by rewrite Hd'|].
    assert (Hlive : forall e, e ∈ heap dq -> live e -> e ∈ heap dq1).
    { intros e. rewrite Hp. intros [->|]%elem_of_cons; [|done]. unfold live. by rewrite Hcan. }
    assert (Hgone : forall gone, (forall e, e ∈ gone -> cancelled e = true) ->
      forall e, e ∈ root :: gone -> cancelled e = true) by (intros ? ? ? [->|]%elem_of_cons; auto).
    destruct Hr as [dq' gone Hp' Hg Hn|dq' gone e Hp' Hg Hl Ht Hm].
    + apply (deq_none _ _ _ (root :: gone)); [by rewrite Hp, Hp'|by apply Hgone|auto].
    + apply (deq_some _ _ _ (root :: gone)); [by rewrite Hp, Hp'|by apply Hgone|auto..].
  - destruct (Z.ltb_spec now (fire_time root)).
    + exists 0, None, dq. split_and!; [done..|]. apply (deq_none _ _ _ []);
        [done|by intros ? []%not_elem_of_nil|]. intros e Hin _. specialize (Hmin e Hin). lia.
    + exists 1, (Some root), dq1. split_and!; [done..|].
      apply (deq_some _ _ _ []); [done|by intros ? []%not_elem_of_nil| |done|auto].
      unfold live. by rewrite Hcan.
Qed.

Lemma cancel_ok dq idx :
  dq_ok dq -> dq_ok (dq <| heap ::= alter cancel_entry idx |>).
Proof.
  intros [Hh Hf]. split; [by apply heap_alter_ok|].
  unfold dq_size in *. cbn. by rewrite length_alter.
Qed.

Lemma dequeue_spec dq now :
  dq_ok dq ->
  exists r out dq', dq_dequeue dq now = Some (r, out, dq') /\ dq_ok dq' /\
    capacity dq' = capacity dq /\ dedup_by_key dq' = dedup_by_key dq /\
    dequeue_result dq now r out dq'.
Proof. intros Hok. by apply dequeue_rec_spec. Qed.

(** ** Histories.  [K] restricts the keys a client passes. *)

Inductive dq_step (K : option string -> Prop) (dq : delayed_queue) : delayed_queue -> Prop :=
  | dqs_enqueue id key cb ud delay t1 t2 t3 r dq' : K key ->
      dq_enqueue dq id key cb ud delay t1 t2 t3 = Some (r, dq') -> dq_step K dq dq'
  | dqs_cancel id : dq_step K dq (dq_cancel dq id).2
  | dqs_cancel_by_key key : dq_step K dq (dq_cancel_by_key dq key).2
  | dqs_dequeue now r out dq' : dq_dequeue dq now = Some (r, out, dq') -> dq_step K dq dq'.

Definition dq_reachable (dq : delayed_queue) : Prop :=
  exists capacity dedup, rtc (dq_step (fun _ => True)) (delayed_queue_create capacity dedup) dq.

Lemma dq_step_ok K dq dq' :
  dq_ok dq -> dq_step K dq dq' -> dq_ok dq' /\ dedup_by_key dq' = dedup_by_key dq.
Proof.
  intros Hok [id key cb ud delay t1 t2 t3 r d _ He|id|key|now r out d He].
  - destruct (enqueue_spec dq id key cb ud delay t1 t2 t3 Hok) as (? & ? & ? & ? & _ & ? & _). by simplify_eq.
  - unfold dq_cancel. case_match; cbn; [split; [by apply cancel_ok|done]|done].
  - unfold dq_cancel_by_key. case_match; cbn; [split; [by apply cancel_ok|done]|done].
  - destruct (dequeue_spec dq now Hok) as (? & ? & ? & ? & ? & _ & ? & _). by simplify_eq.
Qed.

Lemma dq_reachable_ok dq : dq_reachable dq -> dq_ok dq.
Proof.
  intros (c & d & Hr). revert Hr. apply rtc_ind_r; [apply dq_create_ok|].
  intros. by eapply dq_step_ok.
Qed.

(** ** Deduplication *)

Definition keys (h : list dq_entry) : list string :=
  List.filter (fun k => negb (String.eqb k "")) (e_key <$> h).

#[global] Arguments keys : simpl never.

Definition short_key (key : option string) : Prop :=
  match key with Some k => (String.length k < DQ_KEY_LEN)%nat | None => True end.

#[export] Instance keys_Permutation : Proper ((≡ₚ) ==> (≡ₚ)) keys.
Proof. intros h h' Hp. by apply filter_bool_Permutation, fmap_Permutation. Qed.

Lemma keys_alter f idx h : (forall e, e_key (f e) = e_key e) -> keys (alter f idx h) = keys h.
Proof.
  intros Hf. unfold keys. f_equal. apply list_eq. intros i.
  rewrite !list_lookup_fmap. destruct (decide (i = idx)) as [->|]; [|by rewrite list_lookup_alter_ne].
  rewrite list_lookup_alter_eq. destruct (h !! idx); cbn; [by rewrite Hf|done].
Qed.

Lemma keys_suffix gone h : NoDup (keys (gone ++ h)) -> NoDup (keys h).
Proof. unfold keys. rewrite fmap_app, List.filter_app. by intros (_ & _ & ?)%NoDup_app. Qed.

Lemma elem_of_keys k h : k ∈ keys h <-> k <> ""%string /\ exists e, e ∈ h /\ e_key e = k.
Proof.
  unfold keys. rewrite list_elem_of_In, filter_In, <- list_elem_of_In, list_elem_of_fmap.
  rewrite negb_true_iff, String.eqb_neq. naive_solver.
Qed.

Lemma enqueue_keys dq id key cb ud delay t1 t2 t3 r dq' :
  dedup_by_key dq = true -> short_key key -> NoDup (keys (heap dq)) ->
  enqueue_result dq id key cb ud delay t1 t2 t3 r dq' -> NoDup (keys (heap dq')).
Proof.
  intros Hd Hs Hn [| |f d idx e _ _ _ _ He Hp|f d _ _ Hor Hp]; try done.
  - rewrite Hp, <- (alter_insert (refresh_entry id f ud delay t1) idx e) by done.
    by rewrite keys_alter.
  - destruct Hor as [|Hfind]; [congruence|]. rewrite Hp. unfold keys. cbn.
    destruct (String.eqb_spec (stored_key key) ""); cbn; [done|].
    apply NoDup_cons. split; [|done]. fold (keys (heap dq)). rewrite elem_of_keys.
    intros [_ (x & Hx & Hk)]. destruct key as [k|]; [|done]. cbn in *.
    rewrite str_take_short in Hk by (unfold DQ_KEY_LEN in *; lia).
    rewrite str_take_short in n by (unfold DQ_KEY_LEN in *; lia).
    by eapply find_by_key_None.
Qed.

Lemma dedup_step dq dq' :
  dq_ok dq -> dedup_by_key dq = true -> NoDup (keys (heap dq)) -> dq_step short_key dq dq' ->
  NoDup (keys (heap dq')).
Proof.
  intros Hok Hd Hn [id key cb ud delay t1 t2 t3 r d Hs He|id|key|now r out d He].
  - destruct (enqueue_spec dq id key cb ud delay t1 t2 t3 Hok) as (? & ? & ? & _ & _ & _ & Hr).
    simplify_eq. by eapply enqueue_keys.
  - unfold dq_cancel. case_match; cbn; [by rewrite keys_alter by done|done].
  - unfold dq_cancel_by_key. case_match; cbn; [by rewrite keys_alter by done|done].
  - destruct (dequeue_spec dq now Hok) as (? & ? & ? & ? & _ & _ & _ & Hr). simplify_eq.
    destruct Hr as [d gone Hp|d gone e Hp]; rewrite Hp in Hn; apply keys_suffix in Hn; [done|].
    by apply (keys_suffix [e]).
Qed.

(** ** Draining: what a worker that dequeues until nothing is due receives *)

Fixpoint dq_drain (fuel : nat) (dq : delayed_queue) (now : Z) : option (list dq_entry * delayed_queue) :=
  '(r, out, dq') ← dq_dequeue dq now;
  match out with
  | None => Some ([], dq')
  | Some e =>
      match fuel with
      | O => None
      | S fuel' => '(l, dq'') ← dq_drain fuel' dq' now; Some (e :: l, dq'')
      end
  end.

Definition due (now : Z) (e : dq_entry) : bool := live e && (fire_time e <=? now).
Definition fires_before (e e' : dq_entry) : Prop := fire_time e <= fire_time e'.

Lemma drain_spec now fuel : forall dq, dq_ok dq -> (length (heap dq) <= fuel)%nat ->
  exists out dq', dq_drain fuel dq now = Some (out, dq') /\ dq_ok dq' /\
    out ≡ₚ List.filter (due now) (heap dq) /\ StronglySorted fires_before out.
Proof.
  induction fuel as [|fuel IH]; intros dq Hok Hlen; cbn [dq_drain];
    destruct (dequeue_spec dq now Hok) as (r & out & dq' & -> & Hok' & _ & _ & Hr); cbn;
    destruct Hr as [dq' gone Hp Hg Hn|dq' gone e Hp Hg Hl Ht Hm]; cbn;
    try (exists [], dq'; split_and!; [done..| |constructor]; rewrite filter_all_false; [done|];
         intros e He; unfold due; destruct (live e) eqn:Hlv; [|done];
         specialize (Hn e He ltac:(by rewrite Hlv)); apply Z.leb_gt; lia).
  { rewrite Hp, length_app in Hlen. cbn in Hlen. lia. }
  destruct (IH dq' Hok') as (l & dq'' & -> & Hok'' & Hpl & Hsl).
  { rewrite Hp, length_app in Hlen. cbn in Hlen. lia. }
  assert (Hdue : List.filter (due now) (heap dq) ≡ₚ e :: List.filter (due now) (heap dq')).
  { rewrite (filter_bool_Permutation _ _ _ Hp), List.filter_app, filter_all_false.
    - cbn. unfold due at 1. apply Is_true_true in Hl. rewrite Hl.
      by rewrite (proj2 (Z.leb_le _ _) Ht).
    - intros x Hx%Hg. unfold due, live. by rewrite Hx. }
  cbn. exists (e :: l), dq''. split_and!; [done..|by rewrite Hdue, Hpl|].
  constructor; [done|]. apply Forall_forall. intros x Hx. rewrite Hpl in Hx.
  apply list_elem_of_In, filter_In in Hx as [Hx%list_elem_of_In Hd].
  unfold due in Hd. apply andb_prop in Hd as [Hlx _]. apply Hm.
  - rewrite Hp. apply elem_of_app. right. by right.
  - by rewrite Hlx.
Qed.

(** ** Properties *)

(** On every reachable queue [dq_dequeue] terminates and is exact.  It drops
    only cancelled entries and loses no other; it returns 1 with an entry that
    is live, due and fires no later than any live entry, and 0 exactly when
    no live entry is due. *)
Theorem dq_dequeue_correct dq now :
  dq_reachable dq ->
  exists r out dq', dq_dequeue dq now = Some (r, out, dq') /\ dq_ok dq' /\
    dequeue_result dq now r out dq'.
Proof.
  intros H%dq_reachable_ok. destruct (dequeue_spec dq now H) as (r & out & dq' & ? & ? & _ & _ & ?).
  eauto 10.
Qed.

(** C21: a worker that dequeues until nothing is due receives every live due
    entry exactly once, in nondecreasing order of fire time. *)
Theorem dq_drain_sorted dq now :
  dq_reachable dq ->
  exists out dq', dq_drain (length (heap dq)) dq now = Some (out, dq') /\
    out ≡ₚ List.filter (due now) (heap dq) /\ StronglySorted fires_before out.
Proof.
  intros H%dq_reachable_ok. destruct (drain_spec now _ dq H (le_n _)) as (out & dq' & ? & _ & ? & ?).
  eauto.
Qed.

(** [dq_enqueue] terminates and keeps the heap: without a callback it
    answers -1, on a full queue -2, both without effect; otherwise it either
    overwrites the entry found under the same key or adds exactly one entry,
    and a new entry never fires at or before the instant it was added. *)
Theorem dq_enqueue_correct dq id key cb ud delay t1 t2 t3 :
  dq_reachable dq -> t2 <= t3 ->
  (exists r dq', dq_enqueue dq id key cb ud delay t1 t2 t3 = Some (r, dq') /\ dq_ok dq' /\
    enqueue_result dq id key cb ud delay t1 t2 t3 r dq') /\
  forall f, t2 < fire_time (new_entry id key f ud delay t1 t2 t3).
Proof.
  intros H%dq_reachable_ok Ht. split.
  - destruct (enqueue_spec dq id key cb ud delay t1 t2 t3 H) as (r & dq' & ? & ? & _ & _ & ?). eauto.
  - intros f. cbn. case_match; zbool; lia.
Qed.

(** In a deduplicating queue whose clients pass keys that fit the key
    field, no two entries ever share a non-empty key. *)
Theorem dq_dedup_unique capacity dq :
  rtc (dq_step short_key) (delayed_queue_create capacity true) dq -> NoDup (keys (heap dq)).
Proof.
  intros Hr. enough (dq_ok dq /\ dedup_by_key dq = true /\ NoDup (keys (heap dq))) by tauto.
  revert dq Hr. apply rtc_ind_r.
  - split; [apply dq_create_ok|]. split; [done|apply NoDup_nil_2].
  - intros dq dq' _ Hstep (Hok & Hd & Hn). destruct (dq_step_ok _ _ _ Hok Hstep) as [Hok' Hd'].
    split; [done|]. split; [congruence|]. by eapply (dedup_step dq).
Qed.

(** A key of 64 characters or more defeats deduplication.  The stored copy
    is cut to 63, the lookup compares the whole key, so the second enqueue of
    the same key adds a second entry with the same stored key. *)
Theorem dq_dedup_misses_long_keys dq id id' k f ud delay t1 t2 t3 t1' t2' t3' :
  dq_reachable dq -> (DQ_KEY_LEN <= String.length k)%nat -> dq_size dq + 1 < capacity dq ->
  (forall e, e ∈ heap dq -> (String.length (e_key e) < DQ_KEY_LEN)%nat) ->
  exists dq1 dq2,
    dq_enqueue dq id (Some k) (Some f) ud delay t1 t2 t3 = Some (0, dq1) /\
    dq_enqueue dq1 id' (Some k) (Some f) ud delay t1' t2' t3' = Some (0, dq2) /\
    e_key <$> heap dq2 ≡ₚ
      str_take (DQ_KEY_LEN - 1) k :: str_take (DQ_KEY_LEN - 1) k :: (e_key <$> heap dq).
Proof.
  intros Hok%dq_reachable_ok Hk Hsz Hshort.
  assert (Hnone : forall d, (forall e, e ∈ heap d -> (String.length (e_key e) < DQ_KEY_LEN)%nat) ->
    dq_find_by_key d (Some k) = None).
  { intros d Hd. unfold dq_find_by_key. case_match; [done|]. apply find_idx_None.
    intros e He. apply String.eqb_neq. intros He'. specialize (Hd e He). rewrite He' in Hd. lia. }
  assert (Hput : forall d i a b c, dq_ok d -> dq_size d < capacity d ->
    (forall e, e ∈ heap d -> (String.length (e_key e) < DQ_KEY_LEN)%nat) ->
    exists d', dq_enqueue d i (Some k) (Some f) ud delay a b c = Some (0, d') /\ dq_ok d' /\
      capacity d' = capacity d /\
      heap d' ≡ₚ new_entry i (Some k) f ud delay a b c :: heap d).
  { intros d i a b c Hd Hlt Hs.
    destruct (enqueue_spec d i (Some k) (Some f) ud delay a b c Hd) as (r & d' & He & Hd' & Hc & _ & Hr).
    exists d'. specialize (Hnone d Hs). destruct Hr; [congruence|lia|congruence|].
    simplify_eq. done. }
  destruct (Hput dq id t1 t2 t3) as (dq1 & He1 & Hok1 & Hc1 & Hp1); [done|lia|done|].
  destruct (Hput dq1 id' t1' t2' t3') as (dq2 & He2 & Hok2 & Hc2 & Hp2); [done| | |].
  { unfold dq_size in *. rewrite Hp1. cbn. lia. }
  { intros e. rewrite Hp1. intros [->|He]%elem_of_cons; [|by apply Hshort]. cbn.
    pose proof (str_take_length (DQ_KEY_LEN - 1) k). unfold DQ_KEY_LEN in *. lia. }
  exists dq1, dq2. split; [done|]. split; [done|]. by rewrite Hp2, Hp1.
Qed.

(** ** Witnesses *)

Definition dq_put (dq : delayed_queue) (id : Z) (key : string) (delay : Z) : delayed_queue :=
  from_option snd dq (dq_enqueue dq id (Some key) (Some 1) 0 delay 100 100 100).

(** Three jobs due at 103, 101 and 102; the one due at 101 is cancelled. *)
Definition dq_example : delayed_queue :=
  (dq_cancel (foldl (fun d '(i, k, t) => dq_put d i k t) (delayed_queue_create 4 true)
    [(1, "a", 3000); (2, "b", 1000); (3, "c", 2000)]) 2).2.

Lemma dq_put_step (K : option string -> Prop) dq id k delay : K (Some k) -> rtc (dq_step K) dq (dq_put dq id k delay).
Proof.
  intros HK. unfold dq_put. destruct (dq_enqueue _ _ _ _ _ _ _ _ _) as [[r d]|] eqn:He; [|apply rtc_refl].
  apply rtc_once. by eapply dqs_enqueue.
Qed.

Lemma dq_example_steps (K : option string -> Prop) : (forall k, (String.length k <= 1)%nat -> K (Some k)) ->
  rtc (dq_step K) (delayed_queue_create 4 true) dq_example.
Proof.
  intros HK. unfold dq_example. cbn [foldl]. eapply rtc_r; [|apply dqs_cancel].
  etransitivity; [|apply dq_put_step, HK; cbn; lia].
  etransitivity; [|apply dq_put_step, HK; cbn; lia].
  apply dq_put_step, HK; cbn; lia.
Qed.

Lemma dq_example_reachable : dq_reachable dq_example.
Proof. exists 4, true. apply dq_example_steps. auto. Qed.

Lemma dq_dequeue_correct_witness :
  exists e dq', dq_dequeue dq_example 102 = Some (1, Some e, dq') /\ e_id e = 3 /\
    dequeue_result dq_example 102 1 (Some e) dq'.
Proof.
  destruct (dq_dequeue_correct dq_example 102 dq_example_reachable) as (r & out & d & H & _ & Hr).
  vm_compute in H. injection H as <- <- <-. eexists _, _. split; [vm_compute; reflexivity|].
  split; [reflexivity|exact Hr].
Defined.

Lemma dq_drain_sorted_witness :
  exists out dq', dq_drain 3 dq_example 103 = Some (out, dq') /\ e_id <$> out = [3; 1].
Proof.
  destruct (dq_drain_sorted dq_example 103 dq_example_reachable) as (out & d & H & _).
  exists out, d. split; [exact H|]. vm_compute in H. injection H as <- _. reflexivity.
Defined.

Lemma dq_enqueue_correct_witness :
  exists dq', dq_enqueue dq_example 9 (Some "a"%string) (Some 2) 0 500 100 100 100 = Some (0, dq') /\
    length (heap dq') = 3%nat.
Proof.
  destruct (dq_enqueue_correct dq_example 9 (Some "a"%string) (Some 2) 0 500 100 100 100
    dq_example_reachable) as [(r & d & H & _) _]; [lia|].
  vm_compute in H. injection H as <- <-. eexists. split; [vm_compute; reflexivity|reflexivity].
Defined.

Lemma dq_dedup_unique_witness : NoDup (keys (heap dq_example)) /\ keys (heap dq_example) = ["b"; "a"; "c"].
Proof.
  split; [|reflexivity]. apply (dq_dedup_unique 4). apply dq_example_steps.
  intros k Hk. cbn. unfold DQ_KEY_LEN. lia.
Defined.

Definition long_key : string := String.concat "" (replicate 64 "k"%string).

Lemma dq_dedup_misses_long_keys_witness :
  exists dq1 dq2,
    dq_enqueue (delayed_queue_create 4 true) 1 (Some long_key) (Some 1) 0 1000 5 5 5 = Some (0, dq1) /\
    dq_enqueue dq1 2 (Some long_key) (Some 1) 0 1000 5 5 5 = Some (0, dq2) /\ dq_size dq2 = 2.
Proof.
  destruct (dq_dedup_misses_long_keys (delayed_queue_create 4 true) 1 2 long_key 1 0 1000 5 5 5 5 5 5)
    as (d1 & d2 & H1 & H2 & Hp).
  - exists 4, true. apply rtc_refl.
  - vm_compute. lia.
  - reflexivity.
  - intros e He. by apply not_elem_of_nil in He.
  - exists d1, d2. split; [exact H1|]. split; [exact H2|].
    unfold dq_size. apply Permutation_length in Hp. rewrite length_fmap in Hp. rewrite Hp. reflexivity.
Defined.
