(* ===== verification/CircuitBreaker.v ===== *)
(** Model of [mini-job-system/src/circuit_breaker.c]: the three-state circuit
    breaker and its ring of failure times.

    [difftime] of two times and its product by 1000.0 are exact below 2^53, so
    the cooldown test is the integer comparison it denotes there.  Counters are
    C [int]s that never wrap in a defined run; they are integers here.  The state
    callback is modelled by the list of (old, new) pairs it is called with. *)

From S2P Require Import Prelude.

Inductive cb_state := CB_STATE_CLOSED | CB_STATE_OPEN | CB_STATE_HALF_OPEN.
#[export] Instance cb_state_eq_dec : EqDecision cb_state.
Proof. solve_decision. Defined.

Definition cb_state_name (s : cb_state) : string :=
  match s with
  | CB_STATE_CLOSED => "CLOSED"
  | CB_STATE_OPEN => "OPEN"
  | CB_STATE_HALF_OPEN => "HALF_OPEN"
  end.

Record cb_config := mk_cb_config {
  failure_threshold : Z;
  success_threshold : Z;
  timeout_ms : Z;
  cooldown_ms : Z;
  half_open_max_requests : Z;
  sliding_window_size : Z;
}.

Definition CB_WINDOW : nat := 256.
#[global] Arguments CB_WINDOW : simpl never.

Record cb_failure_window := mk_fw {
  fw_timestamps : list Z;
  fw_count : nat;
  fw_head : nat;
}.

Definition fw_empty : cb_failure_window := mk_fw (replicate CB_WINDOW 0) 0 0.

Record circuit_breaker := mk_cb {
  state : cb_state;
  config : cb_config;
  consecutive_failures : Z;
  consecutive_successes : Z;
  total_failures : Z;
  total_successes : Z;
  total_rejected : Z;
  opened_at : Z;
  last_failure_at : Z;
  last_success_at : Z;
  failure_window : cb_failure_window;
  half_open_requests : Z;
  state_callback : bool;
  notified : list (cb_state * cb_state);
  cb_name : string;
}.

Definition cb_create (config : option cb_config) (name : option string) : circuit_breaker :=
  mk_cb CB_STATE_CLOSED (default (mk_cb_config 5 3 5000 30000 1 60) config)
    0 0 0 0 0 0 0 0 fw_empty 0 false [] (default "unnamed"%string name).

Definition cb_set_state_callback (cb : circuit_breaker) (set : bool) : circuit_breaker :=
  cb <| state_callback := set |>.

(** [now] is the clock read when the breaker opens. *)
Definition cb_change_state (cb : circuit_breaker) (new_state : cb_state) (now : Z) : circuit_breaker :=
  if decide (state cb = new_state) then cb
  else
    let old := state cb in
    let cb := cb <| state := new_state |> in
    let cb := if decide (new_state = CB_STATE_OPEN) then cb <| opened_at := now |> else cb in
    let cb := if decide (new_state = CB_STATE_HALF_OPEN) then cb <| half_open_requests := 0 |> else cb in
    if state_callback cb then cb <| notified ::= fun l => l ++ [(old, new_state)] |> else cb.

Definition cb_transition_to_open (cb : circuit_breaker) (now : Z) : circuit_breaker :=
  cb_change_state (cb <| consecutive_successes := 0 |> <| half_open_requests := 0 |>) CB_STATE_OPEN now.
Definition cb_transition_to_half_open (cb : circuit_breaker) : circuit_breaker :=
  cb_change_state (cb <| half_open_requests := 0 |>) CB_STATE_HALF_OPEN 0.
Definition cb_transition_to_closed (cb : circuit_breaker) : circuit_breaker :=
  cb_change_state (cb <| consecutive_failures := 0 |> <| consecutive_successes := 0 |>
                      <| half_open_requests := 0 |>) CB_STATE_CLOSED 0.

Definition cooled_down (cb : circuit_breaker) (now : Z) : bool :=
  cooldown_ms (config cb) <=? (now - opened_at cb) * 1000.

Definition cb_allow_request (cb : circuit_breaker) (now : Z) : Z * circuit_breaker :=
  match state cb with
  | CB_STATE_CLOSED => (1, cb)
  | CB_STATE_OPEN =>
      if cooled_down cb now
      then (1, (cb_change_state cb CB_STATE_HALF_OPEN now) <| half_open_requests := 1 |>)
      else (0, cb <| total_rejected ::= Z.succ |>)
  | CB_STATE_HALF_OPEN =>
      if half_open_requests cb <? half_open_max_requests (config cb)
      then (1, cb <| half_open_requests ::= Z.succ |>)
      else (0, cb <| total_rejected ::= Z.succ |>)
  end.

Definition cb_report_success (cb : circuit_breaker) (now : Z) : circuit_breaker :=
  let cb := cb <| total_successes ::= Z.succ |> <| last_success_at := now |> in
  match state cb with
  | CB_STATE_CLOSED => cb <| consecutive_failures := 0 |>
  | CB_STATE_HALF_OPEN =>
      let cb := cb <| consecutive_successes ::= Z.succ |> in
      let cb := if success_threshold (config cb) <=? consecutive_successes cb
                then cb_change_state (cb <| consecutive_failures := 0 |> <| consecutive_successes := 0 |>)
                       CB_STATE_CLOSED now
                else cb in
      let cb := cb <| half_open_requests ::= Z.pred |> in
      if half_open_requests cb <? 0 then cb <| half_open_requests := 0 |> else cb
  | CB_STATE_OPEN => cb
  end.

Definition cb_failure_window_record (fw : cb_failure_window) (now : Z) : cb_failure_window :=
  mk_fw (<[fw_head fw := now]> (fw_timestamps fw))
    (if (fw_count fw <? CB_WINDOW)%nat then S (fw_count fw) else fw_count fw)
    ((fw_head fw + 1) mod CB_WINDOW)%nat.

(** [t1], [t2], [t3]: [last_failure_at], the window entry, [opened_at]. *)
Definition cb_report_failure (cb : circuit_breaker) (t1 t2 t3 : Z) : circuit_breaker :=
  let cb := cb <| total_failures ::= Z.succ |> <| last_failure_at := t1 |>
               <| failure_window ::= fun fw => cb_failure_window_record fw t2 |> in
  match state cb with
  | CB_STATE_CLOSED =>
      let cb := cb <| consecutive_failures ::= Z.succ |> in
      if failure_threshold (config cb) <=? consecutive_failures cb
      then cb_transition_to_open cb t3 else cb
  | CB_STATE_HALF_OPEN => cb_transition_to_open (cb <| consecutive_failures ::= Z.succ |>) t3
  | CB_STATE_OPEN => cb
  end.

Definition cb_get_state (cb : circuit_breaker) : cb_state := state cb.
Definition cb_is_open (cb : circuit_breaker) : bool := bool_decide (state cb = CB_STATE_OPEN).
Definition cb_is_closed (cb : circuit_breaker) : bool := bool_decide (state cb = CB_STATE_CLOSED).
Definition cb_is_half_open (cb : circuit_breaker) : bool := bool_decide (state cb = CB_STATE_HALF_OPEN).
Definition cb_get_consecutive_failures (cb : circuit_breaker) : Z := consecutive_failures cb.
Definition cb_get_total_failures (cb : circuit_breaker) : Z := total_failures cb.
Definition cb_get_total_successes (cb : circuit_breaker) : Z := total_successes cb.
Definition cb_get_total_rejected (cb : circuit_breaker) : Z := total_rejected cb.

Definition cb_reset (cb : circuit_breaker) : circuit_breaker :=
  cb <| state := CB_STATE_CLOSED |> <| consecutive_failures := 0 |> <| consecutive_successes := 0 |>
     <| total_failures := 0 |> <| total_successes := 0 |> <| total_rejected := 0 |>
     <| half_open_requests := 0 |> <| failure_window := fw_empty |>.

(** The scan runs from the newest entry and stops at the first old one. *)
Fixpoint fw_scan (fw : cb_failure_window) (cutoff : Z) (i n : nat) : Z :=
  match n with
  | O => 0
  | S n' =>
      let idx := ((fw_head fw + CB_WINDOW - 1 - i) mod CB_WINDOW)%nat in
      if cutoff <=? fw_timestamps fw !!! idx then 1 + fw_scan fw cutoff (S i) n' else 0
  end.

Definition cb_failure_window_count (fw : cb_failure_window) (window_sec now : Z) : Z :=
  fw_scan fw (now - window_sec) 0 (fw_count fw).

(** ** Reachable breakers *)

Inductive cb_step (cb : circuit_breaker) : circuit_breaker -> Prop :=
  | cbs_allow now : cb_step cb (cb_allow_request cb now).2
  | cbs_success now : cb_step cb (cb_report_success cb now)
  | cbs_failure t1 t2 t3 : cb_step cb (cb_report_failure cb t1 t2 t3)
  | cbs_to_open now : cb_step cb (cb_transition_to_open cb now)
  | cbs_to_half_open : cb_step cb (cb_transition_to_half_open cb)
  | cbs_to_closed : cb_step cb (cb_transition_to_closed cb)
  | cbs_callback b : cb_step cb (cb_set_state_callback cb b)
  | cbs_reset : cb_step cb (cb_reset cb).

Record cb_ok (cb : circuit_breaker) : Prop := {
  co_probes : 0 <= half_open_requests cb <= Z.max 1 (half_open_max_requests (config cb));
  co_failures : 0 <= consecutive_failures cb;
  co_closed : state cb = CB_STATE_CLOSED -> 0 < failure_threshold (config cb) ->
    consecutive_failures cb < failure_threshold (config cb);
  co_successes : 0 <= consecutive_successes cb;
  co_half_open : 0 < success_threshold (config cb) ->
    consecutive_successes cb < success_threshold (config cb);
  co_counted : state cb <> CB_STATE_HALF_OPEN -> consecutive_successes cb = 0;
}.

(** Opens a breaker into its fields and runs an operation on every branch. *)
Ltac cb_open cb :=
  let ft := fresh "ft" in let sth := fresh "sth" in let cd := fresh "cd" in let hm := fresh "hm" in
  let st := fresh "st" in
  destruct cb as [st [ft sth ? cd hm ?] ? ? ? ? ? ? ? ? ? ? ? ? ?]; destruct st.
Ltac cb_run :=
  unfold cb_allow_request, cb_report_success, cb_report_failure, cb_transition_to_open,
    cb_transition_to_half_open, cb_transition_to_closed, cb_set_state_callback, cb_reset,
    cb_change_state, cooled_down in *; cbn in *;
  repeat (case_match; cbn in *); zbool.

Lemma cb_create_ok cfg name : cb_ok (cb_create cfg name).
Proof. split; cbn; lia. Qed.

Lemma cb_step_ok cb cb' : cb_ok cb -> cb_step cb cb' -> cb_ok cb'.
Proof.
  intros [? ? ? ? ? ?] Hstep. cb_open cb; destruct Hstep; cb_run; split; cbn; intuition (congruence || lia).
Qed.

Definition cb_reachable (cb : circuit_breaker) : Prop :=
  exists cfg name, rtc cb_step (cb_create cfg name) cb.

Lemma cb_reachable_ok cb : cb_reachable cb -> cb_ok cb.
Proof.
  intros (cfg & name & Hr). revert Hr. apply rtc_ind_r; [apply cb_create_ok|].
  intros. by eapply cb_step_ok.
Qed.

(** ** Runs of the calls a client makes *)

Inductive cb_event :=
  | EvAllow (now : Z)
  | EvSuccess (now : Z)
  | EvFailure (t1 t2 t3 : Z).

(** One call: the answers given so far and the breaker after it. *)
Definition cb_call (s : list Z * circuit_breaker) (e : cb_event) : list Z * circuit_breaker :=
  match e with
  | EvAllow now => (s.1 ++ [(cb_allow_request s.2 now).1], (cb_allow_request s.2 now).2)
  | EvSuccess now => (s.1, cb_report_success s.2 now)
  | EvFailure t1 t2 t3 => (s.1, cb_report_failure s.2 t1 t2 t3)
  end.

Definition cb_run (cb : circuit_breaker) (evs : list cb_event) : list Z * circuit_breaker :=
  foldl cb_call ([], cb) evs.

(** The instants at which a request asks to pass. *)
Definition asks (evs : list cb_event) : list Z :=
  omap (fun e => match e with EvAllow now => Some now | _ => None end) evs.

#[global] Arguments asks : simpl never.

Lemma asks_cons e evs :
  asks (e :: evs) = (if e is EvAllow now then [now] else []) ++ asks evs.
Proof. by destruct e. Qed.

Lemma change_state_to cb s now :
  state (cb_change_state cb s now) = s /\ config (cb_change_state cb s now) = config cb /\
  consecutive_failures (cb_change_state cb s now) = consecutive_failures cb /\
  consecutive_successes (cb_change_state cb s now) = consecutive_successes cb.
Proof. cb_open cb; destruct s; unfold cb_change_state; cbn; repeat case_match; cbn; auto. Qed.

Lemma cb_run_from evs : forall ans cb,
  foldl cb_call (ans, cb) evs = (ans ++ (cb_run cb evs).1, (cb_run cb evs).2).
Proof.
  unfold cb_run. induction evs as [|e evs IH]; intros ans cb; cbn [foldl]; [by rewrite app_nil_r|].
  destruct e; cbn [cb_call fst snd]; rewrite IH; [|done..].
  rewrite (IH ([] ++ _)). cbn. by rewrite <- app_assoc.
Qed.

Lemma cb_run_cons cb e evs :
  cb_run cb (e :: evs) =
    ((cb_call ([], cb) e).1 ++ (cb_run (cb_call ([], cb) e).2 evs).1,
     (cb_run (cb_call ([], cb) e).2 evs).2).
Proof.
  unfold cb_run at 1. cbn [foldl]. destruct (cb_call ([], cb) e) as [a c] eqn:He. apply cb_run_from.
Qed.

Lemma cb_run_app cb evs evs' :
  cb_run cb (evs ++ evs') =
    ((cb_run cb evs).1 ++ (cb_run (cb_run cb evs).2 evs').1, (cb_run (cb_run cb evs).2 evs').2).
Proof.
  unfold cb_run at 1. rewrite foldl_app. destruct (foldl cb_call ([], cb) evs) as [a c] eqn:He.
  rewrite cb_run_from. unfold cb_run. by rewrite He.
Qed.

(** While it cools down, an open breaker answers 0 and only counts. *)
Lemma open_call cb e :
  state cb = CB_STATE_OPEN ->
  (forall now, e = EvAllow now -> (now - opened_at cb) * 1000 < cooldown_ms (config cb)) ->
  let s := cb_call ([], cb) e in
  state s.2 = CB_STATE_OPEN /\ opened_at s.2 = opened_at cb /\ config s.2 = config cb /\
  s.1 = (if e is EvAllow _ then [0] else []) /\
  total_rejected s.2 = total_rejected cb + (if e is EvAllow _ then 1 else 0).
Proof.
  intros Hs Hc. destruct e as [now|now|t1 t2 t3]; cbn.
  - specialize (Hc now eq_refl). unfold cb_allow_request. rewrite Hs. unfold cooled_down.
    case_match; zbool; [lia|]. cbn. split_and!; auto; lia.
  - unfold cb_report_success. cbn. rewrite Hs. cbn. split_and!; auto; lia.
  - unfold cb_report_failure. cbn. rewrite Hs. cbn. split_and!; auto; lia.
Qed.

Lemma open_run evs : forall cb,
  state cb = CB_STATE_OPEN ->
  Forall (fun now => (now - opened_at cb) * 1000 < cooldown_ms (config cb)) (asks evs) ->
  state (cb_run cb evs).2 = CB_STATE_OPEN /\ opened_at (cb_run cb evs).2 = opened_at cb /\
  (cb_run cb evs).1 = replicate (length (asks evs)) 0 /\
  total_rejected (cb_run cb evs).2 = total_rejected cb + Z.of_nat (length (asks evs)).
Proof.
  induction evs as [|e evs IH]; intros cb Hs Ha.
  - change (asks []) with (@nil Z). cbn. split_and!; auto; lia.
  - rewrite cb_run_cons. rewrite asks_cons in Ha |- *. apply Forall_app in Ha as [Hnow Ha].
    destruct (open_call cb e Hs) as (Hs' & Ho & Hc & Hans & Ht).
    { intros now ->. by inversion_clear Hnow. }
    destruct (IH (cb_call ([], cb) e).2 Hs') as (Hs'' & Ho' & Hans' & Ht').
    { by rewrite Ho, Hc. }
    cbn [fst snd]. rewrite Hs'', Ho', Ho, Hans, Hans', Ht', Ht, length_app.
    destruct e; cbn [length app Nat.add replicate]; split_and!; auto; lia.
Qed.

(** Consecutive failures of a closed breaker. *)
Lemma closed_failures_run fs : forall cb,
  state cb = CB_STATE_CLOSED ->
  consecutive_failures cb < failure_threshold (config cb) ->
  let cb' := (cb_run cb ((fun '(t1, t2, t3) => EvFailure t1 t2 t3) <$> fs)).2 in
  state cb' = (if consecutive_failures cb + Z.of_nat (length fs) <? failure_threshold (config cb)
               then CB_STATE_CLOSED else CB_STATE_OPEN).
Proof.
  induction fs as [|[[t1 t2] t3] fs IH]; intros cb Hs Hlt; cbv zeta.
  - cbn. rewrite Hs. case_match; zbool; [done|lia].
  - rewrite fmap_cons, cb_run_cons. cbn [fst snd cb_call].
    unfold cb_report_failure at 1. cbn. rewrite Hs. cbn.
    destruct (Z.leb_spec (failure_threshold (config cb)) (Z.succ (consecutive_failures cb))).
    + match goal with |- state (cb_run ?c ?e).2 = _ => destruct (open_run e c) as (-> & _) end.
      * unfold cb_transition_to_open. by rewrite (proj1 (change_state_to _ _ _)).
      * clear. induction fs as [|[[? ?] ?] fs IH]; [constructor|]. exact IH.
      * case_match; zbool; [lia|done].
    + rewrite IH; cbn [consecutive_failures config state]; [|done|cbn; lia].
      assert (Hz : forall a b c d x y, a = b -> c = d -> (if a <? c then x else y : cb_state) =
        (if b <? d then x else y)) by by intros; subst.
      apply Hz; cbn; [lia|done].
Qed.

(** Successful probes: each asks, passes and reports. *)
Definition probes (ts : list Z) : list cb_event := flat_map (fun t => [EvAllow t; EvSuccess t]) ts.

Lemma probes_cons cb t ts :
  cb_run cb (probes (t :: ts)) =
    let c := cb_allow_request cb t in
    ((c.1 :: (cb_run (cb_report_success c.2 t) (probes ts)).1),
     (cb_run (cb_report_success c.2 t) (probes ts)).2).
Proof.
  change (probes (t :: ts)) with (EvAllow t :: EvSuccess t :: probes ts).
  by rewrite !cb_run_cons.
Qed.

Lemma closed_probes ts : forall cb,
  state cb = CB_STATE_CLOSED ->
  (cb_run cb (probes ts)).1 = replicate (length ts) 1 /\
  state (cb_run cb (probes ts)).2 = CB_STATE_CLOSED.
Proof.
  induction ts as [|t ts IH]; intros cb Hs; [done|].
  rewrite probes_cons. unfold cb_allow_request. rewrite Hs. cbn [fst snd].
  destruct (IH (cb_report_success cb t)) as [-> ->]; [|done].
  unfold cb_report_success. cbn. by rewrite Hs.
Qed.

(** A success reported while half open. *)
Lemma half_open_success cb t :
  state cb = CB_STATE_HALF_OPEN ->
  let cb' := cb_report_success cb t in
  config cb' = config cb /\
  if success_threshold (config cb) <=? consecutive_successes cb + 1
  then state cb' = CB_STATE_CLOSED
  else state cb' = CB_STATE_HALF_OPEN /\ half_open_requests cb' = Z.max 0 (half_open_requests cb - 1) /\
       consecutive_successes cb' = consecutive_successes cb + 1.
Proof.
  destruct cb as [st cfg cf cs tf ts tr oa lf ls fw ho scb nt nm]. cbn [state]. intros ->.
  unfold cb_report_success. cbn -[Z.leb Z.ltb]. unfold Z.succ, Z.pred.
  destruct (success_threshold cfg <=? cs + 1); cbn -[Z.ltb].
  - unfold cb_change_state. cbn -[Z.ltb]. destruct scb; cbn -[Z.ltb]; by destruct (_ <? 0).
  - destruct (Z.ltb_spec (ho + -1) 0); cbn; split_and!; try done; lia.
Qed.

Lemma half_open_probe cb t :
  state cb = CB_STATE_HALF_OPEN -> 0 <= half_open_requests cb < half_open_max_requests (config cb) ->
  let c := cb_allow_request cb t in
  let cb' := cb_report_success c.2 t in
  c.1 = 1 /\ config cb' = config cb /\
  if success_threshold (config cb) <=? consecutive_successes cb + 1
  then state cb' = CB_STATE_CLOSED
  else state cb' = CB_STATE_HALF_OPEN /\ half_open_requests cb' = half_open_requests cb /\
       consecutive_successes cb' = consecutive_successes cb + 1.
Proof.
  intros Hs Hr. unfold cb_allow_request. rewrite Hs, (proj2 (Z.ltb_lt _ _)) by lia. cbn [fst snd]. cbv zeta.
  destruct (half_open_success (cb <| half_open_requests ::= Z.succ |>) t) as [Hc Hres]; [by destruct cb|].
  split; [done|]. revert Hc Hres. destruct cb. cbn -[cb_report_success Z.leb Z.max] in *. intros Hc Hres. split; [done|].
  destruct (_ <=? _); [done|]. destruct Hres as (? & Hh & ?). split_and!; try done. lia.
Qed.

Lemma open_probe cb t :
  state cb = CB_STATE_OPEN -> cooldown_ms (config cb) <= (t - opened_at cb) * 1000 ->
  consecutive_successes cb = 0 ->
  let c := cb_allow_request cb t in
  let cb' := cb_report_success c.2 t in
  c.1 = 1 /\ config cb' = config cb /\
  if success_threshold (config cb) <=? 1
  then state cb' = CB_STATE_CLOSED
  else state cb' = CB_STATE_HALF_OPEN /\ half_open_requests cb' = 0 /\ consecutive_successes cb' = 1.
Proof.
  intros Hs Hc Hn. unfold cb_allow_request, cooled_down. rewrite Hs, (proj2 (Z.leb_le _ _)) by done.
  cbn [fst snd]. cbv zeta. set (cb1 := (cb_change_state cb CB_STATE_HALF_OPEN t) <| half_open_requests := 1 |>).
  assert (Hcb1 : state cb1 = CB_STATE_HALF_OPEN /\ config cb1 = config cb /\ half_open_requests cb1 = 1 /\
    consecutive_successes cb1 = 0).
  { unfold cb1, cb_change_state. rewrite Hs.
    destruct cb as [st cfg cf cs tf ts tr oa lf ls fw ho scb nt nm]. cbn in *. by destruct scb. }
  destruct Hcb1 as (H1 & H2 & H3 & H4). destruct (half_open_success cb1 t H1) as [Hcfg Hres].
  rewrite H2, H4 in *. rewrite H3 in Hres. split; [done|]. split; [done|]. exact Hres.
Qed.

Lemma half_open_probes ts : forall cb,
  state cb = CB_STATE_HALF_OPEN -> 0 <= half_open_requests cb < half_open_max_requests (config cb) ->
  consecutive_successes cb < success_threshold (config cb) ->
  (cb_run cb (probes ts)).1 = replicate (length ts) 1 /\
  state (cb_run cb (probes ts)).2 =
    (if consecutive_successes cb + Z.of_nat (length ts) <? success_threshold (config cb)
     then CB_STATE_HALF_OPEN else CB_STATE_CLOSED).
Proof.
  induction ts as [|t ts IH]; intros cb Hs Hr Hlt.
  - cbn. rewrite Hs. case_match; zbool; [done|lia].
  - rewrite probes_cons. destruct (half_open_probe cb t Hs Hr) as (Hc & Hcfg & Hst).
    set (cb' := cb_report_success (cb_allow_request cb t).2 t) in *. cbv zeta. cbn [fst snd].
    fold cb'. rewrite Hc. cbn [length replicate].
    destruct (Z.leb_spec (success_threshold (config cb)) (consecutive_successes cb + 1)).
    + destruct (closed_probes ts cb' Hst) as [-> ->]. split; [done|]. case_match; zbool; [lia|done].
    + destruct Hst as (Hs' & Hr' & Hn'). destruct (IH cb' Hs') as [-> ->]; rewrite ?Hcfg, ?Hr', ?Hn';
        [done|lia|]. split; [done|]. rewrite <- Z.add_assoc.
      by replace (1 + Z.of_nat (length ts)) with (Z.of_nat (S (length ts))) by lia.
Qed.

(** ** The failure window is the last [CB_WINDOW] recorded times *)

Definition fw_of (hist : list Z) : cb_failure_window := foldl cb_failure_window_record fw_empty hist.

Lemma fw_of_snoc hist t : fw_of (hist ++ [t]) = cb_failure_window_record (fw_of hist) t.
Proof. unfold fw_of. by rewrite foldl_app. Qed.

Lemma fw_of_spec hist :
  length (fw_timestamps (fw_of hist)) = CB_WINDOW /\
  fw_count (fw_of hist) = Nat.min CB_WINDOW (length hist) /\
  fw_head (fw_of hist) = (length hist mod CB_WINDOW)%nat /\
  forall k, (k < length hist)%nat -> (length hist <= k + CB_WINDOW)%nat ->
    fw_timestamps (fw_of hist) !!! (k mod CB_WINDOW)%nat = hist !!! k.
Proof.
  assert (HW : CB_WINDOW <> 0%nat) by done.
  induction hist as [|t hist (Hl & Hc & Hh & Hk)] using rev_ind.
  - unfold fw_of. cbn. split_and!; [apply length_replicate|done|done|lia].
  - rewrite fw_of_snoc. unfold cb_failure_window_record.
    cbn [fw_timestamps fw_count fw_head]. rewrite length_insert, length_app, Hc, Hh. cbn [length].
    split_and!; [done| | |].
    + case_match; zbool; lia.
    + by rewrite Nat.Div0.add_mod_idemp_l.
    + intros k Hlt Hge. destruct (decide (k = length hist)) as [->|Hne].
      * rewrite list_lookup_total_insert_eq by (rewrite Hl; by apply Nat.mod_upper_bound).
        by rewrite lookup_total_app_r, Nat.sub_diag by lia.
      * rewrite list_lookup_total_insert_ne by (apply not_eq_sym, ring_distinct; lia).
        rewrite lookup_total_app_l by lia. apply Hk; lia.
Qed.

(** Times recorded with a clock that does not run backwards. *)
Definition chronological (hist : list Z) : Prop :=
  forall i j x y, hist !! i = Some x -> hist !! j = Some y -> (i <= j)%nat -> x <= y.

Lemma fw_scan_spec hist cutoff n : forall i,
  chronological hist -> (i + n = Nat.min CB_WINDOW (length hist))%nat ->
  fw_scan (fw_of hist) cutoff i n =
    Z.of_nat (count_if (fun t => cutoff <=? t) (take n (drop i (reverse hist)))).
Proof.
  destruct (fw_of_spec hist) as (_ & _ & Hh & Hk).
  induction n as [|n IH]; intros i Hs Hin; [done|]. cbn [fw_scan].
  rewrite Hh, ring_back, Hk by lia.
  assert (Hx : reverse hist !! i = Some (hist !!! (length hist - 1 - i)%nat)).
  { rewrite reverse_lookup by lia. rewrite list_lookup_lookup_total_lt by lia. do 2 f_equal. lia. }
  rewrite (drop_S _ _ _ Hx). cbn [take]. unfold count_if in *. cbn [List.filter].
  destruct (Z.leb_spec cutoff (hist !!! (length hist - 1 - i)%nat)) as [Hc|Hc].
  - rewrite IH by (done || lia). cbn [length]. lia.
  - rewrite filter_all_false; [done|]. intros y Hy. apply Z.leb_gt.
    apply list_elem_of_lookup in Hy as [j Hj].
    apply lookup_take_Some in Hj as [Hj _]. rewrite lookup_drop in Hj.
    apply reverse_lookup_Some in Hj as [Hj Hjl].
    enough (y <= hist !!! (length hist - 1 - i)%nat) by lia.
    eapply Hs; [exact Hj|apply list_lookup_lookup_total_lt; lia|lia].
Qed.

(** ** Properties *)

(** In every reachable breaker, manual transitions and resets included,
    the probes in flight stay within the half-open limit, a closed breaker is
    below its failure threshold, and the success count is below its threshold
    and zero outside the half-open state. *)
Theorem cb_reachable_invariant cb : cb_reachable cb -> cb_ok cb.
Proof. apply cb_reachable_ok. Qed.

(** isolation.  From the moment a breaker is open, and until its cooldown
    has elapsed, whatever the clients do every request is refused and counted
    as rejected, the breaker stays open and the cooldown is not extended. *)
Theorem cb_open_isolates cb evs :
  state cb = CB_STATE_OPEN ->
  Forall (fun now => (now - opened_at cb) * 1000 < cooldown_ms (config cb)) (asks evs) ->
  state (cb_run cb evs).2 = CB_STATE_OPEN /\ opened_at (cb_run cb evs).2 = opened_at cb /\
  (cb_run cb evs).1 = replicate (length (asks evs)) 0 /\
  total_rejected (cb_run cb evs).2 = total_rejected cb + Z.of_nat (length (asks evs)).
Proof. apply open_run. Qed.

(** C22: a closed breaker opens exactly when the consecutive failures reach the
    threshold: after [n] more of them it is still closed iff the sum is below. *)
Theorem cb_opens_at_threshold cb fs :
  state cb = CB_STATE_CLOSED -> consecutive_failures cb < failure_threshold (config cb) ->
  let cb' := (cb_run cb ((fun '(t1, t2, t3) => EvFailure t1 t2 t3) <$> fs)).2 in
  state cb' = (if consecutive_failures cb + Z.of_nat (length fs) <? failure_threshold (config cb)
               then CB_STATE_CLOSED else CB_STATE_OPEN).
Proof. apply closed_failures_run. Qed.

(** Recovery.  Once the cooldown has elapsed, a client whose probes succeed
    one after the other is never refused, and the breaker closes with the probe
    that reaches the success threshold (whatever positive probe limit is set). *)
Theorem cb_recovers cb t ts :
  cb_reachable cb -> state cb = CB_STATE_OPEN ->
  cooldown_ms (config cb) <= (t - opened_at cb) * 1000 ->
  0 < half_open_max_requests (config cb) ->
  (cb_run cb (probes (t :: ts))).1 = replicate (S (length ts)) 1 /\
  state (cb_run cb (probes (t :: ts))).2 =
    (if Z.of_nat (S (length ts)) <? success_threshold (config cb)
     then CB_STATE_HALF_OPEN else CB_STATE_CLOSED).
Proof.
  intros Hr Hs Hc Hm. pose proof (co_counted _ (cb_reachable_ok _ Hr)) as Hn.
  destruct (open_probe cb t Hs Hc) as (H1 & Hcfg & Hst); [apply Hn; by rewrite Hs|].
  rewrite probes_cons. cbv zeta. cbn [fst snd]. rewrite H1. cbn [replicate].
  set (cb' := cb_report_success _ _) in *.
  destruct (Z.leb_spec (success_threshold (config cb)) 1).
  - destruct (closed_probes ts cb' Hst) as [-> ->]. split; [done|]. case_match; zbool; [lia|done].
  - destruct Hst as (Hs' & Hr' & Hn'). destruct (half_open_probes ts cb' Hs') as [-> ->];
      rewrite ?Hcfg, ?Hr', ?Hn'; [lia|lia|]. split; [done|].
    by replace (1 + Z.of_nat (length ts)) with (Z.of_nat (S (length ts))) by lia.
Qed.

(** [cb_failure_window_count] is the number of failures, among the last
    256 recorded, whose time lies in the window. *)
Theorem cb_failure_window_count_correct hist window_sec now :
  chronological hist ->
  cb_failure_window_count (fw_of hist) window_sec now =
    Z.of_nat (count_if (fun t => now - window_sec <=? t) (take CB_WINDOW (reverse hist))).
Proof.
  intros Hs. unfold cb_failure_window_count. destruct (fw_of_spec hist) as (_ & -> & _).
  rewrite fw_scan_spec by done. rewrite drop_0. do 2 f_equal.
  destruct (Nat.le_gt_cases CB_WINDOW (length hist)).
  - by rewrite Nat.min_l.
  - rewrite Nat.min_r, !take_ge by (rewrite ?length_reverse; lia). done.
Qed.

(** ** Witnesses: a breaker with threshold 2, two probes to close, 1 s cooldown *)

Definition cb_small : circuit_breaker := cb_create (Some (mk_cb_config 2 2 100 1000 1 60)) None.
Definition cb_opened : circuit_breaker := (cb_run cb_small [EvFailure 10 10 10; EvFailure 11 11 11]).2.

Lemma cb_opened_reachable : cb_reachable cb_opened.
Proof.
  exists (Some (mk_cb_config 2 2 100 1000 1 60)), None. unfold cb_opened, cb_run. cbn [foldl cb_call snd].
  do 2 (eapply rtc_r; [|apply cbs_failure]). apply rtc_refl.
Qed.

Lemma cb_reachable_invariant_witness : cb_ok cb_opened /\ state cb_opened = CB_STATE_OPEN.
Proof. split; [apply (cb_reachable_invariant cb_opened), cb_opened_reachable|reflexivity]. Defined.

Lemma cb_open_isolates_witness : (cb_run cb_opened [EvAllow 11; EvSuccess 11; EvAllow 11]).1 = [0; 0].
Proof.
  apply (cb_open_isolates cb_opened [EvAllow 11; EvSuccess 11; EvAllow 11] eq_refl).
  repeat constructor; vm_compute; reflexivity.
Defined.

Lemma cb_opens_at_threshold_witness :
  state (cb_run cb_small [EvFailure 1 1 1]).2 = CB_STATE_CLOSED.
Proof. apply (cb_opens_at_threshold cb_small [(1, 1, 1)]); reflexivity. Defined.

Lemma cb_recovers_witness : state (cb_run cb_opened (probes [12; 13])).2 = CB_STATE_CLOSED.
Proof.
  apply (cb_recovers cb_opened 12 [13] cb_opened_reachable eq_refl); vm_compute; congruence.
Defined.

Lemma cb_failure_window_count_correct_witness : cb_failure_window_count (fw_of [3; 5; 9]) 4 9 = 2.
Proof.
  rewrite (cb_failure_window_count_correct [3; 5; 9] 4 9); [reflexivity|].
  intros i j x y Hi Hj Hij.
  do 3 (destruct i as [|i]; [do 3 (destruct j as [|j]; [simplify_eq/=; lia|]); done|]). done.
Defined.
