(* ===== verification/TaskRetry.v ===== *)
(** Model of [mini-job-system/src/task_retry.c]: retry bookkeeping with
    exponential backoff, jitter from a 32-bit linear congruential generator,
    retryable error codes and a bounded dead-letter list.

    The jitter is computed in doubles; every intermediate value is a multiple of
    2^-32 below 2^7, hence exact, and the conversion to [int] truncates: it is
    the integer quotient below.  [entries] is the live prefix of an array of
    [TR_DEAD_LETTER_MAX] cells; the model is faithful for capacities up to that
    size (the source does not check it). *)

From S2P Require Import Prelude.

Definition TR_MAX_RETRIES_DEFAULT : Z := 3.
Definition TR_BASE_DELAY_MS : Z := 100.
Definition TR_MAX_DELAY_MS : Z := 3600000.
Definition TR_MAX_JITTER_MS : Z := 50.
Definition TR_DEAD_LETTER_MAX : nat := 256.
#[global] Arguments TR_DEAD_LETTER_MAX : simpl never.

(** Error codes are compared as integers; [TR_ERR_NONE] is 0. *)
Definition TR_ERR_NONE : Z := 0.

Record tr_entry := mk_tr_entry {
  job_id : Z;
  task : Z;
  userdata : Z;
  max_retries : Z;
  retry_count : Z;
  base_delay_ms : Z;
  current_delay_ms : Z;
  retry_on_codes : list Z;
  retry_on_count : Z;
  next_retry_at : Z;
  dead_letter_cb : option Z;
  dead_letter_ud : Z;
  exhausted : bool;
}.

(** [memset(&entry, 0, sizeof entry)]. *)
Definition tr_entry_zero : tr_entry :=
  mk_tr_entry 0 0 0 0 0 0 0 (replicate 8 0) 0 0 None 0 false.
#[export] Instance tr_entry_inhabited : Inhabited tr_entry := populate tr_entry_zero.

Record tr_dead_letter := mk_dl {
  dl_job_id : Z;
  dl_error : Z;
  dl_exhausted_at : Z;
  dl_cb : option Z;
  dl_ud : Z;
}.

Record task_retry := mk_tr {
  entries : list tr_entry;
  capacity : Z;
  dead_letters : list tr_dead_letter;
  seed : Z;
}.

Definition task_retry_create (cap now : Z) : task_retry :=
  mk_tr [] (if cap <=? 0 then Z.of_nat TR_DEAD_LETTER_MAX else cap) [] (u32 now).

Definition tr_find (tr : task_retry) (id : Z) : option nat :=
  find_idx (fun e => job_id e =? id) (entries tr).

Definition register_entry (id f ud retries base : Z) (e : tr_entry) : tr_entry :=
  let b := if base =? 0 then TR_BASE_DELAY_MS else base in
  e <| job_id := id |> <| task := f |> <| userdata := ud |>
    <| max_retries := if 0 <=? retries then retries else TR_MAX_RETRIES_DEFAULT |>
    <| base_delay_ms := b |> <| current_delay_ms := b |>
    <| retry_count := 0 |> <| exhausted := false |> <| retry_on_count := 0 |>.

Definition tr_register (tr : task_retry) (id : Z) (cb : option Z) (ud retries base : Z)
    : Z * task_retry :=
  match cb with
  | None => (-1, tr)
  | Some f =>
      if capacity tr <=? Z.of_nat (length (entries tr)) then (-2, tr)
      else match tr_find tr id with
      | Some idx => (0, tr <| entries ::= alter (register_entry id f ud retries base) idx |>)
      | None => (0, tr <| entries ::= fun l => l ++ [register_entry id f ud retries base tr_entry_zero] |>)
      end
  end.

(** [codes] is the caller's array; the loop copies the first [retry_on_count]. *)
Definition set_codes (codes : list Z) (count : Z) (e : tr_entry) : tr_entry :=
  let c := if 8 <? count then 8 else count in
  e <| retry_on_count := c |>
    <| retry_on_codes ::= fun old => take (Z.to_nat c) codes ++ drop (Z.to_nat c) old |>.

Definition tr_set_retry_on (tr : task_retry) (id : Z) (codes : list Z) (count : Z) : Z * task_retry :=
  match tr_find tr id with
  | None => (-1, tr)
  | Some idx => (0, tr <| entries ::= alter (set_codes codes count) idx |>)
  end.

Definition tr_set_dead_letter (tr : task_retry) (id : Z) (cb : option Z) (ud : Z) : Z * task_retry :=
  match tr_find tr id with
  | None => (-1, tr)
  | Some idx =>
      (0, tr <| entries ::= alter (fun e => e <| dead_letter_cb := cb |> <| dead_letter_ud := ud |>) idx |>)
  end.

Definition should_retry_on (e : tr_entry) (err : Z) : bool :=
  if err =? TR_ERR_NONE then false
  else if retry_on_count e =? 0 then true
  else existsb (Z.eqb err) (take (Z.to_nat (retry_on_count e)) (retry_on_codes e)).

(** The doubling loop: [delay *= 2; if (delay > MAX) { delay = MAX; break; }]. *)
Fixpoint backoff (n : nat) (delay : Z) : Z :=
  match n with
  | O => delay
  | S n' =>
      let d := u64 (delay * 2) in
      if TR_MAX_DELAY_MS <? d then TR_MAX_DELAY_MS else backoff n' d
  end.

Definition next_seed (seed : Z) : Z := u32 (seed * 1664525 + 1013904223).

(** [(int)(seed / 2^32 * MAX_JITTER * 2 - MAX_JITTER)]. *)
Definition jitter (seed : Z) : Z :=
  Z.quot (seed * TR_MAX_JITTER_MS * 2 - TR_MAX_JITTER_MS * 2 ^ 32) (2 ^ 32).

(** The delay and the generator after it; [seed] is [None] for a null pointer. *)
Definition tr_calc_delay (retry_count base_ms : Z) (use_jitter : bool) (seed : option Z)
    : Z * option Z :=
  let delay := backoff (Z.to_nat retry_count) base_ms in
  match seed with
  | Some s =>
      if use_jitter then
        let s' := next_seed s in
        let d := u64 (s64 delay + jitter s') in
        let d := if d <? 1 then 1 else d in
        let d := if TR_MAX_DELAY_MS <? d then TR_MAX_DELAY_MS else d in
        (d, Some s')
      else (delay, seed)
  | None => (delay, seed)
  end.

Definition exhaust (e : tr_entry) : tr_entry := e <| exhausted := true |>.

(** [t1], [t2], [t3]: the clock readings of the branch taken, in order. *)
Definition tr_report_result (tr : task_retry) (id err t1 t2 t3 : Z) : Z * task_retry :=
  match tr_find tr id with
  | None => (-1, tr)
  | Some idx =>
      let e := entries tr !!! idx in
      if (err =? TR_ERR_NONE) || negb (should_retry_on e err)
      then (0, tr <| entries ::= alter exhaust idx |>)
      else if max_retries e <=? retry_count e then
        let tr' := tr <| entries ::= alter exhaust idx |> in
        (0, if (length (dead_letters tr') <? TR_DEAD_LETTER_MAX)%nat
            then tr' <| dead_letters ::= fun l => l ++ [mk_dl id err t1 (dead_letter_cb e) (dead_letter_ud e)] |>
            else tr')
      else
        let c := tr_calc_delay (retry_count e + 1) (base_delay_ms e) true (Some (seed tr)) in
        let at_ := t1 + c.1 / 1000 in
        (1, tr <| entries ::= alter (fun e => e <| retry_count ::= Z.succ |> <| current_delay_ms := c.1 |>
                                               <| next_retry_at := if at_ <=? t2 then t3 + 1 else at_ |>) idx |>
               <| seed := default (seed tr) c.2 |>)
  end.

Definition tr_can_retry (tr : task_retry) (id now : Z) : bool :=
  match tr_find tr id with
  | None => false
  | Some idx =>
      let e := entries tr !!! idx in
      if exhausted e then false else next_retry_at e <=? now
  end.

(** The task called with its argument, if any. *)
Definition tr_trigger_retry (tr : task_retry) (id now : Z) : Z * option (Z * Z) :=
  match tr_find tr id with
  | None => (0, None)
  | Some idx =>
      let e := entries tr !!! idx in
      if exhausted e then (0, None)
      else if now <? next_retry_at e then (0, None)
      else (1, Some (task e, userdata e))
  end.

Definition tr_get_retry_count (tr : task_retry) (id : Z) : Z :=
  match tr_find tr id with Some idx => retry_count (entries tr !!! idx) | None => -1 end.

Definition tr_is_exhausted (tr : task_retry) (id : Z) : bool :=
  match tr_find tr id with Some idx => exhausted (entries tr !!! idx) | None => false end.

(** The callbacks made, in order: (callback, job, error, data). *)
Definition tr_process_dead_letters (tr : task_retry) : list (Z * Z * Z * Z) * task_retry :=
  (omap (fun dl => (fun cb => (cb, dl_job_id dl, dl_error dl, dl_ud dl)) <$> dl_cb dl) (dead_letters tr),
   tr <| dead_letters := [] |>).

(** ** Backoff *)

Lemma backoff_exact n : forall d, 0 <= d <= TR_MAX_DELAY_MS ->
  backoff n d = Z.min (d * 2 ^ Z.of_nat n) TR_MAX_DELAY_MS.
Proof.
  induction n as [|n IH]; intros d Hd; cbn [backoff].
  - rewrite Z.pow_0_r. lia.
  - rewrite Nat2Z.inj_succ, Z.pow_succ_r by lia.
    assert (Hp : 1 <= 2 ^ Z.of_nat n) by (pose proof (Z.pow_pos_nonneg 2 (Z.of_nat n)); lia).
    rewrite u64_small by (unfold TR_MAX_DELAY_MS in *; lia). case_match; zbool.
    + rewrite Z.min_r; [done|]. nia.
    + rewrite IH by lia. f_equal. lia.
Qed.

Lemma jitter_range s : 0 <= s < 2 ^ 32 -> - TR_MAX_JITTER_MS <= jitter s <= TR_MAX_JITTER_MS.
Proof.
  intros Hs. unfold jitter, TR_MAX_JITTER_MS.
  pose proof (Z.quot_le_mono (-50 * 2 ^ 32) (s * 50 * 2 - 50 * 2 ^ 32) (2 ^ 32)) as Hl.
  pose proof (Z.quot_le_mono (s * 50 * 2 - 50 * 2 ^ 32) (50 * 2 ^ 32) (2 ^ 32)) as Hu.
  rewrite Z.quot_mul in Hl, Hu by done. lia.
Qed.

Lemma next_seed_range s : 0 <= next_seed s < 2 ^ 32.
Proof. apply u32_range. Qed.

(** The jittered delay, when the sum is positive and when it wraps. *)
Lemma jittered n base s :
  0 < base <= TR_MAX_DELAY_MS ->
  let d := Z.min (base * 2 ^ Z.of_nat (Z.to_nat n)) TR_MAX_DELAY_MS in
  let j := jitter (next_seed s) in
  tr_calc_delay n base true (Some s) =
    (if d + j <? 0 then TR_MAX_DELAY_MS else Z.max 1 (Z.min (d + j) TR_MAX_DELAY_MS),
     Some (next_seed s)).
Proof.
  intros Hb d j. unfold tr_calc_delay. rewrite backoff_exact by lia. fold d j. f_equal.
  assert (Hd : 0 < d <= TR_MAX_DELAY_MS).
  { unfold d. pose proof (Z.pow_pos_nonneg 2 (Z.of_nat (Z.to_nat n))). nia. }
  pose proof (jitter_range _ (next_seed_range s)) as Hj. fold j in Hj.
  unfold s64. rewrite Z.mod_small by (unfold TR_MAX_DELAY_MS in *; lia).
  replace (d + 2 ^ 63 - 2 ^ 63 + j) with (d + j) by lia. unfold u64.
  unfold TR_MAX_DELAY_MS, TR_MAX_JITTER_MS in *.
  destruct (Z.ltb_spec (d + j) 0).
  - rewrite <- (Z.mod_add _ 1), Z.mod_small by lia. repeat case_match; zbool; lia.
  - rewrite Z.mod_small by lia. repeat case_match; zbool; lia.
Qed.

(** ** A job's retries *)

Lemma tr_find_Some tr id idx : tr_find tr id = Some idx ->
  exists e, entries tr !! idx = Some e /\ entries tr !!! idx = e /\ job_id e = id.
Proof.
  intros (e & He & Hid & _)%find_idx_Some. zbool. exists e.
  split; [done|]. by rewrite (list_lookup_total_correct _ _ _ He).
Qed.

Lemma find_alter tr idx id f e :
  tr_find tr id = Some idx -> entries tr !! idx = Some e -> job_id (f e) = job_id e ->
  tr_find (tr <| entries ::= alter f idx |>) id = Some idx.
Proof.
  unfold tr_find. intros Hf He Hj. apply find_idx_Some in Hf as (x & Hx & Hid & Hmin).
  assert (x = e) as -> by congruence.
  apply find_idx_Some. exists (f e). cbn. rewrite list_lookup_alter_eq, He. split; [done|].
  split; [by rewrite Hj|]. intros k y Hk Hlt. rewrite list_lookup_alter_ne in Hk by lia.
  by eapply Hmin.
Qed.

(** One report, by what it does to the job's entry. *)
Definition report := (Z * Z * Z * Z)%type.
Definition tr_reports (tr : task_retry) (id : Z) (rs : list report) : list Z * task_retry :=
  foldl (fun s '(err, t1, t2, t3) =>
           let r := tr_report_result s.2 id err t1 t2 t3 in (s.1 ++ [r.1], r.2)) ([], tr) rs.

Record job_state (tr : task_retry) (id : Z) (idx : nat) (k m : Z) (dead : nat) : Prop := {
  js_find : tr_find tr id = Some idx;
  js_entry : exists e, entries tr !! idx = Some e /\ retry_count e = Z.min k m /\ max_retries e = m /\
    retry_on_count e = 0 /\ (exhausted e = (m <? k));
  js_dead : Z.of_nat (length (dead_letters tr)) =
    Z.min (Z.of_nat TR_DEAD_LETTER_MAX) (Z.of_nat dead + Z.max 0 (k - m));
}.

Lemma report_step tr id idx k m dead err t1 t2 t3 :
  job_state tr id idx k m dead -> 0 <= k -> 0 <= m -> err <> TR_ERR_NONE ->
  (tr_report_result tr id err t1 t2 t3).1 = (if k <? m then 1 else 0) /\
  job_state (tr_report_result tr id err t1 t2 t3).2 id idx (k + 1) m dead.
Proof.
  intros [Hf (e & He & Hrc & Hm & Hon & Hex) Hd] Hk Hm0 Herr.
  unfold tr_report_result. rewrite Hf, (list_lookup_total_correct _ _ _ He).
  unfold should_retry_on. rewrite Hon, (proj2 (Z.eqb_neq _ _) Herr), Hrc, Hm. cbn [orb negb Z.eqb].
  destruct (Z.leb_spec m (Z.min k m)) as [Hge|Hlt].
  - rewrite (proj2 (Z.ltb_ge k m)) by lia. cbn [fst snd]. split; [done|].
    pose proof (find_alter tr idx id exhaust e Hf He eq_refl) as Hf'.
    assert (Hent : exists e', alter exhaust idx (entries tr) !! idx = Some e' /\
      retry_count e' = Z.min (k + 1) m /\ max_retries e' = m /\ retry_on_count e' = 0 /\
      exhausted e' = (m <? k + 1)).
    { exists (exhaust e). rewrite list_lookup_alter_eq, He. cbn.
      split_and!; try done; [lia|]. symmetry. apply Z.ltb_lt. lia. }
    case_match; zbool; split; try done; unfold TR_DEAD_LETTER_MAX in *; cbn in *;
      rewrite ?length_app; cbn; lia.
  - rewrite (proj2 (Z.ltb_lt k m)) by lia. cbn [fst snd]. split; [done|].
    split; [by eapply find_alter| |cbn; lia].
    cbn [entries set]. eexists. cbn. rewrite list_lookup_alter_eq, He. cbn.
    split; [done|]. cbn. split_and!; try done; [lia|]. rewrite Hex.
    rewrite !(proj2 (Z.ltb_ge _ _)) by lia. done.
Qed.

Lemma reports_run tr id idx m dead rs : forall k ans,
  0 <= k -> 0 <= m -> Forall (fun r : report => r.1.1.1 <> TR_ERR_NONE) rs ->
  job_state tr id idx k m dead ->
  let s := foldl (fun s '(err, t1, t2, t3) =>
           let r := tr_report_result s.2 id err t1 t2 t3 in (s.1 ++ [r.1], r.2)) (ans, tr) rs in
  s.1 = ans ++ ((fun i => if k + Z.of_nat i <? m then 1 else 0) <$> seq 0 (length rs)) /\
  job_state s.2 id idx (k + Z.of_nat (length rs)) m dead.
Proof.
  revert tr. induction rs as [|[[[err t1] t2] t3] rs IH]; intros tr k ans Hk Hm Hall Hj; cbv zeta.
  - cbn. by rewrite Z.add_0_r, app_nil_r.
  - apply Forall_cons in Hall as [Herr Hall]. cbn [fst] in Herr.
    destruct (report_step tr id idx k m dead err t1 t2 t3 Hj Hk Hm Herr) as [Hans Hj'].
    cbn [foldl fst snd].
    destruct (IH (tr_report_result tr id err t1 t2 t3).2 (k + 1)
      (ans ++ [(tr_report_result tr id err t1 t2 t3).1])) as [Hs Hj'']; [lia|done..|].
    cbv zeta in Hs, Hj''. rewrite Hs. split.
    + rewrite Hans, <- app_assoc. f_equal. cbn [length seq fmap list_fmap app].
      f_equal; [by rewrite Z.add_0_r|]. rewrite <- fmap_S_seq, <- list_fmap_compose.
      apply list_fmap_ext. intros _ i _. cbn [compose]. by replace (k + Z.of_nat (S i)) with (k + 1 + Z.of_nat i) by lia.
    + by replace (k + Z.of_nat (length _)) with (k + 1 + Z.of_nat (length rs)) by (cbn [length]; lia).
Qed.

Lemma register_state tr id f ud m base tr' :
  tr_register tr id (Some f) ud m base = (0, tr') ->
  (length (dead_letters tr) <= TR_DEAD_LETTER_MAX)%nat ->
  exists idx, job_state tr' id idx 0 (if 0 <=? m then m else TR_MAX_RETRIES_DEFAULT)
    (length (dead_letters tr)).
Proof.
  intros Hr Hlen. unfold tr_register in Hr. destruct (capacity tr <=? _); [done|].
  destruct (tr_find tr id) as [idx|] eqn:Hf; simplify_eq.
  - destruct (tr_find_Some _ _ _ Hf) as (e & He & _ & Hid). exists idx. split.
    + by apply (find_alter tr idx id _ e).
    + eexists. cbn. rewrite list_lookup_alter_eq, He. cbn. split; [done|].
      cbn. split_and!; try done; case_match; zbool; unfold TR_MAX_RETRIES_DEFAULT; lia.
    + cbn. case_match; zbool; unfold TR_MAX_RETRIES_DEFAULT, TR_DEAD_LETTER_MAX in *; lia.
  - exists (length (entries tr)). split.
    + unfold tr_find in *. apply find_idx_Some. eexists. cbn.
      rewrite lookup_app_r, Nat.sub_diag by lia. split; [done|]. cbn. split; [by apply Z.eqb_refl|].
      intros j e Hj Hlt. rewrite lookup_app_l in Hj by done.
      apply (proj1 (find_idx_None _ _) Hf). by eapply list_elem_of_lookup_2.
    + eexists. cbn. rewrite lookup_app_r, Nat.sub_diag by lia. cbn. split; [done|].
      cbn. split_and!; try done; case_match; zbool; unfold TR_MAX_RETRIES_DEFAULT; lia.
    + cbn. case_match; zbool; unfold TR_MAX_RETRIES_DEFAULT, TR_DEAD_LETTER_MAX in *; lia.
Qed.

(** ** Properties *)

(** The backoff.  Without jitter the delay before retry [n] is exactly
    [base * 2^n] capped at the maximum.  With jitter it is always in
    [1, TR_MAX_DELAY_MS], and it differs from that value by at most
    [TR_MAX_JITTER_MS] whenever the value is at least [TR_MAX_JITTER_MS]. *)
Theorem tr_calc_delay_correct n base s :
  0 < base <= TR_MAX_DELAY_MS -> 0 <= n ->
  let d := Z.min (base * 2 ^ n) TR_MAX_DELAY_MS in
  let r := (tr_calc_delay n base true (Some s)).1 in
  (tr_calc_delay n base false (Some s)).1 = d /\ 1 <= r <= TR_MAX_DELAY_MS /\
  (TR_MAX_JITTER_MS <= d -> Z.abs (r - d) <= TR_MAX_JITTER_MS).
Proof.
  intros Hb Hn d r. unfold r. rewrite jittered, Z2Nat.id by done. fold d. cbn [fst].
  pose proof (jitter_range _ (next_seed_range s)) as Hj.
  split; [|unfold TR_MAX_DELAY_MS, TR_MAX_JITTER_MS in *; case_match; zbool; lia].
  unfold tr_calc_delay. cbn [fst]. by rewrite backoff_exact, Z2Nat.id by lia.
Qed.

(** For short delays the jitter can be larger than the delay.  The sum is
    then negative, becomes a huge unsigned number and is capped: the job waits
    [TR_MAX_DELAY_MS], one hour, instead of a few milliseconds. *)
Theorem tr_calc_delay_wraps n base s :
  0 < base <= TR_MAX_DELAY_MS -> 0 <= n ->
  Z.min (base * 2 ^ n) TR_MAX_DELAY_MS < - jitter (next_seed s) ->
  (tr_calc_delay n base true (Some s)).1 = TR_MAX_DELAY_MS.
Proof.
  intros Hb Hn Hneg. rewrite jittered, Z2Nat.id by done. cbn [fst].
  case_match; zbool; [done|lia].
Qed.

(** The retry budget.  After a job is registered with budget [m], a run of
    retryable failures is granted exactly the first [m] retries; the job is
    exhausted exactly when it fails again after that, and every such
    failure adds a dead letter while the list has room. *)
Theorem tr_retry_budget tr id f ud budget base tr' rs :
  tr_register tr id (Some f) ud budget base = (0, tr') ->
  (length (dead_letters tr) <= TR_DEAD_LETTER_MAX)%nat ->
  Forall (fun r : report => r.1.1.1 <> TR_ERR_NONE) rs ->
  let m := if 0 <=? budget then budget else TR_MAX_RETRIES_DEFAULT in
  let n := Z.of_nat (length rs) in
  let s := tr_reports tr' id rs in
  s.1 = ((fun i => if Z.of_nat i <? m then 1 else 0) <$> seq 0 (length rs)) /\
  tr_get_retry_count s.2 id = Z.min n m /\ tr_is_exhausted s.2 id = (m <? n) /\
  Z.of_nat (length (dead_letters s.2)) =
    Z.min (Z.of_nat TR_DEAD_LETTER_MAX) (Z.of_nat (length (dead_letters tr)) + Z.max 0 (n - m)).
Proof.
  intros Hr Hlen Hall m n s. destruct (register_state _ _ _ _ _ _ _ Hr Hlen) as [idx Hj]. fold m in Hj.
  assert (Hm : 0 <= m) by (unfold m; case_match; zbool; unfold TR_MAX_RETRIES_DEFAULT; lia).
  destruct (reports_run tr' id idx m _ rs 0 [] (Z.le_refl 0) Hm Hall Hj) as [Hans Hj'].
  change (foldl _ ([], tr') rs) with s in Hans, Hj'.
  destruct Hj' as [Hf (e & He & Hrc & _ & _ & Hex) Hd].
  unfold tr_get_retry_count, tr_is_exhausted. rewrite Hf, (list_lookup_total_correct _ _ _ He).
  by split_and!.
Qed.

(** ** Witnesses *)

Lemma tr_calc_delay_correct_witness :
  (tr_calc_delay 3 100 false (Some 7)).1 = 800 /\
  1 <= (tr_calc_delay 3 100 true (Some 7)).1 <= TR_MAX_DELAY_MS.
Proof. destruct (tr_calc_delay_correct 3 100 7) as (H1 & H2 & _); [done|done|by split]. Defined.

(** A 10 ms base: the first retry is due in 20 ms but waits an hour. *)
Lemma tr_calc_delay_wraps_witness : (tr_calc_delay 1 10 true (Some 7)).1 = 3600000.
Proof. apply (tr_calc_delay_wraps 1 10 7); vm_compute; [split; congruence|congruence|reflexivity]. Defined.

Definition tr_job : task_retry := (tr_register (task_retry_create 4 0) 5 (Some 1) 0 2 100).2.

Lemma tr_retry_budget_witness :
  (tr_reports tr_job 5 [(1, 9, 9, 9); (2, 9, 9, 9); (1, 9, 9, 9); (1, 9, 9, 9)]).1 = [1; 1; 0; 0] /\
  length (dead_letters (tr_reports tr_job 5 [(1, 9, 9, 9); (2, 9, 9, 9); (1, 9, 9, 9); (1, 9, 9, 9)]).2) = 2%nat.
Proof.
  destruct (tr_retry_budget (task_retry_create 4 0) 5 1 0 2 100 tr_job
    [(1, 9, 9, 9); (2, 9, 9, 9); (1, 9, 9, 9); (1, 9, 9, 9)]) as (H & _ & _ & Hd).
  - reflexivity.
  - vm_compute. lia.
  - repeat constructor; discriminate.
  - split; [exact H|]. apply Nat2Z.inj. rewrite Hd. reflexivity.
Defined.
