(* ===== verification/Ring.v ===== *)
(** Ring buffers: the circular queues of [priority_scheduler.c] and
    [worker_pool.c] are an array with a head, a tail and a count.  [ring_rep]
    relates such a ring to the list of its elements, oldest first. *)

From S2P Require Import Prelude.

Record ring (A : Type) := mk_ring {
  cells : list A;
  rhead : nat;
  rtail : nat;
  rcount : nat;
}.
#[global] Arguments mk_ring {A}.
#[global] Arguments cells {A}.
#[global] Arguments rhead {A}.
#[global] Arguments rtail {A}.
#[global] Arguments rcount {A}.

Section ring.
Context {A : Type} `{Inhabited A} (n : nat).

Definition ring_empty (x : A) : ring A := mk_ring (replicate n x) 0 0 0.

(** [a[tail] = x; tail = (tail + 1) % n; count++]. *)
Definition ring_push (x : A) (r : ring A) : ring A :=
  mk_ring (<[rtail r := x]> (cells r)) (rhead r) ((rtail r + 1) mod n) (S (rcount r)).

(** [x = a[head]; head = (head + 1) % n; count--]. *)
Definition ring_pop (r : ring A) : A * ring A :=
  (cells r !!! rhead r, mk_ring (cells r) ((rhead r + 1) mod n) (rtail r) (Nat.pred (rcount r))).

Record ring_rep (r : ring A) (q : list A) : Prop := {
  rr_cells : length (cells r) = n;
  rr_head : (rhead r < n)%nat;
  rr_count : rcount r = length q;
  rr_fits : (length q <= n)%nat;
  rr_tail : rtail r = ((rhead r + length q) mod n)%nat;
  rr_elems : forall i, (i < length q)%nat -> cells r !!! ((rhead r + i) mod n)%nat = q !!! i;
}.

Lemma ring_empty_rep x : (0 < n)%nat -> ring_rep (ring_empty x) [].
Proof.
  intros Hn. split; cbn; [apply length_replicate|lia|done|lia|by rewrite Nat.Div0.mod_0_l|lia].
Qed.

Lemma ring_push_rep x r q : ring_rep r q -> (length q < n)%nat -> ring_rep (ring_push x r) (q ++ [x]).
Proof.
  intros [Hc Hh Hn Hf Ht He] Hlt. split; cbn; rewrite ?length_app, ?length_insert; cbn; try lia.
  - rewrite Ht, Nat.Div0.add_mod_idemp_l. f_equal. lia.
  - intros i Hi. rewrite Ht. destruct (decide (i = length q)) as [->|Hne].
    + rewrite list_lookup_total_insert_eq by (rewrite Hc; apply Nat.mod_upper_bound; lia).
      by rewrite lookup_total_app_r, Nat.sub_diag.
    + rewrite list_lookup_total_insert_ne by (apply not_eq_sym, ring_distinct; lia).
      rewrite lookup_total_app_l by lia. apply He. lia.
Qed.

Lemma ring_pop_rep r x q : ring_rep r (x :: q) -> (ring_pop r).1 = x /\ ring_rep (ring_pop r).2 q.
Proof.
  intros [Hc Hh Hn Hf Ht He]. cbn [length] in *. split.
  - cbn. specialize (He 0%nat ltac:(lia)). rewrite Nat.add_0_r, Nat.mod_small in He by done. done.
  - split; cbn; try lia; [apply Nat.mod_upper_bound; lia| |].
    + rewrite Ht, Nat.Div0.add_mod_idemp_l. f_equal. lia.
    + intros i Hi. rewrite Nat.Div0.add_mod_idemp_l. rewrite <- Nat.add_assoc.
      rewrite (He (1 + i)%nat) by lia. done.
Qed.

Lemma ring_rep_nil r : ring_rep r [] -> rcount r = 0%nat.
Proof. by intros [_ _ ? _ _ _]. Qed.
End ring.
#[export] Hint Resolve ring_push_rep ring_pop_rep ring_rep_nil : csim.
