(* ===== verification/WorkerPool.v ===== *)
(** Model of [mini-job-system/src/worker_pool.c]: the task queue, the worker
    loop and the per-type concurrency limits, as a system of threads.

    Each worker thread has a program counter; one step is one critical section
    or one unlocked access of [worker_thread].  A wait of [q_pop] that ends
    without a task is the time-out outcome, so waiting longer is stuttering.
    [worker_pool_create] is modelled with all its threads created and none
    started.  [accepted], [started] and [finished] are histories: they are
    written and never read.  Thread creation, joining and the Windows variants
    of the locking calls are not modelled. *)

From S2P Require Import Prelude Ring.

Definition WP_MAX_WORKERS : Z := 64.
Definition WP_MAX_JOB_TYPES : nat := 32.
Definition WP_DEFAULT_QUEUE_SIZE : Z := 256.
#[global] Arguments WP_MAX_JOB_TYPES : simpl never.

Inductive wp_worker_state := WP_WORKER_ALIVE | WP_WORKER_IDLE | WP_WORKER_BUSY | WP_WORKER_EXIT.
#[export] Instance wp_worker_state_eq_dec : EqDecision wp_worker_state.
Proof. solve_decision. Defined.

Record wp_task := mk_task {
  t_job_id : Z;
  t_task : Z;
  t_userdata : Z;
  t_ack : option Z;
  t_ack_ud : Z;
  t_job_type : option string;
}.
#[export] Instance wp_task_inhabited : Inhabited wp_task := populate (mk_task 0 0 0 None 0 None).

Record wp_worker := mk_worker { w_state : wp_worker_state; w_heartbeat : Z; w_task : option wp_task }.

Record wp_limit := mk_limit { max_concurrent : Z; current : Z }.
#[export] Instance wp_limit_inhabited : Inhabited wp_limit := populate (mk_limit 0 0).

(** Where a worker thread is; [w] is its [worker_id], [ci] its limit index. *)
Inductive wp_pc :=
  | PcStart
  | PcClaim (w : nat)
  | PcLoop (w : nat)
  | PcPop (w : nat)
  | PcFind (w : nat) (t : wp_task)
  | PcGate (w : nat) (t : wp_task) (ci : nat)
  | PcRun (w : nat) (t : wp_task) (ci : option nat)
  | PcBusy (w : nat) (t : wp_task) (ci : option nat)
  | PcRelease (w : nat) (t : wp_task) (ci : option nat)
  | PcExit.

Record wp_pool := mk_pool {
  workers : list wp_worker;
  queue : ring wp_task;
  capacity : nat;
  running : bool;
  shutting_down : bool;
  concurrency : list wp_limit;
  job_type_names : list string;
  graceful_timeout_ms : Z;
  threads : list wp_pc;
  accepted : list wp_task;
  started : list wp_task;
  finished : list wp_task;
}.

Record wp_config := mk_wp_config { max_workers : Z; queue_size : Z; graceful_shutdown_timeout_ms : Z }.

Definition worker_pool_create (config : option wp_config) : wp_pool :=
  let mw := match config with Some c => if 0 <? max_workers c then max_workers c else 4 | None => 4 end in
  let mw := Z.to_nat (Z.min mw WP_MAX_WORKERS) in
  let qs := match config with Some c => if 0 <? queue_size c then queue_size c else WP_DEFAULT_QUEUE_SIZE
            | None => WP_DEFAULT_QUEUE_SIZE end in
  let gt := match config with Some c => if 0 <? graceful_shutdown_timeout_ms c
              then graceful_shutdown_timeout_ms c else 10000 | None => 10000 end in
  mk_pool (replicate mw (mk_worker WP_WORKER_ALIVE 0 None))
    (ring_empty (Z.to_nat qs) inhabitant) (Z.to_nat qs) true false [] [] gt
    (replicate mw PcStart) [] [] [].

(** ** The queue *)

Definition q_push (p : wp_pool) (t : wp_task) : Z * wp_pool :=
  if (capacity p <=? rcount (queue p))%nat then (-1, p)
  else (0, p <| queue ::= ring_push (capacity p) t |> <| accepted ::= fun l => l ++ [t] |>).

Definition q_pop (p : wp_pool) : option wp_task * wp_pool :=
  if (rcount (queue p) =? 0)%nat then (None, p)
  else let '(t, r) := ring_pop (capacity p) (queue p) in
       (Some t, p <| queue := r |> <| started ::= fun l => l ++ [t] |>).

Definition wp_submit (p : wp_pool) (job_id : Z) (task : option Z) (ud : Z) (ack : option Z)
    (ack_ud : Z) (job_type : option string) : Z * wp_pool :=
  match task with
  | None => (-1, p)
  | Some f => q_push p (mk_task job_id f ud ack ack_ud job_type)
  end.

(** [if (q_push(...) == 0) ok++;] *)
Definition batch_push (acc : Z * wp_pool) (t : wp_task) : Z * wp_pool :=
  let r := q_push acc.2 t in (if r.1 =? 0 then acc.1 + 1 else acc.1, r.2).

Definition wp_submit_batch (p : wp_pool) (tasks : list wp_task) (count : Z) : Z * wp_pool :=
  foldl batch_push (0, p) (take (Z.to_nat count) tasks).

(** ** Concurrency limits *)

Definition find_concurrency_index (p : wp_pool) (job_type : option string) : option nat * wp_pool :=
  match job_type with
  | None => (None, p)
  | Some ty =>
      match find_idx (fun n => String.eqb n ty) (job_type_names p) with
      | Some i => (Some i, p)
      | None =>
          if (length (job_type_names p) <? WP_MAX_JOB_TYPES)%nat
          then (Some (length (job_type_names p)),
                p <| job_type_names ::= fun l => l ++ [str_take 31 ty] |>
                  <| concurrency ::= fun l => l ++ [mk_limit 0 0] |>)
          else (None, p)
      end
  end.

Definition wp_set_concurrency_limit (p : wp_pool) (job_type : option string) (m : Z) : Z * wp_pool :=
  match find_concurrency_index p job_type with
  | (None, p') => (-1, p')
  | (Some ci, p') => (0, p' <| concurrency ::= alter (fun c => c <| max_concurrent := m |>) ci |>)
  end.

(** [max_concurrent == 0 || current < max_concurrent]. *)
Definition may_enter (c : wp_limit) : bool :=
  (max_concurrent c =? 0) || (current c <? max_concurrent c).

(** ** One step of the worker thread [k] *)

Definition set_worker (w : nat) (f : wp_worker -> wp_worker) (p : wp_pool) : wp_pool :=
  p <| workers ::= alter f w |>.
Definition goto (k : nat) (pc : wp_pc) (p : wp_pool) : wp_pool := p <| threads ::= <[k := pc]> |>.

Definition worker_step (k : nat) (now : Z) (p : wp_pool) : wp_pool :=
  match threads p !! k with
  | None | Some PcExit => p
  | Some PcStart =>
      match find_idx (fun w => bool_decide (w_state w = WP_WORKER_ALIVE)) (workers p) with
      | Some w => goto k (PcClaim w) p
      | None => p
      end
  | Some (PcClaim w) => goto k (PcLoop w) (set_worker w (fun x => x <| w_state := WP_WORKER_IDLE |>) p)
  | Some (PcLoop w) =>
      if running p && negb (shutting_down p)
      then goto k (PcPop w) (set_worker w (fun x => x <| w_state := WP_WORKER_IDLE |> <| w_heartbeat := now |>) p)
      else goto k PcExit (set_worker w (fun x => x <| w_state := WP_WORKER_EXIT |>) p)
  | Some (PcPop w) =>
      match q_pop p with
      | (None, p') => goto k (PcLoop w) p'
      | (Some t, p') => goto k (PcFind w t) p'
      end
  | Some (PcFind w t) =>
      match find_concurrency_index p (t_job_type t) with
      | (Some ci, p') => goto k (PcGate w t ci) p'
      | (None, p') => goto k (PcRun w t None) p'
      end
  | Some (PcGate w t ci) =>
      if may_enter (concurrency p !!! ci)
      then goto k (PcRun w t (Some ci)) (p <| concurrency ::= alter (fun c => c <| current ::= Z.succ |>) ci |>)
      else p
  | Some (PcRun w t ci) =>
      goto k (PcBusy w t ci) (set_worker w (fun _ => mk_worker WP_WORKER_BUSY now (Some t)) p)
  | Some (PcBusy w t ci) =>
      goto k (PcRelease w t ci) (p <| finished ::= fun l => l ++ [t] |>)
  | Some (PcRelease w t ci) =>
      goto k (PcLoop w)
        (match ci with
         | Some ci => p <| concurrency ::= alter (fun c => c <| current ::= Z.pred |>) ci |>
         | None => p
         end)
  end.

Definition wp_shutdown (p : wp_pool) : wp_pool := p <| running := false |> <| shutting_down := true |>.

(** [wp_shutdown_graceful] sets the flag, waits, then clears [running]. *)
Definition wp_graceful_begin (p : wp_pool) : wp_pool := p <| shutting_down := true |>.
Definition wp_graceful_end (p : wp_pool) : wp_pool := p <| running := false |>.

Definition wp_busy_workers (p : wp_pool) : Z :=
  Z.of_nat (count_if (fun w => bool_decide (w_state w = WP_WORKER_BUSY)) (workers p)).
Definition wp_pending_tasks (p : wp_pool) : Z := Z.of_nat (rcount (queue p)).
Definition wp_is_running (p : wp_pool) : bool := running p.

(** ** Runs *)

(** A limit is set when the tasks of the type that are running respect it. *)
Inductive wp_step (p : wp_pool) : wp_pool -> Prop :=
  | wps_thread k now : wp_step p (worker_step k now p)
  | wps_submit id task ud ack ack_ud ty : wp_step p (wp_submit p id task ud ack ack_ud ty).2
  | wps_submit_batch ts count : wp_step p (wp_submit_batch p ts count).2
  | wps_limit ty m :
      (forall ci p', find_concurrency_index p ty = (Some ci, p') ->
        m = 0 \/ current (concurrency p' !!! ci) <= m) -> 0 <= m ->
      wp_step p (wp_set_concurrency_limit p ty m).2
  | wps_shutdown : wp_step p (wp_shutdown p)
  | wps_graceful_begin : wp_step p (wp_graceful_begin p)
  | wps_graceful_end : wp_step p (wp_graceful_end p).

Definition wp_reachable (p : wp_pool) : Prop := exists c, rtc wp_step (worker_pool_create c) p.

(** The task a thread holds between the queue and the acknowledgement. *)
Definition holds (pc : wp_pc) : option wp_task :=
  match pc with
  | PcFind _ t | PcGate _ t _ | PcRun _ t _ | PcBusy _ t _ => Some t
  | _ => None
  end.
Definition held (p : wp_pool) : list wp_task := omap holds (threads p).

(** The limit slot a thread occupies. *)
Definition occupies (ci : nat) (pc : wp_pc) : bool :=
  match pc with
  | PcRun _ _ (Some c) | PcBusy _ _ (Some c) | PcRelease _ _ (Some c) => (c =? ci)%nat
  | _ => false
  end.
Definition in_use (p : wp_pool) (ci : nat) : Z := Z.of_nat (count_if (occupies ci) (threads p)).

Definition ci_of (pc : wp_pc) : option nat :=
  match pc with
  | PcGate _ _ c => Some c
  | PcRun _ _ ci | PcBusy _ _ ci | PcRelease _ _ ci => ci
  | _ => None
  end.

Record wp_inv (p : wp_pool) (q : list wp_task) : Prop := {
  wi_queue : ring_rep (capacity p) (queue p) q;
  wi_fifo : accepted p = started p ++ q;
  wi_once : started p ≡ₚ finished p ++ held p;
  wi_current : forall ci, (ci < length (concurrency p))%nat -> current (concurrency p !!! ci) = in_use p ci;
  wi_limit : forall ci, (ci < length (concurrency p))%nat ->
    0 <= max_concurrent (concurrency p !!! ci) /\
    (max_concurrent (concurrency p !!! ci) = 0 \/
     current (concurrency p !!! ci) <= max_concurrent (concurrency p !!! ci));
  wi_names : length (job_type_names p) = length (concurrency p);
  wi_ci : forall k pc ci, threads p !! k = Some pc -> ci_of pc = Some ci -> (ci < length (concurrency p))%nat;
}.

(** ** One thread moving *)

Lemma omap_insert {A B} (f : A -> option B) l k x y :
  l !! k = Some x ->
  omap f (<[k := y]> l) ++ option_list (f x) ≡ₚ omap f l ++ option_list (f y).
Proof.
  revert k. induction l as [|z l IH]; intros [|k] Hk; simplify_eq/=.
  - destruct (f x), (f y); cbn; rewrite ?app_nil_r; try done.
    + change (b0 :: ?l) with ([b0] ++ l). by rewrite Permutation_app_comm, (Permutation_app_comm _ [b0]); solve_Permutation.
    + by rewrite Permutation_app_comm.
    + by rewrite (Permutation_app_comm _ [b]).
  - destruct (f z); cbn; [by rewrite IH|by apply IH].
Qed.

(** Thread [k] goes from [pc] to [pc']; the rest of the state may change too. *)
Lemma move_inv p p' q q' k pc pc' :
  wp_inv p q -> threads p !! k = Some pc -> threads p' = <[k := pc']> (threads p) ->
  ring_rep (capacity p') (queue p') q' -> accepted p' = started p' ++ q' ->
  started p' ++ option_list (holds pc) ++ finished p ≡ₚ
    started p ++ finished p' ++ option_list (holds pc') ->
  length (concurrency p') = length (concurrency p) -> job_type_names p' = job_type_names p ->
  (forall ci, (ci < length (concurrency p))%nat ->
    max_concurrent (concurrency p' !!! ci) = max_concurrent (concurrency p !!! ci) /\
    current (concurrency p' !!! ci) + b2z (occupies ci pc) =
      current (concurrency p !!! ci) + b2z (occupies ci pc') /\
    (current (concurrency p !!! ci) < current (concurrency p' !!! ci) ->
      may_enter (concurrency p !!! ci))) ->
  (forall ci, ci_of pc' = Some ci -> (ci < length (concurrency p))%nat) ->
  wp_inv p' q'.
Proof.
  intros [Hq Hf Ho Hc Hl Hn Hci] Hk Ht Hq' Hf' Hh Hlen Hnames Hcur Hci'. split; try done.
  - pose proof (omap_insert holds (threads p) k pc pc' Hk) as Hheld. rewrite <- Ht in Hheld.
    unfold held in *. rewrite Ho in Hh.
    apply (Permutation_app_inv_r (option_list (holds pc) ++ finished p)).
    rewrite Hh, <- (app_assoc (finished p')), (app_assoc (omap holds (threads p'))), Hheld.
    solve_Permutation.
  - intros ci Hlt. rewrite Hlen in Hlt. destruct (Hcur ci Hlt) as (_ & Hcc & _).
    pose proof (count_if_insert (occupies ci) (threads p) k pc pc' Hk) as Hcount.
    specialize (Hc ci Hlt). unfold in_use in *. rewrite Ht. lia.
  - intros ci Hlt. rewrite Hlen in Hlt. destruct (Hcur ci Hlt) as (-> & Hcc & Henter).
    destruct (Hl ci Hlt) as [Hm Hb]. split; [done|].
    destruct (Z.ltb_spec (current (concurrency p !!! ci)) (current (concurrency p' !!! ci))) as [Hlt'|]; [|lia].
    specialize (Henter Hlt'). unfold may_enter in Henter. apply Is_true_true in Henter.
    apply orb_true_iff in Henter as [?|?]; zbool; [by left|right].
    destruct (occupies ci pc), (occupies ci pc'); cbn in Hcc; lia.
  - by rewrite Hnames, Hlen.
  - intros j pcj ci Hj Hcj. rewrite Ht in Hj. rewrite Hlen.
    apply list_lookup_insert_Some in Hj as [(_ & <- & _)|[_ Hj]]; [by apply Hci'|by eapply Hci].
Qed.

Lemma find_index_inv p q ty r p' :
  wp_inv p q -> find_concurrency_index p ty = (r, p') ->
  wp_inv p' q /\ threads p' = threads p /\ accepted p' = accepted p /\
  (forall ci, r = Some ci -> (ci < length (concurrency p'))%nat).
Proof.
  intros Hinv. unfold find_concurrency_index. destruct ty as [ty|]; [|by intros [= <- <-]].
  destruct (find_idx _ _) as [i|] eqn:Hf.
  - intros [= <- <-]. split_and!; try done. intros ci [= <-].
    apply find_idx_Some in Hf as (x & Hx & _). rewrite <- (wi_names _ _ Hinv). by eapply lookup_lt_Some.
  - case_match; intros [= <- <-]; [|done]. destruct Hinv as [Hq Hfi Ho Hc Hl Hn Hci].
    assert (Hlt : forall ci, (ci < length (concurrency p ++ [mk_limit 0 0]))%nat ->
      (ci < length (concurrency p))%nat \/ ci = length (concurrency p))
      by (intros ci; rewrite length_app; cbn; lia).
    assert (Hnew : (concurrency p ++ [mk_limit 0 0]) !!! length (concurrency p) = mk_limit 0 0)
      by by rewrite lookup_total_app_r, Nat.sub_diag.
    assert (Hfree : in_use p (length (concurrency p)) = 0).
    { unfold in_use, count_if. rewrite filter_all_false; [done|]. intros pc [j Hj]%list_elem_of_lookup.
      destruct (occupies _ pc) eqn:Hoc; [|done]. exfalso.
      enough (length (concurrency p) < length (concurrency p))%nat by lia.
      eapply (Hci j pc); [done|]. unfold occupies in Hoc. repeat case_match; try done; zbool; by subst. }
    split_and!; try done; [|by intros ci [= <-]; cbn; rewrite length_app, Hn; cbn; lia].
    split; cbn; try done.
    + intros ci Hi. apply Hlt in Hi as [Hi|Hi].
      * rewrite lookup_total_app_l by done. by apply Hc.
      * subst ci. rewrite Hnew. by symmetry.
    + intros ci Hi. apply Hlt in Hi as [Hi|Hi].
      * rewrite lookup_total_app_l by done. by apply Hl.
      * subst ci. rewrite Hnew. cbn. lia.
    + rewrite !length_app. cbn. lia.
    + intros k pc ci Hk Hpc. rewrite length_app. specialize (Hci k pc ci Hk Hpc). lia.
Qed.

(** Moves that leave the limits alone. *)
Lemma move_same p p' q q' k pc pc' :
  wp_inv p q -> threads p !! k = Some pc -> threads p' = <[k := pc']> (threads p) ->
  ring_rep (capacity p') (queue p') q' -> accepted p' = started p' ++ q' ->
  started p' ++ option_list (holds pc) ++ finished p ≡ₚ
    started p ++ finished p' ++ option_list (holds pc') ->
  concurrency p' = concurrency p -> job_type_names p' = job_type_names p ->
  (forall ci, occupies ci pc = occupies ci pc') ->
  (forall ci, ci_of pc' = Some ci -> (ci < length (concurrency p))%nat) ->
  wp_inv p' q'.
Proof.
  intros Hinv Hk Ht Hq Hf Hh Hc Hn Ho Hci. eapply move_inv; [exact Hinv|exact Hk|try done..].
  - by rewrite Hc.
  - intros ci _. rewrite Hc, Ho. split_and!; [done|lia|lia].
Qed.

Lemma enter_alter l ci g c :
  (c < length l)%nat -> (forall x, max_concurrent (g x) = max_concurrent x) ->
  let l' := alter g ci l in
  max_concurrent (l' !!! c) = max_concurrent (l !!! c) /\
  current (l' !!! c) = (if (ci =? c)%nat then current (g (l !!! c)) else current (l !!! c)).
Proof.
  intros Hc Hg l'. unfold l'. rewrite !list_lookup_total_alt.
  destruct (lookup_lt_is_Some_2 l c Hc) as [x Hx]. destruct (Nat.eqb_spec ci c) as [->|Hne].
  - rewrite list_lookup_alter_eq, Hx. cbn. split; [apply Hg|done].
  - by rewrite list_lookup_alter_ne.
Qed.

Lemma gate_inv p q k w t ci :
  wp_inv p q -> threads p !! k = Some (PcGate w t ci) -> may_enter (concurrency p !!! ci) = true ->
  wp_inv (goto k (PcRun w t (Some ci)) (p <| concurrency ::= alter (fun c => c <| current ::= Z.succ |>) ci |>)) q.
Proof.
  intros Hinv Hk Hm. pose proof (wi_ci _ _ Hinv k _ ci Hk eq_refl) as Hci.
  eapply move_inv; [exact Hinv|exact Hk|done|apply Hinv|apply Hinv| | |done| |].
  - cbn. solve_Permutation.
  - cbn. apply length_alter.
  - intros c Hc. cbn [concurrency goto set].
    destruct (enter_alter (concurrency p) ci (fun c => c <| current ::= Z.succ |>) c Hc) as [H1 H2]; [done|].
    cbn. rewrite H1, H2. cbn. destruct (Nat.eqb_spec ci c) as [->|]; cbn; split_and!; try done; try lia.
    by rewrite Hm.
  - cbn. by intros c [= <-].
Qed.

Lemma release_inv p q k w t ci :
  wp_inv p q -> threads p !! k = Some (PcRelease w t ci) ->
  wp_inv (goto k (PcLoop w)
    (match ci with
     | Some ci => p <| concurrency ::= alter (fun c => c <| current ::= Z.pred |>) ci |>
     | None => p
     end)) q.
Proof.
  intros Hinv Hk. destruct ci as [ci|].
  - eapply move_inv; [exact Hinv|exact Hk|done|apply Hinv|apply Hinv| | |done| |done].
    + cbn. solve_Permutation.
    + cbn. apply length_alter.
    + intros c Hc. cbn [concurrency goto set].
      destruct (enter_alter (concurrency p) ci (fun c => c <| current ::= Z.pred |>) c Hc) as [H1 H2]; [done|].
      cbn. rewrite H1, H2. cbn. destruct (Nat.eqb_spec ci c) as [->|]; cbn; split_and!; try done; lia.
  - eapply move_same; [exact Hinv|exact Hk|done|apply Hinv|apply Hinv| |done..]. cbn. solve_Permutation.
Qed.

Lemma wp_pop_inv p q k w :
  wp_inv p q -> threads p !! k = Some (PcPop w) -> exists q', wp_inv (worker_step k 0 p) q'.
Proof.
  intros Hinv Hk. unfold worker_step. rewrite Hk. unfold q_pop. pose proof (wi_queue _ _ Hinv) as Hq.
  rewrite (rr_count _ _ _ Hq). destruct q as [|t q]; cbn [length Nat.eqb].
  - exists []. eapply move_same; [exact Hinv|exact Hk|done|apply Hinv|apply Hinv| |done..].
    cbn. solve_Permutation.
  - destruct (ring_pop_rep _ _ _ _ Hq) as [Ht Hq']. destruct (ring_pop _ _) as [t' r]. cbn in Ht, Hq'. subst t'.
    exists q. eapply move_same; [exact Hinv|exact Hk|done|exact Hq'| | |done..]; cbn.
    + rewrite (wi_fifo _ _ Hinv). by rewrite <- app_assoc.
    + solve_Permutation.
Qed.

Lemma step_now k now p : (forall w, threads p !! k <> Some (PcLoop w)) ->
  (forall w t ci, threads p !! k <> Some (PcRun w t ci)) -> worker_step k now p = worker_step k 0 p.
Proof. intros H H'. unfold worker_step. repeat case_match; naive_solver. Qed.

Lemma worker_step_inv p q k now : wp_inv p q -> exists q', wp_inv (worker_step k now p) q'.
Proof.
  intros Hinv. destruct (threads p !! k) as [pc|] eqn:Hk.
  2: { exists q. unfold worker_step. by rewrite Hk. }
  destruct pc as [|w|w|w|w t|w t ci|w t ci|w t ci|w t ci|].
  4: { rewrite step_now by (intros; by rewrite Hk). by eapply wp_pop_inv. }
  all: exists q; unfold worker_step; rewrite Hk.
  - case_match; [|done]. eapply move_same; [exact Hinv|exact Hk|done|apply Hinv|apply Hinv| |done..].
    cbn. solve_Permutation.
  - eapply move_same; [exact Hinv|exact Hk|done|apply Hinv|apply Hinv| |done..]. cbn. solve_Permutation.
  - case_match; (eapply move_same; [exact Hinv|exact Hk|done|apply Hinv|apply Hinv| |done..]; cbn; solve_Permutation).
  - destruct (find_concurrency_index p (t_job_type t)) as [[ci|] p'] eqn:Hf;
      destruct (find_index_inv _ _ _ _ _ Hinv Hf) as (Hinv' & Ht & _ & Hci); rewrite <- Ht in Hk;
      (eapply move_same; [exact Hinv'|exact Hk|done|apply Hinv'|apply Hinv'| |done|done|done|]; cbn; [solve_Permutation|]);
      [intros c [= <-]; by apply Hci|done].
  - case_match; [|done]. by eapply gate_inv.
  - eapply move_same; [exact Hinv|exact Hk|done|apply Hinv|apply Hinv| |done|done|done|]; cbn; [solve_Permutation|].
    intros c ->. by eapply (wi_ci _ _ Hinv).
  - eapply move_same; [exact Hinv|exact Hk|done|apply Hinv|apply Hinv| |done|done|done|]; cbn; [solve_Permutation|].
    intros c ->. by eapply (wi_ci _ _ Hinv).
  - by eapply release_inv.
  - done.
Qed.

(** ** Client calls *)

Lemma q_push_inv p q t : wp_inv p q -> exists q', wp_inv (q_push p t).2 q'.
Proof.
  intros [Hq Hf Ho Hc Hl Hn Hci]. unfold q_push. destruct (Nat.leb_spec (capacity p) (rcount (queue p))) as [|Hlt].
  { by exists q. }
  exists (q ++ [t]). split; try done; cbn.
  - apply ring_push_rep; [done|]. by rewrite <- (rr_count _ _ _ Hq).
  - by rewrite Hf, <- app_assoc.
Qed.

Lemma submit_batch_inv p q ts count : wp_inv p q -> exists q', wp_inv (wp_submit_batch p ts count).2 q'.
Proof.
  unfold wp_submit_batch. generalize (take (Z.to_nat count) ts) as l. intros l Hinv.
  change p with ((0, p).2) in Hinv. revert Hinv. generalize (0, p) as acc. revert q.
  induction l as [|t l IH]; intros q acc Hinv; [by exists q|]. cbn [foldl].
  destruct (q_push_inv acc.2 q t Hinv) as [q' Hinv']. by eapply IH.
Qed.

Lemma set_limit_inv p q ty m :
  wp_inv p q ->
  (forall ci p', find_concurrency_index p ty = (Some ci, p') ->
    m = 0 \/ current (concurrency p' !!! ci) <= m) -> 0 <= m ->
  wp_inv (wp_set_concurrency_limit p ty m).2 q.
Proof.
  intros Hinv Hok Hm. unfold wp_set_concurrency_limit.
  destruct (find_concurrency_index p ty) as [[ci|] p'] eqn:Hf;
    destruct (find_index_inv _ _ _ _ _ Hinv Hf) as (Hinv' & _ & _ & _); cbn [snd]; [|done].
  specialize (Hok ci p' eq_refl). destruct Hinv' as [Hq Hfi Ho Hc Hl Hn Hci].
  assert (Hat : forall c, (c < length (concurrency p'))%nat ->
    alter (fun c => c <| max_concurrent := m |>) ci (concurrency p') !!! c =
      if (ci =? c)%nat then (concurrency p' !!! c) <| max_concurrent := m |> else concurrency p' !!! c).
  { intros c Hlt. rewrite !list_lookup_total_alt.
    destruct (lookup_lt_is_Some_2 (concurrency p') c Hlt) as [x Hx].
    destruct (Nat.eqb_spec ci c) as [->|Hne]; [by rewrite list_lookup_alter_eq, Hx|].
    by rewrite list_lookup_alter_ne. }
  split; try done; cbn; rewrite ?length_alter; try done.
  - intros c Hlt. rewrite Hat by done. specialize (Hc c Hlt). by destruct (Nat.eqb_spec ci c).
  - intros c Hlt. rewrite Hat by done. specialize (Hl c Hlt). destruct (Nat.eqb_spec ci c) as [->|]; cbn; [|done].
    by split.
Qed.

Lemma wp_step_inv p q p' : wp_inv p q -> wp_step p p' -> exists q', wp_inv p' q'.
Proof.
  intros Hinv [k now|id f ud ack aud ty|ts count|ty m Hok Hm| | |].
  - by eapply worker_step_inv.
  - unfold wp_submit. destruct f as [f|]; [by eapply q_push_inv|by exists q].
  - by eapply submit_batch_inv.
  - exists q. by apply set_limit_inv.
  - exists q. by destruct Hinv.
  - exists q. by destruct Hinv.
  - exists q. by destruct Hinv.
Qed.

Lemma wp_create_inv c : wp_inv (worker_pool_create c) [].
Proof.
  unfold worker_pool_create. split; cbn; try done; try lia.
  - apply ring_empty_rep. destruct c as [c|]; [|unfold WP_DEFAULT_QUEUE_SIZE; lia].
    destruct (Z.ltb_spec 0 (queue_size c)); unfold WP_DEFAULT_QUEUE_SIZE; lia.
  - unfold held. cbn. set (n := Z.to_nat _). clearbody n. induction n as [|n IH]; [done|exact IH].
  - intros k pc ci [-> _]%lookup_replicate. done.
Qed.

Lemma wp_reachable_inv p : wp_reachable p -> exists q, wp_inv p q.
Proof.
  intros (c & Hr). revert p Hr. apply (rtc_ind_r (fun p => exists q, wp_inv p q)).
  - exists []. apply wp_create_inv.
  - intros p p' _ Hstep [q Hinv]. by eapply wp_step_inv.
Qed.

(** ** Properties *)

(** C18: no task is lost, duplicated or reordered.  In every interleaving of
    submissions, workers, limit changes and shutdowns, the tasks started so far
    followed by the queue are exactly the accepted tasks in submission order,
    and every started task is held by one worker or finished, once. *)
Theorem wp_tasks_exactly_once p :
  wp_reachable p ->
  exists q, ring_rep (capacity p) (queue p) q /\ accepted p = started p ++ q /\
    started p ≡ₚ finished p ++ held p.
Proof. intros [q Hinv]%wp_reachable_inv. exists q. by destruct Hinv. Qed.

(** The concurrency limits hold in every interleaving.  The counter of a job
    type is the number of workers inside a task of that type, and it never
    exceeds a positive limit (as long as a limit is not set below the
    number of tasks already running). *)
Theorem wp_concurrency_limit p ci :
  wp_reachable p -> (ci < length (concurrency p))%nat ->
  current (concurrency p !!! ci) = in_use p ci /\
  (max_concurrent (concurrency p !!! ci) <> 0 -> in_use p ci <= max_concurrent (concurrency p !!! ci)).
Proof.
  intros [q Hinv]%wp_reachable_inv Hci. pose proof (wi_current _ _ Hinv ci Hci) as Hc.
  pose proof (wi_limit _ _ Hinv ci Hci) as [_ Hl]. split; [done|]. lia.
Qed.

(** A job type of 32 characters or more has no limit.  Its stored name is
    cut to 31 characters and is never found again, so the limit is recorded in
    one slot and the next lookup, a worker's, opens another one without limit. *)
Theorem wp_long_type_unlimited p ty m :
  (31 < String.length ty)%nat -> (length (job_type_names p) + 2 <= WP_MAX_JOB_TYPES)%nat ->
  length (job_type_names p) = length (concurrency p) ->
  Forall (fun n => (String.length n <= 31)%nat) (job_type_names p) ->
  exists p1 p2 ci,
    wp_set_concurrency_limit p (Some ty) m = (0, p1) /\
    find_concurrency_index p1 (Some ty) = (Some ci, p2) /\
    max_concurrent (concurrency p2 !!! ci) = 0.
Proof.
  intros Hty Hroom Hlen Hshort.
  assert (Hnone : forall l, Forall (fun n => (String.length n <= 31)%nat) l ->
    find_idx (fun n => String.eqb n ty) l = None).
  { intros l Hl. apply find_idx_None. intros n Hn. apply String.eqb_neq. intros ->.
    pose proof (proj1 (Forall_forall _ _) Hl ty Hn). cbn in *. lia. }
  unfold wp_set_concurrency_limit, find_concurrency_index. rewrite (Hnone _ Hshort).
  rewrite (proj2 (Nat.ltb_lt _ _)) by lia. do 3 eexists. split; [done|]. cbn -[Nat.ltb].
  rewrite Hnone by (apply Forall_app; split; [done|]; constructor; [apply str_take_length|constructor]).
  rewrite (proj2 (Nat.ltb_lt _ _)) by (rewrite length_app; cbn; lia).
  split; [done|]. cbn. rewrite length_app, Hlen. cbn.
  rewrite lookup_total_app_r by (rewrite length_alter, length_app; cbn; lia).
  by rewrite length_alter, length_app, Nat.sub_diag.
Qed.

(** Steps of the threads in the order given. *)
Definition run_threads (p : wp_pool) (ks : list nat) : wp_pool :=
  foldl (fun p k => worker_step k 0 p) p ks.

(** Worker ids are claimed without a lock.  Two threads that start together
    can take the same slot; then two tasks run while [wp_busy_workers] reports
    one, and it reports none as soon as the first of them is back at its loop:
    a graceful shutdown stops waiting with a task still running. *)
Theorem wp_worker_id_race :
  let p0 := worker_pool_create (Some (mk_wp_config 2 4 0)) in
  let p1 := (wp_submit (wp_submit p0 1 (Some 7) 0 None 0 None).2 2 (Some 7) 0 None 0 None).2 in
  let p2 := run_threads p1 [0; 1; 0; 1; 0; 0; 0; 0; 1; 1; 1; 1]%nat in
  let p3 := run_threads p2 [0; 0; 0]%nat in
  wp_busy_workers p2 = 1 /\ t_job_id <$> held p2 = [1; 2] /\
  wp_busy_workers p3 = 0 /\ t_job_id <$> held p3 = [2].
Proof. vm_compute. repeat split. Qed.

(** ** Witnesses *)

Definition wp_example : wp_pool :=
  let p0 := worker_pool_create (Some (mk_wp_config 1 4 0)) in
  let p1 := (wp_set_concurrency_limit p0 (Some "mail"%string) 1).2 in
  worker_step 0 0 (worker_step 0 0 (worker_step 0 0 (worker_step 0 0 (worker_step 0 0 (worker_step 0 0
    (wp_submit p1 5 (Some 7) 0 None 0 (Some "mail"%string)).2))))).

Lemma wp_example_reachable : wp_reachable wp_example.
Proof.
  exists (Some (mk_wp_config 1 4 0)). unfold wp_example. cbv zeta.
  do 6 (eapply rtc_r; [|apply wps_thread]). eapply rtc_r; [|apply wps_submit].
  apply rtc_once, wps_limit; [|done]. intros ci p' H. vm_compute in H. injection H as <- <-.
  right. vm_compute. discriminate.
Qed.

Lemma wp_tasks_exactly_once_witness :
  (exists q, ring_rep (capacity wp_example) (queue wp_example) q /\
    accepted wp_example = started wp_example ++ q /\
    started wp_example ≡ₚ finished wp_example ++ held wp_example) /\
  t_job_id <$> held wp_example = [5].
Proof. split; [apply (wp_tasks_exactly_once wp_example wp_example_reachable)|reflexivity]. Defined.

Lemma wp_concurrency_limit_witness :
  in_use wp_example 0 = 1 /\ current (concurrency wp_example !!! 0%nat) = in_use wp_example 0.
Proof.
  split; [reflexivity|]. apply (wp_concurrency_limit wp_example 0 wp_example_reachable). vm_compute. lia.
Defined.

Lemma wp_long_type_unlimited_witness :
  exists p1 p2 ci,
    wp_set_concurrency_limit (worker_pool_create None)
      (Some "a-job-type-name-of-more-than-31-chars"%string) 3 = (0, p1) /\
    find_concurrency_index p1 (Some "a-job-type-name-of-more-than-31-chars"%string) = (Some ci, p2) /\
    max_concurrent (concurrency p2 !!! ci) = 0.
Proof.
  apply (wp_long_type_unlimited (worker_pool_create None)); [vm_compute; lia|vm_compute; lia|reflexivity|constructor].
Defined.
