(* ===== verification/PriorityScheduler.v ===== *)
(** Model of [mini-job-system/src/priority_scheduler.c]: jobs in per-level ring
    queues, scheduled by level (MLFQ and fixed priority) or by lottery, with
    boosts, priority inheritance and aging.

    Job indices are naturals; [jobs] is the live prefix of the array.  Waiting
    times are whole seconds, which doubles add exactly, so [total_wait_time] is
    an integer.  The lottery's product of doubles is rounded as IEEE 754
    prescribes ([round53]). *)

From S2P Require Import Prelude Ring.

Definition PS_MAX_PRIORITY_LEVELS : nat := 8.
Definition PS_MAX_JOBS_PER_LEVEL : nat := 64.
Definition PS_MAX_JOBS : nat := 256.
#[global] Arguments PS_MAX_PRIORITY_LEVELS : simpl never.
#[global] Arguments PS_MAX_JOBS_PER_LEVEL : simpl never.
#[global] Arguments PS_MAX_JOBS : simpl never.

Inductive ps_sched_algo := PS_SCHED_MLFQ | PS_SCHED_FIXED | PS_SCHED_LOTTERY.

Record ps_priority_level := mk_level { lv_priority : Z; lv_quantum_ms : Z; lv_allocation : Z }.

Record ps_job_entry := mk_job {
  id : Z;
  job : Z;
  userdata : Z;
  priority : Z;
  original_priority : Z;
  boost_count : Z;
  tickets : Z;
  enqueued_at : Z;
  active : bool;
}.
#[export] Instance ps_job_entry_inhabited : Inhabited ps_job_entry :=
  populate (mk_job 0 0 0 0 0 0 0 0 false).

Record ps_config := mk_ps_config {
  c_algorithm : ps_sched_algo;
  c_levels : list ps_priority_level;
  c_level_count : Z;
  c_aging_interval_sec : Z;
  c_max_aging_boosts : Z;
}.

Record ps_scheduler := mk_ps {
  jobs : list ps_job_entry;
  queues : list (ring nat);
  algorithm : ps_sched_algo;
  levels : list ps_priority_level;
  level_count : Z;
  aging_interval_sec : Z;
  max_aging_boosts : Z;
  last_aging : Z;
  total_submitted : Z;
  total_completed : Z;
  total_wait_time : Z;
  completed_for_avg : Z;
}.

#[export] Instance ring_inhabited : Inhabited (ring nat) :=
  populate (ring_empty PS_MAX_JOBS_PER_LEVEL 0%nat).

Definition job_find (s : ps_scheduler) (i : Z) : option nat :=
  find_idx (fun e => (id e =? i) && active e) (jobs s).

(** [priority < 0] becomes 0, [priority >= level_count] the last level. *)
Definition clamp_priority (s : ps_scheduler) (p : Z) : Z :=
  let p := if p <? 0 then 0 else p in
  if level_count s <=? p then level_count s - 1 else p.

Definition enqueue_at_level (s : ps_scheduler) (job_idx : nat) (p : Z) : ps_scheduler :=
  s <| queues ::= alter (ring_push PS_MAX_JOBS_PER_LEVEL job_idx) (Z.to_nat (clamp_priority s p)) |>.

Definition dequeue_from_level (s : ps_scheduler) (p : Z) : option nat * ps_scheduler :=
  if (p <? 0) || (level_count s <=? p) then (None, s)
  else
    let r := queues s !!! Z.to_nat p in
    if (rcount r =? 0)%nat then (None, s)
    else let '(idx, r') := ring_pop PS_MAX_JOBS_PER_LEVEL r in
         (Some idx, s <| queues ::= <[Z.to_nat p := r']> |>).

Definition default_levels : list ps_priority_level :=
  [mk_level 0 10 0; mk_level 1 50 0; mk_level 2 100 0].

Definition ps_create (config : option ps_config) (now : Z) : ps_scheduler :=
  let rings := replicate PS_MAX_PRIORITY_LEVELS (ring_empty PS_MAX_JOBS_PER_LEVEL 0%nat) in
  match config with
  | Some c =>
      let lc := if 0 <? c_level_count c then c_level_count c else Z.of_nat PS_MAX_PRIORITY_LEVELS in
      let lc := if Z.of_nat PS_MAX_PRIORITY_LEVELS <? lc then Z.of_nat PS_MAX_PRIORITY_LEVELS else lc in
      mk_ps [] rings (c_algorithm c) (take (Z.to_nat lc) (c_levels c)) lc
        (if 0 <? c_aging_interval_sec c then c_aging_interval_sec c else 30)
        (if 0 <? c_max_aging_boosts c then c_max_aging_boosts c else 3) now 0 0 0 0
  | None => mk_ps [] rings PS_SCHED_MLFQ default_levels 3 30 3 now 0 0 0 0
  end.

Definition ps_submit (s : ps_scheduler) (i : Z) (fn : option Z) (ud p t now : Z) : Z * ps_scheduler :=
  match fn with
  | None => (-1, s)
  | Some f =>
      if (PS_MAX_JOBS <=? length (jobs s))%nat then (-2, s)
      else
        let p := clamp_priority s p in
        let e := mk_job i f ud p p 0 (if 0 <? t then t else 1) now true in
        let idx := length (jobs s) in
        (0, (enqueue_at_level (s <| jobs ::= fun l => l ++ [e] |>) idx p)
              <| total_submitted ::= Z.succ |>)
  end.

(** [waited > 0]: the statistics a removed job leaves. *)
Definition record_wait (s : ps_scheduler) (waited : Z) : ps_scheduler :=
  if 0 <? waited
  then s <| total_wait_time ::= fun w => w + waited |> <| completed_for_avg ::= Z.succ |>
  else s.

Definition deactivate (e : ps_job_entry) : ps_job_entry := e <| active := false |>.

Definition ps_cancel (s : ps_scheduler) (i now : Z) : Z * ps_scheduler :=
  match job_find s i with
  | None => (-1, s)
  | Some idx =>
      let s' := s <| jobs ::= alter deactivate idx |> <| total_completed ::= Z.succ |> in
      (0, record_wait s' (now - enqueued_at (jobs s !!! idx)))
  end.

Definition ps_boost_priority (s : ps_scheduler) (i new_priority : Z) : Z * ps_scheduler :=
  match job_find s i with
  | None => (-1, s)
  | Some idx =>
      if (new_priority <? 0) || (level_count s <=? new_priority) then (-2, s)
      else (0, s <| jobs ::= alter (fun e => e <| priority := new_priority |> <| boost_count ::= Z.succ |>) idx |>)
  end.

Definition ps_restore_priority (s : ps_scheduler) (i : Z) : Z * ps_scheduler :=
  match job_find s i with
  | None => (-1, s)
  | Some idx => (0, s <| jobs ::= alter (fun e => e <| priority := original_priority e |>) idx |>)
  end.

(** The [while] of one level: every iteration takes one index off the queue,
    so the recursion is on [queue_count]. *)
Fixpoint mlfq_level (n : nat) (s : ps_scheduler) (lev : nat) (now : Z)
    : option ps_job_entry * ps_scheduler :=
  match n with
  | O => (None, s)
  | S n' =>
      match dequeue_from_level s (Z.of_nat lev) with
      | (None, s1) => (None, s1)
      | (Some idx, s1) =>
          let e := jobs s1 !!! idx in
          if active e then
            let s2 := record_wait s1 (now - enqueued_at e) in
            (Some e, s2 <| jobs ::= alter deactivate idx |> <| total_completed ::= Z.succ |>)
          else mlfq_level n' s1 lev now
      end
  end.

Definition mlfq_step (now : Z) (acc : option ps_job_entry * ps_scheduler) (lev : nat)
    : option ps_job_entry * ps_scheduler :=
  match acc with
  | (Some e, s) => (Some e, s)
  | (None, s) => mlfq_level (rcount (queues s !!! lev)) s lev now
  end.

Definition schedule_mlfq (s : ps_scheduler) (now : Z) : option ps_job_entry * ps_scheduler :=
  foldl (mlfq_step now) (None, s) (seq 0 (Z.to_nat (level_count s))).

Definition schedule_fixed (s : ps_scheduler) (now : Z) : option ps_job_entry * ps_scheduler :=
  schedule_mlfq s now.

Definition count_active (s : ps_scheduler) : Z := Z.of_nat (count_if active (jobs s)).

Definition can_age (s : ps_scheduler) (now : Z) (e : ps_job_entry) : bool :=
  active e && (aging_interval_sec s <=? now - enqueued_at e) &&
  (boost_count e <? max_aging_boosts s) && (0 <? priority e).

Definition age_job (s : ps_scheduler) (now : Z) (e : ps_job_entry) : ps_job_entry :=
  if can_age s now e
  then e <| priority ::= Z.pred |> <| boost_count ::= Z.succ |> <| enqueued_at := now |>
  else e.

Definition ps_age_jobs (s : ps_scheduler) (now : Z) : Z * ps_scheduler :=
  (Z.of_nat (count_if (can_age s now) (jobs s)), s <| jobs ::= map (age_job s now) |>).

(** Rounds a product of two non-negative integers to 53 significant bits, ties
    to even: the significand of the double. *)
Definition round53 (p : Z) : Z :=
  if p <? 2 ^ 53 then p
  else
    let k := Z.log2 p - 52 in
    let q := p / 2 ^ k in
    let r := p mod 2 ^ k in
    let half := 2 ^ (k - 1) in
    let q' := if (half <? r) || ((half =? r) && Z.odd q) then q + 1 else q in
    q' * 2 ^ k.

(** [(int)((double)seed / 4294967296.0 * (double)total)]. *)
Definition lottery_winner (seed total : Z) : Z := round53 (seed * total) / 2 ^ 32.

(** The scan: the first active job at which the running sum passes [winner]. *)
Fixpoint lottery_scan (js : list ps_job_entry) (i : nat) (acc winner : Z) : option nat :=
  match js with
  | [] => None
  | e :: js' =>
      if active e then
        if winner <? acc + tickets e then Some i
        else lottery_scan js' (S i) (acc + tickets e) winner
      else lottery_scan js' (S i) acc winner
  end.

(** The fallback: the last active job. *)
Definition last_active (js : list ps_job_entry) : option nat :=
  last (List.filter (fun i => active (js !!! i)) (seq 0 (length js))).

Definition active_tickets (js : list ps_job_entry) : Z :=
  foldl (fun t e => if active e then t + tickets e else t) 0 js.

(** The index ([None] for -1) and the generator after the draw. *)
Definition ps_lottery_select (s : ps_scheduler) (seed : Z) : option nat * Z :=
  let total := active_tickets (jobs s) in
  if total =? 0 then (None, seed)
  else
    let seed' := u32 (seed * 1664525 + 1013904223) in
    match lottery_scan (jobs s) 0 0 (lottery_winner seed' total) with
    | Some i => (Some i, seed')
    | None => (last_active (jobs s), seed')
    end.

(** The automatic aging at the start of [ps_schedule_next]. *)
Definition auto_age (s : ps_scheduler) (now : Z) : ps_scheduler :=
  if aging_interval_sec s <=? now - last_aging s
  then (ps_age_jobs s now).2 <| last_aging := now |> else s.

(** [now] is the first clock reading, [now2] the one in [schedule_mlfq]. *)
Definition ps_schedule_next (s : ps_scheduler) (now now2 : Z) : option ps_job_entry * ps_scheduler :=
  let s := auto_age s now in
  match algorithm s with
  | PS_SCHED_MLFQ => schedule_mlfq s now2
  | PS_SCHED_FIXED => schedule_fixed s now2
  | PS_SCHED_LOTTERY =>
      match (ps_lottery_select s (u32 now)).1 with
      | Some idx => (Some (jobs s !!! idx),
                     s <| jobs ::= alter deactivate idx |> <| total_completed ::= Z.succ |>)
      | None => (None, s)
      end
  end.

Definition ps_schedule_next_timed (s : ps_scheduler) (timeout_ms now now2 : Z)
    : option ps_job_entry * ps_scheduler := ps_schedule_next s now now2.

Definition ps_priority_inherit (s : ps_scheduler) (holder_id waiter_id : Z) : Z * ps_scheduler :=
  match job_find s holder_id, job_find s waiter_id with
  | Some hi, Some wi =>
      let waiter_pri := priority (jobs s !!! wi) in
      if waiter_pri <? priority (jobs s !!! hi)
      then (1, s <| jobs ::= alter (fun e => e <| priority := waiter_pri |>) hi |>)
      else (0, s)
  | _, _ => (-1, s)
  end.

Definition ps_queue_size (s : ps_scheduler) : Z := count_active s.

Definition ps_queue_size_at (s : ps_scheduler) (p : Z) : Z :=
  if (p <? 0) || (level_count s <=? p) then 0
  else Z.of_nat (count_if (fun e => active e && (priority e =? p)) (jobs s)).

Definition ps_is_empty (s : ps_scheduler) : bool := ps_queue_size s =? 0.
Definition ps_total_submitted (s : ps_scheduler) : Z := total_submitted s.
Definition ps_total_completed (s : ps_scheduler) : Z := total_completed s.

(** ** Invariant.  [qs] are the contents of the level queues, oldest first. *)

Definition tickets_ok (js : list ps_job_entry) : Prop := Forall (fun e => 1 <= tickets e) js.

Record ps_inv (s : ps_scheduler) (qs : list (list nat)) : Prop := {
  pi_rings : Forall2 (ring_rep PS_MAX_JOBS_PER_LEVEL) (queues s) qs;
  pi_len : length qs = PS_MAX_PRIORITY_LEVELS;
  pi_levels : 1 <= level_count s <= Z.of_nat PS_MAX_PRIORITY_LEVELS;
  pi_sorted : forall lev q, qs !! lev = Some q -> StronglySorted Nat.lt q;
  pi_queued : forall lev q i, qs !! lev = Some q -> i ∈ q ->
    exists e, jobs s !! i = Some e /\ original_priority e = Z.of_nat lev;
  pi_active : forall i e, jobs s !! i = Some e -> active e = true ->
    0 <= original_priority e < level_count s /\
    exists q, qs !! Z.to_nat (original_priority e) = Some q /\ i ∈ q;
  pi_tickets : tickets_ok (jobs s);
}.

(** Updates of job entries that neither wake a job up nor change its level. *)
Definition jobs_below (l' l : list ps_job_entry) : Prop :=
  Forall2 (fun e' e => original_priority e' = original_priority e /\ (active e' = true -> active e = true) /\
    tickets e' = tickets e) l' l.

Lemma inv_jobs s s' qs :
  ps_inv s qs -> jobs_below (jobs s') (jobs s) -> queues s' = queues s ->
  level_count s' = level_count s -> ps_inv s' qs.
Proof.
  intros [Hr Hl Hlc Hs Hq Ha Ht] Hj Hqs Hlv. split; rewrite ?Hqs, ?Hlv; try done.
  - intros lev q i Hlev Hi. destruct (Hq lev q i Hlev Hi) as (e & He & Ho).
    eapply Forall2_lookup_r in Hj as (e' & He' & Ho' & _); [|done]. exists e'. split; [done|congruence].
  - intros i e' He' Hact. eapply Forall2_lookup_l in Hj as (e & He & Ho & Hac & _); [|done].
    rewrite Ho. by apply Ha; [|apply Hac].
  - apply Forall_lookup. intros i e' He'. eapply Forall2_lookup_l in Hj as (e & He & _ & _ & ->); [|done].
    by eapply (Forall_lookup_1 _ _ _ _ Ht).
Qed.

Lemma jobs_below_refl l : jobs_below l l.
Proof. by apply Forall_Forall2_diag, Forall_true. Qed.

Lemma jobs_below_alter f i l :
  (forall e, original_priority (f e) = original_priority e /\ (active (f e) = true -> active e = true) /\
    tickets (f e) = tickets e) ->
  jobs_below (alter f i l) l.
Proof.
  intros Hf. apply Forall2_same_length_lookup. rewrite length_alter. split; [done|].
  intros j x y Hx Hy. destruct (decide (j = i)) as [->|].
  - rewrite list_lookup_alter_eq, Hy in Hx. cbn in Hx. injection Hx as <-. apply Hf.
  - rewrite list_lookup_alter_ne in Hx by done. by simplify_eq.
Qed.

Lemma jobs_below_map f l :
  (forall e, original_priority (f e) = original_priority e /\ (active (f e) = true -> active e = true) /\
    tickets (f e) = tickets e) ->
  jobs_below (map f l) l.
Proof. intros Hf. induction l as [|e l IH]; constructor; [apply Hf|done]. Qed.

Lemma record_wait_same s w :
  jobs (record_wait s w) = jobs s /\ queues (record_wait s w) = queues s /\
  level_count (record_wait s w) = level_count s.
Proof. unfold record_wait. by case_match. Qed.

Lemma age_below s now : jobs_below (jobs (ps_age_jobs s now).2) (jobs s).
Proof. apply jobs_below_map. intros e. unfold age_job. by case_match. Qed.

Lemma ps_create_inv c now : exists qs, ps_inv (ps_create c now) qs.
Proof.
  exists (replicate PS_MAX_PRIORITY_LEVELS []).
  assert (Hr : queues (ps_create c now) =
    replicate PS_MAX_PRIORITY_LEVELS (ring_empty PS_MAX_JOBS_PER_LEVEL 0%nat)) by by destruct c.
  assert (Hj : jobs (ps_create c now) = []) by by destruct c.
  split; rewrite ?Hr, ?Hj.
  - apply Forall2_replicate. apply ring_empty_rep. unfold PS_MAX_JOBS_PER_LEVEL. lia.
  - apply length_replicate.
  - unfold PS_MAX_PRIORITY_LEVELS. destruct c as [c|]; cbn [ps_create level_count]; [|lia].
    destruct (0 <? c_level_count c) eqn:?; case_match; zbool; unfold PS_MAX_PRIORITY_LEVELS in *; lia.
  - intros lev q [-> _]%lookup_replicate. constructor.
  - intros lev q i [-> _]%lookup_replicate []%not_elem_of_nil.
  - done.
  - constructor.
Qed.

Lemma clamp_range s p : 1 <= level_count s -> 0 <= clamp_priority s p < level_count s.
Proof. intros. unfold clamp_priority. repeat case_match; zbool; lia. Qed.

Lemma clamp_id s p : 0 <= p < level_count s -> clamp_priority s p = p.
Proof. intros. unfold clamp_priority. repeat case_match; zbool; lia. Qed.

Lemma submit_inv s qs i f ud p t now :
  ps_inv s qs ->
  (rcount (queues s !!! Z.to_nat (clamp_priority s p)) < PS_MAX_JOBS_PER_LEVEL)%nat ->
  exists qs', ps_inv (ps_submit s i f ud p t now).2 qs'.
Proof.
  intros Hinv Hroom. unfold ps_submit. destruct f as [f|]; [|by exists qs].
  case_match; [by exists qs|]. cbn [snd]. destruct Hinv as [Hr Hl Hlc Hs Hq Ha Htk].
  pose proof (clamp_range s p ltac:(lia)) as Hp. set (lev := clamp_priority s p) in *.
  set (e := mk_job i f ud lev lev 0 (if 0 <? t then t else 1) now true).
  set (idx := length (jobs s)). unfold enqueue_at_level.
  change (clamp_priority _ lev) with (clamp_priority s lev). rewrite (clamp_id s lev Hp).
  exists (alter (fun q => q ++ [idx]) (Z.to_nat lev) qs).
  assert (Hin : forall l q j, qs !! l = Some q -> j ∈ q -> (j < idx)%nat).
  { intros l q j Hlq Hj. destruct (Hq l q j Hlq Hj) as (? & He & _). by eapply lookup_lt_Some. }
  split; cbn.
  - apply Forall2_alter; [done|]. intros r q Hrl Hql Hrep. apply ring_push_rep; [done|].
    rewrite (list_lookup_total_correct _ _ _ Hrl) in Hroom. by rewrite <- (rr_count _ _ _ Hrep).
  - by rewrite length_alter.
  - done.
  - intros l q Hlq. apply alter_lookup_Some in Hlq as [(<- & q0 & Hq0 & ->)|[_ Hlq]];
      [|by eapply Hs]. apply StronglySorted_app_2; [|by eapply Hs|repeat constructor].
    intros x y Hx ->%list_elem_of_singleton. by eapply Hin.
  - intros l q j Hlq Hj.
    assert (j = idx /\ l = Z.to_nat lev \/ exists q0, qs !! l = Some q0 /\ j ∈ q0) as [[-> ->]|(q0 & Hq0 & Hj0)].
    { apply alter_lookup_Some in Hlq as [(<- & q0 & Hq0 & ->)|[_ Hlq]]; [|eauto].
      apply elem_of_app in Hj as [?| ->%list_elem_of_singleton]; eauto. }
    + exists e. unfold idx. rewrite lookup_app_r, Nat.sub_diag by lia. split; [done|]. cbn. lia.
    + destruct (Hq l q0 j Hq0 Hj0) as (e0 & He0 & Ho). exists e0. split; [by apply lookup_app_l_Some|done].
  - intros j e0 He0 Hact. apply lookup_app_Some in He0 as [He0|[Hge He0]].
    + destruct (Ha j e0 He0 Hact) as (Hrange & q & Hql & Hj). split; [done|].
      destruct (decide (Z.to_nat (original_priority e0) = Z.to_nat lev)) as [Heq|Hne].
      * exists (q ++ [idx]). rewrite Heq in *. rewrite list_lookup_alter_eq, Hql. split; [done|].
        apply elem_of_app. by left.
      * exists q. by rewrite list_lookup_alter_ne.
    + apply list_lookup_singleton_Some in He0 as [Hz <-]. cbn. split; [done|].
      destruct (lookup_lt_is_Some_2 qs (Z.to_nat lev)) as [q Hql]; [unfold PS_MAX_PRIORITY_LEVELS in *; lia|].
      exists (q ++ [idx]). rewrite list_lookup_alter_eq, Hql. split; [done|].
      apply elem_of_app. right. apply list_elem_of_singleton. unfold idx. lia.
  - apply Forall_app. split; [done|]. constructor; [cbn; case_match; zbool; lia|constructor].
Qed.

(** Taking the oldest index off a level whose job is, or becomes, inactive. *)
Lemma ps_pop_inv s s' qs lev i q' r :
  ps_inv s qs -> qs !! lev = Some (i :: q') -> queues s !! lev = Some r ->
  queues s' = <[lev := (ring_pop PS_MAX_JOBS_PER_LEVEL r).2]> (queues s) ->
  jobs_below (jobs s') (jobs s) -> active (jobs s' !!! i) = false ->
  level_count s' = level_count s -> ps_inv s' (<[lev := q']> qs).
Proof.
  intros Hinv Hlev Hring Hqs Hj Hi Hlc.
  assert (Hrep : ring_rep PS_MAX_JOBS_PER_LEVEL r (i :: q')).
  { pose proof (Forall2_lookup_lr _ _ _ _ _ _ (pi_rings _ _ Hinv) Hring Hlev) as H. exact H. }
  assert (Hlt : (lev < length qs)%nat) by by eapply lookup_lt_Some.
  assert (ps_inv (set queues (fun _ => queues s) s') qs) as [Hr Hl Hv Hs Hq Ha Htk]
    by by apply (inv_jobs s).
  split; try done.
  - rewrite Hqs. apply Forall2_insert; [apply Hinv|]. by eapply ring_pop_rep.
  - by rewrite length_insert.
  - intros l q Hlq. apply list_lookup_insert_Some in Hlq as [(<- & -> & _)|[_ Hlq]]; [|by eapply Hs].
    specialize (Hs _ _ Hlev). by apply StronglySorted_inv in Hs as [? _].
  - intros l q j Hlq Hin. apply list_lookup_insert_Some in Hlq as [(<- & -> & _)|[_ Hlq]].
    + eapply Hq; [exact Hlev|by right].
    + by eapply Hq.
  - intros j e He Hact. destruct (Ha j e He Hact) as (Hrange & q & Hql & Hin). split; [done|].
    destruct (decide (Z.to_nat (original_priority e) = lev)) as [Heq|Hne].
    + rewrite Heq in *. exists q'. rewrite list_lookup_insert_eq by done. split; [done|].
      rewrite Hlev in Hql. injection Hql as <-. apply elem_of_cons in Hin as [->|]; [|done].
      cbn in He. rewrite (list_lookup_total_correct _ _ _ He) in Hi. congruence.
    + exists q. by rewrite list_lookup_insert_ne.
Qed.

Lemma dequeue_level s qs lev i q' :
  ps_inv s qs -> qs !! lev = Some (i :: q') -> Z.of_nat lev < level_count s ->
  exists r, queues s !! lev = Some r /\
    dequeue_from_level s (Z.of_nat lev) =
      (Some i, s <| queues ::= <[lev := (ring_pop PS_MAX_JOBS_PER_LEVEL r).2]> |>).
Proof.
  intros Hinv Hlev Hlc. destruct (Forall2_lookup_r _ _ _ _ _ (pi_rings _ _ Hinv) Hlev) as (r & Hr & Hrep).
  exists r. split; [done|]. unfold dequeue_from_level.
  rewrite (proj2 (Z.ltb_ge _ _)), (proj2 (Z.leb_gt _ _)) by lia. cbn [orb].
  rewrite Nat2Z.id, (list_lookup_total_correct _ _ _ Hr), (rr_count _ _ _ Hrep). cbn [length Nat.eqb].
  destruct (ring_pop_rep _ _ _ _ Hrep) as [Hx _].
  destruct (ring_pop PS_MAX_JOBS_PER_LEVEL r) as [x r'] eqn:Hp. cbn in Hx. by subst.
Qed.

Definition inactive (s : ps_scheduler) (i : nat) : Prop := active (jobs s !!! i) = false.

(** One level: the oldest active job, or an emptied queue. *)
Definition level_result (s : ps_scheduler) (qs : list (list nat)) (lev : nat) (q : list nat)
    (r : option ps_job_entry * ps_scheduler) : Prop :=
  level_count r.2 = level_count s /\
  match r.1 with
  | Some e => exists pre i post, q = pre ++ i :: post /\ Forall (inactive s) pre /\
      jobs s !! i = Some e /\ active e = true /\
      jobs r.2 = alter deactivate i (jobs s) /\ ps_inv r.2 (<[lev := post]> qs)
  | None => Forall (inactive s) q /\ jobs r.2 = jobs s /\ ps_inv r.2 (<[lev := []]> qs)
  end.

Lemma deactivate_below i l : jobs_below (alter deactivate i l) l.
Proof. by apply jobs_below_alter. Qed.

Lemma mlfq_level_spec lev now q : forall s qs,
  ps_inv s qs -> qs !! lev = Some q -> Z.of_nat lev < level_count s ->
  level_result s qs lev q (mlfq_level (length q) s lev now).
Proof.
  induction q as [|i q IH]; intros s qs Hinv Hlev Hlc; cbn [length mlfq_level].
  - split; [done|]. split; [constructor|]. split; [done|]. cbn. by rewrite list_insert_id.
  - destruct (dequeue_level s qs lev i q Hinv Hlev Hlc) as (r & Hr & ->).
    destruct (pi_queued _ _ Hinv lev _ i Hlev ltac:(left)) as (e & He & _).
    cbn [jobs set]. change (jobs (s <| queues ::= _ |>)) with (jobs s).
    rewrite (list_lookup_total_correct _ _ _ He). destruct (active e) eqn:Hact.
    + unfold level_result. cbn [fst snd].
      set (s1 := s <| queues ::= _ |>). destruct (record_wait_same s1 (now - enqueued_at e)) as (Hj & Hq & Hv).
      set (s3 := _ <| total_completed ::= Z.succ |>).
      assert (Hj3 : jobs s3 = alter deactivate i (jobs s)) by (cbn; by rewrite Hj).
      assert (Hq3 : queues s3 = queues s1) by (cbn; by rewrite Hq).
      assert (Hv3 : level_count s3 = level_count s) by (cbn; by rewrite Hv).
      split; [exact Hv3|]. exists [], i, q. split_and!; try done.
      apply (ps_pop_inv s s3 qs lev i q r); rewrite ?Hj3; try done; [apply deactivate_below|].
      by rewrite list_lookup_total_alt, list_lookup_alter_eq, He.
    + set (s1 := s <| queues ::= _ |>).
      assert (Hinv1 : ps_inv s1 (<[lev := q]> qs)).
      { apply (ps_pop_inv s s1 qs lev i q r); try done; [apply jobs_below_refl|].
        cbn. by rewrite (list_lookup_total_correct _ _ _ He). }
      assert (Hlt : (lev < length qs)%nat) by by eapply lookup_lt_Some.
      assert (Hi : inactive s i) by (unfold inactive; by rewrite (list_lookup_total_correct _ _ _ He)).
      destruct (IH s1 (<[lev := q]> qs) Hinv1) as [Hv Hres]; [by rewrite list_lookup_insert_eq|done|].
      split; [exact Hv|]. destruct (mlfq_level (length q) s1 lev now) as [[e'|] s'] eqn:Hrec; cbn [fst snd] in *.
      * destruct Hres as (pre & k & post & -> & Hpre & Hk & Ha & Hjs & Hinv').
        rewrite list_insert_insert_eq in Hinv'. exists (i :: pre), k, post. split_and!; try done.
        by constructor.
      * destruct Hres as (Hall & Hjs & Hinv'). rewrite list_insert_insert_eq in Hinv'.
        split_and!; try done. by constructor.
Qed.

(** ** Scheduling across levels *)

(** [e] at index [i] comes before [e'] at [j]: by submission level, then by age. *)
Definition goes_before (i : nat) (e : ps_job_entry) (j : nat) (e' : ps_job_entry) : Prop :=
  original_priority e < original_priority e' \/
  (original_priority e = original_priority e' /\ (i <= j)%nat).

(** What scheduling by level returns in state [s]. *)
Definition picked (s : ps_scheduler) (r : option ps_job_entry * ps_scheduler) : Prop :=
  match r.1 with
  | Some e => exists i, jobs s !! i = Some e /\ active e = true /\
      jobs r.2 = alter deactivate i (jobs s) /\
      forall j e', jobs s !! j = Some e' -> active e' = true -> goes_before i e j e'
  | None => jobs r.2 = jobs s /\ forall j e', jobs s !! j = Some e' -> active e' = false
  end.

Lemma inactive_lookup s i e : jobs s !! i = Some e -> inactive s i -> active e = false.
Proof. intros He. unfold inactive. by rewrite (list_lookup_total_correct _ _ _ He). Qed.

(** After the levels below [n]: either a job was picked, or the active jobs are
    all at level [n] or further down. *)
Lemma mlfq_levels s qs now n :
  ps_inv s qs -> Z.of_nat n <= level_count s ->
  let r := foldl (mlfq_step now) (None, s) (seq 0 n) in
  exists qs', ps_inv r.2 qs' /\ level_count r.2 = level_count s /\
  match r.1 with
  | Some e => picked s r
  | None => jobs r.2 = jobs s /\
      forall j e', jobs s !! j = Some e' -> active e' = true -> Z.of_nat n <= original_priority e'
  end.
Proof.
  intros Hinv. induction n as [|n IH]; intros Hn; cbv zeta.
  - exists qs. cbn [seq foldl fst snd]. split_and!; try done. intros j e' Hj Hact. by apply (pi_active _ _ Hinv j e').
  - rewrite seq_S, foldl_app. cbn [foldl Nat.add]. cbv zeta in IH.
    destruct (foldl (mlfq_step now) (None, s) (seq 0 n)) as [[e|] s'];
      destruct IH as (qs' & Hinv' & Hlc & Hres); try lia; cbn [mlfq_step fst snd] in *.
    { by exists qs'. }
    destruct Hres as [Hjobs Hbelow]. destruct (lookup_lt_is_Some_2 qs' n) as [q Hq].
    { rewrite (pi_len _ _ Hinv'). pose proof (pi_levels _ _ Hinv). lia. }
    destruct (Forall2_lookup_r _ _ _ _ _ (pi_rings _ _ Hinv') Hq) as (r & Hr & Hrep).
    rewrite (list_lookup_total_correct _ _ _ Hr), (rr_count _ _ _ Hrep).
    destruct (mlfq_level_spec n now q s' qs' Hinv' Hq) as [Hlc' Hres]; [lia|].
    assert (Hat : forall j e', jobs s !! j = Some e' -> active e' = true ->
      original_priority e' = Z.of_nat n -> j ∈ q).
    { intros j e' Hj Hact Ho. rewrite <- Hjobs in Hj.
      destruct (pi_active _ _ Hinv' j e' Hj Hact) as (_ & q' & Hq' & Hin).
      rewrite Ho, Nat2Z.id in Hq'. congruence. }
    destruct (mlfq_level (length q) s' n now) as [[e|] s'']; cbn [fst snd] in *.
    + destruct Hres as (pre & i & post & -> & Hpre & Hi & Hact & Hjs & Hinv'').
      eexists. split; [exact Hinv''|]. split; [congruence|]. exists i. cbn [fst snd].
      rewrite <- Hjobs. split_and!; try done. intros j e' Hj Hact'.
      destruct (pi_queued _ _ Hinv' n _ i Hq) as (e0 & He0 & Ho0).
      { apply elem_of_app. right. left. }
      assert (e0 = e) as -> by congruence. pose proof Hj as Hj'. rewrite Hjobs in Hj'.
      specialize (Hbelow j e' Hj' Hact').
      destruct (decide (original_priority e' = Z.of_nat n)) as [Ho|Ho]; [right|left; lia].
      split; [congruence|]. specialize (Hat j e' Hj' Hact' Ho).
      apply elem_of_app in Hat as [Hin|Hin].
      * pose proof (proj1 (Forall_forall _ _) Hpre j Hin) as Hpj.
        rewrite (inactive_lookup s' j e' Hj Hpj) in Hact'. done.
      * pose proof (pi_sorted _ _ Hinv' _ _ Hq) as Hs. apply StronglySorted_app_1_r in Hs.
        apply StronglySorted_inv in Hs as [_ Hs]. apply elem_of_cons in Hin as [->|Hin]; [done|].
        pose proof (proj1 (Forall_forall _ _) Hs j Hin). lia.
    + destruct Hres as (Hall & Hjs & Hinv''). eexists. split; [exact Hinv''|].
      split; [congruence|]. split; [congruence|]. intros j e' Hj Hact.
      specialize (Hbelow j e' Hj Hact).
      destruct (decide (original_priority e' = Z.of_nat n)) as [Ho|Ho]; [|lia].
      specialize (Hat j e' Hj Hact Ho). pose proof (proj1 (Forall_forall _ _) Hall j Hat) as Hj0.
      rewrite <- Hjobs in Hj. rewrite (inactive_lookup s' j e' Hj Hj0) in Hact. done.
Qed.

Lemma schedule_mlfq_spec s qs now :
  ps_inv s qs -> picked s (schedule_mlfq s now) /\ exists qs', ps_inv (schedule_mlfq s now).2 qs'.
Proof.
  intros Hinv. pose proof (pi_levels _ _ Hinv) as Hlc. unfold schedule_mlfq.
  destruct (mlfq_levels s qs now (Z.to_nat (level_count s)) Hinv) as (qs' & Hinv' & _ & Hres); [lia|].
  destruct (foldl _ _ _) as [[e|] s']; cbn [fst snd] in *; split; eauto.
  destruct Hres as [Hjobs Hbelow]. split; [done|]. intros j e' Hj.
  destruct (active e') eqn:Hact; [|done]. specialize (Hbelow j e' Hj Hact).
  pose proof (pi_active _ _ Hinv j e' Hj Hact). lia.
Qed.

(** ** Reachable schedulers.  A job is submitted to a level whose queue has room. *)

Inductive ps_step (s : ps_scheduler) : ps_scheduler -> Prop :=
  | pss_submit i f ud p t now :
      (rcount (queues s !!! Z.to_nat (clamp_priority s p)) < PS_MAX_JOBS_PER_LEVEL)%nat ->
      ps_step s (ps_submit s i f ud p t now).2
  | pss_cancel i now : ps_step s (ps_cancel s i now).2
  | pss_boost i p : ps_step s (ps_boost_priority s i p).2
  | pss_restore i : ps_step s (ps_restore_priority s i).2
  | pss_inherit h w : ps_step s (ps_priority_inherit s h w).2
  | pss_age now : ps_step s (ps_age_jobs s now).2
  | pss_schedule now now2 : ps_step s (ps_schedule_next s now now2).2.

Definition ps_reachable (s : ps_scheduler) : Prop :=
  exists config now, rtc ps_step (ps_create config now) s.

Lemma auto_age_inv s qs now : ps_inv s qs -> ps_inv (auto_age s now) qs.
Proof.
  intros H. unfold auto_age. case_match; [|done]. eapply inv_jobs; [done|apply age_below|done..].
Qed.

Lemma auto_age_below s now : jobs_below (jobs (auto_age s now)) (jobs s).
Proof. unfold auto_age. case_match; [apply (age_below s now)|apply jobs_below_refl]. Qed.

Lemma ps_step_inv s s' qs : ps_inv s qs -> ps_step s s' -> exists qs', ps_inv s' qs'.
Proof.
  intros Hinv [i f ud p t now Hroom|i now|i p|i|h w|now|now now2].
  - by eapply submit_inv.
  - unfold ps_cancel. case_match; [|by exists qs]. exists qs. cbn [snd].
    match goal with |- ps_inv (record_wait ?s1 ?w) _ => destruct (record_wait_same s1 w) as (Hj & Hq & Hv) end.
    eapply inv_jobs; [done|rewrite Hj; apply deactivate_below|by rewrite Hq|by rewrite Hv].
  - unfold ps_boost_priority. repeat case_match; exists qs; try done.
    eapply inv_jobs; [done|by apply jobs_below_alter|done..].
  - unfold ps_restore_priority. case_match; exists qs; [|done].
    eapply inv_jobs; [done|by apply jobs_below_alter|done..].
  - unfold ps_priority_inherit. repeat case_match; exists qs; try done.
    eapply inv_jobs; [done|by apply jobs_below_alter|done..].
  - exists qs. eapply inv_jobs; [done|apply age_below|done..].
  - pose proof (auto_age_inv s qs now Hinv) as Ha. unfold ps_schedule_next, schedule_fixed.
    destruct (algorithm (auto_age s now)).
    + by apply (schedule_mlfq_spec _ qs now2).
    + by apply (schedule_mlfq_spec _ qs now2).
    + exists qs. case_match; [|done]. eapply inv_jobs; [done|apply deactivate_below|done..].
Qed.

Lemma ps_reachable_inv s : ps_reachable s -> exists qs, ps_inv s qs.
Proof.
  intros (c & now & Hr). revert s Hr.
  apply (rtc_ind_r (fun s => exists qs, ps_inv s qs)); [apply ps_create_inv|].
  intros ? ? _ Hstep [qs Hinv]. by eapply ps_step_inv.
Qed.

(** ** Two schedulers that differ only in the current priorities *)

Definition same_jobs (l l' : list ps_job_entry) : Prop :=
  Forall2 (fun e e' => id e = id e' /\ original_priority e = original_priority e' /\ active e = active e') l l'.

Lemma same_jobs_lookup l l' i e :
  same_jobs l l' -> l !! i = Some e ->
  exists e', l' !! i = Some e' /\ id e = id e' /\ original_priority e = original_priority e' /\
    active e = active e'.
Proof. intros H He. eapply Forall2_lookup_l in H as (e' & ? & ?); eauto. Qed.

Lemma same_jobs_sym l l' : same_jobs l l' -> same_jobs l' l.
Proof. intros H. apply Forall2_flip. eapply Forall2_impl; [exact H|]. naive_solver. Qed.

Lemma same_jobs_trans l l' l'' : same_jobs l l' -> same_jobs l' l'' -> same_jobs l l''.
Proof.
  intros H. revert l''. induction H as [|e e' l l' (? & ? & ?) _ IH]; intros l2 H2;
    inversion_clear H2 as [|? e2 ? ? (? & ? & ?)]; constructor; [|by apply IH].
  split_and!; congruence.
Qed.

Lemma same_jobs_map f l :
  (forall e, id (f e) = id e /\ original_priority (f e) = original_priority e /\ active (f e) = active e) ->
  same_jobs l (map f l).
Proof. intros Hf. induction l as [|e l IH]; constructor; [|done]. destruct (Hf e) as (? & ? & ?). auto. Qed.

Lemma same_jobs_alter f g i l l' :
  (forall e e', id e = id e' /\ original_priority e = original_priority e' /\ active e = active e' ->
     id (f e) = id (g e') /\ original_priority (f e) = original_priority (g e') /\ active (f e) = active (g e')) ->
  same_jobs l l' -> same_jobs (alter f i l) (alter g i l').
Proof. intros Hf H. apply Forall2_alter; [exact H|]. intros. by apply Hf. Qed.

(** The pick is determined by what the two schedulers have in common. *)
Lemma picked_same s s' r r' :
  same_jobs (jobs s) (jobs s') -> picked s r -> picked s' r' ->
  id <$> r.1 = id <$> r'.1 /\ same_jobs (jobs r.2) (jobs r'.2).
Proof.
  intros Hs H H'. pose proof (same_jobs_sym _ _ Hs) as Hs'. unfold picked in *.
  destruct (r.1) as [e|], (r'.1) as [e'|]; cbn.
  - destruct H as (i & Hi & Ha & -> & Hmin), H' as (i' & Hi' & Ha' & -> & Hmin').
    destruct (same_jobs_lookup _ _ _ _ Hs Hi) as (x & Hx & Hid & Ho & Hxa).
    destruct (same_jobs_lookup _ _ _ _ Hs' Hi') as (x' & Hx' & Hid' & Ho' & Hxa').
    assert (i = i') as <-.
    { specialize (Hmin i' x' Hx'). specialize (Hmin' i x Hx). rewrite <- Hxa', <- Hxa in *.
      specialize (Hmin Ha'). specialize (Hmin' Ha). unfold goes_before in *. lia. }
    split; [congruence|]. apply same_jobs_alter; [|done]. cbn. naive_solver.
  - destruct H as (i & Hi & Ha & _), H' as [_ Hno].
    destruct (same_jobs_lookup _ _ _ _ Hs Hi) as (x & Hx & _ & _ & Hxa).
    specialize (Hno i x Hx). congruence.
  - destruct H' as (i & Hi & Ha & _), H as [_ Hno].
    destruct (same_jobs_lookup _ _ _ _ Hs' Hi) as (x & Hx & _ & _ & Hxa).
    specialize (Hno i x Hx). congruence.
  - destruct H as [-> _], H' as [-> _]. by split.
Qed.

(** The ids a worker receives from successive calls of [ps_schedule_next]. *)
Fixpoint schedule_ids (s : ps_scheduler) (clock : list (Z * Z)) : list (option Z) :=
  match clock with
  | [] => []
  | (now, now2) :: clock' =>
      (id <$> (ps_schedule_next s now now2).1) :: schedule_ids (ps_schedule_next s now now2).2 clock'
  end.

Lemma mlfq_level_algorithm n lev now : forall s, algorithm (mlfq_level n s lev now).2 = algorithm s.
Proof.
  induction n as [|n IH]; intros s; cbn [mlfq_level]; [done|].
  unfold dequeue_from_level. repeat case_match; simplify_eq; cbn [snd]; try done.
  - unfold record_wait. by case_match.
  - by rewrite IH.
Qed.

Lemma schedule_algorithm s now : algorithm (schedule_mlfq s now).2 = algorithm s.
Proof.
  unfold schedule_mlfq. induction (Z.to_nat (level_count s)) as [|n IH]; [done|].
  rewrite seq_S, foldl_app. cbn [foldl]. destruct (foldl _ _ _) as [[e|] s']; cbn in *; [done|].
  by rewrite mlfq_level_algorithm.
Qed.

Lemma next_is_mlfq s now now2 :
  algorithm s <> PS_SCHED_LOTTERY -> ps_schedule_next s now now2 = schedule_mlfq (auto_age s now) now2.
Proof.
  intros Ha. assert (Hal : algorithm (auto_age s now) = algorithm s) by (unfold auto_age; by case_match).
  unfold ps_schedule_next, schedule_fixed. rewrite Hal. by destruct (algorithm s).
Qed.

Lemma auto_age_same s now : same_jobs (jobs s) (jobs (auto_age s now)).
Proof.
  unfold auto_age. case_match; [|by apply Forall_Forall2_diag, Forall_true].
  apply (same_jobs_map (age_job s now)). intros e. unfold age_job. by case_match.
Qed.

Lemma schedule_ids_same clock : forall s s' qs qs',
  ps_inv s qs -> ps_inv s' qs' -> same_jobs (jobs s) (jobs s') ->
  algorithm s <> PS_SCHED_LOTTERY -> algorithm s' = algorithm s ->
  schedule_ids s clock = schedule_ids s' clock.
Proof.
  induction clock as [|[now now2] clock IH]; intros s s' qs qs' Hi Hi' Hs Ha Ha'; [done|].
  cbn [schedule_ids]. rewrite !next_is_mlfq by congruence.
  destruct (schedule_mlfq_spec _ _ now2 (auto_age_inv s qs now Hi)) as [Hp [q1 Hi1]].
  destruct (schedule_mlfq_spec _ _ now2 (auto_age_inv s' qs' now Hi')) as [Hp' [q1' Hi1']].
  assert (Hs1 : same_jobs (jobs (auto_age s now)) (jobs (auto_age s' now))).
  { eapply same_jobs_trans; [apply same_jobs_sym, auto_age_same|].
    eapply same_jobs_trans; [exact Hs|apply auto_age_same]. }
  destruct (picked_same _ _ _ _ Hs1 Hp Hp') as [-> Hs2].
  assert (Hal : forall x, algorithm (auto_age x now) = algorithm x)
    by (intros x; unfold auto_age; by case_match).
  f_equal. eapply IH; [exact Hi1|exact Hi1'|done| |]; by rewrite !schedule_algorithm, !Hal.
Qed.

(** ** Lottery *)

Definition tickets_before (js : list ps_job_entry) (i : nat) : Z := active_tickets (take i js).

Lemma active_tickets_from js a :
  foldl (fun t e => if active e then t + tickets e else t) a js = a + active_tickets js.
Proof.
  unfold active_tickets. revert a. induction js as [|e js IH]; intros a; cbn; [lia|].
  rewrite IH, (IH (if active e then 0 + tickets e else 0)). case_match; lia.
Qed.

Lemma active_tickets_cons e js :
  active_tickets (e :: js) = (if active e then tickets e else 0) + active_tickets js.
Proof.
  unfold active_tickets at 1. cbn [foldl]. rewrite active_tickets_from. case_match; lia.
Qed.

Lemma lottery_scan_spec js : forall i0 acc w,
  tickets_ok js -> acc <= w ->
  match lottery_scan js i0 acc w with
  | Some i => exists k e, i = (i0 + k)%nat /\ js !! k = Some e /\ active e = true /\
      acc + tickets_before js k <= w < acc + tickets_before js k + tickets e
  | None => acc + active_tickets js <= w
  end.
Proof.
  induction js as [|e js IH]; intros i0 acc w Ht Hw; cbn [lottery_scan].
  - unfold active_tickets. cbn. lia.
  - apply Forall_cons in Ht as [He Ht]. destruct (active e) eqn:Hact.
    + destruct (Z.ltb_spec w (acc + tickets e)).
      * exists 0%nat, e. unfold tickets_before, active_tickets. cbn. split_and!; [lia|done|done|lia|lia].
      * specialize (IH (S i0) (acc + tickets e) w Ht ltac:(lia)).
        destruct (lottery_scan _ _ _ _) as [i|].
        -- destruct IH as (k & e' & -> & Hk & Ha & Hb). exists (S k), e'.
           unfold tickets_before in *. cbn [take]. rewrite active_tickets_cons, Hact.
           split_and!; [lia|done|done|lia|lia].
        -- rewrite active_tickets_cons, Hact. lia.
    + specialize (IH (S i0) acc w Ht Hw). destruct (lottery_scan _ _ _ _) as [i|].
      * destruct IH as (k & e' & -> & Hk & Ha & Hb). exists (S k), e'.
        unfold tickets_before in *. cbn [take]. rewrite active_tickets_cons, Hact.
        split_and!; [lia|done|done|lia|lia].
      * rewrite active_tickets_cons, Hact. lia.
Qed.

Lemma active_tickets_pos js :
  tickets_ok js -> 0 <= active_tickets js /\
  (active_tickets js = 0 <-> forall e, e ∈ js -> active e = false).
Proof.
  induction js as [|e js IH]; intros Ht.
  - split; [done|]. split; [|done]. intros _ e []%not_elem_of_nil.
  - apply Forall_cons in Ht as [He Ht]. destruct (IH Ht) as [Hp Hz]. rewrite active_tickets_cons.
    split; [case_match; lia|]. split.
    + intros Hsum x [->|Hx]%elem_of_cons; [destruct (active e); [lia|done]|].
      apply Hz; [case_match; lia|done].
    + intros Hall. rewrite (Hall e) by left. cbn. apply Hz. intros x Hx. apply Hall. by right.
Qed.

Lemma last_active_spec js :
  match last_active js with
  | Some i => exists e, js !! i = Some e /\ active e = true
  | None => forall e, e ∈ js -> active e = false
  end.
Proof.
  unfold last_active. destruct (last _) as [i|] eqn:Hl.
  - apply last_Some_elem_of, list_elem_of_In, filter_In in Hl as [Hi Ha].
    apply list_elem_of_In, elem_of_seq in Hi.
    exists (js !!! i). split; [apply list_lookup_lookup_total_lt; lia|done].
  - intros e [i Hi]%list_elem_of_lookup. apply last_None in Hl.
    destruct (active e) eqn:Ha; [|done].
    assert (i ∈ List.filter (fun i => active (js !!! i)) (seq 0 (length js))) as Hin.
    { apply list_elem_of_In, filter_In. rewrite (list_lookup_total_correct _ _ _ Hi). split; [|done].
      apply list_elem_of_In, elem_of_seq. apply lookup_lt_Some in Hi. lia. }
    rewrite Hl in Hin. by apply not_elem_of_nil in Hin.
Qed.

(** ** Properties *)

(** C25: scheduling by level.  On every reachable scheduler whose queues were
    never overfilled, [ps_schedule_next] (MLFQ or fixed priority) returns a job
    whenever one is active, never a cancelled or finished one; it returns the
    job with the smallest (level at submission, submission order), retires
    exactly that job, and leaves the others.  Boosts, inheritance and aging, which happen
    on the way, do not move a job ([ps_priority_changes_ignored]), though the source
    means them to. *)
Theorem ps_schedule_next_picks s now now2 :
  ps_reachable s -> algorithm s <> PS_SCHED_LOTTERY ->
  picked (auto_age s now) (ps_schedule_next s now now2).
Proof.
  intros [qs Hinv]%ps_reachable_inv Ha. rewrite next_is_mlfq by done.
  by eapply schedule_mlfq_spec, auto_age_inv.
Qed.

(** Boosts have no effect.  Raising a job's priority by hand, by
    inheritance or by aging does not move it between queues, so two schedulers
    with the same jobs hand out the same sequence of jobs, whatever the current
    priorities are. *)
Theorem ps_priority_changes_ignored s s' clock :
  ps_reachable s -> algorithm s <> PS_SCHED_LOTTERY ->
  (exists i p, s' = (ps_boost_priority s i p).2) \/
  (exists h w, s' = (ps_priority_inherit s h w).2) \/
  (exists i, s' = (ps_restore_priority s i).2) \/
  (exists now, s' = (ps_age_jobs s now).2) ->
  schedule_ids s' clock = schedule_ids s clock.
Proof.
  intros Hr Ha Hs. pose proof (ps_reachable_inv s Hr) as [qs Hinv].
  assert (Hrefl : same_jobs (jobs s) (jobs s)) by by apply Forall_Forall2_diag, Forall_true.
  assert (Halt : forall f i, (forall e, id (f e) = id e /\ original_priority (f e) = original_priority e /\
    active (f e) = active e) -> same_jobs (jobs s) (alter f i (jobs s))).
  { intros f i Hf. apply Forall2_alter_r; [exact Hrefl|]. intros e e' _ _ ?.
    destruct (Hf e') as (-> & -> & ->). done. }
  assert (ps_step s s' /\ same_jobs (jobs s) (jobs s') /\ algorithm s' = algorithm s) as (Hstep & Hsame & Hal).
  { destruct Hs as [(i & p & ->)|[(h & w & ->)|[(i & ->)|(now & ->)]]].
    - split; [constructor|]. unfold ps_boost_priority. repeat case_match; split; try done. by apply Halt.
    - split; [constructor|]. unfold ps_priority_inherit. repeat case_match; split; try done. by apply Halt.
    - split; [constructor|]. unfold ps_restore_priority. repeat case_match; split; try done. by apply Halt.
    - split; [constructor|]. split; [|done]. apply (same_jobs_map (age_job s now)).
      intros e. unfold age_job. by case_match. }
  destruct (ps_step_inv s s' qs Hinv Hstep) as [qs' Hinv'].
  symmetry. by eapply schedule_ids_same.
Qed.

(** The lottery draws an active job whenever there is one, and nothing
    otherwise; below 2^21 tickets in total, where the product of doubles is
    exact, the winner is the job whose ticket range holds the drawn number. *)
Theorem ps_lottery_select_correct s seed :
  ps_reachable s ->
  let total := active_tickets (jobs s) in
  let w := u32 (seed * 1664525 + 1013904223) * total / 2 ^ 32 in
  match (ps_lottery_select s seed).1 with
  | None => forall e, e ∈ jobs s -> active e = false
  | Some i => exists e, jobs s !! i = Some e /\ active e = true /\
      (total < 2 ^ 21 -> 0 <= w < total /\
        tickets_before (jobs s) i <= w < tickets_before (jobs s) i + tickets e)
  end.
Proof.
  intros [qs Hinv]%ps_reachable_inv. cbv zeta. pose proof (pi_tickets _ _ Hinv) as Ht.
  destruct (active_tickets_pos (jobs s) Ht) as [Hpos Hzero]. unfold ps_lottery_select.
  set (total := active_tickets (jobs s)) in *. set (sd := u32 _).
  pose proof (u32_range (seed * 1664525 + 1013904223)) as Hsd. fold sd in Hsd.
  destruct (Z.eqb_spec total 0) as [Hz|Hnz]; cbn [fst]; [by apply Hzero|].
  assert (Hw0 : 0 <= lottery_winner sd total).
  { unfold lottery_winner, round53. apply Z.div_pos; [|done]. case_match; [nia|]. zbool.
    apply Z.mul_nonneg_nonneg; [|lia].
    assert (0 <= sd * total / 2 ^ (Z.log2 (sd * total) - 52)) by (apply Z_div_nonneg_nonneg; nia).
    case_match; lia. }
  assert (Hexact : total < 2 ^ 21 -> lottery_winner sd total = sd * total / 2 ^ 32 /\
    0 <= sd * total / 2 ^ 32 < total).
  { intros Hlt. unfold lottery_winner, round53. rewrite (proj2 (Z.ltb_lt _ _)) by nia.
    split; [done|]. split; [apply Z.div_pos; nia|]. apply Z.div_lt_upper_bound; nia. }
  pose proof (lottery_scan_spec (jobs s) 0 0 (lottery_winner sd total) Ht Hw0) as Hscan.
  destruct (lottery_scan _ _ _ _) as [i|]; cbn [fst].
  - destruct Hscan as (k & e & -> & Hk & Ha & Hb). exists e. split; [done|]. split; [done|].
    intros Hlt. destruct (Hexact Hlt) as [He Hr]. rewrite He in Hb. split; [done|]. cbn [Nat.add]. lia.
  - pose proof (last_active_spec (jobs s)) as Hlast. destruct (last_active (jobs s)) as [i|]; [|done].
    destruct Hlast as (e & Hi & Ha). exists e. split; [done|]. split; [done|].
    intros Hlt. destruct (Hexact Hlt) as [He Hr]. fold total in Hscan. lia.
Qed.

(** Submitting [n] jobs with ids 0, 1, ... at level 0. *)
Definition submit_many (n : nat) (s : ps_scheduler) : ps_scheduler :=
  foldl (fun s i => (ps_submit s (Z.of_nat i) (Some 1) 0 0 1 0).2) s (seq 0 n).

(** The level queues overflow silently.  A level holds 64 indices, but
    [ps_submit] accepts up to 256 jobs; with 65 jobs at one level the 65th
    overwrites the oldest, is run first, and the oldest job stays active for ever:
    after every other job has run the scheduler reports a job and returns none. *)
Theorem ps_level_overflow_loses_job :
  let s := submit_many 65 (ps_create None 0) in
  let run := schedule_ids s (replicate 66 (0, 0)) in
  let s' := foldl (fun s _ => (ps_schedule_next s 0 0).2) s (replicate 66 tt) in
  run = (Some <$> (64 :: (Z.of_nat <$> seq 1 63))) ++ [None; None] /\
  ps_queue_size s' = 1 /\ id <$> List.filter active (jobs s') = [0].
Proof. vm_compute. repeat split. Qed.

(** ** Witnesses *)

Definition ps_small : ps_scheduler :=
  (ps_submit (ps_submit (ps_create None 0) 1 (Some 1) 0 2 1 0).2 2 (Some 1) 0 1 1 0).2.

Lemma ps_small_reachable : ps_reachable ps_small.
Proof.
  exists None, 0. unfold ps_small.
  eapply rtc_r; [eapply rtc_once|]; apply pss_submit; vm_compute; lia.
Qed.

Lemma ps_schedule_next_picks_witness :
  picked ps_small (ps_schedule_next ps_small 0 0) /\ id <$> (ps_schedule_next ps_small 0 0).1 = Some 2.
Proof.
  split; [|reflexivity]. apply (ps_schedule_next_picks ps_small 0 0 ps_small_reachable). discriminate.
Defined.

Lemma ps_priority_changes_ignored_witness :
  schedule_ids (ps_boost_priority ps_small 1 0).2 [(0, 0); (0, 0)] = [Some 2; Some 1].
Proof.
  rewrite (ps_priority_changes_ignored ps_small (ps_boost_priority ps_small 1 0).2 [(0, 0); (0, 0)]
    ps_small_reachable); [reflexivity|discriminate|]. left. exists 1, 0. reflexivity.
Defined.

Lemma ps_lottery_select_correct_witness :
  exists i e, (ps_lottery_select ps_small 5).1 = Some i /\ jobs ps_small !! i = Some e /\ active e = true.
Proof.
  pose proof (ps_lottery_select_correct ps_small 5 ps_small_reachable) as H.
  destruct (ps_lottery_select ps_small 5).1 as [i|] eqn:Hl; [|exfalso; vm_compute in Hl; discriminate].
  destruct H as (e & He & Ha & _). exists i, e. split; [reflexivity|]. split; [exact He|exact Ha].
Defined.
