(* ===== verification/Arith.v ===== *)
(** Arithmetic on C doubles.

    The components that compute with [double] are modelled over any type with
    the operations the source uses ([Arith]).  The laws the theorems need
    ([ArithLaws]) are order laws that IEEE 754 arithmetic has on finite numbers
    (rounding is monotone); NaN is not modelled.  [Q], exact arithmetic, is an
    instance: the witnesses evaluate in it. *)

From Stdlib Require Import QArith Qround Qabs Lqa.
From S2P Require Import Prelude.
#[local] Open Scope Z_scope.

Class Arith (D : Type) := {
  of_Z : Z -> D;
  trunc : D -> Z;
  add : D -> D -> D;
  sub : D -> D -> D;
  mul : D -> D -> D;
  div : D -> D -> D;
  leb : D -> D -> bool;
}.

(** [x < y] between numbers. *)
Definition ltb {D} `{Arith D} (x y : D) : bool := negb (leb y x).

Class ArithLaws (D : Type) `{Arith D} := {
  leb_refl : forall x, leb x x = true;
  leb_trans : forall x y z, leb x y = true -> leb y z = true -> leb x z = true;
  leb_total : forall x y, leb x y = true \/ leb y x = true;
  leb_of_Z : forall x y, x <= y -> leb (of_Z x) (of_Z y) = true;
  leb_add : forall x y, leb (of_Z 0) y = true -> leb x (add x y) = true;
  leb_sub : forall x y, leb (of_Z 0) y = true -> leb (sub x y) x = true;
  leb_sub_0 : forall x y, leb y x = true -> leb (of_Z 0) (sub x y) = true;
  leb_mul_0 : forall x y, leb (of_Z 0) x = true -> leb (of_Z 0) y = true -> leb (of_Z 0) (mul x y) = true;
  leb_div_0 : forall x y, leb (of_Z 0) x = true -> ltb (of_Z 0) y = true -> leb (of_Z 0) (div x y) = true;
  ltb_of_Z : forall x y, x < y -> ltb (of_Z x) (of_Z y) = true;
  leb_0_1 : leb (of_Z 1) (of_Z 0) = false;
}.

(** ** Order lemmas *)

Section laws.
Context {D : Type} `{HA : Arith D} `{HL : !ArithLaws D}.
Implicit Types x y z : D.

Lemma leb_false x y : leb x y = false -> leb y x = true.
Proof. intros Hf. destruct (leb_total x y); congruence. Qed.
Lemma ltb_true x y : ltb x y = true -> leb x y = true.
Proof. unfold ltb. intros Hl%negb_true_iff. by apply leb_false. Qed.
Lemma ltb_false x y : ltb x y = false -> leb y x = true.
Proof. unfold ltb. by intros Hl%negb_false_iff. Qed.
Lemma ltb_irrefl x : ltb x x = false.
Proof. unfold ltb. by rewrite leb_refl. Qed.

Definition nonneg x : Prop := leb (of_Z 0) x = true.
Definition within x y : Prop := nonneg x /\ leb x y = true.

Lemma within_0 x y : within x y -> within (of_Z 0) y.
Proof. intros [H0 Hx]. split; [apply leb_refl|by eapply leb_trans]. Qed.
Lemma within_max x y : within x y -> within y y.
Proof. intros [H0 Hx]. split; [by eapply leb_trans|apply leb_refl]. Qed.
Lemma within_add x y z : within x z -> nonneg y -> leb (add x y) z = true -> within (add x y) z.
Proof. intros [H0 Hx] Hy Hz. split; [|done]. eapply leb_trans; [exact H0|by apply leb_add]. Qed.
Lemma within_sub x y z : within x z -> nonneg y -> leb y x = true -> within (sub x y) z.
Proof. intros [H0 Hx] Hy Hz. split; [by apply leb_sub_0|]. eapply leb_trans; [by apply leb_sub|done]. Qed.
Lemma nonneg_of_Z n : 0 <= n -> nonneg (of_Z n).
Proof. intros. by apply leb_of_Z. Qed.
End laws.

(** ** Exact arithmetic *)

#[export] Instance Q_arith : Arith Q := {
  of_Z := inject_Z;
  trunc q := Z.quot (Qnum q) (Zpos (Qden q));
  add := Qplus; sub := Qminus; mul := Qmult; div := Qdiv;
  leb := Qle_bool;
}.

#[export] Instance Q_laws : ArithLaws Q.
Proof.
  split; cbn; intros; change (inject_Z 0) with 0%Q in *; change (inject_Z 1) with 1%Q in *;
    rewrite ?Qle_bool_iff in *; try lra.
  - by rewrite <- Zle_Qle.
  - by apply Qmult_le_0_compat.
  - apply Qmult_le_0_compat; [done|]. apply Qinv_le_0_compat.
    unfold ltb in H0. cbn [leb Q_arith of_Z] in H0. change (inject_Z 0) with 0%Q in H0.
    apply negb_true_iff in H0. destruct (Qlt_le_dec 0 y) as [|Hy]; [by apply Qlt_le_weak|].
    apply Qle_bool_iff in Hy. by rewrite Hy in H0.
  - unfold ltb. cbn [leb Q_arith of_Z]. apply negb_true_iff.
    destruct (Qle_bool (inject_Z y) (inject_Z x)) eqn:Hq; [|done].
    apply Qle_bool_iff in Hq. rewrite <- Zle_Qle in Hq. lia.
  - done.
Qed.

(** ** Rounded arithmetic

    A finite double is a rational number, and an operation gives the exact result rounded by
    [rnd]; whole numbers, here differences of times, are exact, as they are below 2^53. *)

Definition rounded (rnd : Q -> Q) : Arith Q := {|
  of_Z := inject_Z;
  trunc q := Z.quot (Qnum q) (Zpos (Qden q));
  add x y := rnd (x + y)%Q; sub x y := rnd (x - y)%Q; mul x y := rnd (x * y)%Q; div x y := rnd (x / y)%Q;
  leb := Qle_bool;
|}.

(** The standard model of rounding: it is monotone, and its error is at most a part [u] of the
    number, and [eta] for numbers next to zero.  For doubles rounded to the nearest, [u] is
    2^-53 and [eta] 2^-1075. *)
Record rounding (rnd : Q -> Q) (u eta : Q) : Prop := {
  rnd_mono : forall x y, (x <= y)%Q -> (rnd x <= rnd y)%Q;
  rnd_zero : (rnd 0 == 0)%Q;
  rnd_error : forall x, (Qabs (rnd x - x) <= u * Qabs x + eta)%Q;
  rnd_parts : (0 <= u)%Q /\ (0 <= eta)%Q;
}.

Section rounded.
Context (rnd : Q -> Q) (u eta : Q) (Hrnd : rounding rnd u eta).
Implicit Types x y : Q.

Lemma rnd_up x : (0 <= x)%Q -> (rnd x <= (1 + u) * x + eta)%Q.
Proof. intros Hx. pose proof (rnd_error _ _ _ Hrnd x) as He. rewrite (Qabs_pos x) in He by done. apply Qabs_Qle_condition in He as [_ He]. lra. Qed.
Lemma rnd_nonneg x : (0 <= x)%Q -> (0 <= rnd x)%Q.
Proof. intros Hx. rewrite <- (rnd_zero _ _ _ Hrnd). by apply (rnd_mono _ _ _ Hrnd). Qed.
Lemma rnd_below x y : (rnd y == y)%Q -> (x <= y)%Q -> (rnd x <= y)%Q.
Proof. intros Hy Hx. rewrite <- Hy. by apply (rnd_mono _ _ _ Hrnd). Qed.
End rounded.

(** Exact arithmetic is a rounding, and so is cutting off behind the [k]-th part. *)
Lemma exact_rounding : rounding (fun q => q) 0 0.
Proof.
  split; [done|done| |split; apply Qle_refl]. intros x. assert (E : (x - x == 0)%Q) by ring. rewrite E. change (Qabs 0) with 0%Q. lra.
Qed.
Definition cut_off (k : positive) (q : Q) : Q := Qfloor (q * inject_Z (Zpos k)) # k.
Lemma cut_off_rounding k : rounding (cut_off k) 0 (1 # k).
Proof.
  assert (Hdiv : forall n, (n # k == inject_Z n * (1 # k))%Q) by (intros n; unfold Qeq, inject_Z; cbn; lia).
  assert (Hk : (inject_Z (Zpos k) * (1 # k) == 1)%Q) by (unfold Qeq, inject_Z; cbn; lia).
  assert (Hpos : (0 <= 1 # k)%Q) by done. split.
  - intros x y Hxy. unfold cut_off. rewrite (Hdiv (Qfloor (x * _))), (Hdiv (Qfloor (y * _))). apply Qmult_le_compat_r; [|done]. rewrite <- Zle_Qle. apply Qfloor_resp_le. by apply Qmult_le_compat_r.
  - unfold cut_off. change (0 * inject_Z (Zpos k))%Q with (inject_Z 0). by rewrite Qfloor_Z.
  - intros x. unfold cut_off. rewrite (Hdiv (Qfloor _)). pose proof (Qfloor_le (x * inject_Z (Zpos k))) as H1. pose proof (Qlt_floor (x * inject_Z (Zpos k))) as H2.
    set (f := Qfloor _) in *. rewrite inject_Z_plus in H2. apply (Qmult_le_compat_r _ _ (1 # k)) in H1; [|done]. apply Qlt_le_weak, (Qmult_le_compat_r _ _ (1 # k)) in H2; [|done].
    assert (E : (x * inject_Z (Zpos k) * (1 # k) == x)%Q) by (rewrite <- Qmult_assoc, Hk; ring). rewrite E in *.
    apply Qabs_Qle_condition. change (inject_Z 1) with 1%Q in H2. split; lra.
  - split; [apply Qle_refl|done].
Qed.
