(* ===== verification/RateLimiter.v ===== *)
(** Model of [mini-job-system/src/rate_limiter.c]: token bucket, leaky bucket,
    sliding window and fixed window behind one dispatcher.

    Quantities are C doubles, over any [Arith]; the bound on the tokens consumed
    is proved for rounded arithmetic.  Each [time(NULL)] is an argument. *)

From Stdlib Require Import QArith Lqa.
From S2P Require Import Prelude Arith.
#[local] Open Scope Z_scope.

Section limiter.
Context {D : Type} `{Arith D}.

Inductive rl_type := RL_TYPE_TOKEN_BUCKET | RL_TYPE_LEAKY_BUCKET | RL_TYPE_SLIDING_WINDOW | RL_TYPE_FIXED_WINDOW.

Record rl_token_bucket := mk_tb { tb_rate : D; tb_burst : D; tb_tokens : D; tb_last_refill : Z }.
Record rl_leaky_bucket := mk_lb { lb_rate : D; lb_capacity : D; lb_water_level : D; lb_last_leak : Z }.
Record rl_window_entry := mk_we { we_timestamp : Z; we_cost : D }.
Record rl_sliding_window := mk_sw {
  sw_window_sec : D; sw_max_cost : D; sw_current_cost : D;
  sw_entries : list rl_window_entry; sw_count : nat; sw_head : nat;
}.
Record rl_fixed_window := mk_fx { fx_window_sec : D; fx_max_count : D; fx_count : D; fx_window_start : Z }.

Inductive rate_limiter :=
  | Token (tb : rl_token_bucket)
  | Leaky (lb : rl_leaky_bucket)
  | Sliding (sw : rl_sliding_window)
  | Fixed (fx : rl_fixed_window).

Definition RL_ENTRIES : nat := 256.
#[global] Arguments RL_ENTRIES : simpl never.

#[export] Instance rl_window_entry_inhabited : Inhabited rl_window_entry :=
  populate (mk_we 0 (of_Z 0)).

(** ** Token bucket *)

Definition rl_token_refill (tb : rl_token_bucket) (now : Z) : rl_token_bucket :=
  if now <=? tb_last_refill tb then tb
  else
    let tokens := add (tb_tokens tb) (mul (tb_rate tb) (of_Z (now - tb_last_refill tb))) in
    mk_tb (tb_rate tb) (tb_burst tb) (if ltb (tb_burst tb) tokens then tb_burst tb else tokens) now.

Definition rl_token_bucket_init (rate burst : D) (now : Z) : rate_limiter :=
  let b := if ltb rate burst then burst else rate in
  Token (mk_tb (if ltb (of_Z 0) rate then rate else of_Z 1) b b now).

Definition token_consume (tb : rl_token_bucket) (cost : D) (consume : bool) (now : Z)
    : bool * rl_token_bucket :=
  let tb := rl_token_refill tb now in
  if leb cost (tb_tokens tb)
  then (true, if consume then mk_tb (tb_rate tb) (tb_burst tb) (sub (tb_tokens tb) cost) (tb_last_refill tb) else tb)
  else (false, tb).

Definition token_time_until_next (tb : rl_token_bucket) (cost : D) : D :=
  let deficit := sub cost (tb_tokens tb) in
  if leb deficit (of_Z 0) then of_Z 0 else div deficit (tb_rate tb).
Definition token_usage_ratio (tb : rl_token_bucket) : D := sub (of_Z 1) (div (tb_tokens tb) (tb_burst tb)).
Definition token_remaining (tb : rl_token_bucket) : D := tb_tokens tb.

(** ** Leaky bucket *)

Definition rl_leaky_drain (lb : rl_leaky_bucket) (now : Z) : rl_leaky_bucket :=
  if now <=? lb_last_leak lb then lb
  else
    let w := sub (lb_water_level lb) (mul (lb_rate lb) (of_Z (now - lb_last_leak lb))) in
    mk_lb (lb_rate lb) (lb_capacity lb) (if ltb w (of_Z 0) then of_Z 0 else w) now.

Definition rl_leaky_bucket_init (rate capacity : D) (now : Z) : rate_limiter :=
  Leaky (mk_lb (if ltb (of_Z 0) rate then rate else of_Z 1)
           (if ltb (of_Z 0) capacity then capacity else rate) (of_Z 0) now).

Definition leaky_consume (lb : rl_leaky_bucket) (cost : D) (consume : bool) (now : Z)
    : bool * rl_leaky_bucket :=
  let lb := rl_leaky_drain lb now in
  if leb (add (lb_water_level lb) cost) (lb_capacity lb)
  then (true, if consume then mk_lb (lb_rate lb) (lb_capacity lb) (add (lb_water_level lb) cost) (lb_last_leak lb) else lb)
  else (false, lb).

Definition leaky_time_until_next (lb : rl_leaky_bucket) (cost : D) : D :=
  let available := sub (lb_capacity lb) (lb_water_level lb) in
  if leb cost available then of_Z 0 else div (sub cost available) (lb_rate lb).
Definition leaky_usage_ratio (lb : rl_leaky_bucket) : D := div (lb_water_level lb) (lb_capacity lb).
Definition leaky_remaining (lb : rl_leaky_bucket) : D := sub (lb_capacity lb) (lb_water_level lb).

(** ** Sliding window.  Each round of the loop takes an entry off: it is on [count]. *)

Fixpoint prune_loop (n : nat) (cutoff : Z) (sw : rl_sliding_window) : rl_sliding_window :=
  match n with
  | O => sw
  | S n' =>
      let entry := sw_entries sw !!! sw_head sw in
      if cutoff <=? we_timestamp entry then sw
      else prune_loop n' cutoff
             (mk_sw (sw_window_sec sw) (sw_max_cost sw) (sub (sw_current_cost sw) (we_cost entry))
                (sw_entries sw) (Nat.pred (sw_count sw)) ((sw_head sw + 1) mod RL_ENTRIES)%nat)
  end.

Definition rl_sliding_prune (sw : rl_sliding_window) (now : Z) : rl_sliding_window :=
  let cutoff := now - trunc (sw_window_sec sw) in
  let cutoff := if cutoff <? 0 then 0 else cutoff in
  let sw := prune_loop (sw_count sw) cutoff sw in
  if ltb (sw_current_cost sw) (of_Z 0)
  then mk_sw (sw_window_sec sw) (sw_max_cost sw) (of_Z 0) (sw_entries sw) (sw_count sw) (sw_head sw)
  else sw.

Definition rl_sliding_window_init (window_sec max_cost : D) : rate_limiter :=
  Sliding (mk_sw (if ltb (of_Z 0) window_sec then window_sec else of_Z 1)
             (if ltb (of_Z 0) max_cost then max_cost else of_Z 1) (of_Z 0)
             (replicate RL_ENTRIES inhabitant) 0 0).

(** [now2] is the clock reading stored in the entry. *)
Definition sliding_consume (sw : rl_sliding_window) (cost : D) (consume : bool) (now now2 : Z)
    : bool * rl_sliding_window :=
  let sw := rl_sliding_prune sw now in
  if leb (add (sw_current_cost sw) cost) (sw_max_cost sw)
  then (true,
        if consume then
          mk_sw (sw_window_sec sw) (sw_max_cost sw) (add (sw_current_cost sw) cost)
            (<[((sw_head sw + sw_count sw) mod RL_ENTRIES)%nat := mk_we now2 cost]> (sw_entries sw))
            (S (sw_count sw)) (sw_head sw)
        else sw)
  else (false, sw).

Definition sliding_time_until_next (sw : rl_sliding_window) (cost : D) (now : Z) : D :=
  if leb (add (sw_current_cost sw) cost) (sw_max_cost sw) then of_Z 0
  else if (sw_count sw =? 0)%nat then of_Z 0
  else
    let t := of_Z (we_timestamp (sw_entries sw !!! sw_head sw) + trunc (sw_window_sec sw) - now) in
    if ltb t (of_Z 0) then of_Z 0 else t.
Definition sliding_usage_ratio (sw : rl_sliding_window) : D := div (sw_current_cost sw) (sw_max_cost sw).
Definition sliding_remaining (sw : rl_sliding_window) : D := sub (sw_max_cost sw) (sw_current_cost sw).

(** ** Fixed window *)

Definition rl_fixed_window_init (window_sec max_count : D) (now : Z) : rate_limiter :=
  Fixed (mk_fx (if ltb (of_Z 0) window_sec then window_sec else of_Z 1)
           (if ltb (of_Z 0) max_count then max_count else of_Z 1) (of_Z 0) now).

Definition fixed_roll (fx : rl_fixed_window) (now : Z) : rl_fixed_window :=
  if leb (fx_window_sec fx) (of_Z (now - fx_window_start fx))
  then mk_fx (fx_window_sec fx) (fx_max_count fx) (of_Z 0) now else fx.

Definition fixed_consume (fx : rl_fixed_window) (cost : D) (consume : bool) (now : Z)
    : bool * rl_fixed_window :=
  let fx := fixed_roll fx now in
  if leb (add (fx_count fx) cost) (fx_max_count fx)
  then (true, if consume then mk_fx (fx_window_sec fx) (fx_max_count fx) (add (fx_count fx) cost) (fx_window_start fx) else fx)
  else (false, fx).

Definition fixed_time_until_next (fx : rl_fixed_window) (now : Z) : D :=
  if ltb (fx_count fx) (fx_max_count fx) then of_Z 0
  else sub (fx_window_sec fx) (of_Z (now - fx_window_start fx)).
Definition fixed_usage_ratio (fx : rl_fixed_window) : D := div (fx_count fx) (fx_max_count fx).
Definition fixed_remaining (fx : rl_fixed_window) : D := sub (fx_max_count fx) (fx_count fx).

(** ** Dispatcher.  [t1], [t2], [t3]: the clock readings in program order. *)

Definition rl_consume (rl : rate_limiter) (cost : D) (t1 t2 t3 : Z) : bool * rate_limiter :=
  if leb cost (of_Z 0) then (true, rl)
  else match rl with
  | Token tb => let r := token_consume (rl_token_refill tb t1) cost true t2 in (r.1, Token r.2)
  | Leaky lb => let r := leaky_consume (rl_leaky_drain lb t1) cost true t2 in (r.1, Leaky r.2)
  | Sliding sw => let r := sliding_consume (rl_sliding_prune sw t1) cost true t2 t3 in (r.1, Sliding r.2)
  | Fixed fx => let r := fixed_consume fx cost true t1 in (r.1, Fixed r.2)
  end.

Definition rl_consume_nowait (rl : rate_limiter) (cost : D) (t1 : Z) : bool * rate_limiter :=
  if leb cost (of_Z 0) then (true, rl)
  else match rl with
  | Token tb => let r := token_consume tb cost false t1 in (r.1, Token r.2)
  | Leaky lb => let r := leaky_consume lb cost false t1 in (r.1, Leaky r.2)
  | Sliding sw => let r := sliding_consume sw cost false t1 0 in (r.1, Sliding r.2)
  | Fixed fx => let r := fixed_consume fx cost false t1 in (r.1, Fixed r.2)
  end.

Definition rl_would_allow (rl : rate_limiter) (cost : D) (t1 : Z) : bool * rate_limiter :=
  rl_consume_nowait rl cost t1.

Definition rl_time_until_next (rl : rate_limiter) (cost : D) (now : Z) : D :=
  match rl with
  | Token tb => token_time_until_next tb cost
  | Leaky lb => leaky_time_until_next lb cost
  | Sliding sw => sliding_time_until_next sw cost now
  | Fixed fx => fixed_time_until_next fx now
  end.

Definition rl_reset (rl : rate_limiter) (now : Z) : rate_limiter :=
  match rl with
  | Token tb => Token (mk_tb (tb_rate tb) (tb_burst tb) (tb_burst tb) now)
  | Leaky lb => Leaky (mk_lb (lb_rate lb) (lb_capacity lb) (of_Z 0) now)
  | Sliding sw => Sliding (mk_sw (sw_window_sec sw) (sw_max_cost sw) (of_Z 0) (sw_entries sw) 0 0)
  | Fixed fx => Fixed (mk_fx (fx_window_sec fx) (fx_max_count fx) (of_Z 0) now)
  end.

Definition rl_usage_ratio (rl : rate_limiter) : D :=
  match rl with
  | Token tb => token_usage_ratio tb
  | Leaky lb => leaky_usage_ratio lb
  | Sliding sw => sliding_usage_ratio sw
  | Fixed fx => fixed_usage_ratio fx
  end.

Definition rl_remaining (rl : rate_limiter) : D :=
  match rl with
  | Token tb => token_remaining tb
  | Leaky lb => leaky_remaining lb
  | Sliding sw => sliding_remaining sw
  | Fixed fx => fixed_remaining fx
  end.
End limiter.
#[global] Arguments rl_token_bucket D : clear implicits.
#[global] Arguments rl_leaky_bucket D : clear implicits.
#[global] Arguments rl_window_entry D : clear implicits.
#[global] Arguments rl_sliding_window D : clear implicits.
#[global] Arguments rl_fixed_window D : clear implicits.
#[global] Arguments rate_limiter D : clear implicits.

(** ** Levels *)

Section laws.
Context {D : Type} `{HA : Arith D} `{HL : !ArithLaws D}.
Implicit Types x y z : D.

(** ** Levels stay in range *)

Definition level_ok (rl : rate_limiter D) : Prop :=
  match rl with
  | Token tb => nonneg (tb_rate tb) /\ within (tb_tokens tb) (tb_burst tb)
  | Leaky lb => nonneg (lb_rate lb) /\ within (lb_water_level lb) (lb_capacity lb)
  | Sliding sw => within (sw_current_cost sw) (sw_max_cost sw) /\
      Forall (fun e => nonneg (we_cost e)) (sw_entries sw)
  | Fixed fx => within (fx_count fx) (fx_max_count fx)
  end.

Lemma refill_ok tb now : level_ok (Token tb) -> level_ok (Token (rl_token_refill tb now)).
Proof.
  intros [Hr Hw]. unfold rl_token_refill. destruct (Z.leb_spec now (tb_last_refill tb)); [done|].
  split; [done|]. cbn. destruct (ltb (tb_burst tb) _) eqn:Hl.
  - by eapply within_max.
  - apply within_add; [done|by apply leb_mul_0, nonneg_of_Z; [|lia]|by apply ltb_false].
Qed.

Lemma drain_ok lb now : level_ok (Leaky lb) -> level_ok (Leaky (rl_leaky_drain lb now)).
Proof.
  intros [Hr Hw]. unfold rl_leaky_drain. destruct (Z.leb_spec now (lb_last_leak lb)); [done|].
  split; [done|]. cbn. destruct (ltb _ (of_Z 0)) eqn:Hl; [by eapply within_0|].
  split; [by apply ltb_false|]. destruct Hw as [_ Hw]. eapply leb_trans; [|exact Hw].
  by apply leb_sub, leb_mul_0, nonneg_of_Z; [|lia].
Qed.

Lemma prune_loop_below n cutoff : forall sw,
  Forall (fun e => nonneg (we_cost e)) (sw_entries sw) ->
  let sw' := prune_loop n cutoff sw in
  leb (sw_current_cost sw') (sw_current_cost sw) = true /\ sw_max_cost sw' = sw_max_cost sw /\
  sw_entries sw' = sw_entries sw.
Proof.
  induction n as [|n IH]; intros sw He; cbn [prune_loop]; [by rewrite leb_refl|].
  destruct (cutoff <=? _); [by rewrite leb_refl|].
  match goal with |- context [prune_loop n cutoff ?s] => destruct (IH s He) as (Hle & -> & ->) end.
  split; [|done]. eapply leb_trans; [exact Hle|]. cbn. apply leb_sub.
  rewrite list_lookup_total_alt. destruct (sw_entries sw !! sw_head sw) as [e|] eqn:Hl; cbn.
  - by eapply (Forall_lookup_1 _ _ _ _ He).
  - apply leb_refl.
Qed.

Lemma prune_ok sw now : level_ok (Sliding sw) -> level_ok (Sliding (rl_sliding_prune sw now)).
Proof.
  intros [Hw He]. unfold rl_sliding_prune. set (cutoff := if _ : bool then 0 else _).
  destruct (prune_loop_below (sw_count sw) cutoff sw He) as (Hle & Hm & Hes).
  set (sw1 := prune_loop _ _ _) in *. destruct (ltb (sw_current_cost sw1) (of_Z 0)) eqn:Hl.
  - split; cbn; rewrite ?Hm, ?Hes; [by eapply within_0|done].
  - split; cbn; rewrite ?Hm, ?Hes; [|done]. split; [by apply ltb_false|].
    destruct Hw as [_ Hw]. by eapply leb_trans.
Qed.

Lemma roll_ok fx now : level_ok (Fixed fx) -> level_ok (Fixed (fixed_roll fx now)).
Proof. cbn. intros Hw. unfold fixed_roll. case_match; [by eapply within_0|done]. Qed.

Lemma token_consume_ok tb cost c now :
  nonneg cost -> level_ok (Token tb) -> level_ok (Token (token_consume tb cost c now).2).
Proof.
  intros Hc Hok. unfold token_consume. pose proof (refill_ok tb now Hok) as [Hr Hw].
  destruct (leb cost _) eqn:Hle; [|done]. destruct c; [|done]. split; [done|]. by apply within_sub.
Qed.

Lemma leaky_consume_ok lb cost c now :
  nonneg cost -> level_ok (Leaky lb) -> level_ok (Leaky (leaky_consume lb cost c now).2).
Proof.
  intros Hc Hok. unfold leaky_consume. pose proof (drain_ok lb now Hok) as [Hr Hw].
  destruct (leb _ _) eqn:Hle; [|done]. destruct c; [|done]. split; [done|]. by apply within_add.
Qed.

Lemma sliding_consume_ok sw cost c now now2 :
  nonneg cost -> level_ok (Sliding sw) -> level_ok (Sliding (sliding_consume sw cost c now now2).2).
Proof.
  intros Hc Hok. unfold sliding_consume. pose proof (prune_ok sw now Hok) as [Hw He].
  destruct (leb _ _) eqn:Hle; [|done]. destruct c; [|done]. split; cbn; [by apply within_add|].
  by apply Forall_insert.
Qed.

Lemma fixed_consume_ok fx cost c now :
  nonneg cost -> level_ok (Fixed fx) -> level_ok (Fixed (fixed_consume fx cost c now).2).
Proof.
  intros Hc Hok. unfold fixed_consume. pose proof (roll_ok fx now Hok) as Hw.
  destruct (leb _ _) eqn:Hle; [|done]. destruct c; [|done]. by apply within_add.
Qed.

Inductive rl_step (rl : rate_limiter D) : rate_limiter D -> Prop :=
  | rls_consume cost t1 t2 t3 : rl_step rl (rl_consume rl cost t1 t2 t3).2
  | rls_nowait cost t : rl_step rl (rl_consume_nowait rl cost t).2
  | rls_reset now : rl_step rl (rl_reset rl now).

Lemma rl_step_ok rl rl' : level_ok rl -> rl_step rl rl' -> level_ok rl'.
Proof.
  intros Hok [cost t1 t2 t3|cost t|now].
  - unfold rl_consume. destruct (leb cost (of_Z 0)) eqn:Hc; [done|]. apply leb_false in Hc.
    destruct rl as [tb|lb|sw|fx]; cbn [fst snd].
    + by apply token_consume_ok, refill_ok.
    + by apply leaky_consume_ok, drain_ok.
    + by apply sliding_consume_ok, prune_ok.
    + by apply fixed_consume_ok.
  - unfold rl_consume_nowait. destruct (leb cost (of_Z 0)) eqn:Hc; [done|]. apply leb_false in Hc.
    destruct rl as [tb|lb|sw|fx]; cbn [fst snd].
    + by apply token_consume_ok.
    + by apply leaky_consume_ok.
    + by apply sliding_consume_ok.
    + by apply fixed_consume_ok.
  - destruct rl as [tb|lb|sw|fx]; cbn in *.
    + destruct Hok as [Hr Hw]. split; [done|by eapply within_max].
    + destruct Hok as [Hr Hw]. split; [done|by eapply within_0].
    + destruct Hok as [Hw He]. split; [by eapply within_0|done].
    + by eapply within_0.
Qed.

(** The limiters the initialisers build from sensible parameters. *)
Inductive rl_init : rate_limiter D -> Prop :=
  | rli_token rate burst now : ltb (of_Z 0) rate = true -> rl_init (rl_token_bucket_init rate burst now)
  | rli_leaky rate capacity now : ltb (of_Z 0) rate = true -> rl_init (rl_leaky_bucket_init rate capacity now)
  | rli_sliding w m : rl_init (rl_sliding_window_init w m)
  | rli_fixed w m now : rl_init (rl_fixed_window_init w m now).

Lemma positive_default x : nonneg (if ltb (of_Z 0) x then x else of_Z 1).
Proof. destruct (ltb _ _) eqn:Hl; [by apply ltb_true|by apply nonneg_of_Z]. Qed.

Lemma rl_init_ok rl : rl_init rl -> level_ok rl.
Proof.
  intros [rate burst now Hr|rate capacity now Hr|w m|w m now].
  - split; [apply positive_default|]. cbn. apply ltb_true in Hr. destruct (ltb rate burst) eqn:Hb.
    + split; [|apply leb_refl]. eapply leb_trans; [exact Hr|by apply ltb_true].
    + split; [done|apply leb_refl].
  - split; [apply positive_default|]. cbn. split; [apply leb_refl|]. apply ltb_true in Hr.
    destruct (ltb _ capacity) eqn:Hc; [by apply ltb_true|done].
  - split; [split; [apply leb_refl|apply positive_default]|].
    apply (Forall_replicate (fun e => nonneg (we_cost e))). apply leb_refl.
  - split; [apply leb_refl|apply positive_default].
Qed.

Definition rl_reachable (rl : rate_limiter D) : Prop := exists rl0, rl_init rl0 /\ rtc rl_step rl0 rl.

Lemma rl_reachable_ok rl : rl_reachable rl -> level_ok rl.
Proof.
  intros (rl0 & Hi%rl_init_ok & Hr). induction Hr; [done|]. apply IHHr. by eapply rl_step_ok.
Qed.

(** ** Asking first *)

Lemma refill_idem tb now : rl_token_refill (rl_token_refill tb now) now = rl_token_refill tb now.
Proof.
  unfold rl_token_refill at 2 3. destruct (Z.leb_spec now (tb_last_refill tb)) as [Hle|Hlt].
  - unfold rl_token_refill. by rewrite (proj2 (Z.leb_le _ _)).
  - unfold rl_token_refill. cbn [tb_last_refill]. by rewrite Z.leb_refl.
Qed.

Lemma drain_idem lb now : rl_leaky_drain (rl_leaky_drain lb now) now = rl_leaky_drain lb now.
Proof.
  unfold rl_leaky_drain at 2 3. destruct (Z.leb_spec now (lb_last_leak lb)) as [Hle|Hlt].
  - unfold rl_leaky_drain. by rewrite (proj2 (Z.leb_le _ _)).
  - unfold rl_leaky_drain. cbn [lb_last_leak]. by rewrite Z.leb_refl.
Qed.

Lemma prune_loop_stops n cutoff : forall sw, (sw_count sw <= n)%nat ->
  let sw' := prune_loop n cutoff sw in
  sw_window_sec sw' = sw_window_sec sw /\
  (sw_count sw' = 0%nat \/ (cutoff <=? we_timestamp (sw_entries sw' !!! sw_head sw')) = true).
Proof.
  induction n as [|n IH]; intros sw Hn; cbn [prune_loop]; [split; [done|left; lia]|].
  destruct (cutoff <=? _) eqn:Hc; [auto|].
  match goal with |- context [prune_loop n cutoff ?s] => destruct (IH s) as [Hw Hor] end; [cbn; lia|].
  by rewrite Hw.
Qed.

Lemma prune_loop_done n cutoff sw :
  n = sw_count sw -> sw_count sw = 0%nat \/ (cutoff <=? we_timestamp (sw_entries sw !!! sw_head sw)) = true ->
  prune_loop n cutoff sw = sw.
Proof.
  intros -> [Hz|Hc]; [by rewrite Hz|]. destruct (sw_count sw); cbn [prune_loop]; [done|]. by rewrite Hc.
Qed.

Lemma prune_idem sw now : rl_sliding_prune (rl_sliding_prune sw now) now = rl_sliding_prune sw now.
Proof.
  set (cutoff := if now - trunc (sw_window_sec sw) <? 0 then 0 else now - trunc (sw_window_sec sw)).
  destruct (prune_loop_stops (sw_count sw) cutoff sw (le_n _)) as [Hw Hor].
  unfold rl_sliding_prune at 2 3. fold cutoff. set (sw1 := prune_loop _ cutoff sw) in *.
  destruct (ltb (sw_current_cost sw1) (of_Z 0)) eqn:Hl; unfold rl_sliding_prune;
    cbn [sw_window_sec sw_count]; rewrite Hw; fold cutoff; rewrite prune_loop_done by (done || exact Hor).
  - cbn [sw_current_cost]. by rewrite ltb_irrefl.
  - by rewrite Hl.
Qed.

(** ** Properties *)

(** Every limiter stays within its budget.  From any initialisation with a
    positive rate, and under any sequence of requests, queries and resets, the
    tokens lie between 0 and the burst, the water level between 0 and the
    capacity, and the cost counted in a sliding or fixed window between 0 and
    its maximum, for any arithmetic with monotone rounding. *)
Theorem rl_levels_bounded rl : rl_reachable rl -> level_ok rl.
Proof. apply rl_reachable_ok. Qed.

(** [rl_would_allow] is exact: at a given instant it answers what
    [rl_consume] answers (whose repeated refill, drain or prune is idempotent). *)
Theorem rl_would_allow_exact rl cost now now3 :
  (rl_would_allow rl cost now).1 = (rl_consume rl cost now now now3).1.
Proof.
  unfold rl_would_allow, rl_consume_nowait, rl_consume. destruct (leb cost (of_Z 0)); [done|].
  destruct rl as [tb|lb|sw|fx]; cbn [fst].
  - unfold token_consume. rewrite refill_idem. by case_match.
  - unfold leaky_consume. rewrite drain_idem. by case_match.
  - unfold sliding_consume. rewrite prune_idem. by case_match.
  - unfold fixed_consume. by case_match.
Qed.
End laws.

(** ** Turner's bound, for doubles *)

(** The cost a request takes out of a bucket when it is admitted. *)
Definition charge (admitted : bool) (cost : Q) : Q :=
  if admitted then if Qle_bool cost 0 then 0%Q else cost else 0%Q.

(** Requests in program order, each a cost and the two readings of the clock; the exact
    total charged, and the limiter after them. *)
Definition request : Type := Q * (Z * Z).
Definition run_step `{A : !Arith Q} (s : Q * rate_limiter Q) (req : request) : Q * rate_limiter Q :=
  let r := rl_consume s.2 req.1 req.2.1 req.2.2 0 in ((s.1 + charge r.1 req.1)%Q, r.2).
Definition rl_run `{A : !Arith Q} (rl : rate_limiter Q) (reqs : list request) : Q * rate_limiter Q :=
  foldl run_step (0%Q, rl) reqs.

Section turner.
Context (rnd : Q -> Q) (u eta : Q) (Hrnd : rounding rnd u eta).
#[local] Instance double : Arith Q := rounded rnd.
Context (rate b0 : Q) (Hrate : (0 <= rate)%Q) (Hb0 : (rnd b0 == b0)%Q).

(** A bucket with this rate and burst, whose level is in range. *)
Definition bucket_ok (tb : rl_token_bucket Q) : Prop :=
  tb_rate tb = rate /\ tb_burst tb = b0 /\ (0 <= tb_tokens tb)%Q /\ (tb_tokens tb <= b0)%Q.

Lemma refill_bucket tb now : bucket_ok tb -> bucket_ok (rl_token_refill tb now).
Proof.
  intros (Hr & Hb & H0 & H1). unfold rl_token_refill. destruct (Z.leb_spec now (tb_last_refill tb)); [done|].
  assert (Hdt : (0 <= inject_Z (now - tb_last_refill tb))%Q) by (change 0%Q with (inject_Z 0); rewrite <- Zle_Qle; lia).
  assert (Hm : (0 <= rnd (rate * inject_Z (now - tb_last_refill tb)))%Q) by (eapply rnd_nonneg; [done|by apply Qmult_le_0_compat]).
  split_and!; [done|done| |]; cbn [tb_tokens]; unfold ltb; cbn [leb add mul of_Z double rounded]; rewrite Hr, Hb;
    match goal with |- context [Qle_bool ?a ?b] => destruct (Qle_bool a b) eqn:Hq end; cbn [negb]; try lra.
  - eapply rnd_nonneg; [done|lra].
  - by apply Qle_bool_iff.
Qed.
Lemma consume_bucket tb cost c now : (0 < cost)%Q -> bucket_ok tb -> bucket_ok (token_consume tb cost c now).2.
Proof.
  intros Hc Hok. unfold token_consume. pose proof (refill_bucket tb now Hok) as (Hr & Hb & H0 & H1). cbn [leb double rounded].
  destruct (Qle_bool cost _) eqn:Hq; [|done]. apply Qle_bool_iff in Hq. destruct c; [|done]. cbn [snd]. split_and!; [done|done| |]; cbn [tb_tokens sub double rounded].
  - eapply rnd_nonneg; [done|lra].
  - eapply rnd_below; [done..|lra].
Qed.

(** Whatever is asked, consumed and reset. *)
Lemma step_bucket tb rl' : bucket_ok tb -> (0 <= b0)%Q -> rl_step (Token tb) rl' -> exists tb', rl' = Token tb' /\ bucket_ok tb'.
Proof.
  intros Hok Hb. inversion 1 as [cost t1 t2 t3|cost t|now]; subst.
  - unfold rl_consume. cbn [leb of_Z double rounded]. change (inject_Z 0) with 0%Q. destruct (Qle_bool cost 0) eqn:Hc; [by eexists|].
    cbn [fst snd]. eexists. split; [done|]. apply consume_bucket, refill_bucket; [|done]. apply Qnot_le_lt. by rewrite <- Qle_bool_iff, Hc.
  - unfold rl_consume_nowait. cbn [leb of_Z double rounded]. change (inject_Z 0) with 0%Q. destruct (Qle_bool cost 0) eqn:Hc; [by eexists|].
    cbn [fst snd]. eexists. split; [done|]. apply consume_bucket; [|done]. apply Qnot_le_lt. by rewrite <- Qle_bool_iff, Hc.
  - eexists. split; [reflexivity|]. destruct Hok as (Hr & Hbu & _). split_and!; cbn; rewrite ?Hbu; done || lra.
Qed.

(** The rate with the relative errors of a refill, and what the errors of a refill, of a
    subtraction and of a request add. *)
Definition gain : Q := (1 + u) * (1 + u) * rate.
Definition refill_error : Q := u * b0 + (2 + u) * eta.
Definition request_error : Q := 2 * refill_error + (u * b0 + eta).

Lemma errors_nonneg : (0 <= b0)%Q -> (0 <= gain)%Q /\ (0 <= refill_error)%Q /\ (0 <= u * b0)%Q /\ (0 <= eta)%Q.
Proof.
  intros Hb. destruct (rnd_parts _ _ _ Hrnd) as [Hu He]. pose proof (Qmult_le_0_compat u b0 Hu Hb). pose proof (Qmult_le_0_compat u eta Hu He).
  assert (0 <= gain)%Q by (unfold gain; apply Qmult_le_0_compat; [apply Qmult_le_0_compat; lra|done]). unfold refill_error. split_and!; try done. lra.
Qed.

Lemma refill_gain tb now : bucket_ok tb -> tb_last_refill tb < now ->
  (tb_tokens (rl_token_refill tb now) <= tb_tokens tb + gain * inject_Z (now - tb_last_refill tb) + refill_error)%Q.
Proof.
  intros (Hr & Hb & H0 & H1) Hlt. unfold rl_token_refill. rewrite (proj2 (Z.leb_gt _ _)) by done. cbn [tb_tokens]. unfold ltb. cbn [leb add mul of_Z double rounded]. rewrite Hr, Hb.
  set (dt := inject_Z _). assert (Hdt : (0 <= dt)%Q) by (unfold dt; change 0%Q with (inject_Z 0); rewrite <- Zle_Qle; lia).
  destruct (rnd_parts _ _ _ Hrnd) as [Hu He]. pose proof (Qmult_le_0_compat _ _ Hrate Hdt) as Hrd.
  pose proof (rnd_up _ _ _ Hrnd (rate * dt) Hrd) as Hm. assert (Hm0 : (0 <= rnd (rate * dt))%Q) by by eapply rnd_nonneg.
  pose proof (rnd_up _ _ _ Hrnd (tb_tokens tb + rnd (rate * dt)) ltac:(lra)) as Hs.
  assert (Hmu : ((1 + u) * rnd (rate * dt) <= (1 + u) * ((1 + u) * (rate * dt) + eta))%Q) by (rewrite !(Qmult_comm (1 + u)); apply Qmult_le_compat_r; lra).
  assert (Htu : (u * tb_tokens tb <= u * b0)%Q) by (rewrite !(Qmult_comm u); by apply Qmult_le_compat_r).
  assert (Hbound : (rnd (tb_tokens tb + rnd (rate * dt)) <= tb_tokens tb + gain * dt + refill_error)%Q) by (unfold gain, refill_error; lra).
  destruct (Qle_bool _ b0) eqn:Hq; cbn [negb]; [done|].
  assert (~ (rnd (tb_tokens tb + rnd (rate * dt)) <= b0)%Q) by (rewrite <- Qle_bool_iff, Hq; done). lra.
Qed.

(** A period from [t1] to [t2], and the time [t0] of the refill before it. *)
Context (t0 t1 t2 : Z) (Hperiod : t1 <= t2) (Hb : (0 <= b0)%Q).
Notation start := (Z.max t1 t0).

(** What has been charged in the period and what is left, with an error of [E]. *)
Definition turner (E c : Q) (tb : rl_token_bucket Q) : Prop :=
  bucket_ok tb /\ t0 <= tb_last_refill tb <= Z.max t0 t2 /\ (tb_last_refill tb < start -> (c == 0)%Q) /\
  (c + tb_tokens tb <= b0 + gain * inject_Z (Z.max (tb_last_refill tb) start - start) + E)%Q.

Lemma refill_turner E c tb now : (0 <= E)%Q -> t1 <= now <= t2 -> turner E c tb ->
  turner (E + refill_error) c (rl_token_refill tb now) /\ start <= tb_last_refill (rl_token_refill tb now).
Proof.
  intros HE Hnow (Hok & Hl & Hc & Hle). destruct (errors_nonneg Hb) as (Hg & Hre & _). pose proof (refill_bucket tb now Hok) as Hok'.
  destruct (Z.leb_spec now (tb_last_refill tb)) as [Hold|Hnew].
  { unfold rl_token_refill in *. rewrite (proj2 (Z.leb_le _ _)) in * by done. split; [|lia]. split_and!; try done; [lia..|]. lra. }
  pose proof (refill_gain tb now Hok Hnew) as Hgain. destruct Hok' as (Hr & Hbu & H0 & H1).
  assert (Hlast : tb_last_refill (rl_token_refill tb now) = now) by (unfold rl_token_refill; by rewrite (proj2 (Z.leb_gt _ _))).
  unfold turner. rewrite Hlast. split; [|lia]. split; [done|]. split; [lia|]. split; [lia|]. rewrite (Z.max_l now start) by lia.
  assert (Hspan : (0 <= gain * inject_Z (now - start))%Q) by (apply Qmult_le_0_compat; [done|]; change 0%Q with (inject_Z 0); rewrite <- Zle_Qle; lia).
  destruct (Z.ltb_spec (tb_last_refill tb) start) as [Hbefore|Hafter]; [specialize (Hc Hbefore); lra|].
  rewrite (Z.max_l (tb_last_refill tb) start) in Hle by lia.
  assert (Hsum : (gain * inject_Z (now - start) == gain * inject_Z (tb_last_refill tb - start) + gain * inject_Z (now - tb_last_refill tb))%Q).
  { rewrite <- Qmult_plus_distr_r, <- inject_Z_plus. replace (tb_last_refill tb - start + (now - tb_last_refill tb)) with (now - start) by lia. reflexivity. }
  rewrite Hsum. lra.
Qed.

Lemma consume_turner E c tb cost now now' : (0 <= E)%Q -> t1 <= now <= t2 -> t1 <= now' <= t2 -> turner E c tb ->
  exists tb', (rl_consume (Token tb) cost now now' 0).2 = Token tb' /\ turner (E + request_error) (c + charge (rl_consume (Token tb) cost now now' 0).1 cost) tb'.
Proof.
  intros HE Hn Hn' Ht. destruct (errors_nonneg Hb) as (Hg & Hre & Hub & He). unfold rl_consume. cbn [leb of_Z double rounded]. change (inject_Z 0) with 0%Q. unfold charge.
  destruct (Qle_bool cost 0) eqn:Hc.
  { exists tb. split; [done|]. cbn [fst]. destruct Ht as (Hok & Hl & Hz & Hle). split; [done|]. split; [done|]. split; [intros Hs; rewrite Hz by done; ring|].
    unfold request_error. rewrite Qplus_0_r. lra. }
  assert (Hpos : (0 < cost)%Q) by (apply Qnot_le_lt; by rewrite <- Qle_bool_iff, Hc).
  destruct (refill_turner E c tb now HE Hn Ht) as [Ht1 _]. destruct (refill_turner (E + refill_error) c _ now' ltac:(lra) Hn' Ht1) as [Ht2 Hstart].
  unfold token_consume. cbn [leb double rounded]. set (tb2 := rl_token_refill (rl_token_refill tb now) now') in *. destruct Ht2 as (Hok & Hl & Hz & Hle).
  destruct (Qle_bool cost (tb_tokens tb2)) eqn:Hq; cbn [fst snd]; eexists; (split; [reflexivity|]).
  - apply Qle_bool_iff in Hq. destruct Hok as (Hr & Hbu & H0 & H1). cbn [sub double rounded].
    pose proof (rnd_up _ _ _ Hrnd (tb_tokens tb2 - cost) ltac:(lra)) as Hs. destruct (rnd_parts _ _ _ Hrnd) as [Hu _].
    assert (Hd0 : (0 <= rnd (tb_tokens tb2 - cost))%Q) by (eapply rnd_nonneg; [done|lra]).
    assert (Hd1 : (rnd (tb_tokens tb2 - cost) <= b0)%Q) by (eapply rnd_below; [done..|lra]).
    assert (Htu : (u * (tb_tokens tb2 - cost) <= u * b0)%Q) by (rewrite !(Qmult_comm u); apply Qmult_le_compat_r; lra).
    split; [by split_and!|]. cbn [tb_last_refill tb_tokens]. split; [done|]. split; [lia|]. unfold request_error. lra.
  - split; [done|]. split; [done|]. split; [lia|]. unfold request_error. lra.
Qed.

Lemma run_turner reqs : Forall (fun r : request => t1 <= r.2.1 <= t2 /\ t1 <= r.2.2 <= t2) reqs -> forall E c tb, (0 <= E)%Q -> turner E c tb ->
  exists c' tb', foldl run_step (c, Token tb) reqs = (c', Token tb') /\ turner (E + inject_Z (Z.of_nat (length reqs)) * request_error) c' tb'.
Proof.
  destruct (errors_nonneg Hb) as (Hg & Hre & Hub & He).
  induction 1 as [|[cost [now now']] reqs [Hn Hn'] _ IH]; intros E c tb HE Ht; cbn [fst snd] in *.
  - exists c, tb. split; [done|]. destruct Ht as (H1 & H2 & H3 & Hle). split; [exact H1|]. split; [exact H2|]. split; [exact H3|]. cbn [length]. change (inject_Z (Z.of_nat 0)) with 0%Q. lra.
  - destruct (consume_turner E c tb cost now now' HE Hn Hn' Ht) as (tb1 & Hrun & Ht1). cbn [foldl]. unfold run_step at 2. cbn [fst snd]. rewrite Hrun.
    destruct (IH (E + request_error)%Q _ tb1 ltac:(unfold request_error; lra) Ht1) as (c' & tb' & -> & Ht'). exists c', tb'. split; [done|].
    destruct Ht' as (H1 & H2 & H3 & Hle). split; [exact H1|]. split; [exact H2|]. split; [exact H3|]. cbn [length]. rewrite Nat2Z.inj_succ, <- Z.add_1_r, inject_Z_plus. change (inject_Z 1) with 1%Q. lra.
Qed.

Lemma period_bound tb reqs : bucket_ok tb -> tb_last_refill tb = t0 -> Forall (fun r : request => t1 <= r.2.1 <= t2 /\ t1 <= r.2.2 <= t2) reqs ->
  ((rl_run (Token tb) reqs).1 <= b0 + gain * inject_Z (t2 - t1) + inject_Z (Z.of_nat (length reqs)) * request_error)%Q.
Proof.
  intros Hok Hl Hall. destruct (errors_nonneg Hb) as (Hg & _). destruct (run_turner reqs Hall 0%Q 0%Q tb) as (c & tb' & Hrun & Ht); [apply Qle_refl| |].
  - split; [done|]. split; [lia|]. split; [done|]. destruct Hok as (_ & _ & _ & H1). rewrite Hl.
    assert (0 <= gain * inject_Z (Z.max t0 start - start))%Q; [|lra]. apply Qmult_le_0_compat; [done|]. change 0%Q with (inject_Z 0). rewrite <- Zle_Qle. lia.
  - unfold rl_run. rewrite Hrun. cbn [fst]. destruct Ht as ((_ & _ & H0 & _) & Hlast & _ & Hle).
    assert (gain * inject_Z (Z.max (tb_last_refill tb') start - start) <= gain * inject_Z (t2 - t1))%Q; [|lra].
    rewrite !(Qmult_comm gain). apply Qmult_le_compat_r; [|done]. rewrite <- Zle_Qle. lia.
Qed.
End turner.

(** C26: Turner's bound, the theorem the source quotes, for doubles with their rounding.  Make a
    bucket of a positive rate, and do whatever you like with it: requests, queries, resets.
    Over any period from then on in which only requests are made, at clock readings between
    [t1] and [t2], the cost admitted is at most the burst plus the rate times the length of the
    period; rounding adds two relative errors to the rate, and [request_error], about three
    relative errors of the burst, for each request.  In exact arithmetic both are zero. *)
Theorem token_bucket_bound rnd u eta rate burst t0 rl t1 t2 reqs : rounding rnd u eta ->
  let b0 := if Qle_bool burst rate then rate else burst in (0 < rate)%Q -> (rnd b0 == b0)%Q ->
  rtc (rl_step (HA := rounded rnd)) (rl_token_bucket_init (H := rounded rnd) rate burst t0) rl ->
  t1 <= t2 -> Forall (fun r : request => t1 <= r.2.1 <= t2 /\ t1 <= r.2.2 <= t2) reqs ->
  ((rl_run (A := rounded rnd) rl reqs).1 <= b0 + gain u rate * inject_Z (t2 - t1) + inject_Z (Z.of_nat (length reqs)) * request_error u eta b0)%Q.
Proof.
  intros Hrnd b0 Hr Hb0 Hruns Ht Hall.
  assert (Hb : (0 <= b0)%Q).
  { unfold b0. destruct (Qle_bool burst rate) eqn:Hb; [lra|]. assert (~ (burst <= rate)%Q) by (rewrite <- Qle_bool_iff, Hb; done). lra. }
  assert (Hrate : Qle_bool rate 0 = false).
  { destruct (Qle_bool rate 0) eqn:Hq; [|done]. apply Qle_bool_iff in Hq. lra. }
  assert (Hinit : rl_token_bucket_init (H := rounded rnd) rate burst t0 = Token (mk_tb rate b0 b0 t0)).
  { unfold rl_token_bucket_init, b0, ltb. cbn [leb of_Z rounded]. change (inject_Z 0) with 0%Q. rewrite Hrate. by destruct (Qle_bool burst rate). }
  rewrite Hinit in Hruns. assert (Hreach : exists tb, rl = Token tb /\ bucket_ok rate b0 tb).
  { assert (H0 : bucket_ok rate b0 (mk_tb rate b0 b0 t0)) by (split_and!; cbn; done || lra). revert H0. generalize (mk_tb rate b0 b0 t0) Hruns. clear -Hrnd Hr Hb0 Hb.
    intros tb Hruns. remember (Token tb) as x eqn:Hx. revert tb Hx. induction Hruns as [x|x y z Hs _ IH]; intros tb -> Hok; [by exists tb|].
    eapply (step_bucket rnd u eta Hrnd rate b0) in Hs as (tb' & -> & Hok'); [|lra|done..]. by eapply IH. }
  destruct Hreach as (tb & -> & Hok). apply (period_bound rnd u eta Hrnd rate b0 ltac:(lra) Hb0 (tb_last_refill tb) t1 t2 Ht Hb tb reqs); done.
Qed.

(** Tokens cut off behind the thousandths. *)
Lemma token_bucket_bound_witness :
  let d := rounded (cut_off 1000) in let rl := (rl_consume (H := d) (rl_token_bucket_init (H := d) (1 # 3) 3%Q 100) 2%Q 101 101 0).2 in
  let reqs := [(2%Q, (102, 102)); (1%Q, (104, 105)); (2%Q, (110, 110))] in
  ((rl_run (A := d) rl reqs).1 == 3)%Q /\
  ((rl_run (A := d) rl reqs).1 <= 3 + gain 0 (1 # 3) * inject_Z (110 - 102)%Z + inject_Z (Z.of_nat 3) * request_error 0 (1 # 1000) 3)%Q.
Proof.
  intros d rl reqs. split; [reflexivity|].
  apply (token_bucket_bound (cut_off 1000) 0 (1 # 1000) (1 # 3) 3%Q 100 rl 102 110 reqs (cut_off_rounding 1000)); [reflexivity|reflexivity| |lia|].
  - apply rtc_once. constructor.
  - repeat constructor; cbn; lia.
Defined.

Lemma rl_levels_bounded_witness :
  level_ok (rl_consume (rl_token_bucket_init (1 # 2) 3%Q 100) 2%Q 100 100 100).2.
Proof.
  apply (rl_levels_bounded (D := Q)). exists (rl_token_bucket_init (1 # 2) 3%Q 100). split; [by constructor|].
  apply rtc_once. constructor.
Defined.

(** ** The sliding window holds 256 entries and does not count beyond them *)

(** [n] requests of cost [1] at time [now]. *)
Fixpoint rl_many (n : nat) (now : Z) (rl : rate_limiter Q) : rate_limiter Q :=
  match n with O => rl | S n' => rl_many n' now (rl_consume rl 1%Q now now now).2 end.

(** A sliding window that admits more than 256 requests loses count.  With a
    60 second window of 300, 256 requests at time 10 and one at time 60 (which
    overwrites the oldest slot) leave an oldest entry dated 60: at time 100, when
    the 256 have expired and one request is in the window, 43 more are admitted and
    the 44th is refused; with a correct log 299 would be. *)
Theorem sliding_window_ring_overflow :
  let rl := rl_many 1 60 (rl_many 256 10 (rl_sliding_window_init 60%Q 300%Q)) in
  (rl_consume (rl_many 42 100 rl) 1%Q 100 100 100).1 = true /\
  (rl_consume (rl_many 43 100 rl) 1%Q 100 100 100).1 = false.
Proof. vm_compute. auto. Qed.

Lemma rl_would_allow_exact_witness :
  (rl_would_allow (rl_token_bucket_init (1 # 2) 3%Q 100%Z) 2%Q 100).1
  = (rl_consume (rl_token_bucket_init (1 # 2) 3%Q 100%Z) 2%Q 100 100 100).1.
Proof. apply (rl_would_allow_exact (D := Q)). Defined.
