(* ===== verification/JobProgress.v ===== *)
(** Model of [mini-job-system/src/job_progress.c]: the tracker of one job.

    Doubles are over any [Arith]; each [time(NULL)] is an argument; the calls of
    the two callbacks are returned as events, in order.  The log array is the
    list of its used cells, [log_count] its length. *)

From S2P Require Import Prelude Arith.
From Stdlib Require Import QArith.
#[local] Open Scope Z_scope.

Section progress.
Context {D : Type} `{HA : Arith D}.

Definition JP_MAX_LOG_ENTRIES : nat := 256.
Definition JP_MAX_MESSAGE_LEN : nat := 128.

Inductive jp_state := JP_STATE_QUEUED | JP_STATE_RUNNING | JP_STATE_SUCCEEDED | JP_STATE_FAILED | JP_STATE_CANCELLED.
#[export] Instance jp_state_eq_dec : EqDecision jp_state.
Proof. solve_decision. Defined.

Record jp_log_entry := mk_log { le_timestamp : Z; le_completed : Z; le_pct : D; le_message : string }.

Record job_progress := mk_jp {
  jp_job_id : Z; jp_st : jp_state; jp_total_steps : Z; jp_completed_steps : Z; jp_progress_pct : D;
  jp_started_at : Z; jp_updated_at : Z; jp_completed_at : Z; jp_eta_seconds : D; jp_avg_step_ms : D;
  jp_step_count_for_avg : Z; jp_log : list jp_log_entry;
  jp_progress_callback : bool; jp_state_callback : bool; jp_failed : bool;
}.

(** A callback call. *)
Inductive jp_event :=
  | ProgressCb (job_id completed total : Z) (pct : D)
  | StateCb (job_id : Z) (old new : jp_state).

Definition job_progress_create : job_progress :=
  mk_jp 0 JP_STATE_QUEUED 0 0 (of_Z 0) 0 0 0 (of_Z 0) (of_Z 0) 0 [] false false false.

Definition jp_set_total_steps (jp : job_progress) (total : Z) : job_progress :=
  jp <| jp_total_steps := if 0 <? total then total else 0 |>.
Definition jp_set_progress_callback (jp : job_progress) (cb : bool) : job_progress :=
  jp <| jp_progress_callback := cb |>.
Definition jp_set_state_callback (jp : job_progress) (cb : bool) : job_progress :=
  jp <| jp_state_callback := cb |>.

Definition jp_state_name (s : jp_state) : string :=
  match s with
  | JP_STATE_QUEUED => "QUEUED"
  | JP_STATE_RUNNING => "RUNNING"
  | JP_STATE_SUCCEEDED => "SUCCEEDED"
  | JP_STATE_FAILED => "FAILED"
  | JP_STATE_CANCELLED => "CANCELLED"
  end.

(** The log block that ends [jp_transition_state] and [jp_update_progress]. *)
Definition jp_append_log (jp : job_progress) (now : Z) (message : option string) : job_progress :=
  match message with
  | Some m =>
      if (length (jp_log jp) <? JP_MAX_LOG_ENTRIES)%nat then
        jp <| jp_log := jp_log jp ++
          [mk_log now (jp_completed_steps jp) (jp_progress_pct jp) (str_take (JP_MAX_MESSAGE_LEN - 1) m)] |>
      else jp
  | None => jp
  end.

(** The average step time, when time has passed. *)
Definition jp_set_avg (jp : job_progress) (now : Z) : job_progress :=
  let elapsed : D := of_Z (now - jp_started_at jp) in
  if ltb (of_Z 0) elapsed
  then jp <| jp_avg_step_ms := div (mul elapsed (of_Z 1000)) (of_Z (jp_completed_steps jp)) |>
  else jp.

Definition jp_finish (jp : job_progress) (now : Z) : job_progress :=
  let jp := jp <| jp_completed_at := now |> in
  if (0 <? jp_completed_steps jp) && (0 <? jp_started_at jp) then jp_set_avg jp now else jp.

Definition jp_transition_state (jp : job_progress) (new : jp_state) (message : option string) (now : Z)
    : Z * job_progress * list jp_event :=
  let old := jp_st jp in
  let jp := jp <| jp_st := new |> in
  let jp :=
    match new with
    | JP_STATE_RUNNING => jp <| jp_started_at := now |>
    | JP_STATE_SUCCEEDED | JP_STATE_FAILED | JP_STATE_CANCELLED => jp_finish jp now
    | JP_STATE_QUEUED => jp
    end in
  (0, jp_append_log jp now message,
   if jp_state_callback jp then [StateCb (jp_job_id jp) old new] else []).

Definition jp_set_pct (jp : job_progress) : job_progress :=
  if 0 <? jp_total_steps jp then
    let pct := mul (div (of_Z (jp_completed_steps jp)) (of_Z (jp_total_steps jp))) (of_Z 100) in
    jp <| jp_progress_pct := if ltb (of_Z 100) pct then of_Z 100 else pct |>
  else jp <| jp_progress_pct := of_Z 0 |>.

Definition jp_set_eta (jp : job_progress) (now : Z) : job_progress :=
  if (1 <? jp_completed_steps jp) && (0 <? jp_started_at jp) then
    let elapsed : D := of_Z (now - jp_started_at jp) in
    if ltb (of_Z 0) elapsed then
      let jp := jp_set_avg jp now in
      if 0 <? jp_total_steps jp then
        let remaining := jp_total_steps jp - jp_completed_steps jp in
        jp <| jp_eta_seconds := div (mul (of_Z remaining) (jp_avg_step_ms jp)) (of_Z 1000) |>
      else jp
    else jp
  else jp.

Definition jp_update_progress (jp : job_progress) (completed : Z) (message : option string) (now : Z)
    : Z * job_progress * list jp_event :=
  if decide (jp_st jp <> JP_STATE_RUNNING) then (-2, jp, [])
  else
    let jp := jp <| jp_completed_steps := if completed <? 0 then 0 else completed |> in
    let jp := jp_set_pct jp in
    let jp := jp <| jp_updated_at := now |> in
    let jp := jp_set_eta jp now in
    (0, jp_append_log jp now message,
     if jp_progress_callback jp
     then [ProgressCb (jp_job_id jp) (jp_completed_steps jp) (jp_total_steps jp) (jp_progress_pct jp)] else []).

(** [completed_steps + 1] in [int]. *)
Definition jp_increment_progress (jp : job_progress) (message : option string) (now : Z)
    : Z * job_progress * list jp_event :=
  jp_update_progress jp (s32 (jp_completed_steps jp + 1)) message now.

Definition jp_fail (jp : job_progress) (message : option string) (now : Z) : Z * job_progress * list jp_event :=
  jp_transition_state (jp <| jp_failed := true |>) JP_STATE_FAILED message now.
Definition jp_cancel (jp : job_progress) (message : option string) (now : Z) : Z * job_progress * list jp_event :=
  jp_transition_state jp JP_STATE_CANCELLED message now.

Definition jp_get_state (jp : job_progress) : jp_state := jp_st jp.
Definition jp_get_progress (jp : job_progress) : D := jp_progress_pct jp.
Definition jp_get_eta (jp : job_progress) : D := jp_eta_seconds jp.
Definition jp_get_elapsed (jp : job_progress) (now : Z) : Z :=
  if jp_started_at jp =? 0 then 0
  else if 0 <? jp_completed_at jp then trunc (of_Z (D := D) (jp_completed_at jp - jp_started_at jp))
  else trunc (of_Z (D := D) (now - jp_started_at jp)).
Definition jp_get_log (jp : job_progress) : list jp_log_entry * nat := (jp_log jp, length (jp_log jp)).
End progress.
#[global] Arguments job_progress D : clear implicits.
#[global] Arguments jp_log_entry D : clear implicits.
#[global] Arguments jp_event D : clear implicits.

(** ** Theorems *)

Section theorems.
Context {D : Type} `{HA : Arith D} `{HL : !ArithLaws D}.
Implicit Types jp : job_progress D.

Definition pct_ok (p : D) : Prop := within p (of_Z 100).

Definition log_ok (e : jp_log_entry D) : Prop :=
  0 <= le_completed e /\ pct_ok (le_pct e) /\ (String.length (le_message e) < JP_MAX_MESSAGE_LEN)%nat.

Record jp_ok jp : Prop := {
  jpo_pct : pct_ok (jp_progress_pct jp);
  jpo_completed : 0 <= jp_completed_steps jp;
  jpo_total : 0 <= jp_total_steps jp;
  jpo_log : Forall log_ok (jp_log jp);
  jpo_count : (length (jp_log jp) <= JP_MAX_LOG_ENTRIES)%nat;
}.

(** The operations of the interface. *)
Inductive jp_step jp : job_progress D -> Prop :=
  | jps_total n : jp_step jp (jp_set_total_steps jp n)
  | jps_pcb b : jp_step jp (jp_set_progress_callback jp b)
  | jps_scb b : jp_step jp (jp_set_state_callback jp b)
  | jps_transition s m now : jp_step jp (jp_transition_state jp s m now).1.2
  | jps_update n m now : jp_step jp (jp_update_progress jp n m now).1.2
  | jps_increment m now : jp_step jp (jp_increment_progress jp m now).1.2
  | jps_fail m now : jp_step jp (jp_fail jp m now).1.2
  | jps_cancel m now : jp_step jp (jp_cancel jp m now).1.2.

Lemma append_log_ok jp now m : jp_ok jp -> jp_ok (jp_append_log jp now m).
Proof.
  intros Hok. unfold jp_append_log. destruct m as [m|]; [|done].
  destruct (Nat.ltb_spec (length (jp_log jp)) JP_MAX_LOG_ENTRIES) as [Hlt|]; [|done].
  destruct Hok. constructor; cbn; try done.
  - apply Forall_app; split; [done|]. constructor; [|done]. split_and!; cbn; try done.
    eapply Nat.le_lt_trans; [apply str_take_length|]. unfold JP_MAX_MESSAGE_LEN. lia.
  - rewrite length_app. cbn. lia.
Qed.

(** The two helpers touch neither the counters nor the log. *)
Lemma set_avg_ok jp now : jp_ok jp -> jp_ok (jp_set_avg jp now).
Proof. intros [H1 H2 H3 H4 H5]. unfold jp_set_avg. case_match; [|done]. by constructor. Qed.

Lemma set_eta_ok jp now : jp_ok jp -> jp_ok (jp_set_eta jp now).
Proof.
  intros Hok. unfold jp_set_eta. case_match; [|done]. case_match; [|done].
  pose proof (set_avg_ok jp now Hok) as [H1 H2 H3 H4 H5]. case_match; by constructor.
Qed.

Lemma set_pct_ok jp :
  0 <= jp_completed_steps jp -> 0 <= jp_total_steps jp -> Forall log_ok (jp_log jp) ->
  (length (jp_log jp) <= JP_MAX_LOG_ENTRIES)%nat -> jp_ok (jp_set_pct jp).
Proof.
  intros Hc Ht Hl Hn. unfold jp_set_pct.
  assert (H100 : pct_ok (of_Z 100)) by (split; [by apply nonneg_of_Z|apply leb_refl]).
  destruct (Z.ltb_spec 0 (jp_total_steps jp)).
  - constructor; cbn; try done. destruct (ltb (of_Z 100) _) eqn:Hlt; [done|].
    split; [|by apply ltb_false]. apply leb_mul_0; [|by apply nonneg_of_Z].
    apply leb_div_0; [by apply leb_of_Z|by apply ltb_of_Z].
  - constructor; cbn; try done. split; [apply leb_refl|by apply leb_of_Z].
Qed.

Lemma set_pct_frame jp : exists p, jp_set_pct jp = jp <| jp_progress_pct := p |>.
Proof. unfold jp_set_pct. case_match; eauto. Qed.

Lemma set_eta_frame jp now :
  exists eta avg, jp_set_eta jp now = jp <| jp_eta_seconds := eta |> <| jp_avg_step_ms := avg |>.
Proof.
  destruct jp. unfold jp_set_eta, jp_set_avg. cbn -[ltb mul div of_Z].
  repeat case_match; (by eexists _, _) || (unfold set; cbn; by eexists _, _).
Qed.

Lemma transition_ok jp s m now : jp_ok jp -> jp_ok (jp_transition_state jp s m now).1.2.
Proof.
  intros [H1 H2 H3 H4 H5]. unfold jp_transition_state. cbn [fst snd]. apply append_log_ok.
  destruct s; try (by constructor); unfold jp_finish; case_match;
    try (apply set_avg_ok); by constructor.
Qed.

Lemma update_ok jp n m now : jp_ok jp -> jp_ok (jp_update_progress jp n m now).1.2.
Proof.
  intros [H1 H2 H3 H4 H5]. unfold jp_update_progress. case_decide; [by constructor|].
  cbn [fst snd]. apply append_log_ok, set_eta_ok.
  match goal with |- context [jp_set_pct ?x] => assert (jp_ok (jp_set_pct x)) as [G1 G2 G3 G4 G5] end.
  { apply set_pct_ok; cbn; try done. destruct (Z.ltb_spec n 0); lia. }
  by constructor.
Qed.

Lemma jp_step_ok jp jp' : jp_ok jp -> jp_step jp jp' -> jp_ok jp'.
Proof.
  intros Hok [n|b|b|s m now|n m now|m now|m now|m now];
    try (by apply transition_ok); try (by apply update_ok).
  - destruct Hok. constructor; cbn; try done. destruct (Z.ltb_spec 0 n); lia.
  - destruct Hok. by constructor.
  - destruct Hok. by constructor.
  - apply transition_ok. destruct Hok. by constructor.
Qed.

Lemma jp_create_ok : jp_ok (job_progress_create (D := D)).
Proof.
  constructor; cbn; try lia; try done. split; [apply leb_refl|by apply leb_of_Z].
Qed.

(** Whatever calls are made on a tracker, its percentage and those in its log
    lie between 0 and 100 (for any arithmetic with monotone rounding), the
    counters are never negative, and the log never exceeds its 256 entries of
    127 characters. *)
Theorem jp_tracker_bounded jp : rtc jp_step job_progress_create jp -> jp_ok jp.
Proof.
  intros Hr. revert Hr. generalize (jp_create_ok). generalize (job_progress_create (D := D)).
  intros jp0 Hok Hr. induction Hr; [done|]. apply IHHr. by eapply jp_step_ok.
Qed.

(** Progress is accepted exactly while the job runs.  In any other state the
    update answers -2 and changes nothing; while running it records the steps
    (negative ones as 0), calls the progress callback once if there is one, and
    adds one log entry when there is a message and room; the state is kept. *)
Theorem jp_update_progress_correct jp n m now :
  let r := jp_update_progress jp n m now in
  (jp_st jp <> JP_STATE_RUNNING /\ r = (-2, jp, [])) \/
  (jp_st jp = JP_STATE_RUNNING /\ r.1.1 = 0 /\ jp_st r.1.2 = JP_STATE_RUNNING /\
   jp_completed_steps r.1.2 = Z.max 0 n /\ jp_total_steps r.1.2 = jp_total_steps jp /\
   jp_updated_at r.1.2 = now /\ jp_started_at r.1.2 = jp_started_at jp /\
   r.2 = (if jp_progress_callback jp
          then [ProgressCb (jp_job_id jp) (Z.max 0 n) (jp_total_steps jp) (jp_progress_pct r.1.2)] else []) /\
   jp_log r.1.2 = jp_log jp ++
     match m with
     | Some msg =>
         if (length (jp_log jp) <? JP_MAX_LOG_ENTRIES)%nat
         then [mk_log now (Z.max 0 n) (jp_progress_pct r.1.2) (str_take (JP_MAX_MESSAGE_LEN - 1) msg)] else []
     | None => []
     end).
Proof.
  cbn zeta. unfold jp_update_progress. case_decide as Hd; [by left|right].
  assert (Hst : jp_st jp = JP_STATE_RUNNING) by (destruct (decide (jp_st jp = JP_STATE_RUNNING)); tauto).
  assert (Hmax : (if n <? 0 then 0 else n) = Z.max 0 n) by (destruct (Z.ltb_spec n 0); lia).
  cbn [fst snd]. rewrite Hmax.
  destruct (set_pct_frame (jp <| jp_completed_steps := Z.max 0 n |>)) as [p ->].
  match goal with |- context [jp_set_eta ?x now] => destruct (set_eta_frame x now) as (eta & avg & ->) end.
  destruct jp as [id st total done_ pct sa ua ca et av sc log pcb scb fl]. cbn in Hst; subst st.
  unfold jp_append_log. destruct m as [msg|]; cbn -[Nat.ltb JP_MAX_LOG_ENTRIES];
    [destruct (_ <? _)%nat|]; cbn; by rewrite ?app_nil_r.
Qed.
End theorems.

(** The estimate can be negative: steps beyond the total are accepted. *)
Theorem jp_eta_negative :
  let jp := jp_set_total_steps (job_progress_create (D := Q)) 2 in
  let jp := (jp_transition_state jp JP_STATE_RUNNING None 100).1.2 in
  let jp := (jp_update_progress jp 4 None 108).1.2 in
  (jp_get_eta jp == -4)%Q /\ (jp_get_progress jp == 100)%Q.
Proof. split; reflexivity. Qed.

Lemma jp_tracker_bounded_witness :
  jp_ok (jp_update_progress (jp_transition_state (job_progress_create (D := Q)) JP_STATE_RUNNING None 100).1.2
    4 (Some "half"%string) 108).1.2.
Proof.
  apply (jp_tracker_bounded (D := Q)). eapply rtc_l; [|eapply rtc_once].
  - by apply jps_transition.
  - by apply jps_update.
Defined.
