(* ===== verification/Calendar.v ===== *)
(** The calendar functions of the C library the scheduler uses: [struct tm],
    [localtime_r] and [mktime], in the proleptic Gregorian calendar and in a time
    zone at a fixed offset [tz] (seconds east of UTC), so without daylight saving
    changes or leap seconds.  [tm_year] counts from 1900 and [tm_mon] from 0. *)

From S2P Require Import Prelude.

Record tm := mk_tm {
  tm_sec : Z; tm_min : Z; tm_hour : Z; tm_mday : Z; tm_mon : Z; tm_year : Z; tm_wday : Z;
}.

Definition leap (y : Z) : bool := (y mod 4 =? 0) && (negb (y mod 100 =? 0) || (y mod 400 =? 0)).

(** Days from 0001-01-01 to the first of January of [y]. *)
Definition days_before_year (y : Z) : Z :=
  365 * (y - 1) + (y - 1) / 4 - (y - 1) / 100 + (y - 1) / 400.

Definition month_lengths (lp : bool) : list Z :=
  [31; if lp then 29 else 28; 31; 30; 31; 30; 31; 31; 30; 31; 30; 31].

Definition days_before_month (lp : bool) (m : nat) : Z := foldr Z.add 0 (take m (month_lengths lp)).

(** The year that contains day [d]: an estimate, corrected by at most one. *)
Definition year_of_day (d : Z) : Z :=
  let y := (400 * d) / 146097 + 1 in
  if d <? days_before_year y then y - 1
  else if days_before_year (y + 1) <=? d then y + 1
  else y.

Fixpoint month_of_day (ls : list Z) (m d : Z) : Z * Z :=
  match ls with
  | [] => (m, d)
  | l :: ls' => if d <? l then (m, d) else month_of_day ls' (m + 1) (d - l)
  end.

(** Days from 0001-01-01 to 1970-01-01. *)
Definition EPOCH_DAY : Z := 719162.

Definition localtime (tz t : Z) : tm :=
  let lt := t + tz in
  let d := lt / 86400 + EPOCH_DAY in
  let s := lt mod 86400 in
  let y := year_of_day d in
  let md := month_of_day (month_lengths (leap y)) 0 (d - days_before_year y) in
  mk_tm (s mod 60) ((s / 60) mod 60) (s / 3600) (md.2 + 1) md.1 (y - 1900) ((d + 1) mod 7).

(** The time a broken-down time denotes; the fields but the month may be out of range. *)
Definition timegm (tz : Z) (x : tm) : Z :=
  let y := tm_year x + 1900 in
  let d := days_before_year y + days_before_month (leap y) (Z.to_nat (tm_mon x)) + (tm_mday x - 1) - EPOCH_DAY in
  tm_sec x + 60 * tm_min x + 3600 * tm_hour x + 86400 * d - tz.

(** [mktime] normalises the fields of its argument. *)
Definition mktime (tz : Z) (x : tm) : Z * tm := (timegm tz x, localtime tz (timegm tz x)).

(** 2026-03-01 12:34:56 UTC, a Sunday. *)
Example localtime_example : localtime 0 1772368496 = mk_tm 56 34 12 1 2 126 0.
Proof. reflexivity. Qed.

(** ** Years *)

Lemma days_before_year_succ y :
  days_before_year (y + 1) = days_before_year y + 365 + (if leap y then 1 else 0).
Proof.
  unfold days_before_year, leap.
  destruct (Z.eqb_spec (y mod 4) 0), (Z.eqb_spec (y mod 100) 0), (Z.eqb_spec (y mod 400) 0);
    cbn [andb orb negb]; Z.to_euclidean_division_equations; lia.
Qed.

Lemma year_estimate d :
  let y := (400 * d) / 146097 + 1 in days_before_year (y - 1) <= d < days_before_year (y + 2).
Proof. unfold days_before_year. Z.to_euclidean_division_equations. lia. Qed.

Lemma year_of_day_spec d : days_before_year (year_of_day d) <= d < days_before_year (year_of_day d + 1).
Proof.
  pose proof (year_estimate d) as [Hlo Hhi]. unfold year_of_day.
  set (y := (400 * d) / 146097 + 1) in *.
  destruct (Z.ltb_spec d (days_before_year y)); [by replace (y - 1 + 1) with y by lia|].
  destruct (Z.leb_spec (days_before_year (y + 1)) d); [|lia].
  by replace (y + 1 + 1) with (y + 2) by lia.
Qed.

(** ** Months *)

(** Evaluates the closed indices of a goal. *)
Ltac eval_to_nat :=
  repeat match goal with
  | |- context [Z.to_nat ?x] => let n := eval vm_compute in (Z.to_nat x) in change (Z.to_nat x) with n
  end.

Lemma month_of_day_spec (lp : bool) d : 0 <= d < 365 + (if lp then 1 else 0) ->
  let md := month_of_day (month_lengths lp) 0 d in
  0 <= md.1 < 12 /\ 0 <= md.2 < nth (Z.to_nat md.1) (month_lengths lp) 0 /\
  days_before_month lp (Z.to_nat md.1) + md.2 = d.
Proof.
  intros Hd. unfold month_lengths, days_before_month. destruct lp; cbn [month_of_day];
    repeat match goal with |- context [?x <? ?l] => destruct (Z.ltb_spec x l) end;
    try (exfalso; lia); cbn [fst snd]; eval_to_nat; cbn; lia.
Qed.

Lemma month_rollover lp m : 0 <= m < 12 -> nth (Z.to_nat m) (month_lengths lp) 0 >= 31 ->
  days_before_month lp (Z.to_nat (m + 1)) = days_before_month lp (Z.to_nat m) + 31.
Proof.
  intros Hm Hl.
  assert (m = 0 \/ m = 1 \/ m = 2 \/ m = 3 \/ m = 4 \/ m = 5 \/ m = 6 \/ m = 7 \/ m = 8 \/ m = 9 \/ m = 10 \/ m = 11)
    as Hc by lia.
  destruct_or! Hc; subst m; destruct lp; revert Hl; unfold days_before_month; eval_to_nat; cbn; lia.
Qed.

(** ** [localtime] and [mktime] are inverse *)

Record tm_ok (x : tm) : Prop := {
  tmo_sec : 0 <= tm_sec x < 60;
  tmo_min : 0 <= tm_min x < 60;
  tmo_hour : 0 <= tm_hour x < 24;
  tmo_mon : 0 <= tm_mon x < 12;
  tmo_mday : 1 <= tm_mday x <= nth (Z.to_nat (tm_mon x)) (month_lengths (leap (tm_year x + 1900))) 0;
}.

Lemma days_in_year lp : days_before_month lp 12 = 365 + (if lp then 1 else 0).
Proof. by destruct lp. Qed.

Section zone.
Context (tz : Z).

Lemma localtime_year_day t :
  let d := (t + tz) / 86400 + EPOCH_DAY in
  let y := year_of_day d in
  0 <= d - days_before_year y < 365 + (if leap y then 1 else 0).
Proof.
  cbn zeta. set (d := _ + EPOCH_DAY). pose proof (year_of_day_spec d) as [H1 H2].
  rewrite days_before_year_succ in H2. lia.
Qed.

Lemma localtime_ok t : tm_ok (localtime tz t).
Proof.
  pose proof (month_of_day_spec _ _ (localtime_year_day t)) as (H1 & H2 & H3).
  unfold localtime. constructor; cbn [tm_sec tm_min tm_hour tm_mon tm_mday tm_year];
    rewrite ?Z.sub_add; try lia; Z.to_euclidean_division_equations; lia.
Qed.

Lemma timegm_localtime t : timegm tz (localtime tz t) = t.
Proof.
  pose proof (month_of_day_spec _ _ (localtime_year_day t)) as (H1 & H2 & H3).
  unfold localtime, timegm. cbn [tm_sec tm_min tm_hour tm_mon tm_mday tm_year].
  rewrite !Z.sub_add. set (y := year_of_day _) in *.
  assert (Hsec : forall s, s mod 60 + 60 * ((s / 60) mod 60) + 3600 * (s / 3600) = s)
    by (intros; Z.to_euclidean_division_equations; lia).
  rewrite Hsec. pose proof (Z.div_mod (t + tz) 86400). lia.
Qed.

Lemma localtime_inj_sec t u : localtime tz t = localtime tz u -> t = u.
Proof. intros H. by rewrite <- (timegm_localtime t), H, timegm_localtime. Qed.

Lemma localtime_sec t : tm_sec (localtime tz t) = (t + tz) mod 60.
Proof.
  unfold localtime. cbn [tm_sec]. rewrite (Z.div_mod (t + tz) 86400) at 2 by lia.
  replace (86400 * ((t + tz) / 86400)) with ((1440 * ((t + tz) / 86400)) * 60) by lia.
  rewrite (Z.add_comm (_ * 60)), Z.mod_add by lia. done.
Qed.
End zone.
