(* ===== verification/Cron.v ===== *)
(** Model of [mini-job-system/src/cron_scheduler.c]: cron expressions, the search
    for the next fire time, and the table of jobs.

    Strings are C strings ([None] is NULL); a callback is an identifier and the
    calls [cron_tick] makes are returned as (callback, userdata) pairs, in order.
    [tz] is the offset of the process's time zone (file [Calendar]); the readings
    of [time(NULL)] are arguments.  Callbacks do not touch the scheduler. *)

From Stdlib Require Import Ascii.
From S2P Require Import Prelude Calendar.
#[local] Open Scope char_scope.
#[local] Open Scope list_scope.
#[local] Open Scope Z_scope.


Definition CRON_MAX_JOBS : nat := 64.
Definition CRON_FIELD_COUNT : nat := 6.

Inductive cron_entry_type := CRON_ENTRY_ANY | CRON_ENTRY_SPECIFIC | CRON_ENTRY_RANGE | CRON_ENTRY_STEP.
#[export] Instance cron_entry_type_eq_dec : EqDecision cron_entry_type.
Proof. solve_decision. Defined.

(** [values] is the used part of the array, [count] its length. *)
Record cron_field_def := mk_field { fd_type : cron_entry_type; fd_values : list Z }.
Definition FIELD_VALUES : nat := 64.

Record cron_expression := mk_expr { ce_fields : list cron_field_def; ce_catch_up : Z }.

Record cron_job := mk_job {
  cj_id : Z; cj_expr : cron_expression; cj_callback : Z; cj_userdata : Z; cj_catch_up : bool;
  cj_last_fire : Z; cj_next_fire : Z; cj_active : bool;
}.

Record cron_scheduler := mk_sched { cs_jobs : list cron_job; cs_max_jobs : Z }.

Definition cron_scheduler_create (config_max_jobs : option Z) : cron_scheduler :=
  let m := match config_max_jobs with Some m => if 0 <? m then m else Z.of_nat CRON_MAX_JOBS | None => Z.of_nat CRON_MAX_JOBS end in
  mk_sched [] (if Z.of_nat CRON_MAX_JOBS <? m then Z.of_nat CRON_MAX_JOBS else m).

Definition cron_min_vals : list Z := [0; 0; 0; 1; 1; 0].
Definition cron_max_vals : list Z := [59; 59; 23; 31; 12; 6].

(** ** The C string functions *)

Definition is_digit (c : ascii) : bool := (48 <=? Z.of_N (N_of_ascii c)) && (Z.of_N (N_of_ascii c) <=? 57).
Definition is_space (c : ascii) : bool :=
  let n := Z.of_N (N_of_ascii c) in (n =? 32) || ((9 <=? n) && (n <=? 13)).

Fixpoint digits (acc : Z) (s : string) : Z :=
  match s with
  | String c s' => if is_digit c then digits (10 * acc + (Z.of_N (N_of_ascii c) - 48)) s' else acc
  | EmptyString => acc
  end.

(** [atoi]: [strtol], which saturates, converted to [int]. *)
Fixpoint atoi (s : string) : Z :=
  match s with
  | EmptyString => 0
  | String c s' =>
      if is_space c then atoi s'
      else if Ascii.eqb c "-"%char then s32 (Z.max (- 2 ^ 63) (- digits 0 s'))
      else if Ascii.eqb c "+"%char then s32 (Z.min (2 ^ 63 - 1) (digits 0 s'))
      else s32 (Z.min (2 ^ 63 - 1) (digits 0 s))
  end.

(** [strchr]: the text before and after the first [c]. *)
Fixpoint cut (c : ascii) (s : string) : option (string * string) :=
  match s with
  | EmptyString => None
  | String d s' =>
      if Ascii.eqb d c then Some (EmptyString, s')
      else match cut c s' with Some (b, a) => Some (String d b, a) | None => None end
  end.

(** The tokens [strtok_r] returns: maximal runs of characters that are not delimiters. *)
Fixpoint strtok_from (delim : ascii -> bool) (cur : string) (s : string) : list string :=
  match s with
  | EmptyString => match cur with EmptyString => [] | _ => [cur] end
  | String c s' =>
      if delim c
      then match cur with EmptyString => strtok_from delim EmptyString s' | _ => cur :: strtok_from delim EmptyString s' end
      else strtok_from delim (cur +:+ String c EmptyString) s'
  end.
Definition strtok (delim : ascii -> bool) (s : string) : list string := strtok_from delim EmptyString s.

(** ** Parsing *)

(** [for (n = lo; n <= hi && count < 64; n += step)]: every round stores a value. *)
Fixpoint push_values (room : nat) (lo hi step : Z) : list Z :=
  match room with
  | O => []
  | S room' => if lo <=? hi then lo :: push_values room' (s32 (lo + step)) hi step else []
  end.

Definition field_room (f : cron_field_def) : nat := FIELD_VALUES - length (fd_values f).

(** The bounds of a step token: [b] is its text before the slash, [a] after. *)
Definition step_bounds (b a : string) (min_val max_val : Z) : Z * Z :=
  if (b =? "*")%string then (min_val, max_val)
  else match cut "-"%char b with
  | Some (l, h) => (atoi l, atoi h)
  | None => match cut "-"%char a with Some (_, h) => (atoi b, atoi h) | None => (atoi b, max_val) end
  end.

Definition parse_token (f : cron_field_def) (token : string) (min_val max_val : Z) : cron_field_def :=
  match cut "/"%char token with
  | Some (b, a) =>
      let step := if atoi a <=? 0 then 1 else atoi a in
      let '(lo, hi) := step_bounds b a min_val max_val in
      mk_field CRON_ENTRY_STEP (fd_values f ++ push_values (field_room f) lo hi step)
  | None =>
      match cut "-"%char token with
      | Some (l, h) => mk_field CRON_ENTRY_RANGE (fd_values f ++ push_values (field_room f) (atoi l) (atoi h) 1)
      | None =>
          if (token =? "*")%string then mk_field CRON_ENTRY_ANY []
          else
            let vs := if decide (fd_type f <> CRON_ENTRY_SPECIFIC) then [] else fd_values f in
            mk_field CRON_ENTRY_SPECIFIC (vs ++ [atoi token])
      end
  end.

(** [while (token && field->count < 64)] *)
Fixpoint parse_tokens (f : cron_field_def) (tokens : list string) (min_val max_val : Z) : cron_field_def :=
  match tokens with
  | [] => f
  | token :: tokens' =>
      if (length (fd_values f) <? FIELD_VALUES)%nat
      then parse_tokens (parse_token f token min_val max_val) tokens' min_val max_val
      else f
  end.

Definition parse_list (f : cron_field_def) (str : string) (min_val max_val : Z) : cron_field_def :=
  parse_tokens f (strtok (fun c => Ascii.eqb c ","%char) (str_take 255 str)) min_val max_val.

Definition cron_parse_field (str : string) (min_val max_val : Z) : cron_field_def :=
  if (str =? "")%string || (str =? "*")%string then mk_field CRON_ENTRY_ANY []
  else parse_list (mk_field CRON_ENTRY_ANY []) str min_val max_val.

Definition cron_tokens (spec : string) : list string :=
  take CRON_FIELD_COUNT (strtok (fun c => Ascii.eqb c " "%char || Ascii.eqb c "009"%char) (str_take 255 spec)).

(** [None] is the result -1. *)
Definition cron_parse_expression (spec : string) : option cron_expression :=
  let tokens := cron_tokens spec in
  if (length tokens <? 5)%nat then None
  else
    let tokens := if (length tokens =? 5)%nat then "0"%string :: tokens else tokens in
    Some (mk_expr (zip_with (fun t '(lo, hi) => cron_parse_field t lo hi) tokens (zip cron_min_vals cron_max_vals)) 0).

(** ** Matching *)

Definition cron_field_matches (f : cron_field_def) (value : Z) : bool :=
  match fd_type f with
  | CRON_ENTRY_ANY => true
  | _ => existsb (fun v => v =? value) (fd_values f)
  end.

Definition cron_matches (expr : cron_expression) (x : tm) : bool :=
  forallb (fun '(f, v) => cron_field_matches f v)
    (zip (ce_fields expr) [tm_sec x; tm_min x; tm_hour x; tm_mday x; tm_mon x + 1; tm_wday x]).

Definition cron_field_next (f : cron_field_def) (val : Z) : Z :=
  match fd_type f with
  | CRON_ENTRY_ANY => val + 1
  | _ => default (-1) (find_idx (fun v => val <? v) (fd_values f) ≫= fun i => fd_values f !! i)
  end.

Definition cron_field_first (f : cron_field_def) (min_val : Z) : Z :=
  match fd_type f with
  | CRON_ENTRY_ANY => min_val
  | _ => default min_val (fd_values f !! 0%nat)
  end.

#[export] Instance cron_field_def_inhabited : Inhabited cron_field_def := populate (mk_field CRON_ENTRY_ANY []).

(** ** The next fire time *)

Definition carry_sec (x : tm) : tm :=
  if 60 <=? tm_sec x then x <| tm_sec := 0 |> <| tm_min := tm_min x + 1 |> else x.
Definition carry_min (x : tm) : tm :=
  if 60 <=? tm_min x then x <| tm_min := 0 |> <| tm_hour := tm_hour x + 1 |> else x.
Definition carry_hour (x : tm) : tm :=
  if 24 <=? tm_hour x then x <| tm_hour := 0 |> <| tm_mday := tm_mday x + 1 |> else x.
Definition carry_mday (x : tm) : tm :=
  if 31 <? tm_mday x then x <| tm_mday := 1 |> <| tm_mon := tm_mon x + 1 |> else x.
Definition carry_mon (x : tm) : tm :=
  if 11 <? tm_mon x then x <| tm_mon := 0 |> <| tm_year := tm_year x + 1 |> else x.
Definition cron_carry (x : tm) : tm := carry_mon (carry_mday (carry_hour (carry_min (carry_sec x)))).

(** The body of the search: the fields before [mktime]. *)
Definition cron_advance (secs : cron_field_def) (x : tm) : tm :=
  let sec := cron_field_next secs (tm_sec x) in
  cron_carry
    (if sec <? 0 then x <| tm_sec := cron_field_first secs 0 |> <| tm_min := tm_min x + 1 |>
     else x <| tm_sec := sec |>).

(** [525600 * 5] rounds at most. *)
Definition CRON_MAX_ITER : Z := 525600 * 5.

Section zone.
Context (tz : Z).

Fixpoint cron_search (iter : nat) (expr : cron_expression) (x : tm) : Z :=
  match iter with
  | O => -1
  | S iter' =>
      if cron_matches expr x then (mktime tz x).1
      else
        let r := mktime tz (cron_advance (ce_fields expr !!! 0%nat) x) in
        if r.1 =? -1 then -1 else cron_search iter' expr r.2
  end.

Definition cron_next_fire_time (expr : cron_expression) (from : Z) : Z :=
  cron_search (Z.to_nat CRON_MAX_ITER) expr (localtime tz (from + 1)).

(** ** The job table *)

Definition cron_find (sched : cron_scheduler) (id : Z) : option nat :=
  find_idx (fun j => cj_id j =? id) (cs_jobs sched).

Definition cron_unregister_job (sched : cron_scheduler) (id : Z) : Z * cron_scheduler :=
  match cron_find sched id with
  | Some i => (0, sched <| cs_jobs := swap_remove i (cs_jobs sched) |>)
  | None => (-1, sched)
  end.

Definition cron_register_job (sched : cron_scheduler) (id : Z) (cron_spec : option string)
    (cb : option Z) (ud : Z) (catch_up : bool) (now : Z) : Z * cron_scheduler :=
  match cron_spec, cb with
  | Some spec, Some cb =>
      if cs_max_jobs sched <=? Z.of_nat (length (cs_jobs sched)) then (-2, sched)
      else match cron_find sched id with
      | Some _ => cron_unregister_job sched id
      | None =>
          match cron_parse_expression spec with
          | None => (-3, sched)
          | Some expr =>
              (0, sched <| cs_jobs := cs_jobs sched ++
                [mk_job id expr cb ud catch_up 0 (cron_next_fire_time expr now) true] |>)
          end
      end
  | _, _ => (-1, sched)
  end.

Definition cron_activate_job (sched : cron_scheduler) (id : Z) (active : bool) (now : Z) : Z * cron_scheduler :=
  match cron_find sched id with
  | Some i =>
      (0, sched <| cs_jobs := alter (fun j =>
             let j := j <| cj_active := active |> in
             if active then j <| cj_next_fire := cron_next_fire_time (cj_expr j) now |> else j) i (cs_jobs sched) |>)
  | None => (-1, sched)
  end.

(** The fire times missed before [now]: [(missed, next)]. *)
Definition missed_more (now : Z) (s : nat * Z) : bool := (s.2 <=? now) && negb (s.2 =? -1).
Definition missed_body (expr : cron_expression) (s : nat * Z) : nat * Z :=
  (S s.1, cron_next_fire_time expr s.2).
Definition cron_missed (expr : cron_expression) (next_fire now : Z) : option nat :=
  fst <$> while_loop (Z.to_nat (now + 1)) (missed_more now) (missed_body expr)
    (0%nat, cron_next_fire_time expr next_fire).

Definition cron_due (now : Z) (j : cron_job) : bool := cj_active j && (cj_next_fire j <=? now).

(** The calls for one due job, and the job afterwards. *)
Definition cron_fire_job (now : Z) (j : cron_job) : option (list (Z * Z) * cron_job) :=
  missed ← (if cj_catch_up j then cron_missed (cj_expr j) (cj_next_fire j) now else Some 0%nat);
  let next := cron_next_fire_time (cj_expr j) now in
  Some (replicate (missed + 1) (cj_callback j, cj_userdata j),
        let j := j <| cj_last_fire := now |> <| cj_next_fire := next |> in
        if next =? -1 then j <| cj_active := false |> else j).

(** The count fired, the calls in order, the table. [None] would be a search that never ends. *)
Fixpoint tick_jobs (now : Z) (js : list cron_job) : option (Z * list (Z * Z) * list cron_job) :=
  match js with
  | [] => Some (0, [], [])
  | j :: js' =>
      r ← (if cron_due now j then r ← cron_fire_job now j; Some (1, r.1, r.2) else Some (0, [], j));
      rest ← tick_jobs now js';
      Some (r.1.1 + rest.1.1, r.1.2 ++ rest.1.2, r.2 :: rest.2)
  end.

Definition cron_tick (sched : cron_scheduler) (now : Z) : option (Z * list (Z * Z) * cron_scheduler) :=
  r ← tick_jobs now (cs_jobs sched);
  Some (r.1.1, r.1.2, sched <| cs_jobs := r.2 |>).
Definition cron_run_pending (sched : cron_scheduler) (now : Z) : option (Z * list (Z * Z) * cron_scheduler) :=
  cron_tick sched now.
End zone.

(** ** The search finds the earliest match *)

(** The seconds field the search relies on: increasing values of a minute. *)
Definition secs_ok (f : cron_field_def) : Prop :=
  fd_type f = CRON_ENTRY_ANY \/
  (StronglySorted Z.le (fd_values f) /\ Forall (fun v => 0 <= v < 60) (fd_values f)).

Lemma field_matches_In f v :
  cron_field_matches f v = true -> fd_type f = CRON_ENTRY_ANY \/ v ∈ fd_values f.
Proof.
  unfold cron_field_matches. destruct (fd_type f); [by left| | |];
    (intros (w & Hw & Heq)%existsb_exists; apply Z.eqb_eq in Heq as ->; right; by apply list_elem_of_In).
Qed.

Lemma first_above vs v : StronglySorted Z.le vs ->
  match find_idx (fun w => v <? w) vs with
  | Some i => exists n, vs !! i = Some n /\ v < n /\ forall w, w ∈ vs -> v < w -> n <= w
  | None => forall w, w ∈ vs -> w <= v
  end.
Proof.
  induction 1 as [|x vs Hs IH Hx]; cbn [find_idx].
  - intros w Hw. by apply not_elem_of_nil in Hw.
  - destruct (Z.ltb_spec v x) as [Hlt|Hge].
    + exists x. split_and!; try done. intros w [->|Hw]%elem_of_cons ?; [lia|].
      by eapply List.Forall_forall in Hx; [|by apply list_elem_of_In].
    + destruct (find_idx _ vs) as [i|]; cbn.
      * destruct IH as (n & Hl & Hn & Hmin). exists n. split_and!; try done.
        intros w [->|Hw]%elem_of_cons ?; [lia|auto].
      * intros w [->|Hw]%elem_of_cons; auto.
Qed.

Lemma field_next_spec f v :
  secs_ok f -> 0 <= v < 60 ->
  let n := cron_field_next f v in
  (n = -1 /\ fd_type f <> CRON_ENTRY_ANY /\ forall w, cron_field_matches f w = true -> w <= v) \/
  (v < n <= 60 /\ (fd_type f = CRON_ENTRY_ANY \/ n < 60) /\ forall w, v < w < n -> cron_field_matches f w = false).
Proof.
  intros Hok Hv. cbn zeta. destruct (decide (fd_type f = CRON_ENTRY_ANY)) as [Ht|Ht].
  { right. unfold cron_field_next. rewrite Ht. split_and!; [lia|lia|by left|intros; lia]. }
  destruct Hok as [Hok|[Hs Hr]]; [done|].
  assert (Hn : cron_field_next f v =
    default (-1) (find_idx (fun w => v <? w) (fd_values f) ≫= fun i => fd_values f !! i))
    by (unfold cron_field_next; by destruct (fd_type f)).
  assert (Hin : forall w, cron_field_matches f w = true -> w ∈ fd_values f)
    by (intros w [?|?]%field_matches_In; done).
  pose proof (first_above (fd_values f) v Hs) as Hf. rewrite Hn. destruct (find_idx _ _) as [i|]; cbn.
  - destruct Hf as (n & Hl & Hlt & Hmin). rewrite Hl. cbn.
    pose proof (Forall_lookup_1 _ _ _ _ Hr Hl) as Hb. cbn in Hb. right. split_and!; [lia|lia|right; lia|].
    intros w Hw. apply not_true_iff_false. intros Hm%Hin. specialize (Hmin w Hm). lia.
  - left. split_and!; [done|done|auto].
Qed.

Lemma field_first_spec f : secs_ok f ->
  0 <= cron_field_first f 0 < 60 /\
  (fd_type f <> CRON_ENTRY_ANY -> forall w, w < cron_field_first f 0 -> cron_field_matches f w = true -> w < 0).
Proof.
  intros Hok. unfold cron_field_first. destruct (decide (fd_type f = CRON_ENTRY_ANY)) as [Ht|Ht].
  { rewrite Ht. split; [lia|done]. }
  destruct Hok as [Hok|[Hs Hr]]; [done|].
  assert (Hin : forall w, cron_field_matches f w = true -> w ∈ fd_values f)
    by (intros w [?|?]%field_matches_In; done).
  replace (match fd_type f with CRON_ENTRY_ANY => 0 | _ => default 0 (fd_values f !! 0%nat) end)
    with (default 0 (fd_values f !! 0%nat)) by (by destruct (fd_type f)).
  destruct (fd_values f) as [|x vs] eqn:Hvs; cbn.
  { split; [lia|]. intros _ w Hw Hm%Hin. by apply not_elem_of_nil in Hm. }
  inversion_clear Hr. split; [lia|]. intros _ w Hw Hm%Hin. inversion_clear Hs as [|? ? _ Hx].
  apply elem_of_cons in Hm as [->|Hm]; [lia|].
  eapply List.Forall_forall in Hx; [|by apply list_elem_of_In]. lia.
Qed.

(** ** The carries do not change the time denoted *)

Definition same_day (x y : tm) : Prop := tm_mday y = tm_mday x /\ tm_mon y = tm_mon x /\ tm_year y = tm_year x.
Definition mon_len (x : tm) : Z := nth (Z.to_nat (tm_mon x)) (month_lengths (leap (tm_year x + 1900))) 0.

Lemma mon_len_31 x : mon_len x <= 31.
Proof.
  unfold mon_len. destruct (Z.to_nat (tm_mon x)) as [|[|[|[|[|[|[|[|[|[|[|[|k]]]]]]]]]]]]; cbn; try lia; case_match; lia.
Qed.

Ltac carry x test :=
  destruct x; unfold test, same_day, mon_len, timegm in *; cbn [tm_sec tm_min tm_hour tm_mday tm_mon tm_year] in *;
  match goal with
  | |- context [?a <=? ?b] => destruct (Z.leb_spec a b)
  | |- context [?a <? ?b] => destruct (Z.ltb_spec a b)
  end; cbv [set const tm_sec tm_min tm_hour tm_mday tm_mon tm_year].

Lemma carry_sec_timegm tz x : 0 <= tm_sec x <= 60 -> 0 <= tm_min x <= 60 -> (tm_sec x = 60 -> tm_min x < 60) ->
  let y := carry_sec x in
  timegm tz y = timegm tz x /\ 0 <= tm_min y <= 60 /\ tm_hour y = tm_hour x /\ same_day x y.
Proof. intros Hs Hm Hsm. cbn zeta. carry x carry_sec; lia. Qed.

Lemma carry_min_timegm tz x : 0 <= tm_min x <= 60 ->
  let y := carry_min x in
  timegm tz y = timegm tz x /\ tm_hour x <= tm_hour y <= tm_hour x + 1 /\ same_day x y.
Proof. intros Hm. cbn zeta. carry x carry_min; lia. Qed.

Lemma carry_hour_timegm tz x : 0 <= tm_hour x <= 24 ->
  let y := carry_hour x in
  timegm tz y = timegm tz x /\ tm_mday x <= tm_mday y <= tm_mday x + 1 /\ tm_mon y = tm_mon x /\ tm_year y = tm_year x.
Proof. intros Hm. cbn zeta. carry x carry_hour; lia. Qed.

Lemma carry_mday_timegm tz x : tm_mday x <= mon_len x + 1 -> 0 <= tm_mon x < 12 ->
  let y := carry_mday x in timegm tz y = timegm tz x /\ tm_mon y <= 12.
Proof.
  intros Hm Hmo. cbn zeta. pose proof (mon_len_31 x) as H31.
  assert (Hr : tm_mday x = 32 ->
    days_before_month (leap (tm_year x + 1900)) (Z.to_nat (tm_mon x + 1))
    = days_before_month (leap (tm_year x + 1900)) (Z.to_nat (tm_mon x)) + 31).
  { intros Hx. apply month_rollover; [done|]. unfold mon_len in *. lia. }
  carry x carry_mday; [|lia]. rewrite Hr; lia.
Qed.

Lemma carry_mon_timegm tz x : tm_mon x <= 12 -> timegm tz (carry_mon x) = timegm tz x.
Proof.
  intros Hm. pose proof (days_before_year_succ (tm_year x + 1900)) as Hy.
  pose proof (days_in_year (leap (tm_year x + 1900))) as Hd. carry x carry_mon; [|done].
  assert (tm_mon = 12) as -> by lia. change (Z.to_nat 12) with 12%nat. rewrite Hd.
  replace (tm_year + 1 + 1900) with (tm_year + 1900 + 1) by lia. rewrite Hy.
  assert (H0 : days_before_month (leap (tm_year + 1900 + 1)) (Z.to_nat 0) = 0) by done. rewrite H0. lia.
Qed.

Lemma carry_timegm tz x :
  0 <= tm_sec x <= 60 -> 0 <= tm_min x <= 60 -> (tm_sec x = 60 -> tm_min x < 60) -> 0 <= tm_hour x < 24 ->
  0 <= tm_mon x < 12 -> tm_mday x <= mon_len x -> timegm tz (cron_carry x) = timegm tz x.
Proof.
  intros Hs Hmi Hsm Hh Hmo Hd. unfold cron_carry.
  destruct (carry_sec_timegm tz x Hs Hmi Hsm) as (<- & Hmi1 & Hh1 & Hd1 & Hm1 & Hy1).
  set (x1 := carry_sec x) in *. destruct (carry_min_timegm tz x1 Hmi1) as (<- & Hh2 & Hd2 & Hm2 & Hy2).
  set (x2 := carry_min x1) in *. destruct (carry_hour_timegm tz x2) as (<- & Hd3 & Hm3 & Hy3); [lia|].
  set (x3 := carry_hour x2) in *.
  assert (Hlen : mon_len x3 = mon_len x) by (unfold mon_len; by rewrite Hm3, Hy3, Hm2, Hy2, Hm1, Hy1).
  destruct (carry_mday_timegm tz x3) as (<- & Hm4); [lia|lia|]. by apply carry_mon_timegm.
Qed.

(** ** One round of the search: the next time whose seconds can match *)

Lemma matches_secs expr x : cron_matches expr x = true -> ce_fields expr <> [] ->
  cron_field_matches (ce_fields expr !!! 0%nat) (tm_sec x) = true.
Proof.
  unfold cron_matches. destruct (ce_fields expr) as [|f fs]; [done|]. cbn. intros H _. by apply andb_true_iff in H as [? _].
Qed.

Lemma localtime_later tz t k :
  tm_sec (localtime tz (t + k)) = (tm_sec (localtime tz t) + k) mod 60.
Proof.
  rewrite !localtime_sec. rewrite Zplus_mod_idemp_l. f_equal. lia.
Qed.

Lemma advance_spec tz f t : secs_ok f ->
  exists u, mktime tz (cron_advance f (localtime tz t)) = (u, localtime tz u) /\ t < u /\
    forall v, t < v < u -> cron_field_matches f (tm_sec (localtime tz v)) = false.
Proof.
  intros Hok. pose proof (localtime_ok tz t) as [Hs Hmi Hh Hmo Hd]. set (x := localtime tz t) in *.
  unfold cron_advance, mktime.
  set (y := if cron_field_next f (tm_sec x) <? 0 then _ else _).
  exists (timegm tz (cron_carry y)). split; [done|].
  assert (Hx : timegm tz x = t) by apply timegm_localtime.
  destruct (field_next_spec f (tm_sec x) Hok Hs) as [(Hn & Hany & Hle)|(Hn & Hany & Hbetween)].
  - destruct (field_first_spec f Hok) as [Hf Hmin]. specialize (Hmin Hany).
    assert (Hy : y = x <| tm_sec := cron_field_first f 0 |> <| tm_min := tm_min x + 1 |>) by (unfold y; by rewrite Hn).
    assert (Hu : timegm tz (cron_carry y) = t + 60 + cron_field_first f 0 - tm_sec x).
    { rewrite carry_timegm; [|rewrite Hy; unfold mon_len in *; clearbody x; destruct x; cbn -[Z.mul] in *; lia ..].
      rewrite <- Hx, Hy. unfold timegm. clearbody x. destruct x. cbn -[Z.mul cron_field_first]. lia. }
    rewrite Hu. split; [lia|]. intros v Hv. apply not_true_iff_false. intros Hm.
    replace v with (t + (v - t)) in Hm by lia. rewrite localtime_later in Hm. fold x in Hm.
    destruct (Z_lt_ge_dec (tm_sec x + (v - t)) 60) as [Hlt|Hge].
    + rewrite Z.mod_small in Hm by lia. specialize (Hle _ Hm). lia.
    + assert (Hmod : (tm_sec x + (v - t)) mod 60 = tm_sec x + (v - t) - 60)
        by (rewrite <- (Z.mod_small (tm_sec x + (v - t) - 60) 60) by lia;
            replace (tm_sec x + (v - t) - 60) with (tm_sec x + (v - t) + -1 * 60) by lia; by rewrite Z.mod_add).
      rewrite Hmod in Hm. specialize (Hmin (tm_sec x + (v - t) - 60) ltac:(lia) Hm). lia.
  - assert (Hy : y = x <| tm_sec := cron_field_next f (tm_sec x) |>)
      by (unfold y; destruct (Z.ltb_spec (cron_field_next f (tm_sec x)) 0); [lia|done]).
    assert (Hu : timegm tz (cron_carry y) = t + cron_field_next f (tm_sec x) - tm_sec x).
    { rewrite carry_timegm; [|rewrite Hy; unfold mon_len in *; clearbody x; destruct x;
        cbn -[Z.mul cron_field_next] in *; lia ..].
      rewrite <- Hx, Hy. unfold timegm. clearbody x. destruct x. cbn -[Z.mul cron_field_next]. lia. }
    rewrite Hu. split; [lia|]. intros v Hv.
    replace v with (t + (v - t)) by lia. rewrite localtime_later. fold x.
    rewrite Z.mod_small by lia. apply Hbetween. lia.
Qed.

(** The fire times of an expression. *)
Definition fires (tz : Z) (expr : cron_expression) (t : Z) : bool := cron_matches expr (localtime tz t).

Definition expr_ok (expr : cron_expression) : Prop :=
  ce_fields expr <> [] /\ secs_ok (ce_fields expr !!! 0%nat).

Section search.
Context (tz : Z) (expr : cron_expression) (Hok : expr_ok expr).

Lemma search_spec n : forall t, 0 <= t ->
  let r := cron_search tz n expr (localtime tz t) in
  (t <= r /\ fires tz expr r = true /\ forall u, t <= u < r -> fires tz expr u = false) \/
  (r = -1 /\ forall u, t <= u < t + Z.of_nat n -> fires tz expr u = false).
Proof.
  destruct Hok as [Hne Hs]. induction n as [|n IH]; intros t Ht; cbn zeta; cbn [cron_search].
  { right. split; [done|intros; lia]. }
  destruct (cron_matches expr (localtime tz t)) eqn:Hm.
  { left. unfold mktime. cbn [fst]. rewrite timegm_localtime. split_and!; [lia|done|intros; lia]. }
  destruct (advance_spec tz _ t Hs) as (u & -> & Htu & Hbetween). cbn [fst snd].
  destruct (Z.eqb_spec u (-1)) as [|_]; [lia|].
  assert (Hno : forall v, t <= v < u -> fires tz expr v = false).
  { intros v Hv. destruct (decide (v = t)) as [->|]; [done|].
    apply not_true_iff_false. intros Hv'. apply matches_secs in Hv'; [|done].
    rewrite Hbetween in Hv'; [done|lia]. }
  destruct (IH u) as [(Hle & Hr & Hmin)|(Hr & Hmin)]; [lia|left|right].
  - split_and!; [lia|done|]. intros v Hv. destruct (decide (v < u)); [apply Hno; lia|apply Hmin; lia].
  - split; [done|]. intros v Hv. destruct (decide (v < u)); [apply Hno; lia|apply Hmin; lia].
Qed.

Lemma next_fire_spec from : 0 <= from ->
  let r := cron_next_fire_time tz expr from in
  (from < r /\ fires tz expr r = true /\ forall u, from < u < r -> fires tz expr u = false) \/
  (r = -1 /\ forall u, from < u <= from + CRON_MAX_ITER -> fires tz expr u = false).
Proof.
  intros Hf. unfold cron_next_fire_time.
  destruct (search_spec (Z.to_nat CRON_MAX_ITER) (from + 1)) as [(H1 & H2 & H3)|(H1 & H2)]; [lia|left|right].
  - split_and!; [lia|done|]. intros u Hu. apply H3. lia.
  - split; [done|]. intros u Hu. apply H2. unfold CRON_MAX_ITER in *. lia.
Qed.

(** ** Catching up *)

(** The number of fire times in [(a, b]]. *)
Definition fires_between (a b : Z) : nat := count_if (fires tz expr) (seqZ (a + 1) (b - a)).

Lemma count_none {A} (p : A -> bool) l : (forall x, x ∈ l -> p x = false) -> count_if p l = 0%nat.
Proof. intros H. unfold count_if. by rewrite filter_all_false. Qed.

Lemma fires_between_none a b :
  (forall u, a < u <= b -> fires tz expr u = false) -> fires_between a b = 0%nat.
Proof. intros H. apply count_none. intros u Hu%elem_of_seqZ. apply H. lia. Qed.

Lemma fires_between_next a r b : a < r <= b -> fires tz expr r = true ->
  (forall u, a < u < r -> fires tz expr u = false) -> fires_between a b = S (fires_between r b).
Proof.
  intros Hr Hm Hno. unfold fires_between.
  assert (Hsplit : seqZ (a + 1) (b - a) = seqZ (a + 1) (r - a - 1) ++ r :: seqZ (r + 1) (b - r)).
  { replace (b - a) with ((r - a - 1) + (1 + (b - r))) by lia. rewrite !seqZ_app by lia. f_equal.
    replace (a + 1 + (r - a - 1)) with r by lia. f_equal. }
  rewrite Hsplit. unfold count_if. rewrite List.filter_app, length_app. cbn. rewrite Hm. cbn.
  rewrite filter_all_false; [done|]. intros u Hu%elem_of_seqZ. apply Hno. lia.
Qed.

(** The search for missed fire times ends and counts them all. *)
Lemma missed_spec now from : 0 <= from <= now -> now - from <= CRON_MAX_ITER ->
  cron_missed tz expr from now = Some (fires_between from now).
Proof.
  intros Hfrom Hwin. unfold cron_missed.
  set (Inv := fun s : nat * Z =>
    fires_between from now = (s.1 + (if missed_more now s then 1 + fires_between s.2 now else 0))%nat /\
    (s.2 = -1 \/ from < s.2)).
  assert (Hnext : forall k x, from <= x <= now ->
    fires_between from now = (k + fires_between x now)%nat -> Inv (k, cron_next_fire_time tz expr x)).
  { intros k x Hx Hk. destruct (next_fire_spec x) as [(H1 & H2 & H3)|(H1 & H2)]; [lia| |]; unfold Inv; cbn [fst snd].
    - split; [|right; lia]. rewrite Hk. unfold missed_more. cbn [fst snd].
      set (r := cron_next_fire_time tz expr x) in *. destruct (Z.leb_spec r now).
      + rewrite (fires_between_next x r now) by (done || lia).
        assert (Hne : (r =? -1) = false) by lia. rewrite Hne. cbn [negb andb]. lia.
      + cbn [andb]. rewrite (fires_between_none x now); [lia|]. intros u Hu. apply H3. lia.
    - rewrite H1. split; [|by left]. rewrite Hk. unfold missed_more. cbn [fst snd].
      rewrite (fires_between_none x now); [|intros u Hu; apply H2; lia].
      replace (negb (-1 =? -1)) with false by done. rewrite andb_false_r. lia. }
  destruct (while_loop_total Inv (fun s => if missed_more now s then Z.to_nat (now + 1 - s.2) else 0%nat)
    (missed_more now) (missed_body tz expr)) with (fuel := Z.to_nat (now + 1)) (s := (0%nat, cron_next_fire_time tz expr from))
    as ([k x] & -> & [Hinv _] & Hend).
  - intros [k x] [Hcount Hx] Hc. rewrite Hc in Hcount |- *. cbn [fst snd] in *. unfold missed_more in Hc. cbn [fst snd] in Hc.
    apply andb_true_iff in Hc as [Hle Hne]. zbool. unfold missed_body. cbn [fst snd].
    destruct Hx as [|Hx]; [done|]. split; [apply Hnext; lia|].
    destruct (next_fire_spec x) as [(H1 & _ & _)|(H1 & _)]; [lia| |].
    + destruct (missed_more now _) eqn:Hm; [|lia]. cbn [snd]. lia.
    + rewrite H1. unfold missed_more. cbn [snd]. replace (negb (-1 =? -1)) with false by done. rewrite andb_false_r. lia.
  - apply Hnext; [lia|done].
  - cbn [snd]. destruct (missed_more now _) eqn:Hm; [|lia].
    destruct (next_fire_spec from) as [(H1 & _ & _)|(H1 & _)]; [lia|lia|].
    rewrite H1 in Hm. unfold missed_more in Hm. cbn [snd] in Hm.
    replace (negb (-1 =? -1)) with false in Hm by done. by rewrite andb_false_r in Hm.
  - cbn [fmap option_fmap option_map fst]. rewrite Hend in Hinv. cbn [fst] in Hinv. f_equal. lia.
Qed.
End search.

(** ** Properties *)

(** C7: the next fire time is the earliest one.  For an expression whose seconds
    field is increasing and within 0 to 59 (as every five-field expression has; see
    [cron_unordered_seconds_skipped] for others), at a fixed offset [tz] and for [from >= 0],
    the result is the first instant after [from] whose calendar fields all match; it is
    -1 only if none of the next 2,628,000 seconds (the search bound) matches. *)
Theorem cron_next_fire_time_correct tz expr from : expr_ok expr -> 0 <= from ->
  let r := cron_next_fire_time tz expr from in
  (from < r /\ cron_matches expr (localtime tz r) = true /\
     forall u, from < u < r -> cron_matches expr (localtime tz u) = false) \/
  (r = -1 /\ forall u, from < u <= from + 2628000 -> cron_matches expr (localtime tz u) = false).
Proof. intros Hok Hf. exact (next_fire_spec tz expr Hok from Hf). Qed.

(** Half past twelve, every day. *)
Definition noon_thirty : cron_expression := default (mk_expr [] 0) (cron_parse_expression "30 12 * * *").

Lemma noon_thirty_ok : expr_ok noon_thirty.
Proof. split; [done|]. right. vm_compute. repeat constructor; done. Defined.

Lemma cron_next_fire_time_correct_witness :
  cron_next_fire_time 0 noon_thirty 44999 = 45000 /\
  forall u, 44999 < u < 45000 -> cron_matches noon_thirty (localtime 0 u) = false.
Proof.
  destruct (cron_next_fire_time_correct 0 noon_thirty 44999 noon_thirty_ok ltac:(lia)) as [(H1 & H2 & H3)|(H1 & H2)].
  - split; [by vm_compute|]. intros u Hu. lia.
  - exfalso. by vm_compute in H1.
Defined.

(** A job whose due firings the tick accounts for: its next fire time is one of its
    fire times, not further back than the search bound. *)
Definition due_ok (tz now : Z) (j : cron_job) : Prop :=
  cron_due now j = true ->
  expr_ok (cj_expr j) /\ 0 <= cj_next_fire j /\ fires tz (cj_expr j) (cj_next_fire j) = true /\
  now - cj_next_fire j <= CRON_MAX_ITER.

(** What a tick owes a job: one call, or with [catch_up] one per fire time passed. *)
Definition owed (tz now : Z) (j : cron_job) : nat :=
  if cron_due now j then
    if cj_catch_up j then count_if (fires tz (cj_expr j)) (seqZ (cj_next_fire j) (now + 1 - cj_next_fire j)) else 1%nat
  else 0%nat.

Definition after_fire (tz now : Z) (j : cron_job) : cron_job :=
  if cron_due now j then
    let next := cron_next_fire_time tz (cj_expr j) now in
    j <| cj_last_fire := now |> <| cj_next_fire := next |> <| cj_active := negb (next =? -1) |>
  else j.

Lemma cron_fire_job_spec tz now j : due_ok tz now j -> cron_due now j = true ->
  cron_fire_job tz now j = Some (replicate (owed tz now j) (cj_callback j, cj_userdata j), after_fire tz now j).
Proof.
  intros Hok Hdue. destruct (Hok Hdue) as (He & Hpos & Hfire & Hwin).
  unfold cron_fire_job, owed, after_fire. rewrite Hdue. unfold cron_due in Hdue.
  apply andb_true_iff in Hdue as [Hact Hle]. zbool.
  assert (Hj : forall next, (let j := j <| cj_last_fire := now |> <| cj_next_fire := next |> in
    if next =? -1 then j <| cj_active := false |> else j) =
    j <| cj_last_fire := now |> <| cj_next_fire := next |> <| cj_active := negb (next =? -1) |>).
  { intros next. destruct j. cbn in Hact; subst. by destruct (next =? -1). }
  destruct (cj_catch_up j).
  - rewrite missed_spec by (done || lia). cbn [mbind option_bind]. rewrite Hj.
    f_equal. f_equal. f_equal. unfold fires_between.
    rewrite (seqZ_cons (cj_next_fire j)) by lia. unfold count_if. cbn [List.filter]. rewrite Hfire. cbn [length].
    replace (Z.succ (cj_next_fire j)) with (cj_next_fire j + 1) by lia.
    replace (Z.pred (now + 1 - cj_next_fire j)) with (now - cj_next_fire j) by lia. lia.
  - cbn [mbind option_bind]. by rewrite Hj.
Qed.

(** A tick makes exactly the calls it owes, job after job in table order: none
    for a job that is inactive or not due, one for a due job, and for a due job that
    catches up one for every instant between its fire time and now that its
    expression matches.  It always ends, and each due job gets [now] as last fire
    time and the next one, or is deactivated when there is none. *)
Theorem cron_tick_correct tz sched now :
  Forall (due_ok tz now) (cs_jobs sched) ->
  cron_tick tz sched now =
    Some (Z.of_nat (count_if (cron_due now) (cs_jobs sched)),
          mjoin ((fun j => replicate (owed tz now j) (cj_callback j, cj_userdata j)) <$> cs_jobs sched),
          sched <| cs_jobs := after_fire tz now <$> cs_jobs sched |>).
Proof.
  intros Hall. unfold cron_tick.
  assert (Hgo : tick_jobs tz now (cs_jobs sched) =
    Some (Z.of_nat (count_if (cron_due now) (cs_jobs sched)),
          mjoin ((fun j => replicate (owed tz now j) (cj_callback j, cj_userdata j)) <$> cs_jobs sched),
          after_fire tz now <$> cs_jobs sched)); [|by rewrite Hgo].
  induction (cs_jobs sched) as [|j js IH]; [done|]. inversion_clear Hall as [|? ? Hj Hjs].
  cbn [tick_jobs]. rewrite (IH Hjs). unfold count_if. cbn [List.filter].
  destruct (cron_due now j) eqn:Hdue.
  - rewrite (cron_fire_job_spec tz now j Hj Hdue). cbn. f_equal. f_equal. f_equal. lia.
  - cbn. unfold owed, after_fire. rewrite Hdue. done.
Qed.

Lemma cron_tick_correct_witness :
  let j := mk_job 1 noon_thirty 7 8 true 0 45000 true in
  let sched := mk_sched [j] 64 in
  cron_tick 0 sched 45030 =
    Some (1, [(7, 8)], sched <| cs_jobs := after_fire 0 45030 <$> [j] |>).
Proof.
  intros j sched.
  assert (Hall : Forall (due_ok 0 45030) (cs_jobs sched)).
  { constructor; [|constructor]. intros _. split; [exact noon_thirty_ok|]. split; [cbn; lia|].
    split; [reflexivity|]. unfold CRON_MAX_ITER. cbn. lia. }
  etransitivity; [exact (cron_tick_correct 0 sched 45030 Hall)|]. vm_compute. reflexivity.
Defined.

(** Registering an id that is already registered does not replace the job: it
    removes it, and answers 0. *)
Theorem cron_reregister_removes tz sched id spec cb ud catch_up now j :
  j ∈ cs_jobs sched -> cj_id j = id -> NoDup (cj_id <$> cs_jobs sched) ->
  (Z.of_nat (length (cs_jobs sched)) < cs_max_jobs sched) ->
  exists jobs', cron_register_job tz sched id (Some spec) (Some cb) ud catch_up now = (0, sched <| cs_jobs := jobs' |>) /\
    cs_jobs sched ≡ₚ j :: jobs' /\ forall j', j' ∈ jobs' -> cj_id j' <> id.
Proof.
  intros Hj Hid Hnd Hroom. cbn. destruct (Z.leb_spec (cs_max_jobs sched) (Z.of_nat (length (cs_jobs sched)))); [lia|].
  unfold cron_unregister_job, cron_find. destruct (find_idx _ _) as [i|] eqn:Hi.
  - apply find_idx_Some in Hi as (j' & Hl & Heq & _). zbool.
    assert (j' = j) as ->.
    { apply list_elem_of_lookup in Hj as [k Hk].
      assert (i = k) as ->; [|by simplify_eq].
      eapply NoDup_lookup; [exact Hnd| |]; rewrite list_lookup_fmap; [by rewrite Hl|rewrite Hk; cbn; congruence]. }
    exists (swap_remove i (cs_jobs sched)). split; [done|].
    pose proof (swap_remove_Permutation i j (cs_jobs sched) Hl) as Hp. split; [done|].
    intros j' Hj' Hid'. rewrite Hp in Hnd. cbn in Hnd. apply NoDup_cons in Hnd as [Hni _]. apply Hni.
    rewrite Hid, <- Hid'. by apply list_elem_of_fmap_2.
  - rewrite find_idx_None in Hi. specialize (Hi j Hj). cbn in Hi. lia.
Qed.

Lemma cron_reregister_removes_witness :
  let j := mk_job 1 noon_thirty 7 8 true 0 45000 true in
  exists jobs', cron_register_job 0 (mk_sched [j] 64) 1 (Some "0 0 * * *"%string) (Some 9) 9 false 100
    = (0, mk_sched jobs' 64) /\ [j] ≡ₚ j :: jobs' /\ forall j', j' ∈ jobs' -> cj_id j' <> 1.
Proof.
  intros j. apply (cron_reregister_removes 0 (mk_sched [j] 64) 1 "0 0 * * *" 9 9 false 100 j); try done; cbn.
  - left.
  - repeat constructor; set_solver.
Defined.

(** ** What the parser and the search do on unusual fields *)

(** A single value discards the range before it, but not the range after it. *)
Theorem cron_list_drops_range :
  fd_values (cron_parse_field "1-5,10" 0 59) = [10] /\ fd_values (cron_parse_field "10,1-5" 0 59) = [10; 1; 2; 3; 4; 5].
Proof. split; reflexivity. Qed.

(** With unordered seconds the search skips fire times: "30,10 * * * * *" asked
    at time 0 answers 30 although second 10 matches. *)
Theorem cron_unordered_seconds_skipped :
  exists expr, cron_parse_expression "30,10 * * * * *" = Some expr /\
    cron_next_fire_time 0 expr 0 = 30 /\ cron_matches expr (localtime 0 10) = true.
Proof. eexists. split; [reflexivity|]. split; reflexivity. Qed.

(** The 31st of February, at midnight. *)
Definition only (v : Z) : cron_field_def := mk_field CRON_ENTRY_SPECIFIC [v].
Definition feb_31 : cron_expression :=
  mk_expr [only 0; only 0; only 0; only 31; only 2; mk_field CRON_ENTRY_ANY []] 0.

Lemma feb_31_parse : cron_parse_expression "0 0 31 2 *" = Some feb_31.
Proof. reflexivity. Qed.

Lemma feb_31_ok : expr_ok feb_31.
Proof. split; [done|]. right. cbn. repeat constructor; done. Qed.

Lemma feb_31_never tz t : cron_matches feb_31 (localtime tz t) = false.
Proof.
  apply not_true_iff_false. intros Hm. pose proof (localtime_ok tz t) as [_ _ _ Hmo Hd].
  revert Hm Hmo Hd. generalize (localtime tz t). intros [s mi h d mo y wd].
  unfold cron_matches, cron_field_matches. cbn -[Z.eqb Z.add]. intros Hm Hmo Hd.
  repeat match goal with H : (_ && _)%bool = true |- _ => apply andb_true_iff in H as [? H] end.
  repeat match goal with H : (_ || false)%bool = true |- _ => rewrite orb_false_r in H end.
  zbool. assert (mo = 1) as -> by lia. change (Z.to_nat 1) with 1%nat in Hd. cbn in Hd. case_match; lia.
Qed.

(** A job that can never run is run once: a job registered for the 31st of
    February gets the next fire time -1, which the next tick takes for a time that
    has passed. *)
Theorem cron_impossible_date_fires tz id cb ud now now' :
  0 <= now -> 0 <= now' ->
  let sched := (cron_register_job tz (cron_scheduler_create None) id (Some "0 0 31 2 *"%string) (Some cb) ud false now).2 in
  exists sched', cron_tick tz sched now' = Some (1, [(cb, ud)], sched').
Proof.
  intros Hn Hn'.
  assert (Hnever : forall from, 0 <= from -> cron_next_fire_time tz feb_31 from = -1).
  { intros from Hf. destruct (next_fire_spec tz feb_31 feb_31_ok from Hf) as [(_ & H & _)|(H & _)]; [|done].
    unfold fires in H. by rewrite feb_31_never in H. }
  assert (Hreg : cron_register_job tz (cron_scheduler_create None) id (Some "0 0 31 2 *"%string) (Some cb) ud false now
    = (0, mk_sched [mk_job id feb_31 cb ud false 0 (-1) true] 64)).
  { unfold cron_register_job. rewrite feb_31_parse. cbn -[cron_next_fire_time]. by rewrite Hnever. }
  cbn zeta. rewrite Hreg. unfold cron_tick, cron_due. cbn -[cron_next_fire_time Z.leb].
  destruct (Z.leb_spec (-1) now'); [|lia]. unfold cron_fire_job. cbn -[cron_next_fire_time].
  rewrite Hnever by done. eexists. reflexivity.
Qed.

Lemma cron_impossible_date_fires_witness :
  exists sched', cron_tick 0 (cron_register_job 0 (cron_scheduler_create None) 1 (Some "0 0 31 2 *"%string) (Some 7) 8 false 0).2 60
    = Some (1, [(7, 8)], sched').
Proof. apply (cron_impossible_date_fires 0 1 7 8 0 60); lia. Defined.

(** Five-field expressions fire at second 0 only, so the search is exact for them. *)
Lemma five_fields_ok spec expr :
  length (cron_tokens spec) = 5%nat -> cron_parse_expression spec = Some expr -> expr_ok expr.
Proof.
  unfold cron_parse_expression. intros ->. cbn [Nat.ltb Nat.leb Nat.eqb]. intros [= <-]. split; [done|].
  right. cbn. repeat constructor; done.
Qed.
