(* ===== verification/JobCoordinator.v ===== *)
(** Model of [mini-job-system/src/job_coordinator.c]: the facade that composes the
    worker pool, cron scheduler, delayed queue, retry table, priority scheduler,
    circuit breakers and rate limiters.

    Job wrappers live in a heap ([jc_wrappers]): [malloc] takes a fresh address,
    [free] removes it, and running an address that is not there, or a NULL job
    function, is undefined behaviour ([None]).  [malloc] does not fail.
    [job_result] is what the job functions answer; they do not call back into the
    coordinator.  The [n]-th reading of [time(NULL)] is [clock n].  [jc_trace] is a
    history: it is written and never read. *)

From stdpp Require Import pretty.
From S2P Require Import Prelude Arith Heap JobDag Ring.
From S2P Require Import WorkerPool PriorityScheduler TaskRetry CircuitBreaker DelayedQueue RateLimiter Calendar Cron.
#[local] Open Scope list_scope.
#[local] Open Scope Z_scope.

Definition JC_MAX_BREAKERS : nat := 16.
Definition JC_MAX_RATE_LIMIT : nat := 16.

Inductive jc_state := JC_STATE_IDLE | JC_STATE_RUNNING | JC_STATE_DRAINING | JC_STATE_STOPPED.
#[export] Instance jc_state_eq_dec : EqDecision jc_state.
Proof. solve_decision. Defined.

Inductive jc_result :=
  | JC_RESULT_SUCCESS | JC_RESULT_FAILED | JC_RESULT_RETRY | JC_RESULT_REJECTED | JC_RESULT_SKIPPED | JC_RESULT_TIMEOUT.

Record jc_job_ctx := mk_ctx {
  x_job_id : Z; x_job_name : option string; x_job_type : option string; x_priority : Z; x_userdata : Z;
}.

Record jc_wrapper := mk_wrapper {
  wr_ctx : jc_job_ctx; wr_job_fn : option Z; wr_on_complete : option Z; wr_complete_ud : Z; wr_submitted_at : Z;
}.

Record jc_config := mk_jc_config {
  cfg_max_workers : Z; cfg_queue_size : Z; cfg_graceful_timeout_ms : Z; cfg_health_check_interval_ms : Z;
  cfg_enable_circuit_breaker : bool; cfg_enable_rate_limiter : bool; cfg_enable_dag_scheduler : bool;
}.

Inductive jc_event :=
  | JobRun (fn : Z) (ctx : jc_job_ctx)
  | Completion (cb : Z) (ctx : jc_job_ctx) (result : jc_result) (ud : Z)
  | DeadLetter (call : Z * Z * Z * Z).

(** The callback identifier of [jc_execute_wrapper]. *)
Definition JC_EXECUTE_WRAPPER : Z := 1.

Section coordinator.
Context {D : Type} `{HA : Arith D} (tz : Z) (clock : nat -> Z) (job_result : Z -> jc_job_ctx -> jc_result).

Record jc_stats := mk_stats {
  total_submitted : Z; total_completed : Z; total_failed : Z; total_retried : Z; total_rejected : Z;
  total_skipped : Z; uptime_seconds : D; active_jobs : Z; queued_jobs : Z;
  completion_rate : D; failure_rate : D; avg_latency_ms : D;
}.
Definition stats_zero : jc_stats := mk_stats 0 0 0 0 0 0 (of_Z 0) 0 0 (of_Z 0) (of_Z 0) (of_Z 0).

Record job_coordinator := mk_jc {
  jc_pool : wp_pool;
  jc_cron : cron_scheduler;
  jc_dq : delayed_queue;
  jc_retry : task_retry;
  jc_ps : ps_scheduler;
  jc_breakers : list (string * circuit_breaker);
  jc_limits : list (string * rate_limiter D);
  jc_st : jc_state;
  jc_started_at : Z;
  jc_enable_breaker : bool;
  jc_enable_limiter : bool;
  jc_enable_dag : bool;
  jc_statistics : jc_stats;
  jc_total_latency_ms : D;
  jc_latency_samples : Z;
  jc_wrappers : gmap Z jc_wrapper;
  jc_next_addr : Z;
  jc_reads : nat;
  jc_trace : list jc_event;
}.

(** ** State passing with undefined behaviour *)

Definition M (A : Type) : Type := job_coordinator -> option (A * job_coordinator).
Definition ret {A} (x : A) : M A := fun jc => Some (x, jc).
Definition bind {A B} (m : M A) (f : A -> M B) : M B :=
  fun jc => match m jc with Some (x, jc') => f x jc' | None => None end.
Definition undefined {A} : M A := fun _ => None.
Definition get {A} (f : job_coordinator -> A) : M A := fun jc => Some (f jc, jc).
Definition modify (f : job_coordinator -> job_coordinator) : M unit := fun jc => Some (tt, f jc).
Local Notation "'let*' x := m 'in' k" := (bind m (fun x => k)) (at level 200, x name, right associativity).
Local Notation "m ;; k" := (bind m (fun _ => k)) (at level 100, k at level 200, right associativity).

Definition time_now : M Z := fun jc => Some (clock (jc_reads jc), jc <| jc_reads ::= S |>).
Definition emit (e : jc_event) : M unit := modify (fun jc => jc <| jc_trace ::= fun l => l ++ [e] |>).
Definition bump (f : jc_stats -> jc_stats) : M unit := modify (fun jc => jc <| jc_statistics ::= f |>).

Definition jc_malloc (w : jc_wrapper) : M Z :=
  fun jc => Some (jc_next_addr jc,
    jc <| jc_wrappers ::= <[jc_next_addr jc := w]> |> <| jc_next_addr ::= Z.succ |>).
Definition jc_free (a : Z) : M unit := modify (fun jc => jc <| jc_wrappers ::= delete a |>).

Definition new_wrapper (ctx : jc_job_ctx) (fn on_complete : option Z) (ud : Z) : M Z :=
  let* t := time_now in jc_malloc (mk_wrapper ctx fn on_complete ud t).

(** ** Creation *)

Definition apply_defaults (c : jc_config) : jc_config :=
  c <| cfg_max_workers := if cfg_max_workers c <=? 0 then 4 else cfg_max_workers c |>
    <| cfg_queue_size := if cfg_queue_size c <=? 0 then 256 else cfg_queue_size c |>
    <| cfg_graceful_timeout_ms := if cfg_graceful_timeout_ms c <=? 0 then 10000 else cfg_graceful_timeout_ms c |>
    <| cfg_health_check_interval_ms := if cfg_health_check_interval_ms c <=? 0 then 5000 else cfg_health_check_interval_ms c |>.

(** [t1], [t2], [t3]: the retry generator's seed, the last aging, [started_at]. *)
Definition jc_create (config : option jc_config) (t1 t2 t3 : Z) : job_coordinator :=
  let cfg := apply_defaults (default (mk_jc_config 0 0 0 0 false false false) config) in
  let on (f : jc_config -> bool) := from_option f true config in
  mk_jc
    (worker_pool_create (Some (mk_wp_config (cfg_max_workers cfg) (cfg_queue_size cfg) (cfg_graceful_timeout_ms cfg))))
    (cron_scheduler_create (Some 32)) (delayed_queue_create 64 true) (task_retry_create 64 t1) (ps_create None t2)
    [] [] JC_STATE_IDLE t3 (on cfg_enable_circuit_breaker) (on cfg_enable_rate_limiter) (on cfg_enable_dag_scheduler)
    stats_zero (of_Z 0) 0 ∅ 0 0 [].

(** ** The execution wrapper *)

Definition count_result (r : jc_result) (s : jc_stats) : jc_stats :=
  match r with
  | JC_RESULT_SUCCESS => s <| total_completed ::= fun n => u64 (n + 1) |>
  | JC_RESULT_FAILED => s <| total_failed ::= fun n => u64 (n + 1) |>
  | JC_RESULT_RETRY => s <| total_retried ::= fun n => u64 (n + 1) |>
  | JC_RESULT_REJECTED => s <| total_rejected ::= fun n => u64 (n + 1) |>
  | JC_RESULT_SKIPPED => s <| total_skipped ::= fun n => u64 (n + 1) |>
  | JC_RESULT_TIMEOUT => s
  end.

Definition complete (cb : option Z) (ctx : jc_job_ctx) (r : jc_result) (ud : Z) : M unit :=
  match cb with Some cb => emit (Completion cb ctx r ud) | None => ret tt end.

Definition jc_execute_wrapper (a : Z) : M unit :=
  let* w := get (fun jc => jc_wrappers jc !! a) in
  match w with
  | None => undefined
  | Some w =>
      let* start := time_now in
      match wr_job_fn w with
      | None => undefined
      | Some fn =>
          emit (JobRun fn (wr_ctx w)) ;;
          let result := job_result fn (wr_ctx w) in
          let* end_ := time_now in
          modify (fun jc => jc <| jc_total_latency_ms ::= fun l => add l (mul (of_Z (end_ - start)) (of_Z 1000)) |>
                               <| jc_latency_samples ::= Z.succ |>) ;;
          bump (count_result result) ;;
          complete (wr_on_complete w) (wr_ctx w) result (wr_complete_ud w) ;;
          jc_free a
      end
  end.

(** Callbacks with their data: all of them are [jc_execute_wrapper]. *)
Fixpoint run_calls (calls : list (Z * Z)) : M unit :=
  match calls with
  | [] => ret tt
  | (cb, ud) :: calls' =>
      (if cb =? JC_EXECUTE_WRAPPER then jc_execute_wrapper ud else undefined) ;; run_calls calls'
  end.

(** ** Submission *)

Definition jc_submit_job (ctx : jc_job_ctx) (fn : option Z) (on_complete : option Z) (ud : Z) : M Z :=
  let* st := get jc_st in
  match fn with
  | None => ret (-1)
  | Some _ =>
      if decide (st <> JC_STATE_RUNNING) then ret (-2)
      else
        let* a := new_wrapper ctx fn on_complete ud in
        let* r := get (fun jc => wp_submit (jc_pool jc) (x_job_id ctx) (Some JC_EXECUTE_WRAPPER) a None 0 (x_job_type ctx)) in
        modify (fun jc => jc <| jc_pool := r.2 |>) ;;
        if r.1 <? 0 then jc_free a ;; ret r.1
        else
          bump (fun s => s <| total_submitted ::= fun n => u64 (n + 1) |> <| active_jobs ::= fun n => s32 (n + 1) |>) ;;
          ret 0
  end.

Definition named {A} (n : string) (l : list (string * A)) : option nat :=
  find_idx (fun p => (p.1 =? n)%string) l.

Definition reject (ctx : jc_job_ctx) (on_complete : option Z) (ud : Z) : M Z :=
  bump (fun s => s <| total_rejected ::= fun n => u64 (n + 1) |>) ;;
  complete on_complete ctx JC_RESULT_REJECTED ud ;;
  ret (-2).

Definition jc_submit_with_breaker (ctx : jc_job_ctx) (fn on_complete : option Z) (ud : Z) (name : string) : M Z :=
  match fn with
  | None => ret (-1)
  | Some _ =>
      let* bs := get jc_breakers in
      match named name bs ≫= fun i => (fun p => (i, p.2)) <$> bs !! i with
      | None => jc_submit_job ctx fn on_complete ud
      | Some (i, cb) =>
          let* now := time_now in
          let r := cb_allow_request cb now in
          modify (fun jc => jc <| jc_breakers ::= alter (fun p => (p.1, r.2)) i |>) ;;
          if r.1 =? 0 then reject ctx on_complete ud else jc_submit_job ctx fn on_complete ud
      end
  end.

Definition jc_submit_rate_limited (ctx : jc_job_ctx) (fn on_complete : option Z) (ud : Z) (name : string) (cost : D) : M Z :=
  match fn with
  | None => ret (-1)
  | Some _ =>
      let* ls := get jc_limits in
      match named name ls ≫= fun i => (fun p => (i, p.2)) <$> ls !! i with
      | None => jc_submit_job ctx fn on_complete ud
      | Some (i, rl) =>
          let* t1 := time_now in
          let* t2 := time_now in
          let* t3 := time_now in
          let r := rl_consume rl cost t1 t2 t3 in
          modify (fun jc => jc <| jc_limits ::= alter (fun p => (p.1, r.2)) i |>) ;;
          if negb r.1 then reject ctx on_complete ud else jc_submit_job ctx fn on_complete ud
      end
  end.

(** The loop over the ready nodes: the number submitted. *)
Fixpoint submit_ready (dag : jdag) (job_fns : list (option Z)) (ready : list Z) : M Z :=
  match ready with
  | [] => ret 0
  | i :: ready' =>
      let ctx := mk_ctx i (Some "dag-job"%string) (Some "dag"%string) 0 0 in
      let fn := find_node dag i ≫= fun k => mjoin (job_fns !! k) in
      let* ok := match fn with
                 | None => ret false
                 | Some _ => let* r := jc_submit_job ctx fn None 0 in ret (r =? 0)
                 end in
      let* n := submit_ready dag job_fns ready' in
      ret (if ok then n + 1 else n)
  end.

Definition jc_submit_dag (dag : jdag) (job_fns : list (option Z)) : M Z :=
  submit_ready dag job_fns (jdag_get_ready_nodes dag 64).

(** ** Scheduling *)

Definition jc_schedule_cron (ctx : jc_job_ctx) (fn : option Z) (spec : option string) (catch_up : bool) : M Z :=
  match spec with
  | None => ret (-1)
  | Some _ =>
      let* a := new_wrapper ctx fn None 0 in
      let* now := time_now in
      let* r := get (fun jc => cron_register_job tz (jc_cron jc) (x_job_id ctx) spec (Some JC_EXECUTE_WRAPPER) a catch_up now) in
      modify (fun jc => jc <| jc_cron := r.2 |>) ;; ret r.1
  end.

Definition delay_key (job_id : Z) : string := ("jc_delay_" +:+ pretty job_id)%string.

Definition jc_schedule_delayed (ctx : jc_job_ctx) (fn : option Z) (delay_ms : Z) : M Z :=
  let* a := new_wrapper ctx fn None 0 in
  let* t1 := time_now in
  let* t2 := time_now in
  let* t3 := time_now in
  let* r := get (fun jc => dq_enqueue (jc_dq jc) (x_job_id ctx) (Some (delay_key (x_job_id ctx)))
                   (Some JC_EXECUTE_WRAPPER) a delay_ms t1 t2 t3) in
  match r with
  | None => undefined
  | Some (code, dq') => modify (fun jc => jc <| jc_dq := dq' |>) ;; ret code
  end.

Definition jc_submit_priority (ctx : jc_job_ctx) (fn : option Z) (prio : Z) : M Z :=
  let* a := new_wrapper ctx fn None 0 in
  let* now := time_now in
  let* r := get (fun jc => ps_submit (jc_ps jc) (x_job_id ctx) (Some JC_EXECUTE_WRAPPER) a prio 1 now) in
  modify (fun jc => jc <| jc_ps := r.2 |>) ;; ret r.1.

(** ** Tick *)

(** [while (dq_dequeue(...)) { callback; processed++; }]; a round takes an entry off. *)
Fixpoint tick_delayed (fuel : nat) (now : Z) : M Z :=
  let* r := get (fun jc => dq_dequeue (jc_dq jc) now) in
  match r with
  | None => undefined
  | Some (_, None, dq') => modify (fun jc => jc <| jc_dq := dq' |>) ;; ret 0
  | Some (_, Some e, dq') =>
      match fuel with
      | O => undefined
      | S fuel' =>
          modify (fun jc => jc <| jc_dq := dq' |>) ;;
          run_calls [(e_callback e, e_userdata e)] ;;
          let* n := tick_delayed fuel' now in
          ret (n + 1)
      end
  end.

Definition tick_cron (now : Z) : M Z :=
  let* r := get (fun jc => cron_tick tz (jc_cron jc) now) in
  match r with
  | None => undefined
  | Some (n, calls, cron') => modify (fun jc => jc <| jc_cron := cron' |>) ;; run_calls calls ;; ret n
  end.

Fixpoint emit_all (es : list jc_event) : M unit :=
  match es with [] => ret tt | e :: es' => emit e ;; emit_all es' end.

Definition tick_retries : M unit :=
  let* r := get (fun jc => tr_process_dead_letters (jc_retry jc)) in
  modify (fun jc => jc <| jc_retry := r.2 |>) ;; emit_all (DeadLetter <$> r.1).

Definition tick_priority : M Z :=
  let* t1 := time_now in
  let* t2 := time_now in
  let* r := get (fun jc => ps_schedule_next (jc_ps jc) t1 t2) in
  modify (fun jc => jc <| jc_ps := r.2 |>) ;;
  match r.1 with
  | None => ret 0
  | Some e => run_calls [(PriorityScheduler.job e, PriorityScheduler.userdata e)] ;; ret 1
  end.

Definition update_stats (now : Z) (jc : job_coordinator) : job_coordinator :=
  jc <| jc_statistics ::= fun s =>
    s <| queued_jobs := wp_pending_tasks (jc_pool jc) + dq_size (jc_dq jc) |>
      <| active_jobs := wp_busy_workers (jc_pool jc) |>
      <| uptime_seconds := of_Z (now - jc_started_at jc) |> |>.

Definition jc_tick : M Z :=
  let* st := get jc_st in
  if decide (st <> JC_STATE_RUNNING) then ret (-1)
  else
    let* now := time_now in
    let* n1 := tick_cron now in
    let* size := get (fun jc => length (heap (jc_dq jc))) in
    let* n2 := tick_delayed size now in
    tick_retries ;;
    let* n3 := tick_priority in
    modify (update_stats now) ;;
    ret (n1 + n2 + n3).

(** ** Lifecycle *)

Definition jc_start : M Z :=
  modify (fun jc => jc <| jc_st := JC_STATE_RUNNING |>) ;;
  let* now := time_now in
  modify (fun jc => jc <| jc_started_at := now |>) ;; ret 0.

(** A graceful shutdown also waits for the workers: [others] is what they do then. *)
Definition jc_stop (graceful : bool) (others : M unit) : M Z :=
  modify (fun jc => jc <| jc_st := JC_STATE_STOPPED |>) ;;
  (if graceful then
     modify (fun jc => jc <| jc_pool ::= wp_graceful_begin |>) ;; others ;;
     modify (fun jc => jc <| jc_pool ::= wp_graceful_end |>)
   else modify (fun jc => jc <| jc_pool ::= wp_shutdown |>)) ;;
  ret 0.

(** [others i] is what the worker threads do while the drain sleeps for the
    [i]-th time; the loop sleeps 100 ms a round. *)
Fixpoint drain_loop (others : nat -> M unit) (rounds : nat) (i : nat) (timeout_ms waited : Z) : M unit :=
  let* pending := get (fun jc => wp_pending_tasks (jc_pool jc)) in
  if (0 <? pending) && (waited <? timeout_ms) then
    match rounds with
    | O => undefined
    | S rounds' => jc_tick ;; others i ;; drain_loop others rounds' (S i) timeout_ms (waited + 100)
    end
  else ret tt.

Definition jc_drain (others : nat -> M unit) (timeout_ms : Z) : M Z :=
  modify (fun jc => jc <| jc_st := JC_STATE_DRAINING |>) ;;
  drain_loop others (Z.to_nat (timeout_ms / 100 + 1)) 0 timeout_ms 0 ;;
  modify (fun jc => jc <| jc_st := JC_STATE_STOPPED |>) ;;
  ret 0.

Definition jc_get_state (jc : job_coordinator) : jc_state := jc_st jc.

(** One step of the worker thread [k]; at [PcBusy] it runs the task. *)
Definition jc_worker_step (k : nat) : M unit :=
  let* pc := get (fun jc => threads (jc_pool jc) !! k) in
  match pc with
  | Some (PcBusy _ t _) => run_calls [(t_task t, t_userdata t)]
  | _ => ret tt
  end ;;
  let* now := time_now in
  modify (fun jc => jc <| jc_pool ::= worker_step k now |>).

(** ** Breakers and limiters *)

Definition JC_NAME_LEN : nat := 31.

Definition jc_register_breaker (name : option string) : M Z :=
  let* n := get (fun jc => length (jc_breakers jc)) in
  match name with
  | None => ret (-1)
  | Some name =>
      if (JC_MAX_BREAKERS <=? n)%nat then ret (-1)
      else
        modify (fun jc => jc <| jc_breakers ::= fun l =>
          l ++ [(str_take JC_NAME_LEN name, cb_create (Some (mk_cb_config 5 2 0 30000 1 0)) (Some name))] |>) ;;
        ret 0
  end.

Definition jc_get_breaker (jc : job_coordinator) (name : string) : option circuit_breaker :=
  snd <$> (named name (jc_breakers jc) ≫= fun i => jc_breakers jc !! i).

Definition jc_register_rate_limit (name : option string) (type : rl_type) (rate burst : D) : M Z :=
  let* n := get (fun jc => length (jc_limits jc)) in
  match name with
  | None => ret (-1)
  | Some name =>
      if (JC_MAX_RATE_LIMIT <=? n)%nat then ret (-1)
      else
        let* now := time_now in
        let rl :=
          match type with
          | RL_TYPE_TOKEN_BUCKET => rl_token_bucket_init rate burst now
          | RL_TYPE_LEAKY_BUCKET => rl_leaky_bucket_init rate burst now
          | RL_TYPE_SLIDING_WINDOW => rl_sliding_window_init rate burst
          | RL_TYPE_FIXED_WINDOW => rl_fixed_window_init rate burst now
          end in
        modify (fun jc => jc <| jc_limits ::= fun l => l ++ [(str_take JC_NAME_LEN name, rl)] |>) ;; ret 0
  end.

Definition jc_get_rate_limit (jc : job_coordinator) (name : string) : option (rate_limiter D) :=
  snd <$> (named name (jc_limits jc) ≫= fun i => jc_limits jc !! i).

(** ** Statistics *)

Definition jc_get_stats (jc : job_coordinator) (now : Z) : jc_stats :=
  let s := (jc_statistics jc) <| uptime_seconds := of_Z (now - jc_started_at jc) |> in
  let s := if ltb (of_Z 0) (uptime_seconds s)
           then s <| completion_rate := div (of_Z (total_completed s)) (uptime_seconds s) |> else s in
  let tot := u64 (total_completed s + total_failed s) in
  let s := if 0 <? tot then s <| failure_rate := div (of_Z (total_failed s)) (of_Z tot) |> else s in
  if 0 <? jc_latency_samples jc
  then s <| avg_latency_ms := div (jc_total_latency_ms jc) (of_Z (jc_latency_samples jc)) |> else s.

Definition jc_reset_stats (jc : job_coordinator) : job_coordinator :=
  jc <| jc_statistics := stats_zero |> <| jc_total_latency_ms := of_Z 0 |> <| jc_latency_samples := 0 |>.

Definition jc_health_check (jc : job_coordinator) : bool :=
  bool_decide (jc_st jc = JC_STATE_RUNNING \/ jc_st jc = JC_STATE_DRAINING) && wp_is_running (jc_pool jc).
End coordinator.
