(* ===== verification/JobCoordinatorSafe.v ===== *)
(** Theorems about the coordinator (file [JobCoordinator]): without cron jobs no
    sequence of its operations uses a job wrapper after it was freed, each wrapper
    is run at most once, the registered breakers never open, and a drain executes
    nothing but what the workers had; with a cron job the second firing is a use
    after free. *)

From stdpp Require Import pretty.
From S2P Require Import Prelude Arith Heap JobDag Ring.
From S2P Require Import WorkerPool PriorityScheduler TaskRetry CircuitBreaker DelayedQueue RateLimiter Calendar Cron JobCoordinator.
From Stdlib Require Import QArith.
#[local] Open Scope list_scope.
#[local] Open Scope Z_scope.

(** ** Total correctness of a stateful operation *)

Section wp.
Context {D : Type}.
Implicit Types jc : job_coordinator (D := D).

(** [m] has a result from [jc], and it satisfies [Q]. *)
Definition wp {A} (m : M (D := D) A) (Q : A -> job_coordinator -> Prop) (jc : job_coordinator) : Prop :=
  match m jc with Some (x, jc') => Q x jc' | None => False end.

Lemma wp_bind {A B} (m : M A) (f : A -> M B) Q jc : wp m (fun x => wp (f x) Q) jc -> wp (bind m f) Q jc.
Proof. unfold wp, bind. by destruct (m jc) as [[x jc']|]. Qed.
Lemma wp_mono {A} (m : M A) (Q Q' : A -> job_coordinator -> Prop) jc :
  wp m Q jc -> (forall x jc', Q x jc' -> Q' x jc') -> wp m Q' jc.
Proof. unfold wp. destruct (m jc) as [[x jc']|]; auto. Qed.
Lemma wp_get {A} (f : job_coordinator -> A) (Q : A -> job_coordinator -> Prop) jc : Q (f jc) jc -> wp (get f) Q jc.
Proof. done. Qed.
Lemma wp_modify f (Q : unit -> job_coordinator -> Prop) jc : Q tt (f jc) -> wp (modify f) Q jc.
Proof. done. Qed.
Lemma wp_ret {A} (x : A) (Q : A -> job_coordinator -> Prop) jc : Q x jc -> wp (ret x) Q jc.
Proof. done. Qed.
End wp.

(** ** Wrappers and the references to them *)

(** [refs] are distinct live wrappers with a job function; addresses are fresh. *)
Record covers {D} (jc : job_coordinator (D := D)) (refs : list Z) : Prop := {
  cv_nodup : NoDup refs;
  cv_live : forall a, a ∈ refs -> exists w fn, jc_wrappers jc !! a = Some w /\ wr_job_fn w = Some fn;
  cv_fresh : forall a w, jc_wrappers jc !! a = Some w -> a < jc_next_addr jc;
}.

(** The parts that hold references, and the state. *)
Definition parts {D} (jc : job_coordinator (D := D)) :=
  (jc_pool jc, jc_cron jc, jc_dq jc, jc_ps jc, jc_breakers jc, jc_st jc).

Section safety.
Context {D : Type} `{HA : Arith D} (tz : Z) (clock : nat -> Z) (job_result : Z -> jc_job_ctx -> jc_result).
Implicit Types jc : job_coordinator (D := D).

Lemma covers_perm jc refs refs' : refs ≡ₚ refs' -> covers jc refs -> covers jc refs'.
Proof. intros Hp [H1 H2 H3]. split; [by rewrite <- Hp| |done]. intros a Ha. apply H2. by rewrite Hp. Qed.

Lemma covers_drop jc a refs : covers jc (a :: refs) -> covers jc refs.
Proof. intros [[_ H1]%NoDup_cons H2 H3]. split; [done| |done]. intros b Hb. apply H2. by right. Qed.

Lemma covers_drop_app jc l refs : covers jc (l ++ refs) -> covers jc refs.
Proof. induction l as [|a l IH]; [done|]. intros Hc%covers_drop. by apply IH. Qed.

Lemma covers_same jc jc' refs :
  jc_wrappers jc' = jc_wrappers jc -> jc_next_addr jc' = jc_next_addr jc -> covers jc refs -> covers jc' refs.
Proof. intros Hw Hn [H1 H2 H3]. split; [done| |]; by rewrite ?Hw, ?Hn. Qed.

Lemma covers_free jc a refs :
  covers jc (a :: refs) -> covers (jc <| jc_wrappers ::= delete a |>) refs.
Proof.
  intros [[Hni H1]%NoDup_cons H2 H3]. split; cbn; [done| |].
  - intros b Hb. destruct (H2 b) as (w & fn & Hw & Hf); [by right|]. exists w, fn. split; [|done].
    rewrite lookup_delete_ne; [done|]. by intros ->.
  - intros b w Hw. apply lookup_delete_Some in Hw as [_ Hw]. by eapply H3.
Qed.

Lemma new_wrapper_wp ctx fn oc ud jc refs :
  covers jc refs ->
  wp (new_wrapper clock ctx (Some fn) oc ud) (fun a jc' => covers jc' (a :: refs) /\ parts jc' = parts jc) jc.
Proof.
  intros [H1 H2 H3]. unfold wp. cbn. split; [|done]. split; cbn.
  - apply NoDup_cons. split; [|done]. intros Ha. destruct (H2 _ Ha) as (w & f & Hw & _). specialize (H3 _ _ Hw). lia.
  - intros a [->|Ha]%elem_of_cons; [by rewrite lookup_insert_eq; eauto|].
    destruct (H2 a Ha) as (w & f & Hw & Hf). exists w, f. split; [|done].
    rewrite lookup_insert_ne; [done|]. specialize (H3 _ _ Hw). lia.
  - intros a w Hw. apply lookup_insert_Some in Hw as [[<- _]|[_ Hw]]; [lia|]. specialize (H3 _ _ Hw). lia.
Qed.

Lemma execute_wp a jc refs :
  covers jc (a :: refs) ->
  wp (jc_execute_wrapper clock job_result a) (fun _ jc' => covers jc' refs /\ parts jc' = parts jc) jc.
Proof.
  intros Hc. destruct (cv_live _ _ Hc a) as (w & fn & Hw & Hf); [left|].
  unfold wp, jc_execute_wrapper, bind, get, time_now. rewrite Hw. cbn. rewrite Hf.
  destruct (wr_on_complete w); cbn; (split; [|done]);
    apply covers_free in Hc; revert Hc; by apply covers_same.
Qed.

Lemma run_calls_wp calls : forall jc refs,
  Forall (fun c => c.1 = JC_EXECUTE_WRAPPER) calls -> covers jc ((snd <$> calls) ++ refs) ->
  wp (run_calls clock job_result calls) (fun _ jc' => covers jc' refs /\ parts jc' = parts jc) jc.
Proof.
  induction calls as [|[cb ud] calls IH]; intros jc refs Hall Hc; [done|].
  inversion_clear Hall as [|? ? Hcb Hall']. cbn in Hcb. subst cb. cbn [run_calls fmap list_fmap app snd] in *.
  apply wp_bind. rewrite Z.eqb_refl. eapply wp_mono; [by apply execute_wp|]. intros _ jc1 [Hc1 Hp1].
  eapply wp_mono; [by apply IH|]. intros _ jc2 [Hc2 Hp2]. split; [done|congruence].
Qed.

(** ** What the parts refer to *)

Definition dq_refs (dq : delayed_queue) : list Z := e_userdata <$> heap dq.
Definition ps_refs (s : ps_scheduler) : list Z := PriorityScheduler.userdata <$> List.filter PriorityScheduler.active (jobs s).

(** The pool and the tasks it has not run yet. *)
Definition pool_ok (p : wp_pool) (l : list wp_task) : Prop := exists q, wp_inv p q /\ l = held p ++ q.

Record parts_ok (jc : job_coordinator (D := D)) (l : list wp_task) : Prop := {
  po_pool : pool_ok (jc_pool jc) l;
  po_tasks : Forall (fun t => t_task t = JC_EXECUTE_WRAPPER) l;
  po_dq : dq_ok (jc_dq jc);
  po_dq_calls : Forall (fun e => e_callback e = JC_EXECUTE_WRAPPER) (heap (jc_dq jc));
  po_mlfq : algorithm (jc_ps jc) = PS_SCHED_MLFQ;
  po_ps_calls : Forall (fun e => PriorityScheduler.job e = JC_EXECUTE_WRAPPER) (jobs (jc_ps jc));
  po_cron : cs_jobs (jc_cron jc) = [];
  po_breakers : Forall (fun p => state p.2 = CB_STATE_CLOSED) (jc_breakers jc);
}.

Definition refs (jc : job_coordinator (D := D)) (l : list wp_task) : list Z :=
  dq_refs (jc_dq jc) ++ ps_refs (jc_ps jc) ++ (t_userdata <$> l).

Definition jc_inv (jc : job_coordinator (D := D)) : Prop := exists l, parts_ok jc l /\ covers jc (refs jc l).

Lemma parts_ok_same jc jc' l : parts jc' = parts jc -> parts_ok jc l -> parts_ok jc' l.
Proof. unfold parts. intros [= H1 H2 H3 H4 H5 _] [? ? ? ? ? ? ? ?]. split; by rewrite ?H1, ?H2, ?H3, ?H4, ?H5. Qed.
Lemma refs_same jc jc' l : parts jc' = parts jc -> refs jc' l = refs jc l.
Proof. unfold parts, refs. by intros [= _ _ -> -> _ _]. Qed.

(** Outcomes that touch neither the parts nor the wrappers. *)
Lemma inv_same jc jc' :
  jc_pool jc' = jc_pool jc -> jc_cron jc' = jc_cron jc -> jc_dq jc' = jc_dq jc -> jc_ps jc' = jc_ps jc ->
  jc_breakers jc' = jc_breakers jc ->
  jc_wrappers jc' = jc_wrappers jc -> jc_next_addr jc' = jc_next_addr jc -> jc_inv jc -> jc_inv jc'.
Proof.
  intros H1 H2 H3 H4 H7 H5 H6 (l & [? ? ? ? ? ? ? ?] & Hc). exists l. split.
  - split; by rewrite ?H1, ?H2, ?H3, ?H4, ?H7.
  - unfold refs. rewrite H3, H4. by eapply covers_same.
Qed.

(** ** The pool *)

Lemma pool_pending p q p' q' new done_ :
  wp_inv p q -> wp_inv p' q' -> accepted p' = accepted p ++ new -> finished p' = finished p ++ done_ ->
  (held p ++ q) ++ new ≡ₚ done_ ++ held p' ++ q'.
Proof.
  intros H H' Ha Hf. apply (Permutation_app_inv_l (finished p)).
  assert (H1 : accepted p ≡ₚ finished p ++ held p ++ q).
  { rewrite (wi_fifo _ _ H), (wi_once _ _ H). by rewrite <- app_assoc. }
  assert (H2 : accepted p' ≡ₚ finished p' ++ held p' ++ q').
  { rewrite (wi_fifo _ _ H'), (wi_once _ _ H'). by rewrite <- app_assoc. }
  rewrite Ha, Hf, H1, <- !app_assoc in H2. rewrite <- !app_assoc. by rewrite H2.
Qed.

Lemma find_index_histories p ty :
  accepted (find_concurrency_index p ty).2 = accepted p /\ finished (find_concurrency_index p ty).2 = finished p.
Proof. unfold find_concurrency_index. repeat case_match; done. Qed.

Lemma worker_step_histories k now p :
  accepted (worker_step k now p) = accepted p /\
  finished (worker_step k now p) = finished p ++ match threads p !! k with Some (PcBusy _ t _) => [t] | _ => [] end.
Proof.
  unfold worker_step. destruct (threads p !! k) as [pc|]; [|by rewrite app_nil_r].
  destruct pc as [|w|w|w|w t|w t ci|w t ci|w t ci|w t ci|]; cbn; rewrite ?app_nil_r; try done.
  all: try match goal with
    |- context [find_concurrency_index ?pool ?ty] =>
        pose proof (find_index_histories pool ty) as [H1 H2];
        by destruct (find_concurrency_index pool ty) as [[c|] p']
    end.
  all: unfold q_pop; repeat case_match; simplify_eq; done.
Qed.

(** ** The priority scheduler, whatever its queues hold *)

Definition took (s : ps_scheduler) (r : option ps_job_entry * ps_scheduler) : Prop :=
  algorithm r.2 = algorithm s /\
  match r.1 with
  | Some e => exists i, jobs s !! i = Some e /\ PriorityScheduler.active e = true /\
      jobs r.2 = alter deactivate i (jobs s)
  | None => jobs r.2 = jobs s
  end.

Lemma dequeue_from_level_jobs s p :
  jobs (dequeue_from_level s p).2 = jobs s /\ algorithm (dequeue_from_level s p).2 = algorithm s.
Proof.
  unfold dequeue_from_level. case_match; [done|]. case_match; [done|]. by destruct (ring_pop _ _).
Qed.

Lemma mlfq_level_took n lev now : forall s, took s (mlfq_level n s lev now).
Proof.
  induction n as [|n IH]; intros s; [done|]. cbn [mlfq_level].
  pose proof (dequeue_from_level_jobs s (Z.of_nat lev)) as [Hj Ha].
  destruct (dequeue_from_level s (Z.of_nat lev)) as [[idx|] s1]; cbn [snd] in *; [|done].
  destruct (PriorityScheduler.active (jobs s1 !!! idx)) eqn:Hact.
  - assert (Hl : jobs s !! idx = Some (jobs s1 !!! idx)).
    { rewrite Hj in *. rewrite list_lookup_total_alt in *. by destruct (jobs s !! idx). }
    split; cbn.
    + unfold record_wait. by case_match.
    + exists idx. split_and!; [done|done|]. unfold record_wait. case_match; cbn; by rewrite Hj.
  - unfold took. destruct (IH s1) as [Ha' Hr]. rewrite Ha', Ha. split; [done|]. by rewrite Hj in Hr.
Qed.

Lemma schedule_took s now : took s (schedule_mlfq s now).
Proof.
  unfold schedule_mlfq. generalize (seq 0 (Z.to_nat (level_count s))).
  assert (Hgo : forall l acc, took s acc -> took s (foldl (mlfq_step now) acc l)).
  { induction l as [|lev l IH]; intros acc Hacc; [done|]. apply IH. destruct acc as [[e|] s1]; [done|].
    cbn [mlfq_step]. destruct Hacc as [Ha Hj]. cbn in Ha, Hj.
    destruct (mlfq_level_took (rcount (queues s1 !!! lev)) lev now s1) as [Ha' Hr].
    split; [congruence|]. by rewrite Hj in Hr. }
  intros l. by apply Hgo.
Qed.

Lemma age_refs s now : ps_refs (ps_age_jobs s now).2 = ps_refs s /\ algorithm (ps_age_jobs s now).2 = algorithm s.
Proof.
  split; [|done]. unfold ps_refs. cbn. induction (jobs s) as [|e js IH]; [done|]. cbn.
  assert (He : PriorityScheduler.active (age_job s now e) = PriorityScheduler.active e /\
    PriorityScheduler.userdata (age_job s now e) = PriorityScheduler.userdata e) by (unfold age_job; by case_match).
  destruct He as [-> Hu]. destruct (PriorityScheduler.active e); cbn; by rewrite ?Hu, IH.
Qed.

Lemma filter_deactivate i e js : js !! i = Some e -> PriorityScheduler.active e = true ->
  List.filter PriorityScheduler.active js ≡ₚ e :: List.filter PriorityScheduler.active (alter deactivate i js).
Proof.
  revert i. induction js as [|x js IH]; intros [|i] Hi Ha; simplify_eq/=.
  - by rewrite Ha.
  - destruct (PriorityScheduler.active x); [|by apply IH]. rewrite (IH i Hi Ha). apply Permutation_swap.
Qed.

Lemma schedule_next_refs s now now2 :
  algorithm s = PS_SCHED_MLFQ -> Forall (fun e => PriorityScheduler.job e = JC_EXECUTE_WRAPPER) (jobs s) ->
  let r := ps_schedule_next s now now2 in
  algorithm r.2 = PS_SCHED_MLFQ /\ Forall (fun e => PriorityScheduler.job e = JC_EXECUTE_WRAPPER) (jobs r.2) /\
  match r.1 with
  | Some e => PriorityScheduler.job e = JC_EXECUTE_WRAPPER /\ ps_refs s ≡ₚ PriorityScheduler.userdata e :: ps_refs r.2
  | None => ps_refs r.2 = ps_refs s
  end.
Proof.
  intros Halg Hall. unfold ps_schedule_next. set (s1 := auto_age s now).
  assert (Hs1 : algorithm s1 = PS_SCHED_MLFQ /\ ps_refs s1 = ps_refs s /\
    Forall (fun e => PriorityScheduler.job e = JC_EXECUTE_WRAPPER) (jobs s1)).
  { unfold s1, auto_age. destruct (_ <=? _); [|done]. destruct (age_refs s now) as [Hr Ha]. split_and!; [done|exact Hr|].
    cbn. apply Forall_map. eapply Forall_impl; [exact Hall|]. intros e He. cbn. unfold age_job. by case_match. }
  destruct Hs1 as (Ha1 & Hr1 & Hj1). clearbody s1. rewrite Ha1.
  destruct (schedule_took s1 now2) as [Ha2 Hr2]. cbn zeta. destruct (schedule_mlfq s1 now2) as [[e|] s2]; cbn [fst snd] in *.
  - destruct Hr2 as (i & Hi & Hact & Hjs). split_and!; [congruence| | |].
    + rewrite Hjs. apply Forall_alter; [done|]. by intros x _ Hx.
    + by eapply (Forall_lookup_1 _ _ _ _ Hj1).
    + rewrite <- Hr1. unfold ps_refs. rewrite Hjs, (filter_deactivate i e (jobs s1) Hi Hact). done.
  - split_and!; [congruence|by rewrite Hr2|]. unfold ps_refs in *. by rewrite Hr2.
Qed.

(** ** The operations keep the invariant *)

Definition keeps {A} (m : M (D := D) A) : Prop := forall jc, jc_inv jc -> wp m (fun _ jc' => jc_inv jc') jc.

Lemma keeps_bind {A B} (m : M A) (f : A -> M B) : keeps m -> (forall x, keeps (f x)) -> keeps (bind m f).
Proof. intros Hm Hf jc Hi. apply wp_bind. eapply wp_mono; [by apply Hm|]. intros x jc' Hi'. by apply Hf. Qed.
Lemma keeps_ret {A} (x : A) : keeps (ret x).
Proof. by intros jc Hi. Qed.
Lemma keeps_get {A} (f : _ -> A) : keeps (get f).
Proof. by intros jc Hi. Qed.
Lemma keeps_modify f : (forall jc, jc_inv jc -> jc_inv (f jc)) -> keeps (modify f).
Proof. intros Hf jc Hi. by apply Hf. Qed.
Lemma keeps_time : keeps (time_now clock).
Proof. intros jc Hi. unfold wp. cbn. revert Hi. by apply inv_same. Qed.
Lemma keeps_emit e : keeps (emit e).
Proof. apply keeps_modify. intros jc. by apply inv_same. Qed.
Lemma keeps_bump f : keeps (bump f).
Proof. apply keeps_modify. intros jc. by apply inv_same. Qed.

Lemma set_pool_inv jc l l' jc1 a t q :
  parts_ok jc l -> pool_ok q l' -> l ++ [t] ≡ₚ l' ->
  parts jc1 = parts jc -> covers jc1 (a :: refs jc l) -> t_task t = JC_EXECUTE_WRAPPER -> t_userdata t = a ->
  jc_inv (jc1 <| jc_pool := q |>).
Proof.
  intros Hok Hl' Hperm Hp Hc Ht Ha.
  pose proof (parts_ok_same _ _ _ Hp Hok) as [? Htk ? ? ? ? ? ?]. exists l'. split.
  - split; cbn; try done. rewrite <- Hperm. apply Forall_app. split; [done|by constructor].
  - eapply covers_perm; [|eapply (covers_same jc1); [done|done|exact Hc]].
    unfold refs. cbn. rewrite <- Hperm, fmap_app. cbn. rewrite Ha.
    unfold parts in Hp. injection Hp as _ _ -> -> _ _. solve_Permutation.
Qed.

Lemma submit_job_keeps ctx fn oc ud : keeps (jc_submit_job clock ctx fn oc ud).
Proof.
  intros jc (l & Hok & Hc). unfold jc_submit_job. apply wp_bind, wp_get.
  destruct fn as [fn|]; [|by exists l]. case_decide; [by exists l|]. apply wp_bind.
  eapply wp_mono; [by apply new_wrapper_wp|]. intros a jc1 [Hc1 Hp1].
  apply wp_bind, wp_get, wp_bind, wp_modify. cbn [wp_submit].
  pose proof (parts_ok_same _ _ _ Hp1 Hok) as Hok1. destruct (po_pool _ _ Hok1) as (q & Hq & Hl).
  unfold q_push. set (t := mk_task _ _ _ _ _ _). destruct (WorkerPool.capacity (jc_pool jc1) <=? _)%nat eqn:Hfull; cbn [fst snd].
  - apply wp_bind, wp_modify. apply wp_ret. exists l. split; [destruct Hok1; by split|].
    rewrite <- (refs_same _ _ l Hp1) in Hc1. by apply covers_free in Hc1.
  - apply wp_bind. eapply wp_mono; [apply keeps_bump|by intros].
    destruct (wp_step_inv (jc_pool jc1) q (q_push (jc_pool jc1) t).2) as [q' Hq'];
      [done|apply (wps_submit _ (t_job_id t) (Some (t_task t)) _ None 0 (t_job_type t))|].
    unfold q_push in Hq'. rewrite Hfull in Hq'. cbn [snd] in Hq'.
    eapply (set_pool_inv jc l (held (jc_pool jc1) ++ q') jc1 a t); try done; [by exists q'|].
    rewrite Hl. pose proof (pool_pending _ _ _ _ [t] [] Hq Hq') as Hpp. cbn in Hpp. apply Hpp; [done|].
    by rewrite app_nil_r.
Qed.

Lemma reject_keeps ctx oc ud : keeps (reject (D := D) ctx oc ud).
Proof.
  apply keeps_bind; [apply keeps_bump|]. intros _. apply keeps_bind; [|intros; apply keeps_ret].
  destruct oc; [apply keeps_emit|apply keeps_ret].
Qed.

(** A closed breaker allows the request and is left as it was. *)
Lemma set_breakers_inv jc i cb :
  jc_inv jc -> state cb = CB_STATE_CLOSED -> jc_inv (jc <| jc_breakers ::= alter (fun p => (p.1, cb)) i |>).
Proof.
  intros (l & [? ? ? ? ? ? ? Hb] & Hc) Hcb. exists l. split; [|revert Hc; by apply covers_same].
  split; try done. cbn. apply Forall_alter; [done|]. by intros x _.
Qed.

Lemma with_breaker_keeps ctx fn oc ud name : keeps (jc_submit_with_breaker clock ctx fn oc ud name).
Proof.
  intros jc Hi. unfold jc_submit_with_breaker. destruct fn as [fn|]; [|done]. apply wp_bind, wp_get.
  destruct (named name (jc_breakers jc) ≫= _) as [[i cb]|] eqn:Hn; [|by apply submit_job_keeps].
  assert (Hcb : state cb = CB_STATE_CLOSED).
  { destruct Hi as (l & [? ? ? ? ? ? ? Hb] & _). apply bind_Some in Hn as (j & _ & Hj).
    apply fmap_Some in Hj as (p & Hp & [= _ ->]). exact (Forall_lookup_1 _ _ _ _ Hb Hp). }
  assert (Hr : forall now, cb_allow_request cb now = (1, cb)) by (intros; unfold cb_allow_request; by rewrite Hcb).
  apply wp_bind. eapply wp_mono; [by apply keeps_time|]. intros now jc1 Hi1. rewrite Hr. cbn [fst snd].
  apply wp_bind, wp_modify. change (1 =? 0) with false. cbn iota. apply submit_job_keeps.
  by apply set_breakers_inv.
Qed.

Lemma rate_limited_keeps ctx fn oc ud name cost : keeps (jc_submit_rate_limited clock ctx fn oc ud name cost).
Proof.
  unfold jc_submit_rate_limited. destruct fn as [fn|]; [|apply keeps_ret].
  apply keeps_bind; [apply keeps_get|]. intros ls. destruct (named name ls ≫= _) as [[i rl]|]; [|apply submit_job_keeps].
  do 3 (apply keeps_bind; [apply keeps_time|intros ?]).
  apply keeps_bind; [apply keeps_modify; intros jc; by apply inv_same|]. intros _.
  destruct (negb _); [apply reject_keeps|apply submit_job_keeps].
Qed.

Lemma submit_ready_keeps dag fns ready : keeps (submit_ready clock dag fns ready).
Proof.
  induction ready as [|i ready IH]; cbn [submit_ready]; [apply keeps_ret|].
  apply keeps_bind.
  - destruct (find_node dag i ≫= _); [|apply keeps_ret].
    apply keeps_bind; [apply submit_job_keeps|intros; apply keeps_ret].
  - intros ok. apply keeps_bind; [exact IH|intros; apply keeps_ret].
Qed.

Lemma schedule_delayed_keeps ctx fn delay : keeps (jc_schedule_delayed clock ctx (Some fn) delay).
Proof.
  intros jc (l & Hok & Hc). unfold jc_schedule_delayed. apply wp_bind.
  eapply wp_mono; [by apply new_wrapper_wp|]. intros a jc1 [Hc1 Hp1].
  pose proof (parts_ok_same _ _ _ Hp1 Hok) as Hok1. rewrite <- (refs_same _ _ l Hp1) in Hc1. clear jc Hok Hc Hp1.
  set (t1 := clock (jc_reads jc1)). apply wp_bind. unfold wp at 1. cbn [time_now]. apply wp_bind. unfold wp at 1. cbn [time_now].
  apply wp_bind. unfold wp at 1. cbn [time_now]. apply wp_bind, wp_get. cbn [jc_dq set].
  match goal with |- context [dq_enqueue ?dq ?id ?key ?cb ?ud ?d ?x ?y ?z] =>
    destruct (enqueue_spec dq id key cb ud d x y z (po_dq _ _ Hok1)) as (r & dq' & -> & Hdq & _ & _ & Hres) end.
  apply wp_bind, wp_modify, wp_ret.
  match goal with |- jc_inv (?j <| jc_dq := dq' |>) =>
    assert (Hgoal : forall rs, refs jc1 l ++ [a] ≡ₚ rs ++ dq_refs dq' ++ ps_refs (jc_ps jc1) ++ (t_userdata <$> l) ->
      Forall (fun e => e_callback e = JC_EXECUTE_WRAPPER) (heap dq') -> jc_inv (j <| jc_dq := dq' |>)) end.
  { intros rs Hperm Hcalls. exists l. split; [destruct Hok1; by split|].
    eapply covers_same; [| |eapply (covers_drop_app jc1 rs), covers_perm; [|exact Hc1]]; [done|done|].
    cbn. rewrite <- Hperm. by rewrite Permutation_app_comm. }
  pose proof (po_dq_calls _ _ Hok1) as Hcalls. destruct Hres as [|f _ _|f dq' idx e [= <-] _ _ _ He Hp|f dq' [= <-] _ _ Hp].
  - done.
  - apply (Hgoal [a]); [|done]. unfold refs. solve_Permutation.
  - apply (Hgoal [e_userdata e]).
    + unfold refs, dq_refs. rewrite Hp. cbn.
      assert (Hins : e :: <[idx := refresh_entry (x_job_id ctx) JC_EXECUTE_WRAPPER a delay t1 e]> (heap (jc_dq jc1))
        ≡ₚ refresh_entry (x_job_id ctx) JC_EXECUTE_WRAPPER a delay t1 e :: heap (jc_dq jc1)).
      { clear -He. revert He. generalize (refresh_entry (x_job_id ctx) JC_EXECUTE_WRAPPER a delay t1 e). intros e' He.
        revert idx He. induction (heap (jc_dq jc1)) as [|x h IH]; intros [|i] He; simplify_eq/=; [by constructor|].
        rewrite Permutation_swap, (IH i He). apply Permutation_swap. }
      apply (fmap_Permutation e_userdata) in Hins. cbn in Hins.
      symmetry in Hins. pose proof (Permutation_app_tail (ps_refs (jc_ps jc1) ++ (t_userdata <$> l)) Hins) as Hall.
      cbn [app] in *. etransitivity; [|exact Hall]. solve_Permutation.
    + rewrite Hp. by apply Forall_insert.
  - apply (Hgoal []).
    + unfold refs, dq_refs. rewrite Hp. cbn. solve_Permutation.
    + rewrite Hp. by constructor.
Qed.

Lemma submit_priority_keeps ctx fn prio : keeps (jc_submit_priority clock ctx (Some fn) prio).
Proof.
  intros jc (l & Hok & Hc). unfold jc_submit_priority. apply wp_bind.
  eapply wp_mono; [by apply new_wrapper_wp|]. intros a jc1 [Hc1 Hp1].
  pose proof (parts_ok_same _ _ _ Hp1 Hok) as Hok1. rewrite <- (refs_same _ _ l Hp1) in Hc1. clear jc Hok Hc Hp1.
  apply wp_bind. unfold wp at 1. cbn [time_now]. apply wp_bind, wp_get, wp_bind, wp_modify, wp_ret.
  exists l. cbn [jc_ps set]. unfold ps_submit. destruct (_ <=? _)%nat.
  - split; [destruct Hok1; by split|]. cbn [snd]. apply covers_drop in Hc1. revert Hc1. by apply covers_same.
  - cbn [snd]. split.
    + destruct Hok1. split; try done. cbn. apply Forall_app. split; [done|by constructor].
    + revert Hc1. intros Hc1%(covers_perm _ _ (refs jc1 l ++ [a])); [|by rewrite <- Permutation_cons_append].
      eapply covers_same; [| |eapply covers_perm; [|exact Hc1]]; [done|done|].
      unfold refs, ps_refs. cbn. rewrite List.filter_app, fmap_app. cbn. solve_Permutation.
Qed.

(** ** Ticks *)

Lemma tick_cron_keeps now : keeps (tick_cron tz clock job_result now).
Proof.
  intros jc (l & Hok & Hc). unfold tick_cron. apply wp_bind, wp_get.
  unfold cron_tick. rewrite (po_cron _ _ Hok). cbn. unfold wp. cbn.
  exists l. split; [|revert Hc; by apply covers_same]. destruct Hok. split; try done.
Qed.

Lemma tick_delayed_wp fuel now : forall jc, jc_inv jc -> (length (heap (jc_dq jc)) <= fuel)%nat ->
  wp (tick_delayed clock job_result fuel now) (fun _ jc' => jc_inv jc') jc.
Proof.
  induction fuel as [|fuel IH]; intros jc (l & Hok & Hc) Hlen; cbn [tick_delayed];
    apply wp_bind, wp_get; destruct (dequeue_spec (jc_dq jc) now (po_dq _ _ Hok)) as (r & out & dq' & -> & Hdq & _ & _ & Hres).
  all: pose proof (po_dq_calls _ _ Hok) as Hcalls.
  all: destruct Hres as [dq' gone Hp _ _|dq' gone e Hp _ _ _ _].
  1, 3: apply wp_bind, wp_modify, wp_ret; exists l; rewrite Hp in Hcalls; apply Forall_app in Hcalls as [_ Hcalls];
    (split; [destruct Hok; by split|]);
    eapply covers_same; [| |eapply (covers_drop_app jc (e_userdata <$> gone)), covers_perm; [|exact Hc]]; [done|done|];
    unfold refs, dq_refs; cbn; rewrite Hp, fmap_app; by rewrite <- app_assoc.
  - apply Permutation_length in Hp. rewrite length_app in Hp. cbn in Hp. lia.
  - rewrite Hp in Hcalls. apply Forall_app in Hcalls as [_ Hcalls]. inversion_clear Hcalls as [|? ? He Hcalls'].
    apply wp_bind, wp_modify, wp_bind. set (jc1 := jc <| jc_dq := dq' |>).
    assert (Hc1 : covers jc1 ([e_userdata e] ++ refs jc1 l)).
    { eapply covers_same; [| |eapply (covers_drop_app jc (e_userdata <$> gone)), covers_perm; [|exact Hc]]; [done|done|].
      unfold refs, dq_refs. cbn. rewrite Hp, fmap_app. cbn. by rewrite <- !app_assoc. }
    eapply wp_mono; [apply (run_calls_wp [(e_callback e, e_userdata e)] jc1 (refs jc1 l)); [by constructor|exact Hc1]|].
    intros _ jc2 [Hc2 Hp2]. assert (Hok1 : parts_ok jc1 l) by (destruct Hok; by split).
    apply wp_bind. eapply wp_mono; [apply (IH jc2)|intros; by apply wp_ret].
    + exists l. rewrite (refs_same _ _ l Hp2). split; [by eapply parts_ok_same|done].
    + unfold parts in Hp2. injection Hp2 as _ _ -> _ _ _. cbn.
      apply Permutation_length in Hp. rewrite length_app in Hp. cbn in Hp. lia.
Qed.

Lemma emit_all_keeps es : keeps (emit_all es).
Proof. induction es as [|e es IH]; [apply keeps_ret|]. apply keeps_bind; [apply keeps_emit|done]. Qed.

Lemma tick_retries_keeps : keeps (tick_retries (D := D)).
Proof.
  apply keeps_bind; [apply keeps_get|]. intros r.
  apply keeps_bind; [apply keeps_modify; intros jc; by apply inv_same|]. intros _. apply emit_all_keeps.
Qed.

Lemma tick_priority_keeps : keeps (tick_priority clock job_result).
Proof.
  intros jc Hi. unfold tick_priority. apply wp_bind. eapply wp_mono; [by apply keeps_time|]. clear jc Hi. intros t1 jc Hi.
  apply wp_bind. eapply wp_mono; [by apply keeps_time|]. clear jc Hi. intros t2 jc (l & Hok & Hc).
  apply wp_bind, wp_get, wp_bind, wp_modify.
  destruct (schedule_next_refs (jc_ps jc) t1 t2 (po_mlfq _ _ Hok) (po_ps_calls _ _ Hok)) as (Ha & Hj & Hr).
  destruct (ps_schedule_next (jc_ps jc) t1 t2) as [[e|] s2]; cbn [fst snd] in *.
  - destruct Hr as [Hcb Hr]. apply wp_bind. set (jc1 := jc <| jc_ps := s2 |>).
    assert (Hc1 : covers jc1 ([PriorityScheduler.userdata e] ++ refs jc1 l)).
    { eapply covers_same; [| |eapply covers_perm; [|exact Hc]]; [done|done|].
      unfold refs. cbn. rewrite Hr. cbn. solve_Permutation. }
    eapply wp_mono; [apply (run_calls_wp [(PriorityScheduler.job e, PriorityScheduler.userdata e)] jc1 (refs jc1 l));
      [by constructor|exact Hc1]|].
    intros _ jc2 [Hc2 Hp2]. apply wp_ret. exists l. rewrite (refs_same _ _ l Hp2). split; [|done].
    eapply parts_ok_same; [exact Hp2|]. destruct Hok. by split.
  - apply wp_ret. exists l. split; [destruct Hok; by split|].
    revert Hc. unfold refs. cbn. rewrite Hr. by apply covers_same.
Qed.

Lemma tick_keeps : keeps (jc_tick tz clock job_result).
Proof.
  apply keeps_bind; [apply keeps_get|]. intros st. case_decide; [apply keeps_ret|].
  apply keeps_bind; [apply keeps_time|]. intros now. apply keeps_bind; [apply tick_cron_keeps|]. intros n1.
  intros jc Hi. apply wp_bind, wp_get, wp_bind. eapply wp_mono; [by apply tick_delayed_wp|]. clear jc Hi. intros n2.
  cbn beta. refine (_ : keeps _).
  apply keeps_bind; [apply tick_retries_keeps|]. intros _. apply keeps_bind; [apply tick_priority_keeps|]. intros n3.
  apply keeps_bind; [apply keeps_modify; intros jc; by apply inv_same|]. intros _. apply keeps_ret.
Qed.

(** ** Lifecycle and workers *)

(** Changing the pool in a way that neither accepts nor finishes a task. *)
Lemma pool_flags_keeps f :
  (forall p, wp_step p (f p)) -> (forall p, accepted (f p) = accepted p /\ finished (f p) = finished p) ->
  keeps (modify (fun jc => jc <| jc_pool ::= f |>)).
Proof.
  intros Hstep Hsame. apply keeps_modify. intros jc (l & Hok & Hc).
  destruct (po_pool _ _ Hok) as (q & Hq & ->). destruct (wp_step_inv _ _ _ Hq (Hstep _)) as [q' Hq'].
  destruct (Hsame (jc_pool jc)) as [Ha Hf].
  pose proof (pool_pending _ _ _ _ [] [] Hq Hq' ltac:(by rewrite app_nil_r) ltac:(by rewrite app_nil_r)) as Hp.
  rewrite app_nil_r in Hp. cbn [app] in Hp. exists (held (f (jc_pool jc)) ++ q'). split.
  - destruct Hok. split; try done; cbn; [by exists q'|]. by rewrite <- Hp.
  - eapply covers_same; [| |eapply covers_perm; [|exact Hc]]; [done|done|]. unfold refs. cbn. by rewrite Hp.
Qed.

Lemma start_keeps : keeps (jc_start clock).
Proof.
  apply keeps_bind; [apply keeps_modify; intros jc; by apply inv_same|]. intros _.
  apply keeps_bind; [apply keeps_time|]. intros now.
  apply keeps_bind; [apply keeps_modify; intros jc; by apply inv_same|]. intros _. apply keeps_ret.
Qed.

Lemma worker_step_keeps k : keeps (jc_worker_step clock job_result k).
Proof.
  intros jc (l & Hok & Hc). unfold jc_worker_step. apply wp_bind, wp_get.
  destruct (po_pool _ _ Hok) as (q & Hq & Hl).
  set (busy := match threads (jc_pool jc) !! k with Some (PcBusy _ t _) => [t] | _ => [] end).
  assert (Hstep : forall now, exists q', wp_inv (worker_step k now (jc_pool jc)) q' /\
    l ≡ₚ busy ++ held (worker_step k now (jc_pool jc)) ++ q').
  { intros now. destruct (worker_step_inv (jc_pool jc) q k now Hq) as [q' Hq']. exists q'. split; [done|].
    destruct (worker_step_histories k now (jc_pool jc)) as [Ha Hf].
    pose proof (pool_pending _ _ _ _ [] busy Hq Hq' ltac:(by rewrite app_nil_r) Hf) as Hp.
    rewrite app_nil_r in Hp. by rewrite Hl. }
  destruct (Hstep 0) as (q0 & _ & Hl0). set (rest := held (worker_step k 0 (jc_pool jc)) ++ q0) in *.
  assert (Hc0 : covers jc (((fun t => t_userdata t) <$> busy) ++ dq_refs (jc_dq jc) ++ ps_refs (jc_ps jc) ++ (t_userdata <$> rest))).
  { eapply covers_perm; [|exact Hc]. unfold refs. rewrite Hl0, fmap_app. solve_Permutation. }
  pose proof (po_tasks _ _ Hok) as Htasks. rewrite Hl0 in Htasks. apply Forall_app in Htasks as [Hbusy Hrest].
  apply wp_bind. eapply (wp_mono _ (fun _ jc' => covers jc' (dq_refs (jc_dq jc) ++ ps_refs (jc_ps jc) ++ (t_userdata <$> rest)) /\
    parts jc' = parts jc)).
  { revert Hbusy Hc0. unfold busy. destruct (threads (jc_pool jc) !! k) as [[| | | | | | |w t ci| |]|]; intros Hb Hc0;
      try (apply wp_ret; by split).
    apply run_calls_wp; [|exact Hc0]. inversion_clear Hb. by constructor. }
  intros _ jc1 [Hc1 Hp1]. apply wp_bind. unfold wp at 1. cbn [time_now]. apply wp_modify.
  set (now := clock (jc_reads jc1)). destruct (Hstep now) as (q1 & Hq1 & Hl1).
  assert (Hperm : rest ≡ₚ held (worker_step k now (jc_pool jc)) ++ q1).
  { apply (Permutation_app_inv_l busy). by rewrite <- Hl0, <- Hl1. }
  pose proof Hp1 as Hp1'. unfold parts in Hp1'. injection Hp1' as Hpool Hcron Hdq Hps Hbr _.
  exists (held (worker_step k now (jc_pool jc)) ++ q1). split.
  - destruct Hok. split; cbn; rewrite ?Hpool, ?Hcron, ?Hdq, ?Hps, ?Hbr; try done; [by exists q1|].
    by rewrite <- Hperm.
  - eapply covers_same; [| |eapply covers_perm; [|exact Hc1]]; [done|done|].
    unfold refs. cbn. by rewrite Hdq, Hps, Hperm.
Qed.

(** What the worker threads do meanwhile: one step each of the threads listed. *)
Fixpoint worker_steps (ks : list nat) : M (D := D) unit :=
  match ks with
  | [] => ret tt
  | k :: ks' => bind (jc_worker_step clock job_result k) (fun _ => worker_steps ks')
  end.

Lemma worker_steps_keeps ks : keeps (worker_steps ks).
Proof. induction ks as [|k ks IH]; [apply keeps_ret|]. apply keeps_bind; [apply worker_step_keeps|done]. Qed.

Lemma stop_keeps graceful ks : keeps (jc_stop graceful (worker_steps ks)).
Proof.
  apply keeps_bind; [apply keeps_modify; intros jc; by apply inv_same|]. intros _.
  apply keeps_bind; [|intros; apply keeps_ret]. destruct graceful.
  - apply keeps_bind; [apply pool_flags_keeps; [apply wps_graceful_begin|done]|]. intros _.
    apply keeps_bind; [apply worker_steps_keeps|]. intros _. apply pool_flags_keeps; [apply wps_graceful_end|done].
  - apply pool_flags_keeps; [apply wps_shutdown|done].
Qed.

Lemma drain_loop_keeps ks rounds : forall i timeout waited,
  timeout <= waited + 100 * Z.of_nat rounds ->
  keeps (drain_loop tz clock job_result (fun i => worker_steps (ks i)) rounds i timeout waited).
Proof.
  induction rounds as [|rounds IH]; intros i timeout waited Hr; cbn [drain_loop].
  - apply keeps_bind; [apply keeps_get|]. intros pending. destruct (0 <? pending); [|apply keeps_ret].
    destruct (Z.ltb_spec waited timeout); [lia|]. apply keeps_ret.
  - apply keeps_bind; [apply keeps_get|]. intros pending. destruct (_ && _); [|apply keeps_ret].
    apply keeps_bind; [apply tick_keeps|]. intros _. apply keeps_bind; [apply worker_steps_keeps|]. intros _.
    apply IH. lia.
Qed.

Lemma drain_keeps ks timeout : keeps (jc_drain tz clock job_result (fun i => worker_steps (ks i)) timeout).
Proof.
  apply keeps_bind; [apply keeps_modify; intros jc; by apply inv_same|]. intros _.
  apply keeps_bind; [apply drain_loop_keeps; pose proof (Z.div_mod timeout 100); pose proof (Z.mod_pos_bound timeout 100); lia|].
  intros _. apply keeps_bind; [apply keeps_modify; intros jc; by apply inv_same|]. intros _. apply keeps_ret.
Qed.

Lemma register_breaker_keeps name : keeps (jc_register_breaker (D := D) name).
Proof.
  apply keeps_bind; [apply keeps_get|]. intros n. destruct name as [name|]; [|apply keeps_ret].
  destruct (_ <=? _)%nat; [apply keeps_ret|]. apply keeps_bind; [|intros; apply keeps_ret].
  apply keeps_modify. intros jc (l & [? ? ? ? ? ? ? Hb] & Hc). exists l. split; [|revert Hc; by apply covers_same].
  split; try done. cbn. apply Forall_app. split; [done|by constructor].
Qed.

Lemma register_rate_limit_keeps name ty rate burst : keeps (jc_register_rate_limit clock name ty rate burst).
Proof.
  apply keeps_bind; [apply keeps_get|]. intros n. destruct name as [name|]; [|apply keeps_ret].
  destruct (_ <=? _)%nat; [apply keeps_ret|]. apply keeps_bind; [apply keeps_time|]. intros now.
  apply keeps_bind; [apply keeps_modify; intros jc; by apply inv_same|]. intros _. apply keeps_ret.
Qed.

(** ** Runs of the coordinator *)

(** The operations of the interface, and the steps of the worker threads. *)
Inductive jc_op :=
  | OpSubmit (ctx : jc_job_ctx) (fn on_complete : option Z) (ud : Z)
  | OpSubmitBreaker (ctx : jc_job_ctx) (fn on_complete : option Z) (ud : Z) (name : string)
  | OpSubmitLimited (ctx : jc_job_ctx) (fn on_complete : option Z) (ud : Z) (name : string) (cost : D)
  | OpSubmitDag (dag : jdag) (fns : list (option Z))
  | OpScheduleCron (ctx : jc_job_ctx) (fn : option Z) (spec : option string) (catch_up : bool)
  | OpScheduleDelayed (ctx : jc_job_ctx) (fn : option Z) (delay_ms : Z)
  | OpSubmitPriority (ctx : jc_job_ctx) (fn : option Z) (prio : Z)
  | OpTick
  | OpStart
  | OpStop (graceful : bool) (ks : list nat)
  | OpDrain (timeout_ms : Z) (ks : nat -> list nat)
  | OpWorker (k : nat)
  | OpRegisterBreaker (name : option string)
  | OpRegisterLimit (name : option string) (ty : rl_type) (rate burst : D).

Definition jc_do (op : jc_op) : M Z :=
  match op with
  | OpSubmit ctx fn oc ud => jc_submit_job clock ctx fn oc ud
  | OpSubmitBreaker ctx fn oc ud name => jc_submit_with_breaker clock ctx fn oc ud name
  | OpSubmitLimited ctx fn oc ud name cost => jc_submit_rate_limited clock ctx fn oc ud name cost
  | OpSubmitDag dag fns => jc_submit_dag clock dag fns
  | OpScheduleCron ctx fn spec catch_up => jc_schedule_cron tz clock ctx fn spec catch_up
  | OpScheduleDelayed ctx fn delay => jc_schedule_delayed clock ctx fn delay
  | OpSubmitPriority ctx fn prio => jc_submit_priority clock ctx fn prio
  | OpTick => jc_tick tz clock job_result
  | OpStart => jc_start clock
  | OpStop graceful ks => jc_stop graceful (worker_steps ks)
  | OpDrain timeout ks => jc_drain tz clock job_result (fun i => worker_steps (ks i)) timeout
  | OpWorker k => bind (jc_worker_step clock job_result k) (fun _ => ret 0)
  | OpRegisterBreaker name => jc_register_breaker name
  | OpRegisterLimit name ty rate burst => jc_register_rate_limit clock name ty rate burst
  end.

Fixpoint jc_run (ops : list jc_op) : M (list Z) :=
  match ops with
  | [] => ret []
  | op :: ops' => bind (jc_do op) (fun r => bind (jc_run ops') (fun rs => ret (r :: rs)))
  end.

(** No cron job, and no NULL function where the code does not check it. *)
Definition op_ok (op : jc_op) : Prop :=
  match op with
  | OpScheduleCron _ _ _ _ => False
  | OpScheduleDelayed _ fn _ | OpSubmitPriority _ fn _ => fn <> None
  | _ => True
  end.

Lemma do_keeps op : op_ok op -> keeps (jc_do op).
Proof.
  destruct op; cbn; intros Hok; try done.
  - apply submit_job_keeps.
  - apply with_breaker_keeps.
  - apply rate_limited_keeps.
  - apply submit_ready_keeps.
  - destruct fn as [fn|]; [apply schedule_delayed_keeps|done].
  - destruct fn as [fn|]; [apply submit_priority_keeps|done].
  - apply tick_keeps.
  - apply start_keeps.
  - apply stop_keeps.
  - apply drain_keeps.
  - apply keeps_bind; [apply worker_step_keeps|intros; apply keeps_ret].
  - apply register_breaker_keeps.
  - apply register_rate_limit_keeps.
Qed.

Lemma run_keeps ops : Forall op_ok ops -> keeps (jc_run ops).
Proof.
  induction 1 as [|op ops Hop _ IH]; [apply keeps_ret|]. apply keeps_bind; [by apply do_keeps|]. intros r.
  apply keeps_bind; [exact IH|]. intros rs. apply keeps_ret.
Qed.

Lemma jc_create_inv config t1 t2 t3 : jc_inv (jc_create (D := D) config t1 t2 t3).
Proof.
  exists []. split.
  - split; try done; cbn. exists []. split; [apply wp_create_inv|]. unfold held. cbn.
    by induction (Z.to_nat _) as [|n IH].
  - split; cbn; [constructor|by intros ? ?%not_elem_of_nil|]. intros a w Ha. by rewrite lookup_empty in Ha.
Qed.

Lemma run_inv ops config t1 t2 t3 : Forall op_ok ops ->
  exists rs jc, jc_run ops (jc_create config t1 t2 t3) = Some (rs, jc) /\ jc_inv jc.
Proof.
  intros Hops. pose proof (run_keeps ops Hops _ (jc_create_inv config t1 t2 t3)) as Hw. unfold wp in Hw.
  destruct (jc_run ops _) as [[rs jc]|]; [eauto|done].
Qed.

(** ** Draining *)

(** The queues a drain is meant to empty, and the state. *)
Definition queues_of (jc : job_coordinator (D := D)) := (jc_cron jc, jc_dq jc, jc_retry jc, jc_ps jc, jc_st jc).

Lemma execute_queues a jc jc' : jc_execute_wrapper clock job_result a jc = Some (tt, jc') -> queues_of jc' = queues_of jc.
Proof.
  unfold jc_execute_wrapper, bind, get, time_now. cbn. destruct (jc_wrappers jc !! a) as [w|]; [|done].
  destruct (wr_job_fn w); [|done]. destruct (wr_on_complete w); cbn; by intros [= <-].
Qed.

Lemma run_calls_queues calls : forall jc jc', run_calls clock job_result calls jc = Some (tt, jc') -> queues_of jc' = queues_of jc.
Proof.
  induction calls as [|[cb ud] calls IH]; intros jc jc'; cbn [run_calls]; [by intros [= <-]|].
  unfold bind. destruct (_ =? _); [|done]. destruct (jc_execute_wrapper clock job_result ud jc) as [[[] jc1]|] eqn:He; [|done].
  intros H. rewrite (IH _ _ H). by eapply execute_queues.
Qed.

Lemma worker_steps_queues ks : forall jc jc', worker_steps ks jc = Some (tt, jc') -> queues_of jc' = queues_of jc.
Proof.
  induction ks as [|k ks IH]; intros jc jc'; cbn [worker_steps]; [by intros [= <-]|].
  unfold bind at 1. destruct (jc_worker_step clock job_result k jc) as [[[] jc1]|] eqn:Hs; [|done].
  intros H. rewrite (IH _ _ H). clear H. revert Hs. unfold jc_worker_step, bind, get.
  assert (Hq : forall m : M unit, (forall j j', m j = Some (tt, j') -> queues_of j' = queues_of j) ->
    forall j1, match m jc with Some (_, j') => match time_now clock j' with Some (x, j'') => modify (fun j => j <| jc_pool ::= worker_step k x |>) j'' | None => None end | None => None end
      = Some (tt, j1) -> queues_of j1 = queues_of jc).
  { intros m Hm j1. destruct (m jc) as [[[] j2]|] eqn:He; [|done]. cbn. intros [= <-]. exact (Hm _ _ He). }
  apply Hq. destruct (threads (jc_pool jc) !! k) as [[| | | | | | |w t ci| |]|]; try (by intros j j' [= <-]).
  apply run_calls_queues.
Qed.

Lemma tick_not_running jc : jc_st jc <> JC_STATE_RUNNING -> jc_tick tz clock job_result jc = Some (-1, jc).
Proof. intros Hst. unfold jc_tick, bind, get. by rewrite decide_True. Qed.

Lemma drain_loop_queues ks rounds : forall i timeout waited jc jc',
  jc_st jc = JC_STATE_DRAINING ->
  drain_loop tz clock job_result (fun i => worker_steps (ks i)) rounds i timeout waited jc = Some (tt, jc') ->
  queues_of jc' = queues_of jc.
Proof.
  induction rounds as [|rounds IH]; intros i timeout waited jc jc' Hst; cbn [drain_loop]; unfold bind, get.
  - destruct (_ && _); [done|]. by intros [= <-].
  - destruct (_ && _); [|by intros [= <-]]. rewrite tick_not_running by (rewrite Hst; done).
    destruct (worker_steps (ks i) jc) as [[[] jc1]|] eqn:Hw; [|done]. apply worker_steps_queues in Hw.
    intros H. rewrite <- Hw. eapply IH; [|exact H]. unfold queues_of in Hw. injection Hw as _ _ _ _ ->. done.
Qed.

(** ** Properties *)

(** C4: memory safety of the coordinator.  Without cron jobs, whatever the sequence
    of submissions, ticks, drains, stops and worker steps, no operation runs a job
    wrapper that was freed (so no job runs twice), calls a NULL job function, or
    fails to end; this holds from any configuration and with any clock. *)
Theorem jc_runs_safe ops config t1 t2 t3 : Forall op_ok ops ->
  exists rs jc, jc_run ops (jc_create (D := D) config t1 t2 t3) = Some (rs, jc).
Proof. intros Hops. destruct (run_inv ops config t1 t2 t3 Hops) as (rs & jc & Hr & _). eauto. Qed.

(** The coordinator's breakers never open.  No job outcome is reported to them:
    after any run without cron jobs, however many jobs failed, every registered breaker is
    closed and lets every request through unchanged. *)
Theorem jc_breakers_never_open ops config t1 t2 t3 rs jc name cb now : Forall op_ok ops ->
  jc_run ops (jc_create (D := D) config t1 t2 t3) = Some (rs, jc) -> jc_get_breaker jc name = Some cb ->
  state cb = CB_STATE_CLOSED /\ cb_allow_request cb now = (1, cb).
Proof.
  intros Hops Hrun Hget. destruct (run_inv ops config t1 t2 t3 Hops) as (rs' & jc' & Hr & l & Hok & _).
  assert (jc' = jc) as -> by congruence. unfold jc_get_breaker in Hget.
  apply fmap_Some in Hget as (p & Hp & ->). apply bind_Some in Hp as (i & _ & Hp).
  pose proof (Forall_lookup_1 _ _ _ _ (po_breakers _ _ Hok) Hp) as Hc. cbn in Hc.
  split; [done|]. unfold cb_allow_request. by rewrite Hc.
Qed.

(** A drain processes nothing.  [jc_drain] sets the state DRAINING, in which
    [jc_tick] refuses to work: the drain ends (with 0, stopped), and the cron
    jobs, delayed entries, retries and prioritised jobs are exactly what they were;
    only the worker threads made progress. *)
Theorem jc_drain_processes_nothing ops config t1 t2 t3 rs jc timeout ks : Forall op_ok ops ->
  jc_run ops (jc_create (D := D) config t1 t2 t3) = Some (rs, jc) ->
  exists jc', jc_drain tz clock job_result (fun i => worker_steps (ks i)) timeout jc = Some (0, jc') /\
    jc_st jc' = JC_STATE_STOPPED /\ jc_dq jc' = jc_dq jc /\ jc_ps jc' = jc_ps jc /\
    jc_cron jc' = jc_cron jc /\ jc_retry jc' = jc_retry jc.
Proof.
  intros Hops Hrun. destruct (run_inv ops config t1 t2 t3 Hops) as (rs' & jc1 & Hr & Hi).
  assert (jc1 = jc) as -> by congruence. pose proof (drain_keeps ks timeout jc Hi) as Hw. revert Hw.
  unfold jc_drain, bind, modify, wp. cbn. set (jc0 := jc <| jc_st := JC_STATE_DRAINING |>).
  destruct (drain_loop _ _ _ _ _ _ _ _ jc0) as [[[] jc2]|] eqn:Hd; [|done]. intros _.
  apply drain_loop_queues in Hd; [|done]. unfold queues_of in Hd. injection Hd as Hc Hdq Hre Hps _.
  eexists. split; [done|]. cbn. by rewrite Hc, Hdq, Hre, Hps.
Qed.
End safety.

(** ** Concrete runs *)

(** A clock that shows 0, 1, 2, ...; jobs that fail. *)
Definition ticking (n : nat) : Z := Z.of_nat n.
Definition failing (_ : Z) (_ : jc_job_ctx) : jc_result := JC_RESULT_FAILED.
Definition a_job : jc_job_ctx := mk_ctx 1 None None 0 0.

Definition busy_run : list (jc_op (D := Q)) :=
  [OpRegisterBreaker (Some "db"%string); OpStart; OpSubmitBreaker a_job (Some 7) None 0 "db"%string;
   OpScheduleDelayed a_job (Some 7) 5000; OpSubmitPriority a_job (Some 7) 1] ++
  replicate 9 (OpWorker 0) ++ [OpTick; OpDrain 250 (fun _ => [1%nat])].

Lemma busy_run_ok : Forall op_ok busy_run.
Proof. repeat constructor; done. Qed.

Definition busy_end : job_coordinator (D := Q) :=
  match jc_run 0 ticking failing busy_run (jc_create None 0 0 0) with
  | Some (_, jc) => jc
  | None => jc_create None 0 0 0
  end.

Lemma busy_end_run : exists rs, jc_run 0 ticking failing busy_run (jc_create None 0 0 0) = Some (rs, busy_end).
Proof.
  unfold busy_end. destruct (run_inv 0 ticking failing busy_run None 0 0 0 busy_run_ok) as (rs & jc & -> & _). eauto.
Qed.

Lemma jc_runs_safe_witness :
  exists rs jc, jc_run 0 ticking failing busy_run (jc_create None 0 0 0) = Some (rs, jc).
Proof. apply (jc_runs_safe (D := Q)), busy_run_ok. Defined.

Lemma jc_breakers_never_open_witness :
  exists cb, jc_get_breaker busy_end "db" = Some cb /\ state cb = CB_STATE_CLOSED /\ cb_allow_request cb 0 = (1, cb).
Proof.
  destruct busy_end_run as [rs Hrun].
  assert (Hb : is_Some (jc_get_breaker busy_end "db")) by (vm_compute; eexists; reflexivity).
  destruct Hb as [cb Hcb]. exists cb. split; [exact Hcb|].
  exact (jc_breakers_never_open 0 ticking failing busy_run None 0 0 0 rs busy_end "db" cb 0 busy_run_ok Hrun Hcb).
Defined.

Lemma jc_drain_processes_nothing_witness :
  exists jc', jc_drain 0 ticking failing (fun i => worker_steps ticking failing [i]) 300 busy_end = Some (0, jc') /\
    jc_dq jc' = jc_dq busy_end.
Proof.
  destruct busy_end_run as [rs Hrun].
  destruct (jc_drain_processes_nothing 0 ticking failing busy_run None 0 0 0 rs busy_end 300 (fun i => [i]) busy_run_ok Hrun)
    as (jc' & Hd & _ & Hdq & _). exists jc'. split; [exact Hd|exact Hdq].
Defined.

(** ** A cron job fires twice *)

(** A coordinator with a job every minute, just after its first firing. *)
Definition cron_once : option (list Z * job_coordinator (D := Q)) :=
  jc_run 0 (fun n => if (n <? 3)%nat then 0 else 60) failing
    [OpStart; OpScheduleCron a_job (Some 7) (Some "* * * * *"%string) false; OpTick]
    (jc_create None 0 0 0).

(** A cron job scheduled through the coordinator uses freed memory the second
    time it fires: the wrapper frees itself after the first run and stays registered.
    With a job every minute, the first tick runs it and the next due tick has no
    defined behaviour. *)
Theorem jc_cron_second_firing_undefined :
  match cron_once with
  | Some (_, jc) =>
      jc_trace jc = [JobRun 7 a_job] /\ (cron_due 600 <$> cs_jobs (jc_cron jc)) = [true] /\
      jc_st jc = JC_STATE_RUNNING /\ jc_tick 0 (fun _ => 600) failing jc = None
  | None => False
  end.
Proof. vm_compute. auto. Qed.
