(* ===== verification/Bytes.v ===== *)
(** Bytes and C strings, shared by the components that parse and print.

    A byte is a [Z] in [0, 256), a buffer a list of them.  A C string is the list
    of its characters, without the terminating 0 byte.  The functions are those of
    the C library the components call: [strstr], [strchr], [strtok], [atoll], the
    [%lld] of [printf]. *)

From S2P Require Import Prelude.

Definition byte_ok (b : Z) : Prop := 0 <= b < 256.
(** A character of a C string. *)
Definition char_ok (b : Z) : Prop := 0 < b < 256.

Definition str_bytes (s : string) : list Z := (fun c => Z.of_N (Ascii.N_of_ascii c)) <$> String.list_ascii_of_string s.

(** The C string that starts at a buffer: up to the first 0. *)
Fixpoint cstr (l : list Z) : list Z :=
  match l with [] => [] | c :: l' => if c =? 0 then [] else c :: cstr l' end.

(** What [snprintf] leaves in a buffer of [size] bytes. *)
Definition truncated (size : nat) (l : list Z) : list Z := take (size - 1) l.

(** ** Searching *)

Fixpoint starts_with (pat s : list Z) : option (list Z) :=
  match pat, s with
  | [], _ => Some s
  | p :: pat', c :: s' => if p =? c then starts_with pat' s' else None
  | _ :: _, [] => None
  end.

(** [strstr(s, pat) + strlen(pat)]: what follows the first occurrence. *)
Fixpoint strstr_after (pat s : list Z) : option (list Z) :=
  match starts_with pat s with
  | Some rest => Some rest
  | None => match s with [] => None | _ :: s' => strstr_after pat s' end
  end.

(** [strchr(s, c) - s] as the characters before it. *)
Fixpoint strchr_before (c : Z) (s : list Z) : option (list Z) :=
  match s with
  | [] => None
  | x :: s' => if x =? c then Some [] else cons x <$> strchr_before c s'
  end.

(** [strtok_r] with one delimiter: delimiters are skipped, then a token runs to
    the next one.  Also the text after the token. *)
Fixpoint skip_delims (c : Z) (s : list Z) : list Z :=
  match s with x :: s' => if x =? c then skip_delims c s' else s | [] => [] end.
Fixpoint split_delim (c : Z) (s : list Z) : list Z * list Z :=
  match s with
  | [] => ([], [])
  | x :: s' => if x =? c then ([], s') else let '(a, b) := split_delim c s' in (x :: a, b)
  end.
Definition strtok (c : Z) (s : list Z) : option (list Z) * list Z :=
  match skip_delims c s with
  | [] => (None, [])
  | s' => let '(tok, rest) := split_delim c s' in (Some tok, rest)
  end.

(** ** Decimal numbers *)

Fixpoint digits (fuel : nat) (n : Z) : list Z :=
  match fuel with
  | O => []
  | S fuel' => if n <? 10 then [48 + n] else digits fuel' (n / 10) ++ [48 + n mod 10]
  end.
(** [%lld] of a 64-bit integer: at most 19 digits. *)
Definition print_lld (z : Z) : list Z := if z <? 0 then 45 :: digits 20 (- z) else digits 20 z.

Definition is_digit (c : Z) : bool := (48 <=? c) && (c <=? 57).
Definition is_space (c : Z) : bool := (c =? 32) || ((9 <=? c) && (c <=? 13)).
Fixpoint digits_value (acc : Z) (s : list Z) : Z :=
  match s with
  | c :: s' => if is_digit c then digits_value (acc * 10 + (c - 48)) s' else acc
  | [] => acc
  end.
Fixpoint skip_spaces (s : list Z) : list Z :=
  match s with c :: s' => if is_space c then skip_spaces s' else s | [] => [] end.
Definition signed_value (s : list Z) : Z :=
  match skip_spaces s with
  | c :: s' => if c =? 45 then - digits_value 0 s' else if c =? 43 then digits_value 0 s' else digits_value 0 (c :: s')
  | [] => 0
  end.
(** The number at the start of [s]; the C function is undefined when it does not
    fit 64 bits ([None]). *)
Definition atoll (s : list Z) : option Z :=
  let v := signed_value s in
  if (- 2 ^ 63 <=? v) && (v <? 2 ^ 63) then Some v else None.

(** ** Packing bit fields *)

Lemma land_disjoint x y k : 0 <= k -> 0 <= y < 2 ^ k -> Z.land (Z.shiftl x k) y = 0.
Proof.
  intros Hk Hy. apply Z.bits_inj'. intros i Hi. rewrite Z.land_spec, Z.bits_0, Z.shiftl_spec by done.
  destruct (Z.ltb_spec i k) as [Hlt|Hge]; [by rewrite Z.testbit_neg_r by lia|].
  rewrite <- (Z.mod_small y (2 ^ k)) by done. rewrite Z.mod_pow2_bits_high by lia. apply andb_false_r.
Qed.

(** The or of a shifted field and a smaller one is their sum. *)
Lemma lor_shiftl x y k : 0 <= k -> 0 <= y < 2 ^ k -> Z.lor (Z.shiftl x k) y = x * 2 ^ k + y.
Proof.
  intros Hk Hy. pose proof (land_disjoint x y k Hk Hy) as Hd.
  rewrite <- Z.lxor_lor, <- Z.add_nocarry_lxor, Z.shiftl_mul_pow2 by done. done.
Qed.

Lemma land_ones x k : 0 <= k -> Z.land x (2 ^ k - 1) = x mod 2 ^ k.
Proof. intros Hk. rewrite <- Z.land_ones by done. by rewrite Z.ones_equiv, Z.sub_1_r. Qed.

Lemma land_255 x : Z.land x 255 = x mod 256.
Proof. apply (land_ones x 8). lia. Qed.
Lemma land_63 x : Z.land x 63 = x mod 64.
Proof. apply (land_ones x 6). lia. Qed.

(** ** Groups of three bytes and of four sextets *)

Lemma list_ind3 {A} (P : list A -> Prop) :
  P [] -> (forall a, P [a]) -> (forall a b, P [a; b]) -> (forall a b c l, P l -> P (a :: b :: c :: l)) -> forall l, P l.
Proof.
  intros H0 H1 H2 H3. fix IH 1. intros [|a [|b [|c l]]]; [apply H0|apply H1|apply H2|apply H3, IH].
Qed.

Definition triple_of (a b c : Z) : Z := a * 2 ^ 16 + b * 2 ^ 8 + c.
Lemma triple_range a b c : byte_ok a -> byte_ok b -> byte_ok c -> 0 <= triple_of a b c < 2 ^ 24.
Proof. unfold byte_ok, triple_of. lia. Qed.
Lemma triple_lor a b c : byte_ok b -> byte_ok c -> Z.lor (Z.lor (Z.shiftl a 16) (Z.shiftl b 8)) c = triple_of a b c.
Proof.
  unfold byte_ok, triple_of. intros Hb Hc.
  assert (Hs : Z.lor (Z.shiftl a 16) (Z.shiftl b 8) = Z.shiftl (a * 2 ^ 8 + b) 8).
  { change 16 with (8 + 8). rewrite <- Z.shiftl_shiftl, <- Z.shiftl_lor by lia. f_equal. apply lor_shiftl; lia. }
  rewrite Hs, lor_shiftl by lia. lia.
Qed.
(** The sextets of a triple put together again, and its bytes. *)
Lemma sextets_lor t : 0 <= t < 2 ^ 24 ->
  Z.lor (Z.lor (Z.lor (Z.shiftl (t / 2 ^ 18 mod 64) 18) (Z.shiftl (t / 2 ^ 12 mod 64) 12)) (Z.shiftl (t / 2 ^ 6 mod 64) 6)) (t mod 64) = t.
Proof.
  intros Ht. set (v0 := t / 2 ^ 18 mod 64). set (v1 := t / 2 ^ 12 mod 64). set (v2 := t / 2 ^ 6 mod 64). set (v3 := t mod 64).
  assert (Hv : 0 <= v1 < 64 /\ 0 <= v2 < 64 /\ 0 <= v3 < 64 /\ ((v0 * 64 + v1) * 64 + v2) * 64 + v3 = t).
  { unfold v0, v1, v2, v3. Z.to_euclidean_division_equations. lia. }
  destruct Hv as (H1 & H2 & H3 & Hv). change 18 with (6 + 6 + 6). change 12 with (6 + 6). rewrite <- !Z.shiftl_shiftl by lia.
  rewrite <- !Z.shiftl_lor. rewrite (lor_shiftl v0 v1 6), (lor_shiftl _ v2 6), (lor_shiftl _ v3 6) by lia. lia.
Qed.
Lemma triple_bytes a b c : byte_ok a -> byte_ok b -> byte_ok c -> let t := triple_of a b c in
  [Z.land (Z.shiftr t 16) 255; Z.land (Z.shiftr t 8) 255; Z.land t 255] = [a; b; c].
Proof.
  intros Ha Hb Hc t. unfold byte_ok in *. rewrite !land_255, !Z.shiftr_div_pow2 by lia.
  assert (Hbytes : t / 2 ^ 16 mod 256 = a /\ t / 2 ^ 8 mod 256 = b /\ t mod 256 = c) by (unfold t, triple_of; Z.to_euclidean_division_equations; lia).
  by destruct Hbytes as (-> & -> & ->).
Qed.

(** ** Searching *)

Lemma starts_with_app pat s : starts_with pat (pat ++ s) = Some s.
Proof. induction pat as [|p pat IH]; cbn; [done|]. by rewrite Z.eqb_refl. Qed.

Lemma strstr_after_here pat s : strstr_after pat (pat ++ s) = Some s.
Proof. destruct (pat ++ s) eqn:He; cbn [strstr_after]; rewrite <- ?He, ?starts_with_app; done. Qed.

(** Text without the first character of the pattern is passed over. *)
Lemma strstr_after_skip p pat l s : p ∉ l -> strstr_after (p :: pat) (l ++ s) = strstr_after (p :: pat) s.
Proof.
  induction l as [|x l IH]; intros Hp; [done|]. apply not_elem_of_cons in Hp as [Hx Hl]. cbn.
  rewrite (proj2 (Z.eqb_neq p x)) by done. by apply IH.
Qed.

Lemma strstr_after_no pat x s : starts_with pat (x :: s) = None -> strstr_after pat (x :: s) = strstr_after pat s.
Proof. intros H. cbn [strstr_after]. by rewrite H. Qed.

Lemma starts_with_quoted_ne q k v rest rest' : q ∉ k -> q ∉ v -> k <> v ->
  starts_with (k ++ q :: rest) (v ++ q :: rest') = None.
Proof.
  revert v. induction k as [|x k IH]; intros v Hk Hv Hne; destruct v as [|y v]; cbn [app starts_with]; [done| | |].
  - apply not_elem_of_cons in Hv as [Hv _]. by rewrite (proj2 (Z.eqb_neq q y)).
  - apply not_elem_of_cons in Hk as [Hk _]. by rewrite (proj2 (Z.eqb_neq x q)).
  - destruct (Z.eqb_spec x y) as [->|]; [|done]. apply not_elem_of_cons in Hk as [_ Hk], Hv as [_ Hv].
    apply IH; congruence.
Qed.

(** Two words, each closed by [q], followed by different characters. *)
Lemma starts_with_quoted q k v c c' rest rest' : q ∉ k -> q ∉ v -> (k = v -> c <> c') ->
  starts_with (k ++ q :: c :: rest) (v ++ q :: c' :: rest') = None.
Proof.
  revert v. induction k as [|x k IH]; intros v Hk Hv Hc; destruct v as [|y v]; cbn [app starts_with].
  - rewrite Z.eqb_refl. cbn. by rewrite (proj2 (Z.eqb_neq c c')) by (apply Hc; done).
  - apply not_elem_of_cons in Hv as [Hv _]. by rewrite (proj2 (Z.eqb_neq q y)).
  - apply not_elem_of_cons in Hk as [Hk _]. by rewrite (proj2 (Z.eqb_neq x q)).
  - destruct (Z.eqb_spec x y) as [->|]; [|done]. apply not_elem_of_cons in Hk as [_ Hk], Hv as [_ Hv].
    apply IH; try done. intros ->. by apply Hc.
Qed.

Lemma strchr_before_app c l s : c ∉ l -> strchr_before c (l ++ c :: s) = Some l.
Proof.
  induction l as [|x l IH]; intros Hc; cbn; [by rewrite Z.eqb_refl|]. apply not_elem_of_cons in Hc as [Hx Hl].
  rewrite (proj2 (Z.eqb_neq x c)) by done. by rewrite IH.
Qed.

Lemma split_delim_app c l s : c ∉ l -> split_delim c (l ++ c :: s) = (l, s).
Proof.
  induction l as [|x l IH]; intros Hc; cbn; [by rewrite Z.eqb_refl|]. apply not_elem_of_cons in Hc as [Hx Hl].
  rewrite (proj2 (Z.eqb_neq x c)) by done. by rewrite IH.
Qed.
Lemma split_delim_none c l : c ∉ l -> split_delim c l = (l, []).
Proof.
  induction l as [|x l IH]; intros Hc; cbn; [done|]. apply not_elem_of_cons in Hc as [Hx Hl].
  rewrite (proj2 (Z.eqb_neq x c)) by done. by rewrite IH.
Qed.
Lemma skip_delims_none c l s : c ∉ l -> l <> [] -> skip_delims c (l ++ s) = l ++ s.
Proof. destruct l as [|x l]; [done|]. intros [Hx _]%not_elem_of_cons _. cbn. by rewrite (proj2 (Z.eqb_neq x c)). Qed.

Lemma strtok_app c l s : c ∉ l -> l <> [] -> strtok c (l ++ c :: s) = (Some l, s).
Proof.
  intros Hc Hl. unfold strtok. rewrite skip_delims_none by done.
  destruct (l ++ c :: s) eqn:He; [by destruct l|]. rewrite <- He. by rewrite split_delim_app.
Qed.
Lemma strtok_last c l : c ∉ l -> l <> [] -> strtok c l = (Some l, []).
Proof.
  intros Hc Hl. unfold strtok. rewrite <- (app_nil_r l) at 1. rewrite skip_delims_none, app_nil_r by done.
  destruct l as [|x l]; [done|]. by rewrite split_delim_none.
Qed.

Lemma cstr_id l : Forall char_ok l -> cstr l = l.
Proof.
  induction 1 as [|c l Hc Hl IH]; cbn; [done|]. unfold char_ok in Hc. by rewrite (proj2 (Z.eqb_neq c 0)), IH by lia.
Qed.

Lemma truncated_id size l : (length l < size)%nat -> truncated size l = l.
Proof. intros H. unfold truncated. apply take_ge. lia. Qed.

Lemma truncated_truncated k l : truncated k (truncated k l) = truncated k l.
Proof. unfold truncated. rewrite take_take. f_equal. lia. Qed.
Lemma str_bytes_ok s : Forall byte_ok (str_bytes s).
Proof.
  apply Forall_fmap, Forall_true. intros c. unfold byte_ok, compose. pose proof (Ascii.N_ascii_bounded c). lia.
Qed.

(** ** Decimal numbers: reading back what was printed *)

Lemma digits_value_digits fuel n acc s : 0 <= n < 10 ^ Z.of_nat fuel -> 
  digits_value acc (digits fuel n ++ s) = digits_value (acc * 10 ^ Z.of_nat (length (digits fuel n)) + n) s.
Proof.
  revert n acc s. induction fuel as [|fuel IH]; intros n acc s Hn.
  { change (10 ^ Z.of_nat 0) with 1 in Hn. cbn [digits app length]. change (10 ^ Z.of_nat 0) with 1. f_equal. lia. }
  rewrite Nat2Z.inj_succ, Z.pow_succ_r in Hn by lia. cbn [digits]. destruct (Z.ltb_spec n 10).
  - cbn [app digits_value length]. unfold is_digit. rewrite (proj2 (Z.leb_le 48 _)), (proj2 (Z.leb_le _ 57)) by lia.
    cbn [andb]. f_equal. lia.
  - rewrite <- app_assoc, IH by (Z.to_euclidean_division_equations; lia).
    cbn [app digits_value]. pose proof (Z.mod_pos_bound n 10). unfold is_digit.
    rewrite (proj2 (Z.leb_le 48 _)), (proj2 (Z.leb_le _ 57)) by lia. cbn [andb]. f_equal.
    rewrite length_app, Nat2Z.inj_add. cbn [length]. rewrite Z.pow_add_r by lia. change (10 ^ Z.of_nat 1) with 10.
    pose proof (Z.div_mod n 10 ltac:(lia)). lia.
Qed.

Lemma digits_shape fuel n : 0 <= n -> Forall (fun c => 48 <= c <= 57) (digits fuel n).
Proof.
  revert n. induction fuel as [|fuel IH]; intros n Hn; cbn; [constructor|]. destruct (Z.ltb_spec n 10).
  - repeat constructor; lia.
  - apply Forall_app. split; [apply IH, Z.div_pos; lia|]. pose proof (Z.mod_pos_bound n 10). repeat constructor; lia.
Qed.

Lemma digits_nonempty fuel n : digits (S fuel) n <> [].
Proof. cbn. destruct (_ <? _); [done|]. by intros [_ ?]%app_nil. Qed.

Lemma digits_length fuel n : (length (digits fuel n) <= fuel)%nat.
Proof.
  revert n. induction fuel as [|fuel IH]; intros n; cbn; [lia|]. destruct (_ <? _); cbn; [lia|].
  rewrite length_app. cbn. specialize (IH (n / 10)). lia.
Qed.

Lemma print_lld_chars z : Forall (fun c => c = 45 \/ 48 <= c <= 57) (print_lld z).
Proof.
  unfold print_lld. destruct (Z.ltb_spec z 0); [constructor; [by left|]|];
    (eapply Forall_impl; [apply digits_shape; lia|]); cbn; lia.
Qed.
Lemma print_lld_length z : (length (print_lld z) <= 21)%nat.
Proof. unfold print_lld. destruct (_ <? _); cbn [length]; [pose proof (digits_length 20 (- z))|pose proof (digits_length 20 z)]; lia. Qed.

Lemma signed_value_digits l s : Forall (fun c => 48 <= c <= 57) l -> l <> [] ->
  signed_value (l ++ s) = digits_value 0 (l ++ s).
Proof.
  intros Hl Hne. destruct Hl as [|c l Hc Hl]; [done|]. unfold signed_value. cbn [app skip_spaces].
  assert (Hsp : is_space c = false).
  { unfold is_space. by rewrite (proj2 (Z.eqb_neq c 32)), (proj2 (Z.leb_gt c 13)), andb_false_r by lia. }
  by rewrite Hsp, (proj2 (Z.eqb_neq c 45)), (proj2 (Z.eqb_neq c 43)) by lia.
Qed.

Lemma atoll_print z c s : - 2 ^ 63 <= z < 2 ^ 63 -> is_digit c = false -> atoll (print_lld z ++ c :: s) = Some z.
Proof.
  intros Hz Hc. unfold atoll.
  assert (Hval : forall n, 0 <= n <= 2 ^ 63 -> digits_value 0 (digits 20 n ++ c :: s) = n).
  { intros n Hn. rewrite digits_value_digits by lia. cbn [digits_value]. rewrite Hc. lia. }
  assert (Hsig : signed_value (print_lld z ++ c :: s) = z).
  { unfold print_lld. destruct (Z.ltb_spec z 0).
    - unfold signed_value. cbn [app skip_spaces]. change (is_space 45) with false. cbv iota beta.
      change (45 =? 45) with true. cbv iota. rewrite Hval; lia.
    - rewrite signed_value_digits; [|apply digits_shape; lia|apply digits_nonempty]. rewrite Hval; lia. }
  rewrite Hsig. by rewrite (proj2 (Z.leb_le _ _)), (proj2 (Z.ltb_lt _ _)) by lia.
Qed.

(** ** Hexadecimal numbers: [%0wlx] *)

Definition hex_char (x : Z) : Z := if x <? 10 then 48 + x else 87 + x.
Fixpoint hex_digits (fuel : nat) (n : Z) : list Z :=
  match fuel with
  | O => []
  | S fuel' => if n <? 16 then [hex_char n] else hex_digits fuel' (n / 16) ++ [hex_char (n mod 16)]
  end.
Definition zero_pad (w : nat) (s : list Z) : list Z := replicate (w - length s) 48 ++ s.
(** Of a 64-bit integer: at most 16 digits. *)
Definition print_hex (w : nat) (n : Z) : list Z := zero_pad w (hex_digits 16 n).

(** The number a hexadecimal text denotes. *)
Definition hex_number (s : list Z) : Z := foldl (fun a c => a * 16 + (if c <? 58 then c - 48 else c - 87)) 0 s.

Lemma hex_char_value x : 0 <= x < 16 -> (if hex_char x <? 58 then hex_char x - 48 else hex_char x - 87) = x.
Proof. intros Hx. unfold hex_char. destruct (Z.ltb_spec x 10); [rewrite (proj2 (Z.ltb_lt (48 + x) 58)) by lia|rewrite (proj2 (Z.ltb_ge (87 + x) 58)) by lia]; lia. Qed.

Lemma hex_digits_value fuel n : 0 <= n < 16 ^ Z.of_nat fuel -> hex_number (hex_digits fuel n) = n.
Proof.
  revert n. induction fuel as [|fuel IH]; intros n Hn; [change (16 ^ Z.of_nat 0) with 1 in Hn; cbn; lia|].
  rewrite Nat2Z.inj_succ, Z.pow_succ_r in Hn by lia. cbn [hex_digits]. unfold hex_number in *. destruct (Z.ltb_spec n 16).
  - cbn [foldl]. rewrite hex_char_value; lia.
  - rewrite foldl_app, IH by (Z.to_euclidean_division_equations; lia). cbn [foldl].
    rewrite hex_char_value by (apply Z.mod_pos_bound; lia). pose proof (Z.div_mod n 16 ltac:(lia)). lia.
Qed.

Lemma hex_digits_length fuel w n : 0 <= n < 16 ^ Z.of_nat w -> (0 < w)%nat -> (length (hex_digits fuel n) <= w)%nat.
Proof.
  revert w n. induction fuel as [|fuel IH]; intros w n Hn Hw; [cbn; lia|]. cbn [hex_digits]. destruct (Z.ltb_spec n 16); [cbn; lia|].
  destruct w as [|w]; [lia|]. rewrite Nat2Z.inj_succ, Z.pow_succ_r in Hn by lia. rewrite length_app. cbn [length].
  destruct w as [|w]; [change (16 ^ Z.of_nat 0) with 1 in Hn; lia|].
  specialize (IH (S w) (n / 16) ltac:(Z.to_euclidean_division_equations; lia) ltac:(lia)). lia.
Qed.

Lemma print_hex_length w n : 0 <= n < 16 ^ Z.of_nat w -> (0 < w)%nat -> length (print_hex w n) = w.
Proof.
  intros Hn Hw. pose proof (hex_digits_length 16 w n Hn Hw). unfold print_hex, zero_pad. rewrite length_app, length_replicate. lia.
Qed.

Lemma print_hex_value w n : 0 <= n < 2 ^ 64 -> hex_number (print_hex w n) = n.
Proof.
  intros Hn. unfold print_hex, zero_pad, hex_number. rewrite foldl_app.
  assert (Hz : forall k, foldl (fun a c => a * 16 + (if c <? 58 then c - 48 else c - 87)) 0 (replicate k 48) = 0).
  { induction k as [|k IH]; [done|]. exact IH. }
  rewrite Hz. apply (hex_digits_value 16). done.
Qed.

(** [strtol(s, NULL, 10)]: the number at the start of [s], or the closest [long]. *)
Definition strtol (s : list Z) : Z := Z.max (- 2 ^ 63) (Z.min (2 ^ 63 - 1) (signed_value s)).
(** Whether [strstr] finds [pat] in [s]. *)
Definition contains (pat s : list Z) : bool := match strstr_after pat s with Some _ => true | None => false end.

(** [strstr(s, pat) - s] as the characters before the first occurrence. *)
Fixpoint strstr_before (pat s : list Z) : option (list Z) :=
  match starts_with pat s with
  | Some _ => Some []
  | None => match s with [] => None | c :: s' => cons c <$> strstr_before pat s' end
  end.

(** What [strtol] and [atoi] read from a number printed alone. *)
Lemma signed_value_print n : 0 <= n < 10 ^ 20 -> signed_value (print_lld n) = n.
Proof.
  intros Hn. unfold print_lld. rewrite (proj2 (Z.ltb_ge _ _)) by lia.
  rewrite <- (app_nil_r (digits 20 n)), signed_value_digits by (apply digits_shape || apply digits_nonempty; lia).
  rewrite digits_value_digits by lia. cbn [digits_value]. lia.
Qed.
Lemma strtol_print n : 0 <= n < 2 ^ 63 -> strtol (print_lld n) = n.
Proof. intros Hn. unfold strtol. rewrite signed_value_print; lia. Qed.

(** The first occurrence of a pattern that starts with [c] is behind text without [c]. *)
Lemma strstr_before_skip c pat x s : c ∉ x -> strstr_before (c :: pat) (x ++ s) = app x <$> strstr_before (c :: pat) s.
Proof.
  induction x as [|a x IH]; intros Hx; cbn [app]; [by destruct (strstr_before (c :: pat) s)|]. apply not_elem_of_cons in Hx as [Ha Hx].
  cbn [strstr_before starts_with]. rewrite (proj2 (Z.eqb_neq _ _)) by done. rewrite IH by done. by destruct (strstr_before (c :: pat) s).
Qed.
Lemma strstr_before_here pat s : strstr_before pat (pat ++ s) = Some [].
Proof. pose proof (starts_with_app pat s) as H. destruct pat as [|c pat]; [by destruct s|]. cbn [app]. cbn [app] in H. cbn [strstr_before]. by rewrite H. Qed.
Lemma strstr_before_no pat x s : starts_with pat (x :: s) = None -> strstr_before pat (x :: s) = cons x <$> strstr_before pat s.
Proof. intros H. cbn [strstr_before]. by rewrite H. Qed.
Lemma cstr_app l s : Forall char_ok l -> cstr (l ++ s) = l ++ cstr s.
Proof. induction 1 as [|c l Hc Hl IH]; [done|]. cbn [app cstr]. rewrite (proj2 (Z.eqb_neq c 0)) by (unfold char_ok in Hc; lia). by rewrite IH. Qed.

(** ** More of the C library *)

(** [atoi]: [strtol], which saturates, converted to [int]. *)
Definition atoi (s : list Z) : Z := s32 (strtol s).
(** The sign of [strcmp]. *)
Fixpoint strcmp (a b : list Z) : Z :=
  match a, b with
  | [], [] => 0
  | [], _ :: _ => -1
  | _ :: _, [] => 1
  | x :: a, y :: b => if x =? y then strcmp a b else Z.sgn (x - y)
  end.
(** Scanning while a condition holds: what was passed, and what is left. *)
Fixpoint take_while (p : Z -> bool) (s : list Z) : list Z :=
  match s with c :: s' => if p c then c :: take_while p s' else [] | [] => [] end.
Fixpoint drop_while (p : Z -> bool) (s : list Z) : list Z :=
  match s with c :: s' => if p c then drop_while p s' else s | [] => [] end.

Lemma strcmp_eq a : forall b, strcmp a b = 0 <-> a = b.
Proof.
  induction a as [|x a IH]; intros [|y b]; cbn [strcmp]; try done. destruct (Z.eqb_spec x y) as [->|Hne].
  - rewrite IH. split; [by intros ->|by intros [= ->]].
  - split; [|congruence]. intros H. apply Z.sgn_null_iff in H. lia.
Qed.
Lemma strcmp_antisym a : forall b, strcmp b a = - strcmp a b.
Proof.
  induction a as [|x a IH]; intros [|y b]; cbn [strcmp]; try done. destruct (Z.eqb_spec x y) as [->|Hne]; [by rewrite Z.eqb_refl|].
  rewrite (proj2 (Z.eqb_neq y x)) by done. rewrite <- Z.sgn_opp. f_equal. lia.
Qed.
Lemma strcmp_trans a : forall b c, strcmp a b < 0 -> strcmp b c < 0 -> strcmp a c < 0.
Proof.
  induction a as [|x a IH]; intros [|y b] [|z c]; cbn [strcmp]; try lia. destruct (Z.eqb_spec x y) as [->|H1], (Z.eqb_spec y z) as [->|H2]; try done.
  - apply IH.
  - by rewrite (proj2 (Z.eqb_neq x z)) by done.
  - intros H3 H4. rewrite (proj2 (Z.eqb_neq x z)); lia.
Qed.
Lemma drop_while_app p l s : forallb p l = true -> drop_while p (l ++ s) = drop_while p s.
Proof. induction l as [|c l IH]; [done|]. cbn. intros [-> H]%andb_prop. by apply IH. Qed.
Lemma take_while_app p l s : forallb p l = true -> take_while p (l ++ s) = l ++ take_while p s.
Proof. induction l as [|c l IH]; [done|]. cbn. intros [-> H]%andb_prop. by rewrite IH. Qed.
Lemma forallb_is_digit l : Forall (fun c => 48 <= c <= 57) l -> forallb is_digit l = true.
Proof. induction 1 as [|c l Hc Hl IH]; [done|]. cbn. rewrite IH. unfold is_digit. lia. Qed.
(** Reading a number that was printed, up to a character that is no digit. *)
Lemma print_nat_digits n : 0 <= n -> print_lld n = digits 20 n /\ Forall (fun c => 48 <= c <= 57) (digits 20 n) /\ digits 20 n <> [].
Proof. intros Hn. unfold print_lld. rewrite (proj2 (Z.ltb_ge _ _)) by lia. split; [done|]. split; [by apply digits_shape|apply digits_nonempty]. Qed.
Lemma atoi_print n s : 0 <= n < 2 ^ 31 -> match s with c :: _ => is_digit c = false | [] => True end -> atoi (print_lld n ++ s) = n.
Proof.
  intros Hn Hs. destruct (print_nat_digits n) as (-> & Hd & Hne); [lia|]. unfold atoi, strtol. rewrite signed_value_digits by done. rewrite digits_value_digits by lia.
  replace (digits_value _ s) with n by (destruct s as [|c s]; cbn [digits_value]; [lia|rewrite Hs; lia]). rewrite s32_small; lia.
Qed.
Lemma skip_print n s : 0 <= n -> drop_while is_digit (print_lld n ++ s) = drop_while is_digit s.
Proof. intros Hn. destruct (print_nat_digits n Hn) as (-> & Hd & _). apply drop_while_app. by apply forallb_is_digit. Qed.

(** ** Lengths and first characters of what is left *)

Lemma starts_with_length pat s r : starts_with pat s = Some r -> (length r + length pat = length s)%nat.
Proof. revert s. induction pat as [|x pat IH]; intros [|c s]; cbn; [by intros [= <-]|by intros [= <-]; cbn; lia|done|]. destruct (x =? c); [|done]. intros H. apply IH in H. lia. Qed.
Lemma drop_while_le f p : (length (drop_while f p) <= length p)%nat.
Proof. induction p as [|c p IH]; cbn; [lia|]. destruct (f c); cbn; lia. Qed.
Lemma drop_while_head f p : match drop_while f p with c :: _ => f c = false | [] => True end.
Proof. induction p as [|c p IH]; [done|]. cbn. by destruct (f c) eqn:E. Qed.
Lemma drop_while_keeps f c p : f c = false -> c ∈ p -> c ∈ drop_while f p.
Proof. intros Hf. induction p as [|x p IH]; [done|]. cbn. destruct (f x) eqn:E; [|done]. intros [->|H]%elem_of_cons; [congruence|by apply IH]. Qed.
Lemma drop_while_incl f c p : c ∈ drop_while f p -> c ∈ p.
Proof. induction p as [|x p IH]; [done|]. cbn. destruct (f x); [|done]. intros H. right. by apply IH. Qed.
Lemma starts_with_app_inv pat s r : starts_with pat s = Some r -> s = pat ++ r.
Proof. revert s. induction pat as [|x pat IH]; intros [|c s]; cbn; try done; [by intros [= <-]..|]. destruct (Z.eqb_spec x c) as [->|]; [|done]. intros H. by rewrite (IH _ H). Qed.
Lemma skip_spaces_le p : (length (skip_spaces p) <= length p)%nat.
Proof. induction p as [|c p IH]; cbn; [lia|]. destruct (is_space c); cbn; lia. Qed.

(** [fgets] with room for [room] bytes: up to a line break and with it; and the rest. *)
Fixpoint fgets (room : nat) (file : list Z) : list Z * list Z :=
  match room, file with
  | S r, c :: file' => if c =? 10 then ([c], file') else let '(l, rest) := fgets r file' in (c :: l, rest)
  | _, _ => ([], file)
  end.
Lemma fgets_line room l rest : 10 ∉ l -> (length l < room)%nat -> fgets room (l ++ 10 :: rest) = (l ++ [10], rest).
Proof.
  revert room. induction l as [|x l IH]; intros [|room]; cbn [length app fgets]; try lia; [by intros|].
  intros [Hx Hl]%not_elem_of_cons Hr. rewrite (proj2 (Z.eqb_neq x 10)) by congruence. rewrite IH by (done || lia). done.
Qed.
(** [sscanf] of [%lld]: a number with a sign, if there is one, and the text behind it. *)
Definition scan_lld (s : list Z) : option (Z * list Z) :=
  let clamp z := Z.max (- 2 ^ 63) (Z.min (2 ^ 63 - 1) z) in
  let number sign s := match s with d :: _ => if is_digit d then Some (clamp (sign * digits_value 0 s), drop_while is_digit s) else None | [] => None end in
  match skip_spaces s with
  | c :: s' => if c =? 45 then number (-1) s' else if c =? 43 then number 1 s' else number 1 (c :: s')
  | [] => None
  end.
Lemma scan_lld_print n s : 0 <= n < 2 ^ 63 -> match s with c :: _ => is_digit c = false | [] => True end -> scan_lld (print_lld n ++ s) = Some (n, s).
Proof.
  intros Hn Hs. destruct (print_nat_digits n) as (Hp & Hd & Hne); [lia|]. pose proof (skip_print n s) as Hskip. rewrite Hp in *.
  pose proof (digits_value_digits 20 n 0 s) as Hv. unfold scan_lld. destruct (digits 20 n) as [|c l] eqn:E; [done|]. apply Forall_cons in Hd as [Hc _]. cbn [app] in *.
  cbn [skip_spaces]. assert (is_space c = false) as -> by (unfold is_space; lia). rewrite (proj2 (Z.eqb_neq c 45)), (proj2 (Z.eqb_neq c 43)) by lia.
  assert (is_digit c = true) as -> by (unfold is_digit; lia). rewrite Hskip by lia. rewrite Hv by lia.
  replace (digits_value (0 * 10 ^ Z.of_nat (length (c :: l)) + n) s) with n.
  - f_equal. f_equal; [lia|]. destruct s as [|d s]; [done|]. cbn. by rewrite Hs.
  - destruct s as [|d s]; cbn [digits_value]; [lia|]. rewrite Hs. lia.
Qed.
