(* ===== verification/BloomFilter.v ===== *)
(** Model of [mini-business-infra/src/bloom_filter.c]: a Bloom filter with double
    hashing over FNV-1a.

    Bytes are integers in [0, 256); [bits] is the byte array, its length
    [byte_count].  The bytes of the first hash, hashed again for the second one, are
    taken in little-endian order.  [bf_create], which derives the parameters with
    logarithms of doubles, and the two getters that return doubles are not modelled. *)

From S2P Require Import Prelude Bytes.

Definition BF_MAX_HASH_FUNCTIONS : Z := 32.

Record bf_bloom_filter := mk_bf { bits : list Z; bit_count : Z; hash_count : Z; element_count : Z }.

(** ** Hashing *)

Definition fnv_step (h b : Z) : Z := u64 (Z.lxor h b * 0x100000001b3).
Definition bf_fnv1a (data : list Z) : Z := foldl fnv_step 0xcbf29ce484222325 data.

(** The bytes of a [uint64_t] in memory. *)
Definition u64_bytes (x : Z) : list Z := (fun i => (x / 2 ^ (8 * i)) mod 2 ^ 8) <$> seqZ 0 8.

Definition bf_hash_pair (data : list Z) : Z * Z :=
  let base := bf_fnv1a data in (base, bf_fnv1a (u64_bytes base)).

(** The bit of the [i]-th hash function: [(h1 + i * h2) % bit_count]. *)
Definition bit_index (bf : bf_bloom_filter) (h : Z * Z) (i : Z) : Z := u64 (h.1 + u64 (i * h.2)) mod bit_count bf.
Definition bit_mask (idx : Z) : Z := u8 (Z.shiftl 1 (idx mod 8)).
Definition bit_test (bits : list Z) (idx : Z) : bool :=
  negb (Z.land (bits !!! Z.to_nat (idx / 8)) (bit_mask idx) =? 0).
Definition bit_set (bits : list Z) (idx : Z) : list Z :=
  alter (fun b => Z.lor b (bit_mask idx)) (Z.to_nat (idx / 8)) bits.

(** ** Operations *)

Definition bf_create_with_params (bit_count num_hashes : Z) : option bf_bloom_filter :=
  if (bit_count =? 0) || (num_hashes <=? 0) then None
  else
    let k := if BF_MAX_HASH_FUNCTIONS <? num_hashes then BF_MAX_HASH_FUNCTIONS else num_hashes in
    Some (mk_bf (replicate (Z.to_nat ((bit_count + 7) / 8)) 0) bit_count k 0).

(** One round: the bits, and whether all bits so far were set. *)
Definition add_round (bf : bf_bloom_filter) (h : Z * Z) (s : list Z * bool) (i : Z) : list Z * bool :=
  let idx := bit_index bf h i in
  (bit_set s.1 idx, s.2 && bit_test s.1 idx).

Definition bf_add (bf : bf_bloom_filter) (data : list Z) : Z * bf_bloom_filter :=
  if (length data =? 0)%nat then (-1, bf)
  else
    let h := bf_hash_pair data in
    let s := foldl (add_round bf h) (bits bf, true) (seqZ 0 (hash_count bf)) in
    (0, bf <| bits := s.1 |> <| element_count := if s.2 then element_count bf else u64 (element_count bf + 1) |>).

(** [for (i...) if (!bit) return 0; return 1;] *)
Definition bf_contains (bf : bf_bloom_filter) (data : list Z) : Z :=
  if (length data =? 0)%nat then 0
  else
    let h := bf_hash_pair data in
    match find_idx (fun i => negb (bit_test (bits bf) (bit_index bf h i))) (seqZ 0 (hash_count bf)) with
    | Some _ => 0
    | None => 1
    end.

(** The bytes of a C string. *)
Definition bf_add_string (bf : bf_bloom_filter) (str : option string) : Z * bf_bloom_filter :=
  match str with Some s => bf_add bf (str_bytes s) | None => (-1, bf) end.
Definition bf_contains_string (bf : bf_bloom_filter) (str : option string) : Z :=
  match str with Some s => bf_contains bf (str_bytes s) | None => 0 end.

Definition bf_clear (bf : bf_bloom_filter) : bf_bloom_filter :=
  bf <| bits := replicate (length (bits bf)) 0 |> <| element_count := 0 |>.

Definition bf_bit_count (bf : bf_bloom_filter) : Z := bit_count bf.
Definition bf_hash_count (bf : bf_bloom_filter) : Z := hash_count bf.
Definition bf_element_count (bf : bf_bloom_filter) : Z := element_count bf.

(** ** Bits *)

Lemma bit_mask_pow idx : bit_mask idx = 2 ^ (idx mod 8).
Proof.
  unfold bit_mask. rewrite Z.shiftl_1_l. apply Z.mod_small.
  pose proof (Z.mod_pos_bound idx 8). split; [lia|]. apply Z.pow_lt_mono_r; lia.
Qed.

Lemma land_pow2 b k : 0 <= k -> negb (Z.land b (2 ^ k) =? 0) = Z.testbit b k.
Proof.
  intros Hk. destruct (Z.testbit b k) eqn:Hb.
  - apply negb_true_iff, Z.eqb_neq. intros Hz. apply (f_equal (fun x => Z.testbit x k)) in Hz.
    rewrite Z.land_spec, Hb, Z.pow2_bits_true, Z.bits_0 in Hz by done. done.
  - apply negb_false_iff, Z.eqb_eq, Z.bits_inj'. intros n Hn. rewrite Z.land_spec, Z.bits_0.
    destruct (decide (n = k)) as [->|Hne]; [by rewrite Hb|]. rewrite Z.pow2_bits_false by done. apply andb_false_r.
Qed.

Lemma bit_test_alt bs idx : bit_test bs idx = Z.testbit (bs !!! Z.to_nat (idx / 8)) (idx mod 8).
Proof. unfold bit_test. rewrite bit_mask_pow. apply land_pow2. pose proof (Z.mod_pos_bound idx 8). lia. Qed.

Definition in_range (bs : list Z) (idx : Z) : Prop := 0 <= idx /\ idx / 8 < Z.of_nat (length bs).

Lemma bit_set_test bs i j : in_range bs i -> in_range bs j ->
  bit_test (bit_set bs i) j = (i =? j) || bit_test bs j.
Proof.
  intros [Hi Hil] [Hj Hjl]. rewrite !bit_test_alt. unfold bit_set.
  pose proof (Z.mod_pos_bound i 8). pose proof (Z.mod_pos_bound j 8).
  pose proof (Z.div_mod i 8). pose proof (Z.div_mod j 8). pose proof (Z.div_pos i 8). pose proof (Z.div_pos j 8).
  rewrite !list_lookup_total_alt. destruct (decide (Z.to_nat (i / 8) = Z.to_nat (j / 8))) as [Heq|Hne].
  - rewrite Heq, list_lookup_alter_eq. destruct (lookup_lt_is_Some_2 bs (Z.to_nat (j / 8))) as [b Hb]; [lia|].
    rewrite Hb. cbn [fmap option_fmap option_map default from_option id]. rewrite Z.lor_spec, bit_mask_pow.
    destruct (Z.eqb_spec i j) as [->|Hij].
    + rewrite Z.pow2_bits_true by lia. by rewrite orb_true_r.
    + rewrite Z.pow2_bits_false by lia. by rewrite orb_false_r.
  - rewrite list_lookup_alter_ne by done. destruct (Z.eqb_spec i j) as [->|]; done.
Qed.

Lemma bit_test_zero n j : in_range (replicate n 0) j -> bit_test (replicate n 0) j = false.
Proof.
  intros [Hj Hl]. rewrite length_replicate in Hl. pose proof (Z.div_pos j 8). rewrite bit_test_alt, list_lookup_total_alt.
  rewrite lookup_replicate_2 by lia. apply Z.bits_0.
Qed.

Lemma bit_set_length bs i : length (bit_set bs i) = length bs.
Proof. apply length_alter. Qed.

(** ** The filter and the elements added to it *)

(** The bits of an element. *)
Definition positions (bf : bf_bloom_filter) (data : list Z) : list Z :=
  bit_index bf (bf_hash_pair data) <$> seqZ 0 (hash_count bf).

(** The filter holds exactly the bits of [added]; its parameters are [m] and [k]. *)
Record bf_holds (m k : Z) (bf : bf_bloom_filter) (added : list (list Z)) : Prop := {
  bh_bit_count : bit_count bf = m;
  bh_hash_count : hash_count bf = k;
  bh_pos : 0 < m;
  bh_len : Z.of_nat (length (bits bf)) = (m + 7) / 8;
  bh_bits : forall j, 0 <= j < m ->
    bit_test (bits bf) j = true <-> exists x, x ∈ added /\ j ∈ positions bf x;
}.

Lemma index_in_range m k bf added h i : bf_holds m k bf added ->
  0 <= bit_index bf h i < m.
Proof. intros [Hm _ Hp _ _]. unfold bit_index. rewrite Hm. by apply Z.mod_pos_bound. Qed.

Lemma below_in_range m j bs : 0 <= j < m -> Z.of_nat (length bs) = (m + 7) / 8 -> in_range bs j.
Proof. intros Hj Hl. split; [lia|]. rewrite Hl. Z.to_euclidean_division_equations. lia. Qed.

Lemma add_rounds m bf h is_ : bit_count bf = m -> 0 < m -> forall bs b,
  Z.of_nat (length bs) = (m + 7) / 8 ->
  let s := foldl (add_round bf h) (bs, b) is_ in
  Z.of_nat (length s.1) = (m + 7) / 8 /\
  forall j, 0 <= j < m -> bit_test s.1 j = existsb (fun i => bit_index bf h i =? j) is_ || bit_test bs j.
Proof.
  intros Hm Hp. induction is_ as [|i is_ IH]; intros bs b Hl; [done|]. cbn [foldl existsb]. unfold add_round at 2. cbn [fst snd].
  assert (Hi : 0 <= bit_index bf h i < m) by (unfold bit_index; rewrite Hm; by apply Z.mod_pos_bound).
  destruct (IH (bit_set bs (bit_index bf h i)) (b && bit_test bs (bit_index bf h i))) as [Hl' Ht];
    [by rewrite bit_set_length|]. split; [done|]. intros j Hj. rewrite Ht, bit_set_test by (done || by eapply below_in_range).
  destruct (_ =? j), (existsb _ _); done.
Qed.

Lemma add_holds m k bf added data : bf_holds m k bf added -> data <> [] ->
  (bf_add bf data).1 = 0 /\ bf_holds m k (bf_add bf data).2 (data :: added).
Proof.
  intros Hh Hne. destruct Hh as [Hm Hk Hp Hl Hb]. unfold bf_add. destruct data as [|b data]; [done|]. cbn [length Nat.eqb].
  split; [done|]. cbn [snd]. set (h := bf_hash_pair _).
  destruct (add_rounds m bf h (seqZ 0 (hash_count bf)) Hm Hp (bits bf) true Hl) as [Hl' Ht].
  set (s := foldl _ _ _) in *. split; try done.
  cut (forall j, 0 <= j < m -> bit_test s.1 j = true <-> exists x, x ∈ (b :: data) :: added /\ j ∈ positions bf x); [done|].
  intros j Hj. rewrite (Ht j Hj), orb_true_iff, (Hb j Hj). split.
  - intros [(i & Hi & Heq)%existsb_exists|(x & Hx & Hjx)].
    + apply Z.eqb_eq in Heq. exists (b :: data). split; [left|]. subst j. apply list_elem_of_fmap_2. by apply list_elem_of_In.
    + exists x. split; [by right|done].
  - intros (x & [->|Hx]%elem_of_cons & Hjx); [left|right; by exists x].
    apply list_elem_of_fmap in Hjx as (i & -> & Hi). apply existsb_exists. exists i.
    split; [by apply list_elem_of_In|]. apply Z.eqb_refl.
Qed.

Lemma clear_holds m k bf added : bf_holds m k bf added -> bf_holds m k (bf_clear bf) [].
Proof.
  intros [Hm Hk Hp Hl Hb]. split; cbn; rewrite ?length_replicate; try done. intros j Hj.
  rewrite bit_test_zero; [|apply (below_in_range m); [done|by rewrite length_replicate]].
  split; [done|]. by intros (x & ?%not_elem_of_nil & _).
Qed.

(** Runs of a filter: the elements added since the last clear. *)
Inductive bf_op := BfAdd (data : list Z) | BfClear.
Definition bf_do (bf : bf_bloom_filter) (op : bf_op) : bf_bloom_filter :=
  match op with BfAdd data => (bf_add bf data).2 | BfClear => bf_clear bf end.
Definition bf_track (added : list (list Z)) (op : bf_op) : list (list Z) :=
  match op with BfAdd [] => added | BfAdd data => data :: added | BfClear => [] end.

Lemma run_holds m k ops : forall bf added, bf_holds m k bf added ->
  bf_holds m k (foldl bf_do bf ops) (foldl bf_track added ops).
Proof.
  induction ops as [|op ops IH]; intros bf added Hh; [done|]. cbn [foldl]. apply IH.
  destruct op as [[|b data]|]; cbn [bf_do bf_track]; [done| |by eapply clear_holds].
  by apply add_holds.
Qed.

Lemma create_holds m n bf : 0 <= m -> bf_create_with_params m n = Some bf ->
  bf_holds m (Z.min n BF_MAX_HASH_FUNCTIONS) bf [] /\ 0 < n.
Proof.
  intros Hm. unfold bf_create_with_params. destruct (Z.eqb_spec m 0); [done|]. destruct (Z.leb_spec n 0); [done|].
  cbn [orb]. intros [= <-]. split; [|lia]. split; cbn; try lia.
  - destruct (Z.ltb_spec BF_MAX_HASH_FUNCTIONS n); lia.
  - rewrite length_replicate. Z.to_euclidean_division_equations. lia.
  - intros j Hj. rewrite bit_test_zero.
    + split; [done|]. by intros (x & ?%not_elem_of_nil & _).
    + apply (below_in_range m); [done|]. rewrite length_replicate. Z.to_euclidean_division_equations. lia.
Qed.

Lemma contains_spec m k bf added data : bf_holds m k bf added -> data <> [] ->
  bf_contains bf data = 1 <-> (forall p, p ∈ positions bf data -> exists x, x ∈ added /\ p ∈ positions bf x).
Proof.
  intros Hh Hne. unfold bf_contains. destruct data as [|b data]; [done|]. cbn [length Nat.eqb].
  assert (Hbit : forall i, bit_test (bits bf) (bit_index bf (bf_hash_pair (b :: data)) i) = true <->
    exists x, x ∈ added /\ bit_index bf (bf_hash_pair (b :: data)) i ∈ positions bf x).
  { intros i. apply (bh_bits _ _ _ _ Hh). by eapply index_in_range. }
  destruct (find_idx _ _) as [n|] eqn:Hf.
  - split; [done|]. intros Hall. exfalso. apply find_idx_Some in Hf as (i & Hi & Hn & _).
    apply negb_true_iff in Hn. rewrite (proj2 (Hbit i)) in Hn; [done|]. apply Hall.
    apply list_elem_of_fmap_2. by eapply list_elem_of_lookup_2.
  - split; [|done]. intros _ p (i & -> & Hi)%list_elem_of_fmap. apply Hbit.
    apply negb_false_iff. exact (proj1 (find_idx_None _ _) Hf i Hi).
Qed.

(** ** Properties *)

(** The filter answers 1 for an element exactly when every one of its bits is a bit
    of some element added since the last clear.  In particular it has no false
    negatives: an element added since the last clear is always found. *)
Theorem bf_contains_correct m n bf0 ops data : 0 <= m -> bf_create_with_params m n = Some bf0 -> data <> [] ->
  let bf := foldl bf_do bf0 ops in
  let added := foldl bf_track [] ops in
  (bf_contains bf data = 1 <-> forall p, p ∈ positions bf data -> exists x, x ∈ added /\ p ∈ positions bf x) /\
  (data ∈ added -> bf_contains bf data = 1).
Proof.
  intros Hm Hc Hne bf added. destruct (create_holds m n bf0 Hm Hc) as [Hh _].
  pose proof (run_holds _ _ ops bf0 [] Hh) as Hh'. fold bf in Hh'. fold added in Hh'.
  split; [by eapply contains_spec|]. intros Hin. apply (contains_spec _ _ _ _ _ Hh' Hne). eauto.
Qed.

Definition bf_small : bf_bloom_filter := default (mk_bf [] 1 1 0) (bf_create_with_params 64 3).

Lemma bf_contains_correct_witness :
  let bf := foldl bf_do bf_small [BfAdd (str_bytes "stale"); BfClear; BfAdd (str_bytes "alice"); BfAdd (str_bytes "bob")] in
  bf_contains bf (str_bytes "alice") = 1 /\ bf_contains bf (str_bytes "stale") = 0.
Proof.
  split; [|reflexivity].
  apply (bf_contains_correct 64 3 bf_small
    [BfAdd (str_bytes "stale"); BfClear; BfAdd (str_bytes "alice"); BfAdd (str_bytes "bob")]); [lia|reflexivity|discriminate|].
  right. left.
Defined.
