(* ===== verification/ConsistentHash.v ===== *)
(** Model of [mini-business-infra/src/consistent_hash.c]: a consistent-hashing ring
    with virtual nodes.

    [qsort] of the C library is a parameter: it permutes its argument and sorts it
    by hash; in what order it leaves equal hashes is not specified.  Growing the
    arrays with [realloc] is left out. *)

From stdpp Require Import sorting.
From S2P Require Import Prelude.

Definition CH_MAX_NODE_LEN : nat := 128.
Definition CH_DEFAULT_VIRTUAL_NODES : Z := 150.
Definition CH_MAX_VIRTUAL_NODES : Z := 4096.

Record ch_vnode := mk_vnode { v_hash : Z; v_physical : nat }.
#[export] Instance ch_vnode_inhabited : Inhabited ch_vnode := populate (mk_vnode 0 0).
#[export] Instance ch_vnode_eq_dec : EqDecision ch_vnode.
Proof. solve_decision. Defined.

(** [physical_count] and [vnode_count] are the lengths. *)
Record ch_ring := mk_ch { virtual_count : Z; physical_names : list string; vnodes : list ch_vnode }.

(** ** Hashing *)

Definition ch_mix32 (h : Z) : Z :=
  let h := Z.lxor h (Z.shiftr h 16) in
  let h := u32 (h * 0x85ebca6b) in
  let h := Z.lxor h (Z.shiftr h 13) in
  let h := u32 (h * 0xc2b2ae35) in
  Z.lxor h (Z.shiftr h 16).

Definition ch_hash_key (key : string) : Z :=
  ch_mix32 (foldl (fun h c => u32 (Z.lxor h (Z.of_N (Ascii.N_of_ascii c)) * 0x01000193)) 0x811c9dc5
    (String.list_ascii_of_string key)).

Definition ch_hash_vnode (base replica : Z) : Z := ch_mix32 (Z.lxor base (u32 (replica * 0x9e3779b9))).

Definition ch_vnode_cmp (a b : ch_vnode) : Z :=
  if v_hash b <? v_hash a then 1 else if v_hash a <? v_hash b then -1 else 0.

(** ** Lookup *)

(** The loop state is [(lo, hi)]. *)
Definition find_body (r : ch_ring) (hash : Z) (s : Z * Z) : Z * Z :=
  let mid := (s.1 + s.2) ÷ 2 in
  if v_hash (vnodes r !!! Z.to_nat mid) <? hash then (mid + 1, s.2) else (s.1, mid - 1).
Definition find_more (s : Z * Z) : bool := s.1 <=? s.2.

(** [None]: the loop did not end; the theorems exclude it. *)
Definition ch_find_vnode (r : ch_ring) (hash : Z) : option Z :=
  if (length (vnodes r) =? 0)%nat then Some (-1)
  else
    s ← while_loop (length (vnodes r)) find_more (find_body r hash) (0, Z.of_nat (length (vnodes r)) - 1);
    Some (if Z.of_nat (length (vnodes r)) <=? s.1 then 0 else s.1).

Definition ch_ring_create (virtual_nodes_per_physical : Z) : ch_ring :=
  let v := if 0 <? virtual_nodes_per_physical then virtual_nodes_per_physical else CH_DEFAULT_VIRTUAL_NODES in
  mk_ch (if CH_MAX_VIRTUAL_NODES <? v then CH_MAX_VIRTUAL_NODES else v) [] [].

Definition out_name (r : ch_ring) (pi : nat) : string := str_take (CH_MAX_NODE_LEN - 1) (physical_names r !!! pi).

Definition ch_ring_get_node (r : ch_ring) (key : string) : option (Z * option string) :=
  if (length (vnodes r) =? 0)%nat then Some (-1, None)
  else
    idx ← ch_find_vnode r (ch_hash_key key);
    Some (0, Some (out_name r (v_physical (vnodes r !!! Z.to_nat idx)))).

(** One round: the nodes seen, and those found, in order. *)
Definition nodes_round (r : ch_ring) (req_n : Z) (start : Z) (s : list bool * list nat) (i : Z) : list bool * list nat :=
  if Z.of_nat (length s.2) <? req_n then
    let pi := v_physical (vnodes r !!! Z.to_nat ((start + i) mod Z.of_nat (length (vnodes r)))) in
    if (s.1 !!! pi : bool) then s else (<[pi := true]> s.1, s.2 ++ [pi])
  else s.

Definition ch_ring_get_nodes (r : ch_ring) (key : string) (req_n : Z) : option (Z * list string) :=
  if req_n <=? 0 then Some (-1, [])
  else if (length (vnodes r) =? 0)%nat then Some (0, [])
  else
    let req_n := Z.min req_n (Z.of_nat (length (physical_names r))) in
    start ← ch_find_vnode r (ch_hash_key key);
    let s := foldl (nodes_round r req_n start) (replicate (length (physical_names r)) false, [])
               (seqZ 0 (Z.of_nat (length (vnodes r)))) in
    Some (Z.of_nat (length s.2), out_name r <$> s.2).

Definition ch_ring_size (r : ch_ring) : Z := Z.of_nat (length (physical_names r)).
Definition ch_ring_virtual_size (r : ch_ring) : Z := Z.of_nat (length (vnodes r)).
Definition ch_ring_list_nodes (r : ch_ring) (max_count : Z) : Z * list string :=
  let n := if ch_ring_size r <? max_count then ch_ring_size r else max_count in
  (n, out_name r <$> seq 0 (Z.to_nat n)).

(** ** Changes *)

(** The virtual nodes of physical node [idx]. *)
Definition node_vnodes (vc : Z) (name : string) (idx : nat) : list ch_vnode :=
  (fun v => mk_vnode (ch_hash_vnode (ch_hash_key name) v) idx) <$> seqZ 0 vc.

(** The index of the vnodes behind the removed one moves down. *)
Definition shift_down (target : nat) (v : ch_vnode) : ch_vnode :=
  if (target <? v_physical v)%nat then mk_vnode (v_hash v) (Nat.pred (v_physical v)) else v.

Section ring.
Context (qsort : list ch_vnode -> list ch_vnode).

Definition ch_ring_add_node (r : ch_ring) (name : string) : Z * ch_ring :=
  if existsb (String.eqb name) (physical_names r) then (0, r)
  else
    let idx := length (physical_names r) in
    (0, mk_ch (virtual_count r) (physical_names r ++ [name])
          (qsort (vnodes r ++ node_vnodes (virtual_count r) name idx))).

Definition ch_ring_remove_node (r : ch_ring) (name : string) : Z * ch_ring :=
  match find_idx (String.eqb name) (physical_names r) with
  | None => (-1, r)
  | Some target =>
      (0, mk_ch (virtual_count r) (delete target (physical_names r))
            (qsort (shift_down target <$> List.filter (fun v => negb (v_physical v =? target)%nat) (vnodes r))))
  end.

Definition ch_ring_rebalance (r : ch_ring) : ch_ring :=
  if (length (physical_names r) =? 0)%nat then r
  else mk_ch (virtual_count r) (physical_names r)
         (qsort (mjoin (imap (fun i name => node_vnodes (virtual_count r) name i) (physical_names r)))).

(** ** The ring as a set of points on the circle *)

Definition sorted_by_hash (l : list ch_vnode) : Prop := StronglySorted (fun a b => ch_vnode_cmp a b <= 0) l.

Definition qsort_sorts : Prop := forall l, qsort l ≡ₚ l /\ sorted_by_hash (qsort l).

(** The points of a physical node, and those of the ring: (hash, name). *)
Definition node_points (vc : Z) (name : string) : list (Z * string) :=
  (fun v => (ch_hash_vnode (ch_hash_key name) v, name)) <$> seqZ 0 vc.
Definition point (names : list string) (v : ch_vnode) : Z * string := (v_hash v, names !!! v_physical v).
Definition points (r : ch_ring) : list (Z * string) := point (physical_names r) <$> vnodes r.

Record ring_ok (r : ch_ring) : Prop := {
  ro_virtual : 0 < virtual_count r;
  ro_names : NoDup (physical_names r);
  ro_sorted : sorted_by_hash (vnodes r);
  ro_bound : Forall (fun v => (v_physical v < length (physical_names r))%nat) (vnodes r);
  ro_points : points r ≡ₚ physical_names r ≫= node_points (virtual_count r);
}.

(** [p] is the first of [ps] at or after [h], going around the circle. *)
Definition successor (ps : list (Z * string)) (h : Z) (p : Z * string) : Prop :=
  p ∈ ps /\
  ((h <= p.1 /\ forall q, q ∈ ps -> h <= q.1 -> p.1 <= q.1) \/
   ((forall q, q ∈ ps -> q.1 < h) /\ forall q, q ∈ ps -> p.1 <= q.1)).

(** No point is shared by two nodes. *)
Definition collision_free (ps : list (Z * string)) : Prop :=
  forall p q, p ∈ ps -> q ∈ ps -> p.1 = q.1 -> p.2 = q.2.

(** ** The binary search *)

Lemma cmp_le a b : ch_vnode_cmp a b <= 0 <-> v_hash a <= v_hash b.
Proof.
  unfold ch_vnode_cmp. destruct (Z.ltb_spec (v_hash b) (v_hash a)); [lia|].
  destruct (Z.ltb_spec (v_hash a) (v_hash b)); lia.
Qed.

Lemma sorted_lookup r i j : sorted_by_hash (vnodes r) -> (i <= j < length (vnodes r))%nat ->
  v_hash (vnodes r !!! i) <= v_hash (vnodes r !!! j).
Proof.
  intros Hs [Hij Hj]. revert i j Hij Hj. induction Hs as [|v l Hs IH Hall]; intros i j Hij Hj; cbn in Hj; [lia|].
  destruct j as [|j], i as [|i]; cbn; try lia; [|apply IH; lia].
  rewrite List.Forall_forall in Hall. apply cmp_le, Hall, list_elem_of_In. apply list_elem_of_lookup_total_2. cbn in Hj. lia.
Qed.

(** The loop splits the array at the first hash not below the target. *)
Lemma find_vnode_spec r hash : sorted_by_hash (vnodes r) -> vnodes r <> [] ->
  exists k : nat, (k <= length (vnodes r))%nat /\
    (forall i, (i < k)%nat -> v_hash (vnodes r !!! i) < hash) /\
    (forall i, (k <= i < length (vnodes r))%nat -> hash <= v_hash (vnodes r !!! i)) /\
    ch_find_vnode r hash = Some (if (k =? length (vnodes r))%nat then 0 else Z.of_nat k).
Proof.
  intros Hs Hne. set (n := length (vnodes r)). unfold ch_find_vnode.
  set (Inv := fun s : Z * Z => 0 <= s.1 /\ -1 <= s.2 < Z.of_nat n /\ s.1 <= s.2 + 1 /\
    (forall i, Z.of_nat i < s.1 -> v_hash (vnodes r !!! i) < hash) /\
    (forall i, s.2 < Z.of_nat i -> (i < n)%nat -> hash <= v_hash (vnodes r !!! i))).
  destruct (while_loop_total Inv (fun s => Z.to_nat (s.2 - s.1 + 1)) find_more (find_body r hash))
    with (fuel := n) (s := (0, Z.of_nat n - 1)) as ([lo hi] & Hw & (H1 & H2 & H3 & Hb & Ha) & Hend).
  - intros [lo hi] (H1 & H2 & H3 & Hb & Ha) Hc. unfold find_more in Hc. cbn [fst snd] in *. zbool.
    unfold find_body. cbn [fst snd]. set (mid := (lo + hi) ÷ 2).
    assert (Hmid : lo <= mid <= hi).
    { unfold mid. rewrite Z.quot_div_nonneg by lia. Z.to_euclidean_division_equations. lia. }
    destruct (Z.ltb_spec (v_hash (vnodes r !!! Z.to_nat mid)) hash) as [Hlt|Hge]; unfold Inv; cbn [fst snd]; split; try lia.
    + split_and!; try lia; [|done]. intros i Hi. eapply Z.le_lt_trans; [|exact Hlt].
      apply sorted_lookup; [done|]. fold n. lia.
    + split_and!; try lia; [done|]. intros i Hi Hin. etransitivity; [exact Hge|]. apply sorted_lookup; [done|]. fold n. lia.
  - unfold Inv. cbn [fst snd]. split_and!; try lia; intros; lia.
  - cbn [fst snd]. lia.
  - fold n. rewrite Hw. unfold find_more in Hend. cbn [fst snd] in *. zbool. exists (Z.to_nat lo).
    assert (Hn : n <> 0%nat) by (unfold n; by destruct (vnodes r)).
    rewrite (proj2 (Nat.eqb_neq n 0) Hn). split_and!; try lia.
    + intros i Hi. apply Hb. lia.
    + intros i Hi. apply Ha; lia.
    + cbn [mbind option_bind fst]. f_equal. destruct (Z.leb_spec (Z.of_nat n) lo).
      * rewrite (proj2 (Nat.eqb_eq _ _)) by lia. done.
      * rewrite (proj2 (Nat.eqb_neq _ _)) by lia. lia.
Qed.

Lemma get_node_spec r key : ring_ok r -> vnodes r <> [] ->
  exists p, successor (points r) (ch_hash_key key) p /\
    ch_ring_get_node r key = Some (0, Some (str_take (CH_MAX_NODE_LEN - 1) p.2)).
Proof.
  intros Hok Hne. pose proof (ro_sorted _ Hok) as Hs. set (h := ch_hash_key key).
  destruct (find_vnode_spec r h Hs Hne) as (k & Hk & Hbelow & Habove & Hfind).
  assert (Hlen : (0 < length (vnodes r))%nat) by (destruct (vnodes r); [done|cbn; lia]).
  set (i := if (k =? length (vnodes r))%nat then 0%nat else k).
  assert (Hi : (i < length (vnodes r))%nat) by (unfold i; destruct (Nat.eqb_spec k (length (vnodes r))); lia).
  exists (point (physical_names r) (vnodes r !!! i)). split.
  - split; [by apply list_elem_of_fmap_2, list_elem_of_lookup_total_2|]. cbn [fst point].
    assert (Hall : forall P : Z -> Prop, (forall j, (j < length (vnodes r))%nat -> P (v_hash (vnodes r !!! j))) ->
      forall q, q ∈ points r -> P q.1).
    { intros P HP q (v & -> & Hv)%list_elem_of_fmap. cbn. apply list_elem_of_lookup_total in Hv as (j & Hj & <-). by apply HP. }
    unfold i. destruct (Nat.eqb_spec k (length (vnodes r))) as [Heq|Hneq].
    + right. split.
      * apply (Hall (fun x => x < h)). intros j Hj. apply Hbelow. lia.
      * apply (Hall (fun x => v_hash (vnodes r !!! 0%nat) <= x)). intros j Hj. apply sorted_lookup; [done|lia].
    + left. split; [apply Habove; lia|]. apply (Hall (fun x => h <= x -> v_hash (vnodes r !!! k) <= x)). intros j Hj Hh.
      destruct (decide (j < k)%nat) as [Hjk|Hjk]; [specialize (Hbelow j Hjk); lia|apply sorted_lookup; [done|lia]].
  - unfold ch_ring_get_node. rewrite (proj2 (Nat.eqb_neq _ _)) by lia. fold h. rewrite Hfind. cbn [mbind option_bind].
    unfold out_name, i. cbn [point snd]. destruct (_ =? _)%nat; by rewrite ?Nat2Z.id.
Qed.

(** ** Changes keep the ring well formed *)

Context (Hsort : qsort_sorts).

Lemma qsort_perm l : qsort l ≡ₚ l.
Proof. apply Hsort. Qed.

Lemma point_app names names' v : (v_physical v < length names)%nat -> point (names ++ names') v = point names v.
Proof. intros Hv. unfold point. by rewrite lookup_total_app_l. Qed.

Lemma points_app names names' l : Forall (fun v => (v_physical v < length names)%nat) l ->
  point (names ++ names') <$> l = point names <$> l.
Proof. intros Hl. apply list_fmap_ext. intros i v Hv. apply point_app. by eapply (Forall_lookup_1 _ _ _ _ Hl). Qed.

Lemma node_vnodes_points names vc name idx : names !! idx = Some name ->
  point names <$> node_vnodes vc name idx = node_points vc name.
Proof.
  intros Hn. unfold node_vnodes, node_points. rewrite <- list_fmap_compose. apply list_fmap_ext. intros i v _.
  unfold point. cbn. by rewrite (list_lookup_total_correct _ _ _ Hn).
Qed.

Lemma node_vnodes_bound vc name idx n : (idx < n)%nat ->
  Forall (fun v => (v_physical v < n)%nat) (node_vnodes vc name idx).
Proof. intros Hi. apply Forall_fmap, Forall_true. by intros. Qed.

Lemma create_ring_ok v : ring_ok (ch_ring_create v).
Proof.
  split; cbn; try done; try constructor. unfold CH_MAX_VIRTUAL_NODES, CH_DEFAULT_VIRTUAL_NODES.
  destruct (Z.ltb_spec 0 v); case_match; zbool; lia.
Qed.

Lemma add_node_ok r name : ring_ok r -> ring_ok (ch_ring_add_node r name).2 /\
  ((name ∈ physical_names r /\ (ch_ring_add_node r name).2 = r) \/
   (name ∉ physical_names r /\ points (ch_ring_add_node r name).2 ≡ₚ points r ++ node_points (virtual_count r) name /\
    physical_names (ch_ring_add_node r name).2 = physical_names r ++ [name])).
Proof.
  intros [Hv Hn Hs Hb Hp]. unfold ch_ring_add_node. destruct (existsb _ _) eqn:He.
  { split; [by split|left]. split; [|done]. apply existsb_exists in He as (x & Hx & Heq).
    apply String.eqb_eq in Heq as <-. by apply list_elem_of_In. }
  assert (Hni : name ∉ physical_names r).
  { intros Hin. apply not_true_iff_false in He. apply He, existsb_exists. exists name.
    split; [by apply list_elem_of_In|apply String.eqb_refl]. }
  cbn [snd]. set (r' := mk_ch _ _ _).
  assert (Hpts : points r' ≡ₚ points r ++ node_points (virtual_count r) name).
  { unfold points, r'. cbn. rewrite qsort_perm, fmap_app, points_app by done.
    rewrite (node_vnodes_points _ _ name); [done|]. by rewrite lookup_app_r, Nat.sub_diag. }
  split; [|by right]. split; cbn; try done.
  - apply NoDup_app. split_and!; [done| |apply NoDup_singleton]. intros x Hx ->%list_elem_of_singleton. done.
  - apply Hsort.
  - rewrite qsort_perm, length_app. cbn. apply Forall_app. split.
    + eapply Forall_impl; [exact Hb|]. cbn. lia.
    + apply node_vnodes_bound. lia.
  - etransitivity; [exact Hpts|]. rewrite bind_app, Hp. cbn. by rewrite app_nil_r.
Qed.

(** Deleting index [target] from the names, and shifting the indices above it. *)
Lemma shift_point names target v : v_physical v <> target -> (v_physical v < length names)%nat -> (target < length names)%nat ->
  point (delete target names) (shift_down target v) = point names v /\
  (v_physical (shift_down target v) < length names - 1)%nat.
Proof.
  intros Hne Hv Ht. unfold point, shift_down. rewrite !list_lookup_total_alt.
  destruct (Nat.ltb_spec target (v_physical v)); cbn; (split; [|lia]); f_equal; f_equal.
  - rewrite list_lookup_delete_ge by lia. f_equal. lia.
  - rewrite list_lookup_delete_lt by lia. done.
Qed.

Lemma remove_points r target x : ring_ok r -> physical_names r !! target = Some x ->
  let kept := List.filter (fun v => negb (v_physical v =? target)%nat) (vnodes r) in
  (point (delete target (physical_names r)) <$> (shift_down target <$> kept)) =
    List.filter (fun p => negb (String.eqb p.2 x)) (points r) /\
  Forall (fun v => (v_physical v < length (physical_names r) - 1)%nat) (shift_down target <$> kept).
Proof.
  intros [Hv Hn Hs Hb Hp] Hx kept. unfold kept, points. clear Hs Hp kept.
  assert (Ht : (target < length (physical_names r))%nat) by by eapply lookup_lt_Some.
  induction Hb as [|v l Hvb Hb [IH1 IH2]]; [done|]. cbn.
  assert (Heq : String.eqb (physical_names r !!! v_physical v) x = (v_physical v =? target)%nat).
  { destruct (Nat.eqb_spec (v_physical v) target) as [Hvt|Hne].
    - rewrite Hvt, (list_lookup_total_correct _ _ _ Hx). apply String.eqb_refl.
    - apply String.eqb_neq. intros He. apply Hne. eapply NoDup_lookup; [exact Hn| |exact Hx].
      rewrite <- He. by apply list_lookup_lookup_total_lt. }
  rewrite Heq. destruct (Nat.eqb_spec (v_physical v) target) as [|Hne]; cbn; [done|].
  destruct (shift_point (physical_names r) target v Hne Hvb Ht) as [H1 H2]. rewrite IH1, H1. split; [done|by constructor].
Qed.

Lemma filter_node_points vc names x : x ∉ names ->
  List.filter (fun p => negb (String.eqb p.2 x)) (names ≫= node_points vc) = names ≫= node_points vc.
Proof.
  intros Hx. apply List.forallb_filter_id, forallb_forall. intros p Hp%list_elem_of_In.
  apply list_elem_of_bind in Hp as (n & Hp & Hn). apply list_elem_of_fmap in Hp as (v & -> & _). cbn.
  apply negb_true_iff, String.eqb_neq. by intros ->.
Qed.

Lemma remove_node_ok r name : ring_ok r -> ring_ok (ch_ring_remove_node r name).2 /\
  (name ∈ physical_names r -> (ch_ring_remove_node r name).1 = 0 /\
     points (ch_ring_remove_node r name).2 ≡ₚ List.filter (fun p => negb (String.eqb p.2 name)) (points r)).
Proof.
  intros Hok. unfold ch_ring_remove_node. destruct (find_idx _ _) as [target|] eqn:Hf.
  2: { split; [done|]. intros Hin. rewrite find_idx_None in Hf. specialize (Hf name Hin). by rewrite String.eqb_refl in Hf. }
  apply find_idx_Some in Hf as (x & Hx & Heq & _). apply String.eqb_eq in Heq as <-. cbn [fst snd].
  destruct (remove_points r target name Hok Hx) as [Hpts Hbound]. destruct Hok as [Hv Hn Hs Hb Hp].
  pose proof (delete_Permutation _ _ _ Hx) as Hdel.
  assert (Hni : name ∉ delete target (physical_names r)) by (rewrite Hdel in Hn; by apply NoDup_cons in Hn as [? _]).
  set (r' := mk_ch _ _ _).
  assert (Hpts' : points r' ≡ₚ List.filter (fun p => negb (String.eqb p.2 name)) (points r)).
  { unfold points at 1. unfold r'. cbn [physical_names vnodes]. by rewrite qsort_perm, Hpts. }
  split; [|by intros _]. split; cbn; try done.
  - rewrite Hdel in Hn. by apply NoDup_cons in Hn as [_ ?].
  - apply Hsort.
  - rewrite qsort_perm. apply lookup_lt_Some in Hx as Hlt. rewrite length_delete by by eexists.
    eapply Forall_impl; [exact Hbound|]. cbn. lia.
  - etransitivity; [exact Hpts'|].
    assert (Hperm : physical_names r ≫= node_points (virtual_count r) ≡ₚ
      node_points (virtual_count r) name ++ (delete target (physical_names r) ≫= node_points (virtual_count r)))
      by (rewrite Hdel at 1; done).
    rewrite (filter_bool_Permutation _ _ _ Hp), (filter_bool_Permutation _ _ _ Hperm), List.filter_app.
    rewrite filter_node_points by done.
    rewrite (filter_all_false _ (node_points _ _)); [done|].
    intros p (v & -> & _)%list_elem_of_fmap. cbn. by rewrite String.eqb_refl.
Qed.

Lemma rebalance_points vc pre l : 
  point (pre ++ l) <$> mjoin (imap (fun i name => node_vnodes vc name (length pre + i)) l) = l ≫= node_points vc /\
  Forall (fun v => (v_physical v < length (pre ++ l))%nat) (mjoin (imap (fun i name => node_vnodes vc name (length pre + i)) l)).
Proof.
  revert pre. induction l as [|x l IH]; intros pre; [done|].
  rewrite imap_cons. change (mjoin (?a :: ?b)) with (a ++ mjoin b).
  change ((x :: l) ≫= node_points vc) with (node_points vc x ++ (l ≫= node_points vc)).
  destruct (IH (pre ++ [x])) as [IH1 IH2]. rewrite <- app_assoc in IH1, IH2. cbn [app] in IH1, IH2.
  assert (Hext : imap (fun i name => node_vnodes vc name (length (pre ++ [x]) + i)) l =
    imap ((fun i name => node_vnodes vc name (length pre + i)) ∘ S) l).
  { apply imap_ext. intros i y _. cbn. f_equal. rewrite length_app. cbn. lia. }
  rewrite Hext in IH1, IH2. split.
  - rewrite fmap_app, IH1. f_equal. rewrite Nat.add_0_r. apply node_vnodes_points. by rewrite lookup_app_r, Nat.sub_diag.
  - apply Forall_app. split; [|done]. apply node_vnodes_bound. rewrite length_app. cbn. lia.
Qed.

Lemma rebalance_ok r : ring_ok r -> ring_ok (ch_ring_rebalance r) /\ points (ch_ring_rebalance r) ≡ₚ points r.
Proof.
  intros Hok. unfold ch_ring_rebalance. destruct (_ =? 0)%nat; [done|]. destruct Hok as [Hv Hn Hs Hb Hp].
  destruct (rebalance_points (virtual_count r) [] (physical_names r)) as [H1 H2]. cbn [app length Nat.add] in H1, H2.
  assert (Hpts : points (mk_ch (virtual_count r) (physical_names r)
    (qsort (mjoin (imap (fun i name => node_vnodes (virtual_count r) name i) (physical_names r)))))
    ≡ₚ physical_names r ≫= node_points (virtual_count r)).
  { unfold points. cbn [physical_names vnodes]. by rewrite qsort_perm, H1. }
  split; [|by rewrite Hpts, Hp]. split; try done; cbn; [apply Hsort|by rewrite qsort_perm].
Qed.
End ring.

(** ** Histories: the rings a program can build *)

Inductive ch_op := OpAdd (name : string) | OpRemove (name : string) | OpRebalance.

Definition ch_step (qsort : list ch_vnode -> list ch_vnode) (r : ch_ring) (op : ch_op) : ch_ring :=
  match op with
  | OpAdd name => (ch_ring_add_node qsort r name).2
  | OpRemove name => (ch_ring_remove_node qsort r name).2
  | OpRebalance => ch_ring_rebalance qsort r
  end.
Definition ch_history (qsort : list ch_vnode -> list ch_vnode) (v : Z) (ops : list ch_op) : ch_ring :=
  foldl (ch_step qsort) (ch_ring_create v) ops.

(** A [qsort] for the examples. *)
Definition by_hash (a b : ch_vnode) : Prop := ch_vnode_cmp a b <= 0.
#[export] Instance by_hash_dec a b : Decision (by_hash a b) := Z.le_dec _ _.
#[export] Instance by_hash_trans : Transitive by_hash.
Proof. intros a b c. unfold by_hash. rewrite !cmp_le. lia. Qed.
#[export] Instance by_hash_total : Total by_hash.
Proof. intros a b. unfold by_hash. rewrite !cmp_le. lia. Qed.
Definition a_qsort : list ch_vnode -> list ch_vnode := merge_sort by_hash.

Lemma a_qsort_sorts : qsort_sorts a_qsort.
Proof.
  intros l. split; [apply merge_sort_Permutation|].
  apply (StronglySorted_merge_sort by_hash).
Qed.

Lemma history_ok qsort v ops : qsort_sorts qsort -> ring_ok (ch_history qsort v ops).
Proof.
  intros Hq. unfold ch_history. apply (foldl_prefix_inv (fun _ r => ring_ok r)); [by apply create_ring_ok|].
  intros _ op _ r _ Hr. destruct op as [name|name|]; cbn.
  - by apply add_node_ok.
  - by apply remove_node_ok.
  - by apply rebalance_ok.
Qed.

Lemma vnodes_nil r : ring_ok r -> vnodes r = [] <-> physical_names r = [].
Proof.
  intros [Hv _ _ Hb Hp]. split.
  - intros He. unfold points in Hp. rewrite He in Hp. symmetry in Hp. apply Permutation_nil_r in Hp.
    destruct (physical_names r) as [|x l]; [done|]. cbn in Hp. unfold node_points in Hp.
    rewrite seqZ_cons in Hp by lia. done.
  - intros He. rewrite He in Hb. destruct (vnodes r) as [|v l]; [done|].
    apply Forall_cons in Hb as [H _]. cbn in H. lia.
Qed.

(** ** The successor of a hash *)

Lemma successor_perm ps ps' h p : ps ≡ₚ ps' -> successor ps h p -> successor ps' h p.
Proof. intros He. unfold successor. by setoid_rewrite He. Qed.

Lemma successor_subset ps ps' h p : ps' ⊆ ps -> p ∈ ps' -> successor ps h p -> successor ps' h p.
Proof. intros Hs Hp [_ [[H1 H2]|[H1 H2]]]; (split; [done|]); [left|right]; split; eauto. Qed.

Lemma successor_unique ps h p q : collision_free ps -> successor ps h p -> successor ps h q -> p.2 = q.2.
Proof.
  intros Hc [Hp Hp'] [Hq Hq']. apply Hc; try done.
  destruct Hp' as [[H1 H2]|[H1 H2]], Hq' as [[H3 H4]|[H3 H4]].
  - specialize (H2 q Hq H3). specialize (H4 p Hp H1). lia.
  - specialize (H3 p Hp). lia.
  - specialize (H1 q Hq). lia.
  - specialize (H2 q Hq). specialize (H4 p Hp). lia.
Qed.

(** ** Properties *)

(** C6: after any history of additions, removals and rebalances, an empty ring
    answers -1, and otherwise [ch_ring_get_node] names the node whose virtual node
    is the first clockwise from the key's hash, among exactly
    [virtual_count] points per live node. *)
Theorem ch_ring_get_node_correct qsort v ops key : qsort_sorts qsort ->
  let r := ch_history qsort v ops in
  (physical_names r = [] -> ch_ring_get_node r key = Some (-1, None)) /\
  (physical_names r <> [] -> exists p,
     successor (physical_names r ≫= node_points (virtual_count r)) (ch_hash_key key) p /\
     ch_ring_get_node r key = Some (0, Some (str_take (CH_MAX_NODE_LEN - 1) p.2))).
Proof.
  intros Hq r. pose proof (history_ok qsort v ops Hq) as Hok. fold r in Hok. rewrite <- (vnodes_nil r Hok). split.
  - intros He. unfold ch_ring_get_node. by rewrite He.
  - intros Hne. destruct (get_node_spec r key Hok Hne) as (p & Hp & Hg). exists p. split; [|done].
    by eapply successor_perm, Hp; apply ro_points.
Qed.

Lemma ch_ring_get_node_correct_witness :
  ch_ring_get_node (ch_history a_qsort 3 [OpAdd "a"; OpAdd "b"; OpAdd "c"; OpRemove "b"]) "key" = Some (0, Some "c"%string) /\
  exists p, successor (["a"; "c"]%string ≫= node_points 3) (ch_hash_key "key") p /\ p.2 = "c"%string.
Proof.
  destruct (ch_ring_get_node_correct a_qsort 3 [OpAdd "a"; OpAdd "b"; OpAdd "c"; OpRemove "b"] "key" a_qsort_sorts) as [_ H].
  destruct H as (p & Hp & Hg); [vm_compute; discriminate|].
  assert (Hc : ch_ring_get_node (ch_history a_qsort 3 [OpAdd "a"; OpAdd "b"; OpAdd "c"; OpRemove "b"]) "key" =
    Some (0, Some "c"%string)) by (vm_compute; reflexivity).
  split; [exact Hc|]. rewrite Hc in Hg. exists p. split; [exact Hp|].
  destruct Hp as [Hin _]. apply list_elem_of_bind in Hin as (n & Hn & Hm).
  apply list_elem_of_fmap in Hn as (k & -> & _). cbn in *.
  change (physical_names _) with ["a"; "c"]%string in Hm.
  apply list_elem_of_In in Hm. destruct Hm as [<-|[<-|[]]]; [|reflexivity]. vm_compute in Hg. discriminate Hg.
Defined.

(** The owner before a change, and after it when its points are still there. *)
Lemma owner_kept r r' key p n : ring_ok r -> ring_ok r' -> collision_free (points r') ->
  successor (points r') (ch_hash_key key) p -> vnodes r' <> [] ->
  p.2 = n -> ch_ring_get_node r' key = Some (0, Some (str_take (CH_MAX_NODE_LEN - 1) n)).
Proof.
  intros _ Hok Hc Hp Hne <-. destruct (get_node_spec r' key Hok Hne) as (q & Hq & ->).
  by rewrite (successor_unique _ _ _ _ Hc Hp Hq).
Qed.

Lemma collision_free_subset ps ps' : ps' ⊆ ps -> collision_free ps -> collision_free ps'.
Proof. intros Hs Hc p q Hp Hq. apply Hc; auto. Qed.

(** Consistent hashing moves as few keys as possible.  When no two nodes have
    colliding points, removing a node moves only the keys that node owned, and
    adding one moves keys to the new node only. *)
Theorem ch_minimal_disruption qsort v ops x key : qsort_sorts qsort ->
  let r := ch_history qsort v ops in
  collision_free (points r) -> physical_names r <> [] ->
  (forall n, ch_ring_get_node r key = Some (0, Some n) -> n <> str_take (CH_MAX_NODE_LEN - 1) x ->
     ch_ring_get_node (ch_ring_remove_node qsort r x).2 key = Some (0, Some n)) /\
  (ch_ring_get_node (ch_ring_add_node qsort r x).2 key = ch_ring_get_node r key \/
   ch_ring_get_node (ch_ring_add_node qsort r x).2 key = Some (0, Some (str_take (CH_MAX_NODE_LEN - 1) x))).
Proof.
  intros Hq r Hc Hne. pose proof (history_ok qsort v ops Hq) as Hok. fold r in Hok. rewrite <- (vnodes_nil r Hok) in Hne.
  destruct (get_node_spec r key Hok Hne) as (p & Hp & Hg). rewrite Hg. split.
  - intros n [= <-] Hn. destruct (remove_node_ok qsort Hq r x Hok) as [Hok' Hpts].
    destruct (decide (x ∈ physical_names r)) as [Hx|Hx].
    2: { unfold ch_ring_remove_node. rewrite (proj2 (find_idx_None _ _)); [done|].
         intros y Hy. apply String.eqb_neq. by intros ->. }
    destruct (Hpts Hx) as [_ Hpts']. set (r' := (ch_ring_remove_node qsort r x).2) in *.
    assert (Hsub : points r' ⊆ points r).
    { intros q. rewrite Hpts', list_elem_of_In, List.filter_In, <- list_elem_of_In. tauto. }
    assert (Hin : p ∈ points r').
    { rewrite Hpts', list_elem_of_In, List.filter_In, <- list_elem_of_In. split; [apply Hp|].
      apply negb_true_iff, String.eqb_neq. by intros <-. }
    apply (owner_kept r r' key p); try done.
    + by eapply collision_free_subset.
    + by eapply successor_subset.
    + intros He. unfold points in Hin. rewrite He in Hin. by apply not_elem_of_nil in Hin.
  - destruct (add_node_ok qsort Hq r x Hok) as [Hok' [[_ ->]|(Hx & Hpts & _)]]; [by left|].
    set (r' := (ch_ring_add_node qsort r x).2) in *.
    assert (Hne' : vnodes r' <> []).
    { intros He. unfold points in Hpts. rewrite He in Hpts. symmetry in Hpts. apply Permutation_nil_r, app_nil in Hpts as [Hpts _].
      by apply fmap_nil_inv in Hpts. }
    destruct (get_node_spec r' key Hok' Hne') as (q & Hq' & ->).
    destruct (decide (q ∈ points r)) as [Hin|Hin].
    + left. rewrite (successor_unique (points r) (ch_hash_key key) q p); try done.
      eapply successor_subset; [|exact Hin|exact Hq']. intros y Hy. rewrite Hpts. apply elem_of_app. by left.
    + right. destruct Hq' as [Hq' _]. rewrite Hpts in Hq'. apply elem_of_app in Hq' as [|Hq']; [done|].
      by apply list_elem_of_fmap in Hq' as (k & -> & _).
Qed.

(** Two runs of points without a shared hash. *)
Definition collision_freeb (ps : list (Z * string)) : bool :=
  forallb (fun p => forallb (fun q => implb (p.1 =? q.1) (String.eqb p.2 q.2)) ps) ps.
Lemma collision_freeb_sound ps : collision_freeb ps = true -> collision_free ps.
Proof.
  unfold collision_freeb. rewrite forallb_forall. intros H p q Hp%list_elem_of_In Hq%list_elem_of_In Heq.
  specialize (H p Hp). rewrite forallb_forall in H. specialize (H q Hq).
  rewrite Heq, Z.eqb_refl in H. by apply String.eqb_eq.
Qed.

Lemma ch_minimal_disruption_witness :
  ch_ring_get_node (ch_ring_remove_node a_qsort (ch_history a_qsort 3 [OpAdd "a"; OpAdd "b"; OpAdd "c"]) "b").2 "key" =
    Some (0, Some "c"%string).
Proof.
  apply (ch_minimal_disruption a_qsort 3 [OpAdd "a"; OpAdd "b"; OpAdd "c"] "b" "key" a_qsort_sorts).
  - apply collision_freeb_sound. vm_compute. reflexivity.
  - vm_compute. discriminate.
  - vm_compute. reflexivity.
  - vm_compute. discriminate.
Defined.

(** ** Replica sets *)

(** The node of the [i]-th virtual node of the walk. *)
Definition passed (r : ch_ring) (start i : Z) : nat :=
  v_physical (vnodes r !!! Z.to_nat ((start + i) mod Z.of_nat (length (vnodes r)))).

(** After the rounds [pre] of the walk: the nodes found are distinct, marked, and
    unless there are enough of them already every node passed is among them. *)
Record walk_ok (r : ch_ring) (req start : Z) (pre : list Z) (s : list bool * list nat) : Prop := {
  wo_seen : length s.1 = length (physical_names r);
  wo_marked : forall pi, (pi < length (physical_names r))%nat -> s.1 !!! pi = true <-> pi ∈ s.2;
  wo_distinct : NoDup s.2;
  wo_bound : forall pi, pi ∈ s.2 -> (pi < length (physical_names r))%nat;
  wo_count : Z.of_nat (length s.2) <= Z.max 0 req;
  wo_all : req <= Z.of_nat (length s.2) \/ forall i, i ∈ pre ->
     passed r start i ∈ s.2;
}.

Lemma nodes_round_ok r req start pre i s : ring_ok r -> vnodes r <> [] ->
  walk_ok r req start pre s -> walk_ok r req start (pre ++ [i]) (nodes_round r req start s i).
Proof.
  intros Hok Hne [H1 H2 H3 H4 H5 H6]. unfold nodes_round.
  assert (Hn : (0 < length (vnodes r))%nat) by (destruct (vnodes r); [done|cbn; lia]).
  destruct (Z.ltb_spec (Z.of_nat (length s.2)) req) as [Hlt|Hge]; [|split; auto; left; lia].
  change (v_physical _) with (passed r start i). set (pi := passed r start i).
  assert (Hpi : (pi < length (physical_names r))%nat).
  { eapply (Forall_forall (fun v => (v_physical v < length (physical_names r))%nat)); [apply (ro_bound _ Hok)|].
    apply list_elem_of_lookup_total_2. pose proof (Z.mod_pos_bound (start + i) (Z.of_nat (length (vnodes r)))). lia. }
  assert (Hall : forall l : list nat, (forall j, j ∈ pre -> passed r start j ∈ l) ->
    pi ∈ l -> forall j, j ∈ pre ++ [i] -> passed r start j ∈ l).
  { intros l Hl Hin j [Hj| ->%list_elem_of_singleton]%elem_of_app; auto. }
  destruct H6 as [|H6]; [lia|].
  destruct (s.1 !!! pi : bool) eqn:Hs.
  - split; auto. right. apply Hall; [done|by apply H2].
  - assert (Hni : pi ∉ s.2) by (intros Hin; apply H2 in Hin; [congruence|done]).
    split; cbn [fst snd].
    + by rewrite length_insert.
    + intros qi Hqi. rewrite elem_of_app, list_elem_of_singleton. destruct (decide (qi = pi)) as [->|Hqp].
      * rewrite list_lookup_total_insert_eq by lia. tauto.
      * rewrite list_lookup_total_insert_ne by done. rewrite H2 by done. tauto.
    + apply NoDup_app. split_and!; [done| |apply NoDup_singleton]. intros y Hy ->%list_elem_of_singleton. done.
    + intros qi [Hqi| ->%list_elem_of_singleton]%elem_of_app; auto.
    + rewrite length_app. cbn. lia.
    + right. apply Hall; [|apply elem_of_app; right; by apply list_elem_of_singleton].
      intros j Hj. apply elem_of_app. left. by apply H6.
Qed.

Lemma walk_complete r req start s : ring_ok r -> vnodes r <> [] -> req <= Z.of_nat (length (physical_names r)) ->
  walk_ok r req start (seqZ 0 (Z.of_nat (length (vnodes r)))) s -> Z.of_nat (length s.2) = Z.max 0 req.
Proof.
  intros Hok Hne Hreq [H1 H2 H3 H4 H5 [|H6]]; [lia|].
  assert (Hall : forall x, (x < length (physical_names r))%nat -> x ∈ s.2).
  { intros x Hx. assert (Hv : exists k, (k < length (vnodes r))%nat /\ v_physical (vnodes r !!! k) = x).
    { destruct Hok as [Hvc Hn _ Hb Hp]. destruct (lookup_lt_is_Some_2 _ _ Hx) as [name Hname].
      assert (Hin : (ch_hash_vnode (ch_hash_key name) 0, name) ∈ points r).
      { rewrite Hp. apply list_elem_of_bind. exists name. split; [|by eapply list_elem_of_lookup_2].
        apply (list_elem_of_fmap_2 (fun v => (ch_hash_vnode (ch_hash_key name) v, name))). apply elem_of_seqZ. lia. }
      apply list_elem_of_fmap in Hin as (w & Heq & Hw). pose proof (proj1 (Forall_forall _ _) Hb w Hw) as Hwb.
      apply list_elem_of_lookup_total in Hw as (k & Hk & <-). exists k. split; [done|].
      unfold point in Heq. injection Heq as _ Heq. eapply NoDup_lookup; [exact Hn| |exact Hname].
      rewrite Heq. by apply list_lookup_lookup_total_lt. }
    destruct Hv as (k & Hk & <-).
    unfold passed in H6. specialize (H6 ((Z.of_nat k - start) mod Z.of_nat (length (vnodes r)))).
    rewrite Zplus_mod_idemp_r in H6. replace (start + (Z.of_nat k - start)) with (Z.of_nat k) in H6 by lia.
    rewrite (Z.mod_small (Z.of_nat k)), Nat2Z.id in H6 by lia. apply H6, elem_of_seqZ.
    pose proof (Z.mod_pos_bound (Z.of_nat k - start) (Z.of_nat (length (vnodes r)))). lia. }
  assert (length (seq 0 (length (physical_names r))) <= length s.2)%nat.
  { apply submseteq_length, NoDup_submseteq; [apply NoDup_seq|]. intros x [_ Hx]%elem_of_seq. by apply Hall. }
  rewrite length_seq in *. lia.
Qed.

(** Asked for [req_n] replicas, [ch_ring_get_nodes] returns as many different
    live nodes as were asked for, or all of them when there are fewer; its loop
    around the ring never stops short. *)
Theorem ch_ring_get_nodes_correct qsort v ops key req_n : qsort_sorts qsort -> 0 < req_n ->
  let r := ch_history qsort v ops in
  exists names, NoDup names /\ names ⊆ physical_names r /\
    Z.of_nat (length names) = Z.min req_n (ch_ring_size r) /\
    ch_ring_get_nodes r key req_n = Some (Z.of_nat (length names), str_take (CH_MAX_NODE_LEN - 1) <$> names).
Proof.
  intros Hq Hreq r. pose proof (history_ok qsort v ops Hq) as Hok. fold r in Hok. unfold ch_ring_get_nodes, ch_ring_size.
  rewrite (proj2 (Z.leb_gt _ _)) by lia. destruct (Nat.eqb_spec (length (vnodes r)) 0) as [He|Hne].
  { exists []. apply nil_length_inv in He. apply (vnodes_nil r Hok) in He as ->. cbn.
    split_and!; [constructor|done|lia|done]. }
  assert (Hne' : vnodes r <> []) by (intros He; by rewrite He in Hne).
  destruct (find_vnode_spec r (ch_hash_key key) (ro_sorted _ Hok) Hne') as (k & _ & _ & _ & ->). cbn [mbind option_bind].
  set (start := if (_ =? _)%nat then 0 else _). set (req := Z.min req_n _).
  set (s := foldl _ _ _).
  assert (Hw : walk_ok r req start (seqZ 0 (Z.of_nat (length (vnodes r)))) s).
  { apply (foldl_prefix_inv (walk_ok r req start)).
    - split; cbn.
      + apply length_replicate.
      + intros pi Hpi. rewrite lookup_total_replicate_2 by done. rewrite elem_of_nil. done.
      + constructor.
      + intros pi Hpi. by apply not_elem_of_nil in Hpi.
      + lia.
      + right. intros i Hi. by apply not_elem_of_nil in Hi.
    - intros pre i post a' _ Ha'. by apply nodes_round_ok. }
  assert (Hlen : Z.of_nat (length s.2) = Z.max 0 req) by (apply (walk_complete r req start); try done; lia).
  exists ((fun pi => physical_names r !!! pi) <$> s.2). rewrite length_fmap. split_and!.
  - apply NoDup_fmap_2_strong; [|apply Hw]. intros x y Hx Hy Hxy.
    eapply NoDup_lookup; [apply (ro_names _ Hok)| |].
    + apply list_lookup_lookup_total_lt. by apply (wo_bound _ _ _ _ _ Hw).
    + rewrite Hxy. apply list_lookup_lookup_total_lt. by apply (wo_bound _ _ _ _ _ Hw).
  - intros n (pi & -> & Hpi)%list_elem_of_fmap. apply list_elem_of_lookup_total_2. by apply (wo_bound _ _ _ _ _ Hw).
  - lia.
  - by rewrite <- list_fmap_compose.
Qed.

Lemma ch_ring_get_nodes_correct_witness :
  ch_ring_get_nodes (ch_history a_qsort 3 [OpAdd "a"; OpAdd "b"; OpAdd "c"]) "key" 2 = Some (2, ["c"; "b"]%string) /\
  exists names, NoDup names /\ Z.of_nat (length names) = 2 /\
    ch_ring_get_nodes (ch_history a_qsort 3 [OpAdd "a"; OpAdd "b"; OpAdd "c"]) "key" 2 =
      Some (2, str_take (CH_MAX_NODE_LEN - 1) <$> names).
Proof.
  split; [vm_compute; reflexivity|].
  destruct (ch_ring_get_nodes_correct a_qsort 3 [OpAdd "a"; OpAdd "b"; OpAdd "c"] "key" 2 a_qsort_sorts eq_refl)
    as (names & Hnd & _ & Hlen & Hg).
  assert (Hl : Z.of_nat (length names) = 2) by (rewrite Hlen; vm_compute; reflexivity).
  exists names. rewrite Hl in Hg. repeat split; assumption.
Defined.
