(* ===== verification/Jwt.v ===== *)
(** Model of [mini-auth-security/src/jwt_auth.c]: JSON Web Tokens.

    The HMAC of OpenSSL is a parameter, [hmac key data].  The C code writes into
    buffers on the stack without checking their size; a definition that would
    write (or read) past the end of one returns [None]. *)

From S2P Require Import Prelude Bytes.

Definition JWT_MAX_HEADER_LEN : nat := 256.
Definition JWT_MAX_PAYLOAD_LEN : nat := 2048.
Definition JWT_MAX_TOKEN_LEN : nat := 4096.
Definition JWT_MAX_SECRET_LEN : nat := 512.
Definition JWT_MAX_ISS_LEN : nat := 128.
Definition JWT_MAX_SUB_LEN : nat := 128.
Definition JWT_MAX_AUD_LEN : nat := 256.

Inductive JwtAlgorithm := JWT_ALG_NONE | JWT_ALG_HS256 | JWT_ALG_HS384 | JWT_ALG_HS512
  | JWT_ALG_RS256 | JWT_ALG_RS384 | JWT_ALG_RS512.

Record JwtClaims := mk_claims {
  iss : list Z; sub : list Z; aud : list Z; exp : Z; iat : Z; nbf : Z; jti : list Z; scope : list Z }.
(** [secret_len] is the length of [secret]. *)
Record JwtSigningKey := mk_key { secret : list Z; algorithm : JwtAlgorithm }.
(** The functions [sign_func] and [verify_func] point to. *)
Inductive jwt_suite := suite_hs256 | suite_rs256_sim.
Record JwtEngine := mk_engine { key : JwtSigningKey; sign_func : option jwt_suite; verify_func : option jwt_suite }.

(** ** base64url *)

Definition B64URL : list Z := str_bytes "ABCDEFGHIJKLMNOPQRSTUVWXYZabcdefghijklmnopqrstuvwxyz0123456789-_".

Definition b64_char (x : Z) : Z := B64URL !!! Z.to_nat (Z.land x 63).
Definition quad (a b c : Z) : list Z :=
  let triple := Z.lor (Z.lor (Z.shiftl a 16) (Z.shiftl b 8)) c in
  [b64_char (Z.shiftr triple 18); b64_char (Z.shiftr triple 12); b64_char (Z.shiftr triple 6); b64_char triple].
(** Missing bytes of the last group read as 0. *)
Fixpoint encode_loop (src : list Z) : list Z :=
  match src with
  | a :: b :: c :: src' => quad a b c ++ encode_loop src'
  | [a; b] => quad a b 0
  | [a] => quad a 0 0
  | [] => []
  end.
(** The loop writes whole groups before the padding is dropped. *)
Definition jwt_base64url_encode (src : list Z) (dst_size : nat) : option (list Z) :=
  let out := encode_loop src in
  let j := (length out - (3 - length src mod 3) mod 3)%nat in
  if (dst_size <? length out)%nat || (dst_size <=? j)%nat then None else Some (take j out).

Definition decode_table : list Z :=
  foldl (fun t i => <[Z.to_nat (B64URL !!! Z.to_nat i) := i]> t) (replicate 256 (-1)) (seqZ 0 64).
Definition lookup_char (c : Z) : Z := decode_table !!! Z.to_nat c.

(** One group; each byte is written only while there is room. *)
Definition decode_group (cap : nat) (dst : list Z) (v0 v1 v2 v3 : Z) : option (list Z) :=
  if (v0 <? 0) || (v1 <? 0) || (v2 <? 0) || (v3 <? 0) then None
  else
    let triple := Z.lor (Z.lor (Z.lor (Z.shiftl v0 18) (Z.shiftl v1 12)) (Z.shiftl v2 6)) v3 in
    Some (take (Nat.max cap (length dst))
      (dst ++ [Z.land (Z.shiftr triple 16) 255; Z.land (Z.shiftr triple 8) 255; Z.land triple 255])).
Fixpoint decode_loop (cap : nat) (src : list Z) (dst : list Z) : option (list Z) :=
  match src with
  | a :: b :: c :: d :: src' =>
      dst' ← decode_group cap dst (lookup_char a) (lookup_char b) (lookup_char c) (lookup_char d);
      decode_loop cap src' dst'
  | [a; b; c] => decode_group cap dst (lookup_char a) (lookup_char b) (lookup_char c) 0
  | [a; b] => decode_group cap dst (lookup_char a) (lookup_char b) 0 0
  | [a] => decode_group cap dst (lookup_char a) 0 0 0
  | [] => Some dst
  end.
(** The bytes written and the length stored in [*dst_len], in [size_t]
    arithmetic; [None] is the return value -1, which leaves [*dst_len] alone. *)
Definition jwt_base64url_decode (src : list Z) (cap : nat) : option (list Z * Z) :=
  let pad := Z.of_nat ((4 - length src mod 4) mod 4) in
  dst ← decode_loop cap src [];
  Some (dst, u64 (Z.of_nat (length dst) - pad)).

(** ** Signatures *)

Definition jwt_alg_name (alg : JwtAlgorithm) : list Z :=
  match alg with
  | JWT_ALG_NONE => str_bytes "none"
  | JWT_ALG_HS256 => str_bytes "HS256"
  | JWT_ALG_HS384 => str_bytes "HS384"
  | JWT_ALG_HS512 => str_bytes "HS512"
  | JWT_ALG_RS256 => str_bytes "RS256"
  | JWT_ALG_RS384 => str_bytes "RS384"
  | JWT_ALG_RS512 => str_bytes "RS512"
  end.

Definition jwt_engine_init (alg : JwtAlgorithm) (secret : option (list Z)) : JwtEngine :=
  let key := mk_key (match secret with
                     | Some s => if (length s <=? JWT_MAX_SECRET_LEN)%nat then s else []
                     | None => [] end) alg in
  let suite := match alg with
               | JWT_ALG_HS256 | JWT_ALG_HS384 | JWT_ALG_HS512 => Some suite_hs256
               | JWT_ALG_RS256 | JWT_ALG_RS384 | JWT_ALG_RS512 => Some suite_rs256_sim
               | JWT_ALG_NONE => None
               end in
  mk_engine key suite suite.

Definition jwt_claims_set_defaults (now : Z) : JwtClaims := mk_claims [] [] [] (s64 (now + 3600)) now now [] [].

(** ** Claims as JSON *)

(** [j] is the number of characters written. *)
Fixpoint json_escape_str (src : list Z) (j dst_size : nat) : list Z :=
  match src with
  | [] => []
  | c :: src' =>
      if (j + 2 <? dst_size)%nat then
        if (c =? 34) || (c =? 92) then 92 :: c :: json_escape_str src' (j + 2) dst_size
        else c :: json_escape_str src' (j + 1) dst_size
      else []
  end.

Definition quoted (s : list Z) : list Z := 34 :: s ++ [34].
Definition str_field (k : string) (v : list Z) : list Z := quoted (str_bytes k) ++ 58 :: quoted v.
Definition int_field (k : string) (v : Z) : list Z := quoted (str_bytes k) ++ 58 :: print_lld v.

(** The text; it has fewer characters than the buffer of [JWT_MAX_PAYLOAD_LEN]
    bytes it is printed into. *)
Definition build_claims_json (c : JwtClaims) : list Z :=
  let esc_iss := json_escape_str (iss c) 0 (JWT_MAX_ISS_LEN * 2) in
  let esc_sub := json_escape_str (sub c) 0 (JWT_MAX_SUB_LEN * 2) in
  let esc_aud := json_escape_str (aud c) 0 (JWT_MAX_AUD_LEN * 2) in
  let esc_jti := json_escape_str (jti c) 0 128 in
  let esc_scope := json_escape_str (scope c) 0 512 in
  [123] ++ str_field "iss" esc_iss ++ [44] ++ str_field "sub" esc_sub ++ [44] ++ str_field "aud" esc_aud ++ [44]
    ++ int_field "exp" (exp c) ++ [44] ++ int_field "iat" (iat c) ++ [44] ++ int_field "nbf" (nbf c) ++ [44]
    ++ str_field "jti" esc_jti ++ [44] ++ str_field "scope" esc_scope ++ [125].

(** [None]: the number does not fit; the field is left alone ([Some None]) when
    the key is absent. *)
Definition parse_json_int (json : list Z) (k : string) : option (option Z) :=
  match strstr_after (truncated 128 (quoted (str_bytes k) ++ [58])) json with
  | Some p => v ← atoll p; Some (Some v)
  | None => Some None
  end.
Definition parse_json_str (json : list Z) (k : string) (val_size : nat) : option (list Z) :=
  p ← strstr_after (truncated 128 (quoted (str_bytes k) ++ [58; 34])) json;
  v ← strchr_before 34 p;
  Some (truncated val_size v).

Definition header_json (alg : JwtAlgorithm) : list Z :=
  [123] ++ str_field "alg" (jwt_alg_name alg) ++ [44] ++ str_field "typ" (str_bytes "JWT") ++ [125].

Definition signing_input (header_b64 payload_b64 : list Z) : list Z :=
  truncated JWT_MAX_TOKEN_LEN (header_b64 ++ 46 :: payload_b64).

Section jwt.
Context (hmac : list Z -> list Z -> list Z).

Definition jwt_hs256_sign (data : list Z) (k : JwtSigningKey) : list Z := hmac (secret k) data.
Definition jwt_hs256_verify (data : list Z) (k : JwtSigningKey) (sig : list Z) (sig_len : Z) : bool :=
  let computed := hmac (secret k) data in
  if Z.of_nat (length computed) =? sig_len then bool_decide (computed = take (Z.to_nat sig_len) sig) else false.
Definition jwt_rs256_sign_sim (data : list Z) (k : JwtSigningKey) : list Z := hmac (secret k) data.
Definition jwt_rs256_verify_sim (data : list Z) (k : JwtSigningKey) (sig : list Z) (sig_len : Z) : bool :=
  let computed := hmac (secret k) data in
  if Z.of_nat (length computed) =? sig_len then bool_decide (computed = take (Z.to_nat sig_len) sig) else false.

Definition sign (f : jwt_suite) := match f with suite_hs256 => jwt_hs256_sign | suite_rs256_sim => jwt_rs256_sign_sim end.
Definition verify (f : jwt_suite) := match f with suite_hs256 => jwt_hs256_verify | suite_rs256_sim => jwt_rs256_verify_sim end.

(** ** Tokens *)

Definition jwt_encode (eng : JwtEngine) (claims : JwtClaims) (token_size : nat) : option (list Z) :=
  header_b64 ← jwt_base64url_encode (header_json (algorithm (key eng))) JWT_MAX_HEADER_LEN;
  payload_b64 ← jwt_base64url_encode (build_claims_json claims) JWT_MAX_PAYLOAD_LEN;
  let sig := match sign_func eng with
             | Some f => sign f (signing_input header_b64 payload_b64) (key eng)
             | None => []
             end in
  sig_b64 ← jwt_base64url_encode sig 256;
  Some (truncated token_size (header_b64 ++ 46 :: payload_b64 ++ 46 :: sig_b64)).

(** Decodes into a buffer of [cap] bytes and terminates the result with a 0. *)
Definition decode_into (cap : nat) (src : list Z) : option (list Z) :=
  match jwt_base64url_decode src cap with
  | Some (dst, n) => if n <? Z.of_nat cap then Some (cstr (take (Z.to_nat n) dst)) else None
  | None => None
  end.

Definition parse_claims (json : list Z) : option JwtClaims :=
  e ← parse_json_int json "exp"; i ← parse_json_int json "iat"; n ← parse_json_int json "nbf";
  let str k size := default [] (parse_json_str json k size) in
  Some (mk_claims (str "iss"%string JWT_MAX_ISS_LEN) (str "sub"%string JWT_MAX_SUB_LEN) (str "aud"%string JWT_MAX_AUD_LEN)
    (default 0 e) (default 0 i) (default 0 n) (str "jti"%string 64%nat) (str "scope"%string 256%nat)).

(** A negative code or the claims.  A signature that does not decode leaves
    [provided_len] at 128, the size of the buffer. *)
Definition jwt_decode (eng : JwtEngine) (token : list Z) : option (Z + JwtClaims) :=
  if (JWT_MAX_TOKEN_LEN <=? length token)%nat then Some (inl (-1))
  else
    let '(h, rest) := strtok 46 token in
    let '(p, rest) := strtok 46 rest in
    let '(s, _) := strtok 46 rest in
    match h, p with
    | Some header_b64, Some payload_b64 =>
        _ ← decode_into JWT_MAX_HEADER_LEN header_b64;
        json ← decode_into JWT_MAX_PAYLOAD_LEN payload_b64;
        let ok := match verify_func eng, s with
                  | Some f, Some signature_b64 =>
                      let '(provided_sig, provided_len) := default ([], 128) (jwt_base64url_decode signature_b64 128) in
                      verify f (signing_input header_b64 payload_b64) (key eng) provided_sig provided_len
                  | _, _ => true
                  end in
        if ok then inr <$> parse_claims json else Some (inl (-3))
    | _, _ => Some (inl (-2))
    end.

(** [clock] is what [time(NULL)] returns. *)
Definition jwt_validate_expiry (clock : Z) (claims : JwtClaims) (now : Z) : bool :=
  let now := if now =? 0 then clock else now in
  if (0 <? exp claims) && (exp claims <? now) then false
  else if (0 <? nbf claims) && (now <? nbf claims) then false
  else true.
Definition jwt_validate_issuer (claims : JwtClaims) (expected_iss : option (list Z)) : bool :=
  match expected_iss with None | Some [] => true | Some e => bool_decide (iss claims = e) end.
Definition jwt_validate_audience (claims : JwtClaims) (expected_aud : option (list Z)) : bool :=
  match expected_aud with None | Some [] => true | Some e => bool_decide (aud claims = e) end.

Definition jwt_validate_all (clock : Z) (eng : JwtEngine) (token : list Z) (expected_iss expected_aud : option (list Z))
    : option (Z + JwtClaims) :=
  r ← jwt_decode eng token;
  match r with
  | inl rc => Some (inl rc)
  | inr claims =>
      Some (if negb (jwt_validate_expiry clock claims 0) then inl (-10)
            else if negb (jwt_validate_issuer claims expected_iss) then inl (-11)
            else if negb (jwt_validate_audience claims expected_aud) then inl (-12)
            else inr claims)
  end.

Definition jwt_refresh_token (clock : Z) (eng : JwtEngine) (token : list Z) (new_expiry : Z) (size : nat) : option (Z + list Z) :=
  r ← jwt_decode eng token;
  match r with
  | inl rc => Some (inl rc)
  | inr c => inr <$> jwt_encode eng (mk_claims (iss c) (sub c) (aud c) new_expiry clock (nbf c) (jti c) (scope c)) size
  end.
End jwt.

(** ** base64url: decoding what was encoded *)

Lemma B64URL_table :
  forallb (fun i => (lookup_char (B64URL !!! Z.to_nat i) =? i) && (0 <? B64URL !!! Z.to_nat i) &&
    negb (B64URL !!! Z.to_nat i =? 46) && (B64URL !!! Z.to_nat i <? 256)) (seqZ 0 64) = true.
Proof. vm_compute. reflexivity. Qed.

Lemma b64_char_spec x : lookup_char (b64_char x) = x mod 64 /\ char_ok (b64_char x) /\ b64_char x <> 46.
Proof.
  unfold b64_char. rewrite land_63. pose proof (Z.mod_pos_bound x 64 ltac:(lia)) as Hx.
  assert (H : x mod 64 ∈ seqZ 0 64) by (apply elem_of_seqZ; lia).
  apply list_elem_of_In, (proj1 (forallb_forall _ _) B64URL_table) in H. zbool. unfold char_ok. lia.
Qed.

Lemma decode_group_quad cap dst a b c : byte_ok a -> byte_ok b -> byte_ok c -> (length dst + 3 <= cap)%nat ->
  let t := triple_of a b c in
  decode_group cap dst (t / 2 ^ 18 mod 64) (t / 2 ^ 12 mod 64) (t / 2 ^ 6 mod 64) (t mod 64) = Some (dst ++ [a; b; c]).
Proof.
  intros Ha Hb Hc Hcap t. unfold byte_ok in *. unfold decode_group.
  assert (Ht : 0 <= t < 2 ^ 24) by (unfold t, triple_of; lia).
  rewrite !(proj2 (Z.ltb_ge _ 0)) by (apply Z.mod_pos_bound; lia). cbn [orb].
  rewrite sextets_lor by done. pose proof (triple_bytes a b c Ha Hb Hc) as E. cbv zeta in E. fold t in E. rewrite E.
  rewrite take_ge; [done|]. rewrite length_app. cbn. lia.
Qed.

Lemma quad_spec a b c : byte_ok b -> byte_ok c -> 
  let t := triple_of a b c in
  lookup_char <$> quad a b c = [t / 2 ^ 18 mod 64; t / 2 ^ 12 mod 64; t / 2 ^ 6 mod 64; t mod 64].
Proof.
  intros Hb Hc t. unfold quad. rewrite triple_lor by done. fold t. cbn [fmap list_fmap].
  rewrite !(proj1 (b64_char_spec _)), !Z.shiftr_div_pow2 by lia. done.
Qed.

(** The encoding without the padding characters. *)
Fixpoint enc (src : list Z) : list Z :=
  match src with
  | a :: b :: c :: src' => quad a b c ++ enc src'
  | [a; b] => take 3 (quad a b 0)
  | [a] => take 2 (quad a 0 0)
  | [] => []
  end.
Definition pad_of (n : nat) : nat := ((3 - n mod 3) mod 3)%nat.

Lemma pad_of_3 n : pad_of (S (S (S n))) = pad_of n.
Proof. unfold pad_of. f_equal. f_equal. replace (S (S (S n))) with (n + 1 * 3)%nat by lia. apply Nat.Div0.mod_add. Qed.

Lemma encode_loop_length src : (length (encode_loop src) = 4 * ((length src + 2) / 3))%nat.
Proof.
  induction src as [| | |a b c src IH] using list_ind3; try done. cbn [encode_loop].
  rewrite length_app, IH. cbn [length quad].
  replace (S (S (S (length src))) + 2)%nat with ((length src + 2) + 1 * 3)%nat by lia. rewrite Nat.div_add by lia. lia.
Qed.

Lemma enc_length src : (length (enc src) + pad_of (length src) = length (encode_loop src))%nat.
Proof.
  induction src as [| | |a b c src IH] using list_ind3; try done. cbn [encode_loop enc length].
  rewrite !length_app, pad_of_3. cbn [length quad]. lia.
Qed.

Lemma enc_take src : enc src = take (length (encode_loop src) - pad_of (length src)) (encode_loop src).
Proof.
  induction src as [| | |a b c src IH] using list_ind3; try done. cbn [encode_loop enc length].
  rewrite length_app, pad_of_3. cbn [length quad]. pose proof (enc_length src).
  rewrite take_app_ge by (cbn [length quad]; lia). rewrite IH at 1. do 2 f_equal. cbn [length quad]. lia.
Qed.

Lemma enc_pad src : ((4 - length (enc src) mod 4) mod 4 = pad_of (length src))%nat.
Proof.
  induction src as [| | |a b c src IH] using list_ind3; try done. cbn [enc length].
  rewrite length_app, pad_of_3, <- IH. cbn [length quad]. replace (4 + length (enc src))%nat with (length (enc src) + 1 * 4)%nat by lia.
  by rewrite Nat.Div0.mod_add.
Qed.

Lemma enc_chars src : Forall (fun c => char_ok c /\ c <> 46) (enc src).
Proof.
  induction src as [| | |a b c src IH] using list_ind3; cbn; repeat constructor; try apply b64_char_spec. done.
Qed.

Lemma encode_spec src dst_size : (4 * ((length src + 2) / 3) < dst_size)%nat ->
  jwt_base64url_encode src dst_size = Some (enc src).
Proof.
  intros Hsize. unfold jwt_base64url_encode. rewrite encode_loop_length.
  rewrite (proj2 (Nat.ltb_ge _ _)), (proj2 (Nat.leb_gt _ _)) by lia. cbn [orb].
  by rewrite enc_take, encode_loop_length.
Qed.

Lemma decode_loop_enc cap src dst : Forall byte_ok src -> (length dst + length src + pad_of (length src) <= cap)%nat ->
  decode_loop cap (enc src) dst = Some (dst ++ src ++ replicate (pad_of (length src)) 0).
Proof.
  revert dst. induction src as [|a|a b|a b c src IH] using list_ind3; intros dst Hs Hcap.
  - cbn. by rewrite app_nil_r.
  - apply Forall_cons in Hs as [Ha _].
    pose proof (quad_spec a 0 0 ltac:(done) ltac:(done)) as Hq.
    pose proof (decode_group_quad cap dst a 0 0 Ha ltac:(done) ltac:(done) ltac:(cbn in Hcap; lia)) as Hd. cbn zeta in *.
    assert (Hz : triple_of a 0 0 / 2 ^ 6 mod 64 = 0 /\ triple_of a 0 0 mod 64 = 0).
    { unfold triple_of. Z.to_euclidean_division_equations. lia. }
    destruct Hz as [Hz1 Hz2]. rewrite Hz1, Hz2 in Hd. cbn [quad fmap list_fmap] in Hq. injection Hq as Hq0 Hq1 _ _.
    cbn [enc quad take decode_loop]. by rewrite Hq0, Hq1.
  - apply Forall_cons in Hs as [Ha [Hb _]%Forall_cons].
    pose proof (quad_spec a b 0 Hb ltac:(done)) as Hq.
    pose proof (decode_group_quad cap dst a b 0 Ha Hb ltac:(done) ltac:(cbn in Hcap; lia)) as Hd. cbn zeta in *.
    assert (Hz : triple_of a b 0 mod 64 = 0) by (unfold triple_of; Z.to_euclidean_division_equations; lia).
    rewrite Hz in Hd. cbn [quad fmap list_fmap] in Hq. injection Hq as Hq0 Hq1 Hq2 _.
    cbn [enc quad take decode_loop]. by rewrite Hq0, Hq1, Hq2.
  - apply Forall_cons in Hs as [Ha [Hb [Hc Hs]%Forall_cons]%Forall_cons].
    pose proof (quad_spec a b c Hb Hc) as Hq. cbn [length] in Hcap. rewrite pad_of_3 in Hcap.
    pose proof (decode_group_quad cap dst a b c Ha Hb Hc ltac:(lia)) as Hd. cbn zeta in *.
    cbn [quad fmap list_fmap] in Hq. injection Hq as Hq0 Hq1 Hq2 Hq3.
    cbn [enc quad app decode_loop length]. rewrite Hq0, Hq1, Hq2, Hq3, Hd. cbn [mbind option_bind].
    rewrite IH; [|done|rewrite length_app; cbn [length]; lia]. by rewrite pad_of_3, <- app_assoc.
Qed.

Lemma decode_spec cap src : Forall byte_ok src -> (length src + pad_of (length src) <= cap)%nat -> Z.of_nat cap < 2 ^ 64 ->
  jwt_base64url_decode (enc src) cap = Some (src ++ replicate (pad_of (length src)) 0, Z.of_nat (length src)).
Proof.
  intros Hs Hcap H64. unfold jwt_base64url_decode. rewrite decode_loop_enc by done. cbn [mbind option_bind app].
  rewrite enc_pad, length_app, length_replicate. rewrite u64_small by lia. do 2 f_equal. lia.
Qed.

Lemma decode_into_spec cap src : Forall char_ok src -> (length src + 3 < cap)%nat -> Z.of_nat cap < 2 ^ 64 ->
  decode_into cap (enc src) = Some src.
Proof.
  intros Hs Hcap H64. assert (pad_of (length src) < 3)%nat by (apply Nat.mod_upper_bound; lia). unfold decode_into.
  rewrite decode_spec; [|by eapply Forall_impl; [exact Hs|]; unfold char_ok, byte_ok; lia|lia|done].
  rewrite (proj2 (Z.ltb_lt _ _)) by lia. rewrite Nat2Z.id, take_app_length. by rewrite cstr_id.
Qed.

(** ** Reading a field back *)

Inductive json_field := JStr (k v : list Z) | JInt (k : list Z) (z : Z).
Definition field_key (f : json_field) : list Z := match f with JStr k _ | JInt k _ => k end.
Definition render_field (f : json_field) : list Z :=
  match f with JStr k v => quoted k ++ 58 :: quoted v | JInt k z => quoted k ++ 58 :: print_lld z end.
Definition plain (v : list Z) : Prop := Forall (fun c => char_ok c /\ c <> 34 /\ c <> 92) v.
Definition field_ok (f : json_field) : Prop :=
  match f with JStr k v => 34 ∉ k /\ 34 ∉ v | JInt k z => 34 ∉ k end.
Fixpoint render_tail (fs : list json_field) : list Z :=
  match fs with [] => [125] | f :: fs' => 44 :: render_field f ++ render_tail fs' end.
(** A key does not start like anything that follows a quote but a key. *)
Definition key_ok (k : list Z) : Prop := exists x k', k = x :: k' /\ 34 ∉ k /\ x <> 58 /\ x <> 44 /\ x <> 125.

Lemma render_tail_sep fs : exists sep rest, render_tail fs = sep :: rest /\ (sep = 44 \/ sep = 125) /\ is_digit sep = false.
Proof. destruct fs; cbn; eauto 10. Qed.

Lemma print_lld_no_quote z : 34 ∉ print_lld z.
Proof. intros H. pose proof (proj1 (Forall_forall _ _) (print_lld_chars z) _ H) as Hc. cbn in Hc. lia. Qed.

Ltac norm_app := repeat (progress (cbn [app]; rewrite <- ?app_assoc)).

(** A field with another key is passed over. *)
Lemma skip_field k pt f fs : key_ok k -> field_ok f -> k <> field_key f ->
  strstr_after (34 :: k ++ 34 :: 58 :: pt) (render_field f ++ render_tail fs) =
  strstr_after (34 :: k ++ 34 :: 58 :: pt) (render_tail fs).
Proof.
  intros (x & k' & Hk & Hkq & Hx58 & Hx44 & Hx125) Hf Hne.
  destruct (render_tail_sep fs) as (sep & rest & -> & Hsep & _).
  assert (Hpast : forall y s, y <> x -> strstr_after (34 :: k ++ 34 :: 58 :: pt) (34 :: y :: s) =
    strstr_after (34 :: k ++ 34 :: 58 :: pt) (y :: s)).
  { intros y s Hy. apply strstr_after_no. rewrite Hk. cbn. by rewrite (proj2 (Z.eqb_neq x y)). }
  assert (Hkey : forall s, 34 ∉ field_key f -> strstr_after (34 :: k ++ 34 :: 58 :: pt) (34 :: field_key f ++ 34 :: 58 :: s) =
    strstr_after (34 :: k ++ 34 :: 58 :: pt) s).
  { intros s Hfk. rewrite strstr_after_no.
    - rewrite strstr_after_skip, Hpast by done. apply (strstr_after_skip 34 _ [58]). intros H%list_elem_of_singleton. lia.
    - cbn. by apply starts_with_quoted_ne. }
  destruct f as [fk v|fk z]; cbn [field_key field_ok] in *; unfold render_field, quoted; norm_app.
  - destruct Hf as [Hfk Hv]. rewrite Hkey by done. rewrite strstr_after_no.
    + rewrite strstr_after_skip, Hpast by (done || lia). done.
    + cbn. apply starts_with_quoted; [done..|]. lia.
  - rewrite Hkey by done. apply strstr_after_skip, print_lld_no_quote.
Qed.

Lemma skip_sep p pat fs : p <> 44 -> p <> 125 -> strstr_after (p :: pat) (render_tail fs) =
  match fs with [] => None | f :: fs' => strstr_after (p :: pat) (render_field f ++ render_tail fs') end.
Proof.
  intros H1 H2. destruct fs as [|f fs]; cbn.
  - by rewrite (proj2 (Z.eqb_neq p 125)).
  - by rewrite (proj2 (Z.eqb_neq p 44)).
Qed.

Lemma skip_fields k pt pre fs : key_ok k -> Forall (fun f => field_ok f /\ k <> field_key f) pre ->
  strstr_after (34 :: k ++ 34 :: 58 :: pt) (render_tail (pre ++ fs)) = strstr_after (34 :: k ++ 34 :: 58 :: pt) (render_tail fs).
Proof.
  intros Hk. induction 1 as [|f pre [Hf Hne] Hpre IH]; [done|]. cbn [app]. rewrite skip_sep by done. by rewrite skip_field.
Qed.

(** The value of a field of an object, at its key. *)
Lemma find_str_field k v pre post : key_ok k -> Forall (fun f => field_ok f /\ k <> field_key f) pre -> 34 ∉ v ->
  (p ← strstr_after (quoted k ++ [58; 34]) (render_tail (pre ++ JStr k v :: post)); strchr_before 34 p) = Some v.
Proof.
  intros Hk Hpre Hv. unfold quoted. norm_app.
  rewrite skip_fields, skip_sep by done. unfold render_field, quoted. norm_app.
  pose proof (strstr_after_here (34 :: k ++ [34; 58; 34]) (v ++ 34 :: render_tail post)) as Hs.
  cbn [app] in Hs. rewrite <- app_assoc in Hs. cbn [app] in Hs. rewrite Hs. cbn [mbind option_bind]. by apply strchr_before_app.
Qed.

Lemma find_int_field k z pre post : key_ok k -> Forall (fun f => field_ok f /\ k <> field_key f) pre -> - 2 ^ 63 <= z < 2 ^ 63 ->
  (p ← strstr_after (quoted k ++ [58]) (render_tail (pre ++ JInt k z :: post)); atoll p) = Some z.
Proof.
  intros Hk Hpre Hz. unfold quoted. norm_app.
  rewrite skip_fields, skip_sep by done. unfold render_field, quoted. norm_app.
  pose proof (strstr_after_here (34 :: k ++ [34; 58]) (print_lld z ++ render_tail post)) as Hs.
  cbn [app] in Hs. rewrite <- app_assoc in Hs. cbn [app] in Hs. rewrite Hs. cbn [mbind option_bind].
  destruct (render_tail_sep post) as (sep & rest & -> & _ & Hd). by apply atoll_print.
Qed.

(** ** Claims: reading back what was printed *)

Definition claims_fields (c : JwtClaims) : list json_field :=
  [JStr (str_bytes "iss") (iss c); JStr (str_bytes "sub") (sub c); JStr (str_bytes "aud") (aud c);
   JInt (str_bytes "exp") (exp c); JInt (str_bytes "iat") (iat c); JInt (str_bytes "nbf") (nbf c);
   JStr (str_bytes "jti") (jti c); JStr (str_bytes "scope") (scope c)].

(** Claims that fit the C struct and need no escapes. *)
Record plain_claims (c : JwtClaims) : Prop := {
  pc_iss : plain (iss c) /\ (length (iss c) < JWT_MAX_ISS_LEN)%nat;
  pc_sub : plain (sub c) /\ (length (sub c) < JWT_MAX_SUB_LEN)%nat;
  pc_aud : plain (aud c) /\ (length (aud c) < JWT_MAX_AUD_LEN)%nat;
  pc_jti : plain (jti c) /\ (length (jti c) < 64)%nat;
  pc_scope : plain (scope c) /\ (length (scope c) < 256)%nat;
  pc_exp : - 2 ^ 63 <= exp c < 2 ^ 63;
  pc_iat : - 2 ^ 63 <= iat c < 2 ^ 63;
  pc_nbf : - 2 ^ 63 <= nbf c < 2 ^ 63;
}.

Lemma escape_plain v j size : plain v -> (j + length v + 1 < size)%nat -> json_escape_str v j size = v.
Proof.
  intros Hv. revert j. induction Hv as [|x v [_ [H34 H92]] Hv IH]; intros j Hj; [done|]. cbn [json_escape_str length] in *.
  rewrite (proj2 (Nat.ltb_lt _ _)) by lia. rewrite (proj2 (Z.eqb_neq x 34)), (proj2 (Z.eqb_neq x 92)) by done.
  cbn [orb]. rewrite IH; [done|lia].
Qed.

Lemma plain_no_quote v : plain v -> 34 ∉ v.
Proof. intros Hv Hin. pose proof (proj1 (Forall_forall _ _) Hv _ Hin) as Hq. cbn in Hq. lia. Qed.

Lemma claims_json_fields c : plain_claims c -> 123 :: tail (render_tail (claims_fields c)) = build_claims_json c.
Proof.
  intros [[H1 L1] [H2 L2] [H3 L3] [H4 L4] [H5 L5] _ _ _]. unfold build_claims_json, JWT_MAX_ISS_LEN, JWT_MAX_SUB_LEN, JWT_MAX_AUD_LEN in *.
  rewrite !escape_plain by (done || lia). unfold str_field, int_field, claims_fields. cbn [render_tail render_field tail].
  repeat (progress (cbn [app]; rewrite <- ?app_assoc)). done.
Qed.

Lemma strstr_after_skip1 p pat x s : p <> x -> strstr_after (p :: pat) (x :: s) = strstr_after (p :: pat) s.
Proof. intros Hx. cbn. by rewrite (proj2 (Z.eqb_neq p x)). Qed.

Lemma build_strstr c pat : plain_claims c ->
  strstr_after (34 :: pat) (build_claims_json c) = strstr_after (34 :: pat) (render_tail (claims_fields c)).
Proof.
  intros Hc. rewrite <- claims_json_fields by done. cbn [claims_fields render_tail tail].
  by rewrite !strstr_after_skip1.
Qed.

Definition key_okb (k : list Z) : bool :=
  match k with
  | x :: _ => negb (existsb (Z.eqb 34) k) && negb (x =? 58) && negb (x =? 44) && negb (x =? 125)
  | [] => false
  end.
Lemma key_okb_ok k : key_okb k = true -> key_ok k.
Proof.
  destruct k as [|x k']; [done|]. unfold key_okb. intros H. zbool. exists x, k'. split_and!; try done.
  intros Hin%list_elem_of_In. apply not_true_iff_false in H. apply H, existsb_exists. by exists 34.
Qed.
Lemma key_no_quote k : key_okb k = true -> 34 ∉ k.
Proof. by intros (x & k' & -> & H & _)%key_okb_ok. Qed.

(** The fields before the one looked for. *)
Ltac other_fields Hc :=
  repeat apply Forall_cons_2; try apply Forall_nil_2; split;
  match goal with
  | |- _ <> field_key _ => let He := fresh in intros He; vm_compute in He; discriminate He
  | |- field_ok (JInt _ _) => apply key_no_quote; reflexivity
  | |- field_ok (JStr _ _) => split; [apply key_no_quote; reflexivity|apply plain_no_quote, Hc]
  end.

Lemma parse_str_build c pre k v post size : plain_claims c ->
  claims_fields c = pre ++ JStr (str_bytes k) v :: post ->
  Forall (fun f => field_ok f /\ str_bytes k <> field_key f) pre ->
  key_okb (str_bytes k) = true -> (length (str_bytes k) < 100)%nat -> plain v -> (length v < size)%nat ->
  parse_json_str (build_claims_json c) k size = Some v.
Proof.
  intros Hc Hf Hpre Hk Hl Hv Hsize. unfold parse_json_str.
  rewrite truncated_id by (unfold quoted; rewrite !length_app; cbn; rewrite length_app; cbn; lia).
  unfold quoted at 1. cbn [app]. rewrite build_strstr, Hf by done.
  pose proof (find_str_field (str_bytes k) v pre post (key_okb_ok _ Hk) Hpre (plain_no_quote v Hv)) as Hs.
  unfold quoted at 1 in Hs. cbn [app] in Hs. destruct (strstr_after _ _) as [p|]; [|done]. cbn [mbind option_bind] in *.
  rewrite Hs. cbn [mbind option_bind]. by rewrite truncated_id.
Qed.

Lemma parse_int_build c pre k z post : plain_claims c ->
  claims_fields c = pre ++ JInt (str_bytes k) z :: post ->
  Forall (fun f => field_ok f /\ str_bytes k <> field_key f) pre ->
  key_okb (str_bytes k) = true -> (length (str_bytes k) < 100)%nat -> - 2 ^ 63 <= z < 2 ^ 63 ->
  parse_json_int (build_claims_json c) k = Some (Some z).
Proof.
  intros Hc Hf Hpre Hk Hl Hz. unfold parse_json_int.
  rewrite truncated_id by (unfold quoted; rewrite !length_app; cbn; rewrite length_app; cbn; lia).
  unfold quoted at 1. cbn [app]. rewrite build_strstr, Hf by done.
  pose proof (find_int_field (str_bytes k) z pre post (key_okb_ok _ Hk) Hpre Hz) as Hs.
  unfold quoted at 1 in Hs. cbn [app] in Hs. destruct (strstr_after _ _) as [p|]; [|done]. cbn [mbind option_bind] in *.
  by rewrite Hs.
Qed.

Ltac field_side fs Hc :=
  first [assumption | match goal with |- Forall _ _ => fail 1 | _ => idtac end; reflexivity | (apply Nat.ltb_lt; reflexivity) | (unfold fs; cbn [claims_fields take]; other_fields Hc)].

Lemma parse_claims_build c : plain_claims c -> parse_claims (build_claims_json c) = Some c.
Proof.
  intros Hc. pose proof Hc as [[H1 L1] [H2 L2] [H3 L3] [H4 L4] [H5 L5] Z1 Z2 Z3]. unfold parse_claims.
  set (fs := claims_fields c).
  rewrite (parse_int_build c (take 3 fs) "exp" (exp c) (drop 4 fs)) by field_side fs Hc.
  rewrite (parse_int_build c (take 4 fs) "iat" (iat c) (drop 5 fs)) by field_side fs Hc.
  rewrite (parse_int_build c (take 5 fs) "nbf" (nbf c) (drop 6 fs)) by field_side fs Hc.
  rewrite (parse_str_build c (take 0 fs) "iss" (iss c) (drop 1 fs)) by field_side fs Hc.
  rewrite (parse_str_build c (take 1 fs) "sub" (sub c) (drop 2 fs)) by field_side fs Hc.
  rewrite (parse_str_build c (take 2 fs) "aud" (aud c) (drop 3 fs)) by field_side fs Hc.
  rewrite (parse_str_build c (take 6 fs) "jti" (jti c) (drop 7 fs)) by field_side fs Hc.
  rewrite (parse_str_build c (take 7 fs) "scope" (scope c) (drop 8 fs)) by field_side fs Hc.
  by destruct c.
Qed.

(** ** Sizes and characters *)

Lemma escape_length v j size : (length (json_escape_str v j size) + j <= Nat.max j (size - 1))%nat.
Proof.
  revert j. induction v as [|x v IH]; intros j; cbn [json_escape_str length]; [lia|].
  destruct (Nat.ltb_spec (j + 2) size); [|cbn; lia].
  destruct (_ || _); cbn [length]; [specialize (IH (j + 2)%nat)|specialize (IH (j + 1)%nat)]; lia.
Qed.

Ltac len := repeat (progress (cbn [length]; rewrite ?length_app)).
Lemma str_field_length k v : (length (str_field k v) = length (str_bytes k) + length v + 5)%nat.
Proof. unfold str_field, quoted. len. lia. Qed.
Lemma int_field_length k z : (length (int_field k z) <= length (str_bytes k) + 24)%nat.
Proof. unfold int_field, quoted. len. pose proof (print_lld_length z). lia. Qed.

(** The length of the JSON text, from those of the escaped strings. *)
Lemma build_length c :
  (length (build_claims_json c) <= 132 + length (json_escape_str (iss c) 0 (JWT_MAX_ISS_LEN * 2))
    + length (json_escape_str (sub c) 0 (JWT_MAX_SUB_LEN * 2)) + length (json_escape_str (aud c) 0 (JWT_MAX_AUD_LEN * 2))
    + length (json_escape_str (jti c) 0 128) + length (json_escape_str (scope c) 0 512))%nat.
Proof.
  unfold build_claims_json. rewrite !length_app, !str_field_length.
  pose proof (int_field_length "exp" (exp c)). pose proof (int_field_length "iat" (iat c)). pose proof (int_field_length "nbf" (nbf c)).
  change (length (str_bytes "exp")) with 3%nat in *. change (length (str_bytes "iat")) with 3%nat in *.
  change (length (str_bytes "nbf")) with 3%nat in *. change (length (str_bytes "iss")) with 3%nat in *.
  change (length (str_bytes "sub")) with 3%nat in *. change (length (str_bytes "aud")) with 3%nat in *.
  change (length (str_bytes "jti")) with 3%nat in *. change (length (str_bytes "scope")) with 5%nat in *.
  cbn [length]. lia.
Qed.

(** The text fits the buffer it is printed into, whatever the claims. *)
Lemma build_claims_json_fits c : (length (build_claims_json c) < JWT_MAX_PAYLOAD_LEN)%nat.
Proof.
  pose proof (build_length c). unfold JWT_MAX_ISS_LEN, JWT_MAX_SUB_LEN, JWT_MAX_AUD_LEN, JWT_MAX_PAYLOAD_LEN in *.
  pose proof (escape_length (iss c) 0 (128 * 2)). pose proof (escape_length (sub c) 0 (128 * 2)).
  pose proof (escape_length (aud c) 0 (256 * 2)). pose proof (escape_length (jti c) 0 128). pose proof (escape_length (scope c) 0 512).
  lia.
Qed.

Lemma build_length_plain c : plain_claims c -> (length (build_claims_json c) < 1000)%nat.
Proof.
  intros [[H1 L1] [H2 L2] [H3 L3] [H4 L4] [H5 L5] _ _ _]. pose proof (build_length c).
  unfold JWT_MAX_ISS_LEN, JWT_MAX_SUB_LEN, JWT_MAX_AUD_LEN in *. rewrite !escape_plain in * by (done || lia). lia.
Qed.

Lemma char_ok_str s : forallb (fun c => (0 <? c) && (c <? 256)) (str_bytes s) = true -> Forall char_ok (str_bytes s).
Proof.
  rewrite forallb_forall. intros H. apply Forall_forall. intros x Hx%list_elem_of_In. apply H in Hx. unfold char_ok. zbool. lia.
Qed.
Lemma quoted_chars v : Forall char_ok v -> Forall char_ok (quoted v).
Proof. intros Hv. unfold quoted. apply Forall_cons. split; [done|]. apply Forall_app. split; [done|]. by apply Forall_singleton. Qed.
Lemma str_field_chars k v : forallb (fun c => (0 <? c) && (c <? 256)) (str_bytes k) = true -> Forall char_ok v ->
  Forall char_ok (str_field k v).
Proof.
  intros Hk Hv. apply Forall_app. split; [by apply quoted_chars, char_ok_str|]. apply Forall_cons. split; [done|by apply quoted_chars].
Qed.
Lemma int_field_chars k z : forallb (fun c => (0 <? c) && (c <? 256)) (str_bytes k) = true -> Forall char_ok (int_field k z).
Proof.
  intros Hk. apply Forall_app. split; [by apply quoted_chars, char_ok_str|]. apply Forall_cons. split; [done|].
  eapply Forall_impl; [apply print_lld_chars|]. cbn. unfold char_ok. lia.
Qed.

Ltac chars_by t := first [t | apply Forall_app; split; [t|chars_by t]].

Lemma build_chars c : plain_claims c -> Forall char_ok (build_claims_json c).
Proof.
  intros [[H1 L1] [H2 L2] [H3 L3] [H4 L4] [H5 L5] _ _ _]. unfold build_claims_json, JWT_MAX_ISS_LEN, JWT_MAX_SUB_LEN, JWT_MAX_AUD_LEN in *.
  rewrite !escape_plain by (done || lia).
  assert (Hp : forall v, plain v -> Forall char_ok v) by (intros v Hv; eapply Forall_impl; [exact Hv|]; cbn; tauto).
  chars_by ltac:(first [by apply Forall_singleton | apply str_field_chars; [reflexivity|by apply Hp] | by apply int_field_chars]).
Qed.

Lemma header_json_chars alg : Forall char_ok (header_json alg) /\ (length (header_json alg) < 32)%nat.
Proof.
  split; [|by destruct alg; apply Nat.ltb_lt; reflexivity]. unfold header_json.
  assert (Ha : Forall char_ok (jwt_alg_name alg)) by (destruct alg; by apply char_ok_str).
  chars_by ltac:(first [by apply Forall_singleton | apply str_field_chars; [reflexivity|first [exact Ha|by apply char_ok_str]]]).
Qed.

(** ** Tokens *)

Definition token_of (header payload sig : list Z) : list Z := enc header ++ 46 :: enc payload ++ 46 :: enc sig.

Lemma enc_no_dot src : 46 ∉ enc src.
Proof. intros H. by apply (proj1 (Forall_forall _ _) (enc_chars src)) in H as [_ ?]. Qed.
Lemma enc_nonempty src : src <> [] -> enc src <> [].
Proof. by destruct src as [|a [|b [|c l]]]. Qed.
Lemma enc_length_le src : (length (enc src) <= 4 * ((length src + 2) / 3))%nat.
Proof. pose proof (enc_length src). rewrite encode_loop_length in *. lia. Qed.
Lemma div3_le n m : (n <= m)%nat -> (4 * ((n + 2) / 3) <= 4 * ((m + 2) / 3))%nat.
Proof. intros H. apply Nat.mul_le_mono_l, Nat.Div0.div_le_mono. lia. Qed.

Lemma encode_le src n dst_size : (length src <= n)%nat -> (4 * ((n + 2) / 3) <? dst_size)%nat = true ->
  jwt_base64url_encode src dst_size = Some (enc src).
Proof. intros Hn Hs%Nat.ltb_lt. apply encode_spec. pose proof (div3_le _ _ Hn). lia. Qed.

Lemma header_nonempty alg : header_json alg <> [].
Proof. done. Qed.
Lemma payload_nonempty c : build_claims_json c <> [].
Proof. done. Qed.

Lemma signing_input_whole h p : (length (enc h) <= 44)%nat -> (length (enc p) <= 1340)%nat ->
  signing_input (enc h) (enc p) = enc h ++ 46 :: enc p.
Proof. intros. apply truncated_id. unfold JWT_MAX_TOKEN_LEN. rewrite length_app. cbn [length]. lia. Qed.

Lemma plain_sizes alg c : plain_claims c ->
  (length (enc (header_json alg)) <= 44)%nat /\ (length (enc (build_claims_json c)) <= 1340)%nat.
Proof.
  intros Hc. pose proof (enc_length_le (header_json alg)). pose proof (enc_length_le (build_claims_json c)).
  pose proof (div3_le (length (header_json alg)) 31 ltac:(pose proof (header_json_chars alg); lia)) as H1.
  pose proof (div3_le (length (build_claims_json c)) 999 ltac:(pose proof (build_length_plain c Hc); lia)) as H2.
  change (4 * ((31 + 2) / 3))%nat with 44%nat in H1. change (4 * ((999 + 2) / 3))%nat with 1332%nat in H2. lia.
Qed.

(** What [jwt_decode] makes of a token with well-formed header and payload. *)
Lemma decode_token hmac eng alg c sig : plain_claims c -> (length sig <= 96)%nat ->
  (sig = [] \/ exists f, verify_func eng = Some f /\ Forall byte_ok sig /\
     hmac (secret (key eng)) (signing_input (enc (header_json alg)) (enc (build_claims_json c))) = sig) ->
  jwt_decode hmac eng (token_of (header_json alg) (build_claims_json c) sig) = Some (inr c).
Proof.
  intros Hc Hsl Hsig. destruct (plain_sizes alg c Hc) as [Hh Hp]. unfold jwt_decode.
  pose proof (enc_length_le sig) as Hs. pose proof (div3_le (length sig) 96 Hsl) as Hs'.
  change (4 * ((96 + 2) / 3))%nat with 128%nat in Hs'.
  rewrite (proj2 (Nat.leb_gt _ _)).
  2: { unfold token_of, JWT_MAX_TOKEN_LEN. len. lia. }
  unfold token_of. rewrite strtok_app by (apply enc_no_dot || apply enc_nonempty, header_nonempty).
  rewrite strtok_app by (apply enc_no_dot || apply enc_nonempty, payload_nonempty).
  destruct (header_json_chars alg) as [Hhc Hhl].
  assert (Hfin : (_ ← decode_into JWT_MAX_HEADER_LEN (enc (header_json alg)); 
                  json ← decode_into JWT_MAX_PAYLOAD_LEN (enc (build_claims_json c));
                  inr <$> parse_claims json) = Some (inr c : Z + JwtClaims)).
  { pose proof (build_length_plain c Hc). unfold JWT_MAX_HEADER_LEN, JWT_MAX_PAYLOAD_LEN.
    rewrite (decode_into_spec 256 (header_json alg)) by (done || lia). cbn [mbind option_bind].
    rewrite decode_into_spec by (first [by apply build_chars | lia]). cbn [mbind option_bind]. by rewrite parse_claims_build. }
  destruct (decode_into JWT_MAX_HEADER_LEN _) as [hd|]; [|done]. cbn [mbind option_bind] in *.
  destruct (decode_into JWT_MAX_PAYLOAD_LEN _) as [json|]; cbn [mbind option_bind] in *; [|by destruct (strtok 46 (enc sig))].
  destruct Hsig as [->|(f & Hf & Hok & Hsig)].
  - cbn. by destruct (verify_func eng).
  - destruct (decide (sig = [])) as [->|Hne]; [cbn; by destruct (verify_func eng)|].
    rewrite strtok_last by (apply enc_no_dot || by apply enc_nonempty). rewrite Hf.
    assert (pad_of (length sig) < 3)%nat by (apply Nat.mod_upper_bound; lia).
    rewrite decode_spec by (done || lia). cbn [default from_option id].
    assert (Hv : verify hmac f (signing_input (enc (header_json alg)) (enc (build_claims_json c))) (key eng)
      (sig ++ replicate (pad_of (length sig)) 0) (Z.of_nat (length sig)) = true).
    { destruct f; cbn [verify]; unfold jwt_hs256_verify, jwt_rs256_verify_sim; rewrite Hsig, Z.eqb_refl, Nat2Z.id, take_app_length;
        by rewrite bool_decide_eq_true_2. }
    by rewrite Hv.
Qed.

(** ** Properties *)

(** base64url decoding gives back every byte sequence that was encoded, when
    the destination has room for whole groups of three bytes, and the encoded
    text has no dot and no padding. *)
Theorem jwt_base64url_roundtrip src dst_size cap : Forall byte_ok src ->
  (4 * ((length src + 2) / 3) < dst_size)%nat -> (length src + 2 <= cap)%nat -> Z.of_nat cap < 2 ^ 64 ->
  exists text dst, jwt_base64url_encode src dst_size = Some text /\ 46 ∉ text /\
    jwt_base64url_decode text cap = Some (dst, Z.of_nat (length src)) /\ take (length src) dst = src.
Proof.
  intros Hs Hsize Hcap H64. exists (enc src), (src ++ replicate (pad_of (length src)) 0).
  assert (pad_of (length src) < 3)%nat by (apply Nat.mod_upper_bound; lia).
  split_and!; [by apply encode_spec|apply enc_no_dot|apply decode_spec; (done || lia)|apply take_app_length].
Qed.

Lemma jwt_base64url_roundtrip_witness :
  jwt_base64url_encode (str_bytes "JWT!?") 16 = Some (str_bytes "SldUIT8") /\
  exists text dst, jwt_base64url_encode (str_bytes "JWT!?") 16 = Some text /\ 46 ∉ text /\
    jwt_base64url_decode text 7 = Some (dst, 5) /\ take 5 dst = str_bytes "JWT!?".
Proof.
  split; [vm_compute; reflexivity|].
  apply (jwt_base64url_roundtrip (str_bytes "JWT!?") 16 7); [apply str_bytes_ok|vm_compute; lia|vm_compute; lia|reflexivity].
Defined.

Section properties.
Context (hmac : list Z -> list Z -> list Z).

(** HMAC-SHA256 yields 32 bytes. *)
Definition hmac_sha256_like : Prop := forall k data, length (hmac k data) = 32%nat /\ Forall byte_ok (hmac k data).

(** The signature of a token. *)
Definition token_sig (eng : JwtEngine) (c : JwtClaims) : list Z :=
  match sign_func eng with
  | Some f => sign hmac f (signing_input (enc (header_json (algorithm (key eng)))) (enc (build_claims_json c))) (key eng)
  | None => []
  end.

Lemma encode_token eng c : plain_claims c -> (length (token_sig eng c) <= 32)%nat ->
  jwt_encode hmac eng c JWT_MAX_TOKEN_LEN = Some (token_of (header_json (algorithm (key eng))) (build_claims_json c) (token_sig eng c)).
Proof.
  intros Hc Hsl. unfold jwt_encode. set (alg := algorithm (key eng)) in *.
  destruct (plain_sizes alg c Hc) as [Hh Hp]. pose proof (header_json_chars alg) as [_ Hhl]. pose proof (build_length_plain c Hc).
  rewrite (encode_le (header_json alg) 31) by (reflexivity || lia). cbn [mbind option_bind].
  rewrite (encode_le (build_claims_json c) 999) by (reflexivity || lia). cbn [mbind option_bind].
  change (match sign_func eng with Some f => _ | None => _ end) with (token_sig eng c).
  rewrite (encode_le (token_sig eng c) 32) by (reflexivity || lia). cbn [mbind option_bind].
  f_equal. apply truncated_id. unfold token_of, JWT_MAX_TOKEN_LEN.
  pose proof (enc_length_le (token_sig eng c)). pose proof (div3_le (length (token_sig eng c)) 32 Hsl) as HH.
  change (4 * ((32 + 2) / 3))%nat with 44%nat in HH. len. lia.
Qed.

Lemma engine_algorithm alg k : algorithm (key (jwt_engine_init alg k)) = alg.
Proof. done. Qed.
Lemma engine_suites alg k : sign_func (jwt_engine_init alg k) = verify_func (jwt_engine_init alg k).
Proof. done. Qed.

Lemma token_sig_verifies eng c : hmac_sha256_like -> sign_func eng = verify_func eng ->
  (length (token_sig eng c) <= 32)%nat /\
  (token_sig eng c = [] \/ exists f, verify_func eng = Some f /\ Forall byte_ok (token_sig eng c) /\
     hmac (secret (key eng)) (signing_input (enc (header_json (algorithm (key eng)))) (enc (build_claims_json c))) = token_sig eng c).
Proof.
  intros Hm Heq. unfold token_sig. rewrite Heq. destruct (verify_func eng) as [f|] eqn:Hf; [|cbn; split; [lia|by left]].
  set (data := signing_input _ _).
  assert (Hs : sign hmac f data (key eng) = hmac (secret (key eng)) data) by by destruct f.
  rewrite Hs. destruct (Hm (secret (key eng)) data) as [-> Hb]. split; [done|]. right. by exists f.
Qed.

(** A token made by [jwt_encode] for claims that fit the struct and need no
    escapes is accepted by [jwt_decode] of an engine with the same algorithm and
    secret, and gives back exactly those claims; no buffer overflows on the way. *)
Theorem jwt_roundtrip alg k c : hmac_sha256_like -> plain_claims c ->
  let eng := jwt_engine_init alg k in
  exists token, jwt_encode hmac eng c JWT_MAX_TOKEN_LEN = Some token /\ jwt_decode hmac eng token = Some (inr c).
Proof.
  intros Hm Hc eng. destruct (token_sig_verifies eng c Hm (engine_suites alg k)) as [Hsl Hsig].
  eexists. split; [by apply encode_token|]. apply decode_token; [done|lia|done].
Qed.

(** C5: when an engine that verifies signatures accepts a token that has a third
    part, that part is the HMAC, under the engine's secret, of the first two. *)
Theorem jwt_decode_authentic eng f token c h p s r1 r2 r3 : hmac_sha256_like ->
  verify_func eng = Some f -> jwt_decode hmac eng token = Some (inr c) ->
  strtok 46 token = (Some h, r1) -> strtok 46 r1 = (Some p, r2) -> strtok 46 r2 = (Some s, r3) ->
  exists sig, jwt_base64url_decode s 128 = Some (sig, 32) /\
    take 32 sig = hmac (secret (key eng)) (signing_input h p).
Proof.
  intros Hm Hf Hd H1 H2 H3. unfold jwt_decode in Hd. destruct (_ <=? _)%nat; [done|]. rewrite H1, H2, H3, Hf in Hd.
  destruct (decode_into JWT_MAX_HEADER_LEN h) as [hd|]; [|done]. cbn [mbind option_bind] in Hd.
  destruct (decode_into JWT_MAX_PAYLOAD_LEN p) as [json|]; [|done]. cbn [mbind option_bind] in Hd.
  destruct (Hm (secret (key eng)) (signing_input h p)) as [Hlen _].
  destruct (jwt_base64url_decode s 128) as [[sig n]|]; cbn [default from_option id] in Hd.
  - assert (Hv : verify hmac f (signing_input h p) (key eng) sig n = true) by by destruct (verify _ _ _ _ _ _).
    assert (Hn : n = 32 /\ take 32 sig = hmac (secret (key eng)) (signing_input h p)).
    { destruct f; cbn [verify] in Hv; unfold jwt_hs256_verify, jwt_rs256_verify_sim in Hv; rewrite Hlen in Hv;
        destruct (Z.eqb_spec (Z.of_nat 32) n) as [<-|]; (done || apply bool_decide_eq_true_1 in Hv; by rewrite Hv). }
    destruct Hn as [-> Hn]. by exists sig.
  - assert (Hv : verify hmac f (signing_input h p) (key eng) [] 128 = false).
    { destruct f; cbn [verify]; unfold jwt_hs256_verify, jwt_rs256_verify_sim; by rewrite Hlen. }
    by rewrite Hv in Hd.
Qed.

(** An unsigned token is accepted by every engine.  Dropping the third part of
    a token skips the check of the signature, so anyone can make a token with any
    claims, for any engine, without knowing its secret. *)
Theorem jwt_unsigned_token_accepted eng alg c : plain_claims c ->
  jwt_decode hmac eng (token_of (header_json alg) (build_claims_json c) []) = Some (inr c).
Proof. intros Hc. apply decode_token; [done|cbn; lia|by left]. Qed.

(** A header that is not base64url makes [jwt_decode] write past [header_json]. *)
Theorem jwt_decode_bad_header_overflows eng : jwt_decode hmac eng (str_bytes "!!!!.e30.") = None.
Proof. reflexivity. Qed.
End properties.

Definition example_claims : JwtClaims :=
  mk_claims (str_bytes "auth.example") (str_bytes "user-7") (str_bytes "api") 1700003600 1700000000 (-5) (str_bytes "id1") (str_bytes "read write").
Definition example_hmac (k data : list Z) : list Z :=
  (fun i => foldl (fun h b => (h * 31 + b + i) mod 256) 7 (k ++ data)) <$> seqZ 0 32.

Lemma example_claims_plain : plain_claims example_claims.
Proof.
  assert (H : forall v n, forallb (fun c => (0 <? c) && (c <? 256) && negb (c =? 34) && negb (c =? 92)) v && (length v <? n)%nat = true ->
    plain v /\ (length v < n)%nat).
  { intros v n Hv. apply andb_true_iff in Hv as [Hv Hn%Nat.ltb_lt]. split; [|done]. rewrite forallb_forall in Hv.
    apply Forall_forall. intros x Hx%list_elem_of_In. apply Hv in Hx. zbool. unfold char_ok. lia. }
  split; try (apply H; reflexivity); cbn; lia.
Qed.
Lemma example_hmac_ok : hmac_sha256_like example_hmac.
Proof.
  intros k data. split; [by unfold example_hmac; rewrite length_fmap, length_seqZ|]. apply Forall_fmap, Forall_forall.
  intros i _. unfold compose, byte_ok. destruct (k ++ data) as [|b l] using rev_ind; [done|].
  rewrite foldl_app. cbn [foldl]. apply Z.mod_pos_bound. lia.
Qed.

Lemma jwt_roundtrip_witness :
  exists token, jwt_encode example_hmac (jwt_engine_init JWT_ALG_HS256 (Some (str_bytes "k"))) example_claims JWT_MAX_TOKEN_LEN = Some token /\
    jwt_decode example_hmac (jwt_engine_init JWT_ALG_HS256 (Some (str_bytes "k"))) token = Some (inr example_claims).
Proof. apply (jwt_roundtrip example_hmac JWT_ALG_HS256 (Some (str_bytes "k")) example_claims); [exact example_hmac_ok|exact example_claims_plain]. Defined.

Lemma jwt_unsigned_token_accepted_witness :
  jwt_decode example_hmac (jwt_engine_init JWT_ALG_HS256 (Some (str_bytes "secret")))
    (token_of (header_json JWT_ALG_NONE) (build_claims_json example_claims) []) = Some (inr example_claims).
Proof. apply (jwt_unsigned_token_accepted example_hmac), example_claims_plain. Defined.

Lemma jwt_decode_authentic_witness :
  let eng := jwt_engine_init JWT_ALG_HS256 (Some (str_bytes "k")) in
  let token := default [] (jwt_encode example_hmac eng example_claims JWT_MAX_TOKEN_LEN) in
  let t1 := strtok 46 token in let t2 := strtok 46 t1.2 in let t3 := strtok 46 t2.2 in
  exists sig, jwt_base64url_decode (default [] t3.1) 128 = Some (sig, 32) /\
    take 32 sig = example_hmac (str_bytes "k") (signing_input (default [] t1.1) (default [] t2.1)).
Proof.
  intros eng token t1 t2 t3.
  apply (jwt_decode_authentic example_hmac eng suite_hs256 token example_claims _ _ _ t1.2 t2.2 t3.2 example_hmac_ok);
    vm_compute; reflexivity.
Defined.
