(* ===== verification/HttpCore.v ===== *)
(** Model of [mini-web-server/src/http_core.c]: requests, responses, headers, query
    strings and percent-decoding.

    Strings are lists of characters ([Bytes]).  [http_serialize_response] does not
    stop when the buffer is full: a definition that would write past its end
    returns [None]. *)

From S2P Require Import Prelude Bytes.

Inductive HttpMethod := HTTP_GET | HTTP_POST | HTTP_PUT | HTTP_DELETE | HTTP_HEAD | HTTP_OPTIONS | HTTP_PATCH | HTTP_UNKNOWN.
#[export] Instance HttpMethod_eq_dec : EqDecision HttpMethod.
Proof. solve_decision. Defined.

#[export] Instance HttpMethod_inhabited : Inhabited HttpMethod := populate HTTP_UNKNOWN.

Definition HTTP_MAX_HEADERS : nat := 64.
Definition HTTP_MAX_HEADER_NAME : nat := 128.
Definition HTTP_MAX_HEADER_VALUE : nat := 4096.
Definition HTTP_MAX_PATH : nat := 2048.
Definition HTTP_MAX_BODY : Z := 16 * 1024 * 1024.

Record HttpHeader := mk_header { name : list Z; value : list Z }.
(** [header_count] is the length of the headers; [body_len] that of the body. *)
Record HttpRequest := mk_request {
  method : HttpMethod; path : list Z; query_string : list Z; headers : list HttpHeader; body : list Z }.
Record HttpResponse := mk_response { status_code : Z; res_headers : list HttpHeader; res_body : option (list Z) }.

Definition g_method_strings : list (list Z) :=
  str_bytes <$> ["GET"; "POST"; "PUT"; "DELETE"; "HEAD"; "OPTIONS"; "PATCH"; "UNKNOWN"]%string.
Definition methods : list HttpMethod :=
  [HTTP_GET; HTTP_POST; HTTP_PUT; HTTP_DELETE; HTTP_HEAD; HTTP_OPTIONS; HTTP_PATCH; HTTP_UNKNOWN].

Definition http_method_str (m : HttpMethod) : list Z :=
  str_bytes match m with
            | HTTP_GET => "GET" | HTTP_POST => "POST" | HTTP_PUT => "PUT" | HTTP_DELETE => "DELETE"
            | HTTP_HEAD => "HEAD" | HTTP_OPTIONS => "OPTIONS" | HTTP_PATCH => "PATCH" | HTTP_UNKNOWN => "UNKNOWN"
            end%string.
Definition http_method_from_str (s : list Z) : HttpMethod :=
  match find_idx (fun m => bool_decide (s = m)) (take 7 g_method_strings) with
  | Some i => methods !!! i
  | None => HTTP_UNKNOWN
  end.

Definition http_status_text (code : Z) : list Z :=
  str_bytes match code with
            | 200 => "OK" | 201 => "Created" | 204 => "No Content" | 206 => "Partial Content"
            | 301 => "Moved Permanently" | 302 => "Found" | 304 => "Not Modified" | 400 => "Bad Request"
            | 401 => "Unauthorized" | 403 => "Forbidden" | 404 => "Not Found" | 405 => "Method Not Allowed"
            | 408 => "Request Timeout" | 409 => "Conflict" | 410 => "Gone" | 413 => "Payload Too Large"
            | 414 => "URI Too Long" | 415 => "Unsupported Media Type" | 416 => "Range Not Satisfiable"
            | 429 => "Too Many Requests" | 500 => "Internal Server Error" | 501 => "Not Implemented"
            | 502 => "Bad Gateway" | 503 => "Service Unavailable" | 504 => "Gateway Timeout"
            | _ => "Unknown"
            end%string.

(** ** Percent-decoding *)

Definition hex_value (c : Z) : option Z :=
  if (48 <=? c) && (c <=? 57) then Some (c - 48)
  else if (97 <=? c) && (c <=? 102) then Some (c - 87)
  else if (65 <=? c) && (c <=? 70) then Some (c - 55)
  else None.

(** [room] characters fit before the terminating 0. *)
Fixpoint url_decode_loop (room : nat) (src : list Z) : list Z :=
  match room, src with
  | S room', c :: s1 =>
      match s1 with
      | h1 :: h2 :: s3 =>
          match (if c =? 37 then (x ← hex_value h1; y ← hex_value h2; Some (x * 16 + y)) else None) with
          | Some b => b :: url_decode_loop room' s3
          | None => (if c =? 43 then 32 else c) :: url_decode_loop room' s1
          end
      | _ => (if c =? 43 then 32 else c) :: url_decode_loop room' s1
      end
  | _, _ => []
  end.
(** The bytes written; [None] stands for [false]. *)
Definition http_url_decode (src : list Z) (dst_size : nat) : option (list Z) :=
  if (dst_size =? 0)%nat then None else Some (url_decode_loop (dst_size - 1) src).

(** ** Requests *)

Definition http_request_init : HttpRequest := mk_request HTTP_UNKNOWN [] [] [] [].

(** A [%<width>s] of [sscanf]: the word and the rest. *)
Fixpoint take_word (width : nat) (s : list Z) : list Z * list Z :=
  match width, s with
  | S w, c :: s' => if is_space c then ([], s) else let '(a, b) := take_word w s' in (c :: a, b)
  | _, _ => ([], s)
  end.
Definition scan_word (width : nat) (s : list Z) : option (list Z * list Z) :=
  match skip_spaces s with [] => None | s' => Some (take_word width s') end.

Definition http_parse_request_line (line : list Z) (req : HttpRequest) : bool * HttpRequest :=
  match scan_word 31 line with
  | Some (method_str, rest) =>
      match scan_word (HTTP_MAX_PATH - 1) rest with
      | Some (path_raw, _) =>
          let '(raw, query) := match strchr_before 63 path_raw with
                               | Some p => (p, take (HTTP_MAX_PATH - 1) (drop (S (length p)) path_raw))
                               | None => (path_raw, query_string req)
                               end in
          (true, mk_request (http_method_from_str method_str) (cstr (default [] (http_url_decode raw HTTP_MAX_PATH)))
                   query (headers req) (body req))
      | None => (false, req)
      end
  | None => (false, req)
  end.

Fixpoint skip_blanks (s : list Z) : list Z :=
  match s with c :: s' => if (c =? 32) || (c =? 9) then skip_blanks s' else s | [] => [] end.
(** [while (len > 0 && ...) len--]. *)
Fixpoint trim_end (s : list Z) : list Z :=
  match s with
  | [] => []
  | c :: s' => match trim_end s' with
               | [] => if (c =? 13) || (c =? 10) || (c =? 32) then [] else [c]
               | t => c :: t
               end
  end.

Definition http_parse_header (line : list Z) (req : HttpRequest) : bool * HttpRequest :=
  if (HTTP_MAX_HEADERS <=? length (headers req))%nat then (false, req)
  else
    match strchr_before 58 line with
    | None => (false, req)
    | Some n =>
        let h := mk_header (truncated HTTP_MAX_HEADER_NAME n)
                   (truncated HTTP_MAX_HEADER_VALUE (trim_end (skip_blanks (drop (S (length n)) line)))) in
        (true, mk_request (method req) (path req) (query_string req) (headers req ++ [h]) (body req))
    end.

Definition tolower (c : Z) : Z := if (65 <=? c) && (c <=? 90) then c + 32 else c.
Definition strcasecmp_eq (a b : list Z) : bool := bool_decide (tolower <$> a = tolower <$> b).

Definition http_request_get_header (req : HttpRequest) (n : list Z) : option (list Z) :=
  i ← find_idx (fun h => strcasecmp_eq (name h) n) (headers req);
  value <$> headers req !! i.

(** ** Responses *)

Definition http_response_init : HttpResponse := mk_response 200 [] None.
Definition http_response_set_status (res : HttpResponse) (code : Z) : HttpResponse :=
  mk_response code (res_headers res) (res_body res).
Definition http_response_add_header (res : HttpResponse) (n v : list Z) : HttpResponse :=
  if (HTTP_MAX_HEADERS <=? length (res_headers res))%nat then res
  else mk_response (status_code res)
         (res_headers res ++ [mk_header (truncated HTTP_MAX_HEADER_NAME n) (truncated HTTP_MAX_HEADER_VALUE v)]) (res_body res).
Definition http_response_set_body (res : HttpResponse) (b : list Z) : HttpResponse :=
  mk_response (status_code res) (res_headers res) (Some b).
Definition http_response_set_body_str (res : HttpResponse) (b : list Z) : HttpResponse := http_response_set_body res b.

(** [off += snprintf(buf + off, buf_size - off, text)]: the text in the buffer and
    [off].  The subtraction is unsigned, so the size is huge when [off] is past the
    end. *)
Definition sprint (buf_size : nat) (s : list Z * nat) (text : list Z) : option (list Z * nat) :=
  if (buf_size <? s.2)%nat then None
  else Some (s.1 ++ take (buf_size - s.2 - 1) text, (s.2 + length text)%nat).

Definition crlf : list Z := [13; 10].
Definition status_line (res : HttpResponse) : list Z :=
  str_bytes "HTTP/1.1 " ++ print_lld (status_code res) ++ [32] ++ http_status_text (status_code res) ++ crlf.
Definition header_line (h : HttpHeader) : list Z := name h ++ [58; 32] ++ value h ++ crlf.
Definition length_line (n : nat) : list Z := str_bytes "Content-Length: " ++ print_lld (Z.of_nat n) ++ crlf.

Definition body_len (res : HttpResponse) : nat := length (default [] (res_body res)).

Fixpoint sprint_all (buf_size : nat) (s : list Z * nat) (texts : list (list Z)) : option (list Z * nat) :=
  match texts with [] => Some s | t :: ts => s' ← sprint buf_size s t; sprint_all buf_size s' ts end.

(** The bytes in the buffer and the return value. *)
Definition http_serialize_response (res : HttpResponse) (buf_size : nat) : option (list Z * nat) :=
  s ← sprint_all buf_size ([], O)
        (status_line res :: (header_line <$> res_headers res)
           ++ (if (0 <? body_len res)%nat then [length_line (body_len res)] else []) ++ [crlf]);
  match res_body res with
  | Some b =>
      if (0 <? length b)%nat && (s.2 <? buf_size)%nat then
        let remain := (buf_size - s.2)%nat in
        let copy := if (length b <? remain)%nat then length b else (remain - 1)%nat in
        Some (s.1 ++ take copy b, (s.2 + copy)%nat)
      else Some s
  | None => Some s
  end.

(** ** Query strings *)

(** The loop; it stops when the string is used up.  The value, as a C string, and
    its decoding into [key_buf]. *)
Fixpoint query_loop (fuel : nat) (key_sz val_sz : nat) (key p : list Z) : option (option (list Z * list Z)) :=
  match p with
  | [] => Some None
  | _ =>
      match fuel with
      | O => None
      | S fuel' =>
          let seg := default p (strchr_before 38 p) in
          let next := drop (S (length seg)) p in
          match strchr_before 61 p with
          | Some k =>
              if (length seg <? length k)%nat then query_loop fuel' key_sz val_sz key next
              else if bool_decide (k = key) then
                let v := truncated val_sz (drop (S (length k)) seg) in
                Some (Some (v, default [] (http_url_decode v key_sz)))
              else query_loop fuel' key_sz val_sz key next
          | None => query_loop fuel' key_sz val_sz key next
          end
      end
  end.
Definition http_parse_query_string (query : list Z) (key_sz val_sz : nat) (key : list Z) : option (option (list Z * list Z)) :=
  query_loop (length query) key_sz val_sz key query.

(** ** Percent-decoding is the inverse of percent-encoding *)

(** The specification: every byte as %XX (RFC 3986, section 2.1). *)
Definition hex_digit (x : Z) : Z := if x <? 10 then 48 + x else 55 + x.
Definition percent_encode (l : list Z) : list Z := l ≫= fun b => [37; hex_digit (b / 16); hex_digit (b mod 16)].

Lemma hex_value_digit x : 0 <= x < 16 -> hex_value (hex_digit x) = Some x.
Proof.
  intros Hx. unfold hex_digit, hex_value. destruct (Z.ltb_spec x 10).
  - rewrite (proj2 (Z.leb_le 48 _)), (proj2 (Z.leb_le _ 57)) by lia. cbn [andb]. f_equal. lia.
  - rewrite (proj2 (Z.leb_gt _ 57)), (proj2 (Z.leb_gt 97 _)) by lia. rewrite !andb_false_r. cbn [andb].
    rewrite (proj2 (Z.leb_le 65 _)), (proj2 (Z.leb_le _ 70)) by lia. cbn [andb]. f_equal. lia.
Qed.

Lemma url_decode_length room src : (length (url_decode_loop room src) <= room)%nat.
Proof.
  revert src. induction room as [|room IH]; intros src; [done|].
  destruct src as [|c [|h1 [|h2 s3]]]; cbn [url_decode_loop]; try case_match; cbn [length]; (apply le_n_S, IH || lia).
Qed.

Lemma url_decode_percent l rest room : Forall byte_ok l -> (length l <= room)%nat ->
  url_decode_loop room (percent_encode l ++ rest) = l ++ url_decode_loop (room - length l) rest.
Proof.
  intros Hl. revert room. induction Hl as [|b l Hb Hl IH]; intros room Hroom; [by rewrite Nat.sub_0_r|].
  cbn [length] in Hroom. destruct room as [|room]; [lia|]. cbn [percent_encode mbind list_bind app url_decode_loop].
  change (37 =? 37) with true. cbv iota. unfold byte_ok in Hb.
  rewrite !hex_value_digit by (Z.to_euclidean_division_equations; lia). cbn [mbind option_bind length Nat.sub].
  rewrite IH by lia. f_equal. pose proof (Z.div_mod b 16). lia.
Qed.

Lemma http_url_decode_fits l dst_size : Forall byte_ok l -> (length l < dst_size)%nat ->
  http_url_decode (percent_encode l) dst_size = Some l.
Proof.
  intros Hl Hsize. unfold http_url_decode. rewrite (proj2 (Nat.eqb_neq _ _)) by lia.
  rewrite <- (app_nil_r (percent_encode l)), url_decode_percent by (done || lia). f_equal.
  destruct (dst_size - 1 - length l)%nat; by rewrite app_nil_r.
Qed.

(** [http_url_decode] never writes more than the buffer holds, and decodes the
    percent-encoding of any byte sequence that fits back to it. *)
Theorem http_url_decode_roundtrip l dst_size : Forall byte_ok l -> (length l < dst_size)%nat ->
  http_url_decode (percent_encode l) dst_size = Some l /\
  forall src out, http_url_decode src dst_size = Some out -> (length out < dst_size)%nat.
Proof.
  intros Hl Hsize. split; [by apply http_url_decode_fits|]. unfold http_url_decode. rewrite (proj2 (Nat.eqb_neq _ _)) by lia.
  intros src out [= <-]. pose proof (url_decode_length (dst_size - 1) src). lia.
Qed.

Lemma http_url_decode_roundtrip_witness :
  percent_encode (str_bytes "a b&") = str_bytes "%61%20%62%26" /\
  http_url_decode (percent_encode (str_bytes "a b&")) 5 = Some (str_bytes "a b&").
Proof.
  split; [vm_compute; reflexivity|].
  apply (http_url_decode_roundtrip (str_bytes "a b&") 5); [apply str_bytes_ok|vm_compute; lia].
Defined.

(** ** Headers *)

(** No blank at the start, no blank or line end at the end. *)
Definition trimmed (v : list Z) : Prop := skip_blanks v = v /\ trim_end v = v.
Definition header_ok (h : HttpHeader) : Prop :=
  58 ∉ name h /\ trimmed (value h) /\ (length (name h) < HTTP_MAX_HEADER_NAME)%nat /\ (length (value h) < HTTP_MAX_HEADER_VALUE)%nat.

Lemma trim_end_app v w : trim_end w = [] -> trim_end (v ++ w) = trim_end v.
Proof. intros Hw. induction v as [|c v IH]; cbn; [done|]. by rewrite IH. Qed.

Lemma skip_blanks_length s : (length (skip_blanks s) <= length s)%nat.
Proof. induction s as [|x s IH]; cbn [skip_blanks length]; [lia|]. destruct (_ || _); cbn [length]; lia. Qed.
Lemma skip_blanks_app v w : skip_blanks v = v -> skip_blanks w = w -> skip_blanks (v ++ w) = v ++ w.
Proof.
  destruct v as [|c v]; [done|]. cbn [app skip_blanks]. destruct (_ || _); [|done]. intros H.
  pose proof (skip_blanks_length v) as Hlen. rewrite H in Hlen. cbn in Hlen. lia.
Qed.

(** A header line, whatever blanks and line ends follow it. *)
Lemma http_parse_header_text h req w : header_ok h -> (length (headers req) < HTTP_MAX_HEADERS)%nat ->
  skip_blanks w = w -> trim_end w = [] ->
  http_parse_header (name h ++ [58; 32] ++ value h ++ w) req =
  (true, mk_request (method req) (path req) (query_string req) (headers req ++ [h]) (body req)).
Proof.
  intros (Hn & [Hv1 Hv2] & Hnl & Hvl) Hlen Hw1 Hw2. unfold http_parse_header. rewrite (proj2 (Nat.leb_gt _ _)) by done.
  cbn [app]. rewrite strchr_before_app by done.
  replace (drop (S (length (name h))) (name h ++ 58 :: 32 :: value h ++ w)) with (32 :: value h ++ w).
  2: { rewrite drop_app_ge by lia. by replace (S (length (name h)) - length (name h))%nat with 1%nat by lia. }
  cbn [skip_blanks]. change ((32 =? 32) || (32 =? 9)) with true. cbv iota.
  rewrite skip_blanks_app, trim_end_app, Hv2, !truncated_id by done. by destruct h.
Qed.

(** Parsing the line printed for a header gives back that header, appended to
    the request, and a lookup of its name in any letter case finds its value unless
    an earlier header has the same name. *)
Theorem http_header_roundtrip h req n : header_ok h -> (length (headers req) < HTTP_MAX_HEADERS)%nat ->
  let '(ok, req') := http_parse_header (header_line h) req in
  ok = true /\ headers req' = headers req ++ [h] /\
  (strcasecmp_eq (name h) n = true -> http_request_get_header req n = None -> http_request_get_header req' n = Some (value h)).
Proof.
  intros Hh Hlen. unfold header_line. rewrite http_parse_header_text by done. split_and!; [done|done|].
  intros Heq Hnone. unfold http_request_get_header in *. cbn [headers].
  assert (Hf : find_idx (fun h => strcasecmp_eq (name h) n) (headers req ++ [h]) = Some (length (headers req))).
  { apply find_idx_Some. exists h. rewrite lookup_app_r, Nat.sub_diag by done. split_and!; [done|done|].
    intros j y Hy Hj. rewrite lookup_app_l in Hy by done.
    destruct (find_idx (fun h => strcasecmp_eq (name h) n) (headers req)) as [i|] eqn:Hi.
    - exfalso. apply find_idx_Some in Hi as (x & Hx & _). cbn in Hnone. by rewrite Hx in Hnone.
    - rewrite find_idx_None in Hi. apply Hi. by eapply list_elem_of_lookup_2. }
  rewrite Hf. cbn [mbind option_bind]. by rewrite lookup_app_r, Nat.sub_diag by done.
Qed.

Lemma http_header_roundtrip_witness :
  let '(ok, req') := http_parse_header (header_line (mk_header (str_bytes "Content-Type") (str_bytes "text/html; q=1"))) http_request_init in
  ok = true /\ headers req' = [mk_header (str_bytes "Content-Type") (str_bytes "text/html; q=1")] /\
  http_request_get_header req' (str_bytes "content-TYPE") = Some (str_bytes "text/html; q=1").
Proof.
  pose proof (http_header_roundtrip (mk_header (str_bytes "Content-Type") (str_bytes "text/html; q=1")) http_request_init
    (str_bytes "content-TYPE")) as H.
  destruct (http_parse_header _ _) as [ok req']. destruct H as (H1 & H2 & H3).
  - split_and!; [|split; vm_compute; reflexivity|vm_compute; lia|vm_compute; lia].
    intros H%list_elem_of_In. vm_compute in H. intuition discriminate.
  - vm_compute. lia.
  - split_and!; [done|exact H2|]. apply H3; vm_compute; reflexivity.
Defined.

(** ** Query strings *)

(** The specification: the pieces between &, and the value of the first piece whose
    part before its first = is the key. *)
Fixpoint pieces (c : Z) (s : list Z) : list (list Z) :=
  match s with
  | [] => [[]]
  | x :: s' => if x =? c then [] :: pieces c s' else match pieces c s' with a :: l => (x :: a) :: l | [] => [[x]] end
  end.
Fixpoint query_spec (key : list Z) (ps : list (list Z)) : option (list Z) :=
  match ps with
  | [] => None
  | p :: ps' =>
      match strchr_before 61 p with
      | Some k => if bool_decide (k = key) then Some (drop (S (length k)) p) else query_spec key ps'
      | None => query_spec key ps'
      end
  end.

Lemma pieces_cons c s : pieces c s = default s (strchr_before c s) ::
  match strchr_before c s with Some seg => pieces c (drop (S (length seg)) s) | None => [] end.
Proof.
  induction s as [|x s IH]; [done|]. cbn [pieces strchr_before]. destruct (Z.eqb_spec x c) as [->|]; [done|].
  rewrite IH. by destruct (strchr_before c s) as [seg|].
Qed.

Lemma strchr_before_spec c s k : strchr_before c s = Some k ->
  exists rest, s = k ++ c :: rest /\ c ∉ k.
Proof.
  revert k. induction s as [|x s IH]; intros k; cbn; [done|]. destruct (Z.eqb_spec x c) as [->|Hx].
  - intros [= <-]. exists s. split; [done|apply not_elem_of_nil].
  - intros (k' & Hk & ->)%fmap_Some. destruct (IH k' Hk) as (rest & -> & Hc). exists rest. split; [done|].
    by apply not_elem_of_cons.
Qed.
Lemma strchr_before_None c s : strchr_before c s = None <-> c ∉ s.
Proof.
  induction s as [|x s IH]; cbn; [split; [intros _; apply not_elem_of_nil|done]|].
  rewrite not_elem_of_cons. destruct (Z.eqb_spec x c) as [->|Hx]; [split; [done|by intros [? _]]|].
  rewrite fmap_None, IH. split; [intros ?; split; congruence|tauto].
Qed.

(** The first = of the text, seen from its first piece. *)
Lemma eq_in_piece p : let seg := default p (strchr_before 38 p) in
  match strchr_before 61 p with
  | Some k => if (length seg <? length k)%nat then strchr_before 61 seg = None else strchr_before 61 seg = Some k
  | None => strchr_before 61 seg = None
  end.
Proof.
  intros seg. destruct (strchr_before 38 p) as [s|] eqn:Hamp; cbn in seg.
  2: { unfold seg. destruct (strchr_before 61 p) as [k|] eqn:Hk; [|done].
       apply strchr_before_spec in Hk as (rest & -> & _). rewrite (proj2 (Nat.ltb_ge _ _)); [done|]. rewrite length_app. lia. }
  apply strchr_before_spec in Hamp as (r1 & Hp & Hs). unfold seg. clear seg.
  destruct (strchr_before 61 p) as [k|] eqn:Hk.
  2: { apply strchr_before_None. apply strchr_before_None in Hk. intros Hin. apply Hk. rewrite Hp. apply elem_of_app. by left. }
  apply strchr_before_spec in Hk as (r2 & Hp2 & Hk). destruct (Nat.ltb_spec (length s) (length k)) as [Hlt|Hge].
  - apply strchr_before_None. intros Hin. apply Hk.
    assert (Hsk : s = take (length s) k).
    { rewrite Hp in Hp2. apply (f_equal (take (length s))) in Hp2. by rewrite take_app_length, take_app_le in Hp2 by lia. }
    rewrite Hsk in Hin. by apply elem_of_take in Hin as (i & Hi%list_elem_of_lookup_2 & _).
  - assert (Hpre : exists t, s = k ++ 61 :: t).
    { assert (Hl : length k <> length s).
      { intros Hl. rewrite Hp in Hp2. apply (f_equal (lookup (length s))) in Hp2.
        rewrite lookup_app_r, Nat.sub_diag in Hp2 by lia. rewrite <- Hl, lookup_app_r, Nat.sub_diag in Hp2 by lia. done. }
      rewrite Hp in Hp2. apply (f_equal (take (length s))) in Hp2. rewrite take_app_length, take_app_ge in Hp2 by lia.
      destruct (length s - length k)%nat eqn:Hd; [lia|]. cbn in Hp2. eauto. }
    destruct Hpre as [t ->]. by apply strchr_before_app.
Qed.

(** [http_parse_query_string] terminates on every input and finds the value of
    the first piece between & whose key is the one asked for. *)
Theorem http_parse_query_string_correct query key_sz val_sz key :
  http_parse_query_string query key_sz val_sz key = Some (
    v ← query_spec key (pieces 38 query);
    Some (truncated val_sz v, default [] (http_url_decode (truncated val_sz v) key_sz))).
Proof.
  unfold http_parse_query_string. assert (Hl : (length query <= length query)%nat) by done. revert Hl.
  generalize (length query) at 2 3. intros fuel. revert query. induction fuel as [|fuel IH]; intros p Hl.
  { destruct p; [done|cbn in Hl; lia]. }
  destruct p as [|c p]; [done|]. cbn [query_loop]. rewrite pieces_cons. set (q := c :: p) in *.
  set (seg := default q (strchr_before 38 q)). cbn [query_spec].
  assert (Hnext : query_loop fuel key_sz val_sz key (drop (S (length seg)) q) = Some (
     v ← query_spec key match strchr_before 38 q with Some s => pieces 38 (drop (S (length s)) q) | None => [] end;
     Some (truncated val_sz v, default [] (http_url_decode (truncated val_sz v) key_sz)))).
  { unfold seg. destruct (strchr_before 38 q) as [s|] eqn:Hs; cbn [default from_option id].
    - rewrite IH; [done|]. rewrite length_drop. lia.
    - rewrite drop_ge by lia. by destruct fuel. }
  pose proof (eq_in_piece q) as He. cbv zeta in He. fold seg in He.
  destruct (strchr_before 61 q) as [k|]; [|by rewrite He].
  destruct (length seg <? length k)%nat; rewrite He; [done|]. case_bool_decide; done.
Qed.

(** ** Responses *)

Lemma sprint_all_fits buf_size texts s : length s.1 = s.2 -> (s.2 + length (concat texts) < buf_size)%nat ->
  sprint_all buf_size s texts = Some (s.1 ++ concat texts, (s.2 + length (concat texts))%nat).
Proof.
  revert s. induction texts as [|t ts IH]; intros [out off] Hs Hfit; cbn [concat sprint_all fst snd] in *.
  { rewrite app_nil_r, Nat.add_0_r. done. }
  rewrite length_app in Hfit. unfold sprint. cbn [fst snd]. rewrite (proj2 (Nat.ltb_ge _ _)) by lia. cbn [mbind option_bind].
  rewrite take_ge by lia. rewrite IH; cbn [fst snd]; [|rewrite length_app; lia|lia].
  by rewrite length_app, <- app_assoc, Nat.add_assoc.
Qed.

Definition response_head (res : HttpResponse) : list Z :=
  status_line res ++ concat (header_line <$> res_headers res)
    ++ (if (0 <? body_len res)%nat then length_line (body_len res) else []) ++ crlf.

(** When the head of a response fits the buffer, [http_serialize_response]
    writes the status line, every header, the length and the blank line, then as
    much of the body as there is room for, and returns the number of bytes. *)
Theorem http_serialize_response_correct res buf_size : (length (response_head res) < buf_size)%nat ->
  let room := (buf_size - length (response_head res))%nat in
  let b := default [] (res_body res) in
  let sent := if (length b <? room)%nat then b else take (room - 1) b in
  http_serialize_response res buf_size = Some (response_head res ++ sent, length (response_head res ++ sent)).
Proof.
  intros Hfit room b sent. unfold http_serialize_response.
  assert (Hhead : concat (status_line res :: (header_line <$> res_headers res)
           ++ (if (0 <? body_len res)%nat then [length_line (body_len res)] else []) ++ [crlf]) = response_head res).
  { cbn [concat]. unfold response_head. rewrite !concat_app. f_equal. f_equal. destruct (0 <? _)%nat; cbn; by rewrite ?app_nil_r. }
  rewrite sprint_all_fits; cbn [fst snd]; rewrite ?Hhead; [|done|done]. cbn [mbind option_bind app Nat.add snd fst].
  unfold sent, b, room. destruct (res_body res) as [b'|]; cbn [default from_option id].
  - rewrite (proj2 (Nat.ltb_lt _ buf_size)) by done. rewrite andb_true_r. destruct (Nat.ltb_spec 0 (length b')) as [Hb|Hb].
    + destruct (Nat.ltb_spec (length b') (buf_size - length (response_head res))).
      * rewrite take_ge by done. by rewrite length_app.
      * rewrite length_app, length_take. do 2 f_equal. lia.
    + apply Nat.le_0_r, nil_length_inv in Hb as ->. cbn [length]. rewrite take_nil. destruct (_ <? _)%nat; by rewrite app_nil_r.
  - cbn [length]. rewrite take_nil. destruct (_ <? _)%nat; by rewrite app_nil_r.
Qed.

Lemma http_serialize_response_correct_witness :
  let res := http_response_set_body_str (http_response_add_header http_response_init (str_bytes "A") (str_bytes "b")) (str_bytes "hi") in
  http_serialize_response res 100 =
    Some (response_head res ++ str_bytes "hi", length (response_head res ++ str_bytes "hi")).
Proof.
  intros res. apply (http_serialize_response_correct res 100). vm_compute. lia.
Defined.

(** A head longer than the buffer, with a header still to print: the next
    [snprintf] writes past the end of the buffer. *)
Theorem http_serialize_response_overflows res buf_size :
  (buf_size < length (status_line res))%nat -> http_serialize_response res buf_size = None.
Proof.
  intros H. unfold http_serialize_response. cbn [sprint_all]. unfold sprint at 1. cbn [snd].
  rewrite (proj2 (Nat.ltb_ge buf_size 0)) by lia. cbn [mbind option_bind fst snd Nat.add].
  destruct ((header_line <$> res_headers res) ++ _) as [|t ts] eqn:He.
  - by apply app_nil in He as [_ [_ ?]%app_nil].
  - cbn [sprint_all]. unfold sprint at 1. cbn [snd]. by rewrite (proj2 (Nat.ltb_lt _ _)).
Qed.
