(* ===== verification/WebSocket.v ===== *)
(** Model of [mini-web-server/src/websocket.c]: the handshake of RFC 6455 with its
    SHA-1 and base64, and the encoding and decoding of frames.

    [ws_generate_mask] only calls [rand] and is left out, as are [malloc] and
    [free]. *)

From S2P Require Import Prelude Bytes HttpCore.

Definition WS_MAX_FRAME_SIZE : Z := 64 * 1024.
Definition WS_GUID : list Z := str_bytes "258EAFA5-E914-47DA-95CA-C5AB0DC85B11".
Definition WS_MAX_PAYLOAD_126 : Z := 125.
Definition WS_PAYLOAD_16BIT : Z := 126.
Definition WS_PAYLOAD_64BIT : Z := 127.

Record WsFrame := mk_frame {
  fin : bool; masked : bool; opcode : Z; payload_len : Z; mask_key : list Z; payload_data : option (list Z) }.

(** ** SHA-1 *)

Definition sha1_rotl (val bits : Z) : Z := Z.lor (u32 (Z.shiftl val bits)) (Z.shiftr val (32 - bits)).

Definition be_bytes (n : nat) (x : Z) : list Z :=
  (fun i => Z.land (Z.shiftr x (8 * i)) 255) <$> rev (seqZ 0 (Z.of_nat n)).

Definition sha1_pad (input : list Z) : list Z :=
  let len := Z.of_nat (length input) in
  let padded_len := ((len + 8) / 64 + 1) * 64 in
  input ++ [128] ++ replicate (Z.to_nat (padded_len - len - 9)) 0 ++ be_bytes 8 (u64 (len * 8)).

(** [w[0..15]] of the block at [off], then [w[16..79]]. *)
Definition sha1_word (msg : list Z) (o : nat) : Z :=
  Z.lor (Z.lor (Z.lor (Z.shiftl (msg !!! o) 24) (Z.shiftl (msg !!! (o + 1)%nat) 16)) (Z.shiftl (msg !!! (o + 2)%nat) 8)) (msg !!! (o + 3)%nat).
Definition sha1_schedule (msg : list Z) (off : nat) : list Z :=
  foldl (fun w i => w ++ [sha1_rotl (Z.lxor (Z.lxor (Z.lxor (w !!! (i - 3)%nat) (w !!! (i - 8)%nat)) (w !!! (i - 14)%nat)) (w !!! (i - 16)%nat)) 1])
    ((fun i => sha1_word msg (off + i * 4)) <$> seq 0 16) (seq 16 64).

Record sha1_state := mk_sha1 { sa : Z; sb : Z; sc : Z; sd : Z; se : Z }.
Definition sha1_round (s : sha1_state) (iw : nat * Z) : sha1_state :=
  let '(i, w) := iw in
  let '(mk_sha1 a b c d e) := s in
  let '(f, k) :=
    if (i <? 20)%nat then (Z.lor (Z.land b c) (Z.land (Z.lxor b 0xFFFFFFFF) d), 0x5A827999)
    else if (i <? 40)%nat then (Z.lxor (Z.lxor b c) d, 0x6ED9EBA1)
    else if (i <? 60)%nat then (Z.lor (Z.lor (Z.land b c) (Z.land b d)) (Z.land c d), 0x8F1BBCDC)
    else (Z.lxor (Z.lxor b c) d, 0xCA62C1D6) in
  mk_sha1 (u32 (sha1_rotl a 5 + f + e + k + w)) a (sha1_rotl b 30) c d.

Definition sha1_block (msg : list Z) (h : sha1_state) (blk : nat) : sha1_state :=
  let w := sha1_schedule msg (blk * 64) in
  let r := foldl sha1_round h (zip (seq 0 80) w) in
  mk_sha1 (u32 (sa h + sa r)) (u32 (sb h + sb r)) (u32 (sc h + sc r)) (u32 (sd h + sd r)) (u32 (se h + se r)).

Definition ws_sha1 (input : list Z) : list Z :=
  let msg := sha1_pad input in
  let '(mk_sha1 a b c d e) := foldl (sha1_block msg) (mk_sha1 0x67452301 0xEFCDAB89 0x98BADCFE 0x10325476 0xC3D2E1F0)
                                (seq 0 (length msg / 64)) in
  be_bytes 4 a ++ be_bytes 4 b ++ be_bytes 4 c ++ be_bytes 4 d ++ be_bytes 4 e.

(** ** base64 *)

Definition b64_tbl : list Z := str_bytes "ABCDEFGHIJKLMNOPQRSTUVWXYZabcdefghijklmnopqrstuvwxyz0123456789+/".
Definition tbl (x : Z) : Z := b64_tbl !!! Z.to_nat (Z.land x 63).
Definition b64_triple (a b c : Z) : Z := Z.lor (Z.lor (Z.shiftl a 16) (Z.shiftl b 8)) c.
Fixpoint b64_loop (input : list Z) : list Z :=
  match input with
  | a :: b :: c :: rest =>
      let t := b64_triple a b c in
      tbl (Z.shiftr t 18) :: tbl (Z.shiftr t 12) :: tbl (Z.shiftr t 6) :: tbl t :: b64_loop rest
  | [a; b] => let t := b64_triple a b 0 in [tbl (Z.shiftr t 18); tbl (Z.shiftr t 12); tbl (Z.shiftr t 6); 61]
  | [a] => let t := b64_triple a 0 0 in [tbl (Z.shiftr t 18); tbl (Z.shiftr t 12); 61; 61]
  | [] => []
  end.
(** [None] stands for -1. *)
Definition ws_base64_encode (input : list Z) (out_sz : nat) : option (list Z) :=
  let out_len := ((length input + 2) / 3 * 4)%nat in
  if (out_sz <=? out_len)%nat then None else Some (b64_loop input).

(** ** Handshake *)

(** [None]: the request is not a WebSocket handshake; otherwise what is written to
    the accept buffer. *)
Definition ws_validate_handshake (req : HttpRequest) (accept_sz : nat) : option (option (list Z)) :=
  upgrade ← http_request_get_header req (str_bytes "Upgrade");
  if negb (strcasecmp_eq upgrade (str_bytes "websocket")) then None
  else
    conn ← http_request_get_header req (str_bytes "Connection");
    match strstr_after (str_bytes "Upgrade") conn with
    | None => None
    | Some _ =>
        k ← http_request_get_header req (str_bytes "Sec-WebSocket-Key");
        if (length k =? 0)%nat then None
        else
          ver ← http_request_get_header req (str_bytes "Sec-WebSocket-Version");
          if negb (bool_decide (ver = str_bytes "13")) then None
          else
            let combined := k ++ WS_GUID in
            if (256 <=? length combined)%nat then None
            else Some (if (0 <? accept_sz)%nat then ws_base64_encode (ws_sha1 combined) accept_sz else None)
    end.

Definition ws_build_handshake_response (accept_key protocol : option (list Z)) (res : HttpResponse) : HttpResponse :=
  let res := http_response_set_status res 101 in
  let res := http_response_add_header res (str_bytes "Upgrade") (str_bytes "websocket") in
  let res := http_response_add_header res (str_bytes "Connection") (str_bytes "Upgrade") in
  let res := match accept_key with
             | Some k => http_response_add_header res (str_bytes "Sec-WebSocket-Accept") k
             | None => res end in
  match protocol with
  | Some p => if (0 <? length p)%nat then http_response_add_header res (str_bytes "Sec-WebSocket-Protocol") p else res
  | None => res
  end.

(** ** Frames *)

(** Byte [i] is combined with [mask_key[i & 3]]. *)
Definition ws_mask_payload (data key : list Z) : list Z :=
  imap (fun i b => Z.lxor b (key !!! (i mod 4)%nat)) data.

(** [memcpy(out + pos, bs, n)]; [None] when it goes past the end of [out]. *)
Definition put (out : list Z) (pos : nat) (bs : list Z) : option (list Z) :=
  if (length out <? pos + length bs)%nat then None else Some (take pos out ++ bs ++ drop (pos + length bs) out).

Definition flag (b : bool) : Z := if b then 0x80 else 0x00.
Definition length_bytes (m : bool) (plen : Z) : list Z :=
  if plen <=? WS_MAX_PAYLOAD_126 then [Z.lor (flag m) plen]
  else if plen <=? 65535 then Z.lor (flag m) WS_PAYLOAD_16BIT :: be_bytes 2 plen
  else Z.lor (flag m) WS_PAYLOAD_64BIT :: be_bytes 8 plen.
Definition frame_header (f : WsFrame) : list Z :=
  Z.lor (flag (fin f)) (Z.land (opcode f) 0x0F) :: length_bytes (masked f) (payload_len f)
    ++ (if masked f then mask_key f else []).

(** The return value and the buffer; the header is written before the size is
    checked. *)
Definition ws_encode_frame (f : WsFrame) (out : list Z) : option (Z * list Z) :=
  let hdr := frame_header f in
  let pos := Z.of_nat (length hdr) in
  out ← put out 0 hdr;
  if Z.of_nat (length out) <? u64 (pos + payload_len f) then Some (-1, out)
  else
    out ← match payload_data f with
          | Some data =>
              if 0 <? payload_len f then
                if Z.of_nat (length data) <? payload_len f then None
                else
                  let data := take (Z.to_nat (payload_len f)) data in
                  put out (length hdr) (if masked f then ws_mask_payload data (mask_key f) else data)
              else Some out
          | None => Some out
          end;
    Some (s32 (u64 (pos + payload_len f)), out).

(** [None] stands for -1. *)
Definition ws_decode_frame (data : list Z) : option WsFrame :=
  let len := length data in
  if (len <? 2)%nat then None
  else
    let fin := negb (Z.land (data !!! 0%nat) 0x80 =? 0) in
    let opcode := Z.land (data !!! 0%nat) 0x0F in
    let masked := negb (Z.land (data !!! 1%nat) 0x80 =? 0) in
    let plen := Z.land (data !!! 1%nat) 0x7F in
    '(plen, pos) ← (if plen =? WS_PAYLOAD_16BIT then
                      if (len <? 4)%nat then None else Some (Z.lor (Z.shiftl (data !!! 2%nat) 8) (data !!! 3%nat), 4%nat)
                    else if plen =? WS_PAYLOAD_64BIT then
                      if (len <? 10)%nat then None
                      else Some (foldl (fun p i => Z.lor (u64 (Z.shiftl p 8)) (data !!! (2 + i)%nat)) 0 (seq 0 8), 10%nat)
                    else Some (plen, 2%nat));
    if WS_MAX_FRAME_SIZE <? plen then None
    else
      '(key, pos) ← (if masked then
                       if (len <? pos + 4)%nat then None else Some (take 4 (drop pos data), (pos + 4)%nat)
                     else Some ([0; 0; 0; 0], pos));
      if Z.of_nat len <? Z.of_nat pos + plen then None
      else
        let payload := take (Z.to_nat plen) (drop pos data) in
        Some (mk_frame fin masked opcode plen key
                (if 0 <? plen then Some (if masked then ws_mask_payload payload key else payload) else None)).

(** ** The bytes of a header *)

Lemma first_byte_table :
  forallb (fun x => forallb (fun b => bool_decide (negb (Z.land (Z.lor (flag b) (Z.land x 0x0F)) 0x80 =? 0) = b) &&
    (Z.land (Z.lor (flag b) (Z.land x 0x0F)) 0x0F =? x)) [true; false]) (seqZ 0 16) = true.
Proof. vm_compute. reflexivity. Qed.
Lemma first_byte b x : 0 <= x < 16 -> 
  negb (Z.land (Z.lor (flag b) (Z.land x 0x0F)) 0x80 =? 0) = b /\ Z.land (Z.lor (flag b) (Z.land x 0x0F)) 0x0F = x.
Proof.
  intros Hx. pose proof (proj1 (forallb_forall _ _) first_byte_table x) as H.
  specialize (H ltac:(apply list_elem_of_In, elem_of_seqZ; lia)). rewrite forallb_forall in H.
  specialize (H b ltac:(destruct b; cbn; tauto)). apply andb_true_iff in H as [H1%bool_decide_eq_true_1 H2%Z.eqb_eq]. done.
Qed.

Lemma second_byte_table :
  forallb (fun x => forallb (fun b => bool_decide (negb (Z.land (Z.lor (flag b) x) 0x80 =? 0) = b) &&
    (Z.land (Z.lor (flag b) x) 0x7F =? x)) [true; false]) (seqZ 0 128) = true.
Proof. vm_compute. reflexivity. Qed.
Lemma second_byte b x : 0 <= x < 128 ->
  negb (Z.land (Z.lor (flag b) x) 0x80 =? 0) = b /\ Z.land (Z.lor (flag b) x) 0x7F = x.
Proof.
  intros Hx. pose proof (proj1 (forallb_forall _ _) second_byte_table x) as H.
  specialize (H ltac:(apply list_elem_of_In, elem_of_seqZ; lia)). rewrite forallb_forall in H.
  specialize (H b ltac:(destruct b; cbn; tauto)). apply andb_true_iff in H as [H1%bool_decide_eq_true_1 H2%Z.eqb_eq]. done.
Qed.

Lemma be_bytes_2 x : 0 <= x < 2 ^ 16 -> exists hi lo, be_bytes 2 x = [hi; lo] /\ Z.lor (Z.shiftl hi 8) lo = x.
Proof.
  intros Hx. exists (Z.land (Z.shiftr x 8) 255), (Z.land (Z.shiftr x 0) 255). split; [done|].
  rewrite !land_255, Z.shiftr_0_r, Z.shiftr_div_pow2 by lia. rewrite lor_shiftl by (try apply Z.mod_pos_bound; lia).
  Z.to_euclidean_division_equations. lia.
Qed.

Lemma be_bytes_length n x : length (be_bytes n x) = n.
Proof. unfold be_bytes. by rewrite length_fmap, length_rev, length_seqZ, Nat2Z.id. Qed.
Lemma length_bytes_length m n : (1 <= length (length_bytes m n) <= 9)%nat.
Proof. unfold length_bytes. repeat case_match; cbn [length]; rewrite ?be_bytes_length; lia. Qed.

(** ** Frames on the wire *)

Definition payload (f : WsFrame) : list Z := default [] (payload_data f).
(** A frame that [ws_decode_frame] can produce. *)
Record frame_ok (f : WsFrame) : Prop := {
  fo_opcode : 0 <= opcode f < 16;
  fo_len : payload_len f = Z.of_nat (length (payload f));
  fo_max : payload_len f <= WS_MAX_FRAME_SIZE;
  fo_data : payload_data f = None <-> payload_len f = 0;
  fo_key : if masked f then length (mask_key f) = 4%nat else mask_key f = [0; 0; 0; 0];
}.
Definition key_bytes (f : WsFrame) : list Z := if masked f then mask_key f else [].
Definition masked_payload (f : WsFrame) : list Z :=
  if masked f then ws_mask_payload (payload f) (mask_key f) else payload f.
Definition wire (f : WsFrame) : list Z := frame_header f ++ masked_payload f.

Lemma mask_length data key : length (ws_mask_payload data key) = length data.
Proof. apply length_imap. Qed.
Lemma mask_mask data key : ws_mask_payload (ws_mask_payload data key) key = data.
Proof.
  unfold ws_mask_payload. apply list_eq. intros i. rewrite !list_lookup_imap. destruct (data !! i); [|done]. cbn.
  by rewrite Z.lxor_assoc, Z.lxor_nilpotent, Z.lxor_0_r.
Qed.
Lemma masked_payload_length f : length (masked_payload f) = length (payload f).
Proof. unfold masked_payload. destruct (masked f); by rewrite ?mask_length. Qed.
Lemma key_bytes_length f : frame_ok f -> length (key_bytes f) = if masked f then 4%nat else 0%nat.
Proof. intros Hf. pose proof (fo_key _ Hf) as H. unfold key_bytes. by destruct (masked f). Qed.

(** The three forms of the length. *)
Lemma length_bytes_cases m n : 0 <= n <= WS_MAX_FRAME_SIZE -> exists x ext, length_bytes m n = Z.lor (flag m) x :: ext /\ 0 <= x < 128 /\
  ((x = n /\ x <= 125 /\ ext = []) \/
   (x = 126 /\ exists hi lo, ext = [hi; lo] /\ Z.lor (Z.shiftl hi 8) lo = n) \/
   (x = 127 /\ n = 65536 /\ ext = [0; 0; 0; 0; 0; 1; 0; 0])).
Proof.
  unfold WS_MAX_FRAME_SIZE, length_bytes, WS_MAX_PAYLOAD_126, WS_PAYLOAD_16BIT, WS_PAYLOAD_64BIT. intros Hn.
  destruct (Z.leb_spec n 125); [exists n, []; split_and!; try lia; auto|].
  destruct (Z.leb_spec n 65535).
  - exists 126. destruct (be_bytes_2 n ltac:(lia)) as (hi & lo & -> & Hl). exists [hi; lo].
    split_and!; try lia; [done|]. right. left. eauto.
  - assert (n = 65536) as -> by lia. exists 127. eexists. split_and!; try lia; [done|]. right. right. split_and!; done.
Qed.

Lemma decode_wire f rest : frame_ok f -> ws_decode_frame (wire f ++ rest) = Some f.
Proof.
  intros Hf. pose proof (key_bytes_length f Hf) as Hkl. destruct Hf as [Hop Hlen Hmax Hdata Hkey].
  destruct (first_byte (fin f) (opcode f) Hop) as [Hfin Hopc].
  destruct (length_bytes_cases (masked f) (payload_len f) ltac:(lia)) as (x & ext & Hlb & Hx & Hext).
  destruct (second_byte (masked f) x Hx) as [Hm Hx'].
  unfold wire, frame_header. rewrite Hlb. fold (key_bytes f). cbn [app]. rewrite <- !app_assoc.
  set (tail := key_bytes f ++ masked_payload f ++ rest).
  assert (Htl : length tail = (length (key_bytes f) + length (payload f) + length rest)%nat).
  { unfold tail. rewrite !length_app, masked_payload_length. lia. }
  set (data := _ :: _ :: ext ++ tail).
  assert (Hd0 : data !!! 0%nat = Z.lor (flag (fin f)) (Z.land (opcode f) 15)) by done.
  assert (Hd1 : data !!! 1%nat = Z.lor (flag (masked f)) x) by done.
  assert (Hdl : length data = (2 + length ext + length tail)%nat) by (unfold data; cbn; rewrite length_app; lia).
  assert (Hdrop : drop (2 + length ext) data = tail) by (unfold data; cbn; by rewrite drop_app_length).
  unfold ws_decode_frame. rewrite Hd0, Hd1, Hfin, Hopc, Hm, Hx', (proj2 (Nat.ltb_ge _ _)) by lia.
  assert (Hpl : (if x =? WS_PAYLOAD_16BIT then if (length data <? 4)%nat then None else Some (Z.lor (Z.shiftl (data !!! 2%nat) 8) (data !!! 3%nat), 4%nat)
     else if x =? WS_PAYLOAD_64BIT then if (length data <? 10)%nat then None
       else Some (foldl (fun p i => Z.lor (u64 (Z.shiftl p 8)) (data !!! (2 + i)%nat)) 0 (seq 0 8), 10%nat)
     else Some (x, 2%nat)) = Some (payload_len f, (2 + length ext)%nat)).
  { unfold WS_PAYLOAD_16BIT, WS_PAYLOAD_64BIT. destruct Hext as [(-> & Hle & ->)|[(-> & hi & lo & -> & Hl)|(-> & Hn & ->)]].
    - by rewrite (proj2 (Z.eqb_neq _ 126)), (proj2 (Z.eqb_neq _ 127)) by lia.
    - cbn [length Nat.add] in Hdl. change (126 =? 126) with true. cbv iota. rewrite (proj2 (Nat.ltb_ge (length data) 4)) by lia. change (data !!! 2%nat) with hi. change (data !!! 3%nat) with lo. by rewrite Hl.
    - cbn [length Nat.add] in Hdl. rewrite (proj2 (Nat.ltb_ge (length data) 10)) by lia. rewrite Hn. unfold data. vm_compute. reflexivity. }
  rewrite Hpl. cbn [mbind option_bind]. rewrite (proj2 (Z.ltb_ge _ _)) by lia.
  assert (Hkp : (if masked f then if (length data <? 2 + length ext + 4)%nat then None
      else Some (take 4 (drop (2 + length ext) data), (2 + length ext + 4)%nat) else Some ([0; 0; 0; 0], (2 + length ext)%nat)) =
      Some (mask_key f, (2 + length ext + length (key_bytes f))%nat)).
  { rewrite Hkl, Hdrop. unfold tail, key_bytes in *. destruct (masked f).
    - rewrite (proj2 (Nat.ltb_ge _ _)) by lia. rewrite <- Hkey at 1. by rewrite take_app_length.
    - by rewrite Hkey, Nat.add_0_r. }
  rewrite Hkp. cbn [mbind option_bind]. rewrite (proj2 (Z.ltb_ge _ _)) by lia.
  rewrite <- drop_drop, Hdrop. unfold tail. rewrite drop_app_length.
  replace (Z.to_nat (payload_len f)) with (length (masked_payload f)) by (rewrite masked_payload_length; lia). rewrite take_app_length.
  f_equal. destruct f as [fin0 m op pl key pd]. cbn [WebSocket.fin WebSocket.masked opcode payload_len mask_key payload_data] in *. f_equal.
  unfold masked_payload, payload in *. cbn [WebSocket.masked payload_data mask_key] in *. destruct (Z.ltb_spec 0 pl).
  - destruct pd as [d|]; [|assert (pl = 0) by (by apply Hdata); lia]. cbn [default from_option id]. destruct m; by rewrite ?mask_mask.
  - destruct pd as [d|]; [|done]. assert (pl = 0) as Hz by lia. apply Hdata in Hz. done.
Qed.

(** Every proper prefix is reported as incomplete. *)
Lemma decode_short f k : frame_ok f -> (k < length (wire f))%nat -> ws_decode_frame (take k (wire f)) = None.
Proof.
  intros Hf Hk. pose proof (key_bytes_length f Hf) as Hkl. destruct Hf as [Hop Hlen Hmax Hdata Hkey].
  destruct (length_bytes_cases (masked f) (payload_len f) ltac:(lia)) as (x & ext & Hlb & Hx & Hext).
  destruct (second_byte (masked f) x Hx) as [Hm Hx'].
  unfold wire, frame_header in *. rewrite Hlb in *. fold (key_bytes f) in *. cbn [app] in *. rewrite <- !app_assoc in *.
  set (tail := key_bytes f ++ masked_payload f) in *.
  assert (Htl : length tail = (length (key_bytes f) + length (payload f))%nat).
  { unfold tail. by rewrite length_app, masked_payload_length. }
  destruct k as [|[|k]]; [done|done|]. cbn [take]. cbn [length] in Hk. rewrite length_app in Hk.
  set (data := _ :: _ :: take k (ext ++ tail)).
  assert (Hd1 : data !!! 1%nat = Z.lor (flag (masked f)) x) by done.
  assert (Hdl : length data = (2 + k)%nat) by (unfold data; cbn [length]; rewrite length_take, length_app; lia).
  unfold ws_decode_frame. rewrite Hdl, Hd1, Hm, Hx'. change (2 + k <? 2)%nat with false. cbv iota.
  assert (Hfin : forall pos, (pos = 2 + length ext)%nat -> 
     ('(key, pos) ← (if masked f then if (2 + k <? pos + 4)%nat then None else Some (take 4 (drop pos data), (pos + 4)%nat)
                     else Some ([0; 0; 0; 0], pos));
      if Z.of_nat (2 + k) <? Z.of_nat pos + payload_len f then None
      else let payload := take (Z.to_nat (payload_len f)) (drop pos data) in
        Some (mk_frame (negb (Z.land (data !!! 0%nat) 0x80 =? 0)) (masked f) (Z.land (data !!! 0%nat) 0x0F) (payload_len f) key
                (if 0 <? payload_len f then Some (if masked f then ws_mask_payload payload key else payload) else None))) = None).
  { intros pos ->. destruct (masked f).
    - destruct (_ <? _)%nat; [done|]. cbn [mbind option_bind]. rewrite (proj2 (Z.ltb_lt _ _)) by lia. done.
    - cbn [mbind option_bind]. rewrite (proj2 (Z.ltb_lt _ _)) by lia. done. }
  unfold WS_PAYLOAD_16BIT, WS_PAYLOAD_64BIT. destruct Hext as [(-> & Hle & ->)|[(-> & hi & lo & -> & Hl)|(-> & Hn & ->)]].
  - rewrite (proj2 (Z.eqb_neq _ 126)), (proj2 (Z.eqb_neq _ 127)) by lia. cbn [mbind option_bind].
    rewrite (proj2 (Z.ltb_ge WS_MAX_FRAME_SIZE _)) by lia. by apply Hfin.
  - change (126 =? 126) with true. cbv iota. destruct (Nat.ltb_spec (2 + k) 4); [done|]. cbn [mbind option_bind].
    destruct k as [|[|k]]; [lia|lia|]. change (data !!! 2%nat) with hi. change (data !!! 3%nat) with lo. rewrite Hl.
    rewrite (proj2 (Z.ltb_ge WS_MAX_FRAME_SIZE _)) by lia. by apply Hfin.
  - change (127 =? 126) with false. change (127 =? 127) with true. cbv iota. destruct (Nat.ltb_spec (2 + k) 10); [done|].
    cbn [mbind option_bind]. do 8 (destruct k as [|k]; [lia|]).
    change (foldl _ 0 (seq 0 8)) with (foldl (fun p b => Z.lor (u64 (Z.shiftl p 8)) b) 0 [0; 0; 0; 0; 0; 1; 0; 0]).
    change (foldl (fun p b => Z.lor (u64 (Z.shiftl p 8)) b) 0 [0; 0; 0; 0; 0; 1; 0; 0]) with 65536. rewrite <- Hn.
    rewrite (proj2 (Z.ltb_ge WS_MAX_FRAME_SIZE _)) by lia. by apply Hfin.
Qed.

(** ** Properties *)

(** C9: a frame encoded into a buffer that has room for it is written exactly, byte
    for byte up to the returned length; decoding those bytes, whatever follows
    them, gives the frame back with its payload unmasked, and decoding any proper
    prefix of them reports an incomplete frame. *)
Theorem ws_frame_roundtrip f out : frame_ok f -> (length (wire f) <= length out)%nat ->
  exists out', ws_encode_frame f out = Some (Z.of_nat (length (wire f)), out') /\
    out' = wire f ++ drop (length (wire f)) out /\
    (forall rest, ws_decode_frame (wire f ++ rest) = Some f) /\
    (forall k, (k < length (wire f))%nat -> ws_decode_frame (take k (wire f)) = None).
Proof.
  intros Hf Hroom. exists (wire f ++ drop (length (wire f)) out).
  split; [|split_and!; [done|intros rest; by apply decode_wire|intros k; by apply decode_short]].
  destruct Hf as [Hop Hlen Hmax Hdata Hkey]. unfold wire in *. rewrite length_app, masked_payload_length in *.
  set (hdr := frame_header f) in *. unfold ws_encode_frame. fold hdr. unfold WS_MAX_FRAME_SIZE in Hmax.
  assert (Hhl : (length hdr <= 14)%nat).
  { unfold hdr, frame_header. cbn [length]. rewrite length_app.
    assert (length (if masked f then mask_key f else []) <= 4)%nat by (destruct (masked f); [by rewrite Hkey|cbn; lia]).
    pose proof (length_bytes_length (masked f) (payload_len f)). cbn [length]. lia. }
  assert (Hput : put out 0 hdr = Some (hdr ++ drop (length hdr) out)) by (unfold put; by rewrite (proj2 (Nat.ltb_ge _ _)) by lia).
  rewrite Hput. cbn [mbind option_bind].
  rewrite u64_small, s32_small by lia.
  rewrite length_app, length_drop, (proj2 (Z.ltb_ge _ _)) by lia.
  assert (Hp : forall mp, length mp = length (payload f) -> put (hdr ++ drop (length hdr) out) (length hdr) mp =
    Some ((hdr ++ mp) ++ drop (length hdr + length (payload f)) out)).
  { intros mp Hmp. unfold put. rewrite length_app, length_drop, (proj2 (Nat.ltb_ge _ _)) by lia.
    rewrite take_app_length, drop_app_ge, drop_drop by lia. rewrite <- app_assoc, Hmp. do 4 f_equal. lia. }
  unfold masked_payload, payload in *. destruct (payload_data f) as [d|] eqn:Hd; cbn [default from_option id] in *.
  - destruct (Z.ltb_spec 0 (payload_len f)) as [Hpos|Hz]; [|assert (payload_len f = 0) as Hz0 by lia; by apply Hdata in Hz0].
    rewrite (proj2 (Z.ltb_ge _ _)) by lia. rewrite take_ge by lia.
    rewrite Hp; [|destruct (masked f); by rewrite ?mask_length]. cbn [mbind option_bind]. do 2 f_equal. lia.
  - cbn [length] in *. rewrite Nat.add_0_r. cbn [mbind option_bind].
    assert (Hnil : (if masked f then ws_mask_payload [] (mask_key f) else []) = ([] : list Z)) by by destruct (masked f).
    rewrite Hnil, app_nil_r. do 2 f_equal. lia.
Qed.

Lemma ws_frame_roundtrip_witness :
  let f := mk_frame true true 1 5 [0x37; 0xfa; 0x21; 0x3d] (Some (str_bytes "Hello")) in
  wire f = [0x81; 0x85; 0x37; 0xfa; 0x21; 0x3d; 0x7f; 0x9f; 0x4d; 0x51; 0x58] /\
  ws_decode_frame (wire f ++ [1; 2]) = Some f /\ ws_decode_frame (take 10 (wire f)) = None.
Proof.
  intros f. split; [vm_compute; reflexivity|].
  destruct (ws_frame_roundtrip f (replicate 16 0)) as (out & _ & _ & H1 & H2).
  - split; vm_compute; (reflexivity || (split; congruence) || done).
  - vm_compute. lia.
  - split; [apply H1|apply H2; vm_compute; lia].
Defined.

(** The header is written before the size of the buffer is looked at. *)
Theorem ws_encode_frame_overflows f out : (length out < 2)%nat -> ws_encode_frame f out = None.
Proof.
  intros H. unfold ws_encode_frame, put. rewrite (proj2 (Nat.ltb_lt _ _)); [done|].
  unfold frame_header. cbn [length]. rewrite length_app. pose proof (length_bytes_length (masked f) (payload_len f)). lia.
Qed.

(** A request is taken for a WebSocket handshake exactly when it upgrades to
    websocket, names a key and asks for version 13, and the accept value is then
    the base64 of the SHA-1 of the key and the GUID. *)
Theorem ws_validate_handshake_correct req accept_sz r :
  ws_validate_handshake req accept_sz = Some r <->
  exists u c k, http_request_get_header req (str_bytes "Upgrade") = Some u /\ strcasecmp_eq u (str_bytes "websocket") = true /\
    http_request_get_header req (str_bytes "Connection") = Some c /\ strstr_after (str_bytes "Upgrade") c <> None /\
    http_request_get_header req (str_bytes "Sec-WebSocket-Key") = Some k /\ k <> [] /\
    http_request_get_header req (str_bytes "Sec-WebSocket-Version") = Some (str_bytes "13") /\
    (length k + length WS_GUID < 256)%nat /\
    r = (if (0 <? accept_sz)%nat then ws_base64_encode (ws_sha1 (k ++ WS_GUID)) accept_sz else None).
Proof.
  unfold ws_validate_handshake. split.
  - intros H.
    destruct (http_request_get_header req (str_bytes "Upgrade")) as [u|]; [|done]. cbn [mbind option_bind] in H.
    destruct (strcasecmp_eq u _) eqn:Hu; [|done]. cbn [negb] in H.
    destruct (http_request_get_header req (str_bytes "Connection")) as [c|]; [|done]. cbn [mbind option_bind] in H.
    destruct (strstr_after (str_bytes "Upgrade") c) as [x|] eqn:Hc; [|done].
    destruct (http_request_get_header req (str_bytes "Sec-WebSocket-Key")) as [k|]; [|done]. cbn [mbind option_bind] in H.
    destruct (Nat.eqb_spec (length k) 0) as [|Hk]; [done|].
    destruct (http_request_get_header req (str_bytes "Sec-WebSocket-Version")) as [v|]; [|done]. cbn [mbind option_bind] in H.
    destruct (decide (v = str_bytes "13")) as [->|Hv]; [rewrite bool_decide_eq_true_2 in H by done|by rewrite bool_decide_eq_false_2 in H].
    cbn [negb] in H. rewrite length_app in H. destruct (Nat.leb_spec 256 (length k + length WS_GUID)); [done|].
    injection H as <-. exists u, c, k. split_and!; try done; [by rewrite Hc|by intros ->].
  - intros (u & c & k & -> & Hu & -> & Hc & -> & Hk & -> & Hl & ->). cbn [mbind option_bind]. rewrite Hu. cbn [negb].
    destruct (strstr_after _ c); [|done]. rewrite (proj2 (Nat.eqb_neq _ _)) by (by destruct k).
    rewrite bool_decide_eq_true_2 by done. cbn [negb]. by rewrite length_app, (proj2 (Nat.leb_gt _ _)) by lia.
Qed.

(** The example of RFC 6455, section 1.3. *)
Lemma ws_validate_handshake_rfc_example :
  let req := mk_request HTTP_GET (str_bytes "/chat") []
    [mk_header (str_bytes "Upgrade") (str_bytes "websocket"); mk_header (str_bytes "Connection") (str_bytes "Upgrade");
     mk_header (str_bytes "Sec-WebSocket-Key") (str_bytes "dGhlIHNhbXBsZSBub25jZQ==");
     mk_header (str_bytes "Sec-WebSocket-Version") (str_bytes "13")] [] in
  ws_validate_handshake req 29 = Some (Some (str_bytes "s3pPLMBiTxaQ9kYGzzhZRbK+xOo=")).
Proof. vm_compute. reflexivity. Qed.
