(* ===== verification/Router.v ===== *)
(** Model of [mini-web-server/src/router.c]: a trie of path segments with
    parameters ([:name]) and wildcards ([*]).

    Handlers are numbers; a dispatch yields the handler that is called and its
    parameters, whose result the C function returns.  [None] is a write past the
    array of parameters.  A name or value that fills its array is left without a
    terminating 0 by the C code; here it is cut off. *)

From S2P Require Import Prelude Bytes HttpCore.

Definition ROUTE_MAX_CHILDREN : nat := 64.
Definition ROUTE_MAX_PARAMS : nat := 16.
Definition ROUTE_MAX_PARAM_NAME : nat := 64.
Definition ROUTE_MAX_PARAM_VALUE : nat := 256.

Record RouteParam := mk_param { p_name : list Z; p_value : list Z }.

(** [endpoint] is [is_endpoint] with the method and the handler set together with it. *)
Inductive RouteNode := Node
  (segment : list Z) (is_param is_wildcard : bool) (param_name : list Z)
  (endpoint : option (HttpMethod * nat)) (children : list RouteNode).
Definition segment '(Node s _ _ _ _ _) := s.
Definition is_param '(Node _ p _ _ _ _) := p.
Definition is_wildcard '(Node _ _ w _ _ _) := w.
Definition param_name '(Node _ _ _ n _ _) := n.
Definition endpoint '(Node _ _ _ _ e _) := e.
Definition children '(Node _ _ _ _ _ c) := c.
Definition set_endpoint e '(Node s p w n _ c) := Node s p w n e c.
Definition set_children c '(Node s p w n e _) := Node s p w n e c.
#[export] Instance RouteNode_inhabited : Inhabited RouteNode := populate (Node [] false false [] None []).

Definition route_node_create (seg : list Z) : RouteNode :=
  match seg with
  | 58 :: nm => Node (truncated 256 seg) true false (truncated ROUTE_MAX_PARAM_NAME nm) None []
  | _ => Node (truncated 256 seg) false (bool_decide (seg = [42])) [] None []
  end.
Definition router_create : RouteNode := route_node_create [47].

(** The [strtok_r] loop. *)
Fixpoint strtok_all (fuel : nat) (c : Z) (s : list Z) : list (list Z) :=
  match strtok c s, fuel with
  | (Some t, rest), S fuel' => t :: strtok_all fuel' c rest
  | _, _ => []
  end.
Definition split_path (pattern : list Z) : list (list Z) := strtok_all (length pattern) 47 pattern.

(** [None] stands for [false]: a node is full.  Nothing has been added then, as a
    node created on the way has room for its child. *)
Fixpoint add_path (segs : list (list Z)) (m : HttpMethod) (h : nat) (n : RouteNode) : option RouteNode :=
  match segs with
  | [] => Some (set_endpoint (Some (m, h)) n)
  | s :: segs' =>
      match find_idx (fun c => bool_decide (segment c = s)) (children n) with
      | Some j => c ← add_path segs' m h (children n !!! j); Some (set_children (<[j := c]> (children n)) n)
      | None =>
          if (ROUTE_MAX_CHILDREN <=? length (children n))%nat then None
          else c ← add_path segs' m h (route_node_create s); Some (set_children (children n ++ [c]) n)
      end
  end.
Definition router_add (r : RouteNode) (m : HttpMethod) (pattern : list Z) (h : nat) : bool * RouteNode :=
  match add_path (split_path pattern) m h r with Some r' => (true, r') | None => (false, r) end.

(** [Some None]: no match; otherwise the parameters. *)
Definition match_node (n : RouteNode) (seg : list Z) (params : list RouteParam) : option (option (list RouteParam)) :=
  if negb (is_param n) && negb (is_wildcard n) then Some (if bool_decide (segment n = seg) then Some params else None)
  else if is_param n && (length params <? ROUTE_MAX_PARAMS)%nat then
    Some (Some (params ++ [mk_param (truncated ROUTE_MAX_PARAM_NAME (param_name n)) (truncated ROUTE_MAX_PARAM_VALUE seg)]))
  else if is_wildcard n then
    if (ROUTE_MAX_PARAMS <=? length params)%nat then None
    else Some (Some (params ++ [mk_param (str_bytes "wildcard") (truncated ROUTE_MAX_PARAM_VALUE seg)]))
  else Some None.

Fixpoint match_children (cs : list RouteNode) (seg : list Z) (params : list RouteParam) : option (option (RouteNode * list RouteParam)) :=
  match cs with
  | [] => Some None
  | c :: cs' =>
      r ← match_node c seg params;
      match r with Some ps => Some (Some (c, ps)) | None => match_children cs' seg params end
  end.
Fixpoint descend (segs : list (list Z)) (cur : RouteNode) (params : list RouteParam) : option (option (RouteNode * list RouteParam)) :=
  match segs with
  | [] => Some (Some (cur, params))
  | s :: segs' =>
      r ← match_children (children cur) s params;
      match r with Some (c, ps) => descend segs' c ps | None => Some None end
  end.

Definition router_dispatch (r : RouteNode) (m : HttpMethod) (path : list Z) : option (option (nat * list RouteParam)) :=
  d ← descend (split_path path) r [];
  Some (match d with
        | Some (n, ps) =>
            match endpoint n with
            | Some (m', h) => if bool_decide (m' = m) then Some (h, ps) else None
            | None => None
            end
        | None => None
        end).

(** ** Splitting *)

(** The specification: the nonempty pieces between slashes. *)
Definition nonempty (l : list Z) : bool := negb (bool_decide (l = [])).

Lemma pieces_skip c s : List.filter nonempty (pieces c (skip_delims c s)) = List.filter nonempty (pieces c s).
Proof. induction s as [|x s IH]; [done|]. cbn [skip_delims pieces]. destruct (x =? c) eqn:Hx; [by rewrite IH|]. cbn [pieces]. by rewrite Hx. Qed.

Lemma pieces_split c s : pieces c s = (split_delim c s).1 :: (if existsb (Z.eqb c) s then pieces c (split_delim c s).2 else []).
Proof.
  induction s as [|x s IH]; [done|]. cbn [pieces split_delim existsb]. rewrite (Z.eqb_sym c x). destruct (x =? c); [done|].
  rewrite IH. by destruct (split_delim c s) as [a b].
Qed.

Lemma split_delim_length c s : (length (split_delim c s).2 <= length s - (if existsb (Z.eqb c) s then 1 else 0))%nat.
Proof.
  induction s as [|x s IH]; [done|]. cbn [split_delim existsb]. rewrite (Z.eqb_sym c x). destruct (x =? c); cbn; [lia|].
  destruct (split_delim c s) as [a b]. cbn in *. destruct (existsb (Z.eqb c) s) eqn:He; cbn in *; [|lia].
  destruct s; cbn in *; [done|lia].
Qed.

Lemma skip_delims_length c s : (length (skip_delims c s) <= length s)%nat.
Proof. induction s as [|x s IH]; cbn; [lia|]. destruct (x =? c); cbn; lia. Qed.
Lemma skip_delims_head c s x l : skip_delims c s = x :: l -> x <> c.
Proof.
  induction s as [|y s IH]; cbn; [done|]. destruct (Z.eqb_spec y c); [done|]. by intros [= -> _].
Qed.

Lemma split_delim_nodelim c s : existsb (Z.eqb c) s = false -> (split_delim c s).2 = [].
Proof.
  induction s as [|x s IH]; [done|]. cbn [split_delim existsb]. rewrite (Z.eqb_sym c x). destruct (x =? c); [done|]. cbn.
  intros H. specialize (IH H). by destruct (split_delim c s).
Qed.

Lemma strtok_all_correct fuel c s : (length s <= fuel)%nat -> strtok_all fuel c s = List.filter nonempty (pieces c s).
Proof.
  revert s. induction fuel as [|fuel IH]; intros s Hs.
  { destruct s; [done|cbn in Hs; lia]. }
  rewrite <- pieces_skip. cbn [strtok_all]. unfold strtok.
  pose proof (skip_delims_length c s) as Hl. destruct (skip_delims c s) as [|x l] eqn:Hsk; [done|].
  pose proof (skip_delims_head c s x l Hsk) as Hx. rewrite pieces_split. pose proof (split_delim_length c (x :: l)) as Hsl.
  pose proof (split_delim_nodelim c (x :: l)) as Hnd.
  cbn [split_delim existsb] in *. rewrite (proj2 (Z.eqb_neq x c)), (proj2 (Z.eqb_neq c x)) in * by congruence.
  destruct (split_delim c l) as [a b]. cbn [orb fst snd List.filter] in *.
  change (nonempty (x :: a)) with true. cbv iota. f_equal. destruct (existsb (Z.eqb c) l).
  - apply IH. cbn in *. lia.
  - rewrite Hnd by done. destruct fuel; done.
Qed.

Lemma split_path_correct p : split_path p = List.filter nonempty (pieces 47 p).
Proof. by apply strtok_all_correct. Qed.

(** ** Registrations *)

Definition registration : Type := HttpMethod * list Z * nat.
(** A sequence of [router_add]; the accepted ones, the latest first. *)
Fixpoint registers (r : RouteNode) (adds : list registration) : RouteNode * list registration :=
  match adds with
  | [] => (r, [])
  | a :: adds' =>
      let '(r0, rs) := registers r adds' in
      let '(m, p, h) := a in
      let '(ok, r') := router_add r0 m p h in
      (r', if ok then a :: rs else rs)
  end.

(** [pat] matches [segs] with parameters [ps]. *)
Inductive matches : list (list Z) -> list (list Z) -> list RouteParam -> Prop :=
| m_nil : matches [] [] []
| m_literal s pat segs ps : is_param (route_node_create s) = false -> is_wildcard (route_node_create s) = false ->
    matches pat segs ps -> matches (s :: pat) (truncated 256 s :: segs) ps
| m_param nm s pat segs ps : matches pat segs ps ->
    matches ((58 :: nm) :: pat) (s :: segs) (mk_param (truncated ROUTE_MAX_PARAM_NAME nm) (truncated ROUTE_MAX_PARAM_VALUE s) :: ps)
| m_wildcard s pat segs ps : matches pat segs ps ->
    matches ([42] :: pat) (s :: segs) (mk_param (str_bytes "wildcard") (truncated ROUTE_MAX_PARAM_VALUE s) :: ps).

Lemma create_fields s : endpoint (route_node_create s) = None /\ children (route_node_create s) = [].
Proof. unfold route_node_create. repeat case_match; done. Qed.

Lemma create_segment s : segment (route_node_create s) = truncated 256 s.
Proof. unfold route_node_create. repeat case_match; done. Qed.

(** The tag of a node: what [route_node_create] set. *)
Definition tag (n : RouteNode) : RouteNode := set_endpoint None (set_children [] n).
Lemma tag_create s : tag (route_node_create s) = route_node_create s.
Proof. destruct (create_fields s). unfold tag. destruct (route_node_create s); cbn in *; congruence. Qed.
Lemma tag_set_endpoint e n : tag (set_endpoint e n) = tag n.
Proof. by destruct n. Qed.
Lemma tag_set_children c n : tag (set_children c n) = tag n.
Proof. by destruct n. Qed.

Lemma add_path_tag segs m h n n' : add_path segs m h n = Some n' -> tag n' = tag n.
Proof.
  destruct segs as [|s segs]; cbn; [intros [= <-]; apply tag_set_endpoint|]. repeat case_match; try done;
    intros (c & _ & [= <-])%bind_Some; apply tag_set_children.
Qed.

(** ** The nodes of a trie *)

(** [x] is reached from [n] through nodes with tags [ts]. *)
Inductive reach : RouteNode -> list RouteNode -> RouteNode -> Prop :=
| reach_here n : reach n [] n
| reach_child n c ts x : c ∈ children n -> reach c ts x -> reach n (tag c :: ts) x.

(** The nodes below [n] come from [route_node_create], for segments with [Q]. *)
Definition created (Q : list Z -> Prop) (n : RouteNode) : Prop :=
  forall ts x c, reach n ts x -> c ∈ children x -> exists s, Q s /\ tag c = route_node_create s.

Lemma created_child Q n c : created Q n -> c ∈ children n -> created Q c.
Proof. intros Hn Hc ts x c' Hr. eapply (Hn (tag c :: ts)). by constructor. Qed.

Lemma create_truncated s : route_node_create (truncated 256 s) = route_node_create s.
Proof.
  destruct s as [|c s]; [done|].
  assert (Hc : truncated 256 (c :: s) = c :: truncated 255 s) by done.
  assert (Hp : truncated ROUTE_MAX_PARAM_NAME (truncated 255 s) = truncated ROUTE_MAX_PARAM_NAME s).
  { unfold truncated, ROUTE_MAX_PARAM_NAME. rewrite take_take. done. }
  destruct (decide (c = 58)) as [->|Hne].
  - rewrite Hc. unfold route_node_create. rewrite Hp, <- Hc, truncated_truncated. done.
  - assert (Hgen : forall l, route_node_create (c :: l) = Node (truncated 256 (c :: l)) false (bool_decide (c :: l = [42])) [] None []).
    { intros l. unfold route_node_create. destruct c as [|q|q]; try done. repeat (destruct q as [q|q|]; try done). }
    rewrite Hc, !Hgen, <- Hc, truncated_truncated. f_equal. apply bool_decide_ext. rewrite Hc. split; intros [= -> Hs]; f_equal.
    + unfold truncated in Hs. destruct s as [|y s]; [done|]. done.
    + by rewrite Hs.
Qed.

Lemma tag_of_segment c s : (exists s0, tag c = route_node_create s0) -> segment c = s -> tag c = route_node_create s.
Proof.
  intros [s0 Ht] <-. rewrite Ht. assert (Hs : segment c = truncated 256 s0).
  { rewrite <- create_segment, <- Ht. by destruct c. }
  by rewrite Hs, create_truncated.
Qed.

Lemma reach_set_endpoint e n ts x : reach (set_endpoint e n) ts x ->
  (ts = [] /\ x = set_endpoint e n) \/ reach n ts x.
Proof. inversion 1; subst; [by left|]. right. constructor; [|done]. by destruct n. Qed.

(** What an insertion adds: nothing, the new endpoint, or nodes without one. *)
Lemma add_reach Q segs m h n n' : created Q n -> Forall Q segs -> add_path segs m h n = Some n' ->
  created Q n' /\ forall ts x, reach n' ts x ->
    (exists x0, reach n ts x0 /\ endpoint x0 = endpoint x) \/
    (ts = route_node_create <$> segs /\ endpoint x = Some (m, h)) \/ endpoint x = None.
Proof.
  intros Hn Hsegs. revert n n' Hn. induction Hsegs as [|s segs HQ Hsegs IH]; intros n n' Hn Hadd; cbn [add_path] in Hadd.
  { injection Hadd as <-. split.
    - intros ts x c Hr Hc. apply reach_set_endpoint in Hr as [[-> ->]|Hr]; [|by eapply Hn].
      eapply (Hn []); [constructor|]. by destruct n.
    - intros ts x Hr. apply reach_set_endpoint in Hr as [[-> ->]|Hr]; [|by left; eauto].
      right. left. split; [done|]. by destruct n. }
  assert (Hstep : forall c0 c' cs, created Q c0 -> add_path segs m h c0 = Some c' -> n' = set_children cs n ->
    tag c0 = route_node_create s -> (c0 ∈ children n \/ (forall ts x, reach c0 ts x -> endpoint x = None)) ->
    (forall c, c ∈ cs -> c = c' \/ c ∈ children n) ->
    created Q n' /\ forall ts x, reach n' ts x ->
      (exists x0, reach n ts x0 /\ endpoint x0 = endpoint x) \/
      (ts = route_node_create <$> s :: segs /\ endpoint x = Some (m, h)) \/ endpoint x = None).
  { intros c0 c' cs Hc0 Hadd' -> Htag Hin Hcs. destruct (IH c0 c' Hc0 Hadd') as [IHc IHr].
    pose proof (add_path_tag _ _ _ _ _ Hadd') as Htag'.
    assert (Hch : children (set_children cs n) = cs) by by destruct n.
    split.
    - intros ts x c Hr Hc. inversion Hr as [|? d ts' ? Hd Hr']; subst.
      + rewrite Hch in Hc. apply Hcs in Hc as [->|Hc]; [exists s; split; [done|congruence]|by eapply (Hn []); [constructor|]].
      + rewrite Hch in Hd. apply Hcs in Hd as [->|Hd]; [by eapply IHc|by eapply (created_child Q n)].
    - intros ts x Hr. inversion Hr as [|? d ts' ? Hd Hr']; subst.
      + left. exists n. split; [constructor|by destruct n].
      + rewrite Hch in Hd. apply Hcs in Hd as [->|Hd].
        * destruct (IHr _ _ Hr') as [(x0 & Hx0 & He)|[[-> He]|He]]; [|right; left; split; [cbn; congruence|done]|by auto].
          destruct Hin as [Hin|Hnone]; [|right; right; rewrite <- He; by eapply Hnone].
          left. exists x0. split; [|done]. rewrite Htag'. by constructor.
        * left. exists x. split; [by constructor|done]. }
  destruct (find_idx _ _) as [j|] eqn:Hj.
  - apply bind_Some in Hadd as (c' & Hadd' & [= <-]). apply find_idx_Some in Hj as (c0 & Hc0 & Hs & _).
    apply bool_decide_eq_true_1 in Hs. rewrite (list_lookup_total_correct _ _ _ Hc0) in Hadd'.
    apply list_elem_of_lookup_2 in Hc0 as Hin.
    eapply (Hstep c0 c'); [by eapply created_child|done|done| |by left|].
    + apply tag_of_segment; [|done]. destruct (Hn [] n c0 (reach_here n) Hin) as (s0 & _ & Ht). by exists s0.
    + intros c Hc. apply list_elem_of_lookup in Hc as (i & Hi). destruct (decide (i = j)) as [->|Hne].
      * rewrite list_lookup_insert_eq in Hi by by eapply lookup_lt_Some. left. congruence.
      * rewrite list_lookup_insert_ne in Hi by done. right. by eapply list_elem_of_lookup_2.
  - destruct (_ <=? _)%nat; [done|]. apply bind_Some in Hadd as (c' & Hadd' & [= <-]).
    assert (Hnil : forall ts x, reach (route_node_create s) ts x -> x = route_node_create s).
    { intros ts x Hr. inversion Hr as [|? d ? ? Hd]; subst; [done|].
      rewrite (proj2 (create_fields s)) in Hd. by apply not_elem_of_nil in Hd. }
    eapply (Hstep (route_node_create s) c'); [|done|done|apply tag_create| |].
    + intros ts x c Hr Hc. apply Hnil in Hr as ->. rewrite (proj2 (create_fields s)) in Hc. by apply not_elem_of_nil in Hc.
    + right. intros ts x Hr. apply Hnil in Hr as ->. apply create_fields.
    + intros c [Hc| ->%list_elem_of_singleton]%elem_of_app; auto.
Qed.

(** ** Dispatch finds registered patterns *)

(** One segment against one tag. *)
Definition tag_match (t : RouteNode) (s : list Z) (ps : list RouteParam) : Prop :=
  (is_param t = false /\ is_wildcard t = false /\ segment t = s /\ ps = []) \/
  (is_param t = true /\ ps = [mk_param (truncated ROUTE_MAX_PARAM_NAME (param_name t)) (truncated ROUTE_MAX_PARAM_VALUE s)]) \/
  (is_wildcard t = true /\ ps = [mk_param (str_bytes "wildcard") (truncated ROUTE_MAX_PARAM_VALUE s)]).

Lemma match_node_tag n s params r : match_node n s params = Some (Some r) ->
  exists ps, r = params ++ ps /\ tag_match (tag n) s ps.
Proof.
  unfold match_node, tag_match. destruct n as [sg p w nm e cs]. cbn. destruct p, w; cbn; repeat (case_match || case_bool_decide); try done;
    intros [= <-]; first [exists []; rewrite app_nil_r; split; [done|]; left; by auto | eexists; split; [reflexivity|right; by auto]].
Qed.

Lemma match_node_count n s params : (length params < ROUTE_MAX_PARAMS)%nat ->
  exists r, match_node n s params = Some r /\ forall ps, r = Some ps -> (length ps <= S (length params))%nat.
Proof.
  intros Hp. unfold match_node. destruct (negb _ && negb _).
  { eexists. split; [done|]. case_bool_decide; [|done]. intros ps [= <-]. lia. }
  destruct (is_param n && _).
  { eexists. split; [done|]. intros ps [= <-]. rewrite length_app. cbn. lia. }
  destruct (is_wildcard n); [|by eexists]. rewrite (proj2 (Nat.leb_gt _ _)) by done.
  eexists. split; [done|]. intros ps [= <-]. rewrite length_app. cbn. lia.
Qed.

Lemma match_children_spec cs s params r : match_children cs s params = Some (Some r) ->
  r.1 ∈ cs /\ match_node r.1 s params = Some (Some r.2).
Proof.
  induction cs as [|c cs IH]; cbn; [done|]. intros (o & Ho & H)%bind_Some. destruct o as [ps|].
  - injection H as <-. split; [left|done].
  - destruct (IH H) as [H1 H2]. split; [by right|done].
Qed.

Lemma descend_reach segs n params x ps : descend segs n params = Some (Some (x, ps)) ->
  exists ts qs, reach n ts x /\ ps = params ++ concat qs /\ Forall3 tag_match ts segs qs.
Proof.
  revert n params. induction segs as [|s segs IH]; intros n params; cbn.
  { intros [= <- <-]. exists [], []. rewrite app_nil_r. repeat constructor. }
  intros (o & Ho & H)%bind_Some. destruct o as [[c ps']|]; [|done].
  apply match_children_spec in Ho as [Hin Hm]. cbn in Hin, Hm. apply match_node_tag in Hm as (q & -> & Hq).
  destruct (IH _ _ H) as (ts & qs & Hr & -> & Hall). exists (tag c :: ts), (q :: qs). cbn. rewrite <- app_assoc.
  split_and!; [by constructor|done|by constructor].
Qed.

Lemma create_cases s : (exists nm, s = 58 :: nm) \/ s = [42] \/
  (is_param (route_node_create s) = false /\ is_wildcard (route_node_create s) = false).
Proof.
  destruct s as [|c s]; [by auto|]. destruct (decide (c = 58)) as [->|Hne]; [by eauto|].
  assert (Hgen : route_node_create (c :: s) = Node (truncated 256 (c :: s)) false (bool_decide (c :: s = [42])) [] None []).
  { unfold route_node_create. destruct c as [|q|q]; try done. repeat (destruct q as [q|q|]; try done). }
  rewrite Hgen. cbn. case_bool_decide; auto.
Qed.

Lemma tags_match pat segs qs : Forall3 tag_match (route_node_create <$> pat) segs qs -> matches pat segs (concat qs).
Proof.
  revert segs qs. induction pat as [|s pat IH]; intros segs qs H; inversion H as [|t g q ts gs qs' Hm Hall]; subst; [constructor|].
  cbn [concat]. specialize (IH _ _ Hall). destruct (create_cases s) as [(nm & ->)|[->|[Hp Hw]]].
  - destruct Hm as [(Hm & _)|[(_ & ->)|(Hm & _)]]; [done| |done]. cbn [route_node_create param_name]. cbn [app].
    replace (truncated ROUTE_MAX_PARAM_NAME (truncated ROUTE_MAX_PARAM_NAME nm)) with (truncated ROUTE_MAX_PARAM_NAME nm) by by rewrite truncated_truncated.
    by constructor.
  - destruct Hm as [(_ & Hm & _)|[(Hm & _)|(_ & ->)]]; [done|done|]. by constructor.
  - destruct Hm as [(_ & _ & <- & ->)|[(Hm & _)|(Hm & _)]]; [|congruence|congruence].
    rewrite create_segment. by constructor.
Qed.

Lemma registers_ok Q adds : Forall (fun a : registration => Forall Q (split_path a.1.2)) adds ->
  let '(r, rs) := registers router_create adds in
  created Q r /\ forall ts x m h, reach r ts x -> endpoint x = Some (m, h) -> exists p, (m, p, h) ∈ rs /\ ts = route_node_create <$> split_path p.
Proof.
  induction 1 as [|a adds HQ _ IH]; cbn [registers].
  { split.
    - intros ts x c Hr Hc. inversion Hr as [|? d ? ? Hd]; subst; [|by apply not_elem_of_nil in Hd]. by apply not_elem_of_nil in Hc.
    - intros ts x m h Hr He. inversion Hr as [|? d ? ? Hd]; subst; [done|by apply not_elem_of_nil in Hd]. }
  destruct (registers router_create adds) as [r rs]. destruct IH as [Hc Hreg]. destruct a as [[m p] h]. cbn [fst snd] in HQ.
  unfold router_add. destruct (add_path (split_path p) m h r) as [r'|] eqn:Hadd; [|by split].
  destruct (add_reach _ _ _ _ _ _ Hc HQ Hadd) as [Hc' Hr']. split; [done|]. intros ts x m' h' Hr He.
  destruct (Hr' _ _ Hr) as [(x0 & Hx0 & He0)|[[-> He0]|He0]]; [|exists p|congruence].
  - rewrite <- He0 in He. destruct (Hreg _ _ _ _ Hx0 He) as (p' & Hp' & ->). exists p'. split; [by right|done].
  - assert (m' = m /\ h' = h) as [-> ->] by (split; congruence). split; [left|done].
Qed.

Lemma descend_count segs n params : (length params + length segs <= ROUTE_MAX_PARAMS)%nat -> descend segs n params <> None.
Proof.
  revert n params. induction segs as [|s segs IH]; intros n params Hl; cbn in *; [done|].
  assert (Hc : forall cs, exists r, match_children cs s params = Some r /\ forall c ps, r = Some (c, ps) -> (length ps <= S (length params))%nat).
  { induction cs as [|c cs IHc]; cbn; [by eexists|]. destruct (match_node_count c s params ltac:(lia)) as (r & -> & Hr).
    cbn. destruct r as [ps|]; [|done]. eexists. split; [done|]. intros ? ? [= <- <-]. by apply Hr. }
  destruct (Hc (children n)) as (r & -> & Hr). cbn. destruct r as [[c ps]|]; [|done]. apply IH. specialize (Hr _ _ eq_refl). lia.
Qed.

(** ** Which registration a node belongs to *)

(** The endpoint at the end of the nodes with these segments. *)
Fixpoint walk (segs : list (list Z)) (n : RouteNode) : option (HttpMethod * nat) :=
  match segs with
  | [] => endpoint n
  | s :: segs' =>
      match find_idx (fun c => bool_decide (segment c = s)) (children n) with
      | Some j => walk segs' (children n !!! j)
      | None => None
      end
  end.

Lemma add_path_segment segs m h n n' : add_path segs m h n = Some n' -> segment n' = segment n.
Proof. intros H%add_path_tag. destruct n, n'. cbn in *. congruence. Qed.

Lemma find_idx_same {A} (p : A -> bool) l j x y : l !! j = Some x -> p x = p y -> find_idx p (<[j := y]> l) = find_idx p l.
Proof.
  revert j. induction l as [|z l IH]; intros [|j] Hj Hp; simplify_eq/=; [by rewrite Hp|by rewrite (IH j)].
Qed.
Lemma find_idx_app {A} (p : A -> bool) l y : find_idx p (l ++ [y]) =
  match find_idx p l with Some j => Some j | None => if p y then Some (length l) else None end.
Proof. induction l as [|x l IH]; cbn; [done|]. destruct (p x); [done|]. rewrite IH. destruct (find_idx p l); [done|]. by destruct (p y). Qed.

Lemma walk_create segs s : walk segs (route_node_create s) = None.
Proof. destruct (create_fields s) as [He Hc]. destruct segs; cbn; [done|by rewrite Hc]. Qed.

(** Insertion in the map. *)
Lemma walk_add segs m h n n' : Forall (fun s => (length s < 256)%nat) segs -> add_path segs m h n = Some n' ->
  forall ss, walk ss n' = if bool_decide (ss = segs) then Some (m, h) else walk ss n.
Proof.
  intros Hs. revert n n'. induction Hs as [|s segs Hs Hsegs IH]; intros n n' Hadd ss; cbn [add_path] in Hadd.
  { injection Hadd as <-. destruct ss; cbn [walk]; [by destruct n|]. rewrite bool_decide_eq_false_2 by done. by destruct n. }
  set (p := fun c => bool_decide (segment c = s)) in Hadd.
  destruct (find_idx p (children n)) as [j|] eqn:Hj.
  - apply bind_Some in Hadd as (c' & Hadd' & [= <-]). apply find_idx_Some in Hj as Hj'. destruct Hj' as (c0 & Hc0 & Hp & _).
    rewrite (list_lookup_total_correct _ _ _ Hc0) in Hadd'. pose proof (add_path_segment _ _ _ _ _ Hadd') as Hseg.
    destruct ss as [|t ss]; cbn [walk]; [by destruct n|].
    replace (children (set_children _ n)) with (<[j:=c']> (children n)) by by destruct n.
    rewrite (find_idx_same _ _ _ c0 c') by (done || by rewrite Hseg).
    destruct (find_idx (fun c => bool_decide (segment c = t)) (children n)) as [i|] eqn:Hi.
    + destruct (decide (i = j)) as [->|Hne].
      * apply find_idx_Some in Hi as (c1 & Hc1 & Ht & _). assert (c1 = c0) as -> by congruence.
        cbv beta delta [p] in Hp. apply bool_decide_eq_true_1 in Ht. apply bool_decide_eq_true_1 in Hp. assert (t = s) as -> by congruence.
        rewrite list_lookup_total_insert_eq by by eapply lookup_lt_Some. rewrite (IH _ _ Hadd').
        rewrite (list_lookup_total_correct _ _ _ Hc0). repeat case_bool_decide; congruence.
      * rewrite list_lookup_total_insert_ne by done. rewrite bool_decide_eq_false_2; [done|]. intros [= -> ->].
        fold p in Hi. congruence.
    + rewrite bool_decide_eq_false_2; [done|]. intros [= -> ->]. fold p in Hi. congruence.
  - destruct (_ <=? _)%nat; [done|]. apply bind_Some in Hadd as (c' & Hadd' & [= <-]).
    pose proof (add_path_segment _ _ _ _ _ Hadd') as Hseg. rewrite create_segment, truncated_id in Hseg by done.
    destruct ss as [|t ss]; cbn [walk]; [by destruct n|].
    replace (children (set_children _ n)) with (children n ++ [c']) by by destruct n.
    rewrite find_idx_app, Hseg. destruct (find_idx (fun c => bool_decide (segment c = t)) (children n)) as [i|] eqn:Hi.
    + rewrite lookup_total_app_l by (apply find_idx_Some in Hi as (? & Hi & _); by eapply lookup_lt_Some).
      rewrite bool_decide_eq_false_2; [done|]. intros [= -> ->]. fold p in Hi. congruence.
    + case_bool_decide as Hst.
      * rewrite lookup_total_app_r, Nat.sub_diag by done. cbn. rewrite (IH _ _ Hadd'), walk_create.
        repeat case_bool_decide; congruence.
      * rewrite bool_decide_eq_false_2; [done|]. congruence.
Qed.

(** The specification: the latest registration of the same path. *)
Definition route_spec (rs : list registration) (path : list Z) : option (HttpMethod * nat) :=
  i ← find_idx (fun a : registration => bool_decide (split_path a.1.2 = split_path path)) rs;
  (fun a : registration => (a.1.1, a.2)) <$> rs !! i.

(** A pattern whose segments fit a node. *)
Definition fits (p : list Z) : Prop := Forall (fun s => (length s < 256)%nat) (split_path p).

Lemma registers_walk adds : Forall (fun a : registration => fits a.1.2) adds ->
  let '(r, rs) := registers router_create adds in forall path, walk (split_path path) r = route_spec rs path.
Proof.
  induction 1 as [|a adds HQ _ IH]; cbn [registers].
  { intros path. by destruct (split_path path). }
  destruct (registers router_create adds) as [r rs]. destruct a as [[m p] h]. cbn [fst snd] in HQ.
  unfold router_add. destruct (add_path (split_path p) m h r) as [r'|] eqn:Hadd; [|done]. intros path.
  rewrite (walk_add (split_path p) m h r r') by done.
  unfold route_spec. cbn [find_idx fst snd]. case_bool_decide as Hp.
  - by rewrite bool_decide_eq_true_2.
  - rewrite bool_decide_eq_false_2 by congruence. rewrite IH. unfold route_spec. by destruct (find_idx _ rs).
Qed.

Lemma match_node_same_tag n n' s params : tag n = tag n' -> match_node n s params = match_node n' s params.
Proof. destruct n, n'. unfold tag, match_node. cbn. by intros [= -> -> -> ->]. Qed.

Lemma created_tag Q n c : created Q n -> c ∈ children n -> tag c = route_node_create (segment c).
Proof. intros Hn Hc. apply tag_of_segment; [|done]. destruct (Hn [] n c (reach_here n) Hc) as (s0 & _ & ->). by exists s0. Qed.

(** The child that matches is the first one with its segment. *)
Lemma match_children_first Q n s params c ps : created Q n -> match_children (children n) s params = Some (Some (c, ps)) ->
  exists j, find_idx (fun d => bool_decide (segment d = segment c)) (children n) = Some j /\ children n !!! j = c.
Proof.
  intros Hn. pose proof (fun d => created_tag Q n d Hn) as Ht. clear Hn. induction (children n) as [|d cs IH]; cbn; [done|].
  intros (o & Ho & H)%bind_Some. destruct o as [ps'|].
  - injection H as -> ->. exists 0%nat. by rewrite bool_decide_eq_true_2.
  - destruct IH as (j & Hj & Hc); [by intros e He; apply Ht; right|done|]. case_bool_decide as Hs; [|exists (S j); by rewrite Hj].
    exfalso. apply match_children_spec in H as [Hin Hm]. cbn [fst snd] in *.
    rewrite (match_node_same_tag d c) in Ho by (rewrite (Ht d), (Ht c) by (left || by right); by rewrite Hs). congruence.
Qed.

Lemma descend_walks Q segs : forall n params x ps, created Q n -> descend segs n params = Some (Some (x, ps)) ->
  exists ts qs, reach n ts x /\ ps = params ++ concat qs /\ Forall3 tag_match ts segs qs /\ walk (segment <$> ts) n = endpoint x.
Proof.
  induction segs as [|s segs IH]; intros n params x ps Hn; cbn.
  { intros [= <- <-]. exists [], []. rewrite app_nil_r. repeat constructor. }
  intros (o & Ho & H)%bind_Some. destruct o as [[c ps']|]; [|done].
  destruct (match_children_first Q n s params c ps' Hn Ho) as (j & Hj & Hc).
  apply match_children_spec in Ho as [Hin Hm]. cbn in Hin, Hm. apply match_node_tag in Hm as (q & -> & Hq).
  destruct (IH _ _ _ _ (created_child Q n c Hn Hin) H) as (ts & qs & Hr & -> & Hall & Hw).
  exists (tag c :: ts), (q :: qs). cbn. rewrite <- app_assoc. split_and!; [by constructor|done|by constructor|].
  replace (segment (tag c)) with (segment c) by by destruct c. by rewrite Hj, Hc.
Qed.

Lemma registers_incl adds : (registers router_create adds).2 ⊆ adds.
Proof.
  induction adds as [|[[m p] h] adds IH]; cbn [registers]; [done|]. destruct (registers router_create adds) as [r rs].
  destruct (router_add r m p h) as [[] r']; cbn [snd] in *; [by apply list_subseteq_skip|by apply list_subseteq_cons].
Qed.

Lemma created_segments p : fits p -> segment <$> (route_node_create <$> split_path p) = split_path p.
Proof. unfold fits. induction 1 as [|s l Hs _ IH]; cbn; [done|]. rewrite create_segment, truncated_id by done. f_equal. exact IH. Qed.



(** ** Literal patterns: the trie is a map *)

(** A segment that is neither a parameter nor a wildcard and fits a node. *)
Definition literal (s : list Z) : Prop :=
  is_param (route_node_create s) = false /\ is_wildcard (route_node_create s) = false /\ (length s < 256)%nat.

Lemma literal_fits (a : registration) : Forall literal (split_path a.1.2) -> fits a.1.2.
Proof. intros Ha. eapply Forall_impl; [exact Ha|by intros s (_ & _ & ?)]. Qed.

Lemma match_children_literal cs s : Forall (fun c => is_param c = false /\ is_wildcard c = false) cs ->
  match_children cs s [] = Some ((fun j => (cs !!! j, [])) <$> find_idx (fun c => bool_decide (segment c = s)) cs).
Proof.
  induction 1 as [|c cs [Hp Hw] _ IH]; [done|]. cbn [match_children find_idx]. unfold match_node. rewrite Hp, Hw. cbn [negb andb].
  case_bool_decide; [done|]. cbn [mbind option_bind]. rewrite IH. by destruct (find_idx _ cs).
Qed.

Lemma descend_walk segs n : created literal n ->
  exists o, descend segs n [] = Some o /\ (forall x ps, o = Some (x, ps) -> ps = [] /\ endpoint x = walk segs n) /\ (o = None -> walk segs n = None).
Proof.
  revert n. induction segs as [|s segs IH]; intros n Hn; cbn [descend walk].
  { eexists. split; [done|]. split; [by intros x ps [= <- <-]|done]. }
  rewrite match_children_literal.
  2: { apply Forall_forall. intros c Hc. destruct (Hn [] n c (reach_here n) Hc) as (s0 & (H1 & H2 & _) & Ht).
       rewrite <- Ht in H1, H2. by destruct c. }
  cbn [mbind option_bind]. destruct (find_idx _ (children n)) as [j|] eqn:Hj; cbn [fmap option_fmap option_map]; [|by eexists].
  apply IH. eapply created_child; [done|]. apply find_idx_Some in Hj as (c & Hc & _). apply list_elem_of_lookup_total_2. by eapply lookup_lt_Some.
Qed.

(** With patterns of literal segments the trie refines a map from paths to
    routes: a dispatch calls the handler of the latest accepted registration of the
    same path, if that was for the same method, and no handler otherwise. *)
Theorem router_refines_map adds m path : Forall (fun a : registration => Forall literal (split_path a.1.2)) adds ->
  let '(r, rs) := registers router_create adds in
  router_dispatch r m path = Some (
    match route_spec rs path with
    | Some (m', h) => if bool_decide (m' = m) then Some (h, []) else None
    | None => None
    end).
Proof.
  intros Hadds. pose proof (registers_walk adds) as Hw. specialize (Hw ltac:(eapply Forall_impl; [exact Hadds|apply literal_fits])). pose proof (registers_ok literal adds Hadds) as Hok.
  destruct (registers router_create adds) as [r rs]. destruct Hok as [Hc _]. rewrite <- (Hw path). unfold router_dispatch.
  destruct (descend_walk (split_path path) r Hc) as (o & -> & H1 & H2). cbn [mbind option_bind]. destruct o as [[x ps]|].
  - destruct (H1 _ _ eq_refl) as [-> ->]. by destruct (walk _ r) as [[m' h]|].
  - by rewrite H2.
Qed.

Lemma router_refines_map_witness :
  let adds := [(HTTP_POST, str_bytes "/a/c", 3%nat); (HTTP_GET, str_bytes "a/b/", 2%nat); (HTTP_GET, str_bytes "/a/b", 1%nat)] in
  let '(r, rs) := registers router_create adds in
  router_dispatch r HTTP_GET (str_bytes "/a/b") = Some (Some (2%nat, [])) /\
  router_dispatch r HTTP_GET (str_bytes "/a/c") = Some (match route_spec rs (str_bytes "/a/c") with
    | Some (m', h) => if bool_decide (m' = HTTP_GET) then Some (h, []) else None | None => None end).
Proof.
  intros adds. split; [vm_compute; reflexivity|].
  apply (router_refines_map adds HTTP_GET (str_bytes "/a/c")).
  repeat apply Forall_cons_2; try apply Forall_nil_2; cbn; repeat apply Forall_cons_2; try apply Forall_nil_2;
    (split; [reflexivity|split; [reflexivity|vm_compute; lia]]).
Defined.

(** There is no backtracking: the first child that matches is final. *)
Example router_no_backtracking :
  let '(r, _) := registers router_create [(HTTP_GET, str_bytes "/:p/c", 2%nat); (HTTP_GET, str_bytes "/a/b", 1%nat)] in
  router_dispatch r HTTP_GET (str_bytes "/x/c") = Some (Some (2%nat, [mk_param (str_bytes "p") (str_bytes "x")])) /\
  router_dispatch r HTTP_GET (str_bytes "/a/c") = Some None.
Proof. vm_compute. done. Qed.
