(* ===== verification/Json.v ===== *)
(** Model of [mini-web-server/src/json_helper.c]: the JSON tokenizer, the recursive
    descent parser, the value tree with its accessors, the serializer and the path
    lookup.

    Doubles are a class ([JsonNumber]): how they are read and printed is the C
    library's.  [json_value_free] frees values inside arrays it did not allocate
    one by one; where the C code does this, or writes past a buffer, the outcome is
    [UB].  The line and column counters of the tokenizer, which nothing reads, and
    failed allocations are left out. *)

From S2P Require Import Prelude Bytes HttpCore.

Class JsonNumber (num : Type) := {
  strtod : list Z -> num;
  print_num : num -> list Z;  (** "%.0f" of a whole number below 1e15, "%.17g" of others *)
}.

Definition JSON_MAX_DEPTH : nat := 32.
Definition JSON_MAX_STRING_LEN : nat := 8192.
Definition JSON_MAX_NUMBER_LEN : nat := 64.

(** A result, undefined behaviour, or not enough fuel (excluded by a theorem). *)
Inductive outcome (A : Type) := Ret (x : A) | UB | OutOfFuel.
Arguments Ret {A} _. Arguments UB {A}. Arguments OutOfFuel {A}.
Definition obind {A B} (m : outcome A) (f : A -> outcome B) : outcome B :=
  match m with Ret x => f x | UB => UB | OutOfFuel => OutOfFuel end.
Notation "x <- m ; k" := (obind m (fun x => k)) (at level 100, m at level 99, k at level 200, right associativity).

Inductive JsonValue (num : Type) :=
| JSON_NULL | JSON_BOOL (b : bool) | JSON_NUMBER (n : num) | JSON_STRING (s : list Z)
| JSON_ARRAY (items : list (JsonValue num)) | JSON_OBJECT (members : list (list Z * JsonValue num)).
Arguments JSON_NULL {num}. Arguments JSON_BOOL {num} _. Arguments JSON_NUMBER {num} _.
Arguments JSON_STRING {num} _. Arguments JSON_ARRAY {num} _. Arguments JSON_OBJECT {num} _.

(** [JSON_TOK_ERROR] is the return value [false]. *)
Inductive JsonToken (num : Type) :=
| TOK_LBRACE | TOK_RBRACE | TOK_LBRACKET | TOK_RBRACKET | TOK_COMMA | TOK_COLON
| TOK_STRING (text : list Z) | TOK_NUMBER (n : num) | TOK_TRUE | TOK_FALSE | TOK_NULL | TOK_EOF.
Arguments TOK_LBRACE {num}. Arguments TOK_RBRACE {num}. Arguments TOK_LBRACKET {num}. Arguments TOK_RBRACKET {num}.
Arguments TOK_COMMA {num}. Arguments TOK_COLON {num}. Arguments TOK_STRING {num} _. Arguments TOK_NUMBER {num} _.
Arguments TOK_TRUE {num}. Arguments TOK_FALSE {num}. Arguments TOK_NULL {num}. Arguments TOK_EOF {num}.

(** ** Tokenizer.  The state is the rest of the input. *)

Fixpoint skip_whitespace (s : list Z) : list Z :=
  match s with
  | c :: s' => if (c =? 32) || (c =? 9) || (c =? 13) || (c =? 10) then skip_whitespace s' else s
  | [] => []
  end.

(** The code point of four hexadecimal digits. *)
Definition hex4 (h1 h2 h3 h4 : Z) : option Z :=
  a ← hex_value h1; b ← hex_value h2; c ← hex_value h3; d ← hex_value h4;
  Some (Z.lor (Z.shiftl (Z.lor (Z.shiftl (Z.lor (Z.shiftl a 4) b) 4) c) 4) d).
Definition utf8 (cp : Z) : list Z :=
  if cp <? 0x80 then [cp]
  else if cp <? 0x800 then [Z.lor 0xC0 (Z.shiftr cp 6); Z.lor 0x80 (Z.land cp 0x3F)]
  else [Z.lor 0xE0 (Z.shiftr cp 12); Z.lor 0x80 (Z.land (Z.shiftr cp 6) 0x3F); Z.lor 0x80 (Z.land cp 0x3F)].
Definition escape_char (e : Z) : option Z :=
  match e with
  | 34 => Some 34 | 92 => Some 92 | 47 => Some 47 | 98 => Some 8 | 102 => Some 12
  | 110 => Some 10 | 114 => Some 13 | 116 => Some 9 | _ => None
  end.

(** [out] holds the characters of the token so far; [None] is [false]. *)
Fixpoint string_loop (s out : list Z) : outcome (option (list Z * list Z)) :=
  if (JSON_MAX_STRING_LEN - 1 <=? length out)%nat then Ret None
  else
    match s with
    | [] => Ret None
    | c :: s1 =>
        if c =? 34 then Ret (Some (out, s1))
        else if c =? 92 then
          match s1 with
          | [] => Ret None
          | e :: s2 =>
              if e =? 117 then
                match s2 with
                | h1 :: h2 :: h3 :: h4 :: s3 =>
                    match hex4 h1 h2 h3 h4 with
                    | Some cp =>
                        let bytes := utf8 cp in
                        if (JSON_MAX_STRING_LEN <? length out + length bytes)%nat then UB
                        else string_loop s3 (out ++ bytes)
                    | None => Ret None
                    end
                | _ => Ret None
                end
              else match escape_char e with Some x => string_loop s2 (out ++ [x]) | None => Ret None end
          end
        else if c <? 32 then Ret None
        else string_loop s1 (out ++ [c])
    end.

Fixpoint span_digits (s : list Z) : list Z * list Z :=
  match s with
  | c :: s' => if is_digit c then let '(a, b) := span_digits s' in (c :: a, b) else ([], s)
  | [] => ([], [])
  end.
(** At least one digit. *)
Definition digits1 (s : list Z) : option (list Z * list Z) :=
  match span_digits s with ([], _) => None | r => Some r end.
(** The three parts of a number: sign and integer, fraction, exponent. *)
Definition number_sign (s : list Z) : list Z * list Z :=
  match s with c :: s' => if c =? 45 then ([45], s') else ([], s) | [] => ([], []) end.
Definition number_int (s : list Z) : option (list Z * list Z) :=
  let '(sign, s1) := number_sign s in
  match s1 with
  | c :: s' => if c =? 48 then Some (sign ++ [48], s') else '(d, s2) ← digits1 s1; Some (sign ++ d, s2)
  | [] => None
  end.
Definition number_frac (s : list Z) : option (list Z * list Z) :=
  match s with
  | c :: s' => if c =? 46 then '(d, s'') ← digits1 s'; Some (46 :: d, s'') else Some ([], s)
  | [] => Some ([], [])
  end.
Definition number_exp (s : list Z) : option (list Z * list Z) :=
  match s with
  | e :: s' =>
      if (e =? 101) || (e =? 69) then
        let '(sg, s2) := match s' with
                         | c :: s2 => if (c =? 43) || (c =? 45) then ([c], s2) else ([], s')
                         | [] => ([], []) end in
        '(d, s3) ← digits1 s2; Some (e :: sg ++ d, s3)
      else Some ([], s)
  | [] => Some ([], [])
  end.
Definition number_text (s : list Z) : option (list Z * list Z) :=
  '(a, s1) ← number_int s; '(b, s2) ← number_frac s1; '(c, s3) ← number_exp s2;
  if (JSON_MAX_NUMBER_LEN <=? length (a ++ b ++ c))%nat then None else Some (a ++ b ++ c, s3).

Definition is_alnum (c : Z) : bool :=
  is_digit c || ((65 <=? c) && (c <=? 90)) || ((97 <=? c) && (c <=? 122)).
(** The keyword is not followed by a letter, a digit or an underscore. *)
Definition match_keyword (s kw : list Z) : option (list Z) :=
  rest ← starts_with kw s;
  match rest with
  | c :: _ => if is_alnum c || (c =? 95) then None else Some rest
  | [] => Some []
  end.

Section json.
Context {num : Type} `{JsonNumber num}.

Definition json_tokenizer_next (s : list Z) : outcome (option (JsonToken num * list Z)) :=
  match skip_whitespace s with
  | [] => Ret (Some (TOK_EOF, []))
  | c :: s' =>
      if c =? 123 then Ret (Some (TOK_LBRACE, s'))
      else if c =? 125 then Ret (Some (TOK_RBRACE, s'))
      else if c =? 91 then Ret (Some (TOK_LBRACKET, s'))
      else if c =? 93 then Ret (Some (TOK_RBRACKET, s'))
      else if c =? 44 then Ret (Some (TOK_COMMA, s'))
      else if c =? 58 then Ret (Some (TOK_COLON, s'))
      else if c =? 34 then r <- string_loop s' []; Ret ((fun '(t, s2) => (TOK_STRING (cstr t), s2)) <$> r)
      else if c =? 116 then Ret ((fun s2 => (TOK_TRUE, s2)) <$> match_keyword (c :: s') (str_bytes "true"))
      else if c =? 102 then Ret ((fun s2 => (TOK_FALSE, s2)) <$> match_keyword (c :: s') (str_bytes "false"))
      else if c =? 110 then Ret ((fun s2 => (TOK_NULL, s2)) <$> match_keyword (c :: s') (str_bytes "null"))
      else if (c =? 45) || is_digit c then Ret ((fun '(t, s2) => (TOK_NUMBER (strtod t), s2)) <$> number_text (c :: s'))
      else Ret None
  end.

(** ** Values *)

(** [free] is called on every element, but elements are not blocks of their own: in
    a nonempty array or object the first is the block of the array, freed once
    more at the end. *)
Definition json_value_free (v : JsonValue num) : outcome unit :=
  match v with
  | JSON_ARRAY (_ :: _) | JSON_OBJECT (_ :: _) => UB
  | _ => Ret tt
  end.

Definition json_build_null : JsonValue num := JSON_NULL.
Definition json_build_bool (b : bool) : JsonValue num := JSON_BOOL b.
Definition json_build_number (n : num) : JsonValue num := JSON_NUMBER n.
Definition json_build_string (s : list Z) : JsonValue num := JSON_STRING s.
Definition json_build_array : JsonValue num := JSON_ARRAY [].
Definition json_build_object : JsonValue num := JSON_OBJECT [].

Definition json_array_push (arr item : JsonValue num) : bool * JsonValue num :=
  match arr with JSON_ARRAY l => (true, JSON_ARRAY (l ++ [item])) | _ => (false, arr) end.
(** Replacing a value frees it, inside the array of values. *)
Definition json_object_set (obj : JsonValue num) (k : list Z) (val : JsonValue num) : outcome (bool * JsonValue num) :=
  match obj with
  | JSON_OBJECT l =>
      match find_idx (fun m => bool_decide (m.1 = k)) l with
      | Some _ => UB
      | None => Ret (true, JSON_OBJECT (l ++ [(k, val)]))
      end
  | _ => Ret (false, obj)
  end.

Inductive JsonType := T_NULL | T_BOOL | T_NUMBER | T_STRING | T_ARRAY | T_OBJECT.
Definition json_value_type (v : option (JsonValue num)) : JsonType :=
  match v with
  | None | Some JSON_NULL => T_NULL
  | Some (JSON_BOOL _) => T_BOOL
  | Some (JSON_NUMBER _) => T_NUMBER
  | Some (JSON_STRING _) => T_STRING
  | Some (JSON_ARRAY _) => T_ARRAY
  | Some (JSON_OBJECT _) => T_OBJECT
  end.
Definition json_value_get_bool (v : option (JsonValue num)) (def : bool) : bool :=
  match v with Some (JSON_BOOL b) => b | _ => def end.
Definition json_value_get_number (v : option (JsonValue num)) (def : num) : num :=
  match v with Some (JSON_NUMBER n) => n | _ => def end.
Definition json_value_get_string (v : option (JsonValue num)) (def : list Z) : list Z :=
  match v with Some (JSON_STRING s) => s | _ => def end.
Definition json_array_size (v : option (JsonValue num)) : Z :=
  match v with Some (JSON_ARRAY l) => Z.of_nat (length l) | _ => 0 end.
Definition json_array_get (v : option (JsonValue num)) (index : Z) : option (JsonValue num) :=
  match v with
  | Some (JSON_ARRAY l) => if (index <? 0) || (Z.of_nat (length l) <=? index) then None else l !! Z.to_nat index
  | _ => None
  end.
Definition json_object_size (v : option (JsonValue num)) : Z :=
  match v with Some (JSON_OBJECT l) => Z.of_nat (length l) | _ => 0 end.
Definition json_object_get (v : option (JsonValue num)) (k : list Z) : option (JsonValue num) :=
  match v with
  | Some (JSON_OBJECT l) => i ← find_idx (fun m => bool_decide (m.1 = k)) l; snd <$> l !! i
  | _ => None
  end.
Definition json_object_keys (v : option (JsonValue num)) : list (list Z) :=
  match v with Some (JSON_OBJECT l) => fst <$> l | _ => [] end.

(** ** Parser *)

(** The current token, absent after an error, and the rest of the input. *)
Record JsonParser := mk_parser { current : option (JsonToken num); input : list Z }.

Definition parser_advance (p : JsonParser) : outcome JsonParser :=
  r <- json_tokenizer_next (input p);
  Ret match r with Some (t, s) => mk_parser (Some t) s | None => mk_parser None (input p) end.

(** A [NULL] result, after the container is freed. *)
Definition drop_container (v : JsonValue num) (p : JsonParser) : outcome (option (JsonValue num) * JsonParser) :=
  _ <- json_value_free v; Ret (None, p).

(** The C functions, with the functions they call as arguments; the loops are the
    [while (1)] of [parse_object] and [parse_array]. *)
Definition parse_result : Type := outcome (option (JsonValue num) * JsonParser).

Definition object_round (value : JsonParser -> nat -> parse_result) (loop : JsonValue num -> JsonParser -> nat -> parse_result)
    (obj : JsonValue num) (p : JsonParser) (depth : nat) : parse_result :=
  match current p with
  | Some (TOK_STRING key) =>
      p <- parser_advance p;
      match current p with
      | Some TOK_COLON =>
          p <- parser_advance p;
          vp <- value p (S depth);
          let '(v, p) := vp in
          match v with
          | None => drop_container obj p
          | Some val =>
              bo <- json_object_set obj key val;
              let obj := bo.2 in
              match current p with
              | Some TOK_RBRACE => p <- parser_advance p; Ret (Some obj, p)
              | Some TOK_COMMA => p <- parser_advance p; loop obj p depth
              | _ => drop_container obj p
              end
          end
      | _ => drop_container obj p
      end
  | _ => drop_container obj p
  end.
Definition array_round (value : JsonParser -> nat -> parse_result) (loop : JsonValue num -> JsonParser -> nat -> parse_result)
    (arr : JsonValue num) (p : JsonParser) (depth : nat) : parse_result :=
  vp <- value p (S depth);
  let '(v, p) := vp in
  match v with
  | None => drop_container arr p
  | Some val =>
      let arr := (json_array_push arr val).2 in
      match current p with
      | Some TOK_RBRACKET => p <- parser_advance p; Ret (Some arr, p)
      | Some TOK_COMMA => p <- parser_advance p; loop arr p depth
      | _ => drop_container arr p
      end
  end.

Definition parse_object (loop : JsonValue num -> JsonParser -> nat -> parse_result) (p : JsonParser) (depth : nat) : parse_result :=
  if (JSON_MAX_DEPTH <? depth)%nat then Ret (None, p)
  else match current p with
       | Some TOK_RBRACE => p <- parser_advance p; Ret (Some json_build_object, p)
       | _ => loop json_build_object p depth
       end.
Definition parse_array (loop : JsonValue num -> JsonParser -> nat -> parse_result) (p : JsonParser) (depth : nat) : parse_result :=
  if (JSON_MAX_DEPTH <? depth)%nat then Ret (None, p)
  else match current p with
       | Some TOK_RBRACKET => p <- parser_advance p; Ret (Some json_build_array, p)
       | _ => loop json_build_array p depth
       end.
Definition value_switch (object array : JsonParser -> nat -> parse_result) (p : JsonParser) (depth : nat) : parse_result :=
  match current p with
  | Some TOK_LBRACE => p <- parser_advance p; object p depth
  | Some TOK_LBRACKET => p <- parser_advance p; array p depth
  | Some (TOK_STRING s) => p <- parser_advance p; Ret (Some (json_build_string s), p)
  | Some (TOK_NUMBER n) => p <- parser_advance p; Ret (Some (json_build_number n), p)
  | Some TOK_TRUE => p <- parser_advance p; Ret (Some (json_build_bool true), p)
  | Some TOK_FALSE => p <- parser_advance p; Ret (Some (json_build_bool false), p)
  | Some TOK_NULL => p <- parser_advance p; Ret (Some json_build_null, p)
  | _ => Ret (None, p)
  end.

Fixpoint parse_value (fuel : nat) (p : JsonParser) (depth : nat) : parse_result :=
  match fuel with
  | O => OutOfFuel
  | S f => value_switch (parse_object (object_loop f)) (parse_array (array_loop f)) p depth
  end
with object_loop (fuel : nat) (obj : JsonValue num) (p : JsonParser) (depth : nat) : parse_result :=
  match fuel with
  | O => OutOfFuel
  | S f => object_round (parse_value f) (object_loop f) obj p depth
  end
with array_loop (fuel : nat) (arr : JsonValue num) (p : JsonParser) (depth : nat) : parse_result :=
  match fuel with
  | O => OutOfFuel
  | S f => array_round (parse_value f) (array_loop f) arr p depth
  end.

(** Enough fuel for the calls the input can cause; see [json_parse_terminates]. *)
Definition json_fuel (s : list Z) : nat := (2 * length s + 4)%nat.

Definition json_parse (s : list Z) : outcome (option (JsonValue num)) :=
  p <- parser_advance (mk_parser None s);
  match current p with
  | None | Some TOK_EOF => Ret None
  | _ => vp <- parse_value (json_fuel s) p 0; Ret vp.1
  end.

(** ** Serializer *)

Definition hex_lower (x : Z) : Z := if x <? 10 then 48 + x else 87 + x.
(** What is printed for a character of a string; [None]: the character itself. *)
Definition escape_of (c : Z) : option (list Z) :=
  match c with
  | 34 => Some [92; 34] | 92 => Some [92; 92] | 8 => Some [92; 98] | 12 => Some [92; 102]
  | 10 => Some [92; 110] | 13 => Some [92; 114] | 9 => Some [92; 116]
  | _ => if c <? 32 then Some ([92; 117; 48; 48; hex_lower (c / 16); hex_lower (c mod 16)]) else None
  end.

(** The text in the buffer and [*pos]. *)
Fixpoint serialize_chars (buf_sz : nat) (s : list Z) (st : list Z * nat) : option (list Z * nat) :=
  match s with
  | [] => Some st
  | c :: s' =>
      if Z.of_nat st.2 <? u64 (Z.of_nat buf_sz - 2) then
        st' ← match escape_of c with
              | Some e => sprint buf_sz st e
              | None => if (buf_sz <=? st.2)%nat then None else Some (st.1 ++ [c], S st.2)
              end;
        serialize_chars buf_sz s' st'
      else Some st
  end.

(** The elements of an array and the members of an object, with commas between. *)
Section elements.
Context (buf_sz : nat) (serialize : JsonValue num -> list Z * nat -> option (list Z * nat)).
Definition comma (first : bool) (st : list Z * nat) : option (list Z * nat) :=
  if first then Some st else sprint buf_sz st [44].
Fixpoint serialize_items (first : bool) (l : list (JsonValue num)) (st : list Z * nat) : option (list Z * nat) :=
  match l with
  | [] => Some st
  | x :: l' => st ← comma first st; st ← serialize x st; serialize_items false l' st
  end.
Fixpoint serialize_members (first : bool) (l : list (list Z * JsonValue num)) (st : list Z * nat) : option (list Z * nat) :=
  match l with
  | [] => Some st
  | (k, x) :: l' =>
      st ← comma first st; st ← sprint buf_sz st (34 :: k ++ [34; 58]); st ← serialize x st; serialize_members false l' st
  end.
End elements.

Fixpoint json_serialize_internal (buf_sz : nat) (v : JsonValue num) (st : list Z * nat) {struct v} : option (list Z * nat) :=
  if (buf_sz <=? st.2)%nat then Some st
  else
    match v with
    | JSON_NULL => sprint buf_sz st (str_bytes "null")
    | JSON_BOOL b => sprint buf_sz st (if b then str_bytes "true" else str_bytes "false")
    | JSON_NUMBER n => sprint buf_sz st (print_num n)
    | JSON_STRING s => st ← sprint buf_sz st [34]; st ← serialize_chars buf_sz s st; sprint buf_sz st [34]
    | JSON_ARRAY items =>
        st ← sprint buf_sz st [91];
        st ← serialize_items buf_sz (json_serialize_internal buf_sz) true items st;
        sprint buf_sz st [93]
    | JSON_OBJECT members =>
        st ← sprint buf_sz st [123];
        st ← serialize_members buf_sz (json_serialize_internal buf_sz) true members st;
        sprint buf_sz st [125]
    end.

(** The text in the buffer and the length returned. *)
Definition json_serialize (v : JsonValue num) (buf_sz : nat) : option (list Z * nat) :=
  if (buf_sz =? 0)%nat then Some ([], O) else json_serialize_internal buf_sz v ([], O).

(** ** Paths *)

(** Characters up to a stop character or 255 of them. *)
Fixpoint take_segment (room : nat) (stop : Z -> bool) (s : list Z) : list Z * list Z :=
  match room, s with
  | S r, c :: s' => if stop c then ([], s) else let '(a, b) := take_segment r stop s' in (c :: a, b)
  | _, _ => ([], s)
  end.

(** One segment and what follows it. *)
Definition next_segment (p : list Z) : list Z * list Z :=
  match p with
  | 91 :: p' =>
      let '(seg, r) := take_segment 255 (fun c => c =? 93) p' in
      (seg, match r with 93 :: r' => r' | _ => r end)
  | _ => take_segment 255 (fun c => (c =? 46) || (c =? 91)) p
  end.

(** An index that does not fit an [int] is undefined.  Every round but the last
    uses up a character. *)
Fixpoint path_loop (fuel : nat) (cur : option (JsonValue num)) (p : list Z) : outcome (option (JsonValue num)) :=
  match p, cur with
  | _ :: _, Some _ =>
      match fuel with
      | O => OutOfFuel
      | S fuel' =>
          let '(seg, r) := next_segment p in
          let r := match r with 46 :: r' => r' | _ => r end in
          match seg with
          | [] => Ret cur
          | c :: _ =>
              if is_digit c then
                match atoll seg with
                | Some idx => if idx <? 2 ^ 31 then path_loop fuel' (json_array_get cur idx) r else UB
                | None => UB
                end
              else path_loop fuel' (json_object_get cur seg) r
          end
      end
  | _, _ => Ret cur
  end.
Definition json_path_get (root : JsonValue num) (path : list Z) : outcome (option (JsonValue num)) :=
  path_loop (length path) (Some root) path.
End json.
