(* ===== verification/JsonRoundTrip.v ===== *)
(** Theorems on the JSON library of [Json]: the parser terminates, it reads back
    what the serializer prints, and it frees memory it must not free on duplicate
    keys and on errors inside nonempty containers. *)

From S2P Require Import Prelude Bytes HttpCore Json.

(** ** Every token but the last uses up input *)

Lemma string_loop_progress s : forall out, string_loop s out <> OutOfFuel /\
  forall t r, string_loop s out = Ret (Some (t, r)) -> (length r < length s)%nat.
Proof.
  induction s as [s IH] using (induction_ltof1 _ (@length Z)). unfold ltof in IH. intros out.
  assert (Hsub : forall s' out', (length s' < length s)%nat -> string_loop s' out' <> OutOfFuel /\
    forall t r, string_loop s' out' = Ret (Some (t, r)) -> (length r < length s)%nat).
  { intros s' out' Hs'. destruct (IH s' Hs' out') as [H1 H2]. split; [done|]. intros t r Hr. specialize (H2 t r Hr). lia. }
  destruct s as [|c s1]; cbn [string_loop]; (destruct (_ <=? _)%nat; [done|]); [done|].
  destruct (c =? 34); [split; [done|by intros t r [= <- <-]; cbn; lia]|].
  destruct (c =? 92).
  - destruct s1 as [|e s2]; [done|]. destruct (e =? 117).
    + destruct s2 as [|h1 [|h2 [|h3 [|h4 s3]]]]; try done. destruct (hex4 _ _ _ _); [|done].
      destruct (_ <? _)%nat; [done|]. apply Hsub. cbn. lia.
    + destruct (escape_char e); [|done]. apply Hsub. cbn. lia.
  - destruct (c <? 32); [done|]. apply Hsub. cbn. lia.
Qed.

Lemma match_keyword_length s kw r : match_keyword s kw = Some r -> (length r + length kw = length s)%nat.
Proof.
  unfold match_keyword. intros (r' & Hr & H)%bind_Some. apply starts_with_length in Hr.
  destruct r' as [|c r']; [by injection H as <-|]. destruct (_ || _); [done|]. by injection H as <-.
Qed.

Lemma span_digits_app s : (span_digits s).1 ++ (span_digits s).2 = s.
Proof. induction s as [|c s IH]; [done|]. cbn. destruct (is_digit c); [|done]. destruct (span_digits s). cbn in *. by rewrite IH. Qed.
Lemma digits1_app s d r : digits1 s = Some (d, r) -> d ++ r = s /\ d <> [].
Proof.
  unfold digits1. pose proof (span_digits_app s) as H. destruct (span_digits s) as [[|x d'] r']; [done|]. by intros [= <- <-].
Qed.

Lemma number_int_app s a r : number_int s = Some (a, r) -> a ++ r = s /\ a <> [].
Proof.
  unfold number_int. assert (Hs : (number_sign s).1 ++ (number_sign s).2 = s).
  { destruct s as [|c s]; [done|]. cbn. by destruct (Z.eqb_spec c 45) as [->|]. }
  destruct (number_sign s) as [sg s1]. cbn in Hs. subst s. destruct s1 as [|c s1]; [done|]. destruct (Z.eqb_spec c 48) as [->|].
  - intros [= <- <-]. rewrite <- app_assoc. split; [done|]. by intros [_ ?]%app_nil.
  - intros ([d s2] & Hd & [= <- <-])%bind_Some. apply digits1_app in Hd as [<- Hd]. rewrite <- app_assoc.
    split; [done|]. by intros [_ ?]%app_nil.
Qed.
Lemma number_frac_app s a r : number_frac s = Some (a, r) -> a ++ r = s.
Proof.
  unfold number_frac. destruct s as [|c s]; [by intros [= <- <-]|]. destruct (Z.eqb_spec c 46) as [->|]; [|by intros [= <- <-]].
  intros ([d s'] & Hd & [= <- <-])%bind_Some. apply digits1_app in Hd as [<- _]. done.
Qed.
Lemma number_exp_app s a r : number_exp s = Some (a, r) -> a ++ r = s.
Proof.
  unfold number_exp. destruct s as [|e s]; [by intros [= <- <-]|]. destruct (_ || _); [|by intros [= <- <-]].
  destruct s as [|c s]; [done|]. destruct (_ || _); intros ([d s'] & Hd & [= <- <-])%bind_Some; apply digits1_app in Hd as [Hd _].
  - cbn. by rewrite Hd.
  - cbn. by rewrite Hd.
Qed.
Lemma number_text_app s t r : number_text s = Some (t, r) -> t ++ r = s /\ t <> [].
Proof.
  unfold number_text. intros ([a s1] & Ha & ([b s2] & Hb & ([c s3] & Hc & H)%bind_Some)%bind_Some)%bind_Some.
  apply number_int_app in Ha as [<- Hne]. apply number_frac_app in Hb as <-. apply number_exp_app in Hc as <-.
  destruct (_ <=? _)%nat; [done|]. injection H as <- <-. rewrite <- !app_assoc. split; [done|]. by intros [? _]%app_nil.
Qed.

Lemma skip_whitespace_length s : (length (skip_whitespace s) <= length s)%nat.
Proof. induction s as [|c s IH]; cbn [skip_whitespace length]; [lia|]. destruct (_ || _); cbn [length]; lia. Qed.

Section json.
Context {num : Type} `{HN : JsonNumber num}.
Implicit Types (v : JsonValue num) (p : JsonParser (num := num)).

Lemma next_progress s : json_tokenizer_next s <> OutOfFuel /\
  forall t r, json_tokenizer_next s = Ret (Some (t, r)) -> (t = TOK_EOF /\ r = []) \/ (t <> TOK_EOF /\ length r < length s)%nat.
Proof.
  unfold json_tokenizer_next. pose proof (skip_whitespace_length s) as Hl. destruct (skip_whitespace s) as [|c s1].
  { split; [done|]. intros t r [= <- <-]. by left. }
  cbn [length] in Hl.
  repeat match goal with |- context [if ?b then Ret (Some _) else _] => destruct b; [split; [done|intros ? ? [= <- <-]; right; split; [done|lia]]|] end.
  assert (Hkw : forall kw (tok : JsonToken num), tok <> TOK_EOF -> (0 < length kw)%nat ->
    Ret ((fun s2 => (tok, s2)) <$> match_keyword (c :: s1) kw) <> OutOfFuel /\
    forall t r, Ret ((fun s2 => (tok, s2)) <$> match_keyword (c :: s1) kw) = Ret (Some (t, r)) ->
      (t = TOK_EOF /\ r = []) \/ (t <> TOK_EOF /\ length r < length s)%nat).
  { intros kw tok Htok Hkw. split; [done|]. intros t r [= Hm]. apply fmap_Some in Hm as (r' & Hm & [= -> ->]). right. split; [done|].
    apply match_keyword_length in Hm. cbn in Hm. lia. }
  destruct (c =? 34).
  { destruct (string_loop_progress s1 []) as [H1 H2]. destruct (string_loop s1 []) as [[[t0 r0]|]| |]; cbn [obind fmap option_fmap option_map]; try done.
    split; [done|]. intros t r [= <- <-]. right. split; [done|]. specialize (H2 _ _ eq_refl). lia. }
  destruct (c =? 116); [apply Hkw; [done|cbn; lia]|]. destruct (c =? 102); [apply Hkw; [done|cbn; lia]|].
  destruct (c =? 110); [apply Hkw; [done|cbn; lia]|].
  destruct (_ || _); [|done]. split; [done|]. intros t r [= Hm]. apply fmap_Some in Hm as ([t0 r'] & Hm & [= -> ->]).
  right. split; [done|]. apply number_text_app in Hm as [Hm Ht0]. apply (f_equal length) in Hm. rewrite length_app in Hm. cbn in Hm.
  destruct t0; [done|]. cbn in Hm. lia.
Qed.

(** ** The parser terminates *)

Lemma parse_value_S f p d : parse_value (S f) p d = value_switch (parse_object (object_loop f)) (parse_array (array_loop f)) p d.
Proof. reflexivity. Qed.
Lemma object_loop_S f obj p d : object_loop (S f) obj p d = object_round (parse_value f) (object_loop f) obj p d.
Proof. reflexivity. Qed.
Lemma array_loop_S f arr p d : array_loop (S f) arr p d = array_round (parse_value f) (array_loop f) arr p d.
Proof. reflexivity. Qed.

Definition measure p : nat :=
  (length (input p) + match current p with None | Some TOK_EOF => 0 | _ => 1 end)%nat.
Definition live p : Prop := exists t, current p = Some t /\ t <> TOK_EOF.

Lemma advance_measure p : parser_advance p <> OutOfFuel /\
  forall p', parser_advance p = Ret p' -> (measure p' <= length (input p))%nat.
Proof.
  unfold parser_advance. destruct (next_progress (input p)) as [H1 H2].
  destruct (json_tokenizer_next (input p)) as [[[t r]|]| |]; cbn [obind]; try done; (split; [done|]); intros p' [= <-]; unfold measure; cbn.
  - destruct (H2 _ _ eq_refl) as [[-> ->]|[Ht Hr]]; [cbn; lia|]. destruct t; done || lia.
  - lia.
Qed.
Lemma advance_live p : live p -> forall p', parser_advance p = Ret p' -> (measure p' < measure p)%nat.
Proof.
  intros (t & Ht & Hne) p' Hp'. apply advance_measure in Hp'. unfold measure at 2. rewrite Ht. destruct t; done || lia.
Qed.

(** A call returns, and leaves less to read when it yields a value. *)
Definition returns (m : outcome (option (JsonValue num) * JsonParser)) (n : nat) : Prop :=
  m <> OutOfFuel /\ forall v p', m = Ret (Some v, p') -> (measure p' < n)%nat.

Lemma returns_none p n : returns (Ret (None, p)) n.
Proof. by split. Qed.
Lemma returns_drop v p n : returns (drop_container v p) n.
Proof. unfold drop_container, json_value_free. destruct v as [| | | |[]|[]]; by split. Qed.
Lemma returns_advance p n k : live p -> (measure p <= n)%nat ->
  (forall p', (measure p' < measure p)%nat -> returns (k p') n) -> returns (obind (parser_advance p) k) n.
Proof.
  intros Hl Hn Hk. destruct (advance_measure p) as [H1 _]. destruct (parser_advance p) as [p'| |] eqn:Hp; cbn [obind]; [|by split|done].
  apply Hk. by apply advance_live.
Qed.
Lemma returns_value v p n : (measure p < n)%nat -> returns (Ret (Some v, p)) n.
Proof. intros Hm. split; [done|]. by intros v' p' [= <- <-]. Qed.
Lemma returns_le m n n' : returns m n -> (n <= n')%nat -> returns m n'.
Proof. intros [H1 H2] Hn. split; [done|]. intros v p' Hm. specialize (H2 _ _ Hm). lia. Qed.

Ltac live_tok := eexists; split; [eassumption|done].

Lemma parse_returns fuel :
  (forall p depth, (2 * measure p + 1 <= fuel)%nat -> returns (parse_value fuel p depth) (measure p)) /\
  (forall obj p depth, (2 * measure p + 2 <= fuel)%nat -> returns (object_loop fuel obj p depth) (measure p)) /\
  (forall arr p depth, (2 * measure p + 2 <= fuel)%nat -> returns (array_loop fuel arr p depth) (measure p)).
Proof.
  induction fuel as [|fuel (IHv & IHo & IHa)]; [repeat split; intros; lia|]. split_and!.
  - intros p depth Hf. rewrite parse_value_S. unfold value_switch, parse_object, parse_array. destruct (current p) as [t|] eqn:Ht; [|apply returns_none].
    destruct t; try apply returns_none; (apply returns_advance; [live_tok|done|]); intros p1 H1; try (by apply returns_value).
    + destruct (_ <? _)%nat; [apply returns_none|].
      assert (Hloop : returns (object_loop fuel json_build_object p1 depth) (measure p)) by (eapply returns_le; [apply IHo|]; lia).
      destruct (current p1) as [[]|] eqn:Ht1; try done. apply returns_advance; [live_tok|lia|]. intros p2 H2. apply returns_value. lia.
    + destruct (_ <? _)%nat; [apply returns_none|].
      assert (Hloop : returns (array_loop fuel json_build_array p1 depth) (measure p)) by (eapply returns_le; [apply IHa|]; lia).
      destruct (current p1) as [[]|] eqn:Ht1; try done. apply returns_advance; [live_tok|lia|]. intros p2 H2. apply returns_value. lia.
  - intros obj p depth Hf. rewrite object_loop_S. unfold object_round. destruct (current p) as [[]|] eqn:Ht; try apply returns_drop.
    apply returns_advance; [live_tok|done|]. intros p1 H1. destruct (current p1) as [[]|] eqn:Ht1; try apply returns_drop.
    apply returns_advance; [live_tok|lia|]. intros p2 H2. destruct (IHv p2 (S depth) ltac:(lia)) as [Hr1 Hr2].
    destruct (parse_value fuel p2 (S depth)) as [[[v|] p3]| |]; cbn [obind]; [|apply returns_drop|by split|done].
    specialize (Hr2 _ _ eq_refl). unfold json_object_set.
    assert (Htail : forall obj', returns match current p3 with
      | Some TOK_RBRACE => p <- parser_advance p3; Ret (Some obj', p)
      | Some TOK_COMMA => p <- parser_advance p3; object_loop fuel obj' p depth
      | _ => drop_container obj' p3 end (measure p)).
    { intros obj'. destruct (current p3) as [[]|] eqn:Ht3; try apply returns_drop; (apply returns_advance; [live_tok|lia|]); intros p4 H4.
      - apply returns_value. lia.
      - eapply returns_le; [apply IHo|]; lia. }
    destruct obj; cbn [obind snd]; try apply Htail. destruct (find_idx _ _); cbn [obind snd]; [by split|apply Htail].
  - intros arr p depth Hf. rewrite array_loop_S. unfold array_round. destruct (IHv p (S depth) ltac:(lia)) as [Hr1 Hr2].
    destruct (parse_value fuel p (S depth)) as [[[v|] p3]| |]; cbn [obind]; [|apply returns_drop|by split|done].
    specialize (Hr2 _ _ eq_refl). destruct (current p3) as [[]|] eqn:Ht3; try apply returns_drop; (apply returns_advance; [live_tok|lia|]); intros p4 H4.
    + apply returns_value. lia.
    + eapply returns_le; [apply IHa|]; lia.
Qed.

Lemma json_parse_ends (s : list Z) : json_parse (num := num) s <> OutOfFuel.
Proof.
  unfold json_parse. destruct (advance_measure (mk_parser None s)) as [H1 H2].
  destruct (parser_advance (mk_parser None s)) as [p| |]; [|done|done]. cbn [obind]. specialize (H2 _ eq_refl). cbn [input] in H2.
  destruct (parse_returns (json_fuel s)) as [Hv _]. destruct (Hv p 0%nat ltac:(unfold json_fuel; lia)) as [Hr _].
  assert (Hgo : (vp <- parse_value (json_fuel s) p 0; Ret vp.1) <> OutOfFuel) by by destruct (parse_value _ _ _).
  by destruct (current p) as [[]|].
Qed.
End json.

(** ** The text of a value *)

Section text.
Context {num : Type} `{HN : JsonNumber num}.

Lemma JsonValue_nested_ind (P : JsonValue num -> Prop) :
  P JSON_NULL -> (forall b, P (JSON_BOOL b)) -> (forall n, P (JSON_NUMBER n)) -> (forall s, P (JSON_STRING s)) ->
  (forall l, Forall P l -> P (JSON_ARRAY l)) -> (forall l, Forall (fun m => P m.2) l -> P (JSON_OBJECT l)) -> forall v, P v.
Proof.
  intros H1 H2 H3 H4 H5 H6. fix IH 1. intros [|b|n|s|l|l]; [done|apply H2|apply H3|apply H4|apply H5|apply H6].
  - induction l as [|x l IHl]; constructor; [apply IH|exact IHl].
  - induction l as [|[k x] l IHl]; constructor; [apply IH|exact IHl].
Qed.

Fixpoint join_comma (l : list (list Z)) : list Z :=
  match l with [] => [] | [x] => x | x :: l' => x ++ 44 :: join_comma l' end.
Definition esc (s : list Z) : list Z := s ≫= fun c => default [c] (escape_of c).
Fixpoint text (v : JsonValue num) : list Z :=
  match v with
  | JSON_NULL => str_bytes "null"
  | JSON_BOOL b => if b then str_bytes "true" else str_bytes "false"
  | JSON_NUMBER n => print_num n
  | JSON_STRING s => 34 :: esc s ++ [34]
  | JSON_ARRAY l => 91 :: join_comma (map text l) ++ [93]
  | JSON_OBJECT l => 123 :: join_comma (map (fun m => 34 :: m.1 ++ 34 :: 58 :: text m.2) l) ++ [125]
  end.

(** What follows a value: the end of the text, a comma or a bracket. *)
Definition ends (rest : list Z) : Prop :=
  match rest with [] => True | c :: _ => c = 44 \/ c = 93 \/ c = 125 end.
(** A number printed as a JSON number that reads back as the same double. *)
Definition num_ok (n : num) : Prop :=
  strtod (print_num n) = n /\ forall rest, ends rest -> number_text (print_num n ++ rest) = Some (print_num n, rest).
(** A key that needs no escape: the serializer prints keys as they are. *)
Definition key_ok (k : list Z) : Prop :=
  Forall (fun c => char_ok c /\ escape_of c = None) k /\ (length k < JSON_MAX_STRING_LEN - 1)%nat.

Inductive json_ok : nat -> JsonValue num -> Prop :=
| ok_null d : json_ok d JSON_NULL
| ok_bool d b : json_ok d (JSON_BOOL b)
| ok_number d n : num_ok n -> json_ok d (JSON_NUMBER n)
| ok_string d s : Forall char_ok s -> (length s < JSON_MAX_STRING_LEN - 1)%nat -> json_ok d (JSON_STRING s)
| ok_array d l : (d <= JSON_MAX_DEPTH)%nat -> Forall (json_ok (S d)) l -> json_ok d (JSON_ARRAY l)
| ok_object d l : (d <= JSON_MAX_DEPTH)%nat -> NoDup (fst <$> l) -> Forall (fun m => key_ok m.1 /\ json_ok (S d) m.2) l ->
    json_ok d (JSON_OBJECT l).

(** ** The serializer prints the text *)

Lemma sprint_fits buf_sz st t : length st.1 = st.2 -> (st.2 + length t < buf_sz)%nat ->
  sprint buf_sz st t = Some (st.1 ++ t, (st.2 + length t)%nat).
Proof.
  intros Hs Hf. unfold sprint. rewrite (proj2 (Nat.ltb_ge _ _)) by lia. by rewrite take_ge by lia.
Qed.

Lemma escape_of_length c : (1 <= length (default [c] (escape_of c)))%nat.
Proof.
  destruct (escape_of c) as [e|] eqn:He; [|cbn; lia]. unfold escape_of in He. cbn.
  repeat (case_match; try (injection He as <-; cbn; lia)); done.
Qed.

Lemma serialize_chars_spec buf_sz s st : Z.of_nat buf_sz < 2 ^ 64 -> length st.1 = st.2 ->
  (st.2 + length (esc s) + 1 < buf_sz)%nat -> serialize_chars buf_sz s st = Some (st.1 ++ esc s, (st.2 + length (esc s))%nat).
Proof.
  intros H64. revert st. induction s as [|c s IH]; intros [out pos] Hs Hf; cbn [serialize_chars esc mbind list_bind fst snd] in *.
  { by rewrite app_nil_r, Nat.add_0_r. }
  rewrite length_app in Hf. pose proof (escape_of_length c) as Hc. fold (esc s) in *.
  rewrite u64_small, (proj2 (Z.ltb_lt _ _)) by lia.
  assert (Hstep : match escape_of c with
    | Some e => sprint buf_sz (out, pos) e
    | None => if (buf_sz <=? pos)%nat then None else Some (out ++ [c], S pos) end =
    Some (out ++ default [c] (escape_of c), (pos + length (default [c] (escape_of c)))%nat)).
  { destruct (escape_of c) as [e|]; cbn [default from_option id length] in *.
    - rewrite sprint_fits by (cbn; lia || done). done.
    - rewrite (proj2 (Nat.leb_gt _ _)) by lia. by rewrite Nat.add_1_r. }
  rewrite Hstep. cbn [mbind option_bind]. rewrite IH; cbn [fst snd]; [|rewrite length_app; lia|lia].
  rewrite <- app_assoc, length_app, Nat.add_assoc. done.
Qed.

Lemma text_nonempty d v : json_ok d v -> (1 <= length (text v))%nat.
Proof.
  destruct 1 as [| | d n [_ Hn] | | |]; cbn [text]; try (cbn; lia).
  - destruct b; cbn; lia.
  - specialize (Hn [] I). apply number_text_app in Hn as [_ Hn]. destruct (print_num n); [done|cbn; lia].
Qed.

Definition member_text (m : list Z * JsonValue num) : list Z := 34 :: m.1 ++ 34 :: 58 :: text m.2.
Definition sep (first : bool) : list Z := if first then [] else [44].
(** A comma before each element. *)
Definition commas (first : bool) (l : list (list Z)) : list Z :=
  match l with [] => [] | _ => if first then join_comma l else 44 :: join_comma l end.
Lemma commas_cons first x l : commas first (x :: l) = sep first ++ x ++ commas false l.
Proof. destruct first, l; cbn; by rewrite ?app_nil_r. Qed.

Definition prints buf_sz (v : JsonValue num) : Prop :=
  forall st, length st.1 = st.2 -> (st.2 + length (text v) < buf_sz)%nat ->
  json_serialize_internal buf_sz v st = Some (st.1 ++ text v, (st.2 + length (text v))%nat).

Lemma comma_spec buf_sz first st : length st.1 = st.2 -> (st.2 + length (sep first) < buf_sz)%nat ->
  comma buf_sz first st = Some (st.1 ++ sep first, (st.2 + length (sep first))%nat).
Proof.
  intros Hs Hf. destruct first; cbn [comma sep]; [cbn [length]; rewrite app_nil_r, Nat.add_0_r; by destruct st|by apply sprint_fits].
Qed.

Ltac app_len := rewrite ?length_app; cbn [length]; try lia.

Lemma serialize_items_spec buf_sz l first st : Forall (prints buf_sz) l -> length st.1 = st.2 ->
  (st.2 + length (commas first (map text l)) < buf_sz)%nat ->
  serialize_items buf_sz (json_serialize_internal buf_sz) first l st =
    Some (st.1 ++ commas first (map text l), (st.2 + length (commas first (map text l)))%nat).
Proof.
  intros Hl. revert first st. induction Hl as [|x l Hx Hl IH]; intros first [out pos] Hs Hf; cbn [serialize_items map fst snd] in *.
  { cbn. by rewrite app_nil_r, Nat.add_0_r. }
  rewrite commas_cons, !length_app in Hf. rewrite comma_spec by (cbn; lia || done). cbn [mbind option_bind fst snd].
  rewrite Hx; cbn [fst snd]; [|app_len|lia]. cbn [mbind option_bind]. rewrite IH; cbn [fst snd]; [|app_len|lia].
  rewrite commas_cons, <- !app_assoc, !length_app, !Nat.add_assoc. done.
Qed.

Lemma serialize_members_spec buf_sz l first st : Forall (fun m => prints buf_sz m.2) l -> length st.1 = st.2 ->
  (st.2 + length (commas first (map member_text l)) < buf_sz)%nat ->
  serialize_members buf_sz (json_serialize_internal buf_sz) first l st =
    Some (st.1 ++ commas first (map member_text l), (st.2 + length (commas first (map member_text l)))%nat).
Proof.
  intros Hl. revert first st. induction Hl as [|[k x] l Hx Hl IH]; intros first [out pos] Hs Hf; cbn [serialize_members map fst snd] in *.
  { cbn. by rewrite app_nil_r, Nat.add_0_r. }
  assert (Hm : member_text (k, x) = (34 :: k ++ [34; 58]) ++ text x) by (unfold member_text; cbn; by rewrite <- app_assoc).
  rewrite commas_cons, Hm, !length_app in Hf. rewrite comma_spec by (cbn; lia || done). cbn [mbind option_bind fst snd].
  rewrite sprint_fits; cbn [fst snd]; [|app_len|lia]. cbn [mbind option_bind].
  rewrite Hx; cbn [fst snd]; [|rewrite !length_app; lia|lia]. cbn [mbind option_bind]. rewrite IH; cbn [fst snd]; [|rewrite !length_app; lia|lia].
  rewrite commas_cons, Hm, <- !app_assoc, !length_app, !Nat.add_assoc. done.
Qed.

Lemma serialize_text buf_sz v : Z.of_nat buf_sz < 2 ^ 64 -> prints buf_sz v.
Proof.
  intros H64. induction v as [|b|n|s|l IH|l IH] using JsonValue_nested_ind; intros [out pos] Hs Hf; cbn [fst snd] in *;
    unfold json_serialize_internal; fold json_serialize_internal; cbn [snd]; rewrite (proj2 (Nat.leb_gt _ _)) by lia; cbn [text] in *.
  - by apply sprint_fits.
  - by apply sprint_fits.
  - by apply sprint_fits.
  - cbn [length] in Hf. rewrite length_app in Hf. cbn [length] in Hf.
    rewrite sprint_fits; cbn [fst snd length]; [|done|lia]. cbn [mbind option_bind].
    rewrite serialize_chars_spec; cbn [fst snd]; [|done|app_len|lia]. cbn [mbind option_bind].
    rewrite sprint_fits; cbn [fst snd length]; [|app_len|lia]. rewrite <- !app_assoc. cbn [app]. do 2 f_equal. app_len.
  - cbn [length] in Hf. rewrite length_app in Hf. cbn [length] in Hf.
    assert (Hc : join_comma (map text l) = commas true (map text l)) by by destruct l. rewrite Hc in *.
    rewrite sprint_fits; cbn [fst snd length]; [|done|lia]. cbn [mbind option_bind].
    rewrite serialize_items_spec; cbn [fst snd]; [|done|app_len|lia]. cbn [mbind option_bind].
    rewrite sprint_fits; cbn [fst snd length]; [|app_len|lia]. rewrite <- !app_assoc. cbn [app]. do 2 f_equal. app_len.
  - cbn [length] in Hf. rewrite length_app in Hf. cbn [length] in Hf. fold member_text in *.
    assert (Hc : join_comma (map member_text l) = commas true (map member_text l)) by by destruct l. rewrite Hc in *.
    rewrite sprint_fits; cbn [fst snd length]; [|done|lia]. cbn [mbind option_bind].
    rewrite serialize_members_spec; cbn [fst snd]; [|done|app_len|lia]. cbn [mbind option_bind].
    rewrite sprint_fits; cbn [fst snd length]; [|app_len|lia]. rewrite <- !app_assoc. cbn [app]. do 2 f_equal. app_len.
Qed.

(** ** The tokenizer reads the text back *)

Definition escape_okb (c : Z) : bool :=
  match escape_of c with
  | None => negb (c =? 34) && negb (c =? 92) && (32 <=? c)
  | Some e =>
      if (length e =? 2)%nat then (e !!! 0%nat =? 92) && negb (e !!! 1%nat =? 117) && bool_decide (escape_char (e !!! 1%nat) = Some c)
      else (length e =? 6)%nat && (e !!! 0%nat =? 92) && (e !!! 1%nat =? 117) &&
        bool_decide (hex4 (e !!! 2%nat) (e !!! 3%nat) (e !!! 4%nat) (e !!! 5%nat) = Some c) && bool_decide (utf8 c = [c])
  end.
Lemma escape_table : forallb escape_okb (seqZ 1 255) = true.
Proof. vm_compute. reflexivity. Qed.

Lemma string_loop_char c rest out : char_ok c -> (length out < JSON_MAX_STRING_LEN - 1)%nat ->
  string_loop (default [c] (escape_of c) ++ rest) out = string_loop rest (out ++ [c]).
Proof.
  intros Hc Ho. assert (Hok : escape_okb c = true).
  { apply (proj1 (forallb_forall _ _) escape_table), list_elem_of_In, elem_of_seqZ. unfold char_ok in Hc. lia. }
  assert (Hroom : (JSON_MAX_STRING_LEN - 1 <=? length out)%nat = false) by (apply Nat.leb_gt; done).
  unfold escape_okb in Hok. destruct (escape_of c) as [e|]; cbn [default from_option id].
  2: { apply andb_true_iff in Hok as [[H1%negb_true_iff H2%negb_true_iff]%andb_true_iff H3%Z.leb_le].
       cbn [app string_loop]. rewrite Hroom, H1, H2.
       by rewrite (proj2 (Z.ltb_ge c 32)) by lia. }
  destruct (Nat.eqb_spec (length e) 2) as [He|_].
  - destruct e as [|x0 [|x [|]]]; try done. cbn in Hok.
    apply andb_true_iff in Hok as [[->%Z.eqb_eq Hx%negb_true_iff]%andb_true_iff Hch%bool_decide_eq_true_1].
    cbn [app string_loop]. rewrite Hroom. change (92 =? 34) with false. change (92 =? 92) with true. cbv iota. by rewrite Hx, Hch.
  - destruct (Nat.eqb_spec (length e) 6) as [He|]; [|done]. destruct e as [|x0 [|x1 [|h1 [|h2 [|h3 [|h4 [|]]]]]]]; try done.
    cbn -[hex4 utf8] in Hok.
    apply andb_true_iff in Hok as [[[->%Z.eqb_eq ->%Z.eqb_eq]%andb_true_iff Hh%bool_decide_eq_true_1]%andb_true_iff Hu%bool_decide_eq_true_1].
    cbn [app string_loop]. rewrite Hroom.
    change (92 =? 34) with false. change (92 =? 92) with true. change (117 =? 117) with true. cbv iota. rewrite Hh, Hu. cbn [length].
    rewrite (proj2 (Nat.ltb_ge _ _)); [done|]. lia.
Qed.

Lemma string_loop_esc s rest out : Forall char_ok s -> (length out + length s < JSON_MAX_STRING_LEN - 1)%nat ->
  string_loop (esc s ++ 34 :: rest) out = Ret (Some (out ++ s, rest)).
Proof.
  intros Hs. revert out. induction Hs as [|c s Hc Hs IH]; intros out Ho.
  - cbn [esc mbind list_bind app string_loop]. rewrite (proj2 (Nat.leb_gt _ _)) by (cbn [length] in Ho; lia).
    change (34 =? 34) with true. cbv iota. by rewrite app_nil_r.
  - cbn [length] in Ho. cbn [esc mbind list_bind]. rewrite <- app_assoc. fold (esc s). rewrite string_loop_char by (done || lia).
    rewrite IH; [by rewrite <- app_assoc|]. rewrite length_app. cbn [length]. lia.
Qed.

(** Reading the next token of [s]. *)
Definition load (s : list Z) : outcome (JsonParser (num := num)) := parser_advance (mk_parser None s).

Lemma advance_load p : parser_advance p = load (input p).
Proof. done. Qed.
Lemma load_token t s r : json_tokenizer_next s = Ret (Some (t, r)) -> load s = Ret (mk_parser (Some t) r).
Proof. intros Ht. unfold load, parser_advance. cbn [input]. by rewrite Ht. Qed.

Lemma load_punct c s t : In (c, t) [(123, TOK_LBRACE); (125, TOK_RBRACE); (91, TOK_LBRACKET); (93, TOK_RBRACKET); (44, TOK_COMMA); (58, TOK_COLON)] ->
  load (c :: s) = Ret (mk_parser (Some t) s).
Proof. intros Hc. apply load_token. cbn in Hc. destruct_or?; simplify_eq; done. Qed.

Lemma load_string s rest : Forall char_ok s -> (length s < JSON_MAX_STRING_LEN - 1)%nat ->
  load (34 :: esc s ++ 34 :: rest) = Ret (mk_parser (Some (TOK_STRING s)) rest).
Proof.
  intros Hs Hl. apply load_token. unfold json_tokenizer_next.
  assert (Hsk : skip_whitespace (34 :: esc s ++ 34 :: rest) = 34 :: esc s ++ 34 :: rest) by done. rewrite Hsk.
  change (34 =? 123) with false. change (34 =? 125) with false. change (34 =? 91) with false. change (34 =? 93) with false.
  change (34 =? 44) with false. change (34 =? 58) with false. change (34 =? 34) with true. cbv iota.
  rewrite string_loop_esc by (done || cbn [length]; lia). cbn [obind fmap option_fmap option_map app]. by rewrite cstr_id.
Qed.

Lemma key_esc k : key_ok k -> esc k = k /\ Forall char_ok k /\ (length k < JSON_MAX_STRING_LEN - 1)%nat.
Proof.
  intros [Hk Hl]. split_and!; [|by eapply Forall_impl; [exact Hk|]; intros ? [? _]|done].
  clear Hl. induction Hk as [|c k [_ Hc] Hk IH]; [done|]. cbn [esc mbind list_bind]. rewrite Hc. cbn. f_equal. apply IH.
Qed.

Lemma keyword_ends kw rest : ends rest -> match_keyword (kw ++ rest) kw = Some rest.
Proof.
  intros He. unfold match_keyword. rewrite starts_with_app. cbn [mbind option_bind]. destruct rest as [|c rest]; [done|].
  cbn in He. by destruct He as [->|[->| ->]].
Qed.

Lemma load_null rest : ends rest -> load (str_bytes "null" ++ rest) = Ret (mk_parser (Some TOK_NULL) rest).
Proof.
  intros He. apply load_token.
  change (Ret ((fun s2 => (TOK_NULL (num := num), s2)) <$> match_keyword (str_bytes "null" ++ rest) (str_bytes "null")) = Ret (Some (TOK_NULL, rest))).
  by rewrite keyword_ends.
Qed.
Lemma load_bool (b : bool) rest : ends rest ->
  load ((if b then str_bytes "true" else str_bytes "false") ++ rest) = Ret (mk_parser (Some (if b then TOK_TRUE else TOK_FALSE)) rest).
Proof.
  intros He. apply load_token. destruct b.
  - change (Ret ((fun s2 => (TOK_TRUE (num := num), s2)) <$> match_keyword (str_bytes "true" ++ rest) (str_bytes "true")) = Ret (Some (TOK_TRUE, rest))).
    by rewrite keyword_ends.
  - change (Ret ((fun s2 => (TOK_FALSE (num := num), s2)) <$> match_keyword (str_bytes "false" ++ rest) (str_bytes "false")) = Ret (Some (TOK_FALSE, rest))).
    by rewrite keyword_ends.
Qed.

Lemma load_number n rest : num_ok n -> ends rest -> load (print_num n ++ rest) = Ret (mk_parser (Some (TOK_NUMBER n)) rest).
Proof.
  intros [Hn Ht] He. specialize (Ht rest He). pose proof Ht as Happ. apply number_text_app in Happ as [_ Hne].
  apply load_token. unfold json_tokenizer_next. destruct (print_num n) as [|c l] eqn:Hp; [done|]. cbn [app] in *.
  assert (Hc : c = 45 \/ 48 <= c <= 57).
  { unfold number_text, number_int in Ht. cbn [number_sign] in Ht. destruct (Z.eqb_spec c 45) as [->|Hc45]; [by left|]. right.
    apply bind_Some in Ht as ([a s1] & Ha & _). destruct (Z.eqb_spec c 48) as [->|Hc48]; [lia|].
    apply bind_Some in Ha as ([d s2] & Hd & _). unfold digits1 in Hd. cbn [span_digits] in Hd.
    destruct (is_digit c) eqn:Hdc; [|done]. unfold is_digit in Hdc. zbool. lia. }
  assert (Hsk : skip_whitespace (c :: l ++ rest) = c :: l ++ rest).
  { cbn [skip_whitespace]. by rewrite (proj2 (Z.eqb_neq c 32)), (proj2 (Z.eqb_neq c 9)), (proj2 (Z.eqb_neq c 13)), (proj2 (Z.eqb_neq c 10)) by lia. }
  rewrite Hsk.
  rewrite (proj2 (Z.eqb_neq c 123)), (proj2 (Z.eqb_neq c 125)), (proj2 (Z.eqb_neq c 91)), (proj2 (Z.eqb_neq c 93)), (proj2 (Z.eqb_neq c 44)),
    (proj2 (Z.eqb_neq c 58)), (proj2 (Z.eqb_neq c 34)), (proj2 (Z.eqb_neq c 116)), (proj2 (Z.eqb_neq c 102)), (proj2 (Z.eqb_neq c 110)) by lia.
  assert (Hd : (c =? 45) || is_digit c = true).
  { unfold is_digit. destruct Hc as [->|Hc]; [done|]. rewrite (proj2 (Z.leb_le 48 c)), (proj2 (Z.leb_le c 57)) by lia. apply orb_true_r. }
  rewrite Hd, Ht. cbn [fmap option_fmap option_map]. by rewrite Hn.
Qed.

(** The first token of a value is not a closing bracket or the end. *)
Definition opens (p : JsonParser (num := num)) : Prop :=
  match current p with
  | Some TOK_RBRACE | Some TOK_RBRACKET | Some TOK_COMMA | Some TOK_COLON | Some TOK_EOF | None => False
  | _ => True
  end.

Lemma load_text d v rest : json_ok d v -> ends rest -> exists p, load (text v ++ rest) = Ret p /\ opens p.
Proof.
  intros Hv He. destruct Hv as [d|d b|d n Hn|d s Hs Hl|d l|d l]; cbn [text].
  - eexists. split; [by apply load_null|done].
  - eexists. split; [by apply load_bool|by destruct b].
  - eexists. split; [by apply load_number|done].
  - eexists. cbn [app]. rewrite <- app_assoc. cbn [app]. split; [by apply load_string|done].
  - eexists. cbn [app]. split; [by apply load_punct; cbn; eauto|done].
  - eexists. cbn [app]. split; [by apply load_punct; cbn; eauto|done].
Qed.

(** ** The parser reads the text back *)

(** With enough fuel. *)
Definition eventually {A} (f : nat -> A) (r : A) : Prop := exists N, forall fuel, (N <= fuel)%nat -> f fuel = r.

Lemma eventually_S {A} (f g : nat -> A) r : (forall k, f (S k) = g k) -> eventually g r -> eventually f r.
Proof. intros Hf [N HN']. exists (S N). intros [|k] Hk; [lia|]. rewrite Hf. apply HN'. lia. Qed.
Lemma eventually_const {A} (f : nat -> A) r : (forall k, f k = r) -> eventually f r.
Proof. intros Hf. exists 0%nat. auto. Qed.

(** The rest is read on after a value. *)
Definition then_load (v : JsonValue num) (rest : list Z) : parse_result := p <- load rest; Ret (Some v, p).

Definition reads (v : JsonValue num) : Prop := forall d rest p, json_ok d v -> ends rest -> load (text v ++ rest) = Ret p ->
  eventually (fun fuel => parse_value fuel p d) (then_load v rest).

Lemma read_items l : l <> [] -> Forall reads l -> forall acc d rest p, (d <= JSON_MAX_DEPTH)%nat -> Forall (json_ok (S d)) l ->
  load (join_comma (map text l) ++ 93 :: rest) = Ret p ->
  eventually (fun fuel => array_loop fuel (JSON_ARRAY acc) p d) (then_load (JSON_ARRAY (acc ++ l)) rest).
Proof.
  induction l as [|x l IH]; [done|]. intros _ [Hx Hl]%Forall_cons acc d rest p Hd [Hok Hoks]%Forall_cons Hload.
  eapply eventually_S; [intros k; apply array_loop_S|]. unfold array_round. destruct l as [|y l].
  - cbn [map join_comma] in Hload. destruct (Hx (S d) (93 :: rest) p Hok ltac:(cbn; auto) Hload) as [N HN']. exists N. intros fuel Hf.
    rewrite HN' by done. unfold then_load. rewrite (load_punct 93 rest TOK_RBRACKET) by (cbn; eauto 10). cbn [obind json_array_push snd current].
    by rewrite advance_load.
  - cbn [map join_comma] in Hload. rewrite <- app_assoc in Hload. cbn [app] in Hload.
    set (tl := join_comma (map text (y :: l)) ++ 93 :: rest) in *.
    destruct (Hx (S d) (44 :: tl) p Hok ltac:(cbn; auto) Hload) as [N1 HN1].
    assert (Hnext : exists p', load tl = Ret p').
    { apply Forall_cons in Hoks as [Hoky _]. unfold tl. cbn [map join_comma]. destruct l as [|z l].
      - destruct (load_text (S d) y (93 :: rest) Hoky ltac:(cbn; auto)) as (p' & Hp' & _). eauto.
      - cbn [map]. rewrite <- app_assoc. edestruct (load_text (S d) y) as (p' & Hp' & _); [done| |eauto]. cbn. auto. }
    destruct Hnext as [p' Hp']. destruct (IH ltac:(done) Hl (acc ++ [x]) d rest p' Hd Hoks Hp') as [N2 HN2].
    exists (N1 + N2)%nat. intros fuel Hf. rewrite HN1 by lia. unfold then_load at 1.
    rewrite (load_punct 44 tl TOK_COMMA) by (cbn; eauto 10). cbn [obind json_array_push snd current].
    rewrite advance_load. cbn [input]. rewrite Hp'. cbn [obind]. rewrite HN2 by lia. by rewrite <- app_assoc.
Qed.

Lemma object_set_new l k (v : JsonValue num) : k ∉ l.*1 -> json_object_set (JSON_OBJECT l) k v = Ret (true, JSON_OBJECT (l ++ [(k, v)])).
Proof.
  intros Hk. unfold json_object_set. rewrite (proj2 (find_idx_None _ _)); [done|]. intros m Hm. apply bool_decide_eq_false_2.
  intros <-. apply Hk. by apply list_elem_of_fmap_2.
Qed.

Lemma load_member k x tl : key_ok k -> load (member_text (k, x) ++ tl) = Ret (mk_parser (Some (TOK_STRING k)) (58 :: text x ++ tl)).
Proof.
  intros Hk. destruct (key_esc k Hk) as (He & Hc & Hl). unfold member_text. cbn [fst snd app]. rewrite <- app_assoc. cbn [app].
  rewrite <- He at 1. by apply load_string.
Qed.

(** The members of an object, up to the point where the last value has been read:
    [after] is what happens then. *)
Lemma read_members l : l <> [] -> Forall (fun m => reads m.2) l -> forall acc d rest p, (d <= JSON_MAX_DEPTH)%nat ->
  NoDup (acc.*1 ++ l.*1) -> Forall (fun m => key_ok m.1 /\ json_ok (S d) m.2) l ->
  load (join_comma (map member_text l) ++ 125 :: rest) = Ret p ->
  eventually (fun fuel => object_loop fuel (JSON_OBJECT acc) p d) (then_load (JSON_OBJECT (acc ++ l)) rest).
Proof.
  induction l as [|[k x] l IH]; [done|]. intros _ [Hx Hl]%Forall_cons acc d rest p Hd Hnd [[Hk Hok] Hoks]%Forall_cons Hload.
  cbn [fst snd] in *. assert (Hknew : k ∉ acc.*1).
  { apply NoDup_app in Hnd as (_ & Hdis & _). intros Hin. apply (Hdis k Hin). cbn. left. }
  eapply eventually_S; [intros f; apply object_loop_S|]. unfold object_round.
  set (tl := match l with [] => 125 :: rest | _ => 44 :: join_comma (map member_text l) ++ 125 :: rest end).
  assert (Hp : p = mk_parser (Some (TOK_STRING k)) (58 :: text x ++ tl)).
  { assert (Hsplit : join_comma (map member_text ((k, x) :: l)) ++ 125 :: rest = member_text (k, x) ++ tl).
    { unfold tl. destruct l; cbn [map join_comma]; [done|]. by rewrite <- app_assoc. }
    rewrite Hsplit in Hload. rewrite load_member in Hload by done. congruence. }
  subst p. cbn [current]. rewrite advance_load. cbn [input]. rewrite (load_punct 58 (text x ++ tl) TOK_COLON) by (cbn; eauto 10).
  cbn [obind current]. rewrite advance_load. cbn [input].
  assert (Htl : ends tl) by (unfold tl; destruct l; cbn; auto).
  destruct (load_text (S d) x tl Hok Htl) as (px & Hpx & _). rewrite Hpx. cbn [obind].
  destruct (Hx (S d) tl px Hok Htl Hpx) as [N1 HN1].
  destruct l as [|[k' y] l].
  - exists N1. intros fuel Hf. rewrite HN1 by done. unfold then_load. unfold tl at 1. rewrite (load_punct 125 rest TOK_RBRACE) by (cbn; eauto 10).
    cbn [obind]. rewrite object_set_new by done. cbn [obind snd current]. by rewrite advance_load.
  - unfold tl. unfold tl in HN1. set (tl' := join_comma (map member_text ((k', y) :: l)) ++ 125 :: rest) in *.
    assert (Hnext : exists p', load tl' = Ret p').
    { apply Forall_cons in Hoks as [[Hk' _] _]. unfold tl'. cbn [map fst] in *.
      destruct l as [|m l]; cbn [map join_comma].
      - rewrite load_member by done. eauto.
      - rewrite <- app_assoc. rewrite load_member by done. eauto. }
    destruct Hnext as [p' Hp']. destruct (IH ltac:(done) Hl (acc ++ [(k, x)]) d rest p' Hd) as [N2 HN2]; [|done|done|].
    { rewrite fmap_app, <- app_assoc. done. }
    exists (N1 + N2)%nat. intros fuel Hf. rewrite HN1 by lia. unfold then_load at 1. rewrite (load_punct 44 tl' TOK_COMMA) by (cbn; eauto 10).
    cbn [obind]. rewrite object_set_new by done. cbn [obind snd current]. rewrite advance_load. cbn [input]. rewrite Hp'. cbn [obind].
    rewrite HN2 by lia. by rewrite <- app_assoc.
Qed.

Lemma reads_text v : reads v.
Proof.
  induction v as [|b|n|s|l IH|l IH] using JsonValue_nested_ind; intros d rest p Hok He Hload;
    (eapply eventually_S; [intros k; apply parse_value_S|]); unfold value_switch; cbn [text] in Hload.
  - apply eventually_const. intros k. rewrite load_null in Hload by done. by injection Hload as <-.
  - apply eventually_const. intros k. rewrite load_bool in Hload by done. injection Hload as <-. by destruct b.
  - apply eventually_const. intros k. inversion Hok; subst. rewrite load_number in Hload by done. by injection Hload as <-.
  - apply eventually_const. intros k. inversion Hok; subst. cbn [app] in Hload. rewrite <- app_assoc in Hload. cbn [app] in Hload.
    rewrite load_string in Hload by done. by injection Hload as <-.
  - inversion Hok as [| | | |d' l' Hd Hall|]; subst. cbn [app] in Hload. rewrite (load_punct 91 _ TOK_LBRACKET) in Hload by (cbn; eauto 10).
    injection Hload as <-. cbn [current]. rewrite advance_load. cbn [input]. rewrite <- app_assoc. cbn [app]. unfold parse_array.
    rewrite (proj2 (Nat.ltb_ge _ _)) by done. destruct l as [|x l].
    + apply eventually_const. intros k. cbn [map join_comma app]. rewrite (load_punct 93 rest TOK_RBRACKET) by (cbn; eauto 10). done.
    + assert (Hp : exists p, load (join_comma (map text (x :: l)) ++ 93 :: rest) = Ret p /\ opens p).
      { apply Forall_cons in Hall as [Hx _]. cbn [map join_comma]. destruct l as [|y l]; cbn [map].
        - eapply load_text; [done|]. cbn. auto.
        - rewrite <- app_assoc. eapply load_text; [done|]. cbn. auto. }
      destruct Hp as (p & Hp & Hopen). destruct (read_items (x :: l) ltac:(done) IH [] d rest p Hd Hall Hp) as [N HN'].
      exists N. intros fuel Hf. rewrite Hp. cbn [obind]. unfold opens in Hopen. unfold json_build_array.
      destruct (current p) as [[]|]; try done; by apply HN'.
  - inversion Hok as [| | | | |d' l' Hd Hnd Hall]; subst. cbn [app] in Hload. rewrite (load_punct 123 _ TOK_LBRACE) in Hload by (cbn; eauto 10).
    injection Hload as <-. cbn [current]. rewrite advance_load. cbn [input]. rewrite <- app_assoc. cbn [app]. unfold parse_object.
    rewrite (proj2 (Nat.ltb_ge _ _)) by done. fold member_text. destruct l as [|[k x] l].
    + apply eventually_const. intros j. cbn [map join_comma app]. rewrite (load_punct 125 rest TOK_RBRACE) by (cbn; eauto 10). done.
    + assert (Hp : exists p, load (join_comma (map member_text ((k, x) :: l)) ++ 125 :: rest) = Ret p /\ opens p).
      { apply Forall_cons in Hall as [[Hk _] _]. cbn [map join_comma fst] in *. destruct l as [|y l]; cbn [map join_comma].
        - rewrite load_member by done. by eexists.
        - rewrite <- app_assoc. rewrite load_member by done. by eexists. }
      destruct Hp as (p & Hp & Hopen). destruct (read_members ((k, x) :: l) ltac:(done) IH [] d rest p Hd Hnd Hall Hp) as [N HN'].
      exists N. intros fuel Hf. rewrite Hp. cbn [obind]. unfold opens in Hopen. unfold json_build_object.
      destruct (current p) as [[]|]; try done; by apply HN'.
Qed.

(** ** More fuel does not change a result *)

Definition approx (f g : JsonParser (num := num) -> nat -> parse_result (num := num)) : Prop := forall p d, f p d = OutOfFuel \/ f p d = g p d.
Definition approx_loop (f g : JsonValue num -> JsonParser (num := num) -> nat -> parse_result (num := num)) : Prop := forall v, approx (f v) (g v).

Ltac step_both :=
  match goal with
  | |- context [match current ?p with _ => _ end] => destruct (current p) as [[]|]
  | |- context [obind (parser_advance ?p) _] => destruct (parser_advance p); cbn [obind]
  | |- context [obind (json_object_set ?o ?k ?v) _] => destruct (json_object_set o k v); cbn [obind]
  end.

Lemma object_round_approx v v' l l' : approx v v' -> approx_loop l l' -> approx_loop (object_round v l) (object_round v' l').
Proof.
  intros Hv Hl obj p d. unfold object_round. do 4 (try step_both; try by right).
  destruct (Hv x0 (S d)) as [->| ->]; [by left|]. destruct (v' x0 (S d)) as [[[w|] q]| |]; cbn [obind]; try by right.
  repeat (step_both; try by right). apply Hl.
Qed.
Lemma array_round_approx v v' l l' : approx v v' -> approx_loop l l' -> approx_loop (array_round v l) (array_round v' l').
Proof.
  intros Hv Hl arr p d. unfold array_round.
  destruct (Hv p (S d)) as [->| ->]; [by left|]. destruct (v' p (S d)) as [[[w|] q]| |]; cbn [obind]; try by right.
  repeat (step_both; try by right). apply Hl.
Qed.
Lemma value_switch_approx o o' a a' : approx o o' -> approx a a' -> approx (value_switch o a) (value_switch o' a').
Proof. intros Ho Ha p d. unfold value_switch. repeat (step_both; try by right); auto. Qed.
Lemma parse_object_approx l l' : approx_loop l l' -> approx (parse_object l) (parse_object l').
Proof. intros Hl p d. unfold parse_object. destruct (_ <? _)%nat; [by right|]. destruct (current p) as [[]|]; try apply Hl. by right. Qed.
Lemma parse_array_approx l l' : approx_loop l l' -> approx (parse_array l) (parse_array l').
Proof. intros Hl p d. unfold parse_array. destruct (_ <? _)%nat; [by right|]. destruct (current p) as [[]|]; try apply Hl. by right. Qed.

Lemma fuel_step f : approx (parse_value f) (parse_value (S f)) /\ approx_loop (object_loop f) (object_loop (S f)) /\
  approx_loop (array_loop f) (array_loop (S f)).
Proof.
  induction f as [|f (IHv & IHo & IHa)]; [split_and!; intros ?; by left|]. split_and!.
  - intros p d. rewrite !parse_value_S. apply value_switch_approx; [by apply parse_object_approx|by apply parse_array_approx].
  - intros obj p d. rewrite !object_loop_S. by apply object_round_approx.
  - intros arr p d. rewrite !array_loop_S. by apply array_round_approx.
Qed.

Lemma fuel_more f k p d : parse_value f p d <> OutOfFuel -> parse_value (k + f) p d = parse_value f p d.
Proof.
  intros Hr. induction k as [|k IH]; [done|]. destruct (fuel_step (k + f)) as [Hs _]. destruct (Hs p d) as [Ho|He].
  - rewrite IH in Ho. done.
  - cbn [Nat.add]. by rewrite <- He.
Qed.

(** The fuel of [json_parse] is enough for the result that more fuel gives. *)
Lemma json_parse_eventually s p m : load s = Ret p -> opens p -> eventually (fun f => parse_value f p 0) m ->
  json_parse s = (vp <- m; Ret vp.1).
Proof.
  intros Hl Ho [N HN']. unfold json_parse. fold (load s). rewrite Hl. cbn [obind].
  assert (Hm : parse_value (json_fuel s) p 0 = m).
  { rewrite <- (HN' (N + json_fuel s)%nat) by lia. symmetry. apply fuel_more. destruct (parse_returns (json_fuel s)) as [Hv _].
    apply Hv. pose proof (advance_measure (mk_parser None s)) as [_ Hms]. specialize (Hms p Hl). cbn [input] in Hms. unfold json_fuel. lia. }
  unfold opens in Ho. rewrite Hm. by destruct (current p) as [[]|].
Qed.

Lemma json_parse_text v rest : json_ok 0 v -> ends rest -> json_parse (text v ++ rest) = (_ <- load rest; Ret (Some v)).
Proof.
  intros Hv He. destruct (load_text 0 v rest Hv He) as (p & Hp & Ho).
  rewrite (json_parse_eventually _ p _ Hp Ho (reads_text v 0%nat rest p Hv He Hp)). unfold then_load. by destruct (load rest).
Qed.

(** ** Properties *)

(** C2: a value whose depth, strings, keys and numbers the library can express is
    printed whole by [json_serialize] into a large enough buffer, and [json_parse]
    reads the text back as the same value. *)
Theorem json_roundtrip v buf_sz : json_ok 0 v -> (length (text v) < buf_sz)%nat -> Z.of_nat buf_sz < 2 ^ 64 ->
  exists s, json_serialize v buf_sz = Some (s, length s) /\ json_parse s = Ret (Some v).
Proof.
  intros Hv Hl H64. exists (text v). split.
  - unfold json_serialize. rewrite (proj2 (Nat.eqb_neq _ _)) by lia. by rewrite serialize_text by (cbn; lia || done).
  - rewrite <- (app_nil_r (text v)). by rewrite json_parse_text by done.
Qed.

(** [json_parse] with a bound on the depth of its calls and the rounds of its loops. *)
Definition json_parse_within (fuel : nat) (s : list Z) : outcome (option (JsonValue num)) :=
  p <- parser_advance (mk_parser None s);
  match current p with
  | None | Some TOK_EOF => Ret None
  | _ => vp <- parse_value fuel p 0; Ret vp.1
  end.

(** C37: [json_parse] ends on every input: however malformed or deeply nested the text, the
    recursive descent and its loops come to a value, to NULL or to one of the undefined
    operations that the other theorems name, within [2 * length s + 4] nested calls and
    rounds; any larger bound gives the same. *)
Theorem json_parse_terminates (s : list Z) :
  ((exists r, json_parse s = Ret r) \/ json_parse s = UB) /\
  forall fuel, (2 * length s + 4 <= fuel)%nat -> json_parse_within fuel s = json_parse s.
Proof.
  split; [pose proof (json_parse_ends s) as He; destruct (json_parse s) as [r| |]; [left; by exists r|by right|done]|].
  intros fuel Hf. unfold json_parse_within, json_parse. pose proof (advance_measure (mk_parser None s)) as [_ Hm].
  destruct (parser_advance (mk_parser None s)) as [p| |]; [|done|done]. cbn [obind]. specialize (Hm p eq_refl). cbn [input] in Hm.
  assert (Hv : parse_value fuel p 0 = parse_value (json_fuel s) p 0).
  { replace fuel with ((fuel - json_fuel s) + json_fuel s)%nat by (unfold json_fuel; lia). apply fuel_more.
    destruct (parse_returns (json_fuel s)) as [Hr _]. apply Hr. unfold json_fuel. lia. }
  by rewrite Hv.
Qed.

(** Text after the value is ignored. *)
Theorem json_parse_ignores_rest v rest : json_ok 0 v -> json_parse (text v ++ 44 :: rest) = Ret (Some v).
Proof. intros Hv. rewrite json_parse_text by (cbn; auto). by rewrite (load_punct 44 rest TOK_COMMA) by (cbn; eauto 10). Qed.

(** Two inputs that make the parser free memory it does not own: an object
    with the same key twice, whatever the values, and an array with a comma before
    its closing bracket, whatever the element. *)
Theorem json_parse_frees_interior k v w : key_ok k -> json_ok 1 v -> json_ok 1 w ->
  json_parse (text (JSON_OBJECT [(k, v); (k, w)])) = UB /\ json_parse (91 :: text v ++ [44; 93]) = UB.
Proof.
  intros Hk Hv Hw. split.
  - set (rest1 := 44 :: member_text (k, w) ++ [125]).
    assert (Htext : text (JSON_OBJECT [(k, v); (k, w)]) = 123 :: member_text (k, v) ++ rest1).
    { cbn [text map join_comma]. unfold rest1, member_text. cbn [fst snd]. by rewrite <- !app_assoc. }
    rewrite Htext.
    rewrite (json_parse_eventually _ (mk_parser (Some TOK_LBRACE) (member_text (k, v) ++ rest1)) UB); [done|by apply load_punct; cbn; eauto 10|done|].
    eapply eventually_S; [intros f; apply parse_value_S|]. unfold value_switch. cbn [current].
    rewrite advance_load. cbn [input]. rewrite load_member by done. cbn [obind parse_object current]. unfold json_build_object.
    eapply eventually_S; [intros f; apply object_loop_S|]. unfold object_round. cbn [current].
    rewrite advance_load. cbn [input]. rewrite (load_punct 58 _ TOK_COLON) by (cbn; eauto 10). cbn [obind current]. rewrite advance_load. cbn [input].
    destruct (load_text 1 v rest1 Hv ltac:(cbn; auto)) as (p1 & Hp1 & _). rewrite Hp1. cbn [obind].
    destruct (reads_text v 1%nat rest1 p1 Hv ltac:(cbn; auto) Hp1) as [N1 HN1].
    destruct (load_text 1 w [125] Hw ltac:(cbn; auto)) as (p2 & Hp2 & _).
    destruct (reads_text w 1%nat [125] p2 Hw ltac:(cbn; auto) Hp2) as [N2 HN2].
    exists (S (N1 + N2)). intros [|f] Hf; [lia|]. rewrite HN1 by lia. unfold then_load at 1. unfold rest1.
    rewrite (load_punct 44 _ TOK_COMMA) by (cbn; eauto 10). cbn [obind]. unfold json_build_object. rewrite object_set_new by apply not_elem_of_nil. cbn [obind snd current].
    rewrite advance_load. cbn [input]. rewrite load_member by done. cbn [obind]. rewrite object_loop_S. unfold object_round. cbn [current].
    rewrite advance_load. cbn [input]. rewrite (load_punct 58 _ TOK_COLON) by (cbn; eauto 10). cbn [obind current]. rewrite advance_load. cbn [input].
    rewrite Hp2. cbn [obind]. rewrite HN2 by lia. unfold then_load. rewrite (load_punct 125 _ TOK_RBRACE) by (cbn; eauto 10). cbn [obind].
    unfold json_object_set. cbn [app find_idx fst]. by rewrite bool_decide_eq_true_2.
  - rewrite (json_parse_eventually _ (mk_parser (Some TOK_LBRACKET) (text v ++ [44; 93])) UB); [done|by apply load_punct; cbn; eauto 10|done|].
    eapply eventually_S; [intros f; apply parse_value_S|]. unfold value_switch. cbn [current].
    rewrite advance_load. cbn [input]. destruct (load_text 1 v [44; 93] Hv ltac:(cbn; auto)) as (p1 & Hp1 & Ho). rewrite Hp1. cbn [obind].
    destruct (reads_text v 1%nat [44; 93] p1 Hv ltac:(cbn; auto) Hp1) as [N1 HN1]. unfold parse_array. cbn [Nat.ltb Nat.leb].
    assert (Hloop : eventually (fun f => array_loop f json_build_array p1 0) UB).
    { eapply eventually_S; [intros f; apply array_loop_S|]. unfold array_round. exists (S (S N1)). intros [|f] Hf; [lia|]. rewrite HN1 by lia.
      unfold then_load. rewrite (load_punct 44 _ TOK_COMMA) by (cbn; eauto 10). cbn [obind json_array_push snd current].
      rewrite advance_load. cbn [input]. rewrite (load_punct 93 _ TOK_RBRACKET) by (cbn; eauto 10). cbn [obind]. rewrite array_loop_S. unfold array_round.
      destruct f as [|f]; [lia|]. rewrite parse_value_S. unfold value_switch. cbn [current]. done. }
    unfold opens in Ho. change (JSON_MAX_DEPTH <? 0)%nat with false. cbv iota. by destruct (current p1) as [[]|].
Qed.
End text.

(** ** Whole numbers *)

(** The doubles that are integers, below 1e15: "%.0f" prints all their digits. *)
#[export] Instance whole_numbers : JsonNumber Z := { strtod := signed_value; print_num := print_lld }.

Lemma span_digits_digits l rest : Forall (fun c => 48 <= c <= 57) l -> ends rest -> span_digits (l ++ rest) = (l, rest).
Proof.
  intros Hl He. induction Hl as [|c l Hc Hl IH].
  - destruct rest as [|c rest]; [done|]. cbn in *. unfold is_digit. by destruct He as [->|[->| ->]].
  - cbn [app span_digits]. unfold is_digit at 1. rewrite (proj2 (Z.leb_le 48 c)), (proj2 (Z.leb_le c 57)) by lia. cbn [andb]. by rewrite IH.
Qed.

Lemma digits_head fuel n : 0 < n < 10 ^ Z.of_nat fuel -> exists c l, digits fuel n = c :: l /\ c <> 48.
Proof.
  revert n. induction fuel as [|fuel IH]; intros n Hn; [change (10 ^ Z.of_nat 0) with 1 in Hn; lia|].
  rewrite Nat2Z.inj_succ, Z.pow_succ_r in Hn by lia. cbn [digits]. destruct (Z.ltb_spec n 10).
  - exists (48 + n), []. split; [done|lia].
  - destruct (IH (n / 10)) as (c & l & -> & Hc); [Z.to_euclidean_division_equations; lia|]. cbn. eauto.
Qed.

Lemma whole_num_ok z : Z.abs z < 10 ^ 15 -> num_ok z.
Proof.
  intros Hz. assert (Hpos : forall n, 0 <= n < 10 ^ 15 -> forall rest, ends rest -> forall sg, number_sign (sg ++ digits 20 n ++ rest) = (sg, digits 20 n ++ rest) ->
    (length sg <= 1)%nat -> number_text (sg ++ digits 20 n ++ rest) = Some (sg ++ digits 20 n, rest)).
  { intros n Hn rest He sg Hsg Hsl. assert (Hfrac : number_frac rest = Some ([], rest) /\ number_exp rest = Some ([], rest)).
    { destruct rest as [|c rest]; [done|]. cbn in He. by destruct He as [->|[->| ->]]. }
    assert (Hint : number_int (sg ++ digits 20 n ++ rest) = Some (sg ++ digits 20 n, rest)).
    { unfold number_int. rewrite Hsg. destruct (decide (n = 0)) as [->|Hn0]; [done|].
      destruct (digits_head 20 n ltac:(lia)) as (c & l & Hd & Hc).
      pose proof (span_digits_digits (digits 20 n) rest (digits_shape 20 n ltac:(lia)) He) as Hsp. unfold digits1.
      rewrite Hsp, Hd. cbn [app]. by rewrite (proj2 (Z.eqb_neq c 48)). }
    unfold number_text. rewrite Hint. cbn [mbind option_bind]. destruct Hfrac as [-> Hexp]. cbn [mbind option_bind]. rewrite Hexp. cbn [mbind option_bind].
    rewrite !app_nil_r. rewrite (proj2 (Nat.leb_gt _ _)); [done|]. rewrite length_app. pose proof (digits_length 20 n).
    unfold JSON_MAX_NUMBER_LEN. lia. }
  assert (Hhead : forall n, 0 <= n -> exists c l, digits 20 n = c :: l /\ 48 <= c <= 57).
  { intros n Hn. pose proof (digits_nonempty 19 n). pose proof (digits_shape 20 n Hn) as Hs. destruct (digits 20 n) as [|c l]; [done|].
    apply Forall_cons in Hs as [Hc _]. eauto. }
  split.
  - cbn. pose proof (atoll_print z 44 [] ltac:(lia) ltac:(done)) as Ha. unfold atoll in Ha.
    assert (Hsv : signed_value (print_lld z ++ [44]) = signed_value (print_lld z)).
    { assert (Hdv : forall l acc, digits_value acc (l ++ [44]) = digits_value acc l).
      { induction l as [|c l IHl]; intros acc; cbn [app digits_value]; [done|]. destruct (is_digit c); [apply IHl|done]. }
      unfold print_lld, signed_value. destruct (Z.ltb_spec z 0).
      - cbn [app skip_spaces]. change (is_space 45) with false. cbv iota. change (45 =? 45) with true. cbv iota. by rewrite Hdv.
      - destruct (Hhead z ltac:(lia)) as (c & l & -> & Hc). cbn [app skip_spaces].
        assert (Hsp : is_space c = false) by (unfold is_space; by rewrite (proj2 (Z.eqb_neq c 32)), (proj2 (Z.leb_gt c 13)), andb_false_r by lia).
        rewrite Hsp, (proj2 (Z.eqb_neq c 45)), (proj2 (Z.eqb_neq c 43)) by lia. apply (Hdv (c :: l)). }
    rewrite Hsv in Ha. destruct (_ && _); congruence.
  - intros rest He. cbn [print_num whole_numbers]. unfold print_lld. destruct (Z.ltb_spec z 0).
    + apply (Hpos (- z) ltac:(lia) rest He [45]); [done|cbn; lia].
    + apply (Hpos z ltac:(lia) rest He []); [|cbn; lia]. destruct (Hhead z ltac:(lia)) as (c & l & -> & Hc). cbn.
      by rewrite (proj2 (Z.eqb_neq c 45)) by lia.
Qed.

Definition example_value : JsonValue Z :=
  JSON_OBJECT [(str_bytes "id", JSON_NUMBER (-42));
               (str_bytes "tags", JSON_ARRAY [JSON_STRING [34; 10; 1; 200]; JSON_BOOL true; JSON_NULL; JSON_ARRAY []]);
               (str_bytes "o", JSON_OBJECT [])].

Lemma char_ok_all l : forallb (fun c => (0 <? c) && (c <? 256)) l = true -> Forall char_ok l.
Proof. rewrite forallb_forall. intros Hl. apply Forall_forall. intros c Hc%list_elem_of_In. specialize (Hl c Hc). zbool. unfold char_ok. lia. Qed.
Lemma key_ok_all k : forallb (fun c => (0 <? c) && (c <? 256) && bool_decide (escape_of c = None)) k && (length k <? JSON_MAX_STRING_LEN - 1)%nat = true -> key_ok k.
Proof.
  intros [Hk Hl%Nat.ltb_lt]%andb_true_iff. split; [|done]. rewrite forallb_forall in Hk. apply Forall_forall. intros c Hc%list_elem_of_In.
  specialize (Hk c Hc). apply andb_true_iff in Hk as [Hk He%bool_decide_eq_true_1]. zbool. unfold char_ok. split; [lia|done].
Qed.

Lemma example_value_ok : json_ok 0 example_value.
Proof.
  constructor; [unfold JSON_MAX_DEPTH; lia|by apply (bool_decide_unpack _)|].
  repeat apply Forall_cons_2; try apply Forall_nil_2; (split; [apply key_ok_all; vm_compute; reflexivity|]).
  - constructor. apply whole_num_ok. lia.
  - constructor; [unfold JSON_MAX_DEPTH; lia|].
    repeat apply Forall_cons_2; try apply Forall_nil_2.
    + constructor; [apply char_ok_all; vm_compute; reflexivity|apply Nat.ltb_lt; vm_compute; reflexivity].
    + constructor.
    + constructor.
    + constructor; [unfold JSON_MAX_DEPTH; lia|constructor].
  - constructor; [unfold JSON_MAX_DEPTH; lia| |]; constructor.
Qed.

(** An array that is never closed: the bound is met, and the result is NULL. *)
Lemma json_parse_terminates_witness : json_parse (num := Z) (str_bytes "[[") = Ret None /\ json_parse_within 8 (str_bytes "[[") = json_parse (num := Z) (str_bytes "[[").
Proof. split; [vm_compute; reflexivity|]. apply (json_parse_terminates (num := Z) (str_bytes "[[")). cbn. lia. Defined.

Lemma json_roundtrip_witness :
  exists s, json_serialize example_value 100 = Some (s, length s) /\ json_parse s = Ret (Some example_value).
Proof. apply (json_roundtrip example_value 100 example_value_ok); [vm_compute; lia|reflexivity]. Defined.

Lemma json_parse_frees_interior_witness :
  json_parse (text (JSON_OBJECT [(str_bytes "a", JSON_NUMBER 1); (str_bytes "a", JSON_NULL)])) = UB /\
  json_parse (num := Z) (91 :: text (JSON_NUMBER 1) ++ [44; 93]) = UB.
Proof.
  apply (json_parse_frees_interior (str_bytes "a") (JSON_NUMBER 1) JSON_NULL).
  - apply key_ok_all. vm_compute. reflexivity.
  - constructor. apply whole_num_ok. lia.
  - constructor.
Defined.

(** ** Paths *)

Inductive path_step := Key (k : list Z) | Index (i : Z).

(** [a.b[3].c]: a key after the first step follows a dot. *)
Definition render_step (first : bool) (st : path_step) : list Z :=
  match st with
  | Key k => (if first then [] else [46]) ++ k
  | Index i => 91 :: print_lld i ++ [93]
  end.
Fixpoint render_path (first : bool) (steps : list path_step) : list Z :=
  match steps with [] => [] | st :: steps' => render_step first st ++ render_path false steps' end.

(** A key that a path can name: not a number, no dot and no bracket. *)
Definition path_step_ok (st : path_step) : Prop :=
  match st with
  | Key k => (exists c k', k = c :: k' /\ is_digit c = false) /\ 46 ∉ k /\ 91 ∉ k /\ (length k <= 255)%nat
  | Index i => 0 <= i < 2 ^ 31
  end.

Lemma take_segment_spec room stop k rest : Forall (fun c => stop c = false) k -> (length k <= room)%nat ->
  match rest with [] => True | c :: _ => stop c = true end -> take_segment room stop (k ++ rest) = (k, rest).
Proof.
  intros Hk. revert room. induction Hk as [|c k Hc Hk IH]; intros room Hl Hr.
  - destruct room, rest as [|c rest]; cbn; try done. by rewrite Hr.
  - destruct room as [|room]; cbn [length] in Hl; [lia|]. cbn [app take_segment]. rewrite Hc, IH by (done || lia). done.
Qed.

Section paths.
Context {num : Type} `{HN : JsonNumber num}.

(** The value one step further. *)
Definition step_get (cur : option (JsonValue num)) (st : path_step) : option (JsonValue num) :=
  match st with Key k => json_object_get cur k | Index i => json_array_get cur i end.

Lemma steps_none steps : foldl step_get None steps = None.
Proof. by induction steps as [|[] steps IH]. Qed.

(** What follows a step in a path. *)
Lemma render_rest steps : match render_path false steps with [] => True | c :: _ => c = 46 \/ c = 91 end.
Proof. destruct steps as [|[k|i] steps]; cbn; auto. Qed.

Definition skip_dot (r : list Z) : list Z := match r with 46 :: r' => r' | _ => r end.

(** One round of the loop, on a path that starts with a step. *)
Lemma next_segment_step st steps : path_step_ok st ->
  exists seg r, next_segment (render_step true st ++ render_path false steps) = (seg, r) /\
    (match st with Key k => seg = k | Index i => seg = print_lld i end) /\ r = render_path false steps.
Proof.
  pose proof (render_rest steps) as Hrest. destruct st as [k|i]; cbn [path_step_ok render_step app].
  - intros ((c & k' & Hk & _) & H46 & H91 & Hl). exists k, (render_path false steps). split_and!; [|done|done].
    assert (Hns : next_segment (k ++ render_path false steps) = take_segment 255 (fun c => (c =? 46) || (c =? 91)) (k ++ render_path false steps)).
    { rewrite Hk in *. apply not_elem_of_cons in H91 as [H91 _]. unfold next_segment. cbn [app]. destruct c as [|q|q]; try done.
      repeat (destruct q as [q|q|]; try done). }
    rewrite Hns. apply take_segment_spec; [|done|].
    + apply Forall_forall. intros x Hx. apply orb_false_iff. split; apply Z.eqb_neq; intros ->; done.
    + destruct (render_path false steps) as [|x l]; [done|]. by destruct Hrest as [->| ->].
  - intros Hi. exists (print_lld i), (render_path false steps). rewrite <- app_assoc. cbn [app next_segment].
    rewrite (take_segment_spec 255 (fun c => c =? 93) (print_lld i) (93 :: render_path false steps)); [done| | |done].
    + eapply Forall_impl; [apply print_lld_chars|]. cbn. intros x Hx. apply Z.eqb_neq. lia.
    + pose proof (print_lld_length i). lia.
Qed.

Lemma path_loop_steps steps : forall fuel cur, Forall path_step_ok steps -> (length (render_path true steps) <= fuel)%nat ->
  path_loop fuel cur (render_path true steps) = Ret (foldl step_get cur steps).
Proof.
  induction steps as [|st steps IH]; intros fuel cur Hok Hf; [by destruct fuel|].
  apply Forall_cons in Hok as [Hst Hok]. destruct (next_segment_step st steps Hst) as (seg & r & Hseg & Hs & ->).
  cbn [render_path foldl] in *. rewrite length_app in Hf.
  assert (Hne : exists c l, render_step true st ++ render_path false steps = c :: l /\ (1 <= length (render_step true st))%nat).
  { destruct st as [k|i]; cbn; [|eexists _, _; split; [done|lia]]. destruct Hst as ((c & k' & -> & _) & _). cbn. eexists _, _. split; [done|lia]. }
  destruct Hne as (c & l & Hcl & Hlen). destruct cur as [v|].
  2: { assert (Hn : step_get None st = None) by (by destruct st). rewrite Hn, steps_none, Hcl. by destruct fuel. }
  rewrite Hcl in *. destruct fuel as [|fuel]; [lia|]. cbn [path_loop]. rewrite Hseg.
  assert (Hdot : match render_path false steps with 46 :: r' => r' | _ => render_path false steps end = render_path true steps).
  { destruct steps as [|[k|i] steps]; done. }
  rewrite Hdot.
  assert (Hnext : forall cur', path_loop fuel cur' (render_path true steps) = Ret (foldl step_get cur' steps)).
  { intros cur'. apply IH; [done|]. assert (length (render_path true steps) <= length (render_path false steps))%nat; [|lia].
    destruct steps as [|[k|i] steps]; cbn; rewrite ?length_app; cbn; lia. }
  destruct st as [k|i]; subst seg.
  - destruct Hst as ((c0 & k' & -> & Hd) & _). rewrite Hd. apply Hnext.
  - cbn in Hst. assert (Ha : atoll (print_lld i) = Some i /\ exists d t, print_lld i = d :: t /\ is_digit d = true).
    { split.
      - pose proof (atoll_print i 93 [] ltac:(lia) ltac:(done)) as Ha. rewrite <- Ha. unfold atoll.
        assert (Hsv : signed_value (print_lld i ++ [93]) = signed_value (print_lld i)); [|by rewrite Hsv].
        unfold print_lld. rewrite (proj2 (Z.ltb_ge i 0)) by lia.
        pose proof (digits_shape 20 i ltac:(lia)) as Hsh. pose proof (digits_nonempty 19 i) as Hdn.
        rewrite (signed_value_digits _ [93]) by done. rewrite <- (app_nil_r (digits 20 i)) at 2. rewrite (signed_value_digits _ []) by done.
        rewrite !digits_value_digits by lia. done.
      - unfold print_lld. rewrite (proj2 (Z.ltb_ge i 0)) by lia. pose proof (digits_shape 20 i ltac:(lia)) as Hsh.
        pose proof (digits_nonempty 19 i) as Hdn. destruct (digits 20 i) as [|d t]; [done|]. exists d, t. split; [done|].
        apply Forall_cons in Hsh as [Hd _]. unfold is_digit. by rewrite (proj2 (Z.leb_le 48 d)), (proj2 (Z.leb_le d 57)) by lia. }
    destruct Ha as [Ha (d & t & Hdt & Hd)]. rewrite Hdt in *. rewrite Hd, Ha. rewrite (proj2 (Z.ltb_lt _ _)) by lia. apply Hnext.
Qed.

(** [json_path_get] follows a path of keys and indices like a chain of object
    and array lookups. *)
Theorem json_path_get_correct root steps : Forall path_step_ok steps ->
  json_path_get root (render_path true steps) = Ret (foldl step_get (Some root) steps).
Proof. intros Hok. by apply path_loop_steps. Qed.
End paths.

Lemma json_path_get_correct_witness :
  let steps := [Key (str_bytes "tags"); Index 1] in
  render_path true steps = str_bytes "tags[1]" /\ json_path_get example_value (str_bytes "tags[1]") = Ret (Some (JSON_BOOL true)).
Proof.
  intros steps. split; [reflexivity|]. change (str_bytes "tags[1]") with (render_path true steps).
  rewrite (json_path_get_correct example_value steps); [reflexivity|].
  constructor; [|constructor; [cbn; lia|constructor]].
  split; [eexists _, _; split; [reflexivity|reflexivity]|].
  split; [intros H%list_elem_of_In; cbn in H; intuition discriminate|].
  split; [intros H%list_elem_of_In; cbn in H; intuition discriminate|cbn; lia].
Defined.
