(* ===== verification/JsonTyped.v ===== *)
(** What the parser of [Json] can return: trees whose strings and keys are C strings
    that fit the token buffer, whose keys are distinct and whose nesting is bounded. *)

From S2P Require Import Prelude Bytes HttpCore Json JsonRoundTrip.

(** A C string that fits the token buffer. *)
Definition text_ok (t : list Z) : Prop := Forall char_ok t /\ (length t < JSON_MAX_STRING_LEN - 1)%nat.

Inductive json_typed {num : Type} : nat -> JsonValue num -> Prop :=
| ty_null d : json_typed d JSON_NULL
| ty_bool d b : json_typed d (JSON_BOOL b)
| ty_number d n : json_typed d (JSON_NUMBER n)
| ty_string d s : text_ok s -> json_typed d (JSON_STRING s)
| ty_array d l : (d <= JSON_MAX_DEPTH)%nat -> Forall (json_typed (S d)) l -> json_typed d (JSON_ARRAY l)
| ty_object d l : (d <= JSON_MAX_DEPTH)%nat -> NoDup (fst <$> l) ->
    Forall (fun m => text_ok m.1 /\ json_typed (S d) m.2) l -> json_typed d (JSON_OBJECT l).

(** ** The characters of a token *)

Lemma lor_byte x y : byte_ok x -> byte_ok y -> byte_ok (Z.lor x y).
Proof.
  unfold byte_ok. intros Hx Hy. assert (Hn : 0 <= Z.lor x y) by (apply Z.lor_nonneg; lia). split; [done|].
  destruct (Z.eq_dec (Z.lor x y) 0) as [->|]; [lia|]. apply (Z.log2_lt_cancel (Z.lor x y) 256).
  rewrite Z.log2_lor by lia. assert (Hlog : forall z, 0 <= z < 256 -> Z.log2 z < Z.log2 256).
  { intros z Hz. destruct (Z.eq_dec z 0) as [->|]; [done|]. change (Z.log2 256) with 8. apply Z.log2_lt_pow2; lia. }
  pose proof (Hlog x Hx). pose proof (Hlog y Hy). lia.
Qed.

Lemma hex4_range h1 h2 h3 h4 cp : hex4 h1 h2 h3 h4 = Some cp -> 0 <= cp < 65536.
Proof.
  assert (Hv : forall c x, hex_value c = Some x -> 0 <= x < 16).
  { intros c x. unfold hex_value. repeat case_match; intros [= <-]; lia. }
  unfold hex4. intros (a & Ha%Hv & (b & Hb%Hv & (c & Hc%Hv & (d & Hd%Hv & [= <-])%bind_Some)%bind_Some)%bind_Some)%bind_Some.
  rewrite (lor_shiftl a b 4) by lia. rewrite (lor_shiftl _ c 4) by lia. rewrite (lor_shiftl _ d 4) by lia. lia.
Qed.

Lemma utf8_bytes cp : 0 <= cp < 65536 -> Forall byte_ok (utf8 cp).
Proof.
  intros Hcp. unfold utf8. change 0x3F with 63. rewrite !land_63, !Z.shiftr_div_pow2 by lia.
  assert (H63 : forall x, byte_ok (Z.lor 0x80 (x mod 64))).
  { intros x. apply lor_byte; unfold byte_ok; pose proof (Z.mod_pos_bound x 64); lia. }
  destruct (Z.ltb_spec cp 0x80); [|destruct (Z.ltb_spec cp 0x800)]; repeat constructor; try apply H63; try (unfold byte_ok; lia);
    apply lor_byte; unfold byte_ok; Z.to_euclidean_division_equations; lia.
Qed.

Lemma escape_char_byte e x : escape_char e = Some x -> byte_ok x.
Proof. unfold escape_char, byte_ok. repeat case_match; intros [= <-]; lia. Qed.

Lemma string_loop_chars s : forall out t r, Forall char_ok s -> Forall byte_ok out -> string_loop s out = Ret (Some (t, r)) ->
  Forall byte_ok t /\ (length t < JSON_MAX_STRING_LEN - 1)%nat /\ Forall char_ok r.
Proof.
  induction s as [s IH] using (induction_ltof1 _ (@length Z)). unfold ltof in IH. intros out t r Hs Ho.
  destruct s as [|c s1]; cbn [string_loop]; (destruct (Nat.leb_spec (JSON_MAX_STRING_LEN - 1) (length out)) as [|Hlen]; [done|]); [done|].
  apply Forall_cons in Hs as [Hc Hs].
  destruct (c =? 34); [by intros [= <- <-]|]. destruct (c =? 92).
  - destruct s1 as [|e s2]; [done|]. destruct (e =? 117).
    + destruct s2 as [|h1 [|h2 [|h3 [|h4 s3]]]]; try done. destruct (hex4 _ _ _ _) as [cp|] eqn:Hcp; [|done].
      destruct (_ <? _)%nat; [done|]. apply IH; [cbn; lia| |].
      * by repeat (apply Forall_cons in Hs as [_ Hs]).
      * apply Forall_app. split; [done|]. apply utf8_bytes. by eapply hex4_range.
    + destruct (escape_char e) as [x|] eqn:He; [|done]. apply IH; [cbn; lia| |].
      * by apply Forall_cons in Hs as [_ Hs].
      * apply Forall_app. split; [done|]. repeat constructor; by apply (escape_char_byte e).
  - destruct (c <? 32); [done|]. apply IH; [cbn; lia|done|]. apply Forall_app. split; [done|].
    repeat constructor; unfold char_ok in Hc; lia.
Qed.

Lemma cstr_text t : Forall byte_ok t -> (length t < JSON_MAX_STRING_LEN - 1)%nat -> text_ok (cstr t).
Proof.
  intros Ht Hl. unfold text_ok. assert (Hc : Forall char_ok (cstr t) /\ (length (cstr t) <= length t)%nat); [|destruct Hc; split; [done|lia]].
  clear Hl. induction Ht as [|x t Hx Ht [IH1 IH2]]; [by split|]. cbn [cstr]. destruct (Z.eqb_spec x 0) as [->|Hne]; [by split; [|cbn; lia]|].
  split; [|cbn; lia]. constructor; [|done]. unfold char_ok, byte_ok in *. lia.
Qed.

Lemma skip_whitespace_chars s : Forall char_ok s -> Forall char_ok (skip_whitespace s).
Proof. induction 1 as [|c s Hc Hs IH]; [done|]. cbn [skip_whitespace]. destruct (_ || _); [done|by constructor]. Qed.
Lemma starts_with_chars pat s r : Forall char_ok s -> starts_with pat s = Some r -> Forall char_ok r.
Proof.
  intros Hs. revert pat. induction Hs as [|c s Hc Hs IH]; intros [|p pat]; cbn; try done; [by intros [= <-]|intros [= <-]; by constructor|].
  destruct (p =? c); [apply IH|done].
Qed.
Lemma match_keyword_chars s kw r : Forall char_ok s -> match_keyword s kw = Some r -> Forall char_ok r.
Proof.
  unfold match_keyword. intros Hs (r' & Hr & H)%bind_Some. apply starts_with_chars in Hr; [|done].
  destruct r' as [|c r']; [by injection H as <-|]. destruct (_ || _); [done|]. by injection H as <-.
Qed.

(** ** The parser *)

Section typed.
Context {num : Type} `{HN : JsonNumber num}.
Implicit Types (v : JsonValue num) (p : JsonParser (num := num)).

Lemma next_typed s t r : Forall char_ok s -> json_tokenizer_next (num := num) s = Ret (Some (t, r)) ->
  Forall char_ok r /\ match t with TOK_STRING text => text_ok text | _ => True end.
Proof.
  intros Hs%skip_whitespace_chars. unfold json_tokenizer_next. destruct (skip_whitespace s) as [|c s1]; [by intros [= <- <-]|].
  assert (Hs1 : Forall char_ok s1) by by apply Forall_cons in Hs as [_ ?].
  repeat match goal with |- (if ?b then Ret (Some _) else _) = _ -> _ => destruct b; [intros [= <- <-]; by split|] end.
  destruct (c =? 34).
  { destruct (string_loop s1 []) as [[[t0 r0]|]| |] eqn:Hl; cbn [obind fmap option_fmap option_map]; try done. intros [= <- <-].
    apply string_loop_chars in Hl as (H1 & H2 & H3); [|done|done]. split; [done|]. by apply cstr_text. }
  do 3 (lazymatch goal with |- (if ?b then _ else _) = _ -> _ => destruct b end;
    [intros [= Hm]; apply fmap_Some in Hm as (r' & Hm & [= -> ->]); split; [by apply (match_keyword_chars _ _ _ Hs Hm)|done]|]).
  destruct (_ || _); [|done]. intros [= Hm]. apply fmap_Some in Hm as ([t0 r'] & Hm & [= -> ->]). split; [|done].
  apply number_text_app in Hm as [Hm _]. rewrite <- Hm in Hs. by apply Forall_app in Hs as [_ ?].
Qed.

(** The rest of the text and the current token. *)
Definition parser_typed p : Prop :=
  Forall char_ok (input p) /\ match current p with Some (TOK_STRING t) => text_ok t | _ => True end.
(** A returned value is typed at its depth and leaves a typed parser. *)
Definition yields (d : nat) (m : parse_result (num := num)) : Prop :=
  forall o p, m = Ret (o, p) -> parser_typed p /\ match o with Some v => json_typed d v | None => True end.

Lemma yields_ret d v p : parser_typed p -> json_typed d v -> yields d (Ret (Some v, p)).
Proof. by intros Hp Hv v' p' [= <- <-]. Qed.
Lemma yields_none d p : parser_typed p -> yields d (Ret (None, p)).
Proof. by intros Hp v' p' [= <- <-]. Qed.
Lemma yields_drop d v p : parser_typed p -> yields d (drop_container v p).
Proof. intros Hp v' p'. unfold drop_container, json_value_free. destruct v as [| | | |[]|[]]; cbn; try done; by intros [= <- <-]. Qed.
Lemma yields_advance d p k : parser_typed p -> (forall p', parser_typed p' -> yields d (k p')) -> yields d (obind (parser_advance p) k).
Proof.
  intros [Hi Hc] Hk. unfold parser_advance. destruct (json_tokenizer_next (input p)) as [[[t r]|]| |] eqn:Hn; cbn [obind]; try done.
  - apply Hk. apply next_typed in Hn as [Hr Ht]; [|done]. split; [done|]. by destruct t.
  - by apply Hk.
Qed.
Lemma yields_value d d' m k : yields d' m ->
  (forall o p, parser_typed p -> match o with Some v => json_typed d' v | None => True end -> yields d (k (o, p))) -> yields d (obind m k).
Proof. intros Hm Hk. destruct m as [[v p]| |]; cbn [obind]; try done. destruct (Hm v p eq_refl) as [Hp Hv]. by apply Hk. Qed.

(** What an object can be extended by. *)
Lemma object_set_typed d obj k v obj' : json_typed d obj -> text_ok k -> json_typed (S d) v ->
  json_object_set obj k v = Ret obj' -> json_typed d obj'.2.
Proof.
  intros Hobj Hk Hv. unfold json_object_set. destruct obj as [| | | | |l]; try by intros [= <-].
  destruct (find_idx _ _) eqn:Hf; [done|]. intros [= <-]. cbn [snd]. inversion Hobj as [| | | | |? ? Hd Hnd Hl]; subst.
  constructor; [done| |].
  - rewrite fmap_app. apply NoDup_app. split; [done|]. split; [|apply NoDup_singleton].
    intros x (m & -> & Hm)%list_elem_of_fmap. cbn. rewrite list_elem_of_singleton. intros Heq.
    pose proof (proj1 (find_idx_None _ _) Hf m Hm) as Hno. cbn in Hno. by apply bool_decide_eq_false in Hno.
  - apply Forall_app. split; [done|]. by apply Forall_singleton.
Qed.
Lemma array_push_typed d arr v : json_typed d arr -> json_typed (S d) v -> json_typed d (json_array_push arr v).2.
Proof.
  intros Harr Hv. unfold json_array_push. destruct arr as [| | | |l|]; try done. cbn. inversion Harr; subst.
  constructor; [done|]. apply Forall_app. split; [done|]. by apply Forall_singleton.
Qed.

Lemma parser_yields fuel :
  (forall p d, parser_typed p -> yields d (parse_value fuel p d)) /\
  (forall obj p d, parser_typed p -> json_typed d obj -> yields d (object_loop fuel obj p d)) /\
  (forall arr p d, parser_typed p -> json_typed d arr -> yields d (array_loop fuel arr p d)).
Proof.
  induction fuel as [|fuel (IHv & IHo & IHa)]; [by repeat split|]. split_and!.
  - intros p d Hp. rewrite parse_value_S. unfold value_switch, parse_object, parse_array.
    destruct (current p) as [t|] eqn:Ht; [|by apply yields_none].
    destruct t as [| | | | | |text|n| | | |]; try (by apply yields_none); apply yields_advance; try done; intros p1 H1;
      try (apply yields_ret; [done|by constructor]).
    + destruct (Nat.ltb_spec JSON_MAX_DEPTH d); [by apply yields_none|].
      assert (H0 : json_typed d (json_build_object (num := num))) by (constructor; [done|apply NoDup_nil_2|done]).
      destruct (current p1) as [[]|] eqn:?; try (by apply IHo). apply yields_advance; [done|]. intros p2 H2. by apply yields_ret.
    + destruct (Nat.ltb_spec JSON_MAX_DEPTH d); [by apply yields_none|].
      assert (H0 : json_typed d (json_build_array (num := num))) by (by constructor).
      destruct (current p1) as [[]|] eqn:?; try (by apply IHa). apply yields_advance; [done|]. intros p2 H2. by apply yields_ret.
    + apply yields_ret; [done|]. constructor. destruct Hp as [_ Hp]. by rewrite Ht in Hp.
  - intros obj p d Hp Hobj. rewrite object_loop_S. unfold object_round.
    destruct (current p) as [[| | | | | |key| | | | |]|] eqn:Ht; try by apply yields_drop.
    assert (Hkey : text_ok key) by (destruct Hp as [_ Hp]; by rewrite Ht in Hp).
    apply yields_advance; [done|]. intros p1 H1. destruct (current p1) as [[]|]; try by apply yields_drop.
    apply yields_advance; [done|]. intros p2 H2. apply (yields_value _ (S d)); [by apply IHv|]. intros [v|] p3 H3 Hv; [|by apply yields_drop].
    destruct (json_object_set obj key v) as [obj'| |] eqn:Hset; cbn [obind]; [|done|done]. apply (object_set_typed d) in Hset; [|done..].
    destruct (current p3) as [[]|]; try (by apply yields_drop); apply yields_advance; try done; intros p4 H4; [by apply yields_ret|by apply IHo].
  - intros arr p d Hp Harr. rewrite array_loop_S. unfold array_round.
    apply (yields_value _ (S d)); [by apply IHv|]. intros [v|] p3 H3 Hv; [|by apply yields_drop].
    assert (Hpush : json_typed d (json_array_push arr v).2) by by apply array_push_typed.
    destruct (current p3) as [[]|]; try (by apply yields_drop); apply yields_advance; try done; intros p4 H4; [by apply yields_ret|by apply IHa].
Qed.

(** C23: Whatever text [json_parse] is given, a value it returns is well typed: its
    strings and keys are C strings shorter than the token buffer, no object has the
    same key twice, and containers nest at most [JSON_MAX_DEPTH] deep. *)
Theorem json_parse_typed (s : list Z) v : Forall char_ok s -> json_parse s = Ret (Some v) -> json_typed 0 v.
Proof.
  intros Hs. unfold json_parse. destruct (parser_advance (mk_parser None s)) as [p| |] eqn:Hp; cbn [obind]; try done.
  assert (Ht : parser_typed p).
  { assert (Hy : yields 0 (obind (parser_advance (mk_parser None s)) (fun p => Ret (None, p)))).
    { apply yields_advance; [by split|]. intros p' H'. by apply yields_none. }
    rewrite Hp in Hy. cbn [obind] in Hy. by destruct (Hy None p eq_refl). }
  destruct (parser_yields (json_fuel s)) as [Hv _]. specialize (Hv p 0%nat Ht).
  assert (Hgo : (vp <- parse_value (json_fuel s) p 0; Ret vp.1) = Ret (Some v) -> json_typed 0 v).
  { destruct (parse_value _ _ _) as [[v' p']| |]; cbn [obind]; try done. intros [= ->]. by destruct (Hv (Some v) p' eq_refl). }
  by destruct (current p) as [[]|].
Qed.
End typed.

#[local] Instance example_typed_number : JsonNumber Z := {| strtod t := signed_value t; print_num := print_lld |}.
Lemma json_parse_typed_witness : let s := str_bytes "{'k': [1, {}], 'l': null}" in
  let s := (fun c => if c =? 39 then 34 else c) <$> s in
  exists v : JsonValue Z, json_parse s = Ret (Some v) /\ json_typed 0 v.
Proof.
  intros s0 s. eexists. split; [vm_compute; reflexivity|].
  refine (json_parse_typed s _ _ _); [|vm_compute; reflexivity].
  apply (bool_decide_unpack (Forall char_ok s)). vm_compute. exact I.
Defined.
