(* ===== verification/Saga.v ===== *)
(** Model of [mini-business-arch/src/saga_orch.c]: sagas (steps with
    compensations), the orchestrator that runs them and the bus that choreographs
    services by events.

    Step functions and event handlers given by the user of the library are
    parameters over an unknown world [W]; the step functions of the source are
    constructors of [saga_fn].  The calls are recorded ([calls]), with their results.
    A call through a null pointer and a read of freed memory have no result
    ([None]).  Step functions change the saga only through its data; handlers of
    the bus may publish on it.  Capacities matter only on the bus, where growing the
    log moves the event being dispatched. *)

From S2P Require Import Prelude Bytes.

Definition SAGA_ID_LEN : nat := 64.
Definition SAGA_NAME_LEN : nat := 128.
Definition SAGA_MAX_STEPS : nat := 20.

Inductive SagaStepStatus := STEP_PENDING | STEP_EXECUTING | STEP_COMPLETED | STEP_COMPENSATING | STEP_COMPENSATED | STEP_FAILED.
#[export] Instance SagaStepStatus_eq_dec : EqDecision SagaStepStatus.
Proof. solve_decision. Defined.
Inductive SagaStatus := SAGA_RUNNING | SAGA_COMPLETED | SAGA_COMPENSATING | SAGA_COMPENSATED | SAGA_FAILED.
#[export] Instance SagaStatus_eq_dec : EqDecision SagaStatus.
Proof. solve_decision. Defined.

(** A function pointer: a step function of the source or one of the user. *)
Inductive saga_fn :=
| saga_step_reserve_inventory_exec | saga_step_reserve_inventory_comp
| saga_step_process_payment_exec | saga_step_process_payment_comp
| saga_step_confirm_order_exec | saga_step_confirm_order_comp
| saga_step_ship_order_exec | saga_step_ship_order_comp
| User (f : Z).

Record SagaStep := mk_step {
  step_name : list Z; execute : option saga_fn; compensate : option saga_fn; context : Z;
  step_status : SagaStepStatus; retry_count : Z; max_retries : Z;
}.
Record SagaInstance := mk_saga {
  saga_id : list Z; saga_name : list Z; steps : list SagaStep; current_step : Z;
  saga_status : SagaStatus; saga_data : list Z; is_orchestrated : bool;
}.

Definition saga_step_create (name : list Z) (execute compensate : option saga_fn) (context max_retries : Z) : SagaStep :=
  mk_step (truncated SAGA_NAME_LEN name) execute compensate context STEP_PENDING 0 max_retries.
Definition saga_step_set_status (step : SagaStep) (s : SagaStepStatus) : SagaStep := step <| step_status := s |>.
Definition saga_step_status_string (s : SagaStepStatus) : string :=
  match s with
  | STEP_PENDING => "PENDING" | STEP_EXECUTING => "EXECUTING" | STEP_COMPLETED => "COMPLETED"
  | STEP_COMPENSATING => "COMPENSATING" | STEP_COMPENSATED => "COMPENSATED" | STEP_FAILED => "FAILED"
  end.
Definition saga_step_can_retry (step : SagaStep) : bool := retry_count step <? max_retries step.

(** [now] and [rnd] are the results of [time(NULL)] and [rand()]. *)
Definition saga_orch_create (name : list Z) (orchestrated : bool) (now rnd : Z) : SagaInstance :=
  mk_saga (truncated SAGA_ID_LEN (str_bytes "SAGA-" ++ zero_pad 10 (digits 20 (u64 now)) ++ 45 :: print_hex 4 (Z.land rnd 0xFFFF)))
    (truncated SAGA_NAME_LEN name) [] 0 SAGA_RUNNING [] orchestrated.

Definition saga_orch_add_step (saga : SagaInstance) (step : SagaStep) : Z * SagaInstance :=
  if (SAGA_MAX_STEPS <=? length (steps saga))%nat then (-1, saga) else (0, saga <| steps ::= fun l => l ++ [step] |>).
Fixpoint saga_orch_add_steps (saga : SagaInstance) (l : list SagaStep) : Z * SagaInstance :=
  match l with
  | [] => (0, saga)
  | step :: l' =>
      let '(r, saga) := saga_orch_add_step saga step in
      if negb (r =? 0) then (-1, saga) else saga_orch_add_steps saga l'
  end.

Definition saga_status_string (s : SagaStatus) : string :=
  match s with
  | SAGA_RUNNING => "RUNNING" | SAGA_COMPLETED => "COMPLETED" | SAGA_COMPENSATING => "COMPENSATING"
  | SAGA_COMPENSATED => "COMPENSATED" | SAGA_FAILED => "FAILED"
  end.
Definition saga_is_terminal (saga : SagaInstance) : bool :=
  match saga_status saga with SAGA_COMPLETED | SAGA_COMPENSATED | SAGA_FAILED => true | _ => false end.

Section saga.
Context {W : Type} (user : Z -> Z -> list Z -> W -> Z * list Z * W).

(** The world, and the calls made so far with their results. *)
Record env := mk_env { world : W; calls : list (saga_fn * Z) }.

(** Calling a step function on its context and the saga's data. *)
Definition call (f : saga_fn) (ctx : Z) (saga : SagaInstance) (e : env) : Z * SagaInstance * env :=
  match f with
  | User g =>
      let '(r, d, w) := user g ctx (saga_data saga) (world e) in
      (r, saga <| saga_data := d |>, mk_env w (calls e ++ [(f, r)]))
  | _ => (0, saga, mk_env (world e) (calls e ++ [(f, 0)]))
  end.

Definition set_step (i : nat) (step : SagaStep) (saga : SagaInstance) : SagaInstance := saga <| steps ::= <[i := step]> |>.

(** The function calls itself to retry; the fuel is the number of attempts left. *)
Fixpoint execute_attempts (fuel : nat) (saga : SagaInstance) (i : nat) (e : env) : option (Z * SagaInstance * env) :=
  match fuel with
  | O => None
  | S fuel' =>
      step ← steps saga !! i;
      let step := step <| step_status := STEP_EXECUTING |> in
      f ← execute step;
      let '(result, saga, e) := call f (context step) (set_step i step saga) e in
      if result =? 0 then
        Some (result, set_step i (step <| step_status := STEP_COMPLETED |>) saga <| current_step := Z.of_nat i + 1 |>, e)
      else if saga_step_can_retry step then
        execute_attempts fuel' (set_step i (step <| retry_count ::= Z.succ |>) saga) i e
      else Some (result, set_step i (step <| step_status := STEP_FAILED |>) saga <| saga_status := SAGA_FAILED |>, e)
  end.
Definition attempts_left (step : SagaStep) : nat := S (Z.to_nat (max_retries step - retry_count step)).
Definition saga_orch_execute_step (saga : SagaInstance) (step_index : Z) (e : env) : option (Z * SagaInstance * env) :=
  if (step_index <? 0) || (Z.of_nat (length (steps saga)) <=? step_index) then Some (-1, saga, e)
  else
    step ← steps saga !! Z.to_nat step_index;
    execute_attempts (attempts_left step) saga (Z.to_nat step_index) e.

(** The loop [for (i = start; i >= 0; i--)], which may visit an index twice. *)
Fixpoint compensate_loop (fuel : nat) (i : Z) (saga : SagaInstance) (e : env) : option (SagaInstance * env) :=
  if i <? 0 then Some (saga, e)
  else
    match fuel with
    | O => None
    | S fuel' =>
        step ← steps saga !! Z.to_nat i;
        match compensate step with
        | Some f =>
            if bool_decide (step_status step = STEP_COMPLETED) then
              let step := step <| step_status := STEP_COMPENSATING |> in
              let '(result, saga, e) := call f (context step) (set_step (Z.to_nat i) step saga) e in
              if result =? 0 then
                compensate_loop fuel' (i - 1) (set_step (Z.to_nat i) (step <| step_status := STEP_COMPENSATED |>) saga) e
              else
                let step := step <| retry_count ::= Z.succ |> in
                let i' := if saga_step_can_retry step then i + 1 else i in
                compensate_loop fuel' (i' - 1) (set_step (Z.to_nat i) step saga) e
            else compensate_loop fuel' (i - 1) saga e
        | None => compensate_loop fuel' (i - 1) saga e
        end
    end.
Definition saga_orch_compensate (saga : SagaInstance) (failed_step_index : Z) (e : env) : option (Z * SagaInstance * env) :=
  let saga := saga <| saga_status := SAGA_COMPENSATING |> in
  let count := Z.of_nat (length (steps saga)) in
  let start := if count <=? failed_step_index then count - 1 else failed_step_index in
  '(saga, e) ← compensate_loop (2 * Z.to_nat (start + 1)) start saga e;
  Some (0, saga <| saga_status := SAGA_COMPENSATED |>, e).

Fixpoint execute_loop (n : nat) (i : Z) (saga : SagaInstance) (e : env) : option (Z * SagaInstance * env) :=
  match n with
  | O => Some (0, saga <| saga_status := SAGA_COMPLETED |>, e)
  | S n' =>
      '(result, saga, e) ← saga_orch_execute_step saga i e;
      if negb (result =? 0) then
        '(_, saga, e) ← saga_orch_compensate saga i e;
        Some (result, saga, e)
      else execute_loop n' (i + 1) saga e
  end.
Definition saga_orch_execute (saga : SagaInstance) (e : env) : option (Z * SagaInstance * env) :=
  execute_loop (Z.to_nat (Z.of_nat (length (steps saga)) - current_step saga)) (current_step saga) saga e.
Definition saga_orch_resume (saga : SagaInstance) (e : env) : option (Z * SagaInstance * env) :=
  if bool_decide (saga_status saga = SAGA_RUNNING) then saga_orch_execute saga e else Some (-1, saga, e).

(** ** Orchestrator: the list of active sagas *)

Definition saga_orchestrator_create : list SagaInstance := [].
Definition saga_orchestrator_enqueue (orch : list SagaInstance) (saga : SagaInstance) : list SagaInstance := orch ++ [saga].
Fixpoint saga_orchestrator_tick (orch : list SagaInstance) (e : env) : option (list SagaInstance * env) :=
  match orch with
  | [] => Some ([], e)
  | saga :: orch' =>
      '(saga, e) ← (if negb (saga_is_terminal saga) then '(_, saga, e) ← saga_orch_execute saga e; Some (saga, e)
                    else Some (saga, e));
      '(orch', e) ← saga_orchestrator_tick orch' e;
      Some (saga :: orch', e)
  end.
Definition saga_orchestrator_find (orch : list SagaInstance) (id : list Z) : option nat :=
  find_idx (fun s => bool_decide (saga_id s = id)) orch.
Definition saga_orchestrator_cancel (orch : list SagaInstance) (id : list Z) (e : env) : option (Z * list SagaInstance * env) :=
  match saga_orchestrator_find orch id with
  | None => Some (-1, orch, e)
  | Some i =>
      saga ← orch !! i;
      if saga_is_terminal saga then Some (-2, orch, e)
      else
        '(_, saga, e) ← saga_orch_compensate saga (current_step saga) e;
        Some (0, <[i := saga]> orch, e)
  end.
End saga.
Arguments env _ : clear implicits.
Arguments mk_env {W} _ _.

(** The order saga; [data] is the object representation of its [OrderSagaData]. *)
Definition saga_create_order_saga (data : list Z) (orchestrated : bool) (now rnd : Z) : SagaInstance :=
  let saga := (saga_orch_create (str_bytes "CreateOrderSaga") orchestrated now rnd) <| saga_data := data |> in
  let step n f g := saga_step_create (str_bytes n) (Some f) (Some g) 0 3 in
  (saga_orch_add_steps saga
    [step "ReserveInventory"%string saga_step_reserve_inventory_exec saga_step_reserve_inventory_comp;
     step "ProcessPayment"%string saga_step_process_payment_exec saga_step_process_payment_comp;
     step "ConfirmOrder"%string saga_step_confirm_order_exec saga_step_confirm_order_comp;
     step "ShipOrder"%string saga_step_ship_order_exec saga_step_ship_order_comp]).2.

(** * Properties *)



(** ** Traces *)

(** The results of the attempts of one step with [n] retries left, and the last. *)
Inductive attempts : nat -> list Z -> Z -> Prop :=
| at_ok n : attempts n [0] 0
| at_retry n r rs z : r <> 0 -> attempts n rs z -> attempts (S n) (r :: rs) z
| at_fail r : r <> 0 -> attempts 0 [r] r.

Definition retries (st : SagaStep) : nat := Z.to_nat (max_retries st - retry_count st).
(** The step after attempts with these results. *)
Definition finished (s : SagaStepStatus) (rs : list Z) (st : SagaStep) : SagaStep :=
  st <| step_status := s |> <| retry_count := retry_count st + Z.of_nat (length rs - 1) |>.

(** Steps run to completion in order, the steps they become, and the calls. *)
Inductive forward : list SagaStep -> list SagaStep -> list (saga_fn * Z) -> Prop :=
| fw_nil : forward [] [] []
| fw_step st f rs l l' t : execute st = Some f -> attempts (retries st) rs 0 -> forward l l' t ->
    forward (st :: l) (finished STEP_COMPLETED rs st :: l') ((pair f <$> rs) ++ t).

(** Completed steps undone in the order of the list; a compensation that fails is
    not repeated, and leaves its step COMPENSATING. *)
Definition undone (r : Z) (st : SagaStep) : SagaStep :=
  if r =? 0 then st <| step_status := STEP_COMPENSATED |>
  else st <| step_status := STEP_COMPENSATING |> <| retry_count := retry_count st + 1 |>.
Inductive unwound : list SagaStep -> list SagaStep -> list (saga_fn * Z) -> Prop :=
| uw_nil : unwound [] [] []
| uw_skip st l l' t : step_status st <> STEP_COMPLETED \/ compensate st = None -> unwound l l' t -> unwound (st :: l) (st :: l') t
| uw_call st f r l l' t : step_status st = STEP_COMPLETED -> compensate st = Some f -> unwound l l' t ->
    unwound (st :: l) (undone r st :: l') ((f, r) :: t).

Lemma finished_one s r st : st <| step_status := STEP_EXECUTING |> <| step_status := s |> = finished s [r] st.
Proof. destruct st. unfold finished, set, const. cbn. f_equal. lia. Qed.
Lemma finished_more s r rs st : (1 <= length rs)%nat ->
  finished s rs (st <| step_status := STEP_EXECUTING |> <| retry_count := Z.succ (retry_count st) |>) = finished s (r :: rs) st.
Proof. intros Hrs. destruct st. unfold finished, set, const. cbn [length]. cbn. f_equal. lia. Qed.

Definition runnable (st : SagaStep) : Prop := is_Some (execute st).

Section saga.
Context {W : Type} (user : Z -> Z -> list Z -> W -> Z * list Z * W).

Lemma call_spec f ctx saga (e : env W) : exists r d w,
  call user f ctx saga e = (r, saga <| saga_data := d |>, mk_env w (calls e ++ [(f, r)])).
Proof.
  destruct f as [| | | | | | | |g]; cbn [call]; try (by exists 0, (saga_data saga), (world e); destruct saga).
  destruct (user g ctx (saga_data saga) (world e)) as [[r d] w]. by exists r, d, w.
Qed.

(** ** One step *)

Lemma execute_attempts_S n saga i (e : env W) : execute_attempts user (S n) saga i e =
  step ← steps saga !! i;
  let step := step <| step_status := STEP_EXECUTING |> in
  f ← execute step;
  let '(result, saga, e) := call user f (context step) (set_step i step saga) e in
  if result =? 0 then
    Some (result, set_step i (step <| step_status := STEP_COMPLETED |>) saga <| current_step := Z.of_nat i + 1 |>, e)
  else if saga_step_can_retry step then
    execute_attempts user n (set_step i (step <| retry_count ::= Z.succ |>) saga) i e
  else Some (result, set_step i (step <| step_status := STEP_FAILED |>) saga <| saga_status := SAGA_FAILED |>, e).
Proof. reflexivity. Qed.

Lemma execute_attempts_spec i f : forall n saga st (e : env W), steps saga !! i = Some st -> execute st = Some f -> retries st = n ->
  exists rs z saga' e', execute_attempts user (S n) saga i e = Some (z, saga', e') /\ attempts n rs z /\
    calls e' = calls e ++ (pair f <$> rs) /\
    steps saga' = <[i := finished (if z =? 0 then STEP_COMPLETED else STEP_FAILED) rs st]> (steps saga) /\
    saga_status saga' = (if z =? 0 then saga_status saga else SAGA_FAILED) /\
    current_step saga' = (if z =? 0 then Z.of_nat i + 1 else current_step saga).
Proof.
  induction n as [|n IH]; intros saga st e Hst Hf Hn; rewrite execute_attempts_S, Hst; cbn [mbind option_bind];
    change (execute (st <| step_status := STEP_EXECUTING |>)) with (execute st); rewrite Hf; cbn [mbind option_bind];
    match goal with |- context [call user f ?c ?s e] => destruct (call_spec f c s e) as (r & d & w & Hcall) end; rewrite Hcall.
  - destruct (Z.eqb_spec r 0) as [->|Hr].
    + eexists [0], 0, _, _. split; [reflexivity|]. split; [constructor|]. split; [done|]. split; [|done].
      cbn. rewrite list_insert_insert_eq. by erewrite finished_one.
    + unfold saga_step_can_retry. cbn [retry_count max_retries set]. rewrite (proj2 (Z.ltb_ge _ _)) by (unfold retries in Hn; cbn; lia).
      eexists [r], r, _, _. split; [reflexivity|]. split; [by constructor|]. rewrite (proj2 (Z.eqb_neq _ _)) by done. split; [done|]. split; [|done].
      cbn. rewrite list_insert_insert_eq. by erewrite finished_one.
  - destruct (Z.eqb_spec r 0) as [->|Hr].
    + eexists [0], 0, _, _. split; [reflexivity|]. split; [constructor|]. split; [done|]. split; [|done].
      cbn. rewrite list_insert_insert_eq. by erewrite finished_one.
    + unfold saga_step_can_retry. rewrite (proj2 (Z.ltb_lt _ _)) by (unfold retries in Hn; cbn; lia).
      match goal with |- context [execute_attempts user (S n) ?s i ?e1] => set (saga1 := s); set (e1' := e1) end.
      destruct (IH saga1 (st <| step_status := STEP_EXECUTING |> <| retry_count := Z.succ (retry_count st) |>) e1') as (rs & z & saga' & e' & H1 & H2 & H3 & H4 & H5 & H6).
      * cbn. rewrite list_insert_insert_eq. apply list_lookup_insert_eq. by apply lookup_lt_Some in Hst.
      * done.
      * unfold retries in *. cbn. lia.
      * exists (r :: rs), z, saga', e'. split; [exact H1|]. split; [by constructor|]. split; [|split; [|split]].
        -- rewrite H3. cbn. by rewrite <- app_assoc.
        -- rewrite H4. cbn [steps saga1 set_step set]. cbn. rewrite !list_insert_insert_eq.
           assert (Hrs : (1 <= length rs)%nat) by (inversion H2; cbn; lia). by rewrite (finished_more _ r).
        -- exact H5.
        -- exact H6.
Qed.

(** ** Compensation *)

Lemma compensate_loop_S n i saga (e : env W) : 0 <= i -> compensate_loop user (S n) i saga e =
  step ← steps saga !! Z.to_nat i;
  match compensate step with
  | Some f =>
      if bool_decide (step_status step = STEP_COMPLETED) then
        let step := step <| step_status := STEP_COMPENSATING |> in
        let '(result, saga, e) := call user f (context step) (set_step (Z.to_nat i) step saga) e in
        if result =? 0 then
          compensate_loop user n (i - 1) (set_step (Z.to_nat i) (step <| step_status := STEP_COMPENSATED |>) saga) e
        else
          let step := step <| retry_count ::= Z.succ |> in
          let i' := if saga_step_can_retry step then i + 1 else i in
          compensate_loop user n (i' - 1) (set_step (Z.to_nat i) step saga) e
      else compensate_loop user n (i - 1) saga e
  | None => compensate_loop user n (i - 1) saga e
  end.
Proof. intros Hi. cbn [compensate_loop]. by rewrite (proj2 (Z.ltb_ge _ _)) by lia. Qed.

Lemma compensate_skip n i saga st (e : env W) : 0 <= i -> steps saga !! Z.to_nat i = Some st ->
  step_status st <> STEP_COMPLETED \/ compensate st = None -> compensate_loop user (S n) i saga e = compensate_loop user n (i - 1) saga e.
Proof.
  intros Hi Hst Hs. rewrite compensate_loop_S, Hst by done. cbn [mbind option_bind]. destruct (compensate st); [|done].
  rewrite bool_decide_eq_false_2; [done|]. by destruct Hs.
Qed.

Lemma lookup_snoc (pre : list SagaStep) st post : (pre ++ [st] ++ post) !! length pre = Some st.
Proof. by rewrite lookup_app_r, Nat.sub_diag by lia. Qed.
Lemma insert_snoc (pre : list SagaStep) st st' post : <[length pre := st']> (pre ++ [st] ++ post) = pre ++ [st'] ++ post.
Proof. rewrite <- (Nat.add_0_r (length pre)), insert_app_r. done. Qed.

Lemma compensate_loop_spec pre : forall n post saga (e : env W), steps saga = pre ++ post -> (2 * length pre <= n)%nat ->
  exists pre' b saga' e', compensate_loop user n (Z.of_nat (length pre) - 1) saga e = Some (saga', e') /\
    steps saga' = pre' ++ post /\ unwound (rev pre) (rev pre') b /\ calls e' = calls e ++ b.
Proof.
  induction pre as [|st pre IH] using rev_ind; intros n post saga e Hsteps Hn.
  { exists [], [], saga, e. split; [by destruct n|]. split; [done|]. split; [constructor|]. by rewrite app_nil_r. }
  rewrite length_app in *. cbn [length] in *. rewrite <- app_assoc in Hsteps.
  replace (Z.of_nat (length pre + 1) - 1) with (Z.of_nat (length pre)) by lia.
  assert (Hlook : steps saga !! Z.to_nat (Z.of_nat (length pre)) = Some st) by by rewrite Nat2Z.id, Hsteps, lookup_snoc.
  rewrite rev_app_distr. cbn [rev app].
  assert (Hskip : forall n saga st' e, steps saga = pre ++ [st'] ++ post -> (2 * length pre <= n)%nat ->
    step_status st' <> STEP_COMPLETED \/ compensate st' = None ->
    exists pre' b saga' e', compensate_loop user (S n) (Z.of_nat (length pre)) saga e = Some (saga', e') /\
      steps saga' = (pre' ++ [st']) ++ post /\ unwound (rev pre) (rev pre') b /\ calls e' = calls e ++ b).
  { intros m s st' e0 Hs Hm Hst'. rewrite (compensate_skip m _ s st'); [|lia|by rewrite Nat2Z.id, Hs, lookup_snoc|done].
    destruct (IH m ([st'] ++ post) s e0 Hs Hm) as (pre' & b & s' & e' & H1 & H2 & H3 & H4).
    exists pre', b, s', e'. split; [done|]. by rewrite <- app_assoc. }
  destruct n as [|n]; [lia|].
  assert (Hdec : (step_status st <> STEP_COMPLETED \/ compensate st = None) \/ exists f, step_status st = STEP_COMPLETED /\ compensate st = Some f).
  { destruct (decide (step_status st = STEP_COMPLETED)); [|by left; left]. destruct (compensate st) as [f|]; [right; by exists f|by left; right]. }
  destruct Hdec as [Hst|(f & Hst & Hf)].
  - destruct (Hskip n saga st e Hsteps ltac:(lia) Hst) as (pre' & b & s' & e' & H1 & H2 & H3 & H4).
    exists (pre' ++ [st]), b, s', e'. split; [done|]. split; [done|]. rewrite rev_app_distr. split; [by constructor|done].
  - rewrite compensate_loop_S, Hlook by lia. cbn [mbind option_bind]. rewrite Hf, bool_decide_eq_true_2 by done.
    match goal with |- context [call user f ?c ?s e] => destruct (call_spec f c s e) as (r & d & w & Hcall) end. rewrite Hcall. clear Hcall.
    rewrite Nat2Z.id. cbv zeta.
    assert (Hund : forall saga1 m, steps saga1 = pre ++ [undone r st] ++ post -> (2 * length pre <= m)%nat ->
      exists pre' b s' e', compensate_loop user m (Z.of_nat (length pre) - 1) saga1 (mk_env w (calls e ++ [(f, r)])) = Some (s', e') /\
        steps s' = pre' ++ post /\ unwound (st :: rev pre) (rev pre') b /\ calls e' = calls e ++ b).
    { intros saga1 m Hs1 Hm. destruct (IH m ([undone r st] ++ post) saga1 (mk_env w (calls e ++ [(f, r)])) Hs1 Hm) as (pre' & b & s' & e' & H1 & H2 & H3 & H4).
      exists (pre' ++ [undone r st]), ((f, r) :: b), s', e'. split; [done|]. split; [by rewrite <- app_assoc|]. rewrite rev_app_distr.
      split; [by constructor|]. rewrite H4. cbn. by rewrite <- app_assoc. }
    destruct (Z.eqb_spec r 0) as [->|Hr].
    + apply Hund; [|lia]. cbn. rewrite Hsteps, !insert_snoc. by destruct st.
    + assert (Hsteps1 : forall d, steps (set_step (length pre) (st <| step_status := STEP_COMPENSATING |> <| retry_count ::= Z.succ |>)
        ((set_step (length pre) (st <| step_status := STEP_COMPENSATING |>) saga) <| saga_data := d |>)) = pre ++ [undone r st] ++ post).
      { intros d'. cbn. rewrite Hsteps, !insert_snoc. unfold undone. by rewrite (proj2 (Z.eqb_neq r 0)) by done. }
      destruct (saga_step_can_retry _).
      * replace (Z.of_nat (length pre) + 1 - 1) with (Z.of_nat (length pre)) by lia. destruct n as [|n]; [lia|].
        rewrite (compensate_skip n _ _ (undone r st)); [apply Hund; [apply Hsteps1|lia]|lia|by rewrite Nat2Z.id, Hsteps1, lookup_snoc|].
        left. unfold undone. by rewrite (proj2 (Z.eqb_neq r 0)) by done.
      * apply Hund; [apply Hsteps1|lia].
Qed.

(** ** Execution *)

(** Step [k] has used up its attempts, after the steps [done] behind [pre]. *)
Definition fails_at (pre post : list SagaStep) (e : env W) (z : Z) (k : nat) (saga1 : SagaInstance) (e1 : env W) : Prop :=
  exists done st rest done1 f rs t, post = done ++ st :: rest /\ k = (length pre + length done1)%nat /\ forward done done1 t /\
    execute st = Some f /\ attempts (retries st) rs z /\ z <> 0 /\
    steps saga1 = pre ++ done1 ++ finished STEP_FAILED rs st :: rest /\ calls e1 = calls e ++ t ++ (pair f <$> rs).

Lemma execute_loop_spec post : forall pre saga (e : env W), steps saga = pre ++ post -> Forall runnable post ->
  (exists t post' saga' e', execute_loop user (length post) (Z.of_nat (length pre)) saga e = Some (0, saga', e') /\
     forward post post' t /\ steps saga' = pre ++ post' /\ saga_status saga' = SAGA_COMPLETED /\ calls e' = calls e ++ t) \/
  (exists z k saga1 e1, fails_at pre post e z k saga1 e1 /\
     execute_loop user (length post) (Z.of_nat (length pre)) saga e =
       ('(_, s, e) ← saga_orch_compensate user saga1 (Z.of_nat k) e1; Some (z, s, e))).
Proof.
  induction post as [|st post IH]; intros pre saga e Hsteps Hrun.
  { left. exists [], [], (saga <| saga_status := SAGA_COMPLETED |>), e. split; [done|]. split; [constructor|]. by rewrite !app_nil_r in *. }
  apply Forall_cons in Hrun as [[f Hf] Hrun]. cbn [length execute_loop].
  assert (Hlook : steps saga !! length pre = Some st) by (rewrite Hsteps; exact (lookup_snoc pre st post)).
  unfold saga_orch_execute_step. rewrite Hsteps, length_app. cbn [length].
  rewrite (proj2 (Z.ltb_ge _ _)), (proj2 (Z.leb_gt _ _)) by lia. cbn [orb]. rewrite Nat2Z.id, <- Hsteps, Hlook. cbn [mbind option_bind].
  destruct (execute_attempts_spec (length pre) f (retries st) saga st e Hlook Hf eq_refl)
    as (rs & z & saga1 & e1 & Hex & Hat & Hcalls & Hsteps1 & Hstatus & _).
  change (attempts_left st) with (S (retries st)). rewrite Hex. cbn [mbind option_bind].
  rewrite Hsteps, (insert_snoc pre st _ post : <[length pre := _]> (pre ++ st :: post) = _) in Hsteps1.
  destruct (Z.eqb_spec z 0) as [->|Hz]; cbn [negb].
  - replace (Z.of_nat (length pre) + 1) with (Z.of_nat (length (pre ++ [finished STEP_COMPLETED rs st]))) by (rewrite length_app; cbn; lia).
    destruct (IH (pre ++ [finished STEP_COMPLETED rs st]) saga1 e1) as [(t & post' & s' & e' & H1 & H2 & H3 & H4 & H5)|(z & k & s2 & e2 & Hfail & H)].
    + by rewrite <- app_assoc.
    + done.
    + left. exists ((pair f <$> rs) ++ t), (finished STEP_COMPLETED rs st :: post'), s', e'. split; [exact H1|].
      split; [by constructor|]. split; [by rewrite H3, <- app_assoc|]. split; [done|]. by rewrite H5, Hcalls, <- app_assoc.
    + right. exists z, k, s2, e2. split; [|exact H].
      destruct Hfail as (dn & st2 & rest & dn1 & f2 & rs2 & t & -> & -> & Hfw & Hf2 & Hat2 & Hz & Hs2 & Hc2).
      exists (st :: dn), st2, rest, (finished STEP_COMPLETED rs st :: dn1), f2, rs2, ((pair f <$> rs) ++ t).
      split; [done|]. split; [rewrite length_app; cbn; lia|]. split; [by constructor|]. split; [done|]. split; [done|]. split; [done|].
      split; [by rewrite Hs2, <- app_assoc|]. by rewrite Hc2, Hcalls, <- !app_assoc.
  - right. exists z, (length pre), saga1, e1. split; [|done].
    exists [], st, post, [], f, rs, []. split; [done|]. split; [cbn; lia|]. split; [constructor|]. by repeat split.
Qed.

Lemma unwound_calls l l' b : unwound l l' b -> Forall (fun st => step_status st = STEP_COMPLETED) l -> b.*1 = omap compensate l.
Proof.
  induction 1 as [|st l l' t Hst Hu IH|st f r l l' t Hst Hf Hu IH]; intros Hl; [done| |]; apply Forall_cons in Hl as [Hs Hl]; cbn.
  - destruct Hst as [Hst|Hst]; [done|]. rewrite Hst. by apply IH.
  - rewrite Hf. cbn. f_equal. by apply IH.
Qed.
Lemma forward_completed l l' t : forward l l' t -> Forall (fun st => step_status st = STEP_COMPLETED) l' /\ omap compensate l' = omap compensate l.
Proof.
  induction 1 as [|st f rs l l' t Hf Hat Hfw [IH1 IH2]]; [done|]. split; [by constructor|]. cbn. rewrite IH2. by destruct (compensate st).
Qed.
Lemma omap_compensate_rev l : omap compensate (rev l) = rev (omap compensate l).
Proof.
  induction l as [|st l IH]; [done|]. cbn [rev]. rewrite omap_app, IH. cbn [omap list_omap]. destruct (compensate st); [done|].
  cbn. by rewrite app_nil_r.
Qed.

(** The end of a run whose step fails. *)
Lemma fails_end post e z k saga1 (e1 : env W) : fails_at [] post e z k saga1 e1 -> exists dn st rest dn1 dn' f rs t b saga' e',
  ('(_, s, e) ← saga_orch_compensate user saga1 (Z.of_nat k) e1; Some (z, s, e)) = Some (z, saga', e') /\
  post = dn ++ st :: rest /\ forward dn dn1 t /\ execute st = Some f /\ attempts (retries st) rs z /\ z <> 0 /\ unwound (rev dn1) (rev dn') b /\
  b.*1 = rev (omap compensate dn) /\ steps saga' = dn' ++ finished STEP_FAILED rs st :: rest /\
  calls e' = calls e ++ t ++ (pair f <$> rs) ++ b /\ saga_status saga' = SAGA_COMPENSATED.
Proof.
  intros (dn & st & rest & dn1 & f & rs & t & -> & -> & Hfw & Hf & Hat & Hz & Hs & Hc). cbn [app length Nat.add] in *.
  unfold saga_orch_compensate. cbv zeta. set (saga2 := saga1 <| saga_status := SAGA_COMPENSATING |>).
  assert (Hs2 : steps saga2 = dn1 ++ [finished STEP_FAILED rs st] ++ rest) by exact Hs.
  assert (Hlen : (Z.of_nat (length (steps saga2)) <=? Z.of_nat (length dn1)) = false).
  { rewrite Hs2, !length_app. cbn. apply Z.leb_gt. lia. }
  rewrite Hlen. replace (2 * Z.to_nat (Z.of_nat (length dn1) + 1))%nat with (S (S (2 * length dn1))) by lia.
  rewrite (compensate_skip _ _ _ (finished STEP_FAILED rs st)); [|lia|by rewrite Nat2Z.id, Hs2, lookup_snoc|by left].
  destruct (compensate_loop_spec dn1 (S (2 * length dn1)) ([finished STEP_FAILED rs st] ++ rest) saga2 e1 Hs2 ltac:(lia))
    as (dn' & b & saga' & e' & Hl & Hs' & Hu & Hc').
  rewrite Hl. cbn [mbind option_bind]. exists dn, st, rest, dn1, dn', f, rs, t, b, (saga' <| saga_status := SAGA_COMPENSATED |>), e'.
  split; [done|]. split; [done|]. split; [done|]. split; [done|]. split; [done|]. split; [done|]. split; [done|].
  destruct (forward_completed _ _ _ Hfw) as [Hcomp Hsame].
  split; [by rewrite (unwound_calls _ _ _ Hu), omap_compensate_rev, Hsame by by apply Forall_rev|].
  split; [exact Hs'|]. split; [|done]. by rewrite Hc', Hc, <- !app_assoc.
Qed.

(** C8: A saga that starts at its first step ends in one of two ways, whatever its
    step functions do.  Either every step succeeds, in order, each within its retry
    budget, and the saga is COMPLETED; or a step uses up its attempts: then the
    completed steps before it are compensated in reverse order, each compensation
    called exactly once, the steps after it are not touched, the saga is
    COMPENSATED and the error of the failing step is returned. *)
Theorem saga_orch_execute_correct saga (e : env W) : current_step saga = 0 -> Forall runnable (steps saga) ->
  exists z saga' e', saga_orch_execute user saga e = Some (z, saga', e') /\
    ((z = 0 /\ saga_status saga' = SAGA_COMPLETED /\ exists t, forward (steps saga) (steps saga') t /\ calls e' = calls e ++ t) \/
     (z <> 0 /\ saga_status saga' = SAGA_COMPENSATED /\ exists done st rest done1 done' f rs t b,
        steps saga = done ++ st :: rest /\ steps saga' = done' ++ finished STEP_FAILED rs st :: rest /\
        forward done done1 t /\ execute st = Some f /\ attempts (retries st) rs z /\ unwound (rev done1) (rev done') b /\
        b.*1 = rev (omap compensate done) /\ calls e' = calls e ++ t ++ (pair f <$> rs) ++ b)).
Proof.
  intros Hcur Hrun. unfold saga_orch_execute. rewrite Hcur, Z.sub_0_r, Nat2Z.id.
  destruct (execute_loop_spec (steps saga) [] saga e eq_refl Hrun) as [(t & post' & s' & e' & H1 & H2 & H3 & H4 & H5)|(z & k & s1 & e1 & Hfail & H)].
  - exists 0, s', e'. split; [exact H1|]. left. split; [done|]. split; [done|]. exists t. by rewrite H3.
  - destruct (fails_end _ _ _ _ _ _ Hfail) as (dn & st & rest & dn1 & dn' & f & rs & t & b & s' & e' & Hc & H1 & H2 & H3 & H4 & H5 & H6 & H7 & H8 & H9 & H10).
    exists z, s', e'. split; [exact (eq_trans H Hc)|]. right. split; [done|]. split; [done|]. by exists dn, st, rest, dn1, dn', f, rs, t, b.
Qed.

(** ** Every saga comes to an end *)

Definition saga_ok (saga : SagaInstance) : Prop :=
  0 <= current_step saga <= Z.of_nat (length (steps saga)) /\ Forall runnable (steps saga).

Lemma compensate_total saga k (e : env W) : exists saga' e', saga_orch_compensate user saga (Z.of_nat k) e = Some (0, saga', e') /\
  saga_status saga' = SAGA_COMPENSATED.
Proof.
  unfold saga_orch_compensate. cbv zeta. set (saga2 := saga <| saga_status := SAGA_COMPENSATING |>).
  set (start := if Z.of_nat (length (steps saga2)) <=? Z.of_nat k then Z.of_nat (length (steps saga2)) - 1 else Z.of_nat k).
  assert (Hlen : Z.of_nat (length (take (Z.to_nat (start + 1)) (steps saga2))) - 1 = start).
  { rewrite length_take. unfold start. destruct (Z.leb_spec (Z.of_nat (length (steps saga2))) (Z.of_nat k)); lia. }
  destruct (compensate_loop_spec (take (Z.to_nat (start + 1)) (steps saga2)) (2 * Z.to_nat (start + 1)) (drop (Z.to_nat (start + 1)) (steps saga2)) saga2 e)
    as (pre' & b & s' & e' & Hl & _); [by rewrite take_drop|rewrite length_take; lia|].
  rewrite Hlen in Hl. rewrite Hl. cbn [mbind option_bind]. by eexists _, _.
Qed.

Lemma execute_ends saga (e : env W) : saga_ok saga -> exists z saga' e', saga_orch_execute user saga e = Some (z, saga', e') /\ saga_is_terminal saga' = true.
Proof.
  intros [Hcur Hrun]. unfold saga_orch_execute. set (n := Z.to_nat (current_step saga)).
  pose proof (take_drop n (steps saga)) as Htd. assert (Hn : length (take n (steps saga)) = n) by (rewrite length_take; lia).
  replace (Z.to_nat (Z.of_nat (length (steps saga)) - current_step saga)) with (length (drop n (steps saga))) by (rewrite length_drop; lia).
  replace (current_step saga) with (Z.of_nat (length (take n (steps saga)))) by lia.
  destruct (execute_loop_spec (drop n (steps saga)) (take n (steps saga)) saga e) as [(t & post' & s' & e' & H1 & _ & _ & H4 & _)|(z & k & s1 & e1 & _ & H)].
  - done.
  - by apply Forall_drop.
  - exists 0, s', e'. split; [done|]. unfold saga_is_terminal. by rewrite H4.
  - destruct (compensate_total s1 k e1) as (s' & e' & Hc & Hst). rewrite Hc in H. exists z, s', e'. split; [done|]. unfold saga_is_terminal. by rewrite Hst.
Qed.

(** A tick of the orchestrator ends, and then every saga is completed or
    compensated; sagas that were already in a final state are as before. *)
Theorem saga_orchestrator_tick_correct orch (e : env W) : Forall saga_ok orch ->
  exists orch' e', saga_orchestrator_tick user orch e = Some (orch', e') /\
    Forall2 (fun s s' => saga_is_terminal s' = true /\ (saga_is_terminal s = true -> s' = s)) orch orch'.
Proof.
  intros Hok. revert e. induction Hok as [|saga orch Hs Hok IH]; intros e; [by exists [], e|]. cbn [saga_orchestrator_tick].
  destruct (saga_is_terminal saga) eqn:Ht; cbn [negb mbind option_bind].
  - destruct (IH e) as (orch' & e' & H1 & H2). rewrite H1. cbn. exists (saga :: orch'), e'. split; [done|]. by constructor.
  - destruct (execute_ends saga e Hs) as (z & s' & e1 & Hx & Hterm). rewrite Hx. cbn [mbind option_bind].
    destruct (IH e1) as (orch' & e' & H1 & H2). rewrite H1. cbn. exists (s' :: orch'), e'. split; [done|]. constructor; [|done]. split; [done|congruence].
Qed.
End saga.

(** ** Examples *)

(** The order saga of the source runs its four steps and completes. *)
Example saga_create_order_saga_completes :
  let run := saga_orch_execute (fun _ _ d w => (0, d, w)) (saga_create_order_saga [] true 0 0) (mk_env tt []) in
  (fun '(z, s, e) => (z, saga_status s, calls e)) <$> run =
  Some (0, SAGA_COMPLETED, [(saga_step_reserve_inventory_exec, 0); (saga_step_process_payment_exec, 0);
    (saga_step_confirm_order_exec, 0); (saga_step_ship_order_exec, 0)]).
Proof. reflexivity. Qed.

(** Function 9 always fails; the others succeed. *)
Definition example_user (f ctx : Z) (d : list Z) (w : unit) : Z * list Z * unit := (if f =? 9 then -7 else 0, d, w).
Definition example_saga : SagaInstance :=
  (saga_orch_add_steps (saga_orch_create (str_bytes "demo") true 0 0)
    [saga_step_create (str_bytes "a") (Some (User 1)) (Some (User 9)) 0 2;
     saga_step_create (str_bytes "b") (Some (User 2)) (Some (User 12)) 0 2;
     saga_step_create (str_bytes "c") (Some (User 9)) (Some (User 13)) 0 1;
     saga_step_create (str_bytes "d") (Some (User 4)) None 0 2]).2.

Lemma example_runnable : Forall runnable (steps example_saga).
Proof. repeat constructor; eexists; reflexivity. Qed.

Lemma saga_orch_execute_correct_witness : exists saga' e',
  saga_orch_execute example_user example_saga (mk_env tt []) = Some (-7, saga', e') /\ saga_status saga' = SAGA_COMPENSATED /\
  (step_status <$> steps saga') = [STEP_COMPENSATING; STEP_COMPENSATED; STEP_FAILED; STEP_PENDING] /\
  calls e' = [(User 1, 0); (User 2, 0); (User 9, -7); (User 9, -7); (User 12, 0); (User 9, -7)].
Proof.
  destruct (saga_orch_execute_correct example_user example_saga (mk_env tt []) eq_refl example_runnable) as (z & s & e & H & Hcase).
  vm_compute in H. injection H as <- <- <-. destruct Hcase as [[[=] _]|(_ & Hst & _)].
  eexists _, _. split; [vm_compute; reflexivity|]. split; [exact Hst|]. split; reflexivity.
Defined.

Lemma saga_orchestrator_tick_correct_witness : exists orch' e',
  saga_orchestrator_tick example_user [example_saga; saga_create_order_saga [] true 0 0] (mk_env tt []) = Some (orch', e') /\
  (saga_status <$> orch') = [SAGA_COMPENSATED; SAGA_COMPLETED].
Proof.
  assert (Hok : Forall saga_ok [example_saga; saga_create_order_saga [] true 0 0]).
  { repeat constructor; cbn; try lia; eexists; reflexivity. }
  destruct (saga_orchestrator_tick_correct example_user _ (mk_env tt []) Hok) as (orch' & e' & H & _).
  exists orch', e'. split; [exact H|]. vm_compute in H. injection H as <- <-. reflexivity.
Defined.

(** A compensation that fails is called once although retries are left, its step
    stays COMPENSATING, and the saga is reported as COMPENSATED. *)
Example saga_failed_compensation_not_retried :
  let run := saga_orch_execute example_user example_saga (mk_env tt []) in
  (fun '(z, s, e) => (saga_status s, (fun st => (step_status st, saga_step_can_retry st)) <$> steps s !! 0%nat, length (List.filter (fun c => c.2 =? -7) (calls e)))) <$> run =
  Some (SAGA_COMPENSATED, Some (STEP_COMPENSATING, true), 3%nat).
Proof. reflexivity. Qed.
