(* ===== verification/Choreography.v ===== *)
(** Model of the choreography bus of [mini-business-arch/src/saga_orch.c]: services
    that react to events.

    A handler is a user function; it may publish on the bus it is called from, and
    gives the events it publishes, in order.  The log of the bus is an array that
    moves when it grows; [ev] in the dispatch loop points into it, and reading it
    after a move has no result ([None]). *)

From S2P Require Import Prelude Bytes Saga.

Inductive ChoreoEventType :=
| TYPE_STARTED | TYPE_STEP_COMPLETED | TYPE_STEP_FAILED | TYPE_COMPENSATION_TRIGGERED
| TYPE_COMPENSATED | TYPE_SAGA_COMPLETED | TYPE_SAGA_FAILED.

(** [payload_size] is never set to anything but 0. *)
Record ChoreographyEvent := mk_event {
  event_type : ChoreoEventType; ev_saga_id : list Z; ev_step_name : list Z;
  ev_service_name : list Z; ev_payload : list Z; ev_step_status : SagaStepStatus;
}.
Record ChoreographyService := mk_service {
  service_name : list Z; service_context : Z; on_event : option Z; known_steps : list SagaStep;
}.
Record ChoreographyBus := mk_bus {
  services : list ChoreographyService; event_log : list ChoreographyEvent; event_log_capacity : Z;
}.

Definition choreography_bus_create : ChoreographyBus := mk_bus [] [] 32.
Definition choreography_bus_register_service (bus : ChoreographyBus) (s : ChoreographyService) : ChoreographyBus :=
  bus <| services ::= fun l => l ++ [s] |>.
(** Whether publishing moves the log. *)
Definition log_full (bus : ChoreographyBus) : bool := event_log_capacity bus <=? Z.of_nat (length (event_log bus)).
Definition choreography_bus_publish (bus : ChoreographyBus) (ev : ChoreographyEvent) : ChoreographyBus :=
  (if log_full bus then bus <| event_log_capacity := event_log_capacity bus * 2 |> else bus) <| event_log ::= fun l => l ++ [ev] |>.
Definition choreography_bus_find_service (bus : ChoreographyBus) (n : list Z) : option nat :=
  find_idx (fun s => bool_decide (service_name s = n)) (services bus).

(** ** Events.  [strncpy] into a zeroed buffer of [n] bytes keeps [n] characters. *)

Definition ch_event (ty : ChoreoEventType) (saga_id step service : list Z) (st : SagaStepStatus) : ChoreographyEvent :=
  mk_event ty (take SAGA_ID_LEN saga_id) (take SAGA_NAME_LEN step) (take SAGA_NAME_LEN service) [] st.
Definition ch_event_started (saga_id step : list Z) := ch_event TYPE_STARTED saga_id step [] STEP_PENDING.
Definition ch_event_completed (saga_id step service : list Z) := ch_event TYPE_STEP_COMPLETED saga_id step service STEP_COMPLETED.
Definition ch_event_failed (saga_id step service : list Z) := ch_event TYPE_STEP_FAILED saga_id step service STEP_FAILED.
Definition ch_event_compensation_needed (saga_id failed_step : list Z) := ch_event TYPE_COMPENSATION_TRIGGERED saga_id failed_step [] STEP_PENDING.
Definition ch_event_compensated (saga_id step service : list Z) := ch_event TYPE_COMPENSATED saga_id step service STEP_PENDING.
Definition ch_event_type_string (ty : ChoreoEventType) : string :=
  match ty with
  | TYPE_STARTED => "STARTED" | TYPE_STEP_COMPLETED => "STEP_COMPLETED" | TYPE_STEP_FAILED => "STEP_FAILED"
  | TYPE_COMPENSATION_TRIGGERED => "COMPENSATION_TRIGGERED" | TYPE_COMPENSATED => "COMPENSATED"
  | TYPE_SAGA_COMPLETED => "SAGA_COMPLETED" | TYPE_SAGA_FAILED => "SAGA_FAILED"
  end.

(** ** Dispatch *)

Section bus.
Context {W : Type} (handle : Z -> Z -> ChoreographyEvent -> W -> list ChoreographyEvent * W).

(** A call of a handler: handler, context and event. *)
Definition delivery : Type := Z * Z * ChoreographyEvent.
Record state := mk_state { bus : ChoreographyBus; world : W; delivered : list delivery }.

(** Publishing a list of events; tells whether the log was moved. *)
Fixpoint publish_all (b : ChoreographyBus) (evs : list ChoreographyEvent) : ChoreographyBus * bool :=
  match evs with
  | [] => (b, false)
  | ev :: evs' => let '(b', moved) := publish_all (choreography_bus_publish b ev) evs' in (b', log_full b || moved)
  end.

(** The inner loop, over the services; [moved]: [ev] dangles. *)
Fixpoint deliver (ev : ChoreographyEvent) (l : list ChoreographyService) (moved : bool) (s : state) : option state :=
  match l with
  | [] => Some s
  | svc :: l' =>
      if moved then None
      else if bool_decide (service_name svc = ev_service_name ev) then
        match on_event svc with
        | Some h =>
            let '(evs, w) := handle h (service_context svc) ev (world s) in
            let '(b, moved) := publish_all (bus s) evs in
            deliver ev l' moved (mk_state b w (delivered s ++ [(h, service_context svc, ev)]))
        | None => deliver ev l' moved s
        end
      else deliver ev l' moved s
  end.

(** The outer loop; [None] also when handlers publish faster than the fuel lasts. *)
Fixpoint dispatch_loop (fuel : nat) (i : nat) (s : state) : option state :=
  match event_log (bus s) !! i with
  | None => Some s
  | Some ev =>
      match fuel with
      | O => None
      | S fuel' => s ← deliver ev (services (bus s)) false s; dispatch_loop fuel' (S i) s
      end
  end.
Definition choreography_bus_dispatch_pending (fuel : nat) (s : state) : option state :=
  s ← dispatch_loop fuel 0 s; Some (s <| bus ::= fun b => b <| event_log := [] |> |>).

(** ** Delivery to the services an event names *)

(** What one event causes: a call of each service of its name, in the order of
    registration. *)
Definition addressed (svcs : list ChoreographyService) (ev : ChoreographyEvent) : list delivery :=
  omap (fun svc => if bool_decide (service_name svc = ev_service_name ev) then (fun h => (h, service_context svc, ev)) <$> on_event svc else None) svcs.

(** Handlers that publish nothing. *)
Definition silent : Prop := forall h c ev w, (handle h c ev w).1 = [].

Lemma deliver_silent ev l : silent -> forall s, exists w,
  deliver ev l false s = Some (mk_state (bus s) w (delivered s ++ addressed l ev)).
Proof.
  intros Hsilent. induction l as [|svc l IH]; intros s; cbn [deliver addressed omap list_omap].
  { exists (world s). rewrite app_nil_r. by destruct s. }
  fold (addressed l ev). case_bool_decide; [|apply IH]. destruct (on_event svc) as [h|]; [|apply IH]. cbn [fmap option_fmap option_map].
  specialize (Hsilent h (service_context svc) ev (world s)). destruct (handle _ _ _ _) as [evs w]. cbn [fst] in Hsilent. subst evs. cbn [publish_all].
  destruct (IH (mk_state (bus s) w (delivered s ++ [(h, service_context svc, ev)]))) as [w' Hw]. exists w'. rewrite Hw. cbn [bus delivered].
  by rewrite <- app_assoc.
Qed.

Lemma dispatch_loop_silent (Hsilent : silent) n : forall i s, (length (event_log (bus s)) - i <= n)%nat -> exists w,
  dispatch_loop n i s = Some (mk_state (bus s) w (delivered s ++ (drop i (event_log (bus s)) ≫= addressed (services (bus s))))).
Proof.
  induction n as [|n IH]; intros i s Hn; cbn [dispatch_loop]; destruct (event_log (bus s) !! i) as [ev|] eqn:Hev.
  - apply lookup_lt_Some in Hev. lia.
  - exists (world s). apply lookup_ge_None in Hev. rewrite drop_ge by done. cbn. rewrite app_nil_r. by destruct s.
  - destruct (deliver_silent ev (services (bus s)) Hsilent s) as [w Hw]. rewrite Hw. cbn [mbind option_bind].
    destruct (IH (S i) (mk_state (bus s) w (delivered s ++ addressed (services (bus s)) ev)) ltac:(cbn; lia)) as [w' Hw'].
    exists w'. rewrite Hw'. cbn [bus delivered]. rewrite (drop_S _ _ _ Hev). cbn [mbind list_bind]. by rewrite <- app_assoc.
  - exists (world s). apply lookup_ge_None in Hev. rewrite drop_ge by done. cbn. rewrite app_nil_r. by destruct s.
Qed.

(** With handlers that publish nothing a dispatch ends, calls for every event in
    the log, in order, the handlers of exactly the services registered under its
    service name, and leaves the log empty. *)
Theorem choreography_dispatch_correct s : silent -> exists w,
  choreography_bus_dispatch_pending (length (event_log (bus s))) s =
  Some (mk_state ((bus s) <| event_log := [] |>) w (delivered s ++ (event_log (bus s) ≫= addressed (services (bus s))))).
Proof.
  intros Hsilent. unfold choreography_bus_dispatch_pending.
  destruct (dispatch_loop_silent Hsilent (length (event_log (bus s))) 0 s ltac:(lia)) as [w Hw]. exists w. rewrite Hw. by rewrite drop_0.
Qed.

(** The constructors of the first and of the compensation event leave the service
    name empty, so only a service without a name can receive these events. *)
Theorem started_events_reach_nobody svcs id st : Forall (fun svc => service_name svc <> []) svcs ->
  addressed svcs (ch_event_started id st) = [] /\ addressed svcs (ch_event_compensation_needed id st) = [].
Proof. induction 1 as [|svc svcs Hs Hall [IH1 IH2]]; [done|]. cbn. rewrite !bool_decide_eq_false_2 by done. by split. Qed.
End bus.

Lemma choreography_dispatch_correct_witness :
  let svc n h := mk_service (str_bytes n) 0 (Some h) [] in
  let ev := ch_event_completed (str_bytes "S1") (str_bytes "pay") (str_bytes "billing") in
  let b := choreography_bus_publish (choreography_bus_register_service (choreography_bus_register_service choreography_bus_create
             (svc "billing"%string 1)) (svc "stock"%string 2)) ev in
  exists w, choreography_bus_dispatch_pending (fun _ _ _ w => ([], w)) 1 (mk_state b tt []) =
    Some (mk_state (b <| event_log := [] |>) w [(1, 0, ev)]).
Proof. intros svc ev b. apply (choreography_dispatch_correct (fun _ _ _ w => ([], w)) (mk_state b tt [])). intros h c ev' w. reflexivity. Defined.

(** A handler that publishes into a full log moves it under the loop; with another
    service still to be asked, the loop reads the freed event. *)
Example choreography_publish_while_dispatching_undefined :
  let svc n h := mk_service (str_bytes n) 0 (Some h) [] in
  let ev := ch_event_completed (str_bytes "S1") (str_bytes "pay") (str_bytes "billing") in
  let b := mk_bus [svc "billing"%string 1; svc "stock"%string 2] (replicate 32 ev) 32 in
  deliver (fun _ _ _ w => ([ev], w)) ev (services b) false (mk_state b tt []) = None.
Proof. reflexivity. Qed.
