(* ===== verification/Middleware.v ===== *)
(** Model of [mini-web-server/src/middleware.c]: the chain of middleware functions
    and the built-in ones.

    A middleware function maps the request, response, context and the static
    variables of the file to a result and their new values.  Functions of the user
    of the library are parameters.  [now] is what [time(NULL)] returns in the call;
    the text of a local time ([strftime]) is a parameter. *)

From S2P Require Import Prelude Bytes HttpCore.

Definition MIDDLEWARE_MAX_CHAIN : nat := 16.
Definition MIDDLEWARE_MAX_LOG_LINE : nat := 1024.

Inductive MiddlewareResult := MIDDLEWARE_NEXT | MIDDLEWARE_STOP | MIDDLEWARE_ERROR.
#[export] Instance MiddlewareResult_eq_dec : EqDecision MiddlewareResult.
Proof. solve_decision. Defined.

(** What [ctx->user_data] points to. *)
Inductive user_pointer := NULL | ToSessionStore | ToSession (i : nat) | ToOther (p : Z).
Record MiddlewareContext := mk_mctx { user_data : user_pointer; depth : Z; log_buf : list Z }.

(** The static variables of [middleware.c]. *)
Record globals := mk_globals {
  g_cors_origin : list Z; g_cors_methods : list Z; g_cors_headers : list Z;
  g_rate_limit_count : Z; g_rate_window_start : Z;
}.
Definition globals_init : globals :=
  mk_globals (str_bytes "*") (str_bytes "GET, POST, PUT, DELETE, OPTIONS") (str_bytes "Content-Type, Authorization") 0 0.

Record mw_state := mk_mw { mw_req : HttpRequest; mw_res : HttpResponse; mw_ctx : MiddlewareContext; mw_globals : globals }.

Inductive MiddlewareFn := Logger | Cors | CompressGzip | AuthBearer | RateLimit | BodyParser | UserFn (f : Z).

Record MiddlewareChain := mk_chain { entries : list (option MiddlewareFn); contexts : list user_pointer }.
Definition middleware_chain_init : MiddlewareChain := mk_chain [] [].
Definition middleware_chain_add (chain : MiddlewareChain) (fn : option MiddlewareFn) (user_ctx : user_pointer) : bool * MiddlewareChain :=
  match fn with
  | Some _ =>
      if (MIDDLEWARE_MAX_CHAIN <=? length (entries chain))%nat then (false, chain)
      else (true, mk_chain (entries chain ++ [fn]) (contexts chain ++ [user_ctx]))
  | None => (false, chain)
  end.
Definition middleware_chain_clear (_ : MiddlewareChain) : MiddlewareChain := mk_chain [] [].

(** ** Built-in functions *)

Definition add_header (n v : string) (s : mw_state) : mw_state :=
  s <| mw_res := http_response_add_header (mw_res s) (str_bytes n) (str_bytes v) |>.
Definition set_status (code : Z) (s : mw_state) : mw_state := s <| mw_res := http_response_set_status (mw_res s) code |>.
Definition set_body (b : list Z) (s : mw_state) : mw_state := s <| mw_res := http_response_set_body_str (mw_res s) b |>.
Definition get_header (s : mw_state) (n : string) : option (list Z) := http_request_get_header (mw_req s) (str_bytes n).

Definition middleware_logger (strftime : Z -> list Z) (now : Z) (s : mw_state) : MiddlewareResult * mw_state :=
  let ip := default (str_bytes "127.0.0.1") (get_header s "X-Forwarded-For") in
  let line := [91] ++ strftime now ++ str_bytes "] " ++ ip ++ [32] ++ http_method_str (method (mw_req s)) ++ [32] ++ path (mw_req s) in
  (MIDDLEWARE_NEXT, s <| mw_ctx := (mw_ctx s) <| log_buf := truncated MIDDLEWARE_MAX_LOG_LINE line |> |>).

Definition middleware_cors (s : mw_state) : MiddlewareResult * mw_state :=
  let add n v s := s <| mw_res := http_response_add_header (mw_res s) (str_bytes n) v |> in
  let s := add "Access-Control-Allow-Origin"%string (g_cors_origin (mw_globals s)) s in
  let s := add "Access-Control-Allow-Methods"%string (g_cors_methods (mw_globals s)) s in
  let s := add "Access-Control-Allow-Headers"%string (g_cors_headers (mw_globals s)) s in
  let s := add_header "Vary" "Origin" s in
  if bool_decide (method (mw_req s) = HTTP_OPTIONS) then (MIDDLEWARE_STOP, set_status 204 s) else (MIDDLEWARE_NEXT, s).
Definition middleware_cors_set_origin (o : list Z) (g : globals) : globals := g <| g_cors_origin := truncated 256 o |>.
Definition middleware_cors_set_methods (m : list Z) (g : globals) : globals := g <| g_cors_methods := truncated 256 m |>.
Definition middleware_cors_set_headers (h : list Z) (g : globals) : globals := g <| g_cors_headers := truncated 256 h |>.

Definition middleware_compress_gzip (s : mw_state) : MiddlewareResult * mw_state :=
  (MIDDLEWARE_NEXT,
   match get_header s "Accept-Encoding" with
   | Some accept =>
       if contains (str_bytes "gzip") accept
       then add_header "Vary" "Accept-Encoding" (add_header "Content-Encoding" "gzip" s) else s
   | None => s
   end).

(** [{'error':'...'}] with double quotes. *)
Definition error_body (msg : string) : list Z :=
  [123; 34] ++ str_bytes "error" ++ [34; 58; 34] ++ str_bytes msg ++ [34; 125].
Definition middleware_auth_bearer (s : mw_state) : MiddlewareResult * mw_state :=
  let authorized := match get_header s "Authorization" with
                    | Some auth => match starts_with (str_bytes "Bearer ") auth with Some _ => true | None => false end
                    | None => false
                    end in
  if authorized then (MIDDLEWARE_NEXT, s)
  else (MIDDLEWARE_STOP, set_body (error_body "unauthorized") (add_header "WWW-Authenticate" "Bearer" (set_status 401 s))).

Definition rate_window (now : Z) (g : globals) : globals :=
  if 60 <? now - g_rate_window_start g then g <| g_rate_window_start := now |> <| g_rate_limit_count := 0 |> else g.
Definition middleware_rate_limit (now : Z) (s : mw_state) : MiddlewareResult * mw_state :=
  let s := s <| mw_globals := (rate_window now (mw_globals s)) <| g_rate_limit_count ::= Z.succ |> |> in
  if 100 <? g_rate_limit_count (mw_globals s) then
    (MIDDLEWARE_STOP, set_body (error_body "rate limit exceeded") (add_header "Retry-After" "60" (set_status 429 s)))
  else (MIDDLEWARE_NEXT, add_header "X-RateLimit-Remaining" "100" s).

Definition middleware_body_parser (s : mw_state) : MiddlewareResult * mw_state :=
  match get_header s "Content-Length" with
  | None => (MIDDLEWARE_NEXT, s)
  | Some len_str =>
      let clen := strtol len_str in
      if (clen <=? 0) || (HTTP_MAX_BODY <? clen) then (MIDDLEWARE_ERROR, s)
      else
        (MIDDLEWARE_NEXT,
         match get_header s "Content-Type" with
         | Some ctype => if contains (str_bytes "application/json") ctype then add_header "X-Body-Parsed" "json" s else s
         | None => s
         end)
  end.

(** ** The chain *)

Section chain.
Context (strftime : Z -> list Z) (user : Z -> Z -> mw_state -> MiddlewareResult * mw_state).

Definition run_middleware (fn : MiddlewareFn) (now : Z) (s : mw_state) : MiddlewareResult * mw_state :=
  match fn with
  | Logger => middleware_logger strftime now s
  | Cors => middleware_cors s
  | CompressGzip => middleware_compress_gzip s
  | AuthBearer => middleware_auth_bearer s
  | RateLimit => middleware_rate_limit now s
  | BodyParser => middleware_body_parser s
  | UserFn f => user f now s
  end.

(** The loop from entry [i]; entry [i] runs at time [clock i].  The contexts of the
    chain are not passed on. *)
Fixpoint chain_loop (clock : nat -> Z) (i : nat) (l : list (option MiddlewareFn)) (s : mw_state) : bool * mw_state :=
  match l with
  | [] => (true, s)
  | None :: l' => chain_loop clock (S i) l' s
  | Some fn :: l' =>
      let '(result, s) := run_middleware fn (clock i) (s <| mw_ctx := (mw_ctx s) <| depth := Z.of_nat i |> |>) in
      match result with
      | MIDDLEWARE_STOP => (true, s)
      | MIDDLEWARE_ERROR => (false, s)
      | MIDDLEWARE_NEXT => chain_loop clock (S i) l' s
      end
  end.
Definition middleware_chain_execute (clock : nat -> Z) (chain : MiddlewareChain) (s : mw_state) : bool * mw_state :=
  chain_loop clock 0 (entries chain) s.
End chain.

(** ** The rate limit *)

(** How many of a series of requests, each at its time, the limiter lets through. *)
Fixpoint admitted (requests : list (Z * mw_state)) (g : globals) : Z :=
  match requests with
  | [] => 0
  | (now, s) :: rs =>
      let '(r, s') := middleware_rate_limit now (s <| mw_globals := g |>) in
      c_bool (bool_decide (r = MIDDLEWARE_NEXT)) + admitted rs (mw_globals s')
  end.

Lemma rate_limit_step now s g :
  let g' := (rate_window now g) <| g_rate_limit_count ::= Z.succ |> in
  let '(r, s') := middleware_rate_limit now (s <| mw_globals := g |>) in
  mw_globals s' = g' /\ (r = MIDDLEWARE_NEXT -> g_rate_limit_count (rate_window now g) < 100).
Proof.
  intros g'. unfold middleware_rate_limit, add_header, set_body, set_status, set. cbn.
  destruct (Z.ltb_spec 100 (Z.succ (g_rate_limit_count (rate_window now g)))); cbn; (split; [done|]); [done|lia].
Qed.

(** In a window that does not end, what is left of the hundred. *)
Lemma admitted_same_window rs : forall g, Forall (fun r => r.1 - g_rate_window_start g <= 60) rs ->
  admitted rs g <= Z.max 0 (100 - g_rate_limit_count g).
Proof.
  induction rs as [|[now s] rs IH]; intros g Hall; cbn [admitted]; [lia|]. apply Forall_cons in Hall as [Hnow Hall]. cbn [fst] in Hnow.
  pose proof (rate_limit_step now s g) as Hs. destruct (middleware_rate_limit _ _) as [r s']. destruct Hs as [Hg Hr]. rewrite Hg.
  unfold rate_window in *. rewrite (proj2 (Z.ltb_ge _ _)) in * by lia.
  match goal with |- context [admitted rs ?g1] => pose proof (IH g1 Hall) as H1 end. cbn in H1, Hr.
  unfold c_bool. case_bool_decide as Hn; [apply Hr in Hn|]; lia.
Qed.

Lemma admitted_span rs a : forall g, Forall (fun r => a <= r.1 <= a + 60) rs -> admitted rs g <= Z.max 0 (100 - g_rate_limit_count g) + 100.
Proof.
  induction rs as [|[now s] rs IH]; intros g Hall; cbn [admitted]; [lia|]. apply Forall_cons in Hall as [Hnow Hall]. cbn [fst] in Hnow.
  pose proof (rate_limit_step now s g) as Hs. destruct (middleware_rate_limit _ _) as [r s']. destruct Hs as [Hg Hr]. rewrite Hg.
  unfold rate_window in *. destruct (Z.ltb_spec 60 (now - g_rate_window_start g)).
  - match goal with |- context [admitted rs ?g1] => pose proof (admitted_same_window rs g1) as H1 end. cbn in H1, Hr.
    specialize (H1 ltac:(eapply Forall_impl; [exact Hall|]; cbn; lia)). unfold c_bool. case_bool_decide; lia.
  - match goal with |- context [admitted rs ?g1] => pose proof (IH g1 Hall) as H1 end. cbn in H1, Hr.
    unfold c_bool. case_bool_decide as Hn; [apply Hr in Hn|]; lia.
Qed.

(** Whatever requests arrive in whatever order, the limiter lets at most 200 of
    those in any 60 seconds through: a hundred before and a hundred after the one
    moment in them at which a new window can start. *)
Theorem middleware_rate_limit_bound rs g a : Forall (fun r => a <= r.1 <= a + 60) rs -> 0 <= g_rate_limit_count g -> admitted rs g <= 200.
Proof. intros Hall Hg. pose proof (admitted_span rs a g Hall). lia. Qed.

Definition example_mw : mw_state := mk_mw http_request_init http_response_init (mk_mctx NULL 0 []) globals_init.
(** Both hundreds in two seconds. *)
Lemma middleware_rate_limit_bound_witness :
  let rs := replicate 150 (60, example_mw) ++ replicate 150 (61, example_mw) in admitted rs globals_init = 200 /\ admitted rs globals_init <= 200.
Proof.
  intros rs. split; [vm_compute; reflexivity|]. apply (middleware_rate_limit_bound rs globals_init 60); [|vm_compute; discriminate].
  apply Forall_app. split; apply Forall_replicate; cbn; lia.
Defined.
