(* ===== verification/Server.v ===== *)
(** Model of [mini-web-server/src/server.c]: parsing a request from the bytes
    received, what a worker does with it (middleware, router, response), and the
    connection table shared by the event loop and the workers.

    The sockets are events: a connection is accepted, bytes arrive, the peer closes,
    a worker takes an item.  Each event is atomic; the theorems about wrong
    behaviour need no finer interleaving.  Work items point to a slot of the table.
    Handlers are parameters.  Starting and stopping (sockets, threads) is left out. *)

From S2P Require Import Prelude Bytes HttpCore Middleware Router.

Definition SERVER_MAX_CONNECTIONS : nat := 1024.
Definition SERVER_RECV_BUF_SIZE : nat := 65536.
Definition SERVER_KEEPALIVE_TIMEOUT : Z := 15.
Definition POOL_MAX_QUEUE_SIZE : nat := 512.
Definition RESP_BUF_SIZE : nat := 65536.
#[global] Arguments SERVER_RECV_BUF_SIZE : simpl never.
#[global] Arguments RESP_BUF_SIZE : simpl never.

(** [recv_len] is the length of [recv_buf]. *)
Record Connection := mk_conn {
  fd : Z; last_activity : Z; recv_buf : list Z;
  request : HttpRequest; response : HttpResponse; keep_alive : bool; closed : bool;
}.

(** ** Parsing *)

(** The loop over the header lines; [left] is the distance from [pos] to the blank
    line. *)
Fixpoint header_loop (fuel : nat) (pos : list Z) (left : Z) (req : HttpRequest) : HttpRequest :=
  match fuel with
  | O => req
  | S fuel' =>
      if left <=? 0 then req
      else
        match pos with
        | 13 :: _ => req
        | _ =>
            match strstr_before crlf pos with
            | None => req
            | Some line =>
                header_loop fuel' (drop (length line + 2) pos) (left - Z.of_nat (length line + 2)) (http_parse_header line req).2
            end
        end
  end.

(** Whether the body has arrived with the head. *)
Definition take_body (data : list Z) (headers_len : nat) (req : HttpRequest) : HttpRequest :=
  match http_request_get_header req (str_bytes "Content-Length") with
  | None => req
  | Some cl_str =>
      let body_len := strtol cl_str in
      if (0 <? body_len) && (Z.of_nat headers_len + body_len <=? Z.of_nat (length data)) then
        req <| body := take (Z.to_nat body_len) (drop headers_len data) |>
      else req
  end.

(** 0, -1 (incomplete) or -2 (malformed), and the connection. *)
Definition parse_http_request (conn : Connection) : Z * Connection :=
  let text := cstr (recv_buf conn) in
  match strstr_before (crlf ++ crlf) text, strstr_before crlf text with
  | Some head, Some line =>
      let '(ok, req) := http_parse_request_line line (request conn) in
      if negb ok then (-2, conn <| request := req |>)
      else
        let pos := drop (length line + 2) text in
        let req := header_loop (length text) pos (Z.of_nat (length head) - Z.of_nat (length line + 2)) req in
        let req := take_body (recv_buf conn) (length head + 4) req in
        let close := match http_request_get_header req (str_bytes "Connection") with
                     | Some v => strcasecmp_eq v (str_bytes "close")
                     | None => false
                     end in
        (0, conn <| request := req |> <| keep_alive := if close then false else keep_alive conn |>)
  | _, _ => (-1, conn)
  end.

(** ** The work on a request *)

Section server.
Context (strftime : Z -> list Z) (user : Z -> Z -> mw_state -> MiddlewareResult * mw_state).
(** Handlers: the return value and the response they leave. *)
Context (handler : nat -> HttpRequest -> list RouteParam -> HttpResponse -> bool * HttpResponse).

(** A call of a handler, and bytes sent to a socket. *)
Inductive action := Handle (h : nat) (req : HttpRequest) (ps : list RouteParam) | Send (sock : Z) (text : list Z).

(** Middleware: [ok], the request and response, and the static variables. *)
Definition run_chain (clock : nat -> Z) (chain : MiddlewareChain) (conn : Connection) (g : globals) : bool * HttpRequest * HttpResponse * globals :=
  if (0 <? length (entries chain))%nat then
    let '(ok, s) := middleware_chain_execute strftime user clock chain (mk_mw (request conn) (response conn) (mk_mctx NULL 0 []) g) in
    (ok, mw_req s, mw_res s, mw_globals s)
  else (true, request conn, response conn, g).

(** The router calls the handler; its result and the router's are ignored. *)
Definition run_router (ok : bool) (router : option RouteNode) (req : HttpRequest) (res : HttpResponse) : option (HttpResponse * list action) :=
  match router with
  | Some r =>
      if ok then
        d ← router_dispatch r (method req) (path req);
        Some match d with
             | Some (h, ps) => ((handler h req ps res).2, [Handle h req ps])
             | None => (res, [])
             end
      else Some (res, [])
  | None => Some (res, [])
  end.

(** [None]: a write outside the response buffer or the parameters. *)
Definition process_item (clock : nat -> Z) (now : Z) (chain : MiddlewareChain) (router : option RouteNode) (conn : Connection) (g : globals)
    : option (Connection * globals * list action) :=
  if (fd conn <? 0) || closed conn then Some (conn, g, [])
  else
    let '(ok, req, res, g) := run_chain clock chain conn g in
    '(res, calls) ← run_router ok router req res;
    '(text, resp_len) ← http_serialize_response res RESP_BUF_SIZE;
    if (RESP_BUF_SIZE <? resp_len)%nat then None
    else
      let sent := if (0 <? resp_len)%nat then [Send (fd conn) text] else [] in
      let conn := if keep_alive conn
                  then conn <| request := http_request_init |> <| response := http_response_init |> <| recv_buf := [] |> <| last_activity := now |>
                  else conn <| request := req |> <| response := res |> <| fd := -1 |> <| closed := true |> in
      Some (conn, g, calls ++ sent).

(** ** The connection table and the queue of the pool *)

(** All slots of the table; the first [conn_count] are in use.  Items of the queue
    are slots. *)
Record Server := mk_server {
  connections : list Connection; conn_count : nat; keepalive_timeout : Z;
  srv_router : option RouteNode; srv_middleware : MiddlewareChain;
  pool_queue : list nat; srv_globals : globals; actions : list action;
}.

Definition conn_empty : Connection := mk_conn 0 0 [] (mk_request HTTP_GET [] [] [] []) (mk_response 0 [] None) false false.
Definition server_init : Server :=
  mk_server (replicate SERVER_MAX_CONNECTIONS conn_empty) 0 SERVER_KEEPALIVE_TIMEOUT None middleware_chain_init [] globals_init [].
Definition server_set_router (srv : Server) (r : RouteNode) : Server := srv <| srv_router := Some r |>.
Definition server_set_middleware_chain (srv : Server) (c : MiddlewareChain) : Server := srv <| srv_middleware := c |>.

Definition server_add_connection (srv : Server) (client_fd now : Z) : option nat * Server :=
  if (length (connections srv) <=? conn_count srv)%nat then (None, srv)
  else
    let conn := mk_conn client_fd now [] http_request_init http_response_init true false in
    (Some (conn_count srv), srv <| connections ::= <[conn_count srv := conn]> |> <| conn_count ::= S |>).

(** The last connection moves to the slot that is given up. *)
Definition server_remove_connection (srv : Server) (index : Z) : Server :=
  if (index <? 0) || (Z.of_nat (conn_count srv) <=? index) then srv
  else
    let i := Z.to_nat index in
    let release conn := conn <| fd := if 0 <=? fd conn then -1 else fd conn |> <| request ::= set body (const []) |>
                             <| response ::= set res_body (const None) |> in
    let srv := srv <| connections ::= alter release i |> in
    let srv := match connections srv !! (conn_count srv - 1)%nat with
               | Some last => if (i <? conn_count srv - 1)%nat then srv <| connections ::= <[i := last]> |> else srv
               | None => srv
               end in
    srv <| conn_count := (conn_count srv - 1)%nat |>.

Definition is_idle (now : Z) (srv : Server) (conn : Connection) : bool :=
  (0 <=? fd conn) && negb (closed conn) && (keepalive_timeout srv <? now - last_activity conn).
Fixpoint reap_loop (now : Z) (n : nat) (srv : Server) : Server * Z :=
  match n with
  | O => (srv, 0)
  | S i =>
      match connections srv !! i with
      | Some conn =>
          if is_idle now srv conn then
            let '(srv, reaped) := reap_loop now i (server_remove_connection srv (Z.of_nat i)) in (srv, reaped + 1)
          else reap_loop now i srv
      | None => reap_loop now i srv
      end
  end.
Definition server_reap_idle_connections (now : Z) (srv : Server) : Server * Z := reap_loop now (conn_count srv) srv.

(** [None]: the caller waits until the queue has room. *)
Definition thread_pool_submit (srv : Server) (item : nat) : option Server :=
  if (POOL_MAX_QUEUE_SIZE <=? length (pool_queue srv))%nat then None else Some (srv <| pool_queue ::= fun q => q ++ [item] |>).

(** One readable connection of the event loop; [bytes] is what [recv] returns, empty
    when the peer has closed. *)
Definition receive (i : nat) (bytes : list Z) (now : Z) (srv : Server) : option Server :=
  conn ← connections srv !! i;
  let bytes := take (SERVER_RECV_BUF_SIZE - length (recv_buf conn) - 1) bytes in
  match bytes with
  | [] => Some (server_remove_connection srv (Z.of_nat i))
  | _ =>
      let conn := conn <| recv_buf ::= fun b => b ++ bytes |> <| last_activity := now |> in
      let '(rc, conn) := parse_http_request conn in
      let srv := srv <| connections ::= <[i := conn]> |> in
      if rc =? 0 then thread_pool_submit srv i
      else if rc =? -2 then
        let res := http_response_set_body_str (http_response_set_status (response conn) 400) (str_bytes "400 Bad Request") in
        '(text, rlen) ← http_serialize_response res 4096;
        let srv := if (0 <? rlen)%nat then srv <| actions ::= fun l => l ++ [Send (fd conn) text] |> else srv in
        Some (server_remove_connection srv (Z.of_nat i))
      else Some srv
  end.

Inductive event :=
| Accept (client_fd now : Z)
| Receive (i : nat) (bytes : list Z) (now : Z)
| Reap (now : Z)
| Work (clock : nat -> Z) (now : Z).

Definition server_step (e : event) (srv : Server) : option Server :=
  match e with
  | Accept client_fd now =>
      let '(slot, srv') := server_add_connection srv client_fd now in
      match slot with
      | Some _ => Some srv'
      | None => Some (srv <| actions ::= fun l => l ++ [Send client_fd (str_bytes "HTTP/1.1 503 Service Unavailable" ++ crlf ++ str_bytes "Content-Length: 0" ++ crlf ++ crlf)] |>)
      end
  | Receive i bytes now =>
      conn ← connections srv !! i;
      if (conn_count srv <=? i)%nat || (fd conn <? 0) || closed conn then Some srv else receive i bytes now srv
  | Reap now => Some (server_reap_idle_connections now srv).1
  | Work clock now =>
      match pool_queue srv with
      | [] => Some srv
      | i :: q =>
          let srv := srv <| pool_queue := q |> in
          conn ← connections srv !! i;
          '(conn, g, acts) ← process_item clock now (srv_middleware srv) (srv_router srv) conn (srv_globals srv);
          Some (srv <| connections ::= <[i := conn]> |> <| srv_globals := g |> <| actions ::= fun l => l ++ acts |>)
      end
  end.
Fixpoint server_run (es : list event) (srv : Server) : option Server :=
  match es with [] => Some srv | e :: es' => srv ← server_step e srv; server_run es' srv end.
End server.
