(* ===== verification/ServerSpec.v ===== *)
(** Theorems on the server of [Server]: a request is read back from its text; a
    middleware that stops a request does not stop its handler; slots of closed
    connections are never given back. *)

From S2P Require Import Prelude Bytes HttpCore Middleware Router Server.

(** ** The text of a request (RFC 7230, section 3) *)

Definition header_text (h : HttpHeader) : list Z := name h ++ [58; 32] ++ value h.
Definition header_lines (hs : list HttpHeader) : list Z := hs ≫= fun h => crlf ++ header_text h.
Definition target_text (p : list Z) (q : option (list Z)) : list Z :=
  percent_encode p ++ match q with Some q => 63 :: q | None => [] end.
Definition request_line (m : HttpMethod) (p : list Z) (q : option (list Z)) (version : list Z) : list Z :=
  http_method_str m ++ [32] ++ target_text p q ++ [32] ++ version.
Definition request_text m p q version hs (b : list Z) : list Z :=
  request_line m p q version ++ header_lines hs ++ crlf ++ crlf ++ b.

(** Text that has no blank and no line end. *)
Definition word_char (c : Z) : Prop := char_ok c /\ is_space c = false.
(** A header that fits and has no line end inside. *)
Definition header_clean (h : HttpHeader) : Prop :=
  header_ok h /\ Forall char_ok (header_text h) /\ 13 ∉ header_text h.

(** ** The lines of the head *)

Lemma header_text_head h : header_ok h -> 13 ∉ header_text h -> exists c t, header_text h = c :: t /\ c <> 13.
Proof.
  intros _ H13. unfold header_text in *. destruct (name h) as [|c n]; cbn [app] in *; [by eexists _, _|].
  apply not_elem_of_cons in H13 as [Hc _]. by eexists _, _.
Qed.

(** The blank line is the first one. *)
Lemma head_found l hs rest : 13 ∉ l -> Forall header_clean hs ->
  strstr_before (crlf ++ crlf) (l ++ header_lines hs ++ crlf ++ crlf ++ rest) = Some (l ++ header_lines hs).
Proof.
  intros Hl Hhs. revert l Hl. induction Hhs as [|h hs (Hok & _ & H13) Hhs IH]; intros l Hl; cbn [header_lines mbind list_bind app].
  - unfold crlf at 1 2. cbn [app]. rewrite strstr_before_skip by done.
    pose proof (strstr_before_here (crlf ++ crlf) rest) as Hf. unfold crlf in *. cbn [app] in *. rewrite Hf. cbn. by rewrite app_nil_r.
  - fold (header_lines hs). rewrite <- !app_assoc. unfold crlf at 1 2 3. cbn [app]. rewrite strstr_before_skip by done.
    destruct (header_text_head h Hok H13) as (c & t & Ht & Hc).
    rewrite strstr_before_no by (rewrite Ht; cbn [starts_with app]; by rewrite (proj2 (Z.eqb_neq 13 c))).
    rewrite strstr_before_no by done. specialize (IH (header_text h) H13). unfold crlf in *. cbn [app] in *. rewrite IH. done.
Qed.

Lemma line_found l rest : 13 ∉ l -> strstr_before crlf (l ++ crlf ++ rest) = Some l.
Proof.
  intros Hl. unfold crlf at 1. rewrite strstr_before_skip by done.
  pose proof (strstr_before_here crlf rest) as Hf. unfold crlf in *. rewrite Hf. cbn. by rewrite app_nil_r.
Qed.

Lemma not_cr {A} c t (x y : A) : c <> 13 -> match c :: t with 13 :: _ => x | _ => y end = y.
Proof. intros Hc. destruct c as [|q|q]; try done. repeat (destruct q as [q|q|]; try done). Qed.

Definition add_headers (hs : list HttpHeader) (req : HttpRequest) : HttpRequest :=
  mk_request (method req) (path req) (query_string req) (headers req ++ hs) (body req).

Lemma parse_clean h req : header_ok h -> (length (headers req) < HTTP_MAX_HEADERS)%nat ->
  (http_parse_header (header_text h) req).2 = add_headers [h] req.
Proof.
  intros Hok Hl. pose proof (http_parse_header_text h req [] Hok Hl eq_refl eq_refl) as H. rewrite !app_nil_r in H.
  unfold header_text. by rewrite H.
Qed.

Lemma header_loop_spec hs : forall h rest fuel req, Forall header_clean (h :: hs) ->
  (length (headers req) + S (length hs) <= HTTP_MAX_HEADERS)%nat -> (S (S (length hs)) <= fuel)%nat ->
  header_loop fuel (header_text h ++ header_lines hs ++ crlf ++ crlf ++ rest) (Z.of_nat (length (header_text h ++ header_lines hs))) req =
  add_headers (h :: hs) req.
Proof.
  induction hs as [|h2 hs IH]; intros h rest fuel req [(Hok & Hc & H13) Hhs]%Forall_cons Hroom Hfuel;
    (destruct fuel as [|fuel]; [lia|]); destruct (header_text_head h Hok H13) as (c & t & Ht & Hne);
    cbn [header_loop]; (rewrite (proj2 (Z.leb_gt _ _)) by (rewrite length_app, Ht; cbn; lia));
    match goal with |- context [match ?p with [] => _ | _ => _ end] => set (pos := p) end;
    assert (Hpos : exists t', pos = c :: t') by (unfold pos; rewrite Ht; by eexists);
    destruct Hpos as [t' Hpos];
    assert (Hs : forall r, match pos with 13 :: _ => req | _ => r end = r) by (intros r; rewrite Hpos; by apply not_cr).
  - rewrite Hs. unfold pos. cbn [header_lines mbind list_bind app]. rewrite (line_found (header_text h) (crlf ++ rest)) by done.
    rewrite parse_clean by (done || lia). destruct fuel as [|fuel]; [lia|]. cbn [header_loop].
    by rewrite (proj2 (Z.leb_le _ _)) by (rewrite app_nil_r; lia).
  - rewrite Hs. unfold pos. cbn [header_lines mbind list_bind]. fold (header_lines hs). rewrite <- !app_assoc.
    rewrite (line_found (header_text h) (header_text h2 ++ header_lines hs ++ crlf ++ crlf ++ rest)) by done.
    rewrite parse_clean by (done || cbn in *; lia).
    replace (drop (length (header_text h) + 2) (header_text h ++ crlf ++ header_text h2 ++ header_lines hs ++ crlf ++ crlf ++ rest))
      with (header_text h2 ++ header_lines hs ++ crlf ++ crlf ++ rest).
    2: { rewrite drop_app_ge by lia. by replace (length (header_text h) + 2 - length (header_text h))%nat with 2%nat by lia. }
    replace (Z.of_nat (length (header_text h ++ crlf ++ header_text h2 ++ header_lines hs)) - Z.of_nat (length (header_text h) + 2))
      with (Z.of_nat (length (header_text h2 ++ header_lines hs))) by (rewrite !length_app; cbn; lia).
    rewrite IH; [|done|cbn in *; rewrite length_app; cbn; lia|cbn in Hfuel; lia].
    unfold add_headers. cbn. by rewrite <- app_assoc.
Qed.

(** ** The request line *)

Lemma take_word_app w l s : (length l <= w)%nat -> Forall word_char l -> (match s with [] => True | c :: _ => is_space c = true end) ->
  take_word w (l ++ s) = (l, s).
Proof.
  intros Hw Hl Hs. revert w Hw. induction Hl as [|c l [_ Hc] Hl IH]; intros w Hw.
  - destruct w, s as [|c s]; cbn; try done. by rewrite Hs.
  - destruct w as [|w]; cbn [length] in Hw; [lia|]. cbn [app take_word]. rewrite Hc, IH by lia. done.
Qed.
Lemma scan_word_app w l s : (length l <= w)%nat -> l <> [] -> Forall word_char l -> (match s with [] => True | c :: _ => is_space c = true end) ->
  scan_word w (l ++ s) = Some (l, s).
Proof.
  intros Hw Hne Hl Hs. unfold scan_word. assert (Hskip : skip_spaces (l ++ s) = l ++ s).
  { destruct Hl as [|c l [_ Hc] Hl]; [done|]. cbn. by rewrite Hc. }
  rewrite Hskip. pose proof (take_word_app w l s Hw Hl Hs) as Htw. destruct Hl; [done|]. cbn [app] in *. by rewrite Htw.
Qed.
Lemma scan_word_space w s : scan_word w (32 :: s) = scan_word w s.
Proof. done. Qed.

Lemma method_word m : Forall word_char (http_method_str m) /\ http_method_str m <> [] /\ (length (http_method_str m) <= 31)%nat.
Proof.
  assert (Hd : forall l, forallb (fun c => (0 <? c) && (c <? 256) && negb (is_space c)) l = true -> Forall word_char l).
  { intros l Hl. apply Forall_forall. intros c Hc%list_elem_of_In. pose proof (proj1 (forallb_forall _ _) Hl c Hc) as H.
    cbn in H. apply andb_true_iff in H as [[H1%Z.ltb_lt H2%Z.ltb_lt]%andb_true_iff H3%negb_true_iff]. split; [split; lia|done]. }
  destruct m; (split; [apply Hd; vm_compute; reflexivity|split; [done|vm_compute; lia]]).
Qed.
Lemma method_from_str m : http_method_from_str (http_method_str m) = m.
Proof. destruct m; vm_compute; reflexivity. Qed.

Lemma percent_encode_word p : Forall char_ok p -> Forall word_char (percent_encode p) /\ 63 ∉ percent_encode p /\ length (percent_encode p) = (3 * length p)%nat.
Proof.
  assert (Hh : forall x, 0 <= x < 16 -> word_char (hex_digit x) /\ hex_digit x <> 63).
  { intros x Hx. unfold word_char, char_ok, hex_digit, is_space. destruct (Z.ltb_spec x 10).
    - rewrite (proj2 (Z.eqb_neq _ 32)), (proj2 (Z.leb_gt _ 13)) by lia. rewrite andb_false_r. split; [split; [lia|done]|lia].
    - rewrite (proj2 (Z.eqb_neq _ 32)), (proj2 (Z.leb_gt _ 13)) by lia. rewrite andb_false_r. split; [split; [lia|done]|lia]. }
  induction 1 as [|b p Hb Hp (IH1 & IH2 & IH3)]; [split; [constructor|split; [apply not_elem_of_nil|done]]|].
  destruct (Hh (b / 16)) as [H1 H2]; [unfold char_ok in Hb; Z.to_euclidean_division_equations; lia|].
  destruct (Hh (b mod 16)) as [H3 H4]; [apply Z.mod_pos_bound; lia|]. cbn [percent_encode mbind list_bind app]. fold (percent_encode p).
  split; [|split].
  - constructor; [split; [unfold char_ok; lia|done]|]. constructor; [done|]. by constructor.
  - by rewrite !not_elem_of_cons.
  - cbn [length]. lia.
Qed.

(** What the target of a request must satisfy. *)
Record target_ok (p : list Z) (q : option (list Z)) : Prop := {
  tk_path : Forall char_ok p /\ p <> [];
  tk_query : Forall word_char (default [] q);
  tk_length : (length (target_text p q) <= HTTP_MAX_PATH - 1)%nat;
}.

Lemma target_word p q : target_ok p q -> Forall word_char (target_text p q) /\ target_text p q <> [].
Proof.
  intros [[Hp Hne] Hq _]. unfold target_text. destruct (percent_encode_word p Hp) as (H1 & _ & Hl). split.
  - apply Forall_app. split; [done|]. destruct q; constructor; [split; [unfold char_ok; lia|done]|done].
  - intros [E _]%app_nil. rewrite E in Hl. destruct p; [done|]. cbn [length] in Hl. lia.
Qed.

Lemma parse_request_line m p q version req : target_ok p q -> query_string req = [] ->
  http_parse_request_line (request_line m p q version) req =
  (true, mk_request m p (default [] q) (headers req) (body req)).
Proof.
  intros Hok Hqs. destruct (method_word m) as (Hm & Hmne & Hml). destruct (target_word p q Hok) as [Ht Htne]. destruct Hok as [[Hp Hpne] Hq Hlen].
  unfold http_parse_request_line, request_line. rewrite (scan_word_app 31 (http_method_str m)) by done.
  cbn [app]. rewrite scan_word_space, (scan_word_app _ (target_text p q)) by done. rewrite method_from_str.
  destruct (percent_encode_word p Hp) as (Hw & H63 & Hel).
  assert (Hdec : cstr (default [] (http_url_decode (percent_encode p) HTTP_MAX_PATH)) = p).
  { rewrite http_url_decode_fits; [by apply cstr_id| |].
    - eapply Forall_impl; [exact Hp|]. unfold char_ok, byte_ok. cbn. lia.
    - unfold target_text in Hlen. rewrite length_app in Hlen. unfold HTTP_MAX_PATH in *. lia. }
  unfold target_text in *. destruct q as [q|]; cbn [default].
  - rewrite strchr_before_app by done. rewrite Hdec. do 2 f_equal. cbn.
    replace (drop (S (length (percent_encode p))) (percent_encode p ++ 63 :: q)) with q.
    + rewrite length_app in Hlen. cbn in Hlen. rewrite take_ge by (unfold HTTP_MAX_PATH in *; cbn; lia). done.
    + rewrite drop_app_ge by lia. by replace (S (length (percent_encode p)) - length (percent_encode p))%nat with 1%nat by lia.
  - rewrite app_nil_r. rewrite (proj2 (strchr_before_None 63 _)) by done. by rewrite Hdec, Hqs.
Qed.

(** ** The whole request *)

Lemma word_no_cr l : Forall word_char l -> 13 ∉ l /\ Forall char_ok l.
Proof.
  intros Hl. split; [|eapply Forall_impl; [exact Hl|]; by intros c [? _]].
  intros H13. rewrite Forall_forall in Hl. destruct (Hl 13 H13) as [_ Hs]. done.
Qed.
Lemma request_line_clean m p q version : target_ok p q -> Forall word_char version ->
  13 ∉ request_line m p q version /\ Forall char_ok (request_line m p q version).
Proof.
  intros Hok Hv. destruct (method_word m) as (Hm & _ & _), (target_word p q Hok) as [Ht _].
  destruct (word_no_cr _ Hm), (word_no_cr _ Ht), (word_no_cr _ Hv). unfold request_line. split.
  - rewrite !not_elem_of_app, list_elem_of_singleton. repeat split; done || lia.
  - rewrite !Forall_app. repeat split; try done; repeat constructor; lia.
Qed.
Lemma header_lines_chars hs : Forall header_clean hs -> Forall char_ok (header_lines hs).
Proof.
  induction 1 as [|h hs (_ & Hc & _) Hhs IH]; [constructor|]. cbn [header_lines mbind list_bind]. fold (header_lines hs).
  rewrite !Forall_app. repeat split; [repeat constructor; lia|done|done].
Qed.
Lemma header_lines_length hs : (length hs <= length (header_lines hs))%nat.
Proof.
  induction hs as [|h hs IH]; [done|]. cbn [header_lines mbind list_bind]. fold (header_lines hs). rewrite !length_app. cbn. lia.
Qed.

(** The header lines, read from behind the request line. *)
Lemma headers_read line hs rest req : 13 ∉ line -> Forall header_clean hs -> headers req = [] -> (length hs <= HTTP_MAX_HEADERS)%nat ->
  let text := line ++ header_lines hs ++ crlf ++ crlf ++ rest in
  header_loop (length text) (drop (length line + 2) text)
    (Z.of_nat (length (line ++ header_lines hs)) - Z.of_nat (length line + 2)) req = add_headers hs req.
Proof.
  intros Hline Hhs Hnil Hlen text. pose proof (header_lines_length hs) as Hll.
  assert (Hfuel : (length hs + 4 <= length text)%nat) by (unfold text; rewrite !length_app; cbn; lia).
  destruct hs as [|h hs].
  - destruct (length text) as [|n]; [lia|]. cbn [header_loop header_lines mbind list_bind]. rewrite app_nil_r, (proj2 (Z.leb_le _ _)) by lia.
    unfold add_headers. rewrite app_nil_r. by destruct req.
  - replace (drop (length line + 2) text) with (header_text h ++ header_lines hs ++ crlf ++ crlf ++ rest).
    2: { unfold text. cbn [header_lines mbind list_bind]. fold (header_lines hs). rewrite drop_app_ge by lia.
         replace (length line + 2 - length line)%nat with 2%nat by lia. by rewrite <- !app_assoc. }
    replace (Z.of_nat (length (line ++ header_lines (h :: hs))) - Z.of_nat (length line + 2)) with (Z.of_nat (length (header_text h ++ header_lines hs))).
    2: { cbn [header_lines mbind list_bind]. fold (header_lines hs). rewrite !length_app. cbn. lia. }
    rewrite header_loop_spec; [done|done|rewrite Hnil; cbn in *; lia|cbn in *; lia].
Qed.

(** The Content-Length header announces the body, or there is none of either. *)
Definition body_announced (hs : list HttpHeader) (b : list Z) : Prop :=
  match http_request_get_header (mk_request HTTP_GET [] [] hs []) (str_bytes "Content-Length") with
  | Some v => v = print_lld (Z.of_nat (length b)) /\ b <> [] /\ Z.of_nat (length b) < 2 ^ 63
  | None => b = []
  end.
Lemma get_header_same hs m p q b n : http_request_get_header (mk_request m p q hs b) n = http_request_get_header (mk_request HTTP_GET [] [] hs []) n.
Proof. done. Qed.

Lemma take_body_announced m p q hs head b : body_announced hs b ->
  take_body (head ++ crlf ++ crlf ++ b) (length head + 4) (mk_request m p q hs []) = mk_request m p q hs b.
Proof.
  unfold body_announced, take_body. rewrite (get_header_same hs m p q []). destruct (http_request_get_header _ _) as [v|]; [|by intros ->].
  intros (-> & Hne & Hlen). rewrite strtol_print by lia. rewrite !length_app. cbn [length crlf].
  assert (Hpos : (0 < length b)%nat) by (destruct b; [done|cbn; lia]).
  rewrite (proj2 (Z.ltb_lt _ _)), (proj2 (Z.leb_le _ _)) by lia. cbn [andb].
  replace (drop (length head + 4) (head ++ crlf ++ crlf ++ b)) with b.
  - rewrite Nat2Z.id, take_ge by lia. done.
  - rewrite drop_app_ge by lia. by replace (length head + 4 - length head)%nat with 4%nat by lia.
Qed.

(** C20: A request that arrives in one piece is read back from its text: method,
    percent-encoded path, query, all headers in order, and the body that its
    Content-Length announces; the connection is kept unless the client asks to
    close it. *)
Theorem http_request_roundtrip conn m p q version hs b :
  target_ok p q -> Forall word_char version -> Forall header_clean hs -> (length hs <= HTTP_MAX_HEADERS)%nat -> body_announced hs b ->
  request conn = http_request_init -> recv_buf conn = request_text m p q version hs b ->
  exists conn', parse_http_request conn = (0, conn') /\ request conn' = mk_request m p (default [] q) hs b /\
    keep_alive conn' = match http_request_get_header (request conn') (str_bytes "Connection") with
                       | Some v => if strcasecmp_eq v (str_bytes "close") then false else keep_alive conn
                       | None => keep_alive conn
                       end.
Proof.
  intros Hok Hv Hhs Hlen Hbody Hreq Hbuf. destruct (request_line_clean m p q version Hok Hv) as [Hl13 Hlc].
  unfold parse_http_request. rewrite Hbuf. unfold request_text. set (line := request_line m p q version) in *.
  assert (Htext : cstr (line ++ header_lines hs ++ crlf ++ crlf ++ b) = line ++ header_lines hs ++ crlf ++ crlf ++ cstr b).
  { rewrite !cstr_app; [done|by repeat constructor|by repeat constructor|by apply header_lines_chars|done]. }
  rewrite Htext, head_found by done.
  assert (Hfirst : strstr_before crlf (line ++ header_lines hs ++ crlf ++ crlf ++ cstr b) = Some line).
  { destruct hs as [|h hs]; [by apply line_found|]. cbn [header_lines mbind list_bind]. rewrite <- !app_assoc. by apply line_found. }
  rewrite Hfirst. unfold line at 1. rewrite parse_request_line by (rewrite ?Hreq; done). cbn [negb].
  rewrite headers_read by (done || by rewrite Hreq).
  unfold add_headers. cbn [method path query_string headers body]. rewrite Hreq. cbn [headers body http_request_init app].
  rewrite app_assoc. rewrite take_body_announced by done.
  eexists. split; [reflexivity|]. split; [done|]. cbn [request keep_alive set const].
  match goal with |- context [http_request_get_header ?r ?n] => by destruct (http_request_get_header r n) end.
Qed.

(** ** Middleware and handlers *)

Section process.
Context (strftime : Z -> list Z) (user : Z -> Z -> mw_state -> MiddlewareResult * mw_state).
Context (handler : nat -> HttpRequest -> list RouteParam -> HttpResponse -> bool * HttpResponse).
Notation process_item := (process_item strftime user handler).

(** The bytes of a response whose head fits the buffer. *)
Definition response_text (res : HttpResponse) : list Z :=
  let room := (RESP_BUF_SIZE - length (response_head res))%nat in
  let b := default [] (res_body res) in
  response_head res ++ (if (length b <? room)%nat then b else take (room - 1) b).

Lemma response_sent res : (length (response_head res) < RESP_BUF_SIZE)%nat ->
  http_serialize_response res RESP_BUF_SIZE = Some (response_text res, length (response_text res)) /\
  (0 < length (response_text res) <= RESP_BUF_SIZE)%nat.
Proof.
  intros Hfit. split; [by apply http_serialize_response_correct|]. unfold response_text. rewrite length_app.
  assert (Hpos : (0 < length (response_head res))%nat) by (unfold response_head, status_line; rewrite !length_app; cbn; lia).
  destruct (Nat.ltb_spec (length (default [] (res_body res))) (RESP_BUF_SIZE - length (response_head res))); rewrite ?length_take; lia.
Qed.

Lemma process_item_runs clock now chain router conn g ok req res g' res' acts : 0 <= fd conn -> closed conn = false ->
  run_chain strftime user clock chain conn g = (ok, req, res, g') -> run_router handler ok router req res = Some (res', acts) ->
  (length (response_head res') < RESP_BUF_SIZE)%nat ->
  exists conn', process_item clock now chain router conn g = Some (conn', g', acts ++ [Send (fd conn) (response_text res')]).
Proof.
  intros Hfd Hcl Hchain Hrouter Hfit. unfold process_item. rewrite (proj2 (Z.ltb_ge _ _)), Hcl by done. cbn [orb].
  rewrite Hchain, Hrouter. cbn [mbind option_bind]. destruct (response_sent res' Hfit) as [Hser Hlen]. rewrite Hser. cbn [mbind option_bind].
  rewrite (proj2 (Nat.ltb_ge _ _)), (proj2 (Nat.ltb_lt _ _)) by lia. by eexists.
Qed.

(** The response [middleware_auth_bearer] prepares. *)
Definition unauthorized (res : HttpResponse) : HttpResponse :=
  http_response_set_body_str (http_response_add_header (http_response_set_status res 401) (str_bytes "WWW-Authenticate") (str_bytes "Bearer"))
    (error_body "unauthorized").

(** Bearer authentication at the head of the chain does not protect a handler:
    it stops the chain, which counts as success, and the worker calls the handler of
    the route all the same, on the response prepared for the refusal. *)
Theorem auth_bearer_does_not_protect clock now chain rest r conn g h ps : entries chain = Some AuthBearer :: rest ->
  0 <= fd conn -> closed conn = false -> http_request_get_header (request conn) (str_bytes "Authorization") = None ->
  router_dispatch r (method (request conn)) (path (request conn)) = Some (Some (h, ps)) ->
  let res := (handler h (request conn) ps (unauthorized (response conn))).2 in
  (length (response_head res) < RESP_BUF_SIZE)%nat ->
  exists conn' g', process_item clock now chain (Some r) conn g =
    Some (conn', g', [Handle h (request conn) ps; Send (fd conn) (response_text res)]).
Proof.
  intros Hchain Hfd Hcl Hauth Hroute res Hfit.
  destruct (process_item_runs clock now chain (Some r) conn g true (request conn) (unauthorized (response conn)) g res [Handle h (request conn) ps])
    as [conn' Hp]; [done|done| |by unfold run_router; rewrite Hroute|done|by exists conn', g].
  unfold run_chain, middleware_chain_execute. rewrite Hchain. cbn [length Nat.ltb Nat.leb chain_loop run_middleware].
  assert (Hget : forall s, mw_req s = request conn -> get_header s "Authorization" = None) by (intros s Hs; unfold get_header; by rewrite Hs).
  unfold middleware_auth_bearer. by rewrite Hget.
Qed.

(** A request that no route matches is answered with 200 OK and an empty body:
    the result of the router is ignored. *)
Theorem unmatched_request_gets_200 clock now r conn g : 0 <= fd conn -> closed conn = false ->
  response conn = http_response_init -> router_dispatch r (method (request conn)) (path (request conn)) = Some None ->
  exists conn', process_item clock now middleware_chain_init (Some r) conn g =
    Some (conn', g, [Send (fd conn) (str_bytes "HTTP/1.1 200 OK" ++ crlf ++ crlf)]).
Proof.
  intros Hfd Hcl Hres Hroute.
  assert (Hfit : (length (response_head http_response_init) < RESP_BUF_SIZE)%nat) by (apply Nat.ltb_lt; vm_compute; reflexivity).
  destruct (process_item_runs clock now middleware_chain_init (Some r) conn g true (request conn) http_response_init g http_response_init [])
    as [conn' Hp]; [done|done|unfold run_chain; cbn; by rewrite Hres|by unfold run_router; rewrite Hroute|done|].
  exists conn'. rewrite Hp. do 2 f_equal.
Qed.
End process.

(** ** Slots of closed connections *)

Lemma count_if_insert_le {A} (p : A -> bool) l i x y : l !! i = Some y -> (p y = true -> p x = true) ->
  (count_if p l <= count_if p (<[i:=x]> l))%nat.
Proof.
  revert i. induction l as [|a l IH]; intros [|i] Hl Hp; try done; cbn in Hl.
  - injection Hl as ->. cbn. unfold count_if. cbn. destruct (p y); [by rewrite Hp|]. destruct (p x); cbn; lia.
  - specialize (IH i Hl Hp). unfold count_if in *. cbn. destruct (p a); cbn; [apply le_n_S|]; exact IH.
Qed.
Lemma take_insert_any {A} n i (x : A) l : take n (<[i:=x]> l) = <[i:=x]> (take n l).
Proof.
  revert n i. induction l as [|a l IH]; intros [|n] [|i]; cbn; try done. f_equal. apply IH.
Qed.

(** Moving the last of the first [n] elements to place [i]. *)
Lemma take_swap_remove {A} n (l : list A) i : (i < n <= length l)%nat ->
  take (n - 1) match l !! (n - 1)%nat with Some last => if (i <? n - 1)%nat then <[i:=last]> l else l | None => l end = swap_remove i (take n l).
Proof.
  intros Hi. unfold swap_remove. rewrite last_lookup, length_take, Nat.min_l by lia.
  destruct n as [|n]; [lia|]. cbn [pred]. rewrite lookup_take_lt by lia. replace (S n - 1)%nat with n by lia.
  destruct (lookup_lt_is_Some_2 l n) as [x Hx]; [lia|]. rewrite Hx. destruct (Nat.ltb_spec i n).
  - by rewrite !take_insert_any, take_take, Nat.min_l by lia.
  - replace i with n by lia. by rewrite !take_insert_any, take_take, Nat.min_l, list_insert_ge by (rewrite ?length_take; lia).
Qed.

Definition live (srv : Server) : list Connection := take (conn_count srv) (connections srv).
Definition count_closed (srv : Server) : nat := count_if closed (live srv).
Definition table_ok (srv : Server) : Prop := (conn_count srv <= length (connections srv))%nat.
(** The table after a step: as long as before, and no closed connection is gone. *)
Definition keeps_closed (srv srv' : Server) : Prop :=
  table_ok srv' /\ length (connections srv') = length (connections srv) /\ (count_closed srv <= count_closed srv')%nat.

Lemma keeps_trans a b c : keeps_closed a b -> keeps_closed b c -> keeps_closed a c.
Proof. intros (H1 & H2 & H3) (H4 & H5 & H6). split; [done|]. split; [congruence|lia]. Qed.
Lemma keeps_same a b : table_ok a -> connections b = connections a -> conn_count b = conn_count a -> keeps_closed a b.
Proof. intros Hok Hc Hn. unfold keeps_closed, table_ok, count_closed, live in *. rewrite Hc, Hn. done. Qed.

Lemma keeps_insert srv srv' i c c' : table_ok srv -> connections srv !! i = Some c -> (closed c = true -> closed c' = true) ->
  connections srv' = <[i := c']> (connections srv) -> conn_count srv' = conn_count srv -> keeps_closed srv srv'.
Proof.
  intros Hok Hc Himp Hcs Hn. unfold keeps_closed, table_ok, count_closed, live in *. rewrite Hcs, Hn, length_insert. split; [done|]. split; [done|].
  rewrite take_insert_any. destruct (decide (i < conn_count srv)%nat).
  - apply (count_if_insert_le closed _ i c' c); [by rewrite lookup_take_lt by done|done].
  - rewrite list_insert_ge by (rewrite length_take; lia). done.
Qed.

Lemma keeps_remove srv i c : table_ok srv -> connections srv !! i = Some c -> closed c = false -> (i < conn_count srv)%nat ->
  keeps_closed srv (server_remove_connection srv (Z.of_nat i)).
Proof.
  intros Hok Hc Hcl Hi. unfold server_remove_connection. rewrite (proj2 (Z.ltb_ge _ _)), (proj2 (Z.leb_gt _ _)) by lia. cbn [orb].
  cbv zeta. rewrite Nat2Z.id. set (release := fun conn : Connection => _). set (srv1 := srv <| connections ::= alter release i |>).
  assert (Hc1 : connections srv1 = alter release i (connections srv)) by done. assert (Hn1 : conn_count srv1 = conn_count srv) by done.
  assert (Hlen : length (connections srv1) = length (connections srv)) by by rewrite Hc1, length_alter.
  pose proof (take_swap_remove (conn_count srv) (connections srv1) i ltac:(rewrite Hlen; unfold table_ok in Hok; lia)) as Hswap.
  assert (Hlook : take (conn_count srv) (connections srv1) !! i = Some (release c)).
  { rewrite lookup_take_lt by done. rewrite Hc1, list_lookup_alter_eq, Hc. done. }
  pose proof (swap_remove_Permutation i _ _ Hlook) as Hperm. rewrite <- Hswap in Hperm.
  assert (Hcount : (count_closed srv <= count_if closed (take (conn_count srv) (connections srv1)))%nat).
  { unfold count_closed, live. rewrite Hc1, (alter_insert release i c), take_insert_any by done.
    apply (count_if_insert_le closed _ i (release c) c); [by rewrite lookup_take_lt by done|done]. }
  unfold count_if in Hcount. rewrite (filter_bool_Permutation closed _ _ Hperm) in Hcount. cbn [List.filter] in Hcount.
  change (closed (release c)) with (closed c) in Hcount. rewrite Hcl in Hcount. rewrite Hn1.
  destruct (connections srv1 !! (conn_count srv - 1)%nat) as [last|]; [destruct (i <? conn_count srv - 1)%nat|]; split_and!;
    unfold table_ok, count_closed, live, count_if in *; cbn [connections conn_count set] in *; cbn; rewrite ?length_insert, ?length_alter; try done; try lia.
Qed.

Section leak.
Context (strftime : Z -> list Z) (user : Z -> Z -> mw_state -> MiddlewareResult * mw_state).
Context (handler : nat -> HttpRequest -> list RouteParam -> HttpResponse -> bool * HttpResponse).
Notation server_step := (server_step strftime user handler).
Notation server_run := (server_run strftime user handler).

Lemma parse_closed conn : closed (parse_http_request conn).2 = closed conn.
Proof.
  unfold parse_http_request. destruct (strstr_before (crlf ++ crlf) (cstr (recv_buf conn))); [|done].
  destruct (strstr_before crlf (cstr (recv_buf conn))); [|done]. by destruct (http_parse_request_line _ _) as [[] req].
Qed.

Lemma process_closed clock now chain router conn g conn' g' acts :
  process_item strftime user handler clock now chain router conn g = Some (conn', g', acts) -> closed conn = true -> closed conn' = true.
Proof. unfold process_item. intros H Hc. rewrite Hc, orb_true_r in H. by injection H as <- _ _. Qed.

Lemma reap_keeps now n : forall srv, table_ok srv -> (n <= conn_count srv)%nat -> keeps_closed srv (reap_loop now n srv).1.
Proof.
  induction n as [|i IH]; intros srv Hok Hn; cbn [reap_loop]; [by apply keeps_same|].
  destruct (connections srv !! i) as [c|] eqn:Hc; [|apply IH; [done|lia]]. destruct (is_idle now srv c) eqn:Hidle; [|apply IH; [done|lia]].
  assert (Hcl : closed c = false).
  { unfold is_idle in Hidle. apply andb_true_iff in Hidle as [[_ H]%andb_true_iff _]. by apply negb_true_iff in H. }
  pose proof (keeps_remove srv i c Hok Hc Hcl ltac:(lia)) as Hk. eapply keeps_trans; [exact Hk|].
  assert (Hcnt : conn_count (server_remove_connection srv (Z.of_nat i)) = (conn_count srv - 1)%nat).
  { unfold server_remove_connection. rewrite (proj2 (Z.ltb_ge _ _)), (proj2 (Z.leb_gt _ _)) by lia. cbn [orb]. cbv zeta. case_match; [case_match|]; done. }
  specialize (IH (server_remove_connection srv (Z.of_nat i)) (proj1 Hk) ltac:(lia)).
  by destruct (reap_loop now i _).
Qed.

Lemma receive_keeps i bytes now srv srv' c : table_ok srv -> connections srv !! i = Some c -> (i < conn_count srv)%nat -> closed c = false ->
  receive i bytes now srv = Some srv' -> keeps_closed srv srv'.
Proof.
  intros Hok Hc Hi Hcl. unfold receive. rewrite Hc. cbn [mbind option_bind].
  destruct (take _ bytes) as [|b bs]; [intros [= <-]; by apply (keeps_remove srv i c)|].
  set (c1 := c <| recv_buf ::= _ |> <| last_activity := now |>). pose proof (parse_closed c1) as Hpc.
  destruct (parse_http_request c1) as [rc c2]. cbn [snd] in Hpc. change (closed c1) with (closed c) in Hpc.
  set (srv1 := srv <| connections ::= <[i := c2]> |>).
  assert (Hk1 : keeps_closed srv srv1) by (apply (keeps_insert srv srv1 i c c2); [done|done|congruence|done|done]).
  assert (Hlook : connections srv1 !! i = Some c2) by (apply list_lookup_insert_eq; unfold table_ok in Hok; lia).
  destruct (rc =? 0).
  { unfold thread_pool_submit. destruct (_ <=? _)%nat; [done|]. intros [= <-]. eapply keeps_trans; [exact Hk1|]. by apply keeps_same; [apply Hk1| |]. }
  destruct (rc =? -2); [|by intros [= <-]]. intros ([text rlen] & _ & [= <-])%bind_Some. eapply keeps_trans; [exact Hk1|].
  destruct (0 <? rlen)%nat; [|apply (keeps_remove srv1 i c2); [apply Hk1|done|congruence|done]].
  set (srv2 := srv1 <| actions ::= _ |>). assert (Hk2 : keeps_closed srv1 srv2) by (apply keeps_same; [apply Hk1|done|done]).
  eapply keeps_trans; [exact Hk2|]. apply (keeps_remove srv2 i c2); [apply Hk2|done|congruence|done].
Qed.

Lemma server_step_keeps e srv srv' : table_ok srv -> server_step e srv = Some srv' -> keeps_closed srv srv'.
Proof.
  intros Hok. destruct e as [cfd now|i bytes now|now|clock now]; cbn [Server.server_step].
  - unfold server_add_connection. destruct (Nat.leb_spec (length (connections srv)) (conn_count srv)); intros [= <-]; [by apply keeps_same|].
    unfold keeps_closed, table_ok, count_closed, live, set. cbn [connections conn_count]. rewrite length_insert. split; [lia|]. split; [done|].
    destruct (lookup_lt_is_Some_2 (connections srv) (conn_count srv)) as [x Hx]; [lia|]. rewrite take_insert_any, (take_S_r _ _ x) by done.
    rewrite insert_app_r_alt by (rewrite length_take; lia). rewrite length_take, Nat.min_l, Nat.sub_diag by lia. rewrite count_if_app. lia.
  - intros (c & Hc & H)%bind_Some. destruct (Nat.leb_spec (conn_count srv) i); cbn [orb] in H; [injection H as <-; by apply keeps_same|].
    destruct (fd c <? 0); cbn [orb] in H; [injection H as <-; by apply keeps_same|].
    destruct (closed c) eqn:Hcl; [injection H as <-; by apply keeps_same|]. by apply (receive_keeps i bytes now srv srv' c).
  - intros [= <-]. by apply reap_keeps.
  - destruct (pool_queue srv) as [|i q]; [intros [= <-]; by apply keeps_same|].
    intros (c & Hc & ([[c' g'] acts] & Hp & [= <-])%bind_Some)%bind_Some.
    apply (keeps_insert srv _ i c c'); [done|done| |done|done]. intros Hcl. by eapply process_closed.
Qed.

(** The slot of a connection that a worker closed is never given back: no event
    lowers the number of closed connections in the table.  So once every slot holds
    one, every later client is turned away with 503, whatever happens in between. *)
Theorem server_closed_slots_leak es srv srv' : table_ok srv -> server_run es srv = Some srv' ->
  (count_closed srv <= count_closed srv')%nat /\
  (count_closed srv = length (connections srv) -> forall client_fd now,
   server_step (Accept client_fd now) srv' = Some (srv' <| actions ::= fun l => l ++
     [Send client_fd (str_bytes "HTTP/1.1 503 Service Unavailable" ++ crlf ++ str_bytes "Content-Length: 0" ++ crlf ++ crlf)] |>)).
Proof.
  intros Hok Hrun. assert (Hk : keeps_closed srv srv').
  { revert srv Hok Hrun. induction es as [|e es IH]; intros srv Hok; cbn [Server.server_run]; [intros [= <-]; by apply keeps_same|].
    intros (srv1 & H1 & Hrun)%bind_Some. apply server_step_keeps in H1; [|done]. eapply keeps_trans; [exact H1|]. apply IH; [apply H1|done]. }
  destruct Hk as (Hok' & Hlen & Hcount). split; [done|]. intros Hfull client_fd now.
  assert (Hle : (count_closed srv' <= conn_count srv')%nat).
  { unfold count_closed, live, count_if. pose proof (List.filter_length_le closed (take (conn_count srv') (connections srv'))). rewrite length_take in *. lia. }
  cbn [Server.server_step]. unfold server_add_connection. unfold table_ok in Hok'. by rewrite (proj2 (Nat.leb_le _ _)) by lia.
Qed.
End leak.

(** ** Examples *)

(** Handlers that leave the response as it is, or answer with their number. *)
Definition echo_handler (h : nat) (req : HttpRequest) (ps : list RouteParam) (res : HttpResponse) : bool * HttpResponse :=
  (true, http_response_set_body_str (http_response_set_status res 200) (print_lld (Z.of_nat h))).
Definition no_strftime (t : Z) : list Z := [].
Definition no_user (f now : Z) (s : mw_state) : MiddlewareResult * mw_state := (MIDDLEWARE_NEXT, s).
Definition example_router : RouteNode := (router_add router_create HTTP_GET (str_bytes "/admin") 7).2.
Definition example_request (lines : list string) : list Z := concat ((fun l => str_bytes l ++ crlf) <$> lines) ++ crlf.
Definition example_conn (req : HttpRequest) : Connection := mk_conn 4 0 [] req http_response_init true false.
Definition run_server (slots : nat) (chain : MiddlewareChain) (es : list event) : option Server :=
  server_run no_strftime no_user echo_handler es
    (mk_server (replicate slots conn_empty) 0 SERVER_KEEPALIVE_TIMEOUT (Some example_router) chain [] globals_init []).
Definition now0 (i : nat) : Z := 0.

Lemma http_request_roundtrip_witness :
  let hs := [mk_header (str_bytes "Host") (str_bytes "a.b"); mk_header (str_bytes "Content-Length") (str_bytes "3")] in
  let buf := request_text HTTP_POST (str_bytes "/x y") (Some (str_bytes "k=1")) (str_bytes "HTTP/1.1") hs [1; 0; 2] in
  exists conn', parse_http_request (mk_conn 4 0 buf http_request_init http_response_init true false) = (0, conn') /\
    request conn' = mk_request HTTP_POST (str_bytes "/x y") (str_bytes "k=1") hs [1; 0; 2].
Proof.
  intros hs buf.
  destruct (http_request_roundtrip (mk_conn 4 0 buf http_request_init http_response_init true false)
    HTTP_POST (str_bytes "/x y") (Some (str_bytes "k=1")) (str_bytes "HTTP/1.1") hs [1; 0; 2]) as (conn' & H1 & H2 & _).
  - constructor; [split; [|discriminate]| |vm_compute; lia];
      (apply Forall_forall; intros c Hc%list_elem_of_In; vm_compute in Hc; unfold word_char, char_ok;
       repeat destruct Hc as [<-|Hc]; try (split; [lia|reflexivity]); lia || done).
  - apply Forall_forall; intros c Hc%list_elem_of_In; vm_compute in Hc; unfold word_char, char_ok.
    repeat destruct Hc as [<-|Hc]; try (split; [lia|reflexivity]); done.
  - assert (Hh : forall h, h ∈ hs -> 58 ∉ name h /\ skip_blanks (value h) = value h /\ trim_end (value h) = value h /\
      (length (name h) < HTTP_MAX_HEADER_NAME)%nat /\ (length (value h) < HTTP_MAX_HEADER_VALUE)%nat /\
      Forall char_ok (header_text h) /\ 13 ∉ header_text h).
    { apply Forall_forall. apply (bool_decide_unpack _). vm_compute. exact I. }
    apply Forall_forall. intros h Hin. destruct (Hh h Hin) as (? & ? & ? & ? & ? & ? & ?). by repeat split.
  - vm_compute. lia.
  - vm_compute. by split.
  - reflexivity.
  - reflexivity.
  - by exists conn'.
Defined.

Lemma auth_bearer_does_not_protect_witness :
  let req := mk_request HTTP_GET (str_bytes "/admin") [] [] [] in
  let chain := (middleware_chain_add middleware_chain_init (Some AuthBearer) NULL).2 in
  exists conn' g' text, process_item no_strftime no_user echo_handler now0 0 chain (Some example_router) (example_conn req) globals_init =
    Some (conn', g', [Handle 7 req []; Send 4 text]).
Proof.
  intros req chain.
  destruct (auth_bearer_does_not_protect no_strftime no_user echo_handler now0 0 chain [] example_router (example_conn req) globals_init 7 [])
    as (conn' & g' & H); [reflexivity|vm_compute; discriminate|reflexivity|reflexivity|vm_compute; reflexivity| |].
  - apply Nat.ltb_lt. vm_compute. reflexivity.
  - by exists conn', g', (response_text (echo_handler 7 req [] (unauthorized http_response_init)).2).
Defined.

Lemma unmatched_request_gets_200_witness :
  exists conn', process_item no_strftime no_user echo_handler now0 0 middleware_chain_init (Some example_router)
      (example_conn (mk_request HTTP_GET (str_bytes "/nothing") [] [] [])) globals_init =
    Some (conn', globals_init, [Send 4 (str_bytes "HTTP/1.1 200 OK" ++ crlf ++ crlf)]).
Proof.
  apply (unmatched_request_gets_200 no_strftime no_user echo_handler now0 0 example_router
    (example_conn (mk_request HTTP_GET (str_bytes "/nothing") [] [] [])) globals_init); try reflexivity. vm_compute. discriminate.
Defined.

(** One client asks to close its connection; the server with one slot serves nobody
    else, even long after. *)
Lemma server_closed_slots_leak_witness :
  let srv := default server_init (run_server 1 middleware_chain_init
    [Accept 4 0; Receive 0 (example_request ["GET /admin HTTP/1.1"; "Connection: close"]) 0; Work now0 0]%string) in
  exists srv', server_run no_strftime no_user echo_handler [Reap 1000; Work now0 1000] srv = Some srv' /\
    (actions <$> server_step no_strftime no_user echo_handler (Accept 9 2000) srv') =
    Some (actions srv' ++ [Send 9 (str_bytes "HTTP/1.1 503 Service Unavailable" ++ crlf ++ str_bytes "Content-Length: 0" ++ crlf ++ crlf)]).
Proof.
  intros srv. set (srv' := (default server_init (server_run no_strftime no_user echo_handler [Reap 1000; Work now0 1000] srv))).
  assert (Hrun : server_run no_strftime no_user echo_handler [Reap 1000; Work now0 1000] srv = Some srv') by (vm_compute; reflexivity).
  exists srv'. split; [exact Hrun|].
  destruct (server_closed_slots_leak no_strftime no_user echo_handler [Reap 1000; Work now0 1000] srv srv') as [_ H];
    [vm_compute; lia|exact Hrun|]. rewrite H; [reflexivity|vm_compute; reflexivity].
Defined.

(** A body that arrives in a second packet is not part of the request: the handler
    sees an empty body. *)
Example server_body_in_second_packet_lost :
  let router := (router_add router_create HTTP_POST (str_bytes "/p") 3).2 in
  let head := example_request ["POST /p HTTP/1.1"; "Content-Length: 2"]%string in
  (fun srv => match actions srv with Handle 3 req _ :: _ => Some (body req) | _ => None end) <$>
    server_run no_strftime no_user echo_handler [Accept 4 0; Receive 0 head 0; Work now0 0; Receive 0 (str_bytes "hi") 0; Work now0 0]
      (mk_server (replicate 2 conn_empty) 0 15 (Some router) middleware_chain_init [] globals_init []) = Some (Some []).
Proof. vm_compute. reflexivity. Qed.

(** If the second packet comes before a worker is free, one request is answered
    twice. *)
Example server_answers_twice :
  let head := example_request ["GET /admin HTTP/1.1"]%string in
  (fun srv => length (List.filter (fun a => match a with Send 4 _ => true | _ => false end) (actions srv))) <$>
    run_server 2 middleware_chain_init [Accept 4 0; Receive 0 head 0; Receive 0 (str_bytes "x") 0; Work now0 0; Work now0 0] = Some 2%nat.
Proof. vm_compute. reflexivity. Qed.

(** A work item names a slot: when its client hangs up before a worker is free, the
    slot is taken by the last connection, and a client that asked nothing gets a
    response. *)
Example server_answers_wrong_client :
  let head := example_request ["GET /admin HTTP/1.1"]%string in
  actions <$> run_server 2 middleware_chain_init [Accept 4 0; Accept 5 0; Receive 0 head 0; Receive 0 [] 0; Work now0 0] =
  Some [Send 5 (str_bytes "HTTP/1.1 200 OK" ++ crlf ++ crlf)].
Proof. vm_compute. reflexivity. Qed.
