(* ===== verification/Session.v ===== *)
(** Model of [mini-web-server/src/session.c]: the session store, session variables,
    cookies and the middleware that loads a session.

    A [Session *] is the index of its slot.  [time(NULL)] and [rand()] are
    arguments; the static counter of the id generator is part of the state.  The
    date text of [strftime] is a parameter.  [None] where a result is expected
    stands for a write past the cookie buffer. *)

From S2P Require Import Prelude Bytes HttpCore Middleware.

Definition SESSION_MAX_COUNT : nat := 1024.
Definition SESSION_ID_LEN : nat := 64.
Definition SESSION_MAX_KEY_LEN : nat := 128.
Definition SESSION_MAX_VAL_LEN : nat := 4096.
Definition SESSION_MAX_VARS : nat := 32.
Definition SESSION_DEFAULT_TTL : Z := 1800.

Record SessionVar := mk_var { var_key : list Z; var_value : list Z }.
Record Session := mk_session {
  session_id : list Z; vars : list SessionVar; created_at : Z; last_access : Z; expires_at : Z; active : bool;
}.
(** [count] is the length of [sessions]. *)
Record SessionStore := mk_store {
  sessions : list Session; default_ttl : Z; cookie_name : list Z; cookie_path : list Z; cookie_domain : list Z;
  cookie_secure : bool; cookie_http_only : bool; id_counter : Z;
}.

Definition generate_session_id (buf_sz : nat) (now rnd counter : Z) : list Z :=
  truncated buf_sz
    (print_hex 8 (Z.land (u64 now) 0xFFFFFFFF) ++ print_hex 4 (Z.land (Z.shiftr (u64 now) 32) 0xFFFF)
      ++ print_hex 4 (Z.land rnd 0xFFFF) ++ print_hex 4 (Z.land (Z.shiftr rnd 16) 0xFFFF) ++ print_hex 12 counter).

(** [counter]: the static counter, which [session_store_init] does not touch. *)
Definition session_store_init (counter : Z) : SessionStore :=
  mk_store [] SESSION_DEFAULT_TTL (str_bytes "SESSID") (str_bytes "/") [] false true counter.
Definition session_store_set_ttl (store : SessionStore) (ttl_seconds : Z) : SessionStore :=
  if 0 <? ttl_seconds then store <| default_ttl := ttl_seconds |> else store.
Definition session_store_set_cookie (store : SessionStore) (name path domain : option (list Z)) (secure http_only : bool) : SessionStore :=
  let store := match name with Some n => store <| cookie_name := truncated 64 n |> | None => store end in
  let store := match path with Some p => store <| cookie_path := truncated 256 p |> | None => store end in
  let store := match domain with Some d => store <| cookie_domain := truncated 256 d |> | None => store end in
  store <| cookie_secure := secure |> <| cookie_http_only := http_only |>.

(** ** Sessions *)

(** [now1] is read for the id, [now2] for the times. *)
Definition session_create (store : SessionStore) (now1 now2 rnd : Z) : option nat * SessionStore :=
  if (SESSION_MAX_COUNT <=? length (sessions store))%nat then (None, store)
  else
    let counter := u64 (id_counter store + 1) in
    let s := mk_session (generate_session_id SESSION_ID_LEN now1 rnd counter) [] now2 now2 (now2 + default_ttl store) true in
    (Some (length (sessions store)), store <| sessions ::= fun l => l ++ [s] |> <| id_counter := counter |>).

(** The loop marks expired sessions on its way. *)
Fixpoint get_loop (now : Z) (id : list Z) (l : list Session) : option nat * list Session :=
  match l with
  | [] => (None, [])
  | s :: l' =>
      let skip s := let '(r, l'') := get_loop now id l' in (S <$> r, s :: l'') in
      if negb (active s) then skip s
      else if expires_at s <? now then skip (s <| active := false |>)
      else if bool_decide (session_id s = id) then (Some O, (s <| last_access := now |>) :: l')
      else skip s
  end.
Definition session_get (store : SessionStore) (id : list Z) (now : Z) : option nat * SessionStore :=
  let '(r, l) := get_loop now id (sessions store) in (r, store <| sessions := l |>).
Definition session_destroy (store : SessionStore) (id : list Z) (now : Z) : bool * SessionStore :=
  let '(r, store) := session_get store id now in
  match r with
  | Some i => (true, store <| sessions ::= alter (fun s => s <| active := false |>) i |>)
  | None => (false, store)
  end.

Definition dead (now : Z) (s : Session) : bool := negb (active s) || (expires_at s <? now).
(** From the last session to the first; the last one takes the place of a dead one. *)
Fixpoint cleanup_loop (now : Z) (n : nat) (l : list Session) (removed : Z) : Z * list Session :=
  match n with
  | O => (removed, l)
  | S i =>
      match l !! i with
      | Some s => if dead now s then cleanup_loop now i (swap_remove i l) (removed + 1) else cleanup_loop now i l removed
      | None => cleanup_loop now i l removed
      end
  end.
Definition session_store_cleanup (store : SessionStore) (now : Z) : Z * SessionStore :=
  let '(removed, l) := cleanup_loop now (length (sessions store)) (sessions store) 0 in (removed, store <| sessions := l |>).

(** ** Variables *)

Definition find_var (s : Session) (k : list Z) : option nat := find_idx (fun v => bool_decide (var_key v = k)) (vars s).
Definition session_var_set (s : Session) (k v : list Z) : bool * Session :=
  match find_var s k with
  | Some i => (true, s <| vars ::= alter (fun x => x <| var_value := truncated SESSION_MAX_VAL_LEN v |>) i |>)
  | None =>
      if (SESSION_MAX_VARS <=? length (vars s))%nat then (false, s)
      else (true, s <| vars ::= fun l => l ++ [mk_var (truncated SESSION_MAX_KEY_LEN k) (truncated SESSION_MAX_VAL_LEN v)] |>)
  end.
Definition session_var_get (s : Session) (k : list Z) : option (list Z) := i ← find_var s k; var_value <$> vars s !! i.
Definition session_var_remove (s : Session) (k : list Z) : bool * Session :=
  match find_var s k with
  | Some i => (true, s <| vars ::= swap_remove i |>)
  | None => (false, s)
  end.
Definition session_clear (s : Session) : Session := s <| vars := [] |>.

(** ** Cookies *)

Fixpoint skip_separators (s : list Z) : list Z :=
  match s with c :: s' => if (c =? 32) || (c =? 59) then skip_separators s' else s | [] => [] end.
Fixpoint skip_to_semicolon (s : list Z) : list Z :=
  match s with c :: s' => if c =? 59 then s else skip_to_semicolon s' | [] => [] end.
Fixpoint skip_char (x : Z) (s : list Z) : list Z :=
  match s with c :: s' => if c =? x then skip_char x s' else s | [] => [] end.
(** At most [room] characters up to one of [stop]. *)
Fixpoint take_value (room : nat) (stop : Z -> bool) (s : list Z) : list Z :=
  match room, s with
  | S r, c :: s' => if stop c then [] else c :: take_value r stop s'
  | _, _ => []
  end.
Definition cookie_value (id_sz : nat) (p : list Z) : list Z :=
  match skip_char 32 p with
  | 34 :: p' => take_value (id_sz - 1) (fun c => (c =? 34) || (c =? 59)) p'
  | p' => take_value (id_sz - 1) (fun c => (c =? 59) || (c =? 32)) p'
  end.
(** The value found, which is empty when the function returns false after all. *)
Fixpoint cookie_loop (fuel : nat) (name : list Z) (id_sz : nat) (p : list Z) : option (list Z) :=
  match fuel with
  | O => None
  | S fuel' =>
      match skip_separators p with
      | [] => None
      | p' =>
          match starts_with (name ++ [61]) p' with
          | Some rest => Some (cookie_value id_sz rest)
          | None => cookie_loop fuel' name id_sz (skip_to_semicolon p')
          end
      end
  end.
Definition session_parse_cookie (req : HttpRequest) (name : list Z) (id_sz : nat) : option (list Z) :=
  if (id_sz =? 0)%nat then None
  else
    hdr ← http_request_get_header req (str_bytes "Cookie");
    v ← cookie_loop (S (length hdr)) name id_sz hdr;
    match v with [] => None | _ => Some v end.

Definition session_build_set_cookie (strftime : Z -> list Z) (store : SessionStore) (s : Session) (res : HttpResponse) : option HttpResponse :=
  let field (k : string) (v : list Z) := str_bytes k ++ v in
  st ← sprint_all 512 ([], O)
    ([cookie_name store ++ [61] ++ session_id s]
      ++ (match cookie_path store with [] => [] | p => [field "; Path="%string p] end)
      ++ (match cookie_domain store with [] => [] | d => [field "; Domain="%string d] end)
      ++ [field "; Expires="%string (strftime (expires_at s))]
      ++ (if cookie_secure store then [str_bytes "; Secure"] else [])
      ++ (if cookie_http_only store then [str_bytes "; HttpOnly"] else [])
      ++ [str_bytes "; SameSite=Lax"]);
  Some (http_response_add_header res (str_bytes "Set-Cookie") st.1).

(** ** Middleware *)

(** [ctx->user_data] must point to the store; then it points to the session. *)
Definition session_middleware_loader (store : SessionStore) (now : Z) (s : mw_state) : MiddlewareResult * mw_state * SessionStore :=
  match user_data (mw_ctx s) with
  | ToSessionStore =>
      match session_parse_cookie (mw_req s) (cookie_name store) SESSION_ID_LEN with
      | Some sid =>
          let '(r, store) := session_get store sid now in
          match r with
          | Some i => (MIDDLEWARE_NEXT, s <| mw_ctx := (mw_ctx s) <| user_data := ToSession i |> |>, store)
          | None => (MIDDLEWARE_NEXT, s, store)
          end
      | None => (MIDDLEWARE_NEXT, s, store)
      end
  | _ => (MIDDLEWARE_NEXT, s, store)
  end.

(** * Properties *)



(** ** Identifiers *)

(** The number an identifier ends with. *)
Definition id_number (id : list Z) : Z := hex_number (drop 20 id).

Lemma generate_id_number now rnd counter : 0 <= counter < 2 ^ 64 -> id_number (generate_session_id SESSION_ID_LEN now rnd counter) = counter.
Proof.
  intros Hc. unfold generate_session_id. change 0xFFFFFFFF with (2 ^ 32 - 1). change 0xFFFF with (2 ^ 16 - 1). rewrite !land_ones by lia.
  assert (Hpart : forall w x k, 2 ^ k = 16 ^ Z.of_nat w -> (0 < w)%nat -> length (print_hex w (x mod 2 ^ k)) = w).
  { intros w x k Hk Hw. apply print_hex_length; [|done]. rewrite <- Hk. apply Z.mod_pos_bound. rewrite Hk. apply Z.pow_pos_nonneg; lia. }
  set (a := print_hex 8 _). set (b := print_hex 4 _). set (c := print_hex 4 (rnd mod _)). set (d := print_hex 4 (Z.shiftr rnd 16 mod _)).
  assert (Ha : length a = 8%nat) by (by apply (Hpart 8%nat _ 32); [|lia]). assert (Hb : length b = 4%nat) by (by apply (Hpart 4%nat _ 16); [|lia]).
  assert (Hcl : length c = 4%nat) by (by apply (Hpart 4%nat _ 16); [|lia]). assert (Hd : length d = 4%nat) by (by apply (Hpart 4%nat _ 16); [|lia]).
  assert (He : (length (print_hex 12 counter) <= 16)%nat).
  { unfold print_hex, zero_pad. rewrite length_app, length_replicate. pose proof (hex_digits_length 16 16 counter ltac:(change (16 ^ Z.of_nat 16) with (2 ^ 64); lia) ltac:(lia)). lia. }
  rewrite truncated_id by (rewrite !length_app; unfold SESSION_ID_LEN; lia).
  unfold id_number. rewrite !app_assoc, drop_app_length' by (rewrite !length_app; lia). by apply print_hex_value.
Qed.

(** ** The store as a map from identifiers to expiry times *)

Definition alive (t : Z) (s : Session) : bool := active s && (t <=? expires_at s).

Lemma get_loop_spec now id l : let '(r, l') := get_loop now id l in
  Forall2 (fun s s' => session_id s' = session_id s /\ expires_at s' = expires_at s /\ forall t, now <= t -> alive t s' = alive t s) l l' /\
  match r with
  | Some i => exists s, l !! i = Some s /\ alive now s = true /\ session_id s = id
  | None => forall s, s ∈ l -> session_id s = id -> alive now s = false
  end.
Proof.
  induction l as [|s l IH]; cbn [get_loop]; [by split; [|intros s Hs%elem_of_nil]|]. destruct (get_loop now id l) as [r l']. destruct IH as [IH1 IH2].
  assert (Hskip : forall s', session_id s' = session_id s -> expires_at s' = expires_at s -> (forall t, now <= t -> alive t s' = alive t s) ->
    (session_id s = id -> alive now s = false) ->
    Forall2 (fun s s' => session_id s' = session_id s /\ expires_at s' = expires_at s /\ forall t, now <= t -> alive t s' = alive t s) (s :: l) (s' :: l') /\
    match S <$> r with
    | Some i => exists s0, (s :: l) !! i = Some s0 /\ alive now s0 = true /\ session_id s0 = id
    | None => forall s0, s0 ∈ s :: l -> session_id s0 = id -> alive now s0 = false
    end).
  { intros s' H1 H2 H3 H4. split; [by constructor|]. destruct r as [i|]; cbn; [done|]. intros s0 [->|Hin]%elem_of_cons; [done|by apply IH2]. }
  destruct (active s) eqn:Ha; cbn [negb].
  - destruct (Z.ltb_spec (expires_at s) now).
    + assert (Hout : forall t, now <= t -> alive t s = false) by (intros t Ht; unfold alive; rewrite Ha; apply Z.leb_gt; lia).
      apply Hskip; [done|done| |]; intros; rewrite Hout by lia; done.
    + case_bool_decide as Hid; [|by apply Hskip].
      split; [|exists s; split; [done|]; split; [|done]; unfold alive; rewrite Ha; cbn; apply Z.leb_le; lia].
      constructor; [done|]. clear. induction l; by constructor.
  - apply Hskip; [done|done|done|]. unfold alive. by rewrite Ha.
Qed.

Lemma cleanup_loop_spec now n : forall l removed, (n <= length l)%nat -> (forall j s, (n <= j)%nat -> l !! j = Some s -> dead now s = false) ->
  let '(r, l') := cleanup_loop now n l removed in
  l' ≡ₚ List.filter (fun s => negb (dead now s)) l /\ r = removed + Z.of_nat (length l - length l').
Proof.
  induction n as [|i IH]; intros l removed Hn Hlive; cbn [cleanup_loop].
  - assert (Hall : List.filter (fun s => negb (dead now s)) l = l).
    { clear Hn. induction l as [|s l IHl]; [done|]. cbn. rewrite (Hlive 0%nat s (Nat.le_0_l _) eq_refl). cbn. f_equal. apply IHl.
      intros j x _ Hx. exact (Hlive (S j) x (Nat.le_0_l _) Hx). }
    rewrite Hall. split; [done|]. lia.
  - destruct (lookup_lt_is_Some_2 l i) as [s Hs]; [lia|]. rewrite Hs. destruct (dead now s) eqn:Hd.
    + pose proof (swap_remove_Permutation i s l Hs) as Hp. pose proof (swap_remove_length i s l Hs) as Hl.
      specialize (IH (swap_remove i l) (removed + 1) ltac:(lia)).
      destruct (cleanup_loop now i (swap_remove i l) (removed + 1)) as [r l'].
      destruct IH as [IH1 IH2].
      { intros j x Hj Hx. pose proof (lookup_lt_Some _ _ _ Hx). rewrite swap_remove_lookup in Hx by lia.
        case_decide; (eapply Hlive; [|exact Hx]); lia. }
      rewrite (filter_bool_Permutation _ _ _ Hp). cbn. rewrite Hd. cbn. split; [done|]. apply Permutation_length in IH1.
      assert (Hle : (length (List.filter (fun s => negb (dead now s)) (swap_remove i l)) <= length (swap_remove i l))%nat) by apply List.filter_length_le. lia.
    + apply IH; [lia|]. intros j x Hj Hx. destruct (decide (j = i)) as [->|]; [congruence|]. apply (Hlive j); [lia|done].
Qed.

Inductive store_op :=
  | Create (now1 now2 rnd : Z)
  | Get (id : list Z) (now : Z)
  | Destroy (id : list Z) (now : Z)
  | Cleanup (now : Z).
(** What a caller sees: the identifier of the session it is given, and the number of sessions a cleanup leaves. *)
Inductive store_result :=
  | Created (id : option (list Z))
  | Got (id : option (list Z))
  | Destroyed (found : bool)
  | Cleaned (kept : Z).
Definition op_time (op : store_op) : Z :=
  match op with Create _ now2 _ => now2 | Get _ now | Destroy _ now | Cleanup now => now end.
Definition id_at (store : SessionStore) (r : option nat) : option (list Z) := i ← r; session_id <$> sessions store !! i.
Definition store_step (store : SessionStore) (op : store_op) : store_result * SessionStore :=
  match op with
  | Create now1 now2 rnd => let '(r, store') := session_create store now1 now2 rnd in (Created (id_at store' r), store')
  | Get id now => let '(r, store') := session_get store id now in (Got (id_at store' r), store')
  | Destroy id now => let '(b, store') := session_destroy store id now in (Destroyed b, store')
  | Cleanup now =>
      let '(removed, store') := session_store_cleanup store now in (Cleaned (Z.of_nat (length (sessions store)) - removed), store')
  end.

(** The specification: a map from identifiers to expiry times. *)
Notation sessions_map := (gmap (list Z) Z).
Definition is_live (m : sessions_map) (id : list Z) (now : Z) : bool :=
  match m !! id with Some e => now <=? e | None => false end.
Definition spec_step (ttl : Z) (m : sessions_map) (op : store_op) (r : store_result) (m' : sessions_map) : Prop :=
  match op, r with
  | Create _ now2 _, Created (Some id) => m !! id = None /\ m' = <[id := now2 + ttl]> m
  | Create _ _ _, Created None => m' = m
  | Get id now, Got r => r = (if is_live m id now then Some id else None) /\ m' = m
  | Destroy id now, Destroyed b => b = is_live m id now /\ m' = (if b then delete id m else m)
  | Cleanup now, Cleaned kept => m' = filter (fun p => now <= p.2) m /\ kept = Z.of_nat (size m')
  | _, _ => False
  end.
Inductive spec_run (ttl : Z) : sessions_map -> list store_op -> list store_result -> sessions_map -> Prop :=
  | spec_run_nil m : spec_run ttl m [] [] m
  | spec_run_cons m op r m1 ops rs m2 :
      spec_step ttl m op r m1 -> spec_run ttl m1 ops rs m2 -> spec_run ttl m (op :: ops) (r :: rs) m2.
Fixpoint store_run (store : SessionStore) (ops : list store_op) : list store_result * SessionStore :=
  match ops with
  | [] => ([], store)
  | op :: ops' => let '(r, store1) := store_step store op in let '(rs, store2) := store_run store1 ops' in (r :: rs, store2)
  end.
(** The clock does not run backwards. *)
Fixpoint in_time (t : Z) (ops : list store_op) : Prop :=
  match ops with [] => True | op :: ops' => t <= op_time op /\ in_time (op_time op) ops' end.

Record store_rel (t : Z) (store : SessionStore) (m : sessions_map) : Prop := {
  sr_counter : 0 <= id_counter store;
  sr_ids : NoDup (session_id <$> sessions store);
  sr_old : forall s, s ∈ sessions store -> id_number (session_id s) <= id_counter store;
  sr_map_old : forall id e, m !! id = Some e -> id_number id <= id_counter store;
  sr_live : forall id e, t <= e ->
    m !! id = Some e <-> exists s, s ∈ sessions store /\ session_id s = id /\ active s = true /\ expires_at s = e;
}.

Lemma store_rel_mono t t' store m : store_rel t store m -> t <= t' -> store_rel t' store m.
Proof. intros [H1 H2 H3 H4 H5] Ht. split; [done..|]. intros id e He. apply H5. lia. Qed.

Lemma elem_alter {A} (f : A -> A) (i : nat) x (l : list A) y : l !! i = Some x ->
  y ∈ alter f i l <-> y = f x \/ exists j, j <> i /\ l !! j = Some y.
Proof.
  intros Hi. rewrite list_elem_of_lookup. split.
  - intros [j Hj]. destruct (decide (j = i)) as [->|Hne].
    + rewrite list_lookup_alter_eq, Hi in Hj. left. by injection Hj.
    + rewrite list_lookup_alter_ne in Hj by done. right. by exists j.
  - intros [->|(j & Hne & Hj)]; [exists i; by rewrite list_lookup_alter_eq, Hi|exists j; by rewrite list_lookup_alter_ne].
Qed.

Lemma session_create_step store m t now1 now2 rnd : store_rel t store m -> t <= now2 -> id_counter store + 1 < 2 ^ 64 ->
  let '(r, store') := store_step store (Create now1 now2 rnd) in
  exists m', spec_step (default_ttl store) m (Create now1 now2 rnd) r m' /\ store_rel now2 store' m' /\
    default_ttl store' = default_ttl store /\ id_counter store' <= id_counter store + 1.
Proof.
  intros HR Ht Hc. cbn [store_step]. unfold session_create. destruct (Nat.leb_spec SESSION_MAX_COUNT (length (sessions store))) as [|Hlt].
  - exists m. split; [done|]. split; [by eapply store_rel_mono|]. split; [done|lia].
  - destruct (store_rel_mono _ now2 _ _ HR Ht) as [H1 H2 H3 H4 H5]. unfold u64. rewrite Z.mod_small by lia.
    set (id := generate_session_id _ _ _ _).
    assert (Hid : id_number id = id_counter store + 1) by (apply generate_id_number; lia).
    assert (Hfresh : m !! id = None) by (destruct (m !! id) as [e|] eqn:He; [apply H4 in He; lia|done]).
    assert (Hnew : forall s, s ∈ sessions store -> session_id s <> id) by (intros s Hs Heq; apply H3 in Hs; rewrite Heq in Hs; lia).
    unfold id_at, set, const. cbn [sessions id_counter default_ttl mbind option_bind fmap option_fmap option_map spec_step].
    rewrite lookup_app_r, Nat.sub_diag by done.
    exists (<[id := now2 + default_ttl store]> m). split; [done|]. split; [|split; [done|lia]].
    split; cbn [sessions id_counter].
    + lia.
    + rewrite fmap_app. apply NoDup_app. split; [done|]. split; [|by apply NoDup_singleton].
      intros x (s & -> & Hs)%list_elem_of_fmap Heq%list_elem_of_singleton. by eapply Hnew.
    + intros s [Hs| ->%list_elem_of_singleton]%elem_of_app; [apply H3 in Hs; lia|]. change (id_number id <= id_counter store + 1). lia.
    + intros x e He. destruct (decide (x = id)) as [->|Hne]; [lia|]. rewrite lookup_insert_ne in He by done. apply H4 in He. lia.
    + intros x e He. setoid_rewrite elem_of_app. setoid_rewrite list_elem_of_singleton. destruct (decide (x = id)) as [->|Hne].
      * rewrite lookup_insert_eq. split.
        -- intros [= <-]. eexists. split; [by right|]. done.
        -- intros (s & [Hs| ->] & Hx & _ & Hexp); [by apply Hnew in Hs|]. cbn in Hexp. congruence.
      * rewrite lookup_insert_ne by done. rewrite (H5 x e He). split.
        -- intros (s & Hs & ?). exists s. by split; [left|].
        -- intros (s & [Hs| ->] & Hx & ?); [by exists s|]. cbn -[id] in Hx. congruence.
Qed.

Lemma session_get_rel store m t id now : store_rel t store m -> t <= now ->
  let '(r, store') := session_get store id now in
  store_rel now store' m /\ default_ttl store' = default_ttl store /\ id_counter store' = id_counter store /\
  is_live m id now = bool_decide (is_Some r) /\
  forall i, r = Some i -> exists s, sessions store' !! i = Some s /\ session_id s = id.
Proof.
  intros HR Ht. destruct (store_rel_mono _ now _ _ HR Ht) as [H1 H2 H3 H4 H5]. unfold session_get.
  pose proof (get_loop_spec now id (sessions store)) as Hl. destruct (get_loop now id (sessions store)) as [r l'].
  destruct Hl as [HF Hr]. set (st := store <| sessions := l' |>).
  assert (Hin : forall s', s' ∈ l' -> exists s, s ∈ sessions store /\ session_id s' = session_id s /\ expires_at s' = expires_at s /\ forall t', now <= t' -> alive t' s' = alive t' s).
  { intros s' [i Hi]%list_elem_of_lookup. destruct (Forall2_lookup_r _ _ _ _ _ HF Hi) as (s & Hs & ?). exists s. split; [by eapply list_elem_of_lookup_2|done]. }
  assert (Hout : forall s, s ∈ sessions store -> exists s', s' ∈ l' /\ session_id s' = session_id s /\ expires_at s' = expires_at s /\ forall t', now <= t' -> alive t' s' = alive t' s).
  { intros s [i Hi]%list_elem_of_lookup. destruct (Forall2_lookup_l _ _ _ _ _ HF Hi) as (s' & Hs & ?). exists s'. split; [by eapply list_elem_of_lookup_2|done]. }
  assert (Hact : forall s s' e, expires_at s = e -> expires_at s' = e -> now <= e -> (forall t', now <= t' -> alive t' s' = alive t' s) -> active s' = active s).
  { intros s s' e He He' Hle Ha. specialize (Ha now ltac:(lia)). unfold alive in Ha. rewrite He, He', (proj2 (Z.leb_le now e)), !andb_true_r in Ha by done. done. }
  repeat split.
  - done.
  - cbn. replace (session_id <$> l') with (session_id <$> sessions store); [done|]. clear - HF. induction HF as [|s s' l l' [Hid _] HF IH]; cbn; congruence.
  - intros s' Hs'. apply Hin in Hs' as (s & Hs & -> & _). by apply H3.
  - done.
  - intros (s & Hs & Hid & Ha & He)%H5; [|done]. destruct (Hout s Hs) as (s' & Hs' & Hid' & He' & Hal). exists s'.
    split; [done|]. rewrite (Hact s s' e) by (congruence || done). repeat split; congruence.
  - intros (s' & Hs' & Hid & Ha & He). apply H5; [done|]. destruct (Hin s' Hs') as (s & Hs & Hid' & He' & Hal). exists s.
    split; [done|]. rewrite <- (Hact s s' e) by (congruence || done). repeat split; congruence.
  - unfold is_live. destruct r as [i|].
    + destruct Hr as (s & Hs & Hal & Hid). rewrite bool_decide_eq_true_2 by done. apply andb_prop in Hal as [Ha He%Z.leb_le].
      rewrite (proj2 (H5 id (expires_at s) He)); [by apply Z.leb_le|]. exists s. split; [by eapply list_elem_of_lookup_2|done].
    + rewrite bool_decide_eq_false_2 by (by intros [? ?]). destruct (m !! id) as [e|] eqn:Hm; [|done]. destruct (Z.leb_spec now e) as [He|]; [|done].
      apply H5 in Hm as (s & Hs & Hid & Ha & Hexp); [|done]. specialize (Hr s Hs Hid). unfold alive in Hr. rewrite Ha in Hr. apply Z.leb_gt in Hr. lia.
  - intros i ->. destruct Hr as (s & Hs & Hal & Hid). destruct (Forall2_lookup_l _ _ _ _ _ HF Hs) as (s' & Hs' & Hid' & _). exists s'. split; [done|congruence].
Qed.

Lemma session_get_step store m t id now : store_rel t store m -> t <= now ->
  let '(r, store') := store_step store (Get id now) in
  exists m', spec_step (default_ttl store) m (Get id now) r m' /\ store_rel now store' m' /\
    default_ttl store' = default_ttl store /\ id_counter store' <= id_counter store + 1.
Proof.
  intros HR Ht. pose proof (session_get_rel store m t id now HR Ht) as H. cbn [store_step]. destruct (session_get store id now) as [r store'].
  destruct H as (H1 & H2 & H3 & H4 & H5). exists m. split; [|split; [done|split; [done|lia]]]. cbn. split; [|done]. rewrite H4. destruct r as [i|]; cbn.
  - destruct (H5 i eq_refl) as (s & -> & Hid). cbn. by rewrite Hid.
  - done.
Qed.

Lemma session_destroy_step store m t id now : store_rel t store m -> t <= now ->
  let '(r, store') := store_step store (Destroy id now) in
  exists m', spec_step (default_ttl store) m (Destroy id now) r m' /\ store_rel now store' m' /\
    default_ttl store' = default_ttl store /\ id_counter store' <= id_counter store + 1.
Proof.
  intros HR Ht. pose proof (session_get_rel store m t id now HR Ht) as H. cbn [store_step]. unfold session_destroy. destruct (session_get store id now) as [r store'].
  destruct H as (H1 & H2 & H3 & H4 & H5). destruct r as [i|].
  2: { exists m. split; [cbn; by rewrite H4|]. split; [done|split; [done|lia]]. }
  destruct (H5 i eq_refl) as (s0 & Hi & Hid). exists (delete id m). split; [cbn; by rewrite H4|]. split; [|split; [done|cbn; lia]].
  destruct H1 as [J1 J2 J3 J4 J5]. unfold set. split; cbn [sessions id_counter]; [lia| | | |].
  - rewrite (list_fmap_alter _ _ (fun x => x)), list_alter_id; [done|done|by apply Forall_true].
  - intros s [->|(j & _ & Hj)]%(elem_alter _ _ _ _ _ Hi); [apply (J3 s0); by eapply list_elem_of_lookup_2|apply J3; by eapply list_elem_of_lookup_2].
  - intros x e He. apply lookup_delete_Some in He as [_ He]. by eapply J4.
  - intros x e He. setoid_rewrite (elem_alter _ _ _ _ _ Hi). rewrite lookup_delete_Some, (J5 x e He). split.
    + intros (Hne & s & [j Hj]%list_elem_of_lookup & Hx & Ha & Hexp). exists s. split; [|done]. right. exists j. split; [|done]. intros ->. congruence.
    + intros (s & [->|(j & Hne & Hj)] & Hx & Ha & Hexp); [done|]. split; [|exists s; split; [by eapply list_elem_of_lookup_2|done]].
      intros <-. apply Hne. eapply (NoDup_lookup _ _ _ _ J2); rewrite list_lookup_fmap; [by rewrite Hj; cbn; rewrite Hx|by rewrite Hi; cbn; rewrite Hid].
Qed.

Lemma filter_fmap_NoDup {A B} (f : A -> B) (p : A -> bool) l : NoDup (f <$> l) -> NoDup (f <$> List.filter p l).
Proof.
  induction l as [|x l IH]; cbn; [done|]. intros [Hx Hnd]%NoDup_cons. destruct (p x); cbn; [|by apply IH]. constructor; [|by apply IH].
  intros (y & Hy & Hin)%list_elem_of_fmap. apply Hx, list_elem_of_fmap. exists y. split; [done|].
  by apply list_elem_of_In, List.filter_In in Hin as [?%list_elem_of_In _].
Qed.

Lemma session_cleanup_step store m t now : store_rel t store m -> t <= now ->
  let '(r, store') := store_step store (Cleanup now) in
  exists m', spec_step (default_ttl store) m (Cleanup now) r m' /\ store_rel now store' m' /\
    default_ttl store' = default_ttl store /\ id_counter store' <= id_counter store + 1.
Proof.
  intros HR Ht. cbn [store_step]. unfold session_store_cleanup.
  pose proof (cleanup_loop_spec now (length (sessions store)) (sessions store) 0 ltac:(lia)) as H.
  destruct (cleanup_loop now _ (sessions store) 0) as [removed l]. destruct H as [Hl ->].
  { intros j s Hj Hs%lookup_lt_Some. lia. }
  destruct (store_rel_mono _ now _ _ HR Ht) as [H1 H2 H3 H4 H5].
  assert (Hel : forall s, s ∈ l <-> s ∈ sessions store /\ dead now s = false).
  { intros s. rewrite Hl, list_elem_of_In, List.filter_In, list_elem_of_In, negb_true_iff. done. }
  assert (Hle : (length l <= length (sessions store))%nat) by (rewrite Hl; apply List.filter_length_le).
  assert (Hids : NoDup (session_id <$> l)) by (rewrite Hl; by apply filter_fmap_NoDup).
  set (m' := filter (fun p => now <= p.2) m : sessions_map).
  assert (Hmap : forall id e, m' !! id = Some e <-> exists s, s ∈ l /\ session_id s = id /\ active s = true /\ expires_at s = e).
  { intros id e. unfold m'. rewrite map_lookup_filter_Some. cbn. split.
    - intros [Hm He]. apply H5 in Hm as (s & Hs & Hid & Ha & Hexp); [|done]. exists s. rewrite Hel. unfold dead. rewrite Ha. cbn.
      split; [split; [done|apply Z.ltb_ge; lia]|done].
    - intros (s & [Hs Hd%orb_false_elim]%Hel & Hid & Ha & Hexp). destruct Hd as [_ Hd%Z.ltb_ge].
      assert (He : now <= e) by lia. split; [|done]. apply H5; [done|]. by exists s. }
  exists m'. split; [split; [done|]|split; [|split; [done|cbn; lia]]].
  - rewrite <- size_dom. replace (dom m') with (list_to_set (session_id <$> l) : gset (list Z)).
    + rewrite size_list_to_set, length_fmap by done. lia.
    + apply set_eq. intros id. rewrite elem_of_list_to_set, list_elem_of_fmap, elem_of_dom. split.
      * intros (s & -> & Hs). exists (expires_at s). apply Hmap. exists s. apply Hel in Hs as Hs'. destruct Hs' as [_ Hd%orb_false_elim].
        split; [done|]. split; [done|]. split; [|done]. by destruct Hd as [?%negb_false_iff _].
      * intros [e (s & Hs & Hid & _)%Hmap]. by exists s.
  - split; unfold set; cbn [sessions id_counter]; [done|done| | |].
    + intros s [Hs _]%Hel. by apply H3.
    + intros id e [Hm _]%map_lookup_filter_Some. by eapply H4.
    + intros id e _. apply Hmap.
Qed.

Lemma store_step_refines store m t op : store_rel t store m -> t <= op_time op -> id_counter store + 1 < 2 ^ 64 ->
  let '(r, store') := store_step store op in
  exists m', spec_step (default_ttl store) m op r m' /\ store_rel (op_time op) store' m' /\
    default_ttl store' = default_ttl store /\ id_counter store' <= id_counter store + 1.
Proof.
  intros HR Ht Hc. destruct op; cbn [op_time] in *.
  - by apply session_create_step with t.
  - by apply session_get_step with t.
  - by apply session_destroy_step with t.
  - by apply session_cleanup_step with t.
Qed.

Lemma store_run_refines ops : forall store m t, store_rel t store m -> in_time t ops -> id_counter store + Z.of_nat (length ops) < 2 ^ 64 ->
  exists m', spec_run (default_ttl store) m ops (store_run store ops).1 m'.
Proof.
  induction ops as [|op ops IH]; intros store m t HR Ht Hc; [exists m; constructor|]. destruct Ht as [Ht Hops]. cbn [store_run length] in *.
  pose proof (store_step_refines store m t op HR Ht ltac:(lia)) as H. destruct (store_step store op) as [r store1].
  destruct H as (m1 & Hstep & HR1 & Httl & Hcnt). destruct (IH store1 m1 (op_time op) HR1 Hops) as [m2 Hrun]; [lia|].
  destruct (store_run store1 ops) as [rs store2]. exists m2. econstructor; [done|]. by rewrite <- Httl.
Qed.

(** C10: whatever sequence of creations, lookups, destructions and cleanups a
    store goes through, fewer than 2^64 and while the clock does not run backwards, its answers are
    those of a map from identifiers to expiry times: every identifier created is
    a new one, a session is found exactly until it is destroyed or its expiry
    time has passed, and a cleanup keeps exactly the sessions still alive. *)
Theorem session_store_refines (ops : list store_op) (ttl t : Z) :
  in_time t ops -> Z.of_nat (length ops) < 2 ^ 64 ->
  let store := session_store_set_ttl (session_store_init 0) ttl in
  exists m, spec_run (default_ttl store) ∅ ops (store_run store ops).1 m.
Proof.
  intros Ht Hl store. apply store_run_refines with t; [|done|].
  - subst store. unfold session_store_set_ttl. destruct (0 <? ttl); split; cbn; try done; try (by constructor); try (by intros ? ?%elem_of_nil).
    all: intros id e _; rewrite lookup_empty; split; [done|by intros (s & ?%elem_of_nil & _)].
  - subst store. unfold session_store_set_ttl. by destruct (0 <? ttl).
Qed.

Lemma session_store_refines_witness :
  let store := session_store_set_ttl (session_store_init 0) 10 in
  let id := generate_session_id SESSION_ID_LEN 5 7 1 in
  let ops := [Create 5 5 7; Get id 15; Create 15 15 9; Get id 16; Cleanup 16; Destroy id 17] in
  (store_run store ops).1 = [Created (Some id); Got (Some id); Created (Some (generate_session_id SESSION_ID_LEN 15 9 2)); Got None; Cleaned 1; Destroyed false] /\
  exists m, spec_run (default_ttl store) ∅ ops (store_run store ops).1 m.
Proof. split; [vm_compute; reflexivity|]. apply (session_store_refines _ 10 0); [|done]. cbn. lia. Defined.

(** ** Variables as a map *)

Record var_rel (s : Session) (m : gmap (list Z) (list Z)) : Prop := {
  vr_keys : NoDup (var_key <$> vars s);
  vr_map : forall k v, m !! k = Some v <-> mk_var k v ∈ vars s;
}.

Lemma var_rel_size s m : var_rel s m -> length (vars s) = size m.
Proof.
  intros [H1 H2]. rewrite <- size_dom. replace (dom m) with (list_to_set (var_key <$> vars s) : gset (list Z)).
  - by rewrite size_list_to_set, length_fmap.
  - apply set_eq. intros k. rewrite elem_of_list_to_set, list_elem_of_fmap, elem_of_dom. split.
    + intros ([k' v] & -> & Hx). exists v. by apply H2.
    + intros [v Hv%H2]. by exists (mk_var k v).
Qed.

Lemma find_var_spec s m k : var_rel s m ->
  match find_var s k with
  | Some i => exists v, vars s !! i = Some (mk_var k v) /\ m !! k = Some v
  | None => m !! k = None
  end.
Proof.
  intros [H1 H2]. unfold find_var. destruct (find_idx _ _) as [i|] eqn:Hi.
  - apply find_idx_Some in Hi as ([k' v] & Hx & Hk%bool_decide_eq_true & _). cbn in Hk. subst k'. exists v. split; [done|]. apply H2. by eapply list_elem_of_lookup_2.
  - destruct (m !! k) as [v|] eqn:Hm; [|done]. apply H2 in Hm. rewrite find_idx_None in Hi. apply Hi in Hm. by apply bool_decide_eq_false in Hm.
Qed.

Lemma var_rel_update s m k v i v0 : var_rel s m -> vars s !! i = Some (mk_var k v0) ->
  var_rel (s <| vars ::= alter (fun x => x <| var_value := v |>) i |>) (<[k := v]> m).
Proof.
  intros [H1 H2] Hi. split; unfold set; cbn [vars].
  - rewrite (list_fmap_alter _ _ (fun x => x)), list_alter_id; [done|done|by apply Forall_true].
  - intros k' v'. rewrite (elem_alter _ _ _ _ _ Hi). cbn. rewrite lookup_insert_Some, H2. split.
    + intros [[-> ->]|[Hne [j Hj]%list_elem_of_lookup]]; [by left|]. right. exists j. split; [|done]. intros ->. congruence.
    + intros [[= -> ->]|(j & Hne & Hj)]; [by left|]. right. split; [|by eapply list_elem_of_lookup_2]. intros <-. apply Hne.
      eapply (NoDup_lookup _ _ _ _ H1); rewrite list_lookup_fmap; [by rewrite Hj|by rewrite Hi].
Qed.

Lemma var_rel_remove s m k v i : var_rel s m -> vars s !! i = Some (mk_var k v) -> var_rel (s <| vars ::= swap_remove i |>) (delete k m).
Proof.
  intros [H1 H2] Hi. assert (Hp := swap_remove_Permutation i _ _ Hi). split; unfold set; cbn [vars].
  - rewrite Hp in H1. by apply NoDup_cons in H1 as [_ ?].
  - intros k' v'. rewrite Hp in H1. rewrite lookup_delete_Some, H2.
    assert (Hel : forall x, x ∈ vars s <-> x = mk_var k v \/ x ∈ swap_remove i (vars s)) by (intros x; rewrite <- elem_of_cons; by rewrite Hp at 1).
    rewrite Hel. cbn in H1. apply NoDup_cons in H1 as [Hk _]. split.
    + by intros [Hne [[= -> ->]|?]].
    + intros Hin. split; [|by right]. intros ->. apply Hk. apply list_elem_of_fmap. by exists (mk_var k' v').
Qed.

(** The variables of a session are a map from keys to values: a lookup
    finds the value last stored, storing replaces or adds and fails only for a
    new key when there are 32, removing deletes exactly one key, and [clear] leaves none. *)
Theorem session_vars_refine (s : Session) (m : gmap (list Z) (list Z)) (k v : list Z) :
  var_rel s m -> (length k < SESSION_MAX_KEY_LEN)%nat -> (length v < SESSION_MAX_VAL_LEN)%nat ->
  session_var_get s k = m !! k /\
  (let '(ok, s') := session_var_set s k v in
   if ok then var_rel s' (<[k := v]> m) else s' = s /\ m !! k = None /\ (SESSION_MAX_VARS <= size m)%nat) /\
  (let '(ok, s') := session_var_remove s k in ok = bool_decide (is_Some (m !! k)) /\ var_rel s' (delete k m)) /\
  var_rel (session_clear s) ∅.
Proof.
  intros HR Hk Hv. pose proof (find_var_spec s m k HR) as Hf. unfold session_var_get, session_var_set, session_var_remove.
  assert (Hclear : var_rel (session_clear s) ∅).
  { split; cbn; [by constructor|]. intros k' v'. rewrite lookup_empty. split; [done|by intros ?%elem_of_nil]. }
  rewrite !truncated_id by done. destruct (find_var s k) as [i|].
  - destruct Hf as (v0 & Hi & Hm). cbn [mbind option_bind]. rewrite Hi. split; [done|]. split; [by eapply var_rel_update|]. split; [|done].
    rewrite Hm. split; [done|]. by eapply var_rel_remove.
  - split; [done|]. split; [|split; [rewrite Hf; split; [done|by rewrite delete_id]|done]].
    destruct (Nat.leb_spec SESSION_MAX_VARS (length (vars s))); [cbv iota beta; split; [done|]; split; [done|by rewrite <- (var_rel_size s m HR)]|]. destruct HR as [H1 H2]. split; unfold set; cbn [vars].
    + rewrite fmap_app. apply NoDup_app. split; [done|]. split; [|by apply NoDup_singleton]. intros x ([ky vy] & -> & Hy)%list_elem_of_fmap Heq%list_elem_of_singleton.
      cbn in Heq. subst ky. apply H2 in Hy. congruence.
    + intros k' v'. rewrite lookup_insert_Some, elem_of_app, list_elem_of_singleton, H2. split.
      * intros [[-> ->]|[? ?]]; [by right|by left].
      * intros [Hin|[= -> ->]]; [|by left]. right. split; [|done]. intros <-. apply H2 in Hin. congruence.
Qed.

Lemma session_vars_refine_witness :
  let s := mk_session [] [mk_var [97] [1]; mk_var [98] [2]] 0 0 0 true in
  let m : gmap (list Z) (list Z) := <[[97] := [1]]> (<[[98] := [2]]> ∅) in
  session_var_get s [97] = m !! [97] /\ session_var_get (session_var_remove s [97]).2 [98] = Some [2].
Proof.
  split; [|vm_compute; reflexivity]. refine (proj1 (session_vars_refine _ _ [97] [3] _ _ _)); [|unfold SESSION_MAX_KEY_LEN; cbn; lia|apply Nat.ltb_lt; vm_compute; reflexivity].
  split; cbn; [by apply (bool_decide_unpack _); vm_compute|]. intros k v. rewrite !lookup_insert_Some, lookup_empty, !elem_of_cons, elem_of_nil. naive_solver.
Defined.

(** ** Cookies *)

(** A [Cookie] header as browsers write it: [name=value; name=value]. *)
Fixpoint render_cookies (cs : list (list Z * list Z)) : list Z :=
  match cs with
  | [] => []
  | (n, v) :: cs' => n ++ 61 :: v ++ match cs' with [] => [] | _ => 59 :: 32 :: render_cookies cs' end
  end.
Definition cookie_ok (c : list Z * list Z) : Prop :=
  61 ∉ c.1 /\ 59 ∉ c.1 /\ 32 ∉ c.1 /\ 59 ∉ c.2 /\ 32 ∉ c.2 /\ 34 ∉ c.2.
Fixpoint find_cookie (name : list Z) (cs : list (list Z * list Z)) : option (list Z) :=
  match cs with
  | [] => None
  | (n, v) :: cs' => if bool_decide (n = name) then Some v else find_cookie name cs'
  end.

Lemma skip_separators_id c s : c <> 32 -> c <> 59 -> skip_separators (c :: s) = c :: s.
Proof. intros. cbn. by rewrite !(proj2 (Z.eqb_neq _ _)) by done. Qed.

Lemma skip_to_semicolon_app a s : 59 ∉ a -> skip_to_semicolon (a ++ s) = skip_to_semicolon s.
Proof.
  induction a as [|c a IH]; [done|]. intros Ha. cbn. rewrite (proj2 (Z.eqb_neq c 59)) by (intros ->; apply Ha; left). apply IH. intros ?. apply Ha. by right.
Qed.

Lemma take_value_app room stop a s : (length a <= room)%nat -> Forall (fun c => stop c = false) a ->
  match s with c :: _ => stop c = true | [] => True end -> take_value room stop (a ++ s) = a.
Proof.
  intros Hr Ha Hs. revert room Hr. induction Ha as [|c a Hc Ha IH]; intros room Hr; cbn in Hr |- *.
  - destruct room, s; cbn; try done. by rewrite Hs.
  - destruct room as [|room]; [lia|]. cbn. rewrite Hc. f_equal. apply IH. lia.
Qed.

Lemma cookie_value_plain id_sz v s : (length v < id_sz)%nat -> 59 ∉ v -> 32 ∉ v -> 34 ∉ v ->
  match s with c :: _ => c = 59 | [] => True end -> cookie_value id_sz (v ++ s) = v.
Proof.
  intros Hl H1 H2 H3 Hs. unfold cookie_value.
  assert (Hskip : skip_char 32 (v ++ s) = v ++ s).
  { destruct v as [|c v]; cbn; [destruct s as [|c s]; [done|]; cbn; by subst c|]. rewrite (proj2 (Z.eqb_neq c 32)); [done|]. intros ->. apply H2. left. }
  rewrite Hskip. assert (Htake : take_value (id_sz - 1) (fun c => (c =? 59) || (c =? 32)) (v ++ s) = v).
  { apply take_value_app; [lia| |destruct s; [done|by subst]]. apply Forall_forall. intros c Hc. apply orb_false_intro; apply Z.eqb_neq; by intros ->. }
  destruct (v ++ s) as [|c r] eqn:He; [done|]. destruct (decide (c = 34)) as [->|Hne].
  - exfalso. destruct v as [|x v]; cbn in He; [subst s; by cbn in Hs|]. apply H3. injection He as -> _. left.
  - by repeat case_match; simplify_eq.
Qed.

Lemma cookie_loop_skip fuel name id_sz p : cookie_loop fuel name id_sz (59 :: 32 :: p) = cookie_loop fuel name id_sz p.
Proof. by destruct fuel. Qed.

Lemma cookie_loop_render fuel name id_sz cs : 61 ∉ name -> Forall cookie_ok cs -> Forall (fun c => (length c.2 < id_sz)%nat) cs ->
  (length (render_cookies cs) < fuel)%nat -> cookie_loop fuel name id_sz (render_cookies cs) = find_cookie name cs.
Proof.
  intros Hname Hok Hlen. revert fuel. induction Hok as [|[n v] cs (H1 & H2 & H3 & H4 & H5 & H6) Hok IH]; intros fuel Hf; (destruct fuel as [|fuel]; [lia|]); [done|].
  apply Forall_cons in Hlen as [Hv Hlen]. cbn [fst snd] in *. cbn [render_cookies find_cookie] in *.
  set (rest := match cs with [] => [] | _ => _ end) in *.
  assert (Hne : exists c r, n ++ 61 :: v ++ rest = c :: r /\ c <> 32 /\ c <> 59).
  { destruct n as [|c n]; [by exists 61, (v ++ rest)|]. exists c, (n ++ 61 :: v ++ rest). split; [done|]. split; intros ->; [apply H3|apply H2]; left. }
  destruct Hne as (c & r & Heq & Hc1 & Hc2). cbn [cookie_loop]. rewrite Heq, skip_separators_id, <- Heq by done. cbv iota.
  replace (match n ++ 61 :: v ++ rest with [] => None | _ => _ end) with
    (match starts_with (name ++ [61]) (n ++ 61 :: v ++ rest) with
     | Some rest => Some (cookie_value id_sz rest)
     | None => cookie_loop fuel name id_sz (skip_to_semicolon (n ++ 61 :: v ++ rest)) end) by (by rewrite Heq).
  case_bool_decide as Hn.
  - subst n. replace (name ++ 61 :: v ++ rest) with ((name ++ [61]) ++ v ++ rest) by (by rewrite <- app_assoc). rewrite starts_with_app.
    rewrite cookie_value_plain; [done..|]. subst rest. by destruct cs.
  - rewrite starts_with_quoted_ne by (done || congruence).
    replace (n ++ 61 :: v ++ rest) with ((n ++ 61 :: v) ++ rest) by (by rewrite <- app_assoc).
    rewrite skip_to_semicolon_app by (rewrite elem_of_app, elem_of_cons; naive_solver). rewrite length_app in Hf. cbn in Hf. rewrite length_app in Hf.
    specialize (IH Hlen). subst rest. destruct cs as [|c' cs].
    + by destruct fuel.
    + cbn [length] in Hf. cbn [skip_to_semicolon Z.eqb Pos.eqb]. rewrite cookie_loop_skip. apply IH. lia.
Qed.

(** From a [Cookie] header as browsers write it the parser takes the value
    of the first cookie of that name, wherever it stands, and never that of a
    cookie whose name only begins or ends like it; without one, or when the
    value is empty, it reports none. *)
Theorem session_parse_cookie_correct (req : HttpRequest) (name : list Z) (id_sz : nat) (cs : list (list Z * list Z)) :
  http_request_get_header req (str_bytes "Cookie") = Some (render_cookies cs) -> 61 ∉ name -> Forall cookie_ok cs ->
  Forall (fun c => (length c.2 < id_sz)%nat) cs -> (0 < id_sz)%nat ->
  session_parse_cookie req name id_sz = match find_cookie name cs with Some [] => None | r => r end.
Proof.
  intros Hh Hname Hok Hlen Hsz. unfold session_parse_cookie. rewrite (proj2 (Nat.eqb_neq id_sz 0)) by lia. rewrite Hh. cbn [mbind option_bind].
  rewrite cookie_loop_render by (done || lia). by destruct (find_cookie name cs) as [[|]|].
Qed.

Lemma session_parse_cookie_correct_witness :
  let req := (http_parse_header (str_bytes "Cookie: MYSESSID=bad; SESSID=abc; x=1") http_request_init).2 in
  session_parse_cookie req (str_bytes "SESSID") SESSION_ID_LEN = Some (str_bytes "abc").
Proof.
  intros req. rewrite (session_parse_cookie_correct req _ SESSION_ID_LEN [(str_bytes "MYSESSID", str_bytes "bad"); (str_bytes "SESSID", str_bytes "abc"); (str_bytes "x", str_bytes "1")]).
  - vm_compute. reflexivity.
  - vm_compute. reflexivity.
  - apply (bool_decide_unpack _). vm_compute. exact I.
  - unfold cookie_ok. repeat constructor; apply (bool_decide_unpack _); vm_compute; exact I.
  - repeat constructor; apply Nat.ltb_lt; vm_compute; reflexivity.
  - apply Nat.ltb_lt. vm_compute. reflexivity.
Defined.

(** ** What the callers of the store must know *)

(** The chain hands every entry a fresh context, so the loader never sees its store. *)
Lemma session_loader_without_store store now s :
  user_data (mw_ctx s) = NULL -> session_middleware_loader store now s = (MIDDLEWARE_NEXT, s, store).
Proof. unfold session_middleware_loader. by intros ->. Qed.

(** A [Session *] taken before a cleanup denotes another session after it. *)
Example session_pointer_after_cleanup :
  let store := session_store_set_ttl (session_store_init 0) 10 in
  let '(_, store) := session_create store 0 0 1 in
  let '(p, store) := session_create store 5 5 2 in
  let '(_, store) := session_create store 6 6 3 in
  let '(removed, store') := session_store_cleanup store 12 in
  let id st i := s ← sessions st !! i; Some (session_id s) in
  p = Some 1%nat /\ removed = 1 /\ id store' 0%nat = id store 2%nat /\ id store' 1%nat = id store 1%nat.
Proof. vm_compute. done. Qed.

(** A path and a domain of 255 characters each overrun [cookie_val]. *)
Example session_set_cookie_overflow :
  let store := session_store_set_cookie (session_store_init 0) None (Some (replicate 255 97)) (Some (replicate 255 98)) true true in
  let '(_, store) := session_create store 0 0 1 in
  (sessions store !! 0%nat ≫= fun s => session_build_set_cookie (fun _ => replicate 29 99) store s http_response_init) = None.
Proof. vm_compute. reflexivity. Qed.
