(* ===== verification/MessageQueue.v ===== *)
(** Model of [mini-business-infra/src/message_queue.c]: an in-memory broker with
    exchanges, bindings, queues, dead letters, priority consumption, deduplication
    and topic routing.

    Queues live in a fixed table whose first [queue_count] slots are in use; what a
    slot held before stays in it.  The array of message pointers of a queue is
    modelled cell by cell.  Callbacks are parameters over an unknown world; they may
    change the message but do not call the broker.  [None] stands for undefined
    behaviour (a null or uninitialised pointer, a write out of bounds) and for a
    recursion or loop that the fuel does not cover. *)

From S2P Require Import Prelude Bytes Heap.

Definition MQ_MAX_KEY_LEN : nat := 64.
Definition MQ_MAX_ROUTING_KEY_LEN : nat := 128.
Definition MQ_MAX_QUEUES : nat := 256.
Definition MQ_MAX_RETRY_COUNT : Z := 10.
Definition MQ_DEFAULT_BACKOFF_MS : Z := 100.
Definition MQ_DEDUP_WINDOW : nat := 10000.
#[global] Arguments MQ_DEDUP_WINDOW : simpl never.

Inductive mq_exchange_type_t := MQ_EXCHANGE_DIRECT | MQ_EXCHANGE_TOPIC | MQ_EXCHANGE_FANOUT.
#[export] Instance mq_exchange_type_eq_dec : EqDecision mq_exchange_type_t.
Proof. solve_decision. Defined.
Inductive mq_confirm_mode_t := MQ_CONFIRM_OFF | MQ_CONFIRM_ON.
Definition MQ_ACK_SUCCESS : Z := 0.
Definition MQ_ACK_NACK : Z := 1.
Definition MQ_ACK_REQUEUE : Z := 2.

(** [body_len] is the length of [msg_body]. *)
Record mq_message_t := mk_msg {
  msg_exchange : list Z; msg_routing_key : list Z; msg_body : list Z; message_id : list Z;
  timestamp_ms : Z; ttl_seconds : Z; msg_retry_count : Z; msg_max_retries : Z; backoff_ms : Z;
}.
Record mq_queue_declare_t := mk_qdecl {
  qd_name : list Z; qd_durable : Z; qd_message_ttl : Z; qd_max_length : Z; qd_dlx : list Z; qd_dlx_rk : list Z;
}.
Record mq_exchange_declare_t := mk_xdecl { xd_name : list Z; xd_type : mq_exchange_type_t; xd_durable : Z; xd_auto_delete : Z }.

(** A cell of the array of message pointers; its length is [cap]. *)
Inductive cell := Null | Uninit | Msg (m : mq_message_t).
Record mq_queue_t := mk_queue {
  q_name : list Z; q_durable : Z; message_ttl : Z; max_length : Z; dlx : list Z; dlx_rk : list Z;
  messages : list cell; q_count : nat; consumer_cb : option Z; consumer_data : Z;
}.
Record mq_binding_t := mk_binding { b_exchange : list Z; b_queue : list Z; b_routing_key : list Z }.
Record mq_exchange_t := mk_exchange { e_name : list Z; e_type : mq_exchange_type_t; e_durable : Z; e_auto_delete : Z }.
(** [exchange_count] and [binding_count] are lengths. *)
Record mq_broker := mk_broker {
  exchanges : list mq_exchange_t; queues : list mq_queue_t; queue_count : nat; bindings : list mq_binding_t; b_running : bool;
}.
Record mq_channel := mk_channel { confirm_mode : mq_confirm_mode_t; confirm_cb : option Z; confirm_user_data : Z }.

Definition queue_zero : mq_queue_t := mk_queue [] 0 0 0 [] [] [] 0 None 0.
Definition mq_broker_create : mq_broker :=
  mk_broker [mk_exchange (str_bytes "amq.default") MQ_EXCHANGE_DIRECT 1 0] (replicate MQ_MAX_QUEUES queue_zero) 0 [] false.
Definition mq_broker_start (b : mq_broker) : mq_broker := b <| b_running := true |>.
Definition mq_broker_stop (b : mq_broker) : mq_broker := b <| b_running := false |>.
Definition mq_broker_open_channel : mq_channel := mk_channel MQ_CONFIRM_OFF None 0.
Definition mq_set_confirm_mode (ch : mq_channel) (mode : mq_confirm_mode_t) : mq_channel := ch <| confirm_mode := mode |>.
Definition mq_set_confirm_callback (ch : mq_channel) (cb : option Z) (ud : Z) : mq_channel :=
  ch <| confirm_cb := cb |> <| confirm_user_data := ud |>.

(** ** Declarations and bindings *)

Definition find_exchange (b : mq_broker) (n : list Z) : option nat := find_idx (fun e => bool_decide (e_name e = n)) (exchanges b).
Definition mq_exchange_declare (b : mq_broker) (decl : mq_exchange_declare_t) : Z * mq_broker :=
  match find_exchange b (xd_name decl) with
  | Some _ => (0, b)
  | None =>
      if (MQ_MAX_QUEUES <=? length (exchanges b))%nat then (-1, b)
      else (0, b <| exchanges ::= fun l => l ++ [mk_exchange (xd_name decl) (xd_type decl) (xd_durable decl) (xd_auto_delete decl)] |>)
  end.
Definition mq_exchange_delete (b : mq_broker) (exchange : list Z) : Z * mq_broker :=
  match find_exchange b exchange with
  | Some i => (0, b <| exchanges ::= delete i |>)
  | None => (-1, b)
  end.

(** Among the slots in use. *)
Definition find_queue (b : mq_broker) (n : list Z) : option nat :=
  find_idx (fun q => bool_decide (q_name q = n)) (take (queue_count b) (queues b)).
(** The count and the consumer of the slot are not set. *)
Definition mq_queue_declare (b : mq_broker) (decl : mq_queue_declare_t) : Z * mq_broker :=
  match find_queue b (qd_name decl) with
  | Some _ => (0, b)
  | None =>
      if (MQ_MAX_QUEUES <=? queue_count b)%nat then (-1, b)
      else
        let init q := mk_queue (qd_name decl) (qd_durable decl) (qd_message_ttl decl) (qd_max_length decl) (qd_dlx decl) (qd_dlx_rk decl)
                        (replicate 64 Null) (q_count q) (consumer_cb q) (consumer_data q) in
        (0, b <| queues ::= alter init (queue_count b) |> <| queue_count ::= S |>)
  end.

(** [strcpy] into the binding. *)
Definition mq_queue_bind (b : mq_broker) (queue exchange : list Z) (routing_key : option (list Z)) : option (Z * mq_broker) :=
  if (MQ_MAX_QUEUES * 4 <=? length (bindings b))%nat then Some (-1, b)
  else
    let rk := default [] routing_key in
    if (length queue <? MQ_MAX_KEY_LEN)%nat && (length exchange <? MQ_MAX_KEY_LEN)%nat && (length rk <? MQ_MAX_ROUTING_KEY_LEN)%nat
    then Some (0, b <| bindings ::= fun l => l ++ [mk_binding exchange queue rk] |>)
    else None.
Definition mq_queue_unbind (b : mq_broker) (queue exchange : list Z) (routing_key : option (list Z)) : Z * mq_broker :=
  let same bd := bool_decide (b_queue bd = queue) && bool_decide (b_exchange bd = exchange)
                 && match routing_key with Some rk => bool_decide (b_routing_key bd = rk) | None => true end in
  match find_idx same (bindings b) with
  | Some i => (0, b <| bindings ::= delete i |>)
  | None => (-1, b)
  end.

(** [mq_message_free] of a cell follows its pointer. *)
Definition freeable (c : cell) : bool := match c with Uninit => false | _ => true end.
Definition free_messages (q : mq_queue_t) : option unit :=
  if (q_count q <=? length (messages q))%nat && forallb freeable (take (q_count q) (messages q)) then Some tt else None.
Definition mq_queue_purge (b : mq_broker) (queue : list Z) : option (Z * mq_broker) :=
  match find_queue b queue with
  | Some i =>
      q ← queues b !! i; _ ← free_messages q;
      Some (0, b <| queues ::= alter (fun q => q <| q_count := 0%nat |>) i |>)
  | None => Some (-1, b)
  end.
(** The slots after it move down by one; the last one in use stays as it is. *)
Definition mq_queue_delete (b : mq_broker) (queue : list Z) : option (Z * mq_broker) :=
  match find_queue b queue with
  | Some i =>
      q ← queues b !! i; _ ← free_messages q;
      let n := queue_count b in
      Some (0, b <| queues ::= fun l => take i l ++ drop (S i) (take n l) ++ drop (n - 1) l |> <| queue_count := (n - 1)%nat |>)
  | None => Some (-1, b)
  end.
Definition mq_queue_message_count (b : mq_broker) (queue : list Z) : Z :=
  match find_queue b queue with
  | Some i => match queues b !! i with Some q => Z.of_nat (q_count q) | None => -1 end
  | None => -1
  end.

(** ** Messages *)

(** [uuid]: what [mq_gen_uuid] makes of six numbers from [rand]. *)
Definition mq_gen_uuid (r1 r2 r3 r4 r5 r6 : Z) : list Z :=
  truncated 37 (print_hex 8 r1 ++ 45 :: print_hex 4 (Z.land r2 0xffff) ++ 45 :: print_hex 4 (Z.lor (Z.land r3 0x0fff) 0x4000)
    ++ 45 :: print_hex 4 (Z.lor (Z.land r4 0x3fff) 0x8000) ++ 45 :: print_hex 4 (Z.land r5 0xffff) ++ print_hex 8 r6).
Definition mq_message_init (now : Z) (uuid : list Z) : mq_message_t :=
  mk_msg [] [] [] uuid (now * 1000) 0 0 MQ_MAX_RETRY_COUNT MQ_DEFAULT_BACKOFF_MS.

(** Appending a copy to the array, which doubles when it is full. *)
Definition push_message (m : mq_message_t) (q : mq_queue_t) : option mq_queue_t :=
  let q := if (length (messages q) <=? q_count q)%nat then q <| messages ::= fun l => l ++ replicate (length l) Uninit |> else q in
  if (q_count q <? length (messages q))%nat then Some (q <| messages ::= <[q_count q := Msg m]> |> <| q_count ::= S |>) else None.

(** ** Topics: [*] is 42, [#] is 35, the separator of words 46 *)

Fixpoint skip_word (s : list Z) : list Z :=
  match s with c :: s' => if c =? 46 then s else skip_word s' | [] => [] end.
(** [while ( *key) { if (match(key)) return 1; key++; }]. *)
Fixpoint any_suffix (match_ : list Z -> bool) (key : list Z) : bool :=
  match key with [] => false | _ :: key' => if match_ key then true else any_suffix match_ key' end.
Fixpoint mq_topic_match (pattern key : list Z) : bool :=
  match pattern, key with
  | p :: pt, k :: kt =>
      if p =? 35 then match pt with [] => true | _ => any_suffix (mq_topic_match pt) key end
      else if p =? 42 then
        let key' := skip_word key in
        match key', pt with
        | k' :: kt', p' :: pt' => if (k' =? 46) && (p' =? 46) then mq_topic_match pt' kt' else mq_topic_match pt key'
        | _, _ => mq_topic_match pt key'
        end
      else if negb (p =? k) then false
      else mq_topic_match pt kt
  | [], [] => true
  | [], _ => false
  | p :: pt, [] => (p =? 35) && bool_decide (pt = [])
  end.

(** Running a step for each element, in order. *)
Fixpoint each {A St} (f : A -> St -> option St) (l : list A) (s : St) : option St :=
  match l with [] => Some s | x :: l' => s ← f x s; each f l' s end.

Section broker.
Context {W : Type} (consume : Z -> Z -> mq_message_t -> W -> Z * mq_message_t * W).

(** The calls made to the users' callbacks. *)
Inductive mq_call := Confirmed (cb : Z) (id : list Z) (ud : Z) | Consumed (cb : Z) (m : mq_message_t) (ud : Z).
Record mq_state := mk_state { broker : mq_broker; world : W; calls : list mq_call }.

Definition confirm (ch : mq_channel) (m : mq_message_t) (s : mq_state) : mq_state :=
  match confirm_cb ch with
  | Some cb => s <| calls ::= fun l => l ++ [Confirmed cb (message_id m) (confirm_user_data ch)] |>
  | None => s
  end.
Definition set_queue (j : nat) (q : mq_queue_t) (s : mq_state) : mq_state :=
  s <| broker := (broker s) <| queues ::= <[j := q]> |> |>.

(** Whether a binding takes part in [mq_basic_publish]. *)
Definition routes (b : mq_broker) (exchange : list Z) (routing_key : option (list Z)) (bd : mq_binding_t) : bool :=
  bool_decide (b_exchange bd = exchange) &&
  match routing_key with
  | None => true
  | Some rk =>
      bool_decide (b_routing_key bd = rk)
      || match find_exchange b exchange ≫= (exchanges b !!.) with
         | Some ex => negb (bool_decide (e_type ex = MQ_EXCHANGE_DIRECT))
         | None => false
         end
  end.
(** One queue of the inner loop; [dead] publishes on the dead letter exchange. *)
Definition deliver (dead : list Z -> list Z -> mq_message_t -> mq_state -> option mq_state) (target : list Z) (m : mq_message_t)
    (j : nat) (ds : Z * mq_state) : option (Z * mq_state) :=
  let '(delivered, s) := ds in
  q ← queues (broker s) !! j;
  if bool_decide (q_name q = target) then
    if (0 <? max_length q) && (max_length q <=? Z.of_nat (q_count q)) then
      match dlx q with
      | [] => Some (delivered, s)
      | _ => s ← dead (dlx q) (dlx_rk q) m s; Some (delivered, s)
      end
    else q' ← push_message m q; Some (delivered + 1, set_queue j q' s)
  else Some (delivered, s).
Fixpoint mq_basic_publish (fuel : nat) (ch : mq_channel) (exchange : list Z) (routing_key : option (list Z)) (m : mq_message_t) (s : mq_state)
    : option (Z * mq_state) :=
  match fuel with
  | O => None
  | S fuel' =>
      let dead x rk m s := r ← mq_basic_publish fuel' ch x (Some rk) m s; Some r.2 in
      '(delivered, s) ← each (fun bd ds => if routes (broker s) exchange routing_key bd
                                           then each (deliver dead (b_queue bd) m) (seq 0 (queue_count (broker s))) ds else Some ds)
                             (bindings (broker s)) (0, s);
      Some (if 0 <? delivered then (0, confirm ch m s) else (-1, s))
  end.

Definition topic_routes (ty : mq_exchange_type_t) (key : list Z) (bd : mq_binding_t) : bool :=
  match ty with
  | MQ_EXCHANGE_FANOUT => true
  | MQ_EXCHANGE_TOPIC => mq_topic_match (b_routing_key bd) key
  | MQ_EXCHANGE_DIRECT => bool_decide (b_routing_key bd = key)
  end.
(** A full queue takes the message all the same. *)
Definition deliver_topic (target : list Z) (m : mq_message_t) (j : nat) (ds : Z * mq_state) : option (Z * mq_state) :=
  let '(delivered, s) := ds in
  q ← queues (broker s) !! j;
  if bool_decide (q_name q = target) then q' ← push_message m q; Some (delivered + 1, set_queue j q' s) else Some (delivered, s).
Definition mq_basic_publish_topic (ch : mq_channel) (exchange routing_key : list Z) (m : mq_message_t) (s : mq_state) : option (Z * mq_state) :=
  match find_exchange (broker s) exchange ≫= (exchanges (broker s) !!.) with
  | None => Some (-1, s)
  | Some ex =>
      '(delivered, s) ← each (fun bd ds => if bool_decide (b_exchange bd = exchange) && topic_routes (e_type ex) routing_key bd
                                           then each (deliver_topic (b_queue bd) m) (seq 0 (queue_count (broker s))) ds else Some ds)
                             (bindings (broker s)) (0, s);
      Some (if 0 <? delivered then (0, confirm ch m s) else (-1, s))
  end.

(** ** Consumption *)

Definition expired (now : Z) (m : mq_message_t) : bool :=
  (0 <? ttl_seconds m) && (ttl_seconds m * 1000 <? now * 1000 - timestamp_ms m).
Definition dead_letter (fuel : nat) (ch : mq_channel) (q : mq_queue_t) (m : mq_message_t) (s : mq_state) : option mq_state :=
  match dlx q with
  | [] => Some s
  | _ => r ← mq_basic_publish fuel ch (dlx q) (Some (dlx_rk q)) m s; Some r.2
  end.
Definition set_cell (i j : nat) (c : cell) (s : mq_state) : mq_state :=
  s <| broker := (broker s) <| queues ::= alter (fun q => q <| messages ::= <[j := c]> |>) i |> |>.
(** The loop over the messages of queue [i], whose number may grow on the way; message
    [j] is looked at at time [clock j]. *)
Fixpoint consume_loop (n fuel : nat) (ch : mq_channel) (cb ud : Z) (clock : nat -> Z) (i j : nat) (s : mq_state) : option mq_state :=
  q ← queues (broker s) !! i;
  if (q_count q <=? j)%nat then Some s
  else
    match n with
    | O => None
    | S n' =>
        match messages q !! j with
        | Some (Msg m) =>
            if expired (clock j) m then
              s ← dead_letter fuel ch q m s;
              consume_loop n' fuel ch cb ud clock i (S j) (set_cell i j Null s)
            else
              let '(ack, m', w) := consume cb ud m (world s) in
              let s := mk_state (broker s) w (calls s ++ [Consumed cb m ud]) in
              if ack =? MQ_ACK_SUCCESS then consume_loop n' fuel ch cb ud clock i (S j) (set_cell i j Null s)
              else if ack =? MQ_ACK_NACK then
                s ← (if msg_retry_count m' <? msg_max_retries m' then
                       Some (set_cell i j (Msg (m' <| msg_retry_count ::= Z.succ |> <| backoff_ms := backoff_ms m' * 2 |>)) s)
                     else dead_letter fuel ch q m' s);
                consume_loop n' fuel ch cb ud clock i (S j) (set_cell i j Null s)
              else consume_loop n' fuel ch cb ud clock i (S j) (set_cell i j (Msg m') s)
        | _ => None
        end
    end.
Definition is_null (c : cell) : bool := match c with Null => true | _ => false end.
(** Moving the messages left to the front. *)
Definition compact (q : mq_queue_t) : mq_queue_t :=
  let kept := List.filter (fun c => negb (is_null c)) (take (q_count q) (messages q)) in
  q <| messages ::= fun l => kept ++ drop (length kept) l |> <| q_count := length kept |>.
Definition mq_basic_consume (n fuel : nat) (ch : mq_channel) (queue : list Z) (cb ud : Z) (clock : nat -> Z) (s : mq_state) : option (Z * mq_state) :=
  match find_queue (broker s) queue with
  | None => Some (-1, s)
  | Some i =>
      let s := s <| broker := (broker s) <| queues ::= alter (fun q => q <| consumer_cb := Some cb |> <| consumer_data := ud |>) i |> |> in
      s ← consume_loop n fuel ch cb ud clock i 0 s;
      Some (0, s <| broker := (broker s) <| queues ::= alter compact i |> |>)
  end.
Definition mq_basic_cancel (b : mq_broker) (queue : list Z) : Z * mq_broker :=
  match find_queue b queue with
  | Some i => (0, b <| queues ::= alter (fun q => q <| consumer_cb := None |> <| consumer_data := 0 |>) i |>)
  | None => (-1, b)
  end.
Definition mq_basic_ack (ch : mq_channel) (id : list Z) (status : Z) : Z := 0.

(** ** Priorities *)

Notation mq_prio_entry_t := (Z * nat)%type.
(** The heap is an array of [size] entries. *)
Definition mq_pq_push (pq : list mq_prio_entry_t) (priority : Z) (msg_index : nat) : option (list mq_prio_entry_t) :=
  sift_up fst (pq ++ [(priority, msg_index)]) (length pq).
Definition mq_pq_pop (pq : list mq_prio_entry_t) : option (option mq_prio_entry_t * list mq_prio_entry_t) :=
  match pq with
  | [] => Some (None, [])
  | e :: _ =>
      let h := swap_remove 0 pq in
      h' ← (if (0 <? length h)%nat then sift_down fst h 0 else Some h); Some (Some e, h')
  end.
Definition priority_of (priorities : option (list Z)) (j : nat) : Z :=
  match priorities with Some l => nth j l 0 | None => 0 end.
Fixpoint pop_loop (fuel : nat) (cb ud : Z) (cells : list cell) (pq : list mq_prio_entry_t) (s : mq_state) : option mq_state :=
  match fuel with
  | O => None
  | S fuel' =>
      '(e, pq) ← mq_pq_pop pq;
      match e with
      | None => Some s
      | Some (_, idx) =>
          match cells !! idx with
          | Some (Msg m) =>
              let '(_, _, w) := consume cb ud m (world s) in
              pop_loop fuel' cb ud cells pq (mk_state (broker s) w (calls s ++ [Consumed cb m ud]))
          | Some Null => pop_loop fuel' cb ud cells pq s
          | _ => None
          end
      end
  end.
(** [priorities] has [msg_count] elements. *)
Definition mq_basic_consume_priority (queue : list Z) (priorities : option (list Z)) (cb ud : Z) (s : mq_state) : option (Z * mq_state) :=
  match find_queue (broker s) queue with
  | None => Some (-1, s)
  | Some i =>
      q ← queues (broker s) !! i;
      if (q_count q =? 0)%nat then Some (0, s)
      else
        pq ← each (fun j pq => mq_pq_push pq (priority_of priorities j) j) (seq 0 (q_count q)) [];
        s ← pop_loop (S (length pq)) cb ud (messages q) pq s;
        _ ← free_messages q;
        Some (0, s <| broker := (broker s) <| queues ::= alter (fun q => q <| q_count := 0%nat |>) i |> |>)
  end.

(** ** Deduplication *)

(** The identifiers of the window; [seen_at] is never read. *)
Record mq_dedup_tracker_t := mk_tracker { d_entries : list (list Z); d_pos : nat; d_filled : bool }.
Definition mq_dedup_tracker : mq_dedup_tracker_t := mk_tracker (replicate MQ_DEDUP_WINDOW []) 0 false.
Definition mq_is_duplicate (t : mq_dedup_tracker_t) (id : list Z) : bool :=
  existsb (fun e => bool_decide (e = id)) (take (if d_filled t then MQ_DEDUP_WINDOW else d_pos t) (d_entries t)).
Definition mq_dedup_record (t : mq_dedup_tracker_t) (id : list Z) : mq_dedup_tracker_t :=
  let t := mk_tracker (<[d_pos t := take 36 id]> (d_entries t)) (S (d_pos t)) (d_filled t) in
  if (MQ_DEDUP_WINDOW <=? d_pos t)%nat then mk_tracker (d_entries t) 0 true else t.
Definition mq_basic_publish_dedup (fuel : nat) (ch : mq_channel) (exchange : list Z) (routing_key : option (list Z)) (m : mq_message_t)
    (ts : mq_dedup_tracker_t * mq_state) : option (Z * (mq_dedup_tracker_t * mq_state)) :=
  let '(t, s) := ts in
  if mq_is_duplicate t (message_id m) then Some (0, (t, confirm ch m s))
  else
    '(r, s) ← mq_basic_publish fuel ch exchange routing_key m s;
    Some (r, (mq_dedup_record t (message_id m), s)).
End broker.
