(* ===== verification/MessageQueueSpec.v ===== *)
(** Theorems on the message queue of [MessageQueue]: topic matching, routing,
    consumption, priorities and deduplication. *)

From S2P Require Import Prelude Bytes Heap MessageQueue.

(** ** Topics *)

(** Dotted words; [join ws] for a list that is not empty. *)
Definition dotted (ws : list (list Z)) : list Z := concat (map (cons 46) ws).
Definition join (ws : list (list Z)) : list Z := match ws with [] => [] | w :: ws' => w ++ dotted ws' end.

(** [*] stands for one word, [#] for one or more. *)
Inductive topic_rel : list (list Z) -> list (list Z) -> Prop :=
| topic_nil : topic_rel [] []
| topic_word p ps ws : topic_rel ps ws -> topic_rel (p :: ps) (p :: ws)
| topic_star ps w ws : topic_rel ps ws -> topic_rel ([42] :: ps) (w :: ws)
| topic_hash ps w ws1 ws2 : topic_rel ps ws2 -> topic_rel ([35] :: ps) (w :: ws1 ++ ws2).

Definition literal (p : list Z) : Prop := p <> [] /\ 35 ∉ p /\ 42 ∉ p /\ 46 ∉ p.
Definition pattern_word (p : list Z) : Prop := p = [42] \/ p = [35] \/ literal p.
Definition key_word (w : list Z) : Prop := w <> [] /\ 46 ∉ w.

Lemma topic_match_dotted ps ws : mq_topic_match (dotted ps) (dotted ws) =
  match ps, ws with [], [] => true | p :: ps', w :: ws' => mq_topic_match (p ++ dotted ps') (w ++ dotted ws') | _, _ => false end.
Proof. by destruct ps, ws. Qed.

Lemma dotted_start ws : dotted ws = [] \/ exists r, dotted ws = 46 :: r.
Proof. destruct ws as [|w ws]; [by left|right]. by exists (w ++ dotted ws). Qed.

Lemma topic_match_sep P c r : mq_topic_match (46 :: P) (c :: r) = (c =? 46) && mq_topic_match P r.
Proof. rewrite (Z.eqb_sym c 46). cbn [mq_topic_match]. change (46 =? 35) with false. change (46 =? 42) with false. cbv iota. by destruct (46 =? c). Qed.

Lemma topic_match_literal p w ps ws : 35 ∉ p -> 42 ∉ p -> 46 ∉ p -> 46 ∉ w ->
  mq_topic_match (p ++ dotted ps) (w ++ dotted ws) = bool_decide (p = w) && mq_topic_match (dotted ps) (dotted ws).
Proof.
  intros H1 H2 H3 H4. revert w H4. induction p as [|x p IH]; intros w H4.
  - destruct w as [|c w]; [by rewrite bool_decide_eq_true_2|]. rewrite bool_decide_eq_false_2 by done. cbn [app].
    assert (c <> 46) by (intros ->; apply H4; left). destruct (dotted_start ps) as [->|[r ->]]; [done|].
    by rewrite topic_match_sep, (proj2 (Z.eqb_neq c 46)).
  - assert (x <> 35) by (intros ->; apply H1; left). assert (x <> 42) by (intros ->; apply H2; left). assert (x <> 46) by (intros ->; apply H3; left).
    destruct w as [|c w]; cbn [app].
    + rewrite bool_decide_eq_false_2 by done. destruct (dotted_start ws) as [->|[r ->]]; cbn [mq_topic_match];
        rewrite (proj2 (Z.eqb_neq x 35)), ?(proj2 (Z.eqb_neq x 42)), ?(proj2 (Z.eqb_neq x 46)) by done; done.
    + cbn [mq_topic_match]. rewrite (proj2 (Z.eqb_neq x 35)), (proj2 (Z.eqb_neq x 42)) by done. destruct (Z.eqb_spec x c) as [->|Hne]; cbn [negb].
      * rewrite IH by (intros ?; first [apply H1; by right | apply H2; by right | apply H3; by right | apply H4; by right]). f_equal. apply bool_decide_ext. split; [by intros ->|by intros [=]].
      * rewrite bool_decide_eq_false_2 by congruence. done.
Qed.

Lemma skip_word_dotted w ws : 46 ∉ w -> skip_word (w ++ dotted ws) = dotted ws.
Proof.
  induction w as [|c w IH]; intros Hw; cbn; [by destruct (dotted_start ws) as [->|[r ->]]|].
  rewrite (proj2 (Z.eqb_neq c 46)) by (intros ->; apply Hw; left). apply IH. intros ?. apply Hw. by right.
Qed.

Lemma topic_match_star w ps ws : key_word w -> mq_topic_match ([42] ++ dotted ps) (w ++ dotted ws) = mq_topic_match (dotted ps) (dotted ws).
Proof.
  intros [Hne Hw]. pose proof (skip_word_dotted w ws Hw) as Hs. destruct w as [|c w]; [done|]. cbn [app mq_topic_match] in *. cbn [Z.eqb Pos.eqb]. rewrite Hs.
  destruct ws as [|w' ws]; [done|]. by destruct ps.
Qed.

Lemma any_suffix_word P w r : 46 ∉ w -> any_suffix (mq_topic_match (46 :: P)) (w ++ r) = any_suffix (mq_topic_match (46 :: P)) r.
Proof.
  induction w as [|c w IH]; intros Hw; [done|]. cbn [app any_suffix]. rewrite topic_match_sep.
  rewrite (proj2 (Z.eqb_neq c 46)) by (intros ->; apply Hw; left). apply IH. intros ?. apply Hw. by right.
Qed.

Lemma any_suffix_dotted P ws : Forall key_word ws ->
  any_suffix (mq_topic_match (46 :: P)) (dotted ws) = true <-> exists ws1 w ws2, ws = ws1 ++ w :: ws2 /\ mq_topic_match P (w ++ dotted ws2) = true.
Proof.
  induction 1 as [|w ws [Hne Hw] Hws IH]; cbn [dotted map concat].
  - split; [done|]. by intros (ws1 & w & ws2 & Heq & _); destruct ws1.
  - change (concat (map (cons 46) ws)) with (dotted ws). cbn [app any_suffix].
    change (mq_topic_match (46 :: P) (46 :: w ++ dotted ws)) with (mq_topic_match P (w ++ dotted ws)). rewrite any_suffix_word by done.
    destruct (mq_topic_match P (w ++ dotted ws)) eqn:Hm.
    + split; [|done]. intros _. by exists [], w, ws.
    + rewrite IH. split; [intros (ws1 & x & ws2 & -> & ?); by exists (w :: ws1), x, ws2|].
      intros ([|y ws1] & x & ws2 & [= <- ->] & Hx); [congruence|]. by exists ws1, x, ws2.
Qed.

Lemma topic_rel_nil ws : topic_rel [] ws <-> ws = [].
Proof. split; [by inversion 1|intros ->; constructor]. Qed.
Lemma topic_rel_star ps w ws : topic_rel ([42] :: ps) (w :: ws) <-> topic_rel ps ws.
Proof. split; [by inversion 1|by constructor]. Qed.
Lemma topic_rel_literal p ps w ws : literal p -> topic_rel (p :: ps) (w :: ws) <-> p = w /\ topic_rel ps ws.
Proof.
  intros (_ & H1 & H2 & _). split; [|by intros [-> ?]; constructor].
  inversion 1; subst; [done| |]; exfalso; [apply H2|apply H1]; left.
Qed.
Lemma topic_rel_hash ps w ws : topic_rel ([35] :: ps) (w :: ws) -> w = [35] /\ topic_rel ps ws \/ exists ws1 ws2, ws = ws1 ++ ws2 /\ topic_rel ps ws2.
Proof. inversion 1; subst; [by left|right; by eexists _, _]. Qed.

Lemma topic_match_words ps : forall p w ws, Forall pattern_word (p :: ps) -> Forall key_word (w :: ws) ->
  mq_topic_match (p ++ dotted ps) (w ++ dotted ws) = true <-> topic_rel (p :: ps) (w :: ws).
Proof.
  induction ps as [|p' ps IH]; intros p w ws [Hp Hps]%Forall_cons [Hw Hws]%Forall_cons.
  - assert (T : mq_topic_match (dotted []) (dotted ws) = true <-> topic_rel [] ws) by (rewrite topic_rel_nil; by destruct ws).
    destruct Hp as [->|[->|Hl]].
    + by rewrite topic_match_star, topic_rel_star.
    + destruct Hw as [Hne _]. destruct w as [|c w]; [done|]. split; [|done]. intros _. rewrite <- (app_nil_r ws). constructor. constructor.
    + rewrite topic_match_literal, andb_true_iff, bool_decide_eq_true, T, topic_rel_literal by (apply Hl || apply Hw || done). done.
  - assert (T : mq_topic_match (dotted (p' :: ps)) (dotted ws) = true <-> topic_rel (p' :: ps) ws).
    { rewrite topic_match_dotted. destruct ws as [|w' ws]; [|by apply IH]. split; [done|]. by inversion 1. }
    destruct Hp as [->|[->|Hl]].
    + by rewrite topic_match_star, topic_rel_star.
    + assert (Heq : mq_topic_match ([35] ++ dotted (p' :: ps)) (w ++ dotted ws) = any_suffix (mq_topic_match (46 :: p' ++ dotted ps)) (w ++ dotted ws)).
      { destruct Hw as [Hne _]. by destruct w. }
      rewrite Heq, any_suffix_word, any_suffix_dotted by (apply Hw || done). split.
      * intros (ws1 & x & ws2 & -> & Hm). apply Forall_app in Hws as [_ Hws]. apply IH in Hm; [|done|done]. by constructor.
      * intros [[-> Hr]|(ws1 & ws2 & -> & Hr)]%topic_rel_hash.
        -- destruct ws as [|x ws]; [by inversion Hr|]. exists [], x, ws. split; [done|]. by apply IH.
        -- apply Forall_app in Hws as [_ Hws]. destruct ws2 as [|x ws2]; [by inversion Hr|]. exists ws1, x, ws2. split; [done|]. by apply IH.
    + rewrite topic_match_literal, andb_true_iff, bool_decide_eq_true, T, topic_rel_literal by (apply Hl || apply Hw || done). done.
Qed.

(** A topic pattern matches a routing key exactly when the words of the key can
    be read off the words of the pattern, [*] standing for one word and [#] for one
    or more. *)
Theorem mq_topic_match_correct ps ws : ps <> [] -> ws <> [] -> Forall pattern_word ps -> Forall key_word ws ->
  mq_topic_match (join ps) (join ws) = true <-> topic_rel ps ws.
Proof. intros Hps Hws. destruct ps as [|p ps]; [done|]. destruct ws as [|w ws]; [done|]. apply topic_match_words. Qed.

Lemma mq_topic_match_correct_witness :
  let ps := [[35]; str_bytes "paid"] in let ws := [str_bytes "order"; str_bytes "7"; str_bytes "paid"] in
  join ps = str_bytes "#.paid" /\ join ws = str_bytes "order.7.paid" /\ topic_rel ps ws.
Proof.
  intros ps ws. split; [done|]. split; [done|]. apply (mq_topic_match_correct ps ws); [done|done| | |vm_compute; reflexivity].
  - unfold pattern_word, literal. apply (bool_decide_unpack _). vm_compute. exact I.
  - unfold key_word. apply (bool_decide_unpack _). vm_compute. exact I.
Defined.

(** The comment says that [#] also matches no word. *)
Lemma mq_topic_hash_needs_a_word :
  mq_topic_match (str_bytes "order.#") (str_bytes "order") = false /\ mq_topic_match (str_bytes "a.#.b") (str_bytes "a.b") = false.
Proof. done. Qed.

(** ** Deduplication *)

Notation WIN := MQ_DEDUP_WINDOW.

Definition window {A} (h : list A) : list A := drop (length h - MQ_DEDUP_WINDOW) h.

(** The tracker holds the last identifiers of the history [h] of those recorded. *)
Record track_rel (t : mq_dedup_tracker_t) (h : list (list Z)) : Prop := {
  tr_length : length (d_entries t) = MQ_DEDUP_WINDOW;
  tr_pos : d_pos t = (length h mod MQ_DEDUP_WINDOW)%nat;
  tr_filled : d_filled t = (MQ_DEDUP_WINDOW <=? length h)%nat;
  tr_entries : forall k, (length h - MQ_DEDUP_WINDOW <= k < length h)%nat -> d_entries t !! (k mod MQ_DEDUP_WINDOW)%nat = h !! k;
}.

Lemma window_pos : (0 < MQ_DEDUP_WINDOW)%nat.
Proof. apply Nat.ltb_lt. vm_compute. reflexivity. Qed.

Lemma track_rel_init : track_rel mq_dedup_tracker [].
Proof.
  pose proof window_pos. split; cbn [d_entries d_pos d_filled mq_dedup_tracker length].
  - apply length_replicate.
  - by rewrite Nat.Div0.mod_0_l.
  - symmetry. apply Nat.leb_gt. lia.
  - lia.
Qed.

Lemma track_rel_record t h id : track_rel t h -> (length id <= 36)%nat -> track_rel (mq_dedup_record t id) (h ++ [id]).
Proof.
  intros [Hl Hp Hf He] Hid. pose proof window_pos as HW. 
  pose proof (Nat.mod_upper_bound (length h) WIN ltac:(lia)) as Hlt. pose proof (Nat.div_mod_eq (length h) WIN) as Hdm.
  unfold mq_dedup_record. rewrite take_ge by done. cbn [d_pos d_entries d_filled].
  assert (Hent : forall k, (length (h ++ [id]) - WIN <= k < length (h ++ [id]))%nat -> <[d_pos t := id]> (d_entries t) !! (k mod WIN)%nat = (h ++ [id]) !! k).
  { rewrite length_app. cbn. intros k Hk. destruct (decide (k = length h)) as [->|Hne].
    - rewrite <- Hp, list_lookup_insert_eq by lia. by rewrite list_lookup_middle.
    - rewrite lookup_app_l by lia. rewrite <- He by lia. apply list_lookup_insert_ne. rewrite Hp. intros Heq.
      pose proof (Nat.div_mod_eq k WIN). assert (k / WIN = length h / WIN \/ k / WIN + 1 <= length h / WIN)%nat as [?|?] by (pose proof (Nat.Div0.div_le_mono k (length h) WIN); lia); nia. }
  assert (Hpos : forall p : nat, (if WIN <=? S (d_pos t) then p = 0 else p = S (d_pos t))%nat -> p = (length (h ++ [id]) mod WIN)%nat).
  { intros p. rewrite length_app. cbn. destruct (Nat.leb_spec WIN (S (d_pos t))); intros ->.
    - symmetry. apply Nat.Div0.mod_divides. exists (S (length h / WIN)). nia.
    - rewrite <- Nat.Div0.add_mod_idemp_l, <- Hp, Nat.mod_small; lia. }
  destruct (Nat.leb_spec WIN (S (d_pos t))) as [Hfull|Hroom]; split; cbn [d_pos d_entries d_filled]; try (rewrite length_insert; done); try (by apply Hpos); try done.
  - symmetry. apply Nat.leb_le. rewrite length_app. cbn. nia.
  - rewrite Hf, length_app. cbn. destruct (Nat.leb_spec WIN (length h)), (Nat.leb_spec WIN (length h + 1)); try done; [lia|].
    assert (length h = WIN - 1)%nat as Hx by lia. rewrite Hx, Nat.mod_small in Hp by lia. lia.
Qed.

Lemma is_duplicate_spec t h id : track_rel t h -> mq_is_duplicate t id = bool_decide (id ∈ window h).
Proof.
  intros [Hl Hp Hf He]. pose proof window_pos as HW. unfold mq_is_duplicate. rewrite Hf. 
  pose proof (Nat.div_mod_eq (length h) WIN) as Hdm. pose proof (Nat.mod_upper_bound (length h) WIN ltac:(lia)) as Hlt.
  assert (Hiff : id ∈ take (if (WIN <=? length h)%nat then WIN else d_pos t) (d_entries t) <-> id ∈ window h).
  { unfold window. rewrite !list_elem_of_lookup. split.
    - intros [i Hi]. apply lookup_take_Some in Hi as [Hi Hlti].
      assert (Hk : exists k, (length h - WIN <= k < length h)%nat /\ (k mod WIN = i)%nat).
      { destruct (Nat.leb_spec WIN (length h)).
        - destruct (decide (i < length h mod WIN)%nat).
          + exists (length h / WIN * WIN + i)%nat. split; [nia|]. rewrite Nat.add_comm, Nat.Div0.mod_add. apply Nat.mod_small. lia.
          + exists ((length h / WIN - 1) * WIN + i)%nat. assert (1 <= length h / WIN)%nat by (apply Nat.div_le_lower_bound; lia).
            split; [nia|]. rewrite Nat.add_comm, Nat.Div0.mod_add. apply Nat.mod_small. lia.
        - exists i. rewrite Hp, (Nat.mod_small (length h)) in Hlti by lia. split; [lia|]. apply Nat.mod_small. lia. }
      destruct Hk as (k & Hk & <-). exists (k - (length h - WIN))%nat. rewrite lookup_drop. rewrite He in Hi by lia. rewrite <- Hi. f_equal. lia.
    - intros [i Hi]. rewrite lookup_drop in Hi. pose proof (lookup_lt_Some _ _ _ Hi). set (k := (length h - WIN + i)%nat) in *.
      exists (k mod WIN)%nat. apply lookup_take_Some. rewrite He by lia. split; [done|]. destruct (Nat.leb_spec WIN (length h)).
      + apply Nat.mod_upper_bound. lia.
      + rewrite Hp, !Nat.mod_small; lia. }
  apply eq_true_iff_eq. rewrite bool_decide_eq_true, <- Hiff, existsb_exists. split.
  - intros (x & Hx%list_elem_of_In & ->%bool_decide_eq_true). exact Hx.
  - intros Hx. exists id. by rewrite <- list_elem_of_In, bool_decide_eq_true.
Qed.

(** ** Queues that are in order *)

Definition msg_of (c : cell) : option mq_message_t := match c with Msg m => Some m | _ => None end.
Definition contents (q : mq_queue_t) : list mq_message_t := omap msg_of (take (q_count q) (messages q)).
(** The first [q_count] cells hold messages. *)
Definition queue_ok (q : mq_queue_t) : Prop := messages q <> [] /\ exists ms rest, messages q = (Msg <$> ms) ++ rest /\ length ms = q_count q.

Lemma omap_msgs (ms : list mq_message_t) : omap msg_of (Msg <$> ms) = ms.
Proof. induction ms as [|m ms IH]; [done|]. cbn. by f_equal. Qed.
Lemma take_msgs (ms : list mq_message_t) rest : take (length ms) ((Msg <$> ms) ++ rest) = Msg <$> ms.
Proof. rewrite take_app_length'; [done|by rewrite length_fmap]. Qed.
Lemma contents_msgs q ms rest : messages q = (Msg <$> ms) ++ rest -> length ms = q_count q -> contents q = ms.
Proof. intros Hm Hl. unfold contents. rewrite Hm, <- Hl, take_msgs. apply omap_msgs. Qed.
Lemma contents_length q : queue_ok q -> length (contents q) = q_count q.
Proof. intros (_ & ms & rest & Hm & Hl). by rewrite (contents_msgs q ms rest). Qed.
Lemma queue_ok_cell q j m : queue_ok q -> contents q !! j = Some m -> messages q !! j = Some (Msg m).
Proof.
  intros (_ & ms & rest & Hm & Hl) Hj. rewrite (contents_msgs q ms rest Hm Hl) in Hj. rewrite Hm, lookup_app_l by (rewrite length_fmap; by eapply lookup_lt_Some).
  rewrite list_lookup_fmap. by rewrite Hj.
Qed.

Lemma push_message_spec m q : queue_ok q -> exists q', push_message m q = Some q' /\ queue_ok q' /\ contents q' = contents q ++ [m] /\
  q_count q' = S (q_count q) /\ q_name q' = q_name q /\ max_length q' = max_length q /\ dlx q' = dlx q.
Proof.
  intros (Hne & ms & rest & Hm & Hl). rewrite (contents_msgs q ms rest Hm Hl). unfold push_message.
  set (q1 := if (_ <=? _)%nat then _ else q).
  assert (Hq1 : exists (c : cell) (rest1 : list cell), messages q1 = (Msg <$> ms) ++ c :: rest1 /\ q_count q1 = q_count q /\ q_name q1 = q_name q /\ max_length q1 = max_length q /\ dlx q1 = dlx q).
  { subst q1. destruct (Nat.leb_spec (length (messages q)) (q_count q)) as [Hfull|Hroom]; unfold set; cbn [messages q_count q_name max_length dlx].
    - rewrite Hm, length_app, length_fmap in Hfull. destruct rest as [|c rest]; [|cbn in Hfull; lia]. rewrite app_nil_r in Hm. rewrite Hm, length_fmap.
      destruct ms as [|m0 ms]; [by rewrite Hm in Hne|]. by eexists _, _.
    - rewrite Hm, length_app, length_fmap in Hroom. destruct rest as [|c rest]; [cbn in Hroom; lia|]. by exists c, rest. }
  destruct Hq1 as (c & rest1 & Hm1 & Hc & Hn & Hx & Hd). clearbody q1. rewrite (proj2 (Nat.ltb_lt _ _)) by (rewrite Hm1, length_app, length_fmap; cbn; lia).
  assert (Hm2 : <[q_count q1 := Msg m]> (messages q1) = (Msg <$> ms ++ [m]) ++ rest1).
  { rewrite Hm1, Hc, <- Hl, insert_app_r_alt by (rewrite length_fmap; lia). rewrite length_fmap, Nat.sub_diag. cbn. by rewrite fmap_app, <- app_assoc. }
  unfold set. eexists. split; [done|]. rewrite Hm2, Hc, <- Hl. split_and!; cbn [messages q_count q_name max_length dlx]; [..|done|done|done|done].
  - split; [cbn; by destruct ms|]. exists (ms ++ [m]), rest1. split; [done|]. rewrite length_app. cbn. lia.
  - apply (contents_msgs _ (ms ++ [m]) rest1); [done|]. cbn. rewrite length_app. cbn. lia.
Qed.

Definition total (l : list mq_queue_t) : Z := foldr (fun q n => Z.of_nat (q_count q) + n) 0 l.

(** ** The two loops of a delivery *)

Section delivery.
Context {W : Type}.
Notation state := (@mq_state W).
Definition with_queues (qs : list mq_queue_t) (s : state) : state := s <| broker := (broker s) <| queues := qs |> |>.

Lemma with_queues_queues qs (s : state) : queues (broker (with_queues qs s)) = qs.
Proof. by destruct s as [[] ? ?]. Qed.
Lemma with_queues_id (s : state) : with_queues (queues (broker s)) s = s.
Proof. destruct s as [[] ? ?]. done. Qed.

Context (step : list Z -> nat -> Z * state -> option (Z * state)) (f : list Z -> mq_queue_t -> mq_queue_t) (P : mq_queue_t -> Prop).
Context (Hf : forall t q, P q -> P (f t q)).
Context (Hstep : forall t pre q post d s, P q ->
  step t (length pre) (d, with_queues (pre ++ q :: post) s) = Some (d + (Z.of_nat (q_count (f t q)) - Z.of_nat (q_count q)), with_queues (pre ++ f t q :: post) s)).

Lemma each_queue t l : forall pre post d s, Forall P l ->
  each (step t) (seq (length pre) (length l)) (d, with_queues (pre ++ l ++ post) s) =
  Some (d + (total (f t <$> l) - total l), with_queues (pre ++ (f t <$> l) ++ post) s).
Proof.
  induction l as [|q l IH]; intros pre post d s Hl; [cbn; by rewrite Z.add_0_r|]. apply Forall_cons in Hl as [Hq Hl].
  cbn [length seq each app]. rewrite Hstep by done. cbn [mbind option_bind]. specialize (IH (pre ++ [f t q]) post (d + (Z.of_nat (q_count (f t q)) - Z.of_nat (q_count q))) s Hl).
  rewrite length_app in IH. cbn [length] in IH. rewrite Nat.add_1_r, <- !app_assoc in IH. cbn [app] in IH. rewrite IH. f_equal. f_equal. unfold total. cbn. lia.
Qed.

Context (sel : mq_binding_t -> bool).
Definition through (bs : list mq_binding_t) (live : list mq_queue_t) : list mq_queue_t :=
  foldl (fun l bd => f (b_queue bd) <$> l) live (List.filter sel bs).

Lemma each_binding bs : forall live post d s, Forall P live ->
  each (fun bd ds => if sel bd then each (step (b_queue bd)) (seq 0 (length live)) ds else Some ds) bs (d, with_queues (live ++ post) s) =
  Some (d + (total (through bs live) - total live), with_queues (through bs live ++ post) s) /\ Forall P (through bs live).
Proof.
  induction bs as [|bd bs IH]; intros live post d s Hl; [split; [by cbn; rewrite Z.sub_diag, Z.add_0_r|done]|]. unfold through. cbn [each List.filter]. destruct (sel bd); cbn [foldl].
  - pose proof (each_queue (b_queue bd) live [] post d s Hl) as Hq. cbn [app length] in Hq. rewrite Hq. cbn [mbind option_bind].
    destruct (IH (f (b_queue bd) <$> live) post (d + (total (f (b_queue bd) <$> live) - total live)) s) as [IH1 IH2].
    { apply Forall_fmap. eapply Forall_impl; [exact Hl|]. intros q. apply Hf. }
    rewrite length_fmap in IH1. fold (through bs (f (b_queue bd) <$> live)). rewrite IH1. split; [|done]. f_equal. f_equal. lia.
  - cbn [mbind option_bind]. apply IH. done.
Qed.

Lemma through_length bs live : length (through bs live) = length live.
Proof. unfold through. revert live. induction (List.filter sel bs) as [|bd l IH]; intros live; cbn [foldl]; [done|]. by rewrite IH, length_fmap. Qed.

(** What becomes of one queue. *)
Lemma through_lookup bs : forall live j, through bs live !! j = (fun q => foldl (fun q bd => f (b_queue bd) q) q (List.filter sel bs)) <$> live !! j.
Proof.
  unfold through. induction (List.filter sel bs) as [|bd l IH]; intros live j; cbn; [by destruct (live !! j)|].
  rewrite IH, list_lookup_fmap. by destruct (live !! j).
Qed.
End delivery.

(** ** Publishing *)

Definition broker_ok (b : mq_broker) : Prop :=
  (queue_count b <= length (queues b))%nat /\ Forall queue_ok (take (queue_count b) (queues b)).
Definition full (q : mq_queue_t) : bool := (0 <? max_length q) && (max_length q <=? Z.of_nat (q_count q)).
Definition pushed (m : mq_message_t) (q : mq_queue_t) : mq_queue_t := default q (push_message m q).
Definition accept (m : mq_message_t) (target : list Z) (q : mq_queue_t) : mq_queue_t :=
  if bool_decide (q_name q = target) && negb (full q) then pushed m q else q.
Definition accept_topic (m : mq_message_t) (target : list Z) (q : mq_queue_t) : mq_queue_t :=
  if bool_decide (q_name q = target) then pushed m q else q.
(** How many copies a queue takes of [k] offered. *)
Definition room (q : mq_queue_t) (k : nat) : nat :=
  if 0 <? max_length q then Nat.min k (Z.to_nat (max_length q - Z.of_nat (q_count q))) else k.
(** What a queue looks like after [k] copies of [m] were added. *)
Record grown (m : mq_message_t) (k : nat) (q q' : mq_queue_t) : Prop := {
  gr_ok : queue_ok q'; gr_name : q_name q' = q_name q; gr_max : max_length q' = max_length q; gr_dlx : dlx q' = dlx q;
  gr_contents : contents q' = contents q ++ replicate k m;
}.

Lemma grown_refl m q : queue_ok q -> grown m 0 q q.
Proof. intros Hq. split; [done..|]. by rewrite app_nil_r. Qed.
Lemma grown_pushed m k q q' : grown m k q q' -> grown m (S k) q (pushed m q').
Proof.
  intros [H1 H2 H3 H4 H5]. unfold pushed. destruct (push_message_spec m q' H1) as (q2 & -> & Hok & Hc & _ & Hn & Hx & Hd). cbn [from_option id].
  split; [done|congruence|congruence|congruence|]. by rewrite Hc, H5, <- app_assoc, <- replicate_S_end.
Qed.
Lemma grown_count m k q q' : grown m k q q' -> queue_ok q -> q_count q' = (q_count q + k)%nat.
Proof. intros [H1 _ _ _ H5] Hq. rewrite <- (contents_length q'), <- (contents_length q), H5, length_app, length_replicate by done. done. Qed.

Lemma grown_trans m a b q q1 q2 : grown m a q q1 -> grown m b q1 q2 -> grown m (a + b) q q2.
Proof. intros [] []. split; [done|congruence|congruence|congruence|]. by rewrite gr_contents1, gr_contents0, <- app_assoc, replicate_add. Qed.

Lemma room_step m a q q1 b : queue_ok q -> grown m (room q a) q q1 -> room q (a + b) = (room q a + room q1 b)%nat.
Proof.
  intros Hq Hg. pose proof (grown_count _ _ _ _ Hg Hq) as Hc. destruct Hg as [_ _ Hm _ _]. unfold room in *. rewrite Hm, Hc.
  destruct (Z.ltb_spec 0 (max_length q)); lia.
Qed.

Definition offers (sel : mq_binding_t -> bool) (bs : list mq_binding_t) (q : mq_queue_t) : nat :=
  count_if (fun bd => sel bd && bool_decide (b_queue bd = q_name q)) bs.
Lemma offers_cons sel bd bs q : offers sel (bd :: bs) q = ((if sel bd && bool_decide (b_queue bd = q_name q) then 1 else 0) + offers sel bs q)%nat.
Proof. unfold offers, count_if. cbn. by destruct (sel bd && _). Qed.

Lemma accept_grown m sel bs : forall q, queue_ok q ->
  grown m (room q (offers sel bs q)) q (foldl (fun q bd => accept m (b_queue bd) q) q (List.filter sel bs)).
Proof.
  induction bs as [|bd bs IH]; intros q Hq.
  - replace (room q (offers sel [] q)) with 0%nat by (unfold room, offers; cbn; by destruct (0 <? max_length q)). by apply grown_refl.
  - rewrite offers_cons. cbn [List.filter].
    assert (Hone : grown m (room q (if sel bd && bool_decide (b_queue bd = q_name q) then 1 else 0)) q (if sel bd then accept m (b_queue bd) q else q)).
    { assert (Hzero : room q 0 = 0%nat) by (unfold room; by destruct (0 <? max_length q)).
      destruct (sel bd); cbn [andb]; [|rewrite Hzero; by apply grown_refl]. unfold accept.
      rewrite (bool_decide_ext (q_name q = b_queue bd) (b_queue bd = q_name q)) by done.
      case_bool_decide; cbn [andb]; [|rewrite Hzero; by apply grown_refl]. unfold full, room. destruct (Z.ltb_spec 0 (max_length q)); cbn [andb negb].
      - destruct (Z.leb_spec (max_length q) (Z.of_nat (q_count q))); cbn [negb].
        + replace (Nat.min 1 _) with 0%nat by lia. by apply grown_refl.
        + replace (Nat.min 1 _) with 1%nat by lia. apply grown_pushed. by apply grown_refl.
      - apply grown_pushed. by apply grown_refl. }
    rewrite (room_step m _ q _ _ Hq Hone). replace (offers sel bs q) with (offers sel bs (if sel bd then accept m (b_queue bd) q else q)).
    2: { unfold offers. by rewrite (gr_name _ _ _ _ Hone). }
    eapply grown_trans; [exact Hone|]. destruct (sel bd); cbn [foldl]; apply IH; apply Hone.
Qed.

Lemma accept_topic_grown m sel bs : forall q, queue_ok q ->
  grown m (offers sel bs q) q (foldl (fun q bd => accept_topic m (b_queue bd) q) q (List.filter sel bs)).
Proof.
  induction bs as [|bd bs IH]; intros q Hq; [by apply grown_refl|]. rewrite offers_cons. cbn [List.filter].
  assert (Hone : grown m (if sel bd && bool_decide (b_queue bd = q_name q) then 1 else 0) q (if sel bd then accept_topic m (b_queue bd) q else q)).
  { destruct (sel bd); cbn [andb]; [|by apply grown_refl]. unfold accept_topic. rewrite (bool_decide_ext (q_name q = b_queue bd) (b_queue bd = q_name q)) by done.
    case_bool_decide; [apply grown_pushed|]; by apply grown_refl. }
  replace (offers sel bs q) with (offers sel bs (if sel bd then accept_topic m (b_queue bd) q else q)) by (unfold offers; by rewrite (gr_name _ _ _ _ Hone)).
  eapply grown_trans; [exact Hone|]. destruct (sel bd); cbn [foldl]; apply IH; apply Hone.
Qed.

Section publish.
Context {W : Type} (ch : mq_channel) (m : mq_message_t).
Notation state := (@mq_state W).

(** What a publication does to a broker in order: [copies] of the message for each queue in use. *)
Definition published (copies : mq_queue_t -> nat) (s : state) (r : Z) (s' : state) : Prop :=
  exists live', let b := broker s in let live := take (queue_count b) (queues b) in
    let s1 := with_queues (live' ++ drop (queue_count b) (queues b)) s in
    Forall2 (fun q q' => grown m (copies q) q q') live live' /\ broker_ok (broker s1) /\
    (if bool_decide (Exists (fun q => copies q <> 0%nat) live) then r = 0 /\ s' = confirm ch m s1 else r = -1 /\ s' = s1).

Lemma total_grown (copies : mq_queue_t -> nat) live live' : Forall queue_ok live -> Forall2 (fun q q' => grown m (copies q) q q') live live' ->
  total live' - total live >= 0 /\ (0 <? total live' - total live) = bool_decide (Exists (fun q => copies q <> 0%nat) live).
Proof.
  intros Hok. induction 1 as [|q q' l l' Hg HF IH]; [split; [done|by rewrite bool_decide_eq_false_2 by (by intros ?%Exists_nil)]|].
  apply Forall_cons in Hok as [Hq Hl]. destruct (IH Hl) as [IH1 IH2]. rewrite (bool_decide_ext _ _ (Exists_cons _ q l)). cbn [total foldr]. fold (total l) (total l').
  rewrite (grown_count _ _ _ _ Hg Hq). split; [lia|]. rewrite bool_decide_or, <- IH2.
  destruct (decide (copies q = 0%nat)) as [->|Hne]; [|rewrite (bool_decide_eq_true_2 (copies q <> 0%nat)) by done; apply Z.ltb_lt; cbn; lia].
  rewrite (bool_decide_eq_false_2 (0%nat <> 0%nat)) by lia. cbn [orb]. f_equal. lia.
Qed.

(** The outer loop, once the effect [f] of one delivery on one queue is known. *)
Lemma published_loop (step : list Z -> nat -> Z * state -> option (Z * state)) f P copies sel s :
  (forall t q, P q -> P (f t q)) ->
  (forall t pre q post d s, P q ->
    step t (length pre) (d, with_queues (pre ++ q :: post) s) = Some (d + (Z.of_nat (q_count (f t q)) - Z.of_nat (q_count q)), with_queues (pre ++ f t q :: post) s)) ->
  (forall q, queue_ok q -> grown m (copies q) q (foldl (fun q bd => f (b_queue bd) q) q (List.filter sel (bindings (broker s))))) ->
  broker_ok (broker s) -> Forall P (take (queue_count (broker s)) (queues (broker s))) ->
  exists r s', (' (delivered, s') ← each (fun bd ds => if sel bd then each (step (b_queue bd)) (seq 0 (queue_count (broker s))) ds else Some ds) (bindings (broker s)) (0, s);
     Some (if 0 <? delivered then (0, confirm ch m s') else (-1, s'))) = Some (r, s') /\ published copies s r s'.
Proof.
  intros Hf Hstep Hg [Hn Hok] HP. set (b := broker s) in *. set (live := take (queue_count b) (queues b)) in *. set (post := drop (queue_count b) (queues b)).
  assert (Hlen : length live = queue_count b) by (subst live; rewrite length_take; lia).
  destruct (each_binding step f P Hf Hstep sel (bindings b) live post 0 s HP) as [He _]. rewrite Hlen in He.
  replace (live ++ post) with (queues b) in He by (symmetry; apply take_drop). subst b. rewrite with_queues_id in He. rewrite He. cbn [mbind option_bind]. rewrite Z.add_0_l.
  set (live' := through f sel _ live) in *.
  assert (HF : Forall2 (fun q q' => grown m (copies q) q q') live live').
  { apply Forall2_same_length_lookup. assert (Hl' : length live = length live').
    - subst live'. by rewrite through_length.
    - split; [done|]. intros j q q' Hq Hq'. subst live'. rewrite through_lookup, Hq in Hq'. cbn in Hq'. injection Hq' as <-. apply Hg.
      rewrite Forall_lookup in Hok. by eapply Hok. }
  destruct (total_grown copies live live' Hok HF) as [_ ->]. set (s1 := with_queues (live' ++ post) s).
  assert (Hok' : broker_ok (broker s1)).
  { split; cbn; [rewrite length_app; apply Forall2_length in HF; lia|].
    rewrite take_app_length' by (apply Forall2_length in HF; lia). apply Forall_lookup. intros j q' Hq'.
    destruct (Forall2_lookup_r _ _ _ _ _ HF Hq') as (q & _ & Hgr). apply Hgr. }
  unfold published. fold live post. destruct (bool_decide (Exists _ live)); eexists _, _; (split; [done|]); by exists live'.
Qed.
End publish.

Section routing.
Context {W : Type} (ch : mq_channel) (m : mq_message_t).
Notation state := (@mq_state W).

Lemma set_queue_middle pre q q' post (s : state) : set_queue (length pre) q' (with_queues (pre ++ q :: post) s) = with_queues (pre ++ q' :: post) s.
Proof. destruct s as [[] ? ?]. unfold set_queue, with_queues, set. cbn. by rewrite insert_app_r_alt, Nat.sub_diag by done. Qed.

Lemma push_step q (d : Z) pre post (s : state) : queue_ok q ->
  (q' ← push_message m q; Some (d + 1, set_queue (length pre) q' (with_queues (pre ++ q :: post) s))) =
  Some (d + (Z.of_nat (q_count (pushed m q)) - Z.of_nat (q_count q)), with_queues (pre ++ pushed m q :: post) s).
Proof.
  intros Hq. unfold pushed. destruct (push_message_spec m q Hq) as (q' & -> & _ & _ & Hc & _). cbn [mbind option_bind from_option id].
  rewrite Hc, set_queue_middle. f_equal. f_equal. lia.
Qed.

(** Publishing on a broker whose queues do not dead-letter appends the message to
    each queue once for every binding that leads there, as far as the queue has room,
    and to no other; the result is 0, with one confirmation, when some queue took it. *)
Theorem mq_basic_publish_correct fuel exchange routing_key (s : state) :
  broker_ok (broker s) -> Forall (fun q => dlx q = []) (take (queue_count (broker s)) (queues (broker s))) ->
  exists r s', mq_basic_publish (S fuel) ch exchange routing_key m s = Some (r, s') /\
    published ch m (fun q => room q (offers (routes (broker s) exchange routing_key) (bindings (broker s)) q)) s r s'.
Proof.
  intros Hok Hd. cbn [mq_basic_publish]. set (dead := fun x rk m s => _).
  apply (published_loop ch m (fun t => deliver dead t m) (accept m) (fun q => queue_ok q /\ dlx q = []) _ (routes (broker s) exchange routing_key) s).
  - intros t q [Hq Hdl]. unfold accept, pushed. destruct (_ && _); [|done]. destruct (push_message_spec m q Hq) as (q' & -> & ? & _ & _ & _ & _ & Hd'). cbn. by rewrite Hd'.
  - intros t pre q post d s0 [Hq Hdl]. unfold deliver. rewrite with_queues_queues, list_lookup_middle by done. cbn [mbind option_bind]. unfold accept, full. rewrite Hdl.
    case_bool_decide as Hn; cbn [andb]; [|by rewrite Z.sub_diag, Z.add_0_r].
    destruct (_ && _); cbn [negb]; [by rewrite Z.sub_diag, Z.add_0_r|]. by apply push_step.
  - intros q Hq. by apply accept_grown.
  - done.
  - apply Forall_and. split; [apply Hok|done].
Qed.

(** Through [mq_basic_publish_topic] even full queues take the message. *)
Theorem mq_basic_publish_topic_correct exchange routing_key ex (s : state) : broker_ok (broker s) ->
  (find_exchange (broker s) exchange ≫= (exchanges (broker s) !!.)) = Some ex ->
  exists r s', mq_basic_publish_topic ch exchange routing_key m s = Some (r, s') /\
    published ch m (offers (fun bd => bool_decide (b_exchange bd = exchange) && topic_routes (e_type ex) routing_key bd) (bindings (broker s))) s r s'.
Proof.
  intros Hok Hex. unfold mq_basic_publish_topic. rewrite Hex. apply (published_loop ch m (fun t => deliver_topic t m) (accept_topic m) queue_ok _
    (fun bd => bool_decide (b_exchange bd = exchange) && topic_routes (e_type ex) routing_key bd) s).
  - intros t q Hq. unfold accept_topic, pushed. case_bool_decide; [|done]. destruct (push_message_spec m q Hq) as (q' & -> & ? & _). done.
  - intros t pre q post d s0 Hq. unfold deliver_topic. rewrite with_queues_queues, list_lookup_middle by done. cbn [mbind option_bind]. unfold accept_topic.
    case_bool_decide as Hn; [|by rewrite Z.sub_diag, Z.add_0_r]. by apply push_step.
  - intros q Hq. by apply accept_topic_grown.
  - done.
  - apply Hok.
Qed.
End routing.

(** ** Consuming *)

Section consuming.
Context {W : Type} (consume : Z -> Z -> mq_message_t -> W -> Z * mq_message_t * W).
Notation state := (@mq_state W).

(** The messages that stay, the calls and the world after the callback has seen
    [ms], the first of them at position [j]. *)
Fixpoint consumed (cb ud : Z) (clock : nat -> Z) (j : nat) (ms : list mq_message_t) (w : W) : list mq_message_t * list mq_call * W :=
  match ms with
  | [] => ([], [], w)
  | m :: ms' =>
      if expired (clock j) m then consumed cb ud clock (S j) ms' w
      else
        let '(ack, m', w) := consume cb ud m w in
        let '(kept, calls, w) := consumed cb ud clock (S j) ms' w in
        (if (ack =? MQ_ACK_SUCCESS) || (ack =? MQ_ACK_NACK) then kept else m' :: kept, Consumed cb m ud :: calls, w)
  end.

(** Queue [i] of the broker with the given cells. *)
Definition with_cells (i : nat) (l : list cell) (s : state) : state :=
  s <| broker := (broker s) <| queues ::= alter (fun q => q <| messages := l |>) i |> |>.

Lemma alter_twice {A} (f g : A -> A) (i : nat) (l : list A) : alter f i (alter g i l) = alter (fun x => f (g x)) i l.
Proof. revert i. induction l as [|x l IH]; intros [|i]; cbn; [done..|]. f_equal. apply IH. Qed.

Lemma set_cell_with i j c l (s : state) : set_cell i j c (with_cells i l s) = with_cells i (<[j := c]> l) s.
Proof. destruct s as [[] ? ?]. unfold set_cell, with_cells, set. cbn. f_equal. f_equal. apply alter_twice. Qed.

Lemma with_cells_lookup i l (s : state) q : queues (broker s) !! i = Some q -> queues (broker (with_cells i l s)) !! i = Some (q <| messages := l |>).
Proof. intros Hi. destruct s as [[] ? ?]. unfold with_cells, set. cbn in *. by rewrite list_lookup_alter_eq, Hi. Qed.

Lemma with_cells_state i l (s : state) w cs :
  mk_state (broker (with_cells i l s)) w cs = with_cells i l (mk_state (broker s) w cs).
Proof. by destruct s as [[] ? ?]. Qed.

Lemma set_cell_done i c (d : list cell) x rest (s : state) : set_cell i (length d) c (with_cells i (d ++ x :: rest) s) = with_cells i ((d ++ [c]) ++ rest) s.
Proof. rewrite set_cell_with, insert_app_r_alt, Nat.sub_diag, <- app_assoc by done. done. Qed.

Lemma consume_loop_spec fuel ch cb ud clock i q ms : forall n d rest (s : state),
  queues (broker s) !! i = Some q -> dlx q = [] -> q_count q = (length d + length ms)%nat -> (length ms <= n)%nat ->
  let '(kept, calls', w') := consumed cb ud clock (length d) ms (world s) in
  exists d', consume_loop consume n fuel ch cb ud clock i (length d) (with_cells i (d ++ (Msg <$> ms) ++ rest) s) =
    Some (with_cells i (d ++ d' ++ rest) (mk_state (broker s) w' (calls s ++ calls'))) /\
    length d' = length ms /\ List.filter (fun c => negb (is_null c)) d' = Msg <$> kept.
Proof.
  induction ms as [|m ms IH]; intros n d rest s Hi Hd Hc Hn.
  - exists []. split; [|done]. destruct n; cbn [consume_loop]; rewrite (with_cells_lookup i _ s q Hi); cbn [mbind option_bind];
      (rewrite (proj2 (Nat.leb_le _ _)) by (unfold set; cbn in *; lia)); destruct s; cbn; by rewrite app_nil_r.
  - destruct n as [|n]; [cbn in Hn; lia|]. cbn [consumed consume_loop fmap list_fmap app].
    assert (Hgo : forall c (s1 : state), broker s1 = broker s ->
      let '(kept, calls', w') := consumed cb ud clock (S (length d)) ms (world s1) in
      exists d', consume_loop consume n fuel ch cb ud clock i (S (length d)) (with_cells i ((d ++ [c]) ++ (Msg <$> ms) ++ rest) s1) =
        Some (with_cells i (d ++ (c :: d') ++ rest) (mk_state (broker s) w' (calls s1 ++ calls'))) /\
        length (c :: d') = S (length ms) /\ List.filter (fun c => negb (is_null c)) d' = Msg <$> kept).
    { intros c s1 Hb. specialize (IH n (d ++ [c]) rest s1). rewrite length_app, Nat.add_1_r, Hb in IH. cbn in Hc, Hn. specialize (IH Hi Hd ltac:(lia) ltac:(lia)).
      destruct (consumed cb ud clock (S (length d)) ms (world s1)) as [[kept calls'] w']. destruct IH as (d' & He & Hl & Hf). exists d'.
      split; [|by rewrite <- Hl]. by rewrite He, <- app_assoc. }
    rewrite (with_cells_lookup i _ s q Hi). cbn [mbind option_bind].
    set (q1 := q <| messages := _ |>). change (q_count q1) with (q_count q). change (messages q1) with (d ++ Msg m :: (Msg <$> ms) ++ rest).
    assert (Hd1 : dlx q1 = []) by done. clearbody q1. rewrite (proj2 (Nat.leb_gt _ _)) by (cbn in Hc; lia). rewrite list_lookup_middle by done. destruct (expired (clock (length d)) m).
    + unfold dead_letter. rewrite Hd1. cbn [mbind option_bind]. rewrite set_cell_done. specialize (Hgo Null s eq_refl).
      destruct (consumed _ _ _ _ _ _) as [[kept calls'] w']. destruct Hgo as (d' & He & Hl & Hf). exists (Null :: d'). by rewrite He.
    + assert (Hw : world (with_cells i (d ++ Msg m :: (Msg <$> ms) ++ rest) s) = world s /\ calls (with_cells i (d ++ Msg m :: (Msg <$> ms) ++ rest) s) = calls s) by (by destruct s as [[] ? ?]).
      destruct Hw as [-> ->]. destruct (consume cb ud m (world s)) as [[ack m'] w] eqn:Hcb. rewrite with_cells_state, !set_cell_done.
      set (s1 := mk_state (broker s) w (calls s ++ [Consumed cb m ud])).
      pose proof (Hgo Null s1 eq_refl) as HN. pose proof (Hgo (Msg m') s1 eq_refl) as HM. cbn [world calls s1] in HN, HM.
      destruct (consumed cb ud clock (S (length d)) ms w) as [[kept calls'] w'].
      destruct HN as (dN & HeN & HlN & HfN), HM as (dM & HeM & HlM & HfM). rewrite <- (app_assoc (calls s)) in HeN, HeM. cbn [app] in HeN, HeM.
      destruct (ack =? MQ_ACK_SUCCESS); cbn [orb]; [by exists (Null :: dN); rewrite HeN|]. destruct (ack =? MQ_ACK_NACK); [|exists (Msg m' :: dM); rewrite HeM; cbn; by rewrite HfM].
      exists (Null :: dN). split; [|done]. unfold dead_letter. rewrite Hd1. cbn [app]. rewrite <- HeN.
      destruct (msg_retry_count m' <? msg_max_retries m'); cbn [mbind option_bind]; [|by rewrite set_cell_done].
      rewrite <- (app_assoc d [Msg _]). cbn [app]. by rewrite set_cell_done.
Qed.

Lemma alter_as_insert {A} (f : A -> A) (i : nat) x (l : list A) : l !! i = Some x -> alter f i l = <[i := f x]> l.
Proof. revert i. induction l as [|y l IH]; intros [|i] Hi; cbn in *; [done|done|by injection Hi as ->|]. f_equal. by apply IH. Qed.

Lemma compact_spec q d' kept rest : messages q = d' ++ rest -> q_count q = length d' -> messages q <> [] ->
  List.filter (fun c => negb (is_null c)) d' = Msg <$> kept -> queue_ok (compact q) /\ contents (compact q) = kept.
Proof.
  intros Hm Hc Hne Hk. unfold compact. rewrite Hm, Hc, take_app_length, Hk, length_fmap.
  assert (Hle : (length kept <= length d')%nat) by (rewrite <- (length_fmap Msg kept), <- Hk; apply List.filter_length_le).
  split; [|by eapply contents_msgs]. split; [|by eexists kept, _].
  cbn. destruct kept as [|m kept]; [|done]. cbn. by rewrite drop_0, ?Hm, <- ?Hm.
Qed.

(** Consuming a queue that does not dead-letter shows the callback every message
    that has not expired, once and in order; those it asks to requeue stay, in
    order, all others are gone, also those it refuses before their retries are used up. *)
Theorem mq_basic_consume_correct n fuel ch queue cb ud clock (s : state) i q :
  broker_ok (broker s) -> find_queue (broker s) queue = Some i -> queues (broker s) !! i = Some q -> dlx q = [] -> (q_count q <= n)%nat ->
  let '(kept, cs, w') := consumed cb ud clock 0 (contents q) (world s) in
  exists q', mq_basic_consume consume n fuel ch queue cb ud clock s =
      Some (0, mk_state ((broker s) <| queues := <[i := q']> (queues (broker s)) |>) w' (calls s ++ cs)) /\
    queue_ok q' /\ contents q' = kept /\ q_name q' = q_name q.
Proof.
  intros [_ Hok] Hf Hi Hd Hn. assert (Hlt : (i < queue_count (broker s))%nat).
  { unfold find_queue in Hf. apply find_idx_Some in Hf as (x & Hx & _). apply lookup_take_Some in Hx as [_ ?]. done. }
  assert (Hq : queue_ok q) by (rewrite Forall_lookup in Hok; apply (Hok i); by rewrite lookup_take_lt).
  destruct Hq as (Hne & ms & rest & Hm & Hl). rewrite (contents_msgs q ms rest Hm Hl). unfold mq_basic_consume. rewrite Hf.
  set (q0 := q <| consumer_cb := Some cb |> <| consumer_data := ud |>). set (s0 := s <| broker := _ |>).
  assert (Hs0 : s0 = mk_state ((broker s) <| queues := <[i := q0]> (queues (broker s)) |>) (world s) (calls s)).
  { subst s0 q0. destruct s as [[] ? ?]. unfold set. cbn in *. by rewrite (alter_as_insert _ i q) by done. }
  assert (Hi0 : queues (broker s0) !! i = Some q0) by (rewrite Hs0; cbn; apply list_lookup_insert_eq; by eapply lookup_lt_Some).
  pose proof (consume_loop_spec fuel ch cb ud clock i q0 ms n [] rest s0 Hi0 Hd (eq_sym Hl) ltac:(lia)) as Hloop. cbn [length app] in Hloop.
  assert (Hsame : with_cells i ((Msg <$> ms) ++ rest) s0 = s0).
  { rewrite <- Hm. rewrite Hs0. unfold with_cells, set. cbn. rewrite (alter_as_insert _ i q0) by (apply list_lookup_insert_eq; by eapply lookup_lt_Some).
    by rewrite list_insert_insert_eq. }
  rewrite Hsame in Hloop. assert (Hw : world s0 = world s /\ calls s0 = calls s) by (by rewrite Hs0). destruct Hw as [Hw Hcs]. rewrite Hw, Hcs in Hloop.
  destruct (consumed cb ud clock 0 ms (world s)) as [[kept cs] w']. destruct Hloop as (d' & -> & Hl' & Hk). cbn [mbind option_bind].
  set (q1 := q0 <| messages := d' ++ rest |>). exists (compact q1). split; [|split; [|split]].
  - unfold with_cells. rewrite Hs0. unfold set. cbn. rewrite alter_twice, (alter_as_insert _ i q0) by (apply list_lookup_insert_eq; by eapply lookup_lt_Some).
    by rewrite list_insert_insert_eq.
  - apply (compact_spec q1 d' kept rest); [done|cbn; lia| |done]. cbn. rewrite Hm in Hne. destruct ms, d'; done.
  - apply (compact_spec q1 d' kept rest); [done|cbn; lia| |done]. cbn. rewrite Hm in Hne. destruct ms, d'; done.
  - done.
Qed.
End consuming.

(** ** Priorities *)

Section priorities.
Context {W : Type} (consume : Z -> Z -> mq_message_t -> W -> Z * mq_message_t * W).
Notation state := (@mq_state W).
Notation entry := (Z * nat)%type.

Lemma pushes_spec (entries : list entry) : forall pq, heap_ok fst pq -> exists pq',
  each (fun e pq => mq_pq_push pq e.1 e.2) entries pq = Some pq' /\ heap_ok fst pq' /\ pq' ≡ₚ entries ++ pq.
Proof.
  induction entries as [|[p j] entries IH]; intros pq Hok; [by exists pq|]. cbn [each].
  destruct (heap_push_spec fst pq (p, j) Hok) as (pq1 & Hp & Hperm & Hok1). unfold mq_pq_push. cbn [fst snd]. rewrite Hp. cbn [mbind option_bind].
  destruct (IH pq1 Hok1) as (pq' & He & Hok' & Hperm'). exists pq'. split; [done|]. split; [done|]. rewrite Hperm', Hperm. cbn. by rewrite Permutation_middle.
Qed.

Lemma pop_spec (e : entry) (pq : list entry) : heap_ok fst (e :: pq) -> exists pq',
  mq_pq_pop (e :: pq) = Some (Some e, pq') /\ heap_ok fst pq' /\ pq' ≡ₚ pq.
Proof.
  intros Hok. unfold mq_pq_pop. destruct pq as [|e1 pq].
  - exists []. split; [done|]. split; [apply heap_ok_nil|done].
  - destruct (heap_pop_spec fst (e :: e1 :: pq) e Hok eq_refl) as (h' & Hd & Hperm & Hok'); [cbn; lia|]. exists h'.
    pose proof (swap_remove_length 0 e (e :: e1 :: pq) eq_refl) as Hl. rewrite (proj2 (Nat.ltb_lt 0 _)) by (cbn in *; lia). rewrite Hd.
    split; [done|]. split; [done|]. symmetry. by apply Permutation_cons_inv in Hperm.
Qed.

Definition by_priority (e e' : entry) : Prop := e.1 <= e'.1.

Lemma pop_loop_spec cb ud q : queue_ok q -> forall fuel pq (s : state), heap_ok fst pq -> Forall (fun e => (e.2 < q_count q)%nat) pq -> (length pq < fuel)%nat ->
  exists order w, order ≡ₚ pq /\ StronglySorted by_priority order /\
    pop_loop consume fuel cb ud (messages q) pq s =
    Some (mk_state (broker s) w (calls s ++ ((fun m => Consumed cb m ud) <$> omap (fun e => contents q !! e.2) order))).
Proof.
  intros Hq. induction fuel as [|fuel IH]; intros pq s Hok Hidx Hf; [lia|]. cbn [pop_loop]. destruct pq as [|[p j] pq].
  - exists [], (world s). split; [done|]. split; [constructor|]. cbn. destruct s. by rewrite app_nil_r.
  - destruct (pop_spec (p, j) pq Hok) as (pq' & -> & Hok' & Hperm). cbn [mbind option_bind]. apply Forall_cons in Hidx as [Hj Hidx]. cbn [snd] in Hj.
    destruct (lookup_lt_is_Some_2 (contents q) j) as [m Hm]; [by rewrite contents_length|]. rewrite (queue_ok_cell q j m Hq Hm).
    destruct (consume cb ud m (world s)) as [[ack m'] w]. set (s1 := mk_state _ _ _).
    destruct (IH pq' s1 Hok') as (order & w' & Hp & Hs & ->); [by rewrite Hperm|apply Permutation_length in Hperm; cbn in Hf; lia|].
    exists ((p, j) :: order), w'. split; [by rewrite Hp, Hperm|]. split.
    + constructor; [done|]. apply Forall_forall. intros e He. unfold by_priority. cbn [fst].
      apply (heap_min fst ((p, j) :: pq) (p, j) e Hok eq_refl). right. by rewrite <- Hperm, <- Hp.
    + cbn [calls broker s1]. cbn [omap list_omap]. cbn [snd]. rewrite Hm. cbn [fmap list_fmap]. by rewrite <- app_assoc.
Qed.

(** Consuming by priority shows the callback every message of the queue exactly
    once, lowest number first, and leaves the queue empty whatever it answers. *)
Theorem mq_basic_consume_priority_sorted queue priorities cb ud (s : state) i q :
  broker_ok (broker s) -> find_queue (broker s) queue = Some i -> queues (broker s) !! i = Some q -> q_count q <> 0%nat ->
  exists order w, order ≡ₚ ((fun j => (priority_of priorities j, j)) <$> seq 0 (q_count q)) /\ StronglySorted by_priority order /\
    mq_basic_consume_priority consume queue priorities cb ud s =
    Some (0, mk_state ((broker s) <| queues ::= alter (fun q => q <| q_count := 0%nat |>) i |>) w
               (calls s ++ ((fun m => Consumed cb m ud) <$> omap (fun e => contents q !! e.2) order))).
Proof.
  intros [_ Hall] Hf Hi Hn. assert (Hlt : (i < queue_count (broker s))%nat).
  { unfold find_queue in Hf. apply find_idx_Some in Hf as (x & Hx & _). apply lookup_take_Some in Hx as [_ ?]. done. }
  assert (Hq : queue_ok q) by (rewrite Forall_lookup in Hall; apply (Hall i); by rewrite lookup_take_lt).
  unfold mq_basic_consume_priority. rewrite Hf, Hi. cbn [mbind option_bind]. rewrite (proj2 (Nat.eqb_neq _ _)) by done.
  destruct (pushes_spec ((fun j => (priority_of priorities j, j)) <$> seq 0 (q_count q)) [] (heap_ok_nil fst)) as (pq & He & Hok & Hperm).
  rewrite app_nil_r in Hperm.
  assert (Heach : each (fun (j : nat) pq => mq_pq_push pq (priority_of priorities j) j) (seq 0 (q_count q)) [] = Some pq).
  { rewrite <- He. clear. generalize (@nil entry). induction (seq 0 (q_count q)) as [|j l IH]; intros pq; [done|]. cbn [each fmap list_fmap]. cbn [fst snd].
    destruct (mq_pq_push pq (priority_of priorities j) j); [apply IH|done]. }
  rewrite Heach. cbn [mbind option_bind].
  destruct (pop_loop_spec cb ud q Hq (S (length pq)) pq s Hok) as (order & w & Hp & Hs & ->); [|lia|].
  { rewrite Hperm. apply Forall_fmap, Forall_forall. intros j Hj%elem_of_seq. cbn. lia. }
  exists order, w. split; [by rewrite Hp|]. split; [done|]. cbn [mbind option_bind].
  assert (Hfree : free_messages q = Some tt).
  { destruct Hq as (_ & ms & rest & Hm & Hl). unfold free_messages. rewrite Hm, <- Hl, take_msgs, length_app, length_fmap.
    rewrite (proj2 (Nat.leb_le _ _)) by lia. cbn [andb]. replace (forallb freeable (Msg <$> ms)) with true; [done|]. clear. by induction ms. }
  rewrite Hfree. cbn [mbind option_bind]. by destruct s as [[] ? ?].
Qed.
End priorities.

(** ** Publishing with deduplication *)

Section dedup.
Context {W : Type} (fuel : nat) (ch : mq_channel).
Notation state := (@mq_state W).

Fixpoint dedup_run (requests : list (list Z * option (list Z) * mq_message_t)) (ts : mq_dedup_tracker_t * state) : option (mq_dedup_tracker_t * state) :=
  match requests with
  | [] => Some ts
  | (x, rk, m) :: rs => '(_, ts) ← mq_basic_publish_dedup fuel ch x rk m ts; dedup_run rs ts
  end.
(** The identifiers recorded: those not among the last 10000 recorded before. *)
Definition record_id (h : list (list Z)) (id : list Z) : list (list Z) := if bool_decide (id ∈ window h) then h else h ++ [id].

Lemma dedup_run_history requests : forall t (s : state) h t' s', track_rel t h -> Forall (fun r => (length (message_id r.2) <= 36)%nat) requests ->
  dedup_run requests (t, s) = Some (t', s') -> track_rel t' (foldl record_id h ((fun r => message_id r.2) <$> requests)).
Proof.
  induction requests as [|[[x rk] m] rs IH]; intros t s h t' s' Ht Hids Hrun; cbn [dedup_run] in Hrun; [by injection Hrun as <- <-|].
  apply Forall_cons in Hids as [Hid Hids]. cbn [snd fmap list_fmap foldl] in *. unfold mq_basic_publish_dedup in Hrun. unfold record_id at 2.
  rewrite (is_duplicate_spec t h) in Hrun by done. destruct (bool_decide (message_id m ∈ window h)).
  - cbn [mbind option_bind] in Hrun. by eapply IH.
  - destruct (mq_basic_publish fuel ch x rk m s) as [[r s1]|]; [|done]. cbn [mbind option_bind] in Hrun. eapply IH; [|done|exact Hrun].
    by apply track_rel_record.
Qed.

(** However many messages were published before, a message whose identifier is
    among the last 10000 recorded changes nothing but is confirmed, and any other is
    published as usual and recorded. *)
Theorem mq_basic_publish_dedup_correct requests (s0 : state) t s x rk m :
  Forall (fun r => (length (message_id r.2) <= 36)%nat) requests -> dedup_run requests (mq_dedup_tracker, s0) = Some (t, s) ->
  mq_basic_publish_dedup fuel ch x rk m (t, s) =
    if bool_decide (message_id m ∈ window (foldl record_id [] ((fun r => message_id r.2) <$> requests))) then Some (0, (t, confirm ch m s))
    else '(r, s') ← mq_basic_publish fuel ch x rk m s; Some (r, (mq_dedup_record t (message_id m), s')).
Proof.
  intros Hids Hrun. pose proof (dedup_run_history requests _ _ _ _ _ track_rel_init Hids Hrun) as Ht.
  unfold mq_basic_publish_dedup. by rewrite (is_duplicate_spec _ _ _ Ht).
Qed.
End dedup.

(** ** Examples *)

(** The callback answers with the first byte of the body. *)
Definition answer (_ _ : Z) (m : mq_message_t) (w : unit) : Z * mq_message_t * unit := (nth 0 (msg_body m) 0, m, w).
Definition example_msg (id : string) (ack : Z) : mq_message_t := (mq_message_init 0 (str_bytes id)) <| msg_body := [ack] |>.
Definition example_queue (n : string) (max : Z) (dead : string) : mq_queue_declare_t := mk_qdecl (str_bytes n) 0 0 max (str_bytes dead) [].
(** Exchange x with queue q for key k, and queue r of length 1. *)
Definition example_broker : mq_broker :=
  let b := (mq_exchange_declare mq_broker_create (mk_xdecl (str_bytes "x") MQ_EXCHANGE_DIRECT 0 0)).2 in
  let b := (mq_queue_declare b (example_queue "q" 0 "")).2 in
  let b := (mq_queue_declare b (example_queue "r" 1 "")).2 in
  let b := default (0, b) (mq_queue_bind b (str_bytes "q") (str_bytes "x") (Some (str_bytes "k"))) in
  (default (0, b.2) (mq_queue_bind b.2 (str_bytes "r") (str_bytes "x") (Some (str_bytes "k")))).2.
Definition example_state : @mq_state unit := mk_state example_broker tt [].
Definition example_filled : @mq_state unit :=
  let pub id ack s := match mq_basic_publish 1 mq_broker_open_channel (str_bytes "x") (Some (str_bytes "k")) (example_msg id ack) s with Some (_, s) => s | None => s end in
  pub "3"%string 2 (pub "2"%string 1 (pub "1"%string 0 example_state)).

Definition is_msg (c : cell) : bool := match c with Msg _ => true | _ => false end.
Lemma msgs_of_cells l : forallb is_msg l = true -> Msg <$> omap msg_of l = l.
Proof. induction l as [|[| |m] l IH]; cbn; [done..|]. intros Hl. f_equal. by apply IH. Qed.
Lemma queue_ok_check q : forallb is_msg (take (q_count q) (messages q)) = true -> (q_count q <= length (messages q))%nat -> messages q <> [] -> queue_ok q.
Proof.
  intros Hall%msgs_of_cells Hle Hne. split; [done|]. exists (contents q), (drop (q_count q) (messages q)). unfold contents. split.
  - by rewrite Hall, take_drop.
  - rewrite <- (length_fmap Msg), Hall. by apply length_take_le.
Qed.
Definition queue_okb (q : mq_queue_t) : bool :=
  forallb is_msg (take (q_count q) (messages q)) && (q_count q <=? length (messages q))%nat && (0 <? length (messages q))%nat.
Lemma broker_ok_check b : (queue_count b <=? length (queues b))%nat && forallb queue_okb (take (queue_count b) (queues b)) = true -> broker_ok b.
Proof.
  intros [Hn%Nat.leb_le Hall]%andb_prop. split; [done|]. rewrite forallb_forall in Hall. apply Forall_forall. intros q Hq%list_elem_of_In%Hall.
  apply andb_prop in Hq as [[H1 H2%Nat.leb_le]%andb_prop H3%Nat.ltb_lt]. apply queue_ok_check; [done|done|]. by destruct (messages q); [cbn in H3; lia|].
Qed.
Lemma example_broker_ok : broker_ok example_broker.
Proof. apply broker_ok_check. vm_compute. reflexivity. Qed.
Lemma example_filled_ok : broker_ok (broker example_filled).
Proof. apply broker_ok_check. vm_compute. reflexivity. Qed.

Lemma mq_basic_publish_correct_witness : exists r s',
  mq_basic_publish 1 mq_broker_open_channel (str_bytes "x") (Some (str_bytes "k")) (example_msg "1" 0) example_state = Some (r, s') /\
  published mq_broker_open_channel (example_msg "1" 0)
    (fun q => room q (offers (routes example_broker (str_bytes "x") (Some (str_bytes "k"))) (bindings example_broker) q)) example_state r s'.
Proof. apply (mq_basic_publish_correct mq_broker_open_channel (example_msg "1" 0) 0 _ _ example_state example_broker_ok).
  apply (bool_decide_unpack _). vm_compute. exact I. Defined.

Lemma mq_basic_consume_correct_witness : exists q,
  queues (broker example_filled) !! 0%nat = Some q /\ length (contents q) = 3%nat /\
  exists q', mq_basic_consume answer 3 1 mq_broker_open_channel (str_bytes "q") 7 0 (fun _ => 0) example_filled =
      Some (0, mk_state ((broker example_filled) <| queues := <[0%nat := q']> (queues (broker example_filled)) |>) tt
                 ((fun m => Consumed 7 m 0) <$> [example_msg "1" 0; example_msg "2" 1; example_msg "3" 2])) /\
    queue_ok q' /\ contents q' = [example_msg "3" 2] /\ q_name q' = q_name q.
Proof.
  eexists. split; [vm_compute; reflexivity|]. split; [vm_compute; reflexivity|].
  match goal with |- exists q', _ /\ _ /\ _ /\ q_name q' = q_name ?q =>
    exact (mq_basic_consume_correct answer 3 1 mq_broker_open_channel (str_bytes "q") 7 0 (fun _ => 0) example_filled 0%nat q example_filled_ok
      ltac:(vm_compute; reflexivity) ltac:(vm_compute; reflexivity) ltac:(reflexivity) ltac:(cbn; lia)) end.
Defined.

Lemma mq_basic_consume_priority_sorted_witness : exists q, queues (broker example_filled) !! 0%nat = Some q /\ length (contents q) = 3%nat /\
  exists order w, order ≡ₚ ((fun j => (priority_of (Some [5; 1; 3]) j, j)) <$> seq 0 (q_count q)) /\ StronglySorted by_priority order /\
    mq_basic_consume_priority answer (str_bytes "q") (Some [5; 1; 3]) 7 0 example_filled =
    Some (0, mk_state ((broker example_filled) <| queues ::= alter (fun q => q <| q_count := 0%nat |>) 0%nat |>) w
      (calls example_filled ++ ((fun m => Consumed 7 m 0) <$> omap (fun e => contents q !! e.2) order))).
Proof.
  eexists. split; [vm_compute; reflexivity|]. split; [vm_compute; reflexivity|].
  apply (mq_basic_consume_priority_sorted answer (str_bytes "q") (Some [5; 1; 3]) 7 0 example_filled 0%nat _ example_filled_ok);
    [vm_compute; reflexivity|vm_compute; reflexivity|cbn; lia].
Defined.

Lemma mq_basic_publish_dedup_correct_witness :
  let r := (str_bytes "x", Some (str_bytes "k"), example_msg "1" 0) in
  exists t s, dedup_run 1 mq_broker_open_channel [r] (mq_dedup_tracker, example_state) = Some (t, s) /\
    mq_basic_publish_dedup 1 mq_broker_open_channel (str_bytes "x") (Some (str_bytes "k")) (example_msg "1" 0) (t, s) = Some (0, (t, s)).
Proof.
  intros r. destruct (dedup_run 1 mq_broker_open_channel [r] (mq_dedup_tracker, example_state)) as [[t s]|] eqn:Hrun.
  - exists t, s. split; [done|]. rewrite (mq_basic_publish_dedup_correct 1 mq_broker_open_channel [r] example_state t s); [|repeat constructor; cbn; lia|done].
    rewrite bool_decide_eq_true_2; [done|]. apply (bool_decide_unpack _). vm_compute. exact I.
  - exfalso. revert Hrun. vm_compute. discriminate.
Defined.

(** The retries of a refused message are counted, and then it is freed: nothing is
    retried and nothing dead-lettered. *)
Example mq_nack_loses_message :
  (mq_basic_consume answer 3 1 mq_broker_open_channel (str_bytes "q") 7 0 (fun _ => 0) example_filled ≫= fun r => queues (broker r.2) !! 0%nat ≫= fun q => Some (message_id <$> contents q))
  = Some [str_bytes "3"] /\ msg_retry_count (example_msg "2" 1) < msg_max_retries (example_msg "2" 1).
Proof. vm_compute. done. Qed.

(** A message that could not be routed counts as seen: publishing it again, after the
    binding has been made, succeeds without delivering it. *)
Example mq_dedup_drops_retry :
  let ch := mq_broker_open_channel in let m := example_msg "1" 0 in
  let b := (mq_queue_declare mq_broker_create (example_queue "q" 0 "")).2 in
  match mq_basic_publish_dedup 1 ch (str_bytes "x") None m (mq_dedup_tracker, @mk_state unit b tt []) with
  | Some (r, (t, s)) =>
      match mq_queue_bind (broker s) (str_bytes "q") (str_bytes "x") None with
      | Some (_, b') =>
          match mq_basic_publish_dedup 1 ch (str_bytes "x") None m (t, s <| broker := b' |>) with
          | Some (r', (_, s')) => r = -1 /\ r' = 0 /\ mq_queue_message_count (broker s') (str_bytes "q") = 0
          | None => False
          end
      | None => False
      end
  | None => False
  end.
Proof. vm_compute. done. Qed.

(** A queue declared in the slot of a deleted one starts with the old count over an
    empty array: consuming it follows a null pointer. *)
Example mq_redeclared_queue_crashes :
  let del := mq_queue_delete (broker example_filled) (str_bytes "r") in
  match del with
  | Some (_, b) =>
      let b := (mq_queue_declare b (example_queue "new" 0 "")).2 in
      mq_queue_message_count b (str_bytes "new") = 1 /\
      mq_basic_consume answer 3 1 mq_broker_open_channel (str_bytes "new") 7 0 (fun _ => 0) (mk_state b tt []) = None
  | None => False
  end.
Proof. vm_compute. done. Qed.

(** A full queue whose dead letters lead back to it: the recursion never ends. *)
Definition self_dead_broker : mq_broker :=
  let b := (mq_exchange_declare mq_broker_create (mk_xdecl (str_bytes "x") MQ_EXCHANGE_FANOUT 0 0)).2 in
  let b := (mq_queue_declare b (example_queue "q" 1 "x")).2 in
  (default (0, b) (mq_queue_bind b (str_bytes "q") (str_bytes "x") (Some []))).2.
Definition self_dead_state : @mq_state unit :=
  match mq_basic_publish 1 mq_broker_open_channel (str_bytes "x") (Some []) (example_msg "1" 0) (mk_state self_dead_broker tt []) with Some (_, s) => s | None => mk_state self_dead_broker tt [] end.
Theorem mq_dead_letter_cycle_diverges fuel m : mq_basic_publish fuel mq_broker_open_channel (str_bytes "x") (Some []) m self_dead_state = None.
Proof.
  induction fuel as [|fuel IH]; [done|]. cbn [mq_basic_publish].
  assert (Hb : bindings (broker self_dead_state) = [mk_binding (str_bytes "x") (str_bytes "q") []]) by (vm_compute; reflexivity).
  assert (Hn : queue_count (broker self_dead_state) = 1%nat) by (vm_compute; reflexivity).
  assert (Hr : routes (broker self_dead_state) (str_bytes "x") (Some []) (mk_binding (str_bytes "x") (str_bytes "q") []) = true) by (vm_compute; reflexivity).
  destruct (queues (broker self_dead_state) !! 0%nat) as [q|] eqn:Hq; [|exfalso; revert Hq; vm_compute; discriminate].
  assert (Hd : dlx q = str_bytes "x" /\ dlx_rk q = [] /\ q_name q = str_bytes "q" /\ (0 <? max_length q) && (max_length q <=? Z.of_nat (q_count q)) = true).
  { revert Hq. vm_compute. intros [= <-]. done. }
  destruct Hd as (H1 & H2 & H3 & H4). rewrite Hb, Hn. cbn [each seq]. rewrite Hr. cbn [each seq b_queue]. unfold deliver. rewrite Hq. cbn [mbind option_bind].
  rewrite H3, bool_decide_eq_true_2, H4, H1, H2 by done. cbn [str_bytes] in *. rewrite IH. done.
Qed.
