(* ===== verification/Rbac.v ===== *)
(** Model of [mini-auth-security/src/rbac_engine.c]: roles with inherited
    permissions, users with roles, a cache of each user's permissions.

    The tables are lists whose lengths are the counts; names are cut to the size of
    their arrays.  [time(NULL)] is an argument.  [rbac_dump_user] only prints. *)

From S2P Require Import Prelude Bytes.

Definition RBAC_MAX_USERS : nat := 512.
Definition RBAC_MAX_ROLES : nat := 64.
Definition RBAC_MAX_PERMISSIONS : nat := 256.
Definition RBAC_MAX_USERNAME_LEN : nat := 128.
Definition RBAC_MAX_ROLENAME_LEN : nat := 64.
Definition RBAC_MAX_PERMNAME_LEN : nat := 128.
Definition RBAC_MAX_PARENT_ROLES : nat := 16.

Inductive RbacRoleId := ROLE_NONE | ROLE_ADMIN | ROLE_MODERATOR | ROLE_EDITOR | ROLE_VIEWER | ROLE_CUSTOM.
Record RbacPermission := mk_perm { p_name : list Z; p_resource : list Z; p_action : list Z; p_mask : Z }.
Record RbacRole := mk_role { r_name : list Z; role_id : RbacRoleId; permission_mask : Z; parent_roles : list (list Z); priority : Z }.
Record RbacUser := mk_user {
  username : list Z; role_names : list (list Z); cached_permission_mask : Z; cache_valid : bool; u_created_at : Z; u_updated_at : Z;
}.
Record RbacEngine := mk_engine { roles : list RbacRole; permissions : list RbacPermission; users : list RbacUser }.

Definition rbac_engine_init : RbacEngine := mk_engine [] [] [].
Definition rbac_role_id_name (id : RbacRoleId) : string :=
  match id with
  | ROLE_NONE => "NONE" | ROLE_ADMIN => "ADMIN" | ROLE_MODERATOR => "MODERATOR"
  | ROLE_EDITOR => "EDITOR" | ROLE_VIEWER => "VIEWER" | ROLE_CUSTOM => "CUSTOM"
  end.
Definition rbac_role_name_to_id (name : option (list Z)) : RbacRoleId :=
  match name with
  | None => ROLE_NONE
  | Some n =>
      let named s := bool_decide (n = str_bytes s) in
      if named "ADMIN"%string then ROLE_ADMIN else if named "MODERATOR"%string then ROLE_MODERATOR else if named "EDITOR"%string then ROLE_EDITOR
      else if named "VIEWER"%string then ROLE_VIEWER else if named "CUSTOM"%string then ROLE_CUSTOM else ROLE_NONE
  end.

(** The mask of a permission is a [uint32_t]. *)
Definition rbac_register_permission (eng : RbacEngine) (name resource action : list Z) (mask : Z) : Z * RbacEngine :=
  if (RBAC_MAX_PERMISSIONS <=? length (permissions eng))%nat then (-1, eng)
  else if existsb (fun p => bool_decide (p_name p = name)) (permissions eng) then (-2, eng)
  else
    let p := mk_perm (truncated RBAC_MAX_PERMNAME_LEN name) (truncated RBAC_MAX_ROLENAME_LEN resource)
               (truncated RBAC_MAX_ROLENAME_LEN action) (u32 mask) in
    (0, eng <| permissions ::= fun l => l ++ [p] |>).
Definition rbac_register_role (eng : RbacEngine) (name : list Z) (id : RbacRoleId) (prio : Z) : Z * RbacEngine :=
  if (RBAC_MAX_ROLES <=? length (roles eng))%nat then (-1, eng)
  else if existsb (fun r => bool_decide (r_name r = name)) (roles eng) then (-2, eng)
  else (0, eng <| roles ::= fun l => l ++ [mk_role (truncated RBAC_MAX_ROLENAME_LEN name) id 0 [] prio] |>).

(** The loop runs on after a match: the last one counts. *)
Fixpoint last_named (l : list RbacRole) (name : list Z) : option nat :=
  match l with
  | [] => None
  | r :: l' => match last_named l' name with
               | Some i => Some (S i)
               | None => if bool_decide (r_name r = name) then Some O else None
               end
  end.
Definition rbac_role_add_parent (eng : RbacEngine) (role_name parent_role_name : list Z) : Z * RbacEngine :=
  match last_named (roles eng) role_name, last_named (roles eng) parent_role_name with
  | Some i, Some _ =>
      match roles eng !! i with
      | Some r =>
          if (RBAC_MAX_PARENT_ROLES <=? length (parent_roles r))%nat then (-2, eng)
          else (0, eng <| roles ::= <[i := r <| parent_roles ::= fun l => l ++ [truncated RBAC_MAX_ROLENAME_LEN parent_role_name] |>]> |>)
      | None => (-1, eng)
      end
  | _, _ => (-1, eng)
  end.
Definition find_role_idx (eng : RbacEngine) (name : list Z) : option nat := find_idx (fun r => bool_decide (r_name r = name)) (roles eng).
Definition rbac_role_grant_permission (eng : RbacEngine) (role_name : list Z) (perm_mask : Z) : Z * RbacEngine :=
  match find_role_idx eng role_name with
  | Some i => (0, eng <| roles ::= alter (fun r => r <| permission_mask := Z.lor (permission_mask r) perm_mask |>) i |>)
  | None => (-1, eng)
  end.

Definition rbac_create_user (eng : RbacEngine) (name : list Z) (now1 now2 : Z) : Z * RbacEngine :=
  if (RBAC_MAX_USERS <=? length (users eng))%nat then (-1, eng)
  else if existsb (fun u => bool_decide (username u = name)) (users eng) then (-2, eng)
  else (0, eng <| users ::= fun l => l ++ [mk_user (truncated RBAC_MAX_USERNAME_LEN name) [] 0 false now1 now2] |>).
Definition rbac_find_user (eng : RbacEngine) (name : list Z) : option nat := find_idx (fun u => bool_decide (username u = name)) (users eng).
Definition rbac_find_role (eng : RbacEngine) (name : list Z) : option RbacRole := find_role_idx eng name ≫= (roles eng !!.).

Definition set_user (i : nat) (u : RbacUser) (eng : RbacEngine) : RbacEngine := eng <| users ::= <[i := u]> |>.
Definition rbac_assign_role (eng : RbacEngine) (name role_name : list Z) (now : Z) : Z * RbacEngine :=
  match rbac_find_user eng name with
  | None => (-1, eng)
  | Some i =>
      match rbac_find_role eng role_name, users eng !! i with
      | Some _, Some u =>
          if (RBAC_MAX_ROLES <=? length (role_names u))%nat then (-3, eng)
          else (0, set_user i (u <| role_names ::= fun l => l ++ [truncated RBAC_MAX_ROLENAME_LEN role_name] |>
                                 <| cache_valid := false |> <| u_updated_at := now |>) eng)
      | _, _ => (-2, eng)
      end
  end.
Definition rbac_remove_role (eng : RbacEngine) (name role_name : list Z) (now : Z) : Z * RbacEngine :=
  match rbac_find_user eng name with
  | None => (-1, eng)
  | Some i =>
      match users eng !! i with
      | Some u =>
          match find_idx (fun n => bool_decide (n = role_name)) (role_names u) with
          | Some k => (0, set_user i (u <| role_names ::= delete k |> <| cache_valid := false |> <| u_updated_at := now |>) eng)
          | None => (-2, eng)
          end
      | None => (-1, eng)
      end
  end.

(** [n] is 11 - [depth]. *)
Fixpoint rbac_resolve_perm_mask (n : nat) (eng : RbacEngine) (role_name : list Z) : Z :=
  match n with
  | O => 0
  | S n' =>
      match rbac_find_role eng role_name with
      | Some role => foldl (fun mask p => Z.lor mask (rbac_resolve_perm_mask n' eng p)) (permission_mask role) (parent_roles role)
      | None => 0
      end
  end.
Definition resolve_roles (eng : RbacEngine) (names : list (list Z)) : Z :=
  foldl (fun mask n => Z.lor mask (rbac_resolve_perm_mask 11 eng n)) 0 names.
Definition rbac_get_effective_permissions (eng : RbacEngine) (name : list Z) : Z * RbacEngine :=
  match rbac_find_user eng name with
  | None => (0, eng)
  | Some i =>
      match users eng !! i with
      | Some u =>
          if cache_valid u then (cached_permission_mask u, eng)
          else
            let mask := resolve_roles eng (role_names u) in
            (mask, set_user i (u <| cached_permission_mask := mask |> <| cache_valid := true |>) eng)
      | None => (0, eng)
      end
  end.

Definition covers (effective required : Z) : bool := Z.land effective required =? required.
Definition rbac_check_permission (eng : RbacEngine) (name : list Z) (required : Z) : bool * RbacEngine :=
  let '(effective, eng) := rbac_get_effective_permissions eng name in
  (if required =? 0 then true else covers effective required, eng).
Definition rbac_check_permission_multi (eng : RbacEngine) (name : list Z) (required : list Z) (require_all : bool) : bool * RbacEngine :=
  let '(effective, eng) := rbac_get_effective_permissions eng name in
  (match required with
   | [] => true
   | _ => if require_all then forallb (covers effective) required else existsb (covers effective) required
   end, eng).
Definition rbac_get_user_roles (eng : RbacEngine) (name : list Z) : option (list (list Z)) :=
  i ← rbac_find_user eng name; role_names <$> users eng !! i.

Definition PERM_READ_USERS : Z := Z.shiftl 1 0.
Definition PERM_WRITE_USERS : Z := Z.shiftl 1 1.
Definition PERM_DELETE_USERS : Z := Z.shiftl 1 2.
Definition PERM_READ_POSTS : Z := Z.shiftl 1 3.
Definition PERM_WRITE_POSTS : Z := Z.shiftl 1 4.
Definition PERM_DELETE_POSTS : Z := Z.shiftl 1 5.
Definition PERM_READ_COMMENTS : Z := Z.shiftl 1 6.
Definition PERM_WRITE_COMMENTS : Z := Z.shiftl 1 7.
Definition PERM_DELETE_COMMENTS : Z := Z.shiftl 1 8.
Definition PERM_MANAGE_ROLES : Z := Z.shiftl 1 9.
Definition PERM_MANAGE_SYSTEM : Z := Z.shiftl 1 10.
Definition PERM_READ_METRICS : Z := Z.shiftl 1 11.
Definition PERM_MANAGE_USERS : Z := Z.shiftl 1 12.

Definition masks (l : list Z) : Z := foldr Z.lor 0 l.
Definition rbac_setup_default_roles (eng : RbacEngine) : RbacEngine :=
  let perm '(n, res, act, mask) eng := (rbac_register_permission eng (str_bytes n) (str_bytes res) (str_bytes act) mask).2 in
  let role '(n, id, prio) eng := (rbac_register_role eng (str_bytes n) id prio).2 in
  let grant '(n, l) eng := (rbac_role_grant_permission eng (str_bytes n) (masks l)).2 in
  let parent '(n, p) eng := (rbac_role_add_parent eng (str_bytes n) (str_bytes p)).2 in
  let each {A} (f : A -> RbacEngine -> RbacEngine) l eng := foldl (fun e x => f x e) eng l in
  each parent [("EDITOR", "VIEWER"); ("MODERATOR", "EDITOR"); ("ADMIN", "MODERATOR")]%string
   (each grant [("VIEWER"%string, [PERM_READ_USERS; PERM_READ_POSTS; PERM_READ_COMMENTS; PERM_READ_METRICS]);
                ("EDITOR"%string, [PERM_READ_USERS; PERM_READ_POSTS; PERM_WRITE_POSTS; PERM_READ_COMMENTS; PERM_WRITE_COMMENTS; PERM_READ_METRICS]);
                ("MODERATOR"%string, [PERM_READ_USERS; PERM_READ_POSTS; PERM_WRITE_POSTS; PERM_DELETE_POSTS; PERM_READ_COMMENTS; PERM_WRITE_COMMENTS;
                                      PERM_DELETE_COMMENTS; PERM_READ_METRICS]);
                ("ADMIN"%string, [PERM_READ_USERS; PERM_WRITE_USERS; PERM_DELETE_USERS; PERM_READ_POSTS; PERM_WRITE_POSTS; PERM_DELETE_POSTS;
                                  PERM_READ_COMMENTS; PERM_WRITE_COMMENTS; PERM_DELETE_COMMENTS; PERM_MANAGE_ROLES; PERM_MANAGE_SYSTEM;
                                  PERM_READ_METRICS; PERM_MANAGE_USERS])]
   (each role [("VIEWER"%string, ROLE_VIEWER, 1); ("EDITOR"%string, ROLE_EDITOR, 2); ("MODERATOR"%string, ROLE_MODERATOR, 3); ("ADMIN"%string, ROLE_ADMIN, 10)]
   (each perm [("READ:users", "users", "READ", PERM_READ_USERS); ("WRITE:users", "users", "WRITE", PERM_WRITE_USERS);
               ("DELETE:users", "users", "DELETE", PERM_DELETE_USERS); ("READ:posts", "posts", "READ", PERM_READ_POSTS);
               ("WRITE:posts", "posts", "WRITE", PERM_WRITE_POSTS); ("DELETE:posts", "posts", "DELETE", PERM_DELETE_POSTS);
               ("READ:comments", "comments", "READ", PERM_READ_COMMENTS); ("WRITE:comments", "comments", "WRITE", PERM_WRITE_COMMENTS);
               ("DELETE:comments", "comments", "DELETE", PERM_DELETE_COMMENTS); ("MANAGE:roles", "roles", "MANAGE", PERM_MANAGE_ROLES);
               ("MANAGE:system", "system", "MANAGE", PERM_MANAGE_SYSTEM); ("READ:metrics", "metrics", "READ", PERM_READ_METRICS);
               ("MANAGE:users", "users", "MANAGE", PERM_MANAGE_USERS)]%string eng))).

(** ** Inherited permissions *)

(** [inherits eng k name r]: role [r] is reached from [name] by [k] links to parents. *)
Inductive inherits (eng : RbacEngine) : nat -> list Z -> RbacRole -> Prop :=
| inherits_self name r : rbac_find_role eng name = Some r -> inherits eng 0 name r
| inherits_parent k name r p r' : rbac_find_role eng name = Some r -> p ∈ parent_roles r -> inherits eng k p r' -> inherits eng (S k) name r'.

Lemma testbit_foldl_lor {A} (f : A -> Z) l m b : Z.testbit (foldl (fun mask x => Z.lor mask (f x)) m l) b = true <->
  Z.testbit m b = true \/ exists x, x ∈ l /\ Z.testbit (f x) b = true.
Proof.
  revert m. induction l as [|x l IH]; intros m; cbn [foldl].
  - split; [by left|]. intros [?|(x & Hx & _)]; [done|]. by apply elem_of_nil in Hx.
  - rewrite IH, Z.lor_spec, orb_true_iff. split.
    + intros [[?|?]|(y & Hy & ?)]; [by left|right; exists x; by split; [left|]|right; exists y; by split; [right|]].
    + intros [?|(y & [->|Hy]%elem_of_cons & ?)]; [by do 2 left|left; by right|right; by exists y].
Qed.

Lemma resolve_testbit n eng : forall name b, Z.testbit (rbac_resolve_perm_mask n eng name) b = true <->
  exists k r, (k < n)%nat /\ inherits eng k name r /\ Z.testbit (permission_mask r) b = true.
Proof.
  induction n as [|n IH]; intros name b; cbn [rbac_resolve_perm_mask].
  - rewrite Z.bits_0. split; [done|]. intros (k & r & ? & _). lia.
  - destruct (rbac_find_role eng name) as [role|] eqn:Hf.
    + rewrite testbit_foldl_lor. split.
      * intros [Hb|(p & Hp & (k & r & Hk & Hi & Hb)%IH)]; [exists 0%nat, role; split; [lia|]; split; [by constructor|done]|].
        exists (S k), r. split; [lia|]. split; [by econstructor|done].
      * intros (k & r & Hk & Hi & Hb). inversion Hi as [? ? Hr|k' ? r0 p ? Hr Hp Hi']; subst; rewrite Hf in Hr; injection Hr as <-; [by left|].
        right. exists p. split; [done|]. apply IH. exists k', r. split; [lia|done].
    + rewrite Z.bits_0. split; [done|]. intros (k & r & _ & Hi & _). inversion Hi as [? ? Hr|? ? ? ? ? Hr]; congruence.
Qed.

Lemma resolve_roles_testbit eng names b : Z.testbit (resolve_roles eng names) b = true <->
  exists n k r, n ∈ names /\ (k <= 10)%nat /\ inherits eng k n r /\ Z.testbit (permission_mask r) b = true.
Proof.
  unfold resolve_roles. rewrite testbit_foldl_lor, Z.bits_0. setoid_rewrite resolve_testbit. split.
  - intros [?|(n & Hn & k & r & Hk & ?)]; [done|]. exists n, k, r. split; [done|]. split; [lia|done].
  - intros (n & k & r & Hn & Hk & ?). right. exists n. split; [done|]. exists k, r. split; [lia|done].
Qed.

Lemma covers_testbit e r : covers e r = true <-> forall b, Z.testbit r b = true -> Z.testbit e b = true.
Proof.
  unfold covers. rewrite Z.eqb_eq. split.
  - intros Heq b Hb. rewrite <- Heq, Z.land_spec in Hb. by apply andb_prop in Hb as [? _].
  - intros Hall. apply Z.bits_inj. intros b. rewrite Z.land_spec. destruct (Z.testbit r b) eqn:Hb; [by rewrite Hall|by rewrite andb_false_r].
Qed.

(** ** The cache *)

Definition coherent (eng : RbacEngine) : Prop :=
  Forall (fun u => cache_valid u = true -> cached_permission_mask u = resolve_roles eng (role_names u)) (users eng).

Inductive user_op :=
| CreateUser (name : list Z) (now1 now2 : Z) | AssignRole (name role_name : list Z) (now : Z) | RemoveRole (name role_name : list Z) (now : Z)
| CheckPermission (name : list Z) (required : Z) | CheckMulti (name : list Z) (required : list Z) (require_all : bool).
Definition user_step (eng : RbacEngine) (op : user_op) : RbacEngine :=
  match op with
  | CreateUser n t1 t2 => (rbac_create_user eng n t1 t2).2
  | AssignRole n r t => (rbac_assign_role eng n r t).2
  | RemoveRole n r t => (rbac_remove_role eng n r t).2
  | CheckPermission n p => (rbac_check_permission eng n p).2
  | CheckMulti n l a => (rbac_check_permission_multi eng n l a).2
  end.

Lemma resolve_same_roles eng eng' : roles eng = roles eng' -> forall n name, rbac_resolve_perm_mask n eng name = rbac_resolve_perm_mask n eng' name.
Proof.
  intros Heq. induction n as [|n IH]; intros name; cbn [rbac_resolve_perm_mask]; [done|].
  unfold rbac_find_role, find_role_idx. rewrite Heq. destruct (_ ≫= _) as [role|]; [|done].
  generalize (permission_mask role). induction (parent_roles role) as [|p l IHl]; intros m; [done|]. cbn [foldl]. by rewrite IH.
Qed.
Lemma resolve_roles_same eng eng' names : roles eng = roles eng' -> resolve_roles eng names = resolve_roles eng' names.
Proof.
  intros Heq. unfold resolve_roles. generalize 0. induction names as [|n l IH]; intros m; [done|]. cbn [foldl]. by rewrite (resolve_same_roles eng eng').
Qed.

Lemma coherent_set_user i u eng : coherent eng -> (cache_valid u = true -> cached_permission_mask u = resolve_roles eng (role_names u)) ->
  coherent (set_user i u eng).
Proof.
  intros Hc Hu. unfold coherent. assert (Hr : forall names, resolve_roles (set_user i u eng) names = resolve_roles eng names) by (intros; by apply resolve_roles_same).
  apply Forall_forall. intros x Hx Hv. rewrite Hr. unfold set_user, set in Hx. cbn in Hx.
  apply list_elem_of_lookup in Hx as [j Hj]. destruct (decide (i = j)) as [->|Hne].
  - destruct (decide (j < length (users eng))%nat) as [Hlt|Hge].
    + rewrite list_lookup_insert_eq in Hj by done. injection Hj as <-. by apply Hu.
    + rewrite list_insert_ge in Hj by lia. apply lookup_lt_Some in Hj. lia.
  - rewrite list_lookup_insert_ne in Hj by done. unfold coherent in Hc. rewrite Forall_lookup in Hc. by apply (Hc j).
Qed.

Lemma effective_coherent eng name : coherent eng -> let '(mask, eng') := rbac_get_effective_permissions eng name in
  coherent eng' /\ roles eng' = roles eng /\
  match rbac_find_user eng name ≫= (users eng !!.) with Some u => mask = resolve_roles eng (role_names u) | None => mask = 0 end.
Proof.
  intros Hc. unfold rbac_get_effective_permissions. destruct (rbac_find_user eng name) as [i|]; [|done]. cbn [mbind option_bind].
  destruct (users eng !! i) as [u|] eqn:Hu; [|done]. destruct (cache_valid u) eqn:Hv.
  - split; [done|]. split; [done|]. unfold coherent in Hc. rewrite Forall_lookup in Hc. by apply (Hc i).
  - split; [|done]. by apply coherent_set_user.
Qed.

Lemma user_step_coherent eng op : coherent eng -> coherent (user_step eng op) /\ roles (user_step eng op) = roles eng.
Proof.
  intros Hc. destruct op as [n t1 t2|n r t|n r t|n p|n l a]; cbn [user_step].
  - unfold rbac_create_user. repeat case_match; try done. split; [|done]. unfold coherent, set. cbn. apply Forall_app. split; [|by constructor].
    eapply Forall_impl; [exact Hc|]. intros u Hu Hv. rewrite (Hu Hv). by apply resolve_roles_same.
  - unfold rbac_assign_role. repeat case_match; try done. split; [|done]. by apply coherent_set_user.
  - unfold rbac_remove_role. repeat case_match; try done. split; [|done]. by apply coherent_set_user.
  - unfold rbac_check_permission. pose proof (effective_coherent eng n Hc) as He. destruct (rbac_get_effective_permissions eng n). by destruct He as (? & ? & _).
  - unfold rbac_check_permission_multi. pose proof (effective_coherent eng n Hc) as He. destruct (rbac_get_effective_permissions eng n). by destruct He as (? & ? & _).
Qed.

(** C39: Whatever users do after the roles are set up, a check grants a set of
    permissions exactly when each of them is held by a role of the user or by one that
    it inherits from over at most ten links; cycles among the roles do no harm. *)
Theorem rbac_check_permission_correct eng ops name required i u :
  coherent eng -> let eng' := foldl user_step eng ops in
  rbac_find_user eng' name = Some i -> users eng' !! i = Some u ->
  (rbac_check_permission eng' name required).1 = true <->
  forall b, Z.testbit required b = true ->
    exists n k r, n ∈ role_names u /\ (k <= 10)%nat /\ inherits eng' k n r /\ Z.testbit (permission_mask r) b = true.
Proof.
  intros Hc eng' Hf Hu. assert (Hc' : coherent eng').
  { subst eng'. clear - Hc. revert eng Hc. induction ops as [|op ops IH]; intros eng Hc; [done|]. apply IH. by apply user_step_coherent. }
  unfold rbac_check_permission. pose proof (effective_coherent eng' name Hc') as He. destruct (rbac_get_effective_permissions eng' name) as [mask eng''].
  destruct He as (_ & _ & He). rewrite Hf in He. cbn [mbind option_bind] in He. rewrite Hu in He. subst mask. cbn [fst].
  setoid_rewrite <- resolve_roles_testbit. destruct (Z.eqb_spec required 0) as [->|_]; [|apply covers_testbit].
  split; [|done]. intros _ b. by rewrite Z.bits_0.
Qed.

(** ** Examples *)

Definition default_engine : RbacEngine := rbac_setup_default_roles rbac_engine_init.
Lemma default_engine_coherent : coherent default_engine.
Proof. unfold coherent. replace (users default_engine) with (@nil RbacUser) by (vm_compute; reflexivity). constructor. Qed.

Lemma rbac_check_permission_correct_witness :
  let ops := [CreateUser (str_bytes "u") 0 0; AssignRole (str_bytes "u") (str_bytes "EDITOR") 1] in
  let eng := foldl user_step default_engine ops in
  (rbac_check_permission eng (str_bytes "u") PERM_WRITE_POSTS).1 = true /\
  exists n k r, n ∈ [str_bytes "EDITOR"] /\ (k <= 10)%nat /\ inherits eng k n r /\ Z.testbit (permission_mask r) 4 = true.
Proof.
  intros ops eng. assert (Hok : (rbac_check_permission eng (str_bytes "u") PERM_WRITE_POSTS).1 = true) by (vm_compute; reflexivity).
  split; [done|]. set (u := mk_user (str_bytes "u") [str_bytes "EDITOR"] 0 false 0 1).
  apply (proj1 (rbac_check_permission_correct default_engine ops (str_bytes "u") PERM_WRITE_POSTS 0%nat u default_engine_coherent
    ltac:(vm_compute; reflexivity) ltac:(vm_compute; reflexivity)) Hok 4). reflexivity.
Defined.

(** Each default role holds what the one below it holds. *)
Lemma default_roles_increase : let eff s := rbac_resolve_perm_mask 11 default_engine (str_bytes s) in
  eff "VIEWER"%string = 0x849 /\ covers (eff "EDITOR"%string) (eff "VIEWER"%string) = true /\
  covers (eff "MODERATOR"%string) (eff "EDITOR"%string) = true /\ covers (eff "ADMIN"%string) (eff "MODERATOR"%string) = true /\ eff "ADMIN"%string = 0x1fff.
Proof. vm_compute. done. Qed.

(** A grant to a role does not reach a user whose permissions are cached. *)
Example rbac_grant_misses_cached_user :
  let eng := foldl user_step default_engine
    [CreateUser (str_bytes "u") 0 0; AssignRole (str_bytes "u") (str_bytes "VIEWER") 1; CheckPermission (str_bytes "u") PERM_WRITE_USERS] in
  let eng := (rbac_role_grant_permission eng (str_bytes "VIEWER") PERM_WRITE_USERS).2 in
  (rbac_check_permission eng (str_bytes "u") PERM_WRITE_USERS).1 = false /\
  covers (resolve_roles eng [str_bytes "VIEWER"]) PERM_WRITE_USERS = true.
Proof. vm_compute. done. Qed.
