(* ===== verification/Grpc.v ===== *)
(** Model of [mini-api-engineering/src/grpc_sim.c]: the registry of services and
    messages, streams, HTTP/2 and gRPC frames, and the protobuf wire format.

    Bytes written to a caller's buffer are given as a list; buffers are taken to be
    large enough, which the code does not check either.  [None] stands for an access
    out of bounds, where no other meaning is given.  Shifts of negative numbers are
    those of a two's complement machine. *)

From S2P Require Import Prelude Bytes HttpCore.

Definition GRPC_MAX_SERVICE_NAME : nat := 128.
Definition GRPC_MAX_METHOD_NAME : nat := 128.
Definition GRPC_MAX_MESSAGE_NAME : nat := 128.
Definition GRPC_MAX_FIELDS : nat := 32.
Definition GRPC_MAX_METHODS : nat := 16.
Definition GRPC_MAX_SERVICES : nat := 8.
Definition GRPC_MAX_FRAME_SIZE : Z := 65536.
Definition GRPC_MAX_STREAM_ITEMS : nat := 64.
Definition GRPC_MAX_MESSAGES : nat := 256.

Inductive grpc_rpc_type_t := GRPC_UNARY | GRPC_SERVER_STREAM | GRPC_CLIENT_STREAM | GRPC_BIDI_STREAM.
#[export] Instance grpc_rpc_type_eq_dec : EqDecision grpc_rpc_type_t.
Proof. solve_decision. Defined.
Definition GRPC_OK : Z := 0.
Definition GRPC_NOT_FOUND : Z := 5.
Inductive grpc_proto_type_t :=
| GRPC_PROTO_DOUBLE | GRPC_PROTO_FLOAT | GRPC_PROTO_INT64 | GRPC_PROTO_UINT64 | GRPC_PROTO_INT32 | GRPC_PROTO_FIXED64
| GRPC_PROTO_FIXED32 | GRPC_PROTO_BOOL | GRPC_PROTO_STRING | GRPC_PROTO_BYTES | GRPC_PROTO_UINT32 | GRPC_PROTO_ENUM
| GRPC_PROTO_SFIXED32 | GRPC_PROTO_SFIXED64 | GRPC_PROTO_SINT32 | GRPC_PROTO_SINT64 | GRPC_PROTO_MESSAGE.

Record grpc_field_def_t := mk_field { f_name : list Z; f_type : grpc_proto_type_t; field_number : Z; is_repeated : bool; is_optional : bool }.
Record grpc_message_def_t := mk_message { m_name : list Z; fields : list grpc_field_def_t }.
Record grpc_method_def_t := mk_method { meth_name : list Z; rpc_type : grpc_rpc_type_t; request_type : list Z; response_type : list Z }.
Record grpc_service_def_t := mk_service { svc_name : list Z; svc_package : list Z; svc_methods : list grpc_method_def_t }.
(** [type] is any byte. *)
Record grpc_h2_frame_t := mk_frame { fr_type : Z; fr_flags : Z; fr_stream_id : Z; payload_len : Z; fr_payload : list Z }.
(** [message_len] is the length of [message_data]. *)
Record grpc_stream_t := mk_stream { stream_id : Z; st_rpc_type : grpc_rpc_type_t; st_status : Z; message_data : list Z; is_compressed : bool }.
Record grpc_sim_t := mk_sim {
  services : list grpc_service_def_t; proto_messages : list grpc_message_def_t; active_streams : list grpc_stream_t; next_stream_id : Z;
}.

Definition grpc_rpc_type_string (t : grpc_rpc_type_t) : string :=
  match t with GRPC_UNARY => "UNARY" | GRPC_SERVER_STREAM => "SERVER_STREAM" | GRPC_CLIENT_STREAM => "CLIENT_STREAM" | GRPC_BIDI_STREAM => "BIDI_STREAM" end.
Definition grpc_status_string (c : Z) : string :=
  nth (Z.to_nat c) ["OK"; "CANCELLED"; "UNKNOWN"; "INVALID_ARGUMENT"; "DEADLINE_EXCEEDED"; "NOT_FOUND"; "ALREADY_EXISTS"; "PERMISSION_DENIED";
    "RESOURCE_EXHAUSTED"; "FAILED_PRECONDITION"; "ABORTED"; "OUT_OF_RANGE"; "UNIMPLEMENTED"; "INTERNAL"; "UNAVAILABLE"; "DATA_LOSS";
    "UNAUTHENTICATED"]%string "UNKNOWN_CODE"%string.
Definition grpc_proto_type_string (t : grpc_proto_type_t) : string :=
  match t with
  | GRPC_PROTO_DOUBLE => "double" | GRPC_PROTO_FLOAT => "float" | GRPC_PROTO_INT64 => "int64" | GRPC_PROTO_UINT64 => "uint64"
  | GRPC_PROTO_INT32 => "int32" | GRPC_PROTO_FIXED64 => "fixed64" | GRPC_PROTO_FIXED32 => "fixed32" | GRPC_PROTO_BOOL => "bool"
  | GRPC_PROTO_STRING => "string" | GRPC_PROTO_BYTES => "bytes" | GRPC_PROTO_UINT32 => "uint32" | GRPC_PROTO_ENUM => "enum"
  | GRPC_PROTO_SFIXED32 => "sfixed32" | GRPC_PROTO_SFIXED64 => "sfixed64" | GRPC_PROTO_SINT32 => "sint32" | GRPC_PROTO_SINT64 => "sint64"
  | GRPC_PROTO_MESSAGE => "message"
  end.
Definition grpc_h2_frame_type_string (t : Z) : string :=
  nth (Z.to_nat t) ["DATA"; "HEADERS"; "PRIORITY"; "RST_STREAM"; "SETTINGS"; "PUSH_PROMISE"; "PING"; "GOAWAY"; "WINDOW_UPDATE"; "CONTINUATION"]%string "UNKNOWN"%string.

(** ** The registry *)

Definition grpc_sim_init : grpc_sim_t := mk_sim [] [] [] 1.
Definition grpc_sim_add_service (g : grpc_sim_t) (name package : list Z) : option nat * grpc_sim_t :=
  if (GRPC_MAX_SERVICES <=? length (services g))%nat then (None, g)
  else (Some (length (services g)), g <| services ::= fun l => l ++ [mk_service (truncated GRPC_MAX_SERVICE_NAME name) (truncated 256 package) []] |>).
Definition grpc_sim_add_method (svc : grpc_service_def_t) (name : list Z) (ty : grpc_rpc_type_t) (req_type resp_type : list Z) : bool * grpc_service_def_t :=
  if (GRPC_MAX_METHODS <=? length (svc_methods svc))%nat then (false, svc)
  else (true, svc <| svc_methods ::= fun l => l ++ [mk_method (truncated GRPC_MAX_METHOD_NAME name) ty (truncated GRPC_MAX_MESSAGE_NAME req_type)
                                                       (truncated GRPC_MAX_MESSAGE_NAME resp_type)] |>).
Definition grpc_sim_add_message (g : grpc_sim_t) (name : list Z) : option nat * grpc_sim_t :=
  if (GRPC_MAX_MESSAGES <=? length (proto_messages g))%nat then (None, g)
  else (Some (length (proto_messages g)), g <| proto_messages ::= fun l => l ++ [mk_message (truncated GRPC_MAX_MESSAGE_NAME name) []] |>).
Definition grpc_message_add_field (msg : grpc_message_def_t) (name : list Z) (ty : grpc_proto_type_t) (number : Z) (repeated optional : bool) : grpc_message_def_t :=
  if (GRPC_MAX_FIELDS <=? length (fields msg))%nat then msg
  else msg <| fields ::= fun l => l ++ [mk_field (truncated GRPC_MAX_MESSAGE_NAME name) ty number repeated optional] |>.

Definition nl : list Z := [10].
Definition field_text (f : grpc_field_def_t) : list Z :=
  str_bytes "  " ++ (if is_repeated f then str_bytes "repeated " else if is_optional f then str_bytes "optional " else [])
  ++ str_bytes (grpc_proto_type_string (f_type f)) ++ [32] ++ f_name f ++ str_bytes " = " ++ print_lld (field_number f) ++ [59] ++ nl.
Definition message_texts (m : grpc_message_def_t) : list (list Z) :=
  (str_bytes "message " ++ m_name m ++ str_bytes " {" ++ nl) :: (field_text <$> fields m) ++ [str_bytes "}" ++ nl ++ nl].
Definition stream_word (b : bool) : list Z := if b then str_bytes "stream " else [].
Definition method_text (m : grpc_method_def_t) : list Z :=
  str_bytes "  rpc " ++ meth_name m ++ str_bytes "("
  ++ stream_word (bool_decide (rpc_type m = GRPC_CLIENT_STREAM) || bool_decide (rpc_type m = GRPC_BIDI_STREAM)) ++ request_type m ++ str_bytes ") returns ("
  ++ stream_word (bool_decide (rpc_type m = GRPC_SERVER_STREAM) || bool_decide (rpc_type m = GRPC_BIDI_STREAM)) ++ response_type m ++ str_bytes ");" ++ nl.
Definition service_texts (g : grpc_sim_t) (s : grpc_service_def_t) : list (list Z) :=
  (match svc_package s with [] => [] | p => [str_bytes "package " ++ p ++ [59] ++ nl ++ nl] end)
  ++ mjoin (message_texts <$> proto_messages g)
  ++ [str_bytes "service " ++ svc_name s ++ str_bytes " {" ++ nl] ++ (method_text <$> svc_methods s) ++ [str_bytes "}" ++ nl ++ nl].
Definition proto_head : list Z :=
  str_bytes "// Auto-generated proto3 file" ++ nl ++ str_bytes "syntax = " ++ [34] ++ str_bytes "proto3" ++ [34; 59] ++ nl ++ nl.
(** The text in a buffer of [len] bytes. *)
Definition grpc_sim_export_proto (g : grpc_sim_t) (len : nat) : option (list Z) :=
  s ← sprint_all len ([], O) (proto_head :: mjoin (service_texts g <$> services g)); Some s.1.

Definition grpc_sim_health_check (g : grpc_sim_t) (service_name : option (list Z)) : Z :=
  match service_name with
  | None => GRPC_OK
  | Some n => if existsb (fun s => bool_decide (svc_name s = n)) (services g) then GRPC_OK else GRPC_NOT_FOUND
  end.

(** ** Streams *)

Definition grpc_sim_open_stream (g : grpc_sim_t) (ty : grpc_rpc_type_t) : Z * grpc_sim_t :=
  if (GRPC_MAX_STREAM_ITEMS <=? length (active_streams g))%nat then (0, g)
  else (next_stream_id g, g <| next_stream_id := u32 (next_stream_id g + 2) |>
                            <| active_streams ::= fun l => l ++ [mk_stream (next_stream_id g) ty GRPC_OK [] false] |>).
Definition grpc_sim_invoke_unary : Z * Z := (0, GRPC_OK).
Definition grpc_sim_open_server_stream (g : grpc_sim_t) : bool * Z * grpc_sim_t :=
  let '(id, g) := grpc_sim_open_stream g GRPC_SERVER_STREAM in (negb (id =? 0), id, g).
Definition find_stream (g : grpc_sim_t) (id : Z) : option nat := find_idx (fun s => stream_id s =? id) (active_streams g).
(** At most [len] bytes. *)
Definition grpc_sim_read_stream (g : grpc_sim_t) (id len : Z) : option (list Z) :=
  i ← find_stream g id; s ← active_streams g !! i; Some (take (Z.to_nat len) (message_data s)).
Definition grpc_sim_write_stream (g : grpc_sim_t) (id : Z) (data : list Z) : bool * grpc_sim_t :=
  match find_stream g id with
  | Some i => (true, g <| active_streams ::= alter (fun s => s <| message_data := take (Z.to_nat GRPC_MAX_FRAME_SIZE) data |>) i |>)
  | None => (false, g)
  end.
Definition grpc_sim_close_stream (g : grpc_sim_t) (id : Z) : bool * grpc_sim_t :=
  match find_stream g id with
  | Some i => (true, g <| active_streams ::= delete i |>)
  | None => (false, g)
  end.

(** ** Frames *)

Definition be32 (a b c d : Z) : Z := Z.lor (Z.lor (Z.lor (Z.shiftl a 24) (Z.shiftl b 16)) (Z.shiftl c 8)) d.
(** A length of 2^31 or more is negative as an [int32_t] and a huge size for [memcpy]. *)
Definition grpc_sim_grpc_frame (s : grpc_stream_t) (frame : list Z) : option (bool * grpc_stream_t) :=
  match frame with
  | flag :: a :: b :: c :: d :: data =>
      let data_len := s32 (be32 a b c d) in
      let data_len := Z.min (Z.min data_len (Z.of_nat (length data))) GRPC_MAX_FRAME_SIZE in
      if data_len <? 0 then None
      else Some (true, s <| is_compressed := (flag =? 1) |> <| message_data := take (Z.to_nat data_len) data |>)
  | _ => Some (false, s)
  end.
(** The payload array keeps its zeros behind the bytes copied. *)
Definition grpc_sim_parse_grpc_frame (data : list Z) : option grpc_h2_frame_t :=
  match data with
  | a :: b :: c :: ty :: fl :: s1 :: s2 :: s3 :: s4 :: rest =>
      let plen := Z.lor (Z.lor (Z.shiftl a 16) (Z.shiftl b 8)) c in
      Some (mk_frame ty fl (Z.land (be32 s1 s2 s3 s4) 0x7FFFFFFF) plen
              (take (Z.to_nat (Z.min (Z.min plen (Z.of_nat (length rest))) GRPC_MAX_FRAME_SIZE)) rest))
  | _ => None
  end.
(** [payload_len] bytes of the array of 65536, of which those beyond [fr_payload] are 0. *)
Definition grpc_sim_build_h2_frame (f : grpc_h2_frame_t) (is_last : bool) : option (list Z) :=
  let plen := payload_len f in
  if GRPC_MAX_FRAME_SIZE <? plen then None
  else
    let byte k x := Z.land (Z.shiftr x k) 0xFF in
    Some ([byte 16 plen; byte 8 plen; byte 0 plen; fr_type f; Z.lor (fr_flags f) (if is_last then 1 else 0);
           Z.land (Z.shiftr (fr_stream_id f) 24) 0x7F; byte 16 (fr_stream_id f); byte 8 (fr_stream_id f); byte 0 (fr_stream_id f)]
          ++ take (Z.to_nat plen) (fr_payload f ++ replicate (Z.to_nat plen - length (fr_payload f)) 0)).

(** ** The wire format *)

(** At most ten rounds for 64 bits. *)
Fixpoint varint_loop (fuel : nat) (value : Z) : list Z :=
  match fuel with
  | O => []
  | S fuel' => if 0x7F <? value then Z.lor (Z.land value 0x7F) 0x80 :: varint_loop fuel' (Z.shiftr value 7) else [Z.land value 0x7F]
  end.
Definition grpc_varint_encode (value : Z) : list Z := varint_loop 10 value.
(** The value and the number of bytes read; [None] is -1. *)
Fixpoint varint_decode_loop (buf : list Z) (value shift : Z) (i : nat) : option (Z * nat) :=
  match buf with
  | [] => None
  | b :: buf' =>
      let value := Z.lor value (u64 (Z.shiftl (Z.land b 0x7F) shift)) in
      if Z.land b 0x80 =? 0 then Some (value, S i)
      else if 64 <=? shift + 7 then None
      else varint_decode_loop buf' value (shift + 7) (S i)
  end.
Definition grpc_varint_decode (buf : list Z) : option (Z * nat) := varint_decode_loop buf 0 0 0.

Definition grpc_zigzag32_encode (value : Z) : Z := u32 (Z.lxor (s32 (Z.shiftl value 1)) (Z.shiftr value 31)).
Definition grpc_zigzag32_decode (value : Z) : Z := s32 (Z.lxor (Z.shiftr value 1) (u32 (- (Z.land value 1)))).
Definition grpc_zigzag64_encode (value : Z) : Z := u64 (Z.lxor (s64 (Z.shiftl value 1)) (Z.shiftr value 63)).
Definition grpc_zigzag64_decode (value : Z) : Z := s64 (Z.lxor (Z.shiftr value 1) (u64 (- (Z.land value 1)))).

Definition grpc_wire_type_for_proto (t : grpc_proto_type_t) : Z :=
  match t with
  | GRPC_PROTO_INT32 | GRPC_PROTO_INT64 | GRPC_PROTO_UINT32 | GRPC_PROTO_UINT64 | GRPC_PROTO_BOOL | GRPC_PROTO_ENUM | GRPC_PROTO_SINT32 | GRPC_PROTO_SINT64 => 0
  | GRPC_PROTO_FIXED64 | GRPC_PROTO_SFIXED64 | GRPC_PROTO_DOUBLE => 1
  | GRPC_PROTO_STRING | GRPC_PROTO_BYTES | GRPC_PROTO_MESSAGE => 2
  | GRPC_PROTO_FIXED32 | GRPC_PROTO_SFIXED32 | GRPC_PROTO_FLOAT => 5
  end.

(** Little-endian numbers. *)
Fixpoint le_value (l : list Z) : Z := match l with [] => 0 | b :: l' => b + 256 * le_value l' end.
Fixpoint le_bytes (n : nat) (x : Z) : list Z := match n with O => [] | S n' => x mod 256 :: le_bytes n' (x / 256) end.
(** The first [n] bytes at the pointer. *)
Definition load (n : nat) (value : list Z) : option (list Z) := if (n <=? length value)%nat then Some (take n value) else None.

(** [value]: the memory the pointer leads to.  The empty list stands for the result 0. *)
Definition grpc_wire_encode_field (number : Z) (ty : grpc_proto_type_t) (value : list Z) (value_len : Z) : option (list Z) :=
  if number <=? 0 then Some []
  else
    let wire_type := grpc_wire_type_for_proto ty in
    let key := grpc_varint_encode (u32 (Z.lor (Z.shiftl number 3) wire_type)) in
    if wire_type =? 0 then
      bytes ← load (if 8 <=? value_len then 8 else if 4 <=? value_len then 4 else 1) value;
      let v := le_value bytes in
      let v := match ty with
               | GRPC_PROTO_SINT32 => grpc_zigzag32_encode (s32 v)
               | GRPC_PROTO_SINT64 => grpc_zigzag64_encode (s64 v)
               | _ => v
               end in
      Some (key ++ grpc_varint_encode v)
    else if wire_type =? 1 then bytes ← load 8 value; Some (key ++ bytes)
    else if wire_type =? 2 then
      if value_len <? 0 then None
      else bytes ← load (Z.to_nat value_len) value; Some (key ++ grpc_varint_encode value_len ++ bytes)
    else bytes ← load 4 value; Some (key ++ bytes).

Record decoded := mk_decoded { d_number : Z; d_type : grpc_proto_type_t; d_value : list Z; d_consumed : nat }.
(** [None] is -1. *)
Definition grpc_wire_decode_field (buf : list Z) : option decoded :=
  '(key, key_len) ← grpc_varint_decode buf;
  let number := s32 (Z.shiftr key 3) in
  let wire_type := Z.land key 7 in
  let rest := drop key_len buf in
  if wire_type =? 0 then
    '(v, vlen) ← grpc_varint_decode rest; Some (mk_decoded number GRPC_PROTO_UINT64 (le_bytes 8 v) (key_len + vlen))
  else if wire_type =? 1 then
    if (length rest <? 8)%nat then None else Some (mk_decoded number GRPC_PROTO_FIXED64 (take 8 rest) (key_len + 8))
  else if wire_type =? 2 then
    '(slen, llen) ← grpc_varint_decode rest;
    let rest := drop llen rest in
    let slen := Z.to_nat (Z.min slen (Z.of_nat (length rest))) in
    Some (mk_decoded number GRPC_PROTO_BYTES (take slen rest) (key_len + llen + slen))
  else if wire_type =? 5 then
    if (length rest <? 4)%nat then None else Some (mk_decoded number GRPC_PROTO_FIXED32 (take 4 rest) (key_len + 4))
  else None.

(** [Some None]: false is returned. *)
Fixpoint encode_loop (l : list (grpc_field_def_t * list Z * Z)) (off : Z) : option (option (list Z)) :=
  match l with
  | [] => Some (Some [])
  | (f, value, len) :: l' =>
      bytes ← grpc_wire_encode_field (field_number f) (f_type f) value len;
      match bytes with
      | [] => Some None
      | _ =>
          let off := off + Z.of_nat (length bytes) in
          if GRPC_MAX_FRAME_SIZE <=? off then Some (Some bytes)
          else rest ← encode_loop l' off; Some (option_map (app bytes) rest)
      end
  end.
(** [field_values] and [field_lens] have [field_count] elements. *)
Definition grpc_sim_encode_message (msg : grpc_message_def_t) (field_values : list (list Z)) (field_lens : list Z) : option (option (list Z)) :=
  encode_loop (zip (zip (fields msg) field_values) field_lens) 0.
Fixpoint decode_loop (count : nat) (data : list Z) : list (list Z) :=
  match count, data with
  | S count', _ :: _ =>
      match grpc_wire_decode_field data with
      | Some d => d_value d :: decode_loop count' (drop (d_consumed d) data)
      | None => []
      end
  | _, _ => []
  end.
Definition grpc_sim_decode_message (msg : grpc_message_def_t) (data : list Z) : list (list Z) := decode_loop (length (fields msg)) data.

(** * Properties *)



(** ** Zigzag *)

Lemma lxor_ones_complement k n : 0 <= n -> 0 <= k < 2 ^ n -> Z.lxor k (2 ^ n - 1) = 2 ^ n - 1 - k.
Proof.
  intros Hn Hk. change (2 ^ n - 1) with (Z.pred (2 ^ n)). rewrite <- Z.ones_equiv.
  assert (Hk0 : forall i, n <= i -> Z.testbit k i = false).
  { intros i Hi. rewrite <- (Z.mod_small k (2 ^ n)) by done. by apply Z.mod_pow2_bits_high. }
  assert (Hld : Z.ldiff k (Z.ones n) = 0).
  { apply Z.bits_inj'. intros i Hi. rewrite Z.ldiff_spec, Z.bits_0. destruct (decide (i < n)).
    - rewrite Z.ones_spec_low by lia. by rewrite andb_false_r.
    - by rewrite Hk0 by lia. }
  rewrite (Z.sub_nocarry_ldiff (Z.ones n) k) by done. apply Z.bits_inj'. intros i Hi. rewrite Z.lxor_spec, Z.ldiff_spec. destruct (decide (i < n)).
  - rewrite Z.ones_spec_low by lia. by destruct (Z.testbit k i).
  - rewrite Z.ones_spec_high by lia. by rewrite Hk0 by lia.
Qed.

Section zigzag.
Context (n : Z) (Hn : 1 <= n).
Let u (x : Z) : Z := x mod 2 ^ (n + 1).
Let s (x : Z) : Z := (x + 2 ^ n) mod 2 ^ (n + 1) - 2 ^ n.

Lemma pow_step : 2 ^ (n + 1) = 2 * 2 ^ n /\ 0 < 2 ^ n.
Proof. split; [rewrite Z.pow_add_r by lia; lia|apply Z.pow_pos_nonneg; lia]. Qed.
Lemma signed_small x : - 2 ^ n <= x < 2 ^ n -> s x = x.
Proof. intros Hx. pose proof pow_step. unfold s. rewrite Z.mod_small; lia. Qed.
Lemma signed_mod x : exists q, s x = x + q * 2 ^ (n + 1).
Proof. exists (- ((x + 2 ^ n) / 2 ^ (n + 1))). pose proof pow_step. unfold s. rewrite Z.mod_eq by lia. lia. Qed.

Lemma zigzag_encode_value v : - 2 ^ n <= v < 2 ^ n -> u (Z.lxor (s (Z.shiftl v 1)) (Z.shiftr v n)) = if 0 <=? v then 2 * v else - 2 * v - 1.
Proof.
  intros Hv. pose proof pow_step as [Hp H0]. rewrite Z.shiftl_mul_pow2, Z.shiftr_div_pow2 by lia. change (2 ^ 1) with 2.
  destruct (signed_mod (v * 2)) as [q ->]. unfold u. destruct (Z.leb_spec 0 v).
  - rewrite (Z.div_small v) by lia. rewrite Z.lxor_0_r, Z.mod_add, Z.mod_small; lia.
  - replace (v / 2 ^ n) with (-1) by (apply (Z.div_unique _ _ _ (v + 2 ^ n)); lia).
    rewrite Z.lxor_m1_r. unfold Z.lnot. replace (Z.pred (- (v * 2 + q * 2 ^ (n + 1)))) with (- 2 * v - 1 + - q * 2 ^ (n + 1)) by lia.
    rewrite Z.mod_add, Z.mod_small; lia.
Qed.

Lemma zigzag_decode_encode v : - 2 ^ n <= v < 2 ^ n ->
  let e := u (Z.lxor (s (Z.shiftl v 1)) (Z.shiftr v n)) in s (Z.lxor (Z.shiftr e 1) (u (- Z.land e 1))) = v.
Proof.
  intros Hv e. subst e. rewrite zigzag_encode_value by done. pose proof pow_step as [Hp H0]. rewrite Z.shiftr_div_pow2 by lia. change (2 ^ 1) with 2.
  assert (Hl1 : forall e, Z.land e 1 = e mod 2) by (intros e; exact (land_ones e 1 ltac:(lia))). rewrite Hl1. destruct (Z.leb_spec 0 v).
  - rewrite (Z.mul_comm 2 v), Z.div_mul, Z.mod_mul by lia. unfold u. rewrite Z.mod_0_l, Z.lxor_0_r by lia. by apply signed_small.
  - replace (- 2 * v - 1) with (1 + (- v - 1) * 2) by lia. rewrite Z.div_add, Z.mod_add by lia. change (1 / 2) with 0. change (1 mod 2) with 1. rewrite Z.add_0_l.
    replace (u (- (1))) with (2 ^ (n + 1) - 1) by (unfold u; apply (Z.mod_unique _ _ (-1)); lia). rewrite lxor_ones_complement by lia.
    unfold s. replace (2 ^ (n + 1) - 1 - (- v - 1) + 2 ^ n) with (v + 2 ^ n + 1 * 2 ^ (n + 1)) by lia. rewrite Z.mod_add, Z.mod_small; lia.
Qed.
End zigzag.

(** Zigzag encoding is undone by decoding and keeps small numbers small. *)
Theorem grpc_zigzag_roundtrip v :
  (- 2 ^ 31 <= v < 2 ^ 31 -> grpc_zigzag32_decode (grpc_zigzag32_encode v) = v /\ 0 <= grpc_zigzag32_encode v <= 2 * Z.abs v) /\
  (- 2 ^ 63 <= v < 2 ^ 63 -> grpc_zigzag64_decode (grpc_zigzag64_encode v) = v /\ 0 <= grpc_zigzag64_encode v <= 2 * Z.abs v).
Proof.
  split; intros Hv.
  - split; [exact (zigzag_decode_encode 31 ltac:(lia) v Hv)|]. pose proof (zigzag_encode_value 31 ltac:(lia) v Hv) as He.
    change (grpc_zigzag32_encode v = if 0 <=? v then 2 * v else - 2 * v - 1) in He. rewrite He. destruct (Z.leb_spec 0 v); lia.
  - split; [exact (zigzag_decode_encode 63 ltac:(lia) v Hv)|]. pose proof (zigzag_encode_value 63 ltac:(lia) v Hv) as He.
    change (grpc_zigzag64_encode v = if 0 <=? v then 2 * v else - 2 * v - 1) in He. rewrite He. destruct (Z.leb_spec 0 v); lia.
Qed.

(** ** Varints *)

(** A byte with and without the continuation bit. *)
Lemma varint_byte_table : forallb (fun m => (Z.land (Z.lor m 0x80) 0x7F =? m) && negb (Z.land (Z.lor m 0x80) 0x80 =? 0) && (Z.lor m 0x80 <? 256)
  && (0 <=? Z.lor m 0x80) && (Z.land m 0x7F =? m) && (Z.land m 0x80 =? 0)) (seqZ 0 128) = true.
Proof. vm_compute. reflexivity. Qed.
Lemma varint_byte m : 0 <= m < 128 -> Z.land (Z.lor m 0x80) 0x7F = m /\ (Z.land (Z.lor m 0x80) 0x80 =? 0) = false /\ byte_ok (Z.lor m 0x80) /\
  Z.land m 0x7F = m /\ (Z.land m 0x80 =? 0) = true.
Proof.
  intros Hm. pose proof varint_byte_table as H. rewrite forallb_forall in H. specialize (H m). rewrite <- list_elem_of_In, elem_of_seqZ in H.
  specialize (H ltac:(lia)). unfold byte_ok. rewrite !andb_true_iff, negb_true_iff, !Z.eqb_eq, Z.ltb_lt, Z.leb_le in H. rewrite Z.eqb_eq. naive_solver.
Qed.
Lemma land_127 v : Z.land v 0x7F = v mod 128.
Proof. exact (land_ones v 7 ltac:(lia)). Qed.

Lemma varint_loop_bytes fuel : forall v, 0 <= v < 2 ^ (7 * Z.of_nat fuel) ->
  Forall byte_ok (varint_loop fuel v) /\ (fuel <> 0%nat -> varint_loop fuel v <> []) /\ (length (varint_loop fuel v) <= fuel)%nat.
Proof.
  induction fuel as [|fuel IH]; intros v Hv; cbn [varint_loop]; [split; [constructor|done]|].
  rewrite land_127. pose proof (Z.mod_pos_bound v 128 ltac:(lia)) as Hm. destruct (varint_byte _ Hm) as (_ & _ & Hb & _). destruct (Z.ltb_spec 0x7F v).
  - destruct (IH (Z.shiftr v 7)) as (H1 & _ & H3).
    { rewrite Z.shiftr_div_pow2 by lia. replace (7 * Z.of_nat (S fuel)) with (7 * Z.of_nat fuel + 7) in Hv by lia. rewrite Z.pow_add_r in Hv by lia.
      split; [apply Z.div_pos; lia|apply Z.div_lt_upper_bound; lia]. }
    split; [by constructor|]. split; [done|cbn; lia].
  - split; [|split; [done|cbn; lia]]. constructor; [unfold byte_ok; lia|constructor].
Qed.

Lemma varint_decode_loop_spec fuel : forall v acc shift i rest, fuel <> 0%nat -> 0 <= shift -> 0 <= v < 2 ^ (7 * Z.of_nat fuel) -> 0 <= acc < 2 ^ shift -> v * 2 ^ shift < 2 ^ 64 ->
  varint_decode_loop (varint_loop fuel v ++ rest) acc shift i = Some (acc + v * 2 ^ shift, (i + length (varint_loop fuel v))%nat).
Proof.
  induction fuel as [|fuel IH]; intros v acc shift i rest Hne Hs Hv Hacc Hfit; [done|]. cbn [varint_loop]. rewrite land_127.
  pose proof (Z.mod_pos_bound v 128 ltac:(lia)) as Hm. pose proof (Z.pow_pos_nonneg 2 shift ltac:(lia) Hs) as Hp. pose proof (Z.div_mod v 128 ltac:(lia)) as Hdm.
  pose proof (Z.div_pos v 128 ltac:(lia) ltac:(lia)) as Hd0.
  assert (Hadd : Z.lor acc (u64 (Z.shiftl (v mod 128) shift)) = acc + v mod 128 * 2 ^ shift).
  { assert (v mod 128 * 2 ^ shift < 2 ^ 64) by nia. rewrite Z.shiftl_mul_pow2, u64_small by nia. rewrite Z.lor_comm, <- Z.shiftl_mul_pow2, lor_shiftl, ?Z.shiftl_mul_pow2 by lia. lia. }
  destruct (varint_byte _ Hm) as (H1 & H2 & _ & H3 & H4). destruct (Z.ltb_spec 0x7F v) as [Hbig|Hsmall]; cbn [app varint_decode_loop length].
  - rewrite H1, H2, Hadd. assert (Hpow : 2 ^ (shift + 7) = 2 ^ shift * 128) by (rewrite Z.pow_add_r; lia).
    assert (Hsh : 2 ^ (shift + 7) < 2 ^ 64) by nia.
    apply Z.pow_lt_mono_r_iff in Hsh; [|lia|lia]. rewrite (proj2 (Z.leb_gt _ _)) by lia. rewrite Z.shiftr_div_pow2 by lia. change (2 ^ 7) with 128.
    assert (fuel <> 0%nat) by (intros ->; cbn in Hv; lia). rewrite IH; [|done|lia| | |].
    + f_equal. f_equal; [rewrite Hpow; nia|lia].
    + replace (7 * Z.of_nat (S fuel)) with (7 * Z.of_nat fuel + 7) in Hv by lia. rewrite Z.pow_add_r in Hv by lia. split; [done|apply Z.div_lt_upper_bound; lia].
    + rewrite Hpow. nia.
    + rewrite Hpow. nia.
  - rewrite H3, H4, Hadd, Z.mod_small by lia. f_equal. f_equal. lia.
Qed.

Lemma varint_roundtrip v rest : 0 <= v < 2 ^ 64 -> grpc_varint_decode (grpc_varint_encode v ++ rest) = Some (v, length (grpc_varint_encode v)).
Proof.
  intros Hv. unfold grpc_varint_decode, grpc_varint_encode. rewrite varint_decode_loop_spec; [|done|lia|change (2 ^ (7 * Z.of_nat 10)) with (2 ^ 70); lia|lia|lia].
  f_equal. f_equal. lia.
Qed.

(** ** Fields *)

Lemma le_value_bound l : Forall byte_ok l -> 0 <= le_value l < 256 ^ Z.of_nat (length l).
Proof.
  induction 1 as [|b l Hb Hl IH]; cbn [le_value length]; [done|]. unfold byte_ok in Hb. rewrite Nat2Z.inj_succ, Z.pow_succ_r by lia. lia.
Qed.

(** The number a varint field carries. *)
Definition varint_value (ty : grpc_proto_type_t) (value : list Z) (value_len : Z) : Z :=
  let v := le_value (take (if 8 <=? value_len then 8 else if 4 <=? value_len then 4 else 1) value) in
  match ty with GRPC_PROTO_SINT32 => grpc_zigzag32_encode (s32 v) | GRPC_PROTO_SINT64 => grpc_zigzag64_encode (s64 v) | _ => v end.
(** What the reader gets. *)
Definition wire_value (ty : grpc_proto_type_t) (value : list Z) (value_len : Z) : list Z :=
  let wt := grpc_wire_type_for_proto ty in
  if wt =? 0 then le_bytes 8 (varint_value ty value value_len) else if wt =? 1 then take 8 value
  else if wt =? 2 then take (Z.to_nat value_len) value else take 4 value.
(** The bytes read behind the pointer, and that they are there. *)
Definition needed (ty : grpc_proto_type_t) (value_len : Z) : nat :=
  let wt := grpc_wire_type_for_proto ty in
  if wt =? 0 then if 8 <=? value_len then 8 else if 4 <=? value_len then 4 else 1 else if wt =? 1 then 8 else if wt =? 2 then Z.to_nat value_len else 4.
Definition enough (ty : grpc_proto_type_t) (value : list Z) (value_len : Z) : Prop :=
  Forall byte_ok value /\ 0 <= value_len < 2 ^ 31 /\ (needed ty value_len <= length value)%nat.

Lemma varint_value_bound ty value len : Forall byte_ok value -> 0 <= varint_value ty value len < 2 ^ 64.
Proof.
  intros Hv. unfold varint_value. set (k := if 8 <=? len then 8%nat else if 4 <=? len then 4%nat else 1%nat).
  assert (Hle : 0 <= le_value (take k value) < 2 ^ 64).
  { pose proof (le_value_bound (take k value) ltac:(by apply Forall_take)) as H. split; [lia|]. eapply Z.lt_le_trans; [apply H|].
    change (2 ^ 64) with (256 ^ 8). apply Z.pow_le_mono_r; [lia|]. rewrite length_take. subst k. destruct (8 <=? len), (4 <=? len); lia. }
  destruct ty; try done; unfold grpc_zigzag32_encode, grpc_zigzag64_encode; [pose proof (u32_range (Z.lxor (s32 (Z.shiftl (s32 (le_value (take k value))) 1)) (Z.shiftr (s32 (le_value (take k value))) 31))); lia|apply u64_range].
Qed.

Lemma load_ok n value : (n <= length value)%nat -> load n value = Some (take n value).
Proof. intros Hn. unfold load. by rewrite (proj2 (Nat.leb_le _ _)). Qed.

Lemma wire_key n wt : 0 < n < 2 ^ 29 -> 0 <= wt < 8 -> let k := u32 (Z.lor (Z.shiftl n 3) wt) in 0 <= k < 2 ^ 64 /\ s32 (Z.shiftr k 3) = n /\ Z.land k 7 = wt.
Proof.
  intros Hn Hw k. assert (Hk : k = wt + n * 2 ^ 3) by (subst k; rewrite lor_shiftl by lia; rewrite u32_small by lia; lia). rewrite Hk. clear k Hk. split; [lia|]. split.
  - rewrite Z.shiftr_div_pow2, Z.div_add, Z.div_small, Z.add_0_l by lia. apply s32_small. lia.
  - change 7 with (2 ^ 3 - 1). rewrite land_ones, Z.mod_add, Z.mod_small by lia. done.
Qed.

Lemma varint_nonempty v : 0 <= v < 2 ^ 64 -> grpc_varint_encode v <> [].
Proof. intros Hv. apply varint_loop_bytes; [change (2 ^ (7 * Z.of_nat 10)) with (2 ^ 70); lia|done]. Qed.

Lemma wire_type_cases ty : let wt := grpc_wire_type_for_proto ty in (wt = 0 \/ wt = 1 \/ wt = 2 \/ wt = 5) /\ 0 <= wt < 8.
Proof. destruct ty; cbn; lia. Qed.

Lemma wire_field_roundtrip n ty value len : 0 < n < 2 ^ 29 -> enough ty value len ->
  exists bytes, grpc_wire_encode_field n ty value len = Some bytes /\ bytes <> [] /\
    forall rest, exists ty', grpc_wire_decode_field (bytes ++ rest) = Some (mk_decoded n ty' (wire_value ty value len) (length bytes)).
Proof.
  intros Hn (Hb & Hlen & Henough). destruct (wire_type_cases ty) as [Hcases Hwt]. unfold needed in Henough. unfold grpc_wire_encode_field, wire_value in *. cbv zeta in *.
  rewrite (proj2 (Z.leb_gt n 0)) by lia. destruct (wire_key n _ Hn Hwt) as (Hk & Hnum & Htype). set (k := u32 _) in *.
  assert (Hdec : forall tail, grpc_wire_decode_field (grpc_varint_encode k ++ tail) = _) by (intros tail; unfold grpc_wire_decode_field; rewrite varint_roundtrip by done;
    cbn [mbind option_bind]; rewrite Hnum, Htype, drop_app_length; reflexivity).
  pose proof (varint_nonempty k Hk) as Hne.
  assert (Hne' : forall l, grpc_varint_encode k ++ l <> []) by (intros l Hl; apply Hne; by destruct (grpc_varint_encode k)).
  destruct Hcases as [Hw|[Hw|[Hw|Hw]]]; rewrite Hw in Henough, Hdec |- *; cbn [Z.eqb Pos.eqb] in *.
  - rewrite load_ok by done. cbn [mbind option_bind]. change (match ty with GRPC_PROTO_SINT32 => _ | GRPC_PROTO_SINT64 => _ | _ => _ end) with (varint_value ty value len).
    eexists. split; [done|]. split; [done|]. intros rest. eexists. rewrite <- app_assoc, Hdec, varint_roundtrip by (by apply varint_value_bound).
    cbn [mbind option_bind]. by rewrite length_app.
  - rewrite load_ok by done. cbn [mbind option_bind]. eexists. split; [done|]. split; [done|]. intros rest. eexists. rewrite <- app_assoc, Hdec.
    assert (Hl : length (take 8 value) = 8%nat) by (rewrite length_take; lia). rewrite (proj2 (Nat.ltb_ge _ _)) by (rewrite length_app; lia).
    rewrite length_app, Hl, take_app_le, take_take by lia. done.
  - rewrite (proj2 (Z.ltb_ge len 0)), load_ok by (done || lia). cbn [mbind option_bind]. eexists. split; [done|]. split; [done|]. intros rest. eexists.
    rewrite <- !app_assoc, Hdec, varint_roundtrip by lia. cbn [mbind option_bind]. rewrite drop_app_length.
    assert (Hl : length (take (Z.to_nat len) value) = Z.to_nat len) by (rewrite length_take; lia).
    assert (Hmin : Z.to_nat (Z.min len (Z.of_nat (length (take (Z.to_nat len) value ++ rest)))) = Z.to_nat len) by (rewrite length_app, Hl; lia). rewrite Hmin.
    rewrite !length_app, Hl, take_app_le, take_take, Nat.min_id by lia. do 2 f_equal. lia.
  - rewrite load_ok by done. cbn [mbind option_bind]. eexists. split; [done|]. split; [done|]. intros rest. eexists. rewrite <- app_assoc, Hdec.
    assert (Hl : length (take 4 value) = 4%nat) by (rewrite length_take; lia). rewrite (proj2 (Nat.ltb_ge _ _)) by (rewrite length_app; lia).
    rewrite length_app, Hl, take_app_le, take_take by lia. done.
Qed.

(** ** Messages *)

Definition field_ok (x : grpc_field_def_t * list Z * Z) : Prop := let '(f, value, len) := x in 0 < field_number f < 2 ^ 29 /\ enough (f_type f) value len.

Lemma encode_loop_roundtrip l : forall off, Forall field_ok l -> exists out, encode_loop l off = Some (Some out) /\
  (off + Z.of_nat (length out) < GRPC_MAX_FRAME_SIZE -> decode_loop (length l) out = (fun '(f, value, len) => wire_value (f_type f) value len) <$> l).
Proof.
  induction l as [|[[f value] len] l IH]; intros off Hall; [by exists []|]. apply Forall_cons in Hall as [[Hn He] Hl]. cbn [encode_loop].
  destruct (wire_field_roundtrip (field_number f) (f_type f) value len Hn He) as (bytes & -> & Hne & Hdec). cbn [mbind option_bind].
  destruct bytes as [|b bytes]; [done|]. set (bs := b :: bytes) in *. destruct (Z.leb_spec GRPC_MAX_FRAME_SIZE (off + Z.of_nat (length bs))).
  - exists bs. split; [done|]. intros ?. lia.
  - destruct (IH (off + Z.of_nat (length bs)) Hl) as (out & -> & Hout). cbn [mbind option_bind option_map]. exists (bs ++ out). split; [done|].
    rewrite length_app. intros Hfit. destruct (Hdec out) as [ty' Hd]. cbn [length decode_loop]. rewrite Hd. cbn [d_value d_consumed].
    rewrite drop_app_length. rewrite Hout by lia. done.
Qed.

(** A message encoded field by field and shorter than a frame is decoded to the
    bytes of its values, field after field: varints zigzagged for the signed types,
    fixed-width values and byte strings as they were. *)
Theorem grpc_message_roundtrip msg values lens : length values = length (fields msg) -> length lens = length (fields msg) ->
  Forall field_ok (zip (zip (fields msg) values) lens) ->
  exists out, grpc_sim_encode_message msg values lens = Some (Some out) /\
    (Z.of_nat (length out) < GRPC_MAX_FRAME_SIZE ->
     grpc_sim_decode_message msg out = (fun '(f, value, len) => wire_value (f_type f) value len) <$> zip (zip (fields msg) values) lens).
Proof.
  intros Hv Hl Hall. destruct (encode_loop_roundtrip _ 0 Hall) as (out & He & Hd). exists out. split; [done|]. intros Hfit. specialize (Hd Hfit).
  rewrite !length_zip_with in Hd. unfold grpc_sim_decode_message. rewrite Hv, Hl, !Nat.min_id in Hd. done.
Qed.

Lemma grpc_message_roundtrip_witness :
  let msg := mk_message [] [mk_field [] GRPC_PROTO_SINT32 1 false false; mk_field [] GRPC_PROTO_STRING 2 false false; mk_field [] GRPC_PROTO_FIXED32 3 false false] in
  let values := [[253; 255; 255; 255]; str_bytes "hi"; [1; 2; 3; 4]] in
  exists out, grpc_sim_encode_message msg values [4; 2; 4] = Some (Some out) /\
    out = [8; 5; 18; 2; 104; 105; 29; 1; 2; 3; 4] /\ grpc_sim_decode_message msg out = [[5; 0; 0; 0; 0; 0; 0; 0]; str_bytes "hi"; [1; 2; 3; 4]].
Proof.
  intros msg values. destruct (grpc_message_roundtrip msg values [4; 2; 4] eq_refl eq_refl) as (out & He & Hd).
  - repeat constructor; cbn; lia.
  - exists out. split; [done|]. assert (Ho : out = [8; 5; 18; 2; 104; 105; 29; 1; 2; 3; 4]) by (revert He; vm_compute; congruence). split; [done|].
    rewrite Hd by (rewrite Ho; vm_compute; reflexivity). vm_compute. reflexivity.
Defined.

(** ** Behaviours found *)

(** A gRPC length of 2^31 or more becomes a negative count and then a huge [memcpy]. *)
Example grpc_frame_huge_length s : grpc_sim_grpc_frame s [0; 128; 0; 0; 0; 7] = None.
Proof. reflexivity. Qed.
(** The parser keeps a payload length above the payload array, beyond the bytes it
    copied; the builder drops such a frame. *)
Example grpc_parsed_length_exceeds_payload : exists f, grpc_sim_parse_grpc_frame [2; 0; 0; 0; 0; 0; 0; 0; 1; 42] = Some f /\
  payload_len f = 131072 /\ fr_payload f = [42] /\ grpc_sim_build_h2_frame f true = None.
Proof. eexists. split; [reflexivity|]. repeat split; reflexivity. Qed.
(** A byte string cut short is accepted with the bytes there are. *)
Example grpc_truncated_string_accepted : grpc_wire_decode_field [18; 5; 104; 105] = Some (mk_decoded 2 GRPC_PROTO_BYTES [104; 105] 4).
Proof. vm_compute. reflexivity. Qed.
(** A negative [int32] is written as the unsigned number of its four bytes, not sign
    extended to ten bytes as protobuf has it. *)
Example grpc_negative_int32 : grpc_wire_encode_field 1 GRPC_PROTO_INT32 [255; 255; 255; 255] 4 = Some [8; 255; 255; 255; 255; 15].
Proof. vm_compute. reflexivity. Qed.
