(* ===== verification/Workflow.v ===== *)
(** Model of [mini-business-arch/src/workflow_engine.c]: workflow definitions (states
    with entry and exit actions, guarded transitions), running instances with timers,
    and the approval workflow.

    [D] is the type of the data an instance carries.  An action is the function
    together with its context, as a function on the data; its result is not used by
    the code.  A guard may change the data too.  Neither calls the engine.  [None]
    stands for a null pointer dereferenced or a string left without its final zero. *)

From S2P Require Import Prelude Bytes.

Definition WORKFLOW_NAME_LEN : nat := 128.
Definition WORKFLOW_STATE_LEN : nat := 64.
Definition WORKFLOW_EVENT_LEN : nat := 64.
Definition WORKFLOW_GUARD_LEN : nat := 256.
Definition WORKFLOW_MAX_STATES : nat := 32.
Definition WORKFLOW_MAX_TRANS : nat := 64.
Definition WORKFLOW_MAX_ACTIONS : nat := 16.
Definition DDD_ID_LEN : nat := 64.

Inductive WFBranchType := WF_BRANCH_SIMPLE | WF_BRANCH_FORK | WF_BRANCH_JOIN | WF_BRANCH_TIMER.

Section engine.
Context {D : Type}.

Definition WorkflowAction : Type := D -> D.
Record WorkflowState := mk_state {
  name : list Z; display_name : list Z; is_initial : bool; is_final : bool; on_entry : list WorkflowAction; on_exit : list WorkflowAction;
}.
Record WorkflowTransition := mk_transition {
  source_state : list Z; target_state : list Z; event : list Z; branch_type : WFBranchType;
  guard : option (D -> bool * D); guard_desc : list Z; on_transition : list WorkflowAction;
}.
Record WorkflowDefinition := mk_definition { def_name : list Z; states : list WorkflowState; transitions : list WorkflowTransition }.
Record WorkflowTimer := mk_timer { timer_event : list Z; trigger_at_ms : Z; triggered : bool; repeating : bool; interval_ms : Z }.
Record WorkflowInstance := mk_instance {
  current_state : list Z; previous_state : list Z; instance_id : list Z; data : D; is_completed : bool; timers : list WorkflowTimer;
}.

(** ** Definitions *)

Definition workflow_define (n : list Z) : WorkflowDefinition := mk_definition (truncated WORKFLOW_NAME_LEN n) [] [].

(** The display name may be a null pointer. *)
Definition workflow_add_state (def : WorkflowDefinition) (n : list Z) (display : option (list Z)) (initial final : bool) : Z * WorkflowDefinition :=
  if (WORKFLOW_MAX_STATES <=? length (states def))%nat then (-1, def)
  else
    let s := mk_state (truncated WORKFLOW_STATE_LEN n) (truncated WORKFLOW_NAME_LEN (from_option id n display)) initial final [] [] in
    (0, def <| states ::= fun l => l ++ [s] |>).

Definition workflow_find_state (def : WorkflowDefinition) (n : list Z) : option nat := find_idx (fun s => bool_decide (name s = n)) (states def).
Definition state_at (def : WorkflowDefinition) (n : list Z) : option WorkflowState := workflow_find_state def n ≫= (states def !!.).

Definition workflow_add_state_entry_action (def : WorkflowDefinition) (state_name : list Z) (action : WorkflowAction) : Z * WorkflowDefinition :=
  match state_at def state_name, workflow_find_state def state_name with
  | Some s, Some i =>
      if (WORKFLOW_MAX_ACTIONS <=? length (on_entry s))%nat then (-1, def)
      else (0, def <| states ::= <[i := s <| on_entry ::= fun l => l ++ [action] |>]> |>)
  | _, _ => (-1, def)
  end.
Definition workflow_add_state_exit_action (def : WorkflowDefinition) (state_name : list Z) (action : WorkflowAction) : Z * WorkflowDefinition :=
  match state_at def state_name, workflow_find_state def state_name with
  | Some s, Some i =>
      if (WORKFLOW_MAX_ACTIONS <=? length (on_exit s))%nat then (-1, def)
      else (0, def <| states ::= <[i := s <| on_exit ::= fun l => l ++ [action] |>]> |>)
  | _, _ => (-1, def)
  end.

Definition new_transition (from to ev : list Z) (ty : WFBranchType) : WorkflowTransition := mk_transition from to ev ty None [] [].
Definition workflow_add_transition (def : WorkflowDefinition) (from to ev : list Z) : Z * WorkflowDefinition :=
  if (WORKFLOW_MAX_TRANS <=? length (transitions def))%nat then (-1, def)
  else
    let t := new_transition (truncated WORKFLOW_STATE_LEN from) (truncated WORKFLOW_STATE_LEN to) (truncated WORKFLOW_EVENT_LEN ev) WF_BRANCH_SIMPLE in
    (0, def <| transitions ::= fun l => l ++ [t] |>).
Definition workflow_add_guarded_transition (def : WorkflowDefinition) (from to ev : list Z) (g : D -> bool * D) (desc : option (list Z)) : Z * WorkflowDefinition :=
  let '(rc, def) := workflow_add_transition def from to ev in
  if negb (rc =? 0) then (rc, def)
  else
    let set_guard t := t <| guard := Some g |> <| guard_desc := from_option (truncated WORKFLOW_GUARD_LEN) [] desc |> in
    (0, def <| transitions ::= alter set_guard (length (transitions def) - 1)%nat |>).

Definition workflow_find_transition (def : WorkflowDefinition) (from ev : list Z) : option nat :=
  find_idx (fun t => bool_decide (source_state t = from) && bool_decide (event t = ev)) (transitions def).
Definition workflow_add_transition_action (def : WorkflowDefinition) (from ev : list Z) (action : WorkflowAction) : Z * WorkflowDefinition :=
  match workflow_find_transition def from ev with
  | Some i =>
      match transitions def !! i with
      | Some t =>
          if (WORKFLOW_MAX_ACTIONS <=? length (on_transition t))%nat then (-1, def)
          else (0, def <| transitions ::= <[i := t <| on_transition ::= fun l => l ++ [action] |>]> |>)
      | None => (-1, def)
      end
  | None => (-1, def)
  end.

(** An array of [size] bytes filled by [strncpy] alone. *)
Definition terminated (size : nat) (s : list Z) : option (list Z) := if (length s <? size)%nat then Some s else None.
Fixpoint add_branches (def : WorkflowDefinition) (from : list Z) (targets : list (list Z)) : WorkflowDefinition :=
  match targets with
  | [] => def
  | target :: targets' =>
      if (WORKFLOW_MAX_TRANS <=? length (transitions def))%nat then def
      else add_branches (def <| transitions ::= fun l => l ++ [new_transition from (truncated WORKFLOW_STATE_LEN target) (str_bytes "__FORK_BRANCH__") WF_BRANCH_SIMPLE] |>)
             from targets'
  end.
Definition workflow_add_fork (def : WorkflowDefinition) (from : list Z) (target_states : list (list Z)) (join_state : list Z) : option (Z * WorkflowDefinition) :=
  if (WORKFLOW_MAX_TRANS <=? length (transitions def))%nat then Some (-1, def)
  else
    from ← terminated WORKFLOW_STATE_LEN from;
    let t := new_transition from (truncated WORKFLOW_STATE_LEN join_state) (str_bytes "__FORK__") WF_BRANCH_FORK in
    Some (0, add_branches (def <| transitions ::= fun l => l ++ [t] |>) from target_states).
Definition workflow_add_join (def : WorkflowDefinition) (join_state to_state ev : list Z) : option (Z * WorkflowDefinition) :=
  if (WORKFLOW_MAX_TRANS <=? length (transitions def))%nat then Some (-1, def)
  else
    join_state ← terminated WORKFLOW_STATE_LEN join_state;
    to_state ← terminated WORKFLOW_STATE_LEN to_state;
    ev ← terminated WORKFLOW_EVENT_LEN ev;
    Some (0, def <| transitions ::= fun l => l ++ [new_transition join_state to_state ev WF_BRANCH_JOIN] |>).
(** The delay is not used. *)
Definition workflow_add_timer (def : WorkflowDefinition) (from_state ev : list Z) (delay_ms : Z) : Z * WorkflowDefinition :=
  workflow_add_transition def from_state from_state ev.

(** ** Instances *)

Definition workflow_initial_state (def : WorkflowDefinition) : option (list Z) :=
  i ← find_idx is_initial (states def); name <$> states def !! i.
Definition workflow_is_final_state (def : WorkflowDefinition) (n : list Z) : bool := from_option is_final false (state_at def n).
(** The copy of the data succeeds. *)
Definition workflow_instance_create (def : WorkflowDefinition) (id : list Z) (d : D) : option WorkflowInstance :=
  initial ← workflow_initial_state def;
  Some (mk_instance (truncated WORKFLOW_STATE_LEN initial) [] (truncated DDD_ID_LEN id) d false []).

Definition execute (actions : list WorkflowAction) (d : D) : D := foldl (fun d a => a d) d actions.
Definition transition_execute_actions (t : WorkflowTransition) (d : D) : D := execute (on_transition t) d.
Definition state_execute_on_exit (s : WorkflowState) (d : D) : D := execute (on_exit s) d.
Definition state_execute_on_entry (s : WorkflowState) (d : D) : D := execute (on_entry s) d.

Definition workflow_instance_send_event (inst : WorkflowInstance) (def : WorkflowDefinition) (ev : list Z) : Z * WorkflowInstance :=
  if is_completed inst then (-1, inst)
  else
    match workflow_find_transition def (current_state inst) ev ≫= (transitions def !!.) with
    | None => (-2, inst)
    | Some t =>
        let '(passed, d) := match guard t with Some g => g (data inst) | None => (true, data inst) end in
        let inst := inst <| data := d |> in
        if negb passed then (-3, inst)
        else
          let inst := inst <| previous_state := truncated WORKFLOW_STATE_LEN (current_state inst) |> in
          let inst := match state_at def (current_state inst) with Some src => inst <| data ::= state_execute_on_exit src |> | None => inst end in
          let inst := inst <| data ::= transition_execute_actions t |> in
          let inst := inst <| current_state := truncated WORKFLOW_STATE_LEN (target_state t) |> in
          let inst :=
            match state_at def (current_state inst) with
            | Some dst =>
                let inst := inst <| data ::= state_execute_on_entry dst |> in
                if is_final dst then inst <| is_completed := true |> else inst
            | None => inst
            end in
          (0, inst)
    end.

(** The timers from the [i]-th on. *)
Fixpoint tick_loop (n i : nat) (inst : WorkflowInstance) (def : WorkflowDefinition) (now_ms : Z) : WorkflowInstance :=
  match n with
  | O => inst
  | S n' =>
      let inst :=
        match timers inst !! i with
        | Some timer =>
            if negb (triggered timer) && (trigger_at_ms timer <=? now_ms) then
              let inst := inst <| timers ::= <[i := timer <| triggered := true |>]> |> in
              let inst := (workflow_instance_send_event inst def (timer_event timer)).2 in
              if repeating timer then
                inst <| timers ::= <[i := timer <| trigger_at_ms := u64 (now_ms + interval_ms timer) |> <| triggered := false |>]> |>
              else inst
            else inst
        | None => inst
        end in
      tick_loop n' (S i) inst def now_ms
  end.
Definition workflow_instance_tick_timers (inst : WorkflowInstance) (def : WorkflowDefinition) (now_ms : Z) : Z * WorkflowInstance :=
  (0, tick_loop (length (timers inst)) 0 inst def now_ms).
End engine.
Arguments WorkflowAction : clear implicits.
Arguments WorkflowState : clear implicits.
Arguments WorkflowTransition : clear implicits.
Arguments WorkflowDefinition : clear implicits.
Arguments WorkflowInstance : clear implicits.

(** ** The approval workflow *)

Inductive ApprovalStateEnum := APPROVAL_DRAFT | APPROVAL_PENDING_APPROVAL | APPROVAL_APPROVED | APPROVAL_REJECTED | APPROVAL_REVISION_REQUESTED.
(** The strings of a request are not touched here. *)
Record ApprovalRequestData := mk_request { state : ApprovalStateEnum; request_id : list Z; revision_count : Z; is_urgent : bool }.

(** It prints. *)
Definition appr_log_action : WorkflowAction ApprovalRequestData := fun req => req.

Definition workflow_create_approval_workflow : WorkflowDefinition ApprovalRequestData :=
  let add_state '(n, d, i, f) wf := (workflow_add_state wf (str_bytes n) (Some (str_bytes d)) i f).2 in
  let add_log n wf := (workflow_add_state_entry_action wf (str_bytes n) appr_log_action).2 in
  let add_trans '(f, t, e) wf := (workflow_add_transition wf (str_bytes f) (str_bytes t) (str_bytes e)).2 in
  let each {A} (f : A -> WorkflowDefinition ApprovalRequestData -> WorkflowDefinition ApprovalRequestData) l wf := foldl (fun w x => f x w) wf l in
  each add_trans [("draft", "pending_approval", "submit"); ("pending_approval", "approved", "approve"); ("pending_approval", "rejected", "reject");
                  ("pending_approval", "revision_requested", "request_revision"); ("revision_requested", "pending_approval", "resubmit")]%string
    (each add_log ["pending_approval"; "approved"; "rejected"]%string
       (each add_state [("draft"%string, "Draft"%string, true, false); ("pending_approval"%string, "Pending Approval"%string, false, false);
                        ("approved"%string, "Approved"%string, false, true); ("rejected"%string, "Rejected"%string, false, true);
                        ("revision_requested"%string, "Revision Requested"%string, false, false)]
          (workflow_define (str_bytes "ApprovalWorkflow")))).

Notation ApprovalInstance := (WorkflowInstance ApprovalRequestData).
Notation ApprovalDefinition := (WorkflowDefinition ApprovalRequestData).
Definition approval_request_submit (inst : ApprovalInstance) (def : ApprovalDefinition) : Z * ApprovalInstance :=
  workflow_instance_send_event (inst <| data ::= set state (fun _ => APPROVAL_PENDING_APPROVAL) |>) def (str_bytes "submit").
Definition approval_request_approve (inst : ApprovalInstance) (def : ApprovalDefinition) : Z * ApprovalInstance :=
  workflow_instance_send_event (inst <| data ::= set state (fun _ => APPROVAL_APPROVED) |>) def (str_bytes "approve").
Definition approval_request_reject (inst : ApprovalInstance) (def : ApprovalDefinition) : Z * ApprovalInstance :=
  workflow_instance_send_event (inst <| data ::= set state (fun _ => APPROVAL_REJECTED) |>) def (str_bytes "reject").
(** The count is taken not to overflow. *)
Definition approval_request_request_revision (inst : ApprovalInstance) (def : ApprovalDefinition) : Z * ApprovalInstance :=
  workflow_instance_send_event (inst <| data ::= fun req => req <| state := APPROVAL_REVISION_REQUESTED |> <| revision_count ::= Z.add 1 |> |>)
    def (str_bytes "request_revision").
Definition approval_request_resubmit (inst : ApprovalInstance) (def : ApprovalDefinition) : Z * ApprovalInstance :=
  workflow_instance_send_event (inst <| data ::= set state (fun _ => APPROVAL_PENDING_APPROVAL) |>) def (str_bytes "resubmit").

(** * Properties *)



(** ** Runs follow the definition *)

Section paths.
Context {D : Type} (def : WorkflowDefinition D).

(** [path s evs s']: transitions of the definition labelled [evs] lead from [s] to [s']. *)
Inductive path : list Z -> list (list Z) -> list Z -> Prop :=
| path_nil s : path s [] s
| path_snoc s evs t s' : path s evs (source_state t) -> t ∈ transitions def -> s' = truncated WORKFLOW_STATE_LEN (target_state t) ->
    path s (evs ++ [event t]) s'.

(** Events sent one after the other: the codes and the instance. *)
Fixpoint send_all (inst : WorkflowInstance D) (evs : list (list Z)) : list Z * WorkflowInstance D :=
  match evs with
  | [] => ([], inst)
  | ev :: evs' =>
      let '(rc, inst) := workflow_instance_send_event inst def ev in
      let '(rcs, inst) := send_all inst evs' in (rc :: rcs, inst)
  end.
(** The events answered by 0. *)
Fixpoint accepted (rcs : list Z) (evs : list (list Z)) : list (list Z) :=
  match rcs, evs with
  | rc :: rcs', ev :: evs' => (if rc =? 0 then [ev] else []) ++ accepted rcs' evs'
  | _, _ => []
  end.

Lemma send_event_cases (inst : WorkflowInstance D) ev : let '(rc, inst') := workflow_instance_send_event inst def ev in
  (rc = 0 /\ is_completed inst = false /\ (exists t, t ∈ transitions def /\ source_state t = current_state inst /\ event t = ev /\
     current_state inst' = truncated WORKFLOW_STATE_LEN (target_state t)) /\
     is_completed inst' = workflow_is_final_state def (current_state inst')) \/
  (rc <> 0 /\ current_state inst' = current_state inst /\ is_completed inst' = is_completed inst).
Proof.
  unfold workflow_instance_send_event. destruct (is_completed inst) eqn:Hc; [by right|].
  destruct (workflow_find_transition def _ ev) as [i|] eqn:Hf; cbn [mbind option_bind]; [|by right].
  destruct (transitions def !! i) as [t|] eqn:Ht; [|by right]. apply find_idx_Some in Hf as (t' & Ht' & Hp & _).
  rewrite Ht in Ht'. injection Ht' as <-. apply andb_prop in Hp as [Hs%bool_decide_eq_true He%bool_decide_eq_true].
  destruct (match guard t with Some g => g (data inst) | None => _ end) as [[] d]; cbn [negb]; [left|by right].
  split; [done|]. split; [done|]. unfold workflow_is_final_state.
  assert (Hin : t ∈ transitions def) by (by eapply list_elem_of_lookup_2).
  destruct inst as [cur0 prev id d0 comp tms]. cbn -[truncated] in *. set (cur := truncated _ (target_state t)).
  destruct (state_at def cur0) as [src|]; cbn -[truncated]; fold cur; destruct (state_at def cur) as [dst|] eqn:Hd;
    [destruct (is_final dst) eqn:Hfin| |destruct (is_final dst) eqn:Hfin|]; cbn -[truncated]; (split; [by exists t|]); cbn -[truncated]; fold cur; rewrite Hd; cbn; congruence.
Qed.

Lemma path_app s evs ev s' s'' t : path s evs s' -> source_state t = s' -> event t = ev -> t ∈ transitions def ->
  s'' = truncated WORKFLOW_STATE_LEN (target_state t) -> path s (evs ++ [ev]) s''.
Proof. intros Hp <- <- Ht ->. by econstructor. Qed.

(** Every run of an instance is a path of the definition's transitions, labelled by the
    events it answered with 0; entering a final state completes it, and from then on
    every event is refused and nothing changes. *)
Theorem workflow_runs_follow_definition inst evs :
  is_completed inst = false ->
  let '(rcs, inst') := send_all inst evs in
  path (current_state inst) (accepted rcs evs) (current_state inst') /\
  (accepted rcs evs <> [] -> is_completed inst' = workflow_is_final_state def (current_state inst')) /\
  (is_completed inst' = true -> forall ev, workflow_instance_send_event inst' def ev = (-1, inst')).
Proof.
  intros Hc. destruct (send_all inst evs) as [rcs inst'] eqn:Hrun.
  enough (H : forall pre s0, path s0 pre (current_state inst) -> (pre <> [] -> is_completed inst = workflow_is_final_state def (current_state inst)) ->
    path s0 (pre ++ accepted rcs evs) (current_state inst') /\
    (pre ++ accepted rcs evs <> [] -> is_completed inst' = workflow_is_final_state def (current_state inst'))).
  { destruct (H [] (current_state inst) (path_nil _)) as [H1 H2]; [done|]. split; [done|]. split; [done|].
    intros Hd ev. unfold workflow_instance_send_event. by rewrite Hd. }
  clear Hc. revert inst rcs inst' Hrun. induction evs as [|ev evs IH]; intros inst rcs inst' Hrun pre s0 Hpath Hfin; cbn [send_all] in Hrun.
  - injection Hrun as <- <-. cbn [accepted]. by rewrite app_nil_r.
  - pose proof (send_event_cases inst ev) as Hstep. destruct (workflow_instance_send_event inst def ev) as [rc inst1].
    destruct (send_all inst1 evs) as [rcs1 inst2] eqn:Hrest. injection Hrun as <- <-. cbn [accepted].
    destruct Hstep as [(-> & _ & (t & Ht & Hs & He & Hcur) & Hd)|(Hne & Hcur & Hd)].
    + cbn [Z.eqb]. rewrite app_assoc. apply (IH _ _ _ Hrest); [|done]. by eapply path_app.
    + rewrite (proj2 (Z.eqb_neq rc 0)) by done. cbn [app]. apply (IH _ _ _ Hrest); [by rewrite Hcur|]. by rewrite Hd, Hcur.
Qed.
End paths.

(** ** The approval workflow *)

Notation approval_wf := workflow_create_approval_workflow.

(** What it draws. *)
Inductive approval := Draft | Pending | Approved | Rejected | Revision.
Inductive call := Submit | Approve | Reject | RequestRevision | Resubmit.
Definition next (a : approval) (c : call) : option approval :=
  match a, c with
  | Draft, Submit => Some Pending
  | Pending, Approve => Some Approved
  | Pending, Reject => Some Rejected
  | Pending, RequestRevision => Some Revision
  | Revision, Resubmit => Some Pending
  | _, _ => None
  end.
Definition final (a : approval) : bool := match a with Approved | Rejected => true | _ => false end.
Definition state_name (a : approval) : list Z :=
  str_bytes match a with Draft => "draft" | Pending => "pending_approval" | Approved => "approved" | Rejected => "rejected" | Revision => "revision_requested" end.

(** The answer of the automaton and where it goes. *)
Definition answer (a : approval) (c : call) : Z * approval :=
  match next a c with Some a' => (0, a') | None => (if final a then -1 else -2, a) end.
Fixpoint answers (a : approval) (cs : list call) : list Z * approval :=
  match cs with
  | [] => ([], a)
  | c :: cs' => let '(rc, a) := answer a c in let '(rcs, a) := answers a cs' in (rc :: rcs, a)
  end.
(** The program's. *)
Definition apply_call (inst : ApprovalInstance) (c : call) : Z * ApprovalInstance :=
  match c with
  | Submit => approval_request_submit | Approve => approval_request_approve | Reject => approval_request_reject
  | RequestRevision => approval_request_request_revision | Resubmit => approval_request_resubmit
  end inst approval_wf.
Fixpoint apply_calls (inst : ApprovalInstance) (cs : list call) : list Z * ApprovalInstance :=
  match cs with
  | [] => ([], inst)
  | c :: cs' => let '(rc, inst) := apply_call inst c in let '(rcs, inst) := apply_calls inst cs' in (rc :: rcs, inst)
  end.
(** The state a call claims, whether or not it is answered. *)
Definition claimed (c : call) : ApprovalStateEnum :=
  match c with
  | Submit | Resubmit => APPROVAL_PENDING_APPROVAL | Approve => APPROVAL_APPROVED | Reject => APPROVAL_REJECTED
  | RequestRevision => APPROVAL_REVISION_REQUESTED
  end.
Definition is_request (c : call) : bool := match c with RequestRevision => true | _ => false end.

Record refines (inst : ApprovalInstance) (a : approval) : Prop := {
  refines_state : current_state inst = state_name a;
  refines_completed : is_completed inst = final a;
}.

Lemma apply_call_refines inst a c : refines inst a -> let '(rc, inst') := apply_call inst c in
  rc = (answer a c).1 /\ refines inst' (answer a c).2 /\ state (data inst') = claimed c /\
  revision_count (data inst') = revision_count (data inst) + c_bool (is_request c).
Proof.
  intros [Hs Hc]. destruct inst as [cur prev id [st rid n u] comp tms]. cbn in Hs, Hc. subst cur comp.
  destruct a, c; cbv -[Z.add]; (split; [done|]); (split; [by split|]); (split; [done|]); lia.
Qed.

Lemma initial_is_draft : workflow_initial_state approval_wf = Some (state_name Draft).
Proof. vm_compute. reflexivity. Qed.

(** The approval requests drive the workflow as the automaton drawn for it: the
    same calls are accepted, refused as out of order or refused as too late, with the
    same states, and it is completed exactly when approved or rejected.  The record of
    the request, however, shows the last call whether it was accepted or not. *)
Theorem approval_workflow_refines inst cs : workflow_instance_create approval_wf (instance_id inst) (data inst) = Some inst ->
  let '(rcs, inst') := apply_calls inst cs in let '(answered, a) := answers Draft cs in
  rcs = answered /\ current_state inst' = state_name a /\ is_completed inst' = final a /\
  state (data inst') = from_option claimed (state (data inst)) (last cs) /\
  revision_count (data inst') = revision_count (data inst) + Z.of_nat (count_if is_request cs).
Proof.
  intros Hnew. assert (Hr : refines inst Draft).
  { unfold workflow_instance_create in Hnew. rewrite initial_is_draft in Hnew. cbn [mbind option_bind] in Hnew. apply (inj Some) in Hnew.
    rewrite <- Hnew. by split. }
  clear Hnew. generalize dependent Draft. revert inst.
  induction cs as [|c cs IH]; intros inst a Hr; cbn [apply_calls answers].
  - destruct Hr. cbn. repeat split; try done. lia.
  - pose proof (apply_call_refines inst a c Hr) as Hstep. destruct (apply_call inst c) as [rc inst1]. destruct (answer a c) as [rc' a1].
    destruct Hstep as (-> & Hr1 & Hst & Hn). specialize (IH inst1 a1 Hr1). destruct (apply_calls inst1 cs) as [rcs inst2], (answers a1 cs) as [ans a2].
    destruct IH as (-> & ? & ? & Hl & Hrev). split; [done|]. split; [done|]. split; [done|]. split.
    + rewrite Hl, Hst. destruct cs as [|c' cs]; [done|]. rewrite last_cons_cons. destruct (last (c' :: cs)) eqn:Hx; [done|]. by apply last_None in Hx.
    + rewrite Hrev, Hn. unfold count_if. cbn [List.filter]. destruct (is_request c); cbn [length c_bool]; lia.
Qed.

Definition new_request : ApprovalRequestData := mk_request APPROVAL_DRAFT [] 0 false.
Lemma approval_workflow_refines_witness :
  let inst := mk_instance (str_bytes "draft") [] [] new_request false [] in
  workflow_instance_create approval_wf [] new_request = Some inst /\
  let '(rcs, inst') := apply_calls inst [Approve; Submit; RequestRevision; Resubmit; Approve; Reject] in
  rcs = [-2; 0; 0; 0; 0; -1] /\ current_state inst' = str_bytes "approved" /\ is_completed inst' = true /\ state (data inst') = APPROVAL_REJECTED.
Proof.
  intros inst. assert (Hnew : workflow_instance_create approval_wf [] new_request = Some inst) by reflexivity. split; [done|].
  pose proof (approval_workflow_refines inst [Approve; Submit; RequestRevision; Resubmit; Approve; Reject] Hnew) as H.
  destruct (apply_calls inst _) as [rcs inst']. cbn in H. destruct H as (-> & ? & ? & ? & _). by repeat split.
Defined.

(** ** Behaviours found *)

(** A draft that someone tries to approve says it is approved. *)
Example approval_refused_but_recorded : let inst := mk_instance (str_bytes "draft") [] [] new_request false [] in
  let '(rc, inst') := approval_request_approve inst approval_wf in
  rc = -2 /\ current_state inst' = str_bytes "draft" /\ state (data inst') = APPROVAL_APPROVED.
Proof. vm_compute. done. Qed.

(** A fork is an ordinary transition to the join state; of its branches, which share
    source and event, only the first can be taken. *)
Example fork_takes_one_branch : exists def : WorkflowDefinition unit,
  workflow_add_fork (workflow_define []) (str_bytes "s") [str_bytes "a"; str_bytes "b"] (str_bytes "j") = Some (0, def) /\
  let inst := mk_instance (str_bytes "s") [] [] tt false [] in
  current_state (workflow_instance_send_event inst def (str_bytes "__FORK__")).2 = str_bytes "j" /\
  current_state (workflow_instance_send_event inst def (str_bytes "__FORK_BRANCH__")).2 = str_bytes "a".
Proof. eexists. split; [reflexivity|]. vm_compute. done. Qed.

(** The delay given for a timer is lost, and no timer is made. *)
Example timer_delay_lost (def : WorkflowDefinition unit) s ev d1 d2 : workflow_add_timer def s ev d1 = workflow_add_timer def s ev d2.
Proof. done. Qed.
