(* ===== verification/Bpmn.v ===== *)
(** Model of [mini-business-arch/src/bpmn_model.c]: processes made of nodes and
    sequence flows, instances run by moving tokens, and the three sample processes.

    [D] is the type of an instance's data; a task's function is given together with
    its context as a function on the data that gives its result too.  [now] is
    [time(NULL)].  An instance is an element of its process's array, handed around by
    pointer; the functions give its new value, and never touch the process.  The
    tokens are a linked list, newest first.  Allocation succeeds. *)

From S2P Require Import Prelude Bytes.

Definition BPMN_ID_LEN : nat := 64.
Definition BPMN_NAME_LEN : nat := 128.
Definition BPMN_MAX_NODES : nat := 128.
Definition BPMN_MAX_FLOWS : nat := 256.
Definition BPMN_MAX_INSTANCES : nat := 32.
Definition DDD_DESC_LEN : nat := 512.

Inductive BPMNNodeType :=
| BPMN_NODE_START_EVENT | BPMN_NODE_END_EVENT | BPMN_NODE_USER_TASK | BPMN_NODE_SERVICE_TASK | BPMN_NODE_SCRIPT_TASK
| BPMN_NODE_EXCLUSIVE_GATEWAY | BPMN_NODE_PARALLEL_GATEWAY | BPMN_NODE_INCLUSIVE_GATEWAY | BPMN_NODE_INTERMEDIATE_TIMER | BPMN_NODE_SUB_PROCESS.
#[export] Instance node_type_eq_dec : EqDecision BPMNNodeType.
Proof. solve_decision. Defined.
Record BPMNSequenceFlow := mk_flow {
  flow_id : list Z; source_node_id : list Z; target_node_id : list Z; flow_name : list Z; condition_expression : list Z;
  is_default : bool; evaluation_order : Z;
}.
Record BPMNToken := mk_token { token_id : list Z; token_node : list Z; active : bool; arrived_at_ms : Z }.

Definition bpmn_node_type_string (ty : BPMNNodeType) : string :=
  match ty with
  | BPMN_NODE_START_EVENT => "START_EVENT" | BPMN_NODE_END_EVENT => "END_EVENT" | BPMN_NODE_USER_TASK => "USER_TASK"
  | BPMN_NODE_SERVICE_TASK => "SERVICE_TASK" | BPMN_NODE_SCRIPT_TASK => "SCRIPT_TASK" | BPMN_NODE_EXCLUSIVE_GATEWAY => "EXCLUSIVE_GATEWAY"
  | BPMN_NODE_PARALLEL_GATEWAY => "PARALLEL_GATEWAY" | BPMN_NODE_INCLUSIVE_GATEWAY => "INCLUSIVE_GATEWAY"
  | BPMN_NODE_INTERMEDIATE_TIMER => "INTERMEDIATE_TIMER" | BPMN_NODE_SUB_PROCESS => "SUB_PROCESS"
  end.

Definition bpmn_flow_create (id source target : list Z) (nm : option (list Z)) : BPMNSequenceFlow :=
  mk_flow (truncated BPMN_ID_LEN id) (truncated BPMN_ID_LEN source) (truncated BPMN_ID_LEN target) (from_option (truncated BPMN_NAME_LEN) [] nm) [] false 0.
Definition bpmn_flow_create_conditional (id source target condition : list Z) (order : Z) (default : bool) : BPMNSequenceFlow :=
  (bpmn_flow_create id source target (Some [])) <| condition_expression := truncated (DDD_DESC_LEN / 2) condition |>
    <| evaluation_order := order |> <| is_default := default |>.

(** ** Tokens *)

Definition bpmn_token_create (node_id : list Z) (now : Z) : BPMNToken :=
  mk_token (str_bytes "TOK-" ++ zero_pad 10 (print_lld now)) (truncated BPMN_ID_LEN node_id) true (u64 (now * 1000)).
Definition bpmn_token_move (token : BPMNToken) (new_node_id : list Z) (now : Z) : BPMNToken :=
  token <| token_node := truncated BPMN_ID_LEN new_node_id |> <| arrived_at_ms := u64 (now * 1000) |>.
Definition bpmn_token_split (target_node_ids : list (list Z)) (now : Z) : list BPMNToken := (fun id => bpmn_token_create id now) <$> target_node_ids.

Section process.
Context {D : Type}.

Record BPMNNode := mk_node {
  node_id : list Z; node_name : list Z; node_type : BPMNNodeType; incoming_flows : list BPMNSequenceFlow; outgoing_flows : list BPMNSequenceFlow;
  service_fn : option (D -> Z * D); script_fn : option (D -> Z * D);
}.
Record BPMNProcessInstance := mk_instance {
  process_id : list Z; instance_id : list Z; inst_state : list Z; tokens : list BPMNToken; token_count : Z; process_data : D;
  is_completed : bool; is_terminated : bool; started_at_ms : Z; completed_at_ms : Z;
}.
Record BPMNProcess := mk_process {
  proc_id : list Z; proc_name : list Z; nodes : list BPMNNode; flows : list BPMNSequenceFlow; start_node_id : list Z; instances : list BPMNProcessInstance;
}.

(** ** Building *)

Definition bpmn_node_create (id : list Z) (nm : option (list Z)) (ty : BPMNNodeType) : BPMNNode :=
  mk_node (truncated BPMN_ID_LEN id) (truncated BPMN_NAME_LEN (from_option (fun n => n) id nm)) ty [] [] None None.
Definition bpmn_node_add_incoming (flow : BPMNSequenceFlow) (node : BPMNNode) : BPMNNode := node <| incoming_flows ::= fun l => l ++ [flow] |>.
Definition bpmn_node_add_outgoing (flow : BPMNSequenceFlow) (node : BPMNNode) : BPMNNode := node <| outgoing_flows ::= fun l => l ++ [flow] |>.

Definition bpmn_process_create (id nm : list Z) : BPMNProcess := mk_process (truncated BPMN_ID_LEN id) (truncated BPMN_NAME_LEN nm) [] [] [] [].
Definition bpmn_process_add_node (process : BPMNProcess) (node : BPMNNode) : Z * BPMNProcess :=
  if (BPMN_MAX_NODES <=? length (nodes process))%nat then (-1, process) else (0, process <| nodes ::= fun l => l ++ [node] |>).
Definition node_idx (process : BPMNProcess) (id : list Z) : option nat := find_idx (fun n => bool_decide (node_id n = id)) (nodes process).
Definition bpmn_process_find_node (process : BPMNProcess) (id : list Z) : option BPMNNode := node_idx process id ≫= (nodes process !!.).
Definition bpmn_process_find_node_by_type (process : BPMNProcess) (ty : BPMNNodeType) : option BPMNNode :=
  find_idx (fun n => bool_decide (node_type n = ty)) (nodes process) ≫= (nodes process !!.).
Definition at_node (process : BPMNProcess) (id : list Z) (f : BPMNNode -> BPMNNode) : BPMNProcess :=
  match node_idx process id with Some i => process <| nodes ::= alter f i |> | None => process end.
Definition bpmn_process_add_flow (process : BPMNProcess) (flow : BPMNSequenceFlow) : Z * BPMNProcess :=
  if (BPMN_MAX_FLOWS <=? length (flows process))%nat then (-1, process)
  else
    let process := process <| flows ::= fun l => l ++ [flow] |> in
    let process := at_node process (source_node_id flow) (bpmn_node_add_outgoing flow) in
    (0, at_node process (target_node_id flow) (bpmn_node_add_incoming flow)).
Definition bpmn_process_set_start (process : BPMNProcess) (id : list Z) : BPMNProcess := process <| start_node_id := truncated BPMN_ID_LEN id |>.
Definition bpmn_process_validate (process : BPMNProcess) : Z :=
  if bool_decide (start_node_id process = []) then -1
  else if bool_decide (nodes process = []) then -2
  else if negb (bool_decide (is_Some (bpmn_process_find_node process (start_node_id process)))) then -3
  else if existsb (fun n => bool_decide (node_type n = BPMN_NODE_END_EVENT)) (nodes process) then 0 else -4.

(** ** Gateways *)

(** The flow selected: the first that is the default or has a condition, which is not
    evaluated, or else the first. *)
Definition bpmn_evaluate_gateway_exclusive (gateway : BPMNNode) : option BPMNSequenceFlow :=
  match find_idx (fun f => is_default f || negb (bool_decide (condition_expression f = []))) (outgoing_flows gateway) with
  | Some i => outgoing_flows gateway !! i
  | None => head (outgoing_flows gateway)
  end.
Definition bpmn_evaluate_gateway_parallel (gateway : BPMNNode) : list BPMNSequenceFlow := outgoing_flows gateway.
(** As many flows as have a condition or are the default, but always the first ones. *)
Definition bpmn_evaluate_gateway_inclusive (gateway : BPMNNode) : list BPMNSequenceFlow :=
  let count := count_if (fun f => negb (bool_decide (condition_expression f = [])) || is_default f) (outgoing_flows gateway) in
  take (if (count =? 0)%nat then length (outgoing_flows gateway) else count) (outgoing_flows gateway).

(** ** Running *)

Definition bpmn_process_start (process : BPMNProcess) (id : option (list Z)) (d : D) (now now' : Z) : option BPMNProcessInstance * BPMNProcess :=
  if (BPMN_MAX_INSTANCES <=? length (instances process))%nat then (None, process)
  else
    let inst := mk_instance (proc_id process) (truncated BPMN_ID_LEN (from_option (fun i => i) (str_bytes "default-instance") id)) (str_bytes "STARTED") [] 0 d
                  false false (u64 (now * 1000)) 0 in
    let start_node :=
      match bpmn_process_find_node_by_type process BPMN_NODE_START_EVENT with
      | Some n => Some n
      | None => bpmn_process_find_node process (start_node_id process)
      end in
    let inst := match start_node with Some n => inst <| tokens := [bpmn_token_create (node_id n) now'] |> <| token_count := 1 |> | None => inst end in
    (Some inst, process <| instances ::= fun l => l ++ [inst] |>).

(** The ids of the targets are terminated within their arrays. *)
Definition move_to (flow : BPMNSequenceFlow) (token : BPMNToken) : BPMNToken := token <| token_node := target_node_id flow |>.
Definition move_first (node : BPMNNode) (token : BPMNToken) : BPMNToken :=
  match outgoing_flows node with f :: _ => move_to f token | [] => token end.
(** Tokens for the flows after the first, each put in front. *)
Definition spawn (fs : list BPMNSequenceFlow) (now : Z) (inst : BPMNProcessInstance) : BPMNProcessInstance :=
  foldl (fun inst f => inst <| tokens ::= cons (bpmn_token_create (target_node_id f) now) |> <| token_count ::= Z.add 1 |>) inst fs.
(** The call of a task's function, whose result the code does not look at. *)
Definition call_task (fn : option (D -> Z * D)) (inst : BPMNProcessInstance) : BPMNProcessInstance :=
  match fn with Some fn => let '(_, d) := fn (process_data inst) in inst <| process_data := d |> | None => inst end.
(** The result, the token moved and the instance. *)
Definition execute_node (process : BPMNProcess) (inst : BPMNProcessInstance) (token : BPMNToken) (now : Z) : Z * BPMNToken * BPMNProcessInstance :=
  match bpmn_process_find_node process (token_node token) with
  | None => (-1, token, inst)
  | Some node =>
      match node_type node with
      | BPMN_NODE_START_EVENT | BPMN_NODE_END_EVENT =>
          match outgoing_flows node with
          | f :: _ => (0, move_to f token, inst)
          | [] => (0, token, inst <| is_completed := true |>)
          end
      | BPMN_NODE_USER_TASK | BPMN_NODE_SERVICE_TASK =>
          (0, move_first node token, call_task (service_fn node) inst)
      | BPMN_NODE_SCRIPT_TASK =>
          (0, move_first node token, call_task (script_fn node) inst)
      | BPMN_NODE_EXCLUSIVE_GATEWAY =>
          match bpmn_evaluate_gateway_exclusive node with
          | Some f => (0, move_to f token, inst)
          | None =>
              (0, match find_idx is_default (outgoing_flows node) ≫= (outgoing_flows node !!.) with Some f => move_to f token | None => token end, inst)
          end
      | BPMN_NODE_PARALLEL_GATEWAY =>
          match bpmn_evaluate_gateway_parallel node with
          | f :: fs => (0, move_to f token, spawn fs now inst)
          | [] => (0, token, inst)
          end
      | BPMN_NODE_INCLUSIVE_GATEWAY =>
          match bpmn_evaluate_gateway_inclusive node with
          | f :: fs => (0, move_to f token, spawn fs now inst)
          | [] => (0, token, inst)
          end
      | BPMN_NODE_INTERMEDIATE_TIMER | BPMN_NODE_SUB_PROCESS => (0, token, inst)
      end
  end.

Definition is_end (process : BPMNProcess) (id : list Z) : bool :=
  match bpmn_process_find_node process id with Some n => bool_decide (node_type n = BPMN_NODE_END_EVENT) | None => false end.
(** The tokens [todo] of the list of the instance are still to be executed, [inst]
    holds those put in front meanwhile.  The result, the tokens and the instance. *)
Fixpoint token_loop (process : BPMNProcess) (inst : BPMNProcessInstance) (todo : list BPMNToken) (now : Z) : Z * list BPMNToken * BPMNProcessInstance :=
  match todo with
  | [] => (0, [], inst)
  | token :: todo' =>
      if active token then
        let '(rc, token, inst) := execute_node process inst token now in
        if negb (rc =? 0) then (rc, token :: todo', inst)
        else
          let token := if is_end process (token_node token) then token <| active := false |> else token in
          let '(rc, ts, inst) := token_loop process inst todo' now in (rc, token :: ts, inst)
      else let '(rc, ts, inst) := token_loop process inst todo' now in (rc, token :: ts, inst)
  end.
Definition bpmn_process_execute_step (process : BPMNProcess) (inst : BPMNProcessInstance) (now : Z) : Z * BPMNProcessInstance :=
  if is_completed inst || is_terminated inst then (-1, inst)
  else
    let '(rc, ts, inst) := token_loop process (inst <| tokens := [] |>) (tokens inst) now in
    let inst := inst <| tokens ::= fun front => front ++ ts |> in
    if negb (rc =? 0) then (rc, inst)
    else if (count_if active (tokens inst) =? 0)%nat && (0 <? token_count inst) then
      (0, inst <| is_completed := true |> <| completed_at_ms := u64 (now * 1000) |>)
    else (0, inst).
Fixpoint bpmn_process_run (process : BPMNProcess) (inst : BPMNProcessInstance) (max_steps : nat) (now : Z) : Z * BPMNProcessInstance :=
  match max_steps with
  | O => (0, inst)
  | S n =>
      let '(rc, inst) := bpmn_process_execute_step process inst now in
      if negb (rc =? 0) then (rc, inst)
      else if is_completed inst || is_terminated inst then (0, inst)
      else bpmn_process_run process inst n now
  end.
Definition bpmn_process_terminate (inst : BPMNProcessInstance) : Z * BPMNProcessInstance :=
  (0, inst <| is_terminated := true |> <| is_completed := true |>).

(** ** Sample processes *)

Definition node_spec : Type := string * string * BPMNNodeType * option (D -> Z * D).
Definition add_nodes (l : list node_spec) (process : BPMNProcess) : BPMNProcess :=
  foldl (fun p '(id, nm, ty, fn) => (bpmn_process_add_node p ((bpmn_node_create (str_bytes id) (Some (str_bytes nm)) ty) <| service_fn := fn |>)).2) process l.
Definition add_flows (l : list BPMNSequenceFlow) (process : BPMNProcess) : BPMNProcess := foldl (fun p f => (bpmn_process_add_flow p f).2) process l.
Definition flow_ (id src dst nm : string) : BPMNSequenceFlow := bpmn_flow_create (str_bytes id) (str_bytes src) (str_bytes dst) (Some (str_bytes nm)).
Definition cflow (id src dst cond : string) (order : Z) (default : bool) : BPMNSequenceFlow :=
  bpmn_flow_create_conditional (str_bytes id) (str_bytes src) (str_bytes dst) (str_bytes cond) order default.
(** It prints. *)
Definition order_fulfillment_service_task : D -> Z * D := fun d => (0, d).

Definition bpmn_create_order_fulfillment_process : BPMNProcess :=
  let task := Some order_fulfillment_service_task in
  bpmn_process_set_start
    (add_flows
       [flow_ "f1" "start_of" "validate_order" ""; flow_ "f2" "validate_order" "check_inventory" ""; flow_ "f3" "check_inventory" "gw_instock" "";
        cflow "f4" "gw_instock" "ship_order" "inventory > 0" 1 false; cflow "f5" "gw_instock" "backorder" "" 2 true;
        flow_ "f6" "ship_order" "notify_customer" ""; flow_ "f7" "backorder" "notify_customer" ""; flow_ "f8" "notify_customer" "end_of" ""]
       (add_nodes
          [("start_of"%string, "Start"%string, BPMN_NODE_START_EVENT, None); ("validate_order"%string, "Validate Order"%string, BPMN_NODE_SERVICE_TASK, task);
           ("check_inventory"%string, "Check Inventory"%string, BPMN_NODE_SERVICE_TASK, task); ("gw_instock"%string, "In Stock?"%string, BPMN_NODE_EXCLUSIVE_GATEWAY, None);
           ("ship_order"%string, "Ship Order"%string, BPMN_NODE_SERVICE_TASK, task); ("backorder"%string, "Backorder"%string, BPMN_NODE_SERVICE_TASK, task);
           ("notify_customer"%string, "Notify Customer"%string, BPMN_NODE_SERVICE_TASK, task); ("end_of"%string, "End"%string, BPMN_NODE_END_EVENT, None)]
          (bpmn_process_create (str_bytes "OrderFulfillment") (str_bytes "Order Fulfillment Process"))))
    (str_bytes "start_of").

Definition bpmn_create_payment_processing_process : BPMNProcess :=
  bpmn_process_set_start
    (add_flows
       [flow_ "pf1" "start_pp" "authorize_payment" ""; flow_ "pf2" "authorize_payment" "capture_payment" ""; flow_ "pf3" "capture_payment" "gw_refund" "";
        cflow "pf4" "gw_refund" "refund_payment" "needs_refund == true" 1 false; cflow "pf5" "gw_refund" "end_pp" "" 2 true;
        flow_ "pf6" "refund_payment" "end_pp" ""]
       (add_nodes
          [("start_pp"%string, "Start"%string, BPMN_NODE_START_EVENT, None); ("authorize_payment"%string, "Authorize Payment"%string, BPMN_NODE_SERVICE_TASK, None);
           ("capture_payment"%string, "Capture Payment"%string, BPMN_NODE_SERVICE_TASK, None); ("gw_refund"%string, "Refund?"%string, BPMN_NODE_EXCLUSIVE_GATEWAY, None);
           ("refund_payment"%string, "Refund Payment"%string, BPMN_NODE_SERVICE_TASK, None); ("end_pp"%string, "End"%string, BPMN_NODE_END_EVENT, None)]
          (bpmn_process_create (str_bytes "PaymentProcessing") (str_bytes "Payment Processing Process"))))
    (str_bytes "start_pp").

Definition bpmn_create_expense_approval_process : BPMNProcess :=
  bpmn_process_set_start
    (add_flows
       [flow_ "e1" "start_ea" "review_expense" "Submit"; flow_ "e2" "review_expense" "gw_amount" "Reviewed";
        cflow "e3" "gw_amount" "auto_approve" "amount < 100" 1 false; cflow "e4" "gw_amount" "manager_approve" "amount < 1000" 2 false;
        cflow "e5" "gw_amount" "director_approve" "" 3 true; flow_ "e6" "auto_approve" "notify_expense" "";
        flow_ "e7" "manager_approve" "notify_expense" ""; flow_ "e8" "director_approve" "notify_expense" ""; flow_ "e9" "notify_expense" "end_ea" ""]
       (add_nodes
          [("start_ea"%string, "Submit Expense"%string, BPMN_NODE_START_EVENT, None); ("review_expense"%string, "Review Expense"%string, BPMN_NODE_USER_TASK, None);
           ("gw_amount"%string, "Amount?"%string, BPMN_NODE_EXCLUSIVE_GATEWAY, None); ("auto_approve"%string, "Auto Approve"%string, BPMN_NODE_SERVICE_TASK, None);
           ("manager_approve"%string, "Manager Approval"%string, BPMN_NODE_USER_TASK, None); ("director_approve"%string, "Director Approval"%string, BPMN_NODE_USER_TASK, None);
           ("notify_expense"%string, "Notify Result"%string, BPMN_NODE_SERVICE_TASK, None); ("end_ea"%string, "End"%string, BPMN_NODE_END_EVENT, None)]
          (bpmn_process_create (str_bytes "ExpenseApproval") (str_bytes "Expense Approval Process"))))
    (str_bytes "start_ea").
End process.
Arguments BPMNNode : clear implicits.
Arguments BPMNProcess : clear implicits.
Arguments BPMNProcessInstance : clear implicits.

(** * Properties *)



Lemma take_subset {A} k (l : list A) : take k l ⊆ l.
Proof. intros x Hx. rewrite <- (take_drop k l). apply elem_of_app. by left. Qed.

Section process.
Context {D : Type} (p : BPMNProcess D).

Notation find_node := (bpmn_process_find_node p).
(** Tasks, gateways and start events; those on which a token may stay for ever are the
    intermediate timer and the sub process. *)
Definition passes (n : BPMNNode D) : Prop := node_type n <> BPMN_NODE_INTERMEDIATE_TIMER /\ node_type n <> BPMN_NODE_SUB_PROCESS.
Definition event_node (n : BPMNNode D) : Prop := node_type n = BPMN_NODE_START_EVENT \/ node_type n = BPMN_NODE_END_EVENT.

(** ** One node *)

Lemma spawn_spec fs now (inst : BPMNProcessInstance D) :
  tokens (spawn fs now inst) = rev ((fun f => bpmn_token_create (target_node_id f) now) <$> fs) ++ tokens inst /\
  token_count (spawn fs now inst) = token_count inst + Z.of_nat (length fs) /\
  is_completed (spawn fs now inst) = is_completed inst /\ is_terminated (spawn fs now inst) = is_terminated inst.
Proof.
  unfold spawn. revert inst. induction fs as [|f fs IH]; intros inst; cbn [foldl fmap list_fmap rev length].
  - rewrite Z.add_0_r. done.
  - destruct (IH (inst <| tokens ::= cons (bpmn_token_create (target_node_id f) now) |> <| token_count ::= Z.add 1 |>)) as (-> & -> & -> & ->).
    rewrite <- app_assoc. cbn. split; [done|]. split; [lia|done].
Qed.

(** The flows taken: the one the token moves along, if any, and those of new tokens. *)
Record executed (n : BPMNNode D) (inst : BPMNProcessInstance D) (tok tok' : BPMNToken) (inst' : BPMNProcessInstance D) (now : Z) : Prop := {
  ex_active : active tok' = active tok;
  ex_moved : (exists f, f ∈ outgoing_flows n /\ token_node tok' = target_node_id f) \/
             token_node tok' = token_node tok /\ (outgoing_flows n <> [] -> ~ passes n);
  ex_spawned : exists fs, fs ⊆ outgoing_flows n /\
    tokens inst' = rev ((fun f => bpmn_token_create (target_node_id f) now) <$> fs) ++ tokens inst /\ token_count inst <= token_count inst';
  ex_terminated : is_terminated inst' = is_terminated inst;
  ex_completed : is_completed inst = false -> is_completed inst' = true -> event_node n /\ outgoing_flows n = [];
}.

Lemma call_task_spec fn (inst : BPMNProcessInstance D) : tokens (call_task fn inst) = tokens inst /\ token_count (call_task fn inst) = token_count inst /\
  is_terminated (call_task fn inst) = is_terminated inst /\ is_completed (call_task fn inst) = is_completed inst.
Proof. unfold call_task. destruct fn as [fn|]; [|done]. by destruct (fn (process_data inst)). Qed.

Lemma exclusive_in (n : BPMNNode D) f : bpmn_evaluate_gateway_exclusive n = Some f -> f ∈ outgoing_flows n.
Proof.
  unfold bpmn_evaluate_gateway_exclusive. destruct (find_idx _ _) as [i|]; [apply list_elem_of_lookup_2|].
  destruct (outgoing_flows n); [done|]. intros [= ->]. left.
Qed.
Lemma exclusive_none (n : BPMNNode D) : bpmn_evaluate_gateway_exclusive n = None -> outgoing_flows n = [].
Proof.
  unfold bpmn_evaluate_gateway_exclusive. destruct (find_idx _ _) as [i|] eqn:Hf.
  - apply find_idx_Some in Hf as (f & Hf & _). by rewrite Hf.
  - by destruct (outgoing_flows n).
Qed.

Lemma executed_stay n inst tok inst' now : (outgoing_flows n <> [] -> ~ passes n) -> tokens inst' = tokens inst -> token_count inst' = token_count inst ->
  is_terminated inst' = is_terminated inst -> (is_completed inst = false -> is_completed inst' = true -> event_node n /\ outgoing_flows n = []) ->
  executed n inst tok tok inst' now.
Proof. intros ? Ht Hc ? ?. split; try done; [by right|]. exists []. rewrite Ht, Hc. split; [apply list_subseteq_nil|]. done. Qed.
Lemma executed_move n inst tok f inst' now : f ∈ outgoing_flows n -> tokens inst' = tokens inst -> token_count inst' = token_count inst ->
  is_terminated inst' = is_terminated inst -> is_completed inst' = is_completed inst ->
  executed n inst tok (move_to f tok) inst' now.
Proof.
  intros ? Ht Hc ? Hd. split; try done; [left; by exists f| |congruence]. exists []. rewrite Ht, Hc. split; [apply list_subseteq_nil|]. done.
Qed.
Lemma executed_fork n inst tok f fs now : f :: fs ⊆ outgoing_flows n -> executed n inst tok (move_to f tok) (spawn fs now inst) now.
Proof.
  intros Hsub. destruct (spawn_spec fs now inst) as (Ht & Hc & Hd & Hx). split; try done; [left; exists f; split; [apply Hsub; left|done]| |congruence].
  exists fs. split; [intros x Hx'; apply Hsub; by right|]. split; [done|lia].
Qed.
Lemma inclusive_in (n : BPMNNode D) : bpmn_evaluate_gateway_inclusive n ⊆ outgoing_flows n.
Proof. apply take_subset. Qed.
Lemma inclusive_nil (n : BPMNNode D) : bpmn_evaluate_gateway_inclusive n = [] -> outgoing_flows n = [].
Proof.
  unfold bpmn_evaluate_gateway_inclusive. destruct (outgoing_flows n) as [|f l]; [done|]. destruct (Nat.eqb_spec (count_if
    (fun f => negb (bool_decide (condition_expression f = [])) || is_default f) (f :: l)) 0) as [_|Hne]; [done|]. by destruct (count_if _ (f :: l)).
Qed.

Lemma execute_node_spec inst tok now n : find_node (token_node tok) = Some n ->
  exists tok' inst', execute_node p inst tok now = (0, tok', inst') /\ executed n inst tok tok' inst' now.
Proof.
  intros Hn. unfold execute_node. rewrite Hn.
  assert (Hevent : event_node n -> exists tok' inst', match outgoing_flows n with f :: _ => (0, move_to f tok, inst) | [] => (0, tok, inst <| is_completed := true |>) end
    = (0, tok', inst') /\ executed n inst tok tok' inst' now).
  { intros He. destruct (outgoing_flows n) as [|f l] eqn:Ho; do 2 eexists; (split; [done|]).
    - apply executed_stay; rewrite ?Ho; try done.
    - apply executed_move; rewrite ?Ho; try done. left. }
  assert (Htask : forall fn, exists tok' inst', (0, move_first n tok, call_task fn inst) = (0, tok', inst') /\ executed n inst tok tok' inst' now).
  { intros fn. do 2 eexists. split; [done|]. destruct (call_task_spec fn inst) as (H1 & H2 & H3 & H4). unfold move_first. destruct (outgoing_flows n) as [|f l] eqn:Ho.
    - apply executed_stay; rewrite ?Ho; try done. congruence.
    - apply executed_move; rewrite ?Ho; try done. left. }
  assert (Hfork : forall fs, fs ⊆ outgoing_flows n -> (fs = [] -> outgoing_flows n = []) -> exists tok' inst',
    match fs with f :: fs => (0, move_to f tok, spawn fs now inst) | [] => (0, tok, inst) end = (0, tok', inst') /\ executed n inst tok tok' inst' now).
  { intros [|f fs] Hsub Hnil; do 2 eexists; (split; [done|]); [|by apply executed_fork]. apply executed_stay; try done; [by rewrite Hnil|congruence]. }
  destruct (node_type n) eqn:Hty.
  - apply Hevent. by left.
  - apply Hevent. by right.
  - apply Htask.
  - apply Htask.
  - apply Htask.
  - destruct (bpmn_evaluate_gateway_exclusive n) as [f|] eqn:Hf; do 2 eexists; (split; [done|]).
    + apply executed_move; try done. by apply exclusive_in.
    + rewrite (exclusive_none n Hf). cbn. apply executed_stay; rewrite ?(exclusive_none n Hf); try done. congruence.
  - by apply Hfork.
  - apply Hfork; [apply inclusive_in|apply inclusive_nil].
  - do 2 eexists. split; [done|]. apply executed_stay; try done; [|congruence]. intros _ [Ht _]. by rewrite Hty in Ht.
  - do 2 eexists. split; [done|]. apply executed_stay; try done; [|congruence]. intros _ [_ Ht]. by rewrite Hty in Ht.
Qed.

(** ** One step

    [P] holds of the node of every token, executed or not; [Q] of the node of every
    active token once it is executed. *)

Definition step_ok (P Q : list Z -> Prop) : Prop := forall id n, P id -> find_node id = Some n ->
  (forall f, f ∈ outgoing_flows n -> Q (target_node_id f) /\ truncated BPMN_ID_LEN (target_node_id f) = target_node_id f) /\
  (outgoing_flows n = [] \/ ~ passes n -> is_end p id = true \/ Q id).
Definition on_active (P : list Z -> Prop) (t : BPMNToken) : Prop := active t = true -> P (token_node t).

Lemma token_loop_spec (P Q : list Z -> Prop) now : step_ok P Q -> (forall id, P id -> is_Some (find_node id)) ->
  forall todo inst, Forall (on_active P) todo -> Forall (on_active Q) (tokens inst) ->
  exists ts inst', token_loop p inst todo now = (0, ts, inst') /\ Forall (on_active Q) (tokens inst' ++ ts) /\
    token_count inst <= token_count inst' /\ is_terminated inst' = is_terminated inst.
Proof.
  intros Hstep Hfind. induction todo as [|tok todo IH]; intros inst Hall Hfront; cbn [token_loop].
  - do 2 eexists. split; [done|]. by rewrite app_nil_r.
  - apply Forall_cons in Hall as [Htok Hall]. destruct (active tok) eqn:Hact.
    + destruct (Hfind _ (Htok Hact)) as [n Hn]. destruct (execute_node_spec inst tok now n Hn) as (tok' & inst1 & -> & Hex). cbn [Z.eqb negb].
      destruct (Hstep _ n (Htok Hact) Hn) as [Hout Hstay].
      destruct (ex_spawned _ _ _ _ _ _ Hex) as (fs & Hfs & Hts & Hcount).
      assert (Hf1 : Forall (on_active Q) (tokens inst1)).
      { rewrite Hts. apply Forall_app. split; [|done]. apply Forall_rev, Forall_forall. intros x (f & -> & Hf)%list_elem_of_fmap _.
        destruct (Hout f (Hfs f Hf)) as [HQ Heq]. unfold bpmn_token_create. cbn [token_node]. by rewrite Heq. }
      destruct (IH inst1 Hall Hf1) as (ts & inst' & -> & Hts' & Hc & Ht). do 2 eexists. split; [done|]. split; [|split; [lia|rewrite Ht; apply Hex]].
      apply Forall_app in Hts' as [H1 H2]. apply Forall_app. split; [done|]. constructor; [|done].
      destruct (is_end p (token_node tok')) eqn:Hend; [done|]. intros _.
      destruct (ex_moved _ _ _ _ _ _ Hex) as [(f & Hf & ->)|[Heq Hstuck]]; [by apply Hout|]. rewrite Heq in Hend |- *.
      destruct Hstay as [Hs|Hs]; [|congruence|done]. destruct (outgoing_flows n); [by left|right; by apply Hstuck].
    + destruct (IH inst Hall Hfront) as (ts & inst' & -> & Hts' & Hc & Ht). do 2 eexists. split; [done|]. split; [|done].
      apply Forall_app in Hts' as [H1 H2]. apply Forall_app. split; [done|]. constructor; [|done]. intros Ha. congruence.
Qed.

(** ** Processes without loops *)

Notation short id := (truncated BPMN_ID_LEN id = id).
(** [rank] falls along every flow, and only end events have no way out. *)
Record well_structured (rank : list Z -> nat) : Prop := {
  ws_ids : forall n, n ∈ nodes p -> short (node_id n);
  ws_flows : forall id n f, find_node id = Some n -> f ∈ outgoing_flows n ->
    is_Some (find_node (target_node_id f)) /\ (rank (target_node_id f) < rank id)%nat /\ short (target_node_id f);
  ws_out : forall id n, find_node id = Some n -> node_type n = BPMN_NODE_END_EVENT \/ outgoing_flows n <> [] /\ passes n;
}.
Definition below (rank : list Z -> nat) (k : nat) (id : list Z) : Prop := is_Some (find_node id) /\ (rank id < k)%nat.

Lemma below_step rank k : well_structured rank -> step_ok (below rank k) (below rank (pred k)).
Proof.
  intros Hws id n [_ Hk] Hn. split.
  - intros f Hf. destruct (ws_flows _ Hws id n f Hn Hf) as (? & ? & ?). split; [|done]. split; [done|lia].
  - intros Hstuck. left. unfold is_end. rewrite Hn. destruct (ws_out _ Hws id n Hn) as [->|[Hne Hp]]; [done|]. by destruct Hstuck.
Qed.

Lemma no_active (rank : list Z -> nat) ts : Forall (on_active (below rank 0)) ts -> count_if active ts = 0%nat.
Proof.
  unfold count_if. induction 1 as [|t ts Ht _ IH]; [done|]. cbn. destruct (active t) eqn:Ha; [|done]. destruct (Ht Ha) as [_ ?]. lia.
Qed.

Lemma Forall_no_tokens P (inst : BPMNProcessInstance D) : Forall P (tokens (inst <| tokens := [] |>)).
Proof. unfold set. constructor. Qed.

Lemma run_completes rank now : well_structured rank -> forall max k inst, (k <= max)%nat -> (0 < max)%nat -> Forall (on_active (below rank k)) (tokens inst) ->
  0 < token_count inst -> is_completed inst = false -> is_terminated inst = false ->
  exists inst', bpmn_process_run p inst max now = (0, inst') /\ is_completed inst' = true /\ is_terminated inst' = false.
Proof.
  intros Hws. induction max as [|max IH]; intros k inst Hk Hmax Hall Hcount Hc Ht; [lia|]. cbn [bpmn_process_run]. unfold bpmn_process_execute_step.
  rewrite Hc, Ht. cbn [orb].
  destruct (token_loop_spec (below rank k) (below rank (pred k)) now (below_step rank k Hws) (fun id H => proj1 H) (tokens inst) (inst <| tokens := [] |>) Hall
    (Forall_no_tokens _ inst)) as (ts & inst1 & -> & Hts & Hcount1 & Ht1). cbn [Z.eqb negb].
  assert (Ht1' : is_terminated inst1 = false) by (rewrite Ht1; exact Ht). assert (Hcount1' : 0 < token_count inst1) by (cbn in Hcount1; lia).
  set (inst2 := inst1 <| tokens ::= fun front => front ++ ts |>).
  destruct ((count_if active (tokens inst2) =? 0)%nat && (0 <? token_count inst2)) eqn:Hdone.
  - exists (inst2 <| is_completed := true |> <| completed_at_ms := u64 (now * 1000) |>). split; [reflexivity|]. split; [reflexivity|exact Ht1'].
  - destruct (is_completed inst1) eqn:Hc1.
    + change (is_completed inst2) with (is_completed inst1). rewrite Hc1. eexists. split; [done|]. done.
    + change (is_completed inst2) with (is_completed inst1). change (is_terminated inst2) with (is_terminated inst1). rewrite Hc1, Ht1'. cbn [orb].
      destruct k as [|[|k]].
      * rewrite (no_active rank) in Hdone by exact Hts. rewrite (proj2 (Z.ltb_lt _ _)) in Hdone by exact Hcount1'. done.
      * rewrite (no_active rank) in Hdone by exact Hts. rewrite (proj2 (Z.ltb_lt _ _)) in Hdone by exact Hcount1'. done.
      * apply (IH (S k)); try done; lia.
Qed.

(** The node where an instance starts. *)
Definition start_node : option (BPMNNode D) :=
  match bpmn_process_find_node_by_type p BPMN_NODE_START_EVENT with Some n => Some n | None => find_node (start_node_id p) end.
Lemma start_spec id d now now' inst p' : bpmn_process_start p id d now now' = (Some inst, p') ->
  is_completed inst = false /\ is_terminated inst = false /\
  match start_node with Some n => tokens inst = [bpmn_token_create (node_id n) now'] /\ token_count inst = 1 | None => tokens inst = [] end.
Proof.
  unfold bpmn_process_start. destruct (_ <=? _)%nat; [done|]. fold start_node. intros [= <- _]. by destruct start_node.
Qed.
Lemma start_node_in n : start_node = Some n -> n ∈ nodes p.
Proof.
  unfold start_node, bpmn_process_find_node_by_type, bpmn_process_find_node, node_idx.
  destruct (find_idx _ (nodes p)) as [i|]; cbn [mbind option_bind].
  - destruct (nodes p !! i) as [m|] eqn:Hi; [intros [= <-]; by eapply list_elem_of_lookup_2|]. destruct (find_idx _ _) as [j|]; [|done]. apply list_elem_of_lookup_2.
  - destruct (find_idx _ _) as [j|]; [|done]. apply list_elem_of_lookup_2.
Qed.
Lemma find_node_in n : n ∈ nodes p -> is_Some (find_node (node_id n)).
Proof.
  intros Hn. unfold bpmn_process_find_node, node_idx. destruct (find_idx _ (nodes p)) as [i|] eqn:Hf.
  - apply find_idx_Some in Hf as (m & Hm & _). cbn. by rewrite Hm.
  - pose proof (proj1 (find_idx_None _ _) Hf n Hn) as Hx. cbn in Hx. by rewrite bool_decide_true in Hx.
Qed.

(** C38: Take a process in which ids fit their arrays, every flow leads to a node of the process
    and never back, only end events have no way out, and no intermediate timer or sub process
    is there to stop a token.  Every instance of it completes within as many steps as the
    longest way from its start: a user task does not wait for its user, and the result of a
    task's function is not looked at. *)
Theorem bpmn_run_completes rank id d now1 now2 now3 inst p' n max : well_structured rank ->
  bpmn_process_start p id d now1 now2 = (Some inst, p') -> start_node = Some n -> (rank (node_id n) < max)%nat ->
  exists inst', bpmn_process_run p inst max now3 = (0, inst') /\ is_completed inst' = true /\ is_terminated inst' = false.
Proof.
  intros Hws Hstart Hn Hmax. apply start_spec in Hstart as (Hc & Ht & Htok). rewrite Hn in Htok. destruct Htok as [Htok Hcount].
  apply (run_completes rank now3 Hws max (S (rank (node_id n)))); try done; try lia. rewrite Htok. constructor; [|done]. intros _. unfold bpmn_token_create.
  cbn [token_node]. apply start_node_in in Hn. rewrite (ws_ids _ Hws n Hn). split; [by apply find_node_in|lia].
Qed.

(** ** Tokens follow the flows *)

Lemma token_loop_inv (R : list Z -> Prop) now : (forall id n f, R id -> find_node id = Some n -> f ∈ outgoing_flows n -> R (target_node_id f) /\ short (target_node_id f)) ->
  forall todo inst, Forall (fun t => R (token_node t)) todo -> Forall (fun t => R (token_node t)) (tokens inst) ->
  let '(rc, ts, inst') := token_loop p inst todo now in Forall (fun t => R (token_node t)) (tokens inst' ++ ts).
Proof.
  intros Hclosed. induction todo as [|tok todo IH]; intros inst Hall Hfront; cbn [token_loop]; [by rewrite app_nil_r|].
  apply Forall_cons in Hall as [Htok Hall]. destruct (active tok).
  - destruct (find_node (token_node tok)) as [n|] eqn:Hn.
    + destruct (execute_node_spec inst tok now n Hn) as (tok' & inst1 & -> & Hex). cbn [Z.eqb negb].
      assert (Hfront1 : Forall (fun t => R (token_node t)) (tokens inst1)).
      { destruct (ex_spawned _ _ _ _ _ _ Hex) as (fs & Hfs & -> & _). apply Forall_app. split; [|done].
        apply Forall_rev, Forall_forall. intros x (f & -> & Hf)%list_elem_of_fmap. destruct (Hclosed _ n f Htok Hn (Hfs f Hf)) as [HR Hs].
        unfold bpmn_token_create. cbn [token_node]. by rewrite Hs. }
      assert (HR : R (token_node tok')).
      { destruct (ex_moved _ _ _ _ _ _ Hex) as [(f & Hf & ->)|[-> _]]; [|done]. by apply (Hclosed _ n f Htok Hn). }
      specialize (IH inst1 Hall Hfront1). destruct (token_loop p inst1 todo now) as [[rc ts] inst']. apply Forall_app in IH as [H1 H2].
      apply Forall_app. split; [done|]. constructor; [|done]. by destruct (is_end p _).
    + unfold execute_node. rewrite Hn. cbn. apply Forall_app. split; [done|]. by constructor.
  - specialize (IH inst Hall Hfront). destruct (token_loop p inst todo now) as [[rc ts] inst']. apply Forall_app in IH as [H1 H2].
    apply Forall_app. split; [done|]. by constructor.
Qed.

Lemma bpmn_run_inv (R : list Z -> Prop) now : (forall id n f, R id -> find_node id = Some n -> f ∈ outgoing_flows n -> R (target_node_id f) /\ short (target_node_id f)) ->
  forall max inst, Forall (fun t => R (token_node t)) (tokens inst) -> Forall (fun t => R (token_node t)) (tokens (bpmn_process_run p inst max now).2).
Proof.
  intros Hclosed. induction max as [|max IH]; intros inst Hall; cbn [bpmn_process_run]; [done|].
  assert (Hstep : Forall (fun t => R (token_node t)) (tokens (bpmn_process_execute_step p inst now).2)).
  { unfold bpmn_process_execute_step. destruct (_ || _); [done|]. pose proof (token_loop_inv R now Hclosed (tokens inst) (inst <| tokens := [] |>) Hall (Forall_no_tokens _ inst)) as H.
    destruct (token_loop p _ _ now) as [[rc ts] inst1]. destruct (negb (rc =? 0)); [exact H|]. by destruct (_ && _). }
  destruct (bpmn_process_execute_step p inst now) as [rc inst1]. destruct (negb (rc =? 0)); [done|]. destruct (_ || _); [done|]. by apply IH.
Qed.
End process.

(** How processes are built: with new nodes and with flows between them. *)
Inductive built {D} : BPMNProcess D -> Prop :=
| built_create id nm : built (bpmn_process_create id nm)
| built_node p id nm ty service script : built p ->
    built (bpmn_process_add_node p ((bpmn_node_create id nm ty) <| service_fn := service |> <| script_fn := script |>)).2
| built_flow p id source target nm : built p -> built (bpmn_process_add_flow p (bpmn_flow_create id source target nm)).2
| built_conditional p id source target condition order default : built p ->
    built (bpmn_process_add_flow p (bpmn_flow_create_conditional id source target condition order default)).2
| built_start p id : built p -> built (bpmn_process_set_start p id).

Definition edge {D} (p : BPMNProcess D) (a b : list Z) : Prop := exists f, f ∈ flows p /\ source_node_id f = a /\ target_node_id f = b.
Record consistent {D} (p : BPMNProcess D) : Prop := {
  con_ids : forall n, n ∈ nodes p -> truncated BPMN_ID_LEN (node_id n) = node_id n;
  con_flows : forall n f, n ∈ nodes p -> f ∈ outgoing_flows n ->
    f ∈ flows p /\ source_node_id f = node_id n /\ truncated BPMN_ID_LEN (target_node_id f) = target_node_id f;
}.

Lemma at_node_nodes {D} (p : BPMNProcess D) id f n : n ∈ nodes (at_node p id f) -> n ∈ nodes p \/ exists m, m ∈ nodes p /\ node_id m = id /\ n = f m.
Proof.
  unfold at_node, node_idx. destruct (find_idx _ _) as [i|] eqn:Hf; [|by left]. apply find_idx_Some in Hf as (m & Hm & Hid%bool_decide_eq_true & _).
  cbn. intros [j Hj]%list_elem_of_lookup. destruct (decide (i = j)) as [<-|Hne].
  - rewrite list_lookup_alter_eq, Hm in Hj. injection Hj as <-. right. exists m. split; [by eapply list_elem_of_lookup_2|done].
  - rewrite list_lookup_alter_ne in Hj by done. left. by eapply list_elem_of_lookup_2.
Qed.
Lemma at_node_flows {D} (p : BPMNProcess D) id f : flows (at_node p id f) = flows p.
Proof. unfold at_node. by destruct (node_idx p id). Qed.

Lemma add_flow_consistent {D} (p : BPMNProcess D) f : truncated BPMN_ID_LEN (target_node_id f) = target_node_id f -> consistent p ->
  consistent (bpmn_process_add_flow p f).2.
Proof.
  intros Hs [Hids Hfl]. unfold bpmn_process_add_flow. destruct (_ <=? _)%nat; [done|]. cbn [snd].
  set (p1 := p <| flows ::= fun l => l ++ [f] |>). set (p2 := at_node p1 _ _).
  assert (H2 : forall n, n ∈ nodes p2 -> exists m, m ∈ nodes p /\ node_id n = node_id m /\
    (outgoing_flows n = outgoing_flows m \/ source_node_id f = node_id m /\ outgoing_flows n = outgoing_flows m ++ [f])).
  { intros n [Hn|(m & Hm & Hid & ->)]%at_node_nodes; [exists n; eauto|]. exists m. split; [done|]. split; [done|]. right. by split. }
  assert (H3 : forall n, n ∈ nodes (at_node p2 (target_node_id f) (bpmn_node_add_incoming f)) -> exists m, m ∈ nodes p /\ node_id n = node_id m /\
    (outgoing_flows n = outgoing_flows m \/ source_node_id f = node_id m /\ outgoing_flows n = outgoing_flows m ++ [f])).
  { intros n [Hn|(m & Hm & Hid & ->)]%at_node_nodes; [by apply H2|]. exact (H2 m Hm). }
  split.
  - intros n (m & Hm & -> & _)%H3. by apply Hids.
  - intros n g (m & Hm & -> & Ho)%H3 Hg. rewrite at_node_flows. subst p2. rewrite at_node_flows. cbn. destruct Ho as [Ho|[Hsrc Ho]]; rewrite Ho in Hg.
    + destruct (Hfl m g Hm Hg) as (? & ? & ?). split; [|done]. apply elem_of_app. by left.
    + apply elem_of_app in Hg as [Hg| ->%list_elem_of_singleton]; [destruct (Hfl m g Hm Hg) as (? & ? & ?); split; [|done]; apply elem_of_app; by left|].
      split; [|done]. apply elem_of_app. right. by apply list_elem_of_singleton.
Qed.

Lemma built_consistent {D} (p : BPMNProcess D) : built p -> consistent p.
Proof.
  induction 1 as [id nm|p id nm ty sv sc _ IH|p id src tgt nm _ IH|p id src tgt cond order def _ IH|p id _ IH].
  - split; intros n; [intros Hn|intros f Hn]; by apply elem_of_nil in Hn.
  - unfold bpmn_process_add_node. destruct (_ <=? _)%nat; [done|]. destruct IH as [Hids Hfl]. split; cbn -[truncated].
    + intros n [Hn| ->%list_elem_of_singleton]%elem_of_app; [by apply Hids|]. apply (truncated_truncated BPMN_ID_LEN).
    + intros n f [Hn| ->%list_elem_of_singleton]%elem_of_app Hf; [by apply Hfl|]. by apply elem_of_nil in Hf.
  - apply add_flow_consistent; [|done]. apply (truncated_truncated BPMN_ID_LEN).
  - apply add_flow_consistent; [|done]. apply (truncated_truncated BPMN_ID_LEN).
  - destruct IH. by split.
Qed.

(** However long an instance of a built process runs, every token is at a node that
    the process's flows lead to from the start. *)
Theorem bpmn_tokens_reachable {D} (p : BPMNProcess D) id d now1 now2 now3 inst p' max : built p ->
  bpmn_process_start p id d now1 now2 = (Some inst, p') ->
  Forall (fun t => exists n, start_node p = Some n /\ rtc (edge p) (node_id n) (token_node t)) (tokens (bpmn_process_run p inst max now3).2).
Proof.
  intros Hb%built_consistent Hstart. apply start_spec in Hstart as (_ & _ & Htok).
  apply (bpmn_run_inv p (fun id => exists n, start_node p = Some n /\ rtc (edge p) (node_id n) id)).
  - intros id' n f (s & Hs & Hr) Hn Hf. unfold bpmn_process_find_node, node_idx in Hn.
    destruct (find_idx _ _) as [i|] eqn:Hi; [|done]. apply find_idx_Some in Hi as (m & Hm & Hid%bool_decide_eq_true & _). cbn in Hn. rewrite Hm in Hn. injection Hn as <-.
    destruct (con_flows p Hb m f) as (Hin & Hsrc & Hshort); [by eapply list_elem_of_lookup_2|done|]. split; [|done]. exists s. split; [done|].
    eapply rtc_r; [exact Hr|]. exists f. by rewrite <- Hid.
  - destruct (start_node p) as [n|] eqn:Hn; [destruct Htok as [-> _]|by rewrite Htok; constructor]. constructor; [|constructor]. exists n. split; [done|].
    unfold bpmn_token_create. cbn [token_node]. rewrite (con_ids p Hb n); [done|]. by apply start_node_in.
Qed.

(** ** The sample processes *)

Definition passes_b {D} (n : BPMNNode D) : bool :=
  negb (bool_decide (node_type n = BPMN_NODE_INTERMEDIATE_TIMER)) && negb (bool_decide (node_type n = BPMN_NODE_SUB_PROCESS)).
Definition flow_b {D} (p : BPMNProcess D) (rank : list Z -> nat) (n : BPMNNode D) (f : BPMNSequenceFlow) : bool :=
  bool_decide (is_Some (bpmn_process_find_node p (target_node_id f))) && (rank (target_node_id f) <? rank (node_id n))%nat
  && bool_decide (truncated BPMN_ID_LEN (target_node_id f) = target_node_id f).
Definition well_structured_b {D} (p : BPMNProcess D) (rank : list Z -> nat) : bool :=
  forallb (fun n => bool_decide (truncated BPMN_ID_LEN (node_id n) = node_id n)
    && (bool_decide (node_type n = BPMN_NODE_END_EVENT) || negb (bool_decide (outgoing_flows n = [])) && passes_b n)
    && forallb (flow_b p rank n) (outgoing_flows n)) (nodes p).
Lemma bpmn_find_node_Some {D} (p : BPMNProcess D) id n : bpmn_process_find_node p id = Some n -> n ∈ nodes p /\ node_id n = id.
Proof.
  unfold bpmn_process_find_node, node_idx. destruct (find_idx _ _) as [i|] eqn:Hi; [|done]. cbn. intros Hn.
  apply find_idx_Some in Hi as (m & Hm & Hid%bool_decide_eq_true & _). rewrite Hn in Hm. injection Hm as <-. split; [by eapply list_elem_of_lookup_2|done].
Qed.
Lemma well_structured_b_spec {D} (p : BPMNProcess D) rank : well_structured_b p rank = true -> well_structured p rank.
Proof.
  unfold well_structured_b. rewrite forallb_forall. intros Hall.
  assert (H : forall n, n ∈ nodes p -> _) by (intros n Hn; exact (Hall n (proj1 (list_elem_of_In _ _) Hn))). clear Hall. split.
  - intros n Hn. specialize (H n Hn). rewrite !andb_true_iff, bool_decide_eq_true in H. apply H.
  - intros id n f [Hn <-]%bpmn_find_node_Some Hf. specialize (H n Hn). rewrite !andb_true_iff, forallb_forall in H. destruct H as [_ H].
    specialize (H f (proj1 (list_elem_of_In _ _) Hf)). unfold flow_b in H. rewrite !andb_true_iff, !bool_decide_eq_true, Nat.ltb_lt in H. naive_solver.
  - intros id n [Hn <-]%bpmn_find_node_Some. specialize (H n Hn). unfold passes_b in H.
    rewrite !andb_true_iff, orb_true_iff, !andb_true_iff, !negb_true_iff, !bool_decide_eq_false, !bool_decide_eq_true in H. unfold passes. naive_solver.
Qed.

(** Distances to the end. *)
Definition rank_of (l : list (string * nat)) (id : list Z) : nat :=
  match find_idx (fun '(s, _) => bool_decide (str_bytes s = id)) l ≫= (l !!.) with Some (_, k) => k | None => 0 end.
Definition order_rank : list Z -> nat :=
  rank_of [("start_of", 6); ("validate_order", 5); ("check_inventory", 4); ("gw_instock", 3); ("ship_order", 2); ("backorder", 2); ("notify_customer", 1)]%string%nat.

Definition order_process : BPMNProcess unit := bpmn_create_order_fulfillment_process.
Definition order_instance : BPMNProcessInstance unit :=
  mk_instance (str_bytes "OrderFulfillment") (str_bytes "default-instance") (str_bytes "STARTED") [bpmn_token_create (str_bytes "start_of") 0] 1 tt false false 0 0.
Definition order_start : BPMNNode unit :=
  mk_node (str_bytes "start_of") (str_bytes "Start") BPMN_NODE_START_EVENT [] [flow_ "f1" "start_of" "validate_order" ""] None None.
Lemma bpmn_run_completes_witness :
  bpmn_process_start order_process None tt 0 0 = (Some order_instance, (bpmn_process_start order_process None tt 0 0).2) /\
  exists inst', bpmn_process_run order_process order_instance 7 0 = (0, inst') /\ is_completed inst' = true /\ is_terminated inst' = false.
Proof.
  assert (Hs : bpmn_process_start order_process None tt 0 0 = (Some order_instance, (bpmn_process_start order_process None tt 0 0).2)) by (vm_compute; reflexivity).
  split; [exact Hs|]. assert (Hw : well_structured_b order_process order_rank = true) by (vm_compute; reflexivity).
  assert (Hn : start_node order_process = Some order_start) by (vm_compute; reflexivity).
  exact (bpmn_run_completes order_process order_rank None tt 0 0 0 _ _ order_start 7 (well_structured_b_spec _ _ Hw) Hs Hn ltac:(vm_compute; lia)).
Defined.

(** All sample processes complete; the gateways take the first flow with a condition,
    whatever the data: no order is ever put on backorder. *)
Definition run_new {D} (p : BPMNProcess D) (d : D) (k : nat) : option (Z * BPMNProcessInstance D) :=
  match bpmn_process_start p None d 0 0 with (Some inst, _) => Some (bpmn_process_run p inst k 0) | _ => None end.
Definition trace (p : BPMNProcess unit) (k : nat) : option (Z * bool * list (list Z)) :=
  '(rc, inst) ← run_new p tt k; Some (rc, is_completed inst, token_node <$> tokens inst).
Example samples_complete :
  trace bpmn_create_order_fulfillment_process 6 = Some (0, true, [str_bytes "end_of"]) /\
  trace bpmn_create_order_fulfillment_process 4 = Some (0, false, [str_bytes "ship_order"]) /\
  trace bpmn_create_payment_processing_process 4 = Some (0, false, [str_bytes "refund_payment"]) /\
  trace bpmn_create_payment_processing_process 5 = Some (0, true, [str_bytes "end_pp"]) /\
  trace bpmn_create_expense_approval_process 3 = Some (0, false, [str_bytes "auto_approve"]) /\
  trace bpmn_create_expense_approval_process 5 = Some (0, true, [str_bytes "end_ea"]).
Proof. vm_compute. done. Qed.

(** ** Behaviours found *)

(** A token made by a parallel gateway right on an end event completes the process,
    although the other branch is still at its task. *)
Example parallel_branch_completes_early :
  let p : BPMNProcess unit := add_flows [flow_ "f1" "s" "g" ""; flow_ "f2" "g" "t" ""; flow_ "f3" "g" "e" ""; flow_ "f4" "t" "u" ""; flow_ "f5" "u" "e" ""]
    (add_nodes [("s"%string, "s"%string, BPMN_NODE_START_EVENT, None); ("g"%string, "g"%string, BPMN_NODE_PARALLEL_GATEWAY, None);
                ("t"%string, "t"%string, BPMN_NODE_SERVICE_TASK, None); ("u"%string, "u"%string, BPMN_NODE_SERVICE_TASK, None);
                ("e"%string, "e"%string, BPMN_NODE_END_EVENT, None)] (bpmn_process_create [] [])) in
  ('(rc, inst) ← run_new p tt 10; Some (rc, is_completed inst, (fun t => (token_node t, active t)) <$> tokens inst))
  = Some (0, true, [(str_bytes "e", false); (str_bytes "u", true)]).
Proof. vm_compute. done. Qed.

(** A parallel gateway does not wait for its other incoming flows: the task after a
    join runs once for each branch. *)
Example parallel_join_runs_twice :
  let count := Some (fun n : nat => (0, S n)) in
  let p : BPMNProcess nat := add_flows [flow_ "f1" "s" "g" ""; flow_ "f2" "g" "a" ""; flow_ "f3" "g" "b" ""; flow_ "f4" "a" "j" ""; flow_ "f5" "b" "j" "";
      flow_ "f6" "j" "t" ""; flow_ "f7" "t" "e" ""]
    (add_nodes [("s"%string, "s"%string, BPMN_NODE_START_EVENT, None); ("g"%string, "g"%string, BPMN_NODE_PARALLEL_GATEWAY, None);
                ("a"%string, "a"%string, BPMN_NODE_SERVICE_TASK, None); ("b"%string, "b"%string, BPMN_NODE_SERVICE_TASK, None);
                ("j"%string, "j"%string, BPMN_NODE_PARALLEL_GATEWAY, None); ("t"%string, "t"%string, BPMN_NODE_SERVICE_TASK, count);
                ("e"%string, "e"%string, BPMN_NODE_END_EVENT, None)] (bpmn_process_create [] [])) in
  (fun r => process_data r.2) <$> run_new p 0%nat 10 = Some 2%nat.
Proof. vm_compute. done. Qed.

(** An inclusive gateway counts the flows with a condition, but takes the first ones. *)
Example inclusive_takes_first_flows : let n : BPMNNode unit :=
    mk_node [] [] BPMN_NODE_INCLUSIVE_GATEWAY [] [flow_ "f1" "g" "a" ""; flow_ "f2" "g" "b" ""; cflow "f3" "g" "c" "x > 0" 1 false] None None in
  target_node_id <$> bpmn_evaluate_gateway_inclusive n = [str_bytes "a"].
Proof. vm_compute. done. Qed.

(** A user task is passed at once, with nobody having completed it, and so is a task whose
    function fails. *)
Example user_task_does_not_wait :
  let p : BPMNProcess unit := add_flows [flow_ "f1" "s" "u" ""; flow_ "f2" "u" "t" ""; flow_ "f3" "t" "e" ""]
    (add_nodes [("s"%string, "s"%string, BPMN_NODE_START_EVENT, None); ("u"%string, "u"%string, BPMN_NODE_USER_TASK, None);
                ("t"%string, "t"%string, BPMN_NODE_SERVICE_TASK, Some (fun d => (-1, d))); ("e"%string, "e"%string, BPMN_NODE_END_EVENT, None)] (bpmn_process_create [] [])) in
  (fun r => (r.1, is_completed r.2)) <$> run_new p tt 10 = Some (0, true).
Proof. vm_compute. done. Qed.
