(* ===== verification/ConfigCenter.v ===== *)
(** Model of [mini-business-infra/src/config_center.c]: versioned configuration
    entries in a hash table, subscribers, gray releases, snapshots.

    Strings are C strings without their final zero; a value's length is that of the
    list.  [now] is [time(NULL)].  A notification is what a callback is called with:
    the callbacks themselves are the caller's and do not change the center.  A
    snapshot file is the list of its bytes.  Allocation succeeds.  [None] stands for a
    division by zero or an access out of bounds. *)

From S2P Require Import Prelude Bytes.

Definition CC_MAX_KEY_LEN : nat := 128.
Definition CC_MAX_VALUE_LEN : nat := Z.to_nat 65536.
#[global] Arguments CC_MAX_VALUE_LEN : simpl never.
Definition CC_MAX_NAMESPACE_LEN : nat := 64.
Definition CC_MAX_GROUP_LEN : nat := 64.
Definition CC_MAX_VERSIONS : nat := 100.
Definition bucket_count : nat := 256.

Inductive cc_encrypt_type_t := CC_ENC_NONE | CC_ENC_AES.
Inductive cc_gray_type_t := CC_GRAY_ALL | CC_GRAY_IP.
#[export] Instance gray_type_eq_dec : EqDecision cc_gray_type_t.
Proof. solve_decision. Defined.
(** Every version's operator is "system". *)
Record cc_config_version_t := mk_version { v_version : Z; v_value : list Z; v_created_at : Z }.
Record cc_gray_release_t := mk_gray { gray_type : cc_gray_type_t; target_ips : list (list Z); gray_value : list Z; gray_version : Z }.
(** [has_gray] is the presence of the release. *)
Record cc_entry_t := mk_entry {
  key : list Z; value : list Z; version : Z; created_at : Z; updated_at : Z; namespace_ : list Z; group_ : list Z;
  encrypt_type : cc_encrypt_type_t; versions : list cc_config_version_t; gray_release : option cc_gray_release_t;
}.
(** The caller's copy; the value is shared with the entry. *)
Record cc_config_entry_t := mk_config { c_key : list Z; c_value : list Z; c_version : Z; c_created_at : Z; c_updated_at : Z; c_namespace : list Z;
  c_group : list Z; c_encrypt : cc_encrypt_type_t }.
Record cc_subscriber_t := mk_sub { user_data : Z; sub_namespace : list Z }.
Record cc_config_center := mk_center { buckets : list (list cc_entry_t); subscribers : list cc_subscriber_t }.
(** What a callback is called with. *)
Record notice := mk_notice { to_user : Z; n_namespace : list Z; n_key : list Z; n_value : list Z }.

(** ** The table *)

Definition cc_hash (s : list Z) : Z := foldl (fun h c => u32 (u32 (Z.shiftl h 5) + h + c)) 5381 s.
Definition composite (ns gr k : list Z) : list Z :=
  truncated (CC_MAX_NAMESPACE_LEN + CC_MAX_GROUP_LEN + CC_MAX_KEY_LEN + 4) (ns ++ [58] ++ gr ++ [58] ++ k).
Definition bucket_of (ns gr k : list Z) : nat := Z.to_nat (cc_hash (composite ns gr k) mod Z.of_nat bucket_count).
Definition is_entry (ns gr k : list Z) (e : cc_entry_t) : bool :=
  bool_decide (namespace_ e = ns) && bool_decide (group_ e = gr) && bool_decide (key e = k).
(** The bucket and the place in it. *)
Definition cc_find (center : cc_config_center) (ns gr k : list Z) : option (nat * nat) :=
  b ← buckets center !! bucket_of ns gr k; i ← find_idx (is_entry ns gr k) b; Some (bucket_of ns gr k, i).
Definition entry_at (center : cc_config_center) (p : nat * nat) : option cc_entry_t := b ← buckets center !! p.1; b !! p.2.
Definition set_entry (p : nat * nat) (e : cc_entry_t) (center : cc_config_center) : cc_config_center :=
  center <| buckets ::= alter <[p.2 := e]> p.1 |>.
(** [cc_find] and the entry found. *)
Definition found (center : cc_config_center) (ns gr k : list Z) : option ((nat * nat) * cc_entry_t) :=
  p ← cc_find center ns gr k; e ← entry_at center p; Some (p, e).
Definition all_entries (center : cc_config_center) : list cc_entry_t := mjoin (buckets center).

Definition cc_add_version (e : cc_entry_t) : cc_entry_t := e <| versions ::= fun l => l ++ [mk_version (version e) (value e) (updated_at e)] |>.
Definition cc_notify (center : cc_config_center) (ns k v : list Z) : list notice :=
  (fun s => mk_notice (user_data s) ns k v) <$> List.filter (fun s => bool_decide (sub_namespace s = ns)) (subscribers center).

Definition cc_center_create : cc_config_center := mk_center (replicate bucket_count []) [].

(** A new value in an existing entry. *)
Definition replace_value (e : cc_entry_t) (v : list Z) (now : Z) : cc_entry_t :=
  (cc_add_version e) <| value := v |> <| version ::= Z.add 1 |> <| updated_at := now |>.
Definition new_entry (ns gr k v : list Z) (now : Z) : cc_entry_t :=
  mk_entry (truncated CC_MAX_KEY_LEN k) v 1 now now (truncated CC_MAX_NAMESPACE_LEN ns) (truncated CC_MAX_GROUP_LEN gr) CC_ENC_NONE [] None.
Definition cc_config_put (center : cc_config_center) (ns gr k v : list Z) (now : Z) : Z * list notice * cc_config_center :=
  let center :=
    match found center ns gr k with
    | Some (p, e) => set_entry p (replace_value e v now) center
    | None => center <| buckets ::= alter (cons (new_entry ns gr k v now)) (bucket_of ns gr k) |>
    end in
  (0, cc_notify center ns k v, center).

(** The caller's copy of an entry. *)
Definition config_of (e : cc_entry_t) : cc_config_entry_t :=
  mk_config (key e) (value e) (version e) (created_at e) (updated_at e) (namespace_ e) (group_ e) (encrypt_type e).
Definition cc_config_get (center : cc_config_center) (ns gr k : list Z) : option cc_config_entry_t :=
  '(_, e) ← found center ns gr k; Some (config_of e).
Definition cc_config_delete (center : cc_config_center) (ns gr k : list Z) : Z * cc_config_center :=
  match cc_find center ns gr k with
  | Some p => (0, center <| buckets ::= alter (delete p.2) p.1 |>)
  | None => (-1, center)
  end.

(** ** Encryption *)

Definition cc_xor_crypt (input enc_key : list Z) : option (list Z) :=
  match input, enc_key with
  | [], _ => Some []
  | _, [] => None
  | _, _ => Some (imap (fun i c => Z.lxor c (nth (i mod length enc_key) enc_key 0)) input)
  end.
(** The encrypted bytes are handed on as a C string. *)
Definition cc_config_put_encrypted (center : cc_config_center) (ns gr k v enc_key : list Z) (now : Z) : option (Z * list notice * cc_config_center) :=
  enc ← cc_xor_crypt v enc_key;
  let '(r, calls, center) := cc_config_put center ns gr k (cstr enc) now in
  Some (r, calls, match found center ns gr k with Some (p, e) => set_entry p (e <| encrypt_type := CC_ENC_AES |>) center | None => center end).
(** [Some None] is -1. *)
Definition cc_config_get_decrypted (center : cc_config_center) (ns gr k : list Z) (out_size : nat) (enc_key : list Z) : option (option (list Z)) :=
  match found center ns gr k with
  | None => Some None
  | Some (_, e) => if (out_size =? 0)%nat then None else out ← cc_xor_crypt (take (out_size - 1) (value e)) enc_key; Some (Some out)
  end.

(** ** Versions *)

Definition find_version (e : cc_entry_t) (ver : Z) : option cc_config_version_t :=
  i ← find_idx (fun v => v_version v =? ver) (versions e); versions e !! i.
Definition cc_config_get_version (center : cc_config_center) (ns gr k : list Z) (ver : Z) : option cc_config_entry_t :=
  '(_, e) ← found center ns gr k;
  if ver =? version e then cc_config_get center ns gr k
  else v ← find_version e ver; Some (mk_config (key e) (v_value v) (v_version v) (v_created_at v) (v_created_at v) (namespace_ e) (group_ e) (encrypt_type e)).
Definition cc_config_list_versions (center : cc_config_center) (ns gr k : list Z) : option (list cc_config_version_t) :=
  '(_, e) ← found center ns gr k; Some (take CC_MAX_VERSIONS (versions e)).
Definition cc_config_rollback (center : cc_config_center) (ns gr k : list Z) (ver now : Z) : Z * list notice * cc_config_center :=
  match found center ns gr k with
  | None => (-1, [], center)
  | Some (p, e) =>
      match find_version e ver with
      | Some v => (0, cc_notify center ns k (v_value v), set_entry p (replace_value e (v_value v) now) center)
      | None => (-1, [], center)
      end
  end.

(** ** Gray releases *)

Definition cc_gray_release_set (center : cc_config_center) (ns gr k : list Z) (gray : cc_gray_release_t) : Z * cc_config_center :=
  match found center ns gr k with
  | Some (p, e) => (0, set_entry p (e <| gray_release := Some gray |>) center)
  | None => (-1, center)
  end.
Definition cc_gray_release_get (center : cc_config_center) (ns gr k instance_ip : list Z) : option cc_config_entry_t :=
  '(_, e) ← found center ns gr k;
  match gray_release e with
  | Some g =>
      if bool_decide (gray_type g = CC_GRAY_IP) && existsb (fun ip => bool_decide (ip = instance_ip)) (target_ips g) then
        Some ((config_of e) <| c_value := gray_value g |> <| c_version := gray_version g |>)
      else cc_config_get center ns gr k
  | None => cc_config_get center ns gr k
  end.

(** ** Subscribers *)

Definition cc_subscribe (center : cc_config_center) (ns : list Z) (user : Z) : Z * cc_config_center :=
  if (256 <=? length (subscribers center))%nat then (-1, center)
  else (0, center <| subscribers ::= fun l => l ++ [mk_sub user (truncated CC_MAX_NAMESPACE_LEN ns)] |>).
Definition cc_unsubscribe (center : cc_config_center) (ns : list Z) : Z * cc_config_center :=
  match find_idx (fun s => bool_decide (sub_namespace s = ns)) (subscribers center) with
  | Some i => (0, center <| subscribers ::= delete i |>)
  | None => (-1, center)
  end.
Definition cc_poll_update (center : cc_config_center) (ns gr : list Z) : list notice :=
  mjoin ((fun e => cc_notify center ns (key e) (value e)) <$>
    List.filter (fun e => bool_decide (namespace_ e = ns) && bool_decide (group_ e = gr)) (all_entries center)).
Definition cc_poll_all (center : cc_config_center) : list notice :=
  mjoin ((fun e => cc_notify center (namespace_ e) (key e) (value e)) <$> all_entries center).

(** ** Lists *)

Definition add_name (names : list (list Z)) (n : list Z) : list (list Z) := if existsb (fun x => bool_decide (x = n)) names then names else names ++ [n].
Definition cc_namespace_list (center : cc_config_center) : list (list Z) := foldl (fun l e => add_name l (namespace_ e)) [] (all_entries center).
Definition cc_group_list (center : cc_config_center) (ns : list Z) : list (list Z) :=
  foldl (fun l e => if bool_decide (namespace_ e = ns) then add_name l (group_ e) else l) [] (all_entries center).
Definition cc_key_list (center : cc_config_center) (ns gr : list Z) : list (list Z) :=
  key <$> List.filter (fun e => bool_decide (namespace_ e = ns) && bool_decide (group_ e = gr)) (all_entries center).
Definition cc_config_diff (center : cc_config_center) (ns_a group_a ns_b group_b : list Z) : list (list Z) :=
  key <$> List.filter (fun e => bool_decide (namespace_ e = ns_a) && bool_decide (group_ e = group_a)
                                && negb (bool_decide (is_Some (cc_find center ns_b group_b (key e))))) (all_entries center).

(** ** Consistency levels *)

Inductive cc_consistency_level_t := CC_CONSISTENCY_STRONG | CC_CONSISTENCY_EVENTUAL | CC_CONSISTENCY_QUORUM.
(** The other fields are not read. *)
Record cc_consistency_config_t := mk_consistency { read_level : cc_consistency_level_t; read_repair_enabled : bool }.
(** The only replica is the local one. *)
Definition cc_quorum_read (center : cc_config_center) (ns gr k : list Z) : option cc_config_entry_t :=
  '(_, e) ← found center ns gr k; if -1 <? version e then Some (config_of e) else None.
(** From the [i]-th version on; [rounds] bounds the loop, which appends at most one
    version per version it began with. *)
Fixpoint repair_loop (rounds i : nat) (e : cc_entry_t) (latest : Z) (repaired : bool) (now : Z) : bool * cc_entry_t :=
  match rounds, versions e !! i with
  | S r, Some v =>
      if latest <? v_version v then repair_loop r (S i) ((cc_add_version e) <| value := v_value v |> <| version := v_version v |> <| updated_at := now |>) (v_version v) true now
      else repair_loop r (S i) e latest repaired now
  | _, _ => (repaired, e)
  end.
Definition cc_read_repair (center : cc_config_center) (ns gr k : list Z) (now : Z) : Z * list notice * cc_config_center :=
  match found center ns gr k with
  | None => (-1, [], center)
  | Some (p, e) =>
      let '(repaired, e) := repair_loop (2 * length (versions e)) 0 e (version e) false now in
      (c_bool repaired, if repaired then cc_notify center ns k (value e) else [], set_entry p e center)
  end.
Definition cc_config_get_consistent (center : cc_config_center) (ns gr k : list Z) (cons : option cc_consistency_config_t) (now : Z) :
    option cc_config_entry_t * list notice * cc_config_center :=
  match cons with
  | None => (cc_config_get center ns gr k, [], center)
  | Some c =>
      match read_level c with
      | CC_CONSISTENCY_QUORUM => (cc_quorum_read center ns gr k, [], center)
      | CC_CONSISTENCY_STRONG =>
          let result := cc_config_get center ns gr k in
          match result with
          | Some _ => if read_repair_enabled c then let '(_, calls, center) := cc_read_repair center ns gr k now in (result, calls, center) else (result, [], center)
          | None => (None, [], center)
          end
      | CC_CONSISTENCY_EVENTUAL => (cc_config_get center ns gr k, [], center)
      end
  end.

(** ** Snapshots *)

Definition record_line (e : cc_entry_t) : list Z :=
  take CC_MAX_NAMESPACE_LEN (namespace_ e) ++ [58] ++ take CC_MAX_GROUP_LEN (group_ e) ++ [58] ++ key e ++ [61] ++ print_lld (s32 (version e)) ++ [124]
  ++ print_lld (Z.of_nat (length (value e))) ++ [58] ++ value e ++ [10].
Definition cc_snapshot_save (center : cc_config_center) : list Z := mjoin (record_line <$> all_entries center).

Definition LINE_SIZE : nat := CC_MAX_KEY_LEN + CC_MAX_NAMESPACE_LEN + CC_MAX_GROUP_LEN + CC_MAX_VALUE_LEN + 256.
#[global] Arguments LINE_SIZE : simpl never.
(** Before and after the first [c]. *)
Fixpoint cut (c : Z) (s : list Z) : option (list Z * list Z) :=
  match s with
  | [] => None
  | x :: s' => if x =? c then Some ([], s') else '(l, r) ← cut c s'; Some (x :: l, r)
  end.
Record snapshot_record := mk_record { s_ns : list Z; s_group : list Z; s_key : list Z; s_version : Z; s_len : Z; s_value : list Z; s_offset : nat }.
(** [None]: the line is skipped. *)
Definition parse_line (line : list Z) : option snapshot_record :=
  '(ns, ptr) ← cut 58 line;
  '(gr, ptr) ← cut 58 ptr;
  '(k, ptr) ← cut 61 ptr;
  '(ver, ptr) ← cut 124 ptr;
  '(len, ptr) ← cut 58 ptr;
  Some (mk_record (truncated CC_MAX_NAMESPACE_LEN ns) (truncated CC_MAX_GROUP_LEN gr) (truncated CC_MAX_KEY_LEN k) (s32 (strtol ver)) (strtol len)
          (from_option fst ptr (cut 10 ptr)) (length line - length ptr)).
(** One line, as a C string. *)
Definition load_line (center : cc_config_center) (line : list Z) (now : Z) : option (list notice * cc_config_center) :=
  match parse_line line with
  | None => Some ([], center)
  | Some r =>
      let newer := match found center (s_ns r) (s_group r) (s_key r) with Some (_, e) => version e <? s_version r | None => true end in
      if newer then
        if (0 <=? s_len r) && (Z.of_nat (s_offset r) + s_len r <? Z.of_nat LINE_SIZE) then
          let '(_, calls, center) := cc_config_put center (s_ns r) (s_group r) (s_key r) (take (Z.to_nat (s_len r)) (s_value r)) now in Some (calls, center)
        else None
      else Some ([], center)
  end.
(** [lines] bounds the number of lines. *)
Fixpoint load_loop (lines : nat) (center : cc_config_center) (file : list Z) (now : Z) : option (list notice * cc_config_center) :=
  match lines, file with
  | S n, _ :: _ =>
      let '(line, rest) := fgets (LINE_SIZE - 1) file in
      '(calls, center) ← load_line center (cstr line) now;
      '(calls', center) ← load_loop n center rest now;
      Some (calls ++ calls', center)
  | _, _ => Some ([], center)
  end.
Definition cc_snapshot_load (center : cc_config_center) (file : list Z) (now : Z) : option (list notice * cc_config_center) :=
  load_loop (length file) center file now.

(** * Properties *)



Notation ckey := (list Z * list Z * list Z)%type.
Definition entry_key (e : cc_entry_t) : ckey := (namespace_ e, group_ e, key e).
Definition bucket_of' (k : ckey) : nat := bucket_of k.1.1 k.1.2 k.2.
Definition found' (center : cc_config_center) (k : ckey) := found center k.1.1 k.1.2 k.2.
(** What a key leads to. *)
Definition lookup (center : cc_config_center) (k : ckey) : option cc_entry_t := snd <$> found' center k.

(** ** Buckets *)

Definition seek (k : ckey) (l : list cc_entry_t) : option (nat * cc_entry_t) :=
  i ← find_idx (is_entry k.1.1 k.1.2 k.2) l; e ← l !! i; Some (i, e).
#[local] Arguments seek : simpl never.
#[local] Arguments entry_key : simpl never.

Lemma is_entry_key k e : is_entry k.1.1 k.1.2 k.2 e = bool_decide (entry_key e = k).
Proof.
  destruct k as [[ns gr] k]. unfold is_entry, entry_key. cbn. apply eq_true_iff_eq. rewrite !andb_true_iff, !bool_decide_eq_true. naive_solver.
Qed.
Lemma seek_nil k : seek k [] = None.
Proof. done. Qed.
Lemma seek_cons k e l : seek k (e :: l) = if bool_decide (entry_key e = k) then Some (O, e) else prod_map S (fun x => x) <$> seek k l.
Proof.
  unfold seek. cbn [find_idx]. rewrite is_entry_key. destruct (bool_decide _); [done|].
  destruct (find_idx _ l) as [i|]; [|done]. cbn. by destruct (l !! i).
Qed.
Lemma seek_key k l i e : seek k l = Some (i, e) -> entry_key e = k /\ l !! i = Some e.
Proof.
  revert i. induction l as [|x l IH]; intros i; [done|]. rewrite seek_cons. case_bool_decide as Hx; [by intros [= <- <-]|].
  destruct (seek k l) as [[j y]|]; [|done]. intros [= <- <-]. by apply IH.
Qed.
Lemma seek_insert k l i e e' k' : seek k l = Some (i, e) -> entry_key e' = k ->
  snd <$> seek k' (<[i := e']> l) = if decide (k' = k) then Some e' else snd <$> seek k' l.
Proof.
  revert i. induction l as [|x l IH]; intros i Hs Hk; [done|]. rewrite seek_cons in Hs. case_bool_decide as Hx.
  - injection Hs as <- <-. cbn [insert list_insert]. rewrite !seek_cons. subst k. rewrite Hx in *. destruct (decide (k' = entry_key e')) as [->|Hne].
    + by rewrite bool_decide_true.
    + rewrite !bool_decide_false by congruence. done.
  - destruct (seek k l) as [[j y]|] eqn:Hl; [|done]. injection Hs as <- <-. change (<[S j := e']> (x :: l)) with (x :: <[j := e']> l). rewrite !seek_cons.
    case_bool_decide as Hx'; [destruct (decide (k' = k)); [congruence|done]|]. specialize (IH j eq_refl Hk).
    destruct (decide (k' = k)); destruct (seek k' (<[j := e']> l)) as [[? ?]|], (seek k' l) as [[? ?]|]; cbn in *; congruence.
Qed.
Lemma seek_notin k l : k ∉ (entry_key <$> l) -> seek k l = None.
Proof.
  induction l as [|x l IH]; [done|]. cbn. rewrite not_elem_of_cons. intros [Hx Hl]. rewrite seek_cons, bool_decide_false by congruence. by rewrite IH.
Qed.
Lemma seek_delete k l i e k' : NoDup (entry_key <$> l) -> seek k l = Some (i, e) ->
  snd <$> seek k' (delete i l) = if decide (k' = k) then None else snd <$> seek k' l.
Proof.
  revert i. induction l as [|x l IH]; intros i Hnd Hs; [done|]. cbn in Hnd. apply NoDup_cons in Hnd as [Hx' Hnd]. rewrite seek_cons in Hs. case_bool_decide as Hx.
  - injection Hs as <- <-. cbn [delete list_delete]. rewrite seek_cons. destruct (decide (k' = k)) as [->|Hne]; [rewrite seek_notin; [done|congruence]|].
    rewrite bool_decide_false by congruence. by destruct (seek k' l) as [[]|].
  - destruct (seek k l) as [[j y]|] eqn:Hl; [|done]. injection Hs as <- <-. change (delete (S j) (x :: l)) with (x :: delete j l). rewrite !seek_cons.
    case_bool_decide as Hxk; [destruct (decide (k' = k)); [congruence|done]|]. specialize (IH j Hnd eq_refl).
    destruct (decide (k' = k)); destruct (seek k' (delete j l)) as [[? ?]|], (seek k' l) as [[? ?]|]; cbn in *; congruence.
Qed.
Lemma seek_elem k l e : NoDup (entry_key <$> l) -> snd <$> seek k l = Some e <-> e ∈ l /\ entry_key e = k.
Proof.
  intros Hnd. split.
  - destruct (seek k l) as [[i x]|] eqn:Hs; [|done]. intros [= <-]. apply seek_key in Hs as [? ?]. split; [by eapply list_elem_of_lookup_2|done].
  - intros [He <-]. induction l as [|x l IH]; [by apply elem_of_nil in He|]. cbn in Hnd. apply NoDup_cons in Hnd as [Hx Hnd]. rewrite seek_cons.
    apply elem_of_cons in He as [->|He]; [by rewrite bool_decide_true|]. rewrite bool_decide_false by (intros Heq; apply Hx; rewrite Heq; by apply list_elem_of_fmap_2).
    specialize (IH Hnd He). destruct (seek _ l) as [[]|]; cbn in *; congruence.
Qed.

(** ** The table *)

Record wf (center : cc_config_center) : Prop := {
  wf_length : length (buckets center) = bucket_count;
  wf_nodup : forall b l, buckets center !! b = Some l -> NoDup (entry_key <$> l);
  wf_place : forall b l e, buckets center !! b = Some l -> e ∈ l -> bucket_of' (entry_key e) = b;
}.

Lemma bucket_of_lt k : (bucket_of' k < bucket_count)%nat.
Proof.
  unfold bucket_of', bucket_of. pose proof (Z.mod_pos_bound (cc_hash (composite k.1.1 k.1.2 k.2)) (Z.of_nat bucket_count) ltac:(vm_compute; done)).
  lia.
Qed.
Lemma bucket_exists center k : wf center -> is_Some (buckets center !! bucket_of' k).
Proof. intros Hwf. apply lookup_lt_is_Some. rewrite (wf_length _ Hwf). apply bucket_of_lt. Qed.

Lemma found_seek center k l : buckets center !! bucket_of' k = Some l ->
  found' center k = (fun '(i, e) => ((bucket_of' k, i), e)) <$> seek k l.
Proof.
  intros Hl. unfold found', found, cc_find, seek, entry_at. fold (bucket_of' k). rewrite Hl. cbn [mbind option_bind].
  destruct (find_idx _ l) as [i|]; [|done]. cbn [mbind option_bind fst snd]. rewrite Hl. cbn [mbind option_bind]. by destruct (l !! i).
Qed.
Lemma lookup_seek center k l : buckets center !! bucket_of' k = Some l -> lookup center k = snd <$> seek k l.
Proof. intros Hl. unfold lookup. rewrite (found_seek _ _ l Hl). by destruct (seek k l) as [[]|]. Qed.
Lemma found_lookup center k p e : found' center k = Some (p, e) -> lookup center k = Some e.
Proof. unfold lookup. by intros ->. Qed.
Lemma found_none center k : found' center k = None -> lookup center k = None.
Proof. unfold lookup. by intros ->. Qed.

(** A change of one bucket. *)
Lemma lookup_alter center k f l k' (res : option cc_entry_t) : wf center -> buckets center !! bucket_of' k = Some l ->
  (forall k', snd <$> seek k' (f l) = if decide (k' = k) then res else snd <$> seek k' l) ->
  lookup (center <| buckets ::= alter f (bucket_of' k) |>) k' = if decide (k' = k) then res else lookup center k'.
Proof.
  intros Hwf Hl Hf. destruct (bucket_exists center k' Hwf) as [l' Hl']. destruct (decide (bucket_of' k' = bucket_of' k)) as [Heq|Hne].
  - rewrite (lookup_seek _ k' (f l)) by (cbn; rewrite Heq, list_lookup_alter_eq, Hl; done). rewrite Hf. rewrite (lookup_seek center k' l) by congruence. done.
  - rewrite (lookup_seek _ k' l') by (cbn; rewrite list_lookup_alter_ne; done). rewrite (lookup_seek center k' l') by done.
    destruct (decide (k' = k)); [congruence|done].
Qed.
Lemma wf_alter center k f l : wf center -> buckets center !! bucket_of' k = Some l -> NoDup (entry_key <$> f l) ->
  (forall e, e ∈ f l -> bucket_of' (entry_key e) = bucket_of' k) -> wf (center <| buckets ::= alter f (bucket_of' k) |>).
Proof.
  intros [Hlen Hnd Hpl] Hl Hn Hp. split; cbn.
  - by rewrite length_alter.
  - intros b l' Hb. destruct (decide (b = bucket_of' k)) as [->|Hne].
    + rewrite list_lookup_alter_eq, Hl in Hb. by injection Hb as <-.
    + rewrite list_lookup_alter_ne in Hb by done. by apply (Hnd b).
  - intros b l' e Hb He. destruct (decide (b = bucket_of' k)) as [->|Hne].
    + rewrite list_lookup_alter_eq, Hl in Hb. injection Hb as <-. by apply Hp.
    + rewrite list_lookup_alter_ne in Hb by done. by apply (Hpl b l').
Qed.

(** ** Operations on the table *)

Definition short (k : ckey) : Prop :=
  (length k.1.1 < CC_MAX_NAMESPACE_LEN)%nat /\ (length k.1.2 < CC_MAX_GROUP_LEN)%nat /\ (length k.2 < CC_MAX_KEY_LEN)%nat.
Definition put (center : cc_config_center) (k : ckey) (v : list Z) (now : Z) := cc_config_put center k.1.1 k.1.2 k.2 v now.

Lemma create_wf : wf cc_center_create.
Proof.
  split; cbn -[bucket_count].
  - apply length_replicate.
  - intros b l [-> _]%lookup_replicate. constructor.
  - intros b l e [-> _]%lookup_replicate He. by apply elem_of_nil in He.
Qed.
Lemma lookup_create k : lookup cc_center_create k = None.
Proof.
  rewrite (lookup_seek _ k []); [done|]. cbn -[bucket_count]. apply lookup_replicate. split; [done|apply bucket_of_lt].
Qed.

Lemma seek_wf center k l : wf center -> buckets center !! bucket_of' k = Some l -> lookup center k = None -> k ∉ (entry_key <$> l).
Proof.
  intros Hwf Hl Hn (e & -> & He)%list_elem_of_fmap. rewrite (lookup_seek _ _ _ Hl) in Hn.
  assert (Hs : snd <$> seek (entry_key e) l = Some e) by (apply seek_elem; [by eapply wf_nodup|done]). congruence.
Qed.

Lemma set_entry_spec center k p e e' : wf center -> found' center k = Some (p, e) -> entry_key e' = k ->
  wf (set_entry p e' center) /\ forall k', lookup (set_entry p e' center) k' = if decide (k' = k) then Some e' else lookup center k'.
Proof.
  intros Hwf Hf He. destruct (bucket_exists center k Hwf) as [l Hl]. rewrite (found_seek _ _ _ Hl) in Hf.
  destruct (seek k l) as [[i x]|] eqn:Hs; [|done]. cbn in Hf. injection Hf as <- ->. unfold set_entry. cbn [fst snd].
  destruct (seek_key _ _ _ _ Hs) as [Hk Hi]. split.
  - apply (wf_alter _ _ _ l); try done.
    + rewrite list_fmap_insert, list_insert_id; [by eapply wf_nodup|]. rewrite list_lookup_fmap, Hi. cbn. congruence.
    + intros y [j Hj]%list_elem_of_lookup. destruct (decide (i = j)) as [<-|Hne].
      * rewrite list_lookup_insert_eq in Hj by (by eapply lookup_lt_Some). injection Hj as <-. by rewrite He.
      * rewrite list_lookup_insert_ne in Hj by done. eapply wf_place; [done|done|by eapply list_elem_of_lookup_2].
  - intros k'. apply (lookup_alter _ _ _ l); try done. intros k''. by eapply seek_insert.
Qed.

Lemma new_entry_key k v now : short k -> entry_key (new_entry k.1.1 k.1.2 k.2 v now) = k.
Proof.
  intros (H1 & H2 & H3). destruct k as [[ns gr] k]. unfold new_entry, entry_key. cbn [key namespace_ group_ fst snd] in *. by rewrite !truncated_id by done.
Qed.

(** The entry after a put. *)
Definition put_entry (o : option cc_entry_t) (k : ckey) (v : list Z) (now : Z) : cc_entry_t :=
  match o with Some e => replace_value e v now | None => new_entry k.1.1 k.1.2 k.2 v now end.
Lemma put_spec center k v now : wf center -> short k -> let '(rc, calls, center') := put center k v now in
  rc = 0 /\ calls = cc_notify center k.1.1 k.2 v /\ wf center' /\
  forall k', lookup center' k' = if decide (k' = k) then Some (put_entry (lookup center k) k v now) else lookup center k'.
Proof.
  intros Hwf Hs. unfold put, cc_config_put. fold (found' center k). destruct (found' center k) as [[p e]|] eqn:Hf.
  - rewrite (found_lookup _ _ _ _ Hf). cbn [put_entry]. destruct (set_entry_spec center k p e (replace_value e v now) Hwf Hf) as [Hwf' Hl].
    { destruct (bucket_exists center k Hwf) as [l Hl]. rewrite (found_seek _ _ _ Hl) in Hf. destruct (seek k l) as [[i x]|] eqn:Hs'; [|done].
      cbn in Hf. injection Hf as _ ->. by apply seek_key in Hs' as [<- _]. }
    split; [done|]. split; [|done]. unfold set_entry. done.
  - rewrite (found_none _ _ Hf). cbn [put_entry]. destruct (bucket_exists center k Hwf) as [l Hl]. pose proof (found_none _ _ Hf) as Hn.
    pose proof (new_entry_key k v now Hs) as Hk. split; [done|]. split; [done|]. fold (bucket_of' k). split.
    + apply (wf_alter _ _ _ l); try done.
      * cbn. rewrite Hk. constructor; [by eapply seek_wf|by eapply wf_nodup].
      * intros y [->|Hy]%elem_of_cons; [by rewrite Hk|by eapply wf_place].
    + intros k'. apply (lookup_alter _ _ _ l); try done. intros k''. rewrite seek_cons, Hk. destruct (decide (k'' = k)) as [->|Hne].
      * by rewrite bool_decide_true.
      * rewrite bool_decide_false by congruence. by destruct (seek k'' l) as [[]|].
Qed.

Lemma delete_spec center k : wf center -> let '(rc, center') := cc_config_delete center k.1.1 k.1.2 k.2 in
  rc = (if lookup center k then 0 else -1) /\ wf center' /\ forall k', lookup center' k' = if decide (k' = k) then None else lookup center k'.
Proof.
  intros Hwf. destruct (bucket_exists center k Hwf) as [l Hl]. unfold cc_config_delete, cc_find. fold (bucket_of' k). rewrite Hl. cbn [mbind option_bind].
  rewrite (lookup_seek _ _ _ Hl). unfold seek at 1. destruct (find_idx _ l) as [i|] eqn:Hi; cbn [mbind option_bind].
  - pose proof Hi as (e & He & Hp & _)%find_idx_Some. rewrite He. cbn [mbind option_bind fmap option_fmap option_map fst snd]. split; [done|].
    assert (Hs : seek k l = Some (i, e)) by (unfold seek; rewrite Hi; cbn; by rewrite He). split.
    + apply (wf_alter _ _ _ l); try done.
      * rewrite list_fmap_delete. eapply sublist_NoDup; [by eapply wf_nodup|apply sublist_delete].
      * intros y Hy. eapply wf_place; [done|done|]. eapply elem_of_sublist; [done|apply sublist_delete].
    + intros k'. apply (lookup_alter _ _ _ l); try done. intros k''. apply (seek_delete k l i e); [by eapply wf_nodup|done].
  - split; [done|]. split; [done|]. intros k'. destruct (decide (k' = k)) as [->|]; [|done].
    rewrite (lookup_seek _ _ _ Hl). unfold seek. by rewrite Hi.
Qed.

Lemma lookup_key center k e : wf center -> lookup center k = Some e -> entry_key e = k.
Proof.
  intros Hwf. destruct (bucket_exists center k Hwf) as [l Hl]. rewrite (lookup_seek _ _ _ Hl). destruct (seek k l) as [[i x]|] eqn:Hs; [|done].
  intros [= <-]. by apply seek_key in Hs as [? _].
Qed.

Lemma get_lookup center k : cc_config_get center k.1.1 k.1.2 k.2 = config_of <$> lookup center k.
Proof. unfold cc_config_get, lookup. fold (found' center k). by destruct (found' center k) as [[]|]. Qed.

(** ** Histories *)

(** The entry holds the last of the values written, the versions the earlier ones. *)
Definition hist (e : cc_entry_t) (vs : list (list Z)) : Prop :=
  exists old, vs = old ++ [value e] /\ version e = Z.of_nat (length vs) /\
    (fun v => (v_version v, v_value v)) <$> versions e = imap (fun i x => (Z.of_nat i + 1, x)) old.
(** Numbered from 1. *)
Definition nth_value (vs : list (list Z)) (ver : Z) : option (list Z) := if 1 <=? ver then vs !! Z.to_nat (ver - 1) else None.

Lemma hist_new k v now : hist (new_entry k.1.1 k.1.2 k.2 v now) [v].
Proof. by exists []. Qed.
Lemma hist_replace e vs v now : hist e vs -> hist (replace_value e v now) (vs ++ [v]).
Proof.
  intros (old & -> & Hver & Hvs). exists (old ++ [value e]). unfold replace_value, cc_add_version. cbn. split; [done|]. split.
  - rewrite Hver, !length_app. cbn. lia.
  - rewrite fmap_app, imap_app, Hvs. cbn. rewrite Nat.add_0_r, Hver, length_app. cbn. do 3 f_equal. lia.
Qed.

Lemma find_version_spec e vs ver : hist e vs -> ver <> version e ->
  v_value <$> find_version e ver = nth_value vs ver /\ (forall v, find_version e ver = Some v -> v_version v = ver).
Proof.
  intros (old & -> & Hver & Hvs) Hne. unfold find_version, nth_value. rewrite length_app in Hver. cbn in Hver.
  assert (Hat : forall i v, versions e !! i = Some v -> v_version v = Z.of_nat i + 1 /\ old !! i = Some (v_value v)).
  { intros i v Hv. assert (H : ((fun v => (v_version v, v_value v)) <$> versions e) !! i = Some (v_version v, v_value v)) by (by rewrite list_lookup_fmap, Hv).
    rewrite Hvs, list_lookup_imap in H. destruct (old !! i) as [x|]; [|done]. cbn in H. by injection H as <- ->. }
  assert (Hlen : length (versions e) = length old) by (rewrite <- (length_fmap (fun v => (v_version v, v_value v))), Hvs, length_imap; done).
  destruct (find_idx _ (versions e)) as [i|] eqn:Hf; cbn [mbind option_bind].
  - apply find_idx_Some in Hf as (v & Hv & Hp%Z.eqb_eq & _). destruct (Hat i v Hv) as [Hi Ho]. rewrite Hv. cbn. split; [|by intros x [= <-]].
    rewrite (proj2 (Z.leb_le 1 ver)) by lia. replace (Z.to_nat (ver - 1)) with i by lia. by rewrite lookup_app_l by (by eapply lookup_lt_Some).
  - split; [|done]. pose proof (proj1 (find_idx_None _ _) Hf) as Hnone. destruct (Z.leb_spec 1 ver); [|done]. cbn. symmetry. apply lookup_ge_None_2.
    rewrite length_app. cbn. destruct (decide (Z.to_nat (ver - 1) < length old)%nat) as [Hlt|]; [|lia].
    rewrite <- Hlen in Hlt. apply lookup_lt_is_Some in Hlt as [v Hv]. destruct (Hat _ _ Hv) as [Hi _].
    specialize (Hnone v ltac:(by eapply list_elem_of_lookup_2)). cbn in Hnone. apply Z.eqb_neq in Hnone. lia.
Qed.
Lemma hist_current e vs : hist e vs -> nth_value vs (version e) = Some (value e) /\ last vs = Some (value e).
Proof.
  intros (old & -> & Hver & _). rewrite length_app in Hver. cbn in Hver. unfold nth_value. rewrite (proj2 (Z.leb_le 1 _)) by lia.
  rewrite lookup_app_r, last_snoc by lia. replace (Z.to_nat (version e - 1) - length old)%nat with O by lia. done.
Qed.
(** No version is newer than the entry: there is nothing to repair. *)
Lemma repair_nothing rounds : forall i e now, (forall v, v ∈ versions e -> v_version v <= version e) -> repair_loop rounds i e (version e) false now = (false, e).
Proof.
  induction rounds as [|r IH]; intros i e now Hall; cbn [repair_loop]; [done|]. destruct (versions e !! i) as [v|] eqn:Hv; [|done].
  rewrite (proj2 (Z.ltb_ge _ _)); [by apply IH|]. apply Hall. by eapply list_elem_of_lookup_2.
Qed.
Lemma hist_old e vs v : hist e vs -> v ∈ versions e -> v_version v <= version e.
Proof.
  intros (old & -> & Hver & Hvs) Hv. assert (H : (v_version v, v_value v) ∈ imap (fun i x => (Z.of_nat i + 1, x)) old) by (rewrite <- Hvs; by apply (list_elem_of_fmap_2 (fun v => (v_version v, v_value v)))).
  apply elem_of_lookup_imap in H as (i & x & [= -> _] & Hi). apply lookup_lt_Some in Hi. rewrite Hver, length_app. cbn. lia.
Qed.

(** ** The abstract center: each key's values since it was created *)

Notation store := (gmap ckey (list (list Z))).
Inductive op :=
| Put (k : ckey) (v : list Z) (now : Z) | Delete (k : ckey) | Rollback (k : ckey) (ver now : Z)
| Get (k : ckey) | GetVersion (k : ckey) (ver : Z) | GetConsistent (k : ckey) (lvl : option cc_consistency_config_t) (now : Z).
(** A code, or a value and its version. *)
Inductive result := Code (z : Z) | Config (o : option (list Z * Z)).
Definition op_key (o : op) : ckey :=
  match o with Put k _ _ | Delete k | Rollback k _ _ | Get k | GetVersion k _ | GetConsistent k _ _ => k end.

Definition current (m : store) (k : ckey) : option (list Z * Z) := vs ← m !! k; v ← last vs; Some (v, Z.of_nat (length vs)).
Definition spec_step (m : store) (o : op) : result * store :=
  match o with
  | Put k v _ => (Code 0, <[k := from_option id [] (m !! k) ++ [v]]> m)
  | Delete k => (Code (if m !! k then 0 else -1), delete k m)
  | Rollback k ver _ =>
      match m !! k with
      | Some vs => match (if ver =? Z.of_nat (length vs) then None else nth_value vs ver) with
                   | Some v => (Code 0, <[k := vs ++ [v]]> m)
                   | None => (Code (-1), m)
                   end
      | None => (Code (-1), m)
      end
  | Get k | GetConsistent k _ _ => (Config (current m k), m)
  | GetVersion k ver => (Config (vs ← m !! k; v ← nth_value vs ver; Some (v, ver)), m)
  end.
Definition config_result (o : option cc_config_entry_t) : result := Config ((fun c => (c_value c, c_version c)) <$> o).
Definition step (center : cc_config_center) (o : op) : result * cc_config_center :=
  match o with
  | Put k v now => let '(rc, _, c) := put center k v now in (Code rc, c)
  | Delete k => let '(rc, c) := cc_config_delete center k.1.1 k.1.2 k.2 in (Code rc, c)
  | Rollback k ver now => let '(rc, _, c) := cc_config_rollback center k.1.1 k.1.2 k.2 ver now in (Code rc, c)
  | Get k => (config_result (cc_config_get center k.1.1 k.1.2 k.2), center)
  | GetVersion k ver => (config_result (cc_config_get_version center k.1.1 k.1.2 k.2 ver), center)
  | GetConsistent k lvl now => let '(r, _, c) := cc_config_get_consistent center k.1.1 k.1.2 k.2 lvl now in (config_result r, c)
  end.
Fixpoint spec_run (m : store) (os : list op) : list result * store :=
  match os with [] => ([], m) | o :: os' => let '(r, m) := spec_step m o in let '(rs, m) := spec_run m os' in (r :: rs, m) end.
Fixpoint run (center : cc_config_center) (os : list op) : list result * cc_config_center :=
  match os with [] => ([], center) | o :: os' => let '(r, c) := step center o in let '(rs, c) := run c os' in (r :: rs, c) end.

Definition same (o : option cc_entry_t) (vs : option (list (list Z))) : Prop :=
  match o, vs with Some e, Some vs => hist e vs | None, None => True | _, _ => False end.
Record refines (center : cc_config_center) (m : store) : Prop := { ref_wf : wf center; ref_same : forall k, same (lookup center k) (m !! k) }.

Lemma same_cases o vs : same o vs -> (o = None /\ vs = None) \/ exists e l, o = Some e /\ vs = Some l /\ hist e l.
Proof. destruct o, vs; cbn; eauto 10; done. Qed.

Lemma refines_update center center' m k e vs : refines center m -> wf center' ->
  (forall k', lookup center' k' = if decide (k' = k) then Some e else lookup center k') -> hist e vs -> refines center' (<[k := vs]> m).
Proof.
  intros [_ Hs] Hwf Hl He. split; [done|]. intros k'. rewrite Hl. destruct (decide (k' = k)) as [->|Hne]; [by rewrite lookup_insert_eq|by rewrite lookup_insert_ne].
Qed.

Lemma get_refines center m k : refines center m -> config_result (cc_config_get center k.1.1 k.1.2 k.2) = Config (current m k).
Proof.
  intros [_ Hs]. rewrite get_lookup. unfold current, config_result. destruct (same_cases _ _ (Hs k)) as [[-> ->]|(e & vs & -> & -> & Hh)]; [done|].
  cbn. destruct (hist_current e vs Hh) as [_ ->]. destruct Hh as (old & -> & Hver & _). cbn. by rewrite Hver.
Qed.

Lemma found_set_same center p e k : found' center k = Some (p, e) -> set_entry p e center = center.
Proof.
  unfold found', found, entry_at, set_entry. destruct (cc_find center _ _ _) as [[b i]|]; [|done]. cbn. destruct (buckets center !! b) as [l|] eqn:Hb; [|done]. cbn.
  destruct (l !! i) as [x|] eqn:Hi; [|done]. cbn. intros [= <- <-]. destruct center as [bs subs]. unfold set. cbn. f_equal.
  apply list_eq. intros j. destruct (decide (j = b)) as [->|Hne]; [|by rewrite list_lookup_alter_ne]. rewrite list_lookup_alter_eq. cbn in Hb. rewrite Hb. cbn.
  by rewrite list_insert_id.
Qed.

Lemma consistent_refines center m k lvl now : refines center m ->
  let '(r, calls, center') := cc_config_get_consistent center k.1.1 k.1.2 k.2 lvl now in
  r = cc_config_get center k.1.1 k.1.2 k.2 /\ calls = [] /\ center' = center.
Proof.
  intros [_ Hs]. unfold cc_config_get_consistent. destruct lvl as [[[] repair]|]; cbn [read_level read_repair_enabled]; try done.
  - destruct (cc_config_get center _ _ _) as [c|] eqn:Hg; [|done]. destruct repair; [|done]. unfold cc_read_repair. fold (found' center k).
    destruct (found' center k) as [[p e]|] eqn:Hf.
    + specialize (Hs k). rewrite (found_lookup _ _ _ _ Hf) in Hs. destruct (m !! k) as [vs|]; [|done]. cbn in Hs.
      rewrite repair_nothing by (intros v; by eapply hist_old). cbn. by rewrite (found_set_same _ _ _ k Hf).
    + exfalso. unfold cc_config_get in Hg. fold (found' center k) in Hg. by rewrite Hf in Hg.
  - unfold cc_quorum_read, cc_config_get. fold (found' center k). specialize (Hs k). destruct (found' center k) as [[p e]|] eqn:Hf; [|done].
    rewrite (found_lookup _ _ _ _ Hf) in Hs. destruct (m !! k) as [vs|]; [|done]. destruct Hs as (old & -> & Hver & _). cbn.
    rewrite (proj2 (Z.ltb_lt _ _)) by lia. done.
Qed.

Lemma rollback_refines center m k ver now : refines center m ->
  let '(rc, _, center') := cc_config_rollback center k.1.1 k.1.2 k.2 ver now in
  Code rc = (spec_step m (Rollback k ver now)).1 /\ refines center' (spec_step m (Rollback k ver now)).2.
Proof.
  intros Href. pose proof Href as [Hwf Hs]. unfold cc_config_rollback, spec_step. fold (found' center k). specialize (Hs k).
  destruct (found' center k) as [[p e]|] eqn:Hf.
  - rewrite (found_lookup _ _ _ _ Hf) in Hs. destruct (m !! k) as [vs|]; [|done]. cbn in Hs.
    assert (Hver : version e = Z.of_nat (length vs)) by (by destruct Hs as (old & ? & ? & _)). rewrite <- Hver.
    destruct (Z.eqb_spec ver (version e)) as [->|Hne].
    + assert (Hnone : find_version e (version e) = None); [|by rewrite Hnone].
      destruct (find_version e (version e)) as [v|] eqn:Hv; [|done]. unfold find_version in Hv. destruct (find_idx _ _) as [i|] eqn:Hi; [|done].
      apply find_idx_Some in Hi as (v' & Hv' & Hp%Z.eqb_eq & _). destruct Hs as (old & -> & Hv2 & Hvs). exfalso.
      assert (H : ((fun v => (v_version v, v_value v)) <$> versions e) !! i = Some (v_version v', v_value v')) by (by rewrite list_lookup_fmap, Hv').
      rewrite Hvs, list_lookup_imap in H. destruct (old !! i) as [x|] eqn:Ho; [|done]. cbn in H. injection H as H _. apply lookup_lt_Some in Ho.
      rewrite length_app in Hv2. cbn in Hv2. lia.
    + destruct (find_version_spec e vs ver Hs Hne) as [<- _]. destruct (find_version e ver) as [v|]; [|done]. cbn. split; [done|].
      destruct (set_entry_spec center k p e (replace_value e (v_value v) now) Hwf Hf) as [Hwf' Hl]; [apply (lookup_key center k e Hwf), (found_lookup _ _ p); exact Hf|].
      eapply refines_update; [done|done|exact Hl|by apply hist_replace].
  - rewrite (found_none _ _ Hf) in Hs. by destruct (m !! k).
Qed.

Lemma get_version_refines center m k ver : refines center m ->
  config_result (cc_config_get_version center k.1.1 k.1.2 k.2 ver) = Config (vs ← m !! k; v ← nth_value vs ver; Some (v, ver)).
Proof.
  intros [_ Hs]. unfold cc_config_get_version. fold (found' center k). specialize (Hs k). destruct (found' center k) as [[p e]|] eqn:Hf.
  - rewrite get_lookup. rewrite (found_lookup _ _ _ _ Hf) in Hs |- *. destruct (m !! k) as [vs|]; [|done]. cbn in Hs. cbn [mbind option_bind].
    destruct (Z.eqb_spec ver (version e)) as [->|Hne]; [by destruct (hist_current e vs Hs) as [-> _]|].
    destruct (find_version_spec e vs ver Hs Hne) as [<- Hv]. destruct (find_version e ver) as [v|]; [|done]. cbn. unfold config_result. cbn. by rewrite (Hv v).
  - rewrite (found_none _ _ Hf) in Hs. by destruct (m !! k).
Qed.

Lemma step_refines center m o : refines center m -> short (op_key o) ->
  let '(r, center') := step center o in r = (spec_step m o).1 /\ refines center' (spec_step m o).2.
Proof.
  intros Href Hshort. pose proof Href as [Hwf Hs]. destruct o as [k v now|k|k ver now|k|k ver|k lvl now]; cbn [op_key] in Hshort; cbn [step].
  - pose proof (put_spec center k v now Hwf Hshort) as Hp. destruct (put center k v now) as [[rc calls] c]. destruct Hp as (-> & _ & Hwf' & Hl).
    split; [done|]. cbn [spec_step snd]. eapply refines_update; [done|done|exact Hl|]. specialize (Hs k).
    destruct (same_cases _ _ Hs) as [[-> ->]|(e & vs & -> & -> & Hh)]; [apply hist_new|by apply hist_replace].
  - pose proof (delete_spec center k Hwf) as Hp. destruct (cc_config_delete center _ _ _) as [rc c]. destruct Hp as (-> & Hwf' & Hl). cbn [spec_step fst snd]. split.
    + specialize (Hs k). by destruct (same_cases _ _ Hs) as [[-> ->]|(e & vs & -> & -> & _)].
    + split; [done|]. intros k'. rewrite Hl. destruct (decide (k' = k)) as [->|]; [by rewrite lookup_delete_eq|by rewrite lookup_delete_ne].
  - pose proof (rollback_refines center m k ver now Href) as H. by destruct (cc_config_rollback center _ _ _ _ _) as [[rc calls] c].
  - split; [|done]. by apply get_refines.
  - split; [|done]. by apply get_version_refines.
  - pose proof (consistent_refines center m k lvl now Href) as H. destruct (cc_config_get_consistent center _ _ _ _ _) as [[r calls] c]. destruct H as (-> & _ & ->).
    split; [|done]. by apply get_refines.
Qed.

(** With names that fit their arrays, the center behaves like a map from
    namespace, group and key to the history of the values written: version n is the
    n-th value, a rollback writes an old value again, and reading at any consistency
    level gives the last one. *)
Theorem cc_history_refines os : Forall (fun o => short (op_key o)) os ->
  let '(rs, center) := run cc_center_create os in let '(rs', m) := spec_run ∅ os in rs = rs' /\ refines center m.
Proof.
  intros Hall. assert (Href : refines cc_center_create ∅) by (split; [apply create_wf|intros k; by rewrite lookup_create, lookup_empty]).
  revert Href. generalize cc_center_create, (∅ : store). induction Hall as [|o os Ho _ IH]; intros c m Href; [done|]. cbn [run spec_run].
  pose proof (step_refines c m o Href Ho) as H. destruct (step c o) as [r c1], (spec_step m o) as [r' m1]. cbn [fst snd] in H. destruct H as [-> Href1].
  specialize (IH c1 m1 Href1). destruct (run c1 os) as [rs c2], (spec_run m1 os) as [rs' m2]. destruct IH as [-> ?]. done.
Qed.

Lemma cc_history_refines_witness :
  let k := (str_bytes "ns", str_bytes "g", str_bytes "k") in
  let os := [Put k (str_bytes "a") 1; Put k (str_bytes "b") 2; Rollback k 1 3; Get k; GetVersion k 2; Delete k; Get k] in
  (run cc_center_create os).1 = [Code 0; Code 0; Code 0; Config (Some (str_bytes "a", 3)); Config (Some (str_bytes "b", 2)); Code 0; Config None].
Proof.
  intros k os. assert (Hs : Forall (fun o => short (op_key o)) os) by (unfold short; repeat constructor; vm_compute; lia).
  pose proof (cc_history_refines os Hs) as H. destruct (run cc_center_create os) as [rs c]. destruct (spec_run ∅ os) as [rs' m] eqn:Hspec. destruct H as [-> _].
  cbn [fst]. replace rs' with (spec_run ∅ os).1 by (by rewrite Hspec). vm_compute. reflexivity.
Defined.

(** ** Snapshots *)

Lemma entries_nodup bs : forall off, (forall i l, bs !! i = Some l -> NoDup (entry_key <$> l) /\ forall e, e ∈ l -> bucket_of' (entry_key e) = (off + i)%nat) ->
  NoDup (entry_key <$> mjoin bs).
Proof.
  induction bs as [|l bs IH]; intros off Hall; cbn [mjoin list_join fmap list_fmap]; [constructor|].
  rewrite fmap_app. destruct (Hall O l eq_refl) as [Hnd Hb]. apply NoDup_app. split; [done|]. split.
  - intros k (e & -> & He)%list_elem_of_fmap (e' & Heq & He')%list_elem_of_fmap. apply list_elem_of_join in He' as (l' & He' & [i Hi]%list_elem_of_lookup).
    destruct (Hall (S i) l' Hi) as [_ Hb']. pose proof (Hb _ He) as H1. pose proof (Hb' _ He') as H2. rewrite Heq in H1. lia.
  - apply (IH (S off)). intros i l' Hi. destruct (Hall (S i) l' Hi) as [? Hb']. split; [done|]. intros e He. rewrite (Hb' e He). lia.
Qed.
Lemma all_entries_nodup center : wf center -> NoDup (entry_key <$> all_entries center).
Proof.
  intros [_ Hnd Hpl]. apply (entries_nodup _ 0). intros i l Hl. split; [by eapply Hnd|]. intros e He. cbn. by eapply Hpl.
Qed.
Lemma lookup_entries center k e : wf center -> lookup center k = Some e <-> e ∈ all_entries center /\ entry_key e = k.
Proof.
  intros Hwf. destruct (bucket_exists center k Hwf) as [l Hl]. rewrite (lookup_seek _ _ _ Hl), seek_elem by (by eapply wf_nodup).
  unfold all_entries. rewrite list_elem_of_join. split; [|intros [(l' & He & [b Hb]%list_elem_of_lookup) <-]].
  - intros [He <-]. split; [|done]. exists l. split; [done|]. by eapply list_elem_of_lookup_2.
  - pose proof (wf_place _ Hwf b l' e Hb He) as Hb'. rewrite <- Hb' in Hb. rewrite Hb in Hl. by injection Hl as <-.
Qed.

(** What the format of a record can carry. *)
Record printable (e : cc_entry_t) : Prop := {
  pr_short : short (entry_key e);
  pr_chars : Forall char_ok (namespace_ e ++ group_ e ++ key e ++ value e);
  pr_newline : 10 ∉ namespace_ e ++ group_ e ++ key e ++ value e;
  pr_colon : 58 ∉ namespace_ e ++ group_ e;
  pr_equals : 61 ∉ key e;
  pr_version : 0 < version e < 2 ^ 31;
  pr_length : (length (record_line e) < LINE_SIZE)%nat;
}.

Lemma cut_app c l s : c ∉ l -> cut c (l ++ c :: s) = Some (l, s).
Proof.
  induction l as [|x l IH]; cbn [cut app]; [by rewrite Z.eqb_refl|]. intros [Hx Hl]%not_elem_of_cons.
  rewrite (proj2 (Z.eqb_neq x c)) by congruence. by rewrite IH.
Qed.
Lemma print_lld_avoids z c : c <> 45 -> ~ (48 <= c <= 57) -> c ∉ print_lld z.
Proof. intros H1 H2 Hin. pose proof (print_lld_chars z) as H. rewrite Forall_forall in H. specialize (H c Hin). cbn in H. lia. Qed.
Lemma print_lld_char_ok z : Forall char_ok (print_lld z).
Proof. eapply Forall_impl; [apply print_lld_chars|]. intros c Hc. cbn in Hc. unfold char_ok. lia. Qed.

(** A record without its newline. *)
Definition record_body (e : cc_entry_t) : list Z :=
  namespace_ e ++ 58 :: group_ e ++ 58 :: key e ++ 61 :: print_lld (version e) ++ 124 :: print_lld (Z.of_nat (length (value e))) ++ 58 :: value e.
Lemma record_line_body e : printable e -> record_line e = record_body e ++ [10].
Proof.
  intros He. destruct (pr_short e He) as (H1 & H2 & _). cbn [fst snd entry_key] in H1, H2. unfold entry_key in H1, H2. cbn [fst snd] in H1, H2. unfold record_line, record_body.
  rewrite (take_ge (namespace_ e)), (take_ge (group_ e)) by lia. rewrite s32_small by (pose proof (pr_version e He); lia).
  rewrite <- !app_assoc. cbn [app]. repeat (rewrite <- !app_assoc; cbn [app]). done.
Qed.
Lemma record_body_chars e : printable e -> Forall char_ok (record_body e) /\ 10 ∉ record_body e.
Proof.
  intros He. pose proof (pr_chars e He) as Hc. pose proof (pr_newline e He) as Hn. unfold record_body.
  rewrite !Forall_app in Hc. destruct Hc as (C1 & C2 & C3 & C4). rewrite !not_elem_of_app in Hn. destruct Hn as (N1 & N2 & N3 & N4). split.
  - repeat (apply Forall_app; split; [first [done|apply print_lld_char_ok]|constructor; [unfold char_ok; lia|]]). done.
  - repeat (apply not_elem_of_app; split; [first [done|apply print_lld_avoids; lia]|apply not_elem_of_cons; split; [lia|]]). done.
Qed.

Lemma record_body_length e : (length (value e) < length (record_body e))%nat.
Proof. unfold record_body. repeat (rewrite !length_app; cbn [length]). lia. Qed.
Lemma line_size_value : Z.of_nat LINE_SIZE = 66048.
Proof. vm_compute. reflexivity. Qed.

Lemma parse_record e : printable e -> exists off, parse_line (record_line e) =
  Some (mk_record (namespace_ e) (group_ e) (key e) (version e) (Z.of_nat (length (value e))) (value e) off) /\ (off + length (value e) < LINE_SIZE)%nat.
Proof.
  intros He. pose proof (pr_length e He) as Hlen. rewrite (record_line_body e He) in Hlen |- *. exists (length (record_body e ++ [10%Z]) - length (value e ++ [10%Z]))%nat.
  destruct (pr_short e He) as (H1 & H2 & H3). unfold entry_key in H1, H2, H3. cbn [fst snd] in H1, H2, H3.
  pose proof (pr_colon e He) as Hcol. apply not_elem_of_app in Hcol as [Hc1 Hc2]. pose proof (pr_version e He) as Hver.
  assert (Hn : 10 ∉ value e) by (pose proof (pr_newline e He) as Hn; rewrite !not_elem_of_app in Hn; tauto). split.
  - unfold parse_line. set (n := length (record_body e ++ [10])). unfold record_body. repeat (rewrite <- app_assoc; cbn [app]).
    do 5 (rewrite cut_app by first [done|apply (pr_equals e He)|apply print_lld_avoids; lia]; cbn [mbind option_bind]).
    rewrite cut_app by done. cbn [from_option fst]. rewrite !truncated_id by done.
    assert (Hl : Z.of_nat (length (value e)) < 2 ^ 63).
    { pose proof line_size_value. pose proof (record_body_length e). rewrite length_app in Hlen. lia. }
    rewrite !strtol_print by lia. rewrite s32_small by lia. done.
  - pose proof (record_body_length e). rewrite length_app in Hlen. rewrite !length_app. cbn [length] in *. lia.
Qed.

Lemma load_record center e now : wf center -> printable e -> lookup center (entry_key e) = None ->
  exists calls center', load_line center (cstr (record_line e)) now = Some (calls, center') /\ wf center' /\
    forall k, lookup center' k = if decide (k = entry_key e) then Some (new_entry (namespace_ e) (group_ e) (key e) (value e) now) else lookup center k.
Proof.
  intros Hwf He Hn. destruct (parse_record e He) as (off & Hp & Hoff).
  assert (Hc : cstr (record_line e) = record_line e).
  { apply cstr_id. rewrite record_line_body by done. apply Forall_app. split; [by apply record_body_chars|]. constructor; [unfold char_ok; lia|constructor]. }
  unfold load_line. rewrite Hc, Hp. cbn [s_ns s_group s_key s_version s_len s_value s_offset].
  pose proof (put_spec center (entry_key e) (value e) now Hwf (pr_short e He)) as Hput. unfold put, entry_key in Hput. cbn [fst snd] in Hput. unfold lookup, found', entry_key in Hn. cbn [fst snd] in Hn.
  destruct (found center (namespace_ e) (group_ e) (key e)) as [[]|] eqn:Hf; [done|].
  pose proof line_size_value as Hsize. rewrite (proj2 (Z.leb_le _ _)), (proj2 (Z.ltb_lt _ _)) by lia. cbn [andb].
  rewrite Nat2Z.id, take_ge by lia. destruct (cc_config_put center _ _ _ _ now) as [[rc calls] center']. destruct Hput as (_ & _ & Hwf' & Hl).
  exists calls, center'. split; [done|]. split; [done|]. intros k. rewrite Hl. unfold lookup at 1, found' at 1. cbn [fst snd]. by rewrite Hf.
Qed.

Lemma load_lines es : forall lines center now, Forall printable es -> NoDup (entry_key <$> es) -> wf center -> (forall e, e ∈ es -> lookup center (entry_key e) = None) ->
  (length es <= lines)%nat -> exists calls center', load_loop lines center (mjoin (record_line <$> es)) now = Some (calls, center') /\ wf center' /\
    forall k, (forall e, e ∈ es -> entry_key e = k -> lookup center' k = Some (new_entry (namespace_ e) (group_ e) (key e) (value e) now)) /\
              (k ∉ (entry_key <$> es) -> lookup center' k = lookup center k).
Proof.
  induction es as [|e es IH]; intros lines center now Hall Hnd Hwf Hn Hlen.
  - exists [], center. split; [by destruct lines|]. split; [done|]. intros k. split; [|done]. intros e He. by apply elem_of_nil in He.
  - apply Forall_cons in Hall as [He Hall]. cbn in Hnd. apply NoDup_cons in Hnd as [Hnotin Hnd]. destruct lines as [|lines]; [cbn in Hlen; lia|].
    change (mjoin (record_line <$> e :: es)) with (record_line e ++ mjoin (record_line <$> es)). pose proof (record_line_body e He) as Hbody. destruct (record_body_chars e He) as [_ H10].
    destruct (load_record center e now Hwf He (Hn e ltac:(left))) as (calls & c1 & Hload & Hwf1 & Hl1).
    destruct (IH lines c1 now Hall Hnd Hwf1) as (calls' & c2 & Hload2 & Hwf2 & Hl2).
    { intros x Hx. rewrite Hl1. destruct (decide (entry_key x = entry_key e)) as [Heq|]; [|apply Hn; by right]. exfalso. apply Hnotin. rewrite <- Heq. by apply list_elem_of_fmap_2. }
    { cbn in Hlen. lia. }
    exists (calls ++ calls'), c2. split.
    + destruct (record_line e ++ mjoin (record_line <$> es)) as [|b l] eqn:Hfile; [rewrite Hbody in Hfile; by destruct (record_body e)|].
      cbn [load_loop]. rewrite <- Hfile, Hbody, <- app_assoc. cbn [app]. rewrite fgets_line; [|done|].
      * rewrite <- Hbody, Hload. cbn [mbind option_bind]. rewrite Hload2. done.
      * pose proof (pr_length e He) as Hl. rewrite Hbody, length_app in Hl. cbn [length] in Hl. lia.
    + split; [done|]. intros k. destruct (Hl2 k) as [Hin Hout]. split.
      * intros x [->|Hx]%elem_of_cons Hk; [|by apply Hin]. subst k. rewrite Hout by done. rewrite Hl1. by rewrite decide_True.
      * cbn. intros [Hne Hk]%not_elem_of_cons. rewrite Hout by done. rewrite Hl1. by rewrite decide_False.
Qed.

Lemma record_line_nonempty e : (0 < length (record_line e))%nat.
Proof. unfold record_line. repeat (rewrite length_app; cbn [length]). lia. Qed.
Lemma join_length es : (length es <= length (mjoin (record_line <$> es)))%nat.
Proof.
  induction es as [|e es IH]; [cbn; lia|]. change (mjoin (record_line <$> e :: es)) with (record_line e ++ mjoin (record_line <$> es)).
  rewrite length_app. pose proof (record_line_nonempty e). cbn [length]. lia.
Qed.

(** C27: A snapshot of entries whose names avoid the separators and whose texts have no
    newline restores every key's current value into an empty center, where its version
    starts again from 1; the history, the encryption mark and the gray releases are
    lost. *)
Theorem cc_snapshot_roundtrip center now : wf center -> Forall printable (all_entries center) ->
  exists calls center', cc_snapshot_load cc_center_create (cc_snapshot_save center) now = Some (calls, center') /\ wf center' /\
    forall k, lookup center' k = (fun e => new_entry k.1.1 k.1.2 k.2 (value e) now) <$> lookup center k.
Proof.
  intros Hwf Hall. destruct (load_lines (all_entries center) (length (cc_snapshot_save center)) cc_center_create now Hall (all_entries_nodup center Hwf) create_wf
    (fun e _ => lookup_create _) (join_length _)) as (calls & c & Hload & Hwf' & Hl).
  exists calls, c. split; [exact Hload|]. split; [done|]. intros k. destruct (Hl k) as [Hin Hout]. destruct (lookup center k) as [e|] eqn:Hk.
  - apply lookup_entries in Hk as [He Hke]; [|done]. rewrite (Hin e He Hke). subst k. done.
  - rewrite Hout; [by rewrite lookup_create|]. intros (e & Hke & He)%list_elem_of_fmap.
    assert (lookup center k = Some e) by (apply lookup_entries; done). congruence.
Qed.

Definition sample_center : cc_config_center :=
  (run cc_center_create [Put (str_bytes "ns", str_bytes "g", str_bytes "k") (str_bytes "a") 1; Put (str_bytes "ns", str_bytes "g", str_bytes "k") (str_bytes "b|c:d") 2]).2.
Lemma cc_snapshot_roundtrip_witness :
  cc_snapshot_save sample_center = str_bytes "ns:g:k=2|5:b|c:d" ++ [10] /\
  exists calls center', cc_snapshot_load cc_center_create (cc_snapshot_save sample_center) 9 = Some (calls, center') /\ wf center' /\
    forall k, lookup center' k = (fun e => new_entry k.1.1 k.1.2 k.2 (value e) 9) <$> lookup sample_center k.
Proof.
  split; [vm_compute; reflexivity|]. apply cc_snapshot_roundtrip.
  - pose proof (put_spec cc_center_create (str_bytes "ns", str_bytes "g", str_bytes "k") (str_bytes "a") 1 create_wf) as H1.
    unfold sample_center. cbn [run step]. destruct (put cc_center_create _ _ 1) as [[rc calls] c1]. destruct H1 as (_ & _ & Hwf1 & _); [unfold short; vm_compute; lia|].
    pose proof (put_spec c1 (str_bytes "ns", str_bytes "g", str_bytes "k") (str_bytes "b|c:d") 2 Hwf1) as H2.
    destruct (put c1 _ _ 2) as [[rc2 calls2] c2]. destruct H2 as (_ & _ & Hwf2 & _); [unfold short; vm_compute; lia|]. exact Hwf2.
  - assert (He : all_entries sample_center = [mk_entry (str_bytes "k") (str_bytes "b|c:d") 2 1 2 (str_bytes "ns") (str_bytes "g") CC_ENC_NONE [mk_version 1 (str_bytes "a") 1] None])
      by (vm_compute; reflexivity). rewrite He. constructor; [|constructor]. split.
    + unfold short. vm_compute. lia.
    + unfold char_ok. repeat constructor.
    + apply (bool_decide_unpack _). vm_compute. exact I.
    + apply (bool_decide_unpack _). vm_compute. exact I.
    + apply (bool_decide_unpack _). vm_compute. exact I.
    + cbn. lia.
    + pose proof line_size_value. set (n := length _). assert (n = 17%nat) by (vm_compute; reflexivity). lia.
Defined.

(** ** Encryption *)

Lemma xor_twice v k : k <> [] -> exists enc, cc_xor_crypt v k = Some enc /\ length enc = length v /\
  (forall i c x, v !! i = Some c -> k !! (i mod length k)%nat = Some x -> enc !! i = Some (Z.lxor c x)) /\
  forall n, cc_xor_crypt (take n enc) k = Some (take n v).
Proof.
  intros Hk. assert (Hlen : length k <> 0%nat) by (by destruct k).
  set (f := fun (i : nat) (c : Z) => Z.lxor c (nth (i mod length k) k 0)).
  assert (Hcrypt : forall l, cc_xor_crypt l k = Some (imap f l)) by (intros [|c l]; [done|]; unfold cc_xor_crypt; by destruct k).
  exists (imap f v). split; [apply Hcrypt|]. split; [apply length_imap|]. split.
  - intros i c x Hc Hx. rewrite list_lookup_imap, Hc. cbn. unfold f. by rewrite (nth_lookup_Some _ _ _ _ Hx).
  - intros n. rewrite Hcrypt. f_equal. apply list_eq. intros i. rewrite list_lookup_imap. destruct (decide (i < n)%nat) as [Hi|Hi].
    + rewrite !lookup_take_lt by done. rewrite list_lookup_imap. destruct (v !! i) as [c|]; [|done]. cbn. unfold f. by rewrite Z.lxor_assoc, Z.lxor_nilpotent, Z.lxor_0_r.
    + rewrite !lookup_take_ge by lia. done.
Qed.

Lemma cstr_prefix_zero l i : l !! i = Some 0 -> (length (cstr l) <= i)%nat.
Proof.
  revert i. induction l as [|c l IH]; intros [|i]; cbn [cstr lookup list_lookup]; [done|done|by intros [= ->]|]. intros Hi. destruct (c =? 0); cbn; [lia|]. specialize (IH i Hi). lia.
Qed.

Lemma byte_lxor a b : byte_ok a -> byte_ok b -> byte_ok (Z.lxor a b).
Proof.
  unfold byte_ok. intros Ha Hb. assert (Hm : Z.lxor a b mod 2 ^ 8 = Z.lxor a b).
  { apply Z.bits_inj'. intros i Hi. destruct (decide (i < 8)); [by rewrite Z.mod_pow2_bits_low|]. rewrite Z.mod_pow2_bits_high by lia. symmetry. rewrite Z.lxor_spec.
    rewrite <- (Z.mod_small a (2 ^ 8)), <- (Z.mod_small b (2 ^ 8)) by lia. by rewrite !Z.mod_pow2_bits_high by lia. }
  rewrite <- Hm. apply Z.mod_pos_bound. lia.
Qed.

(** An encrypted value is read back, as far as the buffer goes, if no byte of it equals
    the byte of the key it is combined with. *)
Theorem cc_encrypted_roundtrip center k v enc_key now out_size : wf center -> short k -> enc_key <> [] -> Forall byte_ok v -> Forall byte_ok enc_key -> (0 < out_size)%nat ->
  (forall i c x, v !! i = Some c -> enc_key !! (i mod length enc_key)%nat = Some x -> c <> x) ->
  exists calls center', cc_config_put_encrypted center k.1.1 k.1.2 k.2 v enc_key now = Some (0, calls, center') /\
    cc_config_get_decrypted center' k.1.1 k.1.2 k.2 out_size enc_key = Some (Some (take (out_size - 1) v)).
Proof.
  intros Hwf Hs Hk Hv Hkb Hout Hdiff. destruct (xor_twice v enc_key Hk) as (enc & Henc & Hlen & Hat & Hback).
  assert (Hc : cstr enc = enc).
  { apply cstr_id. apply Forall_lookup. intros i b Hb. assert (Hi : (i < length v)%nat) by (rewrite <- Hlen; by eapply lookup_lt_Some).
    apply lookup_lt_is_Some in Hi as [c Hc]. assert (Hm : (i mod length enc_key < length enc_key)%nat) by (apply Nat.mod_upper_bound; by destruct enc_key).
    apply lookup_lt_is_Some in Hm as [x Hx]. rewrite (Hat i c x Hc Hx) in Hb. injection Hb as <-. rewrite Forall_lookup in Hv, Hkb. pose proof (Hv i c Hc) as [Hc1 Hc2]. pose proof (Hkb _ x Hx) as [Hx1 Hx2].
    unfold char_ok. assert (Z.lxor c x <> 0) by (rewrite Z.lxor_eq_0_iff; by apply (Hdiff i)).
    pose proof (byte_lxor c x (conj Hc1 Hc2) (conj Hx1 Hx2)) as Hb. unfold byte_ok in Hb.
    lia. }
  unfold cc_config_put_encrypted. rewrite Henc. cbn [mbind option_bind]. rewrite Hc. pose proof (put_spec center k enc now Hwf Hs) as Hp. unfold put in Hp.
  destruct (cc_config_put center _ _ _ enc now) as [[r calls] c1]. destruct Hp as (-> & _ & Hwf1 & Hl). specialize (Hl k) as Hlk. rewrite decide_True in Hlk by done.
  fold (found' c1 k). unfold lookup at 1 in Hlk. destruct (found' c1 k) as [[p e]|] eqn:Hf; [|done]. cbn in Hlk. injection Hlk as He.
  assert (Hval : value e = enc) by (rewrite He; by destruct (lookup center k)).
  assert (Hkey : entry_key e = k) by (apply (lookup_key c1 k e Hwf1), (found_lookup _ _ p), Hf).
  match goal with |- context [set_entry p ?E c1] => set (e2 := E) end.
  destruct (set_entry_spec c1 k p e e2 Hwf1 Hf Hkey) as [_ Hl2]. do 2 eexists. split; [done|].
  specialize (Hl2 k). rewrite decide_True in Hl2 by done. unfold cc_config_get_decrypted. fold (found' (set_entry p e2 c1) k).
  unfold lookup in Hl2. destruct (found' (set_entry p e2 c1) k) as [[p' e']|]; [|done].
  cbn [fmap option_fmap option_map snd] in Hl2. apply (inj Some) in Hl2 as ->. rewrite (proj2 (Nat.eqb_neq _ _)) by lia.
  replace (value e2) with enc by (symmetry; exact Hval). by rewrite Hback.
Qed.

(** ** Behaviours found *)

(** A byte of the value that equals its byte of the key ends the encrypted value. *)
Example encryption_truncates :
  let k := (str_bytes "ns", str_bytes "g", str_bytes "k") in
  ('(_, _, c) ← cc_config_put_encrypted cc_center_create k.1.1 k.1.2 k.2 (str_bytes "password") (str_bytes "xxsx") 0;
   cc_config_get_decrypted c k.1.1 k.1.2 k.2 100 (str_bytes "xxsx")) = Some (Some (str_bytes "pa")).
Proof. vm_compute. reflexivity. Qed.
(** An entry once encrypted stays marked so when a plain value is put. *)
Example encryption_mark_stays :
  let k := (str_bytes "ns", str_bytes "g", str_bytes "k") in
  ('(_, _, c) ← cc_config_put_encrypted cc_center_create k.1.1 k.1.2 k.2 (str_bytes "a") (str_bytes "x") 0;
   '(_, _, c) ← Some (cc_config_put c k.1.1 k.1.2 k.2 (str_bytes "plain") 1);
   e ← cc_config_get c k.1.1 k.1.2 k.2; Some (c_value e, c_encrypt e)) = Some (str_bytes "plain", CC_ENC_AES).
Proof. vm_compute. reflexivity. Qed.
(** A key of 128 bytes or more is cut when it is stored, and cannot be found again. *)
Example long_key_lost : let k := replicate 128 97 in
  let '(rc, _, c) := cc_config_put cc_center_create [] [] k [1] 0 in rc = 0 /\ cc_config_get c [] [] k = None.
Proof. vm_compute. done. Qed.
(** A newline in a value cuts it in the snapshot. *)
Example snapshot_newline :
  let '(_, _, c) := cc_config_put cc_center_create (str_bytes "n") (str_bytes "g") (str_bytes "k") [97; 10; 98] 0 in
  ('(_, c') ← cc_snapshot_load cc_center_create (cc_snapshot_save c) 0; c_value <$> cc_config_get c' (str_bytes "n") (str_bytes "g") (str_bytes "k")) = Some [97].
Proof. vm_compute. reflexivity. Qed.
