(* ===== verification/InfraBreaker.v ===== *)
(** Model of [mini-business-infra/src/circuit_breaker.c]: a breaker that opens on the
    failures of a rolling window, and the theorems on it.

    [W] is the state of whatever the guarded function works on; the function gives its
    result and that state.  The readings of the clock are arguments, in the order in
    which the code takes them.  The callback is told of state changes in [notified]
    and does not call the breaker.  Allocation succeeds. *)

From S2P Require Import Prelude Bytes.

Definition CB_MAX_NAME_LEN : nat := 64.
Definition CB_DEFAULT_FAILURES : Z := 5.
Definition CB_DEFAULT_TIMEOUT_MS : Z := 30000.
Definition CB_DEFAULT_SUCCESSES : Z := 3.
Definition CB_DEFAULT_HALF_MAX : Z := 3.

Inductive cb_state_t := CB_CLOSED | CB_OPEN | CB_HALF_OPEN.
#[export] Instance cb_state_eq_dec : EqDecision cb_state_t.
Proof. solve_decision. Defined.
Record cb_stats_t := mk_stats {
  total_calls : Z; total_successes : Z; total_failures : Z; total_timeouts : Z; total_fast_fails : Z; last_failure_time : Z; last_success_time : Z;
  opened_at : Z; last_state_change : Z;
}.
Record cb_config_t := mk_config {
  cb_name : list Z; failure_threshold : Z; success_threshold : Z; timeout_ms : Z; half_open_max_requests : Z; sliding_window_size : Z; sliding_window_time_ms : Z;
}.
Record cb_window_entry_t := mk_window_entry { timestamp_ms : Z; failed : bool }.
Record cb_circuit_breaker := mk_breaker {
  config : cb_config_t; state : cb_state_t; consecutive_failures : Z; consecutive_successes : Z; last_transition_time : Z; stats : cb_stats_t;
  on_change : bool; window : list cb_window_entry_t; window_pos : nat; window_filled : bool; notified : list (cb_state_t * cb_state_t);
}.
(** The readings of a call, in their order. *)
Record readings := mk_readings { t_now : Z; t_probe : Z; t_start : Z; t_end : Z; t_record : Z; t_window : Z; t_change : Z }.

Definition no_stats : cb_stats_t := mk_stats 0 0 0 0 0 0 0 0 0.
Definition no_entry : cb_window_entry_t := mk_window_entry 0 false.
Definition or_default (x d : Z) : Z := if x <=? 0 then d else x.
(** [ptr_name] is "cb-" and the address. *)
Definition cb_create (c : cb_config_t) (ptr_name : list Z) (now : Z) : cb_circuit_breaker :=
  let cfg := mk_config (match cb_name c with [] => truncated CB_MAX_NAME_LEN ptr_name | n => n end) (or_default (failure_threshold c) CB_DEFAULT_FAILURES)
               (or_default (success_threshold c) CB_DEFAULT_SUCCESSES) (or_default (timeout_ms c) CB_DEFAULT_TIMEOUT_MS)
               (or_default (half_open_max_requests c) CB_DEFAULT_HALF_MAX) (or_default (sliding_window_size c) 100) (or_default (sliding_window_time_ms c) 60000) in
  mk_breaker cfg CB_CLOSED 0 0 now no_stats false (replicate (Z.to_nat (sliding_window_size cfg)) no_entry) 0 false [].

Definition window_size (cb : cb_circuit_breaker) : nat := Z.to_nat (sliding_window_size (config cb)).
Definition cb_window_failures (cb : cb_circuit_breaker) (now : Z) : Z :=
  let cutoff := now - sliding_window_time_ms (config cb) in
  let count := if window_filled cb then window_size cb else window_pos cb in
  Z.of_nat (count_if (fun e => (cutoff <=? timestamp_ms e) && failed e) (take count (window cb))).
Definition cb_window_record (cb : cb_circuit_breaker) (f : bool) (now : Z) : cb_circuit_breaker :=
  let cb := cb <| window ::= <[window_pos cb := mk_window_entry now f]> |> <| window_pos ::= S |> in
  if (window_size cb <=? window_pos cb)%nat then cb <| window_pos := O |> <| window_filled := true |> else cb.

Definition cb_transition (cb : cb_circuit_breaker) (new_state : cb_state_t) (now : Z) : cb_circuit_breaker :=
  let old := state cb in
  if bool_decide (old = new_state) then cb
  else
    let cb := cb <| state := new_state |> <| last_transition_time := now |> <| stats ::= set last_state_change (fun _ => now) |>
                 <| consecutive_failures := 0 |> <| consecutive_successes := 0 |> in
    let cb := if bool_decide (new_state = CB_OPEN) then cb <| stats ::= set opened_at (fun _ => now) |> else cb in
    if on_change cb then cb <| notified ::= fun l => l ++ [(old, new_state)] |> else cb.

Definition fast_fail (cb : cb_circuit_breaker) : cb_circuit_breaker := cb <| stats ::= set total_fast_fails (Z.add 1) |>.
(** After a failed call. *)
Definition on_failure (cb : cb_circuit_breaker) (timed_out : bool) (r : readings) : cb_circuit_breaker :=
  let cb := cb <| stats ::= fun s => s <| total_failures ::= Z.add 1 |> <| last_failure_time := t_now r |> |> in
  let cb := if timed_out then cb <| stats ::= set total_timeouts (Z.add 1) |> else cb in
  let cb := cb <| consecutive_failures ::= Z.add 1 |> <| consecutive_successes := 0 |> in
  match state cb with
  | CB_HALF_OPEN => cb_transition cb CB_OPEN (t_change r)
  | CB_CLOSED => if failure_threshold (config cb) <=? cb_window_failures cb (t_window r) then cb_transition cb CB_OPEN (t_change r) else cb
  | CB_OPEN => cb
  end.
Definition on_success (cb : cb_circuit_breaker) (r : readings) : cb_circuit_breaker :=
  let cb := cb <| stats ::= fun s => s <| total_successes ::= Z.add 1 |> <| last_success_time := t_now r |> |> <| consecutive_successes ::= Z.add 1 |> <| consecutive_failures := 0 |> in
  if bool_decide (state cb = CB_HALF_OPEN) && (success_threshold (config cb) <=? consecutive_successes cb) then cb_transition cb CB_CLOSED (t_change r) else cb.

Section call.
Context {W : Type}.
(** The call itself, once it is admitted. *)
Definition execute_call (cb : cb_circuit_breaker) (fn : W -> Z * W) (w : W) (timeout : Z) (r : readings) : Z * W * cb_circuit_breaker :=
  let '(result, w) := fn w in
  let timed_out := (0 <? timeout) && (timeout <? t_end r - t_start r) in
  let bad := negb (result =? 0) || timed_out in
  let cb := cb_window_record cb bad (t_record r) in
  (result, w, if bad then on_failure cb timed_out r else on_success cb r).
Definition cb_call (cb : cb_circuit_breaker) (fn : W -> Z * W) (w : W) (timeout : Z) (r : readings) : Z * W * cb_circuit_breaker :=
  let cb := cb <| stats ::= set total_calls (Z.add 1) |> in
  let half_open_or_closed cb :=
    if bool_decide (state cb = CB_HALF_OPEN) && (half_open_max_requests (config cb) <=? consecutive_successes cb + consecutive_failures cb) then (-1, w, fast_fail cb)
    else execute_call cb fn w timeout r in
  if bool_decide (state cb = CB_OPEN) then
    if timeout_ms (config cb) <=? t_now r - last_transition_time cb then half_open_or_closed (cb_transition cb CB_HALF_OPEN (t_probe r))
    else (-1, w, fast_fail cb)
  else half_open_or_closed cb.
(** The elapsed time is computed but not used. *)
Definition cb_half_open_probe (cb : cb_circuit_breaker) (fn : W -> Z * W) (w : W) (timeout t_force : Z) (r : readings) : Z * W * cb_circuit_breaker :=
  if bool_decide (state cb = CB_OPEN) then cb_call (cb_transition cb CB_HALF_OPEN t_force) fn w timeout r else cb_call cb fn w timeout r.
End call.

Definition cb_get_state (cb : cb_circuit_breaker) (now : Z) : cb_state_t :=
  if bool_decide (state cb = CB_OPEN) && (timeout_ms (config cb) <=? now - last_transition_time cb) then CB_HALF_OPEN else state cb.
Definition cb_get_stats (cb : cb_circuit_breaker) : cb_stats_t := stats cb.
Definition cb_reset (cb : cb_circuit_breaker) (now : Z) : cb_circuit_breaker :=
  cb_transition (cb <| consecutive_failures := 0 |> <| consecutive_successes := 0 |> <| stats := no_stats |>
                    <| window := replicate (window_size cb) no_entry |> <| window_pos := O |> <| window_filled := false |>) CB_CLOSED now.
Definition cb_set_state_change_callback (cb : cb_circuit_breaker) (on : bool) : cb_circuit_breaker := cb <| on_change := on |>.

(** ** The window holds the last calls *)

(** [h]: the calls recorded, newest first. *)
Record window_of (cb : cb_circuit_breaker) (h : list cb_window_entry_t) : Prop := {
  wo_size : (0 < window_size cb)%nat;
  wo_length : length (window cb) = window_size cb;
  wo_pos : window_pos cb = (length h mod window_size cb)%nat;
  wo_filled : window_filled cb = bool_decide (window_size cb <= length h)%nat;
  wo_slots : forall j e, (j < window_size cb)%nat -> h !! j = Some e -> window cb !! ((length h - 1 - j) mod window_size cb)%nat = Some e;
}.

Lemma window_same cb cb' h : config cb' = config cb -> window cb' = window cb -> window_pos cb' = window_pos cb -> window_filled cb' = window_filled cb ->
  window_of cb h -> window_of cb' h.
Proof. intros Hc Hw Hp Hf [H1 H2 H3 H4 H5]. split; unfold window_size in *; rewrite ?Hc, ?Hw, ?Hp, ?Hf; done. Qed.

Lemma window_empty cb : (0 < window_size cb)%nat -> window cb = replicate (window_size cb) no_entry -> window_pos cb = O -> window_filled cb = false -> window_of cb [].
Proof.
  intros Hn Hw Hp Hf. split; try done; cbn.
  - by rewrite Hw, length_replicate.
  - by rewrite Nat.Div0.mod_0_l.
  - rewrite Hf. symmetry. apply bool_decide_eq_false. lia.
Qed.

Lemma window_record cb h f now : window_of cb h -> window_of (cb_window_record cb f now) (mk_window_entry now f :: h).
Proof.
  intros [Hn Hlen Hpos Hfill Hslots]. set (n := window_size cb) in *. assert (Hlt : (window_pos cb < n)%nat) by (rewrite Hpos; apply Nat.mod_upper_bound; lia).
  assert (Hpos' : (length (mk_window_entry now f :: h) mod n = if n <=? S (window_pos cb) then 0 else S (window_pos cb))%nat).
  { cbn [length]. rewrite <- Nat.add_1_r, Nat.Div0.add_mod, <- Hpos. destruct (decide (n = 1)%nat) as [->|Hn1].
    - rewrite Nat.mod_1_r. destruct (Nat.leb_spec 1 (S (window_pos cb))); [done|lia].
    - rewrite (Nat.mod_small 1) by lia. destruct (Nat.leb_spec n (S (window_pos cb))).
      + replace (window_pos cb + 1)%nat with n by lia. apply Nat.Div0.mod_same.
      + rewrite Nat.mod_small; lia. }
  set (cb1 := cb <| window ::= <[window_pos cb := mk_window_entry now f]> |> <| window_pos ::= S |>).
  assert (Hcb : cb_window_record cb f now = if (n <=? S (window_pos cb))%nat then cb1 <| window_pos := O |> <| window_filled := true |> else cb1) by done.
  assert (Hw : window (cb_window_record cb f now) = <[window_pos cb := mk_window_entry now f]> (window cb)) by (rewrite Hcb; by destruct (_ <=? _)%nat).
  assert (Hs : window_size (cb_window_record cb f now) = n) by (rewrite Hcb; by destruct (_ <=? _)%nat).
  split; rewrite ?Hs, ?Hw; try done.
  - by rewrite length_insert.
  - rewrite Hpos', Hcb. by destruct (_ <=? _)%nat.
  - rewrite Hcb. destruct (Nat.leb_spec n (S (window_pos cb))); cbn [window_filled length].
    + symmetry. apply bool_decide_eq_true. pose proof (Nat.Div0.mod_le (length h) n). lia.
    + change (window_filled cb1) with (window_filled cb). rewrite Hfill. apply bool_decide_ext. cbn [length]. split; [lia|]. intros Hle.
      destruct (decide (length h = n - 1)%nat); [|lia]. rewrite Hpos, Nat.mod_small in H by lia. lia.
  - intros j e Hj He. destruct j as [|j]; cbn [lookup list_lookup length] in He |- *.
    + injection He as <-. replace (S (length h) - 1 - 0)%nat with (length h) by lia. rewrite <- Hpos. apply list_lookup_insert_eq. lia.
    + replace (S (length h) - 1 - S j)%nat with (length h - 1 - j)%nat by lia. assert (Hjh : (j < length h)%nat) by (by eapply lookup_lt_Some).
      rewrite list_lookup_insert_ne; [apply Hslots; [lia|done]|]. rewrite Hpos. intros Heq. symmetry in Heq. revert Heq. apply ring_distinct; lia.
Qed.

(** Where the call [j] back is kept, and which call the slot [i] keeps. *)
Lemma window_take cb h : window_of cb h ->
  take (if window_filled cb then window_size cb else window_pos cb) (window cb) ≡ₚ take (window_size cb) h.
Proof.
  intros [Hn Hlen Hpos Hfill Hslots]. set (n := window_size cb) in *. rewrite Hfill. destruct (decide (n <= length h)%nat) as [Hle|Hgt].
  - rewrite bool_decide_true by done. rewrite take_ge by lia.
    assert (Hall : forall j, (j < n)%nat -> window cb !! ((length h - 1 - j) mod n)%nat = h !! j).
    { intros j Hj. assert (is_Some (h !! j)) as [e He] by (apply lookup_lt_is_Some; lia). rewrite He. by apply Hslots. }
    assert (Hperm : window cb ≡ₚ omap (fun j => window cb !! j) ((fun j => (length h - 1 - j) mod n)%nat <$> seq 0 n)).
    { transitivity (omap (fun j => window cb !! j) (seq 0 n)).
      - rewrite <- Hlen. clear. induction (window cb) as [|e l IH] using rev_ind; [done|]. rewrite length_app. cbn [length]. rewrite Nat.add_1_r, seq_S, omap_app. cbn.
        rewrite lookup_app_r, Nat.sub_diag by lia. cbn. apply Permutation_app_tail. etransitivity; [exact IH|]. apply reflexive_eq.
        apply list_omap_ext. apply Forall2_same_length_lookup_2; [done|]. intros i x y Hx Hy. rewrite Hx in Hy. injection Hy as <-. apply lookup_seq in Hx as [-> Hi]. by rewrite lookup_app_l.
      - apply omap_Permutation. symmetry. apply submseteq_length_Permutation; [|by rewrite length_fmap]. apply NoDup_submseteq.
        + apply NoDup_fmap_2_strong; [|apply NoDup_seq]. intros a b [_ Ha]%elem_of_seq [_ Hb]%elem_of_seq Heq. destruct (decide (a = b)) as [|Hab]; [done|exfalso].
          destruct (decide (a < b)%nat); [apply (ring_distinct n (length h - 1 - b) (length h - 1 - a)); [lia|done]|apply (ring_distinct n (length h - 1 - a) (length h - 1 - b)); [lia|done]].
        + intros x (j & -> & _)%list_elem_of_fmap. apply elem_of_seq. pose proof (Nat.mod_upper_bound (length h - 1 - j) n ltac:(lia)). lia. }
    etransitivity; [exact Hperm|]. apply reflexive_eq.
    assert (Hgen : forall k, (k <= n)%nat -> omap (fun j => window cb !! j) ((fun j => (length h - 1 - j) mod n)%nat <$> seq 0 k) = take k h).
    { induction k as [|k IH]; intros Hk; [done|]. rewrite seq_S, fmap_app, omap_app, IH by lia. cbn. rewrite Hall by lia.
      assert (is_Some (h !! k)) as [e He] by (apply lookup_lt_is_Some; lia). rewrite He. by erewrite take_S_r. }
    by apply Hgen.
  - rewrite bool_decide_false by done. rewrite Hpos, Nat.mod_small by lia. rewrite (take_ge h) by lia.
    assert (Heq : take (length h) (window cb) = reverse h); [|by rewrite Heq, reverse_Permutation].
    apply list_eq. intros i. destruct (decide (i < length h)%nat) as [Hi|Hi].
    + rewrite lookup_take_lt by done. rewrite reverse_lookup by done. assert (is_Some (h !! (length h - S i)%nat)) as [e He] by (apply lookup_lt_is_Some; lia). rewrite He.
      specialize (Hslots (length h - S i)%nat e ltac:(lia) He). replace (length h - 1 - (length h - S i))%nat with i in Hslots by lia. rewrite Nat.mod_small in Hslots by lia. done.
    + rewrite lookup_take_ge by lia. symmetry. apply lookup_ge_None_2. rewrite length_reverse. lia.
Qed.

(** Failures among the last calls and not too old. *)
Definition recent_failures (cb : cb_circuit_breaker) (h : list cb_window_entry_t) (now : Z) : Z :=
  Z.of_nat (count_if (fun e => (now - sliding_window_time_ms (config cb) <=? timestamp_ms e) && failed e) (take (window_size cb) h)).
Lemma window_failures cb h now : window_of cb h -> cb_window_failures cb now = recent_failures cb h now.
Proof. intros Hw. unfold cb_window_failures, recent_failures, count_if. by rewrite (filter_bool_Permutation _ _ _ (window_take cb h Hw)). Qed.

(** ** What a call does *)

Definition well_configured (cb : cb_circuit_breaker) : Prop := 0 < half_open_max_requests (config cb) /\ 0 < success_threshold (config cb).
(** Whether the function is called. *)
Definition admitted (cb : cb_circuit_breaker) (r : readings) : bool :=
  match state cb with
  | CB_CLOSED => true
  | CB_OPEN => timeout_ms (config cb) <=? t_now r - last_transition_time cb
  | CB_HALF_OPEN => consecutive_successes cb + consecutive_failures cb <? half_open_max_requests (config cb)
  end.
Definition call_fails (result timeout : Z) (r : readings) : bool := negb (result =? 0) || (0 <? timeout) && (timeout <? t_end r - t_start r).
Definition entry_of (result timeout : Z) (r : readings) : cb_window_entry_t := mk_window_entry (t_record r) (call_fails result timeout r).
(** The state after a call with this outcome, [h] being the calls before. *)
Definition next_state (cb : cb_circuit_breaker) (h : list cb_window_entry_t) (result timeout : Z) (r : readings) : cb_state_t :=
  let bad := call_fails result timeout r in
  match state cb with
  | CB_CLOSED => if bad && (failure_threshold (config cb) <=? recent_failures cb (entry_of result timeout r :: h) (t_window r)) then CB_OPEN else CB_CLOSED
  | CB_OPEN => if bad then CB_OPEN else if success_threshold (config cb) <=? 1 then CB_CLOSED else CB_HALF_OPEN
  | CB_HALF_OPEN => if bad then CB_OPEN else if success_threshold (config cb) <=? consecutive_successes cb + 1 then CB_CLOSED else CB_HALF_OPEN
  end.

Lemma transition_fields cb s now : let cb' := cb_transition cb s now in
  config cb' = config cb /\ state cb' = s /\ window cb' = window cb /\ window_pos cb' = window_pos cb /\ window_filled cb' = window_filled cb.
Proof. unfold cb_transition. case_bool_decide as Hs; [by subst|]. destruct cb as [? ? ? ? ? ? on ? ? ? ?]. cbn. by destruct (bool_decide (s = CB_OPEN)), on. Qed.
Lemma transition_counts cb s now : state cb <> s -> consecutive_successes (cb_transition cb s now) = 0 /\ consecutive_failures (cb_transition cb s now) = 0.
Proof. intros Hs. unfold cb_transition. rewrite bool_decide_false by done. destruct cb as [? ? ? ? ? ? on ? ? ? ?]. cbn. by destruct (bool_decide (s = CB_OPEN)), on. Qed.
Lemma transition_window cb s now h : window_of cb h -> window_of (cb_transition cb s now) h.
Proof. destruct (transition_fields cb s now) as (? & _ & ? & ? & ?). by apply window_same. Qed.

Lemma record_fields cb f now : let cb' := cb_window_record cb f now in
  config cb' = config cb /\ state cb' = state cb /\ consecutive_successes cb' = consecutive_successes cb /\ consecutive_failures cb' = consecutive_failures cb.
Proof. unfold cb_window_record. cbn zeta. by destruct (_ <=? _)%nat. Qed.

Lemma execute_spec {W} cb h (fn : W -> Z * W) w timeout r : window_of cb h -> state cb <> CB_OPEN ->
  let '(result, w', cb') := execute_call cb fn w timeout r in
  (result, w') = fn w /\ config cb' = config cb /\ state cb' = next_state cb h result timeout r /\ window_of cb' (entry_of result timeout r :: h).
Proof.
  intros Hw Hs. unfold execute_call. destruct (fn w) as [result w']. fold (call_fails result timeout r). set (bad := call_fails result timeout r).
  set (cb1 := cb_window_record cb bad (t_record r)). assert (Hw1 : window_of cb1 (entry_of result timeout r :: h)) by (by apply window_record).
  destruct (record_fields cb bad (t_record r)) as (Hc1 & Hs1 & Hn1 & Hf1). fold cb1 in Hc1, Hs1, Hn1, Hf1. split; [done|].
  assert (Hlen : recent_failures cb (entry_of result timeout r :: h) (t_window r) = recent_failures cb1 (entry_of result timeout r :: h) (t_window r))
    by (unfold recent_failures, window_size; by rewrite Hc1).
  unfold next_state. fold bad. destruct bad.
  - unfold on_failure. set (timed := (0 <? timeout) && (timeout <? t_end r - t_start r)).
    match goal with |- context [state ?c] => match c with context [consecutive_failures] => set (cb2 := c) end end.
    assert (H2 : config cb2 = config cb1 /\ state cb2 = state cb1 /\ window_of cb2 (entry_of result timeout r :: h)).
    { subst cb2. destruct timed; (split; [done|]); (split; [done|]); revert Hw1; by apply window_same. }
    destruct H2 as (Hc2 & Hs2 & Hw2). rewrite Hs2, Hs1. destruct (state cb) eqn:Hst; [|done|].
    + rewrite Hlen, (window_failures cb2 _ (t_window r) Hw2), Hc2, Hc1. cbn [andb].
      assert (Hr : recent_failures cb2 (entry_of result timeout r :: h) (t_window r) = recent_failures cb1 (entry_of result timeout r :: h) (t_window r))
        by (unfold recent_failures, window_size; by rewrite Hc2). rewrite Hr.
      destruct (_ <=? _).
      * destruct (transition_fields cb2 CB_OPEN (t_change r)) as (-> & -> & _). rewrite Hc2, Hc1. split; [done|]. split; [done|]. by apply transition_window.
      * rewrite Hc2, Hc1, Hs2, Hs1. done.
    + destruct (transition_fields cb2 CB_OPEN (t_change r)) as (-> & -> & _). rewrite Hc2, Hc1. split; [done|]. split; [done|]. by apply transition_window.
  - unfold on_success. match goal with |- context [bool_decide (state ?c = CB_HALF_OPEN)] => set (cb2 := c) end.
    assert (Hw2 : window_of cb2 (entry_of result timeout r :: h)) by (revert Hw1; by apply window_same).
    assert (H2 : config cb2 = config cb1 /\ state cb2 = state cb1 /\ consecutive_successes cb2 = consecutive_successes cb1 + 1) by (split; [done|]; split; [done|]; cbn; lia).
    destruct H2 as (Hc2 & Hs2 & Hn2). rewrite Hs2, Hs1, Hc2, Hc1, Hn2, Hn1. cbn [andb]. destruct (state cb) eqn:Hst; [|done|].
    + rewrite bool_decide_false by done. cbn [andb]. rewrite Hc2, Hc1, Hs2, Hs1. done.
    + rewrite bool_decide_true by done. cbn [andb]. destruct (_ <=? _).
      * destruct (transition_fields cb2 CB_CLOSED (t_change r)) as (-> & -> & _). rewrite Hc2, Hc1. split; [done|]. split; [done|]. by apply transition_window.
      * rewrite Hc2, Hc1, Hs2, Hs1. done.
Qed.

(** [reached cb h]: the breaker has been used and has recorded the calls [h]. *)
Inductive reached : cb_circuit_breaker -> list cb_window_entry_t -> Prop :=
| reached_create c ptr_name now : reached (cb_create c ptr_name now) []
| reached_callback cb h on : reached cb h -> reached (cb_set_state_change_callback cb on) h
| reached_reset cb h now : reached cb h -> reached (cb_reset cb now) []
| reached_force cb h now : reached cb h -> reached (cb_transition cb CB_HALF_OPEN now) h
| reached_call W cb h (fn : W -> Z * W) w timeout r result w' cb' : reached cb h -> cb_call cb fn w timeout r = (result, w', cb') ->
    reached cb' (if admitted cb r then entry_of result timeout r :: h else h).

Lemma ib_call_spec {W} cb h (fn : W -> Z * W) w timeout r : well_configured cb -> window_of cb h ->
  let '(result, w', cb') := cb_call cb fn w timeout r in
  config cb' = config cb /\
  if admitted cb r then (result, w') = fn w /\ state cb' = next_state cb h result timeout r /\ window_of cb' (entry_of result timeout r :: h)
  else result = -1 /\ w' = w /\ state cb' = state cb /\ window_of cb' h.
Proof.
  intros [Hmax _] Hw. unfold cb_call, admitted. set (cb1 := cb <| stats ::= set total_calls (Z.add 1) |>).
  assert (Hw1 : window_of cb1 h) by (revert Hw; by apply window_same).
  assert (Hff : forall c, config (fast_fail c) = config c /\ state (fast_fail c) = state c) by done.
  assert (Hffw : window_of (fast_fail cb1) h) by (revert Hw1; by apply window_same).
  assert (Hn1 : forall result timeout r, next_state cb1 h result timeout r = next_state cb h result timeout r) by done.
  change (state cb1) with (state cb). change (config cb1) with (config cb). change (last_transition_time cb1) with (last_transition_time cb). change (consecutive_successes cb1) with (consecutive_successes cb). change (consecutive_failures cb1) with (consecutive_failures cb).
  destruct (state cb) eqn:Hst.
  - rewrite !bool_decide_false by done. cbn [andb]. pose proof (execute_spec cb1 h fn w timeout r Hw1) as H. destruct (execute_call cb1 fn w timeout r) as [[result w'] cb'].
    destruct H as (? & ? & ? & ?); [change (state cb1) with (state cb); congruence|]. by rewrite <- Hn1.
  - rewrite bool_decide_true by done. destruct (_ <=? _); [|done].
    set (cb2 := cb_transition cb1 CB_HALF_OPEN (t_probe r)). destruct (transition_fields cb1 CB_HALF_OPEN (t_probe r)) as (Hc2 & Hs2 & _). fold cb2 in Hc2, Hs2.
    destruct (transition_counts cb1 CB_HALF_OPEN (t_probe r)) as [Ha Hb]; [change (state cb1) with (state cb); congruence|]. fold cb2 in Ha, Hb.
    rewrite Ha, Hb, Hc2. rewrite (proj2 (Z.leb_gt _ _)) by (cbn; lia). rewrite andb_false_r.
    pose proof (execute_spec cb2 h fn w timeout r ltac:(by apply transition_window)) as H. destruct (execute_call cb2 fn w timeout r) as [[result w'] cb'].
    destruct H as (H1 & H2 & H3 & H4); [congruence|]. split; [by rewrite H2, Hc2|]. split; [done|]. split; [|done]. rewrite H3. unfold next_state. rewrite Hs2, Ha, Hc2, Hst. done.
  - rewrite bool_decide_false by done. rewrite bool_decide_true by done. cbn [andb]. rewrite Z.leb_antisym. destruct (_ <? _); cbn [negb]; [|done].
    pose proof (execute_spec cb1 h fn w timeout r Hw1) as H. destruct (execute_call cb1 fn w timeout r) as [[result w'] cb'].
    destruct H as (? & ? & ? & ?); [change (state cb1) with (state cb); congruence|]. by rewrite <- Hn1.
Qed.

Lemma reached_ok cb h : reached cb h -> well_configured cb /\ window_of cb h.
Proof.
  induction 1 as [c ptr now|cb h on _ [IH1 IH2]|cb h now _ [IH1 IH2]|cb h now _ [IH1 IH2]|W cb h fn w timeout r result w' cb' _ [IH1 IH2] Hcall].
  - assert (Hpos : forall x d, 0 < d -> 0 < or_default x d) by (intros x d Hd; unfold or_default; destruct (Z.leb_spec x 0); lia). split.
    + split; cbn; apply Hpos; vm_compute; done.
    + apply window_empty; try done. unfold window_size. cbn. specialize (Hpos (sliding_window_size c) 100). lia.
  - split; [done|]. revert IH2. by apply window_same.
  - unfold cb_reset. match goal with |- context [cb_transition ?c _ _] => set (cb1 := c) end. split.
    + unfold well_configured. destruct (transition_fields cb1 CB_CLOSED now) as (-> & _). exact IH1.
    + apply transition_window, window_empty; try done. destruct IH2. done.
  - split; [|by apply transition_window]. unfold well_configured. destruct (transition_fields cb CB_HALF_OPEN now) as (-> & _). exact IH1.
  - pose proof (ib_call_spec cb h fn w timeout r IH1 IH2) as H. rewrite Hcall in H. destruct H as [Hc H]. split; [unfold well_configured; by rewrite Hc|].
    destruct (admitted cb r); [apply H|apply H].
Qed.

(** A call of a breaker in use reaches the function exactly when it is closed, has
    been open for its timeout, or is half-open with probes left; otherwise it answers
    -1 and nothing changes.  A closed breaker opens when a call fails and the failures
    among the last calls of the window reach the threshold; a half-open one opens on
    any failure and closes after enough successes in a row. *)
Theorem ib_call_correct {W} cb h (fn : W -> Z * W) w timeout r : reached cb h ->
  let '(result, w', cb') := cb_call cb fn w timeout r in
  if admitted cb r then (result, w') = fn w /\ state cb' = next_state cb h result timeout r /\ reached cb' (entry_of result timeout r :: h)
  else result = -1 /\ w' = w /\ state cb' = state cb /\ reached cb' h.
Proof.
  intros Hr. destruct (reached_ok cb h Hr) as [Hc Hw]. pose proof (ib_call_spec cb h fn w timeout r Hc Hw) as H. destruct (cb_call cb fn w timeout r) as [[result w'] cb'] eqn:Hcall.
  pose proof (reached_call W cb h fn w timeout r result w' cb' Hr Hcall) as Hr'. destruct H as [_ H]. destruct (admitted cb r); naive_solver.
Qed.

Definition at_time (t : Z) : readings := mk_readings t t t t t t t.
Definition small_config : cb_config_t := mk_config [98] 2 2 100 2 4 1000.
Definition small_breaker : cb_circuit_breaker := cb_create small_config [] 0.
Definition calls (cb : cb_circuit_breaker) (l : list (Z * Z)) : cb_circuit_breaker :=
  foldl (fun cb '(result, t) => (cb_call cb (fun u : unit => (result, u)) tt 0 (at_time t)).2) cb l.
Lemma ib_call_correct_witness : let cb := calls small_breaker [(1, 10)] in
  reached cb [mk_window_entry 10 true] /\ state (cb_call cb (fun u : unit => (1, u)) tt 0 (at_time 20)).2 = CB_OPEN.
Proof.
  intros cb. assert (Hr : reached cb [mk_window_entry 10 true]).
  { pose proof (ib_call_correct small_breaker [] (fun u : unit => (1, u)) tt 0 (at_time 10) (reached_create small_config [] 0)) as H.
    change (admitted small_breaker (at_time 10)) with true in H. exact (proj2 (proj2 H)). }
  split; [exact Hr|]. pose proof (ib_call_correct cb _ (fun u : unit => (1, u)) tt 0 (at_time 20) Hr) as H.
  change (admitted cb (at_time 20)) with true in H. destruct (cb_call cb _ tt 0 (at_time 20)) as [[res u] cb'] eqn:Hcall. destruct H as (H1 & H2 & _). cbn [snd].
  rewrite H2. injection H1 as -> _. vm_compute. reflexivity.
Defined.

(** ** Behaviours found *)

(** With fewer probes than the successes it takes to close, a breaker that once opened
    never closes again, however many calls could succeed. *)
Lemma half_open_stuck cb h : reached cb h -> state cb = CB_HALF_OPEN -> half_open_max_requests (config cb) <= consecutive_successes cb + consecutive_failures cb ->
  forall {W} (fn : W -> Z * W) w timeout r, let '(result, w', cb') := cb_call cb fn w timeout r in result = -1 /\ w' = w /\ state cb' = CB_HALF_OPEN.
Proof.
  intros Hr Hs Hmax W fn w timeout r. destruct (reached_ok cb h Hr) as [Hc Hw]. pose proof (ib_call_spec cb h fn w timeout r Hc Hw) as H.
  destruct (cb_call cb fn w timeout r) as [[result w'] cb']. destruct H as [_ H]. unfold admitted in H. rewrite Hs in H. rewrite (proj2 (Z.ltb_ge _ _)) in H by lia. naive_solver.
Qed.
Example stuck_in_half_open : let cb := calls (cb_create (mk_config [98] 2 3 100 2 4 1000) [] 0) [(1, 10); (1, 20); (0, 200); (0, 210); (0, 10000); (0, 20000)] in
  state cb = CB_HALF_OPEN /\ consecutive_successes cb = 2 /\ total_fast_fails (stats cb) = 2.
Proof. vm_compute. done. Qed.
(** The window is not cleared when the breaker closes: one failure opens it again. *)
Example reopens_on_one_failure : let cb := calls small_breaker [(1, 10); (1, 20); (0, 130); (0, 140)] in
  state cb = CB_CLOSED /\ state (calls cb [(1, 150)]) = CB_OPEN.
Proof. vm_compute. done. Qed.
(** The threshold counts failures in the window, not consecutive ones. *)
Example opens_despite_successes : state (calls small_breaker [(1, 10); (0, 20); (0, 30); (1, 40)]) = CB_OPEN.
Proof. vm_compute. done. Qed.
