(* ===== verification/Gateway.v ===== *)
(** Model of [mini-business-infra/src/gateway_routing.c]: routes, upstreams and their
    selection, rate limiting by client, forwarding with retries and behind a circuit
    breaker ([InfraBreaker]).

    [rand()] and [time(NULL)] are arguments.  Variables that are static in the code,
    and so shared by all gateways, are [statics].  The callbacks are functions on the
    request or response and do not touch the gateway.  Weights and counts are taken
    not to overflow; allocation succeeds.  [None] stands for an access out of bounds. *)

From S2P Require Import Prelude Bytes InfraBreaker.

Definition GW_MAX_PATH_LEN : nat := 256.
Definition GW_MAX_SERVICE_LEN : nat := 64.
Definition GW_MAX_RULES : nat := Z.to_nat 1024.
#[global] Arguments GW_MAX_RULES : simpl never.
Definition GW_DEFAULT_RATE_LIMIT : Z := 1000.

Inductive gw_http_method_t := GW_METHOD_GET | GW_METHOD_POST | GW_METHOD_PUT | GW_METHOD_DELETE | GW_METHOD_ANY.
#[export] Instance gw_method_eq_dec : EqDecision gw_http_method_t.
Proof. solve_decision. Defined.
Inductive gw_lb_algorithm_t := GW_LB_ROUND_ROBIN | GW_LB_WEIGHTED | GW_LB_LEAST_CONN.
Record gw_route_rule_t := mk_rule {
  r_method : gw_http_method_t; r_path : list Z; service_name : list Z; upstream_url : list Z; strip_prefix : Z; auth_required : bool;
  rate_limit_per_sec : Z; priority : Z; enabled : bool; r_timeout_ms : Z;
}.
Record gw_upstream_t := mk_upstream { host : list Z; port : Z; weight : Z; max_connections : Z; active_connections : Z; healthy : bool }.
Record gw_request_t := mk_request { q_method : gw_http_method_t; q_path : list Z; q_headers : list (list Z * list Z); q_body : list Z; client_ip : list Z }.
(** [body] has [body_len] bytes. *)
Record gw_response_t := mk_response { status_code : Z; p_headers : list (list Z * list Z); body : list Z }.
Record gw_rl_bucket_t := mk_bucket { reset_at : Z; tokens : Z; max_tokens : Z }.
Record gw_rl_entry_t := mk_rl { rl_path : list Z; rl_buckets : list gw_rl_bucket_t; rate_limit : Z }.
(** [upstreams]: each service's name and its upstreams. *)
Record gw_gateway := mk_gateway {
  routes : list gw_route_rule_t; upstreams : list (list Z * list gw_upstream_t); auth_fn : option (gw_request_t -> Z * gw_request_t);
  transform_req : option (gw_request_t -> gw_request_t); transform_resp : option (gw_response_t -> gw_response_t); rate_limiters : list gw_rl_entry_t;
}.
Record gw_route_stats_t := mk_route_stats { s_path : list Z; request_count : Z; error_count : Z; total_latency_us : Z; last_request_time : Z }.
(** [rr] counts round robin selections, [current_weights] has 1024 elements. *)
Record statics := mk_statics { rr : Z; current_weights : list Z; gw_route_stats : list gw_route_stats_t }.
Definition initial_statics : statics := mk_statics 0 (replicate GW_MAX_RULES 0) [].

Definition gw_gateway_create : gw_gateway := mk_gateway [] [] None None None [].

(** ** Routes *)

Definition service_idx (g : gw_gateway) (name : list Z) : option nat := find_idx (fun s => bool_decide (s.1 = name)) (upstreams g).
Definition gw_route_add (g : gw_gateway) (rule : gw_route_rule_t) : option (Z * gw_gateway) :=
  if (GW_MAX_RULES <=? length (routes g))%nat then Some (-1, g)
  else
    let g := g <| routes ::= fun l => l ++ [rule] |> in
    match service_idx g (service_name rule) with
    | Some _ => Some (0, g)
    | None =>
        if (GW_MAX_RULES <=? length (upstreams g))%nat then None
        else Some (0, g <| upstreams ::= fun l => l ++ [(truncated GW_MAX_SERVICE_LEN (service_name rule), [])] |>)
    end.
Definition gw_route_remove (g : gw_gateway) (m : gw_http_method_t) (path : list Z) : Z * gw_gateway :=
  match find_idx (fun r => (bool_decide (r_method r = m) || bool_decide (r_method r = GW_METHOD_ANY)) && bool_decide (r_path r = path)) (routes g) with
  | Some i => (0, g <| routes ::= delete i |>)
  | None => (-1, g)
  end.
Definition gw_route_update (g : gw_gateway) (rule : gw_route_rule_t) : option (Z * gw_gateway) :=
  match find_idx (fun r => bool_decide (r_path r = r_path rule) && bool_decide (r_method r = r_method rule)) (routes g) with
  | Some i => Some (0, g <| routes ::= <[i := rule]> |>)
  | None => gw_route_add g rule
  end.
(** As far as the shorter of the two goes. *)
Definition path_matches (route path : list Z) : bool :=
  let n := Nat.min (length route) (length path) in bool_decide (take n route = take n path).
Definition route_applies (m : gw_http_method_t) (path : list Z) (r : gw_route_rule_t) : bool :=
  enabled r && (bool_decide (m = GW_METHOD_ANY) || bool_decide (r_method r = GW_METHOD_ANY) || bool_decide (r_method r = m)) && path_matches (r_path r) path.
Definition better (m : gw_http_method_t) (path : list Z) (best : option gw_route_rule_t) (r : gw_route_rule_t) : option gw_route_rule_t :=
  if route_applies m path r && (from_option priority (-1) best <? priority r) then Some r else best.
Definition gw_route_find (g : gw_gateway) (m : gw_http_method_t) (path : list Z) : option gw_route_rule_t := foldl (better m path) None (routes g).
Definition gw_route_list (g : gw_gateway) : list gw_route_rule_t := take GW_MAX_RULES (routes g).

(** ** Upstreams *)

Definition gw_upstream_add (g : gw_gateway) (name : list Z) (u : gw_upstream_t) : Z * gw_gateway :=
  match service_idx g name with
  | Some i => (0, g <| upstreams ::= alter (fun s => (s.1, s.2 ++ [u <| healthy := true |>])) i |>)
  | None => (-1, g)
  end.
Definition gw_upstream_remove (g : gw_gateway) (name h : list Z) (p : Z) : Z * gw_gateway :=
  match service_idx g name with
  | Some i =>
      match upstreams g !! i with
      | Some (_, us) =>
          match find_idx (fun u => bool_decide (host u = h) && (port u =? p)) us with
          | Some j => (0, g <| upstreams ::= alter (fun s => (s.1, delete j s.2)) i |>)
          | None => (-1, g)
          end
      | None => (-1, g)
      end
  | None => (-1, g)
  end.
Definition service_upstreams (g : gw_gateway) (name : list Z) : list gw_upstream_t :=
  match service_idx g name ≫= (upstreams g !!.) with Some (_, us) => us | None => [] end.

Definition total_weight (us : list gw_upstream_t) : Z := foldr (fun u n => (if healthy u then weight u else 0) + n) 0 us.
(** The first healthy one whose share of [0, total) holds [r]. *)
Fixpoint pick_weighted (us : list gw_upstream_t) (r cumulative : Z) : option gw_upstream_t :=
  match us with
  | [] => None
  | u :: us' =>
      if healthy u then let c := cumulative + weight u in if r <? c then Some u else pick_weighted us' r c
      else pick_weighted us' r cumulative
  end.
Definition less_busy (best : option gw_upstream_t * Z) (u : gw_upstream_t) : option gw_upstream_t * Z :=
  if healthy u && (active_connections u <? best.2) then (Some u, active_connections u) else best.
(** The first healthy one from [start] on, around. *)
Definition round_robin (us : list gw_upstream_t) (start : nat) : option (nat * gw_upstream_t) :=
  let n := length us in
  i ← find_idx (fun i => from_option healthy false (us !! ((start + i) mod n)%nat)) (seq 0 n);
  let idx := ((start + i) mod n)%nat in u ← us !! idx; Some (idx, u).
Definition gw_upstream_select (g : gw_gateway) (name : list Z) (algorithm : gw_lb_algorithm_t) (rand : Z) (st : statics) : option gw_upstream_t * statics :=
  match service_upstreams g name with
  | [] => (None, st)
  | us =>
      match algorithm with
      | GW_LB_WEIGHTED => (if total_weight us =? 0 then None else pick_weighted us (Z.rem rand (total_weight us)) 0, st)
      | GW_LB_LEAST_CONN => ((foldl less_busy (None, 0x7fffffff) us).1, st)
      | GW_LB_ROUND_ROBIN =>
          match round_robin us (Z.to_nat (rr st mod Z.of_nat (length us))) with
          | Some (idx, u) => (Some u, st <| rr := Z.of_nat idx + 1 |>)
          | None => (None, st)
          end
      end
  end.

(** Weights added, total, and the best so far with its weight. *)
Record swrr := mk_swrr { weights : list Z; total : Z; best : option nat; best_weight : Z }.
Definition swrr_step (acc : swrr) (x : nat * gw_upstream_t) : swrr :=
  let '(i, u) := x in
  if healthy u then
    let w := nth i (weights acc) 0 + weight u in
    let acc := acc <| weights ::= <[i := w]> |> <| total ::= Z.add (weight u) |> in
    if best_weight acc <? w then acc <| best := Some i |> <| best_weight := w |> else acc
  else acc.
(** More upstreams than [current_weights] has elements are out of bounds. *)
Definition gw_upstream_select_swrr (g : gw_gateway) (name : list Z) (st : statics) : option (option nat * statics) :=
  let us := service_upstreams g name in
  if (length (current_weights st) <? length us)%nat then None
  else
    let acc := foldl swrr_step (mk_swrr (current_weights st) 0 None (-1)) (imap pair us) in
    match best acc with
    | Some b =>
        if total acc =? 0 then Some (None, st <| current_weights := weights acc |>)
        else Some (Some b, st <| current_weights := alter (fun w => w - total acc) b (weights acc) |>)
    | None => Some (None, st <| current_weights := weights acc |>)
    end.

(** ** Rate limiting *)

Definition gw_find_rl (g : gw_gateway) (path : list Z) : option nat * gw_gateway :=
  match find_idx (fun rl => bool_decide (rl_path rl = path)) (rate_limiters g) with
  | Some i => (Some i, g)
  | None =>
      if (GW_MAX_RULES <=? length (rate_limiters g))%nat then (None, g)
      else (Some (length (rate_limiters g)), g <| rate_limiters ::= fun l => l ++ [mk_rl (truncated GW_MAX_PATH_LEN path) [] GW_DEFAULT_RATE_LIMIT] |>)
  end.
Definition ip_hash (ip : list Z) : Z := foldl (fun h c => u32 (u32 (Z.shiftl h 5) + h + c)) 5381 ip.
(** [now_new] is the time for buckets made here. *)
Definition grow_buckets (bs : list gw_rl_bucket_t) (idx : nat) (limit now_new : Z) : list gw_rl_bucket_t :=
  bs ++ replicate (S idx - length bs) (mk_bucket (now_new + 1) limit limit).
Definition take_token (b : gw_rl_bucket_t) (limit now : Z) : bool * gw_rl_bucket_t :=
  let b := if reset_at b <=? now then b <| tokens := limit |> <| reset_at := now + 1 |> else b in
  if 0 <? tokens b then (true, b <| tokens := tokens b - 1 |>) else (false, b).
Definition gw_rate_limiter_allow (g : gw_gateway) (path ip : list Z) (now_new now : Z) : bool * gw_gateway :=
  let '(oi, g) := gw_find_rl g path in
  match oi with
  | None => (true, g)
  | Some i =>
      match rate_limiters g !! i with
      | None => (true, g)
      | Some rl =>
          let limit := match gw_route_find g GW_METHOD_ANY path with Some rule => rate_limit_per_sec rule | None => rate_limit rl end in
          if limit <=? 0 then (true, g)
          else
            let idx := Z.to_nat (ip_hash ip mod 1024) in
            let bs := grow_buckets (rl_buckets rl) idx limit now_new in
            match bs !! idx with
            | Some b =>
                let '(ok, b) := take_token b limit now in
                (ok, g <| rate_limiters ::= <[i := rl <| rl_buckets := <[idx := b]> bs |>]> |>)
            | None => (true, g)
            end
      end
  end.
Definition gw_rate_limiter_reset (g : gw_gateway) (path : list Z) (now : Z) : Z * gw_gateway :=
  let '(oi, g) := gw_find_rl g path in
  match oi with
  | None => (-1, g)
  | Some i => (0, g <| rate_limiters ::= alter (fun rl => rl <| rl_buckets ::= fmap (fun b => b <| tokens := max_tokens b |> <| reset_at := now + 1 |>) |>) i |>)
  end.

Definition gw_set_auth_check (g : gw_gateway) (fn : option (gw_request_t -> Z * gw_request_t)) : gw_gateway := g <| auth_fn := fn |>.
Definition gw_set_req_transform (g : gw_gateway) (fn : option (gw_request_t -> gw_request_t)) : gw_gateway := g <| transform_req := fn |>.
Definition gw_set_resp_transform (g : gw_gateway) (fn : option (gw_response_t -> gw_response_t)) : gw_gateway := g <| transform_resp := fn |>.

(** ** Forwarding *)

Definition gw_response_init : gw_response_t := mk_response 0 [] [].
(** [rand] and the readings of the clock of one forwarding. *)
Record attempt := mk_attempt { a_rand : Z; a_now_new : Z; a_now : Z }.
(** What forwarding works on. *)
Record exchange := mk_exchange { ex_gateway : gw_gateway; ex_statics : statics; ex_request : gw_request_t; ex_response : gw_response_t }.
Definition fail_with (code : Z) (x : exchange) : Z * exchange := (-1, x <| ex_response ::= set status_code (fun _ => code) |>).
Definition gw_forward (a : attempt) (x : exchange) : Z * exchange :=
  let g := ex_gateway x in
  match gw_route_find g (q_method (ex_request x)) (q_path (ex_request x)) with
  | None => fail_with 404 x
  | Some rule =>
      let '(authorized, x) :=
        match auth_fn g with
        | Some fn => if auth_required rule then let '(rc, req) := fn (ex_request x) in (rc =? 0, x <| ex_request := req |>) else (true, x)
        | None => (true, x)
        end in
      if negb authorized then fail_with 401 x
      else
        let '(allowed, g) := gw_rate_limiter_allow g (r_path rule) (client_ip (ex_request x)) (a_now_new a) (a_now a) in
        let x := x <| ex_gateway := g |> in
        if negb allowed then fail_with 429 x
        else
          let x := match transform_req g with Some f => x <| ex_request ::= f |> | None => x end in
          let '(up, st) := gw_upstream_select g (service_name rule) GW_LB_WEIGHTED (a_rand a) (ex_statics x) in
          let x := x <| ex_statics := st |> in
          match up with
          | None => fail_with 503 x
          | Some _ =>
              let x := x <| ex_response ::= fun p => p <| status_code := 200 |> <| body := [] |> |> in
              (0, match transform_resp g with Some f => x <| ex_response ::= f |> | None => x end)
          end
  end.

(** The body gathered so far, and the gateway. *)
Fixpoint aggregate_loop (reqs : list (attempt * gw_request_t)) (g : gw_gateway) (st : statics) (gathered : list Z) : list Z * gw_gateway * statics :=
  match reqs with
  | [] => (gathered, g, st)
  | (a, req) :: reqs' =>
      let '(rc, x) := gw_forward a (mk_exchange g st req gw_response_init) in
      aggregate_loop reqs' (ex_gateway x) (ex_statics x) (if rc =? 0 then gathered ++ body (ex_response x) else gathered)
  end.
Definition gw_aggregate (g : gw_gateway) (st : statics) (reqs : list (attempt * gw_request_t)) (agg : gw_response_t) : Z * gw_response_t * gw_gateway * statics :=
  let '(gathered, g, st) := aggregate_loop reqs g st [] in
  (0, agg <| status_code := 200 |> <| body := gathered |>, g, st).

(** ** Retries *)

Inductive gw_jitter_strategy_t := GW_RETRY_JITTER_NONE | GW_RETRY_JITTER_FULL | GW_RETRY_JITTER_DECORRELATED.
Record gw_retry_policy_t := mk_policy {
  max_retries : Z; base_delay_ms : Z; max_delay_ms : Z; jitter_strategy : gw_jitter_strategy_t; retry_on_5xx : bool; retry_on_timeout : bool;
}.
(** [attempt] is below 64; products do not overflow. *)
Definition gw_compute_backoff (p : gw_retry_policy_t) (attempt : Z) (rand : Z) : Z :=
  if attempt <=? 0 then 0
  else
    let base := base_delay_ms p in
    let range := base * Z.shiftl 1 (attempt - 1) in
    s32 match jitter_strategy p with
        | GW_RETRY_JITTER_DECORRELATED =>
            let delay := base + Z.rem rand (if 0 <? range then range else 1) in if max_delay_ms p <? delay then max_delay_ms p else delay
        | GW_RETRY_JITTER_FULL =>
            let max_r := if range <? max_delay_ms p then range else max_delay_ms p in if 0 <? max_r then Z.rem rand max_r else 0
        | GW_RETRY_JITTER_NONE => if max_delay_ms p <? range then max_delay_ms p else range
        end.
(** [attempts]: for each attempt the random number of its delay, and its inputs; one
    for each of [max_retries] + 1.  The result comes with the delays slept. *)
Fixpoint retry_loop (attempts : list (Z * attempt)) (n : Z) (p : gw_retry_policy_t) (idempotent : bool) (x : exchange) : Z * list Z * exchange :=
  match attempts with
  | [] => (-1, [], x)
  | (jitter, a) :: attempts' =>
      if (0 <? n) && negb idempotent && negb (retry_on_5xx p) then (-1, [], x)
      else
        let delay := if 0 <? n then [gw_compute_backoff p n jitter] else [] in
        let '(result, x) := gw_forward a x in
        if (result =? 0) && ((status_code (ex_response x) <? 500) || negb (retry_on_5xx p)) then (0, delay, x)
        else if (result <? 0) && negb (retry_on_timeout p) then (-1, delay, x)
        else let '(rc, delays, x) := retry_loop attempts' (n + 1) p idempotent x in (rc, delay ++ delays, x)
  end.
Definition gw_forward_with_retry (attempts : list (Z * attempt)) (p : gw_retry_policy_t) (x : exchange) : Z * list Z * exchange :=
  let m := q_method (ex_request x) in
  retry_loop (take (Z.to_nat (max_retries p + 1)) attempts) 0 p (bool_decide (m = GW_METHOD_GET) || bool_decide (m = GW_METHOD_ANY)) x.

Definition gw_forward_with_circuit_breaker (a : attempt) (x : exchange) (cb : cb_circuit_breaker) (r : readings) : Z * exchange * cb_circuit_breaker :=
  cb_call cb (gw_forward a) x 5000 r.

(** ** Statistics *)

Definition gw_route_stats_record (st : statics) (path : list Z) (status latency now : Z) : statics :=
  let record s := s <| request_count ::= Z.add 1 |> <| total_latency_us ::= Z.add latency |>
                    <| error_count ::= Z.add (c_bool (400 <=? status)) |> <| last_request_time := now |> in
  match find_idx (fun s => bool_decide (s_path s = path)) (gw_route_stats st) with
  | Some i => st <| gw_route_stats ::= alter record i |>
  | None =>
      if (length (gw_route_stats st) <? GW_MAX_RULES)%nat then
        st <| gw_route_stats ::= fun l => l ++ [record (mk_route_stats (truncated GW_MAX_PATH_LEN path) 0 0 0 0)] |>
      else st
  end.
Definition gw_route_stats_get (st : statics) (path : list Z) : option gw_route_stats_t :=
  find_idx (fun s => bool_decide (s_path s = path)) (gw_route_stats st) ≫= (gw_route_stats st !!.).

(** * Properties *)



(** ** Sums *)

Fixpoint sum_to (n : nat) (f : nat -> Z) : Z := match n with O => 0 | S n' => sum_to n' f + f n' end.
Lemma sum_to_ext n f g : (forall i, (i < n)%nat -> f i = g i) -> sum_to n f = sum_to n g.
Proof. intros H. induction n as [|n IH]; cbn; [done|]. rewrite IH, H by (intros; try apply H; lia). done. Qed.
Lemma sum_to_add n f g : sum_to n (fun i => f i + g i) = sum_to n f + sum_to n g.
Proof. induction n as [|n IH]; cbn; lia. Qed.
Lemma sum_to_scale n k f : sum_to n (fun i => k * f i) = k * sum_to n f.
Proof. induction n as [|n IH]; cbn; lia. Qed.
Lemma sum_to_zero n : sum_to n (fun _ => 0) = 0.
Proof. induction n as [|n IH]; cbn; lia. Qed.
Lemma sum_to_le n f g : (forall i, (i < n)%nat -> f i <= g i) -> sum_to n f <= sum_to n g.
Proof. intros H. induction n as [|n IH]; cbn; [done|]. specialize (H n ltac:(lia)) as Hn. specialize (IH ltac:(intros; apply H; lia)). lia. Qed.
Lemma sum_to_equal n f g : (forall i, (i < n)%nat -> f i <= g i) -> sum_to n f = sum_to n g -> forall i, (i < n)%nat -> f i = g i.
Proof.
  induction n as [|n IH]; intros Hle Hs i Hi; [lia|]. cbn in Hs. pose proof (Hle n ltac:(lia)) as Hn.
  pose proof (sum_to_le n f g ltac:(intros; apply Hle; lia)) as Hsum. destruct (decide (i = n)) as [->|]; [lia|]. apply IH; [intros; apply Hle; lia|lia|lia].
Qed.
Lemma sum_to_pos n f : 0 < sum_to n f -> exists i, (i < n)%nat /\ 0 < f i.
Proof.
  induction n as [|n IH]; cbn; [lia|]. intros H. destruct (Z.ltb_spec 0 (f n)); [exists n; split; [lia|done]|]. destruct IH as (i & ? & ?); [lia|]. exists i. split; [lia|done].
Qed.
Lemma sum_to_single n b : (b < n)%nat -> sum_to n (fun i => if (i =? b)%nat then 1 else 0) = 1.
Proof.
  induction n as [|n IH]; [lia|]. intros Hb. cbn. destruct (Nat.eqb_spec n b) as [->|Hne]; [|rewrite IH; lia].
  rewrite (sum_to_ext _ _ (fun _ => 0)), sum_to_zero; [done|]. intros i Hi. destruct (Nat.eqb_spec i b); [lia|done].
Qed.

(** ** Smooth weighted round robin *)

(** What an upstream counts for: its weight while it is healthy. *)
Definition share (u : gw_upstream_t) : Z := if healthy u then weight u else 0.
Definition weight_at (us : list gw_upstream_t) (i : nat) : Z := from_option share 0 (us !! i).

Lemma nth_insert (l : list Z) i j x : (i < length l)%nat -> nth j (<[i := x]> l) 0 = if (j =? i)%nat then x else nth j l 0.
Proof.
  intros Hi. rewrite !nth_lookup. destruct (Nat.eqb_spec j i) as [->|Hne]; [by rewrite list_lookup_insert_eq|by rewrite list_lookup_insert_ne].
Qed.
Lemma nth_alter (l : list Z) i j f : (i < length l)%nat -> nth j (alter f i l) 0 = if (j =? i)%nat then f (nth i l 0) else nth j l 0.
Proof.
  intros Hi. rewrite !nth_lookup. destruct (Nat.eqb_spec j i) as [->|Hne]; [|by rewrite list_lookup_alter_ne].
  apply lookup_lt_is_Some in Hi as [x Hx]. by rewrite list_lookup_alter_eq, Hx.
Qed.

Record folded (us : list gw_upstream_t) (cur : list Z) (acc : swrr) : Prop := {
  fo_length : length (weights acc) = length cur;
  fo_weights : forall i, nth i (weights acc) 0 = nth i cur 0 + weight_at us i;
  fo_total : total acc = sum_to (length us) (weight_at us);
  fo_best : match best acc with Some b => (b < length us)%nat /\ nth b (weights acc) 0 = best_weight acc | None => best_weight acc = -1 end;
  fo_max : forall i u, us !! i = Some u -> healthy u = true -> nth i (weights acc) 0 <= best_weight acc;
}.

Lemma weight_at_snoc us u i : weight_at (us ++ [u]) i = weight_at us i + (if (i =? length us)%nat then share u else 0).
Proof.
  unfold weight_at. destruct (Nat.eqb_spec i (length us)) as [->|Hne]; [rewrite lookup_app_r, Nat.sub_diag by lia; rewrite (lookup_ge_None_2 us) by lia; cbn; lia|].
  destruct (decide (i < length us)%nat); [rewrite lookup_app_l by done; lia|]. rewrite !lookup_ge_None_2 by (rewrite ?length_app; cbn; lia). cbn. lia.
Qed.
Lemma weights_snoc us u : sum_to (length (us ++ [u])) (weight_at (us ++ [u])) = sum_to (length us) (weight_at us) + share u.
Proof.
  rewrite length_app. cbn [length]. rewrite Nat.add_1_r. cbn [sum_to]. rewrite weight_at_snoc, Nat.eqb_refl. unfold weight_at at 2. rewrite (lookup_ge_None_2 us) by lia.
  rewrite (sum_to_ext _ (weight_at (us ++ [u])) (weight_at us)); [cbn; lia|]. intros i Hi. rewrite weight_at_snoc. destruct (Nat.eqb_spec i (length us)); lia.
Qed.

Lemma fold_swrr us cur : (length us <= length cur)%nat -> folded us cur (foldl swrr_step (mk_swrr cur 0 None (-1)) (imap pair us)).
Proof.
  induction us as [|u us IH] using rev_ind; intros Hlen.
  - split; cbn; try done. intros. unfold weight_at. rewrite lookup_nil. cbn. lia.
  - rewrite length_app in Hlen. cbn [length] in Hlen. specialize (IH ltac:(lia)). rewrite imap_app, foldl_app. cbn [imap foldl].
    set (acc := foldl _ _ (imap pair us)) in *. destruct IH as [Hl Hw Ht Hb Hm]. cbn. rewrite Nat.add_0_r. set (n := length us) in *.
    assert (Hlast : forall i v, (us ++ [u]) !! i = Some v -> (i = n /\ v = u) \/ (i <> n /\ us !! i = Some v)).
    { intros i v Hi. destruct (decide (i = n)) as [->|Hne]; [left; rewrite lookup_app_r, Nat.sub_diag in Hi by (subst n; lia); split; [done|by injection Hi]|right].
      pose proof (lookup_lt_Some _ _ _ Hi) as Hlt. rewrite length_app in Hlt. cbn in Hlt. by rewrite lookup_app_l in Hi by (fold n; lia). }
    destruct (healthy u) eqn:Hu.
    + set (w := nth n (weights acc) 0 + weight u). assert (Hn : (n < length (weights acc))%nat) by lia. assert (Hs : share u = weight u) by (unfold share; by rewrite Hu).
      assert (Hw' : forall i, nth i (<[n := w]> (weights acc)) 0 = nth i cur 0 + weight_at (us ++ [u]) i).
      { intros i. rewrite nth_insert, weight_at_snoc, Hs by done. fold n. destruct (Nat.eqb_spec i n) as [->|]; [subst w; rewrite Hw; lia|rewrite Hw; lia]. }
      assert (Ht' : weight u + total acc = sum_to (length (us ++ [u])) (weight_at (us ++ [u]))) by (rewrite weights_snoc, Hs, Ht; fold n; lia).
      destruct (Z.ltb_spec (best_weight acc) w) as [Hbig|Hsmall]; cbn; split; cbn; rewrite ?length_insert; try done.
      * rewrite length_app. cbn. split; [lia|]. by rewrite nth_insert, Nat.eqb_refl by done.
      * intros i v [[-> ->]|[Hne Hi]]%Hlast Hv; rewrite nth_insert by done; [by rewrite Nat.eqb_refl|]. destruct (Nat.eqb_spec i n); [done|]. specialize (Hm i v Hi Hv). lia.
      * destruct (best acc) as [b|]; [|done]. destruct Hb as [Hb Hbw]. split; [rewrite length_app; cbn; lia|]. rewrite nth_insert by done. destruct (Nat.eqb_spec b n); [lia|done].
      * intros i v [[-> ->]|[Hne Hi]]%Hlast Hv; rewrite nth_insert by done; [by rewrite Nat.eqb_refl|]. destruct (Nat.eqb_spec i n); [done|]. by eapply Hm.
    + assert (Hs : share u = 0) by (unfold share; by rewrite Hu). split; [done| | | |].
      * intros i. rewrite weight_at_snoc, Hs, Hw. destruct (i =? _)%nat; lia.
      * rewrite weights_snoc, Hs, Ht. fold n. lia.
      * destruct (best acc) as [b|]; [|done]. destruct Hb as [Hb Hbw]. split; [rewrite length_app; cbn; lia|done].
      * intros i v [[-> ->]|[Hne Hi]]%Hlast Hv; [congruence|by eapply Hm].
Qed.

Fixpoint swrr_run (k : nat) (g : gw_gateway) (name : list Z) (st : statics) : option (list (option nat) * statics) :=
  match k with
  | O => Some ([], st)
  | S k' => '(picks, st) ← swrr_run k' g name st; '(b, st) ← gw_upstream_select_swrr g name st; Some (picks ++ [b], st)
  end.
Definition picked (i : nat) (picks : list (option nat)) : Z := Z.of_nat (count_if (fun b => bool_decide (b = Some i)) picks).
Lemma picked_snoc i picks b : picked i (picks ++ [Some b]) = picked i picks + (if (i =? b)%nat then 1 else 0).
Proof.
  unfold picked, count_if. rewrite List.filter_app, length_app, Nat2Z.inj_add. cbn. destruct (Nat.eqb_spec i b) as [->|Hne].
  - by rewrite bool_decide_true.
  - by rewrite bool_decide_false by congruence.
Qed.

Section fair.
Context (g : gw_gateway) (name : list Z) (st : statics).
Notation us := (service_upstreams g name).
Notation n := (length us).
Context (Hweights : Forall (fun u => 0 <= share u) us).
Context (Hfits : (n <= length (current_weights st))%nat) (Hzero : forall i, (i < n)%nat -> nth i (current_weights st) 0 = 0).
Notation total_w := (sum_to n (weight_at us)).
Context (Htotal : 0 < total_w).

Lemma swrr_run_spec k : exists picks st', swrr_run k g name st = Some (picks, st') /\ length (current_weights st') = length (current_weights st) /\
  (forall i, (i < n)%nat -> nth i (current_weights st') 0 = Z.of_nat k * weight_at us i - total_w * picked i picks) /\
  (forall i, (i < n)%nat -> - total_w < nth i (current_weights st') 0) /\ sum_to n (fun i => picked i picks) = Z.of_nat k.
Proof.
  induction k as [|k (picks & st1 & Hrun & Hlen & Hcur & Hlow & Hsum)].
  - exists [], st. split; [done|]. split; [done|]. unfold picked. cbn. split; [intros i Hi; rewrite Hzero by done; lia|]. split; [intros i Hi; rewrite Hzero by done; lia|]. apply sum_to_zero.
  - cbn [swrr_run]. rewrite Hrun. cbn [mbind option_bind]. unfold gw_upstream_select_swrr. rewrite (proj2 (Nat.ltb_ge _ _)) by lia.
    destruct (fold_swrr us (current_weights st1) ltac:(lia)) as [Fl Fw Ft Fb Fm]. set (acc := foldl _ _ _) in *.
    assert (Hs : sum_to n (fun i => nth i (weights acc) 0) = total_w).
    { rewrite (sum_to_ext n _ (fun i => (Z.of_nat k + 1) * weight_at us i + - total_w * picked i picks)) by (intros i Hi; rewrite Fw, Hcur by done; lia).
      rewrite sum_to_add, !sum_to_scale, Hsum. lia. }
    destruct (sum_to_pos n (fun i => nth i (weights acc) 0)) as (j & Hj & Hjpos); [lia|].
    assert (Hjb : nth j (weights acc) 0 <= best_weight acc).
    { destruct (lookup_lt_is_Some_2 us j Hj) as [u Hu]. destruct (healthy u) eqn:Hh; [by eapply Fm|]. exfalso. assert (Hz : weight_at us j = 0) by (unfold weight_at; rewrite Hu; cbn; unfold share; by rewrite Hh).
      rewrite Fw, Hcur, Hz in Hjpos by done. assert (0 <= picked j picks) by (unfold picked; lia). nia. }
    destruct (best acc) as [b|]; [|lia]. destruct Fb as [Hb Hbw]. rewrite Ft. rewrite (proj2 (Z.eqb_neq _ _)) by lia. cbn [mbind option_bind].
    eexists _, _. split; [done|]. unfold set, const. cbn [current_weights]. split; [by rewrite length_alter, Fl|].
    assert (Hnew : forall i, nth i (alter (fun w => w - total_w) b (weights acc)) 0 = nth i (current_weights st1) 0 + weight_at us i - (if (i =? b)%nat then total_w else 0)).
    { intros i. rewrite nth_alter by (rewrite Fl; lia). destruct (Nat.eqb_spec i b) as [->|]; rewrite Fw, ?Ft; lia. }
    split; [|split].
    + intros i Hi. rewrite Hnew, Hcur, picked_snoc by done. destruct (i =? b)%nat; lia.
    + intros i Hi. rewrite Hnew. destruct (Nat.eqb_spec i b) as [->|].
      * rewrite <- Fw, Hbw. lia.
      * specialize (Hlow i Hi). assert (0 <= weight_at us i); [|lia]. unfold weight_at. destruct (us !! i) as [u|] eqn:Hu; [|done]. cbn.
        rewrite Forall_lookup in Hweights. by apply (Hweights i).
    + rewrite (sum_to_ext n _ (fun i => picked i picks + (if (i =? b)%nat then 1 else 0))) by (intros; apply picked_snoc). rewrite sum_to_add, sum_to_single, Hsum by done. lia.
Qed.
End fair.

(** C29: Take a service whose healthy upstreams have weights that are not negative and add up
    to more than zero, when the current weights of its upstreams are all zero and no other
    service is selected for meanwhile.  Over as many selections as the weights of the healthy
    upstreams add up to, smooth weighted round robin picks each healthy one exactly as often
    as its weight says and the others never, and the current weights are zero again. *)
Theorem gw_swrr_fair g name st : let us := service_upstreams g name in let total := sum_to (length us) (weight_at us) in
  Forall (fun u => 0 <= share u) us -> (length us <= length (current_weights st))%nat ->
  (forall i, (i < length us)%nat -> nth i (current_weights st) 0 = 0) -> 0 < total ->
  exists picks st', swrr_run (Z.to_nat total) g name st = Some (picks, st') /\
    forall i u, us !! i = Some u -> picked i picks = share u /\ nth i (current_weights st') 0 = 0.
Proof.
  intros us total Hw Hf Hz Ht. destruct (swrr_run_spec g name st Hw Hf Hz Ht (Z.to_nat total)) as (picks & st' & Hrun & _ & Hcur & Hlow & Hsum).
  fold us total in Hcur, Hlow, Hsum. rewrite Z2Nat.id in Hcur, Hsum by lia. exists picks, st'. split; [done|].
  assert (Heq : forall i, (i < length us)%nat -> picked i picks = weight_at us i).
  { apply sum_to_equal; [|done]. intros i Hi. specialize (Hcur i Hi). specialize (Hlow i Hi). nia. }
  intros i u Hu. assert (Hi : (i < length us)%nat) by (by eapply lookup_lt_Some). rewrite Hcur, Heq by done. unfold weight_at. rewrite Hu. cbn. lia.
Qed.

Definition four_upstreams : list gw_upstream_t := [mk_upstream [97] 80 5 0 0 true; mk_upstream [100] 80 9 0 0 false; mk_upstream [98] 80 1 0 0 true; mk_upstream [99] 80 1 0 0 true].
Definition fair_gateway : gw_gateway := mk_gateway [] [([115], four_upstreams)] None None None [].
Lemma gw_swrr_fair_witness : (fst <$> swrr_run 7 fair_gateway [115] initial_statics) = Some [Some 0; Some 0; Some 2; Some 0; Some 3; Some 0; Some 0]%nat /\
  exists picks st', swrr_run 7 fair_gateway [115] initial_statics = Some (picks, st') /\
    forall i u, four_upstreams !! i = Some u -> picked i picks = share u /\ nth i (current_weights st') 0 = 0.
Proof.
  split; [vm_compute; reflexivity|]. apply (gw_swrr_fair fair_gateway [115] initial_statics).
  - repeat constructor; cbn; lia.
  - vm_compute. lia.
  - intros i _. cbn [initial_statics current_weights]. rewrite nth_lookup. destruct (replicate GW_MAX_RULES 0 !! i) as [x|] eqn:Hx; [|done]. by apply lookup_replicate in Hx as [-> _].
  - vm_compute. done.
Defined.

(** ** Weighted selection and delays *)

Lemma pick_weighted_spec us r c : Forall (fun u => healthy u = true -> 0 <= weight u) us -> c <= r < c + total_weight us ->
  exists i u, pick_weighted us r c = Some u /\ us !! i = Some u /\ healthy u = true /\
    c + total_weight (take i us) <= r < c + total_weight (take i us) + weight u.
Proof.
  intros Hall. revert c. induction Hall as [|u us Hu _ IH]; intros c Hr; cbn [total_weight foldr pick_weighted] in *; [lia|].
  fold (total_weight us) in Hr. destruct (healthy u) eqn:Hh.
  - destruct (Z.ltb_spec r (c + weight u)) as [Hlt|Hge].
    + exists O, u. cbn. split; [done|]. split; [done|]. split; [done|]. lia.
    + destruct (IH (c + weight u) ltac:(lia)) as (i & v & Hp & Hi & Hv & Hb). exists (S i), v. split; [done|]. split; [done|]. split; [done|].
      cbn [take total_weight foldr]. fold (total_weight (take i us)). rewrite Hh. lia.
  - destruct (IH c ltac:(lia)) as (i & v & Hp & Hi & Hv & Hb). exists (S i), v. split; [done|]. split; [done|]. split; [done|].
    cbn [take total_weight foldr]. fold (total_weight (take i us)). rewrite Hh. lia.
Qed.
(** Weighted selection picks the healthy upstream in whose share of the total weight
    the random number falls, and none only if nothing has weight. *)
Theorem gw_weighted_select_correct g name rand st : 0 <= rand -> Forall (fun u => healthy u = true -> 0 <= weight u) (service_upstreams g name) ->
  let us := service_upstreams g name in
  match (gw_upstream_select g name GW_LB_WEIGHTED rand st).1 with
  | Some u => exists i, us !! i = Some u /\ healthy u = true /\
      total_weight (take i us) <= rand mod total_weight us < total_weight (take i us) + weight u
  | None => total_weight us = 0
  end.
Proof.
  intros Hr Hall us. unfold gw_upstream_select. fold us in Hall |- *. assert (Hpos : 0 <= total_weight us).
  { clear Hr. induction Hall as [|u l Hu _ IH]; cbn; [done|]. fold (total_weight l). destruct (healthy u); [specialize (Hu eq_refl)|]; lia. }
  destruct us as [|u us'] eqn:Hus; [done|]. rewrite <- Hus in *. cbn [fst]. destruct (Z.eqb_spec (total_weight us) 0) as [|Hne]; [done|].
  rewrite Z.rem_mod_nonneg by lia. pose proof (Z.mod_pos_bound rand (total_weight us) ltac:(lia)) as Hm.
  destruct (pick_weighted_spec us (rand mod total_weight us) 0 Hall ltac:(lia)) as (i & v & -> & Hi & Hv & Hb). exists i. split; [done|]. split; [done|]. lia.
Qed.

(** A delay lies between 0 and the maximum of the policy. *)
Theorem gw_compute_backoff_bounds p n rand : 0 <= rand -> 0 <= base_delay_ms p -> 0 <= max_delay_ms p < 2 ^ 31 -> 0 <= gw_compute_backoff p n rand <= max_delay_ms p.
Proof.
  intros Hr Hb Hm. unfold gw_compute_backoff. destruct (Z.leb_spec n 0); [lia|]. rewrite Z.shiftl_mul_pow2, Z.mul_1_l by lia.
  set (range := base_delay_ms p * 2 ^ (n - 1)). assert (0 <= range) by (pose proof (Z.pow_nonneg 2 (n - 1) ltac:(lia)); unfold range; nia).
  destruct (jitter_strategy p).
  - destruct (Z.ltb_spec (max_delay_ms p) range); rewrite s32_small; lia.
  - set (mr := if range <? max_delay_ms p then range else max_delay_ms p). assert (Hmr : 0 <= mr <= max_delay_ms p) by (unfold mr; destruct (Z.ltb_spec range (max_delay_ms p)); lia).
    destruct (Z.ltb_spec 0 mr) as [Hp|]; [|rewrite s32_small; lia]. pose proof (Z.rem_bound_pos rand mr Hr Hp). rewrite s32_small; lia.
  - set (m := if 0 <? range then range else 1). assert (Hmp : 0 < m) by (unfold m; destruct (Z.ltb_spec 0 range); lia). pose proof (Z.rem_bound_pos rand m Hr Hmp).
    destruct (Z.ltb_spec (max_delay_ms p) (base_delay_ms p + Z.rem rand m)); rewrite s32_small; lia.
Qed.

(** ** Behind the breaker *)

(** A forwarding that the breaker does not admit touches neither gateway, request nor
    response; one it admits is an ordinary forwarding. *)
Theorem gw_forward_guarded cb h a x r : reached cb h ->
  let '(result, x', cb') := gw_forward_with_circuit_breaker a x cb r in
  if admitted cb r then (result, x') = gw_forward a x else result = -1 /\ x' = x /\ state cb' = state cb.
Proof.
  intros Hr. destruct (reached_ok cb h Hr) as [Hc Hw]. unfold gw_forward_with_circuit_breaker. pose proof (ib_call_spec cb h (gw_forward a) x 5000 r Hc Hw) as H.
  destruct (cb_call cb (gw_forward a) x 5000 r) as [[result x'] cb']. destruct H as [_ H]. destruct (admitted cb r); naive_solver.
Qed.

(** ** Behaviours found *)

Definition get_request (path : string) : gw_request_t := mk_request GW_METHOD_GET (str_bytes path) [] [] [49].
Definition admin_rule : gw_route_rule_t := mk_rule GW_METHOD_GET (str_bytes "/admin/secret") [115] [] 0 false 0 0 true 0.
Definition admin_gateway : gw_gateway := mk_gateway [admin_rule] [([115], four_upstreams)] None None None [].
(** A path that is only a beginning of a route's is taken for it. *)
Example shorter_path_matches : gw_route_find admin_gateway GW_METHOD_GET (str_bytes "/") = Some admin_rule /\ gw_route_find admin_gateway GW_METHOD_GET [] = Some admin_rule.
Proof. vm_compute. done. Qed.
(** A route of negative priority is never found. *)
Example negative_priority_unreachable : gw_route_find (admin_gateway <| routes := [mk_rule GW_METHOD_GET (str_bytes "/a") [115] [] 0 false 0 (-1) true 0] |>) GW_METHOD_GET (str_bytes "/a") = None.
Proof. vm_compute. done. Qed.
(** The weights of smooth round robin are shared by all services: of two services used
    in turn, each always gets the same upstream. *)
Definition even : list gw_upstream_t := [mk_upstream [97] 80 1 0 0 true; mk_upstream [98] 80 1 0 0 true].
Fixpoint in_turn (k : nat) (g : gw_gateway) (st : statics) : option (list (option nat * option nat)) :=
  match k with
  | O => Some []
  | S k' => '(a, st) ← gw_upstream_select_swrr g [1] st; '(b, st) ← gw_upstream_select_swrr g [2] st; l ← in_turn k' g st; Some ((a, b) :: l)
  end.
Example swrr_weights_shared : in_turn 4 (mk_gateway [] [([1], even); ([2], even)] None None None []) initial_statics = Some (replicate 4 (Some 0%nat, Some 1%nat)).
Proof. vm_compute. reflexivity. Qed.
(** Requests for unknown paths count as failures of the service and open the breaker,
    and the response to a request it refuses is left as it was. *)
Example not_found_opens_breaker :
  let x := mk_exchange gw_gateway_create initial_statics (get_request "/nowhere") gw_response_init in
  let '(_, _, cb) := gw_forward_with_circuit_breaker (mk_attempt 0 0 0) x small_breaker (at_time 1) in
  let '(_, _, cb) := gw_forward_with_circuit_breaker (mk_attempt 0 0 0) x cb (at_time 2) in
  let '(rc, x', cb) := gw_forward_with_circuit_breaker (mk_attempt 0 0 0) x cb (at_time 3) in
  state cb = CB_OPEN /\ rc = -1 /\ status_code (ex_response x') = 0.
Proof. vm_compute. done. Qed.
(** Adding and removing routes uses up the table of services, which is not checked. *)
Example services_overflow : let full := gw_gateway_create <| upstreams := (fun i => ([Z.of_nat i], [])) <$> seq 1 1024 |> in
  routes full = [] /\ gw_route_add full (mk_rule GW_METHOD_GET [47] [0] [] 0 false 0 0 true 0) = None.
Proof. vm_compute. done. Qed.
