(* ===== verification/ServiceRegistry.v ===== *)
(** Model of [mini-business-infra/src/service_registry.c]: services and their
    instances, heartbeats and health checks, selection, dependencies, rendezvous
    hashing; and the theorems on it.

    [now] is [time(NULL)] and [rand]... are results of [rand()].  The static variables
    of the code are [statics].  What the health callback is called with is collected in
    [told]; it does not touch the registry.  Allocation succeeds. *)

From S2P Require Import Prelude Bytes.

Definition SR_MAX_NAME_LEN : nat := 64.
Definition SR_MAX_INSTANCES : nat := Z.to_nat 4096.
#[global] Arguments SR_MAX_INSTANCES : simpl never.
Definition MAX_SERVICES : nat := Z.to_nat 512.
#[global] Arguments MAX_SERVICES : simpl never.
Definition MAX_DEPENDENCIES : nat := Z.to_nat 1024.
#[global] Arguments MAX_DEPENDENCIES : simpl never.
Definition SR_DEFAULT_HEARTBEAT : Z := 30.
Definition SR_DEFAULT_TTL : Z := 90.

Inductive sr_instance_status_t := SR_STATUS_UP | SR_STATUS_DOWN | SR_STATUS_UNKNOWN.
#[export] Instance status_eq_dec : EqDecision sr_instance_status_t.
Proof. solve_decision. Defined.
Inductive sr_lb_strategy_t := SR_LB_ROUND_ROBIN | SR_LB_RANDOM | SR_LB_WEIGHTED.
Record sr_instance_t := mk_instance {
  service_name : list Z; instance_id : list Z; host : list Z; port : Z; health_url : list Z; metadata : list Z; weight : Z; register_time : Z;
  last_heartbeat : Z; heartbeat_interval : Z; ttl_seconds : Z; status : sr_instance_status_t;
}.
(** [services]: each service's name and its instances. *)
Record sr_registry := mk_registry {
  services : list (list Z * list sr_instance_t); health_cb : bool; watchdog_running : bool; told : list (list Z * sr_instance_status_t);
}.
Inductive sr_dependency_status_t := SR_DEP_OK | SR_DEP_DEGRADED | SR_DEP_DOWN.
Record sr_dependency_t := mk_dependency { from_svc : list Z; to_svc : list Z; dep_status : sr_dependency_status_t }.
Record statics := mk_statics { rr_counter : Z; sr_dependencies : list sr_dependency_t }.

(** ** The registry *)

Definition sr_registry_create : sr_registry := mk_registry [] false false [].
Definition service_idx (r : sr_registry) (name : list Z) : option nat := find_idx (fun s => bool_decide (s.1 = name)) (services r).
Definition sr_find_service (r : sr_registry) (name : list Z) : option (list sr_instance_t) := snd <$> (service_idx r name ≫= (services r !!.)).
Definition sr_find_instance (insts : list sr_instance_t) (id : list Z) : option nat := find_idx (fun i => bool_decide (instance_id i = id)) insts.
Definition at_service (r : sr_registry) (name : list Z) (f : list sr_instance_t -> list sr_instance_t) : sr_registry :=
  match service_idx r name with Some k => r <| services ::= alter (fun s => (s.1, f s.2)) k |> | None => r end.

Definition hex4 (x : Z) : list Z := print_hex 4 (Z.land x 0xffff).
Definition random_id (rands : list Z) : list Z :=
  match hex4 <$> rands with
  | [a; b; c; d; e; f; g; h] => a ++ b ++ [45] ++ c ++ [45] ++ d ++ [45] ++ e ++ [45] ++ f ++ g ++ h
  | _ => []
  end.
(** [rands] are eight random numbers. *)
Definition registered (inst : sr_instance_t) (now : Z) (rands : list Z) : sr_instance_t :=
  inst <| register_time := now |> <| last_heartbeat := now |>
       <| heartbeat_interval ::= fun h => if h =? 0 then SR_DEFAULT_HEARTBEAT else h |> <| ttl_seconds ::= fun t => if t =? 0 then SR_DEFAULT_TTL else t |>
       <| status := SR_STATUS_UP |> <| instance_id ::= fun id => match id with [] => random_id rands | _ => id end |>.
Definition sr_register (r : sr_registry) (inst : sr_instance_t) (now : Z) (rands : list Z) : Z * sr_registry :=
  let name := service_name inst in
  match service_idx r name with
  | None =>
      if (MAX_SERVICES <=? length (services r))%nat then (-1, r)
      else (0, r <| services ::= fun l => l ++ [(truncated SR_MAX_NAME_LEN name, [registered inst now rands])] |>)
  | Some k =>
      match services r !! k with
      | Some (_, insts) =>
          if (SR_MAX_INSTANCES <=? length insts)%nat then (-1, r)
          else (0, at_service r name (fun insts => insts ++ [registered inst now rands]))
      | None => (-1, r)
      end
  end.
Definition with_instance (r : sr_registry) (name id : list Z) (f : nat -> sr_instance_t -> sr_registry) : Z * sr_registry :=
  match sr_find_service r name with
  | Some insts => match sr_find_instance insts id with
               | Some i => match insts !! i with Some inst => (0, f i inst) | None => (-1, r) end
               | None => (-1, r)
               end
  | None => (-1, r)
  end.
Definition sr_deregister (r : sr_registry) (name id : list Z) : Z * sr_registry := with_instance r name id (fun i _ => at_service r name (delete i)).
Definition sr_heartbeat (r : sr_registry) (name id : list Z) (now : Z) : Z * sr_registry :=
  with_instance r name id (fun i inst =>
    let st := if bool_decide (status inst = SR_STATUS_DOWN) then SR_STATUS_UP else status inst in
    at_service r name <[i := inst <| last_heartbeat := now |> <| status := st |>]>).
Definition tell (r : sr_registry) (id : list Z) (st : sr_instance_status_t) : sr_registry :=
  if health_cb r then r <| told ::= fun l => l ++ [(id, st)] |> else r.
Definition sr_set_status (r : sr_registry) (name id : list Z) (st : sr_instance_status_t) : Z * sr_registry :=
  with_instance r name id (fun i inst =>
    let r' := at_service r name <[i := inst <| status := st |>]> in
    if bool_decide (status inst = st) then r' else tell r' (instance_id inst) st).

Definition is_up (i : sr_instance_t) : bool := bool_decide (status i = SR_STATUS_UP).
Definition sr_discover (r : sr_registry) (name : list Z) : option (list sr_instance_t) := sr_find_service r name.
Definition sr_discover_healthy (r : sr_registry) (name : list Z) : option (list sr_instance_t) :=
  insts ← sr_find_service r name; match List.filter is_up insts with [] => None | l => Some l end.

(** ** Selection *)

Definition total_weight (insts : list sr_instance_t) : Z := foldr (fun i n => (if is_up i then weight i else 0) + n) 0 insts.
Fixpoint pick_weighted (insts : list sr_instance_t) (r cumulative : Z) : option sr_instance_t :=
  match insts with
  | [] => None
  | i :: insts' => if is_up i then if r <? cumulative + weight i then Some i else pick_weighted insts' r (cumulative + weight i) else pick_weighted insts' r cumulative
  end.
Definition round_robin (insts : list sr_instance_t) (start : nat) : option (nat * sr_instance_t) :=
  let n := length insts in
  k ← find_idx (fun k => from_option is_up false (insts !! ((start + k) mod n)%nat)) (seq 0 n);
  let idx := ((start + k) mod n)%nat in i ← insts !! idx; Some (idx, i).
Definition sr_lookup_one (r : sr_registry) (name : list Z) (strategy : sr_lb_strategy_t) (rand : Z) (st : statics) : option sr_instance_t * statics :=
  match sr_find_service r name with
  | None => (None, st)
  | Some insts =>
      if (count_if is_up insts =? 0)%nat then (None, st)
      else
        match strategy with
        | SR_LB_ROUND_ROBIN =>
            match round_robin insts (Z.to_nat (rr_counter st mod Z.of_nat (length insts))) with
            | Some (idx, i) => (Some i, st <| rr_counter := Z.of_nat idx + 1 |>)
            | None => (None, st)
            end
        | SR_LB_WEIGHTED => (if total_weight insts =? 0 then None else pick_weighted insts (Z.rem rand (total_weight insts)) 0, st)
        | SR_LB_RANDOM => (find_idx is_up insts ≫= (insts !!.), st)
        end
  end.

(** ** Health *)

Definition expired (now : Z) (i : sr_instance_t) : bool := is_up i && (ttl_seconds i <? now - last_heartbeat i).
Definition down (now : Z) (i : sr_instance_t) : sr_instance_t := if expired now i then i <| status := SR_STATUS_DOWN |> else i.
Definition expired_of (now : Z) (s : list Z * list sr_instance_t) : list sr_instance_t := List.filter (expired now) s.2.
Definition downed (now : Z) (s : list Z * list sr_instance_t) : list Z * list sr_instance_t := (s.1, down now <$> s.2).
Definition sr_health_check (r : sr_registry) (now : Z) : sr_registry :=
  foldl (fun r i => tell r (instance_id i) SR_STATUS_DOWN) (r <| services ::= fmap (downed now) |>) (mjoin (expired_of now <$> services r)).
Definition sr_health_check_instance (r : sr_registry) (name id : list Z) : Z * sr_registry :=
  with_instance r name id (fun i inst =>
    if is_up inst then tell (at_service r name <[i := inst <| status := SR_STATUS_DOWN |>]>) (instance_id inst) SR_STATUS_DOWN else r).
Definition sr_set_health_callback (r : sr_registry) (on : bool) : sr_registry := r <| health_cb := on |>.
Definition sr_service_list (r : sr_registry) : list (list Z) := fst <$> services r.
Definition sr_service_count (r : sr_registry) : Z := Z.of_nat (length (services r)).
Definition sr_ttl_watchdog_start (r : sr_registry) : sr_registry := r <| watchdog_running := true |>.
Definition sr_ttl_watchdog_stop (r : sr_registry) : sr_registry := r <| watchdog_running := false |>.

(** One observer's vote, with its random number. *)
Definition votes_down (inst : sr_instance_t) (now rand : Z) : bool :=
  let elapsed := s32 (now - last_heartbeat inst) in
  let jitter := Z.quot (ttl_seconds inst * (Z.rem rand 40 - 20)) 100 in
  ttl_seconds inst + jitter <? elapsed.
(** [rands]: one number for each observer. *)
Definition sr_health_check_quorum (r : sr_registry) (name id : list Z) (observer_count quorum_threshold now : Z) (rands : list Z) : Z * sr_registry :=
  let n := if observer_count <=? 0 then 3 else observer_count in
  let q := if quorum_threshold <=? 0 then Z.quot n 2 + 1 else quorum_threshold in
  match sr_find_service r name with
  | None => (-1, r)
  | Some insts =>
      match sr_find_instance insts id ≫= (insts !!.) with
      | None => (-1, r)
      | Some inst =>
          let votes := Z.of_nat (count_if (votes_down inst now) (take (Z.to_nat n) rands)) in
          (votes, if q <=? votes then (sr_set_status r name id SR_STATUS_DOWN).2 else r)
      end
  end.

(** ** Dependencies *)

Definition sr_dependency_add (st : statics) (from to : list Z) : Z * statics :=
  if (MAX_DEPENDENCIES <=? length (sr_dependencies st))%nat then (-1, st)
  else if existsb (fun d => bool_decide (from_svc d = from) && bool_decide (to_svc d = to)) (sr_dependencies st) then (0, st)
  else (0, st <| sr_dependencies ::= fun l => l ++ [mk_dependency (truncated SR_MAX_NAME_LEN from) (truncated SR_MAX_NAME_LEN to) SR_DEP_OK] |>).
Definition checked (r : sr_registry) (name : list Z) (d : sr_dependency_t) : sr_dependency_t :=
  if bool_decide (from_svc d = name) then d <| dep_status := if sr_discover_healthy r (to_svc d) then SR_DEP_OK else SR_DEP_DOWN |> else d.
Definition sr_dependency_check (r : sr_registry) (name : list Z) (st : statics) : Z * statics :=
  (Z.of_nat (count_if (fun d => bool_decide (from_svc d = name) && negb (bool_decide (is_Some (sr_discover_healthy r (to_svc d))))) (sr_dependencies st)),
   st <| sr_dependencies ::= fmap (checked r name) |>).

(** ** Rendezvous hashing *)

Definition fnv1a (s : list Z) : Z := foldl (fun h c => u64 (Z.lxor h c * 0x100000001b3)) 0xcbf29ce484222325 s.
Definition sr_rendezvous_hash (key node : list Z) : Z := fnv1a (truncated (SR_MAX_NAME_LEN + 256) (key ++ [58] ++ node)).
(** The weight is converted to 64 bits. *)
Definition score (key : list Z) (i : sr_instance_t) : Z := u64 (sr_rendezvous_hash key (instance_id i) * u64 (weight i)).
Definition higher (key : list Z) (best : option sr_instance_t) (i : sr_instance_t) : option sr_instance_t :=
  if is_up i then
    match best with
    | Some b => if score key b <? score key i then Some i else best
    | None => Some i
    end
  else best.
Definition sr_lookup_rendezvous (r : sr_registry) (name key : list Z) : option sr_instance_t :=
  insts ← sr_find_service r name; foldl (higher key) None insts.

(** ** Rendezvous hashing moves only the keys of the node that comes or goes *)

Section rendezvous.
Context (key : list Z).
Notation step := (higher key).
(** [a] is below [b]. *)
Definition below (a : option sr_instance_t) (b : sr_instance_t) : Prop := match a with Some x => score key x <= score key b | None => True end.

Lemma fold_below l : forall a b, below a b -> foldl step (Some b) l = Some b \/ foldl step (Some b) l = foldl step a l.
Proof.
  induction l as [|i l IH]; intros a b Hab; cbn [foldl]; [by left|]. unfold higher at 2 4 6. destruct (is_up i); [|by apply IH].
  destruct (Z.ltb_spec (score key b) (score key i)) as [Hlt|Hge].
  - destruct a as [x|]; [|by right]. rewrite (proj2 (Z.ltb_lt _ _)); [by right|]. cbn in Hab. lia.
  - destruct a as [x|]; [|apply IH; cbn; lia]. destruct (Z.ltb_spec (score key x) (score key i)); apply IH; cbn in *; lia.
Qed.

Lemma fold_insert l1 x l2 : let with_x := foldl step None (l1 ++ x :: l2) in with_x = Some x \/ with_x = foldl step None (l1 ++ l2).
Proof.
  cbv zeta. rewrite !foldl_app. cbn [foldl]. set (a := foldl step None l1). unfold higher at 2 4. destruct (is_up x); [|by right].
  destruct a as [y|] eqn:Ha; [|by apply fold_below]. destruct (Z.ltb_spec (score key y) (score key x)); [|by right]. apply fold_below. cbn. lia.
Qed.

Lemma fold_best l : match foldl step None l with
  | Some b => b ∈ l /\ is_up b = true /\ forall i, i ∈ l -> is_up i = true -> score key i <= score key b
  | None => forall i, i ∈ l -> is_up i = false
  end.
Proof.
  induction l as [|i l IH] using rev_ind; [cbn; intros i Hi; by apply elem_of_nil in Hi|]. rewrite foldl_app. cbn [foldl]. unfold higher at 1.
  destruct (foldl step None l) as [b|].
  - destruct IH as (Hb & Hup & Hmax). destruct (is_up i) eqn:Hi; [destruct (Z.ltb_spec (score key b) (score key i))|].
    + split; [apply elem_of_app; right; left|]. split; [done|]. intros j [Hj|[->|Hj%elem_of_nil]%elem_of_cons]%elem_of_app Hup'; [|done|done]. specialize (Hmax j Hj Hup'). lia.
    + split; [apply elem_of_app; by left|]. split; [done|]. intros j [Hj|[->|Hj%elem_of_nil]%elem_of_cons]%elem_of_app Hup'; [by apply Hmax|done|done].
    + split; [apply elem_of_app; by left|]. split; [done|]. intros j [Hj|[->|Hj%elem_of_nil]%elem_of_cons]%elem_of_app Hup'; [by apply Hmax|congruence|done].
  - destruct (is_up i) eqn:Hi.
    + split; [apply elem_of_app; right; left|]. split; [done|]. intros j [Hj|[->|Hj%elem_of_nil]%elem_of_cons]%elem_of_app Hup'; [|done|done]. specialize (IH j Hj). congruence.
    + intros j [Hj|[->|Hj%elem_of_nil]%elem_of_cons]%elem_of_app; [by apply IH|done|done].
Qed.
End rendezvous.

Lemma find_at_service r name f l : sr_find_service r name = Some l -> sr_find_service (at_service r name f) name = Some (f l).
Proof.
  unfold sr_find_service, at_service. destruct (service_idx r name) as [k|] eqn:Hk; [|done]. cbn [mbind option_bind].
  destruct (services r !! k) as [[n l']|] eqn:Hl; [|done]. cbn [fmap option_fmap option_map snd]. intros [= ->].
  match goal with |- context [service_idx ?R name] => assert (Hi : service_idx R name = Some k) end.
  { unfold service_idx in *. cbn. apply find_idx_Some in Hk as (s & Hs & Hp & Hlt). apply find_idx_Some. exists (s.1, f s.2). split; [by rewrite list_lookup_alter_eq, Hs|]. split; [done|].
    intros j y Hy Hj. rewrite list_lookup_alter_ne in Hy by lia. by eapply Hlt. }
  rewrite Hi. cbn. by rewrite list_lookup_alter_eq, Hl.
Qed.

(** C36: Rendezvous hashing picks a healthy instance of the highest score, and when an
    instance is deregistered every key that it did not hold keeps its instance. *)
Theorem sr_rendezvous_minimal_disruption r name key id rc r' : sr_deregister r name id = (rc, r') ->
  (forall l, sr_find_service r name = Some l -> match sr_lookup_rendezvous r name key with
     | Some b => b ∈ l /\ is_up b = true /\ forall i, i ∈ l -> is_up i = true -> score key i <= score key b
     | None => forall i, i ∈ l -> is_up i = false
     end) /\
  (forall b, sr_lookup_rendezvous r name key = Some b -> instance_id b <> id -> sr_lookup_rendezvous r' name key = Some b).
Proof.
  intros Hd. split.
  - intros l Hl. unfold sr_lookup_rendezvous. rewrite Hl. cbn [mbind option_bind]. apply fold_best.
  - intros b Hb Hne. unfold sr_deregister, with_instance in Hd. unfold sr_lookup_rendezvous in Hb |- *.
    destruct (sr_find_service r name) as [l|] eqn:Hl; [|done]. cbn [mbind option_bind] in Hb.
    destruct (sr_find_instance l id) as [i|] eqn:Hi; [|injection Hd as _ <-; by rewrite Hl].
    unfold sr_find_instance in Hi. apply find_idx_Some in Hi as (x & Hx & Hid%bool_decide_eq_true & _). rewrite Hx in Hd. injection Hd as _ <-.
    rewrite (find_at_service _ _ _ _ Hl). cbn [mbind option_bind]. apply list_elem_of_split_length in Hx as (l1 & l2 & -> & ->).
    rewrite delete_middle. destruct (fold_insert key l1 x l2) as [Heq|Heq]; [|congruence]. rewrite Hb in Heq. injection Heq as ->. done.
Qed.

Definition node (id : string) (w : Z) : sr_instance_t := mk_instance (str_bytes "s") (str_bytes id) [] 80 [] [] w 0 0 0 0 SR_STATUS_UP.
Definition three_nodes : sr_registry :=
  foldl (fun r i => (sr_register r i 0 []).2) sr_registry_create [node "n1" 1; node "n2" 1; node "n3" 1].
Lemma sr_rendezvous_minimal_disruption_witness : let r' := (sr_deregister three_nodes (str_bytes "s") (str_bytes "n1")).2 in
  exists b, sr_lookup_rendezvous three_nodes (str_bytes "s") (str_bytes "key") = Some b /\ instance_id b <> str_bytes "n1" /\
    sr_lookup_rendezvous r' (str_bytes "s") (str_bytes "key") = Some b.
Proof.
  intros r'. pose proof (sr_rendezvous_minimal_disruption three_nodes (str_bytes "s") (str_bytes "key") (str_bytes "n1") 0 r' ltac:(vm_compute; reflexivity)) as [_ H].
  destruct (sr_lookup_rendezvous three_nodes (str_bytes "s") (str_bytes "key")) as [b|] eqn:Hb; [|vm_compute in Hb; done]. exists b. split; [done|].
  assert (Hne : instance_id b <> str_bytes "n1") by (vm_compute in Hb; injection Hb as <-; vm_compute; congruence). split; [done|]. by apply H.
Defined.


(** ** Selection finds healthy instances *)

Lemma count_up l : count_if is_up l = 0%nat <-> forall i, i ∈ l -> is_up i = false.
Proof.
  unfold count_if. split.
  - intros H i Hi. destruct (is_up i) eqn:Hu; [|done]. assert (Hf : i ∈ List.filter is_up l) by (apply list_elem_of_In, filter_In; split; [by apply list_elem_of_In|done]).
    destruct (List.filter is_up l); [by apply elem_of_nil in Hf|done].
  - intros H. by rewrite filter_all_false.
Qed.
Lemma round_robin_spec l s : match round_robin l s with
  | Some (idx, i) => l !! idx = Some i /\ is_up i = true
  | None => forall i, i ∈ l -> is_up i = false
  end.
Proof.
  unfold round_robin. set (n := length l). destruct (find_idx _ (seq 0 n)) as [k|] eqn:Hk; cbn [mbind option_bind].
  - apply find_idx_Some in Hk as (k' & Hk' & Hp & _). apply lookup_seq in Hk' as [-> _]. cbn in Hp. destruct (l !! ((s + k) mod n)%nat) as [i|] eqn:Hi; [|done]. by cbn in *.
  - intros i [j Hj]%list_elem_of_lookup. assert (Hlt : (j < n)%nat) by (by eapply lookup_lt_Some). set (k := ((j + (n - s mod n)) mod n)%nat).
    pose proof (proj1 (find_idx_None _ _) Hk k) as Hn. cbn in Hn. assert (Heq : ((s + k) mod n = j)%nat).
    { unfold k. rewrite Nat.Div0.add_mod_idemp_r. pose proof (Nat.mod_upper_bound s n ltac:(lia)). pose proof (Nat.div_mod_eq s n).
      replace (s + (j + (n - s mod n)))%nat with (j + (s / n + 1) * n)%nat by nia. rewrite Nat.Div0.mod_add. by apply Nat.mod_small. }
    rewrite Heq, Hj in Hn. apply Hn. apply elem_of_seq. pose proof (Nat.mod_upper_bound (j + (n - s mod n)) n ltac:(lia)). unfold k. lia.
Qed.
Lemma pick_weighted_in l r c i : pick_weighted l r c = Some i -> i ∈ l /\ is_up i = true.
Proof.
  revert c. induction l as [|x l IH]; intros c; cbn [pick_weighted]; [done|]. destruct (is_up x) eqn:Hx.
  - destruct (r <? c + weight x); [intros [= <-]; split; [left|done]|]. intros (? & ?)%IH. split; [by right|done].
  - intros (? & ?)%IH. split; [by right|done].
Qed.
(** Whatever the strategy, an instance selected is a healthy one of the service; by
    turns or at random one is found if there is any. *)
Theorem sr_lookup_one_healthy r name strategy rand st l : sr_find_service r name = Some l ->
  match (sr_lookup_one r name strategy rand st).1 with
  | Some i => i ∈ l /\ is_up i = true
  | None => match strategy with SR_LB_WEIGHTED => True | _ => forall i, i ∈ l -> is_up i = false end
  end.
Proof.
  intros Hl. unfold sr_lookup_one. rewrite Hl. destruct (Nat.eqb_spec (count_if is_up l) 0) as [Hz|_]; cbn [fst].
  - pose proof (proj1 (count_up l) Hz). by destruct strategy.
  - destruct strategy; cbn [fst].
    + pose proof (round_robin_spec l (Z.to_nat (rr_counter st mod Z.of_nat (length l)))) as H. destruct (round_robin l _) as [[idx i]|]; cbn [fst]; [|done].
      destruct H as [Hi Hup]. split; [by eapply list_elem_of_lookup_2|done].
    + destruct (find_idx is_up l) as [k|] eqn:Hk; cbn [mbind option_bind].
      * apply find_idx_Some in Hk as (i & Hi & Hup & _). rewrite Hi. split; [by eapply list_elem_of_lookup_2|done].
      * by apply find_idx_None.
    + destruct (total_weight l =? 0); [done|]. destruct (pick_weighted l _ 0) as [i|] eqn:Hp; [|done]. by apply pick_weighted_in in Hp.
Qed.

(** ** Behaviours found *)

(** An instance that registers again is listed twice, and once deregistered it is still
    found. *)
Example registered_twice : let r := (sr_register three_nodes (node "n1" 1) 5 []).2 in
  length <$> sr_find_service r (str_bytes "s") = Some 4%nat /\
  sr_find_instance (from_option id [] (sr_find_service (sr_deregister r (str_bytes "s") (str_bytes "n1")).2 (str_bytes "s"))) (str_bytes "n1") = Some 2%nat.
Proof. vm_compute. done. Qed.
(** The random strategy always takes the first healthy instance. *)
Example random_is_first rand st : fst (sr_lookup_one three_nodes (str_bytes "s") SR_LB_RANDOM rand st) = Some (registered (node "n1" 1) 0 []).
Proof. vm_compute. reflexivity. Qed.
(** Checking one instance marks it down without looking at it. *)
Example check_marks_down : is_up <$> (sr_find_service (sr_health_check_instance three_nodes (str_bytes "s") (str_bytes "n2")).2 (str_bytes "s") ≫= fun l => l !! 1%nat) = Some false.
Proof. vm_compute. reflexivity. Qed.
(** A greater weight can lose a key: the score is the product modulo 2^64, and twice the
    weight gives the three nodes a lower score here. *)
Example weight_wraps : score (str_bytes "key") (node "n1" 2) < score (str_bytes "key") (node "n1" 1).
Proof. vm_compute. reflexivity. Qed.
