(* ===== verification/WebSecurity.v ===== *)
(** Model of [mini-auth-security/src/web_security.c]: encoding for HTML, URLs, script
    and style, tokens against request forgery, the content security policy and the
    validation of input; and the theorems on it.

    Texts are the bytes before their zero.  A function that writes a text into a buffer
    gives what it writes before the final zero, [None] standing for the result -1; the
    encoders and decoders return the length of that text, the functions that print a
    policy or copy a header return 0, and [ws_security_headers_apply_all] returns the
    length of the whole text, cut or not.  [now] is [time(NULL)]; the static seeds are passed
    and returned. *)

From S2P Require Import Prelude Bytes HttpCore.

Definition WS_MAX_TOKEN_LEN : nat := 128.
Definition WS_MAX_HEADER_NAME_LEN : nat := 64.
Definition WS_MAX_HEADER_VALUE_LEN : nat := 512.
Definition WS_MAX_CSP_DIRECTIVE_LEN : nat := 256.

Inductive WsXssMode := WS_XSS_MODE_HTML | WS_XSS_MODE_HTML_ATTR | WS_XSS_MODE_JAVASCRIPT | WS_XSS_MODE_URL | WS_XSS_MODE_CSS.
Record WsCsrfToken := mk_token {
  token_value : list Z; header_name : list Z; cookie_name : list Z; created_at : Z; expires_at : Z; used : Z; valid : Z;
}.
Record WsCspNonce := mk_nonce { nonce_value : list Z; nonce_created_at : Z }.
Record WsCspPolicy := mk_policy {
  default_src : list Z; script_src : list Z; style_src : list Z; img_src : list Z; connect_src : list Z; font_src : list Z; frame_src : list Z;
  media_src : list Z; report_uri : list Z; upgrade_insecure_requests : bool; block_all_mixed_content : bool; script_nonce : WsCspNonce; style_nonce : WsCspNonce;
}.
Record WsSecurityHeaders := mk_headers {
  hsts : list Z; x_frame_options : list Z; x_content_type_options : list Z; referrer_policy : list Z; csp : list Z; permissions_policy : list Z;
  x_xss_protection : list Z; cross_origin_opener_policy : list Z;
}.

(** ** Encoding *)

(** The loop of the encoders: a character is written while [margin] bytes are left. *)
Fixpoint encode_loop (esc : Z -> list Z) (margin dst_size di : nat) (src : list Z) : list Z :=
  match src with
  | [] => []
  | c :: src' => if (di + margin <? dst_size)%nat then esc c ++ encode_loop esc margin dst_size (di + length (esc c)) src' else []
  end.
Definition encode_with (esc : Z -> list Z) (margin : nat) (src : list Z) (dst_size : nat) : option (list Z) :=
  if (dst_size =? 0)%nat then None else Some (encode_loop esc margin dst_size 0 src).
Definition html_escape (c : Z) : list Z :=
  if c =? 38 then str_bytes "&amp;" else if c =? 60 then str_bytes "&lt;" else if c =? 62 then str_bytes "&gt;"
  else if c =? 34 then str_bytes "&quot;" else if c =? 39 then str_bytes "&#x27;" else if c =? 47 then str_bytes "&#x2F;" else [c].
Definition ws_html_entity_encode : list Z -> nat -> option (list Z) := encode_with html_escape 8.
Definition entities : list (list Z * Z) :=
  [(str_bytes "&amp;", 38); (str_bytes "&lt;", 60); (str_bytes "&gt;", 62); (str_bytes "&quot;", 34); (str_bytes "&#x27;", 39); (str_bytes "&#x2F;", 47)].
(** The first entity of [l] that [src] starts with: its character and what follows. *)
Fixpoint entity (l : list (list Z * Z)) (src : list Z) : option (Z * list Z) :=
  match l with
  | [] => None
  | (pat, c) :: l' => match starts_with pat src with Some rest => Some (c, rest) | None => entity l' src end
  end.
Fixpoint html_decode_loop (room : nat) (src : list Z) : list Z :=
  match room, src with
  | S room', c :: src' => match entity entities src with Some (d, rest) => d :: html_decode_loop room' rest | None => c :: html_decode_loop room' src' end
  | _, _ => []
  end.
Definition ws_html_entity_decode (src : list Z) (dst_size : nat) : option (list Z) :=
  if (dst_size =? 0)%nat then None else Some (html_decode_loop (dst_size - 1) src).

Definition is_alnum (c : Z) : bool := is_digit c || ((65 <=? c) && (c <=? 90)) || ((97 <=? c) && (c <=? 122)).
Definition unreserved (c : Z) : bool := is_alnum c || (c =? 45) || (c =? 95) || (c =? 46) || (c =? 126).
Definition upper_hex (x : Z) : Z := if x <? 10 then 48 + x else 55 + x.
Definition url_escape (c : Z) : list Z :=
  if unreserved c then [c] else if c =? 32 then [43] else [37; upper_hex (Z.shiftr c 4); upper_hex (Z.land c 15)].
Definition ws_url_encode : list Z -> nat -> option (list Z) := encode_with url_escape 4.
Definition hex_value (c : Z) : option Z :=
  if is_digit c then Some (c - 48) else if (65 <=? c) && (c <=? 70) then Some (c - 55) else if (97 <=? c) && (c <=? 102) then Some (c - 87) else None.
Fixpoint hex_prefix (acc : Z) (s : list Z) : Z := match s with c :: s' => match hex_value c with Some d => hex_prefix (acc * 16 + d) s' | None => acc end | [] => acc end.
(** [strtol(s, NULL, 16)] of two characters: after a prefix 0x none is left. *)
Definition strtol16 (s : list Z) : Z :=
  match skip_spaces s with
  | 45 :: s' => - hex_prefix 0 s'
  | 43 :: s' => hex_prefix 0 s'
  | s' => hex_prefix 0 s'
  end.
Fixpoint ws_url_decode_loop (room : nat) (src : list Z) : list Z :=
  match room, src with
  | S room', 37 :: h1 :: h2 :: src' => u8 (strtol16 [h1; h2]) :: ws_url_decode_loop room' src'
  | S room', c :: src' => (if c =? 43 then 32 else c) :: ws_url_decode_loop room' src'
  | _, _ => []
  end.
Definition ws_url_decode (src : list Z) (dst_size : nat) : option (list Z) :=
  if (dst_size =? 0)%nat then None else Some (ws_url_decode_loop (dst_size - 1) src).

Definition js_escape (c : Z) : list Z :=
  if c =? 92 then [92; 92] else if c =? 34 then [92; 34] else if c =? 39 then [92; 39] else if c =? 10 then [92; 110] else if c =? 13 then [92; 114]
  else if c =? 9 then [92; 116] else if c =? 47 then [92; 47] else if c =? 60 then [92; 120; 51; 67] else if c =? 62 then [92; 120; 51; 69] else [c].
Definition css_escape (c : Z) : list Z :=
  if c =? 92 then [92; 92] else if c =? 34 then [92; 34] else if c =? 39 then [92; 39] else if c =? 40 then [92; 40] else if c =? 41 then [92; 41]
  else if c =? 60 then [92; 60] else [c].
Definition ws_xss_sanitize (input : list Z) (mode : WsXssMode) (output_size : nat) : option (list Z) :=
  match mode with
  | WS_XSS_MODE_HTML | WS_XSS_MODE_HTML_ATTR => ws_html_entity_encode input output_size
  | WS_XSS_MODE_JAVASCRIPT => encode_with js_escape 3 input output_size
  | WS_XSS_MODE_URL => ws_url_encode input output_size
  | WS_XSS_MODE_CSS => encode_with css_escape 3 input output_size
  end.
Definition dangerous_patterns : list (list Z) := str_bytes <$>
  ["<script"; "javascript:"; "onerror="; "onload="; "onclick="; "<iframe"; "<object"; "<embed"; "data:text/html"; "vbscript:"; "expression("]%string.
Definition ws_xss_is_dangerous_input (input : list Z) : Z :=
  let lower := tolower <$> input in
  match input with [] => 0 | _ => c_bool (existsb (fun pat => contains pat lower) dangerous_patterns) end.

(** ** Tokens and nonces *)

Definition lcg (seed : Z) : Z := u32 (seed * 1103515245 + 12345).
(** [n] characters of [alphabet], and the seed left. *)
Fixpoint draw (alphabet : list Z) (mask : Z) (n : nat) (seed : Z) : list Z * Z :=
  match n with
  | O => ([], seed)
  | S n' => let s := lcg seed in let r := draw alphabet mask n' s in (nth (Z.to_nat (Z.land s mask)) alphabet 0 :: r.1, r.2)
  end.
Definition hex_alphabet : list Z := str_bytes "0123456789abcdef".
Definition mix (secret : list Z) (i : nat) (c : Z) : Z :=
  let x := Z.lxor c (Z.land (nth (i mod length secret)%nat secret 0) 0x0F) in
  if (102 <? x) || (x <? 48) then 48 + Z.land x 0x0F else x.
Definition csrf_seeded (seed now : Z) : Z := if seed =? 0 then u32 (Z.lxor (u32 now) 0xDEADBEEF) else seed.
Definition csrf_value (secret : list Z) (seed : Z) : list Z := imap (mix secret) (draw hex_alphabet 15 (WS_MAX_TOKEN_LEN - 1) seed).1.
Definition ws_csrf_token_generate (secret : list Z) (ttl_seconds now seed : Z) : option WsCsrfToken * Z :=
  match secret with
  | [] => (None, seed)
  | _ =>
      let s := csrf_seeded seed now in
      (Some (mk_token (csrf_value secret s) (truncated WS_MAX_HEADER_NAME_LEN (str_bytes "X-CSRF-Token")) (truncated 64 (str_bytes "csrf_token")) now (now + ttl_seconds) 0 1),
       (draw hex_alphabet 15 (WS_MAX_TOKEN_LEN - 1) s).2)
  end.
Definition ws_csrf_token_validate (token : WsCsrfToken) (received_token : list Z) (now : Z) : Z :=
  if valid token =? 0 then 0 else if expires_at token <? now then 0 else if negb (used token =? 0) then 0
  else if bool_decide (token_value token = received_token) then 1 else 0.
Definition ws_csrf_double_submit_generate (secret : list Z) (t_size : nat) (now seed : Z) : option (list Z) * Z :=
  if (t_size =? 0)%nat then (None, seed)
  else let r := ws_csrf_token_generate secret 3600 now seed in (truncated t_size ∘ token_value <$> r.1, r.2).
Definition ws_csrf_origin_check (origin_header expected_origin : list Z) : Z := c_bool (bool_decide (origin_header = expected_origin)).

Definition b64_alphabet : list Z := str_bytes "ABCDEFGHIJKLMNOPQRSTUVWXYZabcdefghijklmnopqrstuvwxyz0123456789+/".
Definition ws_csp_generate_nonce (now seed : Z) : WsCspNonce * Z :=
  let s := if seed =? 0 then u32 now else seed in
  let r := draw b64_alphabet 63 (WS_MAX_TOKEN_LEN - 1) s in (mk_nonce r.1 now, r.2).

(** ** Headers *)

Definition ws_csp_init_policy : WsCspPolicy :=
  let self := truncated WS_MAX_CSP_DIRECTIVE_LEN (str_bytes "'self'") in
  mk_policy self self self self self self self self [] false false (mk_nonce [] 0) (mk_nonce [] 0).
(** The buffers nonce_script and nonce_style of 128 bytes. *)
Definition nonce_part (n : WsCspNonce) : list Z :=
  match nonce_value n with [] => [] | v => truncated 128 (str_bytes " 'nonce-" ++ v ++ [39]) end.
Definition policy_text (p : WsCspPolicy) : list Z :=
  str_bytes "default-src " ++ default_src p ++ str_bytes "; script-src " ++ script_src p ++ nonce_part (script_nonce p) ++
  str_bytes "; style-src " ++ style_src p ++ nonce_part (style_nonce p) ++ str_bytes "; img-src " ++ img_src p ++
  str_bytes "; connect-src " ++ connect_src p ++ str_bytes "; font-src " ++ font_src p ++ str_bytes "; frame-src " ++ frame_src p ++
  str_bytes "; media-src " ++ media_src p ++
  (if upgrade_insecure_requests p then str_bytes "; upgrade-insecure-requests" else []) ++
  (if block_all_mixed_content p then str_bytes "; block-all-mixed-content" else []) ++
  match report_uri p with [] => [] | u => str_bytes "; report-uri " ++ u end.
Definition ws_csp_build_header (policy : WsCspPolicy) (header_size : nat) : option (list Z) :=
  if (header_size =? 0)%nat then None else Some (truncated header_size (policy_text policy)).
Definition ws_csp_validate_nonce (policy : WsCspPolicy) (received_nonce : list Z) (is_script : bool) : Z :=
  let expected := nonce_value (if is_script then script_nonce policy else style_nonce policy) in
  match expected with [] => 0 | _ => c_bool (bool_decide (expected = received_nonce)) end.

Definition ws_security_headers_init (include_subdomains : bool) (hsts_max_age : Z) : WsSecurityHeaders :=
  let age := if hsts_max_age <=? 0 then 31536000 else hsts_max_age in
  let value s := truncated WS_MAX_HEADER_VALUE_LEN (str_bytes s) in
  mk_headers (truncated WS_MAX_HEADER_VALUE_LEN (str_bytes "max-age=" ++ print_lld age ++ (if include_subdomains then str_bytes "; includeSubDomains" else [])))
    (value "DENY"%string) (value "nosniff"%string) (value "strict-origin-when-cross-origin"%string) [] [] (value "0"%string) (value "same-origin"%string).
Definition ws_security_headers_build_hsts (headers : WsSecurityHeaders) (h_size : nat) : option (list Z) :=
  if (h_size =? 0)%nat then None else Some (truncated h_size (hsts headers)).
Definition ws_security_headers_build_csp (headers : WsSecurityHeaders) (c_size : nat) : option (list Z) :=
  if (c_size =? 0)%nat then None else Some (truncated c_size (csp headers)).
Definition header_line (name : string) (value : list Z) : list Z := str_bytes name ++ str_bytes ": " ++ value ++ [13; 10].
Definition ws_security_headers_apply_all (headers : WsSecurityHeaders) (block_size : nat) : option (Z * list Z) :=
  if (block_size =? 0)%nat then None
  else
    let block := header_line "Strict-Transport-Security" (hsts headers) ++ header_line "X-Frame-Options" (x_frame_options headers) ++
     header_line "X-Content-Type-Options" (x_content_type_options headers) ++ header_line "Referrer-Policy" (referrer_policy headers) ++
     header_line "X-XSS-Protection" (x_xss_protection headers) ++ header_line "Cross-Origin-Opener-Policy" (cross_origin_opener_policy headers) ++
     match csp headers with [] => [] | c => header_line "Content-Security-Policy" c end in
    Some (Z.of_nat (length block), truncated block_size block).

(** ** Validation of input *)

Definition local_char (c : Z) : bool := is_alnum c || (c =? 46) || (c =? 95) || (c =? 37) || (c =? 43) || (c =? 45).
Definition domain_char (c : Z) : bool := is_alnum c || (c =? 46) || (c =? 45).
Definition ws_validate_email (email : list Z) : Z :=
  match strchr_before 64 email with
  | None => 0
  | Some local =>
      let domain := drop (S (length local)) email in
      if (length local =? 0)%nat then 0 else if (length domain =? 0)%nat then 0
      else if (64 <? length local)%nat || (255 <? length domain)%nat then 0
      else if negb (forallb local_char local) then 0
      else if bool_decide (strchr_before 46 domain = None) then 0
      else if negb (forallb domain_char domain) then 0 else 1
  end.
Definition ws_validate_url_safe (input : list Z) : Z := c_bool (forallb (fun c => unreserved c || (c =? 47)) input).
Definition ws_validate_alphanumeric (input : list Z) (max_len : nat) : Z :=
  if (length input =? 0)%nat || (max_len <? length input)%nat then 0 else c_bool (forallb (fun c => is_alnum c || (c =? 95)) input).
Fixpoint strip_loop (room : nat) (in_tag : bool) (html : list Z) : list Z :=
  match room, html with
  | S room', c :: html' =>
      if c =? 60 then strip_loop room true html' else if c =? 62 then strip_loop room false html'
      else if in_tag then strip_loop room in_tag html' else c :: strip_loop room' in_tag html'
  | _, _ => []
  end.
Definition ws_strip_tags (html : list Z) (p_size : nat) : option (list Z) := if (p_size =? 0)%nat then None else Some (strip_loop (p_size - 1) false html).

(** * Properties *)



(** ** The encoders *)

Lemma encode_loop_all esc margin n di src : (forall c, (0 < length (esc c))%nat) -> (di + length (mbind esc src) + margin <= n)%nat ->
  encode_loop esc margin n di src = mbind esc src.
Proof.
  intros Hesc. revert di. induction src as [|c src IH]; intros di Hn; [done|]. cbn [encode_loop mbind list_bind]. cbn [mbind list_bind] in Hn.
  rewrite length_app in Hn. specialize (Hesc c). rewrite (proj2 (Nat.ltb_lt _ _)) by lia. f_equal. apply IH. cbn [mbind]. lia.
Qed.
(** What is written is made of whole escapes. *)
Lemma encode_loop_prefix esc margin n di src : exists k, encode_loop esc margin n di src = mbind esc (take k src).
Proof.
  revert di. induction src as [|c src IH]; intros di; [by exists 0%nat|]. cbn [encode_loop]. destruct (_ <? n)%nat; [|by exists 0%nat].
  destruct (IH (di + length (esc c))%nat) as [k Hk]. exists (S k). by rewrite Hk.
Qed.
(** Escapes longer than the margin by [e] bytes write at most [e] bytes too many. *)
Lemma esc_loop_length esc margin e n di src : (forall c, (length (esc c) <= margin + e)%nat) -> (di < n + e)%nat ->
  (di + length (encode_loop esc margin n di src) < n + e)%nat.
Proof.
  intros Hesc. revert di. induction src as [|c src IH]; intros di Hdi; cbn [encode_loop]; [cbn; lia|]. specialize (Hesc c).
  destruct (Nat.ltb_spec (di + margin) n); [|cbn; lia]. rewrite length_app. specialize (IH (di + length (esc c))%nat). lia.
Qed.
Lemma Forall_bind_esc (P : Z -> Prop) (esc : Z -> list Z) src : (forall c, c ∈ src -> Forall P (esc c)) -> Forall P (mbind esc src).
Proof.
  induction src as [|c src IH]; intros H; [constructor|]. cbn [mbind list_bind]. apply Forall_app. split; [apply H; left|]. apply IH. intros; apply H; by right.
Qed.

Ltac escapes := repeat match goal with |- context [if ?b then _ else _] => destruct b eqn:? end.
Lemma html_escape_length c : (1 <= length (html_escape c) <= 6)%nat.
Proof. unfold html_escape. escapes; vm_compute; lia. Qed.
Lemma url_escape_length c : (1 <= length (url_escape c) <= 3)%nat.
Proof. unfold url_escape. escapes; cbn; lia. Qed.
Lemma css_escape_length c : (1 <= length (css_escape c) <= 2)%nat.
Proof. unfold css_escape. escapes; cbn; lia. Qed.
Lemma js_escape_length c : (1 <= length (js_escape c) <= 4)%nat.
Proof. unfold js_escape. escapes; cbn; lia. Qed.

(** ** HTML *)

Lemma entity_other l c rest : Forall (fun e => head e.1 = Some 38) l -> c <> 38 -> entity l (c :: rest) = None.
Proof.
  intros Hl Hc. induction Hl as [|[[|p pat] d] l Hp _ IH]; [done|done|]. injection Hp as ->. cbn [entity starts_with]. by rewrite (proj2 (Z.eqb_neq 38 c)) by lia.
Qed.
Lemma entity_none c rest : c <> 38 -> entity entities (c :: rest) = None.
Proof. apply entity_other. by repeat constructor. Qed.
Lemma decode_escape room c rest : html_decode_loop (S room) (html_escape c ++ rest) = c :: html_decode_loop room rest.
Proof.
  unfold html_escape. destruct (Z.eqb_spec c 38) as [->|H1]; [done|]. destruct (Z.eqb_spec c 60) as [->|H2]; [done|]. destruct (Z.eqb_spec c 62) as [->|H3]; [done|].
  destruct (Z.eqb_spec c 34) as [->|H4]; [done|]. destruct (Z.eqb_spec c 39) as [->|H5]; [done|]. destruct (Z.eqb_spec c 47) as [->|H6]; [done|].
  cbn [app html_decode_loop]. by rewrite entity_none.
Qed.
Lemma decode_escapes room s rest : html_decode_loop (length s + room) (mbind html_escape s ++ rest) = s ++ html_decode_loop room rest.
Proof. induction s as [|c s IH]; [done|]. cbn [mbind list_bind length Nat.add app]. rewrite <- app_assoc, decode_escape. by rewrite IH. Qed.

(** ** URLs *)

(** A statement on the values of four bits is checked on each of them. *)
Lemma four_bits (P : Z -> Prop) : Forall P (seqZ 0 16) -> forall x, 0 <= x < 16 -> P x.
Proof. intros H x Hx. rewrite Forall_forall in H. apply H, elem_of_seqZ. lia. Qed.
Lemma upper_hex_value x : 0 <= x < 16 -> hex_value (upper_hex x) = Some x.
Proof. apply (four_bits (fun x => hex_value (upper_hex x) = Some x)). by repeat constructor. Qed.
Lemma upper_hex_unreserved x : 0 <= x < 16 -> unreserved (upper_hex x) = true.
Proof. apply (four_bits (fun x => unreserved (upper_hex x) = true)). by repeat constructor. Qed.
Lemma byte_halves c : byte_ok c -> Z.shiftr c 4 = c / 16 /\ Z.land c 15 = c mod 16 /\ 0 <= c / 16 < 16 /\ 0 <= c mod 16 < 16 /\ c / 16 * 16 + c mod 16 = c.
Proof.
  unfold byte_ok. intros Hc. rewrite Z.shiftr_div_pow2 by lia. change 15 with (2 ^ 4 - 1). rewrite land_ones by lia. change (2 ^ 4) with 16.
  pose proof (Z.mod_pos_bound c 16). pose proof (Z.div_mod c 16). assert (0 <= c / 16 < 16) by (split; [apply Z.div_pos|apply Z.div_lt_upper_bound]; lia). lia.
Qed.
Lemma strtol16_upper a b : 0 <= a < 16 -> 0 <= b < 16 -> strtol16 [upper_hex a; upper_hex b] = a * 16 + b.
Proof.
  intros Ha Hb. unfold strtol16. assert (Hs : skip_spaces [upper_hex a; upper_hex b] = [upper_hex a; upper_hex b]).
  { cbn [skip_spaces]. unfold is_space, upper_hex. by destruct (Z.ltb_spec a 10); rewrite (proj2 (Z.eqb_neq _ 32)), (proj2 (Z.leb_gt _ 13)), andb_false_r by lia. }
  assert (Hu : 48 <= upper_hex a) by (unfold upper_hex; destruct (a <? 10); lia). rewrite Hs.
  transitivity (hex_prefix 0 [upper_hex a; upper_hex b]); [|cbn [hex_prefix]; by rewrite !upper_hex_value].
  destruct (upper_hex a) as [|p|p]; [done| |done]. do 6 (destruct p as [p|p|]; try done); lia.
Qed.

Lemma url_escape_chars c : byte_ok c -> Forall (fun x => unreserved x = true \/ x = 37 \/ x = 43) (url_escape c).
Proof.
  intros Hc. unfold url_escape. destruct (unreserved c) eqn:Hu; [by constructor; [left|]|]. destruct (c =? 32); [constructor; auto|].
  destruct (byte_halves c Hc) as (-> & -> & Hh & Hl & _). constructor; [auto|]. constructor; [left; by apply upper_hex_unreserved|]. constructor; [left; by apply upper_hex_unreserved|done].
Qed.
Lemma url_decode_escape room c rest : byte_ok c -> ws_url_decode_loop (S room) (url_escape c ++ rest) = c :: ws_url_decode_loop room rest.
Proof.
  intros Hc. unfold url_escape. destruct (unreserved c) eqn:Hu.
  - assert (c <> 37 /\ c <> 43) as [H1 H2] by (split; intros ->; done). cbn [app].
    transitivity ((if c =? 43 then 32 else c) :: ws_url_decode_loop room rest); [|by rewrite (proj2 (Z.eqb_neq _ _))].
    destruct c as [|p|p]; [done| |done]. cbn [ws_url_decode_loop]. do 6 (destruct p as [p|p|]; try done).
  - destruct (Z.eqb_spec c 32) as [->|_]; [done|]. cbn [app ws_url_decode_loop]. f_equal.
    destruct (byte_halves c Hc) as (-> & -> & Hh & Hl & Heq). rewrite strtol16_upper by done. unfold u8. rewrite Heq. by apply Z.mod_small.
Qed.
Lemma url_decode_escapes room s rest : Forall byte_ok s -> ws_url_decode_loop (length s + room) (mbind url_escape s ++ rest) = s ++ ws_url_decode_loop room rest.
Proof.
  induction 1 as [|c s Hc _ IH]; [done|]. cbn [mbind list_bind length Nat.add app]. rewrite <- app_assoc, url_decode_escape by done. f_equal. apply IH.
Qed.

(** Text encoded for HTML or for a URL decodes to itself when the buffers have room; what
    is decoded always fits. *)
Theorem ws_encode_roundtrip s n m : Forall byte_ok s -> (length s < m)%nat ->
  ((length (mbind html_escape s) + 8 <= n)%nat -> ws_html_entity_encode s n ≫= (fun e => ws_html_entity_decode e m) = Some s) /\
  ((length (mbind url_escape s) + 4 <= n)%nat -> ws_url_encode s n ≫= (fun e => ws_url_decode e m) = Some s).
Proof.
  intros Hs Hm. unfold ws_html_entity_encode, ws_url_encode, encode_with, ws_html_entity_decode, ws_url_decode.
  rewrite (proj2 (Nat.eqb_neq m 0)) by lia. split; intros Hn; rewrite (proj2 (Nat.eqb_neq n 0)) by lia; cbn [mbind option_bind]; f_equal.
  - rewrite encode_loop_all by (done || intros c; apply html_escape_length). replace (m - 1)%nat with (length s + (m - 1 - length s))%nat by lia.
    rewrite <- (app_nil_r (s ≫= html_escape)), decode_escapes. destruct (m - 1 - length s)%nat; apply app_nil_r.
  - rewrite encode_loop_all by (done || intros c; apply url_escape_length). replace (m - 1)%nat with (length s + (m - 1 - length s))%nat by lia.
    rewrite <- (app_nil_r (s ≫= url_escape)), url_decode_escapes by done. destruct (m - 1 - length s)%nat; apply app_nil_r.
Qed.
Lemma ws_encode_roundtrip_witness : let s := str_bytes "<a href='x y'>&amp;%" in
  ws_html_entity_encode s 100 ≫= (fun e => ws_html_entity_decode e 100) = Some s /\ ws_url_encode s 100 ≫= (fun e => ws_url_decode e 100) = Some s.
Proof.
  intros s. destruct (ws_encode_roundtrip s 100 100) as [H1 H2]; [apply str_bytes_ok|vm_compute; lia|]. split; [apply H1|apply H2]; vm_compute; lia.
Defined.

(** ** Sanitizing *)

(** The body of a literal in which a backslash takes the next character with it: none
    that [stops] it stands alone, and the last is not a backslash. *)
Fixpoint literal (stops : Z -> bool) (escaped : bool) (s : list Z) : bool :=
  match s with
  | [] => negb escaped
  | c :: s' => if escaped then literal stops false s' else if c =? 92 then literal stops true s' else negb (stops c) && literal stops false s'
  end.
Definition js_stops (c : Z) : bool := bool_decide (c ∈ [34; 39; 10; 13; 47; 60; 62]).
Definition css_stops (c : Z) : bool := bool_decide (c ∈ [34; 39; 40; 41; 60]).
Definition safe_in (mode : WsXssMode) (out : list Z) : Prop :=
  match mode with
  | WS_XSS_MODE_HTML | WS_XSS_MODE_HTML_ATTR => Forall (fun c => c ∉ [60; 62; 34; 39; 47]) out
  | WS_XSS_MODE_URL => Forall (fun x => unreserved x = true \/ x = 37 \/ x = 43) out
  | WS_XSS_MODE_JAVASCRIPT => literal js_stops false out = true
  | WS_XSS_MODE_CSS => literal css_stops false out = true
  end.
Lemma literal_bind stops (esc : Z -> list Z) src : (forall c rest, literal stops false (esc c ++ rest) = literal stops false rest) ->
  literal stops false (mbind esc src) = true.
Proof. intros H. induction src as [|c src IH]; [done|]. cbn [mbind list_bind]. rewrite H. apply IH. Qed.
Lemma js_escape_literal c rest : literal js_stops false (js_escape c ++ rest) = literal js_stops false rest.
Proof.
  unfold js_escape. repeat match goal with |- context [if c =? ?k then _ else _] => destruct (Z.eqb_spec c k) as [->|]; [done|] end.
  cbn [app literal]. rewrite (proj2 (Z.eqb_neq c 92)) by done. unfold js_stops. rewrite bool_decide_eq_false_2; [done|]. rewrite !not_elem_of_cons. by repeat split; [..|apply not_elem_of_nil].
Qed.
Lemma css_escape_literal c rest : literal css_stops false (css_escape c ++ rest) = literal css_stops false rest.
Proof.
  unfold css_escape. repeat match goal with |- context [if c =? ?k then _ else _] => destruct (Z.eqb_spec c k) as [->|]; [done|] end.
  cbn [app literal]. rewrite (proj2 (Z.eqb_neq c 92)) by done. unfold css_stops. rewrite bool_decide_eq_false_2; [done|]. rewrite !not_elem_of_cons. by repeat split; [..|apply not_elem_of_nil].
Qed.
Lemma html_escape_chars c : Forall (fun x => x ∉ [60; 62; 34; 39; 47]) (html_escape c).
Proof.
  unfold html_escape. repeat match goal with |- context [if c =? ?k then _ else _] => destruct (Z.eqb_spec c k) as [->|]; [apply (bool_decide_unpack _); vm_compute; exact I|] end.
  constructor; [set_solver|done].
Qed.
(** What is written for a context cannot leave it: no character of markup or quote
    for HTML, only what may stand in a URL, no quote or bracket outside an escape in
    scripts and styles.  It fits the buffer, but for scripts one byte is missing. *)
Theorem ws_xss_sanitize_safe input mode n out : Forall byte_ok input -> ws_xss_sanitize input mode n = Some out ->
  safe_in mode out /\ (length out < match mode with WS_XSS_MODE_JAVASCRIPT => n + 1 | _ => n end)%nat.
Proof.
  intros Hin Hout.
  assert (Hgen : forall esc margin e, (forall c, (length (esc c) <= margin + e)%nat) -> encode_with esc margin input n = Some out ->
    (exists k, out = mbind esc (take k input)) /\ (length out < n + e)%nat).
  { intros esc margin e Hesc. unfold encode_with. destruct (Nat.eqb_spec n 0); [done|]. intros [= <-]. split; [apply encode_loop_prefix|].
    apply (esc_loop_length esc margin e n 0 input Hesc). lia. }
  destruct mode; cbn [ws_xss_sanitize safe_in] in *.
  1,2: destruct (Hgen html_escape 8%nat 0%nat ltac:(intros c; pose proof (html_escape_length c); lia) Hout) as [[k ->] Hl]; cbn; split; [|by rewrite Nat.add_0_r in Hl]; apply Forall_bind_esc; intros; apply html_escape_chars.
  - destruct (Hgen js_escape 3%nat 1%nat ltac:(intros c; pose proof (js_escape_length c); lia) Hout) as [[k ->] Hl]. split; [|done]. apply literal_bind, js_escape_literal.
  - destruct (Hgen url_escape 4%nat 0%nat ltac:(intros c; pose proof (url_escape_length c); lia) Hout) as [[k ->] Hl]. split; [|by rewrite Nat.add_0_r in Hl].
    apply Forall_bind_esc. intros c Hc. apply url_escape_chars. apply (Forall_take _ k) in Hin. rewrite Forall_forall in Hin. by apply Hin.
  - destruct (Hgen css_escape 3%nat 0%nat ltac:(intros c; pose proof (css_escape_length c); lia) Hout) as [[k ->] Hl]. split; [|by rewrite Nat.add_0_r in Hl]. apply literal_bind, css_escape_literal.
Qed.
Lemma ws_xss_sanitize_safe_witness : exists out, ws_xss_sanitize (str_bytes "';alert(1)</script>") WS_XSS_MODE_JAVASCRIPT 64 = Some out /\ safe_in WS_XSS_MODE_JAVASCRIPT out.
Proof.
  eexists. split; [vm_compute; reflexivity|].
  apply (ws_xss_sanitize_safe (str_bytes "';alert(1)</script>") WS_XSS_MODE_JAVASCRIPT 64); [apply str_bytes_ok|vm_compute; reflexivity].
Defined.
(** For scripts the zero lands one byte behind the buffer. *)
Example js_writes_past_end : length <$> ws_xss_sanitize [60] WS_XSS_MODE_JAVASCRIPT 4 = Some 4%nat.
Proof. reflexivity. Qed.
(** An attribute without quotes gets the spaces that separate attributes. *)
Example attribute_spaces_kept : ws_xss_sanitize (str_bytes "x onclick=f") WS_XSS_MODE_HTML_ATTR 64 = Some (str_bytes "x onclick=f").
Proof. reflexivity. Qed.

(** ** Tokens and nonces *)

Lemma lcg_mod k s : 0 <= k <= 32 -> lcg s mod 2 ^ k = (s * 1103515245 + 12345) mod 2 ^ k.
Proof.
  intros Hk. unfold lcg, u32. replace (2 ^ 32) with (2 ^ k * 2 ^ (32 - k)) by (rewrite <- Z.pow_add_r by lia; f_equal; lia).
  rewrite Z.rem_mul_r by (pose proof (Z.pow_pos_nonneg 2 k); pose proof (Z.pow_pos_nonneg 2 (32 - k)); lia).
  rewrite (Z.mul_comm (2 ^ k)), Z.mod_add by (pose proof (Z.pow_pos_nonneg 2 k); lia). apply Z.mod_mod. pose proof (Z.pow_pos_nonneg 2 k); lia.
Qed.
(** What is drawn depends on the last bits of the seed only. *)
Lemma draw_mod alphabet k n s s' : 0 <= k <= 32 -> s mod 2 ^ k = s' mod 2 ^ k -> (draw alphabet (2 ^ k - 1) n s).1 = (draw alphabet (2 ^ k - 1) n s').1.
Proof.
  intros Hk. revert s s'. induction n as [|n IH]; intros s s' Hs; [done|]. cbn [draw fst].
  assert (Hl : lcg s mod 2 ^ k = lcg s' mod 2 ^ k).
  { rewrite !lcg_mod by done. pose proof (Z.pow_pos_nonneg 2 k). rewrite <- (Z.add_mod_idemp_l (s * _)), <- (Z.mul_mod_idemp_l s), Hs by lia.
    by rewrite Z.mul_mod_idemp_l, Z.add_mod_idemp_l by lia. }
  rewrite !land_ones, Hl by lia. f_equal. by apply IH.
Qed.
Lemma draw_among alphabet k n s : 0 <= k <= 32 -> (draw alphabet (2 ^ k - 1) n s).1 ∈ (fun r => (draw alphabet (2 ^ k - 1) n r).1) <$> seqZ 0 (2 ^ k).
Proof.
  intros Hk. pose proof (Z.pow_pos_nonneg 2 k). apply list_elem_of_fmap. exists (s mod 2 ^ k). split.
  - apply draw_mod; [done|]. by rewrite Z.mod_mod by lia.
  - apply elem_of_seqZ. pose proof (Z.mod_pos_bound s (2 ^ k)). lia.
Qed.
Lemma draw_chars alphabet mask n s : Forall (fun c => c = 0 \/ c ∈ alphabet) (draw alphabet mask n s).1 /\ length (draw alphabet mask n s).1 = n.
Proof.
  revert s. induction n as [|n IH]; intros s; [by split|]. cbn [draw fst length]. destruct (IH (lcg s)) as [H1 H2]. split; [|by f_equal]. constructor; [|done].
  destruct (nth_in_or_default (Z.to_nat (Z.land (lcg s) mask)) alphabet 0) as [H|H]; [right; by apply list_elem_of_In|by left].
Qed.

(** A token against request forgery is accepted until it expires and nothing else is;
    but whatever the seed, a secret has at most sixteen tokens. *)
Theorem ws_csrf_token_sixteen secret ttl now seed t seed' : ws_csrf_token_generate secret ttl now seed = (Some t, seed') ->
  (forall received now', ws_csrf_token_validate t received now' = 1 <-> received = token_value t /\ now' <= now + ttl) /\
  token_value t ∈ csrf_value secret <$> seqZ 0 16.
Proof.
  destruct secret as [|b secret]; [done|]. cbn [ws_csrf_token_generate]. intros Hg. apply pair_equal_spec in Hg as [Ht _]. injection Ht as <-. cbn [token_value]. split.
  - intros received now'. cbv [ws_csrf_token_validate]. cbn [valid expires_at used token_value negb Z.eqb]. destruct (Z.ltb_spec (now + ttl) now').
    + split; [discriminate|]. lia.
    + generalize (csrf_value (b :: secret) (csrf_seeded seed now)) as v. intros v. case_bool_decide; [|split; [done|]; intros [-> _]; done]. subst. split; [|done]. intros _. split; [done|]. lia.
  - pose proof (draw_among hex_alphabet 4 (WS_MAX_TOKEN_LEN - 1) (csrf_seeded seed now) ltac:(lia)) as H. apply list_elem_of_fmap in H as (r & Hr & Hin).
    apply list_elem_of_fmap. exists r. split; [|done]. unfold csrf_value. change 15 with (2 ^ 4 - 1). by rewrite Hr.
Qed.
Lemma ws_csrf_token_sixteen_witness : exists t seed', ws_csrf_token_generate (str_bytes "secret") 3600 1000 7 = (Some t, seed') /\ token_value t ∈ csrf_value (str_bytes "secret") <$> seqZ 0 16.
Proof.
  eexists _, _. split; [reflexivity|]. exact (proj2 (ws_csrf_token_sixteen (str_bytes "secret") 3600 1000 7 _ _ eq_refl)).
Defined.
(** Mixing the secret in leaves characters that are no digits. *)
Example token_not_hex : forallb (fun c => bool_decide (c ∈ hex_alphabet)) (csrf_value (str_bytes "key") 0) = false.
Proof. vm_compute. reflexivity. Qed.

(** A nonce is one of 64, and the header of the policy holds it cut, without the quote
    that should close it. *)
Theorem ws_csp_nonce_cut now seed : let n := (ws_csp_generate_nonce now seed).1 in
  nonce_value n ∈ (fun r => (draw b64_alphabet 63 (WS_MAX_TOKEN_LEN - 1) r).1) <$> seqZ 0 64 /\
  nonce_part n = str_bytes " 'nonce-" ++ take 119 (nonce_value n) /\ 39 ∉ take 119 (nonce_value n).
Proof.
  intros n. subst n. unfold ws_csp_generate_nonce. set (s := if seed =? 0 then _ else _). cbn [fst nonce_value].
  pose proof (draw_chars b64_alphabet 63 (WS_MAX_TOKEN_LEN - 1) s) as [Hc Hl]. split; [apply (draw_among b64_alphabet 6); lia|].
  set (v := (draw b64_alphabet 63 (WS_MAX_TOKEN_LEN - 1) s).1) in *. clearbody v. split.
  - unfold nonce_part, truncated. cbn [nonce_value]. destruct v as [|c v]; [done|]. rewrite take_app_ge by (vm_compute; lia).
    f_equal. change (128 - 1 - length (str_bytes " 'nonce-"))%nat with 119%nat. rewrite take_app_le; [done|]. rewrite Hl. vm_compute. lia.
  - intros Hin. apply (Forall_take _ 119) in Hc. rewrite Forall_forall in Hc. destruct (Hc 39 Hin) as [?|H]; [done|]. revert H. vm_compute. set_solver.
Qed.

(** ** Validation *)

Lemma strchr_before_Some c s l : strchr_before c s = Some l -> exists r, s = l ++ c :: r /\ c ∉ l.
Proof.
  revert l. induction s as [|x s IH]; intros l; cbn [strchr_before]; [done|]. destruct (Z.eqb_spec x c) as [->|Hx].
  - intros [= <-]. exists s. split; [done|apply not_elem_of_nil].
  - destruct (strchr_before c s) as [l'|]; [|done]. intros [= <-]. destruct (IH l' eq_refl) as (r & -> & Hl). exists r. split; [done|]. apply not_elem_of_cons. auto.
Qed.
(** An address is accepted when it is a local part of 1 to 64 characters, an @ and a
    domain of at most 255 characters with a dot, each of the characters allowed. *)
Theorem ws_validate_email_correct email : ws_validate_email email = 1 <->
  exists local domain, email = local ++ 64 :: domain /\ (1 <= length local <= 64)%nat /\ (length domain <= 255)%nat /\
    forallb local_char local = true /\ forallb domain_char domain = true /\ 46 ∈ domain.
Proof.
  unfold ws_validate_email. split.
  - destruct (strchr_before 64 email) as [local|] eqn:Hat; [|done]. apply strchr_before_Some in Hat as (domain & -> & _).
    replace (drop (S (length local)) (local ++ 64 :: domain)) with domain by (by rewrite drop_app_ge, Nat.sub_succ_l, Nat.sub_diag by lia).
    destruct (Nat.eqb_spec (length local) 0); [done|]. destruct (Nat.eqb_spec (length domain) 0); [done|].
    destruct (Nat.ltb_spec 64 (length local)); [done|]. destruct (Nat.ltb_spec 255 (length domain)); [done|]. cbn [orb].
    destruct (forallb local_char local) eqn:Hlc; [|done]. case_bool_decide as Hdot; [done|]. destruct (forallb domain_char domain) eqn:Hdc; [|done].
    intros _. exists local, domain. repeat split; try lia; try done. rewrite strchr_before_None in Hdot. by apply dec_stable in Hdot.
  - intros (local & domain & -> & Hl & Hd & Hlc & Hdc & Hdot). assert (Hat : 64 ∉ local).
    { intros Hin%list_elem_of_In. rewrite forallb_forall in Hlc. by specialize (Hlc 64 Hin). }
    rewrite strchr_before_app by done. replace (drop (S (length local)) (local ++ 64 :: domain)) with domain by (by rewrite drop_app_ge, Nat.sub_succ_l, Nat.sub_diag by lia).
    assert (length domain <> 0)%nat by (destruct domain; [by apply elem_of_nil in Hdot|done]).
    rewrite Hlc, Hdc. rewrite !(proj2 (Nat.eqb_neq _ _)), !(proj2 (Nat.ltb_ge _ _)) by lia.
    cbn [orb negb]. case_bool_decide as Hn; [|done]. by rewrite strchr_before_None in Hn.
Qed.
Example lone_dot_accepted : ws_validate_email (str_bytes "a@.") = 1.
Proof. reflexivity. Qed.
Example traversal_is_url_safe : ws_validate_url_safe (str_bytes "../../etc/passwd") = 1.
Proof. reflexivity. Qed.

Lemma strip_loop_spec room in_tag s : Forall (fun c => c ∉ [60; 62]) (strip_loop room in_tag s) /\ (length (strip_loop room in_tag s) <= room)%nat.
Proof.
  revert room in_tag. induction s as [|c s IH]; intros [|room] in_tag; cbn [strip_loop length]; try (split; [done|lia]).
  destruct (Z.eqb_spec c 60); [apply IH|]. destruct (Z.eqb_spec c 62); [apply IH|]. destruct in_tag; [apply IH|].
  destruct (IH room false) as [H1 H2]. split; [constructor; [set_solver|done]|]. cbn [length]. lia.
Qed.
(** No markup is left, the buffer holds the result, and text without markup stays. *)
Theorem ws_strip_tags_correct s n out : ws_strip_tags s n = Some out ->
  Forall (fun c => c ∉ [60; 62]) out /\ (length out < n)%nat /\ (Forall (fun c => c ∉ [60; 62]) s -> out = take (n - 1) s).
Proof.
  unfold ws_strip_tags. destruct (Nat.eqb_spec n 0) as [|Hn]; [done|]. intros [= <-]. destruct (strip_loop_spec (n - 1) false s) as [H1 H2]. split; [done|]. split; [lia|].
  intros Hs. clear H1 H2. generalize (n - 1)%nat as room. induction Hs as [|c s Hc _ IH]; intros [|room]; try done. cbn [strip_loop take].
  rewrite (proj2 (Z.eqb_neq c 60)), (proj2 (Z.eqb_neq c 62)) by set_solver. by rewrite IH.
Qed.
Lemma ws_strip_tags_correct_witness : exists out, ws_strip_tags (str_bytes "<b>hi</b>") 64 = Some out /\ Forall (fun c => c ∉ [60; 62]) out.
Proof. eexists. split; [vm_compute; reflexivity|]. exact (proj1 (ws_strip_tags_correct (str_bytes "<b>hi</b>") 64 _ eq_refl)). Defined.
