(* ===== verification/DistCache.v ===== *)
(** Model of [mini-business-infra/src/distributed_cache.c].

    Entries live in a heap: an address is the position of the allocation, [calloc] takes
    a fresh one, [free] removes it, and following an address that is not there is
    undefined behaviour ([Undefined]).  A loop has [fuel] rounds, and [Running] stands
    for a loop that is not over by then.  The field [next] of an entry is, as in the
    code, both the link of its bucket's chain and that of the list in order of use.

    The [n]-th reading of [time(NULL)] is [clock n]; [backend_read] is what the [n]-th
    call answers for a key.  What [on_evict] and [backend_write] are called with is
    collected.  [D] is the type of doubles.  Allocation succeeds. *)

From S2P Require Import Prelude Arith Bytes BloomFilter.

Definition DC_DEFAULT_TTL_SEC : Z := 300.
Definition DC_MAX_VV_NODES : nat := 32.
Inductive dc_eviction_policy_t := DC_EVICTION_NONE | DC_EVICTION_LRU | DC_EVICTION_LFU | DC_EVICTION_TTL.
Inductive dc_write_strategy_t := DC_WRITE_THROUGH | DC_WRITE_BEHIND | DC_WRITE_AROUND.
Inductive dc_invalidate_mode_t := DC_INVALIDATE_DELETE | DC_INVALIDATE_UPDATE | DC_INVALIDATE_VERSION.

Record dc_entry_t := mk_entry {
  key : string; value : list Z; ttl_seconds : Z; created_at : Z; last_access : Z; access_count : Z; stale : bool; next : option nat; prev : option nat;
}.
Record dc_cache_config_t (D : Type) := mk_config {
  c_max_entries : Z; c_max_memory_bytes : Z; c_eviction_policy : dc_eviction_policy_t; c_stampede_protection : bool; c_recompute_threshold : D;
  c_write_strategy : dc_write_strategy_t; c_backend_read : option (nat -> string -> option (list Z)); c_backend_write : bool; c_on_evict : bool;
}.
Arguments mk_config {D}.
Arguments c_max_entries {D}.
Arguments c_max_memory_bytes {D}.
Arguments c_eviction_policy {D}.
Arguments c_stampede_protection {D}.
Arguments c_recompute_threshold {D}.
Arguments c_write_strategy {D}.
Arguments c_backend_read {D}.
Arguments c_backend_write {D}.
Arguments c_on_evict {D}.
(** The settings of a cache do not change, so they stay together in [config]. *)
Record dc_cache (D : Type) := mk_cache {
  config : dc_cache_config_t D; buckets : list (option nat); entry_count : Z; memory_used : Z; lru_head : option nat; lru_tail : option nat;
  hit_count : Z; miss_count : Z; heap : gmap nat dc_entry_t; next_addr : nat; clock_reads : nat; backend_reads : nat;
  evicted : list (string * list Z); written : list (string * list Z);
}.
Arguments mk_cache {D}.
Arguments config {D}.
Arguments buckets {D}.
Arguments entry_count {D}.
Arguments memory_used {D}.
Arguments lru_head {D}.
Arguments lru_tail {D}.
Arguments hit_count {D}.
Arguments miss_count {D}.
Arguments heap {D}.
Arguments next_addr {D}.
Arguments clock_reads {D}.
Arguments backend_reads {D}.
Arguments evicted {D}.
Arguments written {D}.

Inductive outcome (A : Type) := Done (x : A) | Undefined | Running.
Arguments Done {A}.
Arguments Undefined {A}.
Arguments Running {A}.

Definition dc_hash (key : string) : Z := foldl (fun h c => u32 (h * 33 + c)) 5381 (str_bytes key).

Section cache.
Context {D : Type} `{HA : Arith D} (clock : nat -> Z) (fuel : nat).

(** ** State passing *)

Definition M (A : Type) : Type := dc_cache D -> outcome (A * dc_cache D).
Definition ret {A} (x : A) : M A := fun c => Done (x, c).
Definition bind {A B} (m : M A) (f : A -> M B) : M B := fun c => match m c with Done (x, c') => f x c' | Undefined => Undefined | Running => Running end.
Definition running {A} : M A := fun _ => Running.
Definition gets {A} (f : dc_cache D -> A) : M A := fun c => Done (f c, c).
Definition modify (f : dc_cache D -> dc_cache D) : M unit := fun c => Done (tt, f c).
Local Notation "'let*' x := m 'in' k" := (bind m (fun x => k)) (at level 200, x name, right associativity).
Local Notation "m ;; k" := (bind m (fun _ => k)) (at level 100, k at level 200, right associativity).
Definition when (b : bool) (m : M unit) : M unit := if b then m else ret tt.
Definition on_some {A} (o : option A) (f : A -> M unit) : M unit := match o with Some x => f x | None => ret tt end.

Definition load (a : nat) : M dc_entry_t := fun c => match heap c !! a with Some e => Done (e, c) | None => Undefined end.
Definition store (a : nat) (f : dc_entry_t -> dc_entry_t) : M unit :=
  fun c => match heap c !! a with Some e => Done (tt, c <| heap ::= <[a := f e]> |>) | None => Undefined end.
Definition calloc (e : dc_entry_t) : M nat := fun c => Done (next_addr c, c <| heap ::= <[next_addr c := e]> |> <| next_addr ::= S |>).
Definition free (a : nat) : M unit := fun c => match heap c !! a with Some _ => Done (tt, c <| heap ::= delete a |>) | None => Undefined end.
Definition time_now : M Z := fun c => Done (clock (clock_reads c), c <| clock_reads ::= S |>).

(** Where a link is kept: a bucket or the field [next] of an entry. *)
Inductive slot := Bucket (i : nat) | Next (a : nat).
Definition read_slot (s : slot) : M (option nat) :=
  match s with Bucket i => gets (fun c => mjoin (buckets c !! i)) | Next a => let* e := load a in ret (next e) end.
Definition write_slot (s : slot) (v : option nat) : M unit :=
  match s with Bucket i => modify (fun c => c <| buckets ::= <[i := v]> |>) | Next a => store a (fun e => e <| next := v |>) end.
Definition bucket_of (k : string) : M nat := gets (fun c => Z.to_nat (dc_hash k mod u32 (Z.of_nat (length (buckets c))))).

(** [while (cond) body] *)
Fixpoint while_m (fuel : nat) (cond : dc_cache D -> bool) (body : M unit) : M unit :=
  match fuel with
  | O => running
  | S fuel' => let* b := gets cond in if b then body ;; while_m fuel' cond body else ret tt
  end.

(** ** Creation *)

Definition dc_cache_create (config : dc_cache_config_t D) : dc_cache D :=
  let n := if 0 <? c_max_entries config then c_max_entries config / 4 else 256 in
  let bucket_count := if n <? 16 then 16 else n in
  mk_cache config (replicate (Z.to_nat bucket_count) None) 0 0 None None 0 0 ∅ 0 0 0 [] [].

(** ** The list in order of use *)

(** The neighbours of [a] in the list are linked with each other. *)
Definition detach (a : nat) : M unit :=
  let* e := load a in on_some (prev e) (fun p => store p (fun x => x <| next := next e |>)) ;;
  let* e := load a in on_some (next e) (fun n => store n (fun x => x <| prev := prev e |>)).
Definition drop_tail (a : nat) : M unit :=
  let* t := gets lru_tail in when (bool_decide (t = Some a)) (let* e := load a in modify (fun c => c <| lru_tail := prev e |>)).
Definition drop_head (a : nat) : M unit :=
  let* h := gets lru_head in when (bool_decide (h = Some a)) (let* e := load a in modify (fun c => c <| lru_head := next e |>)).
(** The entry's bytes and the entry itself are given back. *)
Definition forget (a : nat) : M unit :=
  let* e := load a in
  modify (fun c => c <| memory_used ::= fun m => u64 (m - (Z.of_nat (length (value e)) + Z.of_nat (String.length (key e)) + 1)) |> <| entry_count ::= fun n => u64 (n - 1) |>) ;;
  free a.
Definition tell_evict (a : nat) : M unit :=
  let* e := load a in modify (fun c => if c_on_evict (config c) then c <| evicted ::= fun l => l ++ [(key e, value e)] |> else c).
Definition dc_lru_touch (a : nat) : M unit :=
  let* h := gets lru_head in
  if bool_decide (h = Some a) then ret tt
  else
    detach a ;; drop_tail a ;; store a (fun e => e <| prev := None |>) ;; store a (fun e => e <| next := h |>) ;;
    on_some h (fun b => store b (fun e => e <| prev := Some a |>)) ;; modify (fun c => c <| lru_head := Some a |>) ;;
    let* t := gets lru_tail in match t with None => modify (fun c => c <| lru_tail := Some a |>) | Some _ => ret tt end.

(** ** Eviction *)

(** [while ( *pp && *pp != e) pp = &( *pp)->next] *)
Fixpoint slot_of (fuel : nat) (s : slot) (a : nat) : M slot :=
  match fuel with
  | O => running
  | S fuel' => let* v := read_slot s in match v with Some b => if (b =? a)%nat then ret s else slot_of fuel' (Next b) a | None => ret s end
  end.
Definition dc_evict_lru : M unit :=
  let* t := gets lru_tail in
  on_some t (fun a =>
    tell_evict a ;; let* e := load a in let* idx := bucket_of (key e) in let* pp := slot_of fuel (Bucket idx) a in
    let* v := read_slot pp in on_some v (fun _ => let* e := load a in write_slot pp (next e)) ;;
    detach a ;; drop_head a ;; drop_tail a ;; forget a).
(** The scan of a bucket: the entry of the lowest count so far. *)
Fixpoint lfu_chain (fuel : nat) (e : option nat) (best : option (nat * Z)) : M (option (nat * Z)) :=
  match fuel with
  | O => running
  | S fuel' =>
      match e with
      | None => ret best
      | Some a => let* x := load a in
          lfu_chain fuel' (next x) (match best with Some (_, n) => if access_count x <? n then Some (a, access_count x) else best | None => Some (a, access_count x) end)
      end
  end.
Fixpoint lfu_buckets (l : list (option nat)) (best : option (nat * Z)) : M (option (nat * Z)) :=
  match l with [] => ret best | b :: l' => let* best := lfu_chain fuel b best in lfu_buckets l' best end.
Definition dc_evict_lfu : M unit := let* l := gets buckets in let* best := lfu_buckets l None in on_some best (fun _ => dc_evict_lru).
Definition expired (now : Z) (e : dc_entry_t) : bool := (0 <? ttl_seconds e) && (ttl_seconds e <? now - created_at e).
(** The sweep of the chain of bucket [i] from [e], after [last]. *)
Fixpoint ttl_chain (fuel : nat) (now : Z) (i : nat) (last e : option nat) : M unit :=
  match fuel with
  | O => running
  | S fuel' =>
      match e with
      | None => ret tt
      | Some a =>
          let* x := load a in
          if expired now x then
            tell_evict a ;; write_slot (match last with Some p => Next p | None => Bucket i end) (next x) ;;
            detach a ;; drop_head a ;; drop_tail a ;; forget a ;; ttl_chain fuel' now i last (next x)
          else ttl_chain fuel' now i (Some a) (next x)
      end
  end.
Definition for_buckets (f : nat -> option nat -> M unit) : M unit :=
  let* n := gets (fun c => length (buckets c)) in
  foldr (fun i m => let* b := read_slot (Bucket i) in f i b ;; m) (ret tt) (seq 0 n).
Definition dc_evict_ttl : M unit := let* now := time_now in for_buckets (fun i b => ttl_chain fuel now i None b).
Definition dc_evict_one : M unit :=
  let* cfg := gets config in
  match c_eviction_policy cfg with DC_EVICTION_LFU => dc_evict_lfu | DC_EVICTION_TTL => dc_evict_ttl | _ => dc_evict_lru end.

(** ** Operations *)

Fixpoint find_chain (fuel : nat) (k : string) (e : option nat) : M (option nat) :=
  match fuel with
  | O => running
  | S fuel' => match e with None => ret None | Some a => let* x := load a in if bool_decide (key x = k) then ret (Some a) else find_chain fuel' k (next x) end
  end.
Definition dc_find_entry (k : string) : M (option nat) := let* idx := bucket_of k in let* b := read_slot (Bucket idx) in find_chain fuel k b.
Definition write_through (k : string) (v : list Z) : M unit :=
  modify (fun c => match c_write_strategy (config c) with DC_WRITE_THROUGH => if c_backend_write (config c) then c <| written ::= fun l => l ++ [(k, v)] |> else c | _ => c end).
Definition update_entry (a : nat) (v : list Z) (ttl : Z) : M unit :=
  let* e := load a in
  modify (fun c => c <| memory_used ::= fun m => u64 (m - Z.of_nat (length (value e)) + Z.of_nat (length v)) |>) ;;
  let* now := time_now in
  store a (fun e => e <| value := v |> <| ttl_seconds := ttl |> <| created_at := now |> <| access_count ::= fun n => n + 1 |>).
Definition entry_size (k : string) (v : list Z) : Z := Z.of_nat (length v) + Z.of_nat (String.length k) + 1.
Definition make_room (k : string) (v : list Z) : M unit :=
  while_m fuel (fun c => (0 <? c_max_entries (config c)) && (c_max_entries (config c) <=? entry_count c)) dc_evict_one ;;
  while_m fuel (fun c => (0 <? c_max_memory_bytes (config c)) && (c_max_memory_bytes (config c) <? u64 (memory_used c + entry_size k v))) dc_evict_one.
Definition add_entry (k : string) (v : list Z) (ttl : Z) : M nat :=
  let* now := time_now in
  let* idx := bucket_of k in let* b := read_slot (Bucket idx) in
  let* a := calloc (mk_entry k v ttl now now 1 false b None) in
  write_slot (Bucket idx) (Some a) ;;
  modify (fun c => c <| entry_count ::= fun n => u64 (n + 1) |> <| memory_used ::= fun m => u64 (m + entry_size k v) |>) ;; ret a.
Definition dc_cache_put (k : string) (v : list Z) (ttl : Z) : M Z :=
  let* exist := dc_find_entry k in
  match exist with
  | Some a => update_entry a v ttl ;; dc_lru_touch a ;; write_through k v ;; ret 0
  | None => make_room k v ;; let* a := add_entry k v ttl in dc_lru_touch a ;; write_through k v ;; ret 0
  end.
(** The backend's answer, [None] when there is no backend or it has nothing. *)
Definition read_backend (k : string) : M (option (list Z)) :=
  fun c => match c_backend_read (config c) with
           | Some read => Done (read (backend_reads c) k, c <| backend_reads ::= S |>)
           | None => Done (None, c)
           end.
Definition refill (k : string) : M (option (list Z)) :=
  let* bv := read_backend k in
  match bv with Some v => dc_cache_put k v DC_DEFAULT_TTL_SEC ;; ret (Some v) | None => ret None end.
(** The early refresh of the protection against stampedes; [r] is rand() / RAND_MAX. *)
Definition recompute (a : nat) (k : string) (now : Z) (r : D) : M unit :=
  let* cfg := gets config in
  let* e := load a in
  let ratio := div (of_Z (now - created_at e)) (of_Z (ttl_seconds e)) in
  let threshold := c_recompute_threshold cfg in
  when (c_stampede_protection cfg && leb threshold ratio && ltb r (div (sub ratio threshold) (sub (of_Z 1) threshold))) (refill k ;; ret tt).
Definition dc_cache_get (k : string) (r : D) : M (option (list Z)) :=
  let* e := dc_find_entry k in
  match e with
  | None => modify (fun c => c <| miss_count ::= fun n => u64 (n + 1) |>) ;; refill k
  | Some a =>
      let* now := time_now in
      let* x := load a in
      if stale x || expired now x then recompute a k now r ;; refill k
      else
        modify (fun c => c <| hit_count ::= fun n => u64 (n + 1) |>) ;;
        store a (fun e => e <| last_access := now |> <| access_count ::= fun n => n + 1 |>) ;;
        dc_lru_touch a ;; let* x := load a in ret (Some (value x))
  end.
(** The chain of bucket [idx] from [e], after [last]. *)
Fixpoint delete_chain (fuel : nat) (k : string) (idx : nat) (last e : option nat) : M Z :=
  match fuel with
  | O => running
  | S fuel' =>
      match e with
      | None => ret (-1)
      | Some a =>
          let* x := load a in
          if bool_decide (key x = k) then
            tell_evict a ;; write_slot (match last with Some p => Next p | None => Bucket idx end) (next x) ;;
            detach a ;; drop_head a ;; drop_tail a ;; forget a ;; ret 0
          else delete_chain fuel' k idx (Some a) (next x)
      end
  end.
Definition dc_cache_delete (k : string) : M Z := let* idx := bucket_of k in let* b := read_slot (Bucket idx) in delete_chain fuel k idx None b.
Definition dc_cache_exists (k : string) : M Z := let* e := dc_find_entry k in ret (match e with Some _ => 1 | None => 0 end).
Definition dc_cache_expire (k : string) (ttl : Z) : M Z :=
  let* e := dc_find_entry k in
  match e with
  | None => ret (-1)
  | Some a => let* now := time_now in store a (fun e => e <| ttl_seconds := ttl |> <| created_at := now |>) ;; ret 0
  end.
Definition dc_cache_ttl (k : string) : M Z :=
  let* e := dc_find_entry k in
  match e with
  | None => ret (-1)
  | Some a =>
      let* x := load a in
      if ttl_seconds x <=? 0 then ret (-1)
      else let* now := time_now in let remaining := ttl_seconds x - (now - created_at x) in ret (if 0 <? remaining then remaining else 0)
  end.
Definition dc_cache_invalidate (k : string) (mode : dc_invalidate_mode_t) : M Z :=
  match mode with
  | DC_INVALIDATE_UPDATE =>
      let* e := dc_find_entry k in
      match e with
      | Some a => let* now := time_now in store a (fun e => e <| created_at := now |> <| stale := false |>) ;; ret 0
      | None => ret (-1)
      end
  | _ => dc_cache_delete k
  end.
(** What each call gives; the arrays keep their contents where it gives nothing. *)
Fixpoint dc_cache_batch_get (keys : list (string * D)) : M (list (option (list Z))) :=
  match keys with [] => ret [] | (k, r) :: keys' => let* v := dc_cache_get k r in let* vs := dc_cache_batch_get keys' in ret (v :: vs) end.
(** [None] for a time to live: the array is not given. *)
Fixpoint dc_cache_batch_put (items : list (string * list Z * option Z)) : M Z :=
  match items with [] => ret 0 | (k, v, ttl) :: items' => dc_cache_put k v (default DC_DEFAULT_TTL_SEC ttl) ;; dc_cache_batch_put items' end.
Fixpoint free_chain (fuel : nat) (e : option nat) : M unit :=
  match fuel with
  | O => running
  | S fuel' => match e with None => ret tt | Some a => let* x := load a in free a ;; free_chain fuel' (next x) end
  end.
Definition dc_cache_destroy : M unit := for_buckets (fun _ b => free_chain fuel b).
Definition dc_cache_flush : M Z :=
  for_buckets (fun i b => free_chain fuel b ;; write_slot (Bucket i) None) ;;
  modify (fun c => c <| entry_count := 0 |> <| memory_used := 0 |> <| lru_head := None |> <| lru_tail := None |> <| hit_count := 0 |> <| miss_count := 0 |>) ;; ret 0.
Definition dc_cache_size (c : dc_cache D) : Z := entry_count c.
Definition dc_cache_memory_used (c : dc_cache D) : Z := memory_used c.
Definition dc_cache_hit_count (c : dc_cache D) : Z := hit_count c.
Definition dc_cache_miss_count (c : dc_cache D) : Z := miss_count c.
Definition dc_cache_hit_rate (c : dc_cache D) : D :=
  let total := u64 (hit_count c + miss_count c) in if total =? 0 then of_Z 0 else div (of_Z (hit_count c)) (of_Z total).
Definition dc_cache_compact : M unit := dc_evict_ttl.

Definition warm_one (k : string) : M bool := let* v := refill k in ret (bool_decide (is_Some v)).
Fixpoint warm_loop (keys : list string) (warmed : Z) : M Z :=
  match keys with [] => ret warmed | k :: keys' => let* ok := warm_one k in warm_loop keys' (if ok then warmed + 1 else warmed) end.
Definition dc_cache_warm (hot_keys : list string) : M Z :=
  let* cfg := gets config in
  match hot_keys, c_backend_read cfg with [], _ => ret (-1) | _, None => ret 0 | _, Some _ => warm_loop hot_keys 0 end.
Definition dc_cache_set_lease (k : string) (lease_duration_ms : Z) : M Z :=
  let* e := dc_find_entry k in
  match e with None => ret (-1) | Some a => let* now := time_now in store a (fun e => e <| last_access := now * 1000 + lease_duration_ms |>) ;; ret 0 end.
Definition dc_cache_get_with_bloom (k : string) (r : D) (bloom : option bf_bloom_filter) : M (option (list Z)) :=
  let* e := dc_find_entry k in
  match e, bloom with
  | None, Some bf =>
      if bf_contains_string bf (Some k) =? 0 then modify (fun c => c <| miss_count ::= fun n => u64 (n + 1) |>) ;; ret None else dc_cache_get k r
  | _, _ => dc_cache_get k r
  end.
End cache.

Definition populate (s : Z * bf_bloom_filter) (k : string) : Z * bf_bloom_filter :=
  let r := bf_add_string s.2 (Some k) in ((if r.1 =? 0 then s.1 + 1 else s.1), r.2).
Definition dc_cache_populate_bloom (bloom : bf_bloom_filter) (keys : list string) : Z * bf_bloom_filter := foldl populate (0, bloom) keys.

(** ** Version vectors *)

(** [counters] holds the first [node_count] counters. *)
Definition dc_version_vector_t : Type := list Z.
Definition counter (v : list Z) (i : nat) : Z := default 0 (v !! i).
Definition vv_nodes (a b : list Z) : list nat := seq 0 (Nat.min (Nat.max (length a) (length b)) DC_MAX_VV_NODES).
Definition dc_vv_compare (a b : list Z) : Z :=
  let a_ge_b := forallb (fun i => negb (counter a i <? counter b i)) (vv_nodes a b) in
  let b_ge_a := forallb (fun i => negb (counter b i <? counter a i)) (vv_nodes a b) in
  if a_ge_b && b_ge_a then 0 else if a_ge_b then 1 else if b_ge_a then -1 else 2.
Definition dc_vv_merge (a b : list Z) : list Z :=
  (fun i => if counter b i <? counter a i then counter a i else counter b i) <$> vv_nodes a b.
Definition dc_cache_put_with_version {D} `{HA : Arith D} (clock : nat -> Z) (fuel : nat) (k : string) (v : list Z) (ttl : Z)
    (vv : option dc_version_vector_t) : dc_cache D -> outcome (Z * dc_cache D) :=
  bind (dc_find_entry fuel k) (fun e =>
    match e, vv with
    | Some a, Some (n :: vv') =>
        bind (load a) (fun x => if dc_vv_compare (n :: vv') [access_count x] =? -1 then ret 0 else dc_cache_put clock fuel k v ttl)
    | _, _ => dc_cache_put clock fuel k v ttl
    end).
