(* ===== verification/DistCacheSpec.v ===== *)
(** Theorems on [mini-business-infra/src/distributed_cache.c].

    As the links of buckets and of the list in order of use are the same field, the
    cache is a least-recently-used map only as long as no two keys share a bucket and
    nothing is deleted or swept ([dc_lru_refines]); otherwise entries are lost, chains
    become circular and freed entries are followed, as the behaviours at the end show. *)

From Stdlib Require Import QArith.
From S2P Require Import Prelude Arith Bytes BloomFilter DistCache.
#[local] Open Scope Z_scope.

(** ** Version vectors *)

(** Counters beyond the end count as 0, and only the first 32 are looked at. *)
Definition vv_le (a b : list Z) : Prop := forall i, (i < DC_MAX_VV_NODES)%nat -> counter a i <= counter b i.
Lemma vv_le_nodes a b a' b' : (forall i, i ∈ vv_nodes a' b' -> counter a i <= counter b i) ->
  (length a <= Nat.max (length a') (length b'))%nat -> (length b <= Nat.max (length a') (length b'))%nat -> vv_le a b.
Proof.
  intros H Ha Hb i Hi. destruct (decide (i < Nat.max (length a') (length b'))%nat) as [Hlt|Hge].
  - apply H. apply elem_of_seq. unfold DC_MAX_VV_NODES in *. lia.
  - unfold counter. rewrite (lookup_ge_None_2 a), (lookup_ge_None_2 b) by lia. done.
Qed.
Lemma vv_forallb a b a' b' : (length a <= Nat.max (length a') (length b'))%nat -> (length b <= Nat.max (length a') (length b'))%nat ->
  forallb (fun i => negb (counter b i <? counter a i)) (vv_nodes a' b') = true <-> vv_le a b.
Proof.
  intros Ha Hb. rewrite forallb_forall. split.
  - intros H. apply (vv_le_nodes a b a' b'); [|done|done]. intros i Hi%list_elem_of_In. specialize (H i Hi). zbool. done.
  - intros H i Hi%list_elem_of_In%elem_of_seq. apply negb_true_iff, Z.ltb_ge, H. lia.
Qed.
(** Comparing tells whether one vector is below the other, and merging gives the least
    vector above both. *)
Theorem dc_vv_correct a b :
  (dc_vv_compare a b = 0 <-> vv_le a b /\ vv_le b a) /\ (dc_vv_compare a b = 1 <-> vv_le b a /\ ~ vv_le a b) /\
  (dc_vv_compare a b = -1 <-> vv_le a b /\ ~ vv_le b a) /\ (dc_vv_compare a b = 2 <-> ~ vv_le a b /\ ~ vv_le b a) /\
  vv_le a (dc_vv_merge a b) /\ vv_le b (dc_vv_merge a b) /\ forall c, vv_le a c -> vv_le b c -> (forall i, 0 <= counter c i) -> vv_le (dc_vv_merge a b) c.
Proof.
  pose proof (vv_forallb a b a b ltac:(lia) ltac:(lia)) as Hab. pose proof (vv_forallb b a a b ltac:(lia) ltac:(lia)) as Hba.
  assert (Hm : forall i, counter (dc_vv_merge a b) i = if decide (i ∈ vv_nodes a b) then Z.max (counter a i) (counter b i) else 0).
  { intros i. unfold dc_vv_merge, counter at 1. rewrite list_lookup_fmap. unfold vv_nodes. case_decide as Hi.
    - apply elem_of_seq in Hi. rewrite lookup_seq_lt by lia. cbn. destruct (Z.ltb_spec (counter b i) (counter a i)); lia.
    - rewrite elem_of_seq in Hi. by rewrite lookup_seq_ge by lia. }
  assert (Hout : forall i, (i < DC_MAX_VV_NODES)%nat -> i ∉ vv_nodes a b -> counter a i = 0 /\ counter b i = 0).
  { intros i Hi Hn. unfold vv_nodes in Hn. rewrite elem_of_seq in Hn. unfold counter. rewrite (lookup_ge_None_2 a), (lookup_ge_None_2 b) by lia. done. }
  unfold dc_vv_compare. destruct (forallb (fun i => negb (counter a i <? counter b i)) _), (forallb (fun i => negb (counter b i <? counter a i)) _);
    cbn [andb]; (split_and!; [naive_solver..| | |]).
  all: try (intros i Hi; rewrite Hm; case_decide as Hn; [lia|destruct (Hout i Hi Hn); lia]).
  all: intros c Ha Hb Hc i Hi; rewrite Hm; case_decide; [specialize (Ha i Hi); specialize (Hb i Hi); lia|apply Hc].
Qed.

(** ** Chains of entries in the heap *)

Definition first {A} (l : list (nat * A)) (n : option nat) : option nat := match l with [] => n | x :: _ => Some x.1 end.
Fixpoint final {A} (l : list (nat * A)) (p : option nat) : option nat := match l with [] => p | x :: l' => final l' (Some x.1) end.
(** The entries [l] are linked in this order, between [p] and [n]. *)
Fixpoint linked (h : gmap nat dc_entry_t) (p : option nat) (l : list (nat * dc_entry_t)) (n : option nat) : Prop :=
  match l with
  | [] => True
  | x :: l' => h !! x.1 = Some (x.2 <| next := first l' n |> <| prev := p |>) /\ linked h (Some x.1) l' n
  end.

Lemma first_app {A} (l1 l2 : list (nat * A)) n : first (l1 ++ l2) n = first l1 (first l2 n).
Proof. by destruct l1. Qed.
Lemma final_app {A} (l1 l2 : list (nat * A)) p : final (l1 ++ l2) p = final l2 (final l1 p).
Proof. revert p. induction l1 as [|x l1 IH]; intros p; [done|]. apply IH. Qed.
Lemma final_snoc {A} (l : list (nat * A)) x p : final (l ++ [x]) p = Some x.1.
Proof. by rewrite final_app. Qed.
Lemma linked_app h p l1 l2 n : linked h p (l1 ++ l2) n <-> linked h p l1 (first l2 n) /\ linked h (final l1 p) l2 n.
Proof. revert p. induction l1 as [|x l1 IH]; intros p; cbn [app linked final]; [naive_solver|]. rewrite IH, first_app. naive_solver. Qed.
Lemma linked_frame h h' p l n : (forall a, a ∈ l.*1 -> h' !! a = h !! a) -> linked h p l n -> linked h' p l n.
Proof.
  revert p. induction l as [|x l IH]; intros p Hf; cbn [linked]; [done|]. intros [Hx Hl]. split; [rewrite Hf; [done|left]|]. apply IH; [|done]. intros; apply Hf; by right.
Qed.
Lemma linked_insert h p l n a e : a ∉ l.*1 -> linked h p l n -> linked (<[a := e]> h) p l n.
Proof. intros Ha. apply linked_frame. intros b Hb. apply lookup_insert_ne. congruence. Qed.
Lemma linked_delete h p l n a : a ∉ l.*1 -> linked h p l n -> linked (delete a h) p l n.
Proof. intros Ha. apply linked_frame. intros b Hb. apply lookup_delete_ne. congruence. Qed.
Lemma linked_mem h p l n a e : linked h p l n -> (a, e) ∈ l -> exists e', h !! a = Some e' /\ e' <| next := None |> <| prev := None |> = e <| next := None |> <| prev := None |>.
Proof.
  revert p. induction l as [|x l IH]; intros p; cbn [linked]; [intros _ H; by apply elem_of_nil in H|]. intros [Hx Hl] [<-|Hin]%elem_of_cons; [|by eapply IH]. by eexists.
Qed.
(** The last link of a chain, or the first backward one, can be changed. *)
Lemma linked_set_next h p l x n n' : x.1 ∉ l.*1 -> linked h p (l ++ [x]) n ->
  exists e, h !! x.1 = Some e /\ linked (<[x.1 := e <| next := n' |>]> h) p (l ++ [x]) n'.
Proof.
  intros Hx [Hl [He _]]%linked_app. eexists. split; [exact He|]. apply linked_app. split; [by apply linked_insert|]. split; [|done]. by rewrite lookup_insert_eq.
Qed.
Lemma linked_set_prev h p x l n p' : x.1 ∉ l.*1 -> linked h p (x :: l) n ->
  exists e, h !! x.1 = Some e /\ linked (<[x.1 := e <| prev := p' |>]> h) p' (x :: l) n.
Proof. intros Hx [He Hl]. eexists. split; [exact He|]. split; [by rewrite lookup_insert_eq|]. by apply linked_insert. Qed.

Lemma final_any {A} (l : list (nat * A)) p p' : l <> [] -> final l p = final l p'.
Proof. by destruct l. Qed.
Lemma final_in {A} (l : list (nat * A)) p a : final l p = Some a -> a ∈ l.*1 \/ l = [] /\ p = Some a.
Proof.
  revert p. induction l as [|x l IH]; intros p; cbn [final]; [by right|]. intros [H|[-> [= <-]]]%IH; left; [by right|left].
Qed.
Lemma final_Some {A} (l : list (nat * A)) a : is_Some (final l (Some a)).
Proof. revert a. induction l as [|x l IH]; intros a; [by eexists|apply IH]. Qed.
Lemma first_in {A} (l : list (nat * A)) n a : first l n = Some a -> a ∈ l.*1 \/ l = [] /\ n = Some a.
Proof. destruct l as [|x l]; [by right|]. intros [= <-]. left. left. Qed.

(** ** Running *)

Section run.
Context {D : Type} `{HA : Arith D} (clock : nat -> Z) (fuel : nat).
Implicit Types (c : dc_cache D) (h : gmap nat dc_entry_t) (l : list (nat * dc_entry_t)).

Definition with_heap c h : dc_cache D := c <| heap := h |>.
Lemma bind_Done {A B} (m : M (D := D) A) (f : A -> M (D := D) B) c x c' : m c = Done (x, c') -> bind m f c = f x c'.
Proof. intros H. unfold bind. by rewrite H. Qed.
Lemma bind_gets {A B} (g : dc_cache D -> A) (f : A -> M (D := D) B) c : bind (gets g) f c = f (g c) c.
Proof. done. Qed.
Lemma bind_modify {B} g (f : unit -> M (D := D) B) c : bind (modify g) f c = f tt (g c).
Proof. done. Qed.
Lemma bind_none {A B} (o : option A) (f : A -> M (D := D) unit) (g : unit -> M (D := D) B) c : o = None -> bind (on_some o f) g c = g tt c.
Proof. by intros ->. Qed.
Lemma load_Done c a e : heap c !! a = Some e -> load a c = Done (e, c).
Proof. intros H. unfold load. by rewrite H. Qed.
Lemma store_Done c a f e : heap c !! a = Some e -> store a f c = Done (tt, (with_heap c (<[a := f e]> (heap c)))).
Proof. intros H. unfold store. by rewrite H. Qed.
Lemma store_heap c h a f e : h !! a = Some e -> store a f (with_heap c h) = Done (tt, (with_heap c (<[a := f e]> h))).
Proof. intros H. exact (store_Done (with_heap c h) a f e H). Qed.
Lemma load_heap c h a e : h !! a = Some e -> load a (with_heap c h) = Done (e, (with_heap c h)).
Proof. intros H. exact (load_Done (with_heap c h) a e H). Qed.
Lemma set_heap_same c : (with_heap c (heap c)) = c.
Proof. by destruct c. Qed.

Lemma detach_Done c l1 a e l2 : NoDup (l1 ++ (a, e) :: l2).*1 -> linked (heap c) None (l1 ++ (a, e) :: l2) None ->
  exists h', detach a c = Done (tt, (with_heap c h')) /\ linked h' None l1 (first l2 None) /\ linked h' (final l1 None) l2 None /\
    (forall b, b ∉ l1.*1 -> b ∉ l2.*1 -> h' !! b = heap c !! b).
Proof.
  rewrite fmap_app, fmap_cons. intros (Hnd1 & Hdis & [Ha2 Hnd2]%NoDup_cons)%NoDup_app [H1 [He H2]]%linked_app. cbn [fst snd] in *.
  assert (Ha1 : a ∉ l1.*1) by (intros Hin; apply (Hdis a Hin); left).
  assert (Hfwd : exists h1, on_some (final l1 None) (fun p => store p (fun x => x <| next := first l2 None |>)) c = Done (tt, (with_heap c h1)) /\
    linked h1 None l1 (first l2 None) /\ (forall b, b ∉ l1.*1 -> h1 !! b = heap c !! b)).
  { destruct l1 as [|x l1 _] using rev_ind; [exists (heap c); cbn; by rewrite set_heap_same|]. rewrite final_snoc. cbn [on_some].
    rewrite fmap_app in Hnd1. apply NoDup_app in Hnd1 as (_ & Hd & _). assert (Hx : x.1 ∉ l1.*1) by (intros Hin; apply (Hd _ Hin); left).
    destruct (linked_set_next _ _ _ _ _ (first l2 None) Hx H1) as (ex & Hex & Hl). rewrite (store_Done _ _ _ _ Hex). eexists. split; [done|]. split; [done|].
    intros b Hb. rewrite fmap_app in Hb. apply lookup_insert_ne. intros <-. apply Hb, elem_of_app. right. left. }
  destruct Hfwd as (h1 & Hrun1 & Hl1 & Hf1).
  assert (He1 : h1 !! a = heap c !! a) by by apply Hf1.
  assert (H2' : linked h1 (Some a) l2 None) by (eapply linked_frame; [|exact H2]; intros b Hb; apply Hf1; intros Hb1; apply (Hdis b Hb1); by right).
  assert (Hbwd : exists h2, on_some (first l2 None) (fun n => store n (fun x => x <| prev := final l1 None |>)) (with_heap c h1) = Done (tt, (with_heap c h2)) /\
    linked h2 (final l1 None) l2 None /\ (forall b, b ∉ l2.*1 -> h2 !! b = h1 !! b)).
  { destruct l2 as [|x l2]; [by exists h1|]. cbn [first on_some]. rewrite fmap_cons in Hnd2. apply NoDup_cons in Hnd2 as [Hx _].
    destruct (linked_set_prev _ _ _ _ _ (final l1 None) Hx H2') as (ex & Hex & Hl). rewrite (store_Done _ _ _ ex) by exact Hex. exists (<[x.1 := ex <| prev := final l1 None |>]> h1). split; [done|]. split; [done|].
    intros b Hb. apply lookup_insert_ne. intros <-. apply Hb. left. }
  destruct Hbwd as (h2 & Hrun2 & Hl2 & Hf2). exists h2.
  split; [|split; [|split; [done|intros b Hb1 Hb2; by rewrite Hf2, Hf1]]].
  - unfold detach. rewrite (bind_Done _ _ c _ c (load_Done _ _ _ He)). cbn [prev next]. 
    rewrite (bind_Done _ _ _ _ _ Hrun1). rewrite (bind_Done _ _ _ _ _ (load_heap c h1 a _ (eq_trans He1 He))). exact Hrun2.
  - eapply linked_frame; [|exact Hl1]. intros b Hb. apply Hf2. intros Hb2. apply (Hdis b Hb). by right.
Qed.

Lemma drop_tail_Done c l1 a e l2 e0 : a ∉ l2.*1 -> lru_tail c = final (l1 ++ (a, e) :: l2) None -> heap c !! a = Some e0 -> prev e0 = final l1 None ->
  drop_tail a c = Done (tt, c <| lru_tail := final (l1 ++ l2) None |>).
Proof.
  intros Ha Ht He Hp. unfold drop_tail. rewrite bind_gets, Ht, !final_app. cbn [final fst]. destruct l2 as [|x l2].
  - cbn [final]. rewrite bool_decide_eq_true_2 by done. cbn [when]. rewrite (bind_Done _ _ _ _ _ (load_Done _ _ _ He)). unfold modify. by rewrite Hp.
  - rewrite bool_decide_eq_false_2.
    + cbn [when]. unfold ret. f_equal. f_equal. rewrite (final_any _ _ (Some a)) by done. destruct c; cbn in *. rewrite Ht, final_app. done.
    + intros [H|[? _]]%final_in; done.
Qed.
Lemma drop_head_Done c l1 a e l2 e0 : a ∉ l1.*1 -> lru_head c = first (l1 ++ (a, e) :: l2) None -> heap c !! a = Some e0 -> next e0 = first l2 None ->
  drop_head a c = Done (tt, c <| lru_head := first (l1 ++ l2) None |>).
Proof.
  intros Ha Hh He Hn. unfold drop_head. rewrite bind_gets. rewrite Hh, !first_app. destruct l1 as [|x l1].
  - cbn [first]. rewrite bool_decide_eq_true_2 by done. cbn [when]. rewrite (bind_Done _ _ _ _ _ (load_Done _ _ _ He)). unfold modify. by rewrite Hn.
  - rewrite bool_decide_eq_false_2.
    + cbn [when first]. unfold ret. f_equal. f_equal. destruct c; cbn in *. by rewrite Hh.
    + cbn [first]. intros [= <-]. apply Ha. left.
Qed.

(** The end of [dc_lru_touch]: an entry that is out of the list becomes its first. *)
Lemma push_Done c a e e0 l : a ∉ l.*1 -> NoDup l.*1 -> linked (heap c) None l None -> lru_tail c = final l None -> heap c !! a = Some e0 ->
  e0 <| next := None |> <| prev := None |> = e <| next := None |> <| prev := None |> ->
  exists h', bind (store a (fun e => e <| prev := None |>)) (fun _ => bind (store a (fun e => e <| next := first l None |>)) (fun _ =>
    bind (on_some (first l None) (fun b => store b (fun e => e <| prev := Some a |>))) (fun _ => bind (modify (fun c => c <| lru_head := Some a |>)) (fun _ =>
    bind (gets lru_tail) (fun t => match t with None => modify (fun c => c <| lru_tail := Some a |>) | Some _ => ret tt end))))) c =
    Done (tt, (with_heap c h') <| lru_head := Some a |> <| lru_tail := final ((a, e) :: l) None |>) /\
    linked h' None ((a, e) :: l) None /\ (forall b, b <> a -> b ∉ l.*1 -> h' !! b = heap c !! b).
Proof.
  intros Ha Hnd Hl Ht He Heq. set (h1 := <[a := e0 <| prev := None |> <| next := first l None |>]> (heap c)).
  assert (Hl1 : linked h1 None l None) by by apply linked_insert.
  assert (He1 : e0 <| prev := None |> <| next := first l None |> = e <| next := first l None |> <| prev := None |>) by (clear -Heq; destruct e, e0; cbn in *; injection Heq as -> -> -> -> -> -> ->; done).
  rewrite (bind_Done _ _ _ _ _ (store_Done _ _ _ _ He)).
  rewrite (bind_Done _ _ _ _ _ (store_heap c _ a _ (e0 <| prev := None |>) (lookup_insert_eq _ _ _))).
  rewrite insert_insert_eq. fold h1.
  destruct l as [|x l].
  - exists h1. split; [|split]; [|split; [|done]|].
    + cbn. unfold bind, modify, gets, ret. cbn. rewrite Ht. done.
    + cbn [fst snd]. unfold h1. rewrite lookup_insert_eq. f_equal. exact He1.
    + intros b Hb _. unfold h1. by apply lookup_insert_ne.
  - cbn [first on_some]. rewrite fmap_cons in Ha, Hnd. apply not_elem_of_cons in Ha as [Hax Ha]. apply NoDup_cons in Hnd as [Hx Hnd].
    destruct (linked_set_prev _ _ _ _ _ (Some a) Hx Hl1) as (ex & Hex & Hl2). exists (<[x.1 := ex <| prev := Some a |>]> h1). split; [|split].
    + rewrite (bind_Done _ _ _ _ _ (store_heap c _ x.1 _ ex Hex)). unfold bind, modify, gets, ret. cbn. rewrite Ht. cbn [final].
      destruct (final_Some l x.1) as [b Hb]. rewrite Hb. destruct c; cbn in *. by rewrite Ht, Hb.
    + split; [|exact Hl2]. cbn [fst snd]. rewrite lookup_insert_ne by done. unfold h1. rewrite lookup_insert_eq. f_equal. exact He1.
    + intros b Hb Hbl. rewrite lookup_insert_ne by (intros <-; apply Hbl; left). unfold h1. by apply lookup_insert_ne.
Qed.
Lemma touch_old c l1 a e l2 : NoDup (l1 ++ (a, e) :: l2).*1 -> linked (heap c) None (l1 ++ (a, e) :: l2) None ->
  lru_head c = first (l1 ++ (a, e) :: l2) None -> lru_tail c = final (l1 ++ (a, e) :: l2) None ->
  exists h', dc_lru_touch a c = Done (tt, (with_heap c h') <| lru_head := Some a |> <| lru_tail := final ((a, e) :: l1 ++ l2) None |>) /\
    linked h' None ((a, e) :: l1 ++ l2) None /\ (forall b, b <> a -> b ∉ (l1 ++ l2).*1 -> h' !! b = heap c !! b).
Proof.
  intros Hnd Hl Hh Ht. unfold dc_lru_touch. rewrite bind_gets, Hh. destruct l1 as [|x l1].
  - cbn [app first fst]. rewrite bool_decide_eq_true_2 by done. exists (heap c). split; [|done]. unfold ret. destruct c; cbn in *. by rewrite Hh, Ht.
  - rewrite bool_decide_eq_false_2.
    2: { cbn [app first]. intros [= <-]. cbn in Hnd. apply NoDup_cons in Hnd as [Hx _]. apply Hx. rewrite fmap_app. apply elem_of_app. right. left. }
    destruct (detach_Done _ _ _ _ _ Hnd Hl) as (h1 & Hrun & Hl1 & Hl2 & Hf). rewrite (bind_Done _ _ _ _ _ Hrun). apply linked_app in Hl as [_ [He _]].
    rewrite fmap_app, fmap_cons in Hnd. apply NoDup_app in Hnd as (Hnd1 & Hdis & [Ha2 Hnd2]%NoDup_cons).
    assert (Ha1 : a ∉ (x :: l1).*1) by (intros Hin; apply (Hdis a Hin); left). rewrite <- Hf in He by done.
    assert (He' : heap (with_heap c h1) !! a = Some (e <| next := first l2 None |> <| prev := final (x :: l1) None |>)) by exact He.
    rewrite (bind_Done _ _ _ _ _ (drop_tail_Done (with_heap c h1) (x :: l1) a e l2 _ Ha2 Ht He' eq_refl)).
    assert (Hl' : linked h1 None (x :: l1 ++ l2) None) by (apply (linked_app _ _ (x :: l1)); done).
    assert (Hnd' : NoDup (x :: l1 ++ l2).*1).
    { change (x :: l1 ++ l2) with ((x :: l1) ++ l2). rewrite fmap_app. apply NoDup_app. split; [done|]. split; [|done]. intros b Hb Hb2. apply (Hdis b Hb). by right. }
    assert (Ha' : a ∉ (x :: l1 ++ l2).*1) by (change (x :: l1 ++ l2) with ((x :: l1) ++ l2); rewrite fmap_app, not_elem_of_app; done).
    set (c1 := (with_heap c h1) <| lru_tail := final ((x :: l1) ++ l2) None |>).
    assert (Hl1' : linked (heap c1) None (x :: l1 ++ l2) None) by exact Hl'. assert (He1 : heap c1 !! a = Some (e <| next := first l2 None |> <| prev := final (x :: l1) None |>)) by exact He.
    destruct (push_Done c1 a e _ (x :: l1 ++ l2) Ha' Hnd' Hl1' eq_refl He1 ltac:(by destruct e)) as (h' & Hrun' & Hl'' & Hf').
    exists h'. split; [|split; [exact Hl''|]].
    + cbn [app first fst] in *. rewrite Hrun'. done.
    + intros b Hb Hbl. rewrite Hf' by done. apply Hf; intros Hin; apply Hbl; rewrite fmap_app; apply elem_of_app; auto.
Qed.
Lemma touch_new c a e l : a ∉ l.*1 -> NoDup l.*1 -> linked (heap c) None l None -> lru_head c = first l None -> lru_tail c = final l None ->
  heap c !! a = Some (e <| next := None |> <| prev := None |>) ->
  exists h', dc_lru_touch a c = Done (tt, (with_heap c h') <| lru_head := Some a |> <| lru_tail := final ((a, e) :: l) None |>) /\
    linked h' None ((a, e) :: l) None /\ (forall b, b <> a -> b ∉ l.*1 -> h' !! b = heap c !! b).
Proof.
  intros Ha Hnd Hl Hh Ht He. unfold dc_lru_touch. rewrite bind_gets, Hh. rewrite bool_decide_eq_false_2 by (intros [H|[_ H]]%first_in; done).
  assert (Hd : detach a c = Done (tt, c)).
  { unfold detach. rewrite (bind_Done _ _ _ _ _ (load_Done _ _ _ He)). rewrite bind_none by done.
    rewrite (bind_Done _ _ _ _ _ (load_Done _ _ _ He)). done. }
  rewrite (bind_Done _ _ _ _ _ Hd). assert (Hdt : drop_tail a c = Done (tt, c)).
  { unfold drop_tail. rewrite bind_gets, Ht, bool_decide_eq_false_2; [done|]. intros [H|[_ H]]%final_in; done. }
  rewrite (bind_Done _ _ _ _ _ Hdt). exact (push_Done c a e _ l Ha Hnd Hl Ht He ltac:(by destruct e)).
Qed.
End run.

(** ** The map in order of use *)

Definition item : Type := string * (list Z * Z * Z).
Definition item_of (x : nat * dc_entry_t) : item := (key x.2, (value x.2, ttl_seconds x.2, created_at x.2)).
Definition keys (l : list (nat * dc_entry_t)) : list string := (fun x => key x.2) <$> l.
Definition addr_of (k : string) (l : list (nat * dc_entry_t)) : option nat := fst <$> List.find (fun x => bool_decide (key x.2 = k)) l.
Definition total (l : list (nat * dc_entry_t)) : Z := foldr (fun x n => entry_size (key x.2) (value x.2) + n) 0 l.

Lemma keys_app l1 l2 : keys (l1 ++ l2) = keys l1 ++ keys l2.
Proof. apply fmap_app. Qed.
Lemma addr_of_None k l : addr_of k l = None <-> k ∉ keys l.
Proof.
  unfold addr_of. induction l as [|x l IH]; cbn; [split; [intros _; apply not_elem_of_nil|done]|]. rewrite not_elem_of_cons, <- IH.
  case_bool_decide; [split; [done|]; naive_solver|]. naive_solver.
Qed.
Lemma addr_of_Some k l a : addr_of k l = Some a -> exists l1 e l2, l = l1 ++ (a, e) :: l2 /\ key e = k.
Proof.
  unfold addr_of. intros H. destruct (List.find _ l) as [[b e]|] eqn:Hf; [|done]. injection H as ->. apply find_some in Hf as [Hin Hk%bool_decide_eq_true].
  apply list_elem_of_In, list_elem_of_split in Hin as (l1 & l2 & ->). by exists l1, e, l2.
Qed.
Lemma addr_of_middle k l1 a e l2 : NoDup (keys (l1 ++ (a, e) :: l2)) -> addr_of k (l1 ++ (a, e) :: l2) = if decide (key e = k) then Some a else addr_of k (l1 ++ l2).
Proof.
  induction l1 as [|x l1 IH]; cbn [app].
  - intros _. unfold addr_of at 1. cbn. case_decide; [by rewrite bool_decide_eq_true_2|by rewrite bool_decide_eq_false_2].
  - intros Hnd. apply NoDup_cons in Hnd as [Hx Hnd]. specialize (IH Hnd). unfold addr_of in *. cbn. case_bool_decide as Hk.
    + cbn. case_decide as He; [|done]. exfalso. assert (Hx' : key x.2 ∉ keys (l1 ++ (a, e) :: l2)) by exact Hx. apply Hx'. rewrite keys_app, Hk, <- He. apply elem_of_app. right. left.
    + exact IH.
Qed.
Lemma total_app l1 l2 : total (l1 ++ l2) = total l1 + total l2.
Proof. unfold total. induction l1 as [|x l1 IH]; cbn; [done|]. unfold total in IH. lia. Qed.

Lemma total_perm l l' : l ≡ₚ l' -> total l = total l'.
Proof. unfold total. induction 1; cbn; lia. Qed.

(** Storing in an entry something that leaves its links alone changes it in its place. *)
Lemma linked_update h p l1 a e l2 n f : a ∉ l1.*1 -> a ∉ l2.*1 -> (forall n p, f (e <| next := n |> <| prev := p |>) = (f e) <| next := n |> <| prev := p |>) ->
  linked h p (l1 ++ (a, e) :: l2) n -> exists e0, h !! a = Some e0 /\ e0 = e <| next := first l2 n |> <| prev := final l1 p |> /\ linked (<[a := f e0]> h) p (l1 ++ (a, f e) :: l2) n.
Proof.
  intros H1 H2 Hf [Hl1 [He Hl2]]%linked_app. eexists. split; [exact He|]. split; [done|]. apply linked_app. split; [by apply linked_insert|].
  split; [|by apply linked_insert]. cbn [fst snd]. rewrite lookup_insert_eq. f_equal. apply Hf.
Qed.

Section lru.
Context {D : Type} `{HA : Arith D} (clock : nat -> Z) (fuel : nat) (cfg : dc_cache_config_t D) (K : list string).
Definition nbuckets : nat := let n := c_max_entries cfg / 4 in Z.to_nat (if n <? 16 then 16 else n).
Definition bucket (k : string) : nat := Z.to_nat (dc_hash k mod u32 (Z.of_nat nbuckets)).
(** The settings of a plain bounded cache, on whose keys the buckets do not collide. *)
Record plain : Prop := {
  p_max : 0 < c_max_entries cfg < 2 ^ 32; p_memory : c_max_memory_bytes cfg = 0; p_policy : c_eviction_policy cfg = DC_EVICTION_LRU \/ c_eviction_policy cfg = DC_EVICTION_NONE;
  p_backend : c_backend_read cfg = None; p_distinct : NoDup (bucket <$> K); p_fuel : (2 <= fuel)%nat;
}.
Hypothesis Hplain : plain.
Implicit Types (c : dc_cache D) (l : list (nat * dc_entry_t)).

(** The cache [c] holds the entries [l] in order of use. *)
Record rep c l : Prop := {
  r_config : config c = cfg; r_nodup : NoDup l.*1; r_linked : linked (heap c) None l None; r_head : lru_head c = first l None; r_tail : lru_tail c = final l None;
  r_fresh : forall a, a ∈ l.*1 -> (a < next_addr c)%nat; r_keys : NoDup (keys l); r_universe : forall k, k ∈ keys l -> k ∈ K;
  r_length : length (buckets c) = nbuckets; r_buckets : forall k, k ∈ K -> mjoin (buckets c !! bucket k) = addr_of k l;
  r_count : entry_count c = Z.of_nat (length l); r_size : memory_used c = u64 (total l); r_max : Z.of_nat (length l) <= c_max_entries cfg;
  r_stale : Forall (fun x => stale x.2 = false) l;
}.

Lemma nbuckets_bound : 16 <= Z.of_nat nbuckets < 2 ^ 32.
Proof.
  destruct Hplain as [Hm _ _ _ _ _]. unfold nbuckets. pose proof (Z.div_lt_upper_bound (c_max_entries cfg) 4 (2 ^ 32)).
  destruct (Z.ltb_spec (c_max_entries cfg / 4) 16); rewrite Z2Nat.id; lia.
Qed.
Lemma bucket_lt k : (bucket k < nbuckets)%nat.
Proof. pose proof nbuckets_bound. unfold bucket. rewrite u32_small by lia. pose proof (Z.mod_pos_bound (dc_hash k) (Z.of_nat nbuckets)). lia. Qed.
Lemma bucket_inj k k' : k ∈ K -> k' ∈ K -> bucket k = bucket k' -> k = k'.
Proof.
  intros [i Hi]%list_elem_of_lookup [j Hj]%list_elem_of_lookup Heq. pose proof (p_distinct Hplain) as Hnd. rewrite NoDup_alt in Hnd.
  assert (i = j); [|congruence]. apply (Hnd i j (bucket k)); rewrite list_lookup_fmap, ?Hi, ?Hj; cbn; congruence.
Qed.
Lemma bucket_of_Done {B} c l k (f : nat -> M (D := D) B) : rep c l -> bind (bucket_of k) f c = f (bucket k) c.
Proof. intros H. unfold bucket_of. rewrite bind_gets, (r_length _ _ H). done. Qed.
Lemma read_bucket {B} c l k (f : option nat -> M (D := D) B) : rep c l -> k ∈ K -> bind (read_slot (Bucket (bucket k))) f c = f (addr_of k l) c.
Proof. intros H Hk. unfold read_slot. by rewrite bind_gets, (r_buckets _ _ H) by done. Qed.
Lemma rep_entry c l a e : rep c l -> (a, e) ∈ l -> exists e', heap c !! a = Some e' /\ e' <| next := None |> <| prev := None |> = e <| next := None |> <| prev := None |>.
Proof. intros H. apply (linked_mem _ None _ None), H. Qed.
Lemma rep_split c l1 a e l2 : rep c (l1 ++ (a, e) :: l2) -> a ∉ l1.*1 /\ a ∉ l2.*1 /\ NoDup (l1 ++ l2).*1 /\ NoDup (keys (l1 ++ l2)) /\
  key e ∉ keys (l1 ++ l2) /\ heap c !! a = Some (e <| next := first l2 None |> <| prev := final l1 None |>).
Proof.
  intros H. pose proof (r_nodup _ _ H) as Hnd. pose proof (r_keys _ _ H) as Hk. pose proof (r_linked _ _ H) as [_ [He _]]%linked_app.
  rewrite keys_app in Hk. change (keys ((a, e) :: l2)) with (key e :: keys l2) in Hk. rewrite <- Permutation_middle in Hk. apply NoDup_cons in Hk as [Hke Hk].
  rewrite fmap_app, fmap_cons, <- Permutation_middle in Hnd. apply NoDup_cons in Hnd as [Ha Hnd].
  rewrite keys_app, fmap_app. rewrite not_elem_of_app in Ha. split_and!; try apply Ha; done.
Qed.
Lemma find_Done {B} c l k (f : option nat -> M (D := D) B) : rep c l -> k ∈ K -> bind (dc_find_entry fuel k) f c = f (addr_of k l) c.
Proof.
  intros H Hk. apply bind_Done. unfold dc_find_entry. rewrite (bucket_of_Done c l), (read_bucket c l) by done. pose proof (p_fuel Hplain). destruct fuel as [|fu]; [lia|].
  cbn [find_chain]. destruct (addr_of k l) as [a|] eqn:Ha; [|done]. apply addr_of_Some in Ha as (l1 & e & l2 & -> & <-).
  destruct (rep_split _ _ _ _ _ H) as (_ & _ & _ & _ & _ & He). rewrite (bind_Done _ _ _ _ _ (load_Done _ _ _ He)). by rewrite bool_decide_eq_true_2 by by destruct e.
Qed.
(** What the operations below do not touch. *)
Definition same c c' : Prop := clock_reads c' = clock_reads c /\ hit_count c' = hit_count c /\ miss_count c' = miss_count c.
Lemma tell_rep c l a e : rep c l -> (a, e) ∈ l -> exists c1, tell_evict a c = Done (tt, c1) /\ rep c1 l /\ same c c1.
Proof.
  intros H Hin. destruct (rep_entry _ _ _ _ H Hin) as (e' & He' & _). unfold tell_evict. rewrite (bind_Done _ _ _ _ _ (load_Done _ _ _ He')).
  unfold modify. eexists. split; [done|]. destruct (c_on_evict (config c)); [|by destruct H]. split; [|done]. by destruct H; constructor.
Qed.
Lemma addr_of_last c l a e : rep c (l ++ [(a, e)]) -> addr_of (key e) (l ++ [(a, e)]) = Some a.
Proof. intros H. rewrite addr_of_middle by apply H. by rewrite decide_True. Qed.
Lemma forget_Done c a e : heap c !! a = Some e -> forget a c = Done (tt, c
  <| memory_used ::= fun m => u64 (m - (Z.of_nat (length (value e)) + Z.of_nat (String.length (key e)) + 1)) |> <| entry_count ::= fun n => u64 (n - 1) |> <| heap ::= delete a |>).
Proof. intros He. unfold forget. rewrite (bind_Done _ _ _ _ _ (load_Done _ _ _ He)). unfold bind, modify, free. cbn. by rewrite He. Qed.
Lemma evict_rep c l a e : rep c (l ++ [(a, e)]) -> exists c', dc_evict_lru fuel c = Done (tt, c') /\ rep c' l /\ same c c'.
Proof.
  intros H0. unfold dc_evict_lru. rewrite bind_gets, (r_tail _ _ H0), final_snoc. cbn [on_some fst].
  destruct (tell_rep _ _ a e H0) as (c1 & Hrun1 & H & Hsame); [apply elem_of_app; right; left|]. rewrite (bind_Done _ _ _ _ _ Hrun1). clear Hrun1 H0.
  destruct (rep_split _ _ _ _ _ H) as (Ha & _ & Hnd & Hkeys & Hke & He). rewrite app_nil_r in *. set (k := key e) in *.
  assert (Hlast : addr_of k (l ++ [(a, e)]) = Some a) by by eapply addr_of_last.
  assert (Hk : k ∈ K) by (apply (r_universe _ _ H); rewrite keys_app; apply elem_of_app; right; left).
  rewrite (bind_Done _ _ _ _ _ (load_Done _ _ _ He)). change (key (e <| next := first [] None |> <| prev := final l None |>)) with k.
  rewrite (bucket_of_Done _ _ _ _ H). assert (Hs : slot_of fuel (Bucket (bucket k)) a c1 = Done (Bucket (bucket k), c1)).
  { pose proof (p_fuel Hplain). destruct fuel as [|fu]; [lia|]. cbn [slot_of]. rewrite (read_bucket _ _ _ _ H Hk), Hlast. by rewrite Nat.eqb_refl. }
  rewrite (bind_Done _ _ _ _ _ Hs), (read_bucket _ _ _ _ H Hk), Hlast. cbn [on_some]. set (c2 := c1 <| buckets ::= <[bucket k := None]> |>).
  assert (Hw : bind (load a) (fun e => write_slot (Bucket (bucket k)) (next e)) c1 = Done (tt, c2)) by (rewrite (bind_Done _ _ _ _ _ (load_Done _ _ _ He)); done).
  rewrite (bind_Done _ _ _ _ _ Hw).
  destruct (detach_Done c2 l a e []) as (h' & Hrun & Hl & _ & Hf); [apply H|apply H|]. rewrite (bind_Done _ _ _ _ _ Hrun). cbn [first] in Hl.
  assert (He2 : heap (with_heap c2 h') !! a = Some (e <| next := None |> <| prev := final l None |>)) by (etransitivity; [exact (Hf a Ha (not_elem_of_nil _))|exact He]).
  rewrite (bind_Done _ _ _ _ _ (drop_head_Done (with_heap c2 h') l a e [] _ Ha (r_head _ _ H) He2 eq_refl)).
  set (c3 := (with_heap c2 h') <| lru_head := first (l ++ []) None |>). assert (He3 : heap c3 !! a = Some (e <| next := None |> <| prev := final l None |>)) by exact He2.
  rewrite (bind_Done _ _ _ _ _ (drop_tail_Done c3 l a e [] _ (not_elem_of_nil _) (r_tail _ _ H) He3 eq_refl)).
  set (c4 := c3 <| lru_tail := final (l ++ []) None |>). assert (He4 : heap c4 !! a = Some (e <| next := None |> <| prev := final l None |>)) by exact He2.
  rewrite (forget_Done c4 a _ He4). eexists. split; [done|]. split; [|exact Hsame]. subst c4 c3 c2. destruct H as [Hc _ _ _ _ Hfr _ Hu Hlen Hb Hcnt Hsz Hmax Hst].
  rewrite length_app in Hcnt, Hmax. cbn [length] in Hcnt, Hmax. pose proof (p_max Hplain). constructor; cbn; rewrite ?app_nil_r; try done.
  - by apply linked_delete.
  - intros b Hb'. apply Hfr. rewrite fmap_app. apply elem_of_app. by left.
  - intros k' Hk'. apply Hu. rewrite keys_app. apply elem_of_app. by left.
  - by rewrite length_insert.
  - intros k' Hk'. destruct (decide (k' = k)) as [->|Hne].
    + rewrite list_lookup_insert_eq by (rewrite Hlen; apply bucket_lt). cbn. symmetry. by apply addr_of_None.
    + rewrite list_lookup_insert_ne by (intros Heq; by apply bucket_inj in Heq). rewrite Hb by done. rewrite addr_of_middle, app_nil_r; [by rewrite decide_False|].
      rewrite keys_app. apply NoDup_app. split; [done|]. split; [|apply NoDup_singleton]. intros k'' Hk'' ->%list_elem_of_singleton. done.
  - rewrite Hcnt. rewrite u64_small; lia.
  - rewrite Hsz, total_app. unfold u64. rewrite Zminus_mod_idemp_l. f_equal. unfold total, entry_size. cbn. subst k. lia.
  - lia.
  - apply Forall_app in Hst. apply Hst.
Qed.
Definition max_items : nat := Z.to_nat (c_max_entries cfg).
Lemma make_room_rep c l k v : rep c l -> exists c', make_room clock fuel k v c = Done (tt, c') /\ rep c' (take (max_items - 1) l) /\ same c c'.
Proof.
  intros H. pose proof (p_max Hplain) as Hmax. pose proof (p_fuel Hplain). unfold max_items.
  assert (Hloop : forall m, (2 <= m)%nat -> exists c', while_m m (fun c => (0 <? c_max_entries (config c)) && (c_max_entries (config c) <=? entry_count c)) (dc_evict_one clock fuel) c = Done (tt, c') /\
    rep c' (take (Z.to_nat (c_max_entries cfg) - 1) l) /\ same c c').
  { intros m Hm. assert (Hstop : forall fu c l, rep c l -> Z.of_nat (length l) < c_max_entries cfg ->
      while_m (S fu) (fun c => (0 <? c_max_entries (config c)) && (c_max_entries (config c) <=? entry_count c)) (dc_evict_one clock fuel) c = Done (tt, c)).
    { intros fu c0 l0 Hr Hlt. cbn [while_m]. rewrite bind_gets, (r_config _ _ Hr), (r_count _ _ Hr), (proj2 (Z.leb_gt _ _)), andb_false_r by lia. done. }
    pose proof (r_max _ _ H) as Hle. destruct (decide (Z.of_nat (length l) < c_max_entries cfg)) as [Hlt|Hge].
    - exists c. rewrite take_ge by lia. split; [|done]. destruct m as [|m]; [lia|]. by eapply Hstop.
    - destruct l as [|[a e] l0 _] using rev_ind; [cbn in *; lia|]. destruct (evict_rep _ _ _ _ H) as (c1 & Hrun & H1 & Hs). exists c1.
      rewrite length_app in *. cbn [length] in *. rewrite take_app_length' by lia. split; [|done]. destruct m as [|[|m]]; [lia|lia|].
      cbn [while_m]. rewrite bind_gets, (r_config _ _ H), (r_count _ _ H), length_app. cbn [length]. rewrite (proj2 (Z.ltb_lt _ _)), (proj2 (Z.leb_le _ _)) by lia. cbn [andb].
      assert (He : dc_evict_one clock fuel c = Done (tt, c1)).
      { unfold dc_evict_one. rewrite bind_gets, (r_config _ _ H). destruct (p_policy Hplain) as [-> | ->]; done. }
      rewrite (bind_Done _ _ _ _ _ He). eapply Hstop; [done|lia]. }
  destruct (Hloop fuel (p_fuel Hplain)) as (c' & Hrun & H' & Hs). exists c'. split; [|done]. unfold make_room. rewrite (bind_Done _ _ _ _ _ Hrun). clear Hrun Hloop. destruct fuel as [|fu]; [lia|]. cbn [while_m].
  rewrite bind_gets, (r_config _ _ H'), (p_memory Hplain). done.
Qed.

(** A change of the entry [a] in its place. *)
Lemma update_rep c c' l1 a e l2 f : rep c (l1 ++ (a, e) :: l2) ->
  (forall n p, f (e <| next := n |> <| prev := p |>) = (f e) <| next := n |> <| prev := p |>) -> key (f e) = key e -> stale (f e) = stale e ->
  config c' = config c -> buckets c' = buckets c -> lru_head c' = lru_head c -> lru_tail c' = lru_tail c -> next_addr c' = next_addr c -> entry_count c' = entry_count c ->
  (forall e0, heap c !! a = Some e0 -> heap c' = <[a := f e0]> (heap c)) -> memory_used c' = u64 (total (l1 ++ (a, f e) :: l2)) ->
  rep c' (l1 ++ (a, f e) :: l2).
Proof.
  intros H Hf Hk Hstale Hcfg Hbk Hh Ht Hn Hcnt Hheap Hm. destruct (rep_split _ _ _ _ _ H) as (Ha1 & Ha2 & _).
  destruct (linked_update _ _ _ _ _ _ _ f Ha1 Ha2 Hf (r_linked _ _ H)) as (e0 & He0 & _ & Hl). specialize (Hheap _ He0).
  assert (Hkeys : keys (l1 ++ (a, f e) :: l2) = keys (l1 ++ (a, e) :: l2)) by (rewrite !keys_app; change (keys ((a, f e) :: l2)) with (key (f e) :: keys l2); by rewrite Hk).
  assert (Hfst : (l1 ++ (a, f e) :: l2).*1 = (l1 ++ (a, e) :: l2).*1) by by rewrite !fmap_app.
  assert (Hlen : length (l1 ++ (a, f e) :: l2) = length (l1 ++ (a, e) :: l2)) by by rewrite !length_app.
  destruct H. constructor; rewrite ?Hcfg, ?Hbk, ?Hh, ?Ht, ?Hn, ?Hcnt, ?Hheap, ?Hkeys, ?Hfst, ?Hlen; try done.
  - rewrite r_head0. by destruct l1.
  - rewrite r_tail0. by rewrite !final_app.
  - intros k Hin. rewrite r_buckets0 by done. rewrite !addr_of_middle by (rewrite ?Hkeys; done). by rewrite Hk.
  - apply Forall_app in r_stale0 as [Hs1 Hs2]. apply Forall_cons in Hs2 as [Hs2 Hs3]. apply Forall_app. split; [done|]. apply Forall_cons. split; [|done]. cbn in *. congruence.
Qed.
Lemma view_app l1 l2 : item_of <$> (l1 ++ l2) = (item_of <$> l1) ++ (item_of <$> l2).
Proof. apply fmap_app. Qed.
Lemma touch_rep c l1 a e l2 : rep c (l1 ++ (a, e) :: l2) -> exists c', dc_lru_touch a c = Done (tt, c') /\ rep c' ((a, e) :: l1 ++ l2) /\ same c c'.
Proof.
  intros H. destruct (touch_old c l1 a e l2) as (h' & Hrun & Hl & _); [apply H..|]. eexists. split; [exact Hrun|]. split; [|done].
  assert (Hp : (a, e) :: l1 ++ l2 ≡ₚ l1 ++ (a, e) :: l2) by apply Permutation_middle.
  assert (Hnd : NoDup ((a, e) :: l1 ++ l2).*1) by (rewrite Hp; apply H).
  assert (Hin : forall b, b ∈ ((a, e) :: l1 ++ l2).*1 -> b ∈ (l1 ++ (a, e) :: l2).*1) by (intros b; by rewrite Hp).
  assert (Hkp : keys ((a, e) :: l1 ++ l2) ≡ₚ keys (l1 ++ (a, e) :: l2)) by (unfold keys; by rewrite Hp).
  assert (Hlen : length (l1 ++ (a, e) :: l2) = length ((a, e) :: l1 ++ l2)) by (by rewrite Hp).
  destruct H. constructor; try done.
  - intros b Hb. apply r_fresh0. by apply Hin.
  - by rewrite Hkp.
  - intros k. rewrite Hkp. apply r_universe0.
  - intros k Hk. cbn [buckets set]. etransitivity; [exact (r_buckets0 k Hk)|]. rewrite addr_of_middle by done. unfold addr_of at 2. cbn. case_decide; [by rewrite bool_decide_eq_true_2|by rewrite bool_decide_eq_false_2].
  - etransitivity; [exact r_count0|]. by rewrite Hlen.
  - etransitivity; [exact r_size0|]. f_equal. by apply total_perm.
  - by rewrite <- Hlen.
  - by rewrite Hp.
Qed.

Lemma write_rep c l k v : rep c l -> exists c', write_through k v c = Done (tt, c') /\ rep c' l /\ same c c'.
Proof.
  intros H. unfold write_through, modify. eexists. split; [done|]. destruct (c_write_strategy (config c)); [|by destruct H..].
  destruct (c_backend_write (config c)); [|by destruct H]. split; [|done]. by destruct H; constructor.
Qed.
Lemma total_middle l1 a e l2 : total (l1 ++ (a, e) :: l2) = total l1 + entry_size (key e) (value e) + total l2.
Proof. rewrite total_app. unfold total at 2. cbn. fold (total l2). lia. Qed.
Lemma put_old c l1 a e l2 v ttl : rep c (l1 ++ (a, e) :: l2) -> exists c' e', bind (update_entry clock a v ttl) (fun _ => dc_lru_touch a) c = Done (tt, c') /\
  rep c' ((a, e') :: l1 ++ l2) /\ item_of (a, e') = (key e, (v, ttl, clock (clock_reads c))) /\ clock_reads c' = S (clock_reads c) /\ hit_count c' = hit_count c /\ miss_count c' = miss_count c.
Proof.
  intros H. destruct (rep_split _ _ _ _ _ H) as (Ha1 & Ha2 & _ & _ & _ & He). set (now := clock (clock_reads c)).
  set (f := fun e => e <| value := v |> <| ttl_seconds := ttl |> <| created_at := now |> <| access_count ::= fun n => n + 1 |>).
  set (e0 := e <| next := first l2 None |> <| prev := final l1 None |>) in *.
  set (c1 := c <| memory_used ::= fun m => u64 (m - Z.of_nat (length (value e0)) + Z.of_nat (length v)) |> <| clock_reads ::= S |>).
  assert (Hrun : update_entry clock a v ttl c = Done (tt, with_heap c1 (<[a := f e0]> (heap c)))).
  { unfold update_entry. rewrite (bind_Done _ _ _ _ _ (load_Done _ _ _ He)). unfold bind, modify, time_now, store. cbn. by rewrite He. }
  rewrite (bind_Done _ _ _ _ _ Hrun).
  assert (H1 : rep (with_heap c1 (<[a := f e0]> (heap c))) (l1 ++ (a, f e) :: l2)).
  { eapply (update_rep c); [exact H|done..| |]; [intros e1 He1; rewrite He in He1; by injection He1 as <-|].
    transitivity (u64 (memory_used c - Z.of_nat (length (value e)) + Z.of_nat (length v))); [by destruct e|].
    rewrite (r_size _ _ H), !total_middle. unfold u64. match goal with |- (?t mod ?m - ?x + ?y) mod _ = _ => replace (t mod m - x + y) with (t mod m - (x - y)) by lia end. rewrite Zminus_mod_idemp_l. f_equal. unfold entry_size. cbn. lia. }
  destruct (touch_rep _ _ _ _ _ H1) as (c' & Hrun' & H' & Hs). exists c', (f e). done.
Qed.
Lemma put_new c l k v ttl : rep c l -> k ∈ K -> k ∉ keys l -> Z.of_nat (length l) < c_max_entries cfg ->
  exists c' a e, bind (add_entry clock k v ttl) dc_lru_touch c = Done (tt, c') /\
  rep c' ((a, e) :: l) /\ item_of (a, e) = (k, (v, ttl, clock (clock_reads c))) /\ clock_reads c' = S (clock_reads c) /\ hit_count c' = hit_count c /\ miss_count c' = miss_count c.
Proof.
  intros H Hk Hnew Hlt. set (now := clock (clock_reads c)). set (a := next_addr c). set (e := mk_entry k v ttl now now 1 false None None).
  assert (Ha : a ∉ l.*1) by (intros Hin; apply (r_fresh _ _ H) in Hin; unfold a in Hin; lia).
  pose proof (r_buckets _ _ H k Hk) as Hb. rewrite (proj2 (addr_of_None k l) Hnew) in Hb.
  set (c1 := c <| clock_reads ::= S |> <| heap ::= <[a := e]> |> <| next_addr ::= S |> <| buckets ::= <[bucket k := Some a]> |>
    <| entry_count ::= fun n => u64 (n + 1) |> <| memory_used ::= fun m => u64 (m + entry_size k v) |>).
  assert (Hrun : add_entry clock k v ttl c = Done (a, c1)).
  { unfold add_entry. unfold bind at 1. unfold time_now. unfold bucket_of. rewrite bind_gets. cbn [buckets set]. unfold bind at 1, read_slot, gets at 1.
    pose proof (r_length _ _ H) as Hlen. cbn. rewrite Hlen. fold (bucket k). rewrite Hb. done. }
  rewrite (bind_Done _ _ _ _ _ Hrun).
  destruct (touch_new c1 a e l) as (h' & Hrun' & Hl & _); [done|apply H| |apply H|apply H|apply lookup_insert_eq|].
  { cbn. apply linked_insert; [done|apply H]. }
  eexists _, a, e. split; [exact Hrun'|]. split; [|done]. pose proof (p_max Hplain). destruct H. constructor; try done.
  - change (NoDup (a :: l.*1)). by apply NoDup_cons.
  - intros b Hb'. change (b ∈ a :: l.*1) in Hb'. change (b < S (next_addr c))%nat. apply elem_of_cons in Hb' as [->|Hb']; [unfold a; lia|]. specialize (r_fresh0 b Hb'). lia.
  - change (NoDup (k :: keys l)). by apply NoDup_cons.
  - intros k' Hk'. change (k' ∈ k :: keys l) in Hk'. apply elem_of_cons in Hk' as [->|Hk']; [done|]. by apply r_universe0.
  - change (length (<[bucket k := Some a]> (buckets c)) = nbuckets). by rewrite length_insert.
  - intros k' Hk'. change (mjoin (<[bucket k := Some a]> (buckets c) !! bucket k') = addr_of k' ((a, e) :: l)). unfold addr_of. cbn. destruct (decide (k' = k)) as [->|Hne].
    + rewrite list_lookup_insert_eq by (rewrite r_length0; apply bucket_lt). by rewrite bool_decide_eq_true_2.
    + rewrite list_lookup_insert_ne by (intros Heq; apply bucket_inj in Heq; congruence). rewrite bool_decide_eq_false_2 by congruence. by apply r_buckets0.
  - change (u64 (entry_count c + 1) = Z.of_nat (S (length l))). rewrite r_count0, u64_small; lia.
  - change (u64 (memory_used c + entry_size k v) = u64 (entry_size k v + total l)). rewrite r_size0. unfold u64. rewrite Zplus_mod_idemp_l. f_equal. lia.
  - change (Z.of_nat (S (length l)) <= c_max_entries cfg). lia.
  - by constructor.
Qed.

(** ** The specification *)

Record lru_map := mk_lru { items : list item; reads : nat; hits : Z; misses : Z }.
Inductive dc_op := Put (k : string) (v : list Z) (ttl : Z) | Get (k : string) (r : D) | Expire (k : string) (ttl : Z) | Exists (k : string).
Inductive answer := Code (z : Z) | Value (v : option (list Z)).
Definition op_key (op : dc_op) : string := match op with Put k _ _ | Get k _ | Expire k _ | Exists k => k end.
Definition spec_find (k : string) (L : list item) : option (list Z * Z * Z) := snd <$> List.find (fun x => bool_decide (x.1 = k)) L.
Definition spec_remove (k : string) (L : list item) : list item := List.filter (fun x => negb (bool_decide (x.1 = k))) L.
(** Putting a key makes it the first of at most [max_items]; getting one that is not
    expired moves it to the front. *)
Definition spec_op (op : dc_op) (s : lru_map) : answer * lru_map :=
  let now := clock (reads s) in
  match op with
  | Put k v ttl => (Code 0, mk_lru ((k, (v, ttl, now)) :: take (max_items - 1) (spec_remove k (items s))) (S (reads s)) (hits s) (misses s))
  | Get k _ =>
      match spec_find k (items s) with
      | None => (Value None, mk_lru (items s) (reads s) (hits s) (u64 (misses s + 1)))
      | Some (v, ttl, t) =>
          if (0 <? ttl) && (ttl <? now - t) then (Value None, mk_lru (items s) (S (reads s)) (hits s) (misses s))
          else (Value (Some v), mk_lru ((k, (v, ttl, t)) :: spec_remove k (items s)) (S (reads s)) (u64 (hits s + 1)) (misses s))
      end
  | Expire k ttl =>
      match spec_find k (items s) with
      | None => (Code (-1), s)
      | Some _ => (Code 0, mk_lru ((fun x => if bool_decide (x.1 = k) then (k, (x.2.1.1, ttl, now)) else x) <$> items s) (S (reads s)) (hits s) (misses s))
      end
  | Exists k => (Code (if spec_find k (items s) then 1 else 0), s)
  end.
Definition run_op (op : dc_op) : M (D := D) answer :=
  match op with
  | Put k v ttl => bind (dc_cache_put clock fuel k v ttl) (fun z => ret (Code z))
  | Get k r => bind (dc_cache_get clock fuel k r) (fun v => ret (Value v))
  | Expire k ttl => bind (dc_cache_expire clock fuel k ttl) (fun z => ret (Code z))
  | Exists k => bind (dc_cache_exists fuel k) (fun z => ret (Code z))
  end.
Fixpoint run_ops (ops : list dc_op) : M (D := D) (list answer) :=
  match ops with [] => ret [] | op :: ops' => bind (run_op op) (fun x => bind (run_ops ops') (fun xs => ret (x :: xs))) end.
Fixpoint spec_ops (ops : list dc_op) (s : lru_map) : list answer * lru_map :=
  match ops with [] => ([], s) | op :: ops' => let r := spec_op op s in let rs := spec_ops ops' r.2 in (r.1 :: rs.1, rs.2) end.

Definition refines c (s : lru_map) : Prop :=
  exists l, rep c l /\ item_of <$> l = items s /\ clock_reads c = reads s /\ hit_count c = hits s /\ miss_count c = misses s.

Lemma view_absent k l : k ∉ keys l -> spec_find k (item_of <$> l) = None /\ spec_remove k (item_of <$> l) = item_of <$> l.
Proof.
  induction l as [|x l IH]; [done|]. intros [Hx Hl]%not_elem_of_cons. destruct (IH Hl) as [IH1 IH2]. unfold spec_find, spec_remove in *. cbn.
  rewrite bool_decide_eq_false_2 by congruence. cbn. split; [exact IH1|]. f_equal. exact IH2.
Qed.
Lemma view_present k l1 a e l2 : key e = k -> k ∉ keys (l1 ++ l2) -> spec_find k (item_of <$> (l1 ++ (a, e) :: l2)) = Some (value e, ttl_seconds e, created_at e) /\
  spec_remove k (item_of <$> (l1 ++ (a, e) :: l2)) = item_of <$> (l1 ++ l2).
Proof.
  intros <-. induction l1 as [|x l1 IH]; cbn [app].
  - intros Hk. destruct (view_absent _ _ Hk) as [_ Hr]. unfold spec_find, spec_remove in *. cbn. rewrite bool_decide_eq_true_2 by done. cbn. split; [done|exact Hr].
  - intros [Hx Hl]%not_elem_of_cons. destruct (IH Hl) as [IH1 IH2]. unfold spec_find, spec_remove in *. cbn. rewrite bool_decide_eq_false_2 by congruence. cbn.
    split; [exact IH1|]. f_equal. exact IH2.
Qed.
Lemma view_present_expire k l1 a e l2 (g : item -> item) : key e = k -> k ∉ keys (l1 ++ l2) ->
  (fun x => if bool_decide (x.1 = k) then g x else x) <$> (item_of <$> (l1 ++ (a, e) :: l2)) = (item_of <$> l1) ++ g (item_of (a, e)) :: (item_of <$> l2).
Proof.
  intros <- Hk. rewrite keys_app, not_elem_of_app in Hk. destruct Hk as [H1 H2].
  assert (Hid : forall l, key e ∉ keys l -> (fun x => if bool_decide (x.1 = key e) then g x else x) <$> (item_of <$> l) = item_of <$> l).
  { intros l. induction l as [|x l IH]; [done|]. intros [Hx Hl]%not_elem_of_cons. cbn. rewrite bool_decide_eq_false_2 by congruence. f_equal. by apply IH. }
  rewrite fmap_app, fmap_cons, fmap_app, fmap_cons, !Hid by done. cbn. by rewrite bool_decide_eq_true_2.
Qed.

Lemma dc_put_refines c s k v ttl : refines c s -> k ∈ K -> exists c', run_op (Put k v ttl) c = Done (Code 0, c') /\ refines c' (spec_op (Put k v ttl) s).2.
Proof.
  intros (l & H & Hv & Hr & Hh & Hm) Hk. pose proof (p_max Hplain) as Hmax. cbn [run_op spec_op snd]. unfold dc_cache_put.
  assert (Hgoal : exists c' e', bind (dc_find_entry fuel k) (fun exist => match exist with
      | Some a => bind (update_entry clock a v ttl) (fun _ => bind (dc_lru_touch a) (fun _ => bind (write_through k v) (fun _ => ret 0)))
      | None => bind (make_room clock fuel k v) (fun _ => bind (add_entry clock k v ttl) (fun a => bind (dc_lru_touch a) (fun _ => bind (write_through k v) (fun _ => ret 0))))
      end) c = Done (0, c') /\ exists l', rep c' (e' :: l') /\ item_of e' = (k, (v, ttl, clock (reads s))) /\ item_of <$> l' = take (max_items - 1) (spec_remove k (items s)) /\
      clock_reads c' = S (reads s) /\ hit_count c' = hits s /\ miss_count c' = misses s).
  { rewrite (find_Done _ _ _ _ H Hk), <- Hv, <- Hr, <- Hh, <- Hm. destruct (addr_of k l) as [a|] eqn:Ha.
    - apply addr_of_Some in Ha as (l1 & e & l2 & -> & <-). destruct (rep_split _ _ _ _ _ H) as (_ & _ & _ & _ & Hke & _).
      destruct (put_old c l1 a e l2 v ttl H) as (c1 & e' & Hrun & H1 & He' & Hs). unfold bind in Hrun |- *. destruct (update_entry clock a v ttl c) as [[[] c0]| |]; [|done..]. rewrite Hrun.
      destruct (write_rep _ _ (key e) v H1) as (c' & Hw & H' & Hs1 & Hs2 & Hs3). rewrite Hw. exists c', (a, e'). split; [done|]. exists (l1 ++ l2). split; [done|]. split; [done|].
      rewrite Hs1, Hs2, Hs3. split; [|done]. destruct (view_present _ l1 a e l2 eq_refl Hke) as [_ ->]. symmetry. apply take_ge. rewrite length_fmap.
      pose proof (r_max _ _ H) as Hle. rewrite length_app in *. cbn [length] in Hle. unfold max_items. lia.
    - apply addr_of_None in Ha. destruct (make_room_rep c l k v H) as (c1 & Hrun & H1 & Hs1 & Hs2 & Hs3). rewrite (bind_Done _ _ _ _ _ Hrun).
      assert (Hnew : k ∉ keys (take (max_items - 1) l)) by (intros Hin; apply Ha; rewrite <- (take_drop (max_items - 1) l), keys_app; apply elem_of_app; by left).
      destruct (put_new c1 _ k v ttl H1 Hk Hnew) as (c2 & a & e & Hrun2 & H2 & He & Hs4 & Hs5 & Hs6); [rewrite length_take; unfold max_items; lia|].
      unfold bind in Hrun2 |- *. destruct (add_entry clock k v ttl c1) as [[a' c0]| |]; [|done..]. rewrite Hrun2.
      destruct (write_rep _ _ k v H2) as (c' & Hw & H' & Hs7 & Hs8 & Hs9). rewrite Hw. exists c', (a, e). split; [done|]. exists (take (max_items - 1) l). split; [done|].
      rewrite Hs7, Hs8, Hs9, Hs4, Hs5, Hs6, Hs1, Hs2, Hs3. rewrite Hs1 in He. split; [done|]. split; [|done]. destruct (view_absent _ _ Ha) as [_ ->]. apply fmap_take. }
  destruct Hgoal as (c' & e' & Hrun & l' & H' & He' & Hl' & Hs). exists c'. split; [unfold bind in Hrun |- *; by rewrite Hrun|]. exists (e' :: l'). rewrite fmap_cons, He', Hl'. done.
Qed.
Lemma dc_get_refines c s k r : refines c s -> k ∈ K -> exists c', run_op (Get k r) c = Done ((spec_op (Get k r) s).1, c') /\ refines c' (spec_op (Get k r) s).2.
Proof.
  intros (l & H & Hv & Hr & Hh & Hm) Hk. cbn [run_op spec_op]. rewrite <- Hv, <- Hr, <- Hh, <- Hm.
  assert (Hback : forall c l, rep c l -> refill clock fuel k c = Done (None, c)).
  { intros c0 l0 H0. unfold refill, read_backend. unfold bind. by rewrite (r_config _ _ H0), (p_backend Hplain). }
  destruct (addr_of k l) as [a|] eqn:Ha.
  - apply addr_of_Some in Ha as Hs. destruct Hs as (l1 & e & l2 & -> & Hke). destruct (rep_split _ _ _ _ _ H) as (Ha1 & Ha2 & _ & _ & Hn & He). rewrite Hke in Hn.
    destruct (view_present _ l1 a e l2 Hke Hn) as [-> ->]. set (now := clock (clock_reads c)). set (e0 := e <| next := first l2 None |> <| prev := final l1 None |>) in *.
    assert (Hst : stale e = false) by (pose proof (r_stale _ _ H) as Hst; apply Forall_app in Hst as [_ Hst]; by apply Forall_cons in Hst as [Hst _]).
    assert (Hexp : stale e0 || expired now e0 = (0 <? ttl_seconds e) && (ttl_seconds e <? now - created_at e)) by (unfold e0; destruct e; cbn in *; by rewrite Hst).
    set (c1 := c <| clock_reads ::= S |>). assert (H1 : rep c1 (l1 ++ (a, e) :: l2)) by by destruct H; constructor.
    assert (He1 : heap c1 !! a = Some e0) by exact He.
    assert (Hget : exists c', dc_cache_get clock fuel k r c = Done (if (0 <? ttl_seconds e) && (ttl_seconds e <? now - created_at e) then None else Some (value e), c') /\
      exists l', rep c' l' /\ item_of <$> l' = (if (0 <? ttl_seconds e) && (ttl_seconds e <? now - created_at e) then item_of <$> (l1 ++ (a, e) :: l2)
        else (k, (value e, ttl_seconds e, created_at e)) :: (item_of <$> (l1 ++ l2))) /\ clock_reads c' = S (clock_reads c) /\
      hit_count c' = (if (0 <? ttl_seconds e) && (ttl_seconds e <? now - created_at e) then hit_count c else u64 (hit_count c + 1)) /\ miss_count c' = miss_count c).
    { unfold dc_cache_get. rewrite (find_Done _ _ _ _ H Hk), Ha. rewrite (bind_Done (time_now clock) _ c now c1 eq_refl), (bind_Done _ _ _ _ _ (load_Done _ _ _ He1)). rewrite Hexp.
      destruct ((0 <? ttl_seconds e) && (ttl_seconds e <? now - created_at e)).
      - exists c1. split; [|by exists (l1 ++ (a, e) :: l2)]. assert (Hrec : recompute clock fuel a k now r c1 = Done (tt, c1)).
        { unfold recompute. rewrite bind_gets, (bind_Done _ _ _ _ _ (load_Done _ _ _ He1)). unfold when. destruct (_ && _); [|done]. by rewrite (bind_Done _ _ _ _ _ (Hback _ _ H1)). }
        rewrite (bind_Done _ _ _ _ _ Hrec). by eapply Hback.
      - set (f := fun e => e <| last_access := now |> <| access_count ::= fun n => n + 1 |>). set (c2 := c1 <| hit_count ::= fun n => u64 (n + 1) |>).
        rewrite bind_modify. fold c2. rewrite (bind_Done _ _ _ _ _ (store_Done c2 a f e0 He1)).
        assert (H2 : rep (with_heap c2 (<[a := f e0]> (heap c2))) (l1 ++ (a, f e) :: l2)).
        { eapply (update_rep c1); [exact H1|done..| |]; [intros e1 He1'; rewrite He1 in He1'; by injection He1' as <-|].
          etransitivity; [exact (r_size _ _ H1)|]. by rewrite !total_middle. }
        destruct (touch_rep _ _ _ _ _ H2) as (c' & Hrun & H' & Hs1 & Hs2 & Hs3). rewrite (bind_Done _ _ _ _ _ Hrun). exists c'.
        destruct (rep_split c' [] a (f e) (l1 ++ l2) H') as (_ & _ & _ & _ & _ & He'). rewrite (bind_Done _ _ _ _ _ (load_Done _ _ _ He')). split; [by destruct e|].
        exists ((a, f e) :: l1 ++ l2). split; [done|]. rewrite Hs1, Hs2, Hs3. split; [|done]. rewrite fmap_cons. f_equal. unfold item_of. cbn. by rewrite Hke. }
    destruct Hget as (c' & Hrun & l' & H' & Hl' & Hs1 & Hs2 & Hs3). exists c'. rewrite (bind_Done _ _ _ _ _ Hrun). unfold ret.
    destruct ((0 <? ttl_seconds e) && (ttl_seconds e <? now - created_at e)); (split; [done|]); by exists l'.
  - apply addr_of_None in Ha as Hn. destruct (view_absent _ _ Hn) as [-> _]. set (c1 := c <| miss_count ::= fun n => u64 (n + 1) |>).
    assert (H1 : rep c1 l) by by destruct H; constructor. exists c1. split; [|by exists l].
    assert (Hrun : dc_cache_get clock fuel k r c = Done (None, c1)); [|by rewrite (bind_Done _ _ _ _ _ Hrun)].
    unfold dc_cache_get. rewrite (find_Done _ _ _ _ H Hk), Ha. rewrite bind_modify. fold c1. by eapply Hback.
Qed.
Lemma expire_refines c s k ttl : refines c s -> k ∈ K -> exists c', run_op (Expire k ttl) c = Done ((spec_op (Expire k ttl) s).1, c') /\ refines c' (spec_op (Expire k ttl) s).2.
Proof.
  intros (l & H & Hv & Hr & Hh & Hm) Hk. cbn [run_op spec_op]. rewrite <- Hv, <- Hr, <- Hh, <- Hm.
  destruct (addr_of k l) as [a|] eqn:Ha.
  - apply addr_of_Some in Ha as Hs. destruct Hs as (l1 & e & l2 & -> & Hke). destruct (rep_split _ _ _ _ _ H) as (_ & _ & _ & _ & Hn & He). rewrite Hke in Hn.
    destruct (view_present _ l1 a e l2 Hke Hn) as [-> _]. set (now := clock (clock_reads c)). set (f := fun e => e <| ttl_seconds := ttl |> <| created_at := now |>).
    set (e0 := e <| next := first l2 None |> <| prev := final l1 None |>) in *. set (c1 := c <| clock_reads ::= S |>). assert (He1 : heap c1 !! a = Some e0) by exact He.
    set (c2 := with_heap c1 (<[a := f e0]> (heap c1))). exists c2. split.
    + assert (Hrun : dc_cache_expire clock fuel k ttl c = Done (0, c2)); [|by rewrite (bind_Done _ _ _ _ _ Hrun)].
      unfold dc_cache_expire. rewrite (find_Done _ _ _ _ H Hk), Ha. rewrite (bind_Done (time_now clock) _ c now c1 eq_refl). by rewrite (bind_Done _ _ _ _ _ (store_Done c1 a f e0 He1)).
    + exists (l1 ++ (a, f e) :: l2). split; [|split; [|done]].
      * eapply (update_rep c); [exact H|done..| |]; [intros e1 He1'; rewrite He in He1'; by injection He1' as <-|]. etransitivity; [exact (r_size _ _ H)|]. by rewrite !total_middle.
      * cbn [items]. etransitivity; [|symmetry; exact (view_present_expire k l1 a e l2 (fun x => (k, (x.2.1.1, ttl, now))) Hke Hn)].
        rewrite view_app, fmap_cons. do 2 f_equal. unfold item_of. cbn. by rewrite Hke.
  - apply addr_of_None in Ha as Hn. destruct (view_absent _ _ Hn) as [-> _]. exists c. split; [|by exists l].
    assert (Hrun : dc_cache_expire clock fuel k ttl c = Done (-1, c)); [|by rewrite (bind_Done _ _ _ _ _ Hrun)]. unfold dc_cache_expire. by rewrite (find_Done _ _ _ _ H Hk), Ha.
Qed.
Lemma exists_refines c s k : refines c s -> k ∈ K -> exists c', run_op (Exists k) c = Done ((spec_op (Exists k) s).1, c') /\ refines c' (spec_op (Exists k) s).2.
Proof.
  intros (l & H & Hv & Hr & Hh & Hm) Hk. cbn [run_op spec_op fst snd]. exists c. split; [|by exists l]. unfold dc_cache_exists. rewrite <- Hv.
  destruct (addr_of k l) as [a|] eqn:Ha.
  - apply addr_of_Some in Ha as Hs. destruct Hs as (l1 & e & l2 & -> & Hke). destruct (rep_split _ _ _ _ _ H) as (_ & _ & _ & _ & Hn & _). rewrite Hke in Hn.
    destruct (view_present _ l1 a e l2 Hke Hn) as [-> _]. unfold bind at 1. rewrite (find_Done _ _ _ _ H Hk), Ha. done.
  - apply addr_of_None in Ha as Hn. destruct (view_absent _ _ Hn) as [-> _]. unfold bind at 1. rewrite (find_Done _ _ _ _ H Hk), Ha. done.
Qed.
Lemma op_refines op c s : refines c s -> op_key op ∈ K -> exists c', run_op op c = Done ((spec_op op s).1, c') /\ refines c' (spec_op op s).2.
Proof. destruct op; cbn [op_key]; intros; [by apply dc_put_refines|by apply dc_get_refines|by apply expire_refines|by apply exists_refines]. Qed.
Lemma ops_refine ops c s : refines c s -> Forall (fun op => op_key op ∈ K) ops -> exists c', run_ops ops c = Done ((spec_ops ops s).1, c') /\ refines c' (spec_ops ops s).2.
Proof.
  intros H Hops. revert c s H. induction Hops as [|op ops Hop _ IH]; intros c s H; [by exists c|]. destruct (op_refines op c s H Hop) as (c1 & Hrun & H1).
  destruct (IH _ _ H1) as (c2 & Hrun2 & H2). exists c2. split; [|done]. cbn [run_ops spec_ops fst snd]. by rewrite (bind_Done _ _ _ _ _ Hrun), (bind_Done _ _ _ _ _ Hrun2).
Qed.
Lemma create_refines : refines (dc_cache_create cfg) (mk_lru [] 0 0 0).
Proof.
  pose proof (p_max Hplain). assert (Hb : buckets (dc_cache_create cfg) = replicate nbuckets None).
  { unfold dc_cache_create, nbuckets. cbn [buckets]. by rewrite (proj2 (Z.ltb_lt 0 (c_max_entries cfg))) by lia. }
  exists []. split; [|done]. constructor; try done; try (by constructor).
  - intros a Ha. by apply elem_of_nil in Ha.
  - intros k Hk. by apply elem_of_nil in Hk.
  - by rewrite Hb, length_replicate.
  - intros k Hk. rewrite Hb, lookup_replicate_2; [done|]. apply bucket_lt.
  - cbn. lia.
Qed.
End lru.

Definition at_second (n : nat) : Z := Z.of_nat n.
Definition plain_config (max_entries max_memory : Z) (policy : dc_eviction_policy_t) : dc_cache_config_t Q :=
  mk_config max_entries max_memory policy false (0 # 1) DC_WRITE_THROUGH None false false.
Definition lru_sample : list (dc_op (D := Q)) := [Put "a" [1] 0; Put "b" [2] 0; Get "a" (0 # 1); Put "c" [3] 0; Get "b" (0 # 1); Get "a" (0 # 1); Exists "c"].

(** ** Behaviours found *)

Definition do_put (k : string) : M (D := Q) unit := bind (dc_cache_put at_second 20 k [1] 0) (fun _ => ret tt).
Definition do_get (k : string) : M (D := Q) unit := bind (dc_cache_get at_second 20 k (0 # 1)) (fun _ => ret tt).
Definition do_delete (k : string) : M (D := Q) unit := bind (dc_cache_delete 20 k) (fun _ => ret tt).
Definition after (config : dc_cache_config_t Q) (l : list (M (D := Q) unit)) : option (dc_cache Q) :=
  match foldr (fun m r => bind m (fun _ => r)) (ret tt) l (dc_cache_create config) with Done (_, c) => Some c | _ => None end.

(** The bucket of "b" is left pointing at the entry of "a", which the list links to it;
    once "a" is deleted too, looking "b" up reads a freed entry. *)
Example deleted_entry_is_followed : dc_cache_exists 20 "b" <$> after (plain_config 8 0 DC_EVICTION_LRU) [do_put "a"; do_put "b"; do_delete "b"; do_delete "a"] = Some Undefined.
Proof. vm_compute. reflexivity. Qed.

(** A loop on three entries of other keys never ends. *)
Lemma find_loops fuel k (c : dc_cache Q) : (forall a, (a < 3)%nat -> exists e b, heap c !! a = Some e /\ key e <> k /\ next e = Some b /\ (b < 3)%nat) ->
  forall a, (a < 3)%nat -> find_chain fuel k (Some a) c = Running.
Proof.
  intros Hc. induction fuel as [|fuel IH]; intros a Ha; [done|]. destruct (Hc a Ha) as (e & b & He & Hk & Hn & Hb). cbn [find_chain].
  rewrite (bind_Done _ _ _ _ _ (load_Done _ _ _ He)), bool_decide_eq_false_2, Hn by done. by apply IH.
Qed.
Definition circle : dc_cache Q :=
  default (dc_cache_create (plain_config 8 0 DC_EVICTION_LRU)) (after (plain_config 8 0 DC_EVICTION_LRU) [do_put "a"; do_put "b"; do_put "q"; do_get "a"]).
(** "a" and "q" share a bucket: putting "a", "b" and "q" and then getting "a" closes the
    chain to a circle, and looking up a key that is not there never ends. *)
Theorem lookup_never_ends fuel : dc_cache_exists fuel "Q" circle = Running.
Proof.
  assert (Hb : bucket_of "Q" circle = Done (6%nat, circle)) by (vm_compute; reflexivity).
  assert (Hs : read_slot (Bucket 6) circle = Done (Some 2%nat, circle)) by (vm_compute; reflexivity).
  unfold dc_cache_exists, dc_find_entry. unfold bind at 1. rewrite (bind_Done _ _ _ _ _ Hb), (bind_Done _ _ _ _ _ Hs), find_loops; [done| |lia].
  assert (Hc : forallb (fun a => match heap circle !! a with Some e => negb (bool_decide (key e = "Q"%string)) && match next e with Some b => (b <? 3)%nat | None => false end | None => false end) [0; 1; 2]%nat = true)
    by (vm_compute; reflexivity).
  intros a Ha. rewrite forallb_forall in Hc. specialize (Hc a ltac:(destruct a as [|[|[|]]]; [left|right; left|right; right; left|lia]; done)).
  destruct (heap circle !! a) as [e|]; [|done]. apply andb_true_iff in Hc as [Hk Hn]. destruct (next e) as [b|] eqn:Hne; [|done].
  exists e, b. split; [done|]. split; [by apply negb_true_iff, bool_decide_eq_false in Hk|]. split; [done|]. by apply Nat.ltb_lt.
Qed.

Lemma while_stuck {D} fuel cond (body : M (D := D) unit) (P : dc_cache D -> Prop) c : (forall c, P c -> cond c = true /\ exists c', body c = Done (tt, c') /\ P c') -> P c ->
  while_m fuel cond body c = Running.
Proof.
  intros Hstep. revert c. induction fuel as [|fuel IH]; intros c Hc; [done|]. cbn [while_m]. rewrite bind_gets. destruct (Hstep c Hc) as [-> (c' & Hrun & Hc')].
  rewrite (bind_Done _ _ _ _ _ Hrun). by apply IH.
Qed.
(** A value larger than the memory allowed: there is nothing to evict, and putting it
    never ends. *)
Theorem oversized_put_never_ends fuel : dc_cache_put at_second fuel "a" [1; 2; 3; 4; 5] 0 (dc_cache_create (plain_config 8 4 DC_EVICTION_LRU)) = Running.
Proof.
  set (c := dc_cache_create _). assert (Hb : bucket_of "a" c = Done (6%nat, c)) by (vm_compute; reflexivity). assert (Hs : read_slot (Bucket 6) c = Done (None, c)) by done.
  unfold dc_cache_put, dc_find_entry. unfold bind at 1. rewrite (bind_Done _ _ _ _ _ Hb), (bind_Done _ _ _ _ _ Hs). destruct fuel as [|fuel]; [done|]. cbn [find_chain ret].
  unfold bind at 1, make_room. assert (Hw : while_m (S fuel) (fun c => (0 <? c_max_entries (config c)) && (c_max_entries (config c) <=? entry_count c)) (dc_evict_one at_second (S fuel)) c = Done (tt, c)) by done.
  rewrite (bind_Done _ _ _ _ _ Hw), (while_stuck _ _ _ (fun c' => c' = c)); [done| |done].
  intros c' ->. split; [vm_compute; reflexivity|]. by exists c.
Qed.
(** With the policy DC_EVICTION_TTL nothing is evicted from a full cache of entries that
    do not expire, and putting another key never ends. *)
Definition full : dc_cache Q := default (dc_cache_create (plain_config 1 0 DC_EVICTION_TTL)) (after (plain_config 1 0 DC_EVICTION_TTL) [do_put "a"]).
Theorem ttl_put_never_ends fuel : dc_cache_put at_second fuel "b" [2] 0 full = Running.
Proof.
  assert (Hb : bucket_of "b" full = Done (7%nat, full)) by (vm_compute; reflexivity). assert (Hs : read_slot (Bucket 7) full = Done (None, full)) by (vm_compute; reflexivity).
  unfold dc_cache_put, dc_find_entry. unfold bind at 1. rewrite (bind_Done _ _ _ _ _ Hb), (bind_Done _ _ _ _ _ Hs). destruct fuel as [|[|fuel]]; [done|vm_compute; reflexivity|]. cbn [find_chain ret].
  unfold bind at 1, make_room. unfold bind at 1. rewrite (while_stuck _ _ _ (fun c => exists n, c = full <| clock_reads := n |>)); [done| |by exists 1%nat].
  intros c [n ->]. split; [vm_compute; reflexivity|]. exists (full <| clock_reads := S n |>). split; [vm_compute; reflexivity|]. by exists (S n).
Qed.
