(* ===== verification/SessionManager.v ===== *)
(** Model of [mini-auth-security/src/session_manager.c]: the table of sessions, their
    validation and regeneration, attributes and cleanup; and the theorems on it.

    The array of sessions is the list [sessions] of those in use followed by [spare],
    the slots behind [count] with what was left in them.  Texts are the bytes before
    their zero.  [now] is [time(NULL)]; the static state of the generator is passed and
    returned. *)

From S2P Require Import Prelude Bytes.

Definition SM_MAX_SESSIONS : nat := Z.to_nat 2048.
#[global] Arguments SM_MAX_SESSIONS : simpl never.
Definition SM_MAX_SESSION_ID_LEN : nat := 128.
Definition SM_MAX_USERNAME_LEN : nat := 128.
Definition SM_MAX_ATTR_KEY_LEN : nat := 64.
Definition SM_MAX_ATTR_VALUE_LEN : nat := 256.
Definition SM_MAX_ATTRIBUTES : nat := 16.
Definition SM_DEFAULT_IDLE_TIMEOUT : Z := 1800.
Definition SM_DEFAULT_ABSOLUTE_TTL : Z := 28800.
Definition SM_MAX_IP_LEN : nat := 64.
Definition SM_MAX_USER_AGENT_LEN : nat := 256.

Inductive SessionState := SESSION_ACTIVE | SESSION_IDLE | SESSION_EXPIRED | SESSION_TERMINATED | SESSION_INVALIDATED.
#[export] Instance session_state_eq_dec : EqDecision SessionState.
Proof. solve_decision. Defined.
Inductive SessionFixationPolicy := SESSION_FIXATION_NONE | SESSION_FIXATION_PREVENT | SESSION_FIXATION_REGENERATE.
Record SessionAttribute := mk_attribute { attr_key : list Z; attr_value : list Z }.
(** [attributes] are the first [attr_count]. *)
Record SessionEntry := mk_session {
  session_id : list Z; username : list Z; client_ip : list Z; user_agent : list Z; state : SessionState; created_at : Z; last_accessed_at : Z; expires_at : Z;
  idle_timeout_seconds : Z; absolute_ttl_seconds : Z; is_authenticated : Z; privilege_level : Z; attributes : list SessionAttribute; access_count : Z;
  rotation_generation : Z;
}.
Record SessionManager := mk_manager {
  sessions : list SessionEntry; spare : list SessionEntry; total_created : Z; total_destroyed : Z; fixation_policy : SessionFixationPolicy;
  default_idle_timeout : Z; default_absolute_ttl : Z; enforce_ip_binding : bool; enforce_user_agent_binding : bool;
}.

Definition sm_session_state_name (s : SessionState) : list Z :=
  str_bytes match s with
            | SESSION_ACTIVE => "ACTIVE" | SESSION_IDLE => "IDLE" | SESSION_EXPIRED => "EXPIRED" | SESSION_TERMINATED => "TERMINATED"
            | SESSION_INVALIDATED => "INVALIDATED"
            end.

(** ** Session identifiers *)

(** [sm_xorshift_state]: four words of 32 bits. *)
Definition sm_xorshift_state : Type := Z * Z * Z * Z.
Definition initial_state : sm_xorshift_state := (0xDEADBEEF, 0xCAFEBABE, 0x8BADF00D, 0xFEEDFACE).
Definition sm_xorshift128plus (s : sm_xorshift_state) : Z * sm_xorshift_state :=
  let '(x0, x1, x2, x3) := s in
  let s1 := Z.lor (Z.shiftl x1 32) x0 in
  let s0 := Z.lor (Z.shiftl x3 32) x2 in
  let t := Z.lxor s1 (u64 (Z.shiftl s1 23)) in
  let n := Z.lxor (Z.lxor (Z.lxor t s0) (Z.shiftr t 18)) (Z.shiftr s0 5) in
  (u64 (s0 + s1), (Z.land s0 0xFFFFFFFF, Z.shiftr s0 32, Z.land n 0xFFFFFFFF, Z.land (Z.shiftr n 32) 0xFFFFFFFF)).
Definition seeded (s : sm_xorshift_state) (now : Z) : sm_xorshift_state :=
  let '(x0, x1, x2, x3) := s in
  if (x0 =? 0xDEADBEEF) && (x1 =? 0xCAFEBABE) then (u32 now, u32 (Z.shiftr (u64 now) 32), u32 (Z.lxor now 0x12345678), 0x9ABCDEF0) else s.
Definition hex_of (r : Z) : list Z := (fun j => nth (Z.to_nat (Z.land (Z.shiftr r (4 * j)) 15)) (str_bytes "0123456789abcdef") 0) <$> seqZ 0 16.
(** [n] draws of sixteen digits each. *)
Fixpoint draws (n : nat) (s : sm_xorshift_state) : list Z * sm_xorshift_state :=
  match n with
  | O => ([], s)
  | S n' => let r := sm_xorshift128plus s in let rest := draws n' r.2 in (hex_of r.1 ++ rest.1, rest.2)
  end.
Definition sm_generate_session_id (len : nat) (now : Z) (s : sm_xorshift_state) : list Z * sm_xorshift_state :=
  let r := draws ((len - 1 + 15) / 16) (seeded s now) in (take (len - 1) r.1, r.2).

(** ** Operations *)

Definition no_session : SessionEntry := mk_session [] [] [] [] SESSION_ACTIVE 0 0 0 0 0 0 0 [] 0 0.
Definition sm_init : SessionManager :=
  mk_manager [] (replicate SM_MAX_SESSIONS no_session) 0 0 SESSION_FIXATION_PREVENT SM_DEFAULT_IDLE_TIMEOUT SM_DEFAULT_ABSOLUTE_TTL false false.
(** An address or agent that is not given leaves what the slot held. *)
Definition sm_create_session (sm : SessionManager) (user : list Z) (ip agent : option (list Z)) (sid_size : nat) (now : Z) (g : sm_xorshift_state)
    : option (list Z) * SessionManager * sm_xorshift_state :=
  if (sid_size =? 0)%nat then (None, sm, g)
  else
    match spare sm with
    | [] => (None, sm, g)
    | slot :: rest =>
        let r := sm_generate_session_id SM_MAX_SESSION_ID_LEN now g in
        let s := mk_session r.1 (truncated SM_MAX_USERNAME_LEN user) (from_option (truncated SM_MAX_IP_LEN) (client_ip slot) ip)
                   (from_option (truncated SM_MAX_USER_AGENT_LEN) (user_agent slot) agent) SESSION_ACTIVE now now (now + default_absolute_ttl sm)
                   (default_idle_timeout sm) (default_absolute_ttl sm) 0 0 [] 0 1 in
        (Some (truncated sid_size r.1), sm <| sessions ::= fun l => l ++ [s] |> <| spare := rest |> <| total_created ::= fun n => u64 (n + 1) |>, r.2)
    end.
Definition sm_find_session (sm : SessionManager) (sid : list Z) : option nat := find_idx (fun s => bool_decide (session_id s = sid)) (sessions sm).
Definition with_session {A} (sm : SessionManager) (sid : list Z) (missing : A) (f : nat -> SessionEntry -> A) : A :=
  match sm_find_session sm sid with
  | Some i => match sessions sm !! i with Some s => f i s | None => missing end
  | None => missing
  end.
Definition put_session (sm : SessionManager) (i : nat) (s : SessionEntry) : SessionManager := sm <| sessions ::= <[i := s]> |>.
Definition is_over (s : SessionEntry) : bool := bool_decide (state s = SESSION_TERMINATED \/ state s = SESSION_INVALIDATED).
Definition bound_elsewhere (enforced : bool) (given : option (list Z)) (bound : list Z) : bool :=
  match given, bound with Some g, _ :: _ => enforced && negb (bool_decide (bound = g)) | _, _ => false end.
Definition awake (s : SessionEntry) : SessionEntry := if bool_decide (state s = SESSION_IDLE) then s <| state := SESSION_ACTIVE |> else s.
(** The name is given when the session is valid. *)
Definition sm_validate_session (sm : SessionManager) (sid : list Z) (ip agent : option (list Z)) (u_size : nat) (now : Z) : Z * option (list Z) * SessionManager :=
  with_session sm sid (-2, None, sm) (fun i s =>
    if is_over s then (-3, None, sm)
    else if expires_at s <? now then (-4, None, put_session sm i (s <| state := SESSION_EXPIRED |>))
    else if idle_timeout_seconds s <? now - last_accessed_at s then (-5, None, put_session sm i (s <| state := SESSION_IDLE |>))
    else if bound_elsewhere (enforce_ip_binding sm) ip (client_ip s) then (-6, None, sm)
    else if bound_elsewhere (enforce_user_agent_binding sm) agent (user_agent s) then (-7, None, sm)
    else (0, Some (truncated u_size (username s)), put_session sm i (awake (s <| last_accessed_at := now |> <| access_count ::= fun n => u32 (n + 1) |>)))).
Definition sm_extend_session (sm : SessionManager) (sid : list Z) (additional_seconds now : Z) : Z * SessionManager :=
  with_session sm sid (-2, sm) (fun i s =>
    if is_over s then (-3, sm)
    else (0, put_session sm i (awake (s <| last_accessed_at := now |> <| expires_at ::= fun t => t + additional_seconds |>)))).
Definition sm_terminate_session (sm : SessionManager) (sid : list Z) : Z * SessionManager :=
  with_session sm sid (-2, sm) (fun i s => (0, (put_session sm i (s <| state := SESSION_TERMINATED |>)) <| total_destroyed ::= fun n => u64 (n + 1) |>)).
Definition sm_regenerate_session (sm : SessionManager) (old_sid : list Z) (sid_size : nat) (now : Z) (g : sm_xorshift_state)
    : Z * option (list Z) * SessionManager * sm_xorshift_state :=
  if (sid_size =? 0)%nat then (-1, None, sm, g)
  else
    with_session sm old_sid (-2, None, sm, g) (fun i old =>
      match spare sm with
      | [] => (-3, None, sm, g)
      | _ :: rest =>
          let r := sm_generate_session_id SM_MAX_SESSION_ID_LEN now g in
          let new_s := old <| session_id := r.1 |> <| rotation_generation ::= fun n => n + 1 |> in
          let sm := put_session sm i (old <| state := SESSION_INVALIDATED |>) in
          (0, Some (truncated sid_size r.1), sm <| sessions ::= fun l => l ++ [new_s] |> <| spare := rest |>, r.2)
      end).
Definition attr_idx (s : SessionEntry) (k : list Z) : option nat := find_idx (fun a => bool_decide (attr_key a = k)) (attributes s).
Definition sm_set_session_attribute (sm : SessionManager) (sid k v : list Z) : Z * SessionManager :=
  with_session sm sid (-2, sm) (fun i s =>
    match attr_idx s k with
    | Some j => (0, put_session sm i (s <| attributes ::= alter (fun a => a <| attr_value := truncated SM_MAX_ATTR_VALUE_LEN v |>) j |>))
    | None =>
        if (SM_MAX_ATTRIBUTES <=? length (attributes s))%nat then (-3, sm)
        else (0, put_session sm i (s <| attributes ::= fun l => l ++ [mk_attribute (truncated SM_MAX_ATTR_KEY_LEN k) (truncated SM_MAX_ATTR_VALUE_LEN v)] |>))
    end).
Definition sm_get_session_attribute (sm : SessionManager) (sid k : list Z) (v_size : nat) : Z * option (list Z) :=
  if (v_size =? 0)%nat then (-1, None)
  else
    with_session sm sid (-2, None) (fun _ s =>
      match attr_idx s k ≫= (attributes s !!.) with Some a => (0, Some (truncated v_size (attr_value a))) | None => (-3, None) end).
Definition sm_set_authenticated (sm : SessionManager) (sid : list Z) (level : Z) : Z * SessionManager :=
  with_session sm sid (-2, sm) (fun i s => (0, put_session sm i (s <| is_authenticated := 1 |> <| privilege_level := level |>))).
Definition of_user (user : list Z) (s : SessionEntry) : bool := bool_decide (username s = user) && bool_decide (state s = SESSION_ACTIVE).
Definition sm_invalidate_all_for_user (sm : SessionManager) (user : list Z) : Z * SessionManager :=
  let n := Z.of_nat (count_if (of_user user) (sessions sm)) in
  (n, sm <| sessions ::= fmap (fun s => if of_user user s then s <| state := SESSION_INVALIDATED |> else s) |> <| total_destroyed ::= fun t => u64 (t + n) |>).
Definition sm_get_active_count (sm : SessionManager) : Z := Z.of_nat (count_if (fun s => bool_decide (state s = SESSION_ACTIVE)) (sessions sm)).
Definition is_idle (now : Z) (s : SessionEntry) : bool :=
  bool_decide (state s = SESSION_ACTIVE) && (idle_timeout_seconds s / 2 <? now - last_accessed_at s).
Definition sm_get_idle_sessions (sm : SessionManager) (max_results : nat) (now : Z) : Z * list SessionEntry :=
  if (max_results =? 0)%nat then (-1, []) else (0, take max_results (List.filter (is_idle now) (sessions sm))).
Definition should_remove (now : Z) (s : SessionEntry) : bool :=
  is_over s || bool_decide (state s = SESSION_EXPIRED) || (expires_at s <? now) || (idle_timeout_seconds s * 2 <? now - last_accessed_at s).
(** The slot behind the sessions left keeps the last session. *)
Definition remove_at (i : nat) (sm : SessionManager) : SessionManager :=
  match last (sessions sm) with
  | Some s => sm <| total_destroyed ::= fun n => u64 (n + 1) |> <| sessions ::= swap_remove i |> <| spare ::= cons s |>
  | None => sm
  end.
Fixpoint cleanup_loop (fuel : nat) (now : Z) (i : nat) (sm : SessionManager) : option SessionManager :=
  match fuel with
  | O => None
  | S fuel' =>
      match sessions sm !! i with
      | None => Some sm
      | Some s => if should_remove now s then cleanup_loop fuel' now i (remove_at i sm) else cleanup_loop fuel' now (S i) sm
      end
  end.
Definition sm_cleanup_expired (sm : SessionManager) (now : Z) : option SessionManager := cleanup_loop (S (length (sessions sm))) now 0 sm.

Definition json_field (name : string) (v : list Z) : list Z := [34] ++ str_bytes name ++ [34; 58] ++ v.
Definition quoted (v : list Z) : list Z := [34] ++ v ++ [34].
Definition session_text (s : SessionEntry) : list Z :=
  [123] ++ json_field "session_id" (quoted (session_id s)) ++ [44] ++ json_field "username" (quoted (username s)) ++ [44] ++
  json_field "state" (quoted (sm_session_state_name (state s))) ++ [44] ++ json_field "authenticated" (print_lld (is_authenticated s)) ++ [44] ++
  json_field "privilege" (print_lld (privilege_level s)) ++ [44] ++ json_field "access_count" (print_lld (access_count s)) ++ [44] ++
  json_field "created" (print_lld (created_at s)) ++ [44] ++ json_field "last_access" (print_lld (last_accessed_at s)) ++ [44] ++
  json_field "expires" (print_lld (expires_at s)) ++ [44] ++ json_field "generation" (print_lld (rotation_generation s)) ++ [125].
(** The length of the whole text, and the text that fits. *)
Definition sm_serialize_session (s : SessionEntry) (json_size : nat) : option (Z * list Z) :=
  if (json_size =? 0)%nat then None else Some (Z.of_nat (length (session_text s)), truncated json_size (session_text s)).
(** What is printed. *)
Definition sm_dump_session (s : SessionEntry) : list Z := truncated (Z.to_nat 2048) (session_text s) ++ [10].

(** ** Cleanup *)

Lemma remove_at_spec i sm s : sessions sm !! i = Some s -> sessions (remove_at i sm) = swap_remove i (sessions sm).
Proof.
  intros Hi. unfold remove_at. destruct (last (sessions sm)) eqn:Hl; [done|]. apply last_None in Hl. by rewrite Hl in Hi.
Qed.
Lemma swap_remove_take {A} i x (l : list A) : l !! i = Some x -> take i (swap_remove i l) = take i l.
Proof.
  intros Hi. apply lookup_lt_Some in Hi as Hlt. unfold swap_remove. destruct (last l); [|done]. rewrite take_take, Nat.min_l by lia. by rewrite take_insert_ge.
Qed.
Lemma filter_negb_Permutation {A} (p : A -> bool) l l' : l ≡ₚ l' -> List.filter (fun x => negb (p x)) l ≡ₚ List.filter (fun x => negb (p x)) l'.
Proof. apply filter_bool_Permutation. Qed.
Lemma sm_cleanup_loop_spec fuel now i sm : (length (sessions sm) < i + fuel)%nat -> (i <= length (sessions sm))%nat -> Forall (fun s => should_remove now s = false) (take i (sessions sm)) ->
  exists sm', cleanup_loop fuel now i sm = Some sm' /\ sessions sm' ≡ₚ List.filter (fun s => negb (should_remove now s)) (sessions sm).
Proof.
  revert i sm. induction fuel as [|fuel IH]; intros i sm Hf Hle Hkept; [lia|]. cbn [cleanup_loop]. destruct (sessions sm !! i) as [s|] eqn:Hi.
  - apply lookup_lt_Some in Hi as Hlt. pose proof (swap_remove_Permutation _ _ _ Hi) as Hperm. pose proof (swap_remove_length _ _ _ Hi) as Hlen.
    destruct (should_remove now s) eqn:Hs.
    + destruct (IH i (remove_at i sm)) as (sm' & Hrun & Hp); [rewrite (remove_at_spec _ _ _ Hi); lia..|by rewrite (remove_at_spec _ _ _ Hi), (swap_remove_take _ _ _ Hi)|].
      exists sm'. split; [exact Hrun|]. rewrite Hp, (remove_at_spec _ _ _ Hi). rewrite (filter_negb_Permutation (should_remove now) _ _ Hperm). cbn. by rewrite Hs.
    + apply IH; [lia|lia|]. rewrite (take_S_r _ _ _ Hi). apply Forall_app. split; [done|by constructor].
  - exists sm. split; [done|]. apply lookup_ge_None_1 in Hi. rewrite take_ge in Hkept by lia. rewrite forallb_filter_id; [done|].
    apply forallb_forall. intros s Hs%list_elem_of_In. rewrite Forall_forall in Hkept. by rewrite Hkept.
Qed.
(** Cleaning up ends and keeps exactly the sessions that are not over, expired or idle
    for twice their time. *)
Theorem sm_cleanup_correct sm now : exists sm', sm_cleanup_expired sm now = Some sm' /\
  sessions sm' ≡ₚ List.filter (fun s => negb (should_remove now s)) (sessions sm).
Proof. apply sm_cleanup_loop_spec; [lia|lia|done]. Qed.

(** ** A session that is over *)

(** No session of the table with this identifier is alive. *)
Definition dead (sid : list Z) (sm : SessionManager) : Prop := forall s, s ∈ sessions sm -> session_id s = sid -> is_over s = true.
Lemma dead_all sid sm : forallb is_over (sessions sm) = true -> dead sid sm.
Proof. intros H s Hs _. rewrite forallb_forall in H. by apply H, list_elem_of_In. Qed.
Lemma find_session_Some sm sid i : sm_find_session sm sid = Some i -> exists s, sessions sm !! i = Some s /\ session_id s = sid.
Proof. intros (s & Hs & Hid%bool_decide_eq_true & _)%find_idx_Some. by exists s. Qed.
Lemma with_session_inv {A} sm sid (missing : A) f (P : A -> Prop) : P missing -> (forall i s, sessions sm !! i = Some s -> session_id s = sid -> P (f i s)) ->
  P (with_session sm sid missing f).
Proof.
  intros Hm Hf. unfold with_session. destruct (sm_find_session sm sid) as [i|] eqn:Hi; [|done]. apply find_session_Some in Hi as (s & Hs & Hid). rewrite Hs. by apply Hf.
Qed.
Lemma dead_put sid sm i s s' : dead sid sm -> sessions sm !! i = Some s -> session_id s' = session_id s -> (is_over s = true -> is_over s' = true) -> dead sid (put_session sm i s').
Proof.
  intros Hd Hi Hid Hover x Hx Hxid. cbn in Hx. apply list_elem_of_lookup in Hx as [j Hj]. apply list_lookup_insert_Some in Hj as [(-> & -> & _)|(_ & Hj)].
  - apply Hover, Hd; [by eapply list_elem_of_lookup_2|congruence].
  - apply Hd; [by eapply list_elem_of_lookup_2|done].
Qed.
Lemma awake_id s : session_id (awake s) = session_id s.
Proof. unfold awake. case_bool_decide; done. Qed.
Lemma cleanup_dead fuel now i sm sm' sid : cleanup_loop fuel now i sm = Some sm' -> dead sid sm -> dead sid sm'.
Proof.
  revert i sm. induction fuel as [|fuel IH]; intros i sm; cbn [cleanup_loop]; [done|]. destruct (sessions sm !! i) as [s|] eqn:Hi; [|by intros [= <-]].
  destruct (should_remove now s); [|apply IH]. intros Hrun Hd. apply (IH _ _ Hrun). intros x Hx. apply Hd. rewrite (remove_at_spec _ _ _ Hi) in Hx.
  rewrite (swap_remove_Permutation _ _ _ Hi). by right.
Qed.

Inductive sm_op :=
  | Create (user : list Z) (ip agent : option (list Z)) | Validate (sid : list Z) (ip agent : option (list Z)) | Extend (sid : list Z) (secs : Z)
  | Terminate (sid : list Z) | Regenerate (sid : list Z) | SetAttribute (sid k v : list Z) | Authenticate (sid : list Z) (level : Z)
  | InvalidateAll (user : list Z) | Cleanup.
Definition sm_step (op : sm_op) (now : Z) (st : SessionManager * sm_xorshift_state) : SessionManager * sm_xorshift_state :=
  let '(sm, g) := st in
  match op with
  | Create user ip agent => let r := sm_create_session sm user ip agent SM_MAX_SESSION_ID_LEN now g in (r.1.2, r.2)
  | Validate sid ip agent => ((sm_validate_session sm sid ip agent SM_MAX_USERNAME_LEN now).2, g)
  | Extend sid secs => ((sm_extend_session sm sid secs now).2, g)
  | Terminate sid => ((sm_terminate_session sm sid).2, g)
  | Regenerate sid => let r := sm_regenerate_session sm sid SM_MAX_SESSION_ID_LEN now g in (r.1.2, r.2)
  | SetAttribute sid k v => ((sm_set_session_attribute sm sid k v).2, g)
  | Authenticate sid level => ((sm_set_authenticated sm sid level).2, g)
  | InvalidateAll user => ((sm_invalidate_all_for_user sm user).2, g)
  | Cleanup => (default sm (sm_cleanup_expired sm now), g)
  end.
(** A history of operations and their times. *)
Fixpoint sm_run (ops : list (sm_op * Z)) (st : SessionManager * sm_xorshift_state) : SessionManager * sm_xorshift_state :=
  match ops with [] => st | (op, now) :: ops' => sm_run ops' (sm_step op now st) end.
(** The generator does not give [sid] again. *)
Fixpoint not_reused (sid : list Z) (ops : list (sm_op * Z)) (st : SessionManager * sm_xorshift_state) : Prop :=
  match ops with
  | [] => True
  | (op, now) :: ops' => (sm_generate_session_id SM_MAX_SESSION_ID_LEN now st.2).1 <> sid /\ not_reused sid ops' (sm_step op now st)
  end.

Lemma dead_add sid sm s rest n : dead sid sm -> session_id s <> sid -> dead sid (sm <| sessions ::= fun l => l ++ [s] |> <| spare := rest |> <| total_created := n |>).
Proof. intros Hd Hs x Hx Hxid. cbn in Hx. apply elem_of_app in Hx as [Hx| ->%list_elem_of_singleton]; [by apply Hd|done]. Qed.
Lemma step_dead sid op now st : dead sid st.1 -> (sm_generate_session_id SM_MAX_SESSION_ID_LEN now st.2).1 <> sid -> dead sid (sm_step op now st).1.
Proof.
  destruct st as [sm g]. cbn [fst snd]. intros Hd Hg.
  assert (Hsame : forall i s s', sessions sm !! i = Some s -> session_id s' = session_id s -> state s' = state s -> dead sid (put_session sm i s')).
  { intros i s s' Hi Hid Hst. apply (dead_put _ _ _ s); [done..|]. unfold is_over. by rewrite Hst. }
  assert (Halive : forall i s s', sessions sm !! i = Some s -> session_id s' = session_id s -> is_over s = false -> dead sid (put_session sm i s')).
  { intros i s s' Hi Hid Hst. apply (dead_put _ _ _ s); [done..|]. congruence. }
  destruct op; cbn [sm_step fst].
  - unfold sm_create_session. cbn [Nat.eqb SM_MAX_SESSION_ID_LEN]. destruct (spare sm) as [|slot rest]; [done|]. cbn [fst snd]. by apply dead_add.
  - unfold sm_validate_session. apply (with_session_inv _ _ _ _ (fun r => dead sid r.2)); [done|]. intros i s Hi Hid.
    destruct (is_over s) eqn:Ho; [done|]. destruct (expires_at s <? now); [by eapply Halive|]. destruct (_ <? now - _); [by eapply Halive|].
    destruct (bound_elsewhere _ ip _); [done|]. destruct (bound_elsewhere _ agent _); [done|]. cbn [snd]. eapply Halive; [done|exact (awake_id _)|done].
  - unfold sm_extend_session. apply (with_session_inv _ _ _ _ (fun r => dead sid r.2)); [done|]. intros i s Hi Hid.
    destruct (is_over s) eqn:Ho; [done|]. cbn [snd]. eapply Halive; [done|exact (awake_id _)|done].
  - unfold sm_terminate_session. apply (with_session_inv _ _ _ _ (fun r => dead sid r.2)); [done|]. intros i s Hi Hid. by apply (dead_put _ _ _ s).
  - unfold sm_regenerate_session. cbn [Nat.eqb SM_MAX_SESSION_ID_LEN]. apply (with_session_inv _ _ _ _ (fun r => dead sid r.1.2)); [done|]. intros i s Hi Hid.
    destruct (spare sm) as [|slot rest]; [done|]. cbn [fst snd]. intros x Hx Hxid. cbn in Hx. apply elem_of_app in Hx as [Hx| ->%list_elem_of_singleton]; [|done].
    assert (Hput : dead sid (put_session sm i (s <| state := SESSION_INVALIDATED |>))) by (by apply (dead_put _ _ _ s)). by apply Hput.
  - unfold sm_set_session_attribute. apply (with_session_inv _ _ _ _ (fun r => dead sid r.2)); [done|]. intros i s Hi Hid.
    destruct (attr_idx s k); [by eapply Hsame|]. destruct (_ <=? _)%nat; [done|]. by eapply Hsame.
  - unfold sm_set_authenticated. apply (with_session_inv _ _ _ _ (fun r => dead sid r.2)); [done|]. intros i s Hi Hid. by eapply Hsame.
  - intros x Hx Hxid. cbn in Hx. apply list_elem_of_fmap in Hx as (s & -> & Hs). destruct (of_user user s); [done|]. by apply Hd.
  - unfold sm_cleanup_expired. destruct (cleanup_loop _ now 0 sm) as [sm'|] eqn:Hc; [|done]. by eapply cleanup_dead.
Qed.
(** C24: Once every session of an identifier is terminated or invalidated it is never
    accepted again, whatever is called, as long as the generator does not give the same
    identifier again. *)
Theorem sm_over_stays_over sid ops st ip agent u_size now : dead sid st.1 -> not_reused sid ops st ->
  let r := sm_validate_session (sm_run ops st).1 sid ip agent u_size now in (r.1.1 = -2 \/ r.1.1 = -3) /\ r.1.2 = None.
Proof.
  intros Hd Hn. assert (H : dead sid (sm_run ops st).1).
  { revert st Hd Hn. induction ops as [|[op t] ops IH]; intros st Hd Hn; [done|]. destruct Hn as [Hg Hn]. apply IH; [|done]. by apply step_dead. }
  cbv zeta. unfold sm_validate_session. apply (with_session_inv _ _ _ _ (fun r => (r.1.1 = -2 \/ r.1.1 = -3) /\ r.1.2 = None)); [auto|].
  intros i s Hi Hid. rewrite (H s) by (done || by eapply list_elem_of_lookup_2). auto.
Qed.
(** One session of "ann", terminated; then two more operations. *)
Definition one_session : option (list Z) * SessionManager * sm_xorshift_state := sm_create_session sm_init (str_bytes "ann") None None 128 1000 initial_state.
Definition first_id : list Z := default [] one_session.1.1.
Definition terminated : SessionManager * sm_xorshift_state := ((sm_terminate_session one_session.1.2 first_id).2, one_session.2).
Lemma sm_over_stays_over_witness : (sm_validate_session (sm_run [(Extend first_id 60, 1001); (Authenticate first_id 10, 1002)] terminated).1 first_id None None 128 1003).1.2 = None.
Proof.
  refine (proj2 (sm_over_stays_over first_id [(Extend first_id 60, 1001); (Authenticate first_id 10, 1002)] terminated None None 128%nat 1003 _ _)).
  - apply dead_all. vm_compute. reflexivity.
  - split; [|split; [|exact I]]; apply (bool_decide_unpack _); vm_compute; exact I.
Defined.

(** ** Validation *)

(** Which checks a session passes, in this order; accepting it moves its last access to
    the present and wakes it up. *)
Theorem sm_validate_correct sm sid ip agent u_size now i s : sm_find_session sm sid = Some i -> sessions sm !! i = Some s ->
  let r := sm_validate_session sm sid ip agent u_size now in
  (r.1.1 = 0 <-> is_over s = false /\ now <= expires_at s /\ now - last_accessed_at s <= idle_timeout_seconds s /\
    (forall a, enforce_ip_binding sm = true -> ip = Some a -> client_ip s = [] \/ client_ip s = a) /\
    (forall a, enforce_user_agent_binding sm = true -> agent = Some a -> user_agent s = [] \/ user_agent s = a)) /\
  (r.1.1 = 0 -> r.1.2 = Some (truncated u_size (username s)) /\ exists s', sessions r.2 !! i = Some s' /\ last_accessed_at s' = now /\ state s' <> SESSION_IDLE).
Proof.
  intros Hf Hi. assert (Hb : forall en given bound, bound_elsewhere en given bound = false <-> (forall a, en = true -> given = Some a -> bound = [] \/ bound = a)).
  { intros en given bound. unfold bound_elsewhere. destruct given as [g|]; [|naive_solver]. destruct bound as [|b bound]; [naive_solver|].
    destruct en; cbn; [|naive_solver]. rewrite negb_false_iff, bool_decide_eq_true. naive_solver. }
  cbv zeta. unfold sm_validate_session, with_session. rewrite Hf, Hi, <- !Hb. destruct (is_over s) eqn:Ho; [split; naive_solver|].
  destruct (Z.ltb_spec (expires_at s) now); [cbn; split; [split; [done|lia]|done]|]. destruct (Z.ltb_spec (idle_timeout_seconds s) (now - last_accessed_at s)); [cbn; split; [split; [done|lia]|done]|].
  destruct (bound_elsewhere (enforce_ip_binding sm) ip (client_ip s)) eqn:Hip; [cbn; split; naive_solver|].
  destruct (bound_elsewhere (enforce_user_agent_binding sm) agent (user_agent s)) eqn:Hag; [cbn; split; naive_solver|]. cbn [fst snd].
  split; [done|]. intros _. split; [done|]. eexists. split; [cbn; apply list_lookup_insert_eq; by eapply lookup_lt_Some|]. unfold awake. case_bool_decide; done.
Qed.
Lemma sm_validate_correct_witness : exists s, sessions one_session.1.2 !! 0%nat = Some s /\ (sm_validate_session one_session.1.2 first_id None None 128 2000).1.1 = 0.
Proof.
  eexists. split; [vm_compute; reflexivity|]. refine (proj2 (proj1 (sm_validate_correct one_session.1.2 first_id None None 128%nat 2000 0%nat _ _ _)) _); [vm_compute; reflexivity..|].
  split; [reflexivity|]. split; [vm_compute; congruence|]. split; [vm_compute; congruence|]. split; intros a; vm_compute; congruence.
Defined.

(** ** Behaviours found *)

(** A session found expired can be extended, and is accepted again. *)
Example expired_session_revived : let sm := one_session.1.2 in let sm1 := (sm_validate_session sm first_id None None 128 50000).2 in
  (sm_validate_session sm first_id None None 128 50000).1.1 = -4 /\ (sm_validate_session (sm_extend_session sm1 first_id 30000 50001).2 first_id None None 128 50002).1.1 = 0.
Proof. vm_compute. done. Qed.
(** Invalidating a user's sessions leaves one that was found idle, which can be extended
    and is accepted again. *)
Example idle_session_survives : let sm1 := (sm_validate_session one_session.1.2 first_id None None 128 5000).2 in
  let r := sm_invalidate_all_for_user sm1 (str_bytes "ann") in r.1 = 0 /\
  (sm_validate_session (sm_extend_session r.2 first_id 0 5001).2 first_id None None 128 5002).1.1 = 0.
Proof. vm_compute. done. Qed.
(** Authentication does not change the identifier, whatever the policy. *)
Example fixation : let sm := (sm_set_authenticated one_session.1.2 first_id 10).2 in
  fixation_policy sm = SESSION_FIXATION_PREVENT /\ (sm_validate_session sm first_id None None 128 1001).1.1 = 0.
Proof. vm_compute. done. Qed.
(** A session created without an address in a slot used before is bound to the address of
    the session that was there. *)
Example stale_address : let st := sm_run [(Create (str_bytes "eve") (Some (str_bytes "6.6.6.6")) None, 1); (Cleanup, 100000); (Create (str_bytes "ann") None None, 100001)] (sm_init, initial_state) in
  client_ip <$> sessions st.1 = [str_bytes "6.6.6.6"].
Proof. vm_compute. reflexivity. Qed.
