(* ===== verification/AuditLog.v ===== *)
(** Model of [mini-auth-security/src/audit_log.c]: the log with its chain of hashes, its
    verification, queries and export; and the theorems on it.

    [records] are the first [count] records.  Texts are the bytes before their zero, and
    [None] is a NULL text; as records are only added, a field that is not given is empty.
    The checksum over the raw bytes of a record is not modelled: it depends on the
    layout of the structure, and nothing reads it. *)

From S2P Require Import Prelude Bytes Calendar.

Definition AUDIT_MAX_EVENTS : nat := Z.to_nat 4096.
#[global] Arguments AUDIT_MAX_EVENTS : simpl never.
Definition AUDIT_MAX_MESSAGE_LEN : nat := 512.
Definition AUDIT_MAX_SUBJECT_LEN : nat := 128.
Definition AUDIT_MAX_OBJECT_LEN : nat := 256.
Definition AUDIT_MAX_SOURCE_IP_LEN : nat := 64.
Definition AUDIT_MAX_HASH_LEN : nat := 64.
Definition AUDIT_MAX_RECORD_BUF_LEN : nat := Z.to_nat 2048.
#[global] Arguments AUDIT_MAX_RECORD_BUF_LEN : simpl never.

Inductive AuditSeverity := AUDIT_SEVERITY_DEBUG | AUDIT_SEVERITY_INFO | AUDIT_SEVERITY_WARNING | AUDIT_SEVERITY_ERROR | AUDIT_SEVERITY_CRITICAL.
Inductive AuditEventType :=
  | AUDIT_EVENT_LOGIN_SUCCESS | AUDIT_EVENT_LOGIN_FAILURE | AUDIT_EVENT_LOGOUT | AUDIT_EVENT_ACCESS_GRANTED | AUDIT_EVENT_ACCESS_DENIED
  | AUDIT_EVENT_PERMISSION_CHANGE | AUDIT_EVENT_ROLE_ASSIGNMENT | AUDIT_EVENT_TOKEN_CREATED | AUDIT_EVENT_TOKEN_REVOKED
  | AUDIT_EVENT_SESSION_CREATED | AUDIT_EVENT_SESSION_EXPIRED | AUDIT_EVENT_CONFIG_CHANGE | AUDIT_EVENT_RATE_LIMIT_HIT
  | AUDIT_EVENT_CSRF_VALIDATION | AUDIT_EVENT_XSS_DETECTED | AUDIT_EVENT_CUSTOM.
#[export] Instance event_type_eq_dec : EqDecision AuditEventType.
Proof. solve_decision. Defined.
Record AuditRecord := mk_record {
  event_id : Z; event_type : AuditEventType; severity : AuditSeverity; subject : list Z; object : list Z; action : list Z; message : list Z;
  source_ip : list Z; prev_hash_hex : list Z; curr_hash_hex : list Z; timestamp : Z; outcome : Z;
}.
Record AuditLog := mk_log { records : list AuditRecord; total_events : Z; next_event_id : Z; genesis_hash : list Z; tampered : Z; integrity_enabled : bool }.
Record AuditEventStats := mk_stats { s_event_type : AuditEventType; s_count : Z; first_seen : Z; last_seen : Z }.

(** The values of the enumerations. *)
Definition severity_code (s : AuditSeverity) : Z :=
  match s with AUDIT_SEVERITY_DEBUG => 0 | AUDIT_SEVERITY_INFO => 1 | AUDIT_SEVERITY_WARNING => 2 | AUDIT_SEVERITY_ERROR => 3 | AUDIT_SEVERITY_CRITICAL => 4 end.
Definition event_code (e : AuditEventType) : Z :=
  match e with
  | AUDIT_EVENT_LOGIN_SUCCESS => 0 | AUDIT_EVENT_LOGIN_FAILURE => 1 | AUDIT_EVENT_LOGOUT => 2 | AUDIT_EVENT_ACCESS_GRANTED => 3
  | AUDIT_EVENT_ACCESS_DENIED => 4 | AUDIT_EVENT_PERMISSION_CHANGE => 5 | AUDIT_EVENT_ROLE_ASSIGNMENT => 6 | AUDIT_EVENT_TOKEN_CREATED => 7
  | AUDIT_EVENT_TOKEN_REVOKED => 8 | AUDIT_EVENT_SESSION_CREATED => 9 | AUDIT_EVENT_SESSION_EXPIRED => 10 | AUDIT_EVENT_CONFIG_CHANGE => 11
  | AUDIT_EVENT_RATE_LIMIT_HIT => 12 | AUDIT_EVENT_CSRF_VALIDATION => 13 | AUDIT_EVENT_XSS_DETECTED => 14 | AUDIT_EVENT_CUSTOM => 15
  end.
Definition audit_severity_name (s : AuditSeverity) : list Z :=
  str_bytes match s with
            | AUDIT_SEVERITY_DEBUG => "DEBUG" | AUDIT_SEVERITY_INFO => "INFO" | AUDIT_SEVERITY_WARNING => "WARNING" | AUDIT_SEVERITY_ERROR => "ERROR"
            | AUDIT_SEVERITY_CRITICAL => "CRITICAL"
            end.
Definition audit_event_name (e : AuditEventType) : list Z :=
  str_bytes match e with
            | AUDIT_EVENT_LOGIN_SUCCESS => "LOGIN_SUCCESS" | AUDIT_EVENT_LOGIN_FAILURE => "LOGIN_FAILURE" | AUDIT_EVENT_LOGOUT => "LOGOUT"
            | AUDIT_EVENT_ACCESS_GRANTED => "ACCESS_GRANTED" | AUDIT_EVENT_ACCESS_DENIED => "ACCESS_DENIED"
            | AUDIT_EVENT_PERMISSION_CHANGE => "PERMISSION_CHANGE" | AUDIT_EVENT_ROLE_ASSIGNMENT => "ROLE_ASSIGNMENT"
            | AUDIT_EVENT_TOKEN_CREATED => "TOKEN_CREATED" | AUDIT_EVENT_TOKEN_REVOKED => "TOKEN_REVOKED"
            | AUDIT_EVENT_SESSION_CREATED => "SESSION_CREATED" | AUDIT_EVENT_SESSION_EXPIRED => "SESSION_EXPIRED"
            | AUDIT_EVENT_CONFIG_CHANGE => "CONFIG_CHANGE" | AUDIT_EVENT_RATE_LIMIT_HIT => "RATE_LIMIT_HIT"
            | AUDIT_EVENT_CSRF_VALIDATION => "CSRF_VALIDATION" | AUDIT_EVENT_XSS_DETECTED => "XSS_DETECTED" | AUDIT_EVENT_CUSTOM => "CUSTOM"
            end.

(** ** The chain *)

Definition audit_fnv1a_64 (data : list Z) : Z := foldl (fun h b => u64 (Z.lxor h b * 1099511628211)) 14695981039346656037 data.
(** The text of a record, before it is cut to the buffer of 2048 bytes. *)
Definition record_text (r : AuditRecord) : list Z :=
  digits 20 (event_id r) ++ [124] ++ print_lld (event_code (event_type r)) ++ [124] ++ print_lld (severity_code (severity r)) ++ [124] ++
  subject r ++ [124] ++ object r ++ [124] ++ action r ++ [124] ++ message r ++ [124] ++ source_ip r ++ [124] ++ print_lld (timestamp r) ++ [124] ++ print_lld (outcome r).
(** The text of a record fits the buffer ([record_text_fits]), so [len] is its length. *)
Definition audit_compute_record_hash (r : AuditRecord) : list Z := print_hex 16 (audit_fnv1a_64 (record_text r)).
Definition audit_log_init (enable_integrity : bool) : AuditLog := mk_log [] 0 1 (str_bytes "0000000000000000") 0 enable_integrity.
Definition field (size : nat) (s : option (list Z)) : list Z := from_option (truncated size) [] s.
Definition last_hash (log : AuditLog) : list Z :=
  truncated AUDIT_MAX_HASH_LEN match last (records log) with Some r => curr_hash_hex r | None => genesis_hash log end.
Definition audit_log_event (log : AuditLog) (ty : AuditEventType) (sev : AuditSeverity) (subj obj act ip : option (list Z)) (outcome_ : Z) (msg : option (list Z))
    (now : Z) : Z * AuditLog :=
  if (AUDIT_MAX_EVENTS <=? length (records log))%nat then (-1, log)
  else
    let r := mk_record (next_event_id log) ty sev (field AUDIT_MAX_SUBJECT_LEN subj) (field AUDIT_MAX_OBJECT_LEN obj) (field 128 act) (field AUDIT_MAX_MESSAGE_LEN msg)
               (field AUDIT_MAX_SOURCE_IP_LEN ip) [] [] now outcome_ in
    let r := if integrity_enabled log then r <| prev_hash_hex := last_hash log |> <| curr_hash_hex := audit_compute_record_hash r |> else r in
    (0, log <| records ::= fun l => l ++ [r] |> <| total_events ::= fun n => u64 (n + 1) |> <| next_event_id ::= fun n => u64 (n + 1) |>).
Fixpoint verify_from (expected_prev : list Z) (l : list AuditRecord) : Z :=
  match l with
  | [] => 0
  | r :: l' =>
      if negb (bool_decide (curr_hash_hex r = audit_compute_record_hash r)) then -1
      else if negb (bool_decide (prev_hash_hex r = expected_prev)) then -2
      else verify_from (truncated AUDIT_MAX_HASH_LEN (curr_hash_hex r)) l'
  end.
Definition audit_verify_integrity (log : AuditLog) : Z * AuditLog :=
  if integrity_enabled log then
    let rc := verify_from (truncated AUDIT_MAX_HASH_LEN (genesis_hash log)) (records log) in (rc, log <| tampered := if rc =? 0 then 0 else 1 |>)
  else (0, log).

(** ** Queries and export *)

Definition query (p : AuditRecord -> bool) (log : AuditLog) (max_results : nat) : Z * list AuditRecord :=
  if (max_results =? 0)%nat then (-1, []) else (0, take max_results (List.filter p (records log))).
Definition audit_query_by_subject (log : AuditLog) (subj : list Z) : nat -> Z * list AuditRecord := query (fun r => bool_decide (subject r = subj)) log.
Definition audit_query_by_type (log : AuditLog) (ty : AuditEventType) : nat -> Z * list AuditRecord := query (fun r => bool_decide (event_type r = ty)) log.
Definition audit_query_by_timerange (log : AuditLog) (start end_ : Z) (max_results : nat) : Z * list AuditRecord :=
  if end_ <? start then (-1, []) else query (fun r => (start <=? timestamp r) && (timestamp r <=? end_)) log max_results.
Definition count_event (st : AuditEventStats) (r : AuditRecord) : AuditEventStats :=
  if bool_decide (event_type r = s_event_type st) then
    (if s_count st =? 0 then st <| first_seen := timestamp r |> else st) <| s_count ::= Z.succ |> <| last_seen := timestamp r |>
  else st.
Definition audit_get_stats (log : AuditLog) (ty : AuditEventType) : AuditEventStats := foldl count_event (mk_stats ty 0 0 0) (records log).

(** [strftime] with %Y-%m-%dT%H:%M:%SZ of [gmtime]. *)
Definition iso_time (t : Z) : list Z :=
  let x := localtime 0 t in
  let two n := zero_pad 2 (print_lld n) in
  print_lld (tm_year x + 1900) ++ [45] ++ two (tm_mon x + 1) ++ [45] ++ two (tm_mday x) ++ [84] ++ two (tm_hour x) ++ [58] ++ two (tm_min x) ++ [58] ++ two (tm_sec x) ++ [90].
Definition json_text (name : string) (v : list Z) : list Z := [34] ++ str_bytes name ++ [34; 58; 34] ++ v ++ [34].
Definition json_number (name : string) (v : list Z) : list Z := [34] ++ str_bytes name ++ [34; 58] ++ v.
Definition record_json (first : bool) (r : AuditRecord) : list Z :=
  (if first then [] else [44]) ++ [123] ++ json_number "event_id" (digits 20 (event_id r)) ++ [44] ++ json_text "type" (audit_event_name (event_type r)) ++ [44] ++
  json_text "severity" (audit_severity_name (severity r)) ++ [44] ++ json_text "subject" (subject r) ++ [44] ++ json_text "object" (object r) ++ [44] ++
  json_text "action" (action r) ++ [44] ++ json_number "outcome" (print_lld (outcome r)) ++ [44] ++ json_text "timestamp" (iso_time (timestamp r)) ++ [44] ++
  json_text "message" (message r) ++ [125].
(** [text]: what was printed so far, cut or not; the loop stops when it no longer fits. *)
Fixpoint export_loop (json_size : nat) (first : bool) (l : list AuditRecord) (text : list Z) : list Z :=
  match l with
  | [] => text
  | r :: l' => if (length text <? json_size)%nat then export_loop json_size false l' (text ++ record_json first r) else text
  end.
(** The offset returned, and the text in the buffer. *)
Definition audit_export_json (l : list AuditRecord) (json_size : nat) : option (Z * list Z) :=
  if (json_size =? 0)%nat then None
  else
    let text := export_loop json_size true l [91] in
    let text := if (length text + 2 <? json_size)%nat then text ++ [93] else text in
    Some (Z.of_nat (length text), truncated json_size text).

(** ** The log verifies, and what that means *)

Lemma verify_from_app p l1 l2 : verify_from p (l1 ++ l2) =
  if verify_from p l1 =? 0 then verify_from (from_option (fun r => truncated AUDIT_MAX_HASH_LEN (curr_hash_hex r)) p (last l1)) l2 else verify_from p l1.
Proof.
  revert p. induction l1 as [|r l1 IH]; intros p; [done|]. cbn [app verify_from]. destruct (negb (bool_decide _)); [done|]. destruct (negb (bool_decide _)); [done|].
  rewrite IH. destruct l1 as [|x l1]; [done|]. rewrite last_cons_cons. destruct (last (x :: l1)) eqn:Hl; [done|]. by apply last_None in Hl.
Qed.
Lemma record_text_hash r p c : audit_compute_record_hash (r <| prev_hash_hex := p |> <| curr_hash_hex := c |>) = audit_compute_record_hash r.
Proof. done. Qed.

Inductive event := mk_event (ty : AuditEventType) (sev : AuditSeverity) (subj obj act ip : option (list Z)) (outcome_ : Z) (msg : option (list Z)) (now : Z).
Definition log_event (log : AuditLog) (e : event) : AuditLog :=
  let '(mk_event ty sev subj obj act ip o msg now) := e in (audit_log_event log ty sev subj obj act ip o msg now).2.
(** A log to which only events were added verifies. *)
Theorem audit_log_verifies events : (audit_verify_integrity (foldl log_event (audit_log_init true) events)).1 = 0.
Proof.
  assert (H : let log := foldl log_event (audit_log_init true) events in integrity_enabled log = true /\ genesis_hash log = str_bytes "0000000000000000" /\
    verify_from (truncated AUDIT_MAX_HASH_LEN (genesis_hash log)) (records log) = 0).
  { induction events as [|e events IH] using rev_ind; [done|]. rewrite foldl_app. cbn [foldl]. cbv zeta in *. set (log := foldl log_event _ events) in *. clearbody log.
    destruct IH as (Hi & Hg & Hv). destruct e as [ty sev subj obj act ip o msg now]. unfold log_event, audit_log_event. rewrite Hi. destruct (_ <=? _)%nat; [done|]. cbn [snd].
    split; [exact Hi|]. split; [exact Hg|].
    refine (eq_trans (verify_from_app (truncated AUDIT_MAX_HASH_LEN (genesis_hash log)) (records log) [_]) _). rewrite Hv. cbn [Z.eqb verify_from curr_hash_hex prev_hash_hex].
    rewrite bool_decide_eq_true_2 by done. rewrite bool_decide_eq_true_2; [done|]. unfold last_hash. by destruct (last (records log)). }
  cbv zeta in H. destruct H as (Hi & _ & Hv). unfold audit_verify_integrity. by rewrite Hi, Hv.
Qed.

(** Rewriting record [k] as [r]: its hash is computed anew, and the link of the next
    record is adjusted. *)
Definition relink (h : list Z) (l : list AuditRecord) : list AuditRecord := match l with [] => [] | n :: l' => n <| prev_hash_hex := h |> :: l' end.
Definition forge (k : nat) (r : AuditRecord) (l : list AuditRecord) : list AuditRecord :=
  match l !! k with
  | Some old => let h := audit_compute_record_hash r in take k l ++ (r <| prev_hash_hex := prev_hash_hex old |> <| curr_hash_hex := h |>) :: relink h (drop (S k) l)
  | None => l
  end.
Lemma truncated_hash r : truncated AUDIT_MAX_HASH_LEN (audit_compute_record_hash r) = audit_compute_record_hash r.
Proof.
  apply truncated_id. unfold audit_compute_record_hash. rewrite print_hex_length; [unfold AUDIT_MAX_HASH_LEN; lia| |lia].
  unfold audit_fnv1a_64. destruct (record_text r) as [|b l _] using rev_ind; [done|]. rewrite foldl_app. cbn [foldl]. change (16 ^ Z.of_nat 16) with (2 ^ 64). apply u64_range.
Qed.
(** The hash of a record does not cover the link to the one before: any record of a log
    that verifies can be replaced by any other, adjusting one link, and the log still
    verifies.  A record whose hash is left as it was is found, as far as its hash differs. *)
Theorem audit_forgery_verifies log k r old : integrity_enabled log = true -> (audit_verify_integrity log).1 = 0 -> records log !! k = Some old ->
  (audit_verify_integrity (log <| records ::= forge k r |>)).1 = 0 /\
  (audit_compute_record_hash r <> curr_hash_hex old ->
    (audit_verify_integrity (log <| records ::= <[k := r <| prev_hash_hex := prev_hash_hex old |> <| curr_hash_hex := curr_hash_hex old |>]> |>)).1 = -1).
Proof.
  intros Hi Hv Hk. unfold audit_verify_integrity in *. cbn [integrity_enabled set records genesis_hash]. rewrite Hi in *. cbn [fst] in *.
  set (p := truncated AUDIT_MAX_HASH_LEN (genesis_hash log)) in *. clearbody p. destruct log as [l te ne g t i]. cbn in *. unfold forge. rewrite Hk.
  apply list_elem_of_split_length in Hk as (l1 & l2 & -> & ->). rewrite take_app_length. rewrite drop_app_ge, Nat.sub_succ_l, Nat.sub_diag by lia. cbn [drop].
  rewrite verify_from_app in Hv. destruct (Z.eqb_spec (verify_from p l1) 0) as [Hl1|]; [|done]. rewrite insert_app_r_alt, Nat.sub_diag by lia. cbn [list_insert insert].
  rewrite !verify_from_app, Hl1. cbn [Z.eqb]. set (q := from_option _ p (last l1)) in *. clearbody q. cbn [verify_from] in *.
  case_bool_decide as Hc; [|done]. case_bool_decide as Hp; [|done]. cbn [negb] in Hv. split.
  - rewrite bool_decide_eq_true_2 by (rewrite record_text_hash; reflexivity). rewrite bool_decide_eq_true_2 by exact Hp. cbn [negb].
    destruct l2 as [|n l2]; [done|]. cbn [drop relink verify_from] in *. revert Hv. case_bool_decide as Hn; [|done]. case_bool_decide; [|done]. cbn [negb]. intros Hv.
    rewrite bool_decide_eq_true_2 by exact Hn. rewrite bool_decide_eq_true_2 by (symmetry; apply truncated_hash). exact Hv.
  - intros Hne. cbn [list_insert verify_from]. rewrite bool_decide_eq_false_2; [done|]. rewrite record_text_hash. intros E. apply Hne. symmetry. exact E.
Qed.

(** The example log: two events; and a record that was never logged. *)
Definition txt (s : string) : option (list Z) := Some (str_bytes s).
Definition two_events : list event :=
  [mk_event AUDIT_EVENT_LOGIN_FAILURE AUDIT_SEVERITY_WARNING (txt "mallory") (txt "portal") (txt "login") (txt "10.0.0.9") 0 (txt "bad password") 1700000000;
   mk_event AUDIT_EVENT_ACCESS_GRANTED AUDIT_SEVERITY_INFO (txt "alice") (txt "ledger") (txt "read") (txt "10.0.0.1") 1 None 1700000060].
Definition two_log : AuditLog := foldl log_event (audit_log_init true) two_events.
Definition forged_record : AuditRecord :=
  mk_record 1 AUDIT_EVENT_LOGIN_SUCCESS AUDIT_SEVERITY_INFO (str_bytes "bob") (str_bytes "portal") (str_bytes "login") [] (str_bytes "10.0.0.9") [] [] 1700000000 1.
Lemma audit_forgery_verifies_witness :
  (audit_verify_integrity (two_log <| records ::= forge 0 forged_record |>)).1 = 0 /\ map subject (records (two_log <| records ::= forge 0 forged_record |>)) = map str_bytes ["bob"; "alice"]%string.
Proof.
  split; [|vm_compute; reflexivity].
  assert (H : exists old, records two_log !! 0%nat = Some old) by (vm_compute; eexists; reflexivity). destruct H as [old H].
  refine (proj1 (audit_forgery_verifies two_log 0 forged_record old _ _ H)); vm_compute; reflexivity.
Defined.

(** The bounds of a record: the sizes of its arrays. *)
Definition fits (r : AuditRecord) : Prop :=
  (length (subject r) < AUDIT_MAX_SUBJECT_LEN /\ length (object r) < AUDIT_MAX_OBJECT_LEN /\ length (action r) < 128 /\ length (message r) < AUDIT_MAX_MESSAGE_LEN /\
   length (source_ip r) < AUDIT_MAX_SOURCE_IP_LEN)%nat.
Lemma record_text_fits r : fits r -> (length (record_text r) < AUDIT_MAX_RECORD_BUF_LEN)%nat.
Proof.
  unfold fits, record_text. rewrite !length_app. cbn [length]. pose proof (digits_length 20 (event_id r)). pose proof (print_lld_length (event_code (event_type r))).
  pose proof (print_lld_length (severity_code (severity r))). pose proof (print_lld_length (timestamp r)). pose proof (print_lld_length (outcome r)).
  unfold AUDIT_MAX_SUBJECT_LEN, AUDIT_MAX_OBJECT_LEN, AUDIT_MAX_MESSAGE_LEN, AUDIT_MAX_SOURCE_IP_LEN, AUDIT_MAX_RECORD_BUF_LEN. lia.
Qed.
Lemma field_length size s : (0 < size -> length (field size s) < size)%nat.
Proof. intros. destruct s; cbn [field from_option length]; [|lia]. unfold field, from_option, truncated. rewrite length_take. lia. Qed.
(** Every record of a log fits. *)
Theorem audit_records_fit b events : Forall fits (records (foldl log_event (audit_log_init b) events)).
Proof.
  induction events as [|e events IH] using rev_ind; [constructor|]. rewrite foldl_app. cbn [foldl]. set (log := foldl log_event _ events) in *. clearbody log.
  destruct e as [ty sev subj obj act ip o msg now]. unfold log_event, audit_log_event. destruct (_ <=? _)%nat; [done|]. cbn [snd].
  refine (proj2 (Forall_app _ (records log) [_]) (conj IH (proj2 (Forall_singleton _ _) _))).
  assert (H : forall p c r, fits r -> fits (r <| prev_hash_hex := p |> <| curr_hash_hex := c |>)) by done.
  destruct (integrity_enabled log); [apply H|]; (repeat split; apply field_length; unfold AUDIT_MAX_SUBJECT_LEN, AUDIT_MAX_OBJECT_LEN, AUDIT_MAX_MESSAGE_LEN, AUDIT_MAX_SOURCE_IP_LEN; lia).
Qed.

(** Two different records of the same event number may have one text, hence one hash: the
    separators are not escaped. *)
Example ambiguous_text : let r s o := mk_record 1 AUDIT_EVENT_CUSTOM AUDIT_SEVERITY_INFO (str_bytes s) (str_bytes o) [] [] [] [] [] 0 0 in
  audit_compute_record_hash (r "alice|admin" "x")%string = audit_compute_record_hash (r "alice" "admin|x")%string.
Proof. reflexivity. Qed.
(** Records cut from the end leave a log that verifies. *)
Theorem audit_truncation_verifies log k : (audit_verify_integrity log).1 = 0 -> (audit_verify_integrity (log <| records ::= take k |>)).1 = 0.
Proof.
  unfold audit_verify_integrity. change (integrity_enabled (log <| records ::= take k |>)) with (integrity_enabled log). destruct (integrity_enabled log); [|done].
  change (genesis_hash (log <| records ::= take k |>)) with (genesis_hash log). change (records (log <| records ::= take k |>)) with (take k (records log)).
  cbn [fst]. rewrite <- (take_drop k (records log)) at 1. rewrite verify_from_app. destruct (Z.eqb_spec (verify_from (truncated AUDIT_MAX_HASH_LEN (genesis_hash log)) (take k (records log))) 0); [done|done].
Qed.
(** The array that is exported is closed only when two more bytes fit; a quote within a text is not escaped. *)
Example export_not_closed : (audit_export_json (records two_log) 200) = Some (355, truncated 200 (export_loop 200 true (records two_log) [91])).
Proof. vm_compute. reflexivity. Qed.
