(* ===== verification/OAuth2.v ===== *)
(** Model of [mini-auth-security/src/oauth2_server.c]: clients, authorization codes, access
    and refresh tokens; and the theorems on it.

    Tables are lists, their length is the count; nothing is ever removed from them.  Texts
    are the bytes before their zero.  The seed of the generator is passed and returned; the
    readings of [time(NULL)] are arguments, in order.  A buffer for a result is given by its
    size, [None] is a NULL buffer. *)

From S2P Require Import Prelude Bytes.

Definition OAUTH2_MAX_CLIENTS : nat := 256.
Definition OAUTH2_MAX_TOKENS : nat := Z.to_nat 1024.
#[global] Arguments OAUTH2_MAX_TOKENS : simpl never.
Definition OAUTH2_MAX_REDIRECT_URI : nat := 512.
Definition OAUTH2_CLIENT_ID_LEN : nat := 64.
Definition OAUTH2_CLIENT_SECRET_LEN : nat := 128.
Definition OAUTH2_AUTH_CODE_LEN : nat := 64.
Definition OAUTH2_ACCESS_TOKEN_LEN : nat := 128.
Definition OAUTH2_REFRESH_TOKEN_LEN : nat := 128.
Definition OAUTH2_SCOPE_LEN : nat := 256.
Definition OAUTH2_USERNAME_LEN : nat := 128.
Definition OAUTH2_ACCESS_TOKEN_TTL : Z := 3600.
Definition OAUTH2_REFRESH_TOKEN_TTL : Z := 86400.
Definition OAUTH2_AUTH_CODE_TTL : Z := 600.

Inductive OAuth2TokenType := OAUTH2_TOKEN_BEARER | OAUTH2_TOKEN_MAC.
Record OAuth2Client := mk_client { c_id : list Z; client_secret : list Z; c_redirect_uri : list Z; c_scope : list Z; is_confidential : Z; created_at : Z }.
Record OAuth2AuthCode := mk_code { code : list Z; ac_client : list Z; redirect_uri : list Z; ac_username : list Z; ac_scope : list Z; expires_at : Z; used : bool }.
Record OAuth2TokenEntry := mk_token {
  access_token : list Z; refresh_token : list Z; t_client : list Z; t_username : list Z; t_scope : list Z; token_type : OAuth2TokenType;
  access_expires_at : Z; refresh_expires_at : Z; revoked : bool;
}.
Record OAuth2Server := mk_server { clients : list OAuth2Client; auth_codes : list OAuth2AuthCode; tokens : list OAuth2TokenEntry }.

(** ** Random text *)

Definition _oauth2_seed : Z := 0xDEADBEEF.
Definition oauth2_xorshift32 (s : Z) : Z :=
  let s := Z.lxor s (u32 (Z.shiftl s 13)) in
  let s := Z.lxor s (Z.shiftr s 17) in
  Z.lxor s (u32 (Z.shiftl s 5)).
Fixpoint hex_loop (n : nat) (s : Z) : list Z * Z :=
  match n with
  | O => ([], s)
  | S n' => let s := oauth2_xorshift32 s in let r := hex_loop n' s in (nth (Z.to_nat (Z.land s 15)) (str_bytes "0123456789abcdef") 0 :: r.1, r.2)
  end.
Definition oauth2_generate_random_hex (len : nat) (s : Z) : list Z * Z := hex_loop (len - 1) s.

(** ** Clients *)

Definition oauth2_server_init : OAuth2Server := mk_server [] [] [].
Definition client_idx (srv : OAuth2Server) (id : list Z) : option nat := find_idx (fun c => bool_decide (c_id c = id)) (clients srv).
Definition oauth2_register_client (srv : OAuth2Server) (id secret uri scope : list Z) (confidential now : Z) : Z * OAuth2Server :=
  if (OAUTH2_MAX_CLIENTS <=? length (clients srv))%nat then (-1, srv)
  else
    match client_idx srv id with
    | Some _ => (-2, srv)
    | None =>
        let c := mk_client (truncated OAUTH2_CLIENT_ID_LEN id) (truncated OAUTH2_CLIENT_SECRET_LEN secret) (truncated OAUTH2_MAX_REDIRECT_URI uri)
                   (truncated OAUTH2_SCOPE_LEN scope) confidential now in
        (0, srv <| clients ::= fun l => l ++ [c] |>)
    end.
Definition oauth2_validate_client (srv : OAuth2Server) (id secret : list Z) : bool :=
  match client_idx srv id ≫= (clients srv !!.) with
  | Some c => if is_confidential c =? 0 then true else bool_decide (client_secret c = secret)
  | None => false
  end.

(** ** Codes and tokens *)

(** What is copied to a buffer for a result. *)
Definition given (size : option nat) (v : list Z) : option (list Z) := match size with Some (S _ as n) => Some (truncated n v) | _ => None end.
Definition oauth2_create_auth_code (srv : OAuth2Server) (id uri user scope : list Z) (code_size : option nat) (now s : Z) : Z * option (list Z) * OAuth2Server * Z :=
  if (OAUTH2_MAX_TOKENS <=? length (auth_codes srv))%nat then (-1, None, srv, s)
  else if negb (oauth2_validate_client srv id []) then (-2, None, srv, s)
  else
    let r := oauth2_generate_random_hex OAUTH2_AUTH_CODE_LEN s in
    let ac := mk_code r.1 (truncated OAUTH2_CLIENT_ID_LEN id) (truncated OAUTH2_MAX_REDIRECT_URI uri) (truncated OAUTH2_USERNAME_LEN user)
                (truncated OAUTH2_SCOPE_LEN scope) (now + OAUTH2_AUTH_CODE_TTL) false in
    (0, given code_size r.1, srv <| auth_codes ::= fun l => l ++ [ac] |>, r.2).
Definition oauth2_find_auth_code (srv : OAuth2Server) (c : list Z) : option nat := find_idx (fun a => bool_decide (code a = c)) (auth_codes srv).
Definition oauth2_find_access_token (srv : OAuth2Server) (t : list Z) : option nat := find_idx (fun e => bool_decide (access_token e = t)) (tokens srv).
Definition oauth2_find_refresh_token (srv : OAuth2Server) (t : list Z) : option nat := find_idx (fun e => bool_decide (refresh_token e = t)) (tokens srv).
(** The result: the code, the access and the refresh token told, the server, the seed. *)
Definition reply : Type := Z * option (list Z) * option (list Z) * OAuth2Server * Z.
Definition r_code (r : reply) : Z := r.1.1.1.1.
Definition r_server (r : reply) : OAuth2Server := r.1.2.
Definition oauth2_store_token (srv : OAuth2Server) (id : list Z) (user scope : option (list Z)) (at_size rt_size : option nat) (now1 now2 s : Z) : reply :=
  if (OAUTH2_MAX_TOKENS <=? length (tokens srv))%nat then (-1, None, None, srv, s)
  else
    let a := oauth2_generate_random_hex OAUTH2_ACCESS_TOKEN_LEN s in
    let r := oauth2_generate_random_hex OAUTH2_REFRESH_TOKEN_LEN a.2 in
    let e := mk_token a.1 r.1 (truncated OAUTH2_CLIENT_ID_LEN id) (from_option (truncated OAUTH2_USERNAME_LEN) [] user)
               (from_option (truncated OAUTH2_SCOPE_LEN) [] scope) OAUTH2_TOKEN_BEARER (now1 + OAUTH2_ACCESS_TOKEN_TTL) (now2 + OAUTH2_REFRESH_TOKEN_TTL) false in
    (0, given at_size a.1, given rt_size r.1, srv <| tokens ::= fun l => l ++ [e] |>, r.2).
(** [uri]: [None] is NULL. *)
Definition oauth2_exchange_code_for_token (srv : OAuth2Server) (c id secret : list Z) (uri : option (list Z)) (at_size rt_size : option nat)
    (now now1 now2 s : Z) : reply :=
  if negb (oauth2_validate_client srv id secret) then (-1, None, None, srv, s)
  else
    match oauth2_find_auth_code srv c with
    | None => (-2, None, None, srv, s)
    | Some i =>
        match auth_codes srv !! i with
        | None => (-2, None, None, srv, s)
        | Some ac =>
            if used ac then (-3, None, None, srv, s)
            else if expires_at ac <? now then (-4, None, None, srv, s)
            else if negb (bool_decide (ac_client ac = id)) then (-5, None, None, srv, s)
            else if match uri with Some u => negb (bool_decide (redirect_uri ac = u)) | None => false end then (-6, None, None, srv, s)
            else
              let srv := srv <| auth_codes ::= <[i := ac <| used := true |>]> |> in
              oauth2_store_token srv id (Some (ac_username ac)) (Some (ac_scope ac)) at_size rt_size now1 now2 s
        end
    end.
Definition oauth2_client_credentials_grant (srv : OAuth2Server) (id secret : list Z) (scope : option (list Z)) (at_size : option nat) (now1 now2 s : Z) : reply :=
  if negb (oauth2_validate_client srv id secret) then (-1, None, None, srv, s)
  else oauth2_store_token srv id None scope at_size None now1 now2 s.
Definition put_token (srv : OAuth2Server) (i : nat) (e : OAuth2TokenEntry) : OAuth2Server := srv <| tokens ::= <[i := e]> |>.
(** [rt_size]: a new refresh token is made when its buffer is not NULL. *)
Definition oauth2_refresh_token (srv : OAuth2Server) (t id secret : list Z) (at_size rt_size : option nat) (now now1 now2 s : Z) : reply :=
  if negb (oauth2_validate_client srv id secret) then (-1, None, None, srv, s)
  else
    match oauth2_find_refresh_token srv t with
    | None => (-2, None, None, srv, s)
    | Some i =>
        match tokens srv !! i with
        | None => (-2, None, None, srv, s)
        | Some e =>
            if revoked e then (-3, None, None, srv, s)
            else if refresh_expires_at e <? now then (-4, None, None, srv, s)
            else if negb (bool_decide (t_client e = id)) then (-5, None, None, srv, s)
            else
              let a := oauth2_generate_random_hex OAUTH2_ACCESS_TOKEN_LEN s in
              let e := e <| access_expires_at := now1 + OAUTH2_ACCESS_TOKEN_TTL |> <| access_token := a.1 |> in
              match rt_size with
              | None => (0, given at_size a.1, None, put_token srv i e, a.2)
              | Some _ =>
                  let r := oauth2_generate_random_hex OAUTH2_REFRESH_TOKEN_LEN a.2 in
                  let e := e <| refresh_token := r.1 |> <| refresh_expires_at := now2 + OAUTH2_REFRESH_TOKEN_TTL |> in
                  (0, given at_size a.1, given rt_size r.1, put_token srv i e, r.2)
              end
        end
    end.
(** The client and the scope told when the token is valid. *)
Definition oauth2_validate_access_token (srv : OAuth2Server) (t : list Z) (ci_size sc_size : option nat) (now : Z) : Z * option (list Z) * option (list Z) :=
  match oauth2_find_access_token srv t ≫= (tokens srv !!.) with
  | None => (-1, None, None)
  | Some e =>
      if revoked e then (-2, None, None) else if access_expires_at e <? now then (-3, None, None)
      else (0, given ci_size (t_client e), given sc_size (t_scope e))
  end.
Definition oauth2_revoke_token (srv : OAuth2Server) (t : list Z) : Z * OAuth2Server :=
  match oauth2_find_access_token srv t with
  | None => (-1, srv)
  | Some i => (0, srv <| tokens ::= alter (fun e => e <| revoked := true |>) i |>)
  end.
(** What is printed. *)
Definition bracketed (i : nat) (v : list Z) : list Z := str_bytes "  [" ++ print_lld (Z.of_nat i) ++ str_bytes "] " ++ v ++ [10].
Definition count_line (name : string) (n : nat) : list Z := str_bytes name ++ print_lld (Z.of_nat n) ++ [10].
Definition oauth2_dump_state (srv : OAuth2Server) : list Z :=
  str_bytes "=== OAuth2 Server State ===" ++ [10] ++ count_line "Clients: " (length (clients srv)) ++
  concat (imap (fun i c => bracketed i (c_id c ++ str_bytes " (confidential=" ++ print_lld (is_confidential c) ++ [41])) (clients srv)) ++
  count_line "Auth Codes: " (length (auth_codes srv)) ++
  concat (imap (fun i a => bracketed i (code a ++ str_bytes " user=" ++ ac_username a ++ str_bytes " used=" ++ print_lld (c_bool (used a)) ++
                                          str_bytes " expires=" ++ print_lld (expires_at a))) (auth_codes srv)) ++
  count_line "Tokens: " (length (tokens srv)) ++
  concat (imap (fun i e => bracketed i (str_bytes "access=" ++ access_token e ++ str_bytes " refresh=" ++ refresh_token e ++ str_bytes " revoked=" ++
                                          print_lld (c_bool (revoked e)))) (tokens srv)).

(** ** Histories *)

Inductive oauth2_op :=
  | Register (id secret uri scope : list Z) (confidential : Z)
  | Authorize (id uri user scope : list Z)
  | Exchange (c id secret : list Z) (uri : option (list Z))
  | ClientGrant (id secret : list Z) (scope : option (list Z))
  | Refresh (t id secret : list Z) (renew : bool)
  | Revoke (t : list Z).
Definition oauth2_step (op : oauth2_op) (now : Z) (st : OAuth2Server * Z) : OAuth2Server * Z :=
  let '(srv, s) := st in
  match op with
  | Register id secret uri scope conf => ((oauth2_register_client srv id secret uri scope conf now).2, s)
  | Authorize id uri user scope => let r := oauth2_create_auth_code srv id uri user scope (Some OAUTH2_AUTH_CODE_LEN) now s in (r.1.2, r.2)
  | Exchange c id secret uri => let r := oauth2_exchange_code_for_token srv c id secret uri (Some 128%nat) (Some 128%nat) now now now s in (r_server r, r.2)
  | ClientGrant id secret scope => let r := oauth2_client_credentials_grant srv id secret scope (Some 128%nat) now now s in (r_server r, r.2)
  | Refresh t id secret renew =>
      let r := oauth2_refresh_token srv t id secret (Some 128%nat) (if renew then Some 128%nat else None) now now now s in (r_server r, r.2)
  | Revoke t => ((oauth2_revoke_token srv t).2, s)
  end.
Definition oauth2_run (ops : list (oauth2_op * Z)) (st : OAuth2Server * Z) : OAuth2Server * Z := foldl (fun st o => oauth2_step o.1 o.2 st) st ops.

(** ** Codes are good for one token *)

(** Codes are only added, and their only change is to be used. *)
Definition code_le (a a' : OAuth2AuthCode) : Prop := exists b, a' = a <| used := b |> /\ (used a = true -> b = true).
#[export] Instance code_le_refl : Reflexive code_le.
Proof. intros a. exists (used a). by destruct a. Qed.
#[export] Instance code_le_trans : Transitive code_le.
Proof. intros a1 a2 a3 (b & -> & Hb) (c & -> & Hc). exists c. split; [done|]. intros Ha. by apply Hc, Hb. Qed.
Definition codes_grow : list OAuth2AuthCode -> list OAuth2AuthCode -> Prop := grows code_le.
Lemma codes_grow_use l i a : l !! i = Some a -> codes_grow l (<[i := a <| used := true |>]> l).
Proof. intros Hi. eapply grows_insert; [apply _|done|]. by exists true. Qed.
Lemma code_idx_le c srv srv' i : codes_grow (auth_codes srv) (auth_codes srv') -> oauth2_find_auth_code srv c = Some i -> oauth2_find_auth_code srv' c = Some i.
Proof. apply (grows_find code_le). by intros x y (b & -> & _). Qed.
Lemma store_token_codes srv id user scope n m t1 t2 s : auth_codes (r_server (oauth2_store_token srv id user scope n m t1 t2 s)) = auth_codes srv.
Proof. unfold oauth2_store_token. by destruct (_ <=? _)%nat. Qed.
Lemma step_codes op now st : codes_grow (auth_codes st.1) (auth_codes (oauth2_step op now st).1).
Proof.
  destruct st as [srv s]. destruct op; cbn [oauth2_step fst snd].
  - unfold oauth2_register_client. destruct (_ <=? _)%nat; [done|]. by destruct (client_idx srv id).
  - unfold oauth2_create_auth_code. destruct (_ <=? _)%nat; [done|]. destruct (negb _); [done|]. apply grows_app, _.
  - unfold oauth2_exchange_code_for_token. destruct (negb _); [done|]. destruct (oauth2_find_auth_code srv c) as [i|]; [|done].
    destruct (auth_codes srv !! i) as [ac|] eqn:Hi; [|done]. destruct (used ac); [done|]. destruct (_ <? _); [done|]. destruct (negb _); [done|].
    match goal with |- context [if ?b then (-6, _, _, _, _) else _] => destruct b end; [done|]. rewrite store_token_codes. by apply codes_grow_use.
  - unfold oauth2_client_credentials_grant. destruct (negb _); [done|]. by rewrite store_token_codes.
  - unfold oauth2_refresh_token. destruct (negb _); [done|]. destruct (oauth2_find_refresh_token srv t) as [i|]; [|done]. destruct (tokens srv !! i) as [e|]; [|done].
    destruct (revoked e); [done|]. destruct (_ <? _); [done|]. destruct (negb _); [done|]. by destruct renew.
  - unfold oauth2_revoke_token. by destruct (oauth2_find_access_token srv t).
Qed.
Lemma run_codes ops st : codes_grow (auth_codes st.1) (auth_codes (oauth2_run ops st).1).
Proof. revert st. induction ops as [|[op now] ops IH]; intros st; [unfold codes_grow; reflexivity|]. unfold codes_grow. etransitivity; [apply step_codes|apply IH]. Qed.
(** The first code of this text was used. *)
Definition spent (c : list Z) (srv : OAuth2Server) : Prop :=
  exists i a, oauth2_find_auth_code srv c = Some i /\ auth_codes srv !! i = Some a /\ used a = true.
Lemma spent_grow c srv srv' : codes_grow (auth_codes srv) (auth_codes srv') -> spent c srv -> spent c srv'.
Proof.
  intros Hg (i & a & Hf & Hi & Hu). destruct (Hg _ _ Hi) as (a' & Hi' & b & -> & Hub). exists i, (a <| used := b |>). split; [by apply (code_idx_le _ srv)|]. split; [done|by apply Hub].
Qed.
(** What an exchange that goes through says, and that the code is spent by it. *)
Lemma exchange_0 srv c id secret uri n m t t1 t2 s :
  r_code (oauth2_exchange_code_for_token srv c id secret uri n m t t1 t2 s) = 0 ->
  oauth2_validate_client srv id secret = true /\ exists i a, oauth2_find_auth_code srv c = Some i /\ auth_codes srv !! i = Some a /\ used a = false /\ t <= expires_at a /\
    ac_client a = id /\ (forall u, uri = Some u -> redirect_uri a = u) /\
    auth_codes (r_server (oauth2_exchange_code_for_token srv c id secret uri n m t t1 t2 s)) = <[i := a <| used := true |>]> (auth_codes srv) /\
    exists e, tokens (r_server (oauth2_exchange_code_for_token srv c id secret uri n m t t1 t2 s)) = tokens srv ++ [e] /\ t_client e = truncated OAUTH2_CLIENT_ID_LEN id /\
      t_username e = truncated OAUTH2_USERNAME_LEN (ac_username a) /\ t_scope e = truncated OAUTH2_SCOPE_LEN (ac_scope a) /\ revoked e = false.
Proof.
  unfold oauth2_exchange_code_for_token. destruct (oauth2_validate_client srv id secret); [|done]. cbn [negb]. destruct (oauth2_find_auth_code srv c) as [i|]; [|done].
  destruct (auth_codes srv !! i) as [ac|] eqn:Hi; [|done]. destruct (used ac) eqn:Hu; [done|]. destruct (Z.ltb_spec (expires_at ac) t); [done|]. case_bool_decide as Hid; [|done]. cbn [negb].
  match goal with |- context [if ?b then (-6, _, _, _, _) else _] => destruct b eqn:Huri end; [done|]. intros H0. split; [done|]. exists i, ac. split; [done|]. split; [done|]. split; [done|].
  split; [done|]. split; [done|]. split. { intros u ->. apply negb_false_iff, bool_decide_eq_true in Huri. done. }
  split; [by rewrite store_token_codes|]. revert H0. unfold oauth2_store_token. destruct (_ <=? _)%nat; [done|]. intros _. eexists. by split.
Qed.
Lemma spent_refused srv c id secret uri n m t t1 t2 s : spent c srv ->
  let k := r_code (oauth2_exchange_code_for_token srv c id secret uri n m t t1 t2 s) in k = -1 \/ k = -3.
Proof.
  intros (i & a & Hf & Hi & Hu). cbv zeta. unfold oauth2_exchange_code_for_token. destruct (negb _); [by left|]. rewrite Hf, Hi, Hu. by right.
Qed.
(** C35: A code that was exchanged for a token is never exchanged again, whatever happens in
    between, whoever asks, and even if the generator gives the same text again. *)
Theorem oauth2_code_once srv s c id secret uri now ops id' secret' uri' n m t t1 t2 s' :
  r_code (oauth2_exchange_code_for_token srv c id secret uri (Some 128%nat) (Some 128%nat) now now now s) = 0 ->
  let st := oauth2_run ((Exchange c id secret uri, now) :: ops) (srv, s) in
  let k := r_code (oauth2_exchange_code_for_token st.1 c id' secret' uri' n m t t1 t2 s') in k = -1 \/ k = -3.
Proof.
  intros (Hv & i & a & Hf & Hi & Hu & _ & _ & _ & Hcodes & _)%exchange_0. apply spent_refused. change (oauth2_run ((Exchange c id secret uri, now) :: ops) (srv, s))
    with (oauth2_run ops (oauth2_step (Exchange c id secret uri) now (srv, s))). eapply spent_grow; [apply run_codes|].
  cbn [oauth2_step fst]. revert Hcodes. set (srv' := r_server _). clearbody srv'. intros Hcodes. exists i, (a <| used := true |>).
  assert (Hi' : auth_codes srv' !! i = Some (a <| used := true |>)) by (rewrite Hcodes; apply list_lookup_insert_eq; by eapply lookup_lt_Some).
  split; [|done]. apply (code_idx_le _ srv); [|exact Hf]. rewrite Hcodes. by apply codes_grow_use.
Qed.

(** ** Reachable servers *)

Definition named (e : OAuth2TokenEntry) : bool := negb (bool_decide (t_username e = [])).
(** Identifiers are cut; codes are for clients that need no secret; each token of a user was
    paid for by a code. *)
Record oauth2_inv (srv : OAuth2Server) : Prop := {
  inv_ids : Forall (fun c => truncated OAUTH2_CLIENT_ID_LEN (c_id c) = c_id c) (clients srv);
  inv_codes : Forall (fun a => oauth2_validate_client srv (ac_client a) [] = true) (auth_codes srv);
  inv_count : (count_if named (tokens srv) <= count_if used (auth_codes srv))%nat;
}.


Lemma validate_client_grow srv srv' l id secret : clients srv' = clients srv ++ l -> oauth2_validate_client srv id secret = true -> oauth2_validate_client srv' id secret = true.
Proof.
  intros Hc. unfold oauth2_validate_client, client_idx. rewrite Hc. destruct (find_idx _ (clients srv)) as [i|] eqn:Hi; [|done].
  assert (Hg : forall j x, clients srv !! j = Some x -> (clients srv ++ l) !! j = Some x) by (intros j x Hj; by apply lookup_app_l_Some).
  erewrite (find_idx_grow _ _ _ _ _ Hi). cbn. destruct (clients srv !! i) eqn:Hl; [|done]. by rewrite (Hg _ _ Hl). Unshelve. intros j x Hj%Hg. by exists x.
Qed.
Lemma validate_client_same srv srv' id secret : clients srv' = clients srv -> oauth2_validate_client srv' id secret = oauth2_validate_client srv id secret.
Proof. unfold oauth2_validate_client, client_idx. by intros ->. Qed.
Lemma validated_id srv id secret : oauth2_inv srv -> oauth2_validate_client srv id secret = true -> truncated OAUTH2_CLIENT_ID_LEN id = id.
Proof.
  intros [Hids _ _]. unfold oauth2_validate_client, client_idx. destruct (find_idx _ _) as [i|] eqn:Hi; [|done]. intros _. apply find_idx_Some in Hi as (c & Hic & <-%bool_decide_eq_true & _).
  by apply (Forall_lookup_1 _ _ _ _ Hids Hic).
Qed.
(** A change of the codes and tokens alone. *)
Lemma inv_change srv srv' : oauth2_inv srv -> clients srv' = clients srv -> (forall a, a ∈ auth_codes srv' -> exists b, b ∈ auth_codes srv /\ ac_client b = ac_client a) ->
  (count_if named (tokens srv') <= count_if used (auth_codes srv'))%nat -> oauth2_inv srv'.
Proof.
  intros [Hids Hcodes _] Hc Ha Hn. split; [by rewrite Hc| |done]. apply Forall_forall. intros a Hin. destruct (Ha a Hin) as (b & Hb & <-).
  rewrite (validate_client_same _ _ _ _ Hc). rewrite Forall_forall in Hcodes. by apply Hcodes.
Qed.
Lemma inv_put_token srv i e e' : oauth2_inv srv -> tokens srv !! i = Some e -> t_username e' = t_username e -> oauth2_inv (put_token srv i e').
Proof.
  intros Hinv Hi Hu. apply (inv_change srv); [done..|by eauto|]. change (count_if named (<[i := e']> (tokens srv)) <= count_if used (auth_codes srv))%nat. pose proof (count_if_insert named (tokens srv) i e e' Hi) as H. pose proof (inv_count _ Hinv).
  assert (named e' = named e) as Hn by (unfold named; by rewrite Hu). rewrite Hn in H. lia.
Qed.
Lemma store_token_tokens srv id user scope n m t1 t2 s : let srv' := r_server (oauth2_store_token srv id user scope n m t1 t2 s) in
  clients srv' = clients srv /\ auth_codes srv' = auth_codes srv /\ (tokens srv' = tokens srv \/ exists e, tokens srv' = tokens srv ++ [e] /\ (user = None -> t_username e = [])).
Proof.
  unfold oauth2_store_token. destruct (_ <=? _)%nat; [by auto|]. split; [done|]. split; [done|]. right. eexists. split; [reflexivity|]. by intros ->.
Qed.
Lemma store_token_inv srv id user scope n m t1 t2 s : oauth2_inv srv -> user = None \/ (count_if named (tokens srv) < count_if used (auth_codes srv))%nat ->
  oauth2_inv (r_server (oauth2_store_token srv id user scope n m t1 t2 s)).
Proof.
  intros Hinv Hu. destruct (store_token_tokens srv id user scope n m t1 t2 s) as (Hc & Ha & Ht). pose proof (inv_count _ Hinv).
  apply (inv_change srv); [done..|rewrite Ha; by eauto|]. rewrite Ha. destruct Ht as [->|(e & -> & He)]; [done|]. rewrite count_if_app. unfold count_if at 2. cbn [List.filter].
  destruct (named e) eqn:Hn; cbn [length]; [|lia]. destruct Hu as [Hu|Hu]; [|lia]. unfold named in Hn. by rewrite He in Hn.
Qed.
Lemma oauth2_step_inv op now st : oauth2_inv st.1 -> oauth2_inv (oauth2_step op now st).1.
Proof.
  destruct st as [srv s]. intros Hinv. cbn [fst] in Hinv. destruct op; cbn [oauth2_step fst snd].
  - unfold oauth2_register_client. destruct (_ <=? _)%nat; [done|]. destruct (client_idx srv id); [done|]. cbn [snd]. destruct Hinv as [Hids Hcodes Hn]. split; [|apply Forall_forall|exact Hn].
    + apply Forall_app. split; [exact Hids|]. apply Forall_singleton. cbn. unfold truncated. by rewrite take_take, Nat.min_id.
    + intros a Ha. eapply validate_client_grow; [reflexivity|]. rewrite Forall_forall in Hcodes. by apply Hcodes.
  - unfold oauth2_create_auth_code. destruct (_ <=? _)%nat; [done|]. destruct (oauth2_validate_client srv id []) eqn:Hv; [|done]. cbn [negb fst snd].
    pose proof (validated_id _ _ _ Hinv Hv) as Hid. destruct Hinv as [Hids Hcodes Hn]. split; [exact Hids|apply Forall_app; split; [exact Hcodes|]; apply Forall_singleton|].
    + change (oauth2_validate_client srv (truncated OAUTH2_CLIENT_ID_LEN id) [] = true). by rewrite Hid.
    + cbn [auth_codes tokens set]. rewrite count_if_app. lia.
  - unfold oauth2_exchange_code_for_token. destruct (negb _); [done|]. destruct (oauth2_find_auth_code srv c) as [i|]; [|done].
    destruct (auth_codes srv !! i) as [ac|] eqn:Hi; [|done]. destruct (used ac) eqn:Hused; [done|]. destruct (_ <? _); [done|]. destruct (negb _); [done|].
    match goal with |- context [if ?b then (-6, _, _, _, _) else _] => destruct b end; [done|]. cbn [fst snd].
    pose proof (count_if_insert used (auth_codes srv) i ac (ac <| used := true |>) Hi) as Hcnt. rewrite Hused in Hcnt. change (used (ac <| used := true |>)) with true in Hcnt. unfold b2z in Hcnt. pose proof (inv_count _ Hinv).
    assert (Hlt : (count_if named (tokens srv) < count_if used (<[i := ac <| used := true |>]> (auth_codes srv)))%nat) by lia.
    apply store_token_inv; [|right; exact Hlt]. apply (inv_change srv); [done..| |by apply Nat.lt_le_incl]. cbn. intros a [j Ha]%list_elem_of_lookup.
    apply list_lookup_insert_Some in Ha as [(-> & <- & _)|(_ & Ha)]; [exists ac|exists a]; (split; [by eapply list_elem_of_lookup_2|done]).
  - unfold oauth2_client_credentials_grant. destruct (negb _); [done|]. cbn [fst snd]. apply store_token_inv; [done|by left].
  - unfold oauth2_refresh_token. destruct (negb _); [done|]. destruct (oauth2_find_refresh_token srv t) as [i|]; [|done]. destruct (tokens srv !! i) as [e|] eqn:Hi; [|done].
    destruct (revoked e); [done|]. destruct (_ <? _); [done|]. destruct (negb _); [done|]. destruct renew; by eapply inv_put_token.
  - unfold oauth2_revoke_token. destruct (oauth2_find_access_token srv t) as [i|] eqn:Hf; [|done]. apply find_idx_Some in Hf as (e & Hi & _). cbn [snd].
    assert (H : srv <| tokens ::= alter (fun e => e <| revoked := true |>) i |> = put_token srv i (e <| revoked := true |>)); [|rewrite H; by eapply inv_put_token].
    unfold put_token, set. f_equal. by rewrite (alter_insert _ _ e).
Qed.
Lemma oauth2_run_inv ops st : oauth2_inv st.1 -> oauth2_inv (oauth2_run ops st).1.
Proof. revert st. induction ops as [|[op now] ops IH]; intros st H; [done|]. by apply (IH (oauth2_step op now st)), oauth2_step_inv. Qed.
Lemma oauth2_init_inv : oauth2_inv oauth2_server_init.
Proof. split; [constructor..|]. unfold count_if. cbn. lia. Qed.

(** There are never more tokens of users than codes that were exchanged. *)
Theorem oauth2_user_tokens_paid ops s : let srv := (oauth2_run ops (oauth2_server_init, s)).1 in (count_if named (tokens srv) <= count_if used (auth_codes srv))%nat.
Proof. apply inv_count, oauth2_run_inv, oauth2_init_inv. Qed.
(** A client with a secret never gets a token for a code: creating a code checks the
    client with the empty secret. *)
Theorem oauth2_confidential_gets_no_token ops s c id secret uri n m t t1 t2 s' k cl : let srv := (oauth2_run ops (oauth2_server_init, s)).1 in
  client_idx srv id = Some k -> clients srv !! k = Some cl -> is_confidential cl <> 0 -> client_secret cl <> [] ->
  r_code (oauth2_exchange_code_for_token srv c id secret uri n m t t1 t2 s') <> 0.
Proof.
  intros srv Hk Hcl Hconf Hsec (_ & i & a & _ & Hi & _ & _ & Hid & _)%exchange_0. pose proof (oauth2_run_inv ops (oauth2_server_init, s) oauth2_init_inv) as [_ Hcodes _]. fold srv in Hcodes.
  pose proof (Forall_lookup_1 _ _ _ _ Hcodes Hi) as Hv. cbn in Hv. rewrite Hid in Hv. unfold oauth2_validate_client in Hv. rewrite Hk in Hv. cbn in Hv. rewrite Hcl in Hv.
  destruct (Z.eqb_spec (is_confidential cl) 0); [done|]. apply bool_decide_eq_true in Hv. done.
Qed.

(** ** The grants *)

(** A client that proves itself and an unused code of that client in its time, for the
    address if one is given: the code is spent and a token stored. *)
Lemma exchange_run srv c id secret uri n m t t1 t2 s i a :
  oauth2_validate_client srv id secret = true -> oauth2_find_auth_code srv c = Some i -> auth_codes srv !! i = Some a -> used a = false -> t <= expires_at a -> ac_client a = id ->
  (forall u, uri = Some u -> redirect_uri a = u) ->
  oauth2_exchange_code_for_token srv c id secret uri n m t t1 t2 s =
  oauth2_store_token (srv <| auth_codes ::= <[i := a <| used := true |>]> |>) id (Some (ac_username a)) (Some (ac_scope a)) n m t1 t2 s.
Proof.
  intros Hv Hf Hi Hu Ht Hid Huri. unfold oauth2_exchange_code_for_token. rewrite Hv, Hf, Hi, Hu. cbn [negb]. rewrite (proj2 (Z.ltb_ge _ _)) by lia.
  rewrite bool_decide_eq_true_2 by done. cbn [negb]. replace (match uri with Some u => negb (bool_decide (redirect_uri a = u)) | None => false end) with false; [done|].
  destruct uri as [u|]; [|done]. by rewrite (Huri u), bool_decide_eq_true_2.
Qed.
Lemma store_token_room srv id user scope n m t1 t2 s : r_code (oauth2_store_token srv id user scope n m t1 t2 s) = if (OAUTH2_MAX_TOKENS <=? length (tokens srv))%nat then -1 else 0.
Proof. unfold oauth2_store_token. by destruct (_ <=? _)%nat. Qed.
(** An exchange goes through exactly when, also, there is room for a token. *)
Theorem oauth2_exchange_correct srv c id secret uri n m t t1 t2 s :
  r_code (oauth2_exchange_code_for_token srv c id secret uri n m t t1 t2 s) = 0 <->
  oauth2_validate_client srv id secret = true /\ (length (tokens srv) < OAUTH2_MAX_TOKENS)%nat /\ exists i a, oauth2_find_auth_code srv c = Some i /\ auth_codes srv !! i = Some a /\
    used a = false /\ t <= expires_at a /\ ac_client a = id /\ (forall u, uri = Some u -> redirect_uri a = u).
Proof.
  split.
  - intros H0. destruct (exchange_0 _ _ _ _ _ _ _ _ _ _ _ H0) as (Hv & i & a & Hf & Hi & Hu & Ht & Hid & Huri & _). split; [done|]. split; [|by exists i, a].
    rewrite (exchange_run _ _ _ _ _ _ _ _ _ _ _ i a) in H0 by done. rewrite store_token_room in H0. destruct (Nat.leb_spec OAUTH2_MAX_TOKENS (length (tokens srv))) as [Hfull|]; [|done].
    by rewrite (proj2 (Nat.leb_le _ _)) in H0 by exact Hfull.
  - intros (Hv & Hroom & i & a & Hf & Hi & Hu & Ht & Hid & Huri). rewrite (exchange_run _ _ _ _ _ _ _ _ _ _ _ i a) by done. rewrite store_token_room.
    by rewrite (proj2 (Nat.leb_gt _ _)) by exact Hroom.
Qed.
(** A token that was revoked is refused, and so is a refresh of its entry. *)
Theorem oauth2_revoke_correct srv t : (oauth2_revoke_token srv t).1 = 0 -> let srv' := (oauth2_revoke_token srv t).2 in
  (forall n m now, oauth2_validate_access_token srv' t n m now = (-2, None, None)) /\
  (forall i e r id secret n m now t1 t2 s, oauth2_find_access_token srv t = Some i -> tokens srv !! i = Some e -> oauth2_find_refresh_token srv' r = Some i ->
     r_code (oauth2_refresh_token srv' r id secret n m now t1 t2 s) = -1 \/ r_code (oauth2_refresh_token srv' r id secret n m now t1 t2 s) = -3).
Proof.
  unfold oauth2_revoke_token. destruct (oauth2_find_access_token srv t) as [i|] eqn:Hf; [|done]. cbn [fst snd]. intros _. apply find_idx_Some in Hf as Hf'.
  destruct Hf' as (e & Hi & Ht & Hm). set (srv' := srv <| tokens ::= alter _ i |>).
  assert (Htok : tokens srv' = <[i := e <| revoked := true |>]> (tokens srv)) by (unfold srv'; by apply (alter_insert _ _ e)). clearbody srv'.
  assert (Hi' : tokens srv' !! i = Some (e <| revoked := true |>)) by (rewrite Htok; apply list_lookup_insert_eq; by eapply lookup_lt_Some). split.
  - intros n m now. unfold oauth2_validate_access_token. replace (oauth2_find_access_token srv' t) with (Some i); [cbn; by rewrite Hi'|]. symmetry. apply find_idx_Some.
    eexists. split; [exact Hi'|]. split; [exact Ht|]. intros j b Hj Hlt. rewrite Htok, list_lookup_insert_ne in Hj by lia. by eapply Hm.
  - intros i' e' r id secret n m now t1 t2 s [= <-] _ Hr. unfold oauth2_refresh_token. destruct (negb _); [by left|]. rewrite Hr, Hi'. by right.
Qed.
(** A refresh that makes a new refresh token ends the old one, as long as the generator does
    not give it again and no other entry holds it. *)
Theorem oauth2_refresh_renews srv t id secret n m now t1 t2 s i e :
  oauth2_find_refresh_token srv t = Some i -> tokens srv !! i = Some e -> (forall j x, tokens srv !! j = Some x -> refresh_token x = t -> j = i) ->
  let r := oauth2_refresh_token srv t id secret n (Some m) now t1 t2 s in
  (oauth2_generate_random_hex OAUTH2_REFRESH_TOKEN_LEN (oauth2_generate_random_hex OAUTH2_ACCESS_TOKEN_LEN s).2).1 <> t ->
  r_code r = 0 -> oauth2_find_refresh_token (r_server r) t = None /\ exists e', tokens (r_server r) !! i = Some e' /\ t_client e' = id /\ t_username e' = t_username e /\ t_scope e' = t_scope e.
Proof.
  intros Hf Hi Huniq. cbv zeta. unfold oauth2_refresh_token. destruct (negb _); [done|]. rewrite Hf, Hi. destruct (revoked e); [done|]. destruct (_ <? _); [done|].
  case_bool_decide as Hid; [|done]. cbn [negb]. intros Hnew _. unfold r_server. cbn [fst snd]. set (e' := e <| _ := _ |> <| _ := _ |> <| _ := _ |> <| _ := _ |>). split.
  - apply find_idx_None. intros x [j Hj]%list_elem_of_lookup. apply bool_decide_eq_false. cbn in Hj. apply list_lookup_insert_Some in Hj as [(-> & <- & _)|(Hne & Hj)]; [exact Hnew|].
    intros Ht. by apply Hne, eq_sym, (Huniq j x).
  - exists e'. split; [cbn; apply list_lookup_insert_eq; by eapply lookup_lt_Some|]. done.
Qed.

(** ** Examples *)

Definition app_server : OAuth2Server := (oauth2_register_client oauth2_server_init (str_bytes "app") [] (str_bytes "https://app/cb") (str_bytes "read") 0 1000).2.
Definition app_code : Z * option (list Z) * OAuth2Server * Z :=
  oauth2_create_auth_code app_server (str_bytes "app") (str_bytes "https://app/cb") (str_bytes "ann") (str_bytes "read") (Some 64%nat) 1000 _oauth2_seed.
Definition first_code : list Z := default [] app_code.1.1.2.
Lemma oauth2_code_once_witness :
  let st := oauth2_run ((Exchange first_code (str_bytes "app") [] None, 1100) :: [(Revoke first_code, 1200)]) (app_code.1.2, app_code.2) in
  let k := r_code (oauth2_exchange_code_for_token st.1 first_code (str_bytes "app") [] None None None 1300 1300 1300 st.2) in k = -1 \/ k = -3.
Proof.
  refine (oauth2_code_once app_code.1.2 app_code.2 first_code (str_bytes "app") [] None 1100 [(Revoke first_code, 1200)] (str_bytes "app") [] None None None 1300 1300 1300 _ _).
  vm_compute. reflexivity.
Defined.
Definition confidential_ops : list (oauth2_op * Z) :=
  [(Register (str_bytes "bank") (str_bytes "s3cret") (str_bytes "https://bank/cb") (str_bytes "pay") 1, 1000);
   (Authorize (str_bytes "bank") (str_bytes "https://bank/cb") (str_bytes "ann") (str_bytes "pay"), 1001)].
Lemma oauth2_confidential_gets_no_token_witness :
  r_code (oauth2_exchange_code_for_token (oauth2_run confidential_ops (oauth2_server_init, _oauth2_seed)).1 first_code (str_bytes "bank") (str_bytes "s3cret") None None None 1002 1002 1002 5) <> 0.
Proof.
  refine (oauth2_confidential_gets_no_token confidential_ops _oauth2_seed first_code (str_bytes "bank") (str_bytes "s3cret") None None None 1002 1002 1002 5 0%nat
            (mk_client (str_bytes "bank") (str_bytes "s3cret") (str_bytes "https://bank/cb") (str_bytes "pay") 1 1000) _ _ _ _); by vm_compute.
Defined.

(** ** Behaviours found *)

(** The first code of every server is the same. *)
Example first_code_known : first_code = str_bytes "728b8bc365a43309cb875d5590f6a06cbc2fabbeedee22cb31b9a0ffb217469".
Proof. vm_compute. reflexivity. Qed.
(** A confidential client gets no code. *)
Example confidential_no_code : auth_codes (oauth2_run confidential_ops (oauth2_server_init, _oauth2_seed)).1 = [].
Proof. vm_compute. reflexivity. Qed.
(** The address need not be the one that was registered, and need not be given again. *)
Example any_redirect : let r := oauth2_create_auth_code app_server (str_bytes "app") (str_bytes "https://evil/cb") (str_bytes "ann") (str_bytes "admin") (Some 64%nat) 1000 _oauth2_seed in
  r_code (oauth2_exchange_code_for_token r.1.2 first_code (str_bytes "app") [] None None None 1001 1001 1001 r.2) = 0.
Proof. vm_compute. reflexivity. Qed.
(** A public client gets a token for itself without any proof. *)
Example public_client_grant : r_code (oauth2_client_credentials_grant app_server (str_bytes "app") (str_bytes "wrong") (Some (str_bytes "admin")) None 1000 1000 5) = 0.
Proof. vm_compute. reflexivity. Qed.
(** A code is spent by an exchange that finds no room for the token. *)
Theorem oauth2_full_spends srv c id secret uri n m t t1 t2 s i a :
  (OAUTH2_MAX_TOKENS <= length (tokens srv))%nat -> oauth2_validate_client srv id secret = true -> oauth2_find_auth_code srv c = Some i -> auth_codes srv !! i = Some a ->
  used a = false -> t <= expires_at a -> ac_client a = id -> (forall u, uri = Some u -> redirect_uri a = u) ->
  let r := oauth2_exchange_code_for_token srv c id secret uri n m t t1 t2 s in r_code r = -1 /\ auth_codes (r_server r) !! i = Some (a <| used := true |>).
Proof.
  intros Hfull Hv Hf Hi Hu Ht Hid Huri. cbv zeta. rewrite (exchange_run _ _ _ _ _ _ _ _ _ _ _ i a) by done. rewrite store_token_room, (proj2 (Nat.leb_le _ _)) by exact Hfull.
  split; [done|]. rewrite store_token_codes. cbn. apply list_lookup_insert_eq. by eapply lookup_lt_Some.
Qed.
