(* ===== verification/Sso.v ===== *)
(** Model of [mini-auth-security/src/sso_model.c]: service providers and the trust in them,
    users, sessions, tickets and assertions; and the theorems on it.

    Tables are lists, their length is the count; nothing is ever removed from them.  Texts
    are the bytes before their zero.  The seed of the generator is passed and returned; the
    readings of [time(NULL)] are arguments, in order.  A buffer for a result is given by its
    size, [None] is a NULL buffer; [sso_authenticate_user] prints into the buffer for the
    assertion without looking whether it is NULL, so there it is always given. *)

From S2P Require Import Prelude Bytes.

Definition SSO_MAX_SERVICE_PROVIDERS : nat := 64.
Definition SSO_MAX_SESSIONS : nat := Z.to_nat 1024.
#[global] Arguments SSO_MAX_SESSIONS : simpl never.
Definition SSO_MAX_TICKETS : nat := Z.to_nat 2048.
#[global] Arguments SSO_MAX_TICKETS : simpl never.
Definition SSO_MAX_USERS : nat := 512.
Definition SSO_MAX_URL_LEN : nat := 512.
Definition SSO_MAX_ENTITY_ID_LEN : nat := 256.
Definition SSO_MAX_CERT_LEN : nat := Z.to_nat 2048.
#[global] Arguments SSO_MAX_CERT_LEN : simpl never.
Definition SSO_MAX_SAML_ASSERTION_LEN : nat := Z.to_nat 8192.
#[global] Arguments SSO_MAX_SAML_ASSERTION_LEN : simpl never.
Definition SSO_MAX_TICKET_LEN : nat := 128.
Definition SSO_MAX_SESSION_ID_LEN : nat := 128.
Definition SSO_MAX_USERNAME_LEN : nat := 128.

Inductive SsoProtocol := SSO_PROTOCOL_SAML2 | SSO_PROTOCOL_OIDC | SSO_PROTOCOL_CAS.
Inductive SsoBinding := SSO_BINDING_REDIRECT | SSO_BINDING_POST | SSO_BINDING_ARTIFACT.
Record SsoServiceProvider := mk_sp {
  entity_id : list Z; acs_url : list Z; slo_url : list Z; cert_pem : list Z; protocol : SsoProtocol; preferred_binding : SsoBinding;
  want_authn_signed : bool; want_assertion_signed : bool; trusted : bool;
}.
(** The private key is never set. *)
Record SsoIdentityProvider := mk_idp { idp_entity_id : list Z; idp_sso_url : list Z; idp_slo_url : list Z; idp_cert_pem : list Z; idp_binding : SsoBinding }.
Record SsoTicket := mk_ticket {
  ticket : list Z; t_username : list Z; t_session : list Z; t_sp : list Z; assertion_xml : list Z; t_created_at : Z; t_expires_at : Z; consumed : bool; t_valid : bool;
}.
Record SsoSession := mk_session {
  session_id : list Z; s_username : list Z; s_idp : list Z; s_created_at : Z; s_expires_at : Z; last_accessed_at : Z; valid : bool;
}.
Record SsoUser := mk_user { username : list Z; email : list Z; display_name : list Z; u_created_at : Z }.
Record SsoModel := mk_model { idp : SsoIdentityProvider; sps : list SsoServiceProvider; tickets : list SsoTicket; sessions : list SsoSession; users : list SsoUser }.

(** ** Random text *)

Definition _sso_seed : Z := 0xBEEFCAFE.
Definition sso_xorshift32 (s : Z) : Z :=
  let s := Z.lxor s (u32 (Z.shiftl s 13)) in
  let s := Z.lxor s (Z.shiftr s 17) in
  Z.lxor s (u32 (Z.shiftl s 5)).
Fixpoint id_loop (n : nat) (s : Z) : list Z * Z :=
  match n with
  | O => ([], s)
  | S n' => let s := sso_xorshift32 s in let r := id_loop n' s in (nth (Z.to_nat (Z.land s 15)) (str_bytes "0123456789abcdef") 0 :: r.1, r.2)
  end.
Definition sso_generate_id (len : nat) (s : Z) : list Z * Z := id_loop (len - 1) s.

(** ** Providers and users *)

Definition sso_model_init : SsoModel := mk_model (mk_idp [] [] [] [] SSO_BINDING_REDIRECT) [] [] [] [].
Definition sso_idp_configure (m : SsoModel) (entity sso slo cert : list Z) (b : SsoBinding) : SsoModel :=
  m <| idp := mk_idp (truncated SSO_MAX_ENTITY_ID_LEN entity) (truncated SSO_MAX_URL_LEN sso) (truncated SSO_MAX_URL_LEN slo) (truncated SSO_MAX_CERT_LEN cert) b |>.
Definition sp_idx (m : SsoModel) (entity : list Z) : option nat := find_idx (fun p => bool_decide (entity_id p = entity)) (sps m).
Definition sso_register_sp (m : SsoModel) (entity acs slo cert : list Z) (p : SsoProtocol) (b : SsoBinding) : Z * SsoModel :=
  if (SSO_MAX_SERVICE_PROVIDERS <=? length (sps m))%nat then (-1, m)
  else
    match sp_idx m entity with
    | Some _ => (-2, m)
    | None =>
        let sp := mk_sp (truncated SSO_MAX_ENTITY_ID_LEN entity) (truncated SSO_MAX_URL_LEN acs) (truncated SSO_MAX_URL_LEN slo) (truncated SSO_MAX_CERT_LEN cert)
                    p b true true false in
        (0, m <| sps ::= fun l => l ++ [sp] |>)
    end.
Definition sso_establish_trust (m : SsoModel) (entity : list Z) : Z * SsoModel :=
  match sp_idx m entity with Some i => (0, m <| sps ::= alter (fun p => p <| trusted := true |>) i |>) | None => (-1, m) end.
Definition user_idx (m : SsoModel) (name : list Z) : option nat := find_idx (fun u => bool_decide (username u = name)) (users m).
Definition sso_create_user (m : SsoModel) (name mail display : list Z) (now : Z) : Z * SsoModel :=
  if (SSO_MAX_USERS <=? length (users m))%nat then (-1, m)
  else
    match user_idx m name with
    | Some _ => (-2, m)
    | None => (0, m <| users ::= fun l => l ++ [mk_user (truncated SSO_MAX_USERNAME_LEN name) (truncated SSO_MAX_USERNAME_LEN mail) (truncated SSO_MAX_USERNAME_LEN display) now] |>)
    end.
Definition sso_find_user (m : SsoModel) (name : list Z) : option SsoUser := user_idx m name ≫= (users m !!.).
Definition sso_is_sp_trusted (m : SsoModel) (entity : list Z) : bool := from_option trusted false (sp_idx m entity ≫= (sps m !!.)).

(** ** Assertions, sessions and tickets *)

Definition nl : list Z := [10].
Definition dq (v : list Z) : list Z := [34] ++ v ++ [34].
Definition element (tag : string) (v : list Z) : list Z := str_bytes "<saml:" ++ str_bytes tag ++ str_bytes ">" ++ v ++ str_bytes "</saml:" ++ str_bytes tag ++ str_bytes ">".
Definition assertion_text (m : SsoModel) (name entity : list Z) (now id : Z) : list Z :=
  let now_str := print_lld now in
  str_bytes "<?xml version=" ++ dq (str_bytes "1.0") ++ str_bytes " encoding=" ++ dq (str_bytes "UTF-8") ++ str_bytes "?>" ++ nl ++
  str_bytes "<saml:Assertion xmlns:saml=" ++ dq (str_bytes "urn:oasis:names:tc:SAML:2.0:assertion") ++ str_bytes " ID=" ++ dq (str_bytes "_" ++ print_hex 8 id) ++
  str_bytes " IssueInstant=" ++ dq now_str ++ str_bytes " Version=" ++ dq (str_bytes "2.0") ++ str_bytes ">" ++ nl ++
  str_bytes "  " ++ element "Issuer" (idp_entity_id (idp m)) ++ nl ++
  str_bytes "  <saml:Subject>" ++ nl ++ str_bytes "    " ++ element "NameID" name ++ nl ++ str_bytes "  </saml:Subject>" ++ nl ++
  str_bytes "  <saml:Conditions NotBefore=" ++ dq now_str ++ str_bytes " NotOnOrAfter=" ++ dq (print_lld (now + 300)) ++ str_bytes ">" ++ nl ++
  str_bytes "    <saml:AudienceRestriction>" ++ nl ++ str_bytes "      " ++ element "Audience" entity ++ nl ++ str_bytes "    </saml:AudienceRestriction>" ++ nl ++
  str_bytes "  </saml:Conditions>" ++ nl ++ str_bytes "  <saml:AuthnStatement AuthnInstant=" ++ dq now_str ++ str_bytes ">" ++ nl ++ str_bytes "    <saml:AuthnContext>" ++ nl ++
  str_bytes "      " ++ element "AuthnContextClassRef" (str_bytes "urn:oasis:names:tc:SAML:2.0:ac:classes:Password") ++ nl ++
  str_bytes "    </saml:AuthnContext>" ++ nl ++ str_bytes "  </saml:AuthnStatement>" ++ nl ++ str_bytes "</saml:Assertion>".
(** What the buffer of [as_size] bytes holds, and the seed. *)
Definition sso_generate_saml_assertion (m : SsoModel) (name entity : list Z) (as_size : nat) (now s : Z) : list Z * Z :=
  let s := sso_xorshift32 s in (truncated as_size (assertion_text m name entity now s), s).
(** What is copied to a buffer for a result. *)
Definition given (size : option nat) (v : list Z) : option (list Z) := match size with Some (S _ as n) => Some (truncated n v) | _ => None end.
Definition no_text : option (list Z) * option (list Z) := (None, None).
(** The texts: the session's identifier, the assertion. *)
Definition sso_authenticate_user (m : SsoModel) (name entity : list Z) (sid_size : option nat) (as_size : nat) (now1 now2 now3 now4 s : Z)
    : Z * (option (list Z) * option (list Z)) * SsoModel * Z :=
  if negb (sso_is_sp_trusted m entity) then (-1, no_text, m, s)
  else
    match sso_find_user m name with
    | None => (-2, no_text, m, s)
    | Some _ =>
        if (SSO_MAX_SESSIONS <=? length (sessions m))%nat then (-3, no_text, m, s)
        else
          let r := sso_generate_id SSO_MAX_SESSION_ID_LEN s in
          let x := mk_session r.1 (truncated SSO_MAX_USERNAME_LEN name) (truncated SSO_MAX_ENTITY_ID_LEN (idp_entity_id (idp m))) now1 (now2 + 3600) now3 true in
          let m := m <| sessions ::= fun l => l ++ [x] |> in
          let a := sso_generate_saml_assertion m name entity as_size now4 r.2 in
          (0, (given sid_size r.1, Some a.1), m, a.2)
    end.
Definition sso_create_ticket (m : SsoModel) (name entity sid : list Z) (t_size : option nat) (now1 now2 now3 s : Z) : Z * option (list Z) * SsoModel * Z :=
  if negb (sso_is_sp_trusted m entity) then (-1, None, m, s)
  else if (SSO_MAX_TICKETS <=? length (tickets m))%nat then (-2, None, m, s)
  else
    let r := sso_generate_id SSO_MAX_TICKET_LEN s in
    let a := sso_generate_saml_assertion m name entity SSO_MAX_SAML_ASSERTION_LEN now3 r.2 in
    let t := mk_ticket r.1 (truncated SSO_MAX_USERNAME_LEN name) (truncated SSO_MAX_SESSION_ID_LEN sid) (truncated SSO_MAX_ENTITY_ID_LEN entity) a.1 now1 (now2 + 300) false true in
    (0, given t_size r.1, m <| tickets ::= fun l => l ++ [t] |>, a.2).
Definition ticket_idx (m : SsoModel) (t : list Z) : option nat := find_idx (fun x => bool_decide (ticket x = t)) (tickets m).
Definition put_ticket (m : SsoModel) (i : nat) (x : SsoTicket) : SsoModel := m <| tickets ::= <[i := x]> |>.
(** [entity]: [None] is NULL.  The texts: the name, the assertion. *)
Definition sso_validate_ticket (m : SsoModel) (t : list Z) (entity : option (list Z)) (u_size as_size : option nat) (now : Z)
    : Z * (option (list Z) * option (list Z)) * SsoModel :=
  match ticket_idx m t with
  | None => (-5, no_text, m)
  | Some i =>
      match tickets m !! i with
      | None => (-5, no_text, m)
      | Some x =>
          if negb (t_valid x) then (-1, no_text, m)
          else if consumed x then (-2, no_text, m)
          else if t_expires_at x <? now then (-3, no_text, m)
          else if match entity with Some e => negb (bool_decide (t_sp x = e)) | None => false end then (-4, no_text, m)
          else (0, (given u_size (t_username x), given as_size (assertion_xml x)), put_ticket m i (x <| consumed := true |>))
      end
  end.
Definition session_idx (m : SsoModel) (sid : list Z) : option nat := find_idx (fun x => bool_decide (session_id x = sid)) (sessions m).
Definition put_session (m : SsoModel) (i : nat) (x : SsoSession) : SsoModel := m <| sessions ::= <[i := x]> |>.
Definition sso_validate_session (m : SsoModel) (sid : list Z) (u_size : option nat) (now1 now2 : Z) : Z * option (list Z) * SsoModel :=
  match session_idx m sid with
  | None => (-3, None, m)
  | Some i =>
      match sessions m !! i with
      | None => (-3, None, m)
      | Some x =>
          if negb (valid x) then (-1, None, m)
          else if s_expires_at x <? now1 then (-2, None, put_session m i (x <| valid := false |>))
          else (0, given u_size (s_username x), put_session m i (x <| last_accessed_at := now2 |>))
      end
  end.
Definition sso_logout (m : SsoModel) (sid : list Z) : Z * SsoModel :=
  match session_idx m sid with Some i => (0, m <| sessions ::= alter (fun x => x <| valid := false |>) i |>) | None => (-1, m) end.
(** What is printed. *)
Definition bracketed (i : nat) (v : list Z) : list Z := str_bytes "  [" ++ print_lld (Z.of_nat i) ++ str_bytes "] " ++ v ++ [10].
Definition count_line (name : string) (n : nat) : list Z := str_bytes name ++ print_lld (Z.of_nat n) ++ [10].
Definition flag (b : bool) : list Z := print_lld (c_bool b).
Definition sso_dump_state (m : SsoModel) : list Z :=
  str_bytes "=== SSO Model State ===" ++ nl ++ str_bytes "IDP: " ++ idp_entity_id (idp m) ++ nl ++ count_line "Service Providers: " (length (sps m)) ++
  concat (imap (fun i p => bracketed i (entity_id p ++ str_bytes " trusted=" ++ flag (trusted p))) (sps m)) ++ count_line "Users: " (length (users m)) ++
  concat (imap (fun i u => bracketed i (username u ++ str_bytes " <" ++ email u ++ str_bytes ">")) (users m)) ++ count_line "Sessions: " (length (sessions m)) ++
  concat (imap (fun i x => bracketed i (session_id x ++ str_bytes " user=" ++ s_username x ++ str_bytes " valid=" ++ flag (valid x))) (sessions m)) ++
  count_line "Tickets: " (length (tickets m)) ++
  concat (imap (fun i x => bracketed i (ticket x ++ str_bytes " user=" ++ t_username x ++ str_bytes " consumed=" ++ flag (consumed x))) (tickets m)).

(** ** Histories *)

Inductive sso_op :=
  | Configure (entity sso slo cert : list Z) (b : SsoBinding) | RegisterSp (entity acs slo cert : list Z) (p : SsoProtocol) (b : SsoBinding) | Trust (entity : list Z)
  | CreateUser (name mail display : list Z) | Authenticate (name entity : list Z) | CreateTicket (name entity sid : list Z) | ValidateTicket (t : list Z) (entity : option (list Z))
  | ValidateSession (sid : list Z) | Logout (sid : list Z).
Definition sso_step (op : sso_op) (now : Z) (st : SsoModel * Z) : SsoModel * Z :=
  let '(m, s) := st in
  match op with
  | Configure entity sso slo cert b => (sso_idp_configure m entity sso slo cert b, s)
  | RegisterSp entity acs slo cert p b => ((sso_register_sp m entity acs slo cert p b).2, s)
  | Trust entity => ((sso_establish_trust m entity).2, s)
  | CreateUser name mail display => ((sso_create_user m name mail display now).2, s)
  | Authenticate name entity => let r := sso_authenticate_user m name entity (Some 128%nat) SSO_MAX_SAML_ASSERTION_LEN now now now now s in (r.1.2, r.2)
  | CreateTicket name entity sid => let r := sso_create_ticket m name entity sid (Some 128%nat) now now now s in (r.1.2, r.2)
  | ValidateTicket t entity => ((sso_validate_ticket m t entity None None now).2, s)
  | ValidateSession sid => ((sso_validate_session m sid None now now).2, s)
  | Logout sid => ((sso_logout m sid).2, s)
  end.
Definition sso_run (ops : list (sso_op * Z)) (st : SsoModel * Z) : SsoModel * Z := foldl (fun st o => sso_step o.1 o.2 st) st ops.

(** ** Tickets are good once, sessions that are over stay over *)

(** A ticket keeps its text, for whom and where it is good, and stays consumed. *)
Definition ticket_le (x y : SsoTicket) : Prop := exists c, y = x <| consumed := c |> /\ (consumed x = true -> c = true).
#[export] Instance ticket_le_refl : Reflexive ticket_le.
Proof. intros x. exists (consumed x). by destruct x. Qed.
#[export] Instance ticket_le_trans : Transitive ticket_le.
Proof. intros x y z (c & -> & Hc) (d & -> & Hd). exists d. split; [done|]. intros Hx. by apply Hd, Hc. Qed.
(** A session keeps its identifier and name, and stays invalid. *)
Definition session_le (x y : SsoSession) : Prop := session_id y = session_id x /\ s_username y = s_username x /\ (valid x = false -> valid y = false).
#[export] Instance session_le_refl : Reflexive session_le.
Proof. by intros x. Qed.
#[export] Instance session_le_trans : Transitive session_le.
Proof. intros x y z (H1 & H2 & H3) (H4 & H5 & H6). split; [congruence|]. split; [congruence|auto]. Qed.
(** A provider keeps its name and the trust in it. *)
Definition sp_le (x y : SsoServiceProvider) : Prop := entity_id y = entity_id x /\ (trusted x = true -> trusted y = true).
#[export] Instance sp_le_refl : Reflexive sp_le.
Proof. by intros x. Qed.
#[export] Instance sp_le_trans : Transitive sp_le.
Proof. intros x y z (H1 & H2) (H3 & H4). split; [congruence|auto]. Qed.
Record model_le (m m' : SsoModel) : Prop := {
  le_tickets : grows ticket_le (tickets m) (tickets m');
  le_sessions : grows session_le (sessions m) (sessions m');
  le_sps : grows sp_le (sps m) (sps m');
  le_users : grows eq (users m) (users m');
}.
#[export] Instance model_le_refl : Reflexive model_le.
Proof. intros m. by split. Qed.
#[export] Instance model_le_trans : Transitive model_le.
Proof. intros m1 m2 m3 [] []. split; by etransitivity. Qed.
Lemma step_le op now st : model_le st.1 (sso_step op now st).1.
Proof.
  destruct st as [m s]. destruct op; cbn [sso_step fst].
  - by split.
  - unfold sso_register_sp. destruct (_ <=? _)%nat; [done|]. destruct (sp_idx m entity); [done|]. split; try done. by apply grows_app.
  - unfold sso_establish_trust. destruct (sp_idx m entity); [|done]. split; try done. apply grows_alter; [apply _|]. by intros x.
  - unfold sso_create_user. destruct (_ <=? _)%nat; [done|]. destruct (user_idx m name); [done|]. split; try done. apply grows_app, _.
  - unfold sso_authenticate_user. destruct (negb _); [done|]. destruct (sso_find_user m name); [|done]. destruct (_ <=? _)%nat; [done|]. split; try done. by apply grows_app.
  - unfold sso_create_ticket. destruct (negb _); [done|]. destruct (_ <=? _)%nat; [done|]. split; try done. apply grows_app, _.
  - unfold sso_validate_ticket. destruct (ticket_idx m t) as [i|]; [|done]. destruct (tickets m !! i) as [x|] eqn:Hi; [|done]. destruct (negb (t_valid x)); [done|].
    destruct (consumed x) eqn:Hc; [done|]. destruct (_ <? _); [done|]. match goal with |- context [if ?b then (-4, _, _) else _] => destruct b end; [done|].
    split; try done. cbn. eapply grows_insert; [apply _|done|]. by exists true.
  - unfold sso_validate_session. destruct (session_idx m sid) as [i|]; [|done]. destruct (sessions m !! i) as [x|] eqn:Hi; [|done]. destruct (valid x) eqn:Hv; [|done]. cbn [negb].
    destruct (_ <? _); (split; try done; cbn; eapply grows_insert; [apply _|done|by split]).
  - unfold sso_logout. destruct (session_idx m sid) as [i|]; [|done]. split; try done. apply grows_alter; [apply _|]. by intros x.
Qed.
Lemma run_le ops st : model_le st.1 (sso_run ops st).1.
Proof. revert st. induction ops as [|[op now] ops IH]; intros st; [done|]. etransitivity; [apply step_le|apply IH]. Qed.
Lemma ticket_idx_le m m' t i : model_le m m' -> ticket_idx m t = Some i -> ticket_idx m' t = Some i.
Proof. intros [Ht _ _ _]. apply (grows_find ticket_le); [|done]. by intros x y (c & -> & _). Qed.
Lemma session_idx_le m m' sid i : model_le m m' -> session_idx m sid = Some i -> session_idx m' sid = Some i.
Proof. intros [_ Hs _ _]. apply (grows_find session_le); [|done]. intros x y (H & _). by rewrite H. Qed.
Lemma trusted_le m m' e : model_le m m' -> sso_is_sp_trusted m e = true -> sso_is_sp_trusted m' e = true.
Proof.
  intros [_ _ Hs _]. unfold sso_is_sp_trusted, sp_idx. destruct (find_idx _ (sps m)) as [i|] eqn:Hi; [|done]. cbn. destruct (sps m !! i) as [x|] eqn:Hx; [|done]. cbn. intros Ht.
  rewrite (grows_find sp_le (fun p => bool_decide (entity_id p = e)) _ _ _ ltac:(intros ? ? (H & _); by rewrite H) Hs Hi). destruct (Hs _ _ Hx) as (y & Hy & _ & Hty). cbn. rewrite Hy. by apply Hty.
Qed.
Lemma user_le m m' n : model_le m m' -> is_Some (sso_find_user m n) -> is_Some (sso_find_user m' n).
Proof.
  intros [_ _ _ Hu]. unfold sso_find_user, user_idx. destruct (find_idx _ (users m)) as [i|] eqn:Hi; [|by intros []]. cbn. intros [x Hx].
  rewrite (grows_find eq (fun u => bool_decide (username u = n)) _ _ _ ltac:(by intros ? ? ->) Hu Hi). destruct (Hu _ _ Hx) as (y & Hy & _). by exists y.
Qed.
(** A ticket that was validated is never validated again, whatever happens in between,
    whoever asks, and even if the generator gives the same text again. *)
Theorem sso_ticket_once m s t entity now ops entity' u_size as_size now' :
  (sso_validate_ticket m t entity None None now).1.1 = 0 ->
  let m' := (sso_run ((ValidateTicket t entity, now) :: ops) (m, s)).1 in (sso_validate_ticket m' t entity' u_size as_size now').1.1 = -2.
Proof.
  intros H0. cbv zeta. set (m1 := (sso_validate_ticket m t entity None None now).2).
  assert (H1 : exists i x, ticket_idx m1 t = Some i /\ tickets m1 !! i = Some x /\ consumed x = true /\ t_valid x = true).
  { unfold m1. pose proof (step_le (ValidateTicket t entity) now (m, s)) as Hle. cbn [sso_step fst] in Hle. revert H0 Hle. unfold sso_validate_ticket. destruct (ticket_idx m t) as [i|] eqn:Hi; [|done].
    destruct (tickets m !! i) as [x|] eqn:Hx; [|done]. destruct (t_valid x) eqn:Hv; [|done]. cbn [negb]. destruct (consumed x) eqn:Hc; [done|]. destruct (_ <? _); [done|].
    match goal with |- context [if ?b then (-4, _, _) else _] => destruct b end; [done|]. intros _ Hle. exists i, (x <| consumed := true |>).
    split; [by apply (ticket_idx_le m)|]. split; [cbn; apply list_lookup_insert_eq; by eapply lookup_lt_Some|done]. }
  change (sso_run ((ValidateTicket t entity, now) :: ops) (m, s)) with (sso_run ops (m1, s)). pose proof (run_le ops (m1, s)) as Hle. cbn [fst] in Hle.
  destruct H1 as (i & x & Hi & Hx & Hc & Hv). unfold sso_validate_ticket. rewrite (ticket_idx_le _ _ _ _ Hle Hi). destruct (le_tickets _ _ Hle _ _ Hx) as (y & -> & c & -> & Hyc).
  cbn [t_valid consumed set]. change (t_valid (x <| consumed := c |>)) with (t_valid x). change (consumed (x <| consumed := c |>)) with c. by rewrite Hv, (Hyc Hc).
Qed.
(** A session that was logged out is never accepted again, whatever happens. *)
Theorem sso_logout_ends m sid ops s u_size now1 now2 : (sso_logout m sid).1 = 0 ->
  (sso_validate_session (sso_run ops ((sso_logout m sid).2, s)).1 sid u_size now1 now2).1.1 = -1.
Proof.
  intros H0. assert (H1 : exists i x, session_idx (sso_logout m sid).2 sid = Some i /\ sessions (sso_logout m sid).2 !! i = Some x /\ valid x = false).
  { pose proof (step_le (Logout sid) 0 (m, s)) as Hle. cbn [sso_step fst] in Hle. revert H0 Hle. unfold sso_logout. destruct (session_idx m sid) as [i|] eqn:Hi; [|done]. intros _ Hle.
    pose proof Hi as (x & Hx & _)%find_idx_Some. exists i, (x <| valid := false |>). split; [by apply (session_idx_le m)|]. split; [|done]. cbn. by rewrite list_lookup_alter_eq, Hx. }
  set (m1 := (sso_logout m sid).2) in *. clearbody m1. destruct H1 as (i & x & Hi & Hx & Hv). pose proof (run_le ops (m1, s)) as Hle. cbn [fst] in Hle.
  unfold sso_validate_session. rewrite (session_idx_le _ _ _ _ Hle Hi). destruct (le_sessions _ _ Hle _ _ Hx) as (y & -> & _ & _ & Hy). by rewrite (Hy Hv).
Qed.

(** ** Who gets a session or a ticket *)

Record sso_inv (m : SsoModel) : Prop := {
  inv_sp_ids : Forall (fun p => truncated SSO_MAX_ENTITY_ID_LEN (entity_id p) = entity_id p) (sps m);
  inv_names : Forall (fun u => truncated SSO_MAX_USERNAME_LEN (username u) = username u) (users m);
  inv_tickets : Forall (fun x => sso_is_sp_trusted m (t_sp x) = true) (tickets m);
  inv_sessions : Forall (fun x => is_Some (sso_find_user m (s_username x))) (sessions m);
}.
Lemma trusted_id m e : sso_inv m -> sso_is_sp_trusted m e = true -> truncated SSO_MAX_ENTITY_ID_LEN e = e.
Proof.
  intros [Hids _ _ _]. unfold sso_is_sp_trusted, sp_idx. destruct (find_idx _ _) as [i|] eqn:Hi; [|done]. intros _. apply find_idx_Some in Hi as (p & Hp & <-%bool_decide_eq_true & _).
  by apply (Forall_lookup_1 _ _ _ _ Hids Hp).
Qed.
Lemma known_id m n : sso_inv m -> is_Some (sso_find_user m n) -> truncated SSO_MAX_USERNAME_LEN n = n.
Proof.
  intros [_ Hids _ _]. unfold sso_find_user, user_idx. destruct (find_idx _ _) as [i|] eqn:Hi; [|by intros []]. intros _. apply find_idx_Some in Hi as (p & Hp & <-%bool_decide_eq_true & _).
  by apply (Forall_lookup_1 _ _ _ _ Hids Hp).
Qed.
(** What was true of tickets and sessions stays true in a later model. *)
Lemma inv_later m m' l : model_le m m' -> Forall (fun x => sso_is_sp_trusted m (t_sp x) = true) l -> Forall (fun x => sso_is_sp_trusted m' (t_sp x) = true) l.
Proof. intros Hle H. eapply Forall_impl; [exact H|]. intros x. by apply trusted_le. Qed.
Lemma inv_later_sessions m m' l : model_le m m' -> Forall (fun x => is_Some (sso_find_user m (s_username x))) l -> Forall (fun x => is_Some (sso_find_user m' (s_username x))) l.
Proof. intros Hle H. eapply Forall_impl; [exact H|]. intros x. by apply user_le. Qed.
Lemma Forall_put {A} (P : A -> Prop) l i x : Forall P l -> P x -> Forall P (<[i := x]> l).
Proof. intros Hl Hx. apply Forall_lookup_2. intros j y [(_ & <- & _)|(_ & Hj)]%list_lookup_insert_Some; [done|by eapply Forall_lookup_1]. Qed.
Lemma Forall_change {A} (P : A -> Prop) l i f : Forall P l -> (forall x, P x -> P (f x)) -> Forall P (alter f i l).
Proof. intros Hl Hf. apply Forall_alter; [done|]. intros x _. apply Hf. Qed.
Lemma step_sso_inv op now st : sso_inv st.1 -> sso_inv (sso_step op now st).1.
Proof.
  intros Hinv. pose proof (step_le op now st) as Hle. destruct st as [m s]. cbn [fst] in *.
  pose proof (inv_later _ _ _ Hle (inv_tickets _ Hinv)) as Ht. pose proof (inv_later_sessions _ _ _ Hle (inv_sessions _ Hinv)) as Hs. pose proof Hinv as [Hids Hnames _ _].
  destruct op; cbn [sso_step fst] in *.
  - by split.
  - unfold sso_register_sp in *. destruct (_ <=? _)%nat; [done|]. destruct (sp_idx m entity); [done|]. split; try done. refine (proj2 (Forall_app _ (sps m) [_]) (conj Hids _)). apply Forall_singleton. exact (truncated_truncated _ entity).
  - unfold sso_establish_trust in *. destruct (sp_idx m entity); [|done]. split; try done. by apply Forall_change.
  - unfold sso_create_user in *. destruct (_ <=? _)%nat; [done|]. destruct (user_idx m name); [done|]. split; try done. refine (proj2 (Forall_app _ (users m) [_]) (conj Hnames _)). apply Forall_singleton. exact (truncated_truncated _ name).
  - unfold sso_authenticate_user in *. destruct (negb _); [done|]. destruct (sso_find_user m name) as [u|] eqn:Hu; [|done]. destruct (_ <=? _)%nat; [done|]. split; try done. refine (proj2 (Forall_app _ (sessions m) [_]) (conj Hs _)).
    apply Forall_singleton. cbn [s_username]. assert (Hk : is_Some (sso_find_user m name)) by (by exists u).
    rewrite (known_id m) by done. exact (user_le _ _ _ Hle Hk).
  - unfold sso_create_ticket in *. destruct (sso_is_sp_trusted m entity) eqn:He; [|done]. cbn [negb] in *. destruct (_ <=? _)%nat; [done|]. split; try done. refine (proj2 (Forall_app _ (tickets m) [_]) (conj Ht _)).
    apply Forall_singleton. cbn [t_sp]. rewrite (trusted_id m) by done. exact (trusted_le _ _ _ Hle He).
  - unfold sso_validate_ticket in *. destruct (ticket_idx m t) as [i|]; [|done]. destruct (tickets m !! i) as [x|] eqn:Hi; [|done]. destruct (negb (t_valid x)); [done|].
    destruct (consumed x); [done|]. destruct (_ <? _); [done|]. match goal with |- context [if ?b then (-4, _, _) else _] => destruct b end; [done|].
    split; try done. apply Forall_put; [done|]. exact (Forall_lookup_1 _ _ _ _ Ht Hi).
  - unfold sso_validate_session in *. destruct (session_idx m sid) as [i|]; [|done]. destruct (sessions m !! i) as [x|] eqn:Hi; [|done]. destruct (valid x); [|done]. cbn [negb] in *.
    destruct (_ <? _); (split; try done; apply Forall_put; [done|exact (Forall_lookup_1 _ _ _ _ Hs Hi)]).
  - unfold sso_logout in *. destruct (session_idx m sid) as [i|]; [|done]. split; try done. by apply Forall_change.
Qed.
Lemma run_sso_inv ops st : sso_inv st.1 -> sso_inv (sso_run ops st).1.
Proof. revert st. induction ops as [|[op now] ops IH]; intros st H; [done|]. by apply (IH (sso_step op now st)), step_sso_inv. Qed.
Lemma init_sso_inv : sso_inv sso_model_init.
Proof. split; constructor. Qed.
(** Whatever happened, a ticket is accepted only at a provider that is trusted, and a
    session only names a user that was created. *)
Theorem sso_accepted_known ops s : let m := (sso_run ops (sso_model_init, s)).1 in
  (forall t e n k now, (sso_validate_ticket m t (Some e) n k now).1.1 = 0 -> sso_is_sp_trusted m e = true) /\
  (forall sid k now1 now2, (sso_validate_session m sid (Some (S k)) now1 now2).1.1 = 0 ->
     exists x, is_Some (sso_find_user m (s_username x)) /\ (sso_validate_session m sid (Some (S k)) now1 now2).1.2 = Some (truncated (S k) (s_username x))).
Proof.
  intros m. pose proof (run_sso_inv ops (sso_model_init, s) init_sso_inv : sso_inv m) as [_ _ Ht Hs]. clearbody m. split.
  - intros t e n k now. unfold sso_validate_ticket. destruct (ticket_idx m t) as [i|]; [|done]. destruct (tickets m !! i) as [x|] eqn:Hi; [|done]. destruct (negb _); [done|].
    destruct (consumed x); [done|]. destruct (_ <? _); [done|]. case_bool_decide as He; [|done]. intros _. rewrite <- He. exact (Forall_lookup_1 _ _ _ _ Ht Hi).
  - intros sid k now1 now2. unfold sso_validate_session. destruct (session_idx m sid) as [i|]; [|done]. destruct (sessions m !! i) as [x|] eqn:Hi; [|done]. destruct (negb _); [done|].
    destruct (_ <? _); [done|]. intros _. exists x. split; [exact (Forall_lookup_1 _ _ _ _ Hs Hi)|done].
Qed.

(** ** Examples *)

Definition demo_ops : list (sso_op * Z) :=
  [(Configure (str_bytes "https://idp") [] [] [] SSO_BINDING_POST, 1000); (RegisterSp (str_bytes "https://app") [] [] [] SSO_PROTOCOL_SAML2 SSO_BINDING_POST, 1000);
   (Trust (str_bytes "https://app"), 1000); (CreateUser (str_bytes "ann") [] [], 1000)].
Definition demo : SsoModel := (sso_run demo_ops (sso_model_init, _sso_seed)).1.
Definition demo_session : Z * (option (list Z) * option (list Z)) * SsoModel * Z :=
  sso_authenticate_user demo (str_bytes "ann") (str_bytes "https://app") (Some 128%nat) 64 1000 1000 1000 1000 _sso_seed.
Definition demo_ticket : Z * option (list Z) * SsoModel * Z := sso_create_ticket demo (str_bytes "ann") (str_bytes "https://app") [] (Some 128%nat) 1000 1000 1000 _sso_seed.
Lemma sso_ticket_once_witness : let t := default [] demo_ticket.1.1.2 in
  (sso_validate_ticket (sso_run [(ValidateTicket t None, 1001); (Logout t, 1002)] (demo_ticket.1.2, 5)).1 t None None None 1003).1.1 = -2.
Proof. refine (sso_ticket_once demo_ticket.1.2 5 (default [] demo_ticket.1.1.2) None 1001 [(Logout (default [] demo_ticket.1.1.2), 1002)] None None None 1003 _). vm_compute. reflexivity. Defined.
Lemma sso_logout_ends_witness : let sid := default [] demo_session.1.1.2.1 in
  (sso_validate_session (sso_run [(ValidateSession sid, 1001)] ((sso_logout demo_session.1.2 sid).2, 5)).1 sid None 1002 1002).1.1 = -1.
Proof. refine (sso_logout_ends demo_session.1.2 (default [] demo_session.1.1.2.1) [(ValidateSession (default [] demo_session.1.1.2.1), 1001)] 5 None 1002 1002 _). vm_compute. reflexivity. Defined.

(** ** Behaviours found *)

(** A session is made from the name alone. *)
Example no_credential : demo_session.1.1.1 = 0.
Proof. vm_compute. reflexivity. Qed.
(** A ticket can name a user and a session that do not exist, and outlives the session. *)
Example ticket_for_nobody : let r := sso_create_ticket demo (str_bytes "nobody") (str_bytes "https://app") (str_bytes "none") (Some 128%nat) 1000 1000 1000 _sso_seed in
  (sso_validate_ticket r.1.2 (default [] r.1.1.2) None (Some 128%nat) None 1001).1 = (0, (Some (str_bytes "nobody"), None)).
Proof. vm_compute. reflexivity. Qed.
(** A name is not escaped: it can close its element and add others. *)
Example assertion_injected : let name := str_bytes "ann</saml:NameID><saml:NameID>root" in
  is_Some (strstr_after (str_bytes "<saml:NameID>ann</saml:NameID><saml:NameID>root</saml:NameID>") (sso_generate_saml_assertion demo name (str_bytes "https://app") SSO_MAX_SAML_ASSERTION_LEN 1000 5).1).
Proof. vm_compute. by eexists. Qed.
