(* ===== verification/AuthRateLimiter.v ===== *)
(** Model of [mini-auth-security/src/rate_limiter.c]: limits by key and scope with three
    algorithms, and the counter that stands for a shared store; and the theorems on it.

    Quantities of tokens are C doubles, over any [Arith].  The state of an entry is a union:
    [None] is the result of reading another member than the one written, which happens when
    a key is checked with another algorithm than the one it was created with.  The readings
    of [time(NULL)] are arguments, in order. *)

From Stdlib Require Import QArith Lqa.
From S2P Require Import Prelude Bytes Arith.
#[local] Open Scope Z_scope.

Definition RATE_MAX_BUCKETS : nat := Z.to_nat 4096.
#[global] Arguments RATE_MAX_BUCKETS : simpl never.
Definition RATE_MAX_KEY_LEN : nat := 128.
Inductive RateAlgo := RATE_ALGO_FIXED_WINDOW | RATE_ALGO_SLIDING_WINDOW | RATE_ALGO_TOKEN_BUCKET.
Inductive RateScope := RATE_SCOPE_USER | RATE_SCOPE_IP | RATE_SCOPE_API | RATE_SCOPE_GLOBAL.
#[export] Instance scope_eq_dec : EqDecision RateScope.
Proof. solve_decision. Defined.
Record FixedWindowEntry := mk_fixed { window_start : Z; counter : Z }.
Record SlidingWindowEntry := mk_sliding { timestamps : list Z; head : nat; count : nat }.
Record RateLimitResult := mk_result { allowed : bool; r_limit : Z; remaining : Z; reset_seconds : Z; reset_time : Z }.

Section limiter.
Context {D : Type} `{HA : Arith D}.

Record TokenBucketEntry := mk_bucket { tokens : D; max_tokens : D; refill_rate : D; last_refill : Z }.
Inductive entry_state := Fixed (w : FixedWindowEntry) | Sliding (w : SlidingWindowEntry) | Bucket (b : TokenBucketEntry).
Record RateLimitEntry := mk_entry { key : list Z; scope : RateScope; algorithm : RateAlgo; state : entry_state; limit : Z; window_seconds : Z; created_at : Z }.
Record RateLimiter := mk_limiter { entries : list RateLimitEntry; default_limit : Z; default_window_seconds : Z }.

(** ** The algorithms *)

Definition rate_limiter_init (limit window : Z) : RateLimiter := mk_limiter [] limit window.
Definition rate_check_fixed_window (lim win : Z) (w : FixedWindowEntry) (now : Z) : RateLimitResult * FixedWindowEntry :=
  let w := if window_start w + win <=? now then mk_fixed now 0 else w in
  let ok := counter w <? lim in
  let reset := window_start w + win in
  (mk_result ok lim (if ok then lim - counter w - 1 else 0) (u32 (reset - now)) reset, if ok then w <| counter ::= fun n => n + 1 |> else w).
(** The slots looked at: from [head + count - 1] downwards. *)
Definition slots (w : SlidingWindowEntry) : list nat := (fun i => (head w + count w - 1 - i) mod 256)%nat <$> seq 0 (count w).
Definition keep_count (w : SlidingWindowEntry) (cutoff : Z) : nat := count_if (fun i => cutoff <=? nth i (timestamps w) 0) (slots w).
Definition rate_check_sliding_window (lim win : Z) (w : SlidingWindowEntry) (now : Z) : RateLimitResult * SlidingWindowEntry :=
  let n := Z.of_nat (keep_count w (now - win)) in
  let ok := n <? lim in
  (mk_result ok lim (if ok then lim - n - 1 else 0) win (now + win),
   if ok then mk_sliding (<[head w := now]> (timestamps w)) ((head w + 1) mod 256) (if (count w <? 256)%nat then S (count w) else count w) else w).
Definition fmax (x y : D) : D := if leb x y then y else x.
Definition refilled (b : TokenBucketEntry) (now : Z) : TokenBucketEntry :=
  let t := add (tokens b) (mul (of_Z (now - last_refill b)) (refill_rate b)) in
  mk_bucket (if ltb (max_tokens b) t then max_tokens b else t) (max_tokens b) (refill_rate b) now.
Definition rate_check_token_bucket (lim win : Z) (b : TokenBucketEntry) (now : Z) : RateLimitResult * TokenBucketEntry :=
  let b := refilled b now in
  let ok := leb (of_Z 1) (tokens b) in
  let rest := sub (tokens b) (of_Z 1) in
  (mk_result ok lim (u32 (trunc (fmax (of_Z 0) rest))) win (now + win), if ok then mk_bucket rest (max_tokens b) (refill_rate b) (last_refill b) else b).

(** ** The table *)

Definition entry_idx (rl : RateLimiter) (k : list Z) (sc : RateScope) : option nat :=
  find_idx (fun e => bool_decide (key e = k) && bool_decide (scope e = sc)) (entries rl).
Definition new_state (algo : RateAlgo) (lim win now : Z) : entry_state :=
  match algo with
  | RATE_ALGO_FIXED_WINDOW => Fixed (mk_fixed now 0)
  | RATE_ALGO_SLIDING_WINDOW => Sliding (mk_sliding (replicate 256 0) 0 0)
  | RATE_ALGO_TOKEN_BUCKET => Bucket (mk_bucket (of_Z lim) (of_Z lim) (div (of_Z lim) (of_Z win)) now)
  end.
(** The index of the entry, [None] when the table is full. *)
Definition rate_get_or_create_entry (rl : RateLimiter) (k : list Z) (sc : RateScope) (algo : RateAlgo) (lim win now1 now2 : Z) : option nat * RateLimiter :=
  match entry_idx rl k sc with
  | Some i => (Some i, rl)
  | None =>
      if (RATE_MAX_BUCKETS <=? length (entries rl))%nat then (None, rl)
      else
        let e := mk_entry (truncated RATE_MAX_KEY_LEN k) sc algo (new_state algo lim win now2) lim win now1 in
        (Some (length (entries rl)), rl <| entries ::= fun l => l ++ [e] |>)
  end.
Definition check_entry (e : RateLimitEntry) (algo : RateAlgo) (now : Z) : option (RateLimitResult * RateLimitEntry) :=
  match algo, state e with
  | RATE_ALGO_FIXED_WINDOW, Fixed w => let r := rate_check_fixed_window (limit e) (window_seconds e) w now in Some (r.1, e <| state := Fixed r.2 |>)
  | RATE_ALGO_SLIDING_WINDOW, Sliding w => let r := rate_check_sliding_window (limit e) (window_seconds e) w now in Some (r.1, e <| state := Sliding r.2 |>)
  | RATE_ALGO_TOKEN_BUCKET, Bucket b => let r := rate_check_token_bucket (limit e) (window_seconds e) b now in Some (r.1, e <| state := Bucket r.2 |>)
  | _, _ => None
  end.
Definition rate_limiter_check (rl : RateLimiter) (k : list Z) (sc : RateScope) (algo : RateAlgo) (lim win now1 now2 now3 : Z) : option (RateLimitResult * RateLimiter) :=
  let r := rate_get_or_create_entry rl k sc algo lim win now1 now2 in
  match r.1 with
  | None => Some (mk_result false lim 0 win 0, r.2)
  | Some i =>
      match entries r.2 !! i with
      | None => None
      | Some e => x ← check_entry e algo now3; Some (x.1, r.2 <| entries ::= <[i := x.2]> |>)
      end
  end.
Record request := mk_request { q_key : list Z; q_scope : RateScope; q_algo : RateAlgo; q_limit : Z; q_window : Z; q_now : Z }.
Definition check_one (rl : RateLimiter) (q : request) : option (RateLimitResult * RateLimiter) :=
  rate_limiter_check rl (q_key q) (q_scope q) (q_algo q) (q_limit q) (q_window q) (q_now q) (q_now q) (q_now q).
(** Each request with the time it is checked at. *)
Fixpoint rate_limiter_check_multi (rl : RateLimiter) (l : list request) : option (bool * list RateLimitResult * RateLimiter) :=
  match l with
  | [] => Some (true, [], rl)
  | q :: l' => x ← check_one rl q; y ← rate_limiter_check_multi x.2 l'; Some (allowed x.1 && y.1.1, x.1 :: y.1.2, y.2)
  end.
(** The array without the elements [old], each replaced by the last. *)
Fixpoint compact {A} (old : A -> bool) (fuel i : nat) (l : list A) : option (list A) :=
  match fuel with
  | O => None
  | S fuel' => match l !! i with None => Some l | Some x => if old x then compact old fuel' i (swap_remove i l) else compact old fuel' (S i) l end
  end.
Definition rate_limiter_cleanup (rl : RateLimiter) (now : Z) : option RateLimiter :=
  l ← compact (fun e => 86400 <? now - created_at e) (S (length (entries rl))) 0 (entries rl); Some (rl <| entries := l |>).
End limiter.
#[global] Arguments TokenBucketEntry D : clear implicits.
#[global] Arguments entry_state D : clear implicits.
#[global] Arguments RateLimitEntry D : clear implicits.
#[global] Arguments RateLimiter D : clear implicits.

Definition rate_generate_headers (r : RateLimitResult) (lh_size rh_size rs_size : nat) : list Z * list Z * list Z :=
  (truncated lh_size (print_lld (r_limit r)), truncated rh_size (print_lld (remaining r)), truncated rs_size (print_lld (reset_seconds r))).
Definition scope_code (s : RateScope) : Z := match s with RATE_SCOPE_USER => 0 | RATE_SCOPE_IP => 1 | RATE_SCOPE_API => 2 | RATE_SCOPE_GLOBAL => 3 end.
Definition algo_code (a : RateAlgo) : Z := match a with RATE_ALGO_FIXED_WINDOW => 0 | RATE_ALGO_SLIDING_WINDOW => 1 | RATE_ALGO_TOKEN_BUCKET => 2 end.
Definition rate_dump_entry {D} (e : RateLimitEntry D) : list Z :=
  str_bytes "Key=" ++ key e ++ str_bytes " Scope=" ++ print_lld (scope_code (scope e)) ++ str_bytes " Algo=" ++ print_lld (algo_code (algorithm e)) ++
  str_bytes " Limit=" ++ print_lld (limit e) ++ str_bytes " Window=" ++ print_lld (window_seconds e) ++ [10].

(** ** The simulated store *)

(** [sim_store]: the first [sim_count] slots of the static array. *)
Record sim_entry := mk_sim { sim_key : list Z; sim_counter : Z; sim_window_start : Z; sim_created_at : Z }.
Definition rate_redis_sim_acquire (store : list sim_entry) (k : list Z) (lim win now : Z) : Z * list sim_entry :=
  match find_idx (fun e => bool_decide (sim_key e = k)) store with
  | Some i =>
      match store !! i with
      | None => (0, store)
      | Some e =>
          let e := if win <=? now - sim_window_start e then e <| sim_window_start := now |> <| sim_counter := 0 |> else e in
          if sim_counter e <? lim then (1, <[i := e <| sim_counter ::= fun n => u32 (n + 1) |>]> store) else (0, <[i := e]> store)
      end
  | None => if (length store <? 256)%nat then (1, store ++ [mk_sim (truncated RATE_MAX_KEY_LEN k) 1 now now]) else (0, store)
  end.
(** It only clears static variables of its own. *)
Definition rate_redis_sim_release (store : list sim_entry) (k : list Z) : Z * list sim_entry := (0, store).
(** The results it is asked for are not written. *)
Definition rate_lua_sim_check (store : list sim_entry) (k : list Z) (lim win now : Z) : Z * list sim_entry := rate_redis_sim_acquire store k lim win now.

(** ** Fixed windows *)

(** The answers to checks at the given times. *)
Fixpoint fixed_run (lim win : Z) (w : FixedWindowEntry) (times : list Z) : list bool * FixedWindowEntry :=
  match times with
  | [] => ([], w)
  | t :: ts => let r := rate_check_fixed_window lim win w t in let rest := fixed_run lim win r.2 ts in (allowed r.1 :: rest.1, rest.2)
  end.
(** Within one window exactly as many are allowed as the limit leaves. *)
Theorem fixed_window_admits lim win w times : counter w <= lim -> Forall (fun t => t < window_start w + win) times ->
  (fixed_run lim win w times).1 = replicate (Nat.min (length times) (Z.to_nat (lim - counter w))) true ++ replicate (length times - Z.to_nat (lim - counter w)) false.
Proof.
  revert w. induction times as [|t ts IH]; intros w Hc Ht; [done|]. apply Forall_cons in Ht as [Ht Hts]. cbn [fixed_run fst length]. unfold rate_check_fixed_window.
  rewrite (proj2 (Z.leb_gt _ _)) by lia. cbn [fst snd allowed]. destruct (Z.ltb_spec (counter w) lim) as [Hlt|Hge].
  - rewrite IH by (cbn; first [lia|done]). cbn [counter set]. replace (Z.to_nat (lim - counter w)) with (S (Z.to_nat (lim - (counter w + 1)))) by lia.
    change (counter (w <| counter ::= fun n => n + 1 |>)) with (counter w + 1). by rewrite <- Nat.succ_min_distr, Nat.sub_succ.
  - rewrite IH by (cbn; first [lia|done]). replace (Z.to_nat (lim - counter w)) with O by lia. by rewrite !Nat.min_0_r, !Nat.sub_0_r.
Qed.
(** Around the end of a window twice the limit is allowed within two seconds. *)
Example double_burst : (fixed_run 3 60 (mk_fixed 1000 0) [1059; 1059; 1059; 1060; 1060; 1060]).1 = replicate 6 true.
Proof. reflexivity. Qed.

(** ** Sliding windows *)

Fixpoint sliding_run (lim win : Z) (w : SlidingWindowEntry) (times : list Z) : list bool * SlidingWindowEntry :=
  match times with
  | [] => ([], w)
  | t :: ts => let r := rate_check_sliding_window lim win w t in let rest := sliding_run lim win r.2 ts in (allowed r.1 :: rest.1, rest.2)
  end.
(** What a new entry becomes by [c] requests allowed at [now]. *)
Definition stamped (now : Z) (c : nat) : SlidingWindowEntry := mk_sliding (replicate c now ++ replicate (256 - c) 0) (c mod 256) c.
(** The number counted in it, with the stamps seen as what they are: the slots looked at
    are those behind the stamps, and only once they wrap around the stamps. *)
Definition seen (c : nat) : nat := count_if (fun i => nth i (replicate c true ++ replicate (256 - c) false) false) (slots (stamped 0 c)).
Lemma seen_table : forallb (fun c => (seen c =? 2 * c - 256)%nat) (seq 0 257) = true.
Proof. vm_compute. reflexivity. Qed.
Lemma seen_eq c : (c <= 256)%nat -> seen c = (2 * c - 256)%nat.
Proof. intros Hc. pose proof seen_table as H. rewrite forallb_forall in H. apply Nat.eqb_eq, H, in_seq. lia. Qed.
Lemma nth_fmap {A B} (f : A -> B) l i d : nth i (f <$> l) (f d) = f (nth i l d).
Proof. apply (List.map_nth f). Qed.
Lemma keep_count_stamped now c win : 0 < win < now -> (c <= 256)%nat -> keep_count (stamped now c) (now - win) = (2 * c - 256)%nat.
Proof.
  intros Hw Hc. rewrite <- seen_eq by done. unfold keep_count, seen, count_if. change (slots (stamped now c)) with (slots (stamped 0 c)). f_equal. apply List.filter_ext. intros i.
  pose proof (nth_fmap (fun t => now - win <=? t) (timestamps (stamped now c)) i 0) as H. cbv beta in H. rewrite (proj2 (Z.leb_gt (now - win) 0)) in H by lia. rewrite <- H. f_equal. cbn [timestamps stamped].
  rewrite fmap_app, !fmap_replicate, (proj2 (Z.leb_gt (now - win) 0)) by lia. by rewrite (proj2 (Z.leb_le (now - win) now)) by lia.
Qed.
Lemma stamp now c : (c < 256)%nat -> <[(c mod 256)%nat := now]> (timestamps (stamped now c)) = timestamps (stamped now (S c)).
Proof.
  intros Hc. cbn [timestamps stamped]. rewrite Nat.mod_small by lia. rewrite insert_app_r_alt by (rewrite length_replicate; lia). rewrite length_replicate, Nat.sub_diag.
  replace (256 - c)%nat with (S (256 - S c)) by lia. rewrite (replicate_S_end c), <- app_assoc. done.
Qed.
(** Of a burst within one second, a new entry with a limit of up to 256 allows
    [128 + limit/2], rounded up, and not [limit]; the first 128 are not counted at all. *)
Theorem sliding_burst_admits lim win now n : 0 < win < now -> 0 < lim <= 256 ->
  (sliding_run lim win (mk_sliding (replicate 256 0) 0 0) (replicate n now)).1 =
    replicate (Nat.min n (Z.to_nat (128 + (lim + 1) / 2))) true ++ replicate (n - Z.to_nat (128 + (lim + 1) / 2)) false.
Proof.
  intros Hw Hl. assert (Hq : lim <= 2 * ((lim + 1) / 2) < lim + 2) by (pose proof (Z.div_mod (lim + 1) 2); pose proof (Z.mod_pos_bound (lim + 1) 2); lia).
  set (m := Z.to_nat (128 + (lim + 1) / 2)). assert (Hm : (m <= 256)%nat) by (unfold m; lia).
  assert (H : forall c, (c <= m)%nat -> (sliding_run lim win (stamped now c) (replicate n now)).1 = replicate (Nat.min n (m - c)) true ++ replicate (n - (m - c)) false).
  { induction n as [|n IH]; intros c Hc; [done|]. cbn [replicate sliding_run fst]. unfold rate_check_sliding_window. rewrite keep_count_stamped by lia. cbn [fst snd allowed].
    destruct (Z.ltb_spec (Z.of_nat (2 * c - 256)) lim) as [Hlt|Hge].
    - cbn [head stamped count]. rewrite stamp by (unfold m in *; lia). rewrite (proj2 (Nat.ltb_lt _ _)) by (unfold m in *; lia).
      replace (mk_sliding (timestamps (stamped now (S c))) ((c mod 256 + 1) mod 256) (S c)) with (stamped now (S c)).
      + rewrite IH by (unfold m in *; lia). replace (m - c)%nat with (S (m - S c)) by (unfold m in *; lia). by rewrite <- Nat.succ_min_distr, Nat.sub_succ.
      + unfold stamped. cbn [timestamps]. f_equal. rewrite Nat.Div0.add_mod_idemp_l. f_equal. lia.
    - rewrite IH by done. assert (m - c = 0)%nat as -> by (unfold m in *; lia). by rewrite !Nat.min_0_r, !Nat.sub_0_r. }
  rewrite <- (Nat.sub_0_r m). apply (H O). lia.
Qed.
Lemma sliding_burst_admits_witness : (sliding_run 1 60 (mk_sliding (replicate 256 0) 0 0) (replicate 200 1700000000)).1 = replicate 129 true ++ replicate 71 false.
Proof. refine (sliding_burst_admits 1 60 1700000000 200 _ _); lia. Defined.

(** ** Token buckets, in exact arithmetic *)

Fixpoint bucket_run (lim win : Z) (b : TokenBucketEntry Q) (times : list Z) : list bool * TokenBucketEntry Q :=
  match times with
  | [] => ([], b)
  | t :: ts => let r := rate_check_token_bucket lim win b t in let rest := bucket_run lim win r.2 ts in (allowed r.1 :: rest.1, rest.2)
  end.
Fixpoint ordered (from : Z) (times : list Z) : Prop := match times with [] => True | t :: ts => from <= t /\ ordered t ts end.
Definition bucket_ok (b : TokenBucketEntry Q) : Prop := (0 <= refill_rate b /\ 0 <= tokens b /\ tokens b <= max_tokens b)%Q.
Lemma refilled_ok b t : last_refill b <= t -> bucket_ok b ->
  bucket_ok (refilled b t) /\ (tokens (refilled b t) <= tokens b + inject_Z (t - last_refill b) * refill_rate b)%Q.
Proof.
  intros Ht (Hr & H0 & Hm). assert (Hp : (0 <= inject_Z (t - last_refill b) * refill_rate b)%Q).
  { apply Qmult_le_0_compat; [|done]. change 0%Q with (inject_Z 0). rewrite <- Zle_Qle. lia. }
  unfold bucket_ok, refilled. cbn [tokens max_tokens refill_rate add mul of_Z Q_arith]. destruct (ltb (max_tokens b) _) eqn:Hl.
  - apply ltb_true in Hl. cbn in Hl. apply Qle_bool_iff in Hl. repeat split; lra.
  - apply ltb_false in Hl. cbn in Hl. apply Qle_bool_iff in Hl. repeat split; lra.
Qed.
(** One check takes a token when it is allowed, and only then. *)
Lemma check_bucket_ok lim win b t : last_refill b <= t -> bucket_ok b -> let r := rate_check_token_bucket lim win b t in
  bucket_ok r.2 /\ last_refill r.2 = t /\ refill_rate r.2 = refill_rate b /\
  (tokens r.2 + inject_Z (b2z (allowed r.1)) <= tokens b + inject_Z (t - last_refill b) * refill_rate b)%Q.
Proof.
  intros Ht Hok. destruct (refilled_ok b t Ht Hok) as [Hok' Hle]. cbv zeta. unfold rate_check_token_bucket. cbn [fst snd allowed].
  destruct (leb (of_Z 1) (tokens (refilled b t))) eqn:H1; unfold b2z.
  - change (Qle_bool 1 (tokens (refilled b t)) = true) in H1. apply Qle_bool_iff in H1. destruct Hok' as (Hr & H0 & Hm). unfold bucket_ok. cbn [tokens max_tokens refill_rate last_refill sub of_Z Q_arith].
    change (inject_Z 1) with 1%Q in *. split; [repeat split; [exact Hr|lra|lra]|]. split; [done|]. split; [done|lra].
  - change (inject_Z 0) with 0%Q. split; [done|]. split; [done|]. split; [done|lra].
Qed.
(** What a bucket allows is at most what it holds and what is refilled meanwhile. *)
Theorem bucket_bound lim win b times : bucket_ok b -> ordered (last_refill b) times ->
  (inject_Z (Z.of_nat (count_if id (bucket_run lim win b times).1)) <=
   tokens b + inject_Z (default (last_refill b) (last times) - last_refill b) * refill_rate b)%Q.
Proof.
  revert b. induction times as [|t ts IH]; intros b Hok Ho.
  - change (0 <= tokens b + inject_Z (last_refill b - last_refill b) * refill_rate b)%Q. rewrite Z.sub_diag. change (inject_Z 0) with 0%Q. destruct Hok as (_ & H0 & _). lra.
  - destruct Ho as [Ht Ho]. cbn [bucket_run fst]. destruct (check_bucket_ok lim win b t Ht Hok) as (Hok' & Hl & Hr & Hle). set (r := rate_check_token_bucket lim win b t) in *. clearbody r.
    specialize (IH r.2 Hok'). rewrite Hl in IH. specialize (IH Ho). rewrite Hr in IH. clear Ho Hok Hok'.
    assert (Hc : Z.of_nat (count_if id (allowed r.1 :: (bucket_run lim win r.2 ts).1)) = b2z (allowed r.1) + Z.of_nat (count_if id (bucket_run lim win r.2 ts).1))
      by (unfold count_if; cbn [List.filter id]; destruct (allowed r.1); cbn [length b2z]; lia).
    rewrite Hc, inject_Z_plus. set (n := inject_Z (Z.of_nat (count_if id _))) in *. clearbody n.
    assert (Hd : default (last_refill b) (last (t :: ts)) = default t (last ts)) by (destruct ts; [done|]; rewrite last_cons_cons; by destruct (last (z :: ts)) eqn:E; [|apply last_None in E]).
    rewrite Hd. set (e := default t (last ts)) in *. clearbody e. replace (e - last_refill b) with ((e - t) + (t - last_refill b)) by lia. rewrite inject_Z_plus. lra.
Qed.
Lemma bucket_bound_witness : (inject_Z (Z.of_nat (count_if id (bucket_run 2 60 (mk_bucket 2 2 (1 # 30) 1000) [1000; 1000; 1000; 1030]%Z).1)) <= 2 + inject_Z (1030 - 1000) * (1 # 30))%Q.
Proof.
  refine (bucket_bound 2 60 (mk_bucket 2%Q 2%Q (1 # 30)%Q 1000) [1000; 1000; 1000; 1030] _ _); [|cbn; lia]. unfold bucket_ok. cbn [tokens max_tokens refill_rate]. repeat split; lra.
Defined.

(** ** The table *)

Section table.
Context {D : Type} `{HA : Arith D}.
(** A check leaves the entries of other keys and scopes as they are. *)
Theorem rate_check_isolated (rl rl' : RateLimiter D) k sc algo lim win now1 now2 now3 res j e :
  rate_limiter_check rl k sc algo lim win now1 now2 now3 = Some (res, rl') -> entries rl !! j = Some e -> key e <> k \/ scope e <> sc -> entries rl' !! j = Some e.
Proof.
  unfold rate_limiter_check, rate_get_or_create_entry. intros Hrun Hj Hne. destruct (entry_idx rl k sc) as [i|] eqn:Hi; cbn [fst snd] in Hrun.
  - apply find_idx_Some in Hi as (x & Hx & Hxk & _). rewrite Hx in Hrun. destruct (check_entry x algo now3) as [[r e']|]; [|done]. cbn in Hrun. injection Hrun as _ <-.
    cbn. rewrite list_lookup_insert_ne; [done|]. intros ->. assert (x = e) as -> by congruence. apply andb_true_iff in Hxk as [Hk%bool_decide_eq_true Hs%bool_decide_eq_true]. naive_solver.
  - destruct (_ <=? _)%nat; cbn [fst snd] in Hrun; [by injection Hrun as _ <-|]. cbn [entries set] in Hrun.
    match type of Hrun with context [?l !! ?i] => destruct (l !! i) as [x|]; [|done] end. destruct (check_entry x algo now3) as [[r e']|]; [|done]. cbn in Hrun. injection Hrun as _ <-.
    apply lookup_lt_Some in Hj as Hlt. cbn. rewrite list_lookup_insert_ne by lia. by rewrite lookup_app_l.
Qed.
(** A key that does not fit is not found again: it is limited only by the size of the table. *)
Theorem rate_long_key_unlimited (rl : RateLimiter D) k sc lim win now1 now2 now3 : Forall (fun e => (length (key e) < RATE_MAX_KEY_LEN)%nat) (entries rl) ->
  (RATE_MAX_KEY_LEN <= length k)%nat -> (length (entries rl) < RATE_MAX_BUCKETS)%nat -> 0 < lim -> now3 < now2 + win ->
  exists res rl', rate_limiter_check rl k sc RATE_ALGO_FIXED_WINDOW lim win now1 now2 now3 = Some (res, rl') /\ allowed res = true /\ length (entries rl') = S (length (entries rl)) /\
    Forall (fun e => (length (key e) < RATE_MAX_KEY_LEN)%nat) (entries rl').
Proof.
  intros Hf Hk Hroom Hl Hw. unfold rate_limiter_check, rate_get_or_create_entry. replace (entry_idx rl k sc) with (@None nat).
  2:{ symmetry. apply find_idx_None. intros e He. apply andb_false_iff. left. apply bool_decide_eq_false. intros <-. rewrite Forall_forall in Hf. specialize (Hf e He). lia. }
  rewrite (proj2 (Nat.leb_gt _ _)) by exact Hroom. cbn [fst snd]. set (e := mk_entry _ _ _ _ _ _ _). change (entries (rl <| entries ::= fun l => l ++ [e] |>)) with (entries rl ++ [e]).
  rewrite list_lookup_middle by done. subst e. cbn [check_entry state new_state window_seconds limit]. unfold rate_check_fixed_window. cbn [window_start counter]. rewrite (proj2 (Z.leb_gt _ _)) by lia.
  cbn [counter]. rewrite (proj2 (Z.ltb_lt _ _)) by lia. eexists _, _. split; [reflexivity|]. split; [done|]. cbn. rewrite length_insert, length_app. cbn. split; [lia|].
  rewrite insert_app_r_alt, Nat.sub_diag by lia. apply Forall_app. split; [done|]. constructor; [|done]. cbn [key set]. unfold truncated. rewrite length_take. unfold RATE_MAX_KEY_LEN. lia.
Qed.
End table.

(** Removing by moving the last element keeps exactly the elements that are not [old]. *)
Lemma compact_keeps {A} (old : A -> bool) fuel i l : (length l < i + fuel)%nat -> (i <= length l)%nat -> Forall (fun x => old x = false) (take i l) ->
  exists l', compact old fuel i l = Some l' /\ l' ≡ₚ List.filter (fun x => negb (old x)) l.
Proof.
  revert i l. induction fuel as [|fuel IH]; intros i l Hf Hle Hkept; [lia|]. cbn [compact]. destruct (l !! i) as [x|] eqn:Hi.
  - apply lookup_lt_Some in Hi as Hlt. destruct (old x) eqn:Hx.
    + pose proof (swap_remove_length _ _ _ Hi) as Hlen. destruct (IH i (swap_remove i l)) as (l' & Hrun & Hp); [lia|lia| |].
      * replace (take i (swap_remove i l)) with (take i l); [done|]. unfold swap_remove. destruct (last l); [|done]. rewrite take_take, Nat.min_l by lia. by rewrite take_insert_ge.
      * exists l'. split; [done|]. rewrite Hp. rewrite (filter_bool_Permutation _ l _ (swap_remove_Permutation _ _ _ Hi)). cbn. by rewrite Hx.
    + apply IH; [lia|lia|]. rewrite (take_S_r _ _ _ Hi). apply Forall_app. split; [done|by constructor].
  - exists l. split; [done|]. apply lookup_ge_None_1 in Hi. rewrite take_ge in Hkept by lia. rewrite forallb_filter_id; [done|].
    apply forallb_forall. intros x Hx%list_elem_of_In. rewrite Forall_forall in Hkept. by rewrite Hkept.
Qed.
(** Cleaning up ends and keeps exactly the entries of the last day, used or not. *)
Theorem rate_cleanup_correct {D} (rl : RateLimiter D) now : exists rl', rate_limiter_cleanup rl now = Some rl' /\
  entries rl' ≡ₚ List.filter (fun e => negb (86400 <? now - created_at e)) (entries rl).
Proof.
  destruct (compact_keeps (fun e : RateLimitEntry D => 86400 <? now - created_at e) (S (length (entries rl))) 0 (entries rl)) as (l & Hl & Hp); [lia|lia|constructor|].
  exists (rl <| entries := l |>). split; [|done]. unfold rate_limiter_cleanup. by rewrite Hl.
Qed.

(** ** Behaviours found *)

(** The limit given with a key that is there is not looked at. *)
Example first_limit_stays : let r := rate_limiter_check (D := Q) (rate_limiter_init 0 0) (str_bytes "k") RATE_SCOPE_USER RATE_ALGO_FIXED_WINDOW 1 60 1000 1000 1000 in
  (fun x => allowed x.1) <$> (x ← r; rate_limiter_check x.2 (str_bytes "k") RATE_SCOPE_USER RATE_ALGO_FIXED_WINDOW 100 60 1001 1001 1001) = Some false.
Proof. vm_compute. reflexivity. Qed.
(** Checking a key with another algorithm reads another member of the union. *)
Example other_algorithm : let r := rate_limiter_check (D := Q) (rate_limiter_init 0 0) (str_bytes "k") RATE_SCOPE_USER RATE_ALGO_FIXED_WINDOW 1 60 1000 1000 1000 in
  (x ← r; rate_limiter_check x.2 (str_bytes "k") RATE_SCOPE_USER RATE_ALGO_TOKEN_BUCKET 1 60 1001 1001 1001) = None.
Proof. vm_compute. reflexivity. Qed.
(** A request that is refused takes from the limits that allow it. *)
Example refused_takes : let q k lim := mk_request (str_bytes k) RATE_SCOPE_USER RATE_ALGO_FIXED_WINDOW lim 60 1000 in
  option_map (fun x => (x.1.1, map remaining x.1.2)) (rate_limiter_check_multi (D := Q) (rate_limiter_init 0 0) [q "a" 2; q "b" 0; q "a" 2]%string) = Some (false, [1; 0; 0]).
Proof. vm_compute. reflexivity. Qed.
(** Releasing does not give back. *)
Example release_nothing : let s1 := (rate_redis_sim_acquire [] (str_bytes "k") 1 60 1000).2 in
  (rate_redis_sim_acquire (rate_redis_sim_release s1 (str_bytes "k")).2 (str_bytes "k") 1 60 1001).1 = 0.
Proof. vm_compute. reflexivity. Qed.
