(* ===== verification/Crypto.v ===== *)
(** Model of [mini-auth-security/src/crypto_utils.c]: base64, comparison, salts and the
    hashing, storing and checking of passwords; and the theorems on it.

    The functions of OpenSSL are parameters: the digest, the HMAC, the random bytes and
    PBKDF2, which gives [None] when it fails; so is the outcome of [mlock].  [strtok_s] is
    taken to be [strtok_r].  [None] of [crypto_base64_encode] and [crypto_base64_decode] is
    the return value -1. *)

From S2P Require Import Prelude Bytes.

Definition CRYPTO_SALT_LEN : nat := 32.
Definition CRYPTO_HASH_LEN : nat := 32.
Definition CRYPTO_PEPPER_LEN : nat := 32.
Definition CRYPTO_MAX_PASSWORD_LEN : nat := 256.
Definition CRYPTO_MAX_B64_LEN : nat := 512.
Definition CRYPTO_PBKDF2_ITERATIONS : Z := 100000.
Inductive CryptoHashAlgo := CRYPTO_HASH_SHA256 | CRYPTO_HASH_SHA384 | CRYPTO_HASH_SHA512.
(** The length of [pepper] is [pepper_len]; the salt of a configuration is not used. *)
Record CryptoKdfConfig := mk_config { pepper : list Z; iterations : Z; hash_algo : CryptoHashAlgo }.
(** [salt] and [hash]: the first [salt_len] and [hash_len] bytes of the arrays. *)
Record CryptoPasswordHash := mk_hash { storage_string : list Z; algo : CryptoHashAlgo; h_iterations : Z; salt : list Z; hash : list Z }.
Record CryptoSecureBuffer := mk_buffer { data : option (list Z); len : nat; locked : bool }.

(** ** Comparison *)

(** [None] is NULL; the arrays have at least [n] bytes. *)
Definition crypto_const_time_compare (a b : option (list Z)) (n : nat) : Z :=
  match a, b with
  | Some a, Some b => c_bool (foldl (fun diff i => Z.lor diff (Z.lxor (nth i a 0) (nth i b 0))) 0 (seq 0 n) =? 0)
  | None, None => 1
  | _, _ => 0
  end.

(** ** base64 *)

Definition B64_STD : list Z := str_bytes "ABCDEFGHIJKLMNOPQRSTUVWXYZabcdefghijklmnopqrstuvwxyz0123456789+/".
Definition b64_std (x : Z) : Z := B64_STD !!! Z.to_nat (Z.land x 63).
Definition group (a b c : Z) : list Z :=
  let triple := Z.lor (Z.lor (Z.shiftl a 16) (Z.shiftl b 8)) c in
  [b64_std (Z.shiftr triple 18); b64_std (Z.shiftr triple 12); b64_std (Z.shiftr triple 6); b64_std triple].
(** Missing bytes of the last group read as 0; [j] is what was written so far. *)
Fixpoint encode_groups (dst_size j : nat) (src : list Z) : option (list Z) :=
  let step g rest := if (dst_size <=? j + 4)%nat then None else app g <$> encode_groups dst_size (j + 4) rest in
  match src with
  | a :: b :: c :: src' => step (group a b c) src'
  | [a; b] => if (dst_size <=? j + 4)%nat then None else Some (group a b 0)
  | [a] => if (dst_size <=? j + 4)%nat then None else Some (group a 0 0)
  | [] => Some []
  end.
Definition crypto_base64_encode (src : list Z) (dst_size : nat) : option (list Z) :=
  if (dst_size <? 4)%nat then None
  else
    dst ← encode_groups dst_size 0 src;
    let j := length dst in
    Some (if (length src mod 3 =? 1)%nat && (2 <=? j)%nat then take (j - 2) dst ++ [61; 61]
          else if (length src mod 3 =? 2)%nat && (1 <=? j)%nat then take (j - 1) dst ++ [61] else dst).
Definition dec : list Z := <[61%nat := -2]> (foldl (fun t i => <[Z.to_nat (B64_STD !!! Z.to_nat i) := i]> t) (replicate 256 (-1)) (seqZ 0 64)).
Definition dec_char (c : Z) : Z := dec !!! Z.to_nat c.
(** One group; a character that is missing or not known is -1, converted to unsigned.  Each
    byte is written only while there is room. *)
Definition dec_group (room : nat) (dst : list Z) (v0 v1 v2 v3 : Z) : option (list Z) :=
  if (v0 <? 0) || (v1 <? 0) then None
  else if (v2 <? -1) || (v3 <? -1) then None
  else
    let triple := Z.lor (Z.lor (Z.lor (u32 (Z.shiftl (u32 v0) 18)) (u32 (Z.shiftl (u32 v1) 12))) (u32 (Z.shiftl (u32 v2) 6))) (u32 v3) in
    Some (take (Nat.max room (length dst)) (dst ++ [Z.land (Z.shiftr triple 16) 255; Z.land (Z.shiftr triple 8) 255; Z.land triple 255])).
Fixpoint dec_loop (room : nat) (src dst : list Z) : option (list Z) :=
  match src with
  | a :: b :: c :: d :: src' => dst ← dec_group room dst (dec_char a) (dec_char b) (dec_char c) (dec_char d); dec_loop room src' dst
  | [a; b; c] => dec_group room dst (dec_char a) (dec_char b) (dec_char c) (-1)
  | [a; b] => dec_group room dst (dec_char a) (dec_char b) (-1) (-1)
  | [a] => dec_group room dst (dec_char a) (-1) (-1) (-1)
  | [] => Some dst
  end.
(** The number of [=] at the end. *)
Fixpoint padding (rev_src : list Z) : nat := match rev_src with c :: s => if c =? 61 then S (padding s) else O | [] => O end.
(** The bytes written and the length told, in [size_t] arithmetic. *)
Definition crypto_base64_decode (src : list Z) (room : nat) : option (list Z * Z) :=
  let pad := padding (reverse src) in
  dst ← dec_loop room (take (length src - pad) src) []; Some (dst, u64 (Z.of_nat (length dst) - Z.of_nat pad)).

(** ** OpenSSL *)

Section openssl.
Context (SHA256 : list Z -> list Z) (HMAC : list Z -> list Z -> list Z).
Context (RAND_bytes : nat -> option (list Z)).
Context (PBKDF2 : list Z -> list Z -> Z -> nat -> option (list Z)).

Definition crypto_sha256 (d : list Z) : list Z * Z := (SHA256 d, 32).
Definition crypto_hmac_sha256 (k d : list Z) : list Z * Z := (HMAC k d, Z.of_nat (length (HMAC k d))).
Definition crypto_kdf_init (p : option (list Z)) : CryptoKdfConfig :=
  mk_config (match p with Some p => if (0 <? length p)%nat && (length p <=? CRYPTO_PEPPER_LEN)%nat then p else [] | None => [] end)
    CRYPTO_PBKDF2_ITERATIONS CRYPTO_HASH_SHA256.
Fixpoint lcg_bytes (n : nat) (seed : Z) : list Z :=
  match n with O => [] | S n' => let seed := u32 (seed * 1103515245 + 12345) in u8 (Z.shiftr seed 16) :: lcg_bytes n' seed end.
Definition crypto_generate_salt (n : nat) (now : Z) : Z * list Z :=
  if (n =? 0)%nat then (-1, [])
  else
    let n := if (CRYPTO_SALT_LEN <? n)%nat then CRYPTO_SALT_LEN else n in
    match RAND_bytes n with Some s => (0, s) | None => (-1, lcg_bytes n (u32 now)) end.
Definition crypto_pbkdf2 (password s : list Z) (n : Z) (dk_len : nat) : option (list Z) :=
  if (dk_len =? 0)%nat then None else if (n <? 1) || (length password =? 0)%nat then None else PBKDF2 password s (s32 n) dk_len.

(** ** Passwords *)

Definition mcf_text (n : Z) (salt_b64 hash_b64 : list Z) : list Z := str_bytes "$pbkdf2-sha256$" ++ print_lld n ++ [36] ++ salt_b64 ++ [36] ++ hash_b64.
Definition password_ok (password : list Z) : bool := (0 <? length password)%nat && (length password <=? CRYPTO_MAX_PASSWORD_LEN)%nat.
Definition STORAGE_LEN : nat := (CRYPTO_MAX_B64_LEN * 2 + 128)%nat.
Definition crypto_hash_password (config : CryptoKdfConfig) (password : list Z) (now : Z) : option CryptoPasswordHash :=
  if negb (password_ok password) then None
  else
    let s := (crypto_generate_salt CRYPTO_SALT_LEN now).2 in
    derived ← crypto_pbkdf2 (password ++ pepper config) s (iterations config) CRYPTO_HASH_LEN;
    salt_b64 ← crypto_base64_encode s CRYPTO_MAX_B64_LEN;
    hash_b64 ← crypto_base64_encode derived CRYPTO_MAX_B64_LEN;
    Some (mk_hash (truncated STORAGE_LEN (mcf_text (iterations config) salt_b64 hash_b64)) (hash_algo config) (iterations config) s derived).
(** -1 is an error, 1 a match, 0 none. *)
Definition crypto_verify_password (config : CryptoKdfConfig) (password : list Z) (ph : CryptoPasswordHash) : Z :=
  if negb (password_ok password) then -1
  else
    match crypto_pbkdf2 (password ++ pepper config) (salt ph) (h_iterations ph) CRYPTO_HASH_LEN with
    | None => -1
    | Some derived => crypto_const_time_compare (Some derived) (Some (hash ph)) (length (hash ph))
    end.
End openssl.

(** [strtoul] in base 10. *)
Definition strtoul (s : list Z) : Z :=
  let '(neg, s) := match skip_spaces s with c :: s' => if c =? 45 then (true, s') else if c =? 43 then (false, s') else (false, c :: s') | [] => (false, []) end in
  let v := digits_value 0 s in if 2 ^ 64 <=? v then 2 ^ 64 - 1 else if neg : bool then u64 (- v) else v.
(** [Undefined]: bytes that were never written are copied. *)
Inductive parsed := Failed | Undefined | Parsed (ph : CryptoPasswordHash).
(** Up to [cap] of the bytes decoded. *)
Definition decode_field (cap : nat) (text : list Z) (k : list Z -> parsed) : parsed :=
  match crypto_base64_decode text cap with
  | None => Failed
  | Some (dst, n) => let n := Z.to_nat (Z.min n (Z.of_nat cap)) in if (length dst <? n)%nat then Undefined else k (take n dst)
  end.
Definition crypto_parse_mcf (mcf : list Z) : parsed :=
  match truncated STORAGE_LEN mcf with
  | c :: work =>
      if negb (c =? 36) then Failed
      else
        let '(algo_sec, rest) := strtok 36 work in
        let '(iter_str, rest) := strtok 36 rest in
        let '(salt_b64, rest) := strtok 36 rest in
        let '(hash_b64, _) := strtok 36 rest in
        match algo_sec, iter_str, salt_b64, hash_b64 with
        | Some a, Some i, Some s, Some h =>
            if negb (bool_decide (a = str_bytes "pbkdf2-sha256")) then Failed
            else
              let n := u32 (strtoul i) in
              if n <? 10 then Failed
              else decode_field CRYPTO_SALT_LEN s (fun s => decode_field CRYPTO_HASH_LEN h (fun h => Parsed (mk_hash (truncated STORAGE_LEN mcf) CRYPTO_HASH_SHA256 n s h)))
        | _, _, _, _ => Failed
        end
  | [] => Failed
  end.

(** ** Buffers *)

Definition crypto_secure_alloc (n : nat) (calloc_ok mlock_ok : bool) : CryptoSecureBuffer :=
  if (n =? 0)%nat || negb calloc_ok then mk_buffer None 0 false else mk_buffer (Some (replicate n 0)) n mlock_ok.
(** What the memory holds when it is freed, and the buffer. *)
Definition crypto_secure_free (b : CryptoSecureBuffer) : option (list Z) * CryptoSecureBuffer :=
  match data b with None => (None, b) | Some d => (Some (replicate (len b) 0 ++ drop (len b) d), mk_buffer None 0 false) end.
Definition crypto_hash_algo_name (a : CryptoHashAlgo) : list Z :=
  str_bytes match a with CRYPTO_HASH_SHA256 => "SHA-256" | CRYPTO_HASH_SHA384 => "SHA-384" | CRYPTO_HASH_SHA512 => "SHA-512" end.

(** ** Comparison *)

Lemma compare_loop a b d l : foldl (fun diff i => Z.lor diff (Z.lxor (nth i a 0) (nth i b 0))) d l = 0 <-> d = 0 /\ Forall (fun i => nth i a 0 = nth i b 0) l.
Proof.
  revert d. induction l as [|i l IH]; intros d; cbn [foldl]; [by rewrite Forall_nil; tauto|]. rewrite IH, Forall_cons, Z.lor_eq_0_iff, Z.lxor_eq_0_iff. tauto.
Qed.
(** Buffers compare as equal exactly when their first [n] bytes are. *)
Theorem const_time_compare_correct a b n : (n <= length a)%nat -> (n <= length b)%nat -> crypto_const_time_compare (Some a) (Some b) n = c_bool (bool_decide (take n a = take n b)).
Proof.
  intros Ha Hb. cbn [crypto_const_time_compare]. f_equal. apply eq_true_iff_eq. rewrite Z.eqb_eq, bool_decide_eq_true, compare_loop, Forall_forall. split.
  - intros [_ H]. apply list_eq. intros i. destruct (decide (i < n)%nat) as [Hi|Hi]; [|by rewrite !lookup_take_ge by lia]. rewrite !lookup_take_lt by done.
    specialize (H i ltac:(apply elem_of_seq; lia)). rewrite !nth_lookup in H. destruct (lookup_lt_is_Some_2 a i ltac:(lia)) as [x Hx]. destruct (lookup_lt_is_Some_2 b i ltac:(lia)) as [y Hy].
    rewrite Hx, Hy in *. cbn in H. congruence.
  - intros H. split; [done|]. intros i Hi%elem_of_seq. rewrite !nth_lookup. rewrite <- (lookup_take_lt a n i), <- (lookup_take_lt b n i) by lia. by rewrite H.
Qed.

(** ** base64 *)

Lemma dec_table : forallb (fun i => (dec_char (B64_STD !!! Z.to_nat i) =? i) && negb (B64_STD !!! Z.to_nat i =? 61) && negb (B64_STD !!! Z.to_nat i =? 36)) (seqZ 0 64) = true.
Proof. vm_compute. reflexivity. Qed.
Lemma b64_std_spec x : dec_char (b64_std x) = x mod 64 /\ b64_std x <> 61 /\ b64_std x <> 36.
Proof.
  unfold b64_std. rewrite land_63. pose proof (Z.mod_pos_bound x 64 ltac:(lia)) as Hx. assert (H : x mod 64 ∈ seqZ 0 64) by (apply elem_of_seqZ; lia).
  apply list_elem_of_In, (proj1 (forallb_forall _ _) dec_table) in H. zbool. lia.
Qed.
Lemma group_spec a b c : byte_ok b -> byte_ok c -> let t := triple_of a b c in
  dec_char <$> group a b c = [t / 2 ^ 18 mod 64; t / 2 ^ 12 mod 64; t / 2 ^ 6 mod 64; t mod 64].
Proof.
  intros Hb Hc t. unfold group. rewrite triple_lor by done. fold t. cbn [fmap list_fmap]. rewrite !(proj1 (b64_std_spec _)), !Z.shiftr_div_pow2 by lia. done.
Qed.
Lemma group_chars a b c : Forall (fun x => x <> 61 /\ x <> 36) (group a b c).
Proof. unfold group. repeat constructor; apply b64_std_spec. Qed.
(** A whole group is decoded to its bytes, a group that was padded to bytes of ones. *)
Lemma dec_group_whole room dst a b c : byte_ok a -> byte_ok b -> byte_ok c -> let t := triple_of a b c in
  dec_group room dst (t / 2 ^ 18 mod 64) (t / 2 ^ 12 mod 64) (t / 2 ^ 6 mod 64) (t mod 64) = Some (take (Nat.max room (length dst)) (dst ++ [a; b; c])).
Proof.
  intros Ha Hb Hc t. pose proof (triple_range a b c Ha Hb Hc) as Ht. fold t in Ht. unfold dec_group.
  assert (Hm : forall x, 0 <= x mod 64 < 64) by (intros; apply Z.mod_pos_bound; lia).
  rewrite !(proj2 (Z.ltb_ge _ _)) by (pose proof (Hm (t / 2 ^ 18)); pose proof (Hm (t / 2 ^ 12)); pose proof (Hm (t / 2 ^ 6)); pose proof (Hm t); lia). cbn [orb].
  assert (Hu : forall x k, 0 <= k <= 18 -> u32 (Z.shiftl (u32 (x mod 64)) k) = Z.shiftl (x mod 64) k).
  { intros x k Hk. pose proof (Hm x). rewrite (u32_small (x mod 64)) by lia. apply u32_small. rewrite Z.shiftl_mul_pow2 by lia.
    assert (0 < 2 ^ k <= 2 ^ 18) by (split; [apply Z.pow_pos_nonneg; lia|apply Z.pow_le_mono_r; lia]). nia. }
  rewrite !Hu by lia. rewrite (u32_small (t mod 64)) by (pose proof (Hm t); lia). rewrite sextets_lor by done.
  pose proof (triple_bytes a b c Ha Hb Hc) as E. cbv zeta in E. fold t in E. by rewrite E.
Qed.
Lemma lor_ones x : 0 <= x < 2 ^ 32 -> Z.lor x (u32 (-1)) = 2 ^ 32 - 1.
Proof.
  intros Hx. change (u32 (-1)) with (Z.ones 32). rewrite Z.lor_comm. apply Z.bits_inj'. intros i Hi. change (2 ^ 32 - 1) with (Z.ones 32). rewrite Z.lor_spec.
  destruct (Z.ltb_spec i 32); [by rewrite Z.ones_spec_low by lia|]. rewrite Z.ones_spec_high by lia. cbn.
  rewrite <- (Z.mod_small x (2 ^ 32)) by done. apply Z.mod_pow2_bits_high. lia.
Qed.
Lemma dec_group_padded room dst v0 v1 v2 : 0 <= v0 -> 0 <= v1 -> -1 <= v2 -> dec_group room dst v0 v1 v2 (-1) = Some (take (Nat.max room (length dst)) (dst ++ [255; 255; 255])).
Proof.
  intros H0 H1 H2. unfold dec_group. rewrite !(proj2 (Z.ltb_ge _ _)) by lia. cbn [orb]. rewrite lor_ones; [done|].
  assert (Hl : forall x y, 0 <= x < 2 ^ 32 -> 0 <= y < 2 ^ 32 -> 0 <= Z.lor x y < 2 ^ 32).
  { intros x y Hx Hy. rewrite <- (Z.mod_small x (2 ^ 32)), <- (Z.mod_small y (2 ^ 32)), <- !Z.land_ones, <- Z.land_lor_distr_l, Z.land_ones by lia. apply Z.mod_pos_bound. lia. }
  repeat apply Hl; apply u32_range.
Qed.

(** The text without and with its padding. *)
Fixpoint body (src : list Z) : list Z :=
  match src with
  | a :: b :: c :: src' => group a b c ++ body src'
  | [a; b] => take 3 (group a b 0)
  | [a] => take 2 (group a 0 0)
  | [] => []
  end.
Definition pads (n : nat) : nat := ((3 - n mod 3) mod 3)%nat.
Lemma pads_3 n : pads (S (S (S n))) = pads n.
Proof. unfold pads. f_equal. f_equal. replace (S (S (S n))) with (n + 1 * 3)%nat by lia. apply Nat.Div0.mod_add. Qed.
Lemma mod_3 n : (S (S (S n)) mod 3 = n mod 3)%nat.
Proof. replace (S (S (S n))) with (n + 1 * 3)%nat by lia. apply Nat.Div0.mod_add. Qed.
Definition std (src : list Z) : list Z := body src ++ replicate (pads (length src)) 61.
Lemma std_3 a b c src : std (a :: b :: c :: src) = group a b c ++ std src.
Proof. unfold std. cbn [length body]. by rewrite pads_3, <- app_assoc. Qed.
Lemma std_length src : length (std src) = (4 * ((length src + 2) / 3))%nat.
Proof.
  induction src as [| | |a b c src IH] using list_ind3; try done. rewrite std_3, length_app, IH. cbn [length group].
  replace (S (S (S (length src))) + 2)%nat with ((length src + 2) + 1 * 3)%nat by lia. rewrite Nat.div_add by lia. lia.
Qed.
Lemma encode_groups_std dst_size j src : (j + length (std src) < dst_size)%nat \/ src = [] ->
  exists dst, encode_groups dst_size j src = Some dst /\ length dst = length (std src) /\ take (length dst - pads (length src)) dst = body src.
Proof.
  revert j. induction src as [| | |a b c src IH] using list_ind3; intros j Hj.
  - by exists [].
  - destruct Hj as [Hj|]; [|done]. cbn in Hj. cbn [encode_groups]. rewrite (proj2 (Nat.leb_gt _ _)) by lia. by eexists.
  - destruct Hj as [Hj|]; [|done]. cbn in Hj. cbn [encode_groups]. rewrite (proj2 (Nat.leb_gt _ _)) by lia. by eexists.
  - destruct Hj as [Hj|]; [|done]. rewrite std_3, length_app in Hj. cbn [length group] in Hj. cbn [encode_groups]. rewrite (proj2 (Nat.leb_gt _ _)) by lia.
    destruct (IH (j + 4)%nat ltac:(lia)) as (dst & -> & Hlen & Hdst). eexists. split; [reflexivity|]. rewrite std_3, !length_app, Hlen. split; [done|]. cbn [body length]. rewrite pads_3, <- Hdst.
    assert (pads (length src) <= length dst)%nat.
    { rewrite Hlen. unfold std. rewrite length_app, length_replicate. lia. }
    change (length (group a b c)) with 4%nat. rewrite take_app_ge by (change (length (group a b c)) with 4%nat; lia). f_equal. f_equal. change (length (group a b c)) with 4%nat. lia.
Qed.
Lemma encode_std src dst_size : (4 <= dst_size)%nat -> (length (std src) < dst_size)%nat -> crypto_base64_encode src dst_size = Some (std src).
Proof.
  intros H4 Hroom. unfold crypto_base64_encode. rewrite (proj2 (Nat.ltb_ge _ _)) by lia. destruct (encode_groups_std dst_size 0 src) as (dst & -> & Hlen & Hbody); [left; lia|]. cbn [mbind option_bind].
  unfold std. rewrite <- Hbody. unfold pads in *. pose proof (Nat.mod_upper_bound (length src) 3 ltac:(lia)) as Hm. pose proof (std_length src) as Hl.
  assert (Hj : (length src mod 3 <> 0 -> 4 <= length dst)%nat).
  { intros Hne. assert (length src <> 0)%nat by (intros E; by rewrite E in Hne). rewrite Hlen, Hl. assert (1 <= (length src + 2) / 3)%nat by (apply Nat.div_le_lower_bound; lia). lia. }
  destruct (length src mod 3)%nat as [|[|[|]]]; [..|lia]; cbn [Nat.eqb andb Nat.sub Nat.modulo].
  - cbn. rewrite Nat.sub_0_r, app_nil_r. by rewrite take_ge.
  - rewrite (proj2 (Nat.leb_le _ _)) by lia. done.
  - rewrite (proj2 (Nat.leb_le _ _)) by lia. done.
Qed.
Lemma body_chars src : Forall (fun x => x <> 61 /\ x <> 36) (body src).
Proof.
  induction src as [| | |a b c src IH] using list_ind3; cbn [body]; [constructor|apply Forall_take, group_chars..|]. apply Forall_app. split; [apply group_chars|done].
Qed.
Lemma padding_app p l : Forall (fun x => x <> 61) l -> padding (replicate p 61 ++ l) = p.
Proof.
  intros Hl. induction p as [|p IH]; cbn; [|by rewrite IH]. destruct Hl as [|x l Hx Hl]; [done|]. cbn. by rewrite (proj2 (Z.eqb_neq _ _)).
Qed.
(** Decoding the body: the whole groups, then ones for a group that was padded. *)
Definition garbled (src : list Z) : list Z := take (3 * (length src / 3)) src ++ (if (length src mod 3 =? 0)%nat then [] else [255; 255; 255]).
Lemma garbled_3 a b c src : garbled (a :: b :: c :: src) = [a; b; c] ++ garbled src.
Proof.
  unfold garbled. cbn [length]. rewrite mod_3. replace (S (S (S (length src)))) with (length src + 1 * 3)%nat by lia. rewrite Nat.div_add by lia.
  replace (3 * (length src / 3 + 1))%nat with (S (S (S (3 * (length src / 3))))) by lia. done.
Qed.
Lemma dec_loop_body room src dst : Forall byte_ok src -> (length dst <= room)%nat -> dec_loop room (body src) dst = Some (take room (dst ++ garbled src)).
Proof.
  intros Hs. revert dst. induction src as [|a|a b|a b c src IH] using list_ind3; intros dst Hd.
  - unfold garbled. cbn. by rewrite app_nil_r, take_ge.
  - apply Forall_cons in Hs as [Ha _]. pose proof (group_spec a 0 0 ltac:(unfold byte_ok; lia) ltac:(unfold byte_ok; lia)) as Hg. cbn [fmap list_fmap group] in Hg. injection Hg as E0 E1 E2 E3.
    cbn [body group take dec_loop]. rewrite E0, E1. rewrite dec_group_padded by (try apply Z.mod_pos_bound; lia). unfold garbled. cbn. by rewrite Nat.max_l.
  - apply Forall_cons in Hs as [Ha [Hb _]%Forall_cons]. pose proof (group_spec a b 0 Hb ltac:(unfold byte_ok; lia)) as Hg. cbn [fmap list_fmap group] in Hg. injection Hg as E0 E1 E2 E3.
    cbn [body group take dec_loop]. rewrite E0, E1, E2.
    rewrite dec_group_padded by (try (etransitivity; [|apply Z.mod_pos_bound]); lia). unfold garbled. cbn. by rewrite Nat.max_l.
  - apply Forall_cons in Hs as [Ha [Hb [Hc Hs]%Forall_cons]%Forall_cons]. pose proof (group_spec a b c Hb Hc) as Hg. cbn [fmap list_fmap group] in Hg. injection Hg as E0 E1 E2 E3.
    cbn [body group app dec_loop]. rewrite E0, E1, E2, E3. rewrite dec_group_whole by done. cbn [mbind option_bind]. rewrite IH by (done || (rewrite length_take; lia)).
    f_equal. rewrite garbled_3. rewrite Nat.max_l by lia. destruct (Nat.le_gt_cases (length (dst ++ [a; b; c])) room) as [Hle|Hgt].
    + by rewrite (take_ge (dst ++ [a; b; c])), <- app_assoc by lia.
    + etransitivity; [apply take_app_le; rewrite length_take; lia|]. rewrite take_take, (app_assoc dst [a; b; c]), (take_app_le (dst ++ [a; b; c])) by lia. f_equal. lia.
Qed.
(** Decoding what was encoded gives back the bytes of the whole groups; a last group of one
    or two bytes becomes bytes of ones, and when the room is just enough the length told is
    too small. *)
Theorem base64_decode_encode src dst_size room : Forall byte_ok src -> (4 <= dst_size)%nat -> (length (std src) < dst_size)%nat ->
  exists text, crypto_base64_encode src dst_size = Some text /\
    crypto_base64_decode text room = Some (take room (garbled src), u64 (Z.of_nat (length (take room (garbled src))) - Z.of_nat (pads (length src)))).
Proof.
  intros Hs H4 Hroom. exists (std src). split; [by apply encode_std|]. unfold crypto_base64_decode. assert (Hp : padding (reverse (std src)) = pads (length src)).
  { unfold std. rewrite reverse_app, reverse_replicate. apply padding_app. apply Forall_reverse. eapply Forall_impl; [apply body_chars|]. by intros x [H _]. }
  rewrite Hp. replace (take (length (std src) - pads (length src)) (std src)) with (body src).
  2:{ unfold std. rewrite length_app, length_replicate, Nat.add_sub. by rewrite take_app_length. }
  by rewrite dec_loop_body by (done || cbn; lia).
Qed.
(** The round trip: exactly for lengths divisible by three, or when the last bytes happen to
    be ones. *)
Corollary base64_roundtrip src : Forall byte_ok src -> (length src mod 3 = 0)%nat -> Z.of_nat (length src) < 2 ^ 64 ->
  exists text, crypto_base64_encode src (5 + 2 * length src) = Some text /\ crypto_base64_decode text (length src) = Some (src, Z.of_nat (length src)).
Proof.
  intros Hs H3 H64. destruct (base64_decode_encode src (5 + 2 * length src) (length src) Hs) as (text & Ht & Hd); [lia| |].
  { rewrite std_length. pose proof (Nat.div_mod (length src + 2) 3 ltac:(lia)). lia. }
  exists text. split; [done|]. rewrite Hd. assert (Hg : garbled src = src).
  { unfold garbled. rewrite H3. cbn [Nat.eqb]. rewrite app_nil_r. apply take_ge. pose proof (Nat.div_mod (length src) 3 ltac:(lia)). lia. }
  rewrite Hg, take_ge by lia. unfold pads. rewrite H3. cbn. rewrite Z.sub_0_r, u64_small by lia. done.
Qed.

(** ** Passwords *)

Section passwords.
Context (RAND_bytes : nat -> option (list Z)) (PBKDF2 : list Z -> list Z -> Z -> nat -> option (list Z)).
(** What OpenSSL promises: as many bytes as were asked for. *)
Context (RAND_len : forall n s, RAND_bytes n = Some s -> length s = n /\ Forall byte_ok s).
Context (PBKDF2_len : forall p s i n d, PBKDF2 p s i n = Some d -> length d = n /\ Forall byte_ok d).

Lemma lcg_bytes_ok n seed : length (lcg_bytes n seed) = n /\ Forall byte_ok (lcg_bytes n seed).
Proof.
  revert seed. induction n as [|n IH]; intros seed; [done|]. cbn [lcg_bytes length]. destruct (IH (u32 (seed * 1103515245 + 12345))) as [-> Hf]. split; [done|]. constructor; [apply u8_range|done].
Qed.
Lemma salt_ok now : let s := (crypto_generate_salt RAND_bytes CRYPTO_SALT_LEN now).2 in length s = 32%nat /\ Forall byte_ok s.
Proof. unfold crypto_generate_salt. cbn [Nat.eqb CRYPTO_SALT_LEN]. destruct (RAND_bytes _) eqn:Hr; [by apply RAND_len in Hr|apply lcg_bytes_ok]. Qed.
Lemma std_32 s : length s = 32%nat -> length (std s) = 44%nat.
Proof. intros Hs. by rewrite std_length, Hs. Qed.
Lemma hash_password_inv config password now ph : crypto_hash_password RAND_bytes PBKDF2 config password now = Some ph ->
  password_ok password = true /\ crypto_pbkdf2 PBKDF2 (password ++ pepper config) (salt ph) (iterations config) CRYPTO_HASH_LEN = Some (hash ph) /\ h_iterations ph = iterations config /\
  length (salt ph) = 32%nat /\ Forall byte_ok (salt ph) /\ length (hash ph) = 32%nat /\ Forall byte_ok (hash ph) /\
  storage_string ph = truncated STORAGE_LEN (mcf_text (iterations config) (std (salt ph)) (std (hash ph))).
Proof.
  unfold crypto_hash_password. destruct (password_ok password); [|done]. cbn [negb]. destruct (salt_ok now) as [Hsl Hsb]. set (s := (crypto_generate_salt RAND_bytes CRYPTO_SALT_LEN now).2) in *. clearbody s.
  destruct (crypto_pbkdf2 PBKDF2 (password ++ pepper config) s (iterations config) CRYPTO_HASH_LEN) as [d|] eqn:Hd; [|done]. cbn [mbind option_bind].
  assert (Hdl : length d = 32%nat /\ Forall byte_ok d).
  { revert Hd. unfold crypto_pbkdf2. cbn [Nat.eqb CRYPTO_HASH_LEN]. destruct (_ || _); [done|]. apply PBKDF2_len. }
  rewrite (encode_std s) by (rewrite ?std_32 by done; unfold CRYPTO_MAX_B64_LEN; lia). rewrite (encode_std d) by (rewrite ?std_32 by apply Hdl; unfold CRYPTO_MAX_B64_LEN; lia). cbn [mbind option_bind].
  intros [= <-]. cbn [salt hash h_iterations storage_string]. by destruct Hdl.
Qed.
(** A password verifies against its own hash, as the hash was made. *)
Theorem crypto_verify_after_hash config password now ph : crypto_hash_password RAND_bytes PBKDF2 config password now = Some ph -> crypto_verify_password PBKDF2 config password ph = 1.
Proof.
  intros (Hp & Hd & Hi & _)%hash_password_inv. unfold crypto_verify_password. rewrite Hp. cbn [negb]. rewrite Hi, Hd. rewrite const_time_compare_correct by done. by rewrite bool_decide_eq_true_2.
Qed.

Lemma strtoul_print n : 0 <= n < 2 ^ 32 -> strtoul (print_lld n) = n.
Proof.
  intros Hn. pose proof (signed_value_print n ltac:(lia)) as Hv. unfold strtoul. unfold signed_value in Hv. assert (Hne : print_lld n <> []).
  { unfold print_lld. rewrite (proj2 (Z.ltb_ge _ _)) by lia. cbn [digits]. destruct (n <? 10); [done|]. intros E%app_eq_nil. by destruct E. }
  destruct (skip_spaces (print_lld n)) as [|c l] eqn:Hs.
  - cbn [digits_value]. rewrite <- Hv. done.
  - destruct (Z.eqb_spec c 45) as [->|]; [|destruct (Z.eqb_spec c 43)]; rewrite ?Hv.
    + assert (H0 : 0 <= digits_value 0 l) by (cut (forall a l, 0 <= a -> 0 <= digits_value a l); [intros H; by apply H|]; clear; intros a l; revert a; induction l as [|x l IH]; intros a Ha; cbn; [done|];
        destruct (is_digit x) eqn:Hx; [|done]; apply IH; unfold is_digit in Hx; zbool; lia).
      assert (digits_value 0 l = 0 /\ n = 0) as [-> ->] by lia. done.
    + by rewrite (proj2 (Z.leb_gt _ _)) by lia.
    + by rewrite (proj2 (Z.leb_gt _ _)) by lia.
Qed.
Lemma print_no_dollar n : 36 ∉ print_lld n.
Proof. intros H. pose proof (print_lld_chars n) as Hc. rewrite Forall_forall in Hc. specialize (Hc 36 H). lia. Qed.
Lemma std_no_dollar s : 36 ∉ std s.
Proof.
  unfold std. intros [H|H]%elem_of_app; [|apply elem_of_replicate in H as [H _]; done]. pose proof (body_chars s) as Hc. rewrite Forall_forall in Hc. by destruct (Hc 36 H).
Qed.
Lemma decode_std_32 s : Forall byte_ok s -> length s = 32%nat -> crypto_base64_decode (std s) 32 = Some (take 30 s ++ [255; 255], 31).
Proof.
  intros Hs Hl. destruct (base64_decode_encode s 512 32 Hs) as (text & Ht & Hd); [lia|rewrite std_32 by done; lia|]. rewrite encode_std in Ht by (rewrite ?std_32 by done; lia). injection Ht as <-. rewrite Hd.
  unfold garbled, pads. rewrite Hl. assert (Hg : take 32 (take (3 * (32 / 3)) s ++ [255; 255; 255]) = take 30 s ++ [255; 255]).
  { change (3 * (32 / 3))%nat with 30%nat. rewrite take_app_ge by (rewrite length_take; lia). rewrite length_take, Nat.min_l by lia. done. }
  change (32 mod 3 =? 0)%nat with false. cbn [negb]. rewrite Hg. rewrite length_app, length_take, Nat.min_l by lia. done.
Qed.
Lemma decode_field_32 s k : Forall byte_ok s -> length s = 32%nat -> decode_field 32 (std s) k = k (take 30 s ++ [255]).
Proof.
  intros Hs Hl. unfold decode_field. rewrite decode_std_32 by done. assert (Hlen : length (take 30 s ++ [255; 255]) = 32%nat) by (by rewrite length_app, length_take, Hl).
  rewrite Hlen. cbn [Z.to_nat Z.min Nat.ltb Nat.leb]. change (Z.to_nat (Z.min 31 (Z.of_nat 32))) with 31%nat. rewrite take_app_ge by (rewrite length_take; lia). rewrite length_take, Nat.min_l by lia. done.
Qed.
(** A stored hash is not read back: salt and hash come back with 31 bytes, of which the
    last is 255. *)
Theorem crypto_mcf_garbles config password now ph : 10 <= iterations config < 2 ^ 32 ->
  crypto_hash_password RAND_bytes PBKDF2 config password now = Some ph ->
  crypto_parse_mcf (storage_string ph) = Parsed (mk_hash (storage_string ph) CRYPTO_HASH_SHA256 (h_iterations ph) (take 30 (salt ph) ++ [255]) (take 30 (hash ph) ++ [255])).
Proof.
  intros Hit (_ & _ & Hi & Hsl & Hsb & Hhl & Hhb & Hst)%hash_password_inv. set (text := mcf_text (iterations config) (std (salt ph)) (std (hash ph))) in *.
  assert (Hlen : (length text < STORAGE_LEN)%nat).
  { unfold text, mcf_text. rewrite !length_app, !std_32 by done. pose proof (print_lld_length (iterations config)). cbn [length str_bytes]. change (length (str_bytes "$pbkdf2-sha256$")) with 15%nat.
    unfold STORAGE_LEN, CRYPTO_MAX_B64_LEN. lia. }
  rewrite truncated_id in Hst by done. rewrite Hst, Hi. unfold crypto_parse_mcf. rewrite truncated_id by done.
  assert (Htext : text = 36 :: str_bytes "pbkdf2-sha256" ++ 36 :: print_lld (iterations config) ++ 36 :: std (salt ph) ++ 36 :: std (hash ph)) by reflexivity.
  assert (Hstd : forall s, length s = 32%nat -> std s <> []) by (intros s Hs E; apply std_32 in Hs; by rewrite E in Hs).
  assert (Hpr : print_lld (iterations config) <> []).
  { unfold print_lld. rewrite (proj2 (Z.ltb_ge _ _)) by lia. cbn [digits]. destruct (_ <? 10); [done|]. intros E%app_eq_nil. by destruct E. }
  clearbody text. rewrite Htext at 1. cbn [Z.eqb Pos.eqb negb].
  rewrite strtok_app by (apply (bool_decide_unpack _); vm_compute; exact I). rewrite strtok_app by (done || apply print_no_dollar). rewrite strtok_app by (apply std_no_dollar || by apply Hstd).
  rewrite strtok_last by (apply std_no_dollar || by apply Hstd). rewrite bool_decide_eq_true_2 by done. cbn [negb]. rewrite strtoul_print, u32_small by lia. rewrite (proj2 (Z.ltb_ge _ _)) by lia.
  unfold CRYPTO_SALT_LEN, CRYPTO_HASH_LEN. by rewrite !decode_field_32 by done.
Qed.
End passwords.

(** ** Examples *)

(** Stand-ins for OpenSSL: as many bytes as asked for, depending on all the input. *)
Definition toy_rand (n : nat) : option (list Z) := Some (map u8 (seqZ 3 (Z.of_nat n))).
Definition toy_pbkdf2 (p s : list Z) (i : Z) (n : nat) : option (list Z) :=
  Some (map (fun k => u8 (foldl (fun a b => u8 (a * 31 + b + k)) (u8 i) (p ++ s))) (seqZ 0 (Z.of_nat n))).
Lemma toy_bytes (f : Z -> Z) a n : length (map (fun k => u8 (f k)) (seqZ a (Z.of_nat n))) = n /\ Forall byte_ok (map (fun k => u8 (f k)) (seqZ a (Z.of_nat n))).
Proof.
  split; [rewrite length_map, length_seqZ; lia|]. apply Forall_forall. intros x Hx%list_elem_of_In%in_map_iff. destruct Hx as (k & <- & _). apply u8_range.
Qed.
Lemma toy_rand_len n s : toy_rand n = Some s -> length s = n /\ Forall byte_ok s.
Proof. intros [= <-]. apply (toy_bytes (fun k => k)). Qed.
Lemma toy_pbkdf2_len p s i n d : toy_pbkdf2 p s i n = Some d -> length d = n /\ Forall byte_ok d.
Proof. intros [= <-]. apply (toy_bytes (fun k => foldl (fun a b => u8 (a * 31 + b + k)) (u8 i) (p ++ s))). Qed.
Definition toy_config : CryptoKdfConfig := crypto_kdf_init (Some (str_bytes "pepper")).
Definition toy_hash : CryptoPasswordHash := default (mk_hash [] CRYPTO_HASH_SHA256 0 [] []) (crypto_hash_password toy_rand toy_pbkdf2 toy_config (str_bytes "s3cret") 0).
Lemma crypto_mcf_garbles_witness : 10 <= iterations toy_config < 2 ^ 32 /\
  crypto_parse_mcf (storage_string toy_hash) = Parsed (mk_hash (storage_string toy_hash) CRYPTO_HASH_SHA256 (h_iterations toy_hash) (take 30 (salt toy_hash) ++ [255]) (take 30 (hash toy_hash) ++ [255])).
Proof.
  split; [vm_compute; split; congruence|].
  refine (crypto_mcf_garbles toy_rand toy_pbkdf2 toy_rand_len toy_pbkdf2_len toy_config (str_bytes "s3cret") 0 toy_hash _ _); [vm_compute; split; congruence|vm_compute; reflexivity].
Defined.
Lemma crypto_verify_after_hash_witness : crypto_verify_password toy_pbkdf2 toy_config (str_bytes "s3cret") toy_hash = 1.
Proof. refine (crypto_verify_after_hash toy_rand toy_pbkdf2 toy_rand_len toy_pbkdf2_len toy_config (str_bytes "s3cret") 0 toy_hash _). vm_compute. reflexivity. Defined.

(** ** Behaviours found *)

(** The right password does not verify against the hash that was stored and read back. *)
Example stored_hash_refused : match crypto_parse_mcf (storage_string toy_hash) with Parsed ph => crypto_verify_password toy_pbkdf2 toy_config (str_bytes "s3cret") ph | _ => -1 end = 0.
Proof. vm_compute. reflexivity. Qed.
(** Text of padding alone is decoded to a length that wraps around, and copied from memory
    that was not written. *)
Example padding_alone : crypto_base64_decode (str_bytes "====") 32 = Some ([], 2 ^ 64 - 4) /\ crypto_parse_mcf (str_bytes "$pbkdf2-sha256$1000$====$QUFB") = Undefined.
Proof. vm_compute. done. Qed.
(** Characters that are not of the alphabet are read as ones in the last two places. *)
Example unknown_characters : crypto_base64_decode (str_bytes "AA?!") 32 = Some ([255; 255; 255], 3).
Proof. vm_compute. reflexivity. Qed.
(** Hashes of fewer than ten iterations are made, and refused when read. *)
Example few_iterations : let c := mk_config [] 5 CRYPTO_HASH_SHA256 in
  option_map (fun ph => crypto_parse_mcf (storage_string ph)) (crypto_hash_password toy_rand toy_pbkdf2 c (str_bytes "s3cret") 0) = Some Failed.
Proof. vm_compute. reflexivity. Qed.
(** Freed memory was overwritten. *)
Theorem secure_free_zeroes n c m : (crypto_secure_free (crypto_secure_alloc n c m)).1 = if (n =? 0)%nat || negb c then None else Some (replicate n 0).
Proof.
  unfold crypto_secure_alloc. destruct (_ || _); [done|]. cbn [crypto_secure_free data len fst]. by rewrite drop_ge, app_nil_r by (by rewrite length_replicate).
Qed.
