(* ===== verification/Resilience.v ===== *)
(** Model of the resilience patterns of [mini-business-arch/src/business_patterns.c]: the
    breaker, the token bucket, the backoff, the bulkhead and the pipeline
    [resilience_execute] that composes them; and the theorems on it.

    [W] is everything outside: [clock] and [rand] of the C library and the guarded function
    take it and give it back.  A policy holds pointers to the four objects, which may be
    null; they are kept in the policy here, so the guarded function does not use them.
    Quantities of tokens are C doubles, over any [Arith]. *)

From Stdlib Require Import QArith.
From S2P Require Import Prelude Bytes Arith.
#[local] Open Scope Z_scope.

Definition or_default (x d : Z) : Z := if 0 <? x then x else d.

(** ** Circuit breaker *)

Definition CB_MAX_FAILURES_DEFAULT : Z := 5.
Definition CB_TIMEOUT_MS_DEFAULT : Z := 30000.
Definition CB_HALF_OPEN_MAX_DEFAULT : Z := 3.
Inductive CircuitBreakerState := CB_STATE_CLOSED | CB_STATE_OPEN | CB_STATE_HALF_OPEN.
Record CircuitBreaker := mk_cb {
  state : CircuitBreakerState; failure_count : Z; failure_threshold : Z; half_open_max_requests : Z; half_open_success_count : Z; half_open_request_count : Z;
  last_failure_time_ms : Z; cb_timeout_ms : Z; last_state_change_ms : Z; cb_successes : Z; cb_failures : Z; cb_rejected : Z; cb_name : list Z;
}.

Definition cb_create_with_config (name : option (list Z)) (threshold timeout half_open_max : Z) : CircuitBreaker :=
  mk_cb CB_STATE_CLOSED 0 (or_default threshold CB_MAX_FAILURES_DEFAULT) (or_default half_open_max CB_HALF_OPEN_MAX_DEFAULT) 0 0 0
    (or_default timeout CB_TIMEOUT_MS_DEFAULT) 0 0 0 0 (from_option (truncated 128) [] name).
Definition cb_create (name : option (list Z)) : CircuitBreaker :=
  cb_create_with_config name CB_MAX_FAILURES_DEFAULT CB_TIMEOUT_MS_DEFAULT CB_HALF_OPEN_MAX_DEFAULT.
Definition cb_reset (cb : CircuitBreaker) : CircuitBreaker :=
  cb <| state := CB_STATE_CLOSED |> <| failure_count := 0 |> <| half_open_success_count := 0 |> <| half_open_request_count := 0 |>.
(** [now] is the reading of [now_ms] at the start of the call. *)
Definition cb_allow_request (cb : CircuitBreaker) (now : Z) : bool * CircuitBreaker :=
  match state cb with
  | CB_STATE_CLOSED => (true, cb)
  | CB_STATE_OPEN =>
      if cb_timeout_ms cb <=? u64 (now - last_state_change_ms cb) then
        (true, cb <| state := CB_STATE_HALF_OPEN |> <| half_open_request_count := 0 |> <| half_open_success_count := 0 |> <| last_state_change_ms := now |>)
      else (false, cb <| cb_rejected ::= incr |>)
  | CB_STATE_HALF_OPEN =>
      if half_open_request_count cb <? half_open_max_requests cb then (true, cb <| half_open_request_count ::= Z.add 1 |>)
      else (false, cb <| cb_rejected ::= incr |>)
  end.
Definition cb_record_success (cb : CircuitBreaker) (now : Z) : CircuitBreaker :=
  let cb := cb <| cb_successes ::= incr |> in
  let cb :=
    match state cb with
    | CB_STATE_HALF_OPEN =>
        let cb := cb <| half_open_success_count ::= Z.add 1 |> in
        if half_open_max_requests cb <=? half_open_success_count cb
        then cb <| state := CB_STATE_CLOSED |> <| failure_count := 0 |> <| last_state_change_ms := now |> else cb
    | _ => cb
    end in
  match state cb with CB_STATE_CLOSED => cb <| failure_count := 0 |> | _ => cb end.
Definition cb_record_failure (cb : CircuitBreaker) (now : Z) : CircuitBreaker :=
  let cb := cb <| cb_failures ::= incr |> <| last_failure_time_ms := now |> in
  match state cb with
  | CB_STATE_CLOSED =>
      let cb := cb <| failure_count ::= Z.add 1 |> in
      if failure_threshold cb <=? failure_count cb then cb <| state := CB_STATE_OPEN |> <| last_state_change_ms := now |> else cb
  | CB_STATE_HALF_OPEN => cb <| state := CB_STATE_OPEN |> <| last_state_change_ms := now |>
  | CB_STATE_OPEN => cb
  end.
Definition cb_state_string (s : CircuitBreakerState) : list Z :=
  str_bytes match s with CB_STATE_CLOSED => "CLOSED" | CB_STATE_OPEN => "OPEN" | CB_STATE_HALF_OPEN => "HALF_OPEN" end.
Definition cb_get_stats (cb : CircuitBreaker) : Z * Z * Z * list Z := (cb_successes cb, cb_failures cb, cb_rejected cb, cb_state_string (state cb)).

(** ** Bulkhead *)

Record Bulkhead := mk_bulkhead {
  bh_name : list Z; max_concurrent : Z; current_count : Z; peak_concurrency : Z; total_admitted : Z; bh_rejected : Z; total_completed : Z; total_failed : Z;
}.
Definition bh_create (name : option (list Z)) (max : Z) : Bulkhead :=
  mk_bulkhead (from_option (truncated 64) [] name) (or_default max 10) 0 0 0 0 0 0.
Definition bh_try_acquire (bh : Bulkhead) : Z * Bulkhead :=
  if max_concurrent bh <=? current_count bh then (-1, bh <| bh_rejected ::= incr |>)
  else
    let bh := bh <| current_count ::= Z.add 1 |> <| total_admitted ::= incr |> in
    (0, if peak_concurrency bh <? current_count bh then bh <| peak_concurrency := current_count bh |> else bh).
Definition bh_release (bh : Bulkhead) : Bulkhead :=
  if 0 <? current_count bh then bh <| current_count ::= Z.pred |> <| total_completed ::= incr |> else bh.
Definition bh_release_with_result (bh : Bulkhead) (success : bool) : Bulkhead :=
  let bh := if 0 <? current_count bh then bh <| current_count ::= Z.pred |> else bh in
  if success then bh <| total_completed ::= incr |> else bh <| total_failed ::= incr |>.
Definition bh_is_saturated (bh : Bulkhead) : bool := max_concurrent bh <=? current_count bh.
Definition bh_get_stats (bh : Bulkhead) : Z * Z * Z * Z * Z * Z :=
  (current_count bh, peak_concurrency bh, total_admitted bh, bh_rejected bh, total_completed bh, total_failed bh).
Definition bh_reset_stats (bh : Bulkhead) : Bulkhead :=
  bh <| total_admitted := 0 |> <| bh_rejected := 0 |> <| total_completed := 0 |> <| total_failed := 0 |> <| peak_concurrency := current_count bh |>.

(** ** Backoff *)

(** [eb_pow2]: the result doubles while the counter is below [n] and the result small. *)
Fixpoint pow2_loop (rounds : nat) (result : Z) : Z :=
  match rounds with
  | O => result
  | S k => if result <? Z.shiftr (2 ^ 64 - 1) 1 then pow2_loop k (u64 (Z.shiftl result 1)) else result
  end.
Definition eb_pow2 (n : Z) : Z := pow2_loop (Z.to_nat n) 1.

Inductive ResilienceResult :=
  | RESILIENCE_OK | RESILIENCE_REJECTED_BULKHEAD | RESILIENCE_REJECTED_CIRCUIT_OPEN | RESILIENCE_REJECTED_RATE_LIMITED
  | RESILIENCE_TIMEOUT | RESILIENCE_CALL_FAILED | RESILIENCE_RETRIES_EXHAUSTED.
#[export] Instance result_eq_dec : EqDecision ResilienceResult.
Proof. solve_decision. Defined.
Definition resilience_result_string (r : ResilienceResult) : list Z :=
  str_bytes match r with
  | RESILIENCE_OK => "OK" | RESILIENCE_REJECTED_BULKHEAD => "REJECTED_BULKHEAD" | RESILIENCE_REJECTED_CIRCUIT_OPEN => "REJECTED_CIRCUIT_OPEN"
  | RESILIENCE_REJECTED_RATE_LIMITED => "REJECTED_RATE_LIMITED" | RESILIENCE_TIMEOUT => "TIMEOUT" | RESILIENCE_CALL_FAILED => "CALL_FAILED"
  | RESILIENCE_RETRIES_EXHAUSTED => "RETRIES_EXHAUSTED"
  end.

Section patterns.
Context {D : Type} `{HA : Arith D}.

Record ExponentialBackoff := mk_eb {
  base_delay_ms : Z; max_delay_ms : Z; max_retries : Z; attempt : Z; jitter_factor : D; total_retries : Z; eb_successes : Z; total_gave_up : Z;
}.
Definition eb_create (base_ms max_ms retries : Z) : ExponentialBackoff :=
  mk_eb (or_default base_ms 100) (or_default max_ms 30000) (or_default retries 3) 0 (of_Z 1) 0 0 0.
Definition with_attempt (eb : ExponentialBackoff) (a : Z) : ExponentialBackoff :=
  mk_eb (base_delay_ms eb) (max_delay_ms eb) (max_retries eb) a (jitter_factor eb) (total_retries eb) (eb_successes eb) (total_gave_up eb).
Definition eb_reset (eb : ExponentialBackoff) : ExponentialBackoff := with_attempt eb 0.
Definition eb_should_retry (eb : ExponentialBackoff) : bool := attempt eb <? max_retries eb.
Definition eb_record_success (eb : ExponentialBackoff) : ExponentialBackoff :=
  eb_reset (mk_eb (base_delay_ms eb) (max_delay_ms eb) (max_retries eb) (attempt eb) (jitter_factor eb) (total_retries eb) (incr (eb_successes eb)) (total_gave_up eb)).
Definition eb_record_gave_up (eb : ExponentialBackoff) : ExponentialBackoff :=
  eb_reset (mk_eb (base_delay_ms eb) (max_delay_ms eb) (max_retries eb) (attempt eb) (jitter_factor eb) (total_retries eb) (eb_successes eb) (incr (total_gave_up eb))).
Definition eb_get_stats (eb : ExponentialBackoff) : Z * Z * Z * Z := (attempt eb, total_retries eb, eb_successes eb, total_gave_up eb).

(** ** Token bucket *)

Record TokenBucket := mk_tb { tb_name : list Z; rate : D; burst : D; tokens : D; last_refill_ms : Z; total_allowed : Z; tb_rejected : Z }.
Definition tb_create (name : option (list Z)) (r b : D) (now : Z) : TokenBucket :=
  let r := if ltb (of_Z 0) r then r else of_Z 1 in
  let b := if ltb (of_Z 0) b then b else r in
  mk_tb (from_option (truncated 64) [] name) r b b now 0 0.
Definition tb_reset (tb : TokenBucket) (now : Z) : TokenBucket := mk_tb (tb_name tb) (rate tb) (burst tb) (burst tb) now 0 0.
Definition tb_refill (tb : TokenBucket) (now : Z) : TokenBucket :=
  let elapsed := u64 (now - last_refill_ms tb) in
  if elapsed =? 0 then tb
  else
    let t := add (tokens tb) (mul (rate tb) (div (of_Z elapsed) (of_Z 1000))) in
    mk_tb (tb_name tb) (rate tb) (burst tb) (if ltb (burst tb) t then burst tb else t) now (total_allowed tb) (tb_rejected tb).
Definition tb_try_consume (tb : TokenBucket) (now : Z) (n : D) : bool * TokenBucket :=
  let tb := tb_refill tb now in
  if leb n (tokens tb)
  then (true, mk_tb (tb_name tb) (rate tb) (burst tb) (sub (tokens tb) n) (last_refill_ms tb) (incr (total_allowed tb)) (tb_rejected tb))
  else (false, mk_tb (tb_name tb) (rate tb) (burst tb) (tokens tb) (last_refill_ms tb) (total_allowed tb) (incr (tb_rejected tb))).
Definition tb_get_fill_level (tb : TokenBucket) (now : Z) : D := let copy := tb_refill tb now in div (tokens copy) (burst copy).
Definition tb_get_stats (tb : TokenBucket) : Z * Z := (total_allowed tb, tb_rejected tb).
Definition bh_saturation_ratio (bh : Bulkhead) : D := div (of_Z (current_count bh)) (of_Z (max_concurrent bh)).

(** ** The pipeline *)

Record ResiliencePolicy := mk_policy {
  circuit_breaker : option CircuitBreaker; bulkhead : option Bulkhead; backoff : option ExponentialBackoff; rate_limiter : option TokenBucket; timeout_ms : Z;
}.
Definition resilience_policy_create (cb : option CircuitBreaker) (bh : option Bulkhead) (eb : option ExponentialBackoff) (tb : option TokenBucket) (timeout : Z)
    : ResiliencePolicy := mk_policy cb bh eb tb (or_default timeout 5000).
Definition on_cb (p : ResiliencePolicy) (f : CircuitBreaker -> CircuitBreaker) : ResiliencePolicy :=
  mk_policy (f <$> circuit_breaker p) (bulkhead p) (backoff p) (rate_limiter p) (timeout_ms p).
Definition on_bh (p : ResiliencePolicy) (f : Bulkhead -> Bulkhead) : ResiliencePolicy :=
  mk_policy (circuit_breaker p) (f <$> bulkhead p) (backoff p) (rate_limiter p) (timeout_ms p).
Definition on_eb (p : ResiliencePolicy) (f : ExponentialBackoff -> ExponentialBackoff) : ResiliencePolicy :=
  mk_policy (circuit_breaker p) (bulkhead p) (f <$> backoff p) (rate_limiter p) (timeout_ms p).
Definition on_tb (p : ResiliencePolicy) (f : TokenBucket -> TokenBucket) : ResiliencePolicy :=
  mk_policy (circuit_breaker p) (bulkhead p) (backoff p) (f <$> rate_limiter p) (timeout_ms p).

Section world.
Context {W : Type} (clock rand : W -> Z * W) (fn : W -> Z * W).

Definition now_ms (w : W) : Z * W :=
  let '(c, w) := clock w in (u64 (trunc (mul (div (of_Z c) (of_Z 1000000)) (of_Z 1000))), w).
Definition eb_random_range (max_val : Z) (w : W) : Z * W :=
  if max_val =? 0 then (0, w) else let '(r, w) := rand w in (u64 (trunc (mul (div (of_Z r) (of_Z 2147483647)) (of_Z max_val))), w).
Definition eb_next_delay_ms (eb : ExponentialBackoff) (w : W) : Z * ExponentialBackoff * W :=
  if max_retries eb <=? attempt eb then (0, eb, w)
  else
    let base := u64 (base_delay_ms eb * eb_pow2 (attempt eb)) in
    let capped := if base <? max_delay_ms eb then base else max_delay_ms eb in
    let '(jittered, w) := eb_random_range capped w in
    (jittered, mk_eb (base_delay_ms eb) (max_delay_ms eb) (max_retries eb) (attempt eb + 1) (jitter_factor eb) (incr (total_retries eb)) (eb_successes eb) (total_gave_up eb), w).

(** A step that reads the clock when there is a breaker. *)
Definition record_in_breaker (p : ResiliencePolicy) (f : CircuitBreaker -> Z -> CircuitBreaker) (w : W) : ResiliencePolicy * W :=
  match circuit_breaker p with
  | Some cb => let '(now, w) := now_ms w in (on_cb p (fun _ => f cb now), w)
  | None => (p, w)
  end.
(** The loop: what ends it, [None] when the retries are used up.  The delay is computed and
    nobody waits. *)
Fixpoint retry_loop (fuel : nat) (p : ResiliencePolicy) (w : W) : option (option ResilienceResult * ResiliencePolicy * W) :=
  match fuel with
  | O => None
  | S fuel =>
      let '(start, w) := now_ms w in
      let '(call_result, w) := fn w in
      let '(stop, w) := now_ms w in
      let elapsed := u64 (stop - start) in
      if call_result =? 0 then
        let '(p, w) := record_in_breaker p cb_record_success w in
        Some (Some RESILIENCE_OK, on_bh (on_eb p eb_record_success) (fun bh => bh_release_with_result bh true), w)
      else if timeout_ms p <? elapsed then
        let '(p, w) := record_in_breaker p cb_record_failure w in
        Some (Some RESILIENCE_TIMEOUT, on_bh (on_eb p eb_record_gave_up) (fun bh => bh_release_with_result bh false), w)
      else
        match backoff p with
        | Some eb =>
            if eb_should_retry eb then
              let '(_, eb, w) := eb_next_delay_ms eb w in
              let p := on_eb p (fun _ => eb) in
              if eb_should_retry eb then retry_loop fuel p w else Some (None, p, w)
            else Some (None, p, w)
        | None => Some (None, p, w)
        end
  end.
Definition loop_fuel (p : ResiliencePolicy) : nat := from_option (fun eb => S (Z.to_nat (max_retries eb))) 1%nat (backoff p).
(** After the loop, when no call succeeded. *)
Definition last_resort (p : ResiliencePolicy) (w : W) : ResilienceResult * ResiliencePolicy * W :=
  let '(p, w) := record_in_breaker p cb_record_failure w in
  let p := on_bh (on_eb p eb_record_gave_up) (fun bh => bh_release_with_result bh false) in
  (if from_option (fun eb => max_retries eb <=? attempt eb) false (backoff p) then RESILIENCE_RETRIES_EXHAUSTED else RESILIENCE_CALL_FAILED, p, w).
Definition execute_with_retry (p : ResiliencePolicy) (w : W) : option (ResilienceResult * ResiliencePolicy * W) :=
  let p := on_eb p eb_reset in
  match retry_loop (loop_fuel p) p w with
  | Some (Some r, p, w) => Some (r, p, w)
  | Some (None, p, w) => Some (last_resort p w)
  | None => None
  end.
(** The three gates, in the order of the code: the reason of a refusal, if any. *)
Definition enter_bulkhead (p : ResiliencePolicy) : bool * ResiliencePolicy :=
  match bulkhead p with
  | Some bh => let '(rc, bh) := bh_try_acquire bh in (rc =? 0, on_bh p (fun _ => bh))
  | None => (true, p)
  end.
Definition enter_breaker (p : ResiliencePolicy) (w : W) : bool * ResiliencePolicy * W :=
  match circuit_breaker p with
  | Some cb => let '(now, w) := now_ms w in let '(ok, cb) := cb_allow_request cb now in (ok, on_cb p (fun _ => cb), w)
  | None => (true, p, w)
  end.
Definition enter_limiter (p : ResiliencePolicy) (now : Z) : bool * ResiliencePolicy :=
  match rate_limiter p with
  | Some tb => let '(ok, tb) := tb_try_consume tb now (of_Z 1) in (ok, on_tb p (fun _ => tb))
  | None => (true, p)
  end.
Definition resilience_execute (p : ResiliencePolicy) (now : Z) (w : W) : option (ResilienceResult * ResiliencePolicy * W) :=
  let '(ok, p) := enter_bulkhead p in
  if negb ok then Some (RESILIENCE_REJECTED_BULKHEAD, p, w)
  else
    let '(ok, p, w) := enter_breaker p w in
    if negb ok then Some (RESILIENCE_REJECTED_CIRCUIT_OPEN, on_bh p bh_release, w)
    else
      let '(ok, p) := enter_limiter p now in
      if negb ok then
        let '(p, w) := record_in_breaker p cb_record_success w in
        Some (RESILIENCE_REJECTED_RATE_LIMITED, on_bh p bh_release, w)
      else execute_with_retry p w.
End world.
End patterns.
#[global] Arguments ExponentialBackoff : clear implicits.
#[global] Arguments TokenBucket : clear implicits.
#[global] Arguments ResiliencePolicy : clear implicits.

(** ** The backoff *)

Lemma pow2_loop_spec n r : (n <= 63)%nat -> r * 2 ^ Z.of_nat n <= 2 ^ 63 -> 0 < r -> pow2_loop n r = r * 2 ^ Z.of_nat n.
Proof.
  revert r. induction n as [|n IH]; intros r Hn Hr H0; cbn [pow2_loop]; [lia|].
  rewrite Nat2Z.inj_succ, Z.pow_succ_r in * by lia. assert (0 < 2 ^ Z.of_nat n) by (apply Z.pow_pos_nonneg; lia).
  change (Z.shiftr _ _) with (2 ^ 63 - 1). destruct (Z.ltb_spec r (2 ^ 63 - 1)) as [Hlt|Hge]; [|nia].
  rewrite Z.shiftl_mul_pow2 by lia. change (2 ^ 1) with 2. rewrite u64_small by nia. rewrite IH by nia. lia.
Qed.

(** The power of two is exact up to 2^63 and stays there. *)
Theorem eb_pow2_correct n : 0 <= n -> eb_pow2 n = 2 ^ Z.min n 63.
Proof.
  intros Hn. unfold eb_pow2. destruct (Z.le_gt_cases n 63) as [Hle|Hgt].
  - rewrite pow2_loop_spec; [rewrite Z2Nat.id, Z.min_l by lia; lia|lia| |lia]. rewrite Z2Nat.id by lia. rewrite Z.mul_1_l. apply Z.pow_le_mono_r; lia.
  - replace (Z.to_nat n) with (63 + S (Z.to_nat (n - 64)))%nat by lia. rewrite Z.min_r by lia. reflexivity.
Qed.
Lemma eb_pow2_correct_witness : 0 <= 5 /\ eb_pow2 5 = 2 ^ Z.min 5 63.
Proof. split; [lia|]. refine (eb_pow2_correct 5 _). lia. Defined.

Section theorems.
Context {D : Type} `{HA : Arith D}.
Context {W : Type} (clock rand fn : W -> Z * W).

(** [reached k w w']: from [w], [k] calls of the guarded function, and any use of the clock
    and the generator, lead to [w']. *)
Inductive reached : nat -> W -> W -> Prop :=
  | reached_here w : reached 0 w w
  | reached_clock k w w' : reached k w w' -> reached k w (clock w').2
  | reached_rand k w w' : reached k w w' -> reached k w (rand w').2
  | reached_call k w w' : reached k w w' -> reached (S k) w (fn w').2.

Lemma reached_trans j k w1 w2 w3 : reached j w1 w2 -> reached k w2 w3 -> reached (j + k) w1 w3.
Proof.
  intros H1 H2. revert j w1 H1. induction H2; intros j w1 H1; rewrite ?Nat.add_0_r, ?Nat.add_succ_r; [done|constructor..]; auto.
Qed.
Lemma now_ms_reached w : reached 0 w (now_ms clock w).2.
Proof. unfold now_ms. destruct (clock w) as [c w'] eqn:E. cbn [snd]. replace w' with (clock w).2 by by rewrite E. repeat constructor. Qed.
Lemma record_reached (p : ResiliencePolicy D) f w : reached 0 w (record_in_breaker clock p f w).2.
Proof.
  unfold record_in_breaker. destruct (circuit_breaker p); [|constructor].
  pose proof (now_ms_reached w). destruct (now_ms clock w) as [n w']. done.
Qed.
Lemma record_policy (p : ResiliencePolicy D) f w : exists now, (record_in_breaker clock p f w).1 = on_cb p (fun cb => f cb now).
Proof.
  unfold record_in_breaker. destruct p as [cb bh eb tb t]; destruct cb as [cb|]; cbn [circuit_breaker]; [|by exists 0].
  destruct (now_ms clock w) as [n w']. by exists n.
Qed.
Lemma next_delay_reached (eb : ExponentialBackoff D) w : reached 0 w (eb_next_delay_ms rand eb w).2.
Proof.
  unfold eb_next_delay_ms, eb_random_range. destruct (_ <=? _); [constructor|]. destruct (_ =? 0); [constructor|].
  destruct (rand w) as [r w'] eqn:E. cbn [snd]. replace w' with (rand w).2 by by rewrite E. repeat constructor.
Qed.

(** Only the counters of the backoff differ. *)
Definition same_config (eb eb' : ExponentialBackoff D) : Prop :=
  base_delay_ms eb' = base_delay_ms eb /\ max_delay_ms eb' = max_delay_ms eb /\ max_retries eb' = max_retries eb.
Lemma next_delay_backoff (eb : ExponentialBackoff D) w : eb_should_retry eb = true ->
  same_config eb (eb_next_delay_ms rand eb w).1.2 /\ attempt (eb_next_delay_ms rand eb w).1.2 = attempt eb + 1.
Proof.
  unfold eb_should_retry, eb_next_delay_ms. intros H%Z.ltb_lt. destruct (Z.leb_spec (max_retries eb) (attempt eb)); [lia|].
  destruct (eb_random_range _ _ _) as [j w']. done.
Qed.

(** How many calls a policy allows. *)
Definition budget (p : ResiliencePolicy D) : nat := from_option (fun eb => Z.to_nat (Z.max 1 (max_retries eb))) 1%nat (backoff p).
Definition succeeded (r : ResilienceResult) : bool := bool_decide (r = RESILIENCE_OK).
(** The state after a run of calls that ended in [r]. *)
Record ran (r : ResilienceResult) (p p' : ResiliencePolicy D) : Prop := {
  ran_breaker : exists now, circuit_breaker p' = (fun cb => if succeeded r then cb_record_success cb now else cb_record_failure cb now) <$> circuit_breaker p;
  ran_bulkhead : bulkhead p' = (fun bh => bh_release_with_result bh (succeeded r)) <$> bulkhead p;
  ran_limiter : rate_limiter p' = rate_limiter p;
  ran_timeout : timeout_ms p' = timeout_ms p;
  ran_backoff : option_Forall2 (fun eb eb' => same_config eb eb' /\ attempt eb' = 0) (backoff p) (backoff p');
}.
(** A result and the number of calls it took. *)
Definition calls_of (r : ResilienceResult) (n k : nat) : Prop :=
  match r with
  | RESILIENCE_OK | RESILIENCE_TIMEOUT => (1 <= k <= n)%nat
  | RESILIENCE_CALL_FAILED => k = n
  | RESILIENCE_RETRIES_EXHAUSTED => False
  | _ => k = 0%nat
  end.

Lemma ran_change_backoff r (p p' : ResiliencePolicy D) eb eb1 : backoff p = Some eb -> same_config eb eb1 -> ran r (on_eb p (fun _ => eb1)) p' -> ran r p p'.
Proof.
  intros Hb (H1 & H2 & H3) [Hc Hbh Hl Ht He]. constructor; try done. unfold on_eb in He. cbn [backoff] in He. rewrite Hb in *. cbn in He.
  inversion He as [x y [(E1 & E2 & E3) Hz]|]; subst. constructor. unfold same_config. repeat split; congruence.
Qed.

(** What the loop does from attempt [a] on. *)
Lemma retry_loop_spec fuel : forall (p : ResiliencePolicy D) w,
  (forall eb, backoff p = Some eb -> 0 <= attempt eb) ->
  (from_option (fun eb => Z.to_nat (max_retries eb - attempt eb)) 0 (backoff p) < fuel)%nat ->
  let n := from_option (fun eb => Z.to_nat (Z.max 1 (max_retries eb - attempt eb))) 1%nat (backoff p) in
  exists o p' w' k, retry_loop clock rand fn fuel p w = Some (o, p', w') /\ reached k w w' /\
    match o with
    | Some r => (r = RESILIENCE_OK \/ r = RESILIENCE_TIMEOUT) /\ calls_of r n k /\ ran r p p'
    | None => k = n /\ exists f, p' = on_eb p f /\ (forall eb, backoff p = Some eb -> same_config eb (f eb))
    end.
Proof.
  induction fuel as [|fuel IH]; intros p w Hpos Hfuel n; [lia|]. cbn [retry_loop].
  pose proof (now_ms_reached w) as R1. destruct (now_ms clock w) as [start w1]. cbn [snd] in R1.
  pose proof (reached_call _ _ _ R1) as R2. destruct (fn w1) as [rc w2]. cbn [snd] in R2.
  pose proof (reached_trans _ _ _ _ _ R2 (now_ms_reached w2)) as R3. destruct (now_ms clock w2) as [stop w3]. cbn [snd Nat.add] in R3.
  assert (Hn : (1 <= n)%nat) by (unfold n; destruct (backoff p); cbn; lia).
  destruct (rc =? 0).
  { pose proof (record_reached p cb_record_success w3) as R4. destruct (record_policy p cb_record_success w3) as [now Hp].
    destruct (record_in_breaker clock p cb_record_success w3) as [p' w4]. cbn [fst snd] in *. subst p'. eexists _, _, _, 1%nat. split; [done|].
    split; [by apply (reached_trans _ _ _ _ _ R3 R4)|]. split; [by left|]. split; [cbn; lia|]. constructor; try done; [by exists now|].
    cbn. destruct (backoff p); constructor. done. }
  destruct (_ <? _).
  { pose proof (record_reached p cb_record_failure w3) as R4. destruct (record_policy p cb_record_failure w3) as [now Hp].
    destruct (record_in_breaker clock p cb_record_failure w3) as [p' w4]. cbn [fst snd] in *. subst p'. eexists _, _, _, 1%nat. split; [done|].
    split; [by apply (reached_trans _ _ _ _ _ R3 R4)|]. split; [by right|]. split; [cbn; lia|]. constructor; try done; [by exists now|].
    cbn. destruct (backoff p); constructor. done. }
  destruct (backoff p) as [eb|] eqn:Hb; cbn [from_option] in *.
  2:{ eexists _, _, _, 1%nat. split; [done|]. split; [done|]. split; [done|]. exists id. split; [|done].
      destruct p as [? ? b ? ?]. cbn in Hb. by subst b. }
  assert (Hid : p = on_eb p id) by (destruct p as [? ? b ? ?]; cbn in Hb; by subst b).
  destruct (eb_should_retry eb) eqn:Hs.
  2:{ eexists _, _, _, 1%nat. split; [done|]. split; [done|]. split; [|exists id; split; [done|by intros ? [= <-]]].
      unfold eb_should_retry in Hs. apply Z.ltb_ge in Hs. unfold n. lia. }
  pose proof (next_delay_reached eb w3) as R4. destruct (next_delay_backoff eb w3 Hs) as [Hc Ha].
  destruct (eb_next_delay_ms rand eb w3) as [[d eb'] w4]. cbn [fst snd] in *.
  pose proof (reached_trans _ _ _ _ _ R3 R4) as R5. cbn [Nat.add] in R5.
  unfold eb_should_retry in Hs. apply Z.ltb_lt in Hs. destruct (Hc) as (_ & _ & Hm). specialize (Hpos eb eq_refl).
  destruct (eb_should_retry eb') eqn:Hs'; unfold eb_should_retry in Hs'.
  - apply Z.ltb_lt in Hs'. set (p1 := on_eb p (fun _ => eb')).
    assert (Hb1 : backoff p1 = Some eb') by (unfold p1, on_eb; cbn; by rewrite Hb).
    destruct (IH p1 w4) as (o & p' & w' & k & -> & R6 & Ho); rewrite ?Hb1; cbn [from_option]; [by intros ? [= <-]; lia|lia|].
    rewrite Hb1 in Ho. cbn [from_option] in Ho. eexists _, _, _, (1 + k)%nat. split; [done|]. split; [by eapply reached_trans|].
    destruct o as [r|].
    + destruct Ho as (Hr & Hk & Hran). split; [done|]. split; [|by eapply ran_change_backoff].
      destruct Hr as [-> | ->]; cbn in *; unfold n; lia.
    + destruct Ho as (-> & f & -> & Hf). split; [unfold n; lia|]. exists (fun _ => f eb'). split; [unfold p1, on_eb; cbn; by rewrite Hb|].
      intros ? [= <-]. destruct (Hf eb' eq_refl) as (? & ? & ?), Hc as (? & ? & ?). unfold same_config. repeat split; congruence.
  - apply Z.ltb_ge in Hs'. eexists _, _, _, 1%nat. split; [done|]. split; [done|]. split; [unfold n; lia|].
    exists (fun _ => eb'). split; [done|]. by intros ? [= <-].
Qed.

Lemma execute_with_retry_spec (p : ResiliencePolicy D) w :
  (forall eb, backoff p = Some eb -> 0 < max_retries eb) ->
  exists r p' w' k, execute_with_retry clock rand fn p w = Some (r, p', w') /\ reached k w w' /\ calls_of r (budget p) k /\ ran r p p' /\ (0 < k)%nat.
Proof.
  intros Hmax. unfold execute_with_retry. set (p0 := on_eb p eb_reset).
  assert (Hran : forall r p', ran r p0 p' -> ran r p p').
  { intros r p' [Hc Hbh Hl Ht He]. constructor; try done. unfold p0, on_eb in He. cbn [backoff] in He. destruct (backoff p) as [eb|]; cbn in He; inversion He; by constructor. }
  assert (Hn : from_option (fun eb => Z.to_nat (Z.max 1 (max_retries eb - attempt eb))) 1%nat (backoff p0) = budget p).
  { unfold budget, p0, on_eb. cbn. destruct (backoff p) as [eb|]; cbn; [|done]. f_equal. lia. }
  assert (Hpos : (0 < budget p)%nat) by (rewrite <- Hn; destruct (backoff p0); cbn; lia).
  destruct (retry_loop_spec (loop_fuel p0) p0 w) as (o & p' & w' & k & -> & R & Ho).
  { unfold p0, on_eb. cbn. intros eb (e & _ & ->)%fmap_Some. done. }
  { unfold loop_fuel, p0, on_eb. cbn. destruct (backoff p) as [eb|]; cbn; lia. }
  rewrite Hn in Ho. destruct o as [r|].
  { destruct Ho as (Hr & Hk & Hp'). exists r, p', w', k. split; [done|]. split; [done|]. split; [done|]. split; [by apply Hran|]. destruct Hr as [-> | ->]; cbn in Hk; lia. }
  destruct Ho as (-> & f & -> & Hf). unfold last_resort. set (p1 := on_eb p0 f).
  pose proof (record_reached p1 cb_record_failure w') as R4. destruct (record_policy p1 cb_record_failure w') as [now Hp].
  destruct (record_in_breaker clock p1 cb_record_failure w') as [p2 w4]. cbn [fst snd] in *. subst p2.
  assert (Hr : from_option (fun eb => max_retries eb <=? attempt eb) false (backoff (on_bh (on_eb (on_cb p1 (fun cb => cb_record_failure cb now)) eb_record_gave_up) (fun bh => bh_release_with_result bh false)))
    = from_option (fun eb => max_retries eb <=? 0) false (backoff p)).
  { unfold p1, p0, on_eb, on_bh, on_cb. cbn. destruct (backoff p) as [eb|] eqn:Hb; cbn; [|done].
    destruct (Hf (eb_reset eb)) as (_ & _ & ->); [|done]. unfold p0, on_eb. cbn. by rewrite Hb. }
  rewrite Hr. replace (from_option _ false (backoff p)) with false.
  2:{ destruct (backoff p) as [eb|]; cbn; [|done]. symmetry. apply Z.leb_gt. auto. }
  eexists _, _, _, _. split; [done|]. split; [by eapply reached_trans|]. split; [cbn; lia|]. split; [|lia].
  apply Hran. split; [by exists now|done|done|done|].
  match goal with |- option_Forall2 ?R _ _ => change (option_Forall2 R (backoff p0) (eb_record_gave_up <$> (f <$> backoff p0))) end. destruct (backoff p0) as [eb|] eqn:Hb; constructor. split; [by apply Hf|done].
Qed.

(** A refusal leaves the number of calls in progress as it was; admission adds one. *)
Lemma acquire_count bh : let r := bh_try_acquire bh in
  current_count r.2 = (if bh_is_saturated bh then current_count bh else current_count bh + 1) /\ r.1 = (if bh_is_saturated bh then -1 else 0) /\ max_concurrent r.2 = max_concurrent bh.
Proof. unfold bh_try_acquire, bh_is_saturated. repeat case_match; cbn; repeat split; lia. Qed.
Lemma release_count bh : 0 <= current_count bh -> current_count (bh_release bh) = Z.max 0 (current_count bh - 1).
Proof. unfold bh_release. destruct (Z.ltb_spec 0 (current_count bh)); cbn; lia. Qed.
Lemma release_result_count bh b : 0 <= current_count bh -> current_count (bh_release_with_result bh b) = Z.max 0 (current_count bh - 1).
Proof. unfold bh_release_with_result. destruct (Z.ltb_spec 0 (current_count bh)), b; cbn; lia. Qed.

(** What a call of the pipeline does: which gate refused it or how many calls were made, and
    how its bulkhead stands. *)
Record executed (p : ResiliencePolicy D) (r : ResilienceResult) (p' : ResiliencePolicy D) (k : nat) : Prop := {
  ex_calls : calls_of r (budget p) k;
  ex_bulkhead_refuses : r = RESILIENCE_REJECTED_BULKHEAD <-> exists bh, bulkhead p = Some bh /\ bh_is_saturated bh = true;
  ex_breaker_refuses : r = RESILIENCE_REJECTED_CIRCUIT_OPEN -> exists cb, circuit_breaker p = Some cb /\ state cb <> CB_STATE_CLOSED;
  ex_limiter_refuses : r = RESILIENCE_REJECTED_RATE_LIMITED -> is_Some (rate_limiter p);
  ex_bulkhead_kept : option_Forall2 (fun bh bh' => current_count bh' = current_count bh /\ max_concurrent bh' = max_concurrent bh) (bulkhead p) (bulkhead p');
  ex_budget : budget p' = budget p;
}.
Definition usable (p : ResiliencePolicy D) : Prop :=
  (forall eb, backoff p = Some eb -> 0 < max_retries eb) /\ (forall bh, bulkhead p = Some bh -> 0 <= current_count bh).

Lemma enter_bulkhead_spec (p : ResiliencePolicy D) : exists f, (enter_bulkhead p).2 = on_bh p f /\
  match bulkhead p with Some bh => f bh = (bh_try_acquire bh).2 /\ (enter_bulkhead p).1 = negb (bh_is_saturated bh) | None => (enter_bulkhead p).1 = true end.
Proof.
  unfold enter_bulkhead. destruct p as [cb [bh|] eb tb t]; cbn [bulkhead]; [|by exists id].
  destruct (acquire_count bh) as (_ & Hr & _). destruct (bh_try_acquire bh) as [rc bh'] eqn:E. exists (fun _ => bh'). cbn [fst snd] in *. subst rc. by destruct (bh_is_saturated bh).
Qed.
Lemma enter_breaker_spec (p : ResiliencePolicy D) w : exists f, (enter_breaker clock p w).1.2 = on_cb p f /\ reached 0 w (enter_breaker clock p w).2 /\
  ((enter_breaker clock p w).1.1 = false -> exists cb, circuit_breaker p = Some cb /\ state cb <> CB_STATE_CLOSED).
Proof.
  unfold enter_breaker. destruct p as [[cb|] bh eb tb t]; cbn [circuit_breaker]; [|exists id; split; [done|]; split; [constructor|done]].
  pose proof (now_ms_reached w). destruct (now_ms clock w) as [now w']. destruct (cb_allow_request cb now) as [ok cb'] eqn:E.
  exists (fun _ => cb'). split; [done|]. split; [done|]. cbn. intros ->. exists cb. split; [done|]. intros Hc. unfold cb_allow_request in E. by rewrite Hc in E.
Qed.
Lemma enter_limiter_spec (p : ResiliencePolicy D) now : exists f, (enter_limiter p now).2 = on_tb p f /\ ((enter_limiter p now).1 = false -> is_Some (rate_limiter p)).
Proof.
  unfold enter_limiter. destruct p as [cb bh eb [tb|] t]; cbn [rate_limiter]; [|by exists id].
  destruct (tb_try_consume _ _ _) as [ok tb']. exists (fun _ => tb'). split; [done|]. eauto.
Qed.

(** Taking a place and giving it back. *)
Definition gives_back (f : Bulkhead -> Bulkhead) : Prop :=
  forall bh, 0 < current_count bh -> current_count (f bh) = current_count bh - 1 /\ max_concurrent (f bh) = max_concurrent bh.
Lemma release_gives_back : gives_back bh_release.
Proof. intros bh H. rewrite release_count by lia. unfold bh_release. destruct (0 <? current_count bh); cbn; lia. Qed.
Lemma release_result_gives_back b : gives_back (fun bh => bh_release_with_result bh b).
Proof. intros bh H. rewrite release_result_count by lia. unfold bh_release_with_result. destruct (0 <? current_count bh), b; cbn; lia. Qed.
Lemma through_bulkhead (p : ResiliencePolicy D) f g :
  (forall bh, bulkhead p = Some bh -> 0 <= current_count bh /\ f bh = (bh_try_acquire bh).2 /\ bh_is_saturated bh = false) -> gives_back g ->
  option_Forall2 (fun bh bh' => current_count bh' = current_count bh /\ max_concurrent bh' = max_concurrent bh) (bulkhead p) (g <$> (f <$> bulkhead p)).
Proof.
  intros Hf Hg. destruct (bulkhead p) as [bh|]; constructor. destruct (Hf bh eq_refl) as (H0 & -> & Hs).
  destruct (acquire_count bh) as (Hc & _ & Hm). rewrite Hs in Hc. destruct (Hg (bh_try_acquire bh).2) as [-> ->]; lia.
Qed.
Lemma budget_backoff (p p' : ResiliencePolicy D) : backoff p' = backoff p -> budget p' = budget p.
Proof. unfold budget. by intros ->. Qed.
Lemma ran_budget r (p p' : ResiliencePolicy D) : ran r p p' -> budget p' = budget p.
Proof. intros [_ _ _ _ H]. unfold budget. inversion H as [x y [(_ & _ & Hm) _]|]; cbn; [by rewrite Hm|done]. Qed.

(** C32: A call of the pipeline returns, whatever the guarded function, the clock and the
    generator do.  Its result tells how many calls were made: none when it is refused, as
    many as the backoff allows when it failed, one to that many otherwise; the bulkhead
    refuses exactly when it is full, and has as many calls in progress after as before. *)
Theorem resilience_execute_correct (p : ResiliencePolicy D) now w : usable p ->
  exists r p' w' k, resilience_execute clock rand fn p now w = Some (r, p', w') /\ reached k w w' /\ executed p r p' k.
Proof.
  intros [Hmax Hcur]. unfold resilience_execute. destruct (enter_bulkhead_spec p) as (f & Hf & Hok).
  destruct (enter_bulkhead p) as [ok p1]. cbn [fst snd] in *. subst p1.
  destruct ok; cbn [negb].
  2:{ destruct (bulkhead p) as [bh|] eqn:Hb; [|done]. destruct Hok as [Hfb Hs]. symmetry in Hs. apply negb_false_iff in Hs.
      eexists _, _, w, 0%nat. split; [done|]. split; [constructor|]. split; try done; [split; [by exists bh|done]|].
      cbn. rewrite Hb. constructor. destruct (acquire_count bh) as (Hc & _ & Hm). rewrite Hs in Hc. by rewrite Hfb. }
  assert (Hf' : forall bh, bulkhead p = Some bh -> 0 <= current_count bh /\ f bh = (bh_try_acquire bh).2 /\ bh_is_saturated bh = false).
  { intros bh Hb. rewrite Hb in Hok. destruct Hok as [? Hs]. symmetry in Hs. apply negb_true_iff in Hs. auto. }
  assert (Hne : forall r, r <> RESILIENCE_REJECTED_BULKHEAD -> r = RESILIENCE_REJECTED_BULKHEAD <-> exists bh, bulkhead p = Some bh /\ bh_is_saturated bh = true).
  { intros r Hr. split; [done|]. intros (bh & Hb & Hs). destruct (Hf' bh Hb) as (_ & _ & ?). congruence. }
  clear Hok. destruct (enter_breaker_spec (on_bh p f) w) as (g & Hg & R1 & Hrej).
  destruct (enter_breaker clock (on_bh p f) w) as [[ok p2] w1]. cbn [fst snd] in *. subst p2.
  destruct ok; cbn [negb].
  2:{ eexists _, _, w1, 0%nat. split; [done|]. split; [done|]. split; try done; [by apply Hne|by intros; apply Hrej|by apply through_bulkhead, release_gives_back]. }
  destruct (enter_limiter_spec (on_cb (on_bh p f) g) now) as (h & Hh & Hrl).
  destruct (enter_limiter (on_cb (on_bh p f) g) now) as [ok p3]. cbn [fst snd] in *. subst p3.
  destruct ok; cbn [negb].
  2:{ set (p3 := on_tb (on_cb (on_bh p f) g) h).
      pose proof (record_reached p3 cb_record_success w1) as R4. destruct (record_policy p3 cb_record_success w1) as [n Hp].
      destruct (record_in_breaker clock p3 cb_record_success w1) as [p4 w4]. cbn [fst snd] in *. subst p4.
      eexists _, _, _, _. split; [done|]. split; [by eapply reached_trans|].
      split; try done; [by apply Hne|by intros; apply Hrl|by apply through_bulkhead, release_gives_back]. }
  set (p3 := on_tb (on_cb (on_bh p f) g) h).
  destruct (execute_with_retry_spec p3 w1) as (r & p' & w' & k & -> & R2 & Hk & Hran & Hpos); [done|].
  eexists _, _, _, _. split; [done|]. split; [by eapply reached_trans|]. rewrite Nat.add_0_l.
  split; try done.
  - apply Hne. intros ->. cbn in Hk. lia.
  - intros ->. cbn in Hk. lia.
  - intros ->. cbn in Hk. lia.
  - rewrite (ran_bulkhead _ _ _ Hran). apply (through_bulkhead p f); [done|apply release_result_gives_back].
  - by apply (ran_budget r p3).
Qed.
End theorems.

(** ** The breaker *)

Inductive cb_op := Allow | Success | Failure | Reset.
Definition cb_step (cb : CircuitBreaker) (o : cb_op * Z) : CircuitBreaker :=
  match o.1 with
  | Allow => (cb_allow_request cb o.2).2
  | Success => cb_record_success cb o.2
  | Failure => cb_record_failure cb o.2
  | Reset => cb_reset cb
  end.
(** The counts fit the state, so none of them overflows. *)
Record breaker_ok (cb : CircuitBreaker) : Prop := {
  bo_failures : 0 <= failure_count cb <= failure_threshold cb;
  bo_closed : state cb = CB_STATE_CLOSED -> failure_count cb < failure_threshold cb;
  bo_requests : 0 <= half_open_request_count cb <= half_open_max_requests cb;
  bo_successes : 0 <= half_open_success_count cb <= half_open_max_requests cb;
  bo_half_open : state cb = CB_STATE_HALF_OPEN -> half_open_success_count cb < half_open_max_requests cb;
  bo_positive : 0 < failure_threshold cb /\ 0 < half_open_max_requests cb;
}.

Lemma or_default_pos x d : 0 < d -> 0 < or_default x d.
Proof. unfold or_default. destruct (Z.ltb_spec 0 x); lia. Qed.
Lemma breaker_create_ok name th t ho : breaker_ok (cb_create_with_config name th t ho).
Proof. pose proof (or_default_pos th 5). pose proof (or_default_pos ho 3). split; cbn; unfold CB_MAX_FAILURES_DEFAULT, CB_HALF_OPEN_MAX_DEFAULT; try done; lia. Qed.
Lemma breaker_step_ok cb o : breaker_ok cb -> breaker_ok (cb_step cb o).
Proof.
  intros [Hf Hc Hr Hs Hh [Ht Hm]]. destruct o as [[| | |] now]; cbn [cb_step fst snd]; unfold cb_allow_request, cb_record_success, cb_record_failure, cb_reset;
    destruct (state cb) eqn:St; cbn; rewrite ?St; try (specialize (Hc eq_refl)); try (specialize (Hh eq_refl));
    repeat (case_match; cbn in *); zbool; split; cbn; rewrite ?St; try done; intros; try lia; congruence.
Qed.

(** The breaker stays well formed through any sequence of operations. *)
Theorem cb_ops_ok ops : forall name th t ho, breaker_ok (foldl cb_step (cb_create_with_config name th t ho) ops).
Proof.
  intros. pose proof (breaker_create_ok name th t ho) as H. revert H. generalize (cb_create_with_config name th t ho).
  induction ops as [|o ops IH]; intros cb H; [done|]. cbn. by apply IH, breaker_step_ok.
Qed.

(** Failures with no success in between open the breaker at the threshold and not before. *)
Theorem breaker_opens_at_threshold cb nows : breaker_ok cb -> state cb = CB_STATE_CLOSED ->
  let cb' := foldl cb_record_failure cb nows in
  state cb' = if failure_count cb + Z.of_nat (length nows) <? failure_threshold cb then CB_STATE_CLOSED else CB_STATE_OPEN.
Proof.
  intros Hok Hc. pose proof (bo_closed _ Hok Hc) as Hlt. clear Hok. revert cb Hc Hlt. induction nows as [|now nows IH]; intros cb Hc Hlt; cbn [foldl length].
  - destruct (Z.ltb_spec (failure_count cb + Z.of_nat 0) (failure_threshold cb)); [done|lia].
  - assert (Hopen : forall l cb0, state cb0 = CB_STATE_OPEN -> state (foldl cb_record_failure cb0 l) = CB_STATE_OPEN).
    { intros l. induction l as [|y l IHl]; intros cb0 H0; [done|]. cbn. apply IHl. unfold cb_record_failure. cbn. by rewrite H0. }
    unfold cb_record_failure at 2. cbn. rewrite Hc. destruct (Z.leb_spec (failure_threshold cb) (1 + failure_count cb)) as [Hle|Hgt].
    + rewrite Hopen by done. destruct (Z.ltb_spec (failure_count cb + Z.of_nat (S (length nows))) (failure_threshold cb)); [lia|done].
    + rewrite IH; [|done|cbn; lia]. cbn [failure_count failure_threshold set]. replace (1 + failure_count cb + Z.of_nat (length nows)) with (failure_count cb + Z.of_nat (S (length nows))) by lia. done.
Qed.
Lemma breaker_opens_at_threshold_witness : state (foldl cb_record_failure (cb_create None) [1; 2; 3; 4; 5]) = CB_STATE_OPEN.
Proof. refine (breaker_opens_at_threshold (cb_create None) [1; 2; 3; 4; 5] (breaker_create_ok None 5 30000 3) eq_refl). Defined.

Lemma half_open_admits nows : forall cb, state cb = CB_STATE_HALF_OPEN -> 0 <= half_open_request_count cb <= half_open_max_requests cb ->
  Z.of_nat (length nows) <= half_open_max_requests cb - half_open_request_count cb ->
  let run := foldl (fun s now => let '(ok, cb) := cb_allow_request s.2 now in (s.1 + c_bool ok, cb)) (0, cb) nows in
  run.1 = Z.of_nat (length nows) /\ state run.2 = CB_STATE_HALF_OPEN /\ half_open_request_count run.2 = half_open_request_count cb + Z.of_nat (length nows)
  /\ half_open_max_requests run.2 = half_open_max_requests cb.
Proof.
  induction nows as [|now nows IH] using rev_ind; intros cb St Hr Hl; cbn zeta; [cbn in *; repeat split; try done; lia|].
  rewrite length_app in *. cbn [length] in *. rewrite foldl_app. cbn [foldl]. destruct (IH cb St Hr) as (Hn & St' & Hc & Hm); [lia|].
  destruct (foldl _ (0, cb) nows) as [n cb']. cbn [fst snd] in *. unfold cb_allow_request. rewrite St'.
  destruct (Z.ltb_spec (half_open_request_count cb') (half_open_max_requests cb')); [|lia]. cbn. repeat split; lia || done.
Qed.

Lemma half_open_refuses cb now : state cb = CB_STATE_HALF_OPEN -> half_open_max_requests cb <= half_open_request_count cb -> (cb_allow_request cb now).1 = false.
Proof. intros St H. unfold cb_allow_request. rewrite St. by destruct (Z.ltb_spec (half_open_request_count cb) (half_open_max_requests cb)); [lia|]. Qed.

(** After the timeout an open breaker lets one more request through than its maximum for the
    half-open state, and refuses the next: the request that ends the open state is not counted. *)
Theorem half_open_one_more cb now nows now' : state cb = CB_STATE_OPEN -> 0 < half_open_max_requests cb ->
  cb_timeout_ms cb <= u64 (now - last_state_change_ms cb) -> Z.of_nat (length nows) = half_open_max_requests cb ->
  let run := foldl (fun s now => let '(ok, cb) := cb_allow_request s.2 now in (s.1 + c_bool ok, cb)) (0, cb) (now :: nows) in
  run.1 = half_open_max_requests cb + 1 /\ (cb_allow_request run.2 now').1 = false.
Proof.
  intros St Hm Ht Hl. set (cb1 := cb <| state := CB_STATE_HALF_OPEN |> <| half_open_request_count := 0 |> <| half_open_success_count := 0 |> <| last_state_change_ms := now |>).
  assert (Ha : cb_allow_request cb now = (true, cb1)) by (unfold cb_allow_request; rewrite St; by destruct (Z.leb_spec (cb_timeout_ms cb) (u64 (now - last_state_change_ms cb))); [|lia]).
  cbn [foldl fst snd]. rewrite Ha. cbn [c_bool].
  assert (Hshift : forall l n c, foldl (fun s now => let '(ok, cb) := cb_allow_request s.2 now in (s.1 + c_bool ok, cb)) (n, c) l
     = (n + (foldl (fun s now => let '(ok, cb) := cb_allow_request s.2 now in (s.1 + c_bool ok, cb)) (0, c) l).1,
        (foldl (fun s now => let '(ok, cb) := cb_allow_request s.2 now in (s.1 + c_bool ok, cb)) (0, c) l).2)).
  { induction l as [|x l IHl]; intros n c; cbn; [by rewrite Z.add_0_r|]. destruct (cb_allow_request c x) as [ok c']. rewrite (IHl (n + _)), (IHl (0 + _)). cbn. f_equal; lia. }
  rewrite Hshift. cbn [fst snd]. destruct (half_open_admits nows cb1) as (Hn & St' & Hc & Hm'); [done|unfold cb1; cbn; lia|unfold cb1; cbn; lia|].
  rewrite Hn. split; [lia|]. apply half_open_refuses; [done|]. rewrite Hc, Hm'. unfold cb1. cbn. lia.
Qed.
Definition opened : CircuitBreaker := foldl cb_record_failure (cb_create None) [1; 2; 3; 4; 5].
Lemma half_open_one_more_witness :
  let run := foldl (fun s now => let '(ok, cb) := cb_allow_request s.2 now in (s.1 + c_bool ok, cb)) (0, opened) [40000; 40001; 40002; 40003] in
  run.1 = 4 /\ (cb_allow_request run.2 40004).1 = false.
Proof. refine (half_open_one_more opened 40000 [40001; 40002; 40003] 40004 _ _ _ _); vm_compute; congruence. Defined.

(** ** The bulkhead *)

Inductive bh_op := Acquire | Release | ReleaseResult (ok : bool) | ResetStats.
Definition bh_step (bh : Bulkhead) (o : bh_op) : Bulkhead :=
  match o with
  | Acquire => (bh_try_acquire bh).2 | Release => bh_release bh | ReleaseResult ok => bh_release_with_result bh ok | ResetStats => bh_reset_stats bh
  end.
(** Never more calls in progress than places, whatever is acquired and released; the peak is
    between the two. *)
Theorem bulkhead_never_exceeds name max ops : let bh := foldl bh_step (bh_create name max) ops in
  0 <= current_count bh <= peak_concurrency bh /\ peak_concurrency bh <= max_concurrent bh /\ max_concurrent bh = or_default max 10.
Proof.
  cbn zeta. pose proof (or_default_pos max 10). induction ops as [|o ops IH] using rev_ind; [cbn; lia|].
  rewrite foldl_app. cbn [foldl]. revert IH. generalize (foldl bh_step (bh_create name max) ops). intros bh (H1 & H2 & H3).
  destruct o as [| |ok|]; cbn [bh_step]; unfold bh_try_acquire, bh_release, bh_release_with_result, bh_reset_stats; repeat (case_match; cbn in *); zbool; cbn; lia.
Qed.

(** ** The token bucket *)

Section bucket.
Context {D : Type} `{HA : Arith D} `{HL : !ArithLaws D}.
Definition bucket_ok (tb : TokenBucket D) : Prop := nonneg (rate tb) /\ within (tokens tb) (burst tb).

Lemma leb_1000 : ltb (of_Z 0) (of_Z 1000 : D) = true.
Proof. by apply ltb_of_Z. Qed.
Lemma tb_refill_ok (tb : TokenBucket D) now : bucket_ok tb -> bucket_ok (tb_refill tb now).
Proof.
  intros [Hr Hw]. unfold tb_refill. destruct (_ =? 0); [done|]. split; [done|]. cbn. pose proof (u64_range (now - last_refill_ms tb)).
  destruct (ltb (burst tb) _) eqn:Hl; [by eapply within_max|]. apply within_add; [done| |by apply ltb_false].
  apply leb_mul_0; [done|]. apply leb_div_0; [apply nonneg_of_Z; lia|apply leb_1000].
Qed.

Inductive tb_op := Consume (now : Z) (n : D) | Refill (now : Z) | TbReset (now : Z).
Definition tb_step (tb : TokenBucket D) (o : tb_op) : TokenBucket D :=
  match o with Consume now n => (tb_try_consume tb now n).2 | Refill now => tb_refill tb now | TbReset now => tb_reset tb now end.
Definition asks_nonneg (o : tb_op) : Prop := match o with Consume _ n => nonneg n | _ => True end.
(** The level of the bucket stays between nothing and its capacity. *)
Theorem tb_level_within name r b now ops : Forall asks_nonneg ops -> bucket_ok (foldl tb_step (tb_create name r b now) ops).
Proof.
  assert (H0 : bucket_ok (tb_create name r b now)).
  { assert (H1 : nonneg (if ltb (of_Z 0) r then r else of_Z 1)) by (destruct (ltb _ r) eqn:E; [by apply ltb_true|by apply nonneg_of_Z]).
    split; [done|]. cbn. destruct (ltb _ b) eqn:E; (split; [|apply leb_refl]); [by apply ltb_true|done]. }
  revert H0. generalize (tb_create name r b now). induction ops as [|o ops IH]; intros tb Hok Ho; [done|]. apply Forall_cons in Ho as [Ho Hops].
  cbn. apply IH; [|done]. destruct o as [t n|t|t]; cbn [tb_step].
  - unfold tb_try_consume. pose proof (tb_refill_ok tb t Hok) as [Hr Hw]. destruct (leb n _) eqn:E; (split; [done|]); cbn; [by apply within_sub|done].
  - by apply tb_refill_ok.
  - destruct Hok as [Hr Hw]. split; [done|]. by eapply within_max.
Qed.
End bucket.
Lemma tb_level_within_witness : bucket_ok (foldl tb_step (tb_create None 5%Q 10%Q 0) [Consume 100 (3%Q); Refill 50; Consume 2000 (20%Q)]).
Proof. refine (tb_level_within None 5%Q 10%Q 0 _ _). repeat constructor. Defined.

(** A clock that goes back by a millisecond fills the bucket. *)
Example clock_back_fills : let tb := (tb_try_consume (tb_create None 1%Q 10%Q 1000) 1000 (10%Q)).2 in
  (Qeq_bool (tokens tb) 0, Qeq_bool (tokens (tb_refill tb 999)) 10) = (true, true).
Proof. vm_compute. done. Qed.

(** ** The pipeline at work *)

Section examples.
(** A world that counts the calls and whose clock stands still. *)
Definition count_calls (w : nat * Z) : Z * (nat * Z) := (1, (S w.1, w.2)).
Definition still (w : nat * Z) : Z * (nat * Z) := (w.2, w).
Definition policy (cb : option CircuitBreaker) (tb : option (TokenBucket Q)) : ResiliencePolicy Q :=
  resilience_policy_create cb (Some (bh_create None 4)) (Some (eb_create 10 100 3)) tb 0.
Lemma resilience_execute_correct_witness : exists r p' w' k,
  resilience_execute still still count_calls (policy (Some (cb_create None)) (Some (tb_create None 5%Q 1%Q 0))) 7 (0%nat, 5) = Some (r, p', w')
  /\ reached still still count_calls k (0%nat, 5) w' /\ executed (policy (Some (cb_create None)) (Some (tb_create None 5%Q 1%Q 0))) r p' k.
Proof. refine (resilience_execute_correct still still count_calls _ 7 (0%nat, 5) _). split; intros ? [= <-]; vm_compute; congruence. Defined.

(** Three calls fail, and the result is not that the retries are used up: giving up resets
    the attempts that the result is computed from. *)
Example retries_exhausted_hidden : (fun x => (x.1.1, x.2.1)) <$> resilience_execute still still count_calls (policy None None) 0 (0%nat, 5) = Some (RESILIENCE_CALL_FAILED, 3%nat).
Proof. vm_compute. done. Qed.

(** Requests that the limiter refuses count as successes of the half-open breaker: it closes
    although the function was never called. *)
Example refusals_close_breaker :
  let empty := (tb_try_consume (tb_create None 1%Q 1%Q 40000) 40000 (1%Q)).2 in
  let run p := match resilience_execute (fun w : nat * Z => (40000000, w)) still count_calls p 40000 (0%nat, 5) with Some (r, p', w) => Some (r, state <$> circuit_breaker p', p', w.1) | None => None end in
  let next o := match o with Some (_, _, p, _) => run p | None => None end in
  (fun x => (x.1.1.1, x.1.1.2, x.2)) <$> next (next (run (policy (Some opened) (Some empty)))) = Some (RESILIENCE_REJECTED_RATE_LIMITED, Some CB_STATE_CLOSED, 0%nat).
Proof. vm_compute. done. Qed.
End examples.
