(* ===== verification/HealthCheck.v ===== *)
(** Model of the failure detector of [mini-business-arch/src/business_patterns.c], and the
    theorems on it.

    Doubles are over any [Arith]; [sqrt], [log10], [exp] and [neg], the change of sign, are
    parameters of which nothing is assumed.  Allocation succeeds. *)

From Stdlib Require Import QArith.
From S2P Require Import Prelude Bytes Arith.
#[local] Open Scope Z_scope.

Definition HC_MAX_TARGETS : nat := 64.
#[global] Arguments HC_MAX_TARGETS : simpl never.

Section health.
Context {D : Type} `{HA : Arith D} (sqrt log10 exp neg : D -> D).

Record HealthCheckTarget := mk_target {
  target_id : list Z; mean_ms : D; variance_ms : D; phi_threshold : D; last_heartbeat_ms : Z; last_check_ms : Z;
  is_suspicious : bool; is_available : bool; missed_heartbeats : Z; total_checks : Z; total_failures : Z;
}.
Record HealthChecker := mk_checker { targets : list HealthCheckTarget; default_timeout_ms : Z; default_phi_threshold : D; ema_alpha : D }.

Definition hc_create (timeout : Z) (phi alpha : D) : HealthChecker :=
  mk_checker [] (if 0 <? timeout then timeout else 5000) (if ltb (of_Z 0) phi then phi else of_Z 8)
    (if ltb (of_Z 0) alpha && leb alpha (of_Z 1) then alpha else div (of_Z 3) (of_Z 10)).
Definition hc_register_target (hc : HealthChecker) (id : list Z) : Z * HealthChecker :=
  if (HC_MAX_TARGETS <=? length (targets hc))%nat then (-1, hc)
  else
    let t := mk_target (truncated 64 id) (of_Z (default_timeout_ms hc)) (of_Z 1000) (default_phi_threshold hc) 0 0 false true 0 0 0 in
    (0, mk_checker (targets hc ++ [t]) (default_timeout_ms hc) (default_phi_threshold hc) (ema_alpha hc)).
Definition target_idx (hc : HealthChecker) (id : list Z) : option nat := find_idx (fun t => bool_decide (target_id t = id)) (targets hc).
Definition put_target (hc : HealthChecker) (i : nat) (t : HealthCheckTarget) : HealthChecker :=
  mk_checker (<[i := t]> (targets hc)) (default_timeout_ms hc) (default_phi_threshold hc) (ema_alpha hc).
Definition the_target (hc : HealthChecker) (id : list Z) : option (nat * HealthCheckTarget) :=
  target_idx hc id ≫= fun i => pair i <$> targets hc !! i.

(** The moving averages, from the second heartbeat on. *)
Definition learn (alpha : D) (t : HealthCheckTarget) (now : Z) : D * D :=
  if 0 <? last_heartbeat_ms t then
    let interval := of_Z (u64 (now - last_heartbeat_ms t)) in
    let delta := sub interval (mean_ms t) in
    (add (mul alpha interval) (mul (sub (of_Z 1) alpha) (mean_ms t)), add (mul alpha (mul delta delta)) (mul (sub (of_Z 1) alpha) (variance_ms t)))
  else (mean_ms t, variance_ms t).
Definition hc_record_heartbeat (hc : HealthChecker) (id : list Z) (now : Z) : HealthChecker :=
  match the_target hc id with
  | Some (i, t) =>
      let '(m, v) := learn (ema_alpha hc) t now in
      put_target hc i (mk_target (target_id t) m v (phi_threshold t) now now false true 0 (total_checks t) (total_failures t))
  | None => hc
  end.
Definition phi_of (t : HealthCheckTarget) (now : Z) : D :=
  if last_heartbeat_ms t =? 0 then of_Z 0
  else
    let elapsed := of_Z (u64 (now - last_heartbeat_ms t)) in
    let stddev := sqrt (variance_ms t) in
    let stddev := if ltb stddev (of_Z 1) then of_Z 1 else stddev in
    let diff := sub elapsed (mean_ms t) in
    let phi := neg (log10 (exp (div (neg (mul diff diff)) (mul (mul (of_Z 2) stddev) stddev)))) in
    if ltb phi (of_Z 0) then of_Z 0 else phi.
Definition hc_compute_phi (hc : HealthChecker) (id : list Z) (now : Z) : D :=
  match the_target hc id with Some (_, t) => phi_of t now | None => of_Z 0 end.
(** A target after a check that gave [phi]. *)
Definition checked (t : HealthCheckTarget) (phi : D) (now : Z) : HealthCheckTarget :=
  if ltb (phi_threshold t) phi then
    let missed := missed_heartbeats t + 1 in
    let down := 3 <? missed in
    mk_target (target_id t) (mean_ms t) (variance_ms t) (phi_threshold t) (last_heartbeat_ms t) now true (if down then false else is_available t) missed
      (incr (total_checks t)) (if down then incr (total_failures t) else total_failures t)
  else mk_target (target_id t) (mean_ms t) (variance_ms t) (phi_threshold t) (last_heartbeat_ms t) now false true 0 (incr (total_checks t)) (total_failures t).
Definition hc_is_available (hc : HealthChecker) (id : list Z) (now : Z) : bool * HealthChecker :=
  match the_target hc id with
  | Some (i, t) => let t := checked t (hc_compute_phi hc id now) now in (is_available t, put_target hc i t)
  | None => (false, hc)
  end.
(** Each target in turn is checked by its name. *)
Definition hc_check_all (hc : HealthChecker) (now : Z) : HealthChecker :=
  foldl (fun hc i => match targets hc !! i with Some t => (hc_is_available hc (target_id t) now).2 | None => hc end) hc (seq 0 (length (targets hc))).
Definition hc_available_count (hc : HealthChecker) : Z := Z.of_nat (count_if is_available (targets hc)).
Definition hc_suspicious_count (hc : HealthChecker) : Z := Z.of_nat (count_if is_suspicious (targets hc)).

(** ** When a target is given up *)

(** The flags agree with the count of suspicious checks in a row. *)
Definition target_ok (t : HealthCheckTarget) : Prop :=
  0 <= missed_heartbeats t /\ is_suspicious t = (0 <? missed_heartbeats t) /\ is_available t = (missed_heartbeats t <=? 3).
Definition checker_ok (hc : HealthChecker) : Prop := Forall target_ok (targets hc) /\ (length (targets hc) <= HC_MAX_TARGETS)%nat.
Lemma checked_ok t phi now : target_ok t -> target_ok (checked t phi now).
Proof.
  intros (H0 & Hs & Ha). unfold checked, target_ok. destruct (ltb _ _); cbn; [|done]. rewrite Ha. split; [lia|]. split.
  - symmetry. apply Z.ltb_lt. lia.
  - destruct (Z.ltb_spec 3 (missed_heartbeats t + 1)); symmetry; [apply Z.leb_gt|rewrite (proj2 (Z.leb_le (missed_heartbeats t) 3)) by lia; apply Z.leb_le]; lia.
Qed.
Lemma the_target_Some hc id i t : the_target hc id = Some (i, t) -> targets hc !! i = Some t /\ target_id t = id.
Proof.
  unfold the_target, target_idx. intros H. apply bind_Some in H as (j & Hj & H). apply fmap_Some in H as (t' & Ht & [= -> ->]).
  apply find_idx_Some in Hj as (t'' & H1 & H2 & _). apply bool_decide_eq_true in H2. split; congruence.
Qed.
Lemma put_ok hc i t : checker_ok hc -> target_ok t -> checker_ok (put_target hc i t).
Proof. intros [Hf Hl] Ht. split; cbn; [by apply Forall_insert|by rewrite length_insert]. Qed.
Lemma is_available_ok hc id now : checker_ok hc -> checker_ok (hc_is_available hc id now).2.
Proof.
  intros Hok. unfold hc_is_available. destruct (the_target hc id) as [[i t]|] eqn:E; [|done]. apply put_ok; [done|]. apply checked_ok.
  apply the_target_Some in E as [E _]. destruct Hok as [Hf _]. by eapply Forall_lookup_1 in E.
Qed.

Inductive hc_op := Register (id : list Z) | Heartbeat (id : list Z) (now : Z) | IsAvailable (id : list Z) (now : Z) | CheckAll (now : Z).
Definition hc_step (hc : HealthChecker) (o : hc_op) : HealthChecker :=
  match o with
  | Register id => (hc_register_target hc id).2 | Heartbeat id now => hc_record_heartbeat hc id now
  | IsAvailable id now => (hc_is_available hc id now).2 | CheckAll now => hc_check_all hc now
  end.
(** Whatever is registered, heard and checked, at most 64 targets, each available exactly as
    long as no more than three checks in a row were suspicious, and suspicious exactly when
    the last one was. *)
Theorem hc_flags_agree timeout phi alpha ops : checker_ok (foldl hc_step (hc_create timeout phi alpha) ops).
Proof.
  induction ops as [|o ops IH] using rev_ind; [split; [constructor|cbn; lia]|]. rewrite foldl_app. cbn [foldl]. revert IH. generalize (foldl hc_step (hc_create timeout phi alpha) ops). intros hc Hok.
  destruct o as [id|id now|id now|now]; cbn [hc_step].
  - unfold hc_register_target. destruct (Nat.leb_spec HC_MAX_TARGETS (length (targets hc))); [done|]. destruct Hok as [Hf Hl]. split; cbn; [|rewrite length_app; cbn; lia].
    apply Forall_app. split; [done|]. by repeat constructor.
  - unfold hc_record_heartbeat. destruct (the_target hc id) as [[i t]|]; [|done]. destruct (learn _ _ _) as [m v]. by apply put_ok.
  - by apply is_available_ok.
  - unfold hc_check_all. generalize (seq 0 (length (targets hc))). intros l. revert hc Hok. induction l as [|i l IHl]; intros hc Hok; [done|].
    cbn. apply IHl. destruct (targets hc !! i); [by apply is_available_ok|done].
Qed.

(** The same target at the same place. *)
Lemma put_the_target hc id i t t' : the_target hc id = Some (i, t) -> target_id t' = id -> the_target (put_target hc i t') id = Some (i, t').
Proof.
  intros E Ht. pose proof (the_target_Some _ _ _ _ E) as [Hi Hid]. unfold the_target in *. apply bind_Some in E as (j & Hj & E). apply fmap_Some in E as (t0 & Ht0 & [= -> ->]).
  assert (target_idx (put_target hc j t') id = Some j) as ->.
  { unfold target_idx in *. apply (find_idx_grow _ (targets hc)); [|done]. intros k x Hk. cbn. destruct (decide (j = k)) as [<-|Hne].
    - exists t'. rewrite list_lookup_insert_eq by (by eapply lookup_lt_Some). split; [done|]. assert (x = t0) as -> by congruence. by rewrite Ht, Hid.
    - exists x. by rewrite list_lookup_insert_ne. }
  cbn. by rewrite list_lookup_insert_eq by (by eapply lookup_lt_Some).
Qed.
(** A heartbeat makes its target available at once. *)
Theorem heartbeat_revives hc id now : is_Some (target_idx hc id) ->
  exists i t, the_target (hc_record_heartbeat hc id now) id = Some (i, t) /\ is_available t = true /\ missed_heartbeats t = 0 /\ last_heartbeat_ms t = now.
Proof.
  intros [i Hi]. pose proof Hi as (t & Ht & Hid & _)%find_idx_Some. apply bool_decide_eq_true in Hid.
  assert (E : the_target hc id = Some (i, t)) by (unfold the_target; rewrite Hi; cbn; by rewrite Ht).
  unfold hc_record_heartbeat. rewrite E. destruct (learn _ _ _) as [m v]. eexists i, _. split; [apply (put_the_target _ _ _ _ _ E); exact Hid|done].
Qed.
End health.
#[global] Arguments HealthChecker : clear implicits.
#[global] Arguments HealthCheckTarget : clear implicits.

(** ** At work *)

Section examples.
Context (sqrt log10 exp neg : Q -> Q).
Definition node : list Z := str_bytes "node".
Definition watching : HealthChecker Q := (hc_register_target (hc_create 1000 8%Q (3 # 10)%Q) node).2.
Definition beating : HealthChecker Q := hc_record_heartbeat watching node 10000.
(** A heartbeat that is early is as suspicious as one that is late by as much. *)
Example early_as_late : hc_compute_phi sqrt log10 exp neg beating node 10200 = hc_compute_phi sqrt log10 exp neg beating node 11800.
Proof. vm_compute. done. Qed.
(** A target that never sent a heartbeat is available for ever. *)
Example never_heard now : (hc_is_available sqrt log10 exp neg watching node now).1 = true.
Proof. done. Qed.
(** Of two targets with one name only the first is ever checked, twice each round. *)
Example second_never_checked : total_checks <$> targets (hc_check_all sqrt log10 exp neg (hc_register_target watching node).2 500) = [2; 0].
Proof. vm_compute. done. Qed.
End examples.
Lemma heartbeat_revives_witness : exists i t, the_target (hc_record_heartbeat watching node 10000) node = Some (i, t) /\ is_available t = true /\ missed_heartbeats t = 0 /\ last_heartbeat_ms t = 10000.
Proof. refine (heartbeat_revives watching node 10000 _). by exists 0%nat. Defined.
