(* ===== verification/Idempotency.v ===== *)
(** Model of the store of idempotency keys of [mini-business-arch/src/business_patterns.c],
    and the theorems on it.

    The readings of [now_ms] are arguments.  A response is a buffer of at least the size
    given; the memory of an entry is a list of [IK_RESPONSE_LEN] bytes.  Allocation
    succeeds. *)

From S2P Require Import Prelude Bytes.

Definition IK_KEY_LEN : nat := 128.
Definition IK_RESPONSE_LEN : nat := Z.to_nat 2048.
#[global] Arguments IK_RESPONSE_LEN : simpl never.
Definition IK_MAX_KEYS : nat := 256.
#[global] Arguments IK_MAX_KEYS : simpl never.
Inductive IdempotencyKeyStatus := IK_STATUS_NOT_FOUND | IK_STATUS_PROCESSING | IK_STATUS_COMPLETED | IK_STATUS_EXPIRED.
Record IdempotencyKeyEntry := mk_entry { key : list Z; response : list Z; response_size : nat; status : IdempotencyKeyStatus; created_at_ms : Z; ttl_ms : Z }.
(** [count] is the length of [entries]. *)
Record IdempotencyKeyStore := mk_store { entries : list IdempotencyKeyEntry; default_ttl_ms : Z; hits : Z; misses : Z; expired_count : Z }.

Definition ik_store_create (ttl : Z) : IdempotencyKeyStore := mk_store [] (if 0 <? ttl then ttl else 3600000) 0 0 0.
(** [strncmp] over the whole field: the stored key ends within it. *)
Definition has_key (k : list Z) (e : IdempotencyKeyEntry) : bool := bool_decide (key e = k).
Definition ik_store_find_index (st : IdempotencyKeyStore) (k : list Z) : option nat := find_idx (has_key k) (entries st).
Definition is_expired (now : Z) (e : IdempotencyKeyEntry) : bool := ttl_ms e <? u64 (now - created_at_ms e).
Definition ik_store_check (st : IdempotencyKeyStore) (k : list Z) (now : Z) : IdempotencyKeyStatus * IdempotencyKeyStore :=
  match ik_store_find_index st k with
  | None => (IK_STATUS_NOT_FOUND, st <| misses ::= incr |>)
  | Some i =>
      let st := st <| hits ::= incr |> in
      match entries st !! i with
      | Some e => if is_expired now e then (IK_STATUS_EXPIRED, st <| expired_count ::= incr |> <| entries ::= delete i |>) else (status e, st)
      | None => (IK_STATUS_NOT_FOUND, st)
      end
  end.
Definition new_entry (st : IdempotencyKeyStore) (k : list Z) (now : Z) : IdempotencyKeyEntry :=
  mk_entry (truncated IK_KEY_LEN k) (replicate IK_RESPONSE_LEN 0) 0 IK_STATUS_PROCESSING now (default_ttl_ms st).
Definition ik_store_mark_processing (st : IdempotencyKeyStore) (k : list Z) (now : Z) : Z * IdempotencyKeyStore :=
  if (IK_MAX_KEYS <=? length (entries st))%nat then (-1, st)
  else match ik_store_find_index st k with
       | Some _ => (-2, st)
       | None => (0, st <| entries ::= fun l => l ++ [new_entry st k now] |>)
       end.
Definition complete (resp : list Z) (size : nat) (e : IdempotencyKeyEntry) : IdempotencyKeyEntry :=
  let n := if (size <? IK_RESPONSE_LEN - 1)%nat then size else (IK_RESPONSE_LEN - 1)%nat in
  e <| status := IK_STATUS_COMPLETED |> <| response_size := n |> <| response ::= fun old => take n resp ++ 0 :: drop (S n) old |>.
Definition ik_store_mark_completed (st : IdempotencyKeyStore) (k resp : list Z) (size : nat) : Z * IdempotencyKeyStore :=
  match ik_store_find_index st k with
  | None => (-1, st)
  | Some i => (0, st <| entries ::= alter (complete resp size) i |>)
  end.
(** The response and its size; [None] for NULL. *)
Definition ik_store_get_response (st : IdempotencyKeyStore) (k : list Z) : option (list Z) * nat :=
  match ik_store_find_index st k ≫= fun i => entries st !! i with
  | None => (None, O)
  | Some e => (Some (response e), response_size e)
  end.
Definition evict_at (now : Z) (s : Z * IdempotencyKeyStore) (i : nat) : Z * IdempotencyKeyStore :=
  let '(evicted, st) := s in
  match entries st !! i with
  | Some e => if is_expired now e then (evicted + 1, st <| expired_count ::= incr |> <| entries ::= delete i |>) else s
  | None => s
  end.
(** From the last entry to the first. *)
Definition ik_store_evict_expired (st : IdempotencyKeyStore) (now : Z) : Z * IdempotencyKeyStore :=
  foldl (evict_at now) (0, st) (rev (seq 0 (length (entries st)))).
Definition ik_store_get_stats (st : IdempotencyKeyStore) : Z * Z * Z * Z := (hits st, misses st, expired_count st, Z.of_nat (length (entries st))).

(** ** Eviction *)

Lemma evict_loop now n : forall ev st l post, length l = n -> entries st = l ++ post ->
  let r := foldl (evict_at now) (ev, st) (rev (seq 0 n)) in
  r.1 = ev + Z.of_nat (count_if (is_expired now) l) /\ entries r.2 = List.filter (fun e => negb (is_expired now e)) l ++ post /\
  hits r.2 = hits st /\ misses r.2 = misses st /\ default_ttl_ms r.2 = default_ttl_ms st.
Proof.
  induction n as [|n IH]; intros ev st l post Hl He; [destruct l; [|done]; cbn; split; [lia|done]|].
  destruct l as [|e l _] using rev_ind; [done|]. rewrite length_app in Hl; cbn in Hl. rewrite seq_S, rev_app_distr. cbn [rev app foldl Nat.add evict_at].
  assert (Hi : entries st !! n = Some e) by (rewrite He, <- app_assoc, lookup_app_r by lia; replace (n - length l)%nat with 0%nat by lia; done).
  rewrite Hi, count_if_app, List.filter_app. unfold count_if at 2. cbn [List.filter]. destruct (is_expired now e) eqn:Hx; cbn [negb length].
  - destruct (IH (ev + 1) (st <| expired_count ::= incr |> <| entries ::= delete n |>) l post) as (H1 & H2 & H3); [lia| |].
    { cbn. rewrite He, <- app_assoc. replace n with (length l) by lia. apply delete_middle. }
    split; [rewrite H1; lia|]. by rewrite app_nil_r.
  - destruct (IH ev st l ([e] ++ post)) as (H1 & H2 & H3); [lia|by rewrite He, <- app_assoc|]. split; [rewrite H1; lia|]. by rewrite H2, <- app_assoc.
Qed.

(** Eviction removes exactly the expired entries, keeps the order of the others and tells how
    many it removed. *)
Theorem ik_evict_correct st now : let r := ik_store_evict_expired st now in
  r.1 = Z.of_nat (count_if (is_expired now) (entries st)) /\ entries r.2 = List.filter (fun e => negb (is_expired now e)) (entries st).
Proof.
  unfold ik_store_evict_expired. destruct (evict_loop now _ 0 st (entries st) [] eq_refl) as (H1 & H2 & _); [by rewrite app_nil_r|]. by rewrite H1, H2, app_nil_r.
Qed.

(** ** A key is processed at most once *)

Definition first_of (k : list Z) (st : IdempotencyKeyStore) : option IdempotencyKeyEntry := List.find (has_key k) (entries st).
Lemma find_first st k : ik_store_find_index st k ≫= (fun i => entries st !! i) = first_of k st.
Proof.
  unfold ik_store_find_index, first_of. induction (entries st) as [|e l IH]; [done|]. cbn. destruct (has_key k e); [done|]. rewrite <- IH. by destruct (find_idx _ l).
Qed.
Lemma find_first_Some st k i : ik_store_find_index st k = Some i -> exists e, entries st !! i = Some e /\ key e = k /\ first_of k st = Some e.
Proof.
  intros Hi. pose proof Hi as (e & He & Hk & _)%find_idx_Some. exists e. split; [done|]. split; [by apply bool_decide_eq_true in Hk|]. by rewrite <- find_first, Hi.
Qed.
Lemma find_app_l {A} (p : A -> bool) l l' e : List.find p l = Some e -> List.find p (l ++ l') = Some e.
Proof. induction l as [|x l IH]; [done|]. cbn. by destruct (p x). Qed.
Lemma find_delete {A} (p : A -> bool) l i x : l !! i = Some x -> p x = false -> List.find p (delete i l) = List.find p l.
Proof. revert i. induction l as [|y l IH]; intros [|i] Hi Hx; simplify_eq/=; [by rewrite Hx|]. destruct (p y); [done|]. by apply IH. Qed.
Lemma find_alter_other {A} (p : A -> bool) f l i x : l !! i = Some x -> p x = false -> p (f x) = false -> List.find p (alter f i l) = List.find p l.
Proof. revert i. induction l as [|y l IH]; intros [|i] Hi Hx Hf; simplify_eq/=; [by rewrite Hx, Hf|]. destruct (p y); [done|]. by eapply IH. Qed.
Lemma find_alter_first {A} (p : A -> bool) f l i : find_idx p l = Some i -> (forall x, p (f x) = p x) -> List.find p (alter f i l) = f <$> List.find p l.
Proof.
  intros Hi Hf. revert i Hi. induction l as [|y l IH]; [done|]. intros i. cbn. destruct (p y) eqn:Hy; [intros [= <-]; cbn; by rewrite Hf, Hy|].
  intros (j & Hj & ->)%fmap_Some. cbn. rewrite Hy. by apply IH.
Qed.
Lemma find_filter {A} (p q : A -> bool) l e : List.find p l = Some e -> q e = true -> List.find p (List.filter q l) = Some e.
Proof.
  induction l as [|x l IH]; [done|]. cbn. destruct (p x) eqn:Hp.
  - intros [= <-] Hq. rewrite Hq. cbn. by rewrite Hp.
  - intros H Hq. destruct (q x); cbn; rewrite ?Hp; auto.
Qed.

Inductive ik_op := Check (k : list Z) | MarkProcessing (k : list Z) | MarkCompleted (k resp : list Z) (size : nat) | Evict.
(** An operation and the reading of the clock. *)
Definition ik_step (st : IdempotencyKeyStore) (o : ik_op * Z) : IdempotencyKeyStore :=
  match o.1 with
  | Check k => (ik_store_check st k o.2).2
  | MarkProcessing k => (ik_store_mark_processing st k o.2).2
  | MarkCompleted k resp size => (ik_store_mark_completed st k resp size).2
  | Evict => (ik_store_evict_expired st o.2).2
  end.
Definition completes (k : list Z) (o : ik_op) : bool := match o with MarkCompleted k' _ _ => bool_decide (k' = k) | _ => false end.

(** The entry found for a key remains as long as it is not expired; only completing changes it. *)
Lemma ik_step_keeps k st o e : first_of k st = Some e -> is_expired o.2 e = false ->
  exists e', first_of k (ik_step st o) = Some e' /\ created_at_ms e' = created_at_ms e /\ ttl_ms e' = ttl_ms e /\ (completes k o.1 = false -> e' = e).
Proof.
  intros He Hx. destruct o as [[k'|k'|k' resp size|] now]; cbn [ik_step fst snd completes] in *.
  - exists e. split; [|done]. unfold ik_store_check. destruct (ik_store_find_index st k') as [i|] eqn:Hi; [|done].
    apply find_first_Some in Hi as (e1 & H1 & Hk & Hf). cbn. rewrite H1. destruct (is_expired now e1) eqn:Hx1; [|done]. cbn.
    destruct (decide (k' = k)) as [->|Hne]; [congruence|]. unfold first_of. cbn. rewrite (find_delete _ _ _ _ H1); [done|]. apply bool_decide_eq_false. congruence.
  - exists e. split; [|done]. unfold ik_store_mark_processing. destruct (_ <=? _)%nat; [done|]. destruct (ik_store_find_index st k'); [done|]. by apply find_app_l.
  - unfold ik_store_mark_completed. destruct (ik_store_find_index st k') as [i|] eqn:Hi; [|by exists e].
    cbn [snd]. case_bool_decide as Hkk; [subst k'|].
    + exists (complete resp size e). unfold first_of. cbn. rewrite (find_alter_first _ _ _ _ Hi) by done. unfold first_of in He. by rewrite He.
    + exists e. apply find_first_Some in Hi as (e1 & H1 & Hk & Hf). unfold first_of. cbn.
      rewrite (find_alter_other _ _ _ _ _ H1) by (apply bool_decide_eq_false; cbn; congruence). done.
  - exists e. split; [|done]. unfold first_of. destruct (ik_evict_correct st now) as [_ ->]. apply find_filter; [done|]. by rewrite Hx.
Qed.
Definition in_time (created ttl : Z) (o : ik_op * Z) : Prop := u64 (o.2 - created) <= ttl.
Lemma in_time_expired e o : in_time (created_at_ms e) (ttl_ms e) o -> is_expired o.2 e = false.
Proof. unfold in_time, is_expired. intros. by apply Z.ltb_ge. Qed.
Lemma ik_ops_keep k ops : forall st e, first_of k st = Some e -> Forall (in_time (created_at_ms e) (ttl_ms e)) ops ->
  exists e', first_of k (foldl ik_step st ops) = Some e' /\ created_at_ms e' = created_at_ms e /\ ttl_ms e' = ttl_ms e /\ (Forall (fun o => completes k o.1 = false) ops -> e' = e).
Proof.
  induction ops as [|o ops IH]; intros st e He Ht; [by exists e|]. apply Forall_cons in Ht as [Ho Ht].
  destruct (ik_step_keeps k st o e He (in_time_expired _ _ Ho)) as (e1 & He1 & Hc & Htt & Hs). destruct (IH _ e1 He1) as (e2 & He2 & Hc2 & Ht2 & Hs2); [by rewrite Hc, Htt|].
  exists e2. cbn. repeat split; try congruence. intros [H1 H2]%Forall_cons. rewrite Hs2, Hs; auto.
Qed.
Lemma known_refused k st now e : first_of k st = Some e -> (ik_store_mark_processing st k now).1 <> 0.
Proof.
  unfold ik_store_mark_processing. rewrite <- find_first. destruct (_ <=? _)%nat; [done|]. by destruct (ik_store_find_index st k).
Qed.
Lemma marked_first k st now st' : (length k < IK_KEY_LEN)%nat -> ik_store_mark_processing st k now = (0, st') -> first_of k st' = Some (new_entry st k now).
Proof.
  intros Hk. unfold ik_store_mark_processing. destruct (_ <=? _)%nat; [done|]. destruct (ik_store_find_index st k) as [|] eqn:Hi; [done|]. intros [= <-].
  pose proof (proj1 (find_idx_None _ _) Hi) as Hn. unfold first_of. cbn. clear Hi.
  induction (entries st) as [|x l IH]; cbn; [by replace (has_key k (new_entry st k now)) with true by (symmetry; apply bool_decide_eq_true; by apply truncated_id)|].
  rewrite (Hn x) by left. apply IH. intros y Hy. apply Hn. by right.
Qed.

(** C33: At most once: a key that fits, once accepted for processing, is not accepted again before
    its time is over, whatever is done with the store meanwhile. *)
Theorem ik_at_most_once st k now st' ops now' : (length k < IK_KEY_LEN)%nat -> ik_store_mark_processing st k now = (0, st') ->
  Forall (in_time now (default_ttl_ms st)) ops ->
  (ik_store_mark_processing (foldl ik_step st' ops) k now').1 <> 0.
Proof.
  intros Hk Hm Ht. destruct (ik_ops_keep k ops st' _ (marked_first _ _ _ _ Hk Hm)) as (e & He & _); [done|]. by eapply known_refused.
Qed.

(** The answer is replayed: from the completion on and until its time is over, a check finds
    the key completed, and the response given is the one stored, cut to the room. *)
Theorem ik_replays st k resp size st' ops now e : ik_store_mark_completed st k resp size = (0, st') -> first_of k st = Some e ->
  Forall (in_time (created_at_ms e) (ttl_ms e)) ops -> Forall (fun o => completes k o.1 = false) ops -> in_time (created_at_ms e) (ttl_ms e) (Evict, now) ->
  (size <= length resp)%nat ->
  let st2 := foldl ik_step st' ops in
  (ik_store_check st2 k now).1 = IK_STATUS_COMPLETED /\
  exists buf n, ik_store_get_response st2 k = (Some buf, n) /\ n = (size `min` (IK_RESPONSE_LEN - 1))%nat /\ take n buf = take n resp /\ buf !! n = Some 0.
Proof.
  intros Hm He Ht Hc Hnow Hs st2. revert Hm. unfold ik_store_mark_completed. destruct (ik_store_find_index st k) as [i|] eqn:Hi; [|done]. intros [= Hm]. subst st'.
  set (st1 := st <| entries ::= alter (complete resp size) i |>) in *.
  assert (H1 : first_of k st1 = Some (complete resp size e)) by (unfold first_of, st1; cbn; rewrite (find_alter_first _ _ _ _ Hi) by done; unfold first_of in He; by rewrite He).
  destruct (ik_ops_keep k ops st1 _ H1 Ht) as (e' & He' & _ & _ & Heq). specialize (Heq Hc). subst e'. fold st2 in He'.
  rewrite <- find_first in He'. unfold ik_store_check, ik_store_get_response. rewrite He'. destruct (ik_store_find_index st2 k) as [j|]; [|done]. cbn in He'.
  split.
  - cbn [entries set]. assert (Hx : is_expired now (complete resp size e) = false) by exact (in_time_expired e (Evict, now) Hnow). cbn. by rewrite He', Hx.
  - eexists _, _. split; [done|]. cbn [complete response response_size set]. set (n := if (size <? IK_RESPONSE_LEN - 1)%nat then size else _).
    assert (Hn : n = (size `min` (IK_RESPONSE_LEN - 1))%nat) by (unfold n; destruct (Nat.ltb_spec size (IK_RESPONSE_LEN - 1)); lia).
    split; [done|]. assert (Hl : length (take n resp) = n) by (rewrite length_take; lia). cbn. fold n. split.
    + by rewrite take_app_le, take_take, Nat.min_id by lia.
    + rewrite lookup_app_r by lia. by rewrite Hl, Nat.sub_diag.
Qed.

(** The store never holds more than its 256 entries. *)
Theorem ik_bounded ttl ops : (length (entries (foldl ik_step (ik_store_create ttl) ops)) <= IK_MAX_KEYS)%nat.
Proof.
  induction ops as [|o ops IH] using rev_ind; [cbn; lia|]. rewrite foldl_app. cbn [foldl]. revert IH. generalize (foldl ik_step (ik_store_create ttl) ops). intros st IH.
  destruct o as [[k|k|k r n|] now]; cbn [ik_step fst snd].
  - unfold ik_store_check. repeat (case_match; cbn; try done). rewrite length_delete; [|done]. lia.
  - unfold ik_store_mark_processing. destruct (Nat.leb_spec IK_MAX_KEYS (length (entries st))); [done|]. case_match; [done|]. cbn. rewrite length_app. cbn. lia.
  - unfold ik_store_mark_completed. case_match; [|done]. cbn. by rewrite length_alter.
  - destruct (ik_evict_correct st now) as [_ ->]. pose proof (List.filter_length_le (fun e => negb (is_expired now e)) (entries st)). lia.
Qed.

(** ** At work *)

Definition order_7 : list Z := str_bytes "order-7".
Definition started : IdempotencyKeyStore := (ik_store_mark_processing (ik_store_create 1000) order_7 5).2.
Definition traffic : list (ik_op * Z) := [(Check order_7, 10); (MarkProcessing (str_bytes "order-8"), 11); (MarkCompleted order_7 (str_bytes "paid") 4, 20); (Evict, 500)].
Lemma ik_at_most_once_witness : (ik_store_mark_processing (foldl ik_step started traffic) order_7 600).1 <> 0.
Proof.
  refine (ik_at_most_once (ik_store_create 1000) order_7 5 started traffic 600 _ eq_refl _); [vm_compute; lia|]. repeat constructor; vm_compute; congruence.
Defined.
Definition completed : IdempotencyKeyStore := (ik_store_mark_completed started order_7 (str_bytes "paid") 4).2.
Lemma ik_replays_witness : let st2 := foldl ik_step completed [(MarkProcessing order_7, 30); (Evict, 500)] in
  (ik_store_check st2 order_7 600).1 = IK_STATUS_COMPLETED /\
  exists buf n, ik_store_get_response st2 order_7 = (Some buf, n) /\ n = (4 `min` (IK_RESPONSE_LEN - 1))%nat /\ take n buf = take n (str_bytes "paid") /\ buf !! n = Some 0.
Proof.
  refine (ik_replays started order_7 (str_bytes "paid") 4 completed _ 600 (new_entry (ik_store_create 1000) order_7 5) _ _ _ _ _ _); try reflexivity.
  all: repeat constructor; vm_compute; congruence.
Defined.

(** A key of 128 characters is stored cut and not found again: it is processed each time. *)
Example long_key_twice : let k := replicate 128 97 in let '(a, st) := ik_store_mark_processing (ik_store_create 1000) k 5 in
  (a, (ik_store_check st k 6).1, (ik_store_mark_processing st k 7).1, (ik_store_mark_completed st k [] 0).1) = (0, IK_STATUS_NOT_FOUND, 0, -1).
Proof. vm_compute. done. Qed.
(** Nothing can be answered once the key in progress has been evicted: the completion is lost. *)
Example completion_lost : (ik_store_mark_completed (ik_store_evict_expired started 1006).2 order_7 (str_bytes "paid") 4).1 = -1.
Proof. vm_compute. done. Qed.
