(* ===== verification/Cache.v ===== *)
(** Model of [mini-backend-framework/src/cache.c], an LRU cache with its pointers: a doubly
    linked list in the order of use and a hash table with chains through the same nodes; and
    the lemmas on the list and the chains.  [CacheSpec] shows what they implement.

    [heap] is the memory of the nodes; reading or writing a node that is not allocated is
    undefined: the operations are [None] then, and [Some] of their result otherwise.  The
    choice of [calloc] and the readings of the clock are arguments.  Strings are without their
    terminating zero; [size] and the counters do not overflow. *)

From S2P Require Import Prelude Bytes Arith.
#[local] Open Scope Z_scope.

Definition CACHE_MAX_KEY_LEN : nat := 128.
Definition CACHE_MAX_VALUE_LEN : nat := Z.to_nat 1024.
#[global] Arguments CACHE_MAX_VALUE_LEN : simpl never.
Definition CACHE_HASH_SIZE : Z := 256.

(** An address. *)
Definition loc := positive.
Record timespec := mk_timespec { tv_sec : Z; tv_nsec : Z }.
Record CacheEntry := mk_entry {
  key : list Z; value : list Z; value_len : Z; created_at : timespec; ttl_sec : Z; prev : option loc; next : option loc; hash_next : option loc;
}.
Record LRUCache := mk_cache {
  heap : gmap loc CacheEntry; head : option loc; tail : option loc; hash : list (option loc);
  capacity : Z; size : Z; hits : Z; misses : Z; evictions : Z; default_ttl : Z;
}.

(** [*str++] until the end of the string; [unsigned long] has 64 bits. *)
Definition hash_djb2 (s : list Z) : Z := foldl (fun h c => u64 (u64 (u64 (Z.shiftl h 5) + h) + c)) 5381 s.
Definition bucket (k : list Z) : nat := Z.to_nat (hash_djb2 k mod CACHE_HASH_SIZE).
Definition entry_expired (D : Type) `{Arith D} (e : CacheEntry) (now : timespec) : bool :=
  if ttl_sec e <=? 0 then false
  else leb (of_Z (ttl_sec e)) (add (of_Z (tv_sec now - tv_sec (created_at e)) : D) (div (of_Z (tv_nsec now - tv_nsec (created_at e))) (of_Z 1000000000))).

(** ** Memory *)

Definition update (p : loc) (f : CacheEntry -> CacheEntry) (c : LRUCache) : option LRUCache :=
  match heap c !! p with Some _ => Some (c <| heap ::= alter f p |>) | None => None end.
Definition update_opt (o : option loc) (f : CacheEntry -> CacheEntry) (otherwise : LRUCache -> LRUCache) (c : LRUCache) : option LRUCache :=
  match o with Some p => update p f c | None => Some (otherwise c) end.
Definition free_entry (p : loc) (c : LRUCache) : LRUCache := c <| heap ::= delete p |>.

(** ** The list *)

Definition detach_node (c : LRUCache) (e : loc) : option LRUCache :=
  n ← heap c !! e;
  c ← update_opt (prev n) (fun m => m <| next := next n |>) (fun c => c <| head := next n |>) c;
  n ← heap c !! e;
  c ← update_opt (next n) (fun m => m <| prev := prev n |>) (fun c => c <| tail := prev n |>) c;
  update e (fun m => m <| next := None |> <| prev := None |>) c.
(** The new first node [e]: [next], [prev] of the old head, [head] and [tail]. *)
Definition link_first (c : LRUCache) (e : loc) : option LRUCache :=
  c ← update e (fun m => m <| next := head c |>) c;
  c ← update_opt (head c) (fun m => m <| prev := Some e |>) id c;
  Some ((fun c => match tail c with None => c <| tail := Some e |> | Some _ => c end) (c <| head := Some e |>)).
Definition move_to_head (c : LRUCache) (e : loc) : option LRUCache :=
  if bool_decide (head c = Some e) then Some c
  else
    c ← detach_node c e;
    c ← update e (fun m => m <| prev := None |>) c;
    link_first c e.

(** ** The hash table *)

(** [CacheEntry **pp]: a cell of the table or the field [hash_next] of a node. *)
Inductive place := Cell (b : nat) | Field (p : loc).
Definition read_place (c : LRUCache) (pp : place) : option (option loc) :=
  match pp with Cell b => hash c !! b | Field p => hash_next <$> heap c !! p end.
Definition write_place (c : LRUCache) (pp : place) (o : option loc) : option LRUCache :=
  match pp with Cell b => Some (c <| hash ::= <[b := o]> |>) | Field p => update p (fun m => m <| hash_next := o |>) c end.
Fixpoint hash_remove_from (fuel : nat) (c : LRUCache) (pp : place) (e : loc) : option LRUCache :=
  match fuel with
  | O => None
  | S fuel =>
      cur ← read_place c pp;
      match cur with
      | None => Some c
      | Some q => if bool_decide (q = e) then n ← heap c !! e; write_place c pp (hash_next n) else hash_remove_from fuel c (Field q) e
      end
  end.
(** No chain is longer than the number of nodes. *)
Definition chain_fuel (c : LRUCache) : nat := S (map_size (heap c)).
Definition hash_remove (c : LRUCache) (e : loc) : option LRUCache :=
  n ← heap c !! e;
  hash_remove_from (chain_fuel c) c (Cell (bucket (key n))) e.
Definition hash_insert (c : LRUCache) (e : loc) : option LRUCache :=
  n ← heap c !! e;
  let b := bucket (key n) in
  old ← hash c !! b;
  c ← update e (fun m => m <| hash_next := old |>) c;
  Some (c <| hash ::= <[b := Some e]> |>).
Fixpoint hash_find_from (fuel : nat) (c : LRUCache) (o : option loc) (k : list Z) : option (option loc) :=
  match fuel, o with
  | _, None => Some None
  | O, _ => None
  | S fuel, Some p => n ← heap c !! p; if bool_decide (key n = k) then Some (Some p) else hash_find_from fuel c (hash_next n) k
  end.
(** The node of a key, or NULL. *)
Definition hash_find (c : LRUCache) (k : list Z) : option (option loc) :=
  o ← hash c !! bucket k; hash_find_from (chain_fuel c) c o k.

(** ** The cache *)

Definition cache_init (cap ttl : Z) : LRUCache :=
  mk_cache ∅ None None (replicate (Z.to_nat CACHE_HASH_SIZE) None) (if 0 <? cap then cap else 64) 0 0 0 0 (if 0 <=? ttl then ttl else 0).
Definition count_down (c : LRUCache) : LRUCache := c <| size ::= Z.pred |>.
Definition count_eviction (c : LRUCache) : LRUCache := c <| size ::= Z.pred |> <| evictions ::= Z.succ |>.
(** The value, or NULL. *)
Definition cache_get (D : Type) `{Arith D} (c : LRUCache) (k : list Z) (now : timespec) : option (option (list Z) * LRUCache) :=
  found ← hash_find c k;
  match found with
  | None => Some (None, c <| misses ::= Z.succ |>)
  | Some e =>
      n ← heap c !! e;
      if entry_expired D n now then
        c ← detach_node c e;
        c ← hash_remove c e;
        Some (None, count_eviction (free_entry e c) <| misses ::= Z.succ |>)
      else
        c ← move_to_head c e;
        n ← heap c !! e;
        Some (Some (value n), c <| hits ::= Z.succ |>)
  end.
Definition cache_evict_lru (c : LRUCache) : option (Z * LRUCache) :=
  match tail c with
  | None => Some (-1, c)
  | Some e =>
      c ← detach_node c e;
      c ← hash_remove c e;
      Some (0, count_eviction (free_entry e c))
  end.
Definition with_value (c : LRUCache) (v : list Z) (ttl : Z) (now : timespec) (n : CacheEntry) : CacheEntry :=
  let v := truncated CACHE_MAX_VALUE_LEN v in
  n <| value := v |> <| value_len := Z.of_nat (length v) |> <| ttl_sec := if 0 <? ttl then ttl else default_ttl c |> <| created_at := now |>.
Definition blank_entry : CacheEntry := mk_entry [] [] 0 (mk_timespec 0 0) 0 None None None.
(** [calloc] picks an address for the memory it finds, or fails. *)
Definition cache_put (c : LRUCache) (k v : list Z) (ttl : Z) (calloc : gmap loc CacheEntry -> option loc) (now : timespec) : option (Z * LRUCache) :=
  found ← hash_find c k;
  match found with
  | Some e =>
      c ← update e (with_value c v ttl now) c;
      c ← move_to_head c e;
      Some (0, c)
  | None =>
      c ← (if capacity c <=? size c then snd <$> cache_evict_lru c else Some c);
      match calloc (heap c) with
      | None => Some (-1, c)
      | Some e =>
          let c := c <| heap ::= <[e := with_value c v ttl now (blank_entry <| key := truncated CACHE_MAX_KEY_LEN k |>)]> |> in
          c ← link_first c e;
          c ← hash_insert c e;
          Some (0, c <| size ::= Z.succ |>)
      end
  end.
Definition cache_delete (c : LRUCache) (k : list Z) : option (Z * LRUCache) :=
  found ← hash_find c k;
  match found with
  | None => Some (-1, c)
  | Some e =>
      c ← detach_node c e;
      c ← hash_remove c e;
      Some (0, count_down (free_entry e c))
  end.
Definition cache_has (D : Type) `{Arith D} (c : LRUCache) (k : list Z) (now : timespec) : option bool :=
  found ← hash_find c k;
  match found with
  | None => Some false
  | Some e => n ← heap c !! e; Some (negb (entry_expired D n now))
  end.
(** [now] gives the reading of the clock when a node is looked at. *)
Fixpoint evict_from (D : Type) `{Arith D} (fuel : nat) (c : LRUCache) (curr : option loc) (now : loc -> timespec) (evicted : Z) : option (Z * LRUCache) :=
  match fuel, curr with
  | _, None => Some (evicted, c)
  | O, _ => None
  | S fuel, Some e =>
      n ← heap c !! e;
      if entry_expired D n (now e) then
        c ← hash_remove c e;
        c ← detach_node c e;
        evict_from D fuel (count_eviction (free_entry e c)) (prev n) now (evicted + 1)
      else evict_from D fuel c (prev n) now evicted
  end.
Definition cache_evict_expired (D : Type) `{Arith D} (c : LRUCache) (now : loc -> timespec) : option (Z * LRUCache) :=
  evict_from D (map_size (heap c)) c (tail c) now 0.
Definition cache_size (c : LRUCache) : Z := size c.
Fixpoint free_from (fuel : nat) (c : LRUCache) (curr : option loc) : option LRUCache :=
  match fuel, curr with
  | _, None => Some c
  | O, _ => None
  | S fuel, Some e => n ← heap c !! e; free_from fuel (free_entry e c) (next n)
  end.
Definition cache_clear (c : LRUCache) : option LRUCache :=
  c ← free_from (map_size (heap c)) c (head c);
  Some (c <| head := None |> <| tail := None |> <| size := 0 |> <| hash := replicate (Z.to_nat CACHE_HASH_SIZE) None |>).
Definition cache_destroy (c : LRUCache) : option LRUCache := c ← cache_clear c; Some (c <| capacity := 0 |>).
Definition cache_hit_rate {D : Type} `{Arith D} (c : LRUCache) : D :=
  let total := hits c + misses c in if total =? 0 then of_Z 0 else div (of_Z (hits c)) (of_Z total).
Definition cache_hits (c : LRUCache) : Z := hits c.
Definition cache_misses (c : LRUCache) : Z := misses c.
Definition cache_evictions (c : LRUCache) : Z := evictions c.

(** ** What the pointers stand for *)

Definition first_or (l : list loc) (o : option loc) : option loc := match l with [] => o | p :: _ => Some p end.
(** [l] is linked from [before] to [after]. *)
Fixpoint linked (h : gmap loc CacheEntry) (before : option loc) (l : list loc) (after : option loc) : Prop :=
  match l with
  | [] => True
  | p :: l' => exists n, h !! p = Some n /\ prev n = before /\ next n = first_or l' after /\ linked h (Some p) l' after
  end.
Definition last_or (l : list loc) (o : option loc) : option loc := match List.last (Some <$> l) None with Some p => Some p | None => o end.
Record dll (c : LRUCache) (l : list loc) : Prop := {
  dll_linked : linked (heap c) None l None;
  dll_head : head c = first_or l None;
  dll_tail : tail c = last_or l None;
}.
(** The chain that starts at [o]. *)
Fixpoint chain (h : gmap loc CacheEntry) (o : option loc) (ch : list loc) : Prop :=
  match ch with
  | [] => o = None
  | p :: ch' => o = Some p /\ exists n, h !! p = Some n /\ chain h (hash_next n) ch'
  end.
Definition key_of (h : gmap loc CacheEntry) (p : loc) : option (list Z) := key <$> h !! p.
Definition in_bucket (h : gmap loc CacheEntry) (b : nat) (p : loc) : bool := bool_decide (bucket <$> key_of h p = Some b).
Definition chains (c : LRUCache) (l : list loc) : Prop :=
  length (hash c) = Z.to_nat CACHE_HASH_SIZE /\
  forall b o, hash c !! b = Some o -> exists ch, chain (heap c) o ch /\ ch ≡ₚ List.filter (in_bucket (heap c) b) l.

(** Two states that differ in [prev], [next], [head] and [tail] only; or in [hash_next] and
    [hash] only. *)
Definition no_links (n : CacheEntry) : CacheEntry := n <| prev := None |> <| next := None |>.
Definition no_chain (n : CacheEntry) : CacheEntry := n <| hash_next := None |>.
Definition counters (c : LRUCache) : Z * Z * Z * Z * Z * Z := (capacity c, size c, hits c, misses c, evictions c, default_ttl c).
Definition relinked (c c' : LRUCache) : Prop :=
  (forall p, no_links <$> heap c' !! p = no_links <$> heap c !! p) /\ hash c' = hash c /\ counters c' = counters c.
Definition rehashed (c c' : LRUCache) : Prop :=
  (forall p, no_chain <$> heap c' !! p = no_chain <$> heap c !! p) /\ head c' = head c /\ tail c' = tail c /\ counters c' = counters c.
#[export] Instance relinked_refl : Reflexive relinked.
Proof. done. Qed.
#[export] Instance relinked_trans : Transitive relinked.
Proof. intros c1 c2 c3 (H1 & H2 & H3) (H4 & H5 & H6). split; [|by split; etransitivity]. intros p. by rewrite H4. Qed.
#[export] Instance rehashed_refl : Reflexive rehashed.
Proof. done. Qed.
#[export] Instance rehashed_trans : Transitive rehashed.
Proof. intros c1 c2 c3 (H1 & H2 & H3 & H4) (H5 & H6 & H7 & H8). split; [|split; [|split]; by etransitivity]. intros p. by rewrite H5. Qed.

Lemma relinked_node c c' p n : relinked c c' -> heap c !! p = Some n -> exists n', heap c' !! p = Some n' /\ no_links n' = no_links n.
Proof. intros (H & _) Hn. specialize (H p). rewrite Hn in H. cbn in H. apply fmap_Some in H as (n' & ? & ?). eauto. Qed.
Lemma rehashed_node c c' p n : rehashed c c' -> heap c !! p = Some n -> exists n', heap c' !! p = Some n' /\ no_chain n' = no_chain n.
Proof. intros (H & _) Hn. specialize (H p). rewrite Hn in H. cbn in H. apply fmap_Some in H as (n' & ? & ?). eauto. Qed.
Lemma key_of_relinked c c' p : relinked c c' -> key_of (heap c') p = key_of (heap c) p.
Proof. intros (H & _). specialize (H p). unfold key_of. destruct (heap c' !! p) as [[]|], (heap c !! p) as [[]|]; unfold no_links, no_chain in *; cbn in *; simplify_eq; congruence. Qed.
Lemma key_of_rehashed c c' p : rehashed c c' -> key_of (heap c') p = key_of (heap c) p.
Proof. intros (H & _). specialize (H p). unfold key_of. destruct (heap c' !! p) as [[]|], (heap c !! p) as [[]|]; unfold no_links, no_chain in *; cbn in *; simplify_eq; congruence. Qed.

Lemma dl_frame h h' before l after : (forall p, p ∈ l -> (fun n => (prev n, next n)) <$> h' !! p = (fun n => (prev n, next n)) <$> h !! p) ->
  linked h before l after -> linked h' before l after.
Proof.
  revert before. induction l as [|p l IH]; intros before Hf; [done|]. intros (n & Hn & Hp & Hx & Hl).
  pose proof (Hf p ltac:(left)) as H. rewrite Hn in H. cbn in H. apply fmap_Some in H as (n' & Hn' & [= H1 H2]).
  exists n'. split; [done|]. split; [congruence|]. split; [congruence|]. apply IH; [|done]. intros q Hq. apply Hf. by right.
Qed.
Lemma chain_frame h h' o ch : (forall p, p ∈ ch -> hash_next <$> h' !! p = hash_next <$> h !! p) -> chain h o ch -> chain h' o ch.
Proof.
  revert o. induction ch as [|p ch IH]; intros o Hf; [done|]. intros (-> & n & Hn & Hc). split; [done|].
  pose proof (Hf p ltac:(left)) as H. rewrite Hn in H. cbn in H. apply fmap_Some in H as (n' & Hn' & H1). exists n'. split; [done|]. rewrite <- H1.
  apply IH; [|done]. intros q Hq. apply Hf. by right.
Qed.
Lemma chains_relinked c c' l : relinked c c' -> chains c l -> chains c' l.
Proof.
  intros Hr [Hlen Hc]. pose proof Hr as (Hh & Hhash & _). split; [by rewrite Hhash|]. intros b o. rewrite Hhash. intros Hb. destruct (Hc b o Hb) as (ch & Hch & Hp).
  exists ch. split.
  - eapply chain_frame; [|exact Hch]. intros p _. specialize (Hh p). destruct (heap c' !! p) as [[]|], (heap c !! p) as [[]|]; unfold no_links, no_chain in *; cbn in *; simplify_eq; congruence.
  - rewrite Hp. erewrite List.filter_ext; [reflexivity|]. intros p. unfold in_bucket. by rewrite (key_of_relinked c c').
Qed.
Lemma dll_rehashed c c' l : rehashed c c' -> dll c l -> dll c' l.
Proof.
  intros (Hh & Hhd & Htl & _) [Hl H1 H2]. split; [|congruence..]. eapply dl_frame; [|exact Hl]. intros p _. specialize (Hh p).
  destruct (heap c' !! p) as [[]|], (heap c !! p) as [[]|]; unfold no_links, no_chain in *; cbn in *; simplify_eq; congruence.
Qed.

(** ** Lists of nodes *)

Lemma dl_app h before l1 l2 after : linked h before (l1 ++ l2) after <-> linked h before l1 (first_or l2 after) /\ linked h (last_or l1 before) l2 after.
Proof.
  revert before. induction l1 as [|p l1 IH]; intros before; cbn [linked app]; [unfold last_or; cbn; tauto|].
  assert (Hfo : first_or (l1 ++ l2) after = first_or l1 (first_or l2 after)) by by destruct l1.
  assert (Hlo : last_or (p :: l1) before = last_or l1 (Some p)).
  { unfold last_or. destruct l1 as [|q l1]; [done|]. change (List.last (Some <$> p :: q :: l1) None) with (List.last (Some <$> q :: l1) None). 
    destruct (exists_last (l := q :: l1)) as (l' & x & ->); [done|]. rewrite fmap_app. cbn. by rewrite List.last_last. }
  rewrite Hlo. split.
  - intros (n & Hn & Hp & Hx & Hl). apply IH in Hl as [H1 H2]. split; [|done]. exists n. by rewrite <- Hfo.
  - intros [(n & Hn & Hp & Hx & Hl) H2]. exists n. rewrite Hfo. repeat split; try done. by apply IH.
Qed.
Lemma last_or_snoc l p o : last_or (l ++ [p]) o = Some p.
Proof. unfold last_or. rewrite fmap_app. cbn. by rewrite List.last_last. Qed.
Lemma dl_set_next h before l q after after' : q ∉ l -> linked h before (l ++ [q]) after -> linked (alter (fun m => m <| next := after' |>) q h) before (l ++ [q]) after'.
Proof.
  intros Hq Hl. apply dl_app in Hl as [H1 (n & Hn & Hp & Hx & _)]. apply dl_app. split.
  - eapply dl_frame; [|exact H1]. intros p Hin. by rewrite lookup_alter_ne by set_solver.
  - exists (n <| next := after' |>). rewrite lookup_alter_eq, Hn. done.
Qed.
Lemma dl_set_prev h before before' p l after : p ∉ l -> linked h before (p :: l) after -> linked (alter (fun m => m <| prev := before' |>) p h) before' (p :: l) after.
Proof.
  intros Hp (n & Hn & _ & Hx & Hl). exists (n <| prev := before' |>). rewrite lookup_alter_eq, Hn. repeat split; try done.
  eapply dl_frame; [|exact Hl]. intros q Hin. by rewrite lookup_alter_ne by set_solver.
Qed.
Lemma update_spec p f c n : heap c !! p = Some n -> update p f c = Some (c <| heap ::= alter f p |>).
Proof. unfold update. by intros ->. Qed.
Lemma relinked_alter c p f : (forall n, no_links (f n) = no_links n) -> relinked c (c <| heap ::= alter f p |>).
Proof.
  intros Hf. split; [|done]. intros q. cbn. destruct (decide (p = q)) as [->|Hne]; [|by rewrite lookup_alter_ne].
  rewrite lookup_alter_eq. destruct (heap c !! q); [cbn; by rewrite Hf|done].
Qed.

(** Taking a node out of the list. *)
Lemma detach_spec c l1 e l2 : NoDup (l1 ++ e :: l2) -> dll c (l1 ++ e :: l2) ->
  exists c', detach_node c e = Some c' /\ dll c' (l1 ++ l2) /\ relinked c c' /\ exists n, heap c' !! e = Some n /\ prev n = None /\ next n = None.
Proof.
  intros Hnd [Hl Hhd Htl]. apply NoDup_app in Hnd as (Hn1 & Hd & Hn2). apply NoDup_cons in Hn2 as [He2 Hn2].
  assert (He1 : e ∉ l1) by (intros Hin; apply (Hd e Hin); left).
  apply dl_app in Hl as [Hl1 (n & Hn & Hp & Hx & Hl2)]. cbn [first_or] in Hl1. unfold detach_node. rewrite Hn. cbn [mbind option_bind].
  (* the node before *)
  assert (exists c1, update_opt (prev n) (fun m => m <| next := next n |>) (fun c => c <| head := next n |>) c = Some c1 /\ relinked c c1 /\
    linked (heap c1) None l1 (first_or l2 None) /\ head c1 = first_or (l1 ++ l2) None /\ tail c1 = tail c /\ (forall q, q ∉ l1 -> heap c1 !! q = heap c !! q)) as (c1 & -> & Hr1 & Hl1' & Hh1 & Ht1 & Hf1).
  { destruct l1 as [|q l1 _] using rev_ind.
    - cbn in Hp. rewrite Hp. cbn. eexists. split; [done|]. split; [done|]. by rewrite Hx.
    - rewrite last_or_snoc in Hp. rewrite Hp. cbn [update_opt]. pose proof Hl1 as Hl1q. apply dl_app in Hl1q as [_ (m & Hm & _)].
      rewrite (update_spec _ _ _ _ Hm). eexists. split; [done|]. split; [by apply relinked_alter|]. apply NoDup_app in Hn1 as (_ & Hdq & _).
      split; [rewrite <- Hx; eapply dl_set_next; [|exact Hl1]; intros Hin; apply (Hdq q Hin); left|].
      split; [cbn; rewrite Hhd, <- !app_assoc; by destruct l1|]. split; [done|]. intros r Hr. cbn. rewrite lookup_alter_ne; [done|]. set_solver. }
  cbn [mbind option_bind]. rewrite (Hf1 e He1), Hn. cbn [mbind option_bind].
  (* the node after *)
  assert (exists c2, update_opt (next n) (fun m => m <| prev := prev n |>) (fun c => c <| tail := prev n |>) c1 = Some c2 /\ relinked c1 c2 /\
    linked (heap c2) (last_or l1 None) l2 None /\ head c2 = head c1 /\ tail c2 = last_or (l1 ++ l2) None /\ (forall q, q ∉ l2 -> heap c2 !! q = heap c1 !! q)) as (c2 & -> & Hr2 & Hl2' & Hh2 & Ht2 & Hf2).
  { assert (Hl2c : linked (heap c1) (Some e) l2 None).
    { eapply dl_frame; [|exact Hl2]. intros q Hq. rewrite Hf1; [done|]. intros Hq1. apply (Hd q Hq1). by right. }
    destruct l2 as [|q l2].
    - cbn in Hx. rewrite Hx. cbn. eexists. split; [done|]. split; [done|]. by rewrite Hp, app_nil_r.
    - cbn in Hx. rewrite Hx. cbn [update_opt]. pose proof Hl2c as (m & Hm & _). rewrite (update_spec _ _ _ _ Hm). eexists. split; [done|]. split; [by apply relinked_alter|].
      apply NoDup_cons in Hn2 as [Hq2 _]. split; [rewrite <- Hp; by eapply dl_set_prev|]. split; [done|].
      split; [cbn; rewrite Ht1, Htl; rewrite (cons_middle e), (app_assoc l1); destruct (exists_last (l := q :: l2)) as (l' & x & ->); [done|]; by rewrite !app_assoc, !last_or_snoc|].
      intros r Hr. cbn. rewrite lookup_alter_ne; [done|]. set_solver. }
  cbn [mbind option_bind]. assert (He : heap c2 !! e = Some n) by (by rewrite Hf2, Hf1).
  rewrite (update_spec _ _ _ _ He). eexists. split; [done|]. split; [|split].
  - split; cbn; [|by rewrite Hh2|done]. apply dl_app. split.
    + eapply dl_frame; [|exact Hl1']. intros q Hq. rewrite lookup_alter_ne by set_solver. rewrite Hf2; [done|]. intros Hq2. apply (Hd q Hq). by right.
    + eapply dl_frame; [|exact Hl2']. intros q Hq. by rewrite lookup_alter_ne by set_solver.
  - etransitivity; [exact Hr1|]. etransitivity; [exact Hr2|]. by apply relinked_alter.
  - cbn. rewrite lookup_alter_eq, He. by eexists.
Qed.

(** Putting a node in front. *)
Lemma link_first_spec c l e n : dll c l -> NoDup (e :: l) -> heap c !! e = Some n -> prev n = None ->
  exists c', link_first c e = Some c' /\ dll c' (e :: l) /\ relinked c c'.
Proof.
  intros [Hl Hhd Htl] [He Hnd]%NoDup_cons Hn Hp. unfold link_first. rewrite (update_spec _ _ _ _ Hn). cbn [mbind option_bind].
  set (c1 := c <| heap ::= alter _ e |>). assert (Hr1 : relinked c c1) by by apply relinked_alter.
  assert (He1 : heap c1 !! e = Some (n <| next := first_or l None |>)) by (unfold c1; cbn; by rewrite lookup_alter_eq, Hn, Hhd).
  assert (Hl1 : linked (heap c1) None l None) by (eapply dl_frame; [|exact Hl]; intros q Hq; unfold c1; cbn; by rewrite lookup_alter_ne by set_solver).
  change (head c1) with (head c). change (head c) with (head c) in *. rewrite Hhd.
  assert (exists c2, update_opt (first_or l None) (fun m => m <| prev := Some e |>) id c1 = Some c2 /\ relinked c1 c2 /\ linked (heap c2) (Some e) l None /\ heap c2 !! e = heap c1 !! e /\ tail c2 = tail c) as (c2 & -> & Hr2 & Hl2 & He2 & Ht2).
  { destruct l as [|q l]; [by exists c1|]. cbn [first_or update_opt]. pose proof Hl1 as (m & Hm & _). rewrite (update_spec _ _ _ _ Hm). eexists. split; [done|].
    split; [by apply relinked_alter|]. split; [|split; [|done]].
    - apply NoDup_cons in Hnd as [Hq _]. by eapply dl_set_prev.
    - cbn. rewrite lookup_alter_ne; [done|]. set_solver. }
  cbn [mbind option_bind]. eexists. split; [done|]. split.
  - split.
    + exists (n <| next := first_or l None |>). split; [|split; [done|split; [done|]]].
      * cbn. destruct (tail c2); cbn; by rewrite He2.
      * cbn. by destruct (tail c2).
    + cbn. by destruct (tail c2).
    + rewrite Htl in Ht2. cbn. rewrite Ht2. clear - Ht2. induction l as [|q l _] using rev_ind; [done|]. rewrite last_or_snoc, app_comm_cons, last_or_snoc in *. done.
  - etransitivity; [exact Hr1|]. etransitivity; [exact Hr2|]. cbn. by destruct (tail c2).
Qed.

(** ** Chains *)

Lemma chain_nodes h o ch p : chain h o ch -> p ∈ ch -> is_Some (h !! p).
Proof.
  revert o. induction ch as [|q ch IH]; intros o; [by intros _ ?%not_elem_of_nil|]. intros (_ & n & Hn & Hc) [->|Hin]%elem_of_cons; [by exists n|]. by eapply IH.
Qed.
Lemma chain_short c o ch : chain (heap c) o ch -> NoDup ch -> (length ch < chain_fuel c)%nat.
Proof.
  intros Hc Hnd. unfold chain_fuel. assert (list_to_set ch ⊆ dom (heap c)) as Hsub.
  { intros p Hp%elem_of_list_to_set. apply elem_of_dom. by eapply chain_nodes. }
  apply subseteq_size in Hsub. rewrite size_list_to_set, size_dom in Hsub by done. change (length ch <= map_size (heap c))%nat in Hsub. lia.
Qed.

Definition touches (pp : place) (ch : list loc) : Prop := match pp with Cell _ => False | Field p => p ∈ ch end.
(** Unlinking [e] from the chain read at [pp]. *)
Lemma hash_remove_from_spec fuel : forall c pp o c1 e c2, (length c1 < fuel)%nat -> read_place c pp = Some o -> chain (heap c) o (c1 ++ e :: c2) -> NoDup (c1 ++ e :: c2) ->
  ~ touches pp (c1 ++ e :: c2) -> (forall b, pp = Cell b -> (b < length (hash c))%nat) ->
  exists c', hash_remove_from fuel c pp e = Some c' /\ rehashed c c' /\ (exists o', read_place c' pp = Some o' /\ chain (heap c') o' (c1 ++ c2)) /\
    (forall q, q ∉ c1 -> pp <> Field q -> heap c' !! q = heap c !! q) /\ (forall b, pp <> Cell b -> hash c' !! b = hash c !! b) /\ length (hash c') = length (hash c).
Proof.
  induction fuel as [|fuel IH]; [lia|]. intros c pp o c1 e c2 Hlen Hrd Hch Hnd Ht Hb. cbn [hash_remove_from]. rewrite Hrd. cbn [mbind option_bind].
  destruct c1 as [|q c1]; cbn [app] in *.
  - destruct Hch as (-> & n & Hn & Hch). rewrite bool_decide_eq_true_2 by done. rewrite Hn. cbn [mbind option_bind]. apply NoDup_cons in Hnd as [He _].
    destruct pp as [b|p]; cbn [write_place read_place touches] in *.
    + eexists. split; [done|]. split; [done|]. split; [exists (hash_next n); split; [cbn; by rewrite list_lookup_insert_eq by auto|done]|].
      split; [done|]. split; [intros b' Hne; cbn; rewrite list_lookup_insert_ne; [done|congruence]|]. cbn. by rewrite length_insert.
    + apply fmap_Some in Hrd as (m & Hm & Hmn). rewrite (update_spec _ _ _ _ Hm). eexists. split; [done|]. split.
      { split; [|done]. intros r. cbn. destruct (decide (p = r)) as [<-|Hne]; [by rewrite lookup_alter_eq, Hm|by rewrite lookup_alter_ne]. }
      split; [exists (hash_next n); split; [cbn; by rewrite lookup_alter_eq, Hm|]|].
      * eapply chain_frame; [|exact Hch]. intros r Hr. cbn. rewrite lookup_alter_ne; [done|]. intros ->. apply Ht. by right.
      * split; [|done]. intros r _ Hne. cbn. rewrite lookup_alter_ne; [done|congruence].
  - destruct Hch as (-> & n & Hn & Hch). apply NoDup_cons in Hnd as [Hq Hnd]. rewrite bool_decide_eq_false_2 by (intros Heq; apply Hq; rewrite Heq; set_solver).
    destruct (IH c (Field q) (hash_next n) c1 e c2) as (c' & -> & Hr & (o' & Ho' & Hch') & Hf & Hh & Hl); [cbn in Hlen; lia|cbn; by rewrite Hn|done|done|done|done|].
    exists c'. split; [done|]. split; [done|]. assert (Hpp : forall p, pp = Field p -> p ∉ q :: c1 ++ e :: c2) by (intros p ->; exact Ht).
    assert (Hrd' : read_place c' pp = Some (Some q)).
    { destruct pp as [b|p]; cbn in *; [by rewrite Hh|]. rewrite Hf; [done|specialize (Hpp p eq_refl); set_solver|]. intros [= Heq]. subst p. apply (Hpp q eq_refl). left. }
    split; [exists (Some q); split; [done|]; split; [done|]; cbn in Ho'; apply fmap_Some in Ho' as (n' & Hn' & ->); by exists n'|].
    split; [|split; [|done]]; [|by intros; apply Hh]. intros r Hr1 Hr2. apply Hf; [set_solver|]. intros [= Heq]. subst r. apply Hr1. left.
Qed.

Lemma in_bucket_true h b p : in_bucket h b p = true <-> exists k, key_of h p = Some k /\ bucket k = b.
Proof. unfold in_bucket. rewrite bool_decide_eq_true, fmap_Some. naive_solver. Qed.
Lemma bucket_below k : (bucket k < Z.to_nat CACHE_HASH_SIZE)%nat.
Proof. unfold bucket, CACHE_HASH_SIZE. pose proof (Z.mod_pos_bound (hash_djb2 k) 256). lia. Qed.
Lemma filter_in {A} (f : A -> bool) l x : x ∈ List.filter f l <-> x ∈ l /\ f x = true.
Proof. rewrite !list_elem_of_In. apply List.filter_In. Qed.
Lemma NoDup_filter_bool {A} (f : A -> bool) l : NoDup l -> NoDup (List.filter f l).
Proof. rewrite !NoDup_ListNoDup. apply List.NoDup_filter. Qed.

Lemma hash_remove_spec c l1 e l2 : NoDup (l1 ++ e :: l2) -> chains c (l1 ++ e :: l2) -> is_Some (heap c !! e) ->
  exists c', hash_remove c e = Some c' /\ chains c' (l1 ++ l2) /\ rehashed c c'.
Proof.
  intros Hnd [Hlen Hc] [n Hn]. unfold hash_remove. rewrite Hn. cbn [mbind option_bind]. set (b := bucket (key n)).
  assert (Hb : (b < length (hash c))%nat) by (rewrite Hlen; apply bucket_below).
  destruct (lookup_lt_is_Some_2 (hash c) b Hb) as [o Ho]. destruct (Hc b o Ho) as (ch & Hch & Hp).
  assert (Hnc : NoDup ch) by (rewrite Hp; by apply NoDup_filter_bool).
  assert (He : e ∈ ch).
  { rewrite Hp. apply filter_in. split; [set_solver|]. apply in_bucket_true. exists (key n). split; [unfold key_of; by rewrite Hn|done]. }
  apply list_elem_of_split in He as (c1 & c2 & ->).
  destruct (hash_remove_from_spec (chain_fuel c) c (Cell b) o c1 e c2) as (c' & -> & Hr & (o' & Ho' & Hch') & Hf & Hh & Hl); try done.
  { pose proof (chain_short _ _ _ Hch Hnc). rewrite length_app in *. cbn in *. lia. }
  { by intros []. }
  { by intros b' [= <-]. }
  exists c'. split; [done|]. split; [|done]. split; [by rewrite Hl|]. intros b' o1 Ho1.
  assert (Hflt : forall l, List.filter (in_bucket (heap c') b') l = List.filter (in_bucket (heap c) b') l).
  { intros l. apply List.filter_ext. intros p. unfold in_bucket. by rewrite (key_of_rehashed c c'). }
  rewrite Hflt. destruct (decide (b = b')) as [<-|Hne].
  - exists (c1 ++ c2). cbn in Ho'. split; [congruence|]. apply (Permutation_cons_inv (a := e)).
    rewrite Permutation_middle, Hp, !List.filter_app. cbn [List.filter]. assert (in_bucket (heap c) b e = true) as ->.
    { apply in_bucket_true. exists (key n). split; [unfold key_of; by rewrite Hn|done]. }
    symmetry. apply Permutation_middle.
  - rewrite Hh in Ho1 by congruence. destruct (Hc b' o1 Ho1) as (ch & Hch1 & Hp1). exists ch. split.
    + eapply chain_frame; [|exact Hch1]. intros q Hq. rewrite Hf; [done| |done]. intros Hq1.
      assert (Hq2 : q ∈ c1 ++ e :: c2) by set_solver. rewrite Hp in Hq2. rewrite Hp1 in Hq. apply filter_in in Hq as [_ (k1 & E1 & B1)%in_bucket_true].
      apply filter_in in Hq2 as [_ (k2 & E2 & B2)%in_bucket_true]. congruence.
    + rewrite Hp1, !List.filter_app. cbn [List.filter]. assert (in_bucket (heap c) b' e = false) as ->; [|done].
      apply not_true_is_false. intros (k & Hk & Hkb)%in_bucket_true. unfold key_of in Hk. rewrite Hn in Hk. cbn in Hk. subst b. congruence.
Qed.

Lemma hash_insert_spec c l e n : NoDup (e :: l) -> chains c l -> heap c !! e = Some n -> exists c', hash_insert c e = Some c' /\ chains c' (e :: l) /\ rehashed c c'.
Proof.
  intros [He Hnd]%NoDup_cons [Hlen Hc] Hn. unfold hash_insert. rewrite Hn. cbn [mbind option_bind]. set (b := bucket (key n)).
  assert (Hb : (b < length (hash c))%nat) by (rewrite Hlen; apply bucket_below).
  destruct (lookup_lt_is_Some_2 (hash c) b Hb) as [o Ho]. rewrite Ho. cbn [mbind option_bind]. rewrite (update_spec _ _ _ _ Hn). cbn [mbind option_bind].
  set (c' := _ <| hash ::= _ |>). assert (Hr : rehashed c c').
  { split; [|done]. intros r. unfold c'. cbn. destruct (decide (e = r)) as [<-|Hne]; [by rewrite lookup_alter_eq, Hn|by rewrite lookup_alter_ne]. }
  exists c'. split; [done|]. split; [|done]. split; [unfold c'; cbn; by rewrite length_insert|]. intros b' o1 Ho1.
  assert (Hflt : forall l, List.filter (in_bucket (heap c') b') l = List.filter (in_bucket (heap c) b') l).
  { intros l'. apply List.filter_ext. intros p. unfold in_bucket. by rewrite (key_of_rehashed c c'). }
  assert (Hch : forall o ch, chain (heap c) o ch -> ch ≡ₚ List.filter (in_bucket (heap c) b') l -> chain (heap c') o ch).
  { intros o2 ch Hch Hp. eapply chain_frame; [|exact Hch]. intros q Hq. unfold c'. cbn. rewrite lookup_alter_ne; [done|]. intros <-.
    rewrite Hp in Hq. apply filter_in in Hq as [Hq _]. done. }
  assert (Hin : in_bucket (heap c) b' e = bool_decide (b = b')).
  { unfold in_bucket, key_of. rewrite Hn. cbn. fold b. apply bool_decide_ext. split; [by intros [=]|by intros ->]. }
  rewrite Hflt. cbn [List.filter]. rewrite Hin. unfold c' in Ho1. cbn in Ho1. case_bool_decide as Hbb.
  - subst b'. rewrite list_lookup_insert_eq in Ho1 by done. injection Ho1 as <-. destruct (Hc b o Ho) as (ch & Hch0 & Hp). exists (e :: ch).
    split; [split; [done|]; exists (n <| hash_next := o |>); split; [unfold c'; cbn; by rewrite lookup_alter_eq, Hn|by apply Hch]|by rewrite Hp].
  - rewrite list_lookup_insert_ne in Ho1 by done. destruct (Hc b' o1 Ho1) as (ch & Hch0 & Hp). exists ch. split; [by apply Hch|done].
Qed.

Lemma hash_find_from_spec fuel : forall c o ch k, (length ch < fuel)%nat -> chain (heap c) o ch ->
  exists r, hash_find_from fuel c o k = Some r /\ match r with Some p => p ∈ ch /\ key_of (heap c) p = Some k | None => forall p, p ∈ ch -> key_of (heap c) p <> Some k end.
Proof.
  induction fuel as [|fuel IH]; [lia|]. intros c o ch k Hl Hc. destruct ch as [|p ch]; cbn in Hc.
  - subst o. exists None. split; [done|]. by intros p ?%not_elem_of_nil.
  - destruct Hc as (-> & n & Hn & Hc). cbn [hash_find_from]. rewrite Hn. cbn [mbind option_bind]. case_bool_decide as Hk.
    + exists (Some p). split; [done|]. split; [left|]. unfold key_of. rewrite Hn. cbn. by rewrite Hk.
    + destruct (IH c (hash_next n) ch k) as (r & -> & Hr); [cbn in Hl; lia|done|]. exists r. split; [done|]. destruct r as [q|].
      * destruct Hr as [Hq ?]. split; [by right|done].
      * intros q [->|Hq]%elem_of_cons; [|auto]. unfold key_of. rewrite Hn. cbn. congruence.
Qed.
Lemma hash_find_spec c l k : NoDup l -> chains c l ->
  exists r, hash_find c k = Some r /\ match r with Some p => p ∈ l /\ key_of (heap c) p = Some k | None => forall p, p ∈ l -> key_of (heap c) p <> Some k end.
Proof.
  intros Hnd [Hlen Hc]. unfold hash_find. destruct (lookup_lt_is_Some_2 (hash c) (bucket k)) as [o Ho]; [rewrite Hlen; apply bucket_below|]. rewrite Ho. cbn [mbind option_bind].
  destruct (Hc _ _ Ho) as (ch & Hch & Hp). destruct (hash_find_from_spec (chain_fuel c) c o ch k) as (r & -> & Hr); [|done|].
  { eapply chain_short; [done|]. rewrite Hp. by apply NoDup_filter_bool. }
  exists r. split; [done|]. destruct r as [p|].
  - destruct Hr as [Hin Hk]. rewrite Hp in Hin. apply filter_in in Hin as [? _]. done.
  - intros p Hin Hk. apply (Hr p); [|done]. rewrite Hp. apply filter_in. split; [done|]. apply in_bucket_true. by exists k.
Qed.
