(* ===== verification/CacheSpec.v ===== *)
(** The LRU cache of [Cache] implements a list of items, the last used first: the
    specification, the relation between the two and the refinement of each operation.

    [calloc] is assumed to give memory that is not in use. *)

From Stdlib Require Import QArith.
From S2P Require Import Prelude Bytes Arith Cache.
#[local] Open Scope Z_scope.

(** ** The specification: a list of items, the last used first *)

Record item := mk_item { i_key : list Z; i_value : list Z; i_len : Z; i_created : timespec; i_ttl : Z }.
Record lru := mk_lru { items : list item; l_hits : Z; l_misses : Z; l_evictions : Z }.
Definition has (k : list Z) (it : item) : bool := bool_decide (i_key it = k).
Definition without (k : list Z) (its : list item) : list item := List.filter (fun it => negb (has k it)) its.
Definition i_expired (D : Type) `{Arith D} (it : item) (now : timespec) : bool :=
  if i_ttl it <=? 0 then false
  else leb (of_Z (i_ttl it)) (add (of_Z (tv_sec now - tv_sec (i_created it)) : D) (div (of_Z (tv_nsec now - tv_nsec (i_created it))) (of_Z 1000000000))).
Definition spec_get (D : Type) `{Arith D} (s : lru) (k : list Z) (now : timespec) : option (list Z) * lru :=
  match List.find (has k) (items s) with
  | None => (None, s <| l_misses ::= Z.succ |>)
  | Some it =>
      if i_expired D it now then (None, s <| items ::= without k |> <| l_evictions ::= Z.succ |> <| l_misses ::= Z.succ |>)
      else (Some (i_value it), s <| items ::= fun l => it :: without k l |> <| l_hits ::= Z.succ |>)
  end.
Definition new_item (dttl : Z) (k v : list Z) (ttl : Z) (now : timespec) : item :=
  mk_item k (truncated CACHE_MAX_VALUE_LEN v) (Z.of_nat (length (truncated CACHE_MAX_VALUE_LEN v))) now (if 0 <? ttl then ttl else dttl).
(** A full cache loses the item that was not used for longest. *)
Definition make_room (cap : Z) (s : lru) : lru :=
  if cap <=? Z.of_nat (length (items s)) then s <| items ::= @removelast item |> <| l_evictions ::= Z.succ |> else s.
Definition spec_put (cap dttl : Z) (s : lru) (k v : list Z) (ttl : Z) (now : timespec) : lru :=
  match List.find (has k) (items s) with
  | Some _ => s <| items ::= fun l => new_item dttl k v ttl now :: without k l |>
  | None => (make_room cap s) <| items ::= cons (new_item dttl k v ttl now) |>
  end.
Definition spec_delete (s : lru) (k : list Z) : Z * lru :=
  match List.find (has k) (items s) with Some _ => (0, s <| items ::= without k |>) | None => (-1, s) end.
Definition spec_has (D : Type) `{Arith D} (s : lru) (k : list Z) (now : timespec) : bool :=
  match List.find (has k) (items s) with Some it => negb (i_expired D it now) | None => false end.

Definition item_of (n : CacheEntry) : item := mk_item (key n) (value n) (value_len n) (created_at n) (ttl_sec n).
Definition item_at (h : gmap loc CacheEntry) (p : loc) : option item := item_of <$> h !! p.
(** The cache stands for [s], with the nodes [l]; no other node is allocated. *)
Record stands (c : LRUCache) (l : list loc) (its : list item) : Prop := {
  st_nodup : NoDup l;
  st_dll : dll c l;
  st_chains : chains c l;
  st_items : item_at (heap c) <$> l = Some <$> its;
}.
Record rep (c : LRUCache) (s : lru) : Prop := {
  rep_stands : exists l, stands c l (items s) /\ forall p, is_Some (heap c !! p) -> p ∈ l;
  rep_size : size c = Z.of_nat (length (items s)) /\ Z.of_nat (length (items s)) <= capacity c /\ 0 < capacity c;
  rep_counters : hits c = l_hits s /\ misses c = l_misses s /\ evictions c = l_evictions s;
  rep_keys : NoDup (i_key <$> items s);
}.

Lemma item_at_relinked c c' p : relinked c c' -> item_at (heap c') p = item_at (heap c) p.
Proof. intros (H & _). specialize (H p). unfold item_at. destruct (heap c' !! p) as [[]|], (heap c !! p) as [[]|]; unfold no_links in *; cbn in *; simplify_eq; done. Qed.
Lemma item_at_rehashed c c' p : rehashed c c' -> item_at (heap c') p = item_at (heap c) p.
Proof. intros (H & _). specialize (H p). unfold item_at. destruct (heap c' !! p) as [[]|], (heap c !! p) as [[]|]; unfold no_chain in *; cbn in *; simplify_eq; done. Qed.
Lemma alloc_relinked c c' p : relinked c c' -> is_Some (heap c' !! p) <-> is_Some (heap c !! p).
Proof. intros (H & _). rewrite <- (fmap_is_Some no_links (heap c' !! p)), H. by rewrite fmap_is_Some. Qed.
Lemma alloc_rehashed c c' p : rehashed c c' -> is_Some (heap c' !! p) <-> is_Some (heap c !! p).
Proof. intros (H & _). rewrite <- (fmap_is_Some no_chain (heap c' !! p)), H. by rewrite fmap_is_Some. Qed.
Lemma expired_item (D : Type) `{Arith D} n now : entry_expired D n now = i_expired D (item_of n) now.
Proof. done. Qed.
Lemma key_of_item h p : key_of h p = i_key <$> item_at h p.
Proof. unfold key_of, item_at. by destruct (h !! p). Qed.

(** Freeing a node that is out of the list and the chains. *)
Lemma free_stands c l its e : stands c l its -> e ∉ l -> stands (free_entry e c) l its.
Proof.
  intros [Hn [Hl H1 H2] [Hlen Hc] Hi] He. assert (Hlk : forall p, p ∈ l -> heap (free_entry e c) !! p = heap c !! p) by (intros p Hp; cbn; rewrite lookup_delete_ne; [done|set_solver]).
  split; [done| | |].
  - split; [|done..]. eapply dl_frame; [|exact Hl]. intros p Hp. by rewrite Hlk.
  - split; [done|]. intros b o Ho. destruct (Hc b o Ho) as (ch & Hch & Hp). exists ch.
    assert (Hin : forall p, p ∈ l -> in_bucket (heap (free_entry e c)) b p = in_bucket (heap c) b p) by (intros p Hpl; unfold in_bucket, key_of; by rewrite Hlk).
    split; [eapply chain_frame; [|exact Hch]; intros p Hpc; rewrite Hlk; [done|]; rewrite Hp in Hpc; by apply filter_in in Hpc as [? _]|].
    rewrite Hp. erewrite List.filter_ext_in; [reflexivity|]. intros p Hpl. symmetry. by apply Hin, list_elem_of_In.
  - rewrite <- Hi. apply list_fmap_ext. intros i p Hp. unfold item_at. rewrite Hlk; [done|]. by eapply list_elem_of_lookup_2.
Qed.

(** The node of an item and the item of a node. *)
Lemma stands_split c l its p : stands c l its -> p ∈ l -> exists l1 l2 i1 it i2, l = l1 ++ p :: l2 /\ its = i1 ++ it :: i2 /\ length l1 = length i1 /\ item_at (heap c) p = Some it.
Proof.
  intros [_ _ _ Hi] Hp. apply list_elem_of_split in Hp as (l1 & l2 & ->). rewrite fmap_app, fmap_cons in Hi.
  assert (Hlen : length its = (length l1 + S (length l2))%nat) by (rewrite <- (length_fmap Some its), <- Hi, length_app; cbn; by rewrite !length_fmap).
  destruct (nth_lookup_or_length its (length l1) (mk_item [] [] 0 (mk_timespec 0 0) 0)) as [Hit|]; [|lia]. set (it := nth _ _ _) in Hit.
  exists l1, l2, (take (length l1) its), it, (drop (S (length l1)) its). split; [done|]. split; [symmetry; by apply take_drop_middle|]. split; [rewrite length_take; lia|].
  pose proof (f_equal (fun x => x !! length l1) Hi) as H. cbn in H. rewrite lookup_app_r in H by (rewrite length_fmap; lia). rewrite length_fmap, Nat.sub_diag in H. cbn in H.
  rewrite list_lookup_fmap, Hit in H. cbn in H. congruence.
Qed.
Lemma stands_items_split c l1 p l2 i1 it i2 : stands c (l1 ++ p :: l2) (i1 ++ it :: i2) -> length l1 = length i1 ->
  item_at (heap c) <$> (l1 ++ l2) = Some <$> (i1 ++ i2).
Proof.
  intros [_ _ _ Hi] Hl. rewrite !fmap_app, !fmap_cons in Hi. apply app_inj_1 in Hi as [H1 [= _ H2]]; [|by rewrite !length_fmap]. by rewrite !fmap_app, H1, H2.
Qed.

(** Taking a node out altogether; the order in which it leaves the list and its chain does
    not matter. *)
Lemma leave_spec c l1 e l2 i1 it i2 : stands c (l1 ++ e :: l2) (i1 ++ it :: i2) -> length l1 = length i1 ->
  (exists c', (c ← detach_node c e; hash_remove c e) = Some c' /\ stands (free_entry e c') (l1 ++ l2) (i1 ++ i2) /\ counters c' = counters c /\ (forall p, is_Some (heap c' !! p) <-> is_Some (heap c !! p))) /\
  (exists c', (c ← hash_remove c e; detach_node c e) = Some c' /\ stands (free_entry e c') (l1 ++ l2) (i1 ++ i2) /\ counters c' = counters c /\ (forall p, is_Some (heap c' !! p) <-> is_Some (heap c !! p))).
Proof.
  intros Hst Hl. pose proof Hst as [Hn Hd Hc Hi]. pose proof (stands_items_split _ _ _ _ _ _ _ Hst Hl) as Hi'.
  assert (He : is_Some (heap c !! e)).
  { apply dll_linked in Hd. apply dl_app in Hd as [_ (n & ? & _)]. by exists n. }
  assert (Hn' : NoDup (l1 ++ l2) /\ e ∉ l1 ++ l2).
  { apply NoDup_app in Hn as (N1 & N2 & N3). apply NoDup_cons in N3 as [N3 N4]. split; [apply NoDup_app; split; [done|]; split; [|done]; intros p Hp Hp2; apply (N2 p Hp); by right|].
    intros [Hp|Hp]%elem_of_app; [|done]. apply (N2 e Hp). left. }
  destruct Hn' as [Hn' He']. split.
  - destruct (detach_spec c l1 e l2 Hn Hd) as (c1 & -> & Hd1 & Hr1 & _). cbn [mbind option_bind].
    destruct (hash_remove_spec c1 l1 e l2 Hn) as (c2 & -> & Hc2 & Hr2); [by eapply chains_relinked|by rewrite (alloc_relinked c)|].
    exists c2. split; [done|]. split; [|split; [destruct Hr1 as (_ & _ & ?), Hr2 as (_ & _ & _ & ?); congruence|intros p; by rewrite (alloc_rehashed c1), (alloc_relinked c)]].
    apply free_stands; [|done]. split; [done|by eapply dll_rehashed|done|]. rewrite <- Hi'. apply list_fmap_ext. intros i p _. by rewrite (item_at_rehashed c1), (item_at_relinked c).
  - destruct (hash_remove_spec c l1 e l2 Hn Hc He) as (c1 & -> & Hc1 & Hr1). cbn [mbind option_bind].
    destruct (detach_spec c1 l1 e l2 Hn) as (c2 & -> & Hd2 & Hr2 & _); [by eapply dll_rehashed|].
    exists c2. split; [done|]. split; [|split; [destruct Hr2 as (_ & _ & ?), Hr1 as (_ & _ & _ & ?); congruence|intros p; by rewrite (alloc_relinked c1), (alloc_rehashed c)]].
    apply free_stands; [|done]. split; [done|done|by eapply chains_relinked|]. rewrite <- Hi'. apply list_fmap_ext. intros i p _. by rewrite (item_at_relinked c1), (item_at_rehashed c).
Qed.

(** ** Each operation *)

Lemma has_true k it : has k it = true <-> i_key it = k.
Proof. apply bool_decide_eq_true. Qed.
Lemma find_middle k i1 it i2 : NoDup (i_key <$> i1 ++ it :: i2) -> i_key it = k -> List.find (has k) (i1 ++ it :: i2) = Some it /\ without k (i1 ++ it :: i2) = i1 ++ i2.
Proof.
  intros Hnd Hk. rewrite fmap_app, fmap_cons in Hnd. apply NoDup_app in Hnd as (N1 & N2 & N3). apply NoDup_cons in N3 as [N3 N4].
  assert (Hno : forall x (i : list item), x ∈ i -> i_key it ∉ (i_key <$> i) -> has k x = false).
  { intros x i Hx Hni. apply bool_decide_eq_false. intros Hxk. apply Hni. rewrite Hk, <- Hxk. by apply list_elem_of_fmap_2. }
  assert (H1 : i_key it ∉ (i_key <$> i1)) by (intros Hin; apply (N2 _ Hin); left).
  assert (Hh : has k it = true) by by apply has_true.
  split.
  - clear N2 N1. induction i1 as [|x i1 IH]; cbn; [by rewrite Hh|]. rewrite (Hno x (x :: i1)) by (done || left). apply IH. set_solver.
  - unfold without. rewrite List.filter_app. cbn. rewrite Hh. cbn. f_equal; apply List.forallb_filter_id, List.forallb_forall; intros x Hx%list_elem_of_In.
    + by rewrite (Hno x i1).
    + by rewrite (Hno x i2).
Qed.

Record hit (c : LRUCache) (s : lru) (k : list Z) (p : loc) (l1 l2 : list loc) (i1 i2 : list item) (it : item) : Prop := {
  hit_stands : stands c (l1 ++ p :: l2) (i1 ++ it :: i2);
  hit_length : length l1 = length i1;
  hit_only : forall q, is_Some (heap c !! q) -> q ∈ l1 ++ p :: l2;
  hit_items : items s = i1 ++ it :: i2;
  hit_node : exists n, heap c !! p = Some n /\ item_of n = it;
  hit_key : i_key it = k;
  hit_find : List.find (has k) (items s) = Some it;
  hit_without : without k (items s) = i1 ++ i2;
}.
Lemma hash_find_rep c s k : rep c s -> exists r, hash_find c k = Some r /\
  match r with Some p => exists l1 l2 i1 i2 it, hit c s k p l1 l2 i1 i2 it | None => List.find (has k) (items s) = None end.
Proof.
  intros [(l & Hst & Honly) _ _ Hkeys]. pose proof Hst as [Hn _ Hc Hi]. destruct (hash_find_spec c l k Hn Hc) as (r & -> & Hr). exists r. split; [done|]. destruct r as [p|].
  - destruct Hr as [Hp Hk]. destruct (stands_split _ _ _ _ Hst Hp) as (l1 & l2 & i1 & it & i2 & -> & Hits & Hl & Hat). exists l1, l2, i1, i2, it.
    assert (Hitk : i_key it = k) by (rewrite key_of_item, Hat in Hk; cbn in Hk; congruence). rewrite Hits in *. destruct (find_middle k i1 it i2 Hkeys Hitk) as [F1 F2].
    split; try done; [|by rewrite Hits..]. unfold item_at in Hat. apply fmap_Some in Hat as (n & ? & ?). eauto.
  - destruct (List.find (has k) (items s)) as [it|] eqn:F; [|done]. apply List.find_some in F as [Hin Hh%has_true]. apply list_elem_of_In, list_elem_of_lookup in Hin as [i Hit].
    pose proof (f_equal (fun x => x !! i) Hi) as H. cbn in H. rewrite !list_lookup_fmap, Hit in H. cbn in H. apply fmap_Some in H as (p & Hp & Hat).
    exfalso. apply (Hr p); [by eapply list_elem_of_lookup_2|]. rewrite key_of_item, <- Hat. cbn. by rewrite Hh.
Qed.

Lemma relinked_stands c c' l l' its its' : relinked c c' -> stands c l its -> NoDup l' -> l' ≡ₚ l -> dll c' l' -> item_at (heap c) <$> l' = Some <$> its' -> stands c' l' its'.
Proof.
  intros Hr [Hn Hd [Hlen Hc] Hi] Hn' Hp Hd' Hi'. split; [done|done| |].
  - apply (chains_relinked c); [done|]. split; [done|]. intros b o Ho. destruct (Hc b o Ho) as (ch & ? & Hch). exists ch. split; [done|]. rewrite Hch. by apply filter_bool_Permutation.
  - rewrite <- Hi'. apply list_fmap_ext. intros. by apply item_at_relinked.
Qed.
Lemma move_to_head_spec c l1 e l2 i1 it i2 : stands c (l1 ++ e :: l2) (i1 ++ it :: i2) -> length l1 = length i1 ->
  exists c', move_to_head c e = Some c' /\ stands c' (e :: l1 ++ l2) (it :: i1 ++ i2) /\ relinked c c'.
Proof.
  intros Hst Hl. pose proof Hst as [Hn Hd Hc Hi]. unfold move_to_head. case_bool_decide as Hh.
  - exists c. split; [done|]. destruct Hd as [_ Hd _]. rewrite Hd in Hh. destruct l1 as [|q l1]; [destruct i1; [done|discriminate Hl]|]. cbn in Hh. injection Hh as ->.
    exfalso. apply NoDup_app in Hn as (_ & Hn & _). apply (Hn e); left.
  - assert (Hpm : e :: l1 ++ l2 ≡ₚ l1 ++ e :: l2) by apply Permutation_middle. assert (Hn' : NoDup (e :: l1 ++ l2)) by by rewrite Hpm.
    destruct (detach_spec c l1 e l2 Hn Hd) as (c1 & -> & Hd1 & Hr1 & n & Hn1 & Hp1 & _). cbn [mbind option_bind].
    rewrite (update_spec _ _ _ _ Hn1). cbn [mbind option_bind]. set (c2 := c1 <| heap ::= _ |>). assert (Hr2 : relinked c1 c2) by by apply relinked_alter.
    assert (Hd2 : dll c2 (l1 ++ l2)).
    { destruct Hd1 as [Hl1 Hh1 Ht1]. split; [|done..]. eapply dl_frame; [|exact Hl1]. intros p Hp. unfold c2. cbn. rewrite lookup_alter_ne; [done|]. intros <-. by apply NoDup_cons in Hn' as [? _]. }
    destruct (link_first_spec c2 (l1 ++ l2) e (n <| prev := None |>) Hd2 Hn') as (c3 & -> & Hd3 & Hr3); [unfold c2; cbn; by rewrite lookup_alter_eq, Hn1|done|].
    assert (Hr : relinked c c3) by (etransitivity; [exact Hr1|]; by etransitivity). exists c3. split; [done|]. split; [|done].
    eapply relinked_stands; try done. rewrite fmap_cons, fmap_cons. rewrite (stands_items_split _ _ _ _ _ _ _ Hst Hl). f_equal.
    rewrite !fmap_app, !fmap_cons in Hi. apply app_inj_1 in Hi as [_ [= ? _]]; [done|by rewrite !length_fmap].
Qed.
Lemma stands_same c c' l its : heap c' = heap c -> head c' = head c -> tail c' = tail c -> hash c' = hash c -> stands c l its -> stands c' l its.
Proof. intros H1 H2 H3 H4 [Hn [? ? ?] [? ?] Hi]. split; [done|split; congruence|split; [congruence|]|congruence]. by rewrite H1, H4. Qed.

(** A cache that lost the node [p]. *)
Lemma rep_leave c s k p l1 l2 i1 i2 it c1 c' s' : rep c s -> hit c s k p l1 l2 i1 i2 it ->
  stands (free_entry p c1) (l1 ++ l2) (i1 ++ i2) -> (forall q, is_Some (heap c1 !! q) <-> is_Some (heap c !! q)) ->
  heap c' = delete p (heap c1) -> head c' = head c1 -> tail c' = tail c1 -> hash c' = hash c1 -> size c' = size c - 1 -> capacity c' = capacity c ->
  items s' = i1 ++ i2 -> hits c' = l_hits s' /\ misses c' = l_misses s' /\ evictions c' = l_evictions s' -> rep c' s'.
Proof.
  intros [_ (Hs1 & Hs2 & Hs3) _ Hkeys] [Hst Hl Ho Hi _ _ _ _] Hst' Hal Hh Hhd Htl Hhash Hsz Hcap Hits Hcnt.
  rewrite Hi in Hs1, Hs2, Hkeys. rewrite length_app in Hs1, Hs2. cbn [length] in Hs1, Hs2. rewrite fmap_app, fmap_cons in Hkeys.
  split; rewrite ?Hits, ?length_app; [|lia|done|].
  - exists (l1 ++ l2). split; [by eapply stands_same; [..|exact Hst']|]. intros q Hq. rewrite Hh in Hq. destruct (decide (p = q)) as [<-|Hne]; [rewrite lookup_delete_eq in Hq; by destruct Hq|].
    rewrite lookup_delete_ne in Hq by done. apply Hal, Ho in Hq. set_solver.
  - rewrite fmap_app. rewrite <- Permutation_middle in Hkeys. by apply NoDup_cons in Hkeys as [_ ?].
Qed.
(** A cache whose node [p] came first. *)
Lemma rep_touch c s k p l1 l2 i1 i2 it it' c' s' : rep c s -> hit c s k p l1 l2 i1 i2 it -> i_key it' = i_key it ->
  stands c' (p :: l1 ++ l2) (it' :: i1 ++ i2) -> (forall q, is_Some (heap c' !! q) <-> is_Some (heap c !! q)) -> size c' = size c -> capacity c' = capacity c ->
  items s' = it' :: i1 ++ i2 -> hits c' = l_hits s' /\ misses c' = l_misses s' /\ evictions c' = l_evictions s' -> rep c' s'.
Proof.
  intros [_ (Hs1 & Hs2 & Hs3) _ Hkeys] [Hst Hl Ho Hi _ _ _ _] Hk Hst' Hal Hsz Hcap Hits Hcnt.
  rewrite Hi in Hs1, Hs2, Hkeys. rewrite length_app in Hs1, Hs2. cbn [length] in Hs1, Hs2. rewrite fmap_app, fmap_cons in Hkeys.
  split; rewrite ?Hits; cbn [length]; rewrite ?length_app; [|lia|done|].
  - exists (p :: l1 ++ l2). split; [done|]. intros q Hq. apply Hal, Ho in Hq. set_solver.
  - rewrite fmap_cons, fmap_app, Hk. by rewrite Permutation_middle.
Qed.

Lemma cache_get_refines (D : Type) `{Arith D} c s k now : rep c s -> exists c', cache_get D c k now = Some ((spec_get D s k now).1, c') /\ rep c' (spec_get D s k now).2 /\ capacity c' = capacity c /\ default_ttl c' = default_ttl c.
Proof.
  intros Hrep. unfold cache_get, spec_get. destruct (hash_find_rep c s k Hrep) as (r & -> & Hr). cbn [mbind option_bind].
  pose proof Hrep as [(l & Hst0 & Honly) Hsz (Hc1 & Hc2 & Hc3) Hkeys]. destruct r as [p|].
  - destruct Hr as (l1 & l2 & i1 & i2 & it & Hhit). pose proof Hhit as [Hst Hl Ho Hi (n & Hn & Hit) Hk Hf Hw]. rewrite Hn, Hf. cbn [mbind option_bind]. rewrite expired_item, Hit.
    destruct (i_expired D it now); cbn [fst snd].
    + destruct (leave_spec c l1 p l2 i1 it i2 Hst Hl) as [(c' & E & Hst' & Hcnt & Hal) _]. destruct (detach_node c p) as [c1|]; [|done]. cbn [mbind option_bind] in E |- *. rewrite E. cbn [mbind option_bind].
      eexists. split; [done|]. injection Hcnt as E1 E2 E3 E4 E5 E6. split; [|done]. eapply rep_leave; try done; cbn; lia.
    + destruct (move_to_head_spec c l1 p l2 i1 it i2 Hst Hl) as (c' & -> & Hst' & Hr'). cbn [mbind option_bind].
      destruct (relinked_node _ _ _ _ Hr' Hn) as (n' & Hn' & Hnl). rewrite Hn'. cbn [mbind option_bind]. eexists.
      assert (value n' = i_value it) as -> by (rewrite <- Hit; destruct n, n'; unfold no_links in Hnl; cbn in *; simplify_eq; done).
      split; [done|]. pose proof Hr' as (_ & _ & Hcnt). injection Hcnt as E1 E2 E3 E4 E5 E6. split; [|done].
      eapply rep_touch; try done; cbn; [by eapply stands_same; [..|exact Hst']|by intros; apply alloc_relinked|by rewrite Hw|lia].
  - rewrite Hr. eexists. split; [done|]. split; [|done]. split; cbn; [|done|lia|done]. exists l. split; [|done]. by eapply stands_same; [..|exact Hst0].
Qed.
Lemma cache_delete_refines c s k : rep c s -> exists c', cache_delete c k = Some ((spec_delete s k).1, c') /\ rep c' (spec_delete s k).2 /\ capacity c' = capacity c /\ default_ttl c' = default_ttl c.
Proof.
  intros Hrep. unfold cache_delete, spec_delete. destruct (hash_find_rep c s k Hrep) as (r & -> & Hr). cbn [mbind option_bind]. destruct r as [p|].
  - destruct Hr as (l1 & l2 & i1 & i2 & it & Hhit). pose proof Hhit as [Hst Hl Ho Hi _ Hk Hf Hw]. rewrite Hf.
    destruct (leave_spec c l1 p l2 i1 it i2 Hst Hl) as [(c' & E & Hst' & Hcnt & Hal) _]. destruct (detach_node c p) as [c1|]; [|done]. cbn [mbind option_bind] in E |- *. rewrite E. cbn [mbind option_bind].
    eexists. split; [done|]. injection Hcnt as E1 E2 E3 E4 E5 E6. pose proof (rep_counters _ _ Hrep). split; [|done]. eapply rep_leave; try done; cbn; lia.
  - rewrite Hr. by exists c.
Qed.
Lemma cache_has_refines (D : Type) `{Arith D} c s k now : rep c s -> cache_has D c k now = Some (spec_has D s k now).
Proof.
  intros Hrep. unfold cache_has, spec_has. destruct (hash_find_rep c s k Hrep) as (r & -> & Hr). cbn [mbind option_bind]. destruct r as [p|]; [|by rewrite Hr].
  destruct Hr as (l1 & l2 & i1 & i2 & it & [_ _ _ _ (n & Hn & Hit) _ Hf _]). rewrite Hn, Hf. cbn. by rewrite expired_item, Hit.
Qed.

Lemma stands_tail c l its : stands c l its -> tail c = last_or l None.
Proof. by intros [_ [_ _ ?] _ _]. Qed.
Lemma stands_length c l its : stands c l its -> length l = length its.
Proof. intros [_ _ _ Hi]. apply (f_equal length) in Hi. by rewrite !length_fmap in Hi. Qed.
Lemma removelast_snoc {A} (l : list A) x : removelast (l ++ [x]) = l.
Proof. apply removelast_last. Qed.

(** The last item leaves. *)
Lemma cache_evict_lru_refines c s : rep c s -> items s <> [] ->
  exists c', cache_evict_lru c = Some (0, c') /\ rep c' (s <| items ::= @removelast item |> <| l_evictions ::= Z.succ |>) /\ capacity c' = capacity c /\ default_ttl c' = default_ttl c.
Proof.
  intros Hrep Hne. pose proof Hrep as [(l & Hst & Honly) Hsz Hcnt0 Hkeys]. pose proof (stands_length _ _ _ Hst) as Hlen.
  destruct (exists_last Hne) as (i1 & it & Hi). destruct l as [|p l _] using rev_ind; [rewrite Hi, length_app in Hlen; cbn in Hlen; lia|].
  unfold cache_evict_lru. rewrite (stands_tail _ _ _ Hst), last_or_snoc. rewrite Hi, !length_app in Hlen. cbn in Hlen. rewrite Hi in Hst.
  assert (Hl : length l = length i1) by lia. destruct (leave_spec c l p [] i1 it [] Hst Hl) as [(c' & E & Hst' & Hcnt & Hal) _].
  destruct (detach_node c p) as [c1|]; [|done]. cbn [mbind option_bind] in E |- *. rewrite E. cbn [mbind option_bind].
  eexists. split; [done|]. injection Hcnt as E1 E2 E3 E4 E5 E6. split; [|done]. rewrite Hi in Hkeys.
  destruct (find_middle (i_key it) i1 it [] Hkeys eq_refl) as [F1 F2].
  assert (Hhit : hit c s (i_key it) p l [] i1 [] it).
  { split; try done; [|by rewrite Hi..]. destruct (stands_split _ _ _ p Hst ltac:(set_solver)) as (l1 & l2 & j1 & x & j2 & El & Ei & Hl1 & Hat).
    pose proof (st_items _ _ _ Hst) as Hsi. rewrite !fmap_app in Hsi. apply app_inj_1 in Hsi as [_ Hsi]; [|by rewrite !length_fmap]. cbn in Hsi. injection Hsi as Hsi.
    unfold item_at in Hsi. by apply fmap_Some in Hsi as (n & ? & ->); eauto. }
  eapply rep_leave; try done; cbn; [lia|by rewrite Hi, removelast_snoc, app_nil_r|lia].
Qed.

(** Writing the data of a node. *)
Lemma stands_update c l1 p l2 i1 it i2 n f : stands c (l1 ++ p :: l2) (i1 ++ it :: i2) -> length l1 = length i1 -> heap c !! p = Some n ->
  (forall m, key (f m) = key m /\ prev (f m) = prev m /\ next (f m) = next m /\ hash_next (f m) = hash_next m) ->
  stands (c <| heap ::= alter f p |>) (l1 ++ p :: l2) (i1 ++ item_of (f n) :: i2).
Proof.
  intros Hst Hl Hn Hf. pose proof (stands_items_split _ _ _ _ _ _ _ Hst Hl) as Hi'. destruct Hst as [Hnd [H1 H2 H3] [Hlen Hc] Hi].
  assert (Hsame : forall q (A : Type) (g : CacheEntry -> A), (forall m, g (f m) = g m) -> g <$> alter f p (heap c) !! q = g <$> heap c !! q).
  { intros q A g Hg. destruct (decide (p = q)) as [<-|Hne]; [rewrite lookup_alter_eq, Hn; cbn; by rewrite Hg|by rewrite lookup_alter_ne]. }
  split; [done| | |].
  - split; [|done..]. eapply dl_frame; [|exact H1]. intros q _. cbn. apply Hsame. intros m. destruct (Hf m) as (_ & -> & -> & _). done.
  - split; [done|]. intros b o Ho. destruct (Hc b o Ho) as (ch & Hch & Hp). exists ch. split; [eapply chain_frame; [|exact Hch]; intros q _; cbn; apply Hsame; apply Hf|].
    rewrite Hp. erewrite List.filter_ext; [reflexivity|]. intros q. unfold in_bucket, key_of. cbn. rewrite Hsame; [done|]. apply Hf.
  - assert (Hne : forall q, q <> p -> item_at (alter f p (heap c)) q = item_at (heap c) q) by (intros q Hq; unfold item_at; by rewrite lookup_alter_ne by congruence).
    assert (Hd : p ∉ l1 ++ l2) by (rewrite <- Permutation_middle in Hnd; by apply NoDup_cons in Hnd as [? _]).
    rewrite !fmap_app in Hi'. apply app_inj_1 in Hi' as [E1 E2]; [|by rewrite !length_fmap]. cbn. rewrite !fmap_app, !fmap_cons. f_equal; [|f_equal].
    + rewrite <- E1. apply list_fmap_ext. intros i q Hq. apply Hne. intros ->. apply Hd. apply elem_of_app. left. by eapply list_elem_of_lookup_2.
    + unfold item_at. by rewrite lookup_alter_eq, Hn.
    + rewrite <- E2. apply list_fmap_ext. intros i q Hq. apply Hne. intros ->. apply Hd. apply elem_of_app. right. by eapply list_elem_of_lookup_2.
Qed.

(** A new node. *)
Lemma alloc_stands c l its p n : stands c l its -> heap c !! p = None -> stands (c <| heap ::= <[p := n]> |>) l its.
Proof.
  intros Hst Hp. assert (Hlk : forall q, q ∈ l -> q <> p).
  { intros q Hq ->. destruct (stands_split _ _ _ _ Hst Hq) as (? & ? & ? & ? & ? & _ & _ & _ & Hat). unfold item_at in Hat. by rewrite Hp in Hat. }
  destruct Hst as [Hnd [H1 H2 H3] [Hlen Hc] Hi]. split; [done| | |].
  - split; [|done..]. eapply dl_frame; [|exact H1]. intros q Hq. cbn. rewrite lookup_insert_ne; [done|]. intros <-. by apply (Hlk p).
  - split; [done|]. intros b o Ho. destruct (Hc b o Ho) as (ch & Hch & Hpm). exists ch.
    assert (Hlc : forall q, q ∈ ch -> q <> p) by (intros q Hq; rewrite Hpm in Hq; apply filter_in in Hq as [Hq _]; by apply Hlk).
    split; [eapply chain_frame; [|exact Hch]; intros q Hq; cbn; rewrite lookup_insert_ne; [done|]; intros <-; by apply (Hlc p)|].
    rewrite Hpm. erewrite List.filter_ext_in; [reflexivity|]. intros q Hq%list_elem_of_In. unfold in_bucket, key_of. cbn. rewrite lookup_insert_ne; [done|]. intros <-. by apply (Hlk p).
  - rewrite <- Hi. apply list_fmap_ext. intros i q Hq. unfold item_at. cbn. rewrite lookup_insert_ne; [done|]. intros <-. apply (Hlk p); [|done]. by eapply list_elem_of_lookup_2.
Qed.

Lemma without_none k its : List.find (has k) its = None -> k ∉ (i_key <$> its).
Proof. intros Hf (it & -> & Hin)%list_elem_of_fmap. pose proof (List.find_none _ _ Hf it ltac:(by apply list_elem_of_In)) as H. by rewrite (proj2 (has_true _ _) eq_refl) in H. Qed.
Lemma NoDup_removelast {A} (l : list A) : NoDup l -> NoDup (removelast l).
Proof. induction l as [|x l _] using rev_ind; [done|]. rewrite removelast_last. by intros (? & _ & _)%NoDup_app. Qed.
Lemma make_room_key cap s k : List.find (has k) (items s) = None -> k ∉ (i_key <$> items (make_room cap s)).
Proof.
  intros Hf%without_none. unfold make_room. destruct (_ <=? _); [|done]. cbn. destruct (items s) as [|x its _] using rev_ind; [done|]. rewrite removelast_last.
  rewrite fmap_app in Hf. set_solver.
Qed.
Lemma make_room_fits cap s : 0 < cap -> Z.of_nat (length (items s)) <= cap -> Z.of_nat (length (items (make_room cap s))) < cap.
Proof.
  intros H0 Hc. unfold make_room. destruct (Z.leb_spec cap (Z.of_nat (length (items s)))); [|done]. cbn. destruct (items s) as [|x its _] using rev_ind; [cbn in *; lia|].
  rewrite removelast_last. rewrite length_app in Hc. cbn in Hc. lia.
Qed.

(** [calloc] gives memory that is not in use, if any. *)
Definition allocates (calloc : gmap loc CacheEntry -> option loc) : Prop := forall h p, calloc h = Some p -> h !! p = None.
Lemma cache_put_refines calloc c s k v ttl now : allocates calloc -> rep c s -> (length k < CACHE_MAX_KEY_LEN)%nat ->
  exists r c', cache_put c k v ttl calloc now = Some (r, c') /\ (capacity c' = capacity c /\ default_ttl c' = default_ttl c) /\
    (r = 0 /\ rep c' (spec_put (capacity c) (default_ttl c) s k v ttl now) \/ r = -1 /\ (exists h, calloc h = None) /\ List.find (has k) (items s) = None /\ rep c' (make_room (capacity c) s)).
Proof.
  intros Halloc Hrep Hk. unfold cache_put, spec_put. destruct (hash_find_rep c s k Hrep) as (r & -> & Hr). cbn [mbind option_bind]. destruct r as [p|].
  - destruct Hr as (l1 & l2 & i1 & i2 & it & Hhit). pose proof Hhit as [Hst Hl Ho Hi (n & Hn & Hit) Hik Hf Hw]. rewrite Hf, (update_spec _ _ _ _ Hn). cbn [mbind option_bind].
    pose proof (stands_update c l1 p l2 i1 it i2 n (with_value c v ttl now) Hst Hl Hn ltac:(by intros)) as Hst1.
    destruct (move_to_head_spec _ l1 p l2 i1 _ i2 Hst1 Hl) as (c' & -> & Hst' & Hr'). cbn [mbind option_bind]. eexists 0, _. split; [done|]. pose proof Hr' as (_ & _ & Hcnt).
    injection Hcnt as E1 E2 E3 E4 E5 E6. split; [done|]. left. split; [done|]. pose proof (rep_counters _ _ Hrep).
    assert (Hnew : item_of (with_value c v ttl now n) = new_item (default_ttl c) k v ttl now) by (unfold item_of, new_item; cbn; f_equal; by rewrite <- Hik, <- Hit). rewrite Hnew in Hst'.
    eapply (rep_touch c s k p l1 l2 i1 i2 it (new_item (default_ttl c) k v ttl now)); try done; cbn; [by intros q; rewrite (alloc_relinked _ _ q Hr'); cbn; rewrite lookup_alter_is_Some|by rewrite Hw|lia].
  - rewrite Hr. assert (exists c1, (if capacity c <=? size c then snd <$> cache_evict_lru c else Some c) = Some c1 /\ rep c1 (make_room (capacity c) s) /\ capacity c1 = capacity c /\ default_ttl c1 = default_ttl c) as (c1 & -> & Hrep1 & Hcap & Ed).
    { pose proof (rep_size _ _ Hrep) as (Hs1 & Hs2 & Hs3). unfold make_room. rewrite Hs1. destruct (Z.leb_spec (capacity c) (Z.of_nat (length (items s)))) as [Hle|]; [|by exists c].
      destruct (cache_evict_lru_refines c s Hrep) as (c1 & -> & Hr1 & Hcp1 & Hd1); [intros E; rewrite E in Hle; cbn in Hle; lia|]. exists c1. done. }
    cbn [mbind option_bind]. destruct (calloc (heap c1)) as [p|] eqn:Ha; [|exists (-1), c1; split; [done|]; split; [done|]; right; by eauto].
    pose proof Hrep1 as [(l & Hst & Honly) (Hs1 & Hs2 & Hs3) Hcnt0 Hkeys]. apply Halloc in Ha.
    set (n := with_value c1 v ttl now (blank_entry <| key := truncated CACHE_MAX_KEY_LEN k |>)). set (c2 := c1 <| heap ::= <[p := n]> |>).
    pose proof (alloc_stands c1 l _ p n Hst Ha) as Hst2. fold c2 in Hst2. assert (Hn2 : heap c2 !! p = Some n) by (unfold c2; cbn; by rewrite lookup_insert_eq).
    assert (Hpl : p ∉ l) by (intros Hp; destruct (stands_split _ _ _ _ Hst Hp) as (? & ? & ? & ? & ? & _ & _ & _ & Hat); unfold item_at in Hat; by rewrite Ha in Hat).
    assert (Hnd : NoDup (p :: l)) by (apply NoDup_cons; split; [done|apply Hst]).
    destruct (link_first_spec c2 l p n (st_dll _ _ _ Hst2) Hnd Hn2 eq_refl) as (c3 & -> & Hd3 & Hr3). cbn [mbind option_bind].
    destruct (relinked_node _ _ _ _ Hr3 Hn2) as (n3 & Hn3 & _).
    destruct (hash_insert_spec c3 l p n3 Hnd (chains_relinked _ _ _ Hr3 (st_chains _ _ _ Hst2)) Hn3) as (c4 & -> & Hc4 & Hr4). cbn [mbind option_bind].
    pose proof Hr3 as (_ & _ & E3). pose proof Hr4 as (_ & _ & _ & E4). rewrite E3 in E4. injection E4 as F1 F2 F3 F4 F5 F6.
    exists 0. eexists. split; [done|]. split; [cbn; by rewrite F1, F6|]. left. split; [done|].
    pose proof (rep_size _ _ Hrep) as (_ & Hc1 & Hc2). pose proof (make_room_fits (capacity c) s Hc2 Hc1).
    split; cbn; [|cbn in *; lia|lia|].
    + exists (p :: l). split.
      * apply (stands_same c4); [done..|]. split; [done|by eapply dll_rehashed|done|].
        assert (Hat : forall q, item_at (heap c4) q = item_at (heap c2) q) by (intros q; by rewrite (item_at_rehashed c3), (item_at_relinked c2)).
        rewrite !fmap_cons. f_equal.
        -- rewrite Hat. unfold item_at. rewrite Hn2. cbn [fmap option_fmap option_map]. f_equal. unfold new_item. by rewrite <- Ed, <- (truncated_id _ _ Hk).
        -- rewrite <- (st_items _ _ _ Hst2). apply list_fmap_ext. intros. apply Hat.
      * intros q Hq. apply (alloc_rehashed _ _ q Hr4), (alloc_relinked _ _ q Hr3) in Hq. unfold c2 in Hq. cbn in Hq. destruct (decide (p = q)) as [<-|Hne]; [left|].
        rewrite lookup_insert_ne in Hq by done. right. by apply Honly.
    + apply NoDup_cons. split; [by apply make_room_key|done].
Qed.

(** Eviction of the expired, from the last node to the first. *)
Definition alive (D : Type) `{Arith D} (now : timespec) (it : item) : bool := negb (i_expired D it now).
Lemma evict_from_spec (D : Type) `{Arith D} now fuel : forall c l1 l2 i1 i2 ev, stands c (l1 ++ l2) (i1 ++ i2) -> length l1 = length i1 -> (length l1 <= fuel)%nat ->
  exists c' l', evict_from D fuel c (last_or l1 None) (fun _ => now) ev = Some (ev + Z.of_nat (length i1 - length (List.filter (alive D now) i1)), c') /\
    stands c' (l' ++ l2) (List.filter (alive D now) i1 ++ i2) /\ (forall q, is_Some (heap c' !! q) -> is_Some (heap c !! q) /\ (q ∈ l1 -> q ∈ l')) /\
    capacity c' = capacity c /\ default_ttl c' = default_ttl c /\ hits c' = hits c /\ misses c' = misses c /\
    size c' = size c - Z.of_nat (length i1 - length (List.filter (alive D now) i1)) /\ evictions c' = evictions c + Z.of_nat (length i1 - length (List.filter (alive D now) i1)).
Proof.
  induction fuel as [|fuel IH]; intros c l1 l2 i1 i2 ev Hst Hl Hf.
  { destruct l1; [|cbn in Hf; lia]. destruct i1; [|done]. exists c, []. cbn. rewrite Z.add_0_r. split; [done|]. split; [done|]. split; [done|]. rewrite Z.add_0_r, Z.sub_0_r. done. }
  destruct l1 as [|p l1 _] using rev_ind.
  { destruct i1; [|done]. exists c, []. cbn. rewrite Z.add_0_r. split; [done|]. split; [done|]. split; [done|]. rewrite Z.add_0_r, Z.sub_0_r. done. }
  destruct i1 as [|it i1 _] using rev_ind; [rewrite length_app in Hl; cbn in Hl; lia|]. rewrite !length_app in Hl. cbn in Hl. rewrite length_app in Hf. cbn in Hf.
  assert (Hl1 : length l1 = length i1) by lia. rewrite last_or_snoc. cbn [evict_from]. rewrite <- !app_assoc in Hst. cbn [app] in Hst.
  assert (Hnode : exists n, heap c !! p = Some n /\ item_of n = it /\ prev n = last_or l1 None).
  { pose proof (st_items _ _ _ Hst) as Hi. rewrite !fmap_app, !fmap_cons in Hi. apply app_inj_1 in Hi as [_ [= Hat _]]; [|by rewrite !length_fmap].
    unfold item_at in Hat. apply fmap_Some in Hat as (n & Hn & ->). exists n. split; [done|]. split; [done|].
    pose proof (dll_linked _ _ (st_dll _ _ _ Hst)) as Hk. apply dl_app in Hk as [_ (n' & Hn' & ? & _)]. congruence. }
  destruct Hnode as (n & Hn & Hit & Hp). rewrite Hn. cbn [mbind option_bind]. rewrite expired_item, Hit, List.filter_app. cbn [List.filter].
  assert (Hal : alive D now it = negb (i_expired D it now)) by done. rewrite Hal.
  pose proof (List.filter_length_le (alive D now) i1) as Hle. destruct (i_expired D it now); cbn [negb].
  - destruct (leave_spec c l1 p l2 i1 it i2 Hst Hl1) as [_ (c1 & E & Hst1 & Hcnt & Halloc)]. destruct (hash_remove c p) as [c0|]; [|done]. cbn [mbind option_bind] in E |- *. rewrite E. cbn [mbind option_bind].
    rewrite Hp. destruct (IH (count_eviction (free_entry p c1)) l1 l2 i1 i2 (ev + 1)) as (c' & l' & Hev & Hst' & Ha' & Hc1 & Hc2 & Hc3 & Hc4 & Hc5 & Hc6); [|done|lia|].
    { eapply stands_same; [..|exact Hst1]; done. }
    injection Hcnt as E1 E2 E3 E4 E5 E6. cbn in Hc1, Hc2, Hc3, Hc4, Hc5, Hc6. exists c', l'. rewrite Hev, app_nil_r, !length_app. cbn [length]. split; [f_equal; f_equal; lia|].
    split; [done|]. split; [|repeat split; lia]. intros q Hq. apply Ha' in Hq as [Hq Hin]. cbn in Hq. destruct (decide (p = q)) as [<-|Hne]; [rewrite lookup_delete_eq in Hq; by destruct Hq|].
    rewrite lookup_delete_ne in Hq by done. split; [by apply Halloc|]. set_solver.
  - rewrite Hp. destruct (IH c l1 (p :: l2) i1 (it :: i2) ev) as (c' & l' & Hev & Hst' & Ha' & Hc); [done|done|lia|].
    exists c', (l' ++ [p]). rewrite !length_app, <- !app_assoc. cbn [length app]. replace (length i1 + 1 - (length (List.filter (alive D now) i1) + 1))%nat with (length i1 - length (List.filter (alive D now) i1))%nat by lia.
    split; [done|]. split; [done|]. split; [|done]. intros q Hq. apply Ha' in Hq as [Hq Hin]. split; [done|]. set_solver.
Qed.
Definition spec_evict_expired (D : Type) `{Arith D} (s : lru) (now : timespec) : Z * lru :=
  let rest := List.filter (alive D now) (items s) in
  let n := Z.of_nat (length (items s) - length rest) in
  (n, s <| items := rest |> <| l_evictions ::= fun e => e + n |>).
Lemma heap_size c l : NoDup l -> (forall p, is_Some (heap c !! p) <-> p ∈ l) -> map_size (heap c) = length l.
Proof.
  intros Hn Hd. change (base.size (heap c) = length l). rewrite <- (size_list_to_set (C := gset loc) l) by done. rewrite <- size_dom. f_equal. apply set_eq.
  intros p. by rewrite elem_of_dom, elem_of_list_to_set.
Qed.
Lemma stands_alloc c l its p : stands c l its -> p ∈ l -> is_Some (heap c !! p).
Proof. intros Hst Hp. destruct (stands_split _ _ _ _ Hst Hp) as (? & ? & ? & ? & ? & _ & _ & _ & Hat). unfold item_at in Hat. apply fmap_Some in Hat as (n & ? & _). by exists n. Qed.
Lemma NoDup_fmap_filter {A B} (g : A -> B) f (l : list A) : NoDup (g <$> l) -> NoDup (g <$> List.filter f l).
Proof.
  induction l as [|x l IH]; [done|]. cbn. intros [Hx Hn]%NoDup_cons. destruct (f x); [|by apply IH]. cbn. apply NoDup_cons. split; [|by apply IH].
  intros (y & Hxy & Hy)%list_elem_of_fmap. rewrite Hxy in Hx. apply filter_in in Hy as [Hy _]. apply Hx. by apply list_elem_of_fmap_2.
Qed.
Lemma cache_evict_expired_refines (D : Type) `{Arith D} c s now : rep c s -> exists c', cache_evict_expired D c (fun _ => now) = Some ((spec_evict_expired D s now).1, c') /\
  rep c' (spec_evict_expired D s now).2 /\ capacity c' = capacity c /\ default_ttl c' = default_ttl c.
Proof.
  intros [(l & Hst & Honly) (Hs1 & Hs2 & Hs3) (Hc1 & Hc2 & Hc3) Hkeys]. unfold cache_evict_expired. rewrite (stands_tail _ _ _ Hst).
  rewrite (heap_size c l (st_nodup _ _ _ Hst)) by (intros p; split; [apply Honly|by eapply stands_alloc]).
  destruct (evict_from_spec D now (length l) c l [] (items s) [] 0) as (c' & l' & -> & Hst' & Ha & E1 & E2 & E3 & E4 & E5 & E6); [by rewrite !app_nil_r|by eapply stands_length|done|].
  rewrite !app_nil_r in Hst'. pose proof (List.filter_length_le (alive D now) (items s)).
  exists c'. split; [done|]. split; [|done]. split; cbn; [|lia|lia|by apply NoDup_fmap_filter]. exists l'. split; [done|]. intros q Hq. apply Ha in Hq as [Hq Hin]. by apply Hin, Honly.
Qed.

(** Clearing frees every node. *)
Lemma free_from_spec fuel : forall c before l, NoDup l -> linked (heap c) before l None -> (length l <= fuel)%nat ->
  exists c', free_from fuel c (first_or l None) = Some c' /\ (forall q, heap c' !! q = if decide (q ∈ l) then None else heap c !! q) /\ counters c' = counters c.
Proof.
  induction fuel as [|fuel IH]; intros c before l Hn Hl Hf; (destruct l as [|p l]; [exists c; split; [done|]; split; [|done]; intros q; by rewrite decide_False by apply not_elem_of_nil|]); [cbn in Hf; lia|].
  destruct Hl as (n & Hp & _ & Hx & Hl). apply NoDup_cons in Hn as [Hpl Hn]. cbn [free_from first_or]. rewrite Hp. cbn [mbind option_bind]. rewrite Hx.
  destruct (IH (free_entry p c) (Some p) l) as (c' & -> & Hh & Hcnt); [done| |cbn in Hf; lia|].
  { eapply dl_frame; [|exact Hl]. intros q Hq. cbn. rewrite lookup_delete_ne; [done|]. by intros <-. }
  exists c'. split; [done|]. split; [|done]. intros q. rewrite Hh. cbn. destruct (decide (q ∈ l)) as [Hq|Hq].
  - by rewrite decide_True by by right.
  - destruct (decide (q = p)) as [->|Hne]; [rewrite decide_True by left; apply lookup_delete_eq|]. rewrite lookup_delete_ne by done. rewrite decide_False; [done|]. set_solver.
Qed.
Lemma empty_stands c : heap c = ∅ -> head c = None -> tail c = None -> hash c = replicate (Z.to_nat CACHE_HASH_SIZE) None -> stands c [] [].
Proof.
  intros Hh Hhd Htl Hhash. split; [constructor|split; [done|done|done]| |done]. split; [by rewrite Hhash, length_replicate|]. intros b o Ho. exists []. split; [|done].
  rewrite Hhash in Ho. by apply lookup_replicate in Ho as [-> _].
Qed.
Lemma cache_clear_refines c s : rep c s -> exists c', cache_clear c = Some c' /\ rep c' (s <| items := [] |>) /\ heap c' = ∅ /\ capacity c' = capacity c /\ default_ttl c' = default_ttl c.
Proof.
  intros [(l & Hst & Honly) (Hs1 & Hs2 & Hs3) (Hc1 & Hc2 & Hc3) Hkeys]. unfold cache_clear. pose proof Hst as [Hn [Hl Hhd Htl] _ _]. rewrite Hhd.
  rewrite (heap_size c l Hn) by (intros p; split; [apply Honly|by eapply stands_alloc]).
  destruct (free_from_spec (length l) c None l Hn Hl) as (c1 & -> & Hh & Hcnt); [done|]. cbn [mbind option_bind]. eexists. split; [done|].
  assert (Hheap : heap c1 = ∅).
  { apply map_eq. intros q. rewrite Hh, lookup_empty. destruct (decide (q ∈ l)) as [|Hq]; [done|]. destruct (heap c !! q) eqn:E; [|done]. exfalso. apply Hq, Honly. by rewrite E. }
  injection Hcnt as E1 E2 E3 E4 E5 E6. split; [|cbn; done]. split; cbn; [|lia|lia|constructor]. exists []. split; [by apply empty_stands|]. intros p. cbn. rewrite Hheap, lookup_empty. by intros [].
Qed.

(** ** Any sequence of operations *)

Inductive op := Get (k : list Z) | Put (k v : list Z) (ttl : Z) | Delete (k : list Z) | Has (k : list Z) | EvictExpired | Clear.
Inductive answer := Value (v : option (list Z)) | Code (z : Z) | Known (b : bool) | Done.
Section run.
Context (D : Type) `{HA : Arith D} (calloc : gmap loc CacheEntry -> option loc).
Definition cache_step (c : LRUCache) (o : op) (now : timespec) : option (answer * LRUCache) :=
  match o with
  | Get k => (fun r => (Value r.1, r.2)) <$> cache_get D c k now
  | Put k v ttl => (fun r => (Code r.1, r.2)) <$> cache_put c k v ttl calloc now
  | Delete k => (fun r => (Code r.1, r.2)) <$> cache_delete c k
  | Has k => (fun b => (Known b, c)) <$> cache_has D c k now
  | EvictExpired => (fun r => (Code r.1, r.2)) <$> cache_evict_expired D c (fun _ => now)
  | Clear => (fun c => (Done, c)) <$> cache_clear c
  end.
Definition spec_step (cap dttl : Z) (s : lru) (o : op) (now : timespec) : answer * lru :=
  match o with
  | Get k => let r := spec_get D s k now in (Value r.1, r.2)
  | Put k v ttl => (Code 0, spec_put cap dttl s k v ttl now)
  | Delete k => let r := spec_delete s k in (Code r.1, r.2)
  | Has k => (Known (spec_has D s k now), s)
  | EvictExpired => let r := spec_evict_expired D s now in (Code r.1, r.2)
  | Clear => (Done, s <| items := [] |>)
  end.
Fixpoint cache_run (c : LRUCache) (ops : list (op * timespec)) : option (list answer * LRUCache) :=
  match ops with
  | [] => Some ([], c)
  | (o, now) :: ops => '(a, c) ← cache_step c o now; '(l, c) ← cache_run c ops; Some (a :: l, c)
  end.
Fixpoint spec_run (cap dttl : Z) (s : lru) (ops : list (op * timespec)) : list answer * lru :=
  match ops with
  | [] => ([], s)
  | (o, now) :: ops => let '(a, s) := spec_step cap dttl s o now in let '(l, s) := spec_run cap dttl s ops in (a :: l, s)
  end.
Definition key_fits (o : op) : Prop := match o with Put k _ _ => (length k < CACHE_MAX_KEY_LEN)%nat | _ => True end.

Lemma cache_step_refines c s o now : allocates calloc -> (forall h, is_Some (calloc h)) -> rep c s -> key_fits o ->
  exists c', cache_step c o now = Some ((spec_step (capacity c) (default_ttl c) s o now).1, c') /\ rep c' (spec_step (capacity c) (default_ttl c) s o now).2 /\
    capacity c' = capacity c /\ default_ttl c' = default_ttl c.
Proof.
  intros Ha Hsome Hrep Hk. destruct o as [k|k v ttl|k|k| |]; cbn [cache_step spec_step key_fits] in *.
  - destruct (cache_get_refines D c s k now Hrep) as (c' & -> & ?). by exists c'.
  - destruct (cache_put_refines calloc c s k v ttl now Ha Hrep Hk) as (r & c' & -> & ? & [[-> Hr]|(-> & [h Hh] & _)]); [by exists c'|]. destruct (Hsome h) as [p Hp]. congruence.
  - destruct (cache_delete_refines c s k Hrep) as (c' & -> & ?). by exists c'.
  - rewrite (cache_has_refines D c s k now Hrep). by exists c.
  - destruct (cache_evict_expired_refines D c s now Hrep) as (c' & -> & ?). by exists c'.
  - destruct (cache_clear_refines c s Hrep) as (c' & -> & ? & _ & ?). by exists c'.
Qed.

Lemma cache_init_rep cap ttl : rep (cache_init cap ttl) (mk_lru [] 0 0 0).
Proof.
  split; [|cbn; destruct (Z.ltb_spec 0 cap); lia|done|constructor]. exists []. split; [by apply empty_stands|]. intros p. cbn. rewrite lookup_empty. by intros [].
Qed.
(** C13: The pointers implement the list: as long as memory lasts, any sequence of operations with
    keys that fit goes through without touching memory that is not allocated, answers what
    the list of items does, and allocates exactly the nodes of the list. *)
Theorem cache_refines cap ttl ops : allocates calloc -> (forall h, is_Some (calloc h)) -> Forall (fun o => key_fits o.1) ops ->
  let c := cache_init cap ttl in
  let r := spec_run (capacity c) (default_ttl c) (mk_lru [] 0 0 0) ops in
  exists c', cache_run c ops = Some (r.1, c') /\ rep c' r.2.
Proof.
  intros Ha Hsome Hk. cbn zeta. pose proof (cache_init_rep cap ttl) as Hrep. revert Hrep. generalize (cache_init cap ttl) (mk_lru [] 0 0 0). 
  induction ops as [|[o now] ops IH]; intros c s Hrep; cbn [cache_run spec_run]; [by exists c|]. apply Forall_cons in Hk as [Hk Hks].
  destruct (cache_step_refines c s o now Ha Hsome Hrep Hk) as (c1 & -> & Hrep1 & E1 & E2). destruct (spec_step _ _ s o now) as [a s1]. cbn [mbind option_bind fst snd] in *.
  destruct (IH Hks c1 s1 Hrep1) as (c2 & -> & Hrep2). rewrite E1, E2 in *. destruct (spec_run _ _ s1 ops) as [l s2]. by exists c2.
Qed.
End run.

(** ** At work *)

(** An address that is not in use. *)
Definition any_address (h : gmap loc CacheEntry) : option loc := Some (fresh (dom h)).
Lemma any_address_ok : allocates any_address.
Proof. intros h p [= <-]. apply not_elem_of_dom, is_fresh. Qed.
Definition at_sec (s : Z) : timespec := mk_timespec s 0.
Definition requests : list (op * timespec) :=
  [(Put [97] [1] 0, at_sec 0); (Put [98] [2] 5, at_sec 0); (Get [97], at_sec 1); (Put [99] [3] 0, at_sec 2); (Get [98], at_sec 2); (Get [97], at_sec 3); (Delete [99], at_sec 4); (EvictExpired, at_sec 9)].
Lemma cache_refines_witness : exists c', cache_run Q any_address (cache_init 2 0) requests =
  Some ([Code 0; Code 0; Value (Some [1]); Code 0; Value None; Value (Some [1]); Code 0; Code 0], c') /\ rep c' (spec_run Q 2 0 (mk_lru [] 0 0 0) requests).2.
Proof. refine (cache_refines Q any_address 2 0 requests any_address_ok _ _); [by eexists|]. repeat constructor. Defined.

(** A key of 128 characters is never found: each time it is put, another node is made. *)
Example long_key_put_again : let k := replicate 128 97 in
  (fun r => (r.1, size r.2)) <$> cache_run Q any_address (cache_init 4 0) [(Put k [1] 0, at_sec 0); (Put k [2] 0, at_sec 0); (Get k, at_sec 0)] = Some ([Code 0; Code 0; Value None], 2).
Proof. vm_compute. done. Qed.
(** When memory is short the cache loses its last item for nothing. *)
Example failed_put_evicts : (fun r => (r.1, size r.2)) <$> ('(_, c) ← cache_put (cache_init 1 0) [97] [1] 0 any_address (at_sec 0); cache_put c [98] [2] 0 (fun _ => None) (at_sec 0)) = Some (-1, 0).
Proof. vm_compute. done. Qed.
