(* ===== verification/BackendLimiter.v ===== *)
(** Model of [mini-backend-framework/src/rate_limiter.c]: a token bucket, a log of requests in
    a sliding window, and a limiter that asks both; and the theorems on it.

    Doubles are over any [Arith]; the readings of the clock are arguments, in the order in
    which the code takes them.  Reading or writing beyond the 4096 stamps of a window is
    undefined: [None].  The objects are initialised; counters do not overflow. *)

From Stdlib Require Import QArith Qround.
From S2P Require Import Prelude Arith.
#[local] Open Scope Z_scope.

Record timespec := mk_timespec { tv_sec : Z; tv_nsec : Z }.
Definition STAMPS : Z := 4096.

Section limiter.
Context {D : Type} `{HA : Arith D}.

Definition elapsed_sec (since now : timespec) : D :=
  add (of_Z (tv_sec now - tv_sec since)) (div (of_Z (tv_nsec now - tv_nsec since)) (of_Z 1000000000)).
Definition positive_or (x d : D) : D := if ltb (of_Z 0) x then x else d.

(** ** Token bucket *)

Record TokenBucket := mk_tb { tokens : D; rate : D; capacity : D; last_refill : timespec; total_requests : Z; tb_total_rejected : Z }.
Definition tb_init (r c : D) (now : timespec) : TokenBucket :=
  let r := positive_or r (of_Z 1) in let c := positive_or c r in mk_tb c r c now 0 0.
Definition tb_refill (tb : TokenBucket) (now : timespec) : TokenBucket :=
  let elapsed := elapsed_sec (last_refill tb) now in
  if leb elapsed (of_Z 0) then tb
  else
    let t := add (tokens tb) (mul elapsed (rate tb)) in
    mk_tb (if ltb (capacity tb) t then capacity tb else t) (rate tb) (capacity tb) now (total_requests tb) (tb_total_rejected tb).
Definition tb_consume_n (tb : TokenBucket) (n : Z) (now : timespec) : Z * TokenBucket :=
  if n <=? 0 then (0, tb)
  else
    let tb := tb_refill tb now in
    let allowed := if leb (of_Z n) (tokens tb) then n else s32 (trunc (tokens tb)) in
    (allowed, mk_tb (if 0 <? allowed then sub (tokens tb) (of_Z allowed) else tokens tb) (rate tb) (capacity tb) (last_refill tb)
      (if 0 <? allowed then total_requests tb + allowed else total_requests tb) (tb_total_rejected tb + (n - allowed))).
Definition tb_consume (tb : TokenBucket) (now : timespec) : bool * TokenBucket := let r := tb_consume_n tb 1 now in (r.1 =? 1, r.2).
Definition tb_reset (tb : TokenBucket) (now : timespec) : TokenBucket := mk_tb (capacity tb) (rate tb) (capacity tb) now 0 0.
(** Asking for the tokens refills the bucket. *)
Definition tb_tokens (tb : TokenBucket) (now : timespec) : D * TokenBucket := let tb := tb_refill tb now in (tokens tb, tb).
Definition tb_requests (tb : TokenBucket) : Z := total_requests tb.
Definition tb_rejected (tb : TokenBucket) : Z := tb_total_rejected tb.

(** ** Sliding window *)

Record SlidingWindow := mk_sw { timestamps : list timespec; head : Z; count : Z; window_sec : D; max_requests : Z; total_allowed : Z; sw_total_rejected : Z }.
Definition sw_init (w : D) (max : Z) : SlidingWindow :=
  mk_sw (replicate (Z.to_nat STAMPS) (mk_timespec 0 0)) 0 0 (positive_or w (of_Z 1)) (if 0 <? max then max else 1) 0 0.
(** The array cell of an [int] index. *)
Definition stamp_at (sw : SlidingWindow) (i : Z) : option timespec := if i <? 0 then None else timestamps sw !! Z.to_nat i.
(** The stamps of the [count] entries that are young enough. *)
Fixpoint kept_stamps (sw : SlidingWindow) (now : timespec) (i : Z) (rounds : nat) : option (list timespec) :=
  match rounds with
  | O => Some []
  | S rounds =>
      t ← stamp_at sw (Z.rem (head sw - count sw + i + STAMPS) STAMPS);
      rest ← kept_stamps sw now (i + 1) rounds;
      Some (if ltb (elapsed_sec t now) (window_sec sw) then t :: rest else rest)
  end.
Definition sw_evict (sw : SlidingWindow) (now : timespec) : option SlidingWindow :=
  kept ← kept_stamps sw now 0 (Z.to_nat (count sw));
  if (Z.to_nat STAMPS <? length kept)%nat then None
  else
    let n := Z.of_nat (length kept) in
    Some (mk_sw (kept ++ drop (length kept) (timestamps sw)) (Z.rem n STAMPS) n (window_sec sw) (max_requests sw) (total_allowed sw) (sw_total_rejected sw)).
Definition sw_allow (sw : SlidingWindow) (now now2 : timespec) : option (bool * SlidingWindow) :=
  sw ← sw_evict sw now;
  Some (if count sw <? max_requests sw
        then (true, mk_sw (<[Z.to_nat (head sw) := now2]> (timestamps sw)) (Z.rem (head sw + 1) STAMPS) (count sw + 1) (window_sec sw) (max_requests sw) (total_allowed sw + 1) (sw_total_rejected sw))
        else (false, mk_sw (timestamps sw) (head sw) (count sw) (window_sec sw) (max_requests sw) (total_allowed sw) (sw_total_rejected sw + 1))).
(** Asking evicts too. *)
Definition sw_available (sw : SlidingWindow) (now : timespec) : option (Z * SlidingWindow) :=
  sw ← sw_evict sw now; Some (max_requests sw - count sw, sw).
Definition sw_reset (sw : SlidingWindow) : SlidingWindow := mk_sw (timestamps sw) 0 0 (window_sec sw) (max_requests sw) 0 0.

(** ** Both *)

Record CompositeLimiter := mk_cl { burst : TokenBucket; sustained : SlidingWindow; reject_on_burst : bool; reject_on_window : bool }.
Definition cl_init (r c w : D) (max : Z) (now : timespec) : CompositeLimiter := mk_cl (tb_init r c now) (sw_init w max) false false.
Definition cl_allow (cl : CompositeLimiter) (now now2 now3 : timespec) : option (bool * CompositeLimiter) :=
  let '(burst_ok, tb) := tb_consume (burst cl) now in
  '(window_ok, sw) ← sw_allow (sustained cl) now2 now3;
  Some (burst_ok && window_ok, mk_cl tb sw (negb burst_ok) (negb window_ok)).

(** ** The log of the window *)

(** The window holds the stamps [log], oldest first. *)
Record holds (sw : SlidingWindow) (log : list timespec) : Prop := {
  ho_stamps : length (timestamps sw) = Z.to_nat STAMPS;
  ho_log : take (length log) (timestamps sw) = log;
  ho_count : count sw = Z.of_nat (length log);
  ho_head : head sw = Z.rem (count sw) STAMPS;
  ho_max : count sw <= max_requests sw <= STAMPS /\ 0 < max_requests sw;
}.
Lemma sw_init_holds w max : max <= STAMPS -> holds (sw_init w max) [].
Proof. intros. split; cbn [sw_init timestamps count head max_requests]; try done. destruct (Z.ltb_spec 0 max); unfold STAMPS in *; cbn; lia. Qed.

Definition young (sw : SlidingWindow) (now : timespec) (t : timespec) : bool := ltb (elapsed_sec t now) (window_sec sw).
Lemma kept_stamps_spec sw log now : holds sw log -> forall rounds i, (rounds + i = length log)%nat ->
  kept_stamps sw now (Z.of_nat i) rounds = Some (List.filter (young sw now) (drop i log)).
Proof.
  intros [Hs Hl Hc Hh [[Hm1 Hm2] _]]. induction rounds as [|rounds IH]; intros i Hi.
  - rewrite drop_ge by lia. done.
  - assert (Hlt : (i < length log)%nat) by lia. destruct (lookup_lt_is_Some_2 log i Hlt) as [t Ht].
    assert (Hidx : Z.rem (head sw - count sw + Z.of_nat i + STAMPS) STAMPS = Z.of_nat i).
    { unfold STAMPS in *. rewrite Hh. destruct (decide (count sw = 4096)) as [->|Hne]; [change (Z.rem 4096 4096) with 0; rewrite Z.rem_small; lia|].
      rewrite (Z.rem_small (count sw)) by lia. replace (count sw - count sw + Z.of_nat i + 4096) with (Z.of_nat i + 1 * 4096) by lia. rewrite Z.rem_add, Z.rem_small; lia. }
    cbn [kept_stamps]. rewrite Hidx. unfold stamp_at. destruct (Z.ltb_spec (Z.of_nat i) 0); [lia|]. rewrite Nat2Z.id.
    assert (timestamps sw !! i = Some t) as -> by (rewrite <- Hl in Ht; by apply lookup_take_Some in Ht as [? _]).
    cbn [mbind option_bind]. replace (Z.of_nat i + 1) with (Z.of_nat (S i)) by lia. rewrite IH by lia. cbn [mbind option_bind].
    rewrite (drop_S log t i Ht). cbn [List.filter]. change (ltb (elapsed_sec t now) (window_sec sw)) with (young sw now t). by destruct (young sw now t).
Qed.
Lemma sw_evict_spec sw log now : holds sw log -> exists sw', sw_evict sw now = Some sw' /\ holds sw' (List.filter (young sw now) log) /\
  window_sec sw' = window_sec sw /\ max_requests sw' = max_requests sw /\ total_allowed sw' = total_allowed sw.
Proof.
  intros Hh. pose proof Hh as [Hs Hl Hc Hhd [[Hm1 Hm2] Hm3]]. unfold sw_evict. rewrite (kept_stamps_spec sw log now Hh _ 0) by lia. rewrite drop_0. cbn [mbind option_bind].
  pose proof (List.filter_length_le (young sw now) log) as Hle. set (kept := List.filter _ log) in *. destruct (Nat.ltb_spec (Z.to_nat STAMPS) (length kept)); [unfold STAMPS in *; lia|].
  eexists. split; [reflexivity|]. split; [|done]. split; cbn [timestamps count head max_requests]; try done.
  - rewrite length_app, length_drop. lia.
  - apply take_app_length.
  - lia.
Qed.

(** What the window is to do: keep the stamps that are young, and let a request through when
    they are fewer than the maximum. *)
Definition log_allow (w : D) (max : Z) (log : list timespec) (now now2 : timespec) : bool * list timespec :=
  let log := List.filter (fun t => ltb (elapsed_sec t now) w) log in
  if Z.of_nat (length log) <? max then (true, log ++ [now2]) else (false, log).
Lemma sw_allow_refines sw log now now2 : holds sw log ->
  exists sw', sw_allow sw now now2 = Some ((log_allow (window_sec sw) (max_requests sw) log now now2).1, sw') /\
    holds sw' (log_allow (window_sec sw) (max_requests sw) log now now2).2 /\ window_sec sw' = window_sec sw /\ max_requests sw' = max_requests sw.
Proof.
  intros Hh. destruct (sw_evict_spec sw log now Hh) as (sw1 & Ev & [Hs Hl Hc Hhd [[Hm1 Hm2] Hm3]] & Ew & Em & _). unfold sw_allow, log_allow. rewrite Ev. cbn [mbind option_bind].
  change (List.filter _ log) with (List.filter (young sw now) log). set (log1 := List.filter (young sw now) log) in *. rewrite Hc, Em.
  destruct (Z.ltb_spec (Z.of_nat (length log1)) (max_requests sw)) as [Hlt|Hge]; cbn [fst snd]; (eexists; split; [done|]); (split; [|done]).
  - assert (Hhead : head sw1 = count sw1) by (rewrite Hhd; unfold STAMPS in *; apply Z.rem_small; lia).
    split; cbn [timestamps count head max_requests].
    + by rewrite length_insert.
    + rewrite length_app. cbn [length]. rewrite Hhead, Hc, Nat2Z.id. rewrite Nat.add_1_r. erewrite take_S_r by (apply list_lookup_insert_eq; unfold STAMPS in *; lia).
      rewrite take_insert_ge by lia. by rewrite Hl.
    + rewrite length_app. cbn [length]. lia.
    + rewrite Hhead, Hc. done.
    + lia.
  - split; cbn [timestamps count head max_requests]; first [done|congruence|lia].
Qed.
Fixpoint sw_run (sw : SlidingWindow) (reqs : list (timespec * timespec)) : option (list bool) :=
  match reqs with [] => Some [] | (t, t2) :: reqs => '(b, sw) ← sw_allow sw t t2; l ← sw_run sw reqs; Some (b :: l) end.
Fixpoint log_run (w : D) (max : Z) (log : list timespec) (reqs : list (timespec * timespec)) : list bool :=
  match reqs with [] => [] | (t, t2) :: reqs => let '(b, log) := log_allow w max log t t2 in b :: log_run w max log reqs end.
Lemma sw_run_log reqs : forall sw log, holds sw log -> sw_run sw reqs = Some (log_run (window_sec sw) (max_requests sw) log reqs).
Proof.
  induction reqs as [|[t t2] reqs IH]; intros sw log Hh; cbn [sw_run log_run]; [done|]. destruct (sw_allow_refines sw log t t2 Hh) as (sw' & -> & Hh' & Ew & Em). cbn [mbind option_bind].
  rewrite (IH sw' _ Hh'), Ew, Em. cbn [mbind option_bind]. by destruct (log_allow _ _ _ _ _).
Qed.
(** With a maximum of up to 4096 the ring of stamps behaves as the list it stands for, and no
    access is out of bounds. *)
Theorem sw_refines w max reqs : 0 < max <= STAMPS -> sw_run (sw_init w max) reqs = Some (log_run (positive_or w (of_Z 1)) max [] reqs).
Proof.
  intros Hmax. rewrite (sw_run_log reqs _ []) by (apply sw_init_holds; lia). cbn [sw_init window_sec max_requests]. destruct (Z.ltb_spec 0 max); [done|lia].
Qed.

(** ** The bucket *)

Context `{HL : !ArithLaws D}.
Definition bucket_ok (tb : TokenBucket) : Prop := nonneg (rate tb) /\ within (tokens tb) (capacity tb).
Lemma positive_or_nonneg x d : nonneg d -> nonneg (positive_or x d).
Proof. unfold positive_or. intros. destruct (ltb _ x) eqn:E; [by apply ltb_true|done]. Qed.
Lemma tb_init_ok r c now : bucket_ok (tb_init r c now).
Proof.
  assert (H1 : nonneg (positive_or r (of_Z 1))) by by apply positive_or_nonneg, nonneg_of_Z.
  split; [done|]. split; [by apply positive_or_nonneg|apply leb_refl].
Qed.
Lemma refill_keeps_ok tb now : bucket_ok tb -> bucket_ok (tb_refill tb now).
Proof.
  intros [Hr Hw]. unfold tb_refill. destruct (leb _ _) eqn:He; [done|]. split; [done|]. cbn. destruct (ltb (capacity tb) _) eqn:Hl; [by eapply within_max|].
  apply within_add; [done| |by apply ltb_false]. apply leb_mul_0; [by apply leb_false|done].
Qed.
End limiter.
#[global] Arguments TokenBucket : clear implicits.
#[global] Arguments SlidingWindow : clear implicits.
#[global] Arguments CompositeLimiter : clear implicits.

(** In exact arithmetic, a request for [n] tokens gets as many of them as are there, whole,
    and the level stays within the capacity. *)
Lemma trunc_floor (q : Q) : (0 <= q)%Q -> trunc q = Qfloor q.
Proof. destruct q as [n d]. unfold Qle. cbn. intros H. apply Z.quot_div_nonneg; lia. Qed.
Theorem tb_consume_exact (tb : TokenBucket Q) n now : bucket_ok tb -> 0 < n < 2 ^ 31 ->
  let r := tb_consume_n tb n now in
  r.1 = Z.min n (Qfloor (tokens (tb_refill tb now))) /\ (tokens r.2 == tokens (tb_refill tb now) - inject_Z r.1)%Q /\ bucket_ok r.2.
Proof.
  intros Hok Hn. pose proof (refill_keeps_ok tb now Hok) as [Hr [H0 Hc]]. unfold tb_consume_n. destruct (Z.leb_spec n 0); [lia|]. set (b := tb_refill tb now) in *. cbn zeta.
  unfold nonneg in H0. cbn in H0. rewrite Qle_bool_iff in H0. change (inject_Z 0) with 0%Q in H0.
  pose proof (Qfloor_le (tokens b)) as Hfl. assert (Hf0 : 0 <= Qfloor (tokens b)) by (apply (Qfloor_resp_le 0); exact H0).
  assert (Hal : (if leb (of_Z n) (tokens b) then n else s32 (trunc (tokens b))) = Z.min n (Qfloor (tokens b))).
  { cbn [leb of_Z Q_arith]. destruct (Qle_bool _ _) eqn:E.
    - apply Qle_bool_iff in E. apply Qfloor_resp_le in E. rewrite Qfloor_Z in E. lia.
    - assert (Hlt : (tokens b < inject_Z n)%Q) by (apply Qnot_le_lt; intros Hq; apply Qle_bool_iff in Hq; congruence).
      assert (Qfloor (tokens b) < n) by (rewrite Zlt_Qlt; by eapply Qle_lt_trans). rewrite trunc_floor by done. rewrite s32_small by lia. lia. }
  rewrite Hal. cbn [fst snd tokens]. set (a := Z.min n (Qfloor (tokens b))). assert (Ha : 0 <= a <= Qfloor (tokens b)) by (unfold a; lia).
  assert (Hq : (inject_Z a <= tokens b)%Q) by (eapply Qle_trans; [|exact Hfl]; rewrite <- Zle_Qle; lia).
  split; [done|]. destruct (Z.ltb_spec 0 a) as [Hpos|Hz]; cbn [sub Q_arith].
  - split; [done|]. split; [done|]. change (within (sub (tokens b) (of_Z a)) (capacity b)). apply within_sub; [split; [unfold nonneg; cbn; by rewrite Qle_bool_iff|done]|apply nonneg_of_Z; lia|cbn; by rewrite Qle_bool_iff].
  - assert (a = 0) as -> by lia. split; [ring|]. split; [done|]. split; [unfold nonneg; cbn; by rewrite Qle_bool_iff|done].
Qed.
(** ** At work *)

Definition ms (t : Z) : timespec := mk_timespec (t / 1000) (t mod 1000 * 1000000).
Lemma sw_refines_witness : sw_run (sw_init 1%Q 2) [(ms 0, ms 0); (ms 100, ms 100); (ms 200, ms 200); (ms 1050, ms 1050)] = Some [true; true; false; true].
Proof. refine (sw_refines 1%Q 2 _ _). vm_compute. split; congruence. Defined.

(** One more entry than there are stamps, and the next request reads the stamp before the first. *)
Example window_overflows : let full := mk_sw (D := Q) (replicate 4096 (ms 0)) 1 4097 1%Q 5000 0 0 in
  match sw_evict full (ms 1) with None => true | Some _ => false end = true.
Proof. vm_compute. done. Qed.
(** A request that the window refuses takes a token of the bucket, and one that the bucket
    refuses takes a place in the window. *)
Example refused_pays : match cl_allow (cl_init 1%Q 5%Q 60%Q 1 (ms 0)) (ms 0) (ms 0) (ms 0) with
  | Some (_, cl) => match cl_allow cl (ms 0) (ms 0) (ms 0) with Some (ok, cl) => (ok, Qeq_bool (tokens (burst cl)) 3) | None => (true, false) end | None => (true, false) end = (false, true).
Proof. vm_compute. done. Qed.
Example refused_fills : match cl_allow (cl_init 1%Q (1 # 2)%Q 60%Q 1 (ms 0)) (ms 0) (ms 0) (ms 0) with Some (ok, cl) => (ok, count (sustained cl)) | None => (true, 0) end = (false, 1).
Proof. vm_compute. done. Qed.
Lemma tb_consume_exact_witness : let tb := tb_init (D := Q) 2%Q 5%Q (ms 0) in let r := tb_consume_n tb 7 (ms 100) in
  r.1 = Z.min 7 (Qfloor (tokens (tb_refill tb (ms 100)))) /\ (tokens r.2 == tokens (tb_refill tb (ms 100)) - inject_Z r.1)%Q /\ bucket_ok r.2.
Proof. refine (tb_consume_exact (tb_init (D := Q) 2%Q 5%Q (ms 0)) 7 (ms 100) _ _); [apply tb_init_ok|lia]. Defined.
