(* ===== verification/DiContainer.v ===== *)
(** Model of [mini-backend-framework/src/di_container.c], a container that builds services
    with the services they depend on; and the theorems on it.

    Objects and functions are numbers.  [call] is the factory, [None] for NULL; [destroy] the
    destructor; [W] is what they work on.  They do not use the container.  Arguments of the
    entry points are not null, except where the code allows it.  [fuel] bounds the depth of
    the recursion on the C stack. *)

From S2P Require Import Prelude Bytes Graph Dfs.

Definition DI_MAX_SERVICES : nat := 64.
Definition DI_MAX_NAME : nat := 64.
Definition DI_MAX_TYPE : nat := 128.
Definition DI_MAX_DEPENDENCIES : nat := 16.
Definition DI_MAX_TAGS : nat := 8.
#[global] Arguments DI_MAX_SERVICES : simpl never.
#[global] Arguments DI_MAX_DEPENDENCIES : simpl never.
#[global] Arguments DI_MAX_TAGS : simpl never.
Inductive DIScope := DI_SCOPE_SINGLETON | DI_SCOPE_TRANSIENT | DI_SCOPE_REQUEST.
#[export] Instance scope_eq_dec : EqDecision DIScope.
Proof. solve_decision. Defined.
Record DIServiceEntry := mk_entry {
  name : list Z; type_name : list Z; scope : DIScope; factory : Z; instance : option Z; initialized : bool; dependencies : list (list Z); dep_count : nat;
  tags : list (list Z); tag_count : nat; destroy_func : option Z;
}.
#[export] Instance entry_inhabited : Inhabited DIServiceEntry := populate (mk_entry [] [] DI_SCOPE_SINGLETON 0 None false (replicate DI_MAX_DEPENDENCIES []) 0 (replicate DI_MAX_TAGS []) 0 None).
Record DIContainer := mk_container { entries : list DIServiceEntry; count : nat; in_request : bool; request_instances : list (option Z); resolve_depth : Z }.

Definition di_init : DIContainer := mk_container (replicate DI_MAX_SERVICES inhabitant) 0 false (replicate DI_MAX_SERVICES None) 0.
Definition entry (c : DIContainer) (i : nat) : DIServiceEntry := entries c !!! i.
Definition set_entry (c : DIContainer) (i : nat) (f : DIServiceEntry -> DIServiceEntry) : DIContainer := c <| entries ::= alter f i |>.
(** The index of the entry that is found. *)
Definition di_find_entry (c : DIContainer) (nm : list Z) : option nat := find_idx (fun e => bool_decide (name e = nm)) (take (count c) (entries c)).
Definition di_find_entry_by_type (c : DIContainer) (ty : list Z) : option nat := find_idx (fun e => bool_decide (type_name e = ty)) (take (count c) (entries c)).

(** A null name in [deps] leaves what the slot held. *)
Fixpoint put_deps (old : list (list Z)) (deps : list (option (list Z))) : list (list Z) :=
  match old, deps with
  | o :: old, d :: deps => from_option (truncated DI_MAX_NAME) o d :: put_deps old deps
  | _, _ => old
  end.
(** [deps] has the [dep_count] names given. *)
Definition di_register_dtor (c : DIContainer) (nm ty : list Z) (sc : DIScope) (fac : Z) (deps : list (option (list Z))) (dtor : option Z) : Z * DIContainer :=
  if (DI_MAX_SERVICES <=? count c)%nat then (-1, c)
  else if (DI_MAX_DEPENDENCIES <? length deps)%nat then (-2, c)
  else
    (0, (set_entry c (count c) (fun e => mk_entry (truncated DI_MAX_NAME nm) (truncated DI_MAX_TYPE ty) sc fac None false (put_deps (dependencies e) deps) (length deps) (tags e) 0 dtor))
          <| count ::= S |>).
Definition di_register (c : DIContainer) (nm ty : list Z) (sc : DIScope) (fac : Z) (deps : list (option (list Z))) : Z * DIContainer :=
  di_register_dtor c nm ty sc fac deps None.

(** ** Cycles *)

Definition dep_names (e : DIServiceEntry) : list (list Z) := take (dep_count e) (dependencies e).
Fixpoint di_cycle_dfs (fuel : nat) (c : DIContainer) (idx : nat) (colors : list Z) : option (bool * list Z) :=
  match fuel with
  | O => None
  | S fuel =>
      r ← foldl (fun acc nm =>
                   s ← acc;
                   if s.1 : bool then Some s
                   else match di_find_entry c nm with
                        | None => Some s
                        | Some dep_idx =>
                            if s.2 !!! dep_idx =? 1 then Some (true, s.2)
                            else if s.2 !!! dep_idx =? 0 then di_cycle_dfs fuel c dep_idx s.2
                            else Some s
                        end)
                (Some (false, <[idx := 1]> colors)) (dep_names (entry c idx));
      if r.1 : bool then Some r else Some (false, <[idx := 2]> r.2)
  end.
(** No path visits more than all services. *)
Definition di_has_cycle (c : DIContainer) (nm : list Z) : option Z :=
  match di_find_entry c nm with
  | None => Some 0
  | Some idx => r ← di_cycle_dfs (S (count c)) c idx (replicate DI_MAX_SERVICES 0); Some (c_bool r.1)
  end.

(** ** Tags *)

Definition di_add_tag (c : DIContainer) (nm tag : list Z) : Z * DIContainer :=
  match di_find_entry c nm with
  | None => (-1, c)
  | Some i =>
      if (DI_MAX_TAGS <=? tag_count (entry c i))%nat then (-2, c)
      else (0, set_entry c i (fun e => e <| tags ::= <[tag_count e := truncated DI_MAX_NAME tag]> |> <| tag_count ::= S |>))
  end.

(** ** Resolution *)

Section resolve.
Context {W : Type} (call : Z -> list (option Z) -> W -> option Z * W) (destroy : Z -> Z -> W -> W).

(** What a resolution gives: the object, or NULL, the container and the rest. *)
Definition resolution : Type := option Z * DIContainer * W.
(** The objects of the dependencies; [None] when one of them cannot be built.  A dependency
    with the empty name may be NULL. *)
Fixpoint build_deps (res : DIContainer -> W -> list Z -> option resolution) (names : list (list Z)) (c : DIContainer) (w : W) : option (option (list (option Z)) * DIContainer * W) :=
  match names with
  | [] => Some (Some [], c, w)
  | nm :: names =>
      '(d, c, w) ← res c w nm;
      if bool_decide (d = None) && negb (bool_decide (nm = [])) then Some (None, c, w)
      else '(ds, c, w) ← build_deps res names c w; Some (option_map (cons d) ds, c, w)
  end.
Definition di_build (res : DIContainer -> W -> list Z -> option resolution) (c : DIContainer) (w : W) (i : nat) : option resolution :=
  if Z.of_nat DI_MAX_SERVICES <? resolve_depth c then Some (None, c, w)
  else
    '(ds, c, w) ← build_deps res (dep_names (entry c i)) (c <| resolve_depth ::= Z.succ |>) w;
    let c := c <| resolve_depth ::= Z.pred |> in
    match ds with
    | None => Some (None, c, w)
    | Some ds => let '(x, w) := call (factory (entry c i)) ds w in Some (x, c, w)
    end.
Fixpoint di_resolve (fuel : nat) (c : DIContainer) (w : W) (nm : list Z) : option resolution :=
  match fuel with
  | O => None
  | S fuel =>
      match di_find_entry c nm with
      | None => Some (None, c, w)
      | Some i =>
          let build c w := di_build (di_resolve fuel) (c <| resolve_depth := 0 |>) w i in
          match scope (entry c i) with
          | DI_SCOPE_SINGLETON =>
              if initialized (entry c i) then Some (instance (entry c i), c, w)
              else '(x, c, w) ← build c w; Some (x, set_entry c i (fun e => e <| instance := x |> <| initialized := bool_decide (x <> None) |>), w)
          | DI_SCOPE_TRANSIENT => build c w
          | DI_SCOPE_REQUEST =>
              if in_request c then
                match request_instances c !!! i with
                | Some x => Some (Some x, c, w)
                | None => '(x, c, w) ← build c w; Some (x, c <| request_instances ::= <[i := x]> |>, w)
                end
              else build c w
          end
      end
  end.
Definition di_resolve_type (fuel : nat) (c : DIContainer) (w : W) (ty : list Z) : option resolution :=
  match di_find_entry_by_type c ty with
  | None => Some (None, c, w)
  | Some i => di_resolve fuel c w (name (entry c i))
  end.
(** The results, at most [max]. *)
Fixpoint resolve_tagged_from (fuel : nat) (c : DIContainer) (w : W) (tag : list Z) (max : nat) (idxs : list nat) : option (list (option Z) * DIContainer * W) :=
  match idxs with
  | [] => Some ([], c, w)
  | i :: idxs =>
      if (max =? 0)%nat then Some ([], c, w)
      else if existsb (fun t => bool_decide (t = tag)) (take (tag_count (entry c i)) (tags (entry c i))) then
        '(x, c, w) ← di_resolve fuel c w (name (entry c i));
        '(l, c, w) ← resolve_tagged_from fuel c w tag (pred max) idxs; Some (x :: l, c, w)
      else resolve_tagged_from fuel c w tag max idxs
  end.
Definition di_resolve_tagged (fuel : nat) (c : DIContainer) (w : W) (tag : list Z) (max : nat) : option (list (option Z) * DIContainer * W) :=
  resolve_tagged_from fuel c w tag max (seq 0 (count c)).

(** Kahn's algorithm: the degrees and the queue after [u] is done. *)
Definition lower (c : DIContainer) (u : nat) (s : list Z * list nat) (i : nat) : list Z * list nat :=
  foldl (fun s nm => if bool_decide (nm = name (entry c u))
                     then let d := s.1 !!! i - 1 in (<[i := d]> s.1, if d =? 0 then s.2 ++ [i] else s.2) else s) s (dep_names (entry c i)).
Fixpoint kahn (rounds fuel : nat) (c : DIContainer) (w : W) (degrees : list Z) (queue : list nat) (resolved : nat) : option (nat * DIContainer * W) :=
  match rounds, queue with
  | _, [] => Some (resolved, c, w)
  | O, _ => None
  | S rounds, u :: queue =>
      '(c, w) ← (if bool_decide (scope (entry c u) = DI_SCOPE_SINGLETON) then '(_, c, w) ← di_resolve fuel c w (name (entry c u)); Some (c, w) else Some (c, w));
      let '(degrees, queue) := foldl (lower c u) (degrees, queue) (seq 0 (count c)) in
      kahn rounds fuel c w degrees queue (S resolved)
  end.
Definition di_resolve_all (fuel : nat) (c : DIContainer) (w : W) : option (Z * DIContainer * W) :=
  let degrees := (fun i => Z.of_nat (dep_count (entry c i))) <$> seq 0 (count c) in
  let queue := List.filter (fun i => (dep_count (entry c i) =? 0)%nat) (seq 0 (count c)) in
  '(resolved, c, w) ← kahn (count c) fuel c w degrees queue 0;
  Some (if (resolved =? count c)%nat then 0 else -1, c, w).

(** ** Requests and the end *)

Definition di_begin_request (c : DIContainer) : DIContainer := c <| in_request := true |> <| request_instances := replicate DI_MAX_SERVICES None |>.
Definition di_end_request (c : DIContainer) : DIContainer :=
  let c := foldl (fun c i => (if bool_decide (scope (entry c i) = DI_SCOPE_REQUEST) then set_entry c i (fun e => e <| initialized := false |> <| instance := None |>) else c)
                               <| request_instances ::= <[i := None]> |>) c (seq 0 (count c)) in
  c <| in_request := false |>.
(** Each instance is given to its destructor, if any, and freed. *)
Definition di_destroy (c : DIContainer) (w : W) : DIContainer * W :=
  let '(c, w) := foldl (fun '(c, w) i =>
      match instance (entry c i) with
      | Some x => (set_entry c i (fun e => e <| instance := None |> <| initialized := false |>), match destroy_func (entry c i) with Some d => destroy d x w | None => w end)
      | None => (c, w)
      end) (c, w) (seq 0 (count c)) in
  (c <| count := O |>, w).
End resolve.

(** ** Cycles of the dependency graph *)

(** The services that [i] depends on, those that are registered. *)
Definition deps_of (c : DIContainer) (i : nat) : list nat := if (i <? count c)%nat then omap (di_find_entry c) (dep_names (entry c i)) else [].
Lemma di_find_lt c nm i : di_find_entry c nm = Some i -> (i < count c)%nat.
Proof. unfold di_find_entry. intros (x & Hx%lookup_lt_Some & _)%find_idx_Some. rewrite length_take in Hx. lia. Qed.
Lemma deps_edge c u v : v ∈ deps_of c u -> edge (count c) (deps_of c) u v.
Proof.
  intros Hv. split; [|split; [|done]]; unfold deps_of in Hv; destruct (Nat.ltb_spec u (count c)) as [Hu|]; try (by apply not_elem_of_nil in Hv); try done.
  apply list_elem_of_omap in Hv as (nm & _ & Hi). by eapply di_find_lt.
Qed.
Lemma di_cycle_dfs_generic fuel c : forall u color, (u < count c)%nat -> di_cycle_dfs fuel c u color = detect (deps_of c) fuel u color.
Proof.
  induction fuel as [|fuel IH]; intros u color Hu; [done|]. cbn [di_cycle_dfs detect]. unfold deps_of at 2. destruct (Nat.ltb_spec u (count c)); [|lia].
  f_equal. generalize (Some (false, <[u := 1]> color)). induction (dep_names (entry c u)) as [|nm l IHl]; intros acc; [done|].
  cbn [foldl omap list_omap]. destruct (di_find_entry c nm) as [i|] eqn:Hi.
  - cbn [foldl]. rewrite IHl. f_equal. destruct acc as [[[] C]|]; [done| |done]. cbn. rewrite IH by by eapply di_find_lt. done.
  - rewrite IHl. f_equal. destruct acc as [[[] C]|]; done.
Qed.
(** A cycle of dependencies that the service reaches. *)
Definition cyclic (c : DIContainer) (i : nat) : Prop := cycle_from (count c) (deps_of c) i.
Lemma service_cycle_spec c nm i : (count c <= DI_MAX_SERVICES)%nat -> di_find_entry c nm = Some i -> exists b, di_has_cycle c nm = Some (c_bool b) /\ (b = true <-> cyclic c i).
Proof.
  intros Hc Hi. unfold di_has_cycle. rewrite Hi. pose proof (di_find_lt _ _ _ Hi) as Hlt. rewrite di_cycle_dfs_generic by done.
  destruct (detect_from (count c) (deps_of c) (deps_edge c) DI_MAX_SERVICES i Hc Hlt) as (b & C & -> & Hb). by exists b.
Qed.
(** C14: The cycle check answers, and answers 1 exactly when the service reaches a cycle of
    dependencies. *)
Theorem di_has_cycle_correct c nm : (count c <= DI_MAX_SERVICES)%nat ->
  exists r, di_has_cycle c nm = Some r /\ (r = 0 \/ r = 1) /\ (r = 1 <-> exists i, di_find_entry c nm = Some i /\ cyclic c i).
Proof.
  intros Hc. destruct (di_find_entry c nm) as [i|] eqn:Hi.
  - destruct (service_cycle_spec c nm i Hc Hi) as (b & -> & Hb). exists (c_bool b). split; [done|]. split; [destruct b; auto|].
    destruct b; cbn; naive_solver.
  - exists 0. unfold di_has_cycle. rewrite Hi. naive_solver.
Qed.

(** ** Resolution ends *)

Section resolve_ends.
Context {W : Type} (call : Z -> list (option Z) -> W -> option Z * W).

(** What resolving does not change. *)
Record same_shape (c c' : DIContainer) : Prop := {
  ss_count : count c' = count c;
  ss_request : in_request c' = in_request c;
  ss_entries : (fun e => (name e, scope e, dependencies e, dep_count e)) <$> entries c' = (fun e => (name e, scope e, dependencies e, dep_count e)) <$> entries c;
}.
#[local] Instance same_shape_refl : Reflexive same_shape.
Proof. done. Qed.
#[local] Instance same_shape_trans : Transitive same_shape.
Proof. intros c1 c2 c3 [] []. split; congruence. Qed.
#[local] Instance same_shape_sym : Symmetric same_shape.
Proof. intros c1 c2 []. split; congruence. Qed.
Lemma set_entry_shape c i f : (forall e, name (f e) = name e /\ scope (f e) = scope e /\ dependencies (f e) = dependencies e /\ dep_count (f e) = dep_count e) -> same_shape c (set_entry c i f).
Proof.
  intros Hf. split; [done|done|]. cbn. apply list_eq. intros j. rewrite !list_lookup_fmap. destruct (decide (i = j)) as [<-|Hne].
  - rewrite list_lookup_alter_eq. destruct (entries c !! i) as [e|]; [|done]. cbn. destruct (Hf e) as (-> & -> & -> & ->). done.
  - by rewrite list_lookup_alter_ne.
Qed.
Lemma shape_entry c c' i : same_shape c c' -> name (entry c' i) = name (entry c i) /\ scope (entry c' i) = scope (entry c i) /\ dep_names (entry c' i) = dep_names (entry c i).
Proof.
  intros [_ _ H]. pose proof (f_equal (fun l => l !! i) H) as Hi. cbn in Hi. rewrite !list_lookup_fmap in Hi. unfold entry, dep_names. rewrite !list_lookup_total_alt.
  destruct (entries c' !! i), (entries c !! i); simplify_eq/=; [|done]. repeat split; congruence.
Qed.
Lemma shape_find c c' nm : same_shape c c' -> di_find_entry c' nm = di_find_entry c nm.
Proof.
  intros [Hc _ H]. unfold di_find_entry. rewrite Hc. assert (Hn : name <$> entries c' = name <$> entries c).
  { apply (f_equal (fmap (fun x => x.1.1.1))) in H. by rewrite <- !list_fmap_compose in H. }
  assert (Hg : forall l l', name <$> l' = name <$> l -> find_idx (fun e => bool_decide (name e = nm)) l' = find_idx (fun e => bool_decide (name e = nm)) l).
  { intros l. induction l as [|e l IH]; intros [|e' l'] E; try done. cbn in E. injection E as E1 E2. cbn. rewrite E1. by rewrite (IH l'). }
  apply Hg. by rewrite !fmap_take, Hn.
Qed.
Lemma shape_deps c c' i : same_shape c c' -> deps_of c' i = deps_of c i.
Proof.
  intros H. unfold deps_of. rewrite (ss_count _ _ H). destruct (shape_entry c c' i H) as (_ & _ & ->). destruct (_ <? _)%nat; [|done].
  induction (dep_names (entry c i)) as [|nm l IH]; [done|]. cbn. by rewrite (shape_find c c' nm H), IH.
Qed.

(** [res] gives a result in every container of the shape of [c], and keeps the shape. *)
Definition resolves (res : DIContainer -> W -> list Z -> option (resolution (W := W))) (c : DIContainer) (nm : list Z) : Prop :=
  forall c' w, same_shape c c' -> exists x c2 w2, res c' w nm = Some (x, c2, w2) /\ same_shape c c2.
Lemma build_deps_ends res c names : (forall nm, nm ∈ names -> resolves res c nm) -> forall c' w, same_shape c c' ->
  exists ds c2 w2, build_deps res names c' w = Some (ds, c2, w2) /\ same_shape c c2.
Proof.
  induction names as [|nm names IH]; intros Hr c' w Hs; cbn [build_deps]; [by exists (Some []), c', w|].
  destruct (Hr nm ltac:(left) c' w Hs) as (d & c2 & w2 & -> & Hs2). cbn [mbind option_bind]. destruct (_ && _); [by exists None, c2, w2|].
  destruct (IH ltac:(intros; apply Hr; by right) c2 w2 Hs2) as (ds & c3 & w3 & -> & Hs3). cbn [mbind option_bind]. by exists (option_map (cons d) ds), c3, w3.
Qed.
Lemma di_build_ends res c i : (forall nm, nm ∈ dep_names (entry c i) -> resolves res c nm) -> forall c' w, same_shape c c' ->
  exists x c2 w2, di_build call res c' w i = Some (x, c2, w2) /\ same_shape c c2.
Proof.
  intros Hr c' w Hs. unfold di_build. destruct (_ <? _); [by exists None, c', w|]. destruct (shape_entry _ _ i Hs) as (_ & _ & ->).
  destruct (build_deps_ends res c (dep_names (entry c i)) Hr (c' <| resolve_depth ::= Z.succ |>) w) as (ds & c2 & w2 & -> & Hs2); [by destruct Hs|]. cbn [mbind option_bind].
  assert (Hs3 : same_shape c (c2 <| resolve_depth ::= Z.pred |>)) by by destruct Hs2. destruct ds as [ds|]; [|by eauto]. destruct (call _ _ _) as [x w3]. by eauto.
Qed.
Lemma di_resolve_step fuel c nm : (forall i, di_find_entry c nm = Some i -> forall d, d ∈ dep_names (entry c i) -> resolves (di_resolve call fuel) c d) -> resolves (di_resolve call (S fuel)) c nm.
Proof.
  intros Hr c' w Hs. cbn [di_resolve]. rewrite (shape_find _ _ nm Hs). destruct (di_find_entry c nm) as [i|]; [|by exists None, c', w]. specialize (Hr i eq_refl).
  destruct (di_build_ends (di_resolve call fuel) c i Hr (c' <| resolve_depth := 0 |>) w) as (x & c2 & w2 & Hb & Hs2); [by destruct Hs|].
  destruct (scope (entry c' i)); [destruct (initialized (entry c' i))| |destruct (in_request c'); [destruct (request_instances c' !!! i)|]]; rewrite ?Hb; cbn [mbind option_bind]; try by eauto.
  - eexists _, _, _. split; [done|]. etransitivity; [exact Hs2|]. by apply set_entry_shape.
  - eexists _, _, _. split; [done|]. by destruct Hs2.
Qed.
(** Reachable from a vertex that reaches no cycle, edges lead to smaller vertices. *)
Lemma acyclic_from_sn c i : ~ cyclic c i -> sn (fun x y => rtc (edge (count c) (deps_of c)) i x /\ edge (count c) (deps_of c) x y) i.
Proof.
  intros Hac. set (R := fun x y => _). assert (Htc : forall x y, tc R x y -> rtc (edge (count c) (deps_of c)) i x /\ tc (edge (count c) (deps_of c)) x y).
  { induction 1 as [x y [? ?]|x y z [? ?] _ [_ ?]]; (split; [done|]); [by apply tc_once|by eapply tc_l]. }
  apply tc_finite_sn.
  - intros x [Hx1 Hx2]%Htc. apply Hac. by exists x.
  - exists (seq 0 (count c)). intros x [_ Hx%edge_tc_bound]%Htc. apply elem_of_seq. lia.
Qed.
(** Where the check finds no cycle, resolution ends: there is a depth of the stack that is
    enough. *)
Theorem di_resolve_ends c nm : (count c <= DI_MAX_SERVICES)%nat -> di_has_cycle c nm = Some 0 ->
  exists depth, forall fuel w, (depth <= fuel)%nat -> is_Some (di_resolve call fuel c w nm).
Proof.
  intros Hc Hno. assert (H : exists depth, forall fuel, (depth <= fuel)%nat -> resolves (di_resolve call fuel) c nm).
  2:{ destruct H as [depth H]. exists depth. intros fuel w Hf. destruct (H fuel Hf c w ltac:(done)) as (x & c2 & w2 & -> & _). by eexists. }
  destruct (di_find_entry c nm) as [i|] eqn:Hi.
  2:{ exists 1%nat. intros [|fuel] Hf; [lia|]. apply di_resolve_step. intros i Hi'. congruence. }
  destruct (service_cycle_spec c nm i Hc Hi) as (b & Hb & Hcyc). assert (Hac : ~ cyclic c i) by (intros H; apply Hcyc in H; subst b; rewrite Hno in Hb; done).
  pose proof (acyclic_from_sn c i Hac) as Hsn. set (R := fun x y => _) in Hsn.
  assert (Hgen : forall v, sn R v -> rtc (edge (count c) (deps_of c)) i v -> exists depth, forall fuel nm, (depth <= fuel)%nat -> di_find_entry c nm = Some v -> resolves (di_resolve call fuel) c nm).
  2:{ destruct (Hgen i Hsn) as [depth H]; [done|]. exists depth. intros fuel Hf. by apply H. }
  clear - Hc. intros v Hsn. induction Hsn as [v _ IH]. intros Hr.
  destruct (decide (v < count c)%nat) as [Hv|Hv]; [|exists 0%nat; intros fuel nm _ Hnm%di_find_lt; lia].
  assert (exists depth, forall d fuel, (depth <= fuel)%nat -> d ∈ dep_names (entry c v) -> resolves (di_resolve call fuel) c d) as [depth Hd].
  { assert (Hsub : forall names : list (list Z), (forall d j, d ∈ names -> di_find_entry c d = Some j -> R v j) -> exists depth, forall d fuel, (depth <= fuel)%nat -> d ∈ names -> resolves (di_resolve call fuel) c d).
    { induction names as [|d names IHn]; intros Hn; [exists 0%nat; by intros d fuel _ ?%not_elem_of_nil|].
      destruct IHn as [k Hk]; [intros d' j Hd'; apply Hn; by right|].
      assert (exists k', forall fuel, (k' <= fuel)%nat -> resolves (di_resolve call fuel) c d) as [k' Hk'].
      { destruct (di_find_entry c d) as [j|] eqn:Hj.
        - destruct (Hn d j ltac:(left) Hj) as [H1 H2]. destruct (IH j) as [k' Hk']; [by split|by eapply rtc_r|]. exists k'. intros fuel Hf. by apply Hk'.
        - exists 1%nat. intros [|fuel] Hf; [lia|]. apply di_resolve_step. intros i' Hi'. congruence. }
      exists (k `max` k')%nat. intros d' fuel Hf [->|Hd']%elem_of_cons; [apply Hk'; lia|apply Hk; [lia|done]]. }
    apply Hsub. intros d j Hd Hj. split; [done|]. apply deps_edge. unfold deps_of. destruct (Nat.ltb_spec v (count c)); [|lia]. apply list_elem_of_omap. by exists d. }
  exists (S depth). intros [|fuel] nm Hf Hnm; [lia|]. apply di_resolve_step. intros i' Hi' d Hdn. rewrite Hnm in Hi'. injection Hi' as <-. apply Hd; [lia|done].
Qed.
(** ** Singletons are built once *)

Definition keeps_shape (res : DIContainer -> W -> list Z -> option (resolution (W := W))) : Prop := forall c w nm r, res c w nm = Some r -> same_shape c r.1.2.
Lemma build_deps_shape res names : keeps_shape res -> forall c w r, build_deps res names c w = Some r -> same_shape c r.1.2.
Proof.
  intros Hr. induction names as [|nm names IH]; intros c w r; cbn [build_deps]; [by intros [= <-]|].
  destruct (res c w nm) as [[[d c2] w2]|] eqn:E; [|done]. apply Hr in E. cbn [mbind option_bind fst snd] in *. destruct (_ && _); [by intros [= <-]|].
  destruct (build_deps res names c2 w2) as [[[ds c3] w3]|] eqn:E3; [|done]. apply IH in E3. cbn in *. intros [= <-]. by etransitivity.
Qed.
Lemma di_build_shape res c w i r : keeps_shape res -> di_build call res c w i = Some r -> same_shape c r.1.2.
Proof.
  intros Hr. unfold di_build. destruct (_ <? _); [by intros [= <-]|]. destruct (build_deps _ _ _ _) as [[[ds c2] w2]|] eqn:E; [|done].
  apply (build_deps_shape _ _ Hr) in E. cbn in *. destruct ds as [ds|]; [destruct (call _ _ _)|]; intros [= <-]; cbn; by destruct E.
Qed.
Lemma di_resolve_shape fuel : keeps_shape (di_resolve call fuel).
Proof.
  induction fuel as [|fuel IH]; intros c w nm r; [done|]. cbn [di_resolve]. destruct (di_find_entry c nm) as [i|]; [|by intros [= <-]].
  assert (Hb : forall w r, di_build call (di_resolve call fuel) (c <| resolve_depth := 0 |>) w i = Some r -> same_shape c r.1.2) by (intros w' r' E; apply di_build_shape in E; [by destruct E|done]).
  destruct (scope (entry c i)); [destruct (initialized _)| |destruct (in_request c); [destruct (request_instances c !!! i)|]]; try (by intros [= <-]); try apply Hb.
  - destruct (di_build _ _ _ _ _) as [[[x c2] w2]|] eqn:E; [|done]. apply Hb in E. cbn in *. intros [= <-]. etransitivity; [exact E|]. by apply set_entry_shape.
  - destruct (di_build _ _ _ _ _) as [[[x c2] w2]|] eqn:E; [|done]. apply Hb in E. cbn in *. intros [= <-]. by destruct E.
Qed.
Lemma entry_set_eq c i f : (i < length (entries c))%nat -> entry (set_entry c i f) i = f (entry c i).
Proof. intros Hi. unfold entry, set_entry. cbn. rewrite !list_lookup_total_alt, list_lookup_alter_eq. by destruct (lookup_lt_is_Some_2 _ _ Hi) as [e ->]. Qed.
(** Once a singleton was resolved to an object, resolving it again gives the same object, and
    no factory is called. *)
Theorem di_singleton_once fuel c w nm x c' w' i : di_find_entry c nm = Some i -> scope (entry c i) = DI_SCOPE_SINGLETON ->
  di_resolve call fuel c w nm = Some (Some x, c', w') -> forall fuel' w2, di_resolve call (S fuel') c' w2 nm = Some (Some x, c', w2).
Proof.
  intros Hi Hsc Hr fuel' w2. pose proof (di_resolve_shape _ _ _ _ _ Hr) as Hs. cbn [fst snd] in Hs. cbn [di_resolve]. rewrite (shape_find _ _ nm Hs), Hi.
  destruct (shape_entry _ _ i Hs) as (_ & -> & _). rewrite Hsc. assert (initialized (entry c' i) = true /\ instance (entry c' i) = Some x) as [-> ->]; [|done].
  destruct fuel as [|fuel]; [done|]. cbn [di_resolve] in Hr. rewrite Hi, Hsc in Hr. destruct (initialized (entry c i)) eqn:E; [by injection Hr; intros; subst|].
  destruct (di_build _ _ _ _ _) as [[[y c2] w3]|] eqn:Hb; [|done]. cbn in Hr. injection Hr as -> <- ->. apply di_build_shape in Hb; [|apply di_resolve_shape]. cbn in Hb.
  rewrite entry_set_eq; [done|]. destruct Hb as [_ _ He]. apply (f_equal length) in He. rewrite !length_fmap in He. cbn in He. rewrite He.
  unfold di_find_entry in Hi. apply find_idx_Some in Hi as (e & He'%lookup_lt_Some & _). rewrite length_take in He'. lia.
Qed.
End resolve_ends.

(** ** At work *)

Section examples.
(** A factory that counts its calls and numbers its objects. *)
Definition make (f : Z) (ds : list (option Z)) (w : Z) : option Z * Z := (Some (w + 1), w + 1).
Definition db : list Z := str_bytes "db".
Definition repo : list Z := str_bytes "repo".
Definition api : list Z := str_bytes "api".
Definition reg (c : DIContainer) (nm : list Z) (deps : list (list Z)) : DIContainer := (di_register c nm nm DI_SCOPE_SINGLETON 1 (Some <$> deps)).2.
Definition shop : DIContainer := reg (reg (reg di_init db []) repo [db]) api [repo; db].
Definition loop : DIContainer := reg (reg di_init db [repo]) repo [db].
Lemma di_has_cycle_correct_witness : exists r, di_has_cycle loop db = Some r /\ (r = 0 \/ r = 1) /\ (r = 1 <-> exists i, di_find_entry loop db = Some i /\ cyclic loop i).
Proof. refine (di_has_cycle_correct loop db _). vm_compute. repeat constructor. Defined.
Lemma di_resolve_ends_witness : exists depth, forall fuel w, (depth <= fuel)%nat -> is_Some (di_resolve make fuel shop w api).
Proof. refine (di_resolve_ends make shop api _ _); [vm_compute; repeat constructor|vm_compute; reflexivity]. Defined.
Definition built : DIContainer := match di_resolve make 4 shop 0 api with Some (_, c, _) => c | None => shop end.
Lemma di_singleton_once_witness : forall fuel' w2, di_resolve make (S fuel') built w2 db = Some (Some 1, built, w2).
Proof. refine (di_singleton_once make 1 built 3 db 1 built 3 0 _ _ _); vm_compute; reflexivity. Defined.

(** Three services, three calls. *)
Example three_calls : (fun r => (r.1.1, r.2)) <$> di_resolve make 4 shop 0 api = Some (Some 3, 3).
Proof. vm_compute. done. Qed.
(** Services that depend on each other are resolved for ever: the guard on the depth is reset
    by every resolution. *)
Example loop_never_resolved : forall fuel d w, di_resolve make fuel (loop <| resolve_depth := d |>) w db = None /\ di_resolve make fuel (loop <| resolve_depth := d |>) w repo = None.
Proof.
  induction fuel as [|fuel IH]; intros d w; [done|]. destruct (IH 1 w) as [H1 H2].
  assert (Hb : forall i nm, di_find_entry loop nm = Some i -> dep_names (entry loop i) = [if bool_decide (nm = db) then repo else db] -> di_resolve make fuel (loop <| resolve_depth := 1 |>) w (if bool_decide (nm = db) then repo else db) = None ->
    scope (entry loop i) = DI_SCOPE_SINGLETON -> initialized (entry loop i) = false -> di_resolve make (S fuel) (loop <| resolve_depth := d |>) w nm = None).
  { intros i nm Hi Hd Hr Hs Hn. cbn [di_resolve]. change (di_find_entry (loop <| resolve_depth := d |>) nm) with (di_find_entry loop nm). rewrite Hi.
    change (entry (loop <| resolve_depth := d |>) i) with (entry loop i). rewrite Hs, Hn. unfold di_build. change (entry (loop <| resolve_depth := d |> <| resolve_depth := 0 |>) i) with (entry loop i).
    rewrite Hd. cbn [build_deps]. change (loop <| resolve_depth := d |> <| resolve_depth := 0 |> <| resolve_depth ::= Z.succ |>) with (loop <| resolve_depth := 1 |>). rewrite Hr. done. }
  split; [by apply (Hb 0%nat)|by apply (Hb 1%nat)].
Qed.
(** A dependency that is not registered makes the sort report a cycle. *)
Example missing_is_cycle : (fun r => r.1.1) <$> di_resolve_all make 9 (reg di_init api [db]) 0 = Some (-1) /\ di_has_cycle (reg di_init api [db]) api = Some 0.
Proof. vm_compute. done. Qed.
(** A name registered twice counts twice: the sort succeeds although another dependency is
    missing and the service was not built. *)
Example twice_registered : (fun r => (r.1.1, instance (entry r.1.2 2))) <$> di_resolve_all (fun f ds w => (if f =? 1 then Some 7 else None, w)) 9 (reg (reg (reg di_init db []) db []) api [db; repo]) 0 = Some (0, None).
Proof. vm_compute. done. Qed.
(** A null dependency takes the name that an earlier container left in the slot. *)
Example stale_name : let c := (di_destroy (fun _ _ w => w) (reg di_init api [db]) 0).1 in dep_names (entry (di_register c repo repo DI_SCOPE_SINGLETON 1 [None]).2 0) = [db].
Proof. vm_compute. done. Qed.
(** When a request ends its objects are forgotten without being destroyed. *)
Example request_leaks : let c := di_begin_request (di_register_dtor di_init db db DI_SCOPE_REQUEST 1 [] (Some 5)).2 in
  (fun r => (request_instances (di_end_request r.1.2) !!! O, (di_destroy (fun _ x w => x + w) (di_end_request r.1.2) 100).2)) <$> di_resolve make 3 c 0 db = Some (None, 100).
Proof. vm_compute. done. Qed.
End examples.
