(* ===== verification/Validator.v ===== *)
(** Model of [mini-backend-framework/src/validator.c], rules on the values of fields and the
    errors they give; and the theorems on it.

    Strings are without their terminating zero; a value may be NULL ([None]).  Custom rules
    are numbers, run by [custom], which gives the verdict and the text it wrote.  Doubles are
    over any [Arith]; [atof] and [print6], the format "%.6f", are parameters. *)

From Stdlib Require Import QArith.
From S2P Require Import Prelude Bytes Arith.
#[local] Open Scope Z_scope.

Definition VAL_MAX_RULES : nat := 32.
Definition VAL_MAX_ERRORS : nat := 16.
Definition VAL_MAX_ERROR_MSG : nat := 256.
Definition VAL_MAX_FIELD_NAME : nat := 64.
#[global] Arguments VAL_MAX_RULES : simpl never.
#[global] Arguments VAL_MAX_ERRORS : simpl never.
#[global] Arguments VAL_MAX_ERROR_MSG : simpl never.
Inductive ValRuleType :=
  | VAL_RULE_REQUIRED | VAL_RULE_MIN_LENGTH | VAL_RULE_MAX_LENGTH | VAL_RULE_REGEX | VAL_RULE_EMAIL | VAL_RULE_NUMERIC | VAL_RULE_INTEGER
  | VAL_RULE_MIN_VALUE | VAL_RULE_MAX_VALUE | VAL_RULE_CUSTOM.
Record ValError := mk_error { e_field : list Z; e_message : list Z }.
Record ValRule := mk_rule { type : ValRuleType; field : list Z; param : list Z; message : list Z; custom_fn : option Z }.
(** [rule_count] is the length of [rules]; [errors] is the array. *)
Record Validator := mk_validator { rules : list ValRule; errors : list ValError; error_count : nat }.

Definition validator_init : Validator := mk_validator [] (replicate VAL_MAX_ERRORS (mk_error [] [])) 0.
(** Rules beyond the last place are dropped. *)
Definition validator_add_rule (v : Validator) (ty : ValRuleType) (f : list Z) (p : option (list Z)) (msg : list Z) (fn : option Z) : Validator :=
  if (VAL_MAX_RULES <=? length (rules v))%nat then v
  else v <| rules ::= fun l => l ++ [mk_rule ty (truncated VAL_MAX_FIELD_NAME f) (from_option (truncated 128) [] p) (truncated VAL_MAX_ERROR_MSG msg) fn] |>.
Definition or_text (msg : option (list Z)) (d : string) : list Z := default (str_bytes d) msg.
Definition validator_rule_required (v : Validator) (f : list Z) (msg : option (list Z)) : Validator :=
  validator_add_rule v VAL_RULE_REQUIRED f None (or_text msg "This field is required") None.
Definition validator_rule_min_length (v : Validator) (f : list Z) (min : Z) (msg : option (list Z)) : Validator :=
  validator_add_rule v VAL_RULE_MIN_LENGTH f (Some (truncated 32 (print_lld min))) (or_text msg "Value too short") None.
Definition validator_rule_max_length (v : Validator) (f : list Z) (max : Z) (msg : option (list Z)) : Validator :=
  validator_add_rule v VAL_RULE_MAX_LENGTH f (Some (truncated 32 (print_lld max))) (or_text msg "Value too long") None.
Definition validator_rule_regex (v : Validator) (f : list Z) (pattern : option (list Z)) (msg : option (list Z)) : Validator :=
  validator_add_rule v VAL_RULE_REGEX f pattern (or_text msg "Value does not match pattern") None.
Definition validator_rule_email (v : Validator) (f : list Z) (msg : option (list Z)) : Validator :=
  validator_add_rule v VAL_RULE_EMAIL f None (or_text msg "Invalid email format") None.
Definition validator_rule_numeric (v : Validator) (f : list Z) (msg : option (list Z)) : Validator :=
  validator_add_rule v VAL_RULE_NUMERIC f None (or_text msg "Must be numeric") None.
Definition validator_rule_integer (v : Validator) (f : list Z) (msg : option (list Z)) : Validator :=
  validator_add_rule v VAL_RULE_INTEGER f None (or_text msg "Must be an integer") None.
Definition validator_rule_custom (v : Validator) (f : list Z) (fn : option Z) (p : option (list Z)) (msg : option (list Z)) : Validator :=
  validator_add_rule v VAL_RULE_CUSTOM f p (or_text msg "Custom validation failed") fn.

(** ** The checks on text *)

Definition is_alpha (c : Z) : bool := ((65 <=? c) && (c <=? 90)) || ((97 <=? c) && (c <=? 122)).
Definition is_alnum (c : Z) : bool := is_alpha c || is_digit c.
(** The characters after the first [c]. *)
Fixpoint strchr_after (c : Z) (s : list Z) : option (list Z) :=
  match s with [] => None | x :: s => if x =? c then Some s else strchr_after c s end.
Definition val_is_email (value : option (list Z)) : bool :=
  match value with
  | None | Some [] => false
  | Some v =>
      match strchr_before 64 v, strchr_after 64 v with
      | Some loc, Some domain =>
          if (length loc <? 1)%nat || (64 <? length loc)%nat then false
          else if (length domain <? 3)%nat || (255 <? length domain)%nat then false
          else match strchr_before 46 domain, strchr_after 46 domain with
               | Some before, Some after =>
                   if bool_decide (before = []) then false
                   else if bool_decide (after = []) then false
                   else if bool_decide (32 ∈ v) then false
                   else negb (contains [46; 46] v)
               | _, _ => false
               end
      | _, _ => false
      end
  end.
Definition all_of (p : Z -> bool) (v : list Z) : bool := negb (bool_decide (v = [])) && forallb p v.
Definition val_matches_regex (value : option (list Z)) (pattern : list Z) : bool :=
  match value with
  | None => false
  | Some v =>
      if bool_decide (pattern = []) then true
      else if bool_decide (pattern = str_bytes "^[a-zA-Z0-9_]+$") then all_of (fun c => is_alnum c || (c =? 95)) v
      else if bool_decide (pattern = str_bytes "^[0-9]+$") then all_of is_digit v
      else if bool_decide (pattern = str_bytes "^[a-zA-Z]+$") then all_of is_alpha v
      else true
  end.
Definition after_minus (v : list Z) : list Z := match v with 45 :: v => v | _ => v end.
Fixpoint numeric_from (has_dot : bool) (v : list Z) : bool :=
  match v with
  | [] => true
  | c :: v => if c =? 46 then if has_dot then false else numeric_from true v else if is_digit c then numeric_from has_dot v else false
  end.
Definition is_numeric (value : option (list Z)) : bool :=
  match value with None | Some [] => false | Some v => negb (bool_decide (after_minus v = [])) && numeric_from false (after_minus v) end.
Definition is_integer (value : option (list Z)) : bool :=
  match value with None | Some [] => false | Some v => negb (bool_decide (after_minus v = [])) && forallb is_digit (after_minus v) end.

Section validator.
Context {D : Type} `{HA : Arith D} (atof : list Z -> D) (print6 : D -> list Z) (custom : Z -> option (list Z) -> list Z -> bool * list Z).

Definition validator_rule_min_value (v : Validator) (f : list Z) (min : D) (msg : option (list Z)) : Validator :=
  validator_add_rule v VAL_RULE_MIN_VALUE f (Some (truncated 32 (print6 min))) (or_text msg "Value below minimum") None.
Definition validator_rule_max_value (v : Validator) (f : list Z) (max : D) (msg : option (list Z)) : Validator :=
  validator_add_rule v VAL_RULE_MAX_VALUE f (Some (truncated 32 (print6 max))) (or_text msg "Value above maximum") None.

Definition value_length (value : option (list Z)) : Z := Z.of_nat (length (default [] value)).
Definition given (value : option (list Z)) : bool := match value with None | Some [] => false | _ => true end.
Definition colon (r : ValRule) (text : list Z) : list Z := field r ++ str_bytes ": " ++ text.
Definition with_param (r : ValRule) (what : string) : list Z := colon r (message r) ++ str_bytes " (" ++ str_bytes what ++ param r ++ str_bytes ")".
(** The message of the error, when the value breaks the rule. *)
Definition broken (r : ValRule) (value : option (list Z)) : option (list Z) :=
  match type r with
  | VAL_RULE_REQUIRED => if given value then None else Some (colon r (message r))
  | VAL_RULE_MIN_LENGTH => if value_length value <? atoi (param r) then Some (with_param r "min ") else None
  | VAL_RULE_MAX_LENGTH => if atoi (param r) <? value_length value then Some (with_param r "max ") else None
  | VAL_RULE_REGEX => if val_matches_regex value (param r) then None else Some (with_param r "pattern: ")
  | VAL_RULE_EMAIL => if val_is_email value then None else Some (colon r (message r))
  | VAL_RULE_NUMERIC => if is_numeric value then None else Some (colon r (message r))
  | VAL_RULE_INTEGER => if is_integer value then None else Some (colon r (message r))
  | VAL_RULE_MIN_VALUE => if given value && ltb (atof (default [] value)) (atof (param r)) then Some (with_param r "min ") else None
  | VAL_RULE_MAX_VALUE => if given value && ltb (atof (param r)) (atof (default [] value)) then Some (with_param r "max ") else None
  | VAL_RULE_CUSTOM =>
      match custom_fn r with
      | Some fn => let '(ok, text) := custom fn value (param r) in if ok then None else Some (colon r (match text with [] => message r | _ => text end))
      | None => None
      end
  end.
(** The array of errors and the count: errors beyond [max] are counted only. *)
Definition apply_rule (max : nat) (r : ValRule) (value : option (list Z)) (s : list ValError * nat) : list ValError * nat :=
  match broken r value with
  | None => s
  | Some msg => (if (s.2 <? max)%nat then <[s.2 := mk_error (truncated VAL_MAX_FIELD_NAME (field r)) (truncated VAL_MAX_ERROR_MSG msg)]> s.1 else s.1, S s.2)
  end.
Definition validator_validate_field (v : Validator) (f : list Z) (value : option (list Z)) (errs : list ValError) (max : nat) : list ValError * nat :=
  foldl (fun s r => if bool_decide (field r = f) then apply_rule max r value s else s) (errs, O) (rules v).
Definition validator_validate (v : Validator) (f : option (list Z)) (value : option (list Z)) : nat * Validator :=
  let s := foldl (fun s r => if bool_decide (f = None \/ f = Some (field r)) then apply_rule VAL_MAX_ERRORS r value s else s) (errors v, O) (rules v) in
  (s.2, v <| errors := s.1 |> <| error_count := s.2 |>).
(** The lines printed; [None] when it reads behind the array. *)
Definition validator_print_errors (v : Validator) : option (list (list Z)) :=
  mapM (fun i => e ← errors v !! i; Some (str_bytes "  [" ++ e_field e ++ str_bytes "] " ++ e_message e ++ [10])) (seq 0 (error_count v)).

(** ** What validation reports *)

(** The errors of the rules that apply, in the order of the rules. *)
Definition violations (applies : ValRule -> bool) (value : option (list Z)) (l : list ValRule) : list ValError :=
  omap (fun r => if applies r then option_map (fun msg => mk_error (truncated VAL_MAX_FIELD_NAME (field r)) (truncated VAL_MAX_ERROR_MSG msg)) (broken r value) else None) l.
Lemma apply_rules_spec max (applies : ValRule -> bool) value (l : list ValRule) : forall errs : list ValError, (max <= length errs)%nat ->
  let s := foldl (fun s r => if applies r then apply_rule max r value s else s) (errs, O) l in
  s.2 = length (violations applies value l) /\ take (s.2 `min` max) s.1 = take max (violations applies value l) /\ length s.1 = length errs.
Proof.
  intros errs Hmax. cbn zeta. induction l as [|r l IH] using rev_ind; [cbn; by rewrite take_0, take_nil|]. rewrite foldl_app. cbn [foldl].
  unfold violations in *. rewrite omap_app. cbn [omap list_omap]. set (vs := omap _ l) in *. set (s := foldl _ _ l) in *. destruct IH as (H1 & H2 & H3).
  destruct (applies r); [|by rewrite app_nil_r]. unfold apply_rule. destruct (broken r value) as [msg|]; cbn [option_map]; [|by rewrite app_nil_r].
  cbn [fst snd]. rewrite length_app. cbn [length]. split; [lia|]. destruct (Nat.ltb_spec s.2 max) as [Hlt|Hge].
  - split; [|by rewrite length_insert]. rewrite Nat.min_l by lia. rewrite take_app_ge by lia. rewrite <- H1.
    rewrite (Nat.min_l s.2) in H2 by lia. rewrite (take_ge vs) in H2 by lia. erewrite take_S_r by (apply list_lookup_insert_eq; lia). rewrite take_insert_ge by lia. rewrite H2.
    f_equal. destruct (max - s.2)%nat as [|k] eqn:E; [lia|]. by rewrite firstn_cons, take_nil.
  - split; [|done]. rewrite Nat.min_r in H2 |- * by lia. by rewrite take_app_le by lia.
Qed.
(** Validation counts every rule that is broken, and keeps the first sixteen errors, in the
    order of the rules. *)
Theorem validator_validate_correct v f value : length (errors v) = VAL_MAX_ERRORS ->
  let r := validator_validate v f value in
  let expected := violations (fun r => bool_decide (f = None \/ f = Some (field r))) value (rules v) in
  r.1 = length expected /\ error_count r.2 = r.1 /\ take (r.1 `min` VAL_MAX_ERRORS) (errors r.2) = take VAL_MAX_ERRORS expected /\ length (errors r.2) = VAL_MAX_ERRORS.
Proof.
  intros Hlen. unfold validator_validate. cbn zeta. cbn [fst snd errors error_count set].
  destruct (apply_rules_spec VAL_MAX_ERRORS (fun r => bool_decide (f = None \/ f = Some (field r))) value (rules v) (errors v)) as (H1 & H2 & H3); [lia|].
  cbn. split; [exact H1|]. split; [done|]. split; [exact H2|]. lia.
Qed.
End validator.

(** ** Numbers *)

(** The texts of integers: digits, at least one, with or without a minus sign. *)
Definition integer_text (v : list Z) : Prop := exists ds, ds <> [] /\ Forall (fun c => 48 <= c <= 57) ds /\ (v = ds \/ v = 45 :: ds).
Lemma forallb_digits v : forallb is_digit v = true <-> Forall (fun c => 48 <= c <= 57) v.
Proof.
  rewrite List.forallb_forall, Forall_forall. unfold is_digit. split; intros H x Hx.
  - apply list_elem_of_In in Hx. apply H in Hx. zbool. lia.
  - apply list_elem_of_In, H in Hx. apply andb_true_intro. split; apply Z.leb_le; lia.
Qed.
Theorem is_integer_correct v : is_integer (Some v) = true <-> integer_text v.
Proof.
  assert (Hm : forall c w, after_minus (c :: w) = if c =? 45 then w else c :: w).
  { intros c w. destruct (Z.eqb_spec c 45) as [->|Hc]; [done|]. unfold after_minus. by repeat (case_match; try done; try lia). }
  unfold is_integer. destruct v as [|c w].
  - split; [done|]. intros (ds & Hne & _ & [?|?]); congruence.
  - rewrite Hm, andb_true_iff, negb_true_iff, bool_decide_eq_false, forallb_digits. destruct (Z.eqb_spec c 45) as [->|Hc]; split.
    + intros [Hne Hf]. exists w. auto.
    + intros (ds & Hne & Hf & [E|E]); [|injection E as ->; done]. rewrite <- E in Hf. apply Forall_cons in Hf as [H _]. lia.
    + intros [Hne Hf]. exists (c :: w). auto.
    + intros (ds & Hne & Hf & [E|E]); [by subst ds|congruence].
Qed.

(** ** At work *)

Section examples.
Context (custom : Z -> option (list Z) -> list Z -> bool * list Z).
Definition rule_of (ty : ValRuleType) : ValRule := mk_rule ty [97] [] [98] None.
Definition text (s : string) : option (list Z) := Some (str_bytes s).
(** A pattern that is none of the three known ones accepts everything. *)
Example any_pattern : val_matches_regex (text "###") (str_bytes "^[a-z]+$") = true.
Proof. done. Qed.
Example dot_is_numeric : is_numeric (text ".") = true.
Proof. done. Qed.
Example two_ats : val_is_email (text "a@b@c.d") = true.
Proof. vm_compute. done. Qed.
(** Thirty-two broken rules: the errors counted are more than those kept, and printing them
    reads behind the array. *)
Definition many : Validator := foldl (fun v _ => validator_rule_required v [97] None) validator_init (seq 0 40).
Example print_overflows : let r := validator_validate (D := Q) (fun _ => 0%Q) custom many None None in
  (r.1, validator_print_errors r.2) = (32%nat, None).
Proof. vm_compute. done. Qed.
(** The rules after the thirty-second are dropped. *)
Example rules_dropped : length (rules many) = 32%nat.
Proof. vm_compute. done. Qed.
End examples.
Definition no_custom (fn : Z) (v : option (list Z)) (p : list Z) : bool * list Z := (true, []).
Lemma validator_validate_correct_witness :
  let r := validator_validate (D := Q) (fun _ => 0%Q) no_custom many (Some [97]) None in
  let expected := violations (D := Q) (fun _ => 0%Q) no_custom (fun r => bool_decide (Some [97] = None \/ Some [97] = Some (field r))) None (rules many) in
  r.1 = length expected /\ error_count r.2 = r.1 /\ take (r.1 `min` VAL_MAX_ERRORS) (errors r.2) = take VAL_MAX_ERRORS expected /\ length (errors r.2) = VAL_MAX_ERRORS.
Proof. refine (validator_validate_correct (D := Q) (fun _ => 0%Q) no_custom many (Some [97]) None _). vm_compute. done. Defined.
