(* ===== verification/DddModel.v ===== *)
(** Model of [mini-business-arch/src/ddd_model.c]: orders, the repository that keeps them in
    memory and the service on top; and the theorems on it.

    The items of an order are an array on the heap that the order points to; copying an order
    copies the pointer.  [heap] holds the arrays; a cell that was not written is [None].
    Using an array that is not allocated, or a cell that was not written, is undefined: the
    operations are [None] then.  [alloc] is the choice of [malloc] and [realloc], which
    succeed.  Amounts are C doubles, over any [Arith]; counters do not overflow. *)

From Stdlib Require Import QArith.
From S2P Require Import Prelude Bytes Arith.
#[local] Open Scope Z_scope.

Definition DDD_ID_LEN : nat := 64.
Definition DDD_NAME_LEN : nat := 128.
Inductive OrderStatus := ORDER_STATUS_DRAFT | ORDER_STATUS_PLACED | ORDER_STATUS_CONFIRMED | ORDER_STATUS_SHIPPED | ORDER_STATUS_DELIVERED | ORDER_STATUS_CANCELLED.
#[export] Instance status_eq_dec : EqDecision OrderStatus.
Proof. solve_decision. Defined.
Inductive RepositoryError := REPO_ERROR_NONE | REPO_ERROR_NOT_FOUND | REPO_ERROR_CONCURRENCY | REPO_ERROR_IO.
#[export] Instance error_eq_dec : EqDecision RepositoryError.
Proof. solve_decision. Defined.
Record RepositoryResult := mk_result { code : RepositoryError; message : list Z }.
Definition EntityId : Type := list Z.
Record AddressValueObject := mk_address { street : list Z; city : list Z; postal_code : list Z; country : list Z }.

Definition ok : RepositoryResult := mk_result REPO_ERROR_NONE [].
Definition refused (s : string) : RepositoryResult := mk_result REPO_ERROR_CONCURRENCY (str_bytes s).
Definition not_found (s : string) : RepositoryResult := mk_result REPO_ERROR_NOT_FOUND (str_bytes s).

Definition entity_id_equals (a b : EntityId) : bool := bool_decide (a = b).
(** The identifier and the next value of the counter; [r] is what [rand] gave. *)
Definition entity_id_generate (counter r : Z) : EntityId * Z :=
  let counter := u64 (counter + 1) in
  (truncated DDD_ID_LEN (str_bytes "ENT-" ++ zero_pad 10 (print_lld counter) ++ str_bytes "-" ++ print_hex 4 (Z.land r 65535)), counter).
Definition entity_id_string (id : EntityId) : list Z := id.
Definition address_equals (a b : AddressValueObject) : bool :=
  bool_decide (street a = street b) && bool_decide (city a = city b) && bool_decide (postal_code a = postal_code b) && bool_decide (country a = country b).
Definition address_copy (a : AddressValueObject) : AddressValueObject := a.
Definition no_address : AddressValueObject := mk_address [] [] [] [].

Definition loc := positive.
Section ddd.
Context {D : Type} `{HA : Arith D}.

Record MoneyValueObject := mk_money { amount : D; currency : list Z }.
Record OrderLineValueObject := mk_line { product_id : EntityId; product_name : list Z; quantity : Z; unit_price : MoneyValueObject }.
(** [customer] is the member of [root] that is set; the other members stay zero. *)
Record OrderAggregate := mk_order {
  root_id : EntityId; root_version : Z; customer : EntityId; status : OrderStatus; shipping_address : AddressValueObject; billing_address : AddressValueObject;
  total : MoneyValueObject; line_items : option loc; line_item_capacity : nat; line_item_count : nat;
}.
Definition heap : Type := gmap loc (list (option OrderLineValueObject)).

Definition money_equals (a b : MoneyValueObject) : bool := leb (amount a) (amount b) && leb (amount b) (amount a) && bool_decide (currency a = currency b).
Definition money_add (a b : MoneyValueObject) : MoneyValueObject := if bool_decide (currency a = currency b) then mk_money (add (amount a) (amount b)) (currency a) else a.
Definition money_multiply (a : MoneyValueObject) (factor : D) : MoneyValueObject := mk_money (mul (amount a) factor) (currency a).
Definition order_line_equals (a b : OrderLineValueObject) : bool :=
  entity_id_equals (product_id a) (product_id b) && (quantity a =? quantity b) && money_equals (unit_price a) (unit_price b).

(** Changes of an order. *)
Definition with_lines (o : OrderAggregate) (p : option loc) (cap count : nat) : OrderAggregate :=
  mk_order (root_id o) (root_version o) (customer o) (status o) (shipping_address o) (billing_address o) (total o) p cap count.
Definition with_status (o : OrderAggregate) (s : OrderStatus) : OrderAggregate :=
  mk_order (root_id o) (root_version o + 1) (customer o) s (shipping_address o) (billing_address o) (total o) (line_items o) (line_item_capacity o) (line_item_count o).
Definition with_addresses (o : OrderAggregate) (sh bi : AddressValueObject) (t : MoneyValueObject) : OrderAggregate :=
  mk_order (root_id o) (root_version o) (customer o) (status o) sh bi t (line_items o) (line_item_capacity o) (line_item_count o).

(** The array of an order. *)
Definition lines_of (h : heap) (o : OrderAggregate) : option (list (option OrderLineValueObject)) := line_items o ≫= fun p => h !! p.
Definition read_line (h : heap) (o : OrderAggregate) (i : nat) : option OrderLineValueObject := l ← lines_of h o; mjoin (l !! i).

Section allocator.
Context (alloc : heap -> loc).

Definition order_aggregate_create (counter r : Z) (customer_id : EntityId) (h : heap) : OrderAggregate * Z * heap :=
  let '(id, counter) := entity_id_generate counter r in
  let p := alloc h in
  (mk_order id 0 customer_id ORDER_STATUS_DRAFT no_address no_address (mk_money (of_Z 0) []) (Some p) 8 0, counter, <[p := replicate 8 None]> h).
Definition order_aggregate_add_line_item (o : OrderAggregate) (pid : EntityId) (nm : list Z) (q : Z) (price : D) (cur : list Z) (h : heap)
    : option (RepositoryResult * OrderAggregate * heap) :=
  if bool_decide (status o <> ORDER_STATUS_DRAFT) then Some (refused "Cannot add items to a non-draft order", o, h)
  else
    old ← line_items o;
    l ← h !! old;
    (* realloc: the old array is freed *)
    let '(o, l, p, h) := if (line_item_capacity o <=? line_item_count o)%nat then
        let h := delete old h in let p := alloc h in
        (with_lines o (Some p) (line_item_capacity o * 2) (line_item_count o), l ++ replicate (line_item_capacity o) None, p, h)
      else (o, l, old, h) in
    let line := mk_line pid (truncated DDD_NAME_LEN nm) q (mk_money price (truncated 8 cur)) in
    Some (ok, with_lines o (Some p) (line_item_capacity o) (S (line_item_count o)), <[p := <[line_item_count o := Some line]> l]> h).
Fixpoint find_line (h : heap) (o : OrderAggregate) (pid : EntityId) (i rounds : nat) : option (option nat) :=
  match rounds with
  | O => Some None
  | S rounds => l ← read_line h o i; if entity_id_equals (product_id l) pid then Some (Some i) else find_line h o pid (S i) rounds
  end.
Definition order_aggregate_remove_line_item (o : OrderAggregate) (pid : EntityId) (h : heap) : option (RepositoryResult * OrderAggregate * heap) :=
  if bool_decide (status o <> ORDER_STATUS_DRAFT) then Some (refused "Cannot modify a non-draft order", o, h)
  else
    found ← find_line h o pid 0 (line_item_count o);
    match found with
    | None => Some (not_found "Line item not found", o, h)
    | Some i =>
        p ← line_items o;
        l ← h !! p;
        (* memmove: the cells behind move down, the last one stays *)
        let moved := take i l ++ drop (S i) (take (line_item_count o) l) ++ drop (line_item_count o - 1) l in
        Some (ok, with_lines o (Some p) (line_item_capacity o) (line_item_count o - 1), <[p := moved]> h)
    end.
Fixpoint sum_lines (h : heap) (o : OrderAggregate) (i rounds : nat) (acc : D) : option D :=
  match rounds with
  | O => Some acc
  | S rounds => l ← read_line h o i; sum_lines h o (S i) rounds (add acc (mul (amount (unit_price l)) (of_Z (quantity l))))
  end.
Definition order_aggregate_calculate_total (o : OrderAggregate) (h : heap) : option MoneyValueObject :=
  cur ← (if (0 <? line_item_count o)%nat then l ← read_line h o 0; Some (truncated 8 (currency (unit_price l))) else Some (str_bytes "USD"));
  t ← sum_lines h o 0 (line_item_count o) (of_Z 0);
  Some (mk_money t cur).
Definition order_aggregate_place (o : OrderAggregate) (shipping billing : AddressValueObject) (h : heap) : option (RepositoryResult * OrderAggregate) :=
  if bool_decide (status o <> ORDER_STATUS_DRAFT) then Some (refused "Order already placed or processed", o)
  else if (line_item_count o =? 0)%nat then Some (refused "Cannot place an empty order", o)
  else
    let o := with_status o ORDER_STATUS_PLACED in
    t ← order_aggregate_calculate_total o h;
    Some (ok, with_addresses o (address_copy shipping) (address_copy billing) t).
Definition order_aggregate_ship (o : OrderAggregate) : RepositoryResult * OrderAggregate :=
  if bool_decide (status o <> ORDER_STATUS_PLACED) && bool_decide (status o <> ORDER_STATUS_CONFIRMED) then (refused "Order must be placed or confirmed before shipping", o)
  else (ok, with_status o ORDER_STATUS_SHIPPED).
Definition order_aggregate_cancel (o : OrderAggregate) : RepositoryResult * OrderAggregate :=
  if bool_decide (status o = ORDER_STATUS_DELIVERED) then (refused "Cannot cancel a delivered order", o) else (ok, with_status o ORDER_STATUS_CANCELLED).
(** [free(NULL)] does nothing; freeing what is not allocated is undefined. *)
Definition free_lines (p : option loc) (h : heap) : option heap :=
  match p with None => Some h | Some p => match h !! p with Some _ => Some (delete p h) | None => None end end.
Definition order_aggregate_destroy (o : OrderAggregate) (h : heap) : option (OrderAggregate * heap) := h ← free_lines (line_items o) h; Some (with_lines o None 0 0, h).

(** ** The repository: the orders, in their places *)

Definition InMemoryOrderRepo : Type := list OrderAggregate.
Definition order_idx (repo : InMemoryOrderRepo) (id : EntityId) : option nat := find_idx (fun o => entity_id_equals (root_id o) id) repo.
(** A copy of the order found. *)
Definition inmem_order_find_by_id (repo : InMemoryOrderRepo) (id : EntityId) : RepositoryResult * option OrderAggregate :=
  match order_idx repo id ≫= fun i => repo !! i with Some o => (ok, Some o) | None => (not_found "Order not found", None) end.
Definition inmem_order_save (repo : InMemoryOrderRepo) (o : OrderAggregate) (h : heap) : option (RepositoryResult * InMemoryOrderRepo * heap) :=
  match order_idx repo (root_id o) with
  | Some i => old ← repo !! i; '(_, h) ← order_aggregate_destroy old h; Some (ok, <[i := o]> repo, h)
  | None => Some (ok, repo ++ [o], h)
  end.
Definition inmem_order_delete (repo : InMemoryOrderRepo) (id : EntityId) (h : heap) : option (RepositoryResult * InMemoryOrderRepo * heap) :=
  match order_idx repo id with
  | Some i => old ← repo !! i; '(_, h) ← order_aggregate_destroy old h; Some (ok, delete i repo, h)
  | None => Some (not_found "Order not found", repo, h)
  end.
Definition inmem_order_find_all (repo : InMemoryOrderRepo) : RepositoryResult * list OrderAggregate * nat := (ok, repo, length repo).
Definition inmem_order_destroy (repo : InMemoryOrderRepo) (h : heap) : option heap :=
  foldl (fun h o => h ← h; '(_, h) ← order_aggregate_destroy o h; Some h) (Some h) repo.
Definition repository_create_in_memory : InMemoryOrderRepo := [].

(** ** The service: its only member is the repository *)

Definition order_domain_service_create (repo : InMemoryOrderRepo) : InMemoryOrderRepo := repo.
Definition order_domain_service_place_order (svc : InMemoryOrderRepo) (o : OrderAggregate) (h : heap) : option (RepositoryResult * InMemoryOrderRepo * heap) :=
  t ← order_aggregate_calculate_total o h;
  if leb (amount t) (of_Z 0) then Some (refused "Order total must be positive", svc, h) else inmem_order_save svc o h.
Definition order_domain_service_cancel_order (svc : InMemoryOrderRepo) (o : OrderAggregate) (h : heap) : option (RepositoryResult * OrderAggregate * InMemoryOrderRepo * heap) :=
  if bool_decide (status o = ORDER_STATUS_DELIVERED) then Some (refused "Cannot cancel delivered order", o, svc, h)
  else let o := with_status o ORDER_STATUS_CANCELLED in '(r, svc, h) ← inmem_order_save svc o h; Some (r, o, svc, h).
Record InventoryCheckResult := mk_check { c_product : EntityId; requested_quantity : Z; available_inventory : Z; is_feasible : bool }.
Definition order_domain_service_check_inventory (o : OrderAggregate) (max : nat) (h : heap) : option (list InventoryCheckResult) :=
  mapM (fun i => l ← read_line h o i; Some (mk_check (product_id l) (quantity l) 100 true)) (seq 0 (line_item_count o `min` max)).
End allocator.
End ddd.
#[global] Arguments OrderAggregate : clear implicits.
#[global] Arguments OrderLineValueObject : clear implicits.
#[global] Arguments MoneyValueObject : clear implicits.
#[global] Arguments heap : clear implicits.
#[global] Arguments InMemoryOrderRepo : clear implicits.

Section theorems.
Context {D : Type} `{HA : Arith D} (alloc : heap D -> loc) (Halloc : forall h, h !! alloc h = None).

(** ** The items of an order *)

(** The order [o] has the items [its], in an array of its own capacity. *)
Record owns (h : heap D) (o : OrderAggregate D) (its : list (OrderLineValueObject D)) : Prop := {
  ow_cells : exists p l, line_items o = Some p /\ h !! p = Some l /\ length l = line_item_capacity o /\ take (line_item_count o) l = Some <$> its;
  ow_count : line_item_count o = length its;
  ow_room : (line_item_count o <= line_item_capacity o)%nat /\ (0 < line_item_capacity o)%nat;
}.
Lemma owns_read h o its i : owns h o its -> read_line h o i = if (i <? length its)%nat then its !! i else read_line h o i.
Proof.
  intros [(p & l & Hp & Hl & Hlen & Ht) Hc _]. destruct (Nat.ltb_spec i (length its)) as [Hlt|]; [|done].
  unfold read_line, lines_of. rewrite Hp. cbn. rewrite Hl. cbn. rewrite <- (lookup_take_lt l (line_item_count o)) by lia. rewrite Ht, list_lookup_fmap.
  by destruct (its !! i).
Qed.

(** What editing an order is to do. *)
Definition line (pid : EntityId) (nm : list Z) (q : Z) (price : D) (cur : list Z) : OrderLineValueObject D :=
  mk_line pid (truncated DDD_NAME_LEN nm) q (mk_money price (truncated 8 cur)).
Fixpoint remove_first (pid : EntityId) (its : list (OrderLineValueObject D)) : option (list (OrderLineValueObject D)) :=
  match its with [] => None | l :: its => if entity_id_equals (product_id l) pid then Some its else cons l <$> remove_first pid its end.

Lemma add_line_spec h o its pid nm q price cur : owns h o its -> status o = ORDER_STATUS_DRAFT ->
  exists o' h', order_aggregate_add_line_item alloc o pid nm q price cur h = Some (ok, o', h') /\ owns h' o' (its ++ [line pid nm q price cur]) /\ status o' = ORDER_STATUS_DRAFT.
Proof using Halloc.
  intros [(p & l & Hp & Hl & Hlen & Ht) Hc [Hr1 Hr2]] Hs. unfold order_aggregate_add_line_item. rewrite bool_decide_eq_false_2 by (rewrite Hs; tauto).
  rewrite Hp. cbn [mbind option_bind]. rewrite Hl. cbn [mbind option_bind]. set (x := mk_line _ _ _ _).
  assert (Hput : forall l', (line_item_count o < length l')%nat -> take (line_item_count o) l' = Some <$> its ->
    take (S (line_item_count o)) (<[line_item_count o := Some x]> l') = Some <$> (its ++ [x])).
  { intros l' Hlt Ht'. erewrite take_S_r by (by apply list_lookup_insert_eq). by rewrite take_insert_ge, Ht', fmap_app by lia. }
  destruct (Nat.leb_spec (line_item_capacity o) (line_item_count o)) as [Hge|Hlt].
  - eexists _, _. split; [done|]. split; [|done]. split; cbn; [|rewrite length_app; cbn; lia|lia].
    exists (alloc (delete p h)), (<[line_item_count o := Some x]> (l ++ replicate (line_item_capacity o) None)). split; [done|]. split; [apply (lookup_insert_eq (M := gmap loc))|].
    split; [rewrite length_insert, length_app, length_replicate; lia|]. apply Hput; [rewrite length_app, length_replicate; lia|]. rewrite take_app_le by lia. done.
  - eexists _, _. split; [done|]. split; [|done]. split; cbn; [|rewrite length_app; cbn; lia|lia].
    exists p, (<[line_item_count o := Some x]> l). split; [done|]. split; [apply (lookup_insert_eq (M := gmap loc))|]. split; [by rewrite length_insert|]. apply Hput; [lia|done].
Qed.
Lemma find_line_spec h o its pid : owns h o its -> forall rounds i, (i + rounds = length its)%nat ->
  find_line h o pid i rounds = Some (Nat.add i <$> find_idx (fun l => entity_id_equals (product_id l) pid) (drop i its)).
Proof.
  intros Ho. induction rounds as [|rounds IH]; intros i Hi; cbn [find_line].
  - rewrite drop_ge by lia. done.
  - rewrite (owns_read _ _ _ i Ho). destruct (Nat.ltb_spec i (length its)) as [Hlt|]; [|lia]. destruct (lookup_lt_is_Some_2 its i Hlt) as [x Hx]. rewrite Hx. cbn [mbind option_bind].
    rewrite (drop_S its x i Hx). cbn [find_idx]. destruct (entity_id_equals (product_id x) pid); [cbn; by rewrite Nat.add_0_r|].
    rewrite IH by lia. destruct (find_idx _ (drop (S i) its)); cbn; [|done]. do 2 f_equal. lia.
Qed.
Lemma remove_first_idx pid its : remove_first pid its = (fun i => delete i its) <$> find_idx (fun l => entity_id_equals (product_id l) pid) its.
Proof. induction its as [|l its IH]; [done|]. cbn. destruct (entity_id_equals _ _); [done|]. rewrite IH. by destruct (find_idx _ its). Qed.
Lemma remove_line_spec h o its pid : owns h o its -> status o = ORDER_STATUS_DRAFT ->
  match remove_first pid its with
  | Some its' => exists o' h', order_aggregate_remove_line_item o pid h = Some (ok, o', h') /\ owns h' o' its' /\ status o' = ORDER_STATUS_DRAFT
  | None => order_aggregate_remove_line_item o pid h = Some (not_found "Line item not found", o, h)
  end.
Proof using.
  intros Ho Hs. rewrite remove_first_idx. unfold order_aggregate_remove_line_item. rewrite bool_decide_eq_false_2 by (rewrite Hs; tauto).
  pose proof Ho as [(p & l & Hp & Hl & Hlen & Ht) Hc [Hr1 Hr2]]. rewrite (find_line_spec h o its pid Ho) by lia. rewrite drop_0.
  destruct (find_idx _ its) as [i|] eqn:Hi; cbn [fmap option_fmap option_map mbind option_bind]; [|done].
  assert (Hlt : (i < length its)%nat) by (apply find_idx_Some in Hi as (x & Hx%lookup_lt_Some & _); done).
  rewrite Hp. cbn [mbind option_bind]. rewrite Hl. cbn [mbind option_bind Nat.add]. eexists _, _. split; [done|]. split; [|done]. split; cbn.
  - eexists _, _. split; [done|]. split; [apply (lookup_insert_eq (M := gmap loc))|]. split; [rewrite !length_app, length_take, !length_drop, length_take; lia|].
    rewrite app_assoc, take_app_le by (rewrite length_app, length_take, length_drop, length_take; lia).
    rewrite take_ge by (rewrite length_app, length_take, length_drop, length_take; lia).
    replace (take i l) with (take i (take (line_item_count o) l)) by (rewrite take_take; f_equal; lia). rewrite Ht, delete_take_drop, fmap_app, fmap_take, fmap_drop. done.
  - rewrite length_delete by (apply lookup_lt_is_Some_2; lia). lia.
  - lia.
Qed.
(** The total is the sum over the items, in their order. *)
Definition sum_of (its : list (OrderLineValueObject D)) (acc : D) : D := foldl (fun acc l => add acc (mul (amount (unit_price l)) (of_Z (quantity l)))) acc its.
Definition currency_of (its : list (OrderLineValueObject D)) : list Z := match its with [] => str_bytes "USD" | l :: _ => truncated 8 (currency (unit_price l)) end.
Lemma sum_lines_spec h o its : owns h o its -> forall rounds i acc, (i + rounds = length its)%nat -> sum_lines h o i rounds acc = Some (sum_of (drop i its) acc).
Proof.
  intros Ho. induction rounds as [|rounds IH]; intros i acc Hi; cbn [sum_lines]; [by rewrite drop_ge by lia|].
  rewrite (owns_read _ _ _ i Ho). destruct (Nat.ltb_spec i (length its)) as [Hlt|]; [|lia]. destruct (lookup_lt_is_Some_2 its i Hlt) as [x Hx]. rewrite Hx. cbn [mbind option_bind].
  rewrite IH by lia. by rewrite (drop_S its x i Hx).
Qed.
Lemma total_spec h o its : owns h o its -> order_aggregate_calculate_total o h = Some (mk_money (sum_of its (of_Z 0)) (currency_of its)).
Proof.
  intros Ho. unfold order_aggregate_calculate_total. rewrite (ow_count _ _ _ Ho). destruct its as [|x its]; cbn [length Nat.ltb Nat.leb].
  - done.
  - rewrite (owns_read _ _ _ 0 Ho). cbn [length Nat.ltb Nat.leb lookup list_lookup mbind option_bind]. rewrite (sum_lines_spec h o (x :: its) Ho _ 0) by (cbn; lia). done.
Qed.

Inductive edit := Add (pid : EntityId) (nm : list Z) (q : Z) (price : D) (cur : list Z) | Remove (pid : EntityId).
Definition edit_order (s : option (OrderAggregate D * heap D)) (e : edit) : option (OrderAggregate D * heap D) :=
  '(o, h) ← s;
  match e with
  | Add pid nm q price cur => '(_, o, h) ← order_aggregate_add_line_item alloc o pid nm q price cur h; Some (o, h)
  | Remove pid => '(_, o, h) ← order_aggregate_remove_line_item o pid h; Some (o, h)
  end.
Definition edit_items (its : list (OrderLineValueObject D)) (e : edit) : list (OrderLineValueObject D) :=
  match e with Add pid nm q price cur => its ++ [line pid nm q price cur] | Remove pid => default its (remove_first pid its) end.
Lemma create_owns n r cust h : let '(o, _, h') := order_aggregate_create alloc n r cust h in owns h' o [] /\ status o = ORDER_STATUS_DRAFT.
Proof.
  cbn. split; [|done]. split; cbn; [|done|lia]. eexists _, _. split; [done|]. split; [apply (lookup_insert_eq (M := gmap loc))|]. done.
Qed.
(** A new order can be edited without touching memory that is not its own, its items are those
    added and not removed, in their order, and once it is placed its total is their sum. *)
Theorem order_refines_list n r cust h edits shipping billing : let its := foldl edit_items [] edits in let '(o0, _, h0) := order_aggregate_create alloc n r cust h in
  exists o h', foldl edit_order (Some (o0, h0)) edits = Some (o, h') /\ owns h' o its /\
    order_aggregate_place o shipping billing h' = Some (if bool_decide (its = []) then (refused "Cannot place an empty order", o)
      else (ok, with_addresses (with_status o ORDER_STATUS_PLACED) shipping billing (mk_money (sum_of its (of_Z 0)) (currency_of its)))).
Proof using Halloc.
  cbn zeta. pose proof (create_owns n r cust h) as Hc. destruct (order_aggregate_create alloc n r cust h) as [[o0 n'] h0].
  assert (exists o h', foldl edit_order (Some (o0, h0)) edits = Some (o, h') /\ owns h' o (foldl edit_items [] edits) /\ status o = ORDER_STATUS_DRAFT) as (o & h' & -> & Ho & Hs).
  { induction edits as [|e edits IH] using rev_ind; [by exists o0, h0|]. rewrite !foldl_app. destruct IH as (o & h' & -> & Ho & Hs). cbn [foldl edit_order mbind option_bind]. destruct e as [pid nm q price cur|pid]; cbn [edit_items].
    - destruct (add_line_spec h' o _ pid nm q price cur Ho Hs) as (o1 & h1 & -> & Ho1 & Hs1). by exists o1, h1.
    - pose proof (remove_line_spec h' o _ pid Ho Hs) as Hr. destruct (remove_first pid _) as [its'|]; cbn [default].
      + destruct Hr as (o1 & h1 & -> & Ho1 & Hs1). by exists o1, h1.
      + rewrite Hr. by exists o, h'. }
  exists o, h'. split; [done|]. split; [done|]. unfold order_aggregate_place. rewrite bool_decide_eq_false_2 by (rewrite Hs; tauto). pose proof (ow_count _ _ _ Ho) as Hn.
  destruct (Nat.eqb_spec (line_item_count o) 0) as [E|E]; case_bool_decide as Hi.
  - done.
  - rewrite E in Hn. by destruct (foldl edit_items [] edits).
  - rewrite Hi in Hn. done.
  - assert (Ho' : owns h' (with_status o ORDER_STATUS_PLACED) (foldl edit_items [] edits)) by (destruct Ho; by split). by rewrite (total_spec _ _ _ Ho').
Qed.

(** ** Orders in the repository share their items *)

Lemma order_idx_app repo (o : OrderAggregate D) : order_idx repo (root_id o) = None -> order_idx (repo ++ [o]) (root_id o) = Some (length repo).
Proof.
  intros Hn. unfold order_idx in *. rewrite find_idx_None in Hn. apply find_idx_Some. exists o. split; [by rewrite lookup_app_r, Nat.sub_diag|]. split; [by apply bool_decide_eq_true|].
  intros j y Hj Hlt. rewrite lookup_app_l in Hj by done. apply Hn. by eapply list_elem_of_lookup_2.
Qed.
(** Saving an order a second time frees the items that it and the repository share: using or
    saving it again is undefined. *)
Theorem resaved_order_dangles repo (o : OrderAggregate D) h p l : order_idx repo (root_id o) = None -> line_items o = Some p -> h !! p = Some l -> (0 < line_item_count o)%nat ->
  exists repo1 repo2 h2, inmem_order_save repo o h = Some (ok, repo1, h) /\ inmem_order_save repo1 o h = Some (ok, repo2, h2) /\
    order_aggregate_calculate_total o h2 = None /\ inmem_order_save repo2 o h2 = None /\ inmem_order_destroy repo2 h2 = None.
Proof using.
  intros Hidx Hp Hl Hc. unfold inmem_order_save at 1. rewrite Hidx. exists (repo ++ [o]), (repo ++ [o]), (delete p h). split; [done|].
  assert (Hd : forall h : heap D, order_aggregate_destroy o h = match h !! p with Some _ => Some (with_lines o None 0 0, delete p h) | None => None end).
  { intros h'. unfold order_aggregate_destroy, free_lines. rewrite Hp. by destruct (h' !! p). }
  assert (Hs : forall h : heap D, inmem_order_save (repo ++ [o]) o h = match h !! p with Some _ => Some (ok, repo ++ [o], delete p h) | None => None end).
  { intros h'. unfold inmem_order_save. rewrite (order_idx_app repo o Hidx).
    replace ((repo ++ [o]) !! length repo) with (Some o) by (symmetry; apply list_lookup_middle; done). cbn [mbind option_bind].
    rewrite Hd. destruct (h' !! p); [|done]. cbn. do 3 f_equal. exact (list_insert_id (repo ++ [o]) (length repo) o (list_lookup_middle repo [] o _ eq_refl)). }
  assert (Hd0 : delete p h !! p = None) by apply (lookup_delete_eq (M := gmap loc)).
  rewrite !Hs, Hl, Hd0. split; [done|]. split; [|split; [done|]].
  - unfold order_aggregate_calculate_total. destruct (Nat.ltb_spec 0 (line_item_count o)); [|lia]. unfold read_line, lines_of. rewrite Hp. cbn. by rewrite Hd0.
  - unfold inmem_order_destroy. rewrite foldl_app. cbn [foldl].
    assert (Hgone : forall (rs : InMemoryOrderRepo D) s, (forall h, s = Some h -> h !! p = None) ->
      forall h, foldl (fun h o => h ← h; '(_, h) ← order_aggregate_destroy o h; Some h) s rs = Some h -> h !! p = None).
    { induction rs as [|r rs IH]; intros s Hs0; [done|]. cbn [foldl]. apply IH. intros h1. destruct s as [h0|]; [|done]. pose proof (Hs0 h0 eq_refl) as Hs1. cbn [mbind option_bind]. unfold order_aggregate_destroy, free_lines.
      clear IH Hs0. destruct (line_items r) as [q|]; cbn; [|congruence]. destruct (h0 !! q); [|done]. cbn. intros E0. injection E0 as <-. by apply (lookup_delete_None (M := gmap loc)); right. }
    destruct (foldl _ _ repo) as [h1|] eqn:E; [|done]. cbn [mbind option_bind]. rewrite Hd. rewrite (Hgone repo (Some (delete p h)) ltac:(intros h0 E0; injection E0 as <-; exact Hd0) _ E). done.
Qed.
End theorems.

(** ** At work *)

Definition any_loc (h : heap Q) : loc := fresh (dom (h : gmap loc (list (option (OrderLineValueObject Q))))).
Lemma any_loc_ok h : h !! any_loc h = None.
Proof. apply (not_elem_of_dom (M := gmap loc)). unfold any_loc. apply is_fresh. Qed.
Definition pen : list Z := str_bytes "pen".
Definition edits : list (edit (D := Q)) := [Add pen pen 2 (3 # 2)%Q (str_bytes "EUR"); Add [98] [98] 1 4%Q (str_bytes "EUR"); Remove pen].
Definition home : AddressValueObject := mk_address [115] [99] [112] [100].
Definition new_order : OrderAggregate Q * Z * heap Q := order_aggregate_create any_loc 0 7 [50] ∅.
Definition order_1 : OrderAggregate Q * heap Q := default (new_order.1.1, new_order.2) (foldl (edit_order any_loc) (Some (new_order.1.1, new_order.2)) edits).
Lemma order_refines_list_witness : let its := foldl edit_items [] edits in let '(o0, _, h0) := order_aggregate_create any_loc 0 7 [50] ∅ in
  exists o h', foldl (edit_order any_loc) (Some (o0, h0)) edits = Some (o, h') /\ owns h' o its /\
    order_aggregate_place o home home h' = Some (if bool_decide (its = []) then (refused "Cannot place an empty order", o)
      else (ok, with_addresses (with_status o ORDER_STATUS_PLACED) home home (mk_money (sum_of its (of_Z 0)) (currency_of its)))).
Proof. refine (order_refines_list any_loc any_loc_ok 0 7 [50] ∅ edits home home). Defined.
Lemma resaved_order_dangles_witness : exists repo1 repo2 h2, inmem_order_save [] order_1.1 order_1.2 = Some (ok, repo1, order_1.2) /\ inmem_order_save repo1 order_1.1 order_1.2 = Some (ok, repo2, h2) /\
  order_aggregate_calculate_total order_1.1 h2 = None /\ inmem_order_save repo2 order_1.1 h2 = None /\ inmem_order_destroy repo2 h2 = None.
Proof.
  refine (resaved_order_dangles [] order_1.1 order_1.2 1%positive (default [] (order_1.2 !! 1%positive)) _ _ _ _); vm_compute; repeat constructor.
Defined.
(** Placing an order with the service and cancelling it saves it twice. *)
Example cancelled_order_dangles :
  match order_domain_service_place_order [] order_1.1 order_1.2 with
  | Some (_, svc, h) =>
      match order_domain_service_cancel_order svc order_1.1 h with
      | Some (_, o, svc, h) => order_aggregate_calculate_total o h = None /\ inmem_order_destroy svc h = None
      | None => False
      end
  | None => False
  end.
Proof. by vm_compute. Qed.
(** The service saves an order as it is: it stays a draft that can still be edited. *)
Example service_does_not_place : match order_domain_service_place_order [] order_1.1 order_1.2 with Some (r, svc, _) => r = ok /\ (status <$> svc) = [ORDER_STATUS_DRAFT] | None => False end.
Proof. by vm_compute. Qed.
(** An order that was shipped, or cancelled before, can be cancelled. *)
Example cancelled_after_shipping : (order_aggregate_cancel (with_status order_1.1 ORDER_STATUS_SHIPPED)).1 = ok /\ (order_aggregate_cancel (with_status order_1.1 ORDER_STATUS_CANCELLED)).1 = ok.
Proof. done. Qed.
