(* ===== verification/Cqrs.v ===== *)
(** Model of [mini-business-arch/src/cqrs_es.c]: events and their store, the buses for commands
    and queries, projections, the view of the orders and snapshots; and the theorems on it.

    The handlers that are registered are functions on a world [W], which stands for whatever
    their contexts point to.  The store is shared by the command bus and the projections: it is
    passed on.  The payload of an event may contain zero bytes, its length is [payload_size].
    [malloc] succeeds; arrays that grow are lists. *)

From S2P Require Import Prelude Bytes DddModel.
#[local] Open Scope Z_scope.

Definition CQRS_EVENT_TYPE_LEN : nat := 128.
Definition CQRS_PAYLOAD_LEN : nat := 4096.
Record EventStoreEvent := mk_event { sequence : Z; aggregate_id : EntityId; aggregate_version : Z; event_type : list Z; payload : list Z; timestamp : Z }.
Definition payload_size (e : EventStoreEvent) : nat := length (payload e).
Record EventStream := mk_stream { s_aggregate_id : EntityId; current_version : Z; events : list EventStoreEvent }.
Record EventStore := mk_store { global_sequence : Z }.
Record Command := mk_command { command_type : list Z; target_aggregate_id : EntityId; c_payload : list Z }.
Record Query := mk_query { query_type : list Z; q_payload : list Z }.
Record OrderReadModel := mk_read { order_id : EntityId; r_status : OrderStatus; created_at : Z; updated_at : Z }.

(** ** Events and their store *)

(** [strncpy] and the terminator. *)
Definition event_make (ty : list Z) (id : EntityId) (version : Z) (p : list Z) (now : Z) : EventStoreEvent :=
  mk_event 0 id version (truncated CQRS_EVENT_TYPE_LEN ty) (if (length p <? CQRS_PAYLOAD_LEN)%nat then p else take (CQRS_PAYLOAD_LEN - 1) p) now.
Definition event_make_json (ty : list Z) (id : EntityId) (version : Z) (json : list Z) (now : Z) : EventStoreEvent := event_make ty id version json now.
Definition event_type_string (e : EventStoreEvent) : list Z := event_type e.
Definition event_payload_string (e : EventStoreEvent) : list Z := cstr (payload e).
Definition event_sequence (e : EventStoreEvent) : Z := sequence e.
Definition event_is_type (e : EventStoreEvent) (ty : list Z) : bool := bool_decide (event_type e = ty).
Definition with_sequence (e : EventStoreEvent) (n : Z) : EventStoreEvent := mk_event n (aggregate_id e) (aggregate_version e) (event_type e) (payload e) (timestamp e).

Definition event_store_create : EventStore := mk_store 0.
(** The events get their numbers; the store keeps only the number of the last one. *)
Fixpoint event_store_append (s : EventStore) (es : list EventStoreEvent) : list EventStoreEvent * EventStore :=
  match es with
  | [] => ([], s)
  | e :: es => let n := u64 (global_sequence s + 1) in let '(es, s) := event_store_append (mk_store n) es in (with_sequence e n :: es, s)
  end.
Definition event_store_load_stream (s : EventStore) (id : EntityId) : EventStream := mk_stream id 0 [].
Definition event_store_load_since (s : EventStore) (id : EntityId) (since_version : Z) : EventStream := event_store_load_stream s id.
(** The null pointer is [None]. *)
Definition event_store_get_events_since (s : EventStore) (since : Z) : option (list EventStoreEvent) * nat := (None, 0%nat).

(** ** Commands and queries *)

Section buses.
Context {W : Type}.
Definition CommandFun : Type := Command -> W -> Z * list EventStoreEvent * W.
Definition QueryFun : Type := Query -> W -> option (list Z) * W.
Record CommandHandler := mk_handler { h_type : list Z; handler : CommandFun }.
Record QueryHandler := mk_query_handler { qh_type : list Z; q_handler : QueryFun }.

Definition command_bus_create : list CommandHandler := [].
Definition command_bus_register_handler (bus : list CommandHandler) (ty : list Z) (h : CommandFun) : Z * list CommandHandler :=
  (0, bus ++ [mk_handler (truncated DDD_NAME_LEN ty) h]).
Record dispatched := mk_dispatched { d_result : Z; d_count : option nat; d_events : list EventStoreEvent; d_store : EventStore; d_world : W }.
(** [d_events] is the local array after the call; [d_count] is [None] when the count of the
    caller is not written. *)
Fixpoint command_bus_dispatch (bus : list CommandHandler) (cmd : Command) (s : EventStore) (w : W) : dispatched :=
  match bus with
  | [] => mk_dispatched (-1) None [] s w
  | h :: bus =>
      if bool_decide (h_type h = command_type cmd) then
        let '(result, es, w) := handler h cmd w in
        let '(es', s) := if (result =? 0) && (0 <? length es)%nat then event_store_append s es else (es, s) in
        mk_dispatched result (Some (length es)) es' s w
      else command_bus_dispatch bus cmd s w
  end.
Definition query_bus_create : list QueryHandler := [].
Definition query_bus_register_handler (bus : list QueryHandler) (ty : list Z) (h : QueryFun) : Z * list QueryHandler :=
  (0, bus ++ [mk_query_handler (truncated DDD_NAME_LEN ty) h]).
Fixpoint query_bus_dispatch (bus : list QueryHandler) (q : Query) (w : W) : option (list Z) * W :=
  match bus with
  | [] => (None, w)
  | h :: bus => if bool_decide (qh_type h = query_type q) then q_handler h q w else query_bus_dispatch bus q w
  end.

(** ** Projections *)

Record Projection := mk_projection { projection_name : list Z; event_handler : EventStoreEvent -> W -> W; is_active : bool }.
Record ProjectionEngine := mk_engine { projections : list Projection; last_sequence_processed : Z }.
Definition projection_engine_create : ProjectionEngine := mk_engine [] 0.
Definition projection_engine_register (g : ProjectionEngine) (name : list Z) (h : EventStoreEvent -> W -> W) : Z * ProjectionEngine :=
  (0, mk_engine (projections g ++ [mk_projection (truncated DDD_NAME_LEN name) h true]) (last_sequence_processed g)).
Definition project (ps : list Projection) (w : W) (e : EventStoreEvent) : W := foldl (fun w p => if is_active p then event_handler p e w else w) w ps.
Definition projection_engine_replay_events (g : ProjectionEngine) (s : EventStore) (id : EntityId) (w : W) : Z * W :=
  (0, foldl (project (projections g)) w (events (event_store_load_stream s id))).
Definition projection_engine_poll (g : ProjectionEngine) (s : EventStore) (w : W) : Z * ProjectionEngine * W :=
  let '(es, count) := event_store_get_events_since s (last_sequence_processed g) in
  match es with
  | Some es =>
      let es := take count es in
      (Z.of_nat count, mk_engine (projections g) (foldl (fun _ e => sequence e) (last_sequence_processed g) es), foldl (project (projections g)) w es)
  | None => (Z.of_nat count, g, w)
  end.

(** ** Aggregates from events *)

Record EventSourcedSnapshot := mk_snapshot { sn_aggregate_id : EntityId; snapshot_data : list Z; version : Z }.
Definition event_sourced_rebuild (s : EventStore) (id : EntityId) (apply : W -> EventStoreEvent -> W) (w : W) : Z * W :=
  (0, foldl apply w (events (event_store_load_stream s id))).
Definition event_sourced_save_snapshot (id : EntityId) (data : list Z) (v : Z) : Z * EventSourcedSnapshot := (0, mk_snapshot id data v).
Definition event_sourced_load_from_snapshot (s : EventStore) (id : EntityId) (snap : EventSourcedSnapshot) (apply_snapshot : W -> EventSourcedSnapshot -> W)
    (apply_event : W -> EventStoreEvent -> W) (w : W) : Z * W :=
  let w := apply_snapshot w snap in
  (0, foldl apply_event w (events (event_store_load_since s id (u64 (version snap + 1))))).
End buses.
#[global] Arguments CommandHandler : clear implicits.
#[global] Arguments QueryHandler : clear implicits.
#[global] Arguments ProjectionEngine : clear implicits.
#[global] Arguments dispatched : clear implicits.

(** ** The view of the orders, and the handlers *)

Definition order_list_view_create : list OrderReadModel := [].
Definition order_list_view_projection (view : list OrderReadModel) (e : EventStoreEvent) : list OrderReadModel :=
  if negb (event_is_type e (str_bytes "OrderCreated")) then view
  else view ++ [mk_read (aggregate_id e) ORDER_STATUS_PLACED (timestamp e) (timestamp e)].
Definition order_list_view_find (view : list OrderReadModel) (id : EntityId) : option OrderReadModel :=
  find_idx (fun m => entity_id_equals (order_id m) id) view ≫= fun i => view !! i.

Section handlers.
Context {W : Type} (time : W -> Z).
Definition one_event (ty : string) (v : Z) : CommandFun :=
  fun cmd (w : W) => (0, [event_make_json (str_bytes ty) (target_aggregate_id cmd) v (c_payload cmd) (time w)], w).
Definition command_place_order_handler : CommandFun := one_event "OrderPlaced" 1.
Definition command_cancel_order_handler : CommandFun := one_event "OrderCancelled" 1.
Definition command_ship_order_handler : CommandFun := one_event "OrderShipped" 2.
Definition quoted (s : list Z) : list Z := [34] ++ s ++ [34].
Definition query_order_detail_handler (q : Query) (w : W) : option (list Z) * W :=
  (Some (truncated CQRS_PAYLOAD_LEN (str_bytes "{" ++ quoted (str_bytes "order_id") ++ str_bytes ":" ++ quoted (q_payload q) ++ str_bytes "," ++
    quoted (str_bytes "status") ++ str_bytes ":" ++ quoted (str_bytes "PLACED") ++ str_bytes "," ++ quoted (str_bytes "total") ++ str_bytes ":99.99}")), w).
Definition query_orders_by_customer_handler (q : Query) (w : W) : option (list Z) * W :=
  (Some (truncated CQRS_PAYLOAD_LEN (str_bytes "{" ++ quoted (str_bytes "customer_id") ++ str_bytes ":" ++ quoted (q_payload q) ++ str_bytes "," ++
    quoted (str_bytes "orders") ++ str_bytes ":[]}")), w).
End handlers.

#[local] Coercion Z.of_nat : nat >-> Z.

(** ** The numbers of the events *)

Lemma append_spec es : forall s, 0 <= global_sequence s -> global_sequence s + Z.of_nat (length es) < 2 ^ 64 ->
  let '(es', s') := event_store_append s es in
  es' = zip_with with_sequence es (seqZ (global_sequence s + 1) (length es)) /\ sequence <$> es' = seqZ (global_sequence s + 1) (length es) /\ global_sequence s' = global_sequence s + length es.
Proof.
  induction es as [|e es IH]; intros [g] H0 Hb; cbn [event_store_append length global_sequence] in *; [cbn; repeat split; lia|].
  unfold u64. rewrite Z.mod_small by lia. specialize (IH (mk_store (g + 1))). cbn [global_sequence] in IH. destruct (event_store_append _ es) as [es' s'].
  destruct IH as (-> & Hs & Hg); [lia..|]. rewrite (seqZ_cons (g + 1) (S (length es))) by lia.
  replace (Z.succ (g + 1)) with (g + 1 + 1) by lia. replace (Z.pred (S (length es))) with (Z.of_nat (length es)) by lia. cbn. rewrite Hs, Hg. repeat split. lia.
Qed.
Lemma append_length es : forall s, length (event_store_append s es).1 = length es.
Proof. induction es as [|e es IH]; intros s; [done|]. cbn [event_store_append]. specialize (IH (mk_store (u64 (global_sequence s + 1)))). destruct (event_store_append _ es). cbn in *. lia. Qed.

Section commands.
Context {W : Type}.
(** The events that a dispatch gives to the store. *)
Definition appended (r : dispatched W) : list EventStoreEvent := if d_result r =? 0 then d_events r else [].
Lemma dispatch_numbers (bus : list (CommandHandler W)) c s w : let r := command_bus_dispatch bus c s w in
  0 <= global_sequence s -> global_sequence s + Z.of_nat (length (appended r)) < 2 ^ 64 ->
  sequence <$> appended r = seqZ (global_sequence s + 1) (length (appended r)) /\ global_sequence (d_store r) = global_sequence s + length (appended r).
Proof.
  cbn zeta. induction bus as [|h bus IH]; cbn [command_bus_dispatch]; intros H0 Hb; [cbn; split; [done|lia]|]. destruct (bool_decide _); [|by apply IH].
  destruct (handler h c w) as [[result es] w']. pose proof (append_length es s) as Hlen. pose proof (append_spec es s H0) as Ha.
  destruct (Z.eqb_spec result 0) as [->|E]; cbn [andb].
  - destruct es as [|e es]; [cbn; split; [done|lia]|]. change (0 <? length (e :: es))%nat with true in *. cbn iota in *.
    destruct (event_store_append s (e :: es)) as [es' s']. unfold appended in *. cbn [fst andb d_result d_events d_store Z.eqb] in *. rewrite Hlen in *. destruct (Ha Hb) as (_ & Hs & Hg). done.
  - unfold appended. cbn [d_result d_events d_store]. rewrite (proj2 (Z.eqb_neq _ _) E). cbn. split; [done|lia].
Qed.
Fixpoint run_commands (bus : list (CommandHandler W)) (cmds : list Command) (s : EventStore) (w : W) : list EventStoreEvent * EventStore :=
  match cmds with
  | [] => ([], s)
  | c :: cmds => let r := command_bus_dispatch bus c s w in let '(es, s) := run_commands bus cmds (d_store r) (d_world r) in (appended r ++ es, s)
  end.
Lemma run_numbers bus cmds : forall s w, let '(es, s') := run_commands bus cmds s w in
  0 <= global_sequence s -> global_sequence s + Z.of_nat (length es) < 2 ^ 64 -> sequence <$> es = seqZ (global_sequence s + 1) (length es) /\ global_sequence s' = global_sequence s + length es.
Proof.
  induction cmds as [|c cmds IH]; intros s w; cbn [run_commands]; [cbn; split; [done|lia]|]. set (r := command_bus_dispatch bus c s w). specialize (IH (d_store r) (d_world r)).
  destruct (run_commands bus cmds _ _) as [es s']. intros H0 Hb. rewrite length_app in Hb. destruct (dispatch_numbers bus c s w H0) as [Hr1 Hr2]; [fold r; lia|]. fold r in Hr1, Hr2.
  destruct IH as [He Hs]; [lia..|]. rewrite fmap_app, Hr1, He, Hr2, length_app, Hs, Hr2. split; [|lia].
  rewrite Nat2Z.inj_add, seqZ_app by lia. do 2 f_equal. lia.
Qed.
(** However many commands are dispatched, the events that their handlers made are numbered 1,
    2, 3, … in the order they were made, and the store has the number of the last one. *)
Theorem event_numbers_consecutive bus cmds w : let '(es, s) := run_commands bus cmds event_store_create w in
  Z.of_nat (length es) < 2 ^ 64 -> sequence <$> es = seqZ 1 (length es) /\ global_sequence s = length es.
Proof. pose proof (run_numbers bus cmds event_store_create w) as Hr. destruct (run_commands _ _ _ _). intros Hb. apply Hr; [done|exact Hb]. Qed.

(** The handler called is the first one that was registered for the type, cut at 127 bytes. *)
Definition for_type (ty : list Z) (regs : list (list Z * CommandFun (W := W))) : option (CommandFun (W := W)) :=
  snd <$> (find_idx (fun r => bool_decide (truncated DDD_NAME_LEN r.1 = ty)) regs ≫= fun i => regs !! i).
Definition register_all (regs : list (list Z * CommandFun (W := W))) : list (CommandHandler W) :=
  foldl (fun bus r => (command_bus_register_handler bus r.1 r.2).2) command_bus_create regs.
Lemma register_all_map regs : register_all regs = (fun r => mk_handler (truncated DDD_NAME_LEN r.1) r.2) <$> regs.
Proof. unfold register_all. induction regs as [|r regs IH] using rev_ind; [done|]. by rewrite foldl_app, IH, fmap_app. Qed.
Theorem command_bus_dispatch_correct regs cmd s w : command_bus_dispatch (register_all regs) cmd s w =
  match for_type (command_type cmd) regs with
  | Some h => let '(result, es, w) := h cmd w in
      let '(es', s') := if bool_decide (result = 0) then event_store_append s es else (es, s) in mk_dispatched result (Some (length es)) es' s' w
  | None => mk_dispatched (-1) None [] s w
  end.
Proof.
  rewrite register_all_map. unfold for_type. induction regs as [|[ty h] regs IH]; [done|]. cbn [fmap list_fmap command_bus_dispatch find_idx h_type fst handler].
  destruct (bool_decide (_ = command_type cmd)); cbn.
  - destruct (h cmd w) as [[result es] w']. destruct (Z.eqb_spec result 0); [rewrite bool_decide_eq_true_2 by done|by rewrite bool_decide_eq_false_2 by done]. by destruct es.
  - change (fmap _ regs) with ((fun r : list Z * CommandFun => mk_handler (truncated DDD_NAME_LEN r.1) r.2) <$> regs). rewrite IH. by destruct (find_idx _ regs).
Qed.

(** ** No event is ever delivered *)

(** The store forgets the events: whatever commands were dispatched, polling and replaying
    call no projection, and an aggregate that is rebuilt sees none of them. *)
Theorem events_never_delivered bus cmds w0 (g : ProjectionEngine W) id apply apply_snapshot snap (w : W) : let s := (run_commands bus cmds event_store_create w0).2 in
  projection_engine_poll g s w = (0, g, w) /\ projection_engine_replay_events g s id w = (0, w) /\ event_sourced_rebuild s id apply w = (0, w) /\
  event_sourced_load_from_snapshot s id snap apply_snapshot apply w = (0, apply_snapshot w snap).
Proof. done. Qed.

(** ** The view *)

Definition created (es : list EventStoreEvent) : list EventStoreEvent := filter (fun e => event_type e = str_bytes "OrderCreated") es.
Definition read_model (e : EventStoreEvent) : OrderReadModel := mk_read (aggregate_id e) ORDER_STATUS_PLACED (timestamp e) (timestamp e).
Lemma view_spec es : foldl order_list_view_projection order_list_view_create es = read_model <$> created es.
Proof.
  unfold created. induction es as [|e es IH] using rev_ind; [done|]. rewrite foldl_app, IH, filter_app, fmap_app. cbn [foldl]. unfold order_list_view_projection, event_is_type.
  rewrite filter_cons, filter_nil. case_bool_decide; [by rewrite decide_True by done|]. rewrite decide_False by done. by rewrite app_nil_r.
Qed.
(** The view has the orders of the creating events, in their order, and finds the first one of
    an identifier. *)
Theorem order_list_view_correct es id : let view := foldl order_list_view_projection order_list_view_create es in
  view = read_model <$> created es /\ order_list_view_find view id = read_model <$> (find_idx (fun e => bool_decide (aggregate_id e = id)) (created es) ≫= fun i => created es !! i).
Proof.
  cbn zeta. rewrite view_spec. split; [done|]. unfold order_list_view_find. induction (created es) as [|e l IH]; [done|]. cbn [fmap list_fmap find_idx order_id read_model]. unfold entity_id_equals at 1.
  destruct (bool_decide _); [done|]. change (list_fmap _ _ _ l) with (read_model <$> l). destruct (find_idx _ (read_model <$> l)), (find_idx _ l); cbn in *; done.
Qed.
(** The events of the handlers never reach the view: none of them is of the type it waits for. *)
Theorem view_ignores_handlers (time : W -> Z) cmd (w : W) view :
  Forall (fun h : CommandFun => foldl order_list_view_projection view (h cmd w).1.2 = view) [command_place_order_handler time; command_cancel_order_handler time; command_ship_order_handler time].
Proof. repeat constructor. Qed.
End commands.

(** ** At work *)

Definition shop : list (CommandHandler Z) := register_all [(str_bytes "PlaceOrder", command_place_order_handler (fun w => w)); (str_bytes "ShipOrder", command_ship_order_handler (fun w => w))].
Definition place_1 : Command := mk_command (str_bytes "PlaceOrder") [49] (str_bytes "{}").
Example commands_numbered : let '(es, s) := run_commands shop [place_1; mk_command (str_bytes "Unknown") [49] []; mk_command (str_bytes "ShipOrder") [49] []] event_store_create 5 in
  (event_sequence <$> es) = [1; 2] /\ (event_type_string <$> es) = [str_bytes "OrderPlaced"; str_bytes "OrderShipped"] /\ global_sequence s = 2.
Proof. by vm_compute. Qed.
(** A query's text is not escaped: it can close the string and add members. *)
Example query_injects : (query_order_detail_handler (mk_query [] ([49; 34; 44; 34; 120; 34; 58; 34; 49])) tt).1 =
  Some (str_bytes "{" ++ quoted (str_bytes "order_id") ++ str_bytes ":" ++ quoted [49] ++ str_bytes "," ++ quoted [120] ++ str_bytes ":" ++ quoted [49] ++ str_bytes "," ++
    quoted (str_bytes "status") ++ str_bytes ":" ++ quoted (str_bytes "PLACED") ++ str_bytes "," ++ quoted (str_bytes "total") ++ str_bytes ":99.99}").
Proof. done. Qed.
Lemma event_numbers_consecutive_witness : let '(es, s) := run_commands shop [place_1; place_1] event_store_create 5 in sequence <$> es = seqZ 1 (length es) /\ global_sequence s = length es.
Proof. refine (event_numbers_consecutive shop [place_1; place_1] 5 _). by vm_compute. Defined.
