(* ===== verification/Pool.v ===== *)
(** Model of [mini-backend-framework/src/pool.c], a pool of resources that are created, lent
    out, given back and destroyed by functions of the user; and the theorems on it.

    [calls] is the history of the calls that the pool made, the last one first; what [create_fn]
    and [validate_fn] answer and what the clock shows are arbitrary functions of it.  The pool
    has no lock and no condition: nothing but time and the history changes while it sleeps.
    [slots] are the slots up to the capacity, the others are never used.  Counters do not
    overflow. *)

From Stdlib Require Import QArith.
From S2P Require Import Prelude Bytes Arith.
#[local] Open Scope Z_scope.

Definition POOL_MAX_RESOURCES : Z := 128.
Definition POOL_MAX_URL : nat := 256.
(** The pointer to a resource. *)
Definition resource_ptr := positive.
Record timespec := mk_timespec { tv_sec : Z; tv_nsec : Z }.
Record PoolSlot := mk_slot { resource : option resource_ptr; in_use : bool; last_used : timespec; use_count : Z }.
(** Calls of the functions of the user, with their result, and of [nanosleep]. *)
Inductive call := Created (url : list Z) (r : option resource_ptr) | Validated (r : resource_ptr) (b : bool) | Destroyed (r : resource_ptr) | Slept (ms : Z).
(** [create_fn] and the like: whether the pointer is set. *)
Record Pool := mk_pool {
  slots : list PoolSlot; in_use_count : Z; idle_count : Z; url : list Z; create_fn : bool; destroy_fn : bool; validate_fn : bool; idle_timeout_sec : Z;
  total_acquired : Z; total_released : Z; total_timeouts : Z; total_failures : Z; initialized : bool; calls : list call;
}.
Definition capacity (p : Pool) : nat := length (slots p).
Definition empty_slot : PoolSlot := mk_slot None false (mk_timespec 0 0) 0.
Definition slot (p : Pool) (i : nat) : PoolSlot := default empty_slot (slots p !! i).
Definition set_slot (i : nat) (f : PoolSlot -> PoolSlot) (p : Pool) : Pool := p <| slots ::= alter f i |>.
Definition called (c : call) (p : Pool) : Pool := p <| calls ::= cons c |>.

Definition pool_init (cap idle_timeout : Z) (u : option (list Z)) (create destroy validate : bool) (p : Pool) : Pool :=
  let cap := if 0 <? cap then if cap <? POOL_MAX_RESOURCES then cap else POOL_MAX_RESOURCES else 8 in
  mk_pool (replicate (Z.to_nat cap) empty_slot) 0 0 (truncated POOL_MAX_URL (default [] u)) create destroy validate idle_timeout 0 0 0 0 true (calls p).

Section pool.
Context {D : Type} `{HA : Arith D} (create : list call -> option resource_ptr) (validate : list call -> resource_ptr -> bool) (clock : list call -> timespec).

Definition seconds_since (t now : timespec) : D := add (of_Z (tv_sec now - tv_sec t)) (div (of_Z (tv_nsec now - tv_nsec t)) (of_Z 1000000000)).
Definition destroy_resource (r : resource_ptr) (p : Pool) : Pool := if destroy_fn p then called (Destroyed r) p else p.
Definition create_resource (p : Pool) : option resource_ptr * Pool := let r := create (calls p) in (r, called (Created (url p) r) p).
Definition sleep_ms (ms : Z) (p : Pool) : Pool := called (Slept ms) p.

(** The slot of the first idle resource that is valid; invalid ones on the way are destroyed. *)
Fixpoint find_idle (i rounds : nat) (p : Pool) : option nat * Pool :=
  match rounds with
  | O => (None, p)
  | S rounds =>
      match (if in_use (slot p i) then None else resource (slot p i)) with
      | Some r =>
          let valid := negb (validate_fn p) || validate (calls p) r in
          let p := if validate_fn p then called (Validated r valid) p else p in
          if valid then (Some i, p)
          else find_idle (S i) rounds (set_slot i (fun s => s <| resource := None |>) (destroy_resource r p) <| idle_count ::= Z.pred |>)
      | None => find_idle (S i) rounds p
      end
  end.
Definition find_or_create_slot (p : Pool) : option nat * Pool :=
  let '(i, p) := find_idle 0 (capacity p) p in
  match i with
  | Some i => (Some i, p)
  | None => (find_idx (fun s => bool_decide (resource s = None)) (slots p), p)
  end.
(** [None]: more than [fuel] rounds. *)
Fixpoint acquire_loop (fuel : nat) (timeout_ms waited poll_interval : Z) (p : Pool) : option (option resource_ptr * Pool) :=
  match fuel with
  | O => None
  | S fuel =>
      let '(idx, p) := find_or_create_slot p in
      match idx with
      | Some i =>
          let '(r, p) := match resource (slot p i) with
            | Some r => (Some r, p)
            | None => let '(r, p) := create_resource p in (r, set_slot i (fun s => s <| resource := r |>) p)
            end in
          Some match r with
          | None => (None, p <| total_failures ::= Z.succ |>)
          | Some r => (Some r, set_slot i (fun s => s <| in_use := true |> <| use_count ::= Z.succ |>) p <| in_use_count ::= Z.succ |> <| total_acquired ::= Z.succ |>)
          end
      | None =>
          if (0 <=? timeout_ms) && (timeout_ms <=? waited) then Some (None, p <| total_timeouts ::= Z.succ |>)
          else
            acquire_loop fuel timeout_ms (if 0 <=? timeout_ms then waited + poll_interval else waited) (if poll_interval <? 100 then poll_interval * 2 else poll_interval)
              (sleep_ms poll_interval p)
      end
  end.
Definition pool_acquire (fuel : nat) (timeout_ms : Z) (p : Pool) : option (option resource_ptr * Pool) :=
  if negb (initialized p) || negb (create_fn p) then Some (None, p) else acquire_loop fuel timeout_ms 0 10 p.
Definition pool_release (r : resource_ptr) (p : Pool) : Z * Pool :=
  match find_idx (fun s => bool_decide (resource s = Some r) && in_use s) (slots p) with
  | Some i => (0, set_slot i (fun s => s <| in_use := false |> <| last_used := clock (calls p) |>) p <| in_use_count ::= Z.pred |> <| idle_count ::= Z.succ |> <| total_released ::= Z.succ |>)
  | None => (-1, p)
  end.
Fixpoint sweep_from (i rounds : nat) (s : Pool * Z) : Pool * Z :=
  match rounds with
  | O => s
  | S rounds =>
      let p := s.1 in
      sweep_from (S i) rounds
        match (if in_use (slot p i) then None else resource (slot p i)) with
        | Some r =>
            if leb (of_Z (idle_timeout_sec p)) (seconds_since (last_used (slot p i)) (clock (calls p)))
            then (set_slot i (fun s => s <| resource := None |>) (destroy_resource r p) <| idle_count ::= Z.pred |>, s.2 + 1)
            else s
        | None => s
        end
  end.
Definition pool_sweep_idle (p : Pool) : Z * Pool :=
  if idle_timeout_sec p <=? 0 then (0, p) else let '(p, closed) := sweep_from 0 (capacity p) (p, 0) in (closed, p).
Definition pool_available (p : Pool) : Z := Z.of_nat (capacity p) - in_use_count p.
Definition pool_in_use (p : Pool) : Z := in_use_count p.
Definition pool_capacity (p : Pool) : Z := Z.of_nat (capacity p).
Fixpoint prewarm_from (min_idle : Z) (i rounds : nat) (s : Pool * Z) : Pool * Z :=
  match rounds with
  | O => s
  | S rounds =>
      if s.2 <? min_idle then
        prewarm_from min_idle (S i) rounds
          match resource (slot s.1 i) with
          | Some _ => s
          | None =>
              let '(r, p) := create_resource s.1 in
              match r with
              | Some _ => (set_slot i (fun s => s <| resource := r |> <| in_use := false |> <| last_used := clock (calls p) |>) p <| idle_count ::= Z.succ |>, s.2 + 1)
              | None => (p, s.2)
              end
          end
      else s
  end.
Definition pool_prewarm (min_idle : Z) (p : Pool) : Z * Pool :=
  if negb (create_fn p) then (0, p) else let '(p, created) := prewarm_from min_idle 0 (capacity p) (p, 0) in (created, p).
Definition pool_destroy (p : Pool) : Pool :=
  let p := foldl (fun p s => match resource s with Some r => destroy_resource r p | None => p end) p (slots p) in
  mk_pool [] 0 0 [] false false false 0 0 0 0 0 false (calls p).
End pool.

(** ** Which resources are alive *)

(** The resources that were created and not destroyed since; and that only such ones were destroyed. *)
Fixpoint live (cs : list call) : gset resource_ptr :=
  match cs with
  | [] => ∅
  | Created _ (Some r) :: cs => {[ r ]} ∪ live cs
  | Destroyed r :: cs => live cs ∖ {[ r ]}
  | _ :: cs => live cs
  end.
Fixpoint proper (cs : list call) : Prop :=
  match cs with [] => True | Destroyed r :: cs => r ∈ live cs /\ proper cs | _ :: cs => proper cs end.
Definition harmless (c : call) : Prop := match c with Created _ (Some _) | Destroyed _ => False | _ => True end.
Definition res_at (ss : list PoolSlot) (i : nat) : option resource_ptr := ss !! i ≫= resource.
(** The slots hold exactly the living resources, each once, and [n] of them are lent. *)
Record holds (ss : list PoolSlot) (cs : list call) (n : Z) : Prop := {
  hd_once : forall i j r, res_at ss i = Some r -> res_at ss j = Some r -> i = j;
  hd_live : forall r, r ∈ live cs <-> exists i, res_at ss i = Some r;
  hd_proper : proper cs;
  hd_used : Forall (fun s => in_use s = true -> is_Some (resource s)) ss;
  hd_count : n = Z.of_nat (count_if in_use ss);
}.
Lemma res_at_alter f ss i j s : ss !! i = Some s -> res_at (alter f i ss) j = if decide (i = j) then resource (f s) else res_at ss j.
Proof. intros Hs. unfold res_at. destruct (decide (i = j)) as [<-|Hne]; [by rewrite list_lookup_alter_eq, Hs|by rewrite list_lookup_alter_ne]. Qed.
Lemma Forall_alter_at {A} (P : A -> Prop) f (l : list A) i x : l !! i = Some x -> Forall P l -> P (f x) -> Forall P (alter f i l).
Proof. intros Hx Hl Hp. apply Forall_alter; [done|]. intros y Hy. by simplify_eq. Qed.
Lemma count_if_alter {A} (p : A -> bool) f (l : list A) i x : l !! i = Some x -> Z.of_nat (count_if p (alter f i l)) = Z.of_nat (count_if p l) + b2z (p (f x)) - b2z (p x).
Proof.
  intros Hx. replace (alter f i l) with (<[i := f x]> l); [pose proof (count_if_insert p l i x (f x) Hx); lia|].
  apply list_eq. intros j. destruct (decide (i = j)) as [<-|]; [|by rewrite list_lookup_insert_ne, list_lookup_alter_ne].
  rewrite list_lookup_alter_eq, Hx. cbn. apply list_lookup_insert_eq; by eapply lookup_lt_Some.
Qed.

Lemma holds_call ss cs n c : harmless c -> holds ss cs n -> holds ss (c :: cs) n.
Proof. intros Hc [H1 H2 H3 H4 H5]. assert (live (c :: cs) = live cs /\ proper (c :: cs) = proper cs) as [E1 E2] by by destruct c as [? []| | |]. split; rewrite ?E1, ?E2; done. Qed.
Lemma holds_drop ss cs n f i s r : ss !! i = Some s -> in_use s = false -> resource s = Some r -> (forall s, resource (f s) = None /\ in_use (f s) = in_use s) ->
  holds ss cs n -> holds (alter f i ss) (Destroyed r :: cs) n.
Proof.
  intros Hs Hu Hr Hf [H1 H2 H3 H4 H5]. destruct (Hf s) as [Hf1 Hf2]. assert (Hi : res_at ss i = Some r) by (unfold res_at; rewrite Hs; done).
  split; cbn [live proper].
  - intros j k r'. rewrite !(res_at_alter f ss i _ s Hs), Hf1. repeat case_decide; try done. by apply H1.
  - intros r'. rewrite elem_of_difference, elem_of_singleton, H2. split.
    + intros [[j Hj] Hne]. exists j. rewrite (res_at_alter f ss i _ s Hs), decide_False; [done|]. intros ->. congruence.
    + intros [j Hj]. rewrite (res_at_alter f ss i _ s Hs), Hf1 in Hj. case_decide as E; [done|]. split; [by exists j|]. intros ->. apply E. by eapply H1.
  - split; [|done]. apply H2. by exists i.
  - apply (Forall_alter_at _ _ _ _ s); [done..|]. rewrite Hf2, Hu. done.
  - rewrite (count_if_alter _ _ _ _ s Hs), Hf2. lia.
Qed.
Lemma holds_fill ss cs n f i s r u : ss !! i = Some s -> resource s = None -> r ∉ live cs -> resource (f s) = Some r /\ in_use (f s) = in_use s ->
  holds ss cs n -> holds (alter f i ss) (Created u (Some r) :: cs) n.
Proof.
  intros Hs Hr Hl [Hf1 Hf2] [H1 H2 H3 H4 H5].
  split; cbn [live proper].
  - intros j k r'. rewrite !(res_at_alter f ss i _ s Hs), Hf1. repeat case_decide; intros E1 E2; simplify_eq; try done; [destruct Hl; apply H2; eauto..|by eapply H1].
  - intros r'. rewrite elem_of_union, elem_of_singleton, H2. split.
    + intros [->|[j Hj]]; [exists i; by rewrite (res_at_alter f ss i _ s Hs), decide_True|]. exists j. rewrite (res_at_alter f ss i _ s Hs), decide_False; [done|].
      intros ->. unfold res_at in Hj. rewrite Hs in Hj. cbn in Hj. congruence.
    + intros [j Hj]. rewrite (res_at_alter f ss i _ s Hs), Hf1 in Hj. case_decide; [left; congruence|right; eauto].
  - done.
  - apply (Forall_alter_at _ _ _ _ s); [done..|]. rewrite Hf1. done.
  - rewrite (count_if_alter _ _ _ _ s Hs), Hf2. lia.
Qed.
Lemma holds_use ss cs n f i s : ss !! i = Some s -> resource (f s) = resource s -> is_Some (resource s) -> holds ss cs n ->
  holds (alter f i ss) cs (n + b2z (in_use (f s)) - b2z (in_use s)).
Proof.
  intros Hs Hf Hr [H1 H2 H3 H4 H5]. assert (Hsame : forall j, res_at (alter f i ss) j = res_at ss j).
  { intros j. rewrite (res_at_alter f ss i _ s Hs), Hf. case_decide as E; [|done]. subst. unfold res_at. by rewrite Hs. }
  split; [intros j k r; rewrite !Hsame; apply H1| |done| |].
  - intros r. rewrite H2. by setoid_rewrite Hsame.
  - apply (Forall_alter_at _ _ _ _ s); [done..|]. by rewrite Hf.
  - rewrite (count_if_alter _ _ _ _ s Hs). lia.
Qed.

(** ** The resources that are lent *)

Definition lent_by (s : PoolSlot) : option resource_ptr := if in_use s then resource s else None.
Definition lent (p : Pool) : list resource_ptr := omap lent_by (slots p).
Lemma omap_alter {A B} (g : A -> option B) f (l : list A) i x : l !! i = Some x ->
  exists rest, omap g l ≡ₚ option_list (g x) ++ rest /\ omap g (alter f i l) ≡ₚ option_list (g (f x)) ++ rest.
Proof.
  intros Hx. pose proof (take_drop_middle l i x Hx) as E. assert (Hlen : length (take i l) = i) by (apply lookup_lt_Some in Hx; rewrite length_take; lia).
  set (a := take i l) in *. set (b := drop (S i) l) in *. clearbody a b. subst l i. exists (omap g (a ++ b)).
  replace (alter f (length a) (a ++ x :: b)) with (a ++ f x :: b) by (symmetry; rewrite <- (Nat.add_0_r (length a)), alter_app_r; done).
  rewrite !omap_app. cbn. destruct (g x), (g (f x)); cbn; split; try done; by rewrite Permutation_middle.
Qed.
Lemma omap_alter_same {A B} (g : A -> option B) f (l : list A) i : (forall x, l !! i = Some x -> g (f x) = g x) -> omap g (alter f i l) = omap g l.
Proof. revert i. induction l as [|y l IH]; intros [|i] H; cbn; [done..|by rewrite (H y eq_refl)|]. by rewrite (IH i H). Qed.

Definition pool_ok (p : Pool) : Prop := holds (slots p) (calls p) (in_use_count p) /\ destroy_fn p = true.
(** From [p] to [q] only resources that are not lent have changed. *)
Record quiet (p q : Pool) : Prop := {
  q_ok : pool_ok p -> pool_ok q; q_lent : lent q = lent p; q_capacity : capacity q = capacity p; q_init : initialized q = initialized p; q_create : create_fn q = create_fn p;
}.
#[export] Instance quiet_preorder : PreOrder quiet.
Proof. split; [by split|]. intros p q r [? ? ? ? ?] [? ? ? ? ?]. split; [auto|congruence..]. Qed.
Lemma quiet_call p c : harmless c -> quiet p (called c p).
Proof. intros Hc. split; [|done..]. intros [Hh Hd]. split; [by apply holds_call|done]. Qed.
Lemma quiet_slot p q f i : slots q = alter f i (slots p) -> (pool_ok p -> pool_ok q) -> initialized q = initialized p -> create_fn q = create_fn p ->
  (forall s, slots p !! i = Some s -> lent_by (f s) = lent_by s) -> quiet p q.
Proof. intros Hs Hok Hi Hc Hl. split; [done| | |done..]. - unfold lent. rewrite Hs. by apply omap_alter_same. - unfold capacity. by rewrite Hs, length_alter. Qed.
Lemma idle_slot p i r : (if in_use (slot p i) then None else resource (slot p i)) = Some r -> exists s, slots p !! i = Some s /\ slot p i = s /\ in_use s = false /\ resource s = Some r.
Proof. unfold slot. destruct (slots p !! i) as [s|]; cbn; [|done]. destruct (in_use s) eqn:E; [done|]. intros Hr. by exists s. Qed.
Lemma quiet_drop p i r : (if in_use (slot p i) then None else resource (slot p i)) = Some r ->
  quiet p (set_slot i (fun s => s <| resource := None |>) (destroy_resource r p) <| idle_count ::= Z.pred |>).
Proof.
  intros (s & Hs & _ & Hu & Hr)%idle_slot. unfold destroy_resource. eapply (quiet_slot _ _ (fun s => s <| resource := None |>) i); [by destruct (destroy_fn p)| |by destruct (destroy_fn p)..|].
  - intros [Hh Hd]. rewrite Hd. split; [|done]. by apply (holds_drop _ _ _ _ _ s).
  - intros s' Hs'. simplify_eq. unfold lent_by. cbn. by rewrite Hu.
Qed.

Section theorems.
Context {D : Type} `{HA : Arith D} (create : list call -> option resource_ptr) (validate : list call -> resource_ptr -> bool) (clock : list call -> timespec).
Context (Hcreate : forall cs r, create cs = Some r -> r ∉ live cs).

Lemma find_idle_quiet rounds : forall i p, let '(o, q) := find_idle validate i rounds p in
  quiet p q /\ forall j, o = Some j -> exists r, (if in_use (slot q j) then None else resource (slot q j)) = Some r.
Proof using.
  induction rounds as [|rounds IH]; intros i p; cbn [find_idle]; [by split|]. destruct (if in_use (slot p i) then None else resource (slot p i)) as [r|] eqn:Hr; [|by apply IH].
  set (valid := negb (validate_fn p) || validate (calls p) r). set (p1 := if validate_fn p then called (Validated r valid) p else p).
  assert (Hq1 : quiet p p1) by (subst p1; destruct (validate_fn p); [by apply quiet_call|done]). assert (Hr1 : (if in_use (slot p1 i) then None else resource (slot p1 i)) = Some r) by (subst p1; by destruct (validate_fn p)).
  destruct valid; [by split; [|intros j [= <-]; exists r]|]. pose proof (quiet_drop p1 i r Hr1) as Hq2. specialize (IH (S i) (set_slot i (fun s => s <| resource := None |>) (destroy_resource r p1) <| idle_count ::= Z.pred |>)).
  destruct (find_idle validate (S i) rounds _) as [o q]. destruct IH as [Hq3 Ho]. split; [|done]. by etrans; [|etrans].
Qed.
(** A slot that was chosen has an idle resource or none. *)
Lemma find_or_create_quiet p : let '(o, q) := find_or_create_slot validate p in
  quiet p q /\ match o with Some i => exists s, slots q !! i = Some s /\ (resource s = None \/ in_use s = false) | None => Forall (fun s => is_Some (resource s)) (slots q) end.
Proof using.
  unfold find_or_create_slot. pose proof (find_idle_quiet (capacity p) 0 p) as Hf. destruct (find_idle validate 0 (capacity p) p) as [o q]. destruct Hf as [Hq Ho]. destruct o as [i|]; split; try done.
  - destruct (Ho i eq_refl) as [r (s & Hs & _ & Hu & _)%idle_slot]. exists s. auto.
  - destruct (find_idx _ (slots q)) as [i|] eqn:Hi.
    + apply find_idx_Some in Hi as (s & Hs & Hr & _). apply bool_decide_eq_true in Hr. exists s. auto.
    + apply Forall_forall. intros s Hs. rewrite find_idx_None in Hi. specialize (Hi s Hs). apply bool_decide_eq_false in Hi. by apply not_eq_None_Some.
Qed.

(** ** Lending and giving back *)

Lemma NoDup_omap {A B} (g : A -> option B) (l : list A) : (forall i j r, l !! i ≫= g = Some r -> l !! j ≫= g = Some r -> i = j) -> NoDup (omap g l).
Proof using.
  induction l as [|x l IH]; intros H; cbn; [constructor|].
  assert (Hl : NoDup (omap g l)) by (apply IH; intros i j r Hi Hj; specialize (H (S i) (S j) r Hi Hj); lia). destruct (g x) as [r|] eqn:Hx; [|done]. constructor; [|done].
  intros (y & [j Hy]%list_elem_of_lookup & Hg)%list_elem_of_omap. assert (Hj : (x :: l) !! S j ≫= g = Some r) by (change ((x :: l) !! S j) with (l !! j); by rewrite Hy). specialize (H 0%nat (S j) r Hx Hj). lia.
Qed.
Lemma lent_at p r : r ∈ lent p -> exists i, res_at (slots p) i = Some r.
Proof using.
  intros (s & [i Hs]%list_elem_of_lookup & Hr)%list_elem_of_omap. exists i. unfold res_at. rewrite Hs. unfold lent_by in Hr. cbn. by destruct (in_use s).
Qed.
Lemma lent_nodup p : pool_ok p -> NoDup (lent p).
Proof using.
  intros [[H1 _ _ _ _] _]. apply NoDup_omap. intros i j r Hi Hj. apply (H1 i j r); [clear Hj|clear Hi]; unfold res_at;
    [destruct (slots p !! i) as [s|]|destruct (slots p !! j) as [s|]]; try done; cbn in *; unfold lent_by in *; by destruct (in_use s).
Qed.
Lemma lent_live p r : pool_ok p -> r ∈ lent p -> r ∈ live (calls p).
Proof using. intros [[_ H2 _ _ _] _] Hr. by apply H2, lent_at. Qed.
Lemma lent_count p : pool_ok p -> in_use_count p = Z.of_nat (length (lent p)).
Proof using.
  intros [[_ _ _ H4 H5] _]. rewrite H5. f_equal. clear H5. unfold lent, count_if. induction H4 as [|s ss Hs Hss IH]; [done|]. cbn. unfold lent_by at 1.
  destruct (in_use s) eqn:E; [|exact IH]. destruct (Hs eq_refl) as [r ->]. cbn. by f_equal.
Qed.
Lemma lent_capacity p : (length (lent p) <= capacity p)%nat.
Proof using. unfold lent, capacity. induction (slots p) as [|s ss IH]; [done|]. cbn. destruct (lent_by s); cbn; lia. Qed.

(** What acquiring does. *)
Record acquired (p : Pool) (o : option resource_ptr) (q : Pool) : Prop := {
  aq_ok : pool_ok p -> pool_ok q; aq_capacity : capacity q = capacity p; aq_init : initialized q = initialized p; aq_create : create_fn q = create_fn p;
  aq_lent : match o with Some r => lent q ≡ₚ r :: lent p | None => lent q = lent p end;
}.
Lemma acquired_quiet p p1 o q : quiet p p1 -> acquired p1 o q -> acquired p o q.
Proof using. intros [? E ? ? ?] [? ? ? ? E']. split; [auto|congruence..|]. destruct o; rewrite <- E; done. Qed.
Lemma lend_slot p i s r : slots p !! i = Some s -> resource s = Some r -> in_use s = false ->
  acquired p (Some r) (set_slot i (fun s => s <| in_use := true |> <| use_count ::= Z.succ |>) p <| in_use_count ::= Z.succ |> <| total_acquired ::= Z.succ |>).
Proof using.
  intros Hs Hr Hu. split; try done.
  - intros [Hh Hd]. split; [|done]. set (f := fun s : PoolSlot => s <| in_use := true |> <| use_count ::= Z.succ |>).
    change (holds (alter f i (slots p)) (calls p) (Z.succ (in_use_count p))).
    replace (Z.succ (in_use_count p)) with (in_use_count p + b2z (in_use (f s)) - b2z (in_use s)) by (rewrite Hu; change (in_use (f s)) with true; cbn [b2z]; lia).
    apply (holds_use _ _ _ f i s); [done|done|by exists r|done].
  - unfold capacity. cbn. by rewrite length_alter.
  - destruct (omap_alter lent_by (fun s => s <| in_use := true |> <| use_count ::= Z.succ |>) (slots p) i s Hs) as (rest & H1 & H2). unfold lent. cbn [slots set_slot]. cbn.
    etrans; [exact H2|]. unfold lent_by in *. cbn. rewrite Hu in H1. cbn in H1. rewrite Hr. cbn. by rewrite H1.
Qed.
Lemma fill_slot p i s r : slots p !! i = Some s -> resource s = None -> create (calls p) = Some r ->
  let q := set_slot i (fun s => s <| resource := Some r |>) (called (Created (url p) (Some r)) p) in in_use s = false -> quiet p q.
Proof using Hcreate.
  intros Hs Hr Hc q Hu. apply (quiet_slot _ _ (fun s => s <| resource := Some r |>) i); try done.
  - intros [Hh Hd]. split; [|done]. apply (holds_fill _ _ _ (fun s => s <| resource := Some r |>) i s); [done|done|by apply Hcreate|done|done].
  - intros s' Hs'. simplify_eq. unfold lent_by. cbn. by rewrite Hu.
Qed.
Lemma acquire_loop_spec fuel t : forall w pi p o q, pool_ok p -> acquire_loop create validate fuel t w pi p = Some (o, q) -> acquired p o q.
Proof using Hcreate.
  induction fuel as [|fuel IH]; intros w pi p o q Hok; [done|]. cbn [acquire_loop]. pose proof (find_or_create_quiet p) as Hf. destruct (find_or_create_slot validate p) as [[i|] p1].
  - destruct Hf as (Hq & s & Hs & Hidle). assert (Hslot : slot p1 i = s) by (unfold slot; by rewrite Hs). rewrite Hslot.
    destruct Hq as [Hok1 Hl1 ? ? ?] eqn:Eq. clear Eq. pose proof (Hok1 Hok) as [Hh1 _].
    assert (Hu : in_use s = false). { destruct Hidle as [Hn|]; [|done]. destruct (in_use s) eqn:Hu; [|done]. pose proof (hd_used _ _ _ Hh1) as Ha. rewrite Forall_lookup in Ha. destruct (Ha i s Hs Hu). congruence. }
    destruct (resource s) as [r|] eqn:Hr; [intros [= <- <-]; eapply acquired_quiet; [exact Hq|by eapply lend_slot]|]. unfold create_resource.
    destruct (create (calls p1)) as [r|] eqn:Hc; intros [= <- <-]; (eapply acquired_quiet; [exact Hq|]).
    + eapply acquired_quiet; [by apply (fill_slot p1 i s r)|]. eapply (lend_slot _ i (s <| resource := Some r |>)); [|done..]. cbn. rewrite list_lookup_alter_eq, Hs. done.
    + assert (Hq2 : quiet p1 (set_slot i (fun s => s <| resource := None |>) (called (Created (url p1) None) p1))).
      { apply (quiet_slot _ _ (fun s => s <| resource := None |>) i); try done.
        - intros [Hh Hd]. split; [|done]. cbn. replace (alter _ i (slots p1)) with (slots p1); [by apply holds_call|]. apply list_eq. intros j. destruct (decide (i = j)) as [<-|]; [|by rewrite list_lookup_alter_ne].
          rewrite list_lookup_alter_eq, Hs. cbn. f_equal. destruct s; cbn in *. by rewrite Hr.
        - intros s' Hs'. simplify_eq. unfold lent_by. cbn. by rewrite Hu. }
      eapply acquired_quiet; [exact Hq2|]. by split.
  - destruct Hf as [Hq _]. destruct ((0 <=? t) && (t <=? w)); [intros [= <- <-]; eapply acquired_quiet; [exact Hq|by split]|]. intros Hi. eapply acquired_quiet; [exact Hq|].
    eapply acquired_quiet; [by apply (quiet_call p1 (Slept pi))|]. eapply IH; [|exact Hi]. by apply (q_ok _ _ (quiet_call p1 (Slept pi) I)), (q_ok _ _ Hq).
Qed.
Lemma acquire_spec fuel t p o q : pool_ok p -> pool_acquire create validate fuel t p = Some (o, q) -> acquired p o q.
Proof using Hcreate. unfold pool_acquire. intros Hok. destruct (_ || _); [intros [= <- <-]; by split|by apply acquire_loop_spec]. Qed.
Lemma release_spec r p : pool_ok p -> let '(c, q) := pool_release clock r p in
  (pool_ok q /\ capacity q = capacity p /\ initialized q = initialized p /\ create_fn q = create_fn p) /\ if bool_decide (r ∈ lent p) then c = 0 /\ lent p ≡ₚ r :: lent q else c = -1 /\ q = p.
Proof using.
  intros Hok. unfold pool_release. destruct (find_idx _ (slots p)) as [i|] eqn:Hi.
  - apply find_idx_Some in Hi as (s & Hs & [Hr%bool_decide_eq_true Hu]%andb_prop & _). set (f := fun s : PoolSlot => s <| in_use := false |> <| last_used := clock (calls p) |>).
    destruct (omap_alter lent_by f (slots p) i s Hs) as (rest & H1 & H2). unfold lent_by in H1, H2. cbn in H2. rewrite Hu, Hr in H1. cbn in H1. fold lent_by in *.
    assert (Hl : lent p ≡ₚ r :: rest) by exact H1. rewrite bool_decide_eq_true_2 by (rewrite Hl; by left). split; [|split; [done|]; unfold lent; cbn; by rewrite Hl; constructor].
    split; [|split; [unfold capacity; cbn; by rewrite length_alter|done]]. destruct Hok as [Hh Hd]. split; [|done]. 
    change (holds (alter f i (slots p)) (calls p) (Z.pred (in_use_count p))).
    replace (Z.pred (in_use_count p)) with (in_use_count p + b2z (in_use (f s)) - b2z (in_use s)) by (rewrite Hu; change (in_use (f s)) with false; cbn [b2z]; lia).
    apply (holds_use _ _ _ f i s); [done|done|by exists r|done].
  - split; [done|]. rewrite bool_decide_eq_false_2; [done|]. intros (s & Hs & Hr)%list_elem_of_omap. rewrite find_idx_None in Hi. specialize (Hi s Hs). unfold lent_by in Hr. destruct (in_use s); [|done].
    by rewrite andb_true_r, Hr, bool_decide_eq_true_2 in Hi.
Qed.
Lemma sweep_quiet rounds : forall i s, quiet s.1 (sweep_from (D := D) clock i rounds s).1.
Proof using.
  induction rounds as [|rounds IH]; intros i [p n]; cbn [sweep_from fst snd]; [done|]. etrans; [|apply IH]. destruct (if in_use (slot p i) then None else resource (slot p i)) as [r|] eqn:Hr; [|done].
  destruct (leb _ _); [|done]. cbn [fst]. by apply quiet_drop.
Qed.
Lemma prewarm_quiet min rounds : forall i s, (i + rounds <= capacity s.1)%nat -> pool_ok s.1 -> quiet s.1 (prewarm_from create clock min i rounds s).1.
Proof using Hcreate.
  induction rounds as [|rounds IH]; intros i [p n] Hi Hok; cbn [prewarm_from fst snd] in *; [done|]. destruct (n <? min); [|done]. destruct (resource (slot p i)) as [r|] eqn:Hr; [apply (IH (S i) (p, n)); [cbn; lia|done]|].
  unfold create_resource. destruct (lookup_lt_is_Some_2 (slots p) i) as [s Hs]; [unfold capacity in Hi; lia|]. unfold slot in Hr. rewrite Hs in Hr. cbn in Hr.
  destruct (create (calls p)) as [r|] eqn:Hc.
  - set (q := set_slot i _ _ <| idle_count ::= Z.succ |>). assert (Hq : pool_ok p -> quiet p q).
    { intros [Hh Hd]. assert (Hu : in_use s = false). { destruct (in_use s) eqn:Hu; [|done]. pose proof (hd_used _ _ _ Hh) as Ha. rewrite Forall_lookup in Ha. destruct (Ha i s Hs Hu). congruence. }
      apply (quiet_slot _ _ (fun s => s <| resource := Some r |> <| in_use := false |> <| last_used := clock (Created (url p) (Some r) :: calls p) |>) i); [done| |done|done|].
      - intros _. split; [|done]. apply (holds_fill _ _ _ (fun s => s <| resource := Some r |> <| in_use := false |> <| last_used := clock (Created (url p) (Some r) :: calls p) |>) i s); [done|done|by apply Hcreate|by rewrite Hu|done].
      - intros s' Hs'. simplify_eq. unfold lent_by. cbn. by rewrite Hu. }
    specialize (Hq Hok). etrans; [exact Hq|]. apply (IH (S i) (q, n + 1)); [cbn [fst]; rewrite (q_capacity _ _ Hq); lia|by apply (q_ok _ _ Hq)].
  - assert (Hq : quiet p (called (Created (url p) None) p)) by by apply quiet_call. etrans; [exact Hq|]. apply (IH (S i) (called (Created (url p) None) p, n)); [cbn [fst]; rewrite (q_capacity _ _ Hq); lia|by apply (q_ok _ _ Hq)].
Qed.
Lemma destroy_live p : pool_ok p -> live (calls (pool_destroy p)) = ∅ /\ proper (calls (pool_destroy p)).
Proof using.
  intros [[H1 H2 H3 _ _] Hd]. cbn [pool_destroy calls].
  assert (Hgen : forall ss q, destroy_fn q = true -> (forall i j r, res_at ss i = Some r -> res_at ss j = Some r -> i = j) -> (forall r, r ∈ live (calls q) <-> exists i, res_at ss i = Some r) -> proper (calls q) ->
    let q' := foldl (fun p s => match resource s with Some r => destroy_resource r p | None => p end) q ss in live (calls q') = ∅ /\ proper (calls q')).
  { clear. intros ss. induction ss as [|s ss IH]; intros q Hd H1 H2 H3; cbn [foldl].
    - split; [|done]. apply set_eq. intros r. rewrite H2. split; [by intros [i Hi]|set_solver].
    - assert (H1' : forall i j r, res_at ss i = Some r -> res_at ss j = Some r -> i = j) by (intros i j r Hi Hj; specialize (H1 (S i) (S j) r Hi Hj); lia).
      destruct (resource s) as [r|] eqn:Hr; (apply IH; [unfold destroy_resource; rewrite ?Hd; first [exact Hd|done]|done| |]); unfold destroy_resource; rewrite ?Hd; cbn [called calls live proper]; try done.
      + intros r'. cbn. rewrite elem_of_difference, elem_of_singleton, H2. split.
        * intros [[[|i] Hi] Hne]; [cbn in Hi; congruence|]. by exists i.
        * intros [i Hi]. split; [by exists (S i)|]. intros ->. specialize (H1 0%nat (S i) r Hr Hi). lia.
      + cbn. split; [|done]. apply H2. by exists 0%nat.
      + intros r'. rewrite H2. split; [intros [[|i] Hi]; [cbn in Hi; congruence|by exists i]|intros [i Hi]; by exists (S i)]. }
  by apply Hgen.
Qed.

(** ** Waiting *)

(** Every resource is lent. *)
Definition exhausted (p : Pool) : Prop := Forall (fun s => in_use s = true /\ is_Some (resource s)) (slots p).
Lemma exhausted_idle p : exhausted p -> forall rounds i, find_idle validate i rounds p = (None, p).
Proof using.
  intros He. induction rounds as [|rounds IH]; intros i; cbn [find_idle]; [done|]. replace (if in_use (slot p i) then None else resource (slot p i)) with (None : option resource_ptr); [apply IH|].
  unfold slot. destruct (slots p !! i) as [s|] eqn:Hs; [|done]. unfold exhausted in He. rewrite Forall_lookup in He. cbn. destruct (He i s Hs) as [-> _]. done.
Qed.
Lemma exhausted_full p : exhausted p -> find_or_create_slot validate p = (None, p).
Proof using.
  intros He. unfold find_or_create_slot. rewrite exhausted_idle by done. f_equal. apply find_idx_None. intros s Hs. unfold exhausted in He. rewrite Forall_forall in He.
  destruct (He s Hs) as [_ [r Hr]]. by rewrite bool_decide_eq_false, Hr.
Qed.
Lemma acquire_loop_ends t : 0 <= t -> forall fuel w pi p, 10 <= pi -> t - w < Z.of_nat fuel -> (0 < fuel)%nat -> is_Some (acquire_loop create validate fuel t w pi p).
Proof using.
  intros Ht. induction fuel as [|fuel IH]; intros w pi p Hpi Hf H0; [lia|]. cbn [acquire_loop]. destruct (find_or_create_slot validate p) as [[i|] p1].
  - by destruct (match resource (slot p1 i) with Some r => (Some r, p1) | None => _ end) as [[r|] p2].
  - destruct (Z.leb_spec 0 t); [|lia]. destruct (Z.leb_spec t w); cbn [andb]; [done|]. apply IH; [destruct (pi <? 100); lia|lia|lia].
Qed.
(** With a limit of [t] ms, acquiring a resource ends after at most [t + 1] looks at the slots. *)
Theorem pool_acquire_ends t p fuel : 0 <= t -> t < Z.of_nat fuel -> is_Some (pool_acquire create validate fuel t p).
Proof using. intros Ht Hf. unfold pool_acquire. destruct (_ || _); [done|]. apply acquire_loop_ends; lia. Qed.
(** Without a limit, it waits for ever when every resource is lent: nothing but a call of
    another thread, which nothing protects, could give one back. *)
Theorem pool_acquire_blocks p : initialized p = true -> create_fn p = true -> exhausted p -> forall t fuel, t < 0 -> pool_acquire create validate fuel t p = None.
Proof using.
  intros Hi Hc He t fuel Ht. unfold pool_acquire. rewrite Hi, Hc. cbn [negb orb]. clear Hi Hc. generalize 0, 10. revert p He. induction fuel as [|fuel IH]; intros p He w pi; [done|].
  cbn [acquire_loop]. rewrite exhausted_full by done. destruct (Z.leb_spec 0 t); [lia|]. cbn [andb]. apply IH. exact He.
Qed.

(** ** Any sequence of operations *)

Inductive op := Acquire (timeout : N) | Release (r : resource_ptr) | Sweep | Prewarm (min_idle : Z).
Definition pool_op (p : option Pool) (o : op) : option Pool :=
  p ← p;
  match o with
  | Acquire t => snd <$> pool_acquire create validate (S (N.to_nat t)) (Z.of_N t) p
  | Release r => Some (pool_release clock r p).2
  | Sweep => Some (pool_sweep_idle (D := D) clock p).2
  | Prewarm n => Some (pool_prewarm create clock n p).2
  end.
Lemma pool_op_ok p o : pool_ok p -> exists q, pool_op (Some p) o = Some q /\ pool_ok q /\ capacity q = capacity p.
Proof using Hcreate.
  intros Hok. destruct o as [t|r| |n]; cbn [pool_op mbind option_bind].
  - destruct (pool_acquire_ends (Z.of_N t) p (S (N.to_nat t))) as [[o q] Hq]; [lia..|]. rewrite Hq. exists q. destruct (acquire_spec _ _ _ _ _ Hok Hq). auto.
  - eexists. split; [done|]. pose proof (release_spec r p Hok) as Hr. destruct (pool_release clock r p) as [c q]. cbn. tauto.
  - eexists. split; [done|]. unfold pool_sweep_idle. destruct (_ <=? 0); [done|]. pose proof (sweep_quiet (capacity p) 0 (p, 0)) as Hs. destruct (sweep_from _ _ _ _) as [q c]. cbn in *. destruct Hs; auto.
  - eexists. split; [done|]. unfold pool_prewarm. destruct (negb _); [done|]. pose proof (prewarm_quiet n (capacity p) 0 (p, 0)) as Hs. cbn in Hs. specialize (Hs ltac:(lia) Hok). destruct (prewarm_from _ _ _ _ _ _) as [q c]. cbn in *. destruct Hs; auto.
Qed.
Lemma init_ok cap idle u v p : live (calls p) = ∅ -> proper (calls p) -> pool_ok (pool_init cap idle u true true v p).
Proof using.
  clear Hcreate. intros Hl Hp. split; [|done]. unfold pool_init. cbn. set (n := Z.to_nat _). assert (Hn : forall i r, res_at (replicate n empty_slot) i <> Some r).
  { intros i r. unfold res_at. destruct (replicate n empty_slot !! i) eqn:E; [|done]. by apply lookup_replicate in E as [-> _]. }
  split; [by intros i j r Hi; destruct (Hn i r)| |done| |].
  - intros r. rewrite Hl. split; [set_solver|]. intros [i Hi]. by destruct (Hn i r).
  - apply Forall_replicate. done.
  - unfold count_if. clear. induction n as [|n IH]; [done|]. exact IH.
Qed.
(** C31: In any sequence of operations with a limit, on a pool that can destroy resources and whose
    new ones are different from those that live: each one ends, no resource is lent twice, none that is lent was destroyed, at most the capacity is
    lent, and once the pool is destroyed every resource was destroyed exactly once. *)
Theorem pool_safe cap idle u v p0 ops : live (calls p0) = ∅ -> proper (calls p0) ->
  exists p, foldl pool_op (Some (pool_init cap idle u true true v p0)) ops = Some p /\
    pool_in_use p = Z.of_nat (length (lent p)) /\ NoDup (lent p) /\ (forall r, r ∈ lent p -> r ∈ live (calls p)) /\ 0 <= pool_available p /\
    live (calls (pool_destroy p)) = ∅ /\ proper (calls (pool_destroy p)).
Proof using Hcreate.
  intros Hl Hp. assert (exists p, foldl pool_op (Some (pool_init cap idle u true true v p0)) ops = Some p /\ pool_ok p) as (p & -> & Hok).
  { induction ops as [|o ops IH] using rev_ind; [eexists; split; [done|by apply init_ok]|]. destruct IH as (p & Hp' & Hok). rewrite foldl_app, Hp'. destruct (pool_op_ok p o Hok) as (q & Hq & Hok' & _). by exists q. }
  exists p. split; [done|]. unfold pool_available, pool_in_use. rewrite (lent_count p Hok). split; [done|]. split; [by apply lent_nodup|]. split; [intros r; by apply lent_live|].
  split; [pose proof (lent_capacity p); lia|]. by apply destroy_live.
Qed.
(** The resource acquired was not lent and is lent then; the one given back is no more, and
    giving back another changes nothing. *)
Theorem pool_lends_correct p fuel t r : pool_ok p ->
  (forall o q, pool_acquire create validate fuel t p = Some (o, q) -> match o with Some r => r ∉ lent p /\ lent q ≡ₚ r :: lent p | None => lent q = lent p end) /\
  let '(c, q) := pool_release clock r p in if bool_decide (r ∈ lent p) then c = 0 /\ lent p ≡ₚ r :: lent q else c = -1 /\ q = p.
Proof using Hcreate.
  intros Hok. split.
  - intros o q Hq. destruct (acquire_spec _ _ _ _ _ Hok Hq) as [Hok' _ _ _ Hl]. destruct o as [r'|]; [|done]. split; [|done]. pose proof (lent_nodup q (Hok' Hok)) as Hn. rewrite Hl in Hn. by apply NoDup_cons in Hn as [? _].
  - pose proof (release_spec r p Hok) as Hr. destruct (pool_release clock r p). tauto.
Qed.
End theorems.

(** ** At work *)

(** New pointers, one after the other; everything is valid; a clock that stands. *)
Definition next_ptr (cs : list call) : option resource_ptr := Some (fresh (live cs)).
Lemma next_ptr_fresh cs r : next_ptr cs = Some r -> r ∉ live cs.
Proof. intros [= <-]. apply is_fresh. Qed.
Definition valid (cs : list call) (r : resource_ptr) : bool := true.
Definition noon (cs : list call) : timespec := mk_timespec 43200 0.
Definition blank : Pool := mk_pool [] 0 0 [] false false false 0 0 0 0 0 false [].
Definition two : Pool := pool_init 2 60 None true true true blank.
Definition after (ops : list op) : Pool := default blank (foldl (pool_op (D := Q) next_ptr valid noon) (Some two) ops).
(** An idle resource that is lent again is still counted as idle. *)
Example reused_counted_idle : let p := after [Acquire 0; Release 1%positive; Acquire 0] in idle_count p = 1 /\ count_if (fun s => negb (in_use s) && bool_decide (is_Some (resource s))) (slots p) = 0%nat.
Proof. by vm_compute. Qed.
(** When no resource can be made, acquiring fails at once, whatever the limit. *)
Example failure_does_not_wait : (fst <$> pool_acquire (fun _ => None) valid 1 1000 two) = Some None.
Proof. done. Qed.
Lemma pool_safe_witness : exists p, foldl (pool_op (D := Q) next_ptr valid noon) (Some (pool_init 2 60 None true true true blank)) [Acquire 0; Acquire 5; Release 1%positive; Sweep; Prewarm 2] = Some p /\
  pool_in_use p = Z.of_nat (length (lent p)) /\ NoDup (lent p) /\ (forall r, r ∈ lent p -> r ∈ live (calls p)) /\ 0 <= pool_available p /\
  live (calls (pool_destroy p)) = ∅ /\ proper (calls (pool_destroy p)).
Proof. refine (pool_safe (D := Q) next_ptr valid noon next_ptr_fresh 2 60 None true blank _ eq_refl I). Defined.
Lemma pool_acquire_ends_witness : is_Some (pool_acquire next_ptr valid 6 5 (after [Acquire 0; Acquire 0])).
Proof. refine (pool_acquire_ends next_ptr valid 5 _ 6 _ _); lia. Defined.
Lemma pool_acquire_blocks_witness : forall t fuel, t < 0 -> pool_acquire next_ptr valid fuel t (after [Acquire 0; Acquire 0]) = None.
Proof. refine (pool_acquire_blocks next_ptr valid (after [Acquire 0; Acquire 0]) _ _ _); [done|done|]. repeat constructor; vm_compute; eauto. Defined.
