(* ===== verification/ApiVersion.v ===== *)
(** Model of [mini-api-engineering/src/api_version.c]: versions of an API, their order, ranges
    of versions, the version of a request, deprecations and their texts; and the theorems on it.

    [int] wraps around.  Texts are without their terminating zero.  Writing behind a buffer is
    [None].  Pointers to the router and to buffers are not null, and buffers are not empty. *)

From S2P Require Import Prelude Bytes HttpCore.
#[local] Open Scope Z_scope.

Definition AV_MAX_URI_LEN : nat := Z.to_nat 2048.
#[global] Arguments AV_MAX_URI_LEN : simpl never.
Definition AV_MAX_VERSION_LEN : nat := 16.
Definition AV_MAX_DATE_LEN : nat := 64.
Definition AV_MAX_SUNSET_LINK : nat := Z.to_nat 512.
#[global] Arguments AV_MAX_SUNSET_LINK : simpl never.
Definition AV_MAX_DEPRECATIONS : nat := 32.
Definition AV_MAX_VERSIONS : nat := 16.
Inductive av_version_strategy_t := AV_URI_PATH | AV_HEADER | AV_QUERY_PARAM | AV_CONTENT_NEG | AV_CUSTOM.
#[export] Instance strategy_eq_dec : EqDecision av_version_strategy_t.
Proof. solve_decision. Defined.
Inductive av_deprecation_level_t := AV_NONE | AV_MINOR | AV_MAJOR | AV_SUNSET.
#[export] Instance level_eq_dec : EqDecision av_deprecation_level_t.
Proof. solve_decision. Defined.
Record av_version_t := mk_version { version : list Z; major : Z; minor : Z; patch : Z; is_prerelease : bool; prerelease_label : list Z }.
Record av_request_t := mk_request { uri : list Z; req_version : av_version_t; raw_version : list Z; strategy : av_version_strategy_t; is_valid : bool }.
Record av_deprecation_t := mk_deprecation {
  d_version : av_version_t; level : av_deprecation_level_t; deprecation_date : list Z; sunset_date : list Z; sunset_link : list Z; d_message : list Z; alternative : list Z;
}.
Record av_router_t := mk_router {
  base_path : list Z; default_strategy : av_version_strategy_t; versions : list av_version_t; deprecations : list av_deprecation_t;
  current_version : av_version_t; min_supported : av_version_t; strict_mode : bool;
}.
Definition zero_version : av_version_t := mk_version [] 0 0 0 false [].

Definition av_strategy_string (s : av_version_strategy_t) : list Z :=
  str_bytes match s with AV_URI_PATH => "URI_PATH" | AV_HEADER => "HEADER" | AV_QUERY_PARAM => "QUERY_PARAM" | AV_CONTENT_NEG => "CONTENT_NEG" | AV_CUSTOM => "CUSTOM" end.
Definition av_deprecation_level_string (l : av_deprecation_level_t) : list Z :=
  str_bytes match l with AV_NONE => "NONE" | AV_MINOR => "MINOR" | AV_MAJOR => "MAJOR" | AV_SUNSET => "SUNSET" end.

(** ** Versions *)

(** A part after a dot, if there is a dot: its number and the text behind it. *)
Definition dotted (p : list Z) : Z * list Z :=
  match p with c :: p' => if c =? 46 then (atoi p', drop_while is_digit p') else (0, p) | [] => (0, p) end.
Definition av_version_parse (str : list Z) : av_version_t :=
  let p := match str with c :: p => if (c =? 118) || (c =? 86) then p else str | [] => str end in
  let major := atoi p in
  let p := drop_while is_digit p in
  let '(minor, p) := dotted p in
  let '(patch, p) := dotted p in
  let '(pre, label) := match p with
    | c :: p => if c =? 45 then (true, take 31 (take_while (fun c => negb (c =? 43) && negb (c =? 46)) p)) else (false, [])
    | [] => (false, [])
    end in
  mk_version (truncated AV_MAX_VERSION_LEN str) major minor patch pre label.
Definition av_version_compare (a b : av_version_t) : Z :=
  if negb (major a =? major b) then s32 (major a - major b)
  else if negb (minor a =? minor b) then s32 (minor a - minor b)
  else if negb (patch a =? patch b) then s32 (patch a - patch b)
  else if is_prerelease a && negb (is_prerelease b) then -1
  else if negb (is_prerelease a) && is_prerelease b then 1
  else strcmp (prerelease_label a) (prerelease_label b).
Definition av_version_is_supported (v min_ver max_ver : av_version_t) : bool :=
  if av_version_compare v min_ver <? 0 then false
  else if (0 <? major max_ver) && (0 <? av_version_compare v max_ver) then false
  else true.
Definition numbers_text (v : av_version_t) : list Z := print_lld (major v) ++ [46] ++ print_lld (minor v) ++ [46] ++ print_lld (patch v).
Definition av_version_format (v : av_version_t) (len : nat) : option (list Z) :=
  st ← sprint len ([], O) (numbers_text v);
  if is_prerelease v && (0 <? length (prerelease_label v))%nat then fst <$> sprint len st ([45] ++ prerelease_label v) else Some st.1.
Definition av_version_bump_major (v : av_version_t) : av_version_t := mk_version (version v) (s32 (major v + 1)) 0 0 false [].
Definition av_version_bump_minor (v : av_version_t) : av_version_t := mk_version (version v) (major v) (s32 (minor v + 1)) 0 false [].
Definition av_version_bump_patch (v : av_version_t) : av_version_t := mk_version (version v) (major v) (minor v) (s32 (patch v + 1)) false [].
Definition av_version_is_prerelease (v : av_version_t) : bool := is_prerelease v.
Definition av_version_has_major_change (a b : av_version_t) : bool := negb (major a =? major b).
Definition av_version_has_minor_change (a b : av_version_t) : bool := (major a =? major b) && negb (minor a =? minor b).
Definition av_version_is_backward_compatible (a b : av_version_t) : bool :=
  if major a =? 0 then (major a =? major b) && (minor a =? minor b) else (major a =? major b) && (minor a <=? minor b).

(** ** The router *)

Definition av_router_init (base : option (list Z)) (s : av_version_strategy_t) : av_router_t :=
  mk_router (truncated AV_MAX_URI_LEN (default [] base)) s [] [] zero_version zero_version true.
Definition av_router_register_version (r : av_router_t) (v : list Z) : av_router_t :=
  if (AV_MAX_VERSIONS <=? length (versions r))%nat then r else r <| versions ::= fun l => l ++ [av_version_parse v] |>.
Definition av_router_set_current (r : av_router_t) (v : list Z) : av_router_t := r <| current_version := av_version_parse v |>.
Definition av_router_set_min_supported (r : av_router_t) (v : list Z) : av_router_t := r <| min_supported := av_version_parse v |>.
(** The place of the new deprecation, unless there is none. *)
Definition av_router_set_deprecation (r : av_router_t) (v : list Z) (l : av_deprecation_level_t) (date message : option (list Z)) : option nat * av_router_t :=
  if (AV_MAX_DEPRECATIONS <=? length (deprecations r))%nat then (None, r)
  else (Some (length (deprecations r)), r <| deprecations ::= fun ds => ds ++
    [mk_deprecation (av_version_parse v) l (truncated AV_MAX_DATE_LEN (default [] date)) [] [] (truncated 512 (default [] message)) []] |>).
Definition av_router_set_sunset (r : av_router_t) (v : list Z) (date link : option (list Z)) : av_router_t :=
  let '(d, r) := av_router_set_deprecation r v AV_SUNSET date (Some (str_bytes "This API version has been sunset.")) in
  match d, link with
  | Some i, Some link => r <| deprecations ::= alter (fun d => d <| sunset_link := truncated AV_MAX_SUNSET_LINK link |>) i |>
  | _, _ => r
  end.
(** The text of the version, cut as the local buffer does it, and the version read from it. *)
Definition with_version (q : av_request_t) (text : list Z) : av_request_t :=
  q <| req_version := av_version_parse text |> <| raw_version := truncated AV_MAX_VERSION_LEN text |> <| is_valid := true |>.
Definition av_router_parse_request (r : av_router_t) (u : list Z) (accept_header query_v : option (list Z)) : bool * av_request_t :=
  let q := mk_request (truncated AV_MAX_URI_LEN u) zero_version [] AV_URI_PATH false in
  let q := match default_strategy r, accept_header, query_v with
    | AV_URI_PATH, _, _ =>
        match strstr_after (str_bytes "/v") u with
        | None => q
        | Some vs => (with_version q (take 15 (take_while is_digit vs))) <| strategy := AV_URI_PATH |>
        end
    | AV_HEADER, Some accept, _ =>
        (match strstr_after (str_bytes "version=") accept with
         | Some vs => with_version q (take 15 (take_while (fun c => is_digit c || (c =? 46)) vs))
         | None => q
         end) <| strategy := AV_HEADER |>
    | AV_QUERY_PARAM, _, Some v => (with_version q v) <| strategy := AV_QUERY_PARAM |>
    | _, _, _ => q
    end in
  (is_valid q, q).
Definition av_router_match (r : av_router_t) (q : av_request_t) : bool := existsb (fun v => av_version_compare (req_version q) v =? 0) (versions r).
Definition av_router_check_deprecation (r : av_router_t) (q : av_request_t) : option av_deprecation_t :=
  find_idx (fun d => (av_version_compare (req_version q) (d_version d) =? 0) && bool_decide (level d <> AV_NONE)) (deprecations r) ≫= fun i => deprecations r !! i.
Definition av_router_is_sunset (r : av_router_t) (q : av_request_t) : bool :=
  existsb (fun d => (av_version_compare (req_version q) (d_version d) =? 0) && bool_decide (level d = AV_SUNSET)) (deprecations r).

(** ** Texts *)

Definition av_build_sunset_header (d : av_deprecation_t) (len : nat) : list Z :=
  truncated len (str_bytes "Sunset: " ++ match sunset_date d with [] => str_bytes "unknown" | s => s end).
Definition av_build_deprecation_header (d : av_deprecation_t) (len : nat) : list Z :=
  let buf := truncated len (str_bytes "Deprecation: true") in
  match sunset_date d with [] => buf | s => buf ++ truncated (len - length buf) (str_bytes "; Sunset=" ++ s) end.
Definition av_build_version_uri (r : av_router_t) (v resource : option (list Z)) (len : nat) : list Z :=
  let v := default (str_bytes "1") v in
  let resource := default [] resource in
  truncated len
    (if bool_decide (default_strategy r = AV_URI_PATH) then base_path r ++ str_bytes "/v" ++ v ++ str_bytes "/" ++ resource
     else base_path r ++ str_bytes "/" ++ resource ++ str_bytes "?v=" ++ v).

(** ** Ranges *)

Inductive av_range_type_t := AV_RANGE_CARET | AV_RANGE_TILDE | AV_RANGE_GTE | AV_RANGE_EQ | AV_RANGE_WILDCARD | AV_RANGE_HYPHEN.
Record av_version_range_t := mk_range { r_type : av_range_type_t; lower : av_version_t; upper : av_version_t; has_upper : bool }.
Definition caret_upper (l : av_version_t) : av_version_t :=
  if 0 <? major l then l <| major := s32 (major l + 1) |> <| minor := 0 |> <| patch := 0 |> <| is_prerelease := false |>
  else if 0 <? minor l then l <| minor := s32 (minor l + 1) |> <| patch := 0 |>
  else l <| patch := s32 (patch l + 1) |>.
Definition tilde_upper (l : av_version_t) : av_version_t := l <| minor := s32 (minor l + 1) |> <| patch := 0 |> <| is_prerelease := false |>.
Definition eq_range (p : list Z) : av_version_range_t := let l := av_version_parse p in mk_range AV_RANGE_EQ l l true.
(** The characters: 94 is [^], 126 is [~], 62 is [>], 61 is [=]. *)
Definition av_range_parse (str : list Z) : av_version_range_t :=
  let p := drop_while (fun c => (c =? 32) || (c =? 118) || (c =? 86)) str in
  match p with
  | c :: p' =>
      if c =? 94 then let l := av_version_parse p' in mk_range AV_RANGE_CARET l (caret_upper l) true
      else if c =? 126 then let l := av_version_parse p' in mk_range AV_RANGE_TILDE l (tilde_upper l) true
      else if c =? 62 then
        mk_range AV_RANGE_GTE (av_version_parse match p' with c :: p'' => if c =? 61 then p'' else p' | [] => p' end) zero_version false
      else eq_range (if c =? 61 then p' else p)
  | [] => eq_range p
  end.
Definition av_range_satisfies (g : av_version_range_t) (v : av_version_t) : bool :=
  if av_version_compare v (lower g) <? 0 then false
  else if has_upper g && (0 <=? av_version_compare v (upper g)) then false
  else true.

(** ** The changelog *)

(** The line of a date, when there is one. *)
Definition entry_line (len : nat) (what : string) (text : list Z) (st : list Z * nat) : option (list Z * nat) :=
  match text with [] => Some st | _ => sprint len st (str_bytes "- **" ++ str_bytes what ++ str_bytes "**: " ++ text ++ [10]) end.
(** The dash of the source is three bytes. *)
Definition heading (d : av_deprecation_t) (v : list Z) : list Z :=
  str_bytes "## " ++ v ++ [32; 226; 128; 148; 32] ++ av_deprecation_level_string (level d) ++ [32] ++
  (if bool_decide (level d = AV_SUNSET) then str_bytes "SUNSET" else str_bytes "DEPRECATED") ++ [10].
Definition changelog_entry (len : nat) (st : option (list Z * nat)) (d : av_deprecation_t) : option (list Z * nat) :=
  st ← st;
  vstr ← av_version_format (d_version d) 32;
  st ← sprint len st (heading d vstr);
  st ← entry_line len "Date" (deprecation_date d) st;
  st ← entry_line len "Sunset" (sunset_date d) st;
  st ← entry_line len "Details" (d_message d) st;
  st ← entry_line len "Alternative" (alternative d) st;
  sprint len st [10].
Definition av_changelog_render (r : av_router_t) (len : nat) : option (list Z) :=
  st ← sprint len ([], O) (str_bytes "# API Changelog" ++ [10; 10]);
  match versions r with
  | [] => fst <$> sprint len st (str_bytes "No versions registered." ++ [10])
  | _ =>
      st ← foldl (changelog_entry len) (Some st) (rev (deprecations r));
      if 0 <? major (current_version r) then
        cur ← av_version_format (current_version r) 32;
        fst <$> sprint len st (str_bytes "## Current: " ++ cur ++ [10; 10])
      else Some st.1
  end.

(** ** The order of versions *)

(** The parts are numbers that fit [int]; only prereleases have a label. *)
Definition ok_version (v : av_version_t) : Prop :=
  0 <= major v < 2 ^ 31 /\ 0 <= minor v < 2 ^ 31 /\ 0 <= patch v < 2 ^ 31 /\ (is_prerelease v = false -> prerelease_label v = []).
Definition precedes (a b : av_version_t) : Prop :=
  major a < major b \/ major a = major b /\ (minor a < minor b \/ minor a = minor b /\ (patch a < patch b \/ patch a = patch b /\
    (is_prerelease a = true /\ is_prerelease b = false \/ is_prerelease a = is_prerelease b /\ strcmp (prerelease_label a) (prerelease_label b) < 0))).
Definition same_version (a b : av_version_t) : Prop :=
  major a = major b /\ minor a = minor b /\ patch a = patch b /\ is_prerelease a = is_prerelease b /\ prerelease_label a = prerelease_label b.
Definition in_int (v : av_version_t) : Prop := 0 <= major v < 2 ^ 31 /\ 0 <= minor v < 2 ^ 31 /\ 0 <= patch v < 2 ^ 31.
Lemma compare_spec a b : in_int a -> in_int b ->
  (av_version_compare a b < 0 <-> precedes a b) /\ (av_version_compare a b = 0 <-> same_version a b) /\ (0 < av_version_compare a b <-> precedes b a).
Proof.
  intros (Ha1 & Ha2 & Ha3) (Hb1 & Hb2 & Hb3). unfold av_version_compare, precedes, same_version.
  pose proof (strcmp_antisym (prerelease_label a) (prerelease_label b)) as Hs. pose proof (strcmp_eq (prerelease_label a) (prerelease_label b)) as He.
  destruct (Z.eqb_spec (major a) (major b)) as [E1|E1]; cbn [negb]; [|rewrite s32_small by lia; intuition lia].
  destruct (Z.eqb_spec (minor a) (minor b)) as [E2|E2]; cbn [negb]; [|rewrite s32_small by lia; intuition lia].
  destruct (Z.eqb_spec (patch a) (patch b)) as [E3|E3]; cbn [negb]; [|rewrite s32_small by lia; intuition lia].
  destruct (is_prerelease a), (is_prerelease b); cbn [negb andb]; rewrite <- ?He; intuition (try lia; try discriminate).
Qed.
Lemma ok_in_int v : ok_version v -> in_int v.
Proof. unfold ok_version, in_int. tauto. Qed.
(** The comparison is a strict total order on versions with parts that fit: the numbers first,
    a prerelease before its release, then the labels. *)
Theorem av_version_compare_correct a b c : ok_version a -> ok_version b -> ok_version c ->
  (av_version_compare a b < 0 <-> precedes a b) /\ (av_version_compare a b = 0 <-> same_version a b) /\ (0 < av_version_compare a b <-> precedes b a) /\
  (av_version_compare a b < 0 -> av_version_compare b c < 0 -> av_version_compare a c < 0).
Proof.
  intros Ha%ok_in_int Hb%ok_in_int Hc%ok_in_int. destruct (compare_spec a b Ha Hb) as (H1 & H2 & H3). destruct (compare_spec b c Hb Hc) as (H4 & _). destruct (compare_spec a c Ha Hc) as (H5 & _).
  split; [done|]. split; [done|]. split; [done|]. rewrite H1, H4, H5. unfold precedes. pose proof (strcmp_trans (prerelease_label a) (prerelease_label b) (prerelease_label c)).
  destruct (is_prerelease a), (is_prerelease b), (is_prerelease c); intuition (try lia; try discriminate).
Qed.

(** ** Printing and parsing *)

Definition suffix (v : av_version_t) : list Z := if is_prerelease v then 45 :: prerelease_label v else [].
Definition no_digit (s : list Z) : Prop := match s with c :: _ => is_digit c = false | [] => True end.
Lemma skip_no_digit s : no_digit s -> drop_while is_digit s = s.
Proof. destruct s as [|c s]; [done|]. cbn. by intros ->. Qed.
Lemma dotted_print n s : 0 <= n < 2 ^ 31 -> no_digit s -> dotted (46 :: print_lld n ++ s) = (n, s).
Proof. intros Hn Hs. cbn [dotted Z.eqb Pos.eqb]. rewrite atoi_print, skip_print, skip_no_digit by (done || lia). done. Qed.
Lemma parse_numbers v s : in_int v -> no_digit s -> match s with c :: _ => c <> 46 | [] => True end ->
  av_version_parse (numbers_text v ++ s) = mk_version (truncated AV_MAX_VERSION_LEN (numbers_text v ++ s)) (major v) (minor v) (patch v)
    (match s with c :: _ => c =? 45 | [] => false end) (match s with c :: p => if c =? 45 then take 31 (take_while (fun c => negb (c =? 43) && negb (c =? 46)) p) else [] | [] => [] end).
Proof.
  intros (H1 & H2 & H3) Hs Hdot. unfold av_version_parse. set (text := numbers_text v ++ s).
  assert (Hp : match text with c :: p => if (c =? 118) || (c =? 86) then p else text | [] => text end = text).
  { subst text. unfold numbers_text. destruct (print_nat_digits (major v)) as (-> & Hd & Hne); [lia|]. destruct Hd as [|c l Hc Hl]; [done|]. cbn [app].
    by rewrite (proj2 (Z.eqb_neq c 118)), (proj2 (Z.eqb_neq c 86)) by lia. }
  rewrite Hp. clear Hp. subst text. unfold numbers_text. rewrite <- !app_assoc. cbn [app].
  rewrite (atoi_print (major v)), (skip_print (major v)) by (done || lia). cbn [drop_while is_digit]. change (is_digit 46) with false. cbn iota.
  rewrite dotted_print by done. rewrite dotted_print by done. destruct s as [|c s]; [done|]. by destruct (c =? 45).
Qed.
Lemma sprint_room len (st : list Z * nat) t : (st.2 + length t < len)%nat -> sprint len st t = Some (st.1 ++ t, (st.2 + length t)%nat).
Proof. intros H. unfold sprint. rewrite (proj2 (Nat.ltb_ge _ _)) by lia. by rewrite take_ge by lia. Qed.
(** A version with numbers that fit, printed in a buffer with room for it, is read back as it was. *)
Theorem av_version_format_parse v len : ok_version v -> (is_prerelease v = true -> prerelease_label v <> [] /\ (length (prerelease_label v) <= 31)%nat /\ Forall (fun c => c <> 43 /\ c <> 46) (prerelease_label v)) ->
  (length (numbers_text v ++ suffix v) < len)%nat ->
  exists text, av_version_format v len = Some text /\ av_version_parse text = v <| version := truncated AV_MAX_VERSION_LEN text |>.
Proof.
  intros Hv Hl Hlen. exists (numbers_text v ++ suffix v). rewrite length_app in Hlen. pose proof (ok_in_int v Hv) as Hi. split.
  - unfold av_version_format. rewrite sprint_room by (cbn [snd]; lia). cbn [mbind option_bind fst snd app]. unfold suffix in *.
    destruct (is_prerelease v); cbn [andb]; [|by rewrite app_nil_r]. destruct (Hl eq_refl) as (Hne & _). rewrite sprint_room by exact Hlen. destruct (prerelease_label v) as [|c l]; [done|]. done.
  - unfold suffix. destruct v as [ver ma mi pa pre label]. cbn [is_prerelease prerelease_label] in *. destruct pre.
    + rewrite (parse_numbers _ (45 :: label)) by done. destruct (Hl eq_refl) as (_ & H31 & Hc). cbn [major minor patch is_prerelease prerelease_label Z.eqb Pos.eqb]. unfold set. cbn. f_equal.
      rewrite <- (app_nil_r label) at 1. rewrite take_while_app; [rewrite app_nil_r; by apply take_ge|]. clear -Hc. induction Hc as [|c l [H1 H2] Hl IH]; [done|]. cbn. by rewrite IH, (proj2 (Z.eqb_neq _ _) H1), (proj2 (Z.eqb_neq _ _) H2).
    + rewrite (parse_numbers _ []) by done. destruct Hv as (_ & _ & _ & Hn). cbn in *. by rewrite Hn.
Qed.

(** ** Ranges *)

(** What a caret and a tilde promise: nothing older, and the first number that is not zero, or
    the first two numbers, unchanged. *)
Definition at_least (l v : av_version_t) : Prop := precedes l v \/ same_version l v.
Definition caret_ok (l v : av_version_t) : Prop :=
  at_least l v /\ (if 0 <? major l then major v = major l else if 0 <? minor l then major v = 0 /\ minor v = minor l else major v = 0 /\ minor v = 0 /\ patch v = patch l).
Definition tilde_ok (l v : av_version_t) : Prop := at_least l v /\ major v = major l /\ minor v = minor l.
Definition release (v : av_version_t) : Prop := is_prerelease v = false /\ prerelease_label v = [].
Lemma satisfies_spec g v : in_int v -> in_int (lower g) -> (has_upper g = true -> in_int (upper g)) ->
  av_range_satisfies g v = true <-> at_least (lower g) v /\ (has_upper g = true -> precedes v (upper g)).
Proof.
  intros Hv Hl Hu. unfold av_range_satisfies, at_least. destruct (compare_spec v (lower g) Hv Hl) as (L1 & L2 & L3).
  assert (Hsame : same_version (lower g) v <-> same_version v (lower g)) by (unfold same_version; intuition congruence). rewrite Hsame, <- L2, <- L3.
  destruct (Z.ltb_spec (av_version_compare v (lower g)) 0); [split; [done|lia]|]. destruct (has_upper g); cbn [andb].
  - destruct (compare_spec v (upper g) Hv (Hu eq_refl)) as (U1 & _). rewrite <- U1. destruct (Z.leb_spec 0 (av_version_compare v (upper g))); split; try done; [|split; [lia|done]]. intros [_ H']. specialize (H' eq_refl). lia.
  - split; [split; [lia|done]|done].
Qed.
(** The caret and the tilde accept, of the releases, exactly those that they promise. *)
Theorem av_range_caret_tilde_correct p v : let l := av_version_parse p in ok_version l -> major l < 2 ^ 31 - 1 -> minor l < 2 ^ 31 - 1 -> patch l < 2 ^ 31 - 1 -> release l -> ok_version v -> release v ->
  (av_range_satisfies (av_range_parse (94 :: p)) v = true <-> caret_ok l v) /\ (av_range_satisfies (av_range_parse (126 :: p)) v = true <-> tilde_ok l v).
Proof.
  cbn zeta. intros Hl M1 M2 M3 [Rl Ll] Hv [Rv Lv]. unfold av_range_parse. cbn [drop_while Z.eqb Pos.eqb orb]. cbn iota. set (l := av_version_parse p) in *.
  pose proof (ok_in_int _ Hl) as (I1 & I2 & I3). pose proof (ok_in_int _ Hv) as Iv. split.
  - rewrite satisfies_spec; cbn [lower upper has_upper]; [|done|done|].
    + unfold caret_ok, caret_upper, at_least, precedes, same_version. rewrite Rl, Ll, Rv, Lv. destruct Iv as (V1 & V2 & V3).
      destruct (Z.ltb_spec 0 (major l)); [|destruct (Z.ltb_spec 0 (minor l))]; cbn; rewrite ?Rl, ?Ll, s32_small by lia; cbn; intuition (try lia; try discriminate).
    + intros _. unfold caret_upper, in_int. destruct (Z.ltb_spec 0 (major l)); [|destruct (Z.ltb_spec 0 (minor l))]; cbn; rewrite s32_small by lia; lia.
  - rewrite satisfies_spec; cbn [lower upper has_upper]; [|done|done|].
    + unfold tilde_ok, tilde_upper, at_least, precedes, same_version. rewrite Rl, Ll, Rv, Lv. destruct Iv as (V1 & V2 & V3). cbn. rewrite ?Rl, ?Ll, s32_small by lia. cbn. intuition (try lia; try discriminate).
    + intros _. unfold tilde_upper, in_int. cbn. rewrite s32_small by lia. lia.
Qed.
(** A range without an operator, or with [=], accepts no version at all. *)
Theorem av_range_eq_never str v : r_type (av_range_parse str) = AV_RANGE_EQ -> av_range_satisfies (av_range_parse str) v = false.
Proof.
  assert (He : forall p, av_range_satisfies (eq_range p) v = false).
  { intros p. unfold av_range_satisfies, eq_range. cbn. destruct (Z.ltb_spec (av_version_compare v (av_version_parse p)) 0); [done|]. by rewrite (proj2 (Z.leb_le _ _)) by lia. }
  unfold av_range_parse. destruct (drop_while _ str) as [|c p]; [by rewrite He|]. destruct (c =? 94); [done|]. destruct (c =? 126); [done|]. destruct (c =? 62); [done|]. by rewrite He.
Qed.

(** ** Deprecations *)

Inductive edit := Register (v : list Z) | Current (v : list Z) | MinSupported (v : list Z) | Deprecate (v : list Z) (l : av_deprecation_level_t) (date message : option (list Z)) | Sunset (v : list Z) (date link : option (list Z)).
Definition edit_router (r : av_router_t) (e : edit) : av_router_t :=
  match e with
  | Register v => av_router_register_version r v
  | Current v => av_router_set_current r v
  | MinSupported v => av_router_set_min_supported r v
  | Deprecate v l date message => (av_router_set_deprecation r v l date message).2
  | Sunset v date link => av_router_set_sunset r v date link
  end.
Definition router_ok (r : av_router_t) : Prop :=
  (length (versions r) <= AV_MAX_VERSIONS)%nat /\ (length (deprecations r) <= AV_MAX_DEPRECATIONS)%nat /\ Forall (fun d => sunset_date d = []) (deprecations r).
Lemma set_deprecation_ok r v l date message : router_ok r -> router_ok (av_router_set_deprecation r v l date message).2.
Proof.
  intros (H1 & H2 & H3). unfold av_router_set_deprecation. destruct (Nat.leb_spec AV_MAX_DEPRECATIONS (length (deprecations r))); [done|]. split; [done|]. cbn [snd]. cbn [deprecations set]. cbn.
  rewrite length_app. cbn. split; [lia|]. apply Forall_app. split; [done|]. repeat constructor.
Qed.
Lemma edit_router_ok r e : router_ok r -> router_ok (edit_router r e).
Proof.
  intros Hr. destruct e as [v|v|v|v l date message|v date link]; cbn [edit_router].
  - unfold av_router_register_version. destruct (Nat.leb_spec AV_MAX_VERSIONS (length (versions r))); [done|]. destruct Hr as (H1 & H2 & H3). split; [|done]. cbn. rewrite length_app. cbn. lia.
  - exact Hr.
  - exact Hr.
  - by apply set_deprecation_ok.
  - unfold av_router_set_sunset. pose proof (set_deprecation_ok r v AV_SUNSET date (Some (str_bytes "This API version has been sunset.")) Hr) as Ho. destruct (av_router_set_deprecation _ _ _ _ _) as [[i|] r']; [|done]. destruct link as [link|]; [|done].
    destruct Ho as (H1 & H2 & H3). split; [done|]. cbn in *. rewrite length_alter. split; [done|]. apply Forall_alter; [done|]. done.
Qed.
(** No function sets the date of a sunset: whatever was registered, the header of a deprecation
    that is found says that the date is unknown, and the other header does not mention it. *)
Theorem av_sunset_never_known base s edits q d len : av_router_check_deprecation (foldl edit_router (av_router_init base s) edits) q = Some d ->
  av_build_sunset_header d len = truncated len (str_bytes "Sunset: unknown") /\ av_build_deprecation_header d len = truncated len (str_bytes "Deprecation: true").
Proof.
  intros Hd. assert (Hr : router_ok (foldl edit_router (av_router_init base s) edits)).
  { clear Hd. induction edits as [|e edits IH] using rev_ind; [split; [cbn; lia|split; [cbn; lia|constructor]]|]. rewrite foldl_app. by apply edit_router_ok. }
  destruct Hr as (_ & _ & Hs). unfold av_router_check_deprecation in Hd. destruct (find_idx _ _) as [i|]; [|done]. cbn in Hd. rewrite Forall_lookup in Hs. specialize (Hs i d Hd). unfold av_build_sunset_header, av_build_deprecation_header. by rewrite Hs.
Qed.

(** ** At work *)

Definition txt := str_bytes.
Example range_at_work : let sat g v := av_range_satisfies (av_range_parse (txt g)) (av_version_parse (txt v)) in
  sat "^1.2.3" "1.9.0" = true /\ sat "^1.2.3" "2.0.0" = false /\ sat "^0.2.3" "0.3.0" = false /\ sat "~1.2.3" "1.3.0" = false /\ sat ">=1.2" "7" = true /\ sat "=1.2.3" "1.2.3" = false.
Proof. by vm_compute. Qed.
(** The label of the lower bound stays in the upper one: the next major release is accepted. *)
Example caret_prerelease : av_range_satisfies (av_range_parse (txt "^1.2.3-beta")) (av_version_parse (txt "2.0.0")) = true.
Proof. by vm_compute. Qed.
(** A strict bound is taken for [>=]. *)
Example greater_is_at_least : av_range_satisfies (av_range_parse (txt ">1.2.3")) (av_version_parse (txt "1.2.3")) = true.
Proof. by vm_compute. Qed.
(** Any path segment that starts with a v counts as a version, and of a version only the
    first number is read. *)
Example video_is_version : let r := av_router_init (Some (txt "/api")) AV_URI_PATH in
  (av_router_parse_request r (txt "/api/videos") None None).1 = true /\ major (req_version (av_router_parse_request r (txt "/api/videos/v2") None None).2) = 0 /\
  minor (req_version (av_router_parse_request r (txt "/api/v2.7/users") None None).2) = 0.
Proof. by vm_compute. Qed.
(** Texts longer than the buffer: the next line is written behind it. *)
Example changelog_overflows :
  let r := av_router_register_version (av_router_init None AV_HEADER) (txt "1") in
  let r := (av_router_set_deprecation r (txt "1") AV_MINOR (Some (txt "2024-01-01")) None).2 in av_changelog_render r 40 = None.
Proof. by vm_compute. Qed.
Example format_overflows : av_version_format (av_version_parse (txt "2147483647.2147483647.-2147483648")) 32 = None.
Proof. by vm_compute. Qed.
Definition beta : av_version_t := av_version_parse (txt "v1.2.3-beta").
Ltac version_ok := unfold ok_version; vm_compute; intuition discriminate.
Lemma av_version_compare_correct_witness : let a := beta in let b := av_version_parse (txt "1.2.3") in let c := av_version_parse (txt "1.10") in
  (av_version_compare a b < 0 <-> precedes a b) /\ (av_version_compare a b = 0 <-> same_version a b) /\ (0 < av_version_compare a b <-> precedes b a) /\
  (av_version_compare a b < 0 -> av_version_compare b c < 0 -> av_version_compare a c < 0).
Proof. refine (av_version_compare_correct beta (av_version_parse (txt "1.2.3")) (av_version_parse (txt "1.10")) _ _ _); version_ok. Defined.
Lemma av_version_format_parse_witness : exists text, av_version_format beta 64 = Some text /\ av_version_parse text = beta <| version := truncated AV_MAX_VERSION_LEN text |>.
Proof. refine (av_version_format_parse beta 64 _ _ _); [version_ok| |vm_compute; lia]. intros _. split; [done|]. split; [vm_compute; lia|]. apply (bool_decide_unpack _). vm_compute. exact I. Defined.
Lemma av_range_caret_tilde_correct_witness : let l := av_version_parse (txt "1.2.3") in let v := av_version_parse (txt "1.9.0") in
  (av_range_satisfies (av_range_parse (94 :: txt "1.2.3")) v = true <-> caret_ok l v) /\ (av_range_satisfies (av_range_parse (126 :: txt "1.2.3")) v = true <-> tilde_ok l v).
Proof. refine (av_range_caret_tilde_correct (txt "1.2.3") (av_version_parse (txt "1.9.0")) _ _ _ _ _ _ _); try version_ok; try done; split; reflexivity. Defined.
