(* ===== verification/Graphql.v ===== *)
(** Model of [mini-api-engineering/src/graphql_engine.c]: the schema, the parsers of queries and
    of schema texts, the checks, the limits and the printers; and the theorems on them.

    A pointer into a text is the rest of the text: [**p] is zero at the end.  The loops of the
    parsers get the length of their text as fuel; [None] is a loop that did not end.  Writing
    behind a buffer or behind the array of errors is [None] too.  Pointers are not null. *)

From S2P Require Import Prelude Bytes HttpCore.
#[local] Open Scope Z_scope.

Definition GQL_MAX_NAME_LEN : nat := 128.
Definition GQL_MAX_TYPE_LEN : nat := 64.
Definition GQL_MAX_ARGS : nat := 8.
Definition GQL_MAX_FIELDS : nat := 16.
Definition GQL_MAX_TYPES : nat := 32.
Definition GQL_MAX_RESOLVERS : nat := 64.
Definition GQL_MAX_SELECTION : nat := 64.
Definition GQL_MAX_ERRORS : nat := 16.
Inductive gql_scalar_t := GQL_TYPE_STRING | GQL_TYPE_INT | GQL_TYPE_FLOAT | GQL_TYPE_BOOLEAN | GQL_TYPE_ID | GQL_TYPE_OBJECT | GQL_TYPE_LIST | GQL_TYPE_NON_NULL | GQL_TYPE_ENUM | GQL_TYPE_INPUT_OBJECT | GQL_TYPE_SCALAR.
Inductive gql_operation_t := GQL_OP_QUERY | GQL_OP_MUTATION | GQL_OP_SUBSCRIPTION.
Record gql_argument_t := mk_arg { a_name : list Z; a_type : list Z; is_required : bool; default_value : list Z }.
Record gql_field_t := mk_field { f_name : list Z; scalar : gql_scalar_t; type_name : list Z; is_list : bool; is_non_null : bool; f_args : list gql_argument_t }.
Record gql_type_t := mk_type { t_name : list Z; fields : list gql_field_t; is_input : bool; is_enum : bool; enum_values : list (list Z) }.
Record gql_selection_t := mk_selection { field_name : list Z; is_leaf : bool }.
Record gql_parsed_query_t := mk_parsed { operation : gql_operation_t; operation_name : list Z; target_field : list Z; selections : list gql_selection_t; args : list gql_argument_t }.
(** [resolver] is the function and its context, if the function is not null. *)
Record gql_resolver_t := mk_resolver { r_type : list Z; r_field : list Z; resolver : option nat }.
Record gql_schema_t := mk_schema { types : list gql_type_t; resolvers : list gql_resolver_t; query_type : list Z; mutation_type : list Z; subscription_type : list Z }.
Record gql_engine_t := mk_engine { schema : gql_schema_t; parsed : gql_parsed_query_t; errors : list (list Z) }.

Definition gql_scalar_name (s : gql_scalar_t) : list Z :=
  str_bytes match s with
  | GQL_TYPE_STRING => "String" | GQL_TYPE_INT => "Int" | GQL_TYPE_FLOAT => "Float" | GQL_TYPE_BOOLEAN => "Boolean" | GQL_TYPE_ID => "ID" | GQL_TYPE_OBJECT => "Object"
  | GQL_TYPE_LIST => "List" | GQL_TYPE_NON_NULL => "NonNull" | GQL_TYPE_ENUM => "Enum" | GQL_TYPE_INPUT_OBJECT => "InputObject" | GQL_TYPE_SCALAR => "Scalar"
  end.
Definition gql_operation_name (op : gql_operation_t) : list Z := str_bytes match op with GQL_OP_QUERY => "query" | GQL_OP_MUTATION => "mutation" | GQL_OP_SUBSCRIPTION => "subscription" end.

(** ** The schema *)

Definition gql_schema_init : gql_schema_t := mk_schema [] [] [] [] [].
Definition gql_engine_init : gql_engine_t := mk_engine gql_schema_init (mk_parsed GQL_OP_QUERY [] [] [] []) [].
Definition type_idx (s : gql_schema_t) (n : list Z) : option nat := find_idx (fun t => bool_decide (t_name t = n)) (types s).
Definition gql_find_type_schema (s : gql_schema_t) (n : list Z) : option gql_type_t := type_idx s n ≫= fun i => types s !! i.
(** Changes the type found under a name. *)
Definition with_type (n : list Z) (f : gql_type_t -> gql_type_t) (s : gql_schema_t) : gql_schema_t :=
  match type_idx s n with Some i => s <| types ::= alter f i |> | None => s end.
Definition gql_schema_add_type (s : gql_schema_t) (n : list Z) : gql_schema_t :=
  if (GQL_MAX_TYPES <=? length (types s))%nat then s else s <| types ::= fun ts => ts ++ [mk_type (truncated GQL_MAX_NAME_LEN n) [] false false []] |>.
Definition gql_schema_add_field (s : gql_schema_t) (tn fn : list Z) (sc : gql_scalar_t) (ty : option (list Z)) (lst non_null : bool) : gql_schema_t :=
  with_type tn (fun t =>
    if (GQL_MAX_FIELDS <=? length (fields t))%nat then t
    else t <| fields ::= fun fs => fs ++ [mk_field (truncated GQL_MAX_NAME_LEN fn) sc (truncated GQL_MAX_TYPE_LEN (default [] ty)) lst non_null []] |>) s.
Definition add_arg (an : list Z) (ty : option (list Z)) (required : bool) (f : gql_field_t) : gql_field_t :=
  if (GQL_MAX_ARGS <=? length (f_args f))%nat then f
  else f <| f_args ::= fun l => l ++ [mk_arg (truncated GQL_MAX_NAME_LEN an) (truncated GQL_MAX_TYPE_LEN (default [] ty)) required []] |>.
Definition gql_schema_add_field_arg (s : gql_schema_t) (tn fn an : list Z) (ty : option (list Z)) (required : bool) : gql_schema_t :=
  with_type tn (fun t =>
    match find_idx (fun f => bool_decide (f_name f = fn)) (fields t) with
    | Some i => t <| fields ::= alter (add_arg an ty required) i |>
    | None => t
    end) s.
Definition add_value (v : list Z) (t : gql_type_t) : gql_type_t :=
  if (GQL_MAX_FIELDS <=? length (enum_values t))%nat then t else t <| enum_values ::= fun l => l ++ [truncated GQL_MAX_NAME_LEN v] |>.
Definition gql_schema_add_enum_value (s : gql_schema_t) (tn v : list Z) : gql_schema_t :=
  with_type tn (fun t => if (GQL_MAX_FIELDS <=? length (enum_values t))%nat then t else add_value v (t <| is_enum := true |>)) s.
Definition gql_schema_set_query_type (s : gql_schema_t) (n : list Z) : gql_schema_t := s <| query_type := truncated GQL_MAX_NAME_LEN n |>.
Definition gql_schema_set_mutation_type (s : gql_schema_t) (n : list Z) : gql_schema_t := s <| mutation_type := truncated GQL_MAX_NAME_LEN n |>.
Definition gql_schema_add_resolver (s : gql_schema_t) (tn fn : list Z) (f : option nat) : gql_schema_t :=
  if (GQL_MAX_RESOLVERS <=? length (resolvers s))%nat then s
  else s <| resolvers ::= fun l => l ++ [mk_resolver (truncated GQL_MAX_NAME_LEN tn) (truncated GQL_MAX_NAME_LEN fn) f] |>.
Definition gql_find_type (e : gql_engine_t) (n : list Z) : option gql_type_t := gql_find_type_schema (schema e) n.
Definition gql_type_field_count (e : gql_engine_t) (n : list Z) : nat := match gql_find_type e n with Some t => length (fields t) | None => O end.
Definition gql_has_field (e : gql_engine_t) (tn fn : list Z) : bool :=
  match gql_find_type e tn with Some t => existsb (fun f => bool_decide (f_name f = fn)) (fields t) | None => false end.

(** ** Words *)

Definition isalpha (c : Z) : bool := (65 <=? c) && (c <=? 90) || (97 <=? c) && (c <=? 122).
Definition isalnum (c : Z) : bool := isalpha c || is_digit c.
Definition name_start (c : Z) : bool := isalpha c || (c =? 95).
Definition name_char (c : Z) : bool := isalnum c || (c =? 95).
Definition at_char (p : list Z) (f : Z -> bool) : bool := match p with c :: _ => f c | [] => false end.
Definition starts (p : list Z) (c : Z) : bool := at_char p (Z.eqb c).
(** [if ( *p == c) p++] *)
Definition skip_char (c : Z) (p : list Z) : list Z := if starts p c then tl p else p.
Definition gql_skip_whitespace (p : list Z) : list Z := skip_spaces p.
(** The characters from [start] to [p], in a buffer of [len] bytes. *)
Definition word (start p : list Z) (len : nat) : list Z := truncated len (take (length start - length p) start).
(** The name, [None] for null, and the pointer after the call. *)
Definition gql_parse_name (p : list Z) (len : nat) : option (list Z) * list Z :=
  let p := gql_skip_whitespace p in
  if negb (at_char p name_start) then (None, p)
  else let q := drop_while name_char p in (Some (word p q len), gql_skip_whitespace q).
Definition number_end (p : list Z) : list Z :=
  let p := skip_char 45 p in
  let p := drop_while is_digit p in
  let p := if starts p 46 then drop_while is_digit (tl p) else p in
  if at_char p (fun c => (c =? 101) || (c =? 69)) then
    let p := tl p in drop_while is_digit (if at_char p (fun c => (c =? 43) || (c =? 45)) then tl p else p)
  else p.
Definition gql_parse_value (p : list Z) (len : nat) : option (list Z) * list Z :=
  let p := gql_skip_whitespace p in
  let done q := (Some (word p q len), gql_skip_whitespace q) in
  if starts p 36 then if negb (at_char (tl p) name_start) then (None, tl p) else done (drop_while name_char (tl p))
  else if at_char p name_start then done (drop_while name_char p)
  else if starts p 45 || at_char p is_digit then done (number_end p)
  else (None, p).
(** A text in quotes from behind the first one, or a value. *)
Definition parse_arg_value (p : list Z) : option (list Z) * list Z :=
  if starts p 34 then let q := drop_while (fun c => negb (c =? 34)) (tl p) in (Some (word (tl p) q 256), skip_char 34 q)
  else gql_parse_value p 256.

(** ** Queries *)

(** The arguments behind the parenthesis: whether the query is still good, and the pointer. *)
Fixpoint parse_args (fuel : nat) (s : gql_parsed_query_t) (p : list Z) : option (bool * gql_parsed_query_t * list Z) :=
  match fuel with
  | O => None
  | S fuel =>
      if bool_decide (p = []) || starts p 41 then Some (true, s, p)
      else
        let '(n, p) := gql_parse_name p GQL_MAX_NAME_LEN in
        match n with
        | None => Some (false, s, p)
        | Some n =>
            let p := gql_skip_whitespace p in
            if negb (starts p 58) then Some (false, s, p)
            else
              let '(v, p) := parse_arg_value (gql_skip_whitespace (tl p)) in
              match v with
              | None => Some (false, s, p)
              | Some v =>
                  let s := if (length (args s) <? GQL_MAX_ARGS)%nat then s <| args ::= fun l => l ++ [mk_arg (truncated GQL_MAX_NAME_LEN n) [] false (truncated 256 v)] |> else s in
                  parse_args fuel s (skip_char 44 (gql_skip_whitespace p))
              end
        end
  end.
(** The arguments in parentheses, if there are any; the closing one may be missing. *)
Definition parse_paren (s : gql_parsed_query_t) (p : list Z) : option (bool * gql_parsed_query_t * list Z) :=
  if starts p 40 then
    '(ok, s, p) ← parse_args (S (length p)) s (tl p);
    Some (ok, s, if (ok : bool) then skip_char 41 p else p)
  else Some (true, s, p).
(** From behind an opening brace to behind the one that closes it. *)
Fixpoint skip_block (p : list Z) (depth : Z) : list Z :=
  match p with
  | [] => []
  | c :: p' => if 0 <? depth then skip_block p' (if c =? 123 then depth + 1 else if c =? 125 then depth - 1 else depth) else p
  end.
Fixpoint parse_selections (fuel : nat) (s : gql_parsed_query_t) (p : list Z) : option (bool * gql_parsed_query_t * list Z) :=
  match fuel with
  | O => None
  | S fuel =>
      if bool_decide (p = []) then Some (true, s, p)
      else
        let p := gql_skip_whitespace p in
        if starts p 125 then Some (true, s, tl p)
        else if (GQL_MAX_SELECTION <=? length (selections s))%nat then Some (false, s, p)
        else
          let '(n, p) := gql_parse_name p GQL_MAX_NAME_LEN in
          match n with
          | None => Some (false, s, p)
          | Some n =>
              let i := length (selections s) in
              let s := s <| selections ::= fun l => l ++ [mk_selection (truncated GQL_MAX_NAME_LEN n) true] |> in
              '(ok, s, p) ← parse_paren s (gql_skip_whitespace p);
              if negb ok then Some (false, s, p)
              else
                let p := gql_skip_whitespace p in
                let '(s, p) := if starts p 123 then (s <| selections ::= alter (fun x => x <| is_leaf := false |>) i |>, skip_block (tl p) 1) else (s, p) in
                parse_selections fuel s (skip_char 44 p)
          end
  end.
Definition gql_parse_selection_set (s : gql_parsed_query_t) (p : list Z) : option (bool * gql_parsed_query_t * list Z) :=
  if negb (starts p 123) then Some (false, s, p) else parse_selections (S (length p)) s (tl p).
Definition parse_operation (p : list Z) : option (gql_operation_t * list Z) :=
  match starts_with (str_bytes "mutation") p, starts_with (str_bytes "subscription") p, starts_with (str_bytes "query") p with
  | Some p, _, _ => Some (GQL_OP_MUTATION, p)
  | None, Some p, _ => Some (GQL_OP_SUBSCRIPTION, p)
  | None, None, Some p => Some (GQL_OP_QUERY, p)
  | None, None, None => None
  end.
Definition parse_query (query : list Z) : option (bool * gql_parsed_query_t) :=
  let p := gql_skip_whitespace query in
  let '(op, n, p) := match parse_operation p with
    | Some (op, p) =>
        let p := gql_skip_whitespace p in
        let '(n, p) := if at_char p isalpha then gql_parse_name p GQL_MAX_NAME_LEN else (None, p) in
        (op, default [] n, gql_skip_whitespace p)
    | None => (GQL_OP_QUERY, [], p)
    end in
  let s := mk_parsed op n [] [] [] in
  if starts p 123 then '(ok, s, _) ← gql_parse_selection_set s p; Some (ok, s)
  else
    let '(t, p) := gql_parse_name p GQL_MAX_NAME_LEN in
    match default [] t with
    | [] => Some (false, s)
    | t =>
        let s := s <| target_field := t |> in
        '(ok, s, p) ← parse_paren s (gql_skip_whitespace p);
        if negb ok then Some (false, s)
        else
          let p := gql_skip_whitespace p in
          if starts p 123 then '(ok, s, _) ← gql_parse_selection_set s p; Some (ok, s)
          else Some (0 <? length (selections s), s)%nat
    end.
Definition gql_parse_query (e : gql_engine_t) (query : list Z) : option (bool * gql_engine_t) :=
  '(ok, s) ← parse_query query; Some (ok, mk_engine (schema e) s []).

(** ** Schema texts *)

Fixpoint sdl_args (fuel : nat) (tn fn : list Z) (s : gql_schema_t) (p : list Z) : option (gql_schema_t * list Z) :=
  match fuel with
  | O => None
  | S fuel =>
      if bool_decide (p = []) || starts p 41 then Some (s, p)
      else
        let '(an, p) := gql_parse_name p GQL_MAX_NAME_LEN in
        match an with
        | None => Some (s, p)
        | Some an =>
            let p := gql_skip_whitespace p in
            if negb (starts p 58) then Some (s, p)
            else
              let '(ty, p) := gql_parse_name (gql_skip_whitespace (tl p)) GQL_MAX_NAME_LEN in
              match ty with
              | None => Some (s, p)
              | Some ty => sdl_args fuel tn fn (gql_schema_add_field_arg s tn fn an (Some ty) (starts p 33)) (skip_char 44 (skip_char 33 p))
              end
        end
  end.
Definition scalar_of (ty : list Z) : gql_scalar_t :=
  if bool_decide (ty = str_bytes "Int") then GQL_TYPE_INT else if bool_decide (ty = str_bytes "Float") then GQL_TYPE_FLOAT
  else if bool_decide (ty = str_bytes "Boolean") then GQL_TYPE_BOOLEAN else if bool_decide (ty = str_bytes "ID") then GQL_TYPE_ID else GQL_TYPE_STRING.
Fixpoint sdl_fields (fuel : nat) (tn : list Z) (s : gql_schema_t) (p : list Z) : option (gql_schema_t * list Z) :=
  match fuel with
  | O => None
  | S fuel =>
      if bool_decide (p = []) || starts p 125 then Some (s, p)
      else
        let p := gql_skip_whitespace p in
        if bool_decide (p = []) || starts p 125 then Some (s, p)
        else
          let '(fn, p) := gql_parse_name p GQL_MAX_NAME_LEN in
          match fn with
          | None => Some (s, p)
          | Some fn =>
              let p := gql_skip_whitespace p in
              '(s, p) ← (if starts p 40 then '(s, p) ← sdl_args (S (length p)) tn fn s (tl p); Some (s, skip_char 41 p) else Some (s, p));
              let p := gql_skip_whitespace p in
              if negb (starts p 58) then sdl_fields fuel tn s p
              else
                let p := gql_skip_whitespace (tl p) in
                let lst := starts p 91 in
                let '(ty, p) := gql_parse_name (skip_char 91 p) GQL_MAX_NAME_LEN in
                match ty with
                | None => Some (s, p)
                | Some ty =>
                    let p := if lst then skip_char 93 (gql_skip_whitespace p) else p in
                    sdl_fields fuel tn (gql_schema_add_field s tn fn (scalar_of ty) (Some ty) lst (starts p 33)) (skip_char 33 p)
                end
          end
  end.
Fixpoint sdl_values (fuel : nat) (tn : list Z) (s : gql_schema_t) (p : list Z) : option (gql_schema_t * list Z) :=
  match fuel with
  | O => None
  | S fuel =>
      if bool_decide (p = []) || starts p 125 then Some (s, p)
      else
        let p := gql_skip_whitespace p in
        if bool_decide (p = []) || starts p 125 then Some (s, p)
        else
          let '(v, p) := gql_parse_name p GQL_MAX_NAME_LEN in
          match v with None => Some (s, p) | Some v => sdl_values fuel tn (with_type tn (add_value v) s) p end
  end.
(** The text behind a keyword that stands alone. *)
Definition keyword (k : string) (p : list Z) : option (list Z) := q ← starts_with (str_bytes k) p; if at_char q isalnum then None else Some q.
Definition in_braces (body : list Z -> option (gql_schema_t * list Z)) (s : gql_schema_t) (p : list Z) : option (gql_schema_t * list Z) :=
  let p := gql_skip_whitespace p in
  if starts p 123 then '(s, p) ← body (tl p); Some (s, skip_char 125 p) else Some (s, p).
Fixpoint sdl_loop (fuel : nat) (s : gql_schema_t) (p : list Z) : option gql_schema_t :=
  match fuel with
  | O => None
  | S fuel =>
      let p := gql_skip_whitespace p in
      if bool_decide (p = []) then Some s
      else if starts p 35 then sdl_loop fuel s (drop_while (fun c => negb (c =? 10)) p)
      else
        match keyword "type" p, keyword "enum" p with
        | Some p, _ =>
            let '(n, p) := gql_parse_name (gql_skip_whitespace p) GQL_MAX_NAME_LEN in
            match n with
            | None => Some s
            | Some n => '(s, p) ← in_braces (fun p => sdl_fields (S (length p)) n (gql_schema_add_type s n) p) (gql_schema_add_type s n) p; sdl_loop fuel s p
            end
        | None, Some p =>
            let '(n, p) := gql_parse_name (gql_skip_whitespace p) GQL_MAX_NAME_LEN in
            match n with
            | None => Some s
            | Some n =>
                let s := match gql_find_type_schema s n with None => gql_schema_add_type s n | Some _ => s end in
                let s := with_type n (fun t => t <| is_enum := true |>) s in
                '(s, p) ← in_braces (fun p => sdl_values (S (length p)) n s p) s p; sdl_loop fuel s p
            end
        | None, None => sdl_loop fuel s (tl p)
        end
  end.
Definition gql_parse_schema_sdl (e : gql_engine_t) (sdl : list Z) : option gql_engine_t := s ← sdl_loop (S (length sdl)) (schema e) sdl; Some (e <| schema := s |>).

(** ** Checks, limits and execution *)

(** [errors[error_count++] = text]. *)
Definition add_error (text : list Z) (e : gql_engine_t) : option gql_engine_t := if (length (errors e) <? GQL_MAX_ERRORS)%nat then Some (e <| errors ::= fun l => l ++ [text] |>) else None.
Definition no_errors (e : gql_engine_t) : gql_engine_t := e <| errors := [] |>.
Definition is_empty (l : list Z) : bool := bool_decide (l = []).
Definition gql_validate_query (e : gql_engine_t) : option (bool * gql_engine_t) :=
  let e := no_errors e in
  if bool_decide (gql_find_type e (query_type (schema e)) = None) && negb (is_empty (query_type (schema e))) then e ← add_error (str_bytes "Query type not found in schema") e; Some (false, e)
  else if bool_decide (selections (parsed e) = []) && is_empty (target_field (parsed e)) then e ← add_error (str_bytes "No fields selected in query") e; Some (false, e)
  else Some (true, e).
(** The resolvers that are called, in their order. *)
Definition gql_execute (e : gql_engine_t) : list nat :=
  sel ← selections (parsed e);
  omap (fun r => if bool_decide (r_field r = field_name sel) then resolver r else None) (resolvers (schema e)).
Definition gql_error_count (e : gql_engine_t) : nat := length (errors e).
Definition gql_error_message (e : gql_engine_t) (i : Z) : option (list Z) := if (i <? 0) || (Z.of_nat (length (errors e)) <=? i) then None else errors e !! Z.to_nat i.
Definition gql_calculate_query_cost (e : gql_engine_t) : Z :=
  foldl (fun c s => if is_leaf s then c + 1 else c + 2) 1 (selections (parsed e)) + Z.of_nat (length (args (parsed e))).
Definition gql_calculate_query_depth (e : gql_engine_t) : Z :=
  match selections (parsed e) with
  | [] => 0
  | ss => let d := foldl (fun m s => Z.max m (if is_leaf s then 1 else 2)) 0 ss in if is_empty (target_field (parsed e)) then d else d + 1
  end.
Definition exceeds (what : string) (n max : Z) : list Z := truncated 511 (str_bytes "Query " ++ str_bytes what ++ [32] ++ print_lld n ++ str_bytes " exceeds max " ++ print_lld max).
Definition gql_limit_query_complexity (e : gql_engine_t) (max_cost max_depth : Z) : option (bool * gql_engine_t) :=
  let cost := gql_calculate_query_cost e in
  let depth := gql_calculate_query_depth e in
  let e := no_errors e in
  if max_cost <? cost then e ← add_error (exceeds "cost" cost max_cost) e; Some (false, e)
  else if max_depth <? depth then e ← add_error (exceeds "depth" depth max_depth) e; Some (false, e)
  else Some (true, e).
(** Adds an error when the name is empty; [valid] is the first component. *)
Definition check_name (n text : list Z) (st : option (bool * gql_engine_t)) : option (bool * gql_engine_t) :=
  '(valid, e) ← st; if is_empty n then e ← add_error (truncated 511 text) e; Some (false, e) else Some (valid, e).
Definition check_type (st : option (bool * gql_engine_t)) (it : nat * gql_type_t) : option (bool * gql_engine_t) :=
  let '(i, t) := it in
  let st := check_name (t_name t) (str_bytes "Type at index " ++ print_lld (Z.of_nat i) ++ str_bytes " has no name") st in
  foldl (fun st jf => check_name (f_name jf.2) (str_bytes "Field at index " ++ print_lld (Z.of_nat jf.1) ++ str_bytes " in type " ++ t_name t ++ str_bytes " has no name") st) st (imap pair (fields t)).
Definition gql_validate_schema (e : gql_engine_t) : option (bool * gql_engine_t) :=
  let e := no_errors e in
  match types (schema e) with
  | [] => e ← add_error (str_bytes "Schema has no types defined") e; Some (false, e)
  | ts =>
      '(valid, e) ← foldl check_type (Some (true, e)) (imap pair ts);
      if negb (is_empty (query_type (schema e))) && bool_decide (gql_find_type e (query_type (schema e)) = None)
      then e ← add_error (truncated 511 (str_bytes "Query type '" ++ query_type (schema e) ++ str_bytes "' not found in schema")) e; Some (false, e)
      else Some (valid, e)
  end.

(** ** Printing *)

Definition quoted (s : list Z) : list Z := [34] ++ s ++ [34].
Definition comma (i : nat) : list Z := if (0 <? i)%nat then [44] else [].
Definition named (n : list Z) : list Z := quoted (str_bytes "name") ++ [58] ++ quoted n.
(** A number of texts, one after the other. *)
Definition print_list {A} (len : nat) (f : nat -> A -> list Z) (l : list A) (st : list Z * nat) : option (list Z * nat) := sprint_all len st (imap f l).
Definition introspect_type (len : nat) (st : list Z * nat) (it : nat * gql_type_t) : option (list Z * nat) :=
  let '(i, t) := it in
  st ← sprint len st (comma i ++ [123] ++ named (t_name t) ++ [44] ++ quoted (str_bytes "kind") ++ [58] ++ quoted (if is_enum t then str_bytes "ENUM" else str_bytes "OBJECT") ++ [44] ++ quoted (str_bytes "fields") ++ str_bytes ":[");
  st ← print_list len (fun j f => comma j ++ [123] ++ named (f_name f) ++ [44] ++ quoted (str_bytes "type") ++ str_bytes ":{" ++ named (type_name f) ++ str_bytes "}}") (fields t) st;
  sprint len st (str_bytes "]}").
(** The loop ends early when the buffer is full. *)
Fixpoint introspect_types (len : nat) (its : list (nat * gql_type_t)) (st : list Z * nat) : option (list Z * nat) :=
  match its with
  | [] => Some st
  | it :: its => if (len <=? st.2)%nat then Some st else st ← introspect_type len st it; introspect_types len its st
  end.
Definition gql_introspect_schema (e : gql_engine_t) (len : nat) : option (list Z) :=
  st ← sprint len ([], O) ([123] ++ quoted (str_bytes "__schema") ++ str_bytes ":{" ++ quoted (str_bytes "queryType") ++ str_bytes ":{" ++ named (query_type (schema e)) ++ str_bytes "}," ++ quoted (str_bytes "types") ++ str_bytes ":[");
  st ← introspect_types len (imap pair (types (schema e))) st;
  fst <$> sprint len st (str_bytes "]}}").
Definition gql_introspect_type (e : gql_engine_t) (n : list Z) (len : nat) : option (list Z) :=
  match gql_find_type e n with
  | None => Some (truncated len ([123] ++ quoted (str_bytes "error") ++ [58] ++ quoted (str_bytes "Type '" ++ n ++ str_bytes "' not found") ++ [125]))
  | Some t =>
      st ← sprint len ([], O) ([123] ++ named (t_name t) ++ [44] ++ quoted (str_bytes "fields") ++ str_bytes ":[");
      st ← print_list len (fun j f => comma j ++ [123] ++ named (f_name f) ++ [44] ++ quoted (str_bytes "type") ++ [58] ++ quoted (type_name f) ++ [125]) (fields t) st;
      fst <$> sprint len st (str_bytes "]}")
  end.
Definition arg_text (k : nat) (a : gql_argument_t) : list Z := (if (0 <? k)%nat then [44; 32] else []) ++ a_name a ++ str_bytes ": " ++ a_type a ++ (if is_required a then [33] else []).
(** What is printed for a field and for a type, piece by piece. *)
Definition field_texts (f : gql_field_t) : list (list Z) :=
  [str_bytes "  " ++ f_name f] ++
  (match f_args f with [] => [] | l => [str_bytes "("] ++ imap arg_text l ++ [str_bytes ")"] end) ++
  [str_bytes ": " ++ type_name f ++ (if is_list f then str_bytes "[]" else []) ++ (if is_non_null f then [33] else []) ++ [10]].
Definition type_texts (t : gql_type_t) : list (list Z) :=
  if is_enum t then [str_bytes "enum " ++ t_name t ++ [32; 123; 10]] ++ ((fun v => str_bytes "  " ++ v ++ [10]) <$> enum_values t) ++ [[125; 10; 10]]
  else [str_bytes "type " ++ t_name t ++ [32; 123; 10]] ++ concat (field_texts <$> fields t) ++ [[125; 10; 10]].
Definition query_text (q : list Z) : list Z := str_bytes "schema {" ++ [10] ++ str_bytes "  query: " ++ q ++ [10; 125; 10].
Definition gql_sdl_from_schema (e : gql_engine_t) (len : nat) : option (list Z) :=
  fst <$> sprint_all len ([], O) (concat (type_texts <$> types (schema e)) ++
    match query_type (schema e) with [] => [] | q => [query_text q] end).

(** * Properties *)



(** ** The pointers move forward *)

Lemma skip_char_le c p : (length (skip_char c p) <= length p)%nat.
Proof. unfold skip_char. destruct (starts p c); [|lia]. destruct p; cbn; lia. Qed.
Lemma tl_le (p : list Z) : (length (tl p) <= length p)%nat.
Proof. destruct p; cbn; lia. Qed.
Lemma skip_block_le p : forall d, (length (skip_block p d) <= length p)%nat.
Proof. induction p as [|c p IH]; intros d; cbn; [lia|]. destruct (0 <? d); [|cbn; lia]. specialize (IH (if c =? 123 then d + 1 else if c =? 125 then d - 1 else d)). lia. Qed.
Lemma number_end_le p : (length (number_end p) <= length p)%nat.
Proof.
  unfold number_end. set (a := skip_char 45 p). set (b := drop_while is_digit a). set (c := if starts b 46 then drop_while is_digit (tl b) else b).
  assert (Hc : (length c <= length p)%nat) by (subst c b a; pose proof (skip_char_le 45 p); pose proof (drop_while_le is_digit (skip_char 45 p)); pose proof (drop_while_le is_digit (tl (drop_while is_digit (skip_char 45 p)))); pose proof (tl_le (drop_while is_digit (skip_char 45 p))); destruct (starts _ 46); lia).
  destruct (at_char c _); [|done]. pose proof (tl_le c). pose proof (tl_le (tl c)). destruct (at_char (tl c) _); [pose proof (drop_while_le is_digit (tl (tl c)))|pose proof (drop_while_le is_digit (tl c))]; lia.
Qed.
Lemma parse_name_le p len : let '(n, q) := gql_parse_name p len in (length q <= length p)%nat /\ (n <> None -> (length q < length p)%nat).
Proof.
  unfold gql_parse_name, gql_skip_whitespace. pose proof (skip_spaces_le p) as H1. destruct (skip_spaces p) as [|c q]; cbn [at_char negb]; [by split|]. destruct (name_start c) eqn:Hc; cbn [negb]; [|by split].
  cbn [drop_while]. assert (Hn : name_char c = true) by (unfold name_start, name_char, isalnum in *; apply orb_true_iff in Hc as [-> | ->]; [done|by rewrite orb_true_r]). rewrite Hn.
  pose proof (drop_while_le name_char q). pose proof (skip_spaces_le (drop_while name_char q)). cbn [length] in *. split; [lia|]. lia.
Qed.
Lemma parse_value_le p len : (length (gql_parse_value p len).2 <= length p)%nat.
Proof.
  unfold gql_parse_value, gql_skip_whitespace. pose proof (skip_spaces_le p). set (q := skip_spaces p) in *. pose proof (tl_le q).
  destruct (starts q 36); [destruct (negb _); cbn [snd]; [lia|]|].
  - pose proof (skip_spaces_le (drop_while name_char (tl q))). pose proof (drop_while_le name_char (tl q)). lia.
  - destruct (at_char q name_start); cbn [snd]; [pose proof (skip_spaces_le (drop_while name_char q)); pose proof (drop_while_le name_char q); lia|].
    destruct (_ || _); cbn [snd]; [|lia]. pose proof (skip_spaces_le (number_end q)). pose proof (number_end_le q). lia.
Qed.
Lemma parse_arg_value_le p : (length (parse_arg_value p).2 <= length p)%nat.
Proof.
  unfold parse_arg_value. destruct (starts p 34); [cbn [snd]|apply parse_value_le]. pose proof (skip_char_le 34 (drop_while (fun c => negb (c =? 34)) (tl p))). pose proof (drop_while_le (fun c => negb (c =? 34)) (tl p)). pose proof (tl_le p). lia.
Qed.
Lemma starts_tl p c : starts p c = true -> (length (tl p) < length p)%nat.
Proof. destruct p; cbn; [done|lia]. Qed.

(** ** Queries *)

Definition parsed_ok (s : gql_parsed_query_t) : Prop := (length (selections s) <= GQL_MAX_SELECTION)%nat /\ (length (args s) <= GQL_MAX_ARGS)%nat.
(** The call ends, and what it leaves is in order. *)
Definition parses (r : option (bool * gql_parsed_query_t * list Z)) (p : list Z) : Prop := exists ok s q, r = Some (ok, s, q) /\ parsed_ok s /\ (length q <= length p)%nat.
Lemma parses_some ok s q p : parsed_ok s -> (length q <= length p)%nat -> parses (Some (ok, s, q)) p.
Proof. intros Hs Hq. by exists ok, s, q. Qed.
Lemma parses_mono r p q : parses r p -> (length p <= length q)%nat -> parses r q.
Proof. intros (ok & s & r' & -> & Hs & Hl) Hq. apply parses_some; [done|lia]. Qed.
Lemma parse_args_ends fuel : forall s p, (length p < fuel)%nat -> parsed_ok s -> parses (parse_args fuel s p) p.
Proof.
  induction fuel as [|fuel IH]; intros s p Hf Hs; [lia|]. cbn [parse_args]. destruct (_ || _); [by apply parses_some|].
  pose proof (parse_name_le p GQL_MAX_NAME_LEN) as Hn. destruct (gql_parse_name p GQL_MAX_NAME_LEN) as [[n|] q]; [|apply parses_some; [done|lia]]. destruct Hn as [_ Hn]. specialize (Hn ltac:(done)).
  pose proof (skip_spaces_le q) as Hq. unfold gql_skip_whitespace at 1 2 3. set (q1 := skip_spaces q) in *. destruct (negb _); [apply parses_some; [done|lia]|].
  pose proof (parse_arg_value_le (gql_skip_whitespace (tl q1))) as Hv. unfold gql_skip_whitespace in Hv. pose proof (skip_spaces_le (tl q1)). pose proof (tl_le q1). fold gql_skip_whitespace.
  unfold gql_skip_whitespace at 1. destruct (parse_arg_value _) as [[v|] q2]; cbn [snd] in Hv; [|apply parses_some; [done|lia]].
  pose proof (skip_spaces_le q2). pose proof (skip_char_le 44 (skip_spaces q2)). eapply parses_mono; [apply IH|]; unfold gql_skip_whitespace; [lia| |lia].
  destruct Hs as [Hs1 Hs2]. destruct (Nat.ltb_spec (length (args s)) GQL_MAX_ARGS); split; cbn; rewrite ?length_app; cbn; lia.
Qed.
Lemma parse_paren_ends s p : parsed_ok s -> parses (parse_paren s p) p.
Proof.
  intros Hs. unfold parse_paren. destruct (starts p 40) eqn:Hp; [|by apply parses_some]. apply starts_tl in Hp. destruct (parse_args_ends (S (length p)) s (tl p)) as (ok & s' & q & -> & Hs' & Hq); [lia|done|].
  cbn [mbind option_bind]. apply parses_some; [done|]. pose proof (skip_char_le 41 q). destruct ok; lia.
Qed.
Lemma parse_selections_ends fuel : forall s p, (length p < fuel)%nat -> parsed_ok s -> parses (parse_selections fuel s p) p.
Proof.
  induction fuel as [|fuel IH]; intros s p Hf Hs; [lia|]. cbn [parse_selections]. destruct (bool_decide _); [by apply parses_some|].
  pose proof (skip_spaces_le p) as Hp. unfold gql_skip_whitespace at 1 2 3 4. set (p1 := skip_spaces p) in *. pose proof (tl_le p1). destruct (starts p1 125); [apply parses_some; [done|lia]|].
  destruct (Nat.leb_spec GQL_MAX_SELECTION (length (selections s))); [apply parses_some; [done|lia]|].
  pose proof (parse_name_le p1 GQL_MAX_NAME_LEN) as Hn. destruct (gql_parse_name p1 GQL_MAX_NAME_LEN) as [[n|] q]; [|apply parses_some; [done|lia]]. destruct Hn as [_ Hn]. specialize (Hn ltac:(done)).
  set (s1 := s <| selections ::= _ |>). assert (Hs1 : parsed_ok s1) by (destruct Hs; split; cbn; rewrite ?length_app; cbn; lia).
  destruct (parse_paren_ends s1 (gql_skip_whitespace q) Hs1) as (ok & s2 & q2 & -> & Hs2 & Hq2). unfold gql_skip_whitespace in *. pose proof (skip_spaces_le q). cbn [mbind option_bind].
  destruct ok; cbn [negb]; [|apply parses_some; [done|lia]]. pose proof (skip_spaces_le q2). set (q3 := skip_spaces q2) in *. pose proof (tl_le q3).
  destruct (starts q3 123).
  - pose proof (skip_block_le (tl q3) 1). pose proof (skip_char_le 44 (skip_block (tl q3) 1)). eapply parses_mono; [apply IH|]; [lia| |lia]. destruct Hs2 as [Hs3 Hs4]. split; cbn; rewrite ?length_alter; done.
  - pose proof (skip_char_le 44 q3). eapply parses_mono; [apply IH|]; [lia|done|lia].
Qed.
Lemma parse_selection_set_ends s p : parsed_ok s -> exists ok s' q, gql_parse_selection_set s p = Some (ok, s', q) /\ parsed_ok s'.
Proof.
  intros Hs. unfold gql_parse_selection_set. destruct (negb _); [by eexists _, _, _|]. pose proof (tl_le p). destruct (parse_selections_ends (S (length p)) s (tl p)) as (ok & s' & q & -> & Hs' & _); [lia|done|]. by eexists _, _, _.
Qed.
Lemma parse_query_ends q : exists ok s, parse_query q = Some (ok, s) /\ parsed_ok s.
Proof.
  unfold parse_query. destruct (match parse_operation _ with Some _ => _ | None => _ end) as [[op n] p]. set (s := mk_parsed op n [] [] []). assert (Hs : parsed_ok s) by (split; cbn; lia).
  assert (Hset : forall s p, parsed_ok s -> exists ok s', ('(ok, s, _) ← gql_parse_selection_set s p; Some (ok, s)) = Some (ok, s') /\ parsed_ok s').
  { intros s' p' Hs'. destruct (parse_selection_set_ends s' p' Hs') as (ok & s2 & r & -> & H2). by exists ok, s2. }
  destruct (starts p 123); [by apply Hset|]. destruct (gql_parse_name p GQL_MAX_NAME_LEN) as [t p1]. destruct (default [] t) as [|c t']; [by eexists _, _|].
  destruct (parse_paren_ends (s <| target_field := c :: t' |>) (gql_skip_whitespace p1)) as (ok & s2 & p2 & -> & H2 & _); [by split; cbn; lia|]. cbn [mbind option_bind].
  destruct ok; cbn [negb]; [|by eexists _, _]. destruct (starts _ 123); [by apply Hset|by eexists _, _].
Qed.
(** Parsing a query ends for every text, keeps the schema, and within the arrays: however deep
    the query is nested, its depth is at most 3 and its cost at most 137. *)
Theorem gql_parse_query_bounded e q : exists ok e', gql_parse_query e q = Some (ok, e') /\ schema e' = schema e /\
  (length (selections (parsed e')) <= GQL_MAX_SELECTION)%nat /\ (length (args (parsed e')) <= GQL_MAX_ARGS)%nat /\
  0 <= gql_calculate_query_depth e' <= 3 /\ 1 <= gql_calculate_query_cost e' <= 137.
Proof.
  unfold gql_parse_query. destruct (parse_query_ends q) as (ok & s & -> & H1 & H2). cbn [mbind option_bind]. eexists _, _. split; [done|]. split; [done|]. split; [done|]. split; [done|].
  unfold gql_calculate_query_depth, gql_calculate_query_cost. cbn [parsed]. unfold GQL_MAX_SELECTION, GQL_MAX_ARGS in *.
  assert (Hd : forall ss m, 0 <= m <= 2 -> 0 <= foldl (fun m s => Z.max m (if is_leaf s then 1 else 2)) m ss <= 2) by (induction ss as [|x ss IH]; intros m Hm; cbn; [lia|]; apply IH; destruct (is_leaf x); lia).
  assert (Hc : forall ss c, c <= foldl (fun c s => if is_leaf s then c + 1 else c + 2) c ss <= c + 2 * Z.of_nat (length ss)).
  { induction ss as [|x ss IH]; intros c; cbn [foldl length]; [lia|]. destruct (is_leaf x); [specialize (IH (c + 1))|specialize (IH (c + 2))]; lia. }
  specialize (Hd (selections s) 0 ltac:(lia)). specialize (Hc (selections s) 1). split; [|lia]. destruct (selections s) as [|x ss]; [lia|]. destruct (is_empty _); lia.
Qed.

(** ** Schema texts: they end, within the arrays *)

Definition type_ok (t : gql_type_t) : Prop :=
  (length (fields t) <= GQL_MAX_FIELDS)%nat /\ Forall (fun f => (length (f_args f) <= GQL_MAX_ARGS)%nat) (fields t) /\ (length (enum_values t) <= GQL_MAX_FIELDS)%nat.
Definition schema_ok (s : gql_schema_t) : Prop := (length (types s) <= GQL_MAX_TYPES)%nat /\ Forall type_ok (types s).
Lemma with_type_ok n f s : (forall t, type_ok t -> type_ok (f t)) -> schema_ok s -> schema_ok (with_type n f s).
Proof.
  intros Hf [H1 H2]. unfold with_type. destruct (type_idx s n) as [i|]; [|done]. split; cbn; [by rewrite length_alter|]. apply Forall_alter; [done|]. intros t _ Ht. by apply Hf.
Qed.
Lemma add_type_ok s n : schema_ok s -> schema_ok (gql_schema_add_type s n).
Proof.
  intros [H1 H2]. unfold gql_schema_add_type. destruct (Nat.leb_spec GQL_MAX_TYPES (length (types s))); [done|]. split; cbn; [rewrite length_app; cbn; lia|]. apply Forall_app. split; [done|]. repeat constructor; cbn; lia.
Qed.
Lemma add_field_ok s tn fn sc ty l nn : schema_ok s -> schema_ok (gql_schema_add_field s tn fn sc ty l nn).
Proof.
  apply with_type_ok. intros t (H1 & H2 & H3). destruct (Nat.leb_spec GQL_MAX_FIELDS (length (fields t))); [done|]. split; [|split]; cbn; [rewrite length_app; cbn; lia| |done]. apply Forall_app. split; [done|]. repeat constructor; cbn; lia.
Qed.
Lemma add_field_arg_ok s tn fn an ty r : schema_ok s -> schema_ok (gql_schema_add_field_arg s tn fn an ty r).
Proof.
  apply with_type_ok. intros t (H1 & H2 & H3). destruct (find_idx _ _) as [i|]; [|done]. split; [|split]; cbn; [by rewrite length_alter| |done]. apply Forall_alter; [done|]. intros f _ Hf. unfold add_arg.
  destruct (Nat.leb_spec GQL_MAX_ARGS (length (f_args f))); [done|]. cbn. rewrite length_app. cbn. lia.
Qed.
Lemma add_value_ok v t : type_ok t -> type_ok (add_value v t).
Proof. intros (H1 & H2 & H3). unfold add_value. destruct (Nat.leb_spec GQL_MAX_FIELDS (length (enum_values t))); [done|]. split; [done|]. split; [done|]. cbn. rewrite length_app. cbn. lia. Qed.
Definition sdl_done (r : option (gql_schema_t * list Z)) (p : list Z) : Prop := exists s q, r = Some (s, q) /\ schema_ok s /\ (length q <= length p)%nat.
Lemma sdl_done_some s q p : schema_ok s -> (length q <= length p)%nat -> sdl_done (Some (s, q)) p.
Proof. intros Hs Hq. by exists s, q. Qed.
Lemma sdl_done_mono r p q : sdl_done r p -> (length p <= length q)%nat -> sdl_done r q.
Proof. intros (s & r' & -> & Hs & Hl) Hq. apply sdl_done_some; [done|lia]. Qed.
(** A name was parsed: the pointer moved on. *)
Ltac next_name p q :=
  let Hn := fresh "Hn" in
  pose proof (parse_name_le p GQL_MAX_NAME_LEN) as Hn;
  destruct (gql_parse_name p GQL_MAX_NAME_LEN) as [[?|] q]; [destruct Hn as [_ Hn]; specialize (Hn ltac:(done))|apply sdl_done_some; [done|lia]].
Lemma sdl_args_ends fuel tn fn : forall s p, (length p < fuel)%nat -> schema_ok s -> sdl_done (sdl_args fuel tn fn s p) p.
Proof.
  induction fuel as [|fuel IH]; intros s p Hf Hs; [lia|]. cbn [sdl_args]. destruct (_ || _); [by apply sdl_done_some|]. next_name p q. unfold gql_skip_whitespace. pose proof (skip_spaces_le q). set (q1 := skip_spaces q) in *.
  destruct (negb _); [apply sdl_done_some; [done|lia]|]. pose proof (tl_le q1). pose proof (skip_spaces_le (tl q1)). set (q2 := skip_spaces (tl q1)) in *. next_name q2 q3.
  pose proof (skip_char_le 33 q3). pose proof (skip_char_le 44 (skip_char 33 q3)). eapply sdl_done_mono; [apply IH; [lia|by apply add_field_arg_ok]|lia].
Qed.
Lemma sdl_fields_ends fuel tn : forall s p, (length p < fuel)%nat -> schema_ok s -> sdl_done (sdl_fields fuel tn s p) p.
Proof.
  induction fuel as [|fuel IH]; intros s p Hf Hs; [lia|]. cbn [sdl_fields]. destruct (_ || _); [by apply sdl_done_some|]. unfold gql_skip_whitespace. pose proof (skip_spaces_le p). set (p1 := skip_spaces p) in *.
  destruct (_ || _); [apply sdl_done_some; [done|lia]|]. next_name p1 q. pose proof (skip_spaces_le q). set (q1 := skip_spaces q) in *.
  assert (Ha : sdl_done (if starts q1 40 then '(s, p) ← sdl_args (S (length q1)) tn l s (tl q1); Some (s, skip_char 41 p) else Some (s, q1)) q1).
  { destruct (starts q1 40) eqn:E; [|by apply sdl_done_some]. apply starts_tl in E. destruct (sdl_args_ends (S (length q1)) tn l s (tl q1)) as (s1 & r & -> & Hs1 & Hr); [lia|done|]. cbn [mbind option_bind].
    apply sdl_done_some; [done|]. pose proof (skip_char_le 41 r). lia. }
  destruct Ha as (s1 & q2 & -> & Hs1 & Hq2). cbn [mbind option_bind]. pose proof (skip_spaces_le q2). set (q3 := skip_spaces q2) in *. destruct (negb _); [eapply sdl_done_mono; [apply IH; [lia|done]|lia]|].
  pose proof (tl_le q3). pose proof (skip_spaces_le (tl q3)). set (q4 := skip_spaces (tl q3)) in *. pose proof (skip_char_le 91 q4). set (q5 := skip_char 91 q4) in *. next_name q5 q6.
  set (q7 := if starts q4 91 then _ else q6). assert (Hq7 : (length q7 <= length q6)%nat) by (subst q7; destruct (starts q4 91); [pose proof (skip_spaces_le q6); pose proof (skip_char_le 93 (skip_spaces q6))|]; lia).
  pose proof (skip_char_le 33 q7). eapply sdl_done_mono; [apply IH; [lia|by apply add_field_ok]|lia].
Qed.
Lemma sdl_values_ends fuel tn : forall s p, (length p < fuel)%nat -> schema_ok s -> sdl_done (sdl_values fuel tn s p) p.
Proof.
  induction fuel as [|fuel IH]; intros s p Hf Hs; [lia|]. cbn [sdl_values]. destruct (_ || _); [by apply sdl_done_some|]. unfold gql_skip_whitespace. pose proof (skip_spaces_le p). set (p1 := skip_spaces p) in *.
  destruct (_ || _); [apply sdl_done_some; [done|lia]|]. next_name p1 q. eapply sdl_done_mono; [apply IH; [lia|]|lia]. apply with_type_ok; [intros t; apply add_value_ok|done].
Qed.
Lemma in_braces_ends body s p : schema_ok s -> (forall q, sdl_done (body q) q) -> sdl_done (in_braces body s p) p.
Proof.
  intros Hs Hb. unfold in_braces, gql_skip_whitespace. pose proof (skip_spaces_le p). set (q := skip_spaces p) in *. destruct (starts q 123); [|apply sdl_done_some; [done|lia]]. pose proof (tl_le q).
  destruct (Hb (tl q)) as (s1 & r & -> & Hs1 & Hr). cbn [mbind option_bind]. apply sdl_done_some; [done|]. pose proof (skip_char_le 125 r). lia.
Qed.
Lemma keyword_le k p q : keyword k p = Some q -> (length q + length (str_bytes k) = length p)%nat.
Proof. unfold keyword. destruct (starts_with _ p) as [r|] eqn:E; cbn; [|done]. destruct (at_char r isalnum); [done|]. intros [= <-]. by apply starts_with_length. Qed.
Lemma sdl_loop_ends fuel : forall s p, (length p < fuel)%nat -> schema_ok s -> exists s', sdl_loop fuel s p = Some s' /\ schema_ok s'.
Proof.
  induction fuel as [|fuel IH]; intros s p Hf Hs; [lia|]. cbn [sdl_loop]. unfold gql_skip_whitespace. pose proof (skip_spaces_le p). set (p1 := skip_spaces p) in *. destruct (bool_decide (p1 = [])) eqn:Hne; [by exists s|].
  apply bool_decide_eq_false in Hne. assert (Hpos : (0 < length p1)%nat) by (destruct p1; cbn; [done|lia]).
  destruct (starts p1 35) eqn:Hc; [apply IH; [|done]; destruct p1 as [|c p1']; [done|]; unfold starts, at_char in Hc; apply Z.eqb_eq in Hc; subst c; cbn [drop_while]; change (35 =? 10) with false; cbn [negb]; pose proof (drop_while_le (fun c => negb (c =? 10)) p1'); cbn [length] in *; lia|].
  assert (Hrec : forall (n : option (list Z)) s (p2 : list Z) body (q : list Z), schema_ok s -> (length p2 + 4 = length p1)%nat -> (length q <= length p2)%nat -> (forall q, sdl_done (body q) q) -> n <> @None (list Z) ->
    exists s', ('(s, p) ← in_braces body s q; sdl_loop fuel s p) = Some s' /\ schema_ok s').
  { intros n s2 p2 body q Hs2 Hp2 Hq Hb _. destruct (in_braces_ends body s2 q Hs2 Hb) as (s3 & r & -> & Hs3 & Hr). cbn [mbind option_bind]. apply IH; [lia|done]. }
  destruct (keyword "type" p1) as [p2|] eqn:Hk; [|destruct (keyword "enum" p1) as [p2|] eqn:Hk2].
  - apply keyword_le in Hk. cbn in Hk. pose proof (skip_spaces_le p2). pose proof (parse_name_le (skip_spaces p2) GQL_MAX_NAME_LEN) as Hn. destruct (gql_parse_name _ _) as [[n|] q]; [|by exists s].
    eapply (Hrec (Some n) _ p2); [by apply add_type_ok|lia|lia| |done]. intros r. apply sdl_fields_ends; [lia|by apply add_type_ok].
  - apply keyword_le in Hk2. cbn in Hk2. pose proof (skip_spaces_le p2). pose proof (parse_name_le (skip_spaces p2) GQL_MAX_NAME_LEN) as Hn. destruct (gql_parse_name _ _) as [[n|] q]; [|by exists s].
    set (s2 := with_type n _ _). assert (Hs2 : schema_ok s2) by (apply with_type_ok; [intros t Ht; exact Ht|destruct (gql_find_type_schema s n); [done|by apply add_type_ok]]).
    eapply (Hrec (Some n) _ p2); [done|lia|lia| |done]. intros r. apply sdl_values_ends; [lia|done].
  - apply IH; [|done]. destruct p1; cbn in *; lia.
Qed.
(** Parsing a schema text ends for every text, and keeps the schema within its arrays. *)
Theorem gql_parse_sdl_ends e sdl : schema_ok (schema e) -> exists e', gql_parse_schema_sdl e sdl = Some e' /\ schema_ok (schema e').
Proof.
  intros Hs. unfold gql_parse_schema_sdl. destruct (sdl_loop_ends (S (length sdl)) (schema e) sdl) as (s & -> & Hs'); [lia|done|]. by exists (e <| schema := s |>).
Qed.

(** ** A printed schema is read back *)

Definition word_ok (len : nat) (n : list Z) : Prop := at_char n name_start = true /\ forallb name_char n = true /\ (length n < len)%nat.
Definition plain_field (f : gql_field_t) : Prop :=
  f_args f = [] /\ is_list f = false /\ scalar f = scalar_of (type_name f) /\ word_ok GQL_MAX_NAME_LEN (f_name f) /\ word_ok GQL_MAX_TYPE_LEN (type_name f).
Definition plain_type (t : gql_type_t) : Prop :=
  word_ok GQL_MAX_NAME_LEN (t_name t) /\ is_input t = false /\
  if is_enum t then fields t = [] /\ Forall (word_ok GQL_MAX_NAME_LEN) (enum_values t) else enum_values t = [] /\ Forall plain_field (fields t).
(** Behind a name. *)
Definition ends_name (s : list Z) : Prop := at_char s name_char = false.

Lemma name_start_no_space c : name_start c = true -> is_space c = false.
Proof. unfold name_start, isalpha, is_space. lia. Qed.
Lemma skip_word len n s : word_ok len n -> skip_spaces (n ++ s) = n ++ s.
Proof. intros (H & _ & _). destruct n as [|c n]; [done|]. cbn in *. by rewrite (name_start_no_space c H). Qed.
Lemma skip_spaces_idem p : skip_spaces (skip_spaces p) = skip_spaces p.
Proof. induction p as [|c p IH]; [done|]. cbn. destruct (is_space c) eqn:E; [done|]. cbn. by rewrite E. Qed.
Lemma parse_word len n s p : word_ok len n -> ends_name s -> skip_spaces p = n ++ s -> gql_parse_name p len = (Some n, skip_spaces s).
Proof.
  intros (Hh & Hn & Hl) Hs Hp. unfold gql_parse_name, gql_skip_whitespace. rewrite Hp. replace (at_char (n ++ s) name_start) with true by (destruct n; [done|]; cbn in *; by rewrite Hh). cbn [negb].
  rewrite drop_while_app by done. replace (drop_while name_char s) with s by (unfold ends_name in Hs; destruct s as [|c s]; [done|]; cbn in *; by rewrite Hs).
  unfold word. rewrite length_app, Nat.add_sub, take_app_length. by rewrite truncated_id by lia.
Qed.
Lemma truncated_word len n : word_ok len n -> truncated len n = n.
Proof. intros (_ & _ & H). by apply truncated_id. Qed.
Lemma word_ok_mono n : word_ok GQL_MAX_TYPE_LEN n -> word_ok GQL_MAX_NAME_LEN n.
Proof. unfold word_ok, GQL_MAX_TYPE_LEN, GQL_MAX_NAME_LEN. intuition lia. Qed.

(** *** The type that was added last *)

Definition last_named (s : gql_schema_t) (ts : list gql_type_t) (t : gql_type_t) : Prop := types s = ts ++ [t] /\ Forall (fun x => t_name x <> t_name t) ts.
Lemma with_type_last s ts t f n t' : last_named s ts t -> t_name t = n -> f t = t' -> t_name t' = n -> last_named (with_type n f s) ts t'.
Proof.
  intros [Hs Hd] Ht <- Hf. unfold with_type.
  assert (Hi : type_idx s n = Some (length ts)).
  { apply find_idx_Some. exists t. rewrite Hs. split; [by apply list_lookup_middle|]. split; [by rewrite bool_decide_eq_true|]. intros j x Hx Hj. rewrite lookup_app_l in Hx by done. rewrite Forall_lookup in Hd. apply bool_decide_eq_false. rewrite <- Ht. by eapply Hd. }
  rewrite Hi. split; cbn.
  - rewrite Hs. by rewrite <- (Nat.add_0_r (length ts)), alter_app_r.
  - rewrite Hf, <- Ht. done.
Qed.

(** *** Fields *)

Definition field_text (f : gql_field_t) : list Z := concat (field_texts f).
Lemma field_text_plain f : plain_field f -> field_text f = [32; 32] ++ f_name f ++ [58; 32] ++ type_name f ++ (if is_non_null f then [33] else []) ++ [10].
Proof. intros (Ha & Hl & _). unfold field_text, field_texts. rewrite Ha, Hl. cbn [app concat]. rewrite app_nil_r. change (str_bytes "  ") with [32; 32]. change (str_bytes ": ") with [58; 32]. by rewrite <- !app_assoc. Qed.
Lemma word_not len n s c : word_ok len n -> name_start c = false -> starts (n ++ s) c = false.
Proof. intros (H & _) Hc. destruct n as [|y n]; [done|]. cbn in *. apply Z.eqb_neq. intros ->. congruence. Qed.
Lemma not_end len x n s : word_ok len n -> skip_spaces x = n ++ s -> bool_decide (x = []) || starts x 125 = false.
Proof.
  intros Hn Hx. destruct x as [|c x]; [destruct Hn as [Hn _]; cbn in Hx; by destruct n|]. cbn [bool_decide orb starts at_char]. replace (bool_decide (c :: x = [])) with false by done. cbn [orb]. unfold starts, at_char. destruct (Z.eqb_spec 125 c) as [<-|]; [|done]. pose proof (word_not len n s 125 Hn eq_refl) as H. by rewrite <- Hx in H.
Qed.
(** One turn of the loop. *)
Lemma sdl_fields_step fuel tn s p f rest : plain_field f -> starts (skip_spaces rest) 33 = false -> skip_spaces p = skip_spaces (field_text f ++ rest) ->
  exists q, sdl_fields (S fuel) tn s p = sdl_fields fuel tn (gql_schema_add_field s tn (f_name f) (scalar f) (Some (type_name f)) false (is_non_null f)) q /\ skip_spaces q = skip_spaces rest.
Proof.
  intros Hf Hrest Hp. pose proof Hf as (Ha & Hl & Hs & Hn & Ht). rewrite field_text_plain in Hp by done. rewrite <- !app_assoc in Hp. cbn [app skip_spaces] in Hp. change (is_space 32) with true in Hp. cbn iota in Hp. rewrite (skip_word _ _ _ Hn) in Hp.
  cbn [sdl_fields]. unfold gql_skip_whitespace. rewrite (not_end _ _ _ _ Hn Hp). rewrite (not_end _ (skip_spaces p) _ _ Hn) by (by rewrite skip_spaces_idem).
  rewrite (parse_word _ (f_name f) (58 :: 32 :: type_name f ++ (if is_non_null f then [33] else []) ++ 10 :: rest)) by (done || by rewrite skip_spaces_idem).
  rewrite skip_spaces_idem. change (skip_spaces (58 :: ?x)) with (58 :: x). change (starts (58 :: ?x) 40) with false. cbn iota. cbn [mbind option_bind]. change (skip_spaces (58 :: ?x)) with (58 :: x).
  change (negb (starts (58 :: ?x) 58)) with false. cbn iota. cbn [tl]. change (skip_spaces (32 :: ?x)) with (skip_spaces x). pose proof (word_ok_mono _ Ht) as Ht'. rewrite (skip_word _ _ _ Ht').
  unfold skip_char at 1. rewrite !(word_not _ _ _ 91 Ht') by done. rewrite (parse_word _ (type_name f) ((if is_non_null f then [33] else []) ++ 10 :: rest)) by (done || (by destruct (is_non_null f)) || by apply (skip_word GQL_MAX_NAME_LEN)).
  rewrite <- Hs. destruct (is_non_null f); cbn [app].
  - change (skip_spaces (33 :: ?x)) with (33 :: x). eexists. split; [reflexivity|]. done.
  - change (skip_spaces (10 :: ?x)) with (skip_spaces x). unfold skip_char. rewrite Hrest. eexists. split; [reflexivity|]. apply skip_spaces_idem.
Qed.
Definition add_fields (tn : list Z) (fs : list gql_field_t) (s : gql_schema_t) : gql_schema_t :=
  foldl (fun s f => gql_schema_add_field s tn (f_name f) (scalar f) (Some (type_name f)) false (is_non_null f)) s fs.
Lemma fields_no_bang fs rest : Forall plain_field fs -> starts (skip_spaces (concat (field_text <$> fs) ++ 125 :: rest)) 33 = false.
Proof.
  intros [|f fs' Hf Hfs]; [done|]. cbn [fmap list_fmap concat]. rewrite field_text_plain by done. destruct Hf as (_ & _ & _ & Hn & _). rewrite <- !app_assoc. change (skip_spaces ([32; 32] ++ ?x)) with (skip_spaces x).
  rewrite (skip_word _ _ _ Hn). by apply (word_not _ _ _ _ Hn).
Qed.
Lemma sdl_fields_run tn fs : Forall plain_field fs -> forall fuel s p rest, (length fs < fuel)%nat -> skip_spaces p = skip_spaces (concat (field_text <$> fs) ++ 125 :: rest) ->
  sdl_fields fuel tn s p = Some (add_fields tn fs s, 125 :: rest).
Proof.
  induction 1 as [|f fs Hf Hfs IH]; intros [|fuel] s p rest Hlen Hp; cbn [length] in Hlen; try lia.
  - cbn [fmap list_fmap concat app] in Hp. change (skip_spaces (125 :: rest)) with (125 :: rest) in Hp. cbn [sdl_fields]. destruct (starts p 125) eqn:E.
    + rewrite orb_true_r. do 2 f_equal. destruct p as [|c p]; [done|]. unfold starts, at_char in E. apply Z.eqb_eq in E. subst c. by rewrite <- Hp.
    + rewrite orb_false_r. destruct (bool_decide _) eqn:E2; [apply bool_decide_eq_true in E2; subst p; done|]. unfold gql_skip_whitespace. rewrite Hp. done.
  - cbn [fmap list_fmap concat] in Hp. rewrite <- app_assoc in Hp. destruct (sdl_fields_step fuel tn s p f _ Hf (fields_no_bang fs rest Hfs) Hp) as (q & -> & Hq). rewrite (IH fuel _ q rest); [done|lia|done].
Qed.
Lemma add_field_last tn ts s t f : plain_field f -> last_named s ts t -> t_name t = tn -> (length (fields t) < GQL_MAX_FIELDS)%nat ->
  last_named (gql_schema_add_field s tn (f_name f) (scalar f) (Some (type_name f)) false (is_non_null f)) ts (t <| fields ::= fun l => l ++ [f] |>).
Proof.
  intros (Ha & Hli & Hs & Hfn & Hft) Ht Hn Hl. unfold gql_schema_add_field. apply (with_type_last s ts t); [done|done| |done]. rewrite (proj2 (Nat.leb_gt _ _)) by lia. change (default [] (Some (type_name f))) with (type_name f).
  rewrite (truncated_word _ _ Hfn), (truncated_word _ _ Hft). destruct f; cbn in *; by subst.
Qed.
Lemma add_fields_last tn ts fs : Forall plain_field fs -> forall s t, last_named s ts t -> t_name t = tn -> (length (fields t) + length fs <= GQL_MAX_FIELDS)%nat ->
  last_named (add_fields tn fs s) ts (t <| fields ::= fun l => l ++ fs |>).
Proof.
  induction 1 as [|f fs Hf Hfs IH]; intros s t Ht Hn Hl; cbn [length] in Hl.
  - replace (t <| fields ::= fun l => l ++ [] |>) with t; [done|]. destruct t. unfold set. cbn. by rewrite app_nil_r.
  - change (add_fields tn (f :: fs) s) with (add_fields tn fs (gql_schema_add_field s tn (f_name f) (scalar f) (Some (type_name f)) false (is_non_null f))).
    replace (t <| fields ::= fun l => l ++ f :: fs |>) with ((t <| fields ::= fun l => l ++ [f] |>) <| fields ::= fun l => l ++ fs |>) by (destruct t; unfold set; cbn; by rewrite <- app_assoc).
    apply IH; [apply add_field_last; [done..|lia]|done|]. cbn. rewrite length_app. cbn. lia.
Qed.

(** *** Values *)

Definition value_text (v : list Z) : list Z := str_bytes "  " ++ v ++ [10].
Definition add_values (tn : list Z) (vs : list (list Z)) (s : gql_schema_t) : gql_schema_t := foldl (fun s v => with_type tn (add_value v) s) s vs.
Lemma sdl_values_run tn vs : Forall (word_ok GQL_MAX_NAME_LEN) vs -> forall fuel s p rest, (length vs < fuel)%nat -> skip_spaces p = skip_spaces (concat (value_text <$> vs) ++ 125 :: rest) ->
  sdl_values fuel tn s p = Some (add_values tn vs s, 125 :: rest).
Proof.
  induction 1 as [|v vs Hv Hvs IH]; intros [|fuel] s p rest Hlen Hp; cbn [length] in Hlen; try lia.
  - cbn [fmap list_fmap concat app] in Hp. change (skip_spaces (125 :: rest)) with (125 :: rest) in Hp. cbn [sdl_values]. destruct (starts p 125) eqn:E.
    + rewrite orb_true_r. do 2 f_equal. destruct p as [|c p]; [done|]. unfold starts, at_char in E. apply Z.eqb_eq in E. subst c. by rewrite <- Hp.
    + rewrite orb_false_r. destruct (bool_decide _) eqn:E2; [apply bool_decide_eq_true in E2; subst p; done|]. unfold gql_skip_whitespace. rewrite Hp. done.
  - cbn [fmap list_fmap concat] in Hp. unfold value_text at 1 in Hp. rewrite <- !app_assoc in Hp. change (skip_spaces (str_bytes "  " ++ ?x)) with (skip_spaces x) in Hp. rewrite (skip_word _ _ _ Hv) in Hp.
    cbn [sdl_values]. unfold gql_skip_whitespace. rewrite (not_end _ _ _ _ Hv Hp), (not_end _ (skip_spaces p) _ _ Hv) by (by rewrite skip_spaces_idem). rewrite (parse_word _ v ([10] ++ concat (value_text <$> vs) ++ 125 :: rest)) by (done || by rewrite skip_spaces_idem).
    apply (IH fuel _ _ rest); [lia|]. change (skip_spaces ([10] ++ ?x)) with (skip_spaces x). apply skip_spaces_idem.
Qed.
Lemma add_values_last tn ts vs : Forall (word_ok GQL_MAX_NAME_LEN) vs -> forall s t, last_named s ts t -> t_name t = tn -> (length (enum_values t) + length vs <= GQL_MAX_FIELDS)%nat ->
  last_named (add_values tn vs s) ts (t <| enum_values ::= fun l => l ++ vs |>).
Proof.
  induction 1 as [|v vs Hv Hvs IH]; intros s t Ht Hn Hl; cbn [length] in Hl.
  - replace (t <| enum_values ::= fun l => l ++ [] |>) with t; [done|]. destruct t. unfold set. cbn. by rewrite app_nil_r.
  - change (add_values tn (v :: vs) s) with (add_values tn vs (with_type tn (add_value v) s)).
    replace (t <| enum_values ::= fun l => l ++ v :: vs |>) with ((t <| enum_values ::= fun l => l ++ [v] |>) <| enum_values ::= fun l => l ++ vs |>) by (destruct t; unfold set; cbn; by rewrite <- app_assoc).
    apply IH; [|done|cbn; rewrite length_app; cbn; lia]. apply (with_type_last s ts t); [done|done| |done]. unfold add_value. rewrite (proj2 (Nat.leb_gt _ _)) by lia. by rewrite (truncated_word _ _ Hv).
Qed.

(** *** Types and schemas *)

Definition type_text (t : gql_type_t) : list Z := concat (type_texts t).
Lemma concat_concat {A} (l : list (list (list A))) : concat (concat l) = concat (@concat A <$> l).
Proof. induction l as [|x l IH]; [done|]. cbn. by rewrite concat_app, IH. Qed.
Lemma concat_length_ge {A B} (f : A -> list B) l : (forall x, f x <> []) -> (length l <= length (concat (f <$> l)))%nat.
Proof. intros Hf. induction l as [|x l IH]; [cbn; lia|]. change (f <$> x :: l) with (f x :: (f <$> l)). cbn [concat length]. rewrite length_app. pose proof (Hf x). destruct (f x); [done|]. cbn [length]. lia. Qed.
Lemma type_text_shape t : type_text t = (if is_enum t then str_bytes "enum " else str_bytes "type ") ++ t_name t ++ [32; 123; 10] ++
  (if is_enum t then concat (value_text <$> enum_values t) else concat (field_text <$> fields t)) ++ [125; 10; 10].
Proof.
  unfold type_text, type_texts. destruct (is_enum t); cbn [app concat]; rewrite concat_app; cbn [concat]; rewrite ?app_nil_r, <- !app_assoc; [done|]. rewrite concat_concat, <- list_fmap_compose. done.
Qed.
Lemma add_type_last s n : word_ok GQL_MAX_NAME_LEN n -> (length (types s) < GQL_MAX_TYPES)%nat -> Forall (fun x => t_name x <> n) (types s) -> last_named (gql_schema_add_type s n) (types s) (mk_type n [] false false []).
Proof. intros Hn Hl Hd. unfold gql_schema_add_type. rewrite (proj2 (Nat.leb_gt _ _)) by lia. split; [|done]. change (types s ++ [mk_type (truncated GQL_MAX_NAME_LEN n) [] false false []] = types s ++ [mk_type n [] false false []]). by rewrite (truncated_word _ _ Hn). Qed.
Lemma find_fresh s n : Forall (fun x => t_name x <> n) (types s) -> gql_find_type_schema s n = None.
Proof. intros Hd. unfold gql_find_type_schema, type_idx. rewrite (proj2 (find_idx_None _ _)); [done|]. intros x Hx. apply bool_decide_eq_false. rewrite Forall_forall in Hd. by apply Hd. Qed.
(** One type is read. *)
Lemma sdl_type_step fuel s p t rest : plain_type t -> type_ok t -> (length (types s) < GQL_MAX_TYPES)%nat -> Forall (fun x => t_name x <> t_name t) (types s) -> skip_spaces p = skip_spaces (type_text t ++ rest) ->
  exists s' q, sdl_loop (S fuel) s p = sdl_loop fuel s' q /\ skip_spaces q = skip_spaces rest /\ types s' = types s ++ [t].
Proof.
  intros (Hn & Hin & Hbody) (Hfl & _ & Hvl) Hlen Hd Hp. rewrite type_text_shape, <- !app_assoc in Hp. pose proof (add_type_last s (t_name t) Hn Hlen Hd) as Hlast. pose proof (find_fresh s (t_name t) Hd) as Hfresh. cbn [sdl_loop]. unfold gql_skip_whitespace.
  destruct (is_enum t) eqn:Het; destruct Hbody as [Hempty Hall].
  - change (skip_spaces (str_bytes "enum " ++ ?x)) with ([101; 110; 117; 109; 32] ++ x) in Hp. rewrite Hp. change (bool_decide ([101; 110; 117; 109; 32] ++ ?x = [])) with false. change (starts ([101; 110; 117; 109; 32] ++ ?x) 35) with false. cbn iota.
    change (keyword "type" ([101; 110; 117; 109; 32] ++ ?x)) with (@None (list Z)). change (keyword "enum" ([101; 110; 117; 109; 32] ++ ?x)) with (Some (32 :: x)). cbn iota. change (skip_spaces (32 :: ?x)) with (skip_spaces x). rewrite (skip_word _ _ _ Hn).
    rewrite (parse_word _ (t_name t) ([32; 123; 10] ++ concat (value_text <$> enum_values t) ++ [125; 10; 10] ++ rest)) by (done || by apply (skip_word GQL_MAX_NAME_LEN)). change (skip_spaces ([32; 123; 10] ++ ?x)) with (123 :: 10 :: x). rewrite Hfresh.
    set (s2 := with_type (t_name t) _ _). assert (Hl2 : last_named s2 (types s) (mk_type (t_name t) [] false true [])) by (eapply with_type_last; [exact Hlast|done..]).
    exists (add_values (t_name t) (enum_values t) s2), ([10; 10] ++ rest). split; [|split; [done|]].
    + unfold in_braces, gql_skip_whitespace. change (skip_spaces (123 :: ?x)) with (123 :: x). change (starts (123 :: ?x) 123) with true. cbn iota. cbn [tl].
      rewrite (sdl_values_run (t_name t) (enum_values t) Hall _ s2 _ ([10; 10] ++ rest)); [done| |done]. cbn [length]. rewrite length_app. pose proof (concat_length_ge value_text (enum_values t) ltac:(done)). lia.
    + destruct (add_values_last (t_name t) (types s) (enum_values t) Hall s2 _ Hl2 eq_refl) as [-> _]; [cbn; lia|]. do 2 f_equal. destruct t; cbn in *. by subst.
  - change (skip_spaces (str_bytes "type " ++ ?x)) with ([116; 121; 112; 101; 32] ++ x) in Hp. rewrite Hp. change (bool_decide ([116; 121; 112; 101; 32] ++ ?x = [])) with false. change (starts ([116; 121; 112; 101; 32] ++ ?x) 35) with false. cbn iota.
    change (keyword "type" ([116; 121; 112; 101; 32] ++ ?x)) with (Some (32 :: x)). cbn iota. change (skip_spaces (32 :: ?x)) with (skip_spaces x). rewrite (skip_word _ _ _ Hn).
    rewrite (parse_word _ (t_name t) ([32; 123; 10] ++ concat (field_text <$> fields t) ++ [125; 10; 10] ++ rest)) by (done || by apply (skip_word GQL_MAX_NAME_LEN)). change (skip_spaces ([32; 123; 10] ++ ?x)) with (123 :: 10 :: x).
    set (s2 := gql_schema_add_type s (t_name t)) in *. exists (add_fields (t_name t) (fields t) s2), ([10; 10] ++ rest). split; [|split; [done|]].
    + unfold in_braces, gql_skip_whitespace. change (skip_spaces (123 :: ?x)) with (123 :: x). change (starts (123 :: ?x) 123) with true. cbn iota. cbn [tl].
      rewrite (sdl_fields_run (t_name t) (fields t) Hall _ s2 _ ([10; 10] ++ rest)); [done| |done]. cbn [length]. rewrite length_app. pose proof (concat_length_ge field_text (fields t)) as Hc. unfold field_text, field_texts in Hc. cbn in Hc. specialize (Hc ltac:(done)).
      unfold field_text, field_texts. cbn. lia.
    + destruct (add_fields_last (t_name t) (types s) (fields t) Hall s2 _ Hlast eq_refl) as [-> _]; [cbn; lia|]. do 2 f_equal. destruct t; cbn in *. by subst.
Qed.
(** What follows the types: nothing is read from it. *)
Definition unread (rest : list Z) : Prop := forall fuel s p, (length rest < fuel)%nat -> skip_spaces p = skip_spaces rest -> sdl_loop fuel s p = Some s.
Lemma unread_nil : unread [].
Proof. intros [|fuel] s p Hf Hp; [cbn in Hf; lia|]. cbn [sdl_loop]. unfold gql_skip_whitespace. by rewrite Hp. Qed.
Lemma alnum_no_space c : isalnum c = true -> is_space c = false /\ (35 =? c) = false.
Proof. unfold isalnum, isalpha, is_digit, is_space. lia. Qed.
Lemma no_space_here c p : is_space c = false -> gql_skip_whitespace (c :: p) = c :: p.
Proof. intros H. unfold gql_skip_whitespace. cbn [skip_spaces]. by rewrite H. Qed.
Lemma starts_with_word pat w q : 10 ∉ pat -> starts_with pat (w ++ [10; 125; 10]) = Some q -> exists w1 w2, w = w1 ++ w2 /\ q = w2 ++ [10; 125; 10].
Proof.
  revert w. induction pat as [|x pat IH]; intros w Hx H; cbn in H; [injection H as <-; by exists [], w|]. apply not_elem_of_cons in Hx as [Hx Hp].
  destruct w as [|c w]; cbn in H; [by rewrite (proj2 (Z.eqb_neq x 10)) in H|]. destruct (x =? c); [|done].
  destruct (IH w Hp H) as (w1 & w2 & -> & ->). by exists (c :: w1), w2.
Qed.
Lemma keyword_word k w q : 10 ∉ str_bytes k -> forallb isalnum w = true -> keyword k (w ++ [10; 125; 10]) = Some q -> q = [10; 125; 10].
Proof.
  unfold keyword. intros Hk Hw (r & Hr & H)%bind_Some. destruct (starts_with_word _ _ _ Hk Hr) as (w1 & w2 & -> & ->).
  rewrite forallb_app in Hw. apply andb_true_iff in Hw as [_ Hw]. destruct w2 as [|c w2]; [cbn in H; congruence|]. cbn in Hw, H. apply andb_true_iff in Hw as [Hc _]. by rewrite Hc in H.
Qed.
Lemma sdl_loop_word w s : forallb isalnum w = true -> forall fuel, (length w + 3 <= fuel)%nat -> sdl_loop fuel s (w ++ [10; 125; 10]) = Some s.
Proof.
  intros Hw. induction w as [|c w IH]; intros fuel Hf; cbn [length] in Hf.
  { destruct fuel as [|[|fuel]]; [lia|lia|]. reflexivity. }
  destruct fuel as [|fuel]; [lia|]. pose proof Hw as Hc. cbn [forallb] in Hc. apply andb_true_iff in Hc as [Hc Hw']. destruct (alnum_no_space c Hc) as [Hs H35].
  pose proof (keyword_word "type" (c :: w)) as Ht. pose proof (keyword_word "enum" (c :: w)) as He.
  cbn [sdl_loop app] in *. rewrite (no_space_here c) by done. rewrite bool_decide_eq_false_2 by done. unfold starts at 1, at_char. rewrite H35.
  destruct (keyword "type" _) as [q|] eqn:Ekt; [rewrite (Ht q ltac:(by apply (bool_decide_unpack _)) Hw eq_refl); reflexivity|].
  destruct (keyword "enum" _) as [q|] eqn:Eke; [rewrite (He q ltac:(by apply (bool_decide_unpack _)) Hw eq_refl); reflexivity|].
  cbn [tl]. apply IH; [done|lia].
Qed.
Lemma sdl_loop_skip fuel s c p : is_space c = false -> c <> 35 -> keyword "type" (c :: p) = None -> keyword "enum" (c :: p) = None -> sdl_loop (S fuel) s (c :: p) = sdl_loop fuel s p.
Proof.
  intros Hs Hc Ht He. cbn [sdl_loop]. rewrite (no_space_here c) by done. rewrite bool_decide_eq_false_2 by done. unfold starts at 1, at_char. rewrite (proj2 (Z.eqb_neq 35 c)) by congruence. by rewrite Ht, He.
Qed.
Lemma sdl_loop_spaces fuel s p q : skip_spaces p = skip_spaces q -> sdl_loop fuel s p = sdl_loop fuel s q.
Proof. intros Hp. destruct fuel; [done|]. cbn [sdl_loop]. change (gql_skip_whitespace p) with (skip_spaces p). change (gql_skip_whitespace q) with (skip_spaces q). by rewrite Hp. Qed.
Lemma unread_query q : forallb isalnum q = true -> unread (query_text q).
Proof.
  intros Hq fuel s p Hf Hp. rewrite (sdl_loop_spaces _ _ _ _ Hp). unfold query_text in *. rewrite !length_app in Hf. cbn [length str_bytes] in Hf.
  change (str_bytes "schema {") with [115; 99; 104; 101; 109; 97; 32; 123]. change (str_bytes "  query: ") with [32; 32; 113; 117; 101; 114; 121; 58; 32]. cbn [app].
  assert (Hlen : (length q + 17 < fuel)%nat) by (cbn in Hf; lia). clear Hf Hp.
  do 6 (destruct fuel as [|fuel]; [lia|]; rewrite sdl_loop_skip by (reflexivity || discriminate)). rewrite (sdl_loop_spaces _ _ (32 :: _) (123 :: 10 :: 32 :: 32 :: 113 :: 117 :: 101 :: 114 :: 121 :: 58 :: 32 :: q ++ [10; 125; 10])) by reflexivity.
  destruct fuel as [|fuel]; [lia|]; rewrite sdl_loop_skip by (reflexivity || discriminate). rewrite (sdl_loop_spaces _ _ (10 :: _) (113 :: 117 :: 101 :: 114 :: 121 :: 58 :: 32 :: q ++ [10; 125; 10])) by reflexivity.
  do 6 (destruct fuel as [|fuel]; [lia|]; rewrite sdl_loop_skip by (reflexivity || discriminate)). rewrite (sdl_loop_spaces _ _ (32 :: _) (q ++ [10; 125; 10])) by reflexivity.
  apply sdl_loop_word; [done|lia].
Qed.

Lemma sdl_run rest ts : unread rest -> Forall plain_type ts -> Forall type_ok ts -> NoDup (t_name <$> ts) -> forall fuel s p, (length ts + length rest < fuel)%nat -> (length (types s) + length ts <= GQL_MAX_TYPES)%nat ->
  Forall (fun x => t_name x ∉ (t_name <$> ts)) (types s) -> skip_spaces p = skip_spaces (concat (type_text <$> ts) ++ rest) -> exists s', sdl_loop fuel s p = Some s' /\ types s' = types s ++ ts.
Proof.
  intros Hrest. induction 1 as [|t ts Ht Hts IH]; intros Hok Hnd [|fuel] s p Hlen Hroom Hfresh Hp; cbn [length] in *; try lia.
  - exists s. rewrite app_nil_r. split; [|done]. by apply Hrest.
  - apply Forall_cons in Hok as [Hok1 Hok]. cbn in Hnd. apply NoDup_cons in Hnd as [Hnd1 Hnd].
    destruct (sdl_type_step fuel s p t (concat (type_text <$> ts) ++ rest) Ht Hok1) as (s2 & q & -> & Hq & Hs2); [lia| |cbn in Hp; by rewrite app_assoc|].
    { eapply Forall_impl; [exact Hfresh|]. intros x Hx E. apply Hx. rewrite E. by left. }
    destruct (IH Hok Hnd fuel s2 q) as (s3 & -> & Hs3); [lia|rewrite Hs2, length_app; cbn; lia| |done|exists s3; split; [done|]; by rewrite Hs3, Hs2, <- app_assoc].
    rewrite Hs2. apply Forall_app. split; [|by repeat constructor]. eapply Forall_impl; [exact Hfresh|]. intros x Hx Hi. apply Hx. by right.
Qed.
(** C30: Take a schema of plain types, without arguments and lists, with different names, and
    with a query type of letters and digits, or none.  When it is printed in a buffer with
    room for it, exactly its types are read back, as they were; the query type, which is
    printed behind them, is not read. *)
Theorem gql_sdl_roundtrip e len : let ts := types (schema e) in
  Forall plain_type ts -> schema_ok (schema e) -> NoDup (t_name <$> ts) -> forallb isalnum (query_type (schema e)) = true ->
  (length (concat (type_text <$> ts) ++ query_text (query_type (schema e))) < len)%nat ->
  exists text e', gql_sdl_from_schema e len = Some text /\ gql_parse_schema_sdl gql_engine_init text = Some e' /\ types (schema e') = ts.
Proof.
  intros ts Hp [Hs1 Hs2] Hd Hq Hlen. set (rest := match query_type (schema e) with [] => [] | q => query_text q end).
  assert (Hrest : unread rest) by (subst rest; destruct (query_type (schema e)) eqn:E; [apply unread_nil|by apply unread_query]).
  assert (Htext : gql_sdl_from_schema e len = Some (concat (type_text <$> ts) ++ rest)).
  { rewrite length_app in Hlen. assert (Hc : concat (concat (type_texts <$> ts) ++ match query_type (schema e) with [] => [] | q => [query_text q] end) = concat (type_text <$> ts) ++ rest).
    { rewrite concat_app, concat_concat, <- list_fmap_compose. f_equal. subst rest. destruct (query_type (schema e)); [done|]. cbn [concat]. by rewrite app_nil_r. }
    unfold gql_sdl_from_schema. fold ts. rewrite sprint_all_fits; [by rewrite Hc|done|]. cbn [snd]. rewrite Hc, length_app. subst rest. destruct (query_type (schema e)); cbn [length]; lia. }
  exists (concat (type_text <$> ts) ++ rest). set (text := concat (type_text <$> ts) ++ rest) in *. unfold gql_parse_schema_sdl.
  destruct (sdl_run rest ts Hrest Hp Hs2 Hd (S (length text)) (schema gql_engine_init) text) as (s' & -> & Hs'); [|done|constructor|done|by eexists].
  subst text. rewrite length_app. pose proof (concat_length_ge type_text ts) as Hc. enough (length ts <= length (concat (type_text <$> ts)))%nat by lia.
  apply Hc. intros t. rewrite type_text_shape. by destruct (is_enum t).
Qed.

(** ** At work *)

Definition parsed_query (q : string) : option (bool * gql_parsed_query_t) := parse_query (str_bytes q).
Definition parsed_types (t : string) : option (list gql_type_t) := types <$> sdl_loop (S (length (str_bytes t))) gql_schema_init (str_bytes t).
Definition accepted (q : string) : option bool := fst <$> parsed_query q.
Definition depth_of (q : string) : option Z := '(_, e) ← gql_parse_query gql_engine_init (str_bytes q); Some (gql_calculate_query_depth e).
(** The depth of a query is 2 from the second level on: the limit on it never refuses one. *)
Example depth_is_two : depth_of "{a}" = Some 1 /\ depth_of "{a{b}}" = Some 2 /\ depth_of "{a{b{c{d{e{f{g}}}}}}}" = Some 2.
Proof. by vm_compute. Qed.
(** A query that stops in the middle is accepted; one with variables is not; and a word that
    begins with a keyword is split. *)
Example unterminated_accepted : accepted "{ a { b" = Some true /\ accepted "{ a(x: 1" = Some true.
Proof. by vm_compute. Qed.
Example variables_rejected : accepted "query($id: ID) { a }" = Some false /\ accepted "query Q($id: ID) { a }" = Some false.
Proof. by vm_compute. Qed.
Example keyword_splits_word : ('(_, s) ← parsed_query "queryUser { id }"; Some (operation_name s)) = Some (str_bytes "User").
Proof. by vm_compute. Qed.
(** The arguments of a field are added before the field is there. *)
Example arguments_lost : ((fun ts => concat (f_args <$> concat (fields <$> ts))) <$> parsed_types "type Q { f(x: Int): String }") = Some [].
Proof. by vm_compute. Qed.
(** A list is printed in a way that the parser does not read: the fields behind it are lost. *)
Definition listed : gql_engine_t := gql_engine_init <| schema :=
  gql_schema_set_query_type (gql_schema_add_field (gql_schema_add_field (gql_schema_add_type gql_schema_init [81]) [81] [97] GQL_TYPE_INT (Some (str_bytes "Int")) true false) [81] [98] GQL_TYPE_INT (Some (str_bytes "Int")) false false) [81] |>.
Example list_not_read_back : (text ← gql_sdl_from_schema listed 1000; e ← gql_parse_schema_sdl gql_engine_init text; Some ((fun f => (f_name f, is_list f)) <$> concat (fields <$> types (schema e)), query_type (schema e))) = Some ([([97], false)], []).
Proof. by vm_compute. Qed.
(** Resolvers are found by the name of the field alone. *)
Example resolver_of_other_type : gql_execute (mk_engine (gql_schema_add_resolver (gql_schema_add_resolver gql_schema_init (str_bytes "User") (str_bytes "id") (Some 1%nat)) (str_bytes "Order") (str_bytes "id") (Some 2%nat))
  (mk_parsed GQL_OP_QUERY [] [] [mk_selection (str_bytes "id") true] []) []) = [1%nat; 2%nat].
Proof. by vm_compute. Qed.
(** Seventeen types without a name are seventeen errors, one more than there is room for. *)
Example errors_overflow : gql_validate_schema (gql_engine_init <| schema := Nat.iter 17 (fun s => gql_schema_add_type s []) gql_schema_init |>) = None.
Proof. by vm_compute. Qed.
(** A description that is longer than the buffer is continued behind it. *)
Example introspection_overflows : gql_introspect_schema listed 100 = None.
Proof. by vm_compute. Qed.

Definition plain_engine : gql_engine_t := gql_engine_init <| schema := gql_schema_set_query_type (
  gql_schema_add_enum_value (gql_schema_add_type (gql_schema_add_field (gql_schema_add_type gql_schema_init (str_bytes "User")) (str_bytes "User") (str_bytes "id") GQL_TYPE_ID (Some (str_bytes "ID")) false true) (str_bytes "Color")) (str_bytes "Color") (str_bytes "RED")) (str_bytes "User") |>.
Lemma plain_engine_ok : Forall plain_type (types (schema plain_engine)) /\ schema_ok (schema plain_engine).
Proof. split; [repeat constructor; vm_compute; lia|]. split; [vm_compute; lia|]. repeat constructor; vm_compute; lia. Qed.
Lemma gql_sdl_roundtrip_witness : query_type (schema plain_engine) = str_bytes "User" /\ exists text e', gql_sdl_from_schema plain_engine 1000 = Some text /\ gql_parse_schema_sdl gql_engine_init text = Some e' /\ types (schema e') = types (schema plain_engine).
Proof. split; [reflexivity|]. refine (gql_sdl_roundtrip plain_engine 1000 (proj1 plain_engine_ok) (proj2 plain_engine_ok) _ _ _); [apply (bool_decide_unpack _); by vm_compute|reflexivity|vm_compute; lia]. Defined.
Lemma gql_parse_sdl_ends_witness : exists e', gql_parse_schema_sdl gql_engine_init (str_bytes "type { # }") = Some e' /\ schema_ok (schema e').
Proof. refine (gql_parse_sdl_ends gql_engine_init _ _). split; [cbn; lia|constructor]. Defined.
