(* ===== verification/RestDesign.v ===== *)
(** Model of [mini-api-engineering/src/rest_design.c]: resources, the router that finds them, its
    rate limit, entity tags, media types, paging and headers; and the theorems on it.

    The router keeps pointers to resources: [routes] are their numbers, and the resources are
    read from a memory when a request is resolved.  Doubles are over any [Arith]; [atof] and
    the clock are parameters.  The loops get the length of their text as fuel; [None] is a loop
    that did not end, and writing behind a buffer.  Pointers are not null. *)

From Stdlib Require Import QArith.
From S2P Require Import Prelude Bytes Arith HttpCore.
#[local] Open Scope Z_scope.

Definition REST_MAX_URI_LEN : nat := Z.to_nat 2048.
#[global] Arguments REST_MAX_URI_LEN : simpl never.
Definition REST_MAX_METHOD_LEN : nat := 16.
Definition REST_MAX_LINKS : nat := 32.
Definition REST_MAX_HEADERS : nat := 32.
Definition REST_MAX_PATH_PARAMS : nat := 16.
Definition REST_PAGE_DEFAULT : Z := 1.
Definition REST_PAGE_SIZE_MAX : Z := 100.
Definition REST_MAX_ROUTES : nat := 128.
Definition REST_ETAG_LEN : nat := 64.
Inductive rest_method_t := REST_GET | REST_POST | REST_PUT | REST_PATCH | REST_DELETE | REST_HEAD | REST_OPTIONS | REST_METHOD_COUNT.
#[export] Instance method_eq_dec : EqDecision rest_method_t.
Proof. solve_decision. Defined.
(** A status is its number. *)
Definition rest_status_t : Type := Z.
Record rest_link_t := mk_link { rel : list Z; href : list Z; l_method : list Z }.
Record rest_pagination_t := mk_pagination { page : Z; page_size : Z; total_items : Z; total_pages : Z; has_next : bool; has_prev : bool; next_link : list Z; prev_link : list Z; first_link : list Z; last_link : list Z }.
Record rest_header_t := mk_header { h_key : list Z; h_value : list Z }.
Record rest_path_param_t := mk_param { p_name : list Z; p_value : list Z }.
Record rest_resource_t := mk_resource {
  r_name : list Z; r_path : list Z; method : rest_method_t; status : rest_status_t; content_type : list Z; response_body : list Z; response_len : Z;
  links : list rest_link_t; r_headers : list rest_header_t; params : list rest_path_param_t; pagination : rest_pagination_t;
}.
Inductive rest_media_type_t := REST_MEDIA_JSON | REST_MEDIA_XML | REST_MEDIA_FORM | REST_MEDIA_MULTIPART | REST_MEDIA_TEXT_PLAIN | REST_MEDIA_TEXT_HTML | REST_MEDIA_OCTET_STREAM | REST_MEDIA_PROTOBUF | REST_MEDIA_ANY.
#[export] Instance media_eq_dec : EqDecision rest_media_type_t.
Proof. solve_decision. Defined.
Inductive rest_cache_control_t := REST_CACHE_NO_STORE | REST_CACHE_PRIVATE | REST_CACHE_PUBLIC | REST_CACHE_NO_CACHE.
Record rest_cors_policy_t := mk_cors { origin : list Z; allow_credentials : bool; allowed_methods : list Z; allowed_headers : list Z; max_age : Z }.
Record rest_etag_t := mk_etag { e_value : list Z; is_weak : bool }.

(** ** Names of methods and statuses *)

Definition rest_method_string (m : rest_method_t) : list Z :=
  str_bytes match m with
  | REST_GET => "GET" | REST_POST => "POST" | REST_PUT => "PUT" | REST_PATCH => "PATCH" | REST_DELETE => "DELETE" | REST_HEAD => "HEAD" | REST_OPTIONS => "OPTIONS" | REST_METHOD_COUNT => "UNKNOWN"
  end.
Definition reasons : list (Z * string) :=
  [(200, "OK"); (201, "Created"); (202, "Accepted"); (204, "No Content"); (301, "Moved Permanently"); (302, "Found"); (304, "Not Modified"); (400, "Bad Request"); (401, "Unauthorized"); (403, "Forbidden"); (404, "Not Found");
   (405, "Method Not Allowed"); (409, "Conflict"); (410, "Gone"); (415, "Unsupported Media Type"); (422, "Unprocessable Entity"); (429, "Too Many Requests"); (500, "Internal Server Error"); (502, "Bad Gateway");
   (503, "Service Unavailable"); (504, "Gateway Timeout")]%string.
Definition reason (s : rest_status_t) : option string := snd <$> (find_idx (fun r => r.1 =? s) reasons ≫= fun i => reasons !! i).
Definition rest_status_string (s : rest_status_t) : list Z := match reason s with Some t => print_lld s ++ [32] ++ str_bytes t | None => str_bytes "Unknown Status" end.
Definition rest_status_reason (s : rest_status_t) : list Z := str_bytes (default "Unknown"%string (reason s)).
Definition rest_is_safe_method (m : rest_method_t) : bool := bool_decide (m = REST_GET) || bool_decide (m = REST_HEAD) || bool_decide (m = REST_OPTIONS).
Definition rest_is_idempotent_method (m : rest_method_t) : bool := rest_is_safe_method m || bool_decide (m = REST_PUT) || bool_decide (m = REST_DELETE).
Definition rest_is_status_success (s : rest_status_t) : bool := (200 <=? s) && (s <? 300).
Definition rest_is_status_client_error (s : rest_status_t) : bool := (400 <=? s) && (s <? 500).
Definition rest_is_status_server_error (s : rest_status_t) : bool := (500 <=? s) && (s <? 600).

(** ** Resources *)

Definition page_link (p size : Z) : list Z := truncated REST_MAX_URI_LEN (str_bytes "?page=" ++ print_lld p ++ str_bytes "&page_size=" ++ print_lld size).
(** [int32_t] wraps around, its quotient is rounded to zero. *)
Definition rest_pagination_init (p size total : Z) : rest_pagination_t :=
  let pages := if 0 <? size then Z.quot (s32 (s32 (total + size) - 1)) size else 0 in
  let has_next := p <? pages in
  let has_prev := 1 <? p in
  mk_pagination p size total pages has_next has_prev (if has_next then page_link (s32 (p + 1)) size else []) (if has_prev then page_link (p - 1) size else []) (page_link 1 size) (page_link pages size).
Definition rest_resource_init (n p : list Z) (m : rest_method_t) : rest_resource_t :=
  mk_resource (truncated 256 n) (truncated REST_MAX_URI_LEN p) m 200 (str_bytes "application/json") [] 0 [] [] [] (rest_pagination_init REST_PAGE_DEFAULT REST_PAGE_SIZE_MAX 0).
Definition rest_resource_set_status (r : rest_resource_t) (s : rest_status_t) : rest_resource_t := r <| status := s |>.
Definition rest_resource_set_body (r : rest_resource_t) (b : list Z) : rest_resource_t :=
  let b := truncated (Z.to_nat 8192) b in r <| response_body := b |> <| response_len := Z.of_nat (length b) |>.
Definition rest_resource_set_content_type (r : rest_resource_t) (ct : list Z) : rest_resource_t := r <| content_type := truncated 128 ct |>.
Definition rest_resource_add_link (r : rest_resource_t) (re hr : list Z) (m : option (list Z)) : rest_resource_t :=
  if (REST_MAX_LINKS <=? length (links r))%nat then r
  else r <| links ::= fun l => l ++ [mk_link (truncated 64 re) (truncated REST_MAX_URI_LEN hr) (truncated REST_MAX_METHOD_LEN (default (str_bytes "GET") m))] |>.
Definition rest_resource_add_header (r : rest_resource_t) (k v : list Z) : rest_resource_t :=
  if (REST_MAX_HEADERS <=? length (r_headers r))%nat then r else r <| r_headers ::= fun l => l ++ [mk_header (truncated 128 k) (truncated 512 v)] |>.
Definition rest_resource_add_path_param (r : rest_resource_t) (n v : list Z) : rest_resource_t :=
  if (REST_MAX_PATH_PARAMS <=? length (params r))%nat then r else r <| params ::= fun l => l ++ [mk_param (truncated 64 n) (truncated 256 v)] |>.

(** ** Finding a resource *)

Definition not_char (c x : Z) : bool := negb (x =? c).
(** The rests of the two paths where the comparison stopped, and the score. *)
Fixpoint walk (fuel : nat) (rp up : list Z) (score : Z) : option (list Z * list Z * Z) :=
  match fuel with
  | O => None
  | S fuel =>
      match rp, up with
      | c :: rp', x :: up' =>
          if c =? 123 then walk fuel (tl (drop_while (not_char 125) rp)) (drop_while (not_char 47) up) (score + 2)
          else if c =? x then walk fuel rp' up' (score + 1)
          else Some (rp, up, score)
      | _, _ => Some (rp, up, score)
      end
  end.
Definition slash (p : list Z) : bool := match p with c :: _ => c =? 47 | [] => false end.
Definition ended (p : list Z) : bool := match p with [] => true | _ => false end.
Definition path_match (rp up : list Z) : bool := ended rp && ended up || slash rp && (slash up || ended up) || ended rp && slash up.
(** The score of a path, when it matches. *)
Definition path_score (rp up : list Z) : option (option Z) := '(rp, up, score) ← walk (S (length rp)) rp up 0; Some (if path_match rp up then Some score else None).
Fixpoint resolve_from (mem : nat -> rest_resource_t) (uri : list Z) (m : rest_method_t) (routes : list nat) (best : option nat * Z) : option (option nat * Z) :=
  match routes with
  | [] => Some best
  | i :: routes =>
      if bool_decide (method (mem i) <> m) then resolve_from mem uri m routes best
      else
        s ← path_score (r_path (mem i)) uri;
        resolve_from mem uri m routes match s with Some s => if best.2 <? s then (Some i, s) else best | None => best end
  end.

Section router.
Context {D : Type} `{HA : Arith D} (atof : list Z -> D).
Record rest_router_t := mk_router {
  routes : list nat; uri : list Z; base_path : list Z; version : Z; rate_limit_tokens : D; rate_limit_last_refill : D; rate_limit_capacity : D; rate_limit_rate : D; cors : rest_cors_policy_t;
}.
Definition no_cors : rest_cors_policy_t := mk_cors [] false [] [] 0.
Definition rest_router_init (base : list Z) (v now : Z) : rest_router_t :=
  mk_router [] (truncated REST_MAX_URI_LEN (base ++ str_bytes "/v" ++ print_lld v)) (truncated 512 base) v (of_Z 200) (of_Z now) (of_Z 200) (of_Z 100) no_cors.
Definition rest_router_register (r : rest_router_t) (i : nat) : bool * rest_router_t :=
  if (REST_MAX_ROUTES <=? length (routes r))%nat then (false, r)
  else (true, mk_router (routes r ++ [i]) (uri r) (base_path r) (version r) (rate_limit_tokens r) (rate_limit_last_refill r) (rate_limit_capacity r) (rate_limit_rate r) (cors r)).
Definition rest_router_resolve (mem : nat -> rest_resource_t) (r : rest_router_t) (u : list Z) (m : rest_method_t) : option (option nat) := fst <$> resolve_from mem u m (routes r) (None, -1).
Definition rest_router_set_cors (r : rest_router_t) (o : option (list Z)) (credentials : bool) (methods headers : option (list Z)) (age : Z) : rest_router_t :=
  let c := cors r in
  let c := mk_cors (truncated 256 (default (str_bytes "*") o)) credentials (match methods with Some m => truncated 128 m | None => allowed_methods c end)
    (match headers with Some h => truncated 512 h | None => allowed_headers c end) age in
  mk_router (routes r) (uri r) (base_path r) (version r) (rate_limit_tokens r) (rate_limit_last_refill r) (rate_limit_capacity r) (rate_limit_rate r) c.
Definition with_limit (r : rest_router_t) (rate capacity tokens last : D) : rest_router_t := mk_router (routes r) (uri r) (base_path r) (version r) tokens last capacity rate (cors r).
Definition rest_router_set_rate_limit (r : rest_router_t) (rate capacity : D) (now : Z) : rest_router_t := with_limit r rate capacity capacity (of_Z now).
Definition rest_router_check_rate_limit (r : rest_router_t) (now : Z) : bool * rest_router_t :=
  if leb (rate_limit_rate r) (of_Z 0) then (true, r)
  else
    let now := of_Z now in
    let tokens := add (rate_limit_tokens r) (mul (sub now (rate_limit_last_refill r)) (rate_limit_rate r)) in
    let tokens := if ltb (rate_limit_capacity r) tokens then rate_limit_capacity r else tokens in
    if leb (of_Z 1) tokens then (true, with_limit r (rate_limit_rate r) (rate_limit_capacity r) (sub tokens (of_Z 1)) now)
    else (false, with_limit r (rate_limit_rate r) (rate_limit_capacity r) tokens now).

(** ** Media types *)

Record rest_media_range_t := mk_media_range { m_type : list Z; subtype : list Z; quality : D; m_level : Z }.
Definition rest_media_type_to_mime (t : rest_media_type_t) : list Z :=
  str_bytes match t with
  | REST_MEDIA_JSON => "application/json" | REST_MEDIA_XML => "application/xml" | REST_MEDIA_FORM => "application/x-www-form-urlencoded" | REST_MEDIA_MULTIPART => "multipart/form-data" | REST_MEDIA_TEXT_PLAIN => "text/plain"
  | REST_MEDIA_TEXT_HTML => "text/html" | REST_MEDIA_OCTET_STREAM => "application/octet-stream" | REST_MEDIA_PROTOBUF => "application/protobuf" | REST_MEDIA_ANY => "*/*"
  end.
(** Up to the next comma (44) or semicolon (59). *)
Definition skip_parameter (p : list Z) : list Z := drop_while (fun c => not_char 44 c && not_char 59 c) p.
Fixpoint media_parameters (fuel : nat) (g : rest_media_range_t) (p : list Z) : option rest_media_range_t :=
  match fuel with
  | O => None
  | S fuel =>
      match p with
      | [] => Some g
      | _ =>
          let p := drop_while (fun c => (c =? 32) || (c =? 59)) p in
          match starts_with (str_bytes "q=") p, starts_with (str_bytes "level=") p with
          | Some p, _ => media_parameters fuel (mk_media_range (m_type g) (subtype g) (atof p) (m_level g)) (skip_parameter p)
          | None, Some p => media_parameters fuel (mk_media_range (m_type g) (subtype g) (quality g) (atoi p)) (skip_parameter p)
          | None, None => media_parameters fuel g (skip_parameter p)
          end
      end
  end.
Definition before_slash (p : list Z) : list Z * list Z := (take_while (not_char 47) p, tl (drop_while (not_char 47) p)).
Definition rest_parse_media_range (entry : list Z) : option rest_media_range_t :=
  let p := drop_while (Z.eqb 32) entry in
  let '(ty, p) := before_slash p in
  let in_sub := fun c => not_char 59 c && not_char 44 c && not_char 32 c in
  media_parameters (S (length entry)) (mk_media_range (truncated 64 ty) (truncated 64 (take_while in_sub p)) (of_Z 1) 0) (drop_while in_sub p).
Definition rest_media_type_specificity (t : rest_media_type_t) : Z :=
  match t with
  | REST_MEDIA_JSON => 8 | REST_MEDIA_XML => 7 | REST_MEDIA_PROTOBUF => 6 | REST_MEDIA_MULTIPART => 5 | REST_MEDIA_FORM => 4 | REST_MEDIA_TEXT_HTML => 3 | REST_MEDIA_TEXT_PLAIN => 2 | REST_MEDIA_OCTET_STREAM => 1
  | REST_MEDIA_ANY => 0
  end.
Fixpoint tokens (fuel : nat) (s : list Z) : list (list Z) :=
  match fuel, strtok 44 s with S fuel, (Some t, rest) => t :: tokens fuel rest | _, _ => [] end.
Definition star (t : list Z) : bool := bool_decide (t = [42]).
Definition covers (g : rest_media_range_t) (t : rest_media_type_t) : bool :=
  let '(ty, sub) := before_slash (rest_media_type_to_mime t) in
  (star (m_type g) || bool_decide (m_type g = truncated 64 ty)) && (star (subtype g) || bool_decide (subtype g = truncated 64 sub)).
(** The best type so far, its quality and its rank. *)
Definition consider (g : rest_media_range_t) (b : rest_media_type_t * D * Z) (t : rest_media_type_t) : rest_media_type_t * D * Z :=
  let '(best, best_q, best_spec) := b in
  if covers g t then
    let spec := rest_media_type_specificity t in
    if ltb best_q (quality g) || leb (quality g) best_q && leb best_q (quality g) && (best_spec <? spec) then (t, quality g, spec) else b
  else b.
Definition rest_negotiate_content_type (accept : option (list Z)) (supported : list rest_media_type_t) : option rest_media_type_t :=
  match accept, supported with
  | _, [] => Some REST_MEDIA_JSON
  | None, t :: _ => Some t
  | Some accept, t :: _ =>
      if bool_decide (accept = str_bytes "*/*") then Some t
      else
        let header := truncated 1024 accept in
        '(best, best_q, _) ← foldl (fun b token => b ← b; g ← rest_parse_media_range token; Some (foldl (consider g) b supported)) (Some (t, of_Z (-1), -1)) (tokens (length header) header);
        Some (if ltb (of_Z 0) best_q then best else t)
  end.
End router.
#[global] Arguments rest_router_t : clear implicits.
#[global] Arguments rest_media_range_t : clear implicits.

(** ** Entity tags: the character 34 is the quote *)

Definition rest_djb2_hash (b : list Z) : Z := foldl (fun h c => u32 (u32 (u32 (Z.shiftl h 5) + h) + c)) 5381 b.
(** The body is [len] bytes. *)
Definition rest_etag_strong (body : option (list Z)) : rest_etag_t :=
  match body with
  | None | Some [] => mk_etag [] false
  | Some b => mk_etag (truncated REST_ETAG_LEN ([34] ++ print_hex 8 (rest_djb2_hash b) ++ [45] ++ print_lld (Z.of_nat (length b)) ++ [34])) false
  end.
Definition rest_etag_weak (body : option (list Z)) : rest_etag_t :=
  let v := e_value (rest_etag_strong body) in
  mk_etag (match v with c :: _ => if c =? 34 then truncated REST_ETAG_LEN (str_bytes "W/" ++ v) else v | [] => v end) true.
(** A tag of the header, up to [room] bytes, and what is behind it. *)
Fixpoint read_tag (quoted : bool) (room : nat) (p : list Z) : list Z * list Z :=
  match room, p with
  | S room, c :: p' =>
      if c =? 44 then ([], p)
      else if quoted && (c =? 34) then ([], p')
      else let '(t, r) := read_tag quoted room p' in (c :: t, r)
  | _, _ => ([], p)
  end.
(** The next tag of the header: whether it is weak, its text, and what is behind it. *)
Definition next_tag (p : list Z) : bool * list Z * list Z :=
  let p := drop_while (fun c => (c =? 32) || (c =? 44)) p in
  let '(weak, p) := match starts_with (str_bytes "W/") p with Some p => (true, p) | None => (false, p) end in
  let '(quoted, p) := match p with c :: p' => if c =? 34 then (true, p') else (false, p) | [] => (false, p) end in
  let '(tag, p) := read_tag quoted (REST_ETAG_LEN - 1) p in
  (weak, tag, p).
Definition tag_matches (e : rest_etag_t) (weak : bool) (tag : list Z) : bool :=
  if weak || is_weak e then bool_decide (drop (if is_weak e then 2 else 0) (e_value e) = tag) else bool_decide (e_value e = truncated REST_ETAG_LEN ([34] ++ tag ++ [34])).
Fixpoint match_tags (fuel : nat) (e : rest_etag_t) (p : list Z) : option bool :=
  match fuel with
  | O => None
  | S fuel =>
      match p with
      | [] => Some false
      | _ => let '(weak, tag, p) := next_tag p in if tag_matches e weak tag then Some true else match_tags fuel e p
      end
  end.
Definition rest_etag_match (e : rest_etag_t) (if_none_match : option (list Z)) : option bool :=
  match if_none_match, e_value e with
  | None, _ | _, [] => Some false
  | Some h, _ => if bool_decide (h = [42]) then Some true else match_tags (S (length h)) e h
  end.
Definition rest_etag_compare (a b : rest_etag_t) : Z := strcmp (e_value a) (e_value b).

(** ** Headers *)

Definition line (what : string) (text : list Z) : list Z := str_bytes what ++ str_bytes ": " ++ text ++ crlf.
Definition text_line (what : string) (text : list Z) : list (list Z) := match text with [] => [] | _ => [line what text] end.
Definition rest_build_cors_headers (c : rest_cors_policy_t) (request_origin : option (list Z)) (len : nat) : option (list Z) :=
  fst <$> sprint_all len ([], O)
    ([line "Access-Control-Allow-Origin" (match origin c with [] => default (str_bytes "*") request_origin | o => o end) ++
      line "Access-Control-Allow-Credentials" (if allow_credentials c then str_bytes "true" else str_bytes "false")] ++
     text_line "Access-Control-Allow-Methods" (allowed_methods c) ++ text_line "Access-Control-Allow-Headers" (allowed_headers c) ++
     (if 0 <? max_age c then [line "Access-Control-Max-Age" (print_lld (max_age c))] else [])).
Definition rest_build_cache_headers (e : rest_etag_t) (age : Z) (cc : rest_cache_control_t) (len : nat) : option (list Z) :=
  fst <$> sprint_all len ([], O)
    (text_line "ETag" (e_value e) ++
     (if 0 <? age then [line "Cache-Control" (str_bytes match cc with REST_CACHE_PRIVATE => "private" | REST_CACHE_NO_STORE => "no-store" | REST_CACHE_NO_CACHE => "no-cache" | REST_CACHE_PUBLIC => "public" end ++ str_bytes ", max-age=" ++ print_lld age)] else [])).

(** ** Finding a resource *)

Lemma walk_ends fuel : forall rp up s, (length rp < fuel)%nat -> is_Some (walk fuel rp up s).
Proof.
  induction fuel as [|fuel IH]; intros rp up s Hf; [lia|]. cbn [walk]. destruct rp as [|c rp], up as [|x up]; try by eexists. destruct (Z.eqb_spec c 123) as [->|].
  - apply IH. cbn [drop_while not_char]. change (not_char 125 123) with true. cbn iota. pose proof (drop_while_le (not_char 125) rp). destruct (drop_while (not_char 125) rp); cbn in *; lia.
  - destruct (c =? x); [apply IH; cbn in Hf; lia|by eexists].
Qed.
Lemma path_score_ends rp up : is_Some (path_score rp up).
Proof. unfold path_score. destruct (walk_ends (S (length rp)) rp up 0) as [[[a b] s] ->]; [lia|]. by eexists. Qed.
Definition score_of (mem : nat -> rest_resource_t) (u : list Z) (m : rest_method_t) (i : nat) : option Z :=
  if bool_decide (method (mem i) = m) then mjoin (path_score (r_path (mem i)) u) else None.
(** The first of the best: every route before it has a lower score, every route behind it no higher one. *)
Definition first_best (score : nat -> option Z) (l : list nat) (i : nat) : Prop :=
  exists l1 l2 s, l = l1 ++ i :: l2 /\ score i = Some s /\ Forall (fun j => match score j with Some t => t < s | None => True end) l1 /\ Forall (fun j => match score j with Some t => t <= s | None => True end) l2.
Lemma walk_score fuel : forall rp up s a b t, walk fuel rp up s = Some (a, b, t) -> s <= t.
Proof.
  induction fuel as [|fuel IH]; intros rp up s a b t; [done|]. cbn [walk]. destruct rp as [|c rp], up as [|x up]; try by intros [= _ _ <-]. destruct (c =? 123); [intros H; apply IH in H; lia|]. destruct (c =? x); [intros H; apply IH in H; lia|by intros [= _ _ <-]].
Qed.
Lemma score_nonneg mem u m i s : score_of mem u m i = Some s -> 0 <= s.
Proof.
  unfold score_of. case_bool_decide; [|done]. unfold path_score. destruct (walk _ _ _ _) as [[[a b] t]|] eqn:E; [|done]. apply walk_score in E. cbn. destruct (path_match a b); [|done]. cbn. by intros [= <-].
Qed.
Lemma resolve_step mem u m i l best : resolve_from mem u m (i :: l) best = resolve_from mem u m l match score_of mem u m i with Some s => if best.2 <? s then (Some i, s) else best | None => best end.
Proof.
  cbn [resolve_from]. unfold score_of. destruct (bool_decide_reflect (method (mem i) = m)) as [E|E]; [rewrite bool_decide_eq_false_2 by tauto|by rewrite bool_decide_eq_true_2].
  destruct (path_score_ends (r_path (mem i)) u) as [s ->]. by destruct s.
Qed.
Lemma resolve_spec mem u m l : forall l0 best, (best = (None, -1) /\ Forall (fun j => score_of mem u m j = None) l0 \/ exists i s, best = (Some i, s) /\ score_of mem u m i = Some s /\ first_best (score_of mem u m) l0 i) ->
  exists best', resolve_from mem u m l best = Some best' /\
    (best' = (None, -1) /\ Forall (fun j => score_of mem u m j = None) (l0 ++ l) \/ exists i s, best' = (Some i, s) /\ score_of mem u m i = Some s /\ first_best (score_of mem u m) (l0 ++ l) i).
Proof.
  induction l as [|i l IH]; intros l0 best Hb; [exists best; rewrite app_nil_r; done|]. rewrite resolve_step. replace (l0 ++ i :: l) with ((l0 ++ [i]) ++ l) by (by rewrite <- app_assoc). apply IH.
  destruct (score_of mem u m i) as [s|] eqn:Hs.
  - pose proof (score_nonneg _ _ _ _ _ Hs). destruct Hb as [[-> Hn]|(i0 & s0 & -> & Hs0 & l1 & l2 & s1 & -> & Hs1 & Hf1 & Hf2)]; cbn [snd].
    + destruct (Z.ltb_spec (-1) s); [|lia]. right. exists i, s. split; [done|]. split; [done|]. exists l0, [], s. split; [done|]. split; [done|]. split; [|done]. eapply Forall_impl; [exact Hn|]. by intros j ->.
    + assert (s1 = s0) as -> by congruence. destruct (Z.ltb_spec s0 s).
      * right. exists i, s. split; [done|]. split; [done|]. exists (l1 ++ i0 :: l2), [], s. split; [done|]. split; [done|]. split; [|done]. apply Forall_app. split; [|apply Forall_cons; split; [rewrite Hs1; lia|]]; (eapply Forall_impl; [eassumption|]); intros j; cbn beta; destruct (score_of mem u m j); intros; try done; lia.
      * right. exists i0, s0. split; [done|]. split; [done|]. exists l1, (l2 ++ [i]), s0. split; [by rewrite <- app_assoc|]. split; [done|]. split; [done|]. apply Forall_app. split; [done|]. repeat constructor. by rewrite Hs.
  - destruct Hb as [[-> Hn]|(i0 & s0 & -> & Hs0 & l1 & l2 & s1 & -> & Hs1 & Hf1 & Hf2)]; [left; split; [done|]; apply Forall_app; by repeat constructor|].
    right. exists i0, s0. split; [done|]. split; [done|]. exists l1, (l2 ++ [i]), s1. split; [by rewrite <- app_assoc|]. split; [done|]. split; [done|]. apply Forall_app. split; [done|]. repeat constructor. by rewrite Hs.
Qed.
(** C34: Resolving a request always ends: with the first of the routes of its method whose path
    matches with the highest score, or with none when none matches. *)
Theorem rest_router_resolve_correct {D} `{Arith D} mem (r : rest_router_t D) u m :
  exists o, rest_router_resolve mem r u m = Some o /\
    match o with Some i => first_best (score_of mem u m) (routes r) i | None => Forall (fun i => score_of mem u m i = None) (routes r) end.
Proof.
  unfold rest_router_resolve. destruct (resolve_spec mem u m (routes r) [] (None, -1)) as (best & -> & Hb); [by left|]. exists best.1. split; [done|]. destruct Hb as [[-> Hn]|(i & s & -> & _ & Hf)]; done.
Qed.

(** ** Pages *)

(** The pages hold all items and no page is empty; there is a next page exactly when items are
    left behind this one. *)
Theorem rest_pagination_correct p size total : 0 < size -> 0 <= total -> total + size < 2 ^ 31 -> let g := rest_pagination_init p size total in
  total <= total_pages g * size /\ (total_pages g - 1) * size < total \/ total = 0 /\ total_pages g = 0.
Proof.
  intros Hs Ht Hb. cbn zeta. unfold rest_pagination_init. cbn [total_pages]. rewrite (proj2 (Z.ltb_lt 0 size)) by done. rewrite !s32_small by (rewrite ?s32_small; lia). rewrite Z.quot_div_nonneg by lia.
  destruct (decide (total = 0)) as [->|]; [right; split; [done|]; apply Z.div_small; lia|]. left. Z.to_euclidean_division_equations. nia.
Qed.
Theorem rest_pagination_next p size total : 0 < size -> 0 <= total -> total + size < 2 ^ 31 -> 0 <= p -> has_next (rest_pagination_init p size total) = true <-> p * size < total.
Proof.
  intros Hs Ht Hb Hp. unfold rest_pagination_init. cbn [has_next]. rewrite (proj2 (Z.ltb_lt 0 size)) by done. rewrite !s32_small by (rewrite ?s32_small; lia). rewrite Z.quot_div_nonneg by lia. rewrite Z.ltb_lt.
  Z.to_euclidean_division_equations. nia.
Qed.

(** ** Entity tags *)

Lemma read_tag_le q room : forall p, (length (read_tag q room p).2 <= length p)%nat.
Proof.
  induction room as [|room IH]; intros [|c p]; cbn [read_tag snd]; try lia. destruct (c =? 44); [cbn; lia|]. destruct (q && (c =? 34)); [cbn; lia|]. specialize (IH p). destruct (read_tag q room p). cbn in *. lia.
Qed.
(** Not quoted, a tag takes at least one character that is no comma; quoted or not, it does
    not start with a quote. *)
Lemma read_tag_moves room c p : c <> 44 -> (length (read_tag false (S room) (c :: p)).2 < length (c :: p))%nat.
Proof. intros Hc. cbn [read_tag]. rewrite (proj2 (Z.eqb_neq _ _)) by done. cbn [andb]. pose proof (read_tag_le false room p). destruct (read_tag false room p). cbn in *. lia. Qed.
Lemma read_tag_head q room p : q = true \/ hd 0 p <> 34 -> hd 0 (read_tag q room p).1 <> 34.
Proof.
  destruct room as [|room], p as [|c p]; cbn [read_tag]; try by cbn. intros H. destruct (c =? 44); [by cbn|]. destruct (q && (c =? 34)) eqn:E; [by cbn|]. destruct (read_tag q room p). cbn in *.
  intros ->. destruct H as [->|H]; [done|by apply H].
Qed.
Lemma next_tag_spec p : p <> [] -> let '(_, t, q) := next_tag p in (length q < length p)%nat /\ hd 0 t <> 34.
Proof.
  intros Hp. unfold next_tag. pose proof (drop_while_le (fun c => (c =? 32) || (c =? 44)) p) as Hd. pose proof (drop_while_head (fun c => (c =? 32) || (c =? 44)) p) as Hh. set (d := drop_while _ p) in *.
  assert (Hpos : (0 < length p)%nat) by (destruct p; cbn; [done|lia]). clearbody d.
  assert (Hgo : forall r, (length r < length p)%nat -> let '(quoted, p) := match r with c :: p' => if c =? 34 then (true, p') else (false, r) | [] => (false, r) end in
    let '(t, q) := read_tag quoted (REST_ETAG_LEN - 1) p in (length q <= length r)%nat /\ hd 0 t <> 34).
  { intros r Hr. destruct r as [|c r]; [by cbn|]. destruct (Z.eqb_spec c 34) as [->|Hc].
    - pose proof (read_tag_le true (REST_ETAG_LEN - 1) r) as H1. pose proof (read_tag_head true (REST_ETAG_LEN - 1) r (or_introl eq_refl)) as H2. destruct (read_tag true _ r). cbn [fst snd length] in *. split; [lia|done].
    - pose proof (read_tag_le false (REST_ETAG_LEN - 1) (c :: r)) as H1. pose proof (read_tag_head false (REST_ETAG_LEN - 1) (c :: r) (or_intror Hc)) as H2. destruct (read_tag false _ (c :: r)). cbn [fst snd length] in *. split; [lia|done]. }
  destruct (starts_with (str_bytes "W/") d) as [r|] eqn:E.
  - apply starts_with_length in E. change (length (str_bytes "W/")) with 2%nat in E. specialize (Hgo r ltac:(lia)). destruct (match r with [] => _ | _ => _ end) as [quoted r']. destruct (read_tag quoted _ r') as [t q]. destruct Hgo as [H1 H2]. split; [lia|done].
  - destruct d as [|c d]; [cbn; split; [done|done]|]. destruct (Z.eqb_spec c 34) as [->|Hc].
    + pose proof (read_tag_le true (REST_ETAG_LEN - 1) d) as H1. pose proof (read_tag_head true (REST_ETAG_LEN - 1) d (or_introl eq_refl)) as H2. destruct (read_tag true _ d). cbn [fst snd length] in *. split; [lia|done].
    + assert (c <> 44) by lia. pose proof (read_tag_moves 62 c d ltac:(done)) as H1. pose proof (read_tag_head false (REST_ETAG_LEN - 1) (c :: d) (or_intror Hc)) as H2. change (REST_ETAG_LEN - 1)%nat with 63%nat in *. destruct (read_tag false 63 (c :: d)). cbn [fst snd length] in *. split; [lia|done].
Qed.
Lemma match_tags_ends e : forall fuel p, (length p < fuel)%nat -> is_Some (match_tags fuel e p).
Proof.
  induction fuel as [|fuel IH]; intros p Hf; [lia|]. cbn [match_tags]. destruct p as [|c p]; [by eexists|]. pose proof (next_tag_spec (c :: p) ltac:(done)) as Hn. destruct (next_tag (c :: p)) as [[w t] q]. destruct (tag_matches e w t); [by eexists|]. apply IH. lia.
Qed.
(** Comparing entity tags ends for every header. *)
Theorem rest_etag_match_ends e h : is_Some (rest_etag_match e h).
Proof. unfold rest_etag_match. destruct h as [h|]; [|by eexists]. destruct (e_value e); [by eexists|]. case_bool_decide; [by eexists|]. apply match_tags_ends. lia. Qed.
Lemma strong_value b : b <> [] -> exists t, e_value (rest_etag_strong (Some b)) = 34 :: t /\ (length t <= 40)%nat.
Proof.
  intros Hb. unfold rest_etag_strong. destruct b as [|c b]; [done|]. cbn [e_value]. set (x := rest_djb2_hash _). set (n := print_lld _).
  assert (Hn : (length n <= 21)%nat) by apply print_lld_length. assert (Hx : length (print_hex 8 x) = 8%nat).
  { apply print_hex_length; [|lia]. subst x. unfold rest_djb2_hash. change (2 ^ 32) with (16 ^ Z.of_nat 8). induction (c :: b) as [|y l IH] using rev_ind; [done|]. rewrite foldl_app. cbn [foldl]. pose proof (u32_range (u32 (u32 (Z.shiftl (foldl (fun h c => u32 (u32 (u32 (Z.shiftl h 5) + h) + c)) 5381 l) 5) + foldl (fun h c => u32 (u32 (u32 (Z.shiftl h 5) + h) + c)) 5381 l) + y)). change (16 ^ Z.of_nat 8) with (2 ^ 32). done. }
  rewrite truncated_id by (rewrite !length_app; cbn [length]; unfold REST_ETAG_LEN; lia). eexists. split; [reflexivity|]. rewrite !length_app. cbn [length]. lia.
Qed.
(** The entity tag of a body answers a header that repeats it, alone or first of a list. *)
Theorem rest_etag_match_correct b t rest : b <> [] -> 34 ∉ t -> 44 ∉ t -> (length t <= 61)%nat -> e_value (rest_etag_strong (Some b)) = [34] ++ t ++ [34] -> rest_etag_match (rest_etag_strong (Some b)) (Some ([34] ++ t ++ [34] ++ rest)) = Some true.
Proof.
  intros Hb H34 H44 Hl Hv. unfold rest_etag_match. rewrite Hv. cbn [app]. rewrite bool_decide_eq_false_2 by done. cbn [match_tags length]. unfold next_tag. cbn [drop_while]. change ((34 =? 32) || (34 =? 44)) with false. cbn iota.
  change (starts_with (str_bytes "W/") (34 :: ?x)) with (@None (list Z)). cbn iota. change (34 =? 34) with true. cbn iota.
  assert (Hread : forall room, (length t < room)%nat -> read_tag true room (t ++ 34 :: rest) = (t, rest)).
  { clear Hv Hl. induction t as [|c t IH]; intros [|room] Hr; cbn [length] in Hr; try lia; [done|]. apply not_elem_of_cons in H34 as [Ha H34], H44 as [Hc H44]. cbn [app read_tag].
    rewrite (proj2 (Z.eqb_neq c 44)), (proj2 (Z.eqb_neq c 34)) by done. cbn [andb]. by rewrite IH by (done || lia). }
  rewrite Hread by (unfold REST_ETAG_LEN; lia). unfold tag_matches. replace (is_weak (rest_etag_strong (Some b))) with false by (by destruct b). cbn [orb]. rewrite Hv. rewrite truncated_id by (rewrite !length_app; cbn; unfold REST_ETAG_LEN; lia). by rewrite bool_decide_eq_true_2.
Qed.
(** A weak tag matches nothing but a star: its quotes are compared with a tag without them. *)
Theorem rest_etag_weak_never b h : h <> [42] -> rest_etag_match (rest_etag_weak (Some b)) (Some h) = Some false.
Proof.
  intros Hh. unfold rest_etag_match. destruct (decide (b = [])) as [->|Hb]; [done|]. destruct (strong_value b Hb) as (t & Hv & Hl).
  assert (Hw : e_value (rest_etag_weak (Some b)) = 87 :: 47 :: 34 :: t). { unfold rest_etag_weak. rewrite Hv. change (34 =? 34) with true. cbn iota. cbn [e_value]. rewrite truncated_id; [done|]. cbn. unfold REST_ETAG_LEN. lia. }
  rewrite Hw. rewrite bool_decide_eq_false_2 by done.
  assert (Hall : forall fuel p, (length p < fuel)%nat -> match_tags fuel (rest_etag_weak (Some b)) p = Some false); [|apply Hall; lia].
  induction fuel as [|fuel IH]; intros p Hf; [lia|]. cbn [match_tags]. destruct p as [|c p]; [done|]. pose proof (next_tag_spec (c :: p) ltac:(done)) as Hn. destruct (next_tag (c :: p)) as [[w u] q]. destruct Hn as [Hn1 Hn2].
  unfold tag_matches. change (is_weak (rest_etag_weak (Some b))) with true. rewrite orb_true_r, Hw. cbn [drop]. rewrite bool_decide_eq_false_2 by (intros <-; by cbn in Hn2). apply IH. lia.
Qed.

(** ** Media types *)

Section media.
Context {D : Type} `{HA : Arith D} (atof : list Z -> D).

(** An entry with a comma behind its type: the loop over the parameters stands still on it. *)
Lemma skip_parameter_keeps p : 44 ∈ p -> 44 ∈ skip_parameter p.
Proof using. by apply drop_while_keeps. Qed.
Theorem media_comma_hangs fuel : forall g p, 44 ∈ p -> media_parameters atof fuel g p = None.
Proof using.
  induction fuel as [|fuel IH]; intros g p Hp; [done|]. cbn [media_parameters]. destruct p as [|c p]; [by apply not_elem_of_nil in Hp|]. remember (c :: p) as s eqn:Es. clear Es c p.
  assert (Hd : 44 ∈ drop_while (fun c => (c =? 32) || (c =? 59)) s) by (by apply drop_while_keeps). set (d := drop_while _ s) in *. clearbody d.
  destruct (starts_with (str_bytes "q=") d) as [r|] eqn:E1; [|destruct (starts_with (str_bytes "level=") d) as [r|] eqn:E2].
  - apply starts_with_app_inv in E1. subst d. apply IH, skip_parameter_keeps. apply elem_of_app in Hd as [Hd|]; [|done]. exfalso. revert Hd. apply (bool_decide_unpack (44 ∉ str_bytes "q=")). done.
  - apply starts_with_app_inv in E2. subst d. apply IH, skip_parameter_keeps. apply elem_of_app in Hd as [Hd|]; [|done]. exfalso. revert Hd. apply (bool_decide_unpack (44 ∉ str_bytes "level=")). done.
  - by apply IH, skip_parameter_keeps.
Qed.
Lemma skip_parameter_le p : (length (skip_parameter p) <= length p)%nat.
Proof using. apply drop_while_le. Qed.
Lemma media_parameters_ends fuel : forall g p, 44 ∉ p -> (length p < fuel)%nat -> is_Some (media_parameters atof fuel g p).
Proof using.
  induction fuel as [|fuel IH]; intros g p Hp Hf; [lia|]. cbn [media_parameters]. destruct p as [|c p]; [by eexists|]. remember (c :: p) as s eqn:Es. assert (Hpos : (0 < length s)%nat) by (subst; cbn; lia). clear Es c p.
  assert (Hd : 44 ∉ drop_while (fun c => (c =? 32) || (c =? 59)) s) by (intros H; apply Hp; by apply drop_while_incl in H). pose proof (drop_while_le (fun c => (c =? 32) || (c =? 59)) s) as Hl. pose proof (drop_while_head (fun c => (c =? 32) || (c =? 59)) s) as Hh. set (d := drop_while _ s) in *. clearbody d.
  assert (Hstep : forall g r, (length r < length s)%nat -> (forall x, x ∈ r -> x ∈ d) -> is_Some (media_parameters atof fuel g (skip_parameter r))).
  { intros g' r Hr Hin. apply IH; [|pose proof (skip_parameter_le r); lia]. intros H%drop_while_incl. by apply Hd, Hin. }
  destruct (starts_with (str_bytes "q=") d) as [r|] eqn:E1; [|destruct (starts_with (str_bytes "level=") d) as [r|] eqn:E2].
  - pose proof (starts_with_length _ _ _ E1). change (length (str_bytes "q=")) with 2%nat in *. apply starts_with_app_inv in E1. apply Hstep; [lia|]. intros x Hx. subst d. by apply elem_of_app; right.
  - pose proof (starts_with_length _ _ _ E2). change (length (str_bytes "level=")) with 6%nat in *. apply starts_with_app_inv in E2. apply Hstep; [lia|]. intros x Hx. subst d. by apply elem_of_app; right.
  - destruct d as [|x d]; [apply IH; [done|cbn; lia]|]. apply not_elem_of_cons in Hd as [Hx Hd]. assert (Hsk : skip_parameter (x :: d) = skip_parameter d) by (unfold skip_parameter; cbn [drop_while]; unfold not_char at 1 2; replace (x =? 44) with false by lia; replace (x =? 59) with false by lia; done).
    rewrite Hsk. apply Hstep; [cbn in Hl; lia|]. intros y Hy. by right.
Qed.
Lemma before_slash_incl p x : x ∈ (before_slash p).2 -> x ∈ p.
Proof using. unfold before_slash. cbn. intros H. apply (drop_while_incl (not_char 47)). destruct (drop_while _ p); [done|]. by right. Qed.
Lemma parse_media_range_ends p : 44 ∉ p -> is_Some (rest_parse_media_range atof p).
Proof using.
  intros Hp. unfold rest_parse_media_range. destruct (before_slash _) as [ty r] eqn:E.
  assert (Hr : forall x, x ∈ r -> x ∈ p) by (intros x Hx; apply (drop_while_incl (Z.eqb 32)), before_slash_incl; by rewrite E).
  apply media_parameters_ends; [intros H%drop_while_incl; by apply Hp, Hr|]. pose proof (drop_while_le (fun c => not_char 59 c && not_char 44 c && not_char 32 c) r).
  assert (length r <= length p)%nat; [|lia]. unfold before_slash in E. injection E as _ <-. pose proof (drop_while_le (Z.eqb 32) p). pose proof (drop_while_le (not_char 47) (drop_while (Z.eqb 32) p)). destruct (drop_while (not_char 47) _); cbn in *; lia.
Qed.
Lemma strtok_no_delim c s t r : strtok c s = (Some t, r) -> c ∉ t.
Proof using.
  unfold strtok. destruct (skip_delims c s) as [|x l] eqn:E; [done|]. clear E. destruct (split_delim c (x :: l)) as [t' r'] eqn:E. intros [= <- <-]. revert t' r' E. generalize (x :: l). clear. intros l. induction l as [|y l IH]; intros t r; cbn [split_delim]; [intros [= <- <-]; by apply not_elem_of_nil|].
  destruct (Z.eqb_spec y c); [intros [= <- <-]; by apply not_elem_of_nil|]. destruct (split_delim c l) as [a b]. intros [= <- <-]. apply not_elem_of_cons. split; [congruence|by eapply IH].
Qed.
Lemma tokens_no_comma fuel : forall s, Forall (fun t => 44 ∉ t) (tokens fuel s).
Proof using. induction fuel as [|fuel IH]; intros s; cbn [tokens]; [constructor|]. destruct (strtok 44 s) as [[t|] r] eqn:E; constructor; [by eapply strtok_no_delim|done]. Qed.
(** The negotiation of the content type ends for every header, with one of the supported types. *)
Theorem rest_negotiate_supported accept t ts : exists x, rest_negotiate_content_type atof accept (t :: ts) = Some x /\ x ∈ t :: ts.
Proof using.
  unfold rest_negotiate_content_type. destruct accept as [accept|]; [|exists t; split; [done|by left]]. case_bool_decide; [exists t; split; [done|by left]|]. set (header := truncated 1024 accept). set (sup := t :: ts).
  assert (Hg : forall toks b, Forall (fun t => 44 ∉ t) toks -> b.1.1 ∈ sup -> exists b', foldl (fun b token => b ← b; g ← rest_parse_media_range atof token; Some (foldl (consider g) b sup)) (Some b) toks = Some b' /\ b'.1.1 ∈ sup).
  { induction toks as [|tok toks IH]; intros b Ht Hb; [by exists b|]. apply Forall_cons in Ht as [Ht Hts]. cbn [foldl mbind option_bind]. destruct (parse_media_range_ends tok Ht) as [g ->]. cbn [mbind option_bind]. apply IH; [done|].
    assert (Hc : forall l b, (forall x, x ∈ l -> x ∈ sup) -> b.1.1 ∈ sup -> (foldl (consider g) b l).1.1 ∈ sup); [|by apply Hc].
    induction l as [|x l IHl]; intros b' Hl Hb'; [done|]. cbn [foldl]. apply IHl; [intros y Hy; apply Hl; by right|]. unfold consider. destruct b' as [[b1 b2] b3]. destruct (covers g x); [|done]. destruct (_ || _); [apply Hl; by left|done]. }
  destruct (Hg (tokens (length header) header) (t, of_Z (-1), -1) (tokens_no_comma _ _)) as ([[b1 b2] b3] & -> & Hb); [by left|]. cbn [mbind option_bind]. eexists. split; [done|]. destruct (ltb _ _); [done|by left].
Qed.
End media.

(** ** At work *)

Definition resource (p : string) : rest_resource_t := rest_resource_init (str_bytes p) (str_bytes p) REST_GET.
Definition memory (i : nat) : rest_resource_t := match i with O => resource "/users/{id}" | 1%nat => resource "/users" | _ => resource "/users/a" end.
Definition router (l : list nat) : rest_router_t Q := foldl (fun r i => (rest_router_register r i).2) (rest_router_init (str_bytes "/api") 1 0) l.
Definition resolved (l : list nat) (u : string) : option (option nat) := rest_router_resolve memory (router l) (str_bytes u) REST_GET.
Example resolve_at_work : resolved [1%nat; 0%nat] "/users/7" = Some (Some 0%nat) /\ resolved [1%nat; 0%nat] "/users" = Some (Some 1%nat) /\ resolved [1%nat; 0%nat] "/orders" = Some None.
Proof. by vm_compute. Qed.
(** The path of a collection finds the resource with a parameter, when that comes first; a
    longer path finds a shorter route; and a parameter counts more than a letter. *)
Example collection_is_item : resolved [0%nat; 1%nat] "/users" = Some (Some 0%nat).
Proof. by vm_compute. Qed.
Example longer_path_matches : resolved [0%nat] "/users/7/orders/9" = Some (Some 0%nat).
Proof. by vm_compute. Qed.
Example parameter_beats_letter : resolved [2%nat; 0%nat] "/users/a" = Some (Some 0%nat).
Proof. by vm_compute. Qed.
Definition page_tag : rest_etag_t := rest_etag_strong (Some [97]).
(** Any origin and credentials together. *)
Example any_origin_with_credentials : rest_build_cors_headers (cors (rest_router_set_cors (router []) None true None None 0)) None 200 =
  Some (line "Access-Control-Allow-Origin" [42] ++ line "Access-Control-Allow-Credentials" (str_bytes "true")).
Proof. by vm_compute. Qed.
Example headers_overflow : rest_build_cors_headers (mk_cors [42] false (str_bytes "GET") [] 0) None 50 = None.
Proof. by vm_compute. Qed.
(** A type that the client refuses with quality 0 is sent when it is the first one. *)
Example refused_type_sent : rest_negotiate_content_type (D := Q) (fun s => if bool_decide (s = [48]) then 0%Q else 1%Q) (Some (str_bytes "application/json;q=0")) [REST_MEDIA_JSON; REST_MEDIA_XML] = Some REST_MEDIA_JSON.
Proof. by vm_compute. Qed.

Lemma rest_pagination_correct_witness : let g := rest_pagination_init 2 10 25 in 25 <= total_pages g * 10 /\ (total_pages g - 1) * 10 < 25 \/ 25 = 0 /\ total_pages g = 0.
Proof. refine (rest_pagination_correct 2 10 25 _ _ _); lia. Defined.
Lemma rest_pagination_next_witness : has_next (rest_pagination_init 2 10 25) = true <-> 2 * 10 < 25.
Proof. refine (rest_pagination_next 2 10 25 _ _ _ _); lia. Defined.
Lemma rest_etag_weak_never_witness : rest_etag_match (rest_etag_weak (Some [97])) (Some (e_value (rest_etag_weak (Some [97])))) = Some false.
Proof. refine (rest_etag_weak_never [97] _ _). by vm_compute. Defined.
Lemma rest_etag_match_correct_witness : rest_etag_match page_tag (Some (e_value page_tag)) = Some true.
Proof. refine (rest_etag_match_correct [97] (str_bytes "0002b606-1") [] _ _ _ _ _); try by vm_compute. all: apply (bool_decide_unpack _); by vm_compute. Defined.
Lemma media_comma_hangs_witness : media_parameters (D := Q) (fun _ => 1%Q) 100 (mk_media_range [] [] 1%Q 0) (str_bytes ";q=1, text/html") = None.
Proof. refine (media_comma_hangs (fun _ => 1%Q) 100 _ _ _). apply (bool_decide_unpack _). by vm_compute. Defined.
