(* ===== verification/OpenApi.v ===== *)
(** Model of [mini-api-engineering/src/openapi_builder.c]: the description of an API that is
    built piece by piece, and its texts in JSON and YAML; and the theorems on it.

    Functions that take a pointer into a description work on the piece itself.  The parameters
    of all operations are in one array of 64 that is filled in a circle: [param_pool]; an
    operation has their places.  Writing behind a buffer is [None].  Pointers that the source
    does not check are not null; members that no function reads are left out. *)

From S2P Require Import Prelude Bytes HttpCore.
#[local] Open Scope Z_scope.

Definition OA_MAX_SCHEMAS : nat := 8.
Definition OA_MAX_OPERATIONS : nat := 16.
Definition OA_MAX_PARAMETERS : nat := 4.
Definition OA_MAX_RESPONSES : nat := 2.
Definition OA_MAX_SECURITY_SCHEMES : nat := 4.
Definition OA_MAX_TAGS : nat := 8.
Definition OA_MAX_SERVERS : nat := 2.
Definition OA_MAX_PROPERTIES : nat := 8.
Definition OA_MAX_ENUM_VALUES : nat := 8.
Definition OA_NAME_LEN : nat := 128.
Definition OA_DESC_LEN : nat := 256.
Definition OA_URL_LEN : nat := 256.
Definition OA_REF_LEN : nat := 256.
Definition OA_EXAMPLE_LEN : nat := 256.
Inductive oa_type_t := OA_STRING | OA_INTEGER | OA_NUMBER | OA_BOOLEAN | OA_ARRAY | OA_OBJECT.
Inductive oa_http_method_t := OA_GET | OA_POST | OA_PUT | OA_DELETE | OA_PATCH | OA_HEAD | OA_OPTIONS | OA_TRACE.
Inductive oa_param_in_t := OA_IN_QUERY | OA_IN_HEADER | OA_IN_PATH | OA_IN_COOKIE | OA_IN_BODY.
Inductive oa_security_type_t := OA_SEC_APIKEY | OA_SEC_HTTP | OA_SEC_OAUTH2 | OA_SEC_OPENID | OA_SEC_MUTUAL.
Record oa_property_t := mk_property {
  p_name : list Z; p_type : oa_type_t; format : list Z; p_description : list Z; p_example : list Z; is_required : bool; min_length : Z; max_length : Z; nullable : bool; p_deprecated : bool;
}.
Record oa_schema_t := mk_schema {
  s_name : list Z; s_type : oa_type_t; s_description : list Z; properties : list oa_property_t; enum_values : list (list Z); ref : list Z; is_array : bool; array_item_type : oa_type_t; array_item_ref : list Z;
}.
Record oa_parameter_t := mk_parameter { a_name : list Z; a_in : oa_param_in_t; a_description : list Z; a_required : bool; a_type : oa_type_t }.
Record oa_response_t := mk_response { status_code : list Z; r_description : list Z; content_types : list (list Z); schema_ref : list Z }.
Record oa_operation_t := mk_operation {
  operation_id : list Z; summary : list Z; o_method : oa_http_method_t; o_path : list Z; o_tags : list (list Z); parameters : list nat; responses : list oa_response_t; o_deprecated : bool;
  request_body_ref : list Z; request_body_type : oa_type_t; has_request_body : bool;
}.
Record oa_security_scheme_t := mk_security { scheme_name : list Z; c_type : oa_security_type_t; c_description : list Z; c_name : list Z; c_in : list Z; scheme : list Z; bearer_format : list Z }.
Record oa_server_t := mk_server { s_url : list Z; v_description : list Z }.
Record oa_spec_t := mk_spec {
  title : list Z; version : list Z; description : list Z; servers : list oa_server_t; operations : list oa_operation_t; schemas : list oa_schema_t; sec_schemes : list oa_security_scheme_t; tags : list (list Z * list Z);
}.

Definition oa_type_string (t : oa_type_t) : list Z := str_bytes match t with OA_STRING => "string" | OA_INTEGER => "integer" | OA_NUMBER => "number" | OA_BOOLEAN => "boolean" | OA_ARRAY => "array" | OA_OBJECT => "object" end.
Definition oa_method_string (m : oa_http_method_t) : list Z :=
  str_bytes match m with OA_GET => "get" | OA_POST => "post" | OA_PUT => "put" | OA_DELETE => "delete" | OA_PATCH => "patch" | OA_HEAD => "head" | OA_OPTIONS => "options" | OA_TRACE => "trace" end.
Definition oa_param_in_string (i : oa_param_in_t) : list Z := str_bytes match i with OA_IN_QUERY => "query" | OA_IN_HEADER => "header" | OA_IN_PATH => "path" | OA_IN_COOKIE => "cookie" | OA_IN_BODY => "body" end.
Definition oa_security_type_string (t : oa_security_type_t) : list Z := str_bytes match t with OA_SEC_APIKEY => "apiKey" | OA_SEC_HTTP => "http" | OA_SEC_OAUTH2 => "oauth2" | OA_SEC_OPENID => "openIdConnect" | OA_SEC_MUTUAL => "mutualTLS" end.

(** ** Building: a list grows up to its maximum *)

Definition push {A} (max : nat) (x : A) (l : list A) : list A := if (max <=? length l)%nat then l else l ++ [x].
(** The place of a new element, when there was room. *)
Definition place {A} (max : nat) (l : list A) : option nat := if (max <=? length l)%nat then None else Some (length l).
Definition text (len : nat) (s : option (list Z)) : list Z := truncated len (default [] s).

Definition oa_spec_init (t v d : option (list Z)) : oa_spec_t := mk_spec (text OA_NAME_LEN t) (text 32 v) (text OA_DESC_LEN d) [] [] [] [] [].
Definition oa_spec_add_server (s : oa_spec_t) (u d : option (list Z)) : oa_spec_t := s <| servers ::= push OA_MAX_SERVERS (mk_server (text OA_URL_LEN u) (text OA_DESC_LEN d)) |>.
Definition oa_spec_add_tag (s : oa_spec_t) (n d : list Z) : oa_spec_t := s <| tags ::= push OA_MAX_TAGS (truncated OA_NAME_LEN n, truncated OA_DESC_LEN d) |>.
Definition oa_spec_add_schema (s : oa_spec_t) (n : list Z) (t : oa_type_t) (d : option (list Z)) : option nat * oa_spec_t :=
  (place OA_MAX_SCHEMAS (schemas s), s <| schemas ::= push OA_MAX_SCHEMAS (mk_schema (truncated OA_NAME_LEN n) t (text OA_DESC_LEN d) [] [] [] false OA_STRING []) |>).
Definition oa_schema_add_prop (s : oa_schema_t) (n : list Z) (t : oa_type_t) (f : option (list Z)) (required : bool) (d : option (list Z)) : option nat * oa_schema_t :=
  (place OA_MAX_PROPERTIES (properties s), s <| properties ::= push OA_MAX_PROPERTIES (mk_property (truncated OA_NAME_LEN n) t (text 32 f) (text OA_DESC_LEN d) [] required 0 0 false false) |>).
Definition oa_schema_add_enum_value (s : oa_schema_t) (v : list Z) : oa_schema_t := s <| enum_values ::= push OA_MAX_ENUM_VALUES (truncated OA_NAME_LEN v) |>.
Definition oa_schema_set_array (s : oa_schema_t) (t : oa_type_t) (r : option (list Z)) : oa_schema_t :=
  let s := s <| is_array := true |> <| array_item_type := t |> in match r with Some r => s <| array_item_ref := truncated OA_REF_LEN r |> | None => s end.
Definition oa_schema_set_ref (s : oa_schema_t) (r : option (list Z)) : oa_schema_t := match r with Some r => s <| ref := truncated OA_REF_LEN r |> | None => s end.
Definition oa_spec_add_operation (s : oa_spec_t) (p : list Z) (m : oa_http_method_t) (i : list Z) (sum : option (list Z)) : option nat * oa_spec_t :=
  (place OA_MAX_OPERATIONS (operations s),
   s <| operations ::= push OA_MAX_OPERATIONS (mk_operation (truncated OA_NAME_LEN i) (text OA_DESC_LEN sum) m (truncated OA_URL_LEN p) [] [] [] false [] OA_STRING false) |>).
Definition oa_operation_add_tag (o : oa_operation_t) (t : option (list Z)) : oa_operation_t := match t with Some t => o <| o_tags ::= push OA_MAX_TAGS (truncated OA_NAME_LEN t) |> | None => o end.
(** The static array and its index. *)
Record param_pool := mk_pool { pool : list oa_parameter_t; pool_idx : nat }.
Definition POOL : nat := OA_MAX_OPERATIONS * OA_MAX_PARAMETERS.
Definition no_parameter : oa_parameter_t := mk_parameter [] OA_IN_QUERY [] false OA_STRING.
Definition empty_pool : param_pool := mk_pool (replicate POOL no_parameter) 0.
Definition oa_operation_add_param (k : param_pool) (o : oa_operation_t) (n : option (list Z)) (i : oa_param_in_t) (t : oa_type_t) (required : bool) (d : option (list Z)) : param_pool * oa_operation_t :=
  match n with
  | None => (k, o)
  | Some n =>
      if (OA_MAX_PARAMETERS <=? length (parameters o))%nat then (k, o)
      else (mk_pool (<[pool_idx k := mk_parameter (truncated OA_NAME_LEN n) i (text OA_DESC_LEN d) required t]> (pool k)) ((pool_idx k + 1) mod POOL), o <| parameters ::= fun l => l ++ [pool_idx k] |>)
  end.
Definition oa_operation_add_response (o : oa_operation_t) (code : list Z) (d ct r : option (list Z)) : oa_operation_t :=
  o <| responses ::= push OA_MAX_RESPONSES (mk_response (truncated 8 code) (text OA_DESC_LEN d) (match ct with Some c => [truncated 64 c] | None => [] end) (text OA_REF_LEN r)) |>.
Definition oa_operation_add_body (o : oa_operation_t) (r : option (list Z)) (t : oa_type_t) : oa_operation_t :=
  let o := o <| has_request_body := true |> <| request_body_type := t |> in match r with Some r => o <| request_body_ref := truncated OA_REF_LEN r |> | None => o end.
Definition oa_operation_set_deprecated (o : oa_operation_t) (b : bool) : oa_operation_t := o <| o_deprecated := b |>.
Definition oa_spec_add_security (s : oa_spec_t) (n : list Z) (t : oa_security_type_t) (d : option (list Z)) : option nat * oa_spec_t :=
  (place OA_MAX_SECURITY_SCHEMES (sec_schemes s), s <| sec_schemes ::= push OA_MAX_SECURITY_SCHEMES (mk_security (truncated OA_NAME_LEN n) t (text OA_DESC_LEN d) [] [] [] []) |>).
Definition oa_security_set_api_key (c : oa_security_scheme_t) (n i : list Z) : oa_security_scheme_t := c <| c_name := truncated OA_NAME_LEN n |> <| c_in := truncated 16 i |>.
Definition oa_security_set_http_bearer (c : oa_security_scheme_t) (s : list Z) (b : option (list Z)) : oa_security_scheme_t :=
  let c := c <| scheme := truncated 32 s |> in match b with Some b => c <| bearer_format := truncated 32 b |> | None => c end.
(** The pieces that fit are copied; parameters stay shared. *)
Definition oa_spec_merge (dst src : oa_spec_t) : oa_spec_t :=
  dst <| operations ::= fun l => l ++ take (OA_MAX_OPERATIONS - length l) (operations src) |> <| schemas ::= fun l => l ++ take (OA_MAX_SCHEMAS - length l) (schemas src) |>.
Definition oa_spec_find_operation (s : oa_spec_t) (i : list Z) : option nat := find_idx (fun o => bool_decide (operation_id o = i)) (operations s).
Definition oa_spec_find_schema (s : oa_spec_t) (n : list Z) : option nat := find_idx (fun x => bool_decide (s_name x = n)) (schemas s).
Definition oa_operation_has_path_param (k : param_pool) (o : oa_operation_t) (n : list Z) : bool := existsb (fun i => match pool k !! i with Some p => bool_decide (a_name p = n) | None => false end) (parameters o).
Definition nonempty (l : list Z) : bool := negb (bool_decide (l = [])).
Definition oa_spec_validate (s : oa_spec_t) : bool := nonempty (title s) && nonempty (version s).
Definition oa_validate_schema (s : oa_schema_t) : bool := nonempty (s_name s) && forallb (fun p => nonempty (p_name p)) (properties s).
Definition oa_validate_operation (o : oa_operation_t) : bool := nonempty (operation_id o) && nonempty (o_path o).
(** The paths seen so far. *)
Definition see (seen : list (list Z)) (o : oa_operation_t) : list (list Z) :=
  if existsb (fun p => bool_decide (p = o_path o)) seen then seen else push OA_MAX_OPERATIONS (truncated OA_URL_LEN (o_path o)) seen.
Definition oa_spec_path_count (s : oa_spec_t) : nat := length (foldl see [] (operations s)).

(** ** JSON *)

(** What is left of the buffer is [room]; a character that needs an escape and does not fit
    is passed over.  34 is the quote, 92 the backslash. *)
Definition escaped (c : Z) : option Z := if (c =? 34) || (c =? 92) then Some c else if c =? 10 then Some 110 else if c =? 13 then Some 114 else if c =? 9 then Some 116 else None.
Fixpoint escape_from (src : list Z) (room : nat) : list Z :=
  match src, room with
  | [], _ | _, O => []
  | c :: src, S room' =>
      match escaped c with
      | Some e => match room' with S room'' => 92 :: e :: escape_from src room'' | O => escape_from src room end
      | None => c :: escape_from src room'
      end
  end.
Definition oa_json_escape (src : list Z) (dlen : nat) : list Z := escape_from src (dlen - 1).
Definition quoted (s : list Z) : list Z := [34] ++ s ++ [34].
Definition name (s : string) : list Z := quoted (str_bytes s) ++ [58].
(** A member in front of which a comma stands. *)
Definition member (n : string) (v : list Z) : list Z := [44] ++ name n ++ v.
Definition sep (i : nat) : list Z := if (0 <? i)%nat then [44] else [].
Definition when (b : bool) (ts : list (list Z)) : list (list Z) := if b then ts else [].
Definition described (n : string) (d : list Z) : list (list Z) := when (nonempty d) [member n (quoted (oa_json_escape d (OA_DESC_LEN * 2)))].
Definition list_texts {A} (f : nat -> A -> list (list Z)) (l : list A) : list (list Z) := concat (imap f l).
Definition property_texts (i : nat) (p : oa_property_t) : list (list Z) :=
  [sep i ++ quoted (p_name p) ++ str_bytes ":{" ++ name "type" ++ quoted (oa_type_string (p_type p))] ++
  when (nonempty (format p)) [member "format" (quoted (format p))] ++ described "description" (p_description p) ++ described "example" (p_example p) ++
  when (0 <? min_length p) [member "minLength" (print_lld (min_length p))] ++ when (0 <? max_length p) [member "maxLength" (print_lld (max_length p))] ++
  when (nullable p) [member "nullable" (str_bytes "true")] ++ when (p_deprecated p) [member "deprecated" (str_bytes "true")] ++ [[125]].
(** What is appended for a schema. *)
Definition oa_append_json_schema (s : oa_schema_t) : list (list Z) :=
  if nonempty (ref s) then [name "$ref" ++ quoted (ref s)]
  else
    [name "type" ++ quoted (oa_type_string (s_type s))] ++
    when (is_array s) [member "items" (if nonempty (array_item_ref s) then [123] ++ name "$ref" ++ quoted (array_item_ref s) ++ [125] else [123] ++ name "type" ++ quoted (oa_type_string (array_item_type s)) ++ [125])] ++
    when (0 <? length (enum_values s))%nat ([member "enum" [91]] ++ imap (fun i v => sep i ++ quoted v) (enum_values s) ++ [[93]]) ++
    when (0 <? length (properties s))%nat ([member "properties" [123]] ++ list_texts property_texts (properties s) ++ [[125]] ++
      [member "required" [91]] ++ imap (fun i p => sep i ++ quoted (p_name p)) (List.filter is_required (properties s)) ++ [[93]]) ++
    described "description" (s_description s).
Definition nl2 : list Z := [10; 32; 32].
Definition nl4 : list Z := [10; 32; 32; 32; 32].
Definition server_texts (i : nat) (v : oa_server_t) : list (list Z) := [sep i ++ [123] ++ name "url" ++ quoted (s_url v)] ++ described "description" (v_description v) ++ [[125]].
Definition response_texts (j : nat) (r : oa_response_t) : list (list Z) :=
  [sep j ++ quoted (status_code r) ++ str_bytes ":{"; name "description" ++ quoted (r_description r)] ++
  match content_types r with c :: _ => [member "content" [123] ++ quoted c ++ str_bytes ":{"; name "schema" ++ [123] ++ name "$ref" ++ quoted (schema_ref r) ++ [125]; str_bytes "}}"] | [] => [] end ++ [[125]].
Definition operation_texts (i : nat) (o : oa_operation_t) : list (list Z) :=
  [sep i ++ nl4 ++ quoted (o_path o) ++ str_bytes ":{" ++ quoted (oa_method_string (o_method o)) ++ str_bytes ":{"; name "operationId" ++ quoted (operation_id o)] ++ described "summary" (summary o) ++
  when (o_deprecated o) [member "deprecated" (str_bytes "true")] ++
  when (0 <? length (responses o))%nat ([member "responses" [123]] ++ list_texts response_texts (responses o) ++ [[125]]) ++
  when (0 <? length (o_tags o))%nat ([member "tags" [91]] ++ imap (fun j t => sep j ++ quoted t) (o_tags o) ++ [[93]]) ++ [str_bytes "}}"].
Definition schema_texts (i : nat) (s : oa_schema_t) : list (list Z) := [sep i ++ quoted (s_name s) ++ str_bytes ":{"] ++ oa_append_json_schema s ++ [[125]].
Definition security_texts (i : nat) (c : oa_security_scheme_t) : list (list Z) :=
  [sep i ++ quoted (scheme_name c) ++ str_bytes ":{" ++ name "type" ++ quoted (oa_security_type_string (c_type c))] ++ when (nonempty (c_name c)) [member "name" (quoted (c_name c))] ++ when (nonempty (c_in c)) [member "in" (quoted (c_in c))] ++
  when (nonempty (scheme c)) [member "scheme" (quoted (scheme c))] ++ when (nonempty (bearer_format c)) [member "bearerFormat" (quoted (bearer_format c))] ++ [[125]].
(** A part of the description, when it is not empty. *)
Definition part {A} (opening closing : list Z) (f : nat -> A -> list (list Z)) (l : list A) : list (list Z) := match l with [] => [] | _ => [[44] ++ nl2 ++ opening] ++ list_texts f l ++ [closing] end.
Definition spec_texts (s : oa_spec_t) : list (list Z) :=
  [[123] ++ nl2 ++ name "openapi" ++ quoted (str_bytes "3.0.3") ++ [44; 10]; [32; 32] ++ name "info" ++ [123; 10]; [32; 32; 32; 32] ++ name "title" ++ quoted (title s) ++ [44; 10]; [32; 32; 32; 32] ++ name "version" ++ quoted (version s)] ++
  when (nonempty (description s)) [[44] ++ nl4 ++ name "description" ++ quoted (oa_json_escape (description s) (OA_DESC_LEN * 2))] ++ [nl2 ++ [125]] ++
  part (name "servers" ++ [91]) [93] server_texts (servers s) ++
  part (name "paths" ++ [123]) (nl2 ++ [125]) operation_texts (operations s) ++
  part (name "components" ++ [123] ++ name "schemas" ++ [123]) (str_bytes "}}") schema_texts (schemas s) ++
  part (name "components" ++ [123] ++ name "securitySchemes" ++ [123]) (str_bytes "}}") security_texts (sec_schemes s) ++ [[10; 125; 10]].
Definition oa_spec_to_json (s : oa_spec_t) (len : nat) : option (list Z) := fst <$> sprint_all len ([], O) (spec_texts s).

(** ** YAML *)

Definition ln (indent : nat) (l : list Z) : list Z := replicate indent 32 ++ l ++ [10].
Definition yaml_operation (o : oa_operation_t) : list (list Z) :=
  [ln 2 (o_path o ++ [58]); ln 4 (oa_method_string (o_method o) ++ [58]); ln 6 (str_bytes "operationId: " ++ operation_id o)] ++ when (nonempty (summary o)) [ln 6 (str_bytes "summary: " ++ quoted (summary o))] ++
  when (o_deprecated o) [ln 6 (str_bytes "deprecated: true")] ++
  match responses o with [] => [] | l => [ln 6 (str_bytes "responses:")] ++ ((fun r => ln 8 (quoted (status_code r) ++ [58]) ++ ln 10 (str_bytes "description: " ++ quoted (r_description r))) <$> l) end ++
  match o_tags o with [] => [] | l => [ln 6 (str_bytes "tags:")] ++ ((fun t => ln 8 (str_bytes "- " ++ t)) <$> l) end.
Definition oa_spec_export_yaml (s : oa_spec_t) (len : nat) : option (list Z) :=
  fst <$> sprint_all len ([], O)
    ([ln 0 (str_bytes "openapi: " ++ quoted (str_bytes "3.0.3")) ++ ln 0 (str_bytes "info:") ++ ln 2 (str_bytes "title: " ++ title s) ++ ln 2 (str_bytes "version: " ++ version s)] ++
     when (nonempty (description s)) [ln 2 (str_bytes "description: " ++ quoted (description s))] ++
     match servers s with [] => [] | l => [ln 0 (str_bytes "servers:")] ++ ((fun v => ln 2 (str_bytes "- url: " ++ s_url v)) <$> l) end ++
     match operations s with [] => [] | l => [ln 0 (str_bytes "paths:")] ++ concat (yaml_operation <$> l) end).
Definition yaml_property (p : oa_property_t) : list (list Z) :=
  [ln 4 (p_name p ++ [58]) ++ ln 6 (str_bytes "type: " ++ oa_type_string (p_type p))] ++ when (nonempty (format p)) [ln 6 (str_bytes "format: " ++ format p)] ++ when (nonempty (p_description p)) [ln 6 (str_bytes "description: " ++ quoted (p_description p))].
Definition oa_spec_export_yaml_schema (s : oa_schema_t) (len : nat) : option (list Z) :=
  fst <$> sprint_all len ([], O)
    ([ln 0 (s_name s ++ [58]) ++ ln 2 (str_bytes "type: " ++ oa_type_string (s_type s))] ++ when (nonempty (s_description s)) [ln 2 (str_bytes "description: " ++ quoted (s_description s))] ++
     match properties s with [] => [] | l => [ln 2 (str_bytes "properties:")] ++ concat (yaml_property <$> l) end ++
     match enum_values s with [] => [] | l => [ln 2 (str_bytes "enum:")] ++ ((fun v => ln 4 (str_bytes "- " ++ v)) <$> l) end).

(** ** Escaping *)

(** What a reader of JSON takes from between two quotes: nothing when there is a bare quote, a
    line break or a tab, or a backslash that starts no escape. *)
Definition control (c : Z) : bool := (c =? 34) || (c =? 10) || (c =? 13) || (c =? 9).
Fixpoint unescape (s : list Z) : option (list Z) :=
  match s with
  | [] => Some []
  | c :: s' =>
      if control c then None
      else if c =? 92 then
        match s' with
        | e :: s'' => if (e =? 34) || (e =? 92) then cons e <$> unescape s'' else if e =? 110 then cons 10 <$> unescape s'' else if e =? 114 then cons 13 <$> unescape s'' else if e =? 116 then cons 9 <$> unescape s'' else None
        | [] => None
        end
      else cons c <$> unescape s'
  end.
Lemma unescape_escaped c e s : escaped c = Some e -> unescape (92 :: e :: s) = cons c <$> unescape s.
Proof.
  unfold escaped. cbn [unescape]. change (control 92) with false. cbn iota. change (92 =? 92) with true. cbn iota.
  destruct (Z.eqb_spec c 34) as [->|]; [by intros [= <-]|]. destruct (Z.eqb_spec c 92) as [->|]; [by intros [= <-]|]. cbn [orb]. destruct (Z.eqb_spec c 10) as [->|]; [by intros [= <-]|].
  destruct (Z.eqb_spec c 13) as [->|]; [by intros [= <-]|]. destruct (Z.eqb_spec c 9) as [->|]; [by intros [= <-]|done].
Qed.
Lemma unescape_plain c s : escaped c = None -> unescape (c :: s) = cons c <$> unescape s.
Proof.
  unfold escaped, control. cbn [unescape]. unfold control. destruct (c =? 34); [done|]. destruct (c =? 92); [done|]. cbn [orb]. destruct (c =? 10); [done|]. destruct (c =? 13); [done|]. by destruct (c =? 9).
Qed.
Lemma escape_well_formed src : forall room, is_Some (unescape (escape_from src room)).
Proof.
  induction src as [|c src IH]; intros [|room]; cbn [escape_from]; try by eexists. destruct (escaped c) as [e|] eqn:E.
  - destruct room as [|room]; [apply IH|]. rewrite (unescape_escaped c e) by done. destruct (IH room) as [x ->]. by eexists.
  - rewrite unescape_plain by done. destruct (IH room) as [x ->]. by eexists.
Qed.
(** An escaped text is always readable, and when the buffer has twice its room it is read back
    as it was. *)
Theorem oa_json_escape_correct src dlen : is_Some (unescape (oa_json_escape src dlen)) /\ ((2 * length src < dlen)%nat -> unescape (oa_json_escape src dlen) = Some src) /\ (length (oa_json_escape src dlen) <= dlen - 1)%nat.
Proof.
  unfold oa_json_escape. split; [apply escape_well_formed|]. split.
  - intros H. assert (Hr : (2 * length src <= dlen - 1)%nat) by lia. revert Hr. generalize (dlen - 1)%nat as room. clear H. induction src as [|c src IH]; intros room Hr; [by destruct room|]. cbn [length] in Hr.
    destruct room as [|[|room]]; [lia..|]. cbn [escape_from]. destruct (escaped c) as [e|] eqn:E; [rewrite (unescape_escaped c e) by done; rewrite IH by lia; done|]. rewrite unescape_plain by done. rewrite IH by lia. done.
  - generalize (dlen - 1)%nat as room. induction src as [|c src IH]; intros [|room]; cbn [escape_from length]; try lia. destruct (escaped c) as [e|]; [destruct room as [|room]; [apply IH|cbn [length]; specialize (IH room); lia]|cbn [length]; specialize (IH room); lia].
Qed.

(** ** Building and printing *)

(** The number of paths is the number of different ones. *)
Theorem oa_spec_path_count_correct s : (length (operations s) <= OA_MAX_OPERATIONS)%nat -> Forall (fun o => (length (o_path o) < OA_URL_LEN)%nat) (operations s) -> oa_spec_path_count s = size (list_to_set (o_path <$> operations s) : gset (list Z)).
Proof.
  intros Hn Hl. unfold oa_spec_path_count.
  assert (Hg : forall ops seen, Forall (fun o => (length (o_path o) < OA_URL_LEN)%nat) ops -> NoDup seen -> (length seen + length ops <= OA_MAX_OPERATIONS)%nat ->
    NoDup (foldl see seen ops) /\ (list_to_set (foldl see seen ops) : gset (list Z)) = list_to_set seen ∪ list_to_set (o_path <$> ops)).
  { clear. induction ops as [|o ops IH]; intros seen Hl Hd Hlen; [split; [done|set_solver]|]. apply Forall_cons in Hl as [Ho Hl]. cbn [foldl length] in *. unfold see at 2 4.
    destruct (existsb _ seen) eqn:E.
    - apply existsb_exists in E as (p & Hp%list_elem_of_In & ->%bool_decide_eq_true). destruct (IH seen Hl Hd) as [H1 H2]; [lia|]. split; [done|]. rewrite H2. cbn. set_solver.
    - assert (Hnin : o_path o ∉ seen) by (intros H; apply not_true_iff_false in E; apply E, existsb_exists; exists (o_path o); split; [by apply list_elem_of_In|by apply bool_decide_eq_true]).
      unfold push. rewrite (proj2 (Nat.leb_gt _ _)) by lia. rewrite truncated_id by done. destruct (IH (seen ++ [o_path o]) Hl) as [H1 H2]; [apply NoDup_app; split; [done|]; split; [|apply NoDup_singleton]; set_solver|rewrite length_app; cbn; lia|].
      split; [done|]. rewrite H2, list_to_set_app_L. cbn. set_solver. }
  destruct (Hg (operations s) [] Hl) as [H1 H2]; [constructor|cbn; lia|]. rewrite <- (size_list_to_set (C := gset (list Z))) by done. f_equal. rewrite H2. set_solver.
Qed.
(** A description is printed whole in a buffer with room for it. *)
Theorem oa_spec_to_json_fits s len : (length (concat (spec_texts s)) < len)%nat -> oa_spec_to_json s len = Some (concat (spec_texts s)).
Proof. intros H. unfold oa_spec_to_json. by rewrite sprint_all_fits. Qed.

(** *** The shared parameters *)

Definition operation (p : string) : oa_operation_t := mk_operation (str_bytes p) [] OA_GET (str_bytes p) [] [] [] false [] OA_STRING false.
Fixpoint fill (n : nat) (k : param_pool) (o : oa_operation_t) : param_pool :=
  match n with O => k | S n => fill n (oa_operation_add_param k o (Some [120]) OA_IN_QUERY OA_STRING false None).1 o end.
(** The sixty-fifth parameter replaces the first one, whatever operation that belongs to. *)
Example parameter_replaced : let '(k, o) := oa_operation_add_param empty_pool (operation "/a") (Some (str_bytes "id")) OA_IN_PATH OA_STRING true None in
  oa_operation_has_path_param k o (str_bytes "id") = true /\ oa_operation_has_path_param (fill 64 k (operation "/b")) o (str_bytes "id") = false.
Proof. by vm_compute. Qed.
(** A parameter of a query is taken for one of the path. *)
Example query_parameter_in_path : let '(k, o) := oa_operation_add_param empty_pool (operation "/a") (Some (str_bytes "id")) OA_IN_QUERY OA_STRING true None in oa_operation_has_path_param k o (str_bytes "id") = true.
Proof. by vm_compute. Qed.
(** Two methods of a path are two members with the same name, and the parameters are not printed. *)
Definition users : oa_spec_t := (oa_spec_add_operation (oa_spec_add_operation (oa_spec_init (Some (str_bytes "t")) (Some (str_bytes "1")) None) (str_bytes "/u") OA_GET (str_bytes "a") None).2 (str_bytes "/u") OA_POST (str_bytes "b") None).2.
Example path_printed_twice : (text ← oa_spec_to_json users 1000; r ← strstr_after (quoted (str_bytes "/u")) text; Some (contains (quoted (str_bytes "/u")) r)) = Some true /\ oa_spec_path_count users = 1%nat.
Proof. by vm_compute. Qed.
(** Schemas and security schemes are both printed as components: the name stands there twice. *)
Example components_twice : (text ← oa_spec_to_json (oa_spec_add_security (oa_spec_add_schema users [83] OA_OBJECT None).2 [75] OA_SEC_HTTP None).2 1000; r ← strstr_after (quoted (str_bytes "components")) text; Some (contains (quoted (str_bytes "components")) r)) = Some true.
Proof. by vm_compute. Qed.
(** A quote in a title ends it; a description that does not fit is continued behind the buffer. *)
Example title_not_escaped : (text ← oa_spec_to_json (oa_spec_init (Some [97; 34; 98]) (Some [49]) None) 1000; Some (contains [97; 34; 98; 34; 44] text)) = Some true.
Proof. by vm_compute. Qed.
Example json_overflows : oa_spec_to_json users 60 = None /\ oa_spec_export_yaml users 60 = None.
Proof. by vm_compute. Qed.
Lemma oa_spec_path_count_correct_witness : oa_spec_path_count users = size (list_to_set (o_path <$> operations users) : gset (list Z)).
Proof. refine (oa_spec_path_count_correct users _ _); [vm_compute; lia|]. apply (bool_decide_unpack _). by vm_compute. Defined.
Lemma oa_spec_to_json_fits_witness : oa_spec_to_json users 1000 = Some (concat (spec_texts users)).
Proof. refine (oa_spec_to_json_fits users 1000 _). vm_compute. lia. Defined.
