(* ===== verification/BackendConfig.v ===== *)
(** Model of [mini-backend-framework/src/config.c]: settings in sections, set by hand, read from
    a file or from the environment; and the theorems on it.

    A file is the list of its bytes, and [fgets] takes a line of at most 1023 of them; the
    environment is a parameter [getenv].  Texts are without zero bytes. *)

From S2P Require Import Prelude Bytes.
#[local] Open Scope Z_scope.

Definition CFG_MAX_KEYS : nat := 256.
Definition CFG_MAX_NAME : nat := 64.
Definition CFG_MAX_VALUE : nat := Z.to_nat 512.
#[global] Arguments CFG_MAX_VALUE : simpl never.
(** [sizeof(line) - 1] *)
Definition LINE : nat := Z.to_nat 1023.
#[global] Arguments LINE : simpl never.
Definition CFG_MAX_ENV_PREFIX : nat := 32.
Record CFGEntry := mk_entry { key : list Z; value : list Z; section : list Z; is_set : bool }.
Record Config := mk_config { entries : list CFGEntry; env_prefix : list Z; env_override_enabled : bool }.

Definition skip_back (s : list Z) : list Z := rev (skip_spaces (rev s)).
Definition cfg_trim (s : list Z) : list Z := skip_back (skip_spaces s).
Definition entry_idx (c : Config) (sec k : list Z) : option nat := find_idx (fun e => bool_decide (section e = sec) && bool_decide (key e = k)) (entries c).
Definition cfg_find_entry (c : Config) (sec : option (list Z)) (k : list Z) : option CFGEntry := entry_idx c (default [] sec) k ≫= fun i => entries c !! i.
Definition cfg_init : Config := mk_config [] [] false.
Definition cfg_enable_env (c : Config) (prefix : option (list Z)) : Config :=
  mk_config (entries c) (match prefix with Some p => truncated CFG_MAX_ENV_PREFIX p | None => env_prefix c end) true.
Definition with_entries (c : Config) (es : list CFGEntry) : Config := mk_config es (env_prefix c) (env_override_enabled c).
Definition cfg_set (c : Config) (sec : option (list Z)) (k v : list Z) : Config :=
  if (CFG_MAX_KEYS <=? length (entries c))%nat then c
  else
    match entry_idx c (default [] sec) k with
    | Some i => with_entries c (alter (fun e => mk_entry (key e) (truncated CFG_MAX_VALUE v) (section e) true) i (entries c))
    | None => with_entries c (entries c ++ [mk_entry (truncated CFG_MAX_NAME k) (truncated CFG_MAX_VALUE v) (truncated CFG_MAX_NAME (default [] sec)) true])
    end.
Definition toupper (c : Z) : Z := if (97 <=? c) && (c <=? 122) then c - 32 else c.

Section environment.
Context (getenv : list Z -> option (list Z)).
(** The characters 46 and 45 are the dot and the dash, 95 the underscore. *)
Definition cfg_lookup_env (c : Config) (sec : option (list Z)) (k : list Z) : option (list Z) :=
  if negb (env_override_enabled c) || bool_decide (env_prefix c = []) then None
  else
    let sanitized := (fun x => if (x =? 46) || (x =? 45) then 95 else toupper x) <$> take (CFG_MAX_NAME - 1) k in
    let name := match default [] sec with
      | [] => truncated 256 (env_prefix c ++ sanitized)
      | s => truncated 256 (env_prefix c ++ (toupper <$> take (CFG_MAX_NAME - 1) s) ++ [95] ++ sanitized)
      end in
    match getenv name with Some [] => None | r => r end.
Definition cfg_get (c : Config) (sec : option (list Z)) (k : list Z) (default_val : option (list Z)) : option (list Z) :=
  match cfg_find_entry c sec k with
  | Some e => if is_set e then Some (value e) else match cfg_lookup_env c sec k with Some v => Some v | None => default_val end
  | None => match cfg_lookup_env c sec k with Some v => Some v | None => default_val end
  end.
Definition cfg_get_int (c : Config) (sec : option (list Z)) (k : list Z) (def : Z) : Z := match cfg_get c sec k None with Some v => atoi v | None => def end.
Definition cfg_get_float {D} (atof : list Z -> D) (c : Config) (sec : option (list Z)) (k : list Z) (def : D) : D := match cfg_get c sec k None with Some v => atof v | None => def end.
Definition one_of (v : list Z) (l : list string) : bool := existsb (fun s => bool_decide (v = str_bytes s)) l.
Definition cfg_get_bool (c : Config) (sec : option (list Z)) (k : list Z) (def : bool) : bool :=
  match cfg_get c sec k None with
  | None => def
  | Some v => if one_of v ["true"; "1"; "yes"; "on"]%string then true else if one_of v ["false"; "0"; "no"; "off"]%string then false else def
  end.
Definition cfg_has (c : Config) (sec : option (list Z)) (k : list Z) : bool :=
  match cfg_find_entry c sec k with Some _ => true | None => match cfg_lookup_env c sec k with Some _ => true | None => false end end.
End environment.

(** ** Files *)

(** The characters 35 and 59 start a comment, 91 and 93 stand around a section, 61 before a value. *)
Definition load_line (line : list Z) (st : Config * list Z * Z) : Config * list Z * Z :=
  let '(c, current, loaded) := st in
  let t := cfg_trim line in
  match t with
  | [] => st
  | x :: t' =>
      if (x =? 35) || (x =? 59) then st
      else if x =? 91 then
        match strchr_before 93 t with Some _ => (c, truncated CFG_MAX_NAME (cfg_trim (default [] (strchr_before 93 t'))), loaded) | None => st end
      else
        match strchr_before 61 t with
        | Some before =>
            let k := cfg_trim before in
            let v := cfg_trim (drop (S (length before)) t) in
            match k with
            | [] => st
            | _ => (cfg_set c (match current with [] => None | _ => Some current end) k v, current, loaded + 1)
            end
        | None => st
        end
  end.
Fixpoint load_lines (fuel : nat) (f : list Z) (st : Config * list Z * Z) : option (Config * list Z * Z) :=
  match fuel with
  | O => None
  | S fuel => match f with [] => Some st | _ => let '(line, f) := fgets LINE f in load_lines fuel f (load_line line st) end
  end.
(** The file is [None] when it cannot be opened. *)
Definition cfg_load_file (c : Config) (file : option (list Z)) : option (Z * Config) :=
  match file with
  | None => Some (-1, c)
  | Some f => '(c, _, loaded) ← load_lines (S (length f)) f (c, [], 0); Some (loaded, c)
  end.
(** [last_sec] is null, or points to the section of an entry printed before: the two are
    compared by their address first, then by their text. *)
Definition header_line (sec : list Z) : list Z := [91] ++ sec ++ [93; 10].
Definition entry_line (e : CFGEntry) : list Z := key e ++ [32; 61; 32] ++ value e ++ [10].
#[global] Arguments header_line : simpl never.
#[global] Arguments entry_line : simpl never.
Fixpoint dump_from (max_len : Z) (es : list CFGEntry) (last : option (list Z)) (out : list Z) : list Z :=
  match es with
  | [] => out
  | e :: es =>
      if negb (Z.of_nat (length out) <? max_len - 1) then out
      else
        let sec := match section e with [] => None | s => Some s end in
        let body last out :=
          if max_len <=? Z.of_nat (length out + length (entry_line e)) then out else dump_from max_len es last (out ++ entry_line e) in
        if bool_decide (sec = last) then body last out
        else
          match sec with
          | Some s => if max_len <=? Z.of_nat (length out + length (header_line s)) then out else body sec (out ++ header_line s)
          | None => body sec out
          end
  end.
Definition cfg_dump (c : Config) (max_len : Z) : Z * list Z :=
  if max_len <=? 0 then (-1, []) else let out := dump_from max_len (entries c) None [] in (Z.of_nat (length out), out).
Definition cfg_section_keys (c : Config) (sec : option (list Z)) (max_keys : nat) : list (list Z) :=
  take max_keys ((fun e => truncated CFG_MAX_NAME (key e)) <$> List.filter (fun e => bool_decide (section e = default [] sec)) (entries c)).
Definition cfg_remove (c : Config) (sec : option (list Z)) (k : list Z) : Z * Config :=
  match entry_idx c (default [] sec) k with Some i => (0, with_entries c (delete i (entries c))) | None => (-1, c) end.
Definition cfg_clear (c : Config) : Config := cfg_init.

(** ** Trimming *)

Lemma skip_spaces_keep s : match s with x :: _ => is_space x = false | [] => True end -> skip_spaces s = s.
Proof. destruct s as [|x s]; [done|]. cbn. by intros ->. Qed.
Lemma skip_spaces_head s : match skip_spaces s with x :: _ => is_space x = false | [] => True end.
Proof. induction s as [|x s IH]; [done|]. cbn. by destruct (is_space x) eqn:E. Qed.
Lemma skip_back_le s : (length (skip_back s) <= length s)%nat.
Proof. unfold skip_back. rewrite length_rev. etrans; [apply skip_spaces_le|]. by rewrite length_rev. Qed.
Lemma skip_back_space s x : is_space x = true -> skip_back (s ++ [x]) = skip_back s.
Proof. intros E. unfold skip_back. rewrite rev_app_distr. cbn. by rewrite E. Qed.
Lemma skip_back_keep s x : is_space x = false -> skip_back (s ++ [x]) = s ++ [x].
Proof. intros E. unfold skip_back. rewrite rev_app_distr. cbn. rewrite E. cbn. by rewrite rev_involutive. Qed.
(** A text that trimming keeps is empty, or has no space at both ends. *)
Lemma trimmed_ends s : cfg_trim s = s -> s = [] \/ (match s with x :: _ => is_space x = false | [] => True end /\ forall p, skip_back (p ++ s) = p ++ s).
Proof.
  intros E. destruct s as [|x s]; [by left|]. right. unfold cfg_trim in E.
  assert (Hh : is_space x = false).
  { destruct (is_space x) eqn:Hx; [|done]. pose proof (skip_back_le (skip_spaces (x :: s))) as H1. rewrite E in H1. cbn [skip_spaces] in H1. rewrite Hx in H1.
    pose proof (skip_spaces_le s) as H2. cbn in H1. lia. }
  split; [done|]. intros p. rewrite skip_spaces_keep in E by done.
  destruct (exists_last (l := x :: s)) as (l & y & Hl); [done|]. rewrite Hl in E |- *. rewrite app_assoc.
  destruct (is_space y) eqn:Hy; [|by apply skip_back_keep].
  rewrite skip_back_space in E by done. pose proof (skip_back_le l) as H. rewrite E, length_app in H. cbn in H. lia.
Qed.
Lemma trim_back x s : cfg_trim s = s -> s <> [] -> is_space x = true -> cfg_trim (s ++ [x]) = s.
Proof.
  intros Ht Hn Hx. destruct (trimmed_ends s Ht) as [->|[Hh Hb]]; [done|]. unfold cfg_trim.
  rewrite skip_spaces_keep by by destruct s. rewrite skip_back_space by done. apply (Hb []).
Qed.
Lemma trim_front x s : cfg_trim s = s -> is_space x = true -> cfg_trim (x :: s) = s.
Proof. intros Ht Hx. unfold cfg_trim. cbn. rewrite Hx. done. Qed.

(** ** Settings *)

Definition names (sec k : list Z) (e : CFGEntry) : bool := bool_decide (section e = sec) && bool_decide (key e = k).
Lemma names_iff sec k e : names sec k e = true <-> section e = sec /\ key e = k.
Proof. unfold names. by rewrite andb_true_iff, !bool_decide_eq_true. Qed.
Lemma find_entry_spec c sec k : cfg_find_entry c sec k = head (List.filter (names (default [] sec) k) (entries c)).
Proof.
  unfold cfg_find_entry, entry_idx. induction (entries c) as [|e es IH]; [done|]. cbn. unfold names at 1. destruct (bool_decide _ && bool_decide _); [done|].
  rewrite <- IH. by destruct (find_idx _ es).
Qed.
Lemma cfg_set_new c sec k v : (length (entries c) < CFG_MAX_KEYS)%nat -> cfg_find_entry c sec k = None ->
  entries (cfg_set c sec k v) = entries c ++ [mk_entry (truncated CFG_MAX_NAME k) (truncated CFG_MAX_VALUE v) (truncated CFG_MAX_NAME (default [] sec)) true].
Proof.
  intros Hlen Hf. unfold cfg_set. rewrite (proj2 (Nat.leb_gt CFG_MAX_KEYS (length (entries c)))) by done. unfold cfg_find_entry in Hf.
  destruct (entry_idx c (default [] sec) k) as [i|] eqn:E; [|done]. cbn in Hf. unfold entry_idx in E. apply find_idx_Some in E as (x & Hx & _). congruence.
Qed.
Lemma entry_idx_names c sec k sec' k' i : entry_idx c sec k = Some i -> entry_idx c sec' k' = Some i -> sec' = sec /\ k' = k.
Proof.
  intros (x & Hx & Hp & _)%find_idx_Some (y & Hy & Hq & _)%find_idx_Some. assert (x = y) as <- by congruence.
  change (names sec k x = true) in Hp. change (names sec' k' x = true) in Hq. apply names_iff in Hp as [], Hq as []. split; congruence.
Qed.
(** After a set with room, its entry has the value, and all others are as before. *)
Lemma cfg_set_find c sec k v sec' k' : (length (entries c) < CFG_MAX_KEYS)%nat -> (length k < CFG_MAX_NAME)%nat -> (length (default [] sec) < CFG_MAX_NAME)%nat ->
  cfg_find_entry (cfg_set c sec k v) sec' k' =
    if bool_decide (default [] sec = default [] sec') && bool_decide (k = k') then Some (mk_entry k (truncated CFG_MAX_VALUE v) (default [] sec) true) else cfg_find_entry c sec' k'.
Proof.
  intros Hlen Hk Hs. set (e0 := mk_entry _ _ _ _). change (bool_decide _ && bool_decide _) with (names (default [] sec') k' e0).
  destruct (cfg_find_entry c sec k) as [e|] eqn:Hf.
  2: { rewrite !find_entry_spec, cfg_set_new, List.filter_app by done. rewrite (truncated_id _ k), (truncated_id _ (default [] sec)) by done. fold e0. rewrite find_entry_spec in Hf. cbn [List.filter].
       destruct (names (default [] sec') k' e0) eqn:E; [|by rewrite app_nil_r].
       apply names_iff in E as [E1 E2]. cbn in E1, E2. rewrite <- E1, <- E2. by destruct (List.filter (names (default [] sec) k) (entries c)). }
  unfold cfg_set. rewrite (proj2 (Nat.leb_gt CFG_MAX_KEYS (length (entries c)))) by done. unfold cfg_find_entry in Hf.
  destruct (entry_idx c (default [] sec) k) as [i|] eqn:E; [|done]. cbn in Hf.
  unfold cfg_find_entry at 1. unfold entry_idx. cbn [entries with_entries].
  set (f := fun e0 : CFGEntry => mk_entry _ _ _ _).
  assert (Hsame : forall a b l, find_idx (fun e0 => bool_decide (section e0 = a) && bool_decide (key e0 = b)) (alter f i l) = find_idx (fun e0 => bool_decide (section e0 = a) && bool_decide (key e0 = b)) l).
  { intros a b l. clear. revert i. induction l as [|x l IH]; intros i; [done|]. destruct i as [|i]; cbn; [done|]. by rewrite IH. }
  rewrite Hsame. change (find_idx _ (entries c)) with (entry_idx c (default [] sec') k').
  destruct (names (default [] sec') k' e0) eqn:En.
  - apply names_iff in En as [E1 E2]. cbn in E1, E2. rewrite <- E1, <- E2, E. cbn. rewrite list_lookup_alter_eq, Hf. cbn. unfold f, e0. unfold entry_idx in E. apply find_idx_Some in E as (x & Hx & Hp & _).
    assert (x = e) as -> by congruence. change (names (default [] sec) k e = true) in Hp. apply names_iff in Hp as [Hp1 Hp2]. by rewrite Hp1, Hp2.
  - unfold cfg_find_entry. destruct (entry_idx c (default [] sec') k') as [j|] eqn:E2; [|done]. cbn. apply list_lookup_alter_ne. intros ->.
    destruct (entry_idx_names _ _ _ _ _ _ E E2) as [E3 E4]. assert (names (default [] sec') k' e0 = true) by (apply names_iff; by rewrite E3, E4). congruence.
Qed.

(** A value that was set in a manager with room is what all readers find, in whatever state the
    environment is, and no other name is touched. *)
Theorem cfg_set_get_correct getenv c sec k v d : (length (entries c) < CFG_MAX_KEYS)%nat -> (length k < CFG_MAX_NAME)%nat -> (length (default [] sec) < CFG_MAX_NAME)%nat ->
  let c' := cfg_set c sec k v in
  cfg_get getenv c' sec k d = Some (truncated CFG_MAX_VALUE v) /\
  forall sec' k' d', (default [] sec, k) <> (default [] sec', k') -> cfg_get getenv c' sec' k' d' = cfg_get getenv c sec' k' d'.
Proof.
  intros Hlen Hk Hs c'. unfold cfg_get. split.
  - unfold c'. rewrite cfg_set_find by done. rewrite !bool_decide_eq_true_2 by done. done.
  - intros sec' k' d' Hne. assert (Henv : forall s x, cfg_lookup_env getenv c' s x = cfg_lookup_env getenv c s x).
    { intros. unfold c', cfg_set. destruct (_ <=? _)%nat; [done|]. by destruct (entry_idx _ _ _). }
    rewrite Henv. unfold c'. rewrite cfg_set_find by done.
    destruct (bool_decide_reflect (default [] sec = default [] sec')); [|done]. destruct (bool_decide_reflect (k = k')); [|done]. congruence.
Qed.
Lemma cfg_set_get_correct_witness : cfg_get (fun _ => None) (cfg_set cfg_init None (str_bytes "a") (str_bytes "1")) None (str_bytes "a") None = Some (str_bytes "1").
Proof. refine (proj1 (cfg_set_get_correct (fun _ => None) cfg_init None (str_bytes "a") (str_bytes "1") None _ _ _)); vm_compute; lia. Defined.

(** ** Reading a file *)

Lemma cfg_set_length c sec k v : (length (entries c) <= CFG_MAX_KEYS)%nat -> (length (entries (cfg_set c sec k v)) <= CFG_MAX_KEYS)%nat.
Proof.
  intros H. unfold cfg_set. destruct (Nat.leb_spec CFG_MAX_KEYS (length (entries c))); [done|]. destruct (entry_idx _ _ _); cbn.
  - by rewrite length_alter.
  - rewrite length_app. cbn. lia.
Qed.
Lemma load_line_length line c cur n : (length (entries c) <= CFG_MAX_KEYS)%nat -> (length (entries (load_line line (c, cur, n)).1.1) <= CFG_MAX_KEYS)%nat.
Proof.
  intros H. unfold load_line. destruct (cfg_trim line) as [|x t]; [done|]. destruct (_ || _); [done|]. destruct (x =? 91).
  - by destruct (strchr_before 93 (x :: t)).
  - destruct (strchr_before 61 (x :: t)) as [b|]; [|done]. destruct (cfg_trim b); [done|]. by apply cfg_set_length.
Qed.
Lemma fgets_shorter room f : (length (fgets room f).2 <= length f)%nat /\ (room <> O -> f <> [] -> length (fgets room f).2 < length f)%nat.
Proof.
  revert f. induction room as [|room IH]; intros f; [by split|]. destruct f as [|c f]; [by split|]. cbn. destruct (c =? 10); cbn; [split; lia|].
  destruct (IH f) as [H _]. destruct (fgets room f) as [l r]. cbn in H |- *. split; lia.
Qed.
(** Reading a file ends for every file, and never leaves more entries than there is room for. *)
Theorem cfg_load_file_ends c file : (length (entries c) <= CFG_MAX_KEYS)%nat -> exists n c', cfg_load_file c file = Some (n, c') /\ (length (entries c') <= CFG_MAX_KEYS)%nat.
Proof.
  intros H. destruct file as [f|]; [|by exists (-1), c]. unfold cfg_load_file.
  assert (Hl : forall fuel f st, (length f < fuel)%nat -> (length (entries st.1.1) <= CFG_MAX_KEYS)%nat ->
    exists st', load_lines fuel f st = Some st' /\ (length (entries st'.1.1) <= CFG_MAX_KEYS)%nat).
  { clear. induction fuel as [|fuel IH]; intros f st Hf Hs; [lia|]. cbn. destruct f as [|x f]; [by exists st|].
    destruct (fgets_shorter LINE (x :: f)) as [_ Hlt]. specialize (Hlt ltac:(unfold LINE; lia) ltac:(done)). destruct (fgets LINE (x :: f)) as [line r]. cbn in Hlt.
    apply IH; [cbn in Hf; lia|]. destruct st as [[c cur] n]. by apply load_line_length. }
  destruct (Hl (S (length f)) f (c, [], 0)) as ([[c' cur] n] & -> & Hc); [lia|done|]. by exists n, c'.
Qed.
Lemma cfg_load_file_ends_witness : exists n c', cfg_load_file cfg_init (Some (str_bytes "a = 1")) = Some (n, c') /\ (length (entries c') <= CFG_MAX_KEYS)%nat.
Proof. refine (cfg_load_file_ends cfg_init (Some (str_bytes "a = 1")) _). cbn. lia. Defined.

(** ** Writing settings and reading them back *)

Record entry_ok (e : CFGEntry) : Prop := {
  ok_key : key e <> [] /\ cfg_trim (key e) = key e /\ (length (key e) < CFG_MAX_NAME)%nat;
  ok_key_chars : 61 ∉ key e /\ 10 ∉ key e /\ match key e with x :: _ => x <> 35 /\ x <> 59 /\ x <> 91 | [] => True end;
  ok_value : cfg_trim (value e) = value e /\ (length (value e) < CFG_MAX_VALUE)%nat /\ 10 ∉ value e;
  ok_section : cfg_trim (section e) = section e /\ (length (section e) < CFG_MAX_NAME)%nat /\ 10 ∉ section e /\ 93 ∉ section e;
  ok_set : is_set e = true }.
Definition header_of (e : CFGEntry) (last : option (list Z)) : list Z :=
  let sec := match section e with [] => None | s => Some s end in
  if bool_decide (sec = last) then [] else match sec with Some s => header_line s | None => [] end.
Fixpoint dump_text (es : list CFGEntry) (last : option (list Z)) : list Z :=
  match es with
  | [] => []
  | e :: es => header_of e last ++ entry_line e ++ dump_text es (match section e with [] => None | s => Some s end)
  end.
Lemma dump_from_text max_len es last out : Z.of_nat (length out + length (dump_text es last)) < max_len -> dump_from max_len es last out = out ++ dump_text es last.
Proof.
  revert last out. induction es as [|e es IH]; intros last out H; [by rewrite app_nil_r|]. cbn in H |- *. rewrite !length_app in H.
  assert (He : (0 < length (entry_line e))%nat) by (unfold entry_line; rewrite !length_app; cbn; lia).
  assert (Z.of_nat (length out) <? max_len - 1 = true) as -> by lia. cbn [negb]. unfold header_of in H |- *.
  generalize dependent (match section e with [] => None | x :: s => Some (x :: s) end). intros sec H.
  assert (Hgo : forall o, Z.of_nat (length o + length (entry_line e) + length (dump_text es sec)) < max_len ->
    (if max_len <=? Z.of_nat (length o + length (entry_line e)) then o else dump_from max_len es sec (o ++ entry_line e)) = o ++ entry_line e ++ dump_text es sec).
  { intros o Ho. rewrite (proj2 (Z.leb_gt max_len (Z.of_nat (length o + length (entry_line e))))) by lia. rewrite IH by (rewrite length_app; lia). by rewrite app_assoc. }
  destruct (bool_decide_reflect (sec = last)) as [<-|Hne]; cbn [length] in H; [apply Hgo; lia|].
  destruct sec as [s|]; cbn [length] in H; [|apply Hgo; lia].
  rewrite (proj2 (Z.leb_gt max_len (Z.of_nat (length out + length (header_line s))))) by lia. rewrite Hgo by (rewrite length_app; lia). by rewrite <- !app_assoc.
Qed.
Lemma load_header s c cur n : s <> [] -> cfg_trim s = s -> 93 ∉ s -> (length s < CFG_MAX_NAME)%nat -> load_line (header_line s) (c, cur, n) = (c, s, n).
Proof.
  intros Hn Ht H93 Hl. unfold load_line, header_line. 
  assert (cfg_trim ([91] ++ s ++ [93; 10]) = [91] ++ s ++ [93]) as ->.
  { unfold cfg_trim. rewrite skip_spaces_keep by done. change ([93; 10]) with ([93] ++ [10]). rewrite !app_assoc, skip_back_space by done. by apply skip_back_keep. }
  cbn [app]. cbn [orb Z.eqb Pos.eqb]. cbn [strchr_before Z.eqb Pos.eqb]. rewrite strchr_before_app by done. cbn [fmap option_fmap option_map default from_option id]. by rewrite Ht, truncated_id.
Qed.
Lemma load_entry e c n : entry_ok e -> load_line (entry_line e) (c, section e, n) = (cfg_set c (match section e with [] => None | s => Some s end) (key e) (value e), section e, n + 1).
Proof.
  intros [(Hk & Hkt & Hkl) (H61 & H10 & Hhead) (Hvt & Hvl & Hv10) _ _]. unfold load_line.
  assert (E : cfg_trim (entry_line e) = key e ++ [32] ++ 61 :: (match value e with [] => [] | v => 32 :: v end)).
  { destruct (trimmed_ends _ Hkt) as [?|[Hsp _]]; [done|]. unfold cfg_trim, entry_line. rewrite skip_spaces_keep by by destruct (key e).
    rewrite !app_assoc, skip_back_space by done. destruct (decide (value e = [])) as [->|Hvn]; [|destruct (trimmed_ends _ Hvt) as [?|[Hsv Hb]]; [done|]].
    - rewrite app_nil_r. change [32; 61; 32] with ([32; 61] ++ [32]). rewrite app_assoc, skip_back_space by done. change [32; 61] with ([32] ++ [61]).
      rewrite app_assoc, skip_back_keep by done. done.
    - rewrite Hb, <- !app_assoc. cbn. by destruct (value e). }
  rewrite E. assert (Hb : strchr_before 61 (key e ++ [32] ++ 61 :: match value e with [] => [] | v => 32 :: v end) = Some (key e ++ [32])).
  { rewrite app_assoc. apply strchr_before_app. rewrite elem_of_app. intros [?|?%list_elem_of_singleton]; done. }
  rewrite app_assoc in Hb |- *. rewrite Hb.
  assert (Hd : forall l r, drop (S (length l)) (l ++ 61 :: r) = r) by (intros l r; induction l; [done|cbn; done]). rewrite Hd.
  rewrite (trim_back 32 (key e)) by done. destruct (key e) as [|x k] eqn:Ek; [done|]. cbn [app]. destruct Hhead as (H1 & H2 & H3). 
  rewrite (proj2 (Z.eqb_neq x 35)), (proj2 (Z.eqb_neq x 59)), (proj2 (Z.eqb_neq x 91)) by done. cbn [orb].
  assert (cfg_trim match value e with [] => [] | v => 32 :: v end = value e) as ->; [|by destruct (section e)].
  destruct (value e) as [|y v] eqn:Ev; [done|]. by rewrite trim_front.
Qed.
Lemma entry_line_fgets e f : entry_ok e -> fgets LINE (entry_line e ++ f) = (entry_line e, f).
Proof.
  intros [(Hk & Hkt & Hkl) (H61 & H10 & Hhead) (Hvt & Hvl & Hv10) _ _]. unfold entry_line. rewrite !app_assoc, <- app_assoc. cbn [app].
  apply fgets_line.
  - rewrite !elem_of_app. intros [[?|Hin]|?]; [done| |done]. rewrite !elem_of_cons, elem_of_nil in Hin. lia.
  - rewrite !length_app. cbn [length]. change CFG_MAX_NAME with 64%nat in Hkl. unfold CFG_MAX_VALUE in Hvl. unfold LINE. lia.
Qed.
Lemma header_line_fgets s f : 10 ∉ s -> (length s < CFG_MAX_NAME)%nat -> fgets LINE (header_line s ++ f) = (header_line s, f).
Proof.
  intros H10 Hl. unfold header_line. change ([93; 10]) with ([93] ++ [10]). rewrite !app_assoc, <- app_assoc. cbn [app].
  apply (fgets_line LINE (91 :: s ++ [93]) f).
  - rewrite elem_of_cons, elem_of_app, list_elem_of_singleton. intros [?|[?|?]]; done.
  - cbn. rewrite length_app. cbn. unfold CFG_MAX_NAME in Hl. unfold LINE. lia.
Qed.

Lemma load_lines_step fuel line f st : f <> [] -> fgets LINE f = (line, drop (length line) f) -> load_lines (S fuel) f st = load_lines fuel (drop (length line) f) (load_line line st).
Proof. intros Hn E. cbn [load_lines]. rewrite E. by destruct f. Qed.
Definition section_of (e : CFGEntry) : option (list Z) := match section e with [] => None | s => Some s end.
Lemma load_dumped es c n last fuel : Forall entry_ok es -> StronglySorted (fun a b => section a <> [] -> section b <> []) es ->
  (last <> None -> Forall (fun e => section e <> []) es) -> last <> Some [] ->
  NoDup ((fun e => (section e, key e)) <$> entries c ++ es) -> (length (entries c) + length es <= CFG_MAX_KEYS)%nat ->
  (length (dump_text es last) < fuel)%nat ->
  exists cur, load_lines fuel (dump_text es last) (c, default [] last, n) = Some (with_entries c (entries c ++ es), cur, n + Z.of_nat (length es)).
Proof.
  revert c n last fuel. induction es as [|e es IH]; intros c n last fuel Hok Hord Hlast Hne Hnd Hlen Hf.
  { destruct fuel; [cbn in Hf; lia|]. cbn. rewrite app_nil_r, Z.add_0_r. exists (default [] last). by destruct c. }
  apply Forall_cons in Hok as [He Hok]. apply StronglySorted_inv in Hord as [Hord Hfirst].
  assert (Hentry : forall fuel, (length (entry_line e ++ dump_text es (section_of e)) < fuel)%nat ->
    exists cur, load_lines fuel (entry_line e ++ dump_text es (section_of e)) (c, section e, n) = Some (with_entries c (entries c ++ e :: es), cur, n + Z.of_nat (length (e :: es)))).
  { intros fuel' Hf'. destruct fuel' as [|fuel']; [lia|]. rewrite length_app in Hf'.
    assert (Hel : (0 < length (entry_line e))%nat) by (unfold entry_line; rewrite !length_app; cbn; lia).
    rewrite (load_lines_step _ (entry_line e)); [| |by rewrite entry_line_fgets, drop_app_length].
    2: { intros E%app_nil. destruct E as [E _]. rewrite E in Hel. cbn in Hel. lia. }
    rewrite drop_app_length, load_entry by done. fold (section_of e).
    assert (Hd : default [] (section_of e) = section e) by (unfold section_of; by destruct (section e)).
    set (c' := cfg_set _ _ _ _). assert (Hc' : c' = with_entries c (entries c ++ [e])).
    { destruct He as [(Hk & Hkt & Hkl) _ (Hvt & Hvl & _) (_ & Hsl & _) Hset].
      assert (Hnone : cfg_find_entry c (section_of e) (key e) = None).
      { rewrite find_entry_spec, filter_all_false; [done|]. intros x Hx. destruct (names _ _ x) eqn:En; [|done]. apply names_iff in En as [E1 E2].
        rewrite fmap_app, NoDup_app in Hnd. destruct Hnd as (_ & Hnd & _). exfalso. apply (Hnd (section x, key x)); [by apply (list_elem_of_fmap_2 (fun e => (section e, key e)))|].
        rewrite E1, E2, Hd. cbn. left. }
      unfold c'. transitivity (with_entries c (entries (cfg_set c (section_of e) (key e) (value e)))).
      - unfold cfg_set. destruct (_ <=? _)%nat; [by destruct c|]. by destruct (entry_idx _ _ _).
      - rewrite cfg_set_new by (done || (cbn in Hlen; lia)). rewrite Hd, !truncated_id by done. destruct e; cbn in *. by subst. }
    rewrite Hc'. replace (section e) with (default [] (section_of e)) by done.
    destruct (IH (with_entries c (entries c ++ [e])) (n + 1) (section_of e) fuel') as [cur Hcur]; try done.
    - intros Hs. eapply Forall_impl; [exact Hfirst|]. intros x Hx. apply Hx. unfold section_of in Hs. by destruct (section e).
    - unfold section_of. by destruct (section e).
    - cbn. by rewrite <- app_assoc.
    - cbn in Hlen |- *. rewrite length_app. cbn. lia.
    - lia.
    - exists cur. rewrite Hcur. cbn. f_equal. f_equal; [f_equal; unfold with_entries; cbn; by rewrite <- app_assoc|lia]. }
  cbn [dump_text] in Hf |- *. fold (section_of e) in Hf |- *. unfold header_of in Hf |- *. fold (section_of e) in Hf |- *.
  destruct (bool_decide_reflect (section_of e = last)) as [<-|Hdiff].
  { cbn [app] in Hf |- *. assert (default [] (section_of e) = section e) as -> by (unfold section_of; by destruct (section e)). by apply Hentry. }
  destruct (section_of e) as [s|] eqn:Es.
  2: { destruct last as [l|]; [|done]. specialize (Hlast ltac:(done)). apply Forall_cons in Hlast as [Hlast _]. unfold section_of in Es. by destruct (section e). }
  assert (section e = s /\ s <> []) as [Hs Hsn] by (unfold section_of in Es; destruct (section e); [done|split; congruence]).
  destruct He as [? ? ? (Hst & Hsl & Hs10 & Hs93) ?]. rewrite Hs in Hst, Hsl, Hs10, Hs93. destruct fuel as [|fuel]; [lia|].
  rewrite (load_lines_step _ (header_line s)); [|done|by rewrite header_line_fgets, drop_app_length].
  rewrite drop_app_length, load_header by done. rewrite Hs in Hentry. apply Hentry. rewrite length_app in Hf. unfold header_line in Hf at 1. cbn in Hf. lia.
Qed.
(** Settings that are written in a buffer with room for them are read back as they were, when
    the ones without a section come first, no two share their name, and their texts have no
    spaces at their ends and none of the characters of the file format. *)
Theorem cfg_dump_load_roundtrip c max_len : Forall entry_ok (entries c) -> StronglySorted (fun a b => section a <> [] -> section b <> []) (entries c) ->
  NoDup ((fun e => (section e, key e)) <$> entries c) -> (length (entries c) <= CFG_MAX_KEYS)%nat -> Z.of_nat (length (dump_text (entries c) None)) < max_len ->
  cfg_load_file cfg_init (Some (cfg_dump c max_len).2) = Some (Z.of_nat (length (entries c)), with_entries cfg_init (entries c)).
Proof.
  intros Hok Hord Hnd Hlen Hmax. unfold cfg_dump. rewrite (proj2 (Z.leb_gt max_len 0)) by lia. cbn [snd]. rewrite dump_from_text by done. rewrite app_nil_l. unfold cfg_load_file.
  destruct (load_dumped (entries c) cfg_init 0 None (S (length (dump_text (entries c) None)))) as [cur E]; try done; [lia|]. change (default [] None) with (@nil Z) in E. by rewrite E.
Qed.
Definition sample : Config := mk_config [mk_entry (str_bytes "debug") (str_bytes "on") [] true; mk_entry (str_bytes "host") (str_bytes "a b=c") (str_bytes "db") true; mk_entry (str_bytes "port") [] (str_bytes "db") true] [] false.
Lemma cfg_dump_load_roundtrip_witness : cfg_load_file cfg_init (Some (cfg_dump sample 100).2) = Some (3, sample).
Proof.
  refine (cfg_dump_load_roundtrip sample 100 _ _ _ _ _).
  - repeat constructor; try (vm_compute; (reflexivity || lia || discriminate)); apply (bool_decide_unpack _); vm_compute; reflexivity.
  - repeat constructor; cbn; done.
  - apply (bool_decide_unpack _). vm_compute. reflexivity.
  - vm_compute. lia.
  - vm_compute. reflexivity.
Defined.
Example sample_dumped : (cfg_dump sample 100).2 = str_bytes "debug = on" ++ [10] ++ str_bytes "[db]" ++ [10] ++ str_bytes "host = a b=c" ++ [10] ++ str_bytes "port = " ++ [10].
Proof. vm_compute. reflexivity. Qed.

(** ** What the code does not do *)

(** A full manager refuses to change the settings it has. *)
Theorem full_refuses_update c sec k v : length (entries c) = CFG_MAX_KEYS -> cfg_set c sec k v = c.
Proof. intros E. unfold cfg_set. by rewrite E. Qed.
Lemma full_refuses_update_witness : let c := mk_config (replicate 256 (mk_entry [97] [98] [] true)) [] false in cfg_set c None [97] [99] = c.
Proof. refine (full_refuses_update (mk_config (replicate 256 (mk_entry [97] [98] [] true)) [] false) None [97] [99] _). vm_compute. reflexivity. Defined.
(** The environment overrides no setting that a file was loaded with. *)
Example environment_loses : let env := fun n => if bool_decide (n = str_bytes "APP_PORT") then Some (str_bytes "1") else None in
  (r ← cfg_load_file (cfg_enable_env cfg_init (Some (str_bytes "APP_"))) (Some (str_bytes "port = 2")); cfg_get env r.2 None (str_bytes "port") None) = Some (str_bytes "2").
Proof. vm_compute. reflexivity. Qed.
(** A setting without a section behind one with a section is written into that section. *)
Example global_moves : let c := cfg_set (cfg_set cfg_init (Some (str_bytes "db")) (str_bytes "a") (str_bytes "1")) None (str_bytes "b") (str_bytes "2") in
  (r ← cfg_load_file cfg_init (Some (cfg_dump c 100).2); Some (section <$> entries r.2)) = Some [str_bytes "db"; str_bytes "db"].
Proof. vm_compute. reflexivity. Qed.
(** A name of 64 characters is stored without its end, and never found again. *)
Example long_name_lost : let k := replicate 64 97 in let c := cfg_set (cfg_set cfg_init None k (str_bytes "1")) None k (str_bytes "2") in
  cfg_find_entry c None k = None /\ length (entries c) = 2%nat.
Proof. vm_compute. split; reflexivity. Qed.
