(* ===== verification/Orm.v ===== *)
(** Model of [mini-backend-framework/src/orm_core.c]: the object mapper.  Rows are kept in the
    static tables of the program, and queries are only printed; and the theorems on both.

    A table is its slots of 4096 bytes: the ones ever written, of which the first [row_count]
    hold rows and the others what rows left behind.  The objects of the caller live in a heap,
    since a model keeps the address of the object it saved. *)

From stdpp Require Import gmap.
From S2P Require Import Prelude Bytes.
#[local] Open Scope Z_scope.

Definition ORM_MAX_META : nat := 32.
Definition ORM_MAX_ROWS_PER_TABLE : nat := Z.to_nat 1024.
Definition ORM_MAX_DATA_SIZE : nat := Z.to_nat 4096.
#[global] Arguments ORM_MAX_ROWS_PER_TABLE : simpl never.
#[global] Arguments ORM_MAX_DATA_SIZE : simpl never.
Definition ORM_MAX_COLUMNS : nat := 32.
Definition ORM_MAX_TABLE_NAME : nat := 64.
Definition ORM_MAX_COLUMN_NAME : nat := 64.
Definition ORM_MAX_JOINS : nat := 4.

Inductive ORMColumnType := ORM_TYPE_INT | ORM_TYPE_INT64 | ORM_TYPE_FLOAT | ORM_TYPE_DOUBLE | ORM_TYPE_STRING | ORM_TYPE_BOOL | ORM_TYPE_TEXT.
Inductive ORMOp := ORM_OP_EQ | ORM_OP_NE | ORM_OP_LT | ORM_OP_LE | ORM_OP_GT | ORM_OP_GE | ORM_OP_LIKE | ORM_OP_IN | ORM_OP_IS_NULL.
Inductive ORMOrderDir := ORM_ORDER_ASC | ORM_ORDER_DESC.
Inductive ORMJoinType := ORM_JOIN_INNER | ORM_JOIN_LEFT | ORM_JOIN_RIGHT.
Record ORMColumnDef := mk_column { name : list Z; type : ORMColumnType; length_ : Z; primary_key : bool; auto_increment : bool; nullable : bool; default_value : list Z }.
Record ORMMeta := mk_meta { table_name : list Z; columns : list ORMColumnDef; struct_size : nat; pk_index : Z }.
Record ORMTable := mk_table { table : list Z; data : list (list Z); pk_vals : list Z; pk_counter : Z }.
Definition row_count (t : ORMTable) : nat := length (pk_vals t).
Definition loc : Type := positive.
Record ORMModel := mk_model { meta : ORMMeta; object : option loc; is_new : bool }.
(** The static variables, and the objects of the caller. *)
Record orm := mk_orm { g_meta_registry : list ORMMeta; g_tables : list ORMTable; heap : gmap loc (list Z) }.

Definition with_tables (o : orm) (ts : list ORMTable) : orm := mk_orm (g_meta_registry o) ts (heap o).
(** The table of that name, which is made when it is not there. *)
Definition orm_table (table_name : list Z) (o : orm) : option nat * orm :=
  match find_idx (fun t => bool_decide (table t = table_name)) (g_tables o) with
  | Some i => (Some i, o)
  | None =>
      if (ORM_MAX_META <=? length (g_tables o))%nat then (None, o)
      else (Some (length (g_tables o)), with_tables o (g_tables o ++ [mk_table (truncated ORM_MAX_TABLE_NAME table_name) [] [] 0]))
  end.
Definition orm_find_meta (o : orm) (name : list Z) : option ORMMeta := find_idx (fun m => bool_decide (table_name m = name)) (g_meta_registry o) ≫= fun i => g_meta_registry o !! i.
Definition orm_column_type_string (t : ORMColumnType) : string :=
  match t with
  | ORM_TYPE_INT => "INTEGER" | ORM_TYPE_INT64 => "BIGINT" | ORM_TYPE_FLOAT => "REAL" | ORM_TYPE_DOUBLE => "DOUBLE" | ORM_TYPE_STRING => "VARCHAR"
  | ORM_TYPE_BOOL => "BOOLEAN" | ORM_TYPE_TEXT => "TEXT"
  end.
Definition orm_op_string (op : ORMOp) : string :=
  match op with
  | ORM_OP_EQ => "=" | ORM_OP_NE => "!=" | ORM_OP_LT => "<" | ORM_OP_LE => "<=" | ORM_OP_GT => ">" | ORM_OP_GE => ">=" | ORM_OP_LIKE => "LIKE" | ORM_OP_IN => "IN"
  | ORM_OP_IS_NULL => "IS NULL"
  end.
Definition orm_join_string (t : ORMJoinType) : string := match t with ORM_JOIN_INNER => "INNER JOIN" | ORM_JOIN_LEFT => "LEFT JOIN" | ORM_JOIN_RIGHT => "RIGHT JOIN" end.
Definition orm_init (o : orm) : orm := mk_orm [] (g_tables o) (heap o).
Definition orm_shutdown (o : orm) : orm := mk_orm [] (g_tables o) (heap o).
Fixpoint pk_from (i : Z) (cols : list ORMColumnDef) (pk : Z) : Z := match cols with [] => pk | c :: cols => pk_from (i + 1) cols (if primary_key c then i else pk) end.
Definition orm_define (table_name : list Z) (cols : list ORMColumnDef) (size : nat) (o : orm) : Z * orm :=
  if (ORM_MAX_META <=? length (g_meta_registry o))%nat then (-1, o)
  else if (ORM_MAX_COLUMNS <? length cols)%nat then (-2, o)
  else (0, mk_orm (g_meta_registry o ++ [mk_meta (truncated ORM_MAX_TABLE_NAME table_name) cols size (pk_from 0 cols (-1))]) (g_tables o) (heap o)).

(** ** Rows *)

Definition slot (t : ORMTable) (i : nat) : list Z := default (replicate ORM_MAX_DATA_SIZE 0) (data t !! i).
(** [memcpy(dst, src, n)] of the first bytes. *)
Definition memcpy (dst src : list Z) (n : nat) : list Z := take n src ++ drop n dst.
(** An instance is as long as the structure; one that is longer than a slot would be written
    behind it ([None]). *)
Definition save_row (t : ORMTable) (instance : list Z) (size : nat) : ORMTable :=
  mk_table (table t) (take (row_count t) (data t) ++ memcpy (slot t (row_count t)) instance size :: drop (S (row_count t)) (data t)) (pk_vals t ++ [pk_counter t + 1]) (pk_counter t + 1).
Definition orm_save (model : ORMModel) (instance : loc) (o : orm) : option (Z * ORMModel * orm) :=
  let '(ti, o) := orm_table (table_name (meta model)) o in
  match ti ≫= fun i => (fun t => (i, t)) <$> g_tables o !! i with
  | None => Some (-2, model, o)
  | Some (i, t) =>
      if (ORM_MAX_ROWS_PER_TABLE <=? row_count t)%nat then Some (-3, model, o)
      else
        bytes ← heap o !! instance;
        if (ORM_MAX_DATA_SIZE <? struct_size (meta model))%nat then None
        else Some (pk_counter t + 1, mk_model (meta model) (Some instance) false, with_tables o (<[i := save_row t bytes (struct_size (meta model))]> (g_tables o)))
  end.
(** The row goes to the object of the model, when it has one; a structure that is larger than a
    slot or than the object is undefined ([None]). *)
Definition load_row (model : ORMModel) (row : list Z) (o : orm) : option orm :=
  match object model with
  | None => Some o
  | Some l =>
      old ← heap o !! l;
      if (ORM_MAX_DATA_SIZE <? struct_size (meta model))%nat || (length old <? struct_size (meta model))%nat then None
      else Some (mk_orm (g_meta_registry o) (g_tables o) (<[l := memcpy old row (struct_size (meta model))]> (heap o)))
  end.
Definition orm_find (model : ORMModel) (id : Z) (o : orm) : option (Z * orm) :=
  let '(ti, o) := orm_table (table_name (meta model)) o in
  match ti ≫= fun i => g_tables o !! i with
  | None => Some (-2, o)
  | Some t => match find_idx (fun pk => pk =? id) (pk_vals t) with Some r => o ← load_row model (slot t r) o; Some (id, o) | None => Some (-1, o) end
  end.
Definition type_size (c : ORMColumnDef) : Z :=
  match type c with ORM_TYPE_INT | ORM_TYPE_BOOL | ORM_TYPE_FLOAT => 4 | ORM_TYPE_INT64 | ORM_TYPE_DOUBLE => 8 | ORM_TYPE_STRING | ORM_TYPE_TEXT => length_ c end.
Definition offset (cols : list ORMColumnDef) (i : nat) : Z := foldl Z.add 0 (type_size <$> take i cols).
Definition is_text (c : ORMColumnDef) : bool := match type c with ORM_TYPE_STRING | ORM_TYPE_TEXT => true | _ => false end.
(** The text at an offset of a row: one that has no end in its slot goes on in the next one. *)
Definition row_text (t : ORMTable) (r : nat) (off : Z) : list Z := cstr (drop (Z.to_nat off) (mjoin (drop r (data t)))).
Definition row_has (t : ORMTable) (cols : list ORMColumnDef) (ci : nat) (v : list Z) (r : nat) : bool :=
  match cols !! ci with Some c => is_text c && bool_decide (row_text t r (offset cols ci) = v) | None => false end.
Definition column_idx (o : orm) (table_name column : list Z) : option (list ORMColumnDef * nat) :=
  m ← orm_find_meta o table_name; i ← find_idx (fun c => bool_decide (name c = column)) (columns m); Some (columns m, i).
Definition orm_find_by (model : ORMModel) (column v : list Z) (o : orm) : option (Z * orm) :=
  let '(ti, o) := orm_table (table_name (meta model)) o in
  match ti ≫= fun i => g_tables o !! i with
  | None => Some (-2, o)
  | Some t =>
      match column_idx o (table_name (meta model)) column with
      | None => Some (-3, o)
      | Some (cols, ci) =>
          match find_idx (row_has t cols ci v) (seq 0 (row_count t)) with
          | Some r => o ← load_row model (slot t r) o; Some (default 0 (pk_vals t !! r), o)
          | None => Some (-1, o)
          end
      end
  end.
(** The rows behind move down by one; the last slot keeps its bytes. *)
Definition delete_row (t : ORMTable) (r : nat) : ORMTable :=
  mk_table (table t) (take r (data t) ++ drop (S r) (take (row_count t) (data t)) ++ drop (row_count t - 1) (data t)) (delete r (pk_vals t)) (pk_counter t).
Definition orm_delete (model : ORMModel) (id : Z) (o : orm) : Z * orm :=
  let '(ti, o) := orm_table (table_name (meta model)) o in
  match ti ≫= fun i => (fun t => (i, t)) <$> g_tables o !! i with
  | None => (-2, o)
  | Some (i, t) =>
      match find_idx (fun pk => pk =? id) (pk_vals t) with
      | Some r => (0, with_tables o (<[i := delete_row t r]> (g_tables o)))
      | None => (-1, o)
      end
  end.
Definition orm_delete_by (model : ORMModel) (column v : list Z) (o : orm) : Z * orm :=
  let '(ti, o) := orm_table (table_name (meta model)) o in
  match ti ≫= fun i => (fun t => (i, t)) <$> g_tables o !! i with
  | None => (-2, o)
  | Some (i, t) =>
      match column_idx o (table_name (meta model)) column with
      | None => (-3, o)
      | Some (cols, ci) =>
          match find_idx (row_has t cols ci v) (seq 0 (row_count t)) with
          | Some r => (0, with_tables o (<[i := delete_row t r]> (g_tables o)))
          | None => (-1, o)
          end
      end
  end.

(** ** Queries *)

Record ORMCondition := mk_condition { cond_column : list Z; op : ORMOp; cond_value : list Z; is_or : bool }.
Record ORMJoin := mk_join { table_a : list Z; table_b : list Z; col_a : list Z; col_b : list Z; join_type : ORMJoinType }.
Record ORMQuery := mk_query { q_table : list Z; select_all : bool; q_columns : list (list Z); conditions : list ORMCondition; joins : list ORMJoin; order_by : list Z; order_dir : ORMOrderDir; limit_val : Z; offset_val : Z }.
Definition orm_query_init (table : list Z) : ORMQuery := mk_query (truncated ORM_MAX_TABLE_NAME table) true [] [] [] [] ORM_ORDER_ASC (-1) 0.
Definition orm_query_select (q : ORMQuery) (cols : list (list Z)) : ORMQuery :=
  mk_query (q_table q) false (truncated ORM_MAX_COLUMN_NAME <$> take ORM_MAX_COLUMNS cols) (conditions q) (joins q) (order_by q) (order_dir q) (limit_val q) (offset_val q).
Definition add_condition (q : ORMQuery) (col : list Z) (o : ORMOp) (val : list Z) (or : bool) : ORMQuery :=
  if (ORM_MAX_COLUMNS <=? length (conditions q))%nat then q
  else mk_query (q_table q) (select_all q) (q_columns q) (conditions q ++ [mk_condition (truncated ORM_MAX_COLUMN_NAME col) o (truncated 256 val) or]) (joins q) (order_by q) (order_dir q) (limit_val q) (offset_val q).
Definition orm_query_where (q : ORMQuery) (col : list Z) (o : ORMOp) (val : list Z) : ORMQuery := add_condition q col o val false.
Definition orm_query_or_where (q : ORMQuery) (col : list Z) (o : ORMOp) (val : list Z) : ORMQuery := add_condition q col o val true.
Definition orm_query_join (q : ORMQuery) (t : ORMJoinType) (ta tb ca cb : list Z) : ORMQuery :=
  if (ORM_MAX_JOINS <=? length (joins q))%nat then q
  else mk_query (q_table q) (select_all q) (q_columns q) (conditions q) (joins q ++ [mk_join (truncated ORM_MAX_TABLE_NAME ta) (truncated ORM_MAX_TABLE_NAME tb) (truncated ORM_MAX_COLUMN_NAME ca) (truncated ORM_MAX_COLUMN_NAME cb) t])
         (order_by q) (order_dir q) (limit_val q) (offset_val q).
Definition orm_query_order (q : ORMQuery) (col : list Z) (dir : ORMOrderDir) : ORMQuery :=
  mk_query (q_table q) (select_all q) (q_columns q) (conditions q) (joins q) (truncated ORM_MAX_COLUMN_NAME col) dir (limit_val q) (offset_val q).
Definition orm_query_limit (q : ORMQuery) (limit offset : Z) : ORMQuery :=
  mk_query (q_table q) (select_all q) (q_columns q) (conditions q) (joins q) (order_by q) (order_dir q) limit offset.

(** [snprintf] behind what was printed, given up when the text does not fit. *)
Definition emit (max_len : Z) (s : list Z) (out : list Z) : option (list Z) :=
  if max_len - Z.of_nat (length out) <=? Z.of_nat (length s) then None else Some (out ++ s).
(** Each column is printed at the same place, and without columns the place moves on by the
    seven characters of the text before: what stands there is the end of that text and what
    was in the buffer, [buf]. *)
Definition select_text (q : ORMQuery) (buf : list Z) : list Z :=
  if select_all q then str_bytes "* "
  else match last (q_columns q) with Some c => c ++ str_bytes " " | None => 0 :: take 6 (drop 8 buf) end.
Definition join_text (j : ORMJoin) : list Z :=
  str_bytes " " ++ str_bytes (orm_join_string (join_type j)) ++ str_bytes " " ++ table_b j ++ str_bytes " ON " ++ table_a j ++ str_bytes "." ++ col_a j ++ str_bytes " = " ++ table_b j ++ str_bytes "." ++ col_b j.
(** The character 39 is the quote. *)
Definition condition_text (first : bool) (c : ORMCondition) : list Z :=
  (if first then [] else str_bytes (if is_or c then "OR " else "AND ")) ++ cond_column c ++
  match op c with ORM_OP_IS_NULL => str_bytes " IS NULL " | o => str_bytes " " ++ str_bytes (orm_op_string o) ++ [32; 39] ++ cond_value c ++ [39; 32] end.
Fixpoint emit_all (max_len : Z) (l : list (list Z)) (out : list Z) : option (list Z) := match l with [] => Some out | s :: l => emit max_len s out ≫= emit_all max_len l end.
Definition condition_texts (cs : list ORMCondition) : list (list Z) := match cs with [] => [] | c :: cs => condition_text true c :: (condition_text false <$> cs) end.
Definition orm_query_generate (q : ORMQuery) (buf : list Z) (max_len : Z) : option (list Z) :=
  out ← emit max_len (str_bytes "SELECT ") [];
  out ← emit max_len (select_text q buf) out;
  out ← emit max_len (str_bytes "FROM " ++ q_table q) out;
  out ← emit_all max_len (join_text <$> joins q) out;
  out ← (match conditions q with [] => Some out | cs => emit max_len (str_bytes " WHERE ") out ≫= emit_all max_len (condition_texts cs) end);
  out ← (match order_by q with [] => Some out | col => emit max_len (str_bytes "ORDER BY " ++ col ++ str_bytes (match order_dir q with ORM_ORDER_ASC => " ASC " | ORM_ORDER_DESC => " DESC " end)) out end);
  if 0 <=? limit_val q then emit max_len (str_bytes "LIMIT " ++ print_lld (limit_val q) ++ str_bytes " OFFSET " ++ print_lld (offset_val q)) out else Some out.

(** ** Printing *)

(** What a query is printed as. *)
Definition query_text (q : ORMQuery) (buf : list Z) : list Z :=
  str_bytes "SELECT " ++ select_text q buf ++ str_bytes "FROM " ++ q_table q ++ mjoin (join_text <$> joins q) ++
  (match conditions q with [] => [] | cs => str_bytes " WHERE " ++ mjoin (condition_texts cs) end) ++
  (match order_by q with [] => [] | col => str_bytes "ORDER BY " ++ col ++ str_bytes (match order_dir q with ORM_ORDER_ASC => " ASC " | ORM_ORDER_DESC => " DESC " end) end) ++
  (if 0 <=? limit_val q then str_bytes "LIMIT " ++ print_lld (limit_val q) ++ str_bytes " OFFSET " ++ print_lld (offset_val q) else []).
Definition fits (max_len : Z) (l : list Z) : option (list Z) := if max_len <=? Z.of_nat (length l) then None else Some l.
Lemma emit_fits max_len s l : fits max_len l ≫= emit max_len s = fits max_len (l ++ s).
Proof.
  unfold fits, emit. rewrite length_app. destruct (Z.leb_spec max_len (Z.of_nat (length l))); cbn.
  - by rewrite (proj2 (Z.leb_le _ _)) by lia.
  - destruct (Z.leb_spec (max_len - Z.of_nat (length l)) (Z.of_nat (length s))); [by rewrite (proj2 (Z.leb_le _ _)) by lia|by rewrite (proj2 (Z.leb_gt _ _)) by lia].
Qed.
Lemma bind_assoc {A B C} (m : option A) (f : A -> option B) (g : B -> option C) : (m ≫= f) ≫= g = m ≫= fun x => f x ≫= g.
Proof. by destruct m. Qed.
Lemma emit_all_fits max_len ss l : fits max_len l ≫= emit_all max_len ss = fits max_len (l ++ mjoin ss).
Proof.
  revert l. induction ss as [|s ss IH]; intros l; cbn.
  - rewrite app_nil_r. by destruct (fits max_len l).
  - change (fits max_len l ≫= (fun out => emit max_len s out ≫= emit_all max_len ss) = fits max_len (l ++ s ++ mjoin ss)).
    rewrite <- bind_assoc, emit_fits, IH. by rewrite app_assoc.
Qed.
Lemma emit_bind max_len s l (k : list Z -> option (list Z)) : (fits max_len l ≫= fun out => emit max_len s out ≫= k) = fits max_len (l ++ s) ≫= k.
Proof. by rewrite <- emit_fits, bind_assoc. Qed.
Lemma emit_all_bind max_len ss l (k : list Z -> option (list Z)) : (fits max_len l ≫= fun out => emit_all max_len ss out ≫= k) = fits max_len (l ++ mjoin ss) ≫= k.
Proof. by rewrite <- emit_all_fits, bind_assoc. Qed.
Lemma skip_bind_nil max_len l : (fits max_len l ≫= fun out => Some out) = fits max_len l.
Proof. by destruct (fits max_len l). Qed.
(** A query is printed as a whole, or not at all when the buffer is too small for it. *)
Theorem orm_query_generate_correct q buf max_len : orm_query_generate q buf max_len = fits max_len (query_text q buf).
Proof.
  assert (Hnil : forall s, emit max_len s [] = fits max_len s) by (intros s; unfold emit, fits; cbn; by rewrite Z.sub_0_r).
  unfold orm_query_generate, query_text. rewrite Hnil, !emit_bind, emit_all_bind.
  assert (Hw : forall l (k : list Z -> option (list Z)), (fits max_len l ≫= fun out => match conditions q with [] => Some out | cs => emit max_len (str_bytes " WHERE ") out ≫= emit_all max_len (condition_texts cs) end ≫= k) =
    fits max_len (l ++ match conditions q with [] => [] | cs => str_bytes " WHERE " ++ mjoin (condition_texts cs) end) ≫= k).
  { intros l k. destruct (conditions q) as [|c cs]; [by rewrite app_nil_r|]. rewrite app_assoc, <- emit_all_bind, <- emit_bind. destruct (fits max_len l) as [x|]; [exact (bind_assoc _ _ _)|done]. }
  rewrite Hw. clear Hw.
  assert (Ho : forall l (k : list Z -> option (list Z)) a b, (fits max_len l ≫= fun out => match order_by q with [] => Some out | col => emit max_len (a ++ col ++ b) out end ≫= k) =
    fits max_len (l ++ match order_by q with [] => [] | col => a ++ col ++ b end) ≫= k).
  { intros l k a b. destruct (order_by q); [by rewrite app_nil_r|]. by rewrite emit_bind. }
  rewrite Ho. clear Ho. destruct (0 <=? limit_val q); [rewrite emit_fits|rewrite skip_bind_nil]; f_equal; rewrite ?app_nil_r; by rewrite <- !app_assoc.
Qed.

(** ** Rows as a map *)

(** Each row of a table by its key. *)
Definition rows (t : ORMTable) : gmap Z (list Z) := list_to_map (zip (pk_vals t) (data t)).
Record table_ok (t : ORMTable) : Prop := {
  ok_slots : (row_count t <= length (data t))%nat;
  ok_keys : NoDup (pk_vals t);
  ok_counter : Forall (fun pk => 0 < pk <= pk_counter t) (pk_vals t);
  ok_positive : 0 <= pk_counter t;
  ok_bound : (row_count t <= ORM_MAX_ROWS_PER_TABLE)%nat;
  ok_sizes : Forall (fun s => length s = ORM_MAX_DATA_SIZE) (data t) }.
Lemma zip_stop {A B} (p : list A) (d x : list B) : length p = length d -> zip p (d ++ x) = zip p d.
Proof. intros H. rewrite <- (app_nil_r p) at 1. rewrite zip_with_app by done. cbn. by rewrite app_nil_r. Qed.
Lemma zip_keys t : table_ok t -> (zip (pk_vals t) (data t)).*1 = pk_vals t.
Proof. intros H. apply fst_zip. apply H. Qed.
Lemma rows_lookup t id : table_ok t -> rows t !! id = (fun r => slot t r) <$> find_idx (fun pk => pk =? id) (pk_vals t).
Proof.
  intros H. unfold rows. destruct (find_idx _ (pk_vals t)) as [r|] eqn:E; cbn.
  - apply find_idx_Some in E as (pk & Hr & Hpk & _). apply Z.eqb_eq in Hpk as ->.
    apply elem_of_list_to_map_1; [rewrite zip_keys by done; apply H|]. apply list_elem_of_lookup. exists r.
    destruct (lookup_lt_is_Some_2 (data t) r) as [s Hs]; [apply lookup_lt_Some in Hr; pose proof (ok_slots t H); unfold row_count in *; lia|].
    rewrite lookup_zip_with, Hr. unfold slot. by rewrite Hs.
  - apply not_elem_of_list_to_map_1. rewrite zip_keys by done. intros Hin. rewrite find_idx_None in E. specialize (E id Hin). lia.
Qed.
Lemma slot_length t r : table_ok t -> length (slot t r) = ORM_MAX_DATA_SIZE.
Proof.
  intros H. unfold slot. destruct (data t !! r) as [s|] eqn:E; cbn; [|by rewrite length_replicate].
  pose proof (ok_sizes t H) as Hs. rewrite Forall_forall in Hs. apply Hs. by eapply list_elem_of_lookup_2.
Qed.
Lemma save_row_ok t bytes size : table_ok t -> (row_count t < ORM_MAX_ROWS_PER_TABLE)%nat -> length bytes = size -> (size <= ORM_MAX_DATA_SIZE)%nat ->
  let t' := save_row t bytes size in
  table_ok t' /\ rows t !! (pk_counter t + 1) = None /\ exists s, rows t' = <[pk_counter t + 1 := s]> (rows t) /\ take size s = bytes.
Proof.
  intros H Hroom Hb Hs t'.
  assert (Hrow : length (memcpy (slot t (row_count t)) bytes size) = ORM_MAX_DATA_SIZE).
  { unfold memcpy. rewrite length_app, length_take, length_drop, slot_length by done. lia. }
  pose proof (ok_counter t H) as Hc. rewrite Forall_forall in Hc.
  assert (Hfresh : pk_counter t + 1 ∉ pk_vals t) by (intros Hin; specialize (Hc _ Hin); lia). split; [|split].
  - destruct H. constructor; cbn; unfold row_count in *; cbn.
    + rewrite !length_app, length_take. cbn. rewrite length_drop. lia.
    + apply NoDup_app. repeat split; [done| |apply NoDup_singleton]. intros x Hx ->%list_elem_of_singleton. done.
    + apply Forall_app. split; [|by repeat constructor; lia]. eapply Forall_impl; [exact ok_counter0|]. cbn. lia.
    + lia.
    + rewrite length_app. cbn. lia.
    + apply Forall_app. split; [by apply Forall_take|]. constructor; [done|by apply Forall_drop].
  - apply not_elem_of_list_to_map_1. by rewrite zip_keys.
  - exists (memcpy (slot t (row_count t)) bytes size). split.
    + unfold rows. cbn. rewrite zip_with_app by (rewrite length_take; pose proof (ok_slots t H); unfold row_count in *; lia).
      cbn. rewrite list_to_map_snoc. 2: { rewrite fst_zip; [done|]. rewrite length_take. pose proof (ok_slots t H). unfold row_count in *. lia. }
      f_equal. f_equal. rewrite <- (take_drop (row_count t) (data t)) at 2.
      rewrite zip_stop; [done|]. rewrite length_take. pose proof (ok_slots t H). unfold row_count in *. lia.
    + unfold memcpy. rewrite take_app_le by (rewrite length_take; lia). rewrite take_take, Nat.min_id. by apply take_ge; lia.
Qed.
Lemma delete_row_ok t r id : table_ok t -> pk_vals t !! r = Some id -> table_ok (delete_row t r) /\ rows (delete_row t r) = delete id (rows t).
Proof.
  intros H Hr. pose proof (lookup_lt_Some _ _ _ Hr) as Hlt.
  assert (Hsplit : exists p1 p2 d1 d d2 rest, pk_vals t = p1 ++ id :: p2 /\ data t = d1 ++ d :: d2 ++ rest /\ length p1 = r /\ length d1 = r /\ length d2 = length p2).
  { pose proof (ok_slots t H) as Hs. unfold row_count in Hs. destruct (lookup_lt_is_Some_2 (data t) r) as [d Hd]; [lia|].
    exists (take r (pk_vals t)), (drop (S r) (pk_vals t)), (take r (data t)), d, (take (length (pk_vals t) - S r) (drop (S r) (data t))), (drop (length (pk_vals t) - S r) (drop (S r) (data t))).
    rewrite take_drop. split; [by rewrite take_drop_middle|]. split; [by rewrite take_drop_middle|]. rewrite !length_take, !length_drop. lia. }
  destruct Hsplit as (p1 & p2 & d1 & d & d2 & rest & Hp & Hd & Hp1 & Hd1 & Hd2).
  assert (Hdata : data (delete_row t r) = d1 ++ d2 ++ drop (row_count t - 1) (data t)).
  { cbn. f_equal; [by rewrite Hd, take_app_length'|]. f_equal. unfold row_count. rewrite Hp, Hd.
    change (d1 ++ d :: d2 ++ rest) with (d1 ++ [d] ++ d2 ++ rest). change (p1 ++ id :: p2) with (p1 ++ [id] ++ p2). rewrite !app_assoc, take_app_length' by (rewrite !length_app; cbn; lia).
    rewrite drop_app_length'; [done|rewrite length_app; cbn; lia]. }
  assert (Hpk : pk_vals (delete_row t r) = p1 ++ p2) by (cbn; rewrite Hp, <- Hp1; apply delete_middle).
  pose proof (ok_keys t H) as Hnd. rewrite Hp in Hnd.
  assert (Hperm : p1 ++ id :: p2 ≡ₚ id :: p1 ++ p2) by (symmetry; apply Permutation_middle). split.
  - destruct H as [Hs Hk Hc Hpos Hb Hsz]. constructor; rewrite ?Hdata; unfold row_count in *; rewrite ?Hpk; try done.
    + rewrite !length_app. lia.
    + rewrite Hperm in Hnd. by apply NoDup_cons in Hnd as [_ Hnd].
    + cbn [delete_row pk_counter]. rewrite Hp, Hperm in Hc. by apply Forall_cons in Hc as [_ Hc].
    + rewrite Hp, length_app in Hb. cbn in Hb. rewrite length_app. lia.
    + rewrite Hd in Hsz. apply Forall_app in Hsz as [Hz1 Hz2]. apply Forall_cons in Hz2 as [Hz3 Hz2]. pose proof Hz2 as Hz. apply Forall_app in Hz2 as [Hz2 Hz4].
      apply Forall_app. split; [done|]. apply Forall_app. split; [done|]. apply Forall_drop. rewrite Hd. apply Forall_app. split; [done|by constructor].
  - assert (Hkeys : (zip p1 d1 ++ zip p2 d2).*1 = p1 ++ p2) by by rewrite fmap_app, !fst_zip by lia.
    unfold rows. rewrite Hdata, Hpk, Hp, Hd, !zip_with_app by lia. cbn [zip_with]. rewrite !zip_stop by lia.
    rewrite Hperm in Hnd. apply NoDup_cons in Hnd as [Hnin Hnd]. rewrite <- Hkeys in Hnin, Hnd.
    rewrite <- (delete_insert_id (list_to_map (zip p1 d1 ++ zip p2 d2)) id d) by by apply not_elem_of_list_to_map_1.
    f_equal. change (<[id:=d]> (list_to_map (zip p1 d1 ++ zip p2 d2))) with (list_to_map (M := gmap Z (list Z)) ((id, d) :: zip p1 d1 ++ zip p2 d2)).
    apply list_to_map_proper; [|apply Permutation_middle]. cbn. by apply NoDup_cons.
Qed.

(** The rows of the table of a name. *)
Definition rows_of (o : orm) (n : list Z) : gmap Z (list Z) :=
  match find_idx (fun t => bool_decide (table t = n)) (g_tables o) ≫= fun i => g_tables o !! i with Some t => rows t | None => ∅ end.
Definition orm_ok (o : orm) : Prop := Forall table_ok (g_tables o).
Lemma find_table_insert n ts i t t' : ts !! i = Some t -> table t' = table t ->
  find_idx (fun t => bool_decide (table t = n)) (<[i := t']> ts) = find_idx (fun t => bool_decide (table t = n)) ts.
Proof.
  revert i. induction ts as [|x ts IH]; intros i Hi E; [done|]. destruct i as [|i]; cbn in *.
  - injection Hi as ->. by rewrite E.
  - by rewrite IH.
Qed.
Lemma rows_of_insert o n i t t' : find_idx (fun t => bool_decide (table t = table t')) (g_tables o) = Some i -> g_tables o !! i = Some t -> table t' = table t ->
  rows_of (with_tables o (<[i := t']> (g_tables o))) n = if bool_decide (n = table t') then rows t' else rows_of o n.
Proof.
  intros Hf Hi E. unfold rows_of. cbn [g_tables with_tables]. rewrite (find_table_insert n _ i t) by done. destruct (bool_decide_reflect (n = table t')) as [->|Hne].
  - rewrite Hf. cbn [mbind option_bind]. by rewrite list_lookup_insert_eq by by eapply lookup_lt_Some.
  - destruct (find_idx (fun t => bool_decide (table t = n)) (g_tables o)) as [j|] eqn:Ej; [|done]. cbn [mbind option_bind]. rewrite list_lookup_insert_ne; [done|]. intros ->.
    apply find_idx_Some in Ej as (x & Hx & Hp & _). apply bool_decide_eq_true in Hp. congruence.
Qed.
Lemma empty_table_ok n : table_ok (mk_table n [] [] 0).
Proof. constructor; cbn; try constructor; lia. Qed.
(** Finding or making a table changes the rows of none. *)
Lemma orm_table_spec n o : orm_ok o -> (length n < ORM_MAX_TABLE_NAME)%nat -> let '(ti, o') := orm_table n o in
  orm_ok o' /\ heap o' = heap o /\ g_meta_registry o' = g_meta_registry o /\ (forall m, rows_of o' m = rows_of o m) /\
  match ti with
  | Some i => find_idx (fun t => bool_decide (table t = n)) (g_tables o') = Some i /\ exists t, g_tables o' !! i = Some t /\ table_ok t /\ table t = n /\ rows t = rows_of o n
  | None => o' = o /\ rows_of o n = ∅
  end.
Proof.
  intros Hok Hn. unfold orm_table. destruct (find_idx (fun t => bool_decide (table t = n)) (g_tables o)) as [i|] eqn:Hf.
  - do 5 (split; [done|]). pose proof Hf as (t & Ht & Hp & _)%find_idx_Some. apply bool_decide_eq_true in Hp. exists t. split; [done|].
    split; [eapply Forall_lookup_1; done|]. split; [done|]. unfold rows_of. rewrite Hf. cbn. by rewrite Ht.
  - destruct (_ <=? _)%nat; [do 5 (split; [done|]); unfold rows_of; by rewrite Hf|]. rewrite truncated_id by done. set (t0 := mk_table n [] [] 0).
    assert (Hfind : forall m, find_idx (fun t => bool_decide (table t = m)) (g_tables o ++ [t0]) =
      match find_idx (fun t => bool_decide (table t = m)) (g_tables o) with Some i => Some i | None => if bool_decide (n = m) then Some (length (g_tables o)) else None end).
    { intros m. clear. generalize (g_tables o). induction l as [|x l IH]; cbn; [by destruct (bool_decide _)|]. destruct (bool_decide (table x = m)); [done|].
      rewrite IH. destruct (find_idx _ l); [done|]. by destruct (bool_decide _). }
    split; [apply Forall_app; split; [done|]; repeat constructor; apply empty_table_ok|]. split; [done|]. split; [done|]. split.
    + intros m. unfold rows_of. cbn. rewrite Hfind. destruct (find_idx (fun t => bool_decide (table t = m)) (g_tables o)) as [j|] eqn:Ej.
      * cbn. apply find_idx_Some in Ej as (x & Hx & _). by rewrite (lookup_app_l_Some _ _ _ _ Hx), Hx.
      * cbn. destruct (bool_decide (n = m)); [|done]. cbn. rewrite lookup_app_r, Nat.sub_diag by done. done.
    + cbn. rewrite Hfind, Hf, bool_decide_eq_true_2 by done. split; [done|]. exists t0. rewrite lookup_app_r, Nat.sub_diag by done. split; [done|].
      split; [apply empty_table_ok|]. split; [done|]. unfold rows_of. by rewrite Hf.
Qed.
(** Structures that fit a slot, and the object of the model, if it has one. *)
Definition has_room (o : orm) (m : ORMModel) : Prop :=
  (struct_size (meta m) <= ORM_MAX_DATA_SIZE)%nat /\ forall l, object m = Some l -> exists old, heap o !! l = Some old /\ (struct_size (meta m) <= length old)%nat.
Lemma load_row_fits m row o : has_room o m -> load_row m row o = Some match object m with
  | Some l => mk_orm (g_meta_registry o) (g_tables o) (alter (fun old => memcpy old row (struct_size (meta m))) l (heap o)) | None => o end.
Proof.
  intros [Hs Ho]. unfold load_row. destruct (object m) as [l|]; [|done]. destruct (Ho l eq_refl) as (old & Hl & Hlen). rewrite Hl. cbn [mbind option_bind].
  rewrite (proj2 (Nat.ltb_ge _ _)), (proj2 (Nat.ltb_ge _ _)) by done. cbn [orb]. do 2 f_equal. apply map_eq. intros k. destruct (decide (k = l)) as [->|Hne].
  - by rewrite lookup_insert_eq, lookup_alter_eq, Hl.
  - by rewrite lookup_insert_ne, lookup_alter_ne by done.
Qed.
Definition user_meta : ORMMeta := mk_meta (str_bytes "users") [mk_column (str_bytes "id") ORM_TYPE_INT 0 true true false []; mk_column (str_bytes "big") ORM_TYPE_INT64 0 false false false []; mk_column (str_bytes "name") ORM_TYPE_STRING 8 false false false []] 24 0.
Definition user (n : Z) (s : string) : list Z := [n; 0; 0; 0; 0; 0; 0; 0] ++ replicate 8 0 ++ take 8 (str_bytes s ++ replicate 8 0).
Definition users : orm := mk_orm [user_meta] [] {[1%positive := user 7 "ann"; 2%positive := user 8 "bob"]}.
Definition user_model : ORMModel := mk_model user_meta None true.

(** ** What the code does not do *)

(** A model keeps the address of the object it saved: finding another row overwrites it. *)
Example find_overwrites_saved : (
  '(_, m, o) ← orm_save user_model 1%positive users; '(_, m, o) ← orm_save m 2%positive o;
  '(_, o) ← orm_find m 1 o; Some (heap o !! 2%positive)) = Some (Some (user 7 "ann")).
Proof. vm_compute. reflexivity. Qed.
(** The rows survive a new start. *)
Theorem init_keeps_rows o n : rows_of (orm_init o) n = rows_of o n.
Proof. done. Qed.
(** Rows are never found by a column that is not a text. *)
Theorem find_by_number_never m column v o cols ci c : column_idx o (table_name (meta m)) column = Some (cols, ci) -> cols !! ci = Some c -> is_text c = false -> exists r o', orm_find_by m column v o = Some (r, o') /\ r < 0.
Proof.
  intros Hc Hcols Ht. unfold orm_find_by. destruct (orm_table (table_name (meta m)) o) as [ti o1] eqn:E.
  assert (column_idx o1 (table_name (meta m)) column = Some (cols, ci)) as ->.
  { rewrite <- Hc. unfold orm_table in E. destruct (find_idx _ _); [by simplify_eq|]. destruct (_ <=? _)%nat; by simplify_eq. }
  destruct (ti ≫= _) as [t|]; [|by eexists _, _]. destruct (find_idx _ _) as [r|] eqn:Ef; [|by eexists _, _]. exfalso. apply find_idx_Some in Ef as (x & _ & Hp & _).
  unfold row_has in Hp. by rewrite Hcols, Ht in Hp.
Qed.
Lemma find_by_number_never_witness : exists r o', orm_find_by user_model (str_bytes "id") (str_bytes "7") users = Some (r, o') /\ r < 0.
Proof. refine (find_by_number_never user_model (str_bytes "id") (str_bytes "7") users (columns user_meta) 0 (mk_column (str_bytes "id") ORM_TYPE_INT 0 true true false []) _ _ _); vm_compute; reflexivity. Defined.
(** The bytes the compiler leaves free before a 64 bit number are not counted: a text behind it
    is looked for at the wrong place. *)
Example padding_not_counted : offset (columns user_meta) 2 = 12 /\
  ('(_, m, o) ← orm_save user_model 1%positive users; '(r, _) ← orm_find_by m (str_bytes "name") (str_bytes "ann") o; Some r) = Some (-1).
Proof. vm_compute. split; reflexivity. Qed.
(** Of several columns only the last one is printed. *)
Example columns_lost : orm_query_generate (orm_query_select (orm_query_init (str_bytes "t")) [str_bytes "a"; str_bytes "b"]) [] 100 = Some (str_bytes "SELECT b FROM t").
Proof. vm_compute. reflexivity. Qed.
(** Without a condition, an order or a limit is glued to the name of the table. *)
Example order_glued : orm_query_generate (orm_query_limit (orm_query_order (orm_query_init (str_bytes "users")) (str_bytes "name") ORM_ORDER_ASC) 10 0) [] 100 = Some (str_bytes "SELECT * FROM usersORDER BY name ASC LIMIT 10 OFFSET 0").
Proof. vm_compute. reflexivity. Qed.
(** A quote in a value ends the text it stands in. *)
Example quote_not_escaped : orm_query_generate (orm_query_where (orm_query_init (str_bytes "users")) (str_bytes "name") ORM_OP_EQ ([120; 39] ++ str_bytes " OR " ++ [39; 49; 39; 61; 39; 49])) [] 100 =
  Some (str_bytes "SELECT * FROM users WHERE name = " ++ [39; 120; 39] ++ str_bytes " OR " ++ [39; 49; 39; 61; 39; 49; 39; 32]).
Proof. vm_compute. reflexivity. Qed.
