(* ===== verification/BackendMiddleware.v ===== *)
(** Model of [mini-backend-framework/src/middleware.c]: a doubly linked list of handlers that a
    request passes, and the request with its headers and its context; and the theorems on it.

    The nodes live in a heap, [nodes], with the next free address [next_loc]; following an
    address without a node is undefined ([None]).  Handlers are numbers that the parameter [run]
    gives a meaning; they do not change the list. *)

From stdpp Require Import gmap.
From S2P Require Import Prelude Bytes.
#[local] Open Scope Z_scope.

Definition MW_MAX_NAME : nat := 64.
Definition MW_MAX_CONTEXT_KEY : nat := 64.
Definition MW_MAX_CONTEXT_VAL : nat := 256.
Inductive MWMethod := MW_GET | MW_POST | MW_PUT | MW_DELETE | MW_PATCH.
Record MWKeyValue := mk_kv { key : list Z; value : list Z }.
Record MWRequest := mk_request { method : MWMethod; path : list Z; headers : list MWKeyValue; params : list MWKeyValue; body : list Z; context : list MWKeyValue; aborted : bool; status_code : Z; response_body : list Z }.
Definition loc : Type := nat.
Record MWNode := mk_node { handler : Z; name : list Z; next : option loc; prev : option loc }.
Record MWPipeline := mk_pipe { head : option loc; tail : option loc; count : Z; error_handler : option Z; nodes : gmap loc MWNode; next_loc : loc }.

Definition set_node (a : loc) (f : MWNode -> MWNode) (p : MWPipeline) : option MWPipeline := _ ← nodes p !! a; Some (p <| nodes ::= alter f a |>).
Definition set_next (a : loc) (b : option loc) : MWPipeline -> option MWPipeline := set_node a (fun n => n <| next := b |>).
Definition set_prev (a : loc) (b : option loc) : MWPipeline -> option MWPipeline := set_node a (fun n => n <| prev := b |>).
Definition calloc_node (nm : list Z) (h : Z) (p : MWPipeline) : loc * MWPipeline :=
  (next_loc p, p <| nodes ::= <[next_loc p := mk_node h (truncated MW_MAX_NAME nm) None None]> |> <| next_loc ::= S |>).
Definition mw_pipeline_init : MWPipeline := mk_pipe None None 0 None ∅ 0%nat.
(** Behind the last node. *)
Definition append_node (a : loc) (p : MWPipeline) : option MWPipeline :=
  match tail p with
  | Some t => p ← set_next t (Some a) p; p ← set_prev a (Some t) p; Some (p <| tail := Some a |> <| count ::= Z.add 1 |>)
  | None => Some (p <| head := Some a |> <| tail := Some a |> <| count ::= Z.add 1 |>)
  end.
Definition mw_use (nm : list Z) (h : Z) (p : MWPipeline) : option (Z * MWPipeline) := let '(a, p) := calloc_node nm h p in p ← append_node a p; Some (0, p).
Definition mw_on_error (h : option Z) (p : MWPipeline) : MWPipeline := p <| error_handler := h |>.
Fixpoint find_node (fuel : nat) (nm : list Z) (cur : option loc) (p : MWPipeline) : option (option loc) :=
  match fuel, cur with
  | O, _ => None
  | _, None => Some None
  | S fuel, Some a => n ← nodes p !! a; if bool_decide (name n = nm) then Some (Some a) else find_node fuel nm (next n) p
  end.
Definition unlink (a : loc) (p : MWPipeline) : option MWPipeline :=
  n ← nodes p !! a;
  p ← (match prev n with Some b => set_next b (next n) p | None => Some (p <| head := next n |>) end);
  n ← nodes p !! a;
  p ← (match next n with Some b => set_prev b (prev n) p | None => Some (p <| tail := prev n |>) end);
  Some (p <| nodes ::= delete a |> <| count ::= Z.add (-1) |>).
Definition mw_remove (nm : list Z) (p : MWPipeline) : option (Z * MWPipeline) :=
  r ← find_node (S (size (nodes p))) nm (head p) p;
  match r with Some a => p ← unlink a p; Some (0, p) | None => Some (-1, p) end.
Fixpoint advance (i : nat) (cur : option loc) (p : MWPipeline) : option (option loc) :=
  match i, cur with
  | O, _ => Some cur
  | _, None => Some None
  | S i, Some a => n ← nodes p !! a; advance i (next n) p
  end.
Definition mw_insert_at (pos : Z) (nm : list Z) (h : Z) (p0 : MWPipeline) : option (Z * MWPipeline) :=
  if pos <? 0 then Some (-1, p0)
  else
    let '(a, p) := calloc_node nm h p0 in
    if (pos =? 0) || (count p =? 0) then
      p ← set_next a (head p) p;
      p ← (match head p with Some b => set_prev b (Some a) p | None => Some p end);
      let p := p <| head := Some a |> in
      let p := match tail p with Some _ => p | None => p <| tail := Some a |> end in
      Some (0, p <| count ::= Z.add 1 |>)
    else if count p <=? pos then
      p ← set_prev a (tail p) p;
      p ← (match tail p with Some b => set_next b (Some a) p | None => Some p end);
      let p := p <| tail := Some a |> in
      let p := match head p with Some _ => p | None => p <| head := Some a |> end in
      Some (0, p <| count ::= Z.add 1 |>)
    else
      cur ← advance (Z.to_nat pos) (head p) p;
      match cur with
      | None => Some (-1, p <| nodes ::= delete a |>)
      | Some c =>
          p ← set_next a (Some c) p;
          n ← nodes p !! c;
          p ← set_prev a (prev n) p;
          p ← (match prev n with Some b => set_next b (Some a) p | None => Some (p <| head := Some a |>) end);
          p ← set_prev c (Some a) p;
          Some (0, p <| count ::= Z.add 1 |>)
      end.
Definition mw_count (p : MWPipeline) : Z := count p.
(** Every node is freed, the last one too. *)
Fixpoint free_from (fuel : nat) (cur : option loc) (p : MWPipeline) : option MWPipeline :=
  match fuel, cur with
  | O, _ => None
  | _, None => Some p
  | S fuel, Some a => n ← nodes p !! a; free_from fuel (next n) (p <| nodes ::= delete a |>)
  end.
Definition mw_pipeline_destroy (p : MWPipeline) : option MWPipeline :=
  p ← free_from (S (size (nodes p))) (head p) p; Some (mk_pipe None None 0 None (nodes p) (next_loc p)).

Section handlers.
Context (run : Z -> MWRequest -> Z * MWRequest).
Definition failed (p : MWPipeline) (req : MWRequest) : MWRequest :=
  let req := match error_handler p with Some h => (run h req).2 | None => req end in req <| aborted := true |>.
(** The second pass starts at the node where the first one ended, and visits none. *)
Fixpoint process_from (fuel : nat) (cur : option loc) (p : MWPipeline) (req : MWRequest) : option (Z * MWRequest) :=
  match fuel, cur with
  | O, _ => None
  | _, None => Some (0, req)
  | S fuel, Some a =>
      n ← nodes p !! a;
      let '(r, req) := run (handler n) req in
      if negb (r =? 0) then Some (r, failed p req) else if aborted req then Some (-2, req) else process_from fuel (next n) p req
  end.
Definition mw_process (p : MWPipeline) (req : MWRequest) : option (Z * MWRequest) := process_from (S (size (nodes p))) (head p) p req.
End handlers.

Definition mw_request_init (m : MWMethod) (p : option (list Z)) : MWRequest := mk_request m (truncated 256 (default [] p)) [] [] [] [] false 200 [].
Definition add_kv (k v : list Z) (l : list MWKeyValue) : list MWKeyValue :=
  if (16 <=? length l)%nat then l else l ++ [mk_kv (truncated MW_MAX_CONTEXT_KEY k) (truncated MW_MAX_CONTEXT_VAL v)].
Definition get_kv (k : list Z) (l : list MWKeyValue) : option (list Z) := value <$> (find_idx (fun x => bool_decide (key x = k)) l ≫= fun i => l !! i).
Definition mw_req_add_header (k v : list Z) (req : MWRequest) : MWRequest := req <| headers ::= add_kv k v |>.
Definition mw_req_add_param (k v : list Z) (req : MWRequest) : MWRequest := req <| params ::= add_kv k v |>.
Definition mw_req_set_ctx (k v : list Z) (req : MWRequest) : MWRequest := req <| context ::= add_kv k v |>.
Definition mw_req_get_ctx (req : MWRequest) (k : list Z) : option (list Z) := get_kv k (context req).
Definition mw_req_get_header (req : MWRequest) (k : list Z) : option (list Z) := get_kv k (headers req).
Definition mw_req_respond (data : list Z) (req : MWRequest) : MWRequest :=
  if 4095 <=? Z.of_nat (length (response_body req) + length data) then req else req <| response_body ::= fun b => b ++ data |>.
Definition mw_req_status (code : Z) (req : MWRequest) : MWRequest := req <| status_code := code |>.
Definition mw_method_string (m : MWMethod) : string := match m with MW_GET => "GET" | MW_POST => "POST" | MW_PUT => "PUT" | MW_DELETE => "DELETE" | MW_PATCH => "PATCH" end.

(** ** The list of handlers *)

(** The names and handlers [l], at these addresses, are linked in this order between [p] and [n]. *)
#[local] Notation cell := (loc * (list Z * Z))%type.
Definition first (l : list cell) (n : option loc) : option loc := match l with [] => n | x :: _ => Some x.1 end.
Definition final (l : list cell) (p : option loc) : option loc := match last l with Some x => Some x.1 | None => p end.
Fixpoint seg (h : gmap loc MWNode) (p : option loc) (l : list cell) (n : option loc) : Prop :=
  match l with
  | [] => True
  | x :: l => h !! x.1 = Some (mk_node x.2.2 x.2.1 (first l n) p) /\ seg h (Some x.1) l n
  end.
Lemma first_cells_app l l' n : first (l ++ l') n = first l (first l' n).
Proof. by destruct l. Qed.
Lemma final_cells_app l l' p : final (l ++ l') p = final l' (final l p).
Proof. unfold final. rewrite last_app. by destruct (last l'). Qed.
Lemma final_cons x l p : final (x :: l) p = final l (Some x.1).
Proof. apply (final_cells_app [x] l p). Qed.
Lemma seg_app h p l1 l2 n : seg h p (l1 ++ l2) n <-> seg h p l1 (first l2 n) /\ seg h (final l1 p) l2 n.
Proof. revert p. induction l1 as [|x l1 IH]; intros p; cbn [app seg]; [by intuition|]. rewrite IH, first_cells_app, final_cons. tauto. Qed.
Lemma seg_frame h h' p l n : (forall a, a ∈ l.*1 -> h' !! a = h !! a) -> seg h p l n -> seg h' p l n.
Proof.
  revert p. induction l as [|x l IH]; intros p Hf; cbn [seg]; [done|]. intros [Hx Hl]. split; [rewrite Hf; [done|left]|]. apply IH; [|done]. intros; apply Hf; by right.
Qed.
Lemma seg_insert h p l n a e : a ∉ l.*1 -> seg h p l n -> seg (<[a := e]> h) p l n.
Proof. intros Ha. apply seg_frame. intros b Hb. apply lookup_insert_ne. congruence. Qed.
Lemma seg_delete h p l n a : a ∉ l.*1 -> seg h p l n -> seg (delete a h) p l n.
Proof. intros Ha. apply seg_frame. intros b Hb. apply lookup_delete_ne. congruence. Qed.
(** The list behind the last node, and before the first one, can be changed. *)
Definition link_next (o : option loc) (n : option loc) (h : gmap loc MWNode) : gmap loc MWNode := match o with Some a => alter (fun e => e <| next := n |>) a h | None => h end.
Definition link_prev (o : option loc) (p : option loc) (h : gmap loc MWNode) : gmap loc MWNode := match o with Some a => alter (fun e => e <| prev := p |>) a h | None => h end.
Lemma link_next_other o n h b : o <> Some b -> link_next o n h !! b = h !! b.
Proof. intros Ho. destruct o as [a|]; [|done]. cbn. apply lookup_alter_ne. congruence. Qed.
Lemma link_prev_other o n h b : o <> Some b -> link_prev o n h !! b = h !! b.
Proof. intros Ho. destruct o as [a|]; [|done]. cbn. apply lookup_alter_ne. congruence. Qed.
Lemma link_next_is_Some o n h b : is_Some (link_next o n h !! b) <-> is_Some (h !! b).
Proof. destruct o as [a|]; [|done]. apply lookup_alter_is_Some. Qed.
Lemma link_prev_is_Some o n h b : is_Some (link_prev o n h !! b) <-> is_Some (h !! b).
Proof. destruct o as [a|]; [|done]. apply lookup_alter_is_Some. Qed.
Lemma final_None_mem l b : final l None = Some b -> b ∈ l.*1.
Proof. unfold final. destruct (last l) as [x|] eqn:E; [|done]. intros [= <-]. apply list_elem_of_fmap_2. apply last_Some in E as [l' ->]. apply elem_of_app. right. by left. Qed.
Lemma first_None_mem l b : first l None = Some b -> b ∈ l.*1.
Proof. destruct l as [|x l]; [done|]. intros [= <-]. left. Qed.
Lemma seg_link_next h p l n n' : NoDup l.*1 -> seg h p l n -> seg (link_next (final l None) n' h) p l n'.
Proof.
  intros Hnd Hs. destruct (decide (l = [])) as [->|Hne]; [done|]. destruct (exists_last Hne) as (l0 & x & ->). unfold final. rewrite last_snoc. cbn [link_next].
  rewrite fmap_app, NoDup_app in Hnd. destruct Hnd as (_ & Hx & _). apply seg_app in Hs as [Hl [He _]]. apply seg_app. split.
  - eapply seg_frame; [|exact Hl]. intros b Hb. apply lookup_alter_ne. intros <-. apply (Hx _ Hb). left.
  - split; [|done]. by rewrite lookup_alter_eq, He.
Qed.
Lemma seg_link_prev h p l n p' : NoDup l.*1 -> seg h p l n -> seg (link_prev (first l None) p' h) p' l n.
Proof.
  intros Hnd Hs. destruct l as [|x l]; [done|]. destruct Hs as [He Hl]. rewrite fmap_cons in Hnd. apply NoDup_cons in Hnd as [Hx _]. cbn [first link_prev seg]. split; [by rewrite lookup_alter_eq, He|].
  eapply seg_frame; [|exact Hl]. intros b Hb. apply lookup_alter_ne. congruence.
Qed.
(** A node put between two parts of the list, and one taken out. *)
Lemma seg_put h h' l1 l2 a nm f : NoDup (l1 ++ l2).*1 -> a ∉ (l1 ++ l2).*1 -> seg h None (l1 ++ l2) None ->
  h' !! a = Some (mk_node f nm (first l2 None) (final l1 None)) -> (forall b, b <> a -> h' !! b = link_next (final l1 None) (Some a) (link_prev (first l2 None) (Some a) h) !! b) ->
  seg h' None (l1 ++ (a, (nm, f)) :: l2) None.
Proof.
  rewrite fmap_app. intros (Hnd1 & Hdis & Hnd2)%NoDup_app Ha [Hs1 Hs2]%seg_app Hha Hhb. rewrite elem_of_app in Ha. apply seg_app. split; [|split; [done|]].
  - apply (seg_frame (link_next (final l1 None) (Some a) (link_prev (first l2 None) (Some a) h))); [intros b Hb; apply Hhb; intros ->; tauto|].
    eapply seg_link_next; [done|]. eapply seg_frame; [|exact Hs1]. intros b Hb. apply link_prev_other. intros E%first_None_mem. by apply (Hdis b).
  - apply (seg_frame (link_next (final l1 None) (Some a) (link_prev (first l2 None) (Some a) h))); [intros b Hb; apply Hhb; intros ->; tauto|].
    eapply seg_frame; [intros b Hb; apply link_next_other; intros E%final_None_mem; by apply (Hdis b)|]. by eapply seg_link_prev.
Qed.
Lemma seg_take_out h h' l1 x l2 : NoDup (l1 ++ x :: l2).*1 -> seg h None (l1 ++ x :: l2) None ->
  (forall b, b <> x.1 -> h' !! b = link_next (final l1 None) (first l2 None) (link_prev (first l2 None) (final l1 None) h) !! b) -> seg h' None (l1 ++ l2) None.
Proof.
  rewrite fmap_app, fmap_cons. intros (Hnd1 & Hdis & [Hx2 Hnd2]%NoDup_cons)%NoDup_app [Hs1 [He Hs2]]%seg_app Hhb.
  assert (Hne1 : forall b, b ∈ l1.*1 -> b <> x.1) by (intros b Hb ->; apply (Hdis _ Hb); left). assert (Hne2 : forall b, b ∈ l2.*1 -> b <> x.1) by (intros b Hb ->; done).
  apply seg_app. split.
  - apply (seg_frame (link_next (final l1 None) (first l2 None) (link_prev (first l2 None) (final l1 None) h))); [intros b Hb; apply Hhb; by apply Hne1|].
    eapply seg_link_next; [done|]. eapply seg_frame; [|exact Hs1]. intros b Hb. apply link_prev_other. intros E%first_None_mem. apply (Hdis b Hb). by right.
  - apply (seg_frame (link_next (final l1 None) (first l2 None) (link_prev (first l2 None) (final l1 None) h))); [intros b Hb; apply Hhb; by apply Hne2|].
    eapply seg_frame; [intros b Hb; apply link_next_other; intros E%final_None_mem; apply (Hdis b E); by right|]. by eapply seg_link_prev.
Qed.
(** The pipeline holds the handlers [l], in this order. *)
Record holds (p : MWPipeline) (l : list cell) : Prop := {
  hold_seg : seg (nodes p) None l None; hold_head : head p = first l None; hold_tail : tail p = final l None; hold_count : count p = Z.of_nat (length l);
  hold_nodup : NoDup l.*1; hold_fresh : forall a, is_Some (nodes p !! a) -> (a < next_loc p)%nat }.
Definition implements (p : MWPipeline) (ms : list (list Z * Z)) : Prop := exists l, holds p l /\ l.*2 = ms.
Lemma seg_mem h p l n x : seg h p l n -> x ∈ l -> is_Some (h !! x.1).
Proof. revert p. induction l as [|y l IH]; intros p; [by intros _ ?%elem_of_nil|]. intros [Hy Hl] [->|Hin]%elem_of_cons; [by eexists|by eapply IH]. Qed.
Lemma seg_size h p l n : NoDup l.*1 -> seg h p l n -> (length l <= size h)%nat.
Proof.
  intros Hnd Hseg. rewrite <- (length_fmap fst l), <- size_dom, <- (size_list_to_set (C := gset loc) l.*1) by done. apply subseteq_size.
  intros a. rewrite elem_of_list_to_set, elem_of_dom. intros (x & -> & Hx)%list_elem_of_fmap. by eapply seg_mem.
Qed.
Lemma holds_fresh_addr p l : holds p l -> next_loc p ∉ l.*1.
Proof. intros H (x & E & Hx)%list_elem_of_fmap. pose proof (hold_fresh p l H x.1 (seg_mem _ _ _ _ _ (hold_seg p l H) Hx)). lia. Qed.
Lemma init_holds : holds mw_pipeline_init [].
Proof. constructor; try done; [constructor|]. intros a [? E]. cbn in E. by rewrite lookup_empty in E. Qed.
Lemma set_node_Some a f p : is_Some (nodes p !! a) -> set_node a f p = Some (p <| nodes ::= alter f a |>).
Proof. intros [n E]. unfold set_node. by rewrite E. Qed.
(** Heaps that are the same at an address after the updates are computed there. *)
Ltac same_node := cbn; rewrite ?lookup_alter, ?lookup_insert, ?lookup_delete; repeat case_decide; simplify_eq; try done.
(** The pipeline with a new node that is not in the list. *)
Definition with_node (p : MWPipeline) (nm : list Z) (h : Z) : MWPipeline := (calloc_node nm h p).2.
Lemma with_node_in p nm h b : is_Some (nodes p !! b) \/ b = next_loc p -> is_Some (nodes (with_node p nm h) !! b).
Proof. intros Hb. cbn. rewrite lookup_insert. case_decide; [by eexists|]. by destruct Hb as [?| ->]. Qed.
Lemma final_In p l t : holds p l -> tail p = Some t -> is_Some (nodes p !! t) /\ t <> next_loc p.
Proof.
  intros H Ht. rewrite (hold_tail p l H) in Ht. apply final_None_mem in Ht. split; [|intros ->; by apply (holds_fresh_addr p l H)].
  apply list_elem_of_fmap in Ht as (x & -> & Hx). eapply seg_mem; [apply (hold_seg p l H)|done].
Qed.
(** The list with a new node in it. *)
Lemma holds_put p p' l1 l2 nm h : holds p (l1 ++ l2) -> let a := next_loc p in
  nodes p' !! a = Some (mk_node h nm (first l2 None) (final l1 None)) -> (forall b, b <> a -> nodes p' !! b = link_next (final l1 None) (Some a) (link_prev (first l2 None) (Some a) (nodes p)) !! b) ->
  head p' = first l1 (Some a) -> tail p' = final l2 (Some a) -> count p' = count p + 1 -> next_loc p' = S a -> holds p' (l1 ++ (a, (nm, h)) :: l2).
Proof.
  intros H a Ha Hb Hh Ht Hc Hn. pose proof (holds_fresh_addr _ _ H) as Hfr. destruct H as [Hs H1 H2 H3 Hnd Hf]. constructor.
  - by eapply seg_put.
  - by rewrite first_cells_app.
  - by rewrite final_cells_app, final_cons.
  - rewrite length_app. rewrite length_app in H3. cbn. lia.
  - rewrite fmap_app in Hnd, Hfr |- *. cbn. rewrite elem_of_app in Hfr. apply NoDup_app in Hnd as (Hn1 & Hd & Hn2). apply NoDup_app. split; [done|]. split.
    + intros b Hb1 [->|Hb2]%elem_of_cons; [tauto|]. by apply (Hd b).
    + apply NoDup_cons. tauto.
  - intros b Hsb. rewrite Hn. destruct (decide (b = a)) as [->|Hne]; [lia|]. rewrite Hb in Hsb by done. cut (b < a)%nat; [lia|]. apply Hf.
    by rewrite link_next_is_Some, link_prev_is_Some in Hsb.
Qed.
Lemma final_None_nil l : final l None = None -> l = [].
Proof. unfold final. destruct (last l) eqn:E; [done|]. by apply last_None in E. Qed.
Lemma mw_use_holds p l nm h : holds p l -> exists p', mw_use nm h p = Some (0, p') /\ holds p' (l ++ [(next_loc p, (truncated MW_MAX_NAME nm, h))]).
Proof.
  intros H. pose proof (hold_tail p l H) as Ht. pose proof (hold_head p l H) as Hh. unfold mw_use. change (calloc_node nm h p) with (next_loc p, with_node p nm h). cbn iota beta zeta. unfold append_node. change (tail (with_node p nm h)) with (tail p).
  destruct (tail p) as [t|] eqn:E.
  - destruct (final_In p l t H E) as [Hin Hne]. unfold set_next, set_prev. rewrite set_node_Some by (apply with_node_in; by left). cbn [mbind option_bind].
    rewrite set_node_Some by (apply lookup_alter_is_Some, with_node_in; by right). cbn [mbind option_bind]. eexists. split; [done|].
    rewrite <- (app_nil_r l) in H. apply (holds_put p _ l [] _ h H); cbn [nodes head tail count next_loc]; try done.
    + same_node. by rewrite Ht.
    + intros b Hb. rewrite <- Ht. same_node.
    + cbn. rewrite Hh. by destruct l.
    + cbn. lia.
  - symmetry in Ht. apply final_None_nil in Ht as ->. cbn [mbind option_bind]. eexists. split; [done|]. apply (holds_put p _ [] [] _ h H); cbn [nodes head tail count next_loc]; try done.
    + same_node.
    + intros b Hb. same_node.
    + cbn. lia.
Qed.
Lemma find_node_seg nm p : forall l fuel q, seg (nodes p) q l None -> (length l < fuel)%nat ->
  find_node fuel nm (first l None) p = Some ((fun x => x.1) <$> (find_idx (fun x => bool_decide (x.2.1 = nm)) l ≫= fun i => l !! i)).
Proof.
  induction l as [|x l IH]; intros fuel q Hs Hf; (destruct fuel as [|fuel]; [lia|]); [done|]. destruct Hs as [Hx Hs]. cbn [find_node first]. rewrite Hx. cbn [mbind option_bind name find_idx].
  destruct (bool_decide _); [done|]. cbn [next]. cbn in Hf. rewrite (IH fuel _ Hs) by lia. f_equal. f_equal. destruct (find_idx (fun x : loc * (list Z * Z) => bool_decide (x.2.1 = nm)) l); [done|]. done.
Qed.
Lemma unlink_holds p l1 x l2 : holds p (l1 ++ x :: l2) -> exists p', unlink x.1 p = Some p' /\ holds p' (l1 ++ l2).
Proof.
  intros H. pose proof H as [Hs Hh Ht Hc Hnd Hf]. pose proof Hs as [_ [Hx _]]%seg_app. pose proof Hnd as Hnd'. rewrite fmap_app, fmap_cons in Hnd'.
  apply NoDup_app in Hnd' as (Hn1 & Hdis & Hn2). apply NoDup_cons in Hn2 as [Hx2 Hn2].
  assert (Hin1 : forall b, final l1 None = Some b -> is_Some (nodes p !! b) /\ b <> x.1 /\ b ∉ l2.*1).
  { intros b Hb%final_None_mem. split; [|split; [intros ->; apply (Hdis _ Hb); left|intros Hb2; apply (Hdis _ Hb); by right]].
    apply list_elem_of_fmap in Hb as (y & -> & Hy). eapply seg_mem; [exact Hs|]. apply elem_of_app. by left. }
  assert (Hin2 : forall b, first l2 None = Some b -> is_Some (nodes p !! b) /\ b <> x.1).
  { intros b Hb%first_None_mem. split; [|by intros ->]. apply list_elem_of_fmap in Hb as (y & -> & Hy). eapply seg_mem; [exact Hs|]. apply elem_of_app. right. by right. }
  unfold unlink. rewrite Hx. cbn [mbind option_bind prev next].
  set (p1 := match final l1 None with Some b => p <| nodes ::= alter (fun n => n <| next := first l2 None |>) b |> | None => p <| head := first l2 None |> end).
  assert (match final l1 None with Some b => set_next b (first l2 None) p | None => Some (p <| head := first l2 None |>) end = Some p1) as ->.
  { unfold p1. destruct (final l1 None) as [b|]; [|done]. apply set_node_Some. by apply Hin1. }
  assert (Hn1' : nodes p1 = link_next (final l1 None) (first l2 None) (nodes p)) by (unfold p1; by destruct (final l1 None)).
  cbn [mbind option_bind]. rewrite Hn1', link_next_other, Hx by (intros E; by apply Hin1 in E as (_ & ? & _)). cbn [mbind option_bind prev next].
  set (p2 := match first l2 None with Some b => p1 <| nodes ::= alter (fun n => n <| prev := final l1 None |>) b |> | None => p1 <| tail := final l1 None |> end).
  assert (match first l2 None with Some b => set_prev b (final l1 None) p1 | None => Some (p1 <| tail := final l1 None |>) end = Some p2) as ->.
  { unfold p2. destruct (first l2 None) as [b|] eqn:E; [|done]. apply set_node_Some. rewrite Hn1', link_next_is_Some. by apply Hin2. }
  cbn [mbind option_bind]. eexists. split; [done|].
  assert (Hn2' : nodes p2 = link_prev (first l2 None) (final l1 None) (nodes p1)) by (unfold p2; by destruct (first l2 None)).
  constructor; cbn [nodes head tail count next_loc].
  - eapply (seg_take_out (nodes p)); [exact Hnd|exact Hs|]. intros b Hb. transitivity (nodes p2 !! b); [by apply lookup_delete_ne|]. rewrite Hn2', Hn1'.
    destruct (final l1 None) as [a|] eqn:E1, (first l2 None) as [c|] eqn:E2; cbn [link_next link_prev]; try done.
    assert (a <> c) by (intros ->; destruct (Hin1 c eq_refl) as (_ & _ & E3); by apply first_None_mem in E2). same_node.
  - transitivity (match final l1 None with Some _ => head p | None => first l2 None end).
    { unfold p2, p1. by destruct (first l2 None), (final l1 None). }
    destruct (final l1 None) eqn:E; [|by apply final_None_nil in E as ->]. rewrite Hh. by destruct l1.
  - transitivity (match first l2 None with Some _ => tail p | None => final l1 None end).
    { unfold p2, p1. by destruct (first l2 None), (final l1 None). }
    destruct l2 as [|y l2]; [by rewrite app_nil_r|]. cbn [first]. by rewrite Ht, !final_cells_app, !final_cons.
  - transitivity (count p + -1). { unfold p2, p1. destruct (first l2 None), (final l1 None); cbn; lia. }
    rewrite Hc, !length_app. cbn. lia.
  - rewrite fmap_app. apply NoDup_app. split; [done|]. split; [|done]. intros b Hb Hb2. apply (Hdis b Hb). by right.
  - intros b Hb. replace (next_loc _) with (next_loc p) by (unfold p2, p1; by destruct (first l2 None), (final l1 None)). apply Hf.
    change (is_Some (delete x.1 (nodes p2) !! b)) in Hb. rewrite lookup_delete in Hb. case_decide; [by destruct Hb|]. by rewrite Hn2', Hn1', link_prev_is_Some, link_next_is_Some in Hb.
Qed.
(** The ends and the count of a pipeline whose nodes were changed. *)
Ltac ends p := repeat match goal with
  | |- context [head ?q] => lazymatch q with p => fail | _ => progress change (head q) with (head p) end
  | |- context [tail ?q] => lazymatch q with p => fail | _ => progress change (tail q) with (tail p) end
  | |- context [count ?q] => lazymatch q with p => fail | _ => progress change (count q) with (count p) end
  end.
Lemma advance_seg p l : forall i q, seg (nodes p) q l None -> advance i (first l None) p = Some (first (drop i l) None).
Proof.
  induction l as [|x l IH]; intros i q Hs; [by destruct i|]. destruct i as [|i]; [done|]. destruct Hs as [Hx Hs]. cbn [advance first]. rewrite Hx. cbn. by eapply IH.
Qed.
Lemma elem_in p l b : holds p l -> b ∈ l.*1 -> is_Some (nodes p !! b) /\ b <> next_loc p.
Proof.
  intros H Hb. split; [|intros ->; by apply (holds_fresh_addr p l H)]. apply list_elem_of_fmap in Hb as (x & -> & Hx). eapply seg_mem; [apply (hold_seg p l H)|done].
Qed.
Lemma mw_insert_at_holds p l pos nm h : 0 <= pos -> holds p l -> let n := Z.to_nat pos in
  exists p', mw_insert_at pos nm h p = Some (0, p') /\ holds p' (take n l ++ (next_loc p, (truncated MW_MAX_NAME nm, h)) :: drop n l).
Proof.
  intros Hpos H n. unfold mw_insert_at. rewrite (proj2 (Z.ltb_ge pos 0)) by done. change (calloc_node nm h p) with (next_loc p, with_node p nm h). cbn iota beta zeta.
  change (count (with_node p nm h)) with (count p). change (head (with_node p nm h)) with (head p). change (tail (with_node p nm h)) with (tail p).
  pose proof (hold_count p l H) as Hc. pose proof (hold_head p l H) as Hh. pose proof (hold_tail p l H) as Ht. unfold set_next, set_prev.
  destruct ((pos =? 0) || (count p =? 0)) eqn:Efirst.
  { assert (take n l = [] /\ drop n l = l) as [-> ->].
    { apply orb_true_iff in Efirst as [?|?]; [by assert (n = 0%nat) as -> by lia|]. destruct l; [by destruct n|cbn in Hc; lia]. }
    rewrite set_node_Some by (apply with_node_in; by right). cbn [mbind option_bind]. ends p. destruct l as [|x l].
    - rewrite Hh. cbn [first mbind option_bind]. ends p. rewrite Ht. eexists. split; [done|]. apply (holds_put p _ [] [] _ h H); try done.
      + same_node.
      + intros b Hb. same_node.
      + cbn. lia.
    - destruct (elem_in p _ x.1 H) as [Hin Hne]; [left|]. rewrite Hh. cbn [first]. rewrite set_node_Some by (apply lookup_alter_is_Some, with_node_in; by left). cbn [mbind option_bind]. ends p.
      destruct (tail p) as [t|] eqn:Et; [|symmetry in Ht; by apply final_None_nil in Ht].
      eexists. split; [done|]. apply (holds_put p _ [] (x :: l) _ h H); try done.
      + same_node.
      + intros b Hb. same_node.
      + cbn. rewrite Et, Ht. unfold final. by destruct (last (x :: l)) eqn:El; [|apply last_None in El].
      + cbn. lia. }
  destruct (Z.leb_spec (count p) pos) as [Hle|Hlt].
  { assert (take n l = l /\ drop n l = []) as [-> ->] by (rewrite take_ge, drop_ge by lia; done). apply orb_false_iff in Efirst as [_ Ecount].
    destruct l as [|x0 l0] eqn:El; [cbn in Hc; lia|]. rewrite <- El in *. clear El.
    rewrite set_node_Some by (apply with_node_in; by right). cbn [mbind option_bind]. ends p.
    destruct (tail p) as [t|] eqn:Et; [|symmetry in Ht; apply final_None_nil in Ht; subst; cbn in Hc; lia].
    destruct (final_In p l t H Et) as [Hin Hne]. rewrite set_node_Some by (apply lookup_alter_is_Some, with_node_in; by left). cbn [mbind option_bind]. ends p.
    destruct (head p) as [hd|] eqn:Eh; [|destruct l; [cbn in Hc; lia|done]].
    eexists. split; [done|]. rewrite <- (app_nil_r l) in H. apply (holds_put p _ l [] _ h H); try done.
    + same_node. by rewrite Ht.
    + intros b Hb. rewrite <- Ht. same_node.
    + cbn. rewrite Eh, Hh. by destruct l; [cbn in Hc; lia|].
    + cbn. lia. }
  rewrite <- (take_drop n l) in H. set (l1 := take n l) in *. destruct (drop n l) as [|x l2] eqn:El2.
  { assert (length (drop n l) = 0%nat) as El by by rewrite El2. rewrite length_drop in El. lia. }
  pose proof (hold_seg _ _ H) as Hs. apply seg_app in Hs as [_ [Hx _]]. pose proof (hold_nodup _ _ H) as Hnd. rewrite fmap_app, fmap_cons in Hnd.
  assert (Hl1 : l1 <> []) by (intros E; apply (f_equal length) in E; unfold l1 in E; rewrite length_take in E; cbn in E; lia).
  destruct (elem_in p _ x.1 H) as [Hinx Hnex]; [rewrite fmap_app; apply elem_of_app; right; left|].
  destruct (final l1 None) as [b|] eqn:Eb; [|by apply final_None_nil in Eb]. pose proof (final_None_mem _ _ Eb) as Hb.
  destruct (elem_in p _ b H) as [Hinb Hneb]; [rewrite fmap_app; apply elem_of_app; by left|].
  assert (Hbx : b <> x.1) by (intros ->; apply NoDup_app in Hnd as (_ & Hd & _); apply (Hd _ Hb); left).
  rewrite Hh, (advance_seg _ l n None). 2: { apply seg_insert; [|by rewrite <- (take_drop n l), El2; apply (hold_seg _ _ H)]. pose proof (holds_fresh_addr _ _ H) as Hf. rewrite <- El2 in Hf. unfold l1 in Hf. by rewrite take_drop in Hf. }
  rewrite El2. cbn [first mbind option_bind]. rewrite set_node_Some by (apply with_node_in; by right). cbn [mbind option_bind].
  replace (nodes _ !! x.1) with (Some (mk_node x.2.2 x.2.1 (first l2 None) (Some b))) by (symmetry; cbn; by rewrite lookup_alter_ne, lookup_insert_ne).
  cbn [mbind option_bind prev]. rewrite set_node_Some by (apply lookup_alter_is_Some, with_node_in; by right). cbn [mbind option_bind].
  rewrite set_node_Some by (do 2 apply lookup_alter_is_Some; apply with_node_in; by left). cbn [mbind option_bind].
  rewrite set_node_Some by (do 3 apply lookup_alter_is_Some; apply with_node_in; by left). cbn [mbind option_bind].
  eexists. split; [done|]. apply (holds_put p _ l1 (x :: l2) _ h H); try done.
  - same_node. by rewrite Eb.
  - intros y Hy. rewrite Eb. same_node.
  - cbn. rewrite Hh, <- (take_drop n l). fold l1. by destruct l1.
  - cbn. rewrite Ht, <- (take_drop n l), El2, final_cells_app, !final_cons. done.
  - cbn. lia.
Qed.

(** ** What the pipeline does *)

(** The handlers one after the other, until one fails or the request is aborted. *)
Fixpoint run_all (run : Z -> MWRequest -> Z * MWRequest) (p : MWPipeline) (hs : list Z) (req : MWRequest) : Z * MWRequest :=
  match hs with
  | [] => (0, req)
  | h :: hs => let '(r, req) := run h req in if negb (r =? 0) then (r, failed run p req) else if aborted req then (-2, req) else run_all run p hs req
  end.
Lemma process_seg run p l : forall fuel q req, seg (nodes p) q l None -> (length l < fuel)%nat -> process_from run fuel (first l None) p req = Some (run_all run p l.*2.*2 req).
Proof.
  induction l as [|x l IH]; intros fuel q req Hs Hf; (destruct fuel as [|fuel]; [lia|]); [done|]. destruct Hs as [Hx Hs]. cbn [process_from first]. rewrite Hx. cbn.
  destruct (run x.2.2 req) as [r req']. destruct (r =? 0); [|done]. cbn [negb]. destruct (aborted req'); [done|]. cbn in Hf. eapply IH; [done|lia].
Qed.
Lemma free_seg l : forall fuel q p, NoDup l.*1 -> seg (nodes p) q l None -> (length l < fuel)%nat -> exists p', free_from fuel (first l None) p = Some p' /\ next_loc p' = next_loc p /\
  forall b, is_Some (nodes p' !! b) -> is_Some (nodes p !! b).
Proof.
  induction l as [|x l IH]; intros fuel q p Hnd Hs Hf; (destruct fuel as [|fuel]; [lia|]); [by exists p|]. destruct Hs as [Hx Hs]. cbn [free_from first]. rewrite Hx. cbn [mbind option_bind next].
  cbn in Hnd, Hf. apply NoDup_cons in Hnd as [Hn Hnd]. destruct (IH fuel (Some x.1) (p <| nodes ::= delete x.1 |>) Hnd) as (p' & -> & Hnx & Hin); [by apply seg_delete|lia|].
  exists p'. split; [done|]. split; [done|]. intros b Hb%Hin. cbn in Hb. rewrite lookup_delete in Hb. case_decide; [by destruct Hb|done].
Qed.
Lemma find_idx_fmap {A B} (f : A -> B) (q : B -> bool) l : find_idx q (f <$> l) = find_idx (fun x => q (f x)) l.
Proof. induction l as [|x l IH]; [done|]. cbn. by rewrite IH. Qed.
(** C11: The linked nodes are a list of names and handlers: a use appends to it, an insertion puts
    the handler at its place, or at the end, a removal takes out the first of the name, and
    processing runs the handlers in the order of the list; no operation follows a wrong address. *)
Theorem mw_refines_list p ms : implements p ms ->
  (forall nm h, exists p', mw_use nm h p = Some (0, p') /\ implements p' (ms ++ [(truncated MW_MAX_NAME nm, h)])) /\
  (forall pos nm h, 0 <= pos -> exists p', mw_insert_at pos nm h p = Some (0, p') /\ implements p' (take (Z.to_nat pos) ms ++ (truncated MW_MAX_NAME nm, h) :: drop (Z.to_nat pos) ms)) /\
  (forall nm, exists r p', mw_remove nm p = Some (r, p') /\
    match find_idx (fun m => bool_decide (m.1 = nm)) ms with Some i => r = 0 /\ implements p' (delete i ms) | None => r = -1 /\ p' = p end) /\
  (exists p', mw_pipeline_destroy p = Some p' /\ implements p' []) /\
  (forall run req, mw_process run p req = Some (run_all run p ms.*2 req)).
Proof.
  intros (l & H & <-). pose proof (hold_seg p l H) as Hs. pose proof (seg_size _ _ _ _ (hold_nodup p l H) Hs) as Hsize. apply Nat.lt_succ_r in Hsize. split; [|split; [|split; [|split]]].
  - intros nm h. destruct (mw_use_holds p l nm h H) as (p' & E & H'). exists p'. split; [done|]. eexists. split; [exact H'|]. by rewrite fmap_app.
  - intros pos nm h Hpos. destruct (mw_insert_at_holds p l pos nm h Hpos H) as (p' & E & H'). exists p'. split; [done|]. eexists. split; [exact H'|].
    by rewrite fmap_app, fmap_cons, fmap_take, fmap_drop.
  - intros nm. unfold mw_remove. rewrite (hold_head p l H), (find_node_seg nm p l _ None Hs) by exact Hsize. rewrite find_idx_fmap.
    destruct (find_idx (fun x : loc * (list Z * Z) => bool_decide (x.2.1 = nm)) l) as [i|] eqn:E; cbn [mbind option_bind fmap option_fmap option_map]; [|by exists (-1), p].
    apply find_idx_Some in E as (x & Hi & _ & _). rewrite Hi. cbn [fmap option_fmap option_map]. pose proof (take_drop_middle l i x Hi) as El.
    rewrite <- El in H. destruct (unlink_holds _ _ _ _ H) as (p' & -> & H'). cbn [mbind option_bind]. exists 0, p'. split; [done|]. split; [done|].
    eexists. split; [exact H'|]. rewrite delete_take_drop, fmap_app, fmap_take, fmap_drop. done.
  - unfold mw_pipeline_destroy. rewrite (hold_head p l H). destruct (free_seg l (S (size (nodes p))) None p (hold_nodup p l H) Hs) as (p' & -> & Hn & Hin); [exact Hsize|].
    cbn [mbind option_bind]. eexists. split; [done|]. exists []. split; [|done]. constructor; try done; [constructor|]. intros b Hb. cbn in *. rewrite Hn. apply (hold_fresh p l H). by apply Hin.
  - intros run req. unfold mw_process. rewrite (hold_head p l H). by apply (process_seg run p l _ None).
Qed.
Lemma mw_refines_list_witness : exists p', mw_use (str_bytes "log") 7 mw_pipeline_init = Some (0, p') /\ implements p' ([] ++ [(truncated MW_MAX_NAME (str_bytes "log"), 7)]).
Proof. refine (proj1 (mw_refines_list mw_pipeline_init [] _) (str_bytes "log") 7). exists []. split; [apply init_holds|reflexivity]. Defined.
(** A response that does not fit is left as it was; else the text is appended, and the buffer
    always keeps room for its end. *)
Theorem mw_req_respond_correct data req : Z.of_nat (length (response_body req)) < 4095 -> let req' := mw_req_respond data req in
  response_body req' = (if Z.of_nat (length (response_body req) + length data) <? 4095 then response_body req ++ data else response_body req) /\ Z.of_nat (length (response_body req')) < 4095.
Proof.
  intros H req'. unfold req', mw_req_respond. destruct (Z.leb_spec 4095 (Z.of_nat (length (response_body req) + length data))).
  - rewrite (proj2 (Z.ltb_ge _ _)) by lia. done.
  - rewrite (proj2 (Z.ltb_lt _ _)) by lia. cbn. split; [done|]. rewrite length_app. lia.
Qed.
Lemma mw_req_respond_correct_witness : response_body (mw_req_respond (str_bytes "ok") (mw_request_init MW_GET None)) = str_bytes "ok".
Proof. refine (proj1 (mw_req_respond_correct (str_bytes "ok") (mw_request_init MW_GET None) _)). vm_compute. reflexivity. Defined.

(** ** What the code does not do *)

(** A value of the context that is set again keeps its first value. *)
Theorem ctx_set_ignored k v v' req : (length (context req) < 15)%nat -> (length k < MW_MAX_CONTEXT_KEY)%nat -> mw_req_get_ctx (mw_req_set_ctx k v req) k = mw_req_get_ctx (mw_req_set_ctx k v' (mw_req_set_ctx k v req)) k.
Proof.
  intros Hl Hk. unfold mw_req_get_ctx, mw_req_set_ctx. cbn [context]. 
  assert (Hadd : forall l w, (length l < 16)%nat -> add_kv k w l = l ++ [mk_kv k (truncated MW_MAX_CONTEXT_VAL w)]).
  { intros l w H. unfold add_kv. rewrite (proj2 (Nat.leb_gt 16 (length l))) by done. by rewrite truncated_id. }
  change (get_kv k (add_kv k v (context req)) = get_kv k (add_kv k v' (add_kv k v (context req)))). rewrite (Hadd (context req)) by lia. rewrite Hadd by (rewrite length_app; cbn; lia).
  unfold get_kv. generalize (context req). intros l. induction l as [|x l IH]; cbn.
  - by rewrite bool_decide_eq_true_2.
  - destruct (bool_decide (key x = k)); [done|]. do 2 destruct (find_idx _ _); cbn in IH |- *; done.
Qed.
Lemma ctx_set_ignored_witness : let r := mw_req_set_ctx [107] [49] (mw_request_init MW_GET None) in mw_req_get_ctx r [107] = mw_req_get_ctx (mw_req_set_ctx [107] [50] r) [107].
Proof. refine (ctx_set_ignored [107] [49] [50] (mw_request_init MW_GET None) _ _); vm_compute; lia. Defined.
(** What the handlers passed before a failing one have done is not undone: none of them is
    called again. *)
Example no_unwinding : let run h req := (if h =? 2 then 1 else 0, req <| response_body ::= fun b => b ++ [h] |>) in
  (p ← mw_use [97] 1 mw_pipeline_init; p ← mw_use [98] 2 p.2; p ← mw_use [99] 3 p.2; mw_process run p.2 (mw_request_init MW_GET None)) =
  Some (1, (mw_request_init MW_GET None) <| response_body := [1; 2] |> <| aborted := true |>).
Proof. vm_compute. reflexivity. Qed.
