(* ===== verification/Mvc.v ===== *)
(** Model of [mini-backend-framework/src/mvc_pattern.c]: models with rules for their fields,
    templates with variables, and the routes of a controller; and the theorems on them.

    The writes behind the array of error texts are undefined ([None]).  Actions are numbers that
    the parameter [run] of the dispatch gives a meaning. *)

From S2P Require Import Prelude Bytes.
#[local] Open Scope Z_scope.

Definition MVC_MAX_ROUTES : nat := 64.
Definition MVC_MAX_PARAMS : nat := 16.
Definition MVC_MAX_VIEW_SIZE : Z := 8192.
Definition MVC_MAX_VAR_NAME : nat := 64.
Definition MVC_MAX_VAR_VALUE : nat := 256.
Definition MVC_PATH_LEN : nat := 256.
Definition MVC_ACTION_NAME_LEN : nat := 64.
#[global] Arguments MVC_MAX_VAR_VALUE : simpl never.
#[global] Arguments MVC_MAX_VAR_NAME : simpl never.
Inductive MVCHttpMethod := MVC_GET | MVC_POST | MVC_PUT | MVC_DELETE | MVC_PATCH.
#[export] Instance MVCHttpMethod_eq_dec : EqDecision MVCHttpMethod.
Proof. solve_decision. Defined.
Record MVCParam := mk_param { p_name : list Z; p_value : list Z }.
Record MVCField := mk_field { f_name : list Z; f_value : list Z; required : bool; min_length : Z; max_length : Z; pattern : list Z }.
Record MVCModel := mk_model { name : list Z; fields : list MVCField; is_valid : bool; errors : list (list Z) }.
Record MVCView := mk_view { template_content : option (list Z); variables : list MVCParam; rendered : list Z }.
Definition MVCAction : Type := Z.
Record MVCRoute := mk_route { path : list Z; r_name : list Z; method : MVCHttpMethod; handler : MVCAction }.
Definition MVCController : Type := list MVCRoute.

Definition mvc_method_string (m : MVCHttpMethod) : string := match m with MVC_GET => "GET" | MVC_POST => "POST" | MVC_PUT => "PUT" | MVC_DELETE => "DELETE" | MVC_PATCH => "PATCH" end.

(** ** Models *)

Definition mvc_model_init (nm : list Z) : MVCModel := mk_model (truncated MVC_MAX_VAR_NAME nm) [] true [].
Definition add_field (m : MVCModel) (f : MVCField) : MVCModel := if (MVC_MAX_PARAMS <=? length (fields m))%nat then m else m <| fields ::= fun l => l ++ [f] |>.
Definition mvc_model_add_field (m : MVCModel) (nm : list Z) (req : bool) (min max : Z) (pat : option (list Z)) : MVCModel :=
  add_field m (mk_field (truncated MVC_MAX_VAR_NAME nm) [] req min max (match pat with Some p => truncated 128 p | None => [] end)).
Definition field_idx (m : MVCModel) (nm : list Z) : option nat := find_idx (fun f => bool_decide (f_name f = nm)) (fields m).
Definition mvc_model_set (m : MVCModel) (field v : list Z) : MVCModel :=
  match field_idx m field with
  | Some i => m <| fields ::= alter (fun f => f <| f_value := truncated MVC_MAX_VAR_VALUE v |>) i |>
  | None => add_field m (mk_field (truncated MVC_MAX_VAR_NAME field) (truncated MVC_MAX_VAR_VALUE v) false 0 0 [])
  end.
Definition mvc_model_get (m : MVCModel) (field : list Z) : option (list Z) := i ← field_idx m field; f_value <$> fields m !! i.
Definition is_lower (c : Z) : bool := (97 <=? c) && (c <=? 122).
Definition is_upper (c : Z) : bool := (65 <=? c) && (c <=? 90).
Definition matches_pattern (text pat : list Z) : bool :=
  if bool_decide (pat = []) then true
  else if bool_decide (pat = str_bytes "alphanumeric") then forallb (fun c => is_lower c || is_upper c || is_digit c) text
  else if bool_decide (pat = str_bytes "alpha") then forallb (fun c => is_lower c || is_upper c) text
  else if bool_decide (pat = str_bytes "numeric") then negb (bool_decide (text = [])) && forallb is_digit text
  else true.

(** The character 39 is the quote. *)
Definition named (f : MVCField) : list Z := str_bytes "Field " ++ [39] ++ f_name f ++ [39].
Definition required_error (f : MVCField) : list Z := truncated 256 (named f ++ str_bytes " is required").
Definition length_error (f : MVCField) (which : string) (limit : Z) : list Z :=
  truncated 256 (named f ++ str_bytes which ++ print_lld limit ++ str_bytes " (got " ++ print_lld (Z.of_nat (length (f_value f))) ++ [41]).
Definition pattern_error (f : MVCField) : list Z := truncated 256 (named f ++ str_bytes " does not match pattern " ++ [39] ++ pattern f ++ [39]).
#[global] Arguments required_error : simpl never.
#[global] Arguments length_error : simpl never.
#[global] Arguments pattern_error : simpl never.
Definition push_error (e : list Z) (m : MVCModel) : option MVCModel := if (MVC_MAX_PARAMS <=? length (errors m))%nat then None else Some (m <| errors ::= fun l => l ++ [e] |> <| is_valid := false |>).
Definition push_when (b : bool) (e : list Z) (m : MVCModel) : option MVCModel := if b then push_error e m else Some m.
Fixpoint validate_fields (fs : list MVCField) (m : MVCModel) : option MVCModel :=
  match fs with
  | [] => Some m
  | f :: fs =>
      let len := Z.of_nat (length (f_value f)) in
      if required f && (len =? 0) then m ← push_error (required_error f) m; validate_fields fs m
      else if 0 <? len then
        m ← push_when ((0 <? min_length f) && (len <? min_length f)) (length_error f " min length is " (min_length f)) m;
        m ← push_when ((0 <? max_length f) && (max_length f <? len)) (length_error f " max length is " (max_length f)) m;
        m ← push_when (negb (bool_decide (pattern f = [])) && negb (matches_pattern (f_value f) (pattern f))) (pattern_error f) m;
        if (MVC_MAX_PARAMS <=? length (errors m))%nat then Some m else validate_fields fs m
      else validate_fields fs m
  end.
Definition mvc_model_validate (m : MVCModel) : option (Z * MVCModel) :=
  m ← validate_fields (fields m) (m <| is_valid := true |> <| errors := [] |>); Some (if is_valid m then 0 else -1, m).

(** ** Views *)

Definition mvc_view_init : MVCView := mk_view None [] [].
Definition mvc_view_set_template (v : MVCView) (content : option (list Z)) : MVCView := v <| template_content := content |>.
Definition mvc_view_assign (v : MVCView) (nm val : list Z) : MVCView :=
  if (MVC_MAX_PARAMS <=? length (variables v))%nat then v else v <| variables ::= fun l => l ++ [mk_param (truncated MVC_MAX_VAR_NAME nm) (truncated MVC_MAX_VAR_VALUE val)] |>.
Fixpoint skip_char (c : Z) (s : list Z) : list Z := match s with x :: s' => if x =? c then skip_char c s' else s | [] => [] end.
(** Up to [room] characters before a closing brace, 125; and the rest. *)
Fixpoint read_name (room : nat) (s : list Z) : list Z * list Z :=
  match room, s with
  | S room, x :: s' => if x =? 125 then ([], s) else let '(n, r) := read_name room s' in (x :: n, r)
  | _, _ => ([], s)
  end.
Definition strip_back (s : list Z) : list Z := rev (skip_char 32 (rev s)).
(** The closing braces, and the spaces between and behind them. *)
Definition skip_close (s : list Z) : list Z := drop_while (fun x => (x =? 32) || (x =? 125)) s.
Definition variable (v : MVCView) (nm : list Z) : option (list Z) := i ← find_idx (fun p => bool_decide (p_name p = nm)) (variables v); p_value <$> variables v !! i.
(** A variable, at the text behind its opening braces; and the text behind it. *)
Definition place (v : MVCView) (s dst : list Z) : list Z * list Z :=
  let '(nm, s) := read_name (MVC_MAX_VAR_NAME - 1) (skip_char 32 s) in
  (skip_close s, match variable v (strip_back nm) with
    | Some r => if Z.of_nat (length dst + length r) <? MVC_MAX_VIEW_SIZE - 1 then dst ++ r else dst
    | None => dst
    end).
(** The character 123 is an opening brace. *)
Fixpoint render_from (fuel : nat) (v : MVCView) (src dst : list Z) : option (list Z) :=
  match fuel with
  | O => None
  | S fuel =>
      match src with
      | [] => Some dst
      | c :: src' =>
          if negb (Z.of_nat (length dst) <? MVC_MAX_VIEW_SIZE - 1) then Some dst
          else
            match src' with
            | d :: src'' => if (c =? 123) && (d =? 123) then let '(s, dst) := place v src'' dst in render_from fuel v s dst else render_from fuel v src' (dst ++ [c])
            | [] => render_from fuel v src' (dst ++ [c])
            end
      end
  end.
Definition mvc_view_render (v : MVCView) : option (Z * MVCView) :=
  match template_content v with
  | None => Some (-1, v)
  | Some t => out ← render_from (S (length t)) v t []; Some (Z.of_nat (length out), v <| rendered := out |>)
  end.
Definition mvc_view_output (v : MVCView) : list Z := rendered v.

(** ** Controllers *)

Definition mvc_controller_init : MVCController := [].
Definition mvc_register_route (c : MVCController) (m : MVCHttpMethod) (pth nm : list Z) (h : MVCAction) : Z * MVCController :=
  if (MVC_MAX_ROUTES <=? length c)%nat then (-1, c) else (0, c ++ [mk_route (truncated MVC_PATH_LEN pth) (truncated MVC_ACTION_NAME_LEN nm) m h]).
(** Behind the closing brace, or at the end. *)
Definition skip_param (s : list Z) : list Z := match drop_while (fun x => negb (x =? 125)) s with [] => [] | _ :: s => s end.
Fixpoint path_matches (fuel : nat) (route request : list Z) : option bool :=
  match fuel with
  | O => None
  | S fuel =>
      match route, request with
      | c :: route', d :: request' =>
          if c =? 123 then path_matches fuel (skip_param route') (drop_while (fun x => negb (x =? 47)) request)
          else if negb (c =? d) then Some false else path_matches fuel route' request'
      | [], [] => Some true
      | _, _ => Some false
      end
  end.
Definition matches (route request : list Z) : option bool := path_matches (S (length route)) route request.
Fixpoint mvc_dispatch {T} (run : MVCAction -> T -> Z * T) (c : MVCController) (m : MVCHttpMethod) (pth : list Z) (s : T) : option (Z * T) :=
  match c with
  | [] => Some (-1, s)
  | r :: c =>
      if bool_decide (method r = m) then (match matches (path r) pth with None => None | Some true => Some (run (handler r) s) | Some false => mvc_dispatch run c m pth s end)
      else mvc_dispatch run c m pth s
  end.

(** ** Paths *)

(** A part of a route: a text or a parameter; a path is its parts, each behind a slash. *)
Inductive part := Literal (s : list Z) | Param (n : list Z).
Definition part_text (p : part) : list Z := match p with Literal s => s | Param n => [123] ++ n ++ [125] end.
Definition path_text (ps : list (list Z)) : list Z := mjoin ((fun s => 47 :: s) <$> ps).
Definition part_ok (p : part) : Prop := match p with Literal s => 123 ∉ s /\ 47 ∉ s | Param n => 125 ∉ n end.
Definition part_matches (p : part) (s : list Z) : bool := match p with Literal l => bool_decide (l = s) | Param _ => true end.
Fixpoint parts_match (ps : list part) (ss : list (list Z)) : bool :=
  match ps, ss with [], [] => true | p :: ps, s :: ss => part_matches p s && parts_match ps ss | _, _ => false end.
Lemma path_matches_more fuel fuel' route request : (length route < fuel)%nat -> (fuel <= fuel')%nat -> path_matches fuel' route request = path_matches fuel route request.
Proof.
  revert fuel' route request. induction fuel as [|fuel IH]; intros fuel' route request Hf Hle; [lia|]. destruct fuel' as [|fuel']; [lia|]. cbn.
  destruct route as [|c route]; [done|]. destruct request as [|d request]; [done|]. cbn in Hf. destruct (c =? 123).
  - apply IH; [|lia]. unfold skip_param. pose proof (drop_while_le (fun x => negb (x =? 125)) route). destruct (drop_while _ route); cbn in *; lia.
  - destruct (negb _); [done|]. apply IH; lia.
Qed.
(** How the loop goes on. *)
Lemma matches_param n r q : 125 ∉ n -> q <> [] -> matches ([123] ++ n ++ [125] ++ r) q = matches r (drop_while (fun x => negb (x =? 47)) q).
Proof.
  intros Hn Hq. destruct q as [|d q]; [done|].
  assert (Hs : skip_param (n ++ 125 :: r) = r).
  { unfold skip_param. rewrite drop_while_app; [done|]. apply forallb_forall. intros x Hx. apply negb_true_iff, Z.eqb_neq. intros ->. apply Hn. by apply list_elem_of_In. }
  transitivity (path_matches (S (length (n ++ 125 :: r))) r (drop_while (fun x => negb (x =? 47)) (d :: q))).
  - rewrite <- Hs at 3. done.
  - apply path_matches_more; [lia|]. rewrite length_app. cbn. lia.
Qed.
Lemma matches_char c r d q : c <> 123 -> matches (c :: r) (d :: q) = if c =? d then matches r q else Some false.
Proof. intros Hc. unfold matches. cbn [path_matches length]. rewrite (proj2 (Z.eqb_neq c 123)) by done. destruct (c =? d); [|done]. cbn [negb]. done. Qed.
Lemma matches_nil_r r : matches r [] = Some (bool_decide (r = [])).
Proof. unfold matches. cbn. destruct r; [done|]. by rewrite bool_decide_eq_false_2. Qed.
Lemma matches_nil_l q : matches [] q = Some (bool_decide (q = [])).
Proof. unfold matches. cbn. destruct q; [done|]. by rewrite bool_decide_eq_false_2. Qed.
Definition at_slash (s : list Z) : Prop := match s with x :: _ => x = 47 | [] => True end.
Lemma matches_literal s r t q : 123 ∉ s -> 47 ∉ s -> 47 ∉ t -> at_slash r -> at_slash q -> matches (s ++ r) (t ++ q) = if bool_decide (s = t) then matches r q else Some false.
Proof.
  intros H1 H2 H3 Hr Hq. revert t H3. induction s as [|c s IH]; intros t H3.
  - cbn [app]. destruct t as [|d t]; [done|]. rewrite bool_decide_eq_false_2 by done. destruct r as [|x r]; [by rewrite matches_nil_l|]. cbn in Hr. subst x.
    cbn [app]. rewrite matches_char by done. apply not_elem_of_cons in H3 as [H3 _]. by rewrite (proj2 (Z.eqb_neq 47 d)).
  - apply not_elem_of_cons in H1 as [H1 H1'], H2 as [H2 H2']. destruct t as [|d t].
    + rewrite bool_decide_eq_false_2 by done. cbn [app]. destruct q as [|x q]; [by rewrite matches_nil_r|]. cbn in Hq. subst x. rewrite matches_char by done. by rewrite (proj2 (Z.eqb_neq c 47)).
    + apply not_elem_of_cons in H3 as [H3 H3']. cbn [app]. rewrite matches_char by done. destruct (Z.eqb_spec c d) as [->|Hne].
      * rewrite IH by done. destruct (bool_decide_reflect (s = t)) as [->|Hst]; [by rewrite bool_decide_eq_true_2|by rewrite bool_decide_eq_false_2 by congruence].
      * by rewrite bool_decide_eq_false_2 by congruence.
Qed.
Lemma path_at_slash ps : at_slash (path_text ps).
Proof. by destruct ps. Qed.
(** A path matches a route exactly when it has as many parts, and each is the one of the route
    or stands for a parameter. *)
Lemma matches_parts ps ss : Forall part_ok ps -> Forall (fun s => 47 ∉ s /\ s <> []) ss -> matches (path_text (part_text <$> ps)) (path_text ss) = Some (parts_match ps ss).
Proof.
  intros Hps. revert ss. induction Hps as [|p ps Hp Hps IH]; intros ss Hss; [rewrite matches_nil_l; by destruct ss|].
  destruct ss as [|s ss]; [by rewrite matches_nil_r|]. apply Forall_cons in Hss as [[Hs Hn] Hss]. cbn [fmap list_fmap path_text].
  change (matches ((47 :: part_text p) ++ path_text (part_text <$> ps)) ((47 :: s) ++ path_text ss) = Some (parts_match (p :: ps) (s :: ss))).
  cbn [app]. rewrite matches_char by done. rewrite Z.eqb_refl. cbn [parts_match part_matches]. destruct p as [l|n].
  - destruct Hp as [H1 H2]. cbn [part_text]. rewrite matches_literal by (done || apply path_at_slash). cbn [part_matches]. destruct (bool_decide (l = s)); [by apply IH|done].
  - cbn [part_text]. rewrite <- !app_assoc, matches_param by (done || by destruct s). rewrite drop_while_app.
    2: { apply forallb_forall. intros x Hx. apply negb_true_iff, Z.eqb_neq. intros ->. apply Hs. by apply list_elem_of_In. }
    assert (drop_while (fun x => negb (x =? 47)) (path_text ss) = path_text ss) as ->.
    { pose proof (path_at_slash ss) as Hsl. destruct (path_text ss) as [|x r]; [done|]. cbn in Hsl. by subst x. }
    cbn [part_matches andb]. by apply IH.
Qed.
(** A request is handed to the first route of its method whose parts are those of the path, a
    parameter standing for any part, and is answered -1 when there is none. *)
Theorem mvc_dispatch_correct {T} (run : MVCAction -> T -> Z * T) c rs m ss s : Forall2 (fun r ps => path r = path_text (part_text <$> ps) /\ Forall part_ok ps) c rs ->
  Forall (fun s => 47 ∉ s /\ s <> []) ss ->
  mvc_dispatch run c m (path_text ss) s = Some (match find_idx (fun x => bool_decide (method x.1 = m) && parts_match x.2 ss) (zip c rs) ≫= fun i => c !! i with Some r => run (handler r) s | None => (-1, s) end).
Proof.
  intros Hc Hss. induction Hc as [|r ps c rs [Hr Hps] Hc IH]; [done|]. cbn [mvc_dispatch zip_with find_idx fst snd].
  destruct (bool_decide (method r = m)); cbn [andb].
  - rewrite Hr, matches_parts by done. cbn [mbind option_bind]. destruct (parts_match ps ss); [done|]. rewrite IH. by destruct (find_idx _ (zip c rs)).
  - rewrite IH. by destruct (find_idx _ (zip c rs)).
Qed.
Definition sample_parts : list part := [Literal (str_bytes "users"); Param (str_bytes "id")].
Lemma mvc_dispatch_correct_witness : let c := [mk_route (str_bytes "/users/{id}") [] MVC_GET 7] in
  mvc_dispatch (fun h s => (h, s)) c MVC_GET (path_text [str_bytes "users"; str_bytes "42"]) tt = Some (7, tt).
Proof.
  refine (mvc_dispatch_correct (fun h s => (h, s)) [mk_route (str_bytes "/users/{id}") [] MVC_GET 7] [sample_parts] MVC_GET [str_bytes "users"; str_bytes "42"] tt _ _).
  - constructor; [|constructor]. split; [reflexivity|]. constructor; [split; apply (bool_decide_unpack _); vm_compute; reflexivity|]. constructor; [apply (bool_decide_unpack _); vm_compute; reflexivity|constructor].
  - repeat constructor; try discriminate; apply (bool_decide_unpack _); vm_compute; reflexivity.
Defined.

(** ** Validation *)

(** What is wrong with a field. *)
Definition field_errors (f : MVCField) : list (list Z) :=
  let len := Z.of_nat (length (f_value f)) in
  if bool_decide (f_value f = []) then if required f then [required_error f] else []
  else
    (if (0 <? min_length f) && (len <? min_length f) then [length_error f " min length is " (min_length f)] else []) ++
    (if (0 <? max_length f) && (max_length f <? len) then [length_error f " max length is " (max_length f)] else []) ++
    (if matches_pattern (f_value f) (pattern f) then [] else [pattern_error f]).
Lemma push_error_room e m : (length (errors m) < MVC_MAX_PARAMS)%nat -> push_error e m = Some (m <| errors ::= fun l => l ++ [e] |> <| is_valid := false |>).
Proof. intros H. unfold push_error. by rewrite (proj2 (Nat.leb_gt MVC_MAX_PARAMS (length (errors m)))). Qed.
(** The model after the errors [es]. *)
Definition with_errors (m : MVCModel) (es : list (list Z)) : MVCModel := m <| errors := errors m ++ es |> <| is_valid := is_valid m && bool_decide (es = []) |>.
Lemma with_errors_nil m : with_errors m [] = m.
Proof. destruct m. unfold with_errors. cbn. by rewrite app_nil_r, andb_true_r. Qed.
Lemma with_errors_app m es es' : with_errors (with_errors m es) es' = with_errors m (es ++ es').
Proof.
  unfold with_errors. cbn. rewrite <- app_assoc. 
  assert (is_valid m && bool_decide (es = []) && bool_decide (es' = []) = is_valid m && bool_decide (es ++ es' = [])) as ->; [|done].
  rewrite <- andb_assoc. f_equal. destruct es; [done|]. by destruct es'.
Qed.
Lemma push_when_errors b e m : (length (errors m) < MVC_MAX_PARAMS)%nat \/ b = false -> push_when b e m = Some (with_errors m (if b then [e] else [])).
Proof.
  intros H. unfold push_when. destruct b; [|by rewrite with_errors_nil]. rewrite push_error_room by by destruct H. unfold with_errors. cbn. by rewrite andb_false_r.
Qed.
Lemma validate_fields_correct fs m : (length (errors m ++ mjoin (field_errors <$> fs)) <= MVC_MAX_PARAMS)%nat -> validate_fields fs m = Some (with_errors m (mjoin (field_errors <$> fs))).
Proof.
  revert m. induction fs as [|f fs IH]; intros m H; [by rewrite with_errors_nil|]. cbn [validate_fields]. change (mjoin (field_errors <$> f :: fs)) with (field_errors f ++ mjoin (field_errors <$> fs)) in *.
  rewrite app_assoc in H. rewrite <- with_errors_app. pose proof H as Hlen. rewrite length_app in Hlen. 
  assert (Hnext : validate_fields fs (with_errors m (field_errors f)) = Some (with_errors (with_errors m (field_errors f)) (mjoin (field_errors <$> fs)))) by by apply IH.
  unfold field_errors at 1 in Hlen. unfold field_errors at 1 2 in Hnext. unfold field_errors at 1.
  destruct (bool_decide_reflect (f_value f = [])) as [->|Hne].
  - cbn [length Z.of_nat Z.eqb Z.ltb Z.compare]. rewrite andb_true_r. destruct (required f); [|by rewrite with_errors_nil in Hnext |- *].
    rewrite push_error_room by (rewrite length_app in Hlen; cbn in Hlen; lia). cbn [mbind option_bind].
    replace (m <| errors ::= _ |> <| is_valid := false |>) with (with_errors m [required_error f]); [done|]. unfold with_errors. cbn. by rewrite andb_false_r.
  - assert (0 < Z.of_nat (length (f_value f))) as Hpos by (destruct (f_value f); [done|cbn; lia]).
    rewrite (proj2 (Z.eqb_neq (Z.of_nat (length (f_value f))) 0)), andb_false_r, (proj2 (Z.ltb_lt 0 (Z.of_nat (length (f_value f))))) by lia.
    assert (negb (bool_decide (pattern f = [])) && negb (matches_pattern (f_value f) (pattern f)) = negb (matches_pattern (f_value f) (pattern f))) as ->.
    { destruct (bool_decide_reflect (pattern f = [])) as [->|]; [by destruct (f_value f)|done]. }
    set (b1 := _ && (_ <? min_length f)) in *. set (b2 := _ && (max_length f <? _)) in *. set (b3 := matches_pattern _ _) in *.
    rewrite push_when_errors. 2: { destruct b1; [left|by right]. rewrite !length_app in Hlen. cbn in Hlen. lia. }
    cbn [mbind option_bind]. rewrite push_when_errors. 2: { destruct b2; [left|by right]. cbn. cbn in Hlen. repeat rewrite length_app in Hlen. cbn in Hlen. repeat rewrite length_app. cbn. lia. }
    cbn [mbind option_bind]. rewrite push_when_errors. 2: { destruct b3; [by right|left]. cbn. cbn in Hlen. repeat rewrite length_app in Hlen. cbn in Hlen. repeat rewrite length_app. cbn. lia. }
    cbn [mbind option_bind]. rewrite !with_errors_app. replace (if negb b3 then [pattern_error f] else []) with (if b3 then [] else [pattern_error f]) by by destruct b3.
    rewrite <- app_assoc. destruct (Nat.leb_spec MVC_MAX_PARAMS (length (errors (with_errors m ((if b1 then [length_error f " min length is " (min_length f)] else []) ++ (if b2 then [length_error f " max length is " (max_length f)] else []) ++ (if b3 then [] else [pattern_error f])))))) as [Hfull|]; [|by rewrite Hnext, with_errors_app, <- !app_assoc].
    destruct (mjoin (field_errors <$> fs)); [by rewrite ?app_nil_r, ?with_errors_nil|]. cbn in Hfull. rewrite !length_app in Hlen, Hfull. cbn in Hlen. lia.
Qed.
(** C16: Models with no more errors than there is room for are checked completely: the texts of
    all errors are kept, and the model is valid when there is none. *)
Theorem mvc_model_validate_correct m : let es := mjoin (field_errors <$> fields m) in (length es <= MVC_MAX_PARAMS)%nat ->
  mvc_model_validate m = Some (if bool_decide (es = []) then 0 else -1, m <| errors := es |> <| is_valid := bool_decide (es = []) |>).
Proof.
  intros es H. unfold mvc_model_validate. rewrite validate_fields_correct by done. cbn [mbind option_bind]. unfold with_errors. cbn. fold es. by destruct (bool_decide (es = [])).
Qed.
Definition sample_model : MVCModel := mvc_model_set (mvc_model_add_field (mvc_model_add_field (mvc_model_init (str_bytes "user")) (str_bytes "age") true 0 3 (Some (str_bytes "numeric"))) (str_bytes "name") true 2 8 None) (str_bytes "age") (str_bytes "12a").
Lemma mvc_model_validate_correct_witness : mvc_model_validate sample_model = Some (-1, sample_model <| errors := mjoin (field_errors <$> fields sample_model) |> <| is_valid := false |>).
Proof. refine (mvc_model_validate_correct sample_model _). vm_compute. lia. Defined.
Example sample_errors : length (mjoin (field_errors <$> fields sample_model)) = 2%nat.
Proof. vm_compute. reflexivity. Qed.

(** ** Rendering *)

(** The loop takes at most one round per character of the template, and leaves room for the end. *)
Lemma skip_run_le c s : (length (skip_char c s) <= length s)%nat.
Proof. induction s as [|x s IH]; [done|]. cbn. destruct (x =? c); cbn; lia. Qed.
Lemma read_name_le room s : (length (read_name room s).2 <= length s)%nat.
Proof. revert s. induction room as [|room IH]; intros [|x s]; try (cbn; lia). cbn. destruct (x =? 125); [done|]. specialize (IH s). destruct (read_name room s). cbn in *. lia. Qed.
Lemma place_le v s dst : Z.of_nat (length dst) < MVC_MAX_VIEW_SIZE -> (length (place v s dst).1 <= length s)%nat /\ Z.of_nat (length (place v s dst).2) < MVC_MAX_VIEW_SIZE.
Proof.
  intros H. unfold place. pose proof (read_name_le (MVC_MAX_VAR_NAME - 1) (skip_char 32 s)) as H1. pose proof (skip_run_le 32 s) as H2. destruct (read_name _ _) as [nm r]. cbn in H1 |- *. split.
  - unfold skip_close. pose proof (drop_while_le (fun x => (x =? 32) || (x =? 125)) r). lia.
  - destruct (variable v (strip_back nm)) as [t|]; [|done]. destruct (Z.ltb_spec (Z.of_nat (length dst + length t)) (MVC_MAX_VIEW_SIZE - 1)); [rewrite length_app; lia|done].
Qed.
Lemma render_from_ends fuel v src dst : (length src < fuel)%nat -> Z.of_nat (length dst) < MVC_MAX_VIEW_SIZE -> exists out, render_from fuel v src dst = Some out /\ Z.of_nat (length out) < MVC_MAX_VIEW_SIZE.
Proof.
  revert src dst. induction fuel as [|fuel IH]; intros src dst Hf Hd; [lia|]. cbn [render_from]. destruct src as [|c src]; [by exists dst|].
  destruct (Z.ltb_spec (Z.of_nat (length dst)) (MVC_MAX_VIEW_SIZE - 1)) as [Hlt|]; cbn [negb]; [|by exists dst]. cbn in Hf.
  assert (Hc : Z.of_nat (length (dst ++ [c])) < MVC_MAX_VIEW_SIZE) by (rewrite length_app; cbn [length]; lia).
  destruct src as [|d src]; [apply IH; [cbn; lia|done]|]. destruct ((c =? 123) && (d =? 123)); [|by apply IH; [cbn in *; lia|]].
  pose proof (place_le v src dst Hd) as [H1 H2]. destruct (place v src dst) as [s dst']. cbn in *. apply IH; [lia|done].
Qed.
(** Rendering ends for every template, within the buffer. *)
Theorem mvc_view_render_ends v : exists r v', mvc_view_render v = Some (r, v') /\ (0 <= r -> r = Z.of_nat (length (rendered v')) /\ r < MVC_MAX_VIEW_SIZE).
Proof.
  unfold mvc_view_render. destruct (template_content v) as [t|]; [|exists (-1), v; split; [done|lia]].
  destruct (render_from_ends (S (length t)) v t []) as (out & -> & Ho); [lia|done|]. cbn [mbind option_bind]. eexists _, _. split; [done|]. by split.
Qed.

(** A template as its pieces: texts and variables. *)
Inductive piece := Text (s : list Z) | Var (n : list Z).
Definition piece_text (p : piece) : list Z := match p with Text s => s | Var n => [123; 123] ++ n ++ [125; 125] end.
Definition piece_value (v : MVCView) (p : piece) : list Z := match p with Text s => s | Var n => default [] (variable v n) end.
Definition template_text (ps : list piece) : list Z := mjoin (piece_text <$> ps).
Definition template_value (v : MVCView) (ps : list piece) : list Z := mjoin (piece_value v <$> ps).
Definition no_edge (s : list Z) : Prop := match s with x :: _ => x <> 32 /\ x <> 125 | [] => True end.
Fixpoint pieces_ok (ps : list piece) : Prop :=
  match ps with
  | [] => True
  | Text s :: ps => 123 ∉ s /\ pieces_ok ps
  | Var n :: ps => 125 ∉ n /\ (length n < MVC_MAX_VAR_NAME)%nat /\ no_edge n /\ no_edge (rev n) /\ no_edge (template_text ps) /\ pieces_ok ps
  end.
Lemma skip_char_keep c s : match s with x :: _ => x <> c | [] => True end -> skip_char c s = s.
Proof. destruct s as [|x s]; [done|]. intros H. cbn. by rewrite (proj2 (Z.eqb_neq x c)). Qed.
Lemma read_name_brace room n s : 125 ∉ n -> (length n <= room)%nat -> read_name room (n ++ 125 :: s) = (n, 125 :: s).
Proof.
  revert n. induction room as [|room IH]; intros n Hn Hl; [by destruct n; [|cbn in Hl; lia]|]. destruct n as [|x n]; [done|]. apply not_elem_of_cons in Hn as [Hx Hn]. cbn.
  rewrite (proj2 (Z.eqb_neq x 125)) by done. rewrite IH by (cbn in Hl; done || lia). done.
Qed.
Lemma place_var v n s dst : 125 ∉ n -> (length n < MVC_MAX_VAR_NAME)%nat -> no_edge n -> no_edge (rev n) -> no_edge s -> Z.of_nat (length dst + length (default [] (variable v n))) < MVC_MAX_VIEW_SIZE - 1 ->
  place v (n ++ [125; 125] ++ s) dst = (s, dst ++ default [] (variable v n)).
Proof.
  intros Hn Hl He Hr Hs Hroom. unfold place. rewrite skip_char_keep by (destruct n as [|x n]; [cbn; lia|cbn in He |- *; tauto]).
  cbn [app]. rewrite read_name_brace by (done || lia).
  assert (strip_back n = n) as ->. { unfold strip_back. rewrite skip_char_keep; [apply rev_involutive|]. by destruct (rev n); [|destruct Hr]. }
  assert (skip_close (125 :: 125 :: s) = s) as ->. { unfold skip_close. cbn. destruct s as [|x s]; [done|]. destruct Hs as [H1 H2]. cbn. by rewrite (proj2 (Z.eqb_neq x 32)), (proj2 (Z.eqb_neq x 125)). }
  destruct (variable v n) as [r|]; cbn in Hroom |- *; [|by rewrite app_nil_r]. by rewrite (proj2 (Z.ltb_lt _ _)).
Qed.
Lemma render_text v s : forall fuel r dst, 123 ∉ s -> (length s < fuel)%nat -> Z.of_nat (length dst + length s) < MVC_MAX_VIEW_SIZE -> exists fuel', (fuel - length s <= fuel')%nat /\ render_from fuel v (s ++ r) dst = render_from fuel' v r (dst ++ s).
Proof.
  induction s as [|c s IH]; intros fuel r dst Hs Hf Hd; [exists fuel; split; [lia|by rewrite app_nil_r]|]. apply not_elem_of_cons in Hs as [Hc Hs]. destruct fuel as [|fuel]; [lia|].
  cbn [length] in Hf, Hd. destruct (IH fuel r (dst ++ [c]) Hs) as (fuel' & Hf' & E); [lia|rewrite length_app; cbn [length]; lia|]. exists fuel'. split; [cbn; lia|].
  cbn [app render_from]. rewrite (proj2 (Z.ltb_lt _ _)) by lia. cbn [negb]. rewrite (proj2 (Z.eqb_neq c 123)) by congruence. cbn [andb]. rewrite <- app_assoc in E. cbn [app] in E. rewrite <- E.
  by destruct (s ++ r).
Qed.
Lemma render_pieces v ps : forall fuel dst, pieces_ok ps -> (length (template_text ps) < fuel)%nat -> Z.of_nat (length dst + length (template_value v ps)) < MVC_MAX_VIEW_SIZE - 1 ->
  render_from fuel v (template_text ps) dst = Some (dst ++ template_value v ps).
Proof.
  induction ps as [|p ps IH]; intros fuel dst Hok Hf Hd; [destruct fuel; [cbn in Hf; lia|by cbn; rewrite app_nil_r]|].
  change (template_text (p :: ps)) with (piece_text p ++ template_text ps) in *. change (template_value v (p :: ps)) with (piece_value v p ++ template_value v ps) in *.
  rewrite length_app in Hf, Hd. destruct p as [s|n]; cbn [piece_text piece_value] in *.
  - destruct Hok as [Hs Hok]. destruct (render_text v s fuel (template_text ps) dst Hs) as (fuel' & Hf' & ->); [lia|lia|].
    rewrite IH; [by rewrite <- app_assoc|done|lia|rewrite length_app; lia].
  - destruct Hok as (Hn & Hl & He & Hr & Hnext & Hok). rewrite !length_app in Hf. cbn [length] in Hf. destruct fuel as [|fuel]; [lia|]. cbn [app render_from].
    rewrite (proj2 (Z.ltb_lt _ _)) by lia. cbn [negb Z.eqb Pos.eqb andb]. rewrite <- app_assoc. rewrite place_var by (done || lia).
    rewrite IH; [by rewrite <- app_assoc|done|lia|rewrite length_app; lia].
Qed.
(** C15: A template of texts without opening braces and of variables with names of less than 64
    bytes, with no space or brace next to the braces of a variable, is rendered as its texts with
    the values of its variables between them, when the result fits. *)
Theorem mvc_view_render_correct v ps : template_content v = Some (template_text ps) -> pieces_ok ps -> Z.of_nat (length (template_value v ps)) < MVC_MAX_VIEW_SIZE - 1 ->
  mvc_view_render v = Some (Z.of_nat (length (template_value v ps)), v <| rendered := template_value v ps |>).
Proof. intros Ht Hok Hl. unfold mvc_view_render. rewrite Ht, render_pieces by (done || lia). done. Qed.
Definition sample_pieces : list piece := [Text (str_bytes "Hello "); Var (str_bytes "name"); Text (str_bytes "!")].
Definition sample_view : MVCView := mvc_view_assign (mvc_view_set_template mvc_view_init (Some (template_text sample_pieces))) (str_bytes "name") (str_bytes "Ann").
Lemma mvc_view_render_correct_witness : mvc_view_render sample_view = Some (10, sample_view <| rendered := str_bytes "Hello Ann!" |>).
Proof.
  refine (mvc_view_render_correct sample_view sample_pieces _ _ _); [reflexivity| |vm_compute; reflexivity].
  cbn [pieces_ok sample_pieces]. repeat split; try (apply (bool_decide_unpack _); vm_compute; reflexivity); vm_compute; try lia; discriminate.
Defined.

(** ** What the code does not do *)

(** The spaces behind a variable are lost. *)
Example space_lost : let v := mvc_view_assign (mvc_view_set_template mvc_view_init (Some (str_bytes "{{a}} and {{a}}"))) (str_bytes "a") (str_bytes "x") in
  option_map (fun r => rendered r.2) (mvc_view_render v) = Some (str_bytes "xand x").
Proof. vm_compute. reflexivity. Qed.
(** Three errors in a field when fifteen are already there are written behind the array. *)
Example model_errors_overflow : let f := mk_field [97] (str_bytes "abc") true 9 2 (str_bytes "numeric") in mvc_model_validate (mk_model [] (replicate 6 f) true []) = None.
Proof. vm_compute. reflexivity. Qed.
(** A pattern that is not one of the three words accepts every text. *)
Theorem pattern_ignored text pat : pat <> str_bytes "alphanumeric" -> pat <> str_bytes "alpha" -> pat <> str_bytes "numeric" -> matches_pattern text pat = true.
Proof. intros H1 H2 H3. unfold matches_pattern. destruct (bool_decide (pat = [])); [done|]. by rewrite !bool_decide_eq_false_2. Qed.
Lemma pattern_ignored_witness : matches_pattern (str_bytes "12") (str_bytes "[a-z]+") = true.
Proof. refine (pattern_ignored (str_bytes "12") (str_bytes "[a-z]+") _ _ _); discriminate. Defined.
