(* ===== verification/Serializer.v ===== *)
(** Model of [mini-backend-framework/src/serializer.c]: structures are printed as JSON, and read
    from it, by a table of their fields; and the theorems on it.

    An object maps the offsets of a structure to what stands there; reading something else, or
    nothing, is undefined ([None]), and so is what prints or copies behind the end of a text.
    [print_g] is the text of a double for [%g]; [encode] and [decode] give the encoders and
    decoders of the user, which are numbers, their meaning.  Texts are without zero bytes. *)

From stdpp Require Import gmap.
From S2P Require Import Prelude Bytes.
#[local] Open Scope Z_scope.

Definition SER_MAX_FIELDS : nat := 64.
Definition SER_MAX_NAME : nat := 64.
Inductive SerFieldType := SER_TYPE_INT | SER_TYPE_INT64 | SER_TYPE_FLOAT | SER_TYPE_DOUBLE | SER_TYPE_STRING | SER_TYPE_BOOL | SER_TYPE_OBJECT | SER_TYPE_ARRAY | SER_TYPE_CUSTOM.
Definition SerEncoder : Type := Z.
Definition SerDecoder : Type := Z.
Record SerField := mk_field { name : list Z; json_name : list Z; type : SerFieldType; offset : nat; array_len : Z; encoder : option SerEncoder; decoder : option SerDecoder; ignore : bool; is_array : bool; is_nested : bool }.
Record Serializer := mk_serializer { fields : list SerField; struct_size : Z; root_name : list Z }.

Definition ser_init (size : Z) (root : option (list Z)) : Serializer := mk_serializer [] size (match root with Some r => truncated SER_MAX_NAME r | None => [] end).
Definition ser_add_field (s : Serializer) (nm : list Z) (off : nat) (json : option (list Z)) (t : SerFieldType) : Serializer :=
  if (SER_MAX_FIELDS <=? length (fields s))%nat then s
  else s <| fields ::= fun l => l ++ [mk_field (truncated SER_MAX_NAME nm) (truncated SER_MAX_NAME (default nm json)) t off 0 None None false false false] |>.
(** The last field, which is an older one when the table is full. *)
Definition on_last (f : SerField -> SerField) (s : Serializer) : Serializer := s <| fields ::= alter f (length (fields s) - 1)%nat |>.
Definition ser_add_int (s : Serializer) (nm : list Z) (off : nat) (json : option (list Z)) : Serializer := ser_add_field s nm off json SER_TYPE_INT.
Definition ser_add_int64 (s : Serializer) (nm : list Z) (off : nat) (json : option (list Z)) : Serializer := ser_add_field s nm off json SER_TYPE_INT64.
Definition ser_add_float (s : Serializer) (nm : list Z) (off : nat) (json : option (list Z)) : Serializer := ser_add_field s nm off json SER_TYPE_FLOAT.
Definition ser_add_double (s : Serializer) (nm : list Z) (off : nat) (json : option (list Z)) : Serializer := ser_add_field s nm off json SER_TYPE_DOUBLE.
Definition ser_add_string (s : Serializer) (nm : list Z) (off : nat) (json : option (list Z)) : Serializer := ser_add_field s nm off json SER_TYPE_STRING.
Definition ser_add_bool (s : Serializer) (nm : list Z) (off : nat) (json : option (list Z)) : Serializer := ser_add_field s nm off json SER_TYPE_BOOL.
Definition ser_add_object (s : Serializer) (nm : list Z) (off : nat) (json : option (list Z)) : Serializer := on_last (fun f => f <| is_nested := true |>) (ser_add_field s nm off json SER_TYPE_OBJECT).
Definition ser_add_array (s : Serializer) (nm : list Z) (off : nat) (json : option (list Z)) (len : Z) : Serializer :=
  on_last (fun f => f <| is_array := true |> <| array_len := len |>) (ser_add_field s nm off json SER_TYPE_ARRAY).
Definition ser_add_custom (s : Serializer) (nm : list Z) (off : nat) (json : option (list Z)) (enc : option SerEncoder) (dec : option SerDecoder) : Serializer :=
  on_last (fun f => f <| encoder := enc |> <| decoder := dec |>) (ser_add_field s nm off json SER_TYPE_CUSTOM).
Definition ser_ignore (s : Serializer) (nm : list Z) : Serializer :=
  match find_idx (fun f => bool_decide (name f = nm)) (fields s) with Some i => s <| fields ::= alter (fun f => f <| ignore := true |>) i |> | None => s end.
Definition ser_strip_whitespace (s : list Z) : list Z := List.filter (fun c => negb ((c =? 32) || (c =? 9) || (c =? 10) || (c =? 13))) s.

(** The characters 34 and 92 are the quote and the backslash. *)
Definition escaped (c : Z) : list Z :=
  if c =? 34 then [92; 34] else if c =? 92 then [92; 92] else if c =? 10 then [92; 110] else if c =? 13 then [92; 114] else if c =? 9 then [92; 116] else [c].
Fixpoint escape_from (max_len : Z) (src dst : list Z) : list Z :=
  match src with [] => dst | c :: src => if Z.of_nat (length dst) <? max_len - 2 then escape_from max_len src (dst ++ escaped c) else dst end.
Definition ser_escape_json (src : list Z) (max_len : Z) : list Z := escape_from max_len src [].

Section serializer.
Context {D : Type} (zero : D) (print_g : D -> list Z) (encode : SerEncoder -> Z -> list Z) (decode : SerDecoder -> list Z -> Z).
(** What stands at an offset: a text in an array of [cap] bytes, for one; of what the functions of
    the user read and write only a number is kept. *)
Inductive cell := CInt (z : Z) | CInt64 (z : Z) | CFloat (d : D) | CDouble (d : D) | CString (cap : nat) (s : list Z) | CBool (b : bool) | CCustom (x : Z).
Definition object : Type := gmap nat cell.

Definition ser_write_value (f : SerField) (obj : object) : option (list Z) :=
  match type f, obj !! offset f with
  | SER_TYPE_INT, Some (CInt z) => Some (print_lld z)
  | SER_TYPE_INT64, Some (CInt64 z) => Some (print_lld z)
  | SER_TYPE_FLOAT, Some (CFloat d) => Some (print_g d)
  | SER_TYPE_DOUBLE, Some (CDouble d) => Some (print_g d)
  | SER_TYPE_STRING, Some (CString _ s) => Some (truncated (Z.to_nat 1024) ([34] ++ ser_escape_json s 2048 ++ [34]))
  | SER_TYPE_BOOL, Some (CBool b) => Some (if b then str_bytes "true" else str_bytes "false")
  | SER_TYPE_CUSTOM, Some (CCustom x) => (fun e => truncated (Z.to_nat 1024) (encode e x)) <$> encoder f
  | _, _ => None
  end.
(** A result of [None] inside is the answer -1. *)
Fixpoint print_fields (max_len : Z) (fs : list SerField) (obj : object) (first : bool) (out : list Z) : option (option (list Z)) :=
  match fs with
  | [] => Some (Some out)
  | f :: fs =>
      if ignore f then print_fields max_len fs obj first out
      else
        let out := if first then out else out ++ [44] in
        v ← ser_write_value f obj;
        let text := [34] ++ json_name f ++ [34; 58] ++ v in
        if max_len - Z.of_nat (length out) <=? Z.of_nat (length text) then Some None else print_fields max_len fs obj false (out ++ text)
  end.
Definition ser_to_json (s : Serializer) (obj : object) (max_len : Z) : option (option (list Z)) :=
  r ← print_fields max_len (fields s) obj true [123];
  Some (out ← r; if max_len - Z.of_nat (length out) <=? 1 then None else Some (out ++ [125])).

(** ** Finding a value *)

(** The characters up to a quote that is not escaped, and with it. *)
Fixpoint string_span (s : list Z) : list Z :=
  match s with
  | [] => []
  | c :: s' => if c =? 34 then [34] else if c =? 92 then match s' with d :: s'' => c :: d :: string_span s'' | [] => [c] end else c :: string_span s'
  end.
Fixpoint nested_span (open close depth : Z) (s : list Z) : list Z :=
  match s with
  | [] => []
  | c :: s => let depth := if c =? open then depth + 1 else if c =? close then depth - 1 else depth in c :: (if 0 <? depth then nested_span open close depth s else [])
  end.
Definition value_span (p : list Z) : list Z :=
  match p with
  | c :: p' =>
      if c =? 34 then c :: string_span p' else if c =? 123 then c :: nested_span 123 125 1 p' else if c =? 91 then c :: nested_span 91 93 1 p'
      else take_while (fun x => negb ((x =? 44) || (x =? 125) || (x =? 93))) p
  | [] => []
  end.
(** The text from the value on, and the value; [Some None] when the key is not there.  The place
    behind the key is undefined for a key that is longer than the text the search is printed to
    and the text that follows. *)
Definition ser_find_json_value (json key : list Z) : option (option (list Z * list Z)) :=
  let search := [34] ++ key ++ [34] in
  match strstr_after (truncated 128 search) json with
  | None => Some None
  | Some p =>
      let more := (length search - length (truncated 128 search))%nat in
      if (length p <? more)%nat then None
      else let p := drop_while (fun x => (x =? 32) || (x =? 58)) (drop more p) in Some (Some (p, value_span p))
  end.
(** [memcpy] and the final zero, into an array that has to have room for them. *)
Definition store_text (off : nat) (text : list Z) (obj : object) : option object :=
  match obj !! off with Some (CString cap _) => if (length text <? cap)%nat then Some (<[off := CString cap text]> obj) else None | _ => None end.
Definition read_field (f : SerField) (json : list Z) (obj : object) : option object :=
  r ← ser_find_json_value json (json_name f);
  match r with
  | None => Some obj
  | Some (p, v) =>
      match type f with
      | SER_TYPE_INT => Some (<[offset f := CInt (atoi (take 31 v))]> obj)
      | SER_TYPE_INT64 => Some (<[offset f := CInt64 0]> obj)
      | SER_TYPE_FLOAT => Some (<[offset f := CFloat zero]> obj)
      | SER_TYPE_DOUBLE => Some (<[offset f := CDouble zero]> obj)
      | SER_TYPE_STRING =>
          let start := match p with c :: p' => if c =? 34 then p' else p | [] => p end in
          store_text (offset f) (take 254 (take_while (fun x => negb (x =? 34)) start)) obj
      | SER_TYPE_BOOL => Some (<[offset f := CBool (bool_decide (take 7 v = str_bytes "true"))]> obj)
      | SER_TYPE_CUSTOM => Some (match decoder f with Some d => <[offset f := CCustom (decode d json)]> obj | None => obj end)
      | _ => Some obj
      end
  end.
Fixpoint read_fields (fs : list SerField) (json : list Z) (obj : object) : option object :=
  match fs with [] => Some obj | f :: fs => if ignore f then read_fields fs json obj else obj ← read_field f json obj; read_fields fs json obj end.
Definition ser_from_json (s : Serializer) (obj : object) (json : list Z) : option object := read_fields (fields s) json obj.
End serializer.

(** A length below zero would be copied as a huge one. *)
Definition ser_json_get_string (json key : list Z) (max : Z) : option (Z * list Z) :=
  r ← ser_find_json_value json key;
  match r with
  | None => Some (-1, [])
  | Some (p, v) =>
      let '(start, len) := match p with c :: p' => if c =? 34 then (p', Z.of_nat (length v) - 2) else (p, Z.of_nat (length v)) | [] => (p, Z.of_nat (length v)) end in
      let len := if max <=? len then max - 1 else len in
      if len <? 0 then None else Some (len, take (Z.to_nat len) start)
  end.
Definition ser_json_get_int (json key : list Z) (default_val : Z) : option Z := '(len, buf) ← ser_json_get_string json key 32; Some (if len <? 0 then default_val else atoi buf).
Definition ser_json_get_bool (json key : list Z) : option bool := '(len, buf) ← ser_json_get_string json key 8; Some (if len <? 0 then false else bool_decide (buf = str_bytes "true")).

(** ** Reading what was printed *)

Lemma signed_value_print_any z : - 10 ^ 20 < z < 10 ^ 20 -> signed_value (print_lld z) = z.
Proof.
  intros H. destruct (Z.ltb_spec z 0) as [Hz|]; [|apply signed_value_print; lia]. unfold print_lld. rewrite (proj2 (Z.ltb_lt z 0)) by done.
  change (- digits_value 0 (digits 20 (- z)) = z). pose proof (digits_value_digits 20 (- z) 0 []) as Hd. rewrite app_nil_r in Hd. rewrite Hd by lia. cbn [digits_value]. lia.
Qed.
Lemma atoi_print_any z : - 2 ^ 31 <= z < 2 ^ 31 -> atoi (print_lld z) = z.
Proof. intros H. unfold atoi, strtol. rewrite signed_value_print_any by lia. rewrite Z.min_r, Z.max_r by lia. by apply s32_small. Qed.

Section roundtrip.
Context {D : Type} (zero : D) (print_g : D -> list Z) (encode : SerEncoder -> Z -> list Z) (decode : SerDecoder -> list Z -> Z).
(** A name without quotes, colons and commas. *)
Definition name_ok (k : list Z) : Prop := 34 ∉ k /\ 58 ∉ k /\ 44 ∉ k /\ (length k < SER_MAX_NAME)%nat.
(** Printed and read back as it is: an [int], a truth value, or a text of at most 254 bytes in an
    array with room for it, without characters that are escaped, that is the name of no field. *)
Definition cell_ok (names : list (list Z)) (f : SerField) (c : cell (D := D)) : Prop :=
  match type f, c with
  | SER_TYPE_INT, CInt z => - 2 ^ 31 <= z < 2 ^ 31
  | SER_TYPE_BOOL, CBool _ => True
  | SER_TYPE_STRING, CString cap s => (length s <= 254)%nat /\ (length s < cap)%nat /\ Forall (fun x => x <> 34 /\ x <> 92 /\ x <> 10 /\ x <> 13 /\ x <> 9) s /\ s ∉ names
  | _, _ => False
  end.
Definition field_ok (names : list (list Z)) (obj : object (D := D)) (f : SerField) : Prop := ignore f = false /\ name_ok (json_name f) /\ exists c, obj !! offset f = Some c /\ cell_ok names f c.
Definition cell_text (c : cell (D := D)) : list Z :=
  match c with CInt z => print_lld z | CBool b => if b then str_bytes "true" else str_bytes "false" | CString _ s => [34] ++ s ++ [34] | _ => [] end.
Definition field_text (obj : object) (f : SerField) : list Z := [34] ++ json_name f ++ [34; 58] ++ from_option cell_text [] (obj !! offset f).
Fixpoint body (obj : object) (fs : list SerField) (first : bool) : list Z :=
  match fs with [] => [125] | f :: fs => (if first then [] else [44]) ++ field_text obj f ++ body obj fs false end.
Lemma ser_escape_plain s : forall dst max_len, Forall (fun x => x <> 34 /\ x <> 92 /\ x <> 10 /\ x <> 13 /\ x <> 9) s -> Z.of_nat (length dst + length s) <= max_len - 2 -> escape_from max_len s dst = dst ++ s.
Proof.
  induction s as [|c s IH]; intros dst max_len Hs Hl; [by rewrite app_nil_r|]. apply Forall_cons in Hs as [(H1 & H2 & H3 & H4 & H5) Hs]. cbn [escape_from length] in *.
  rewrite (proj2 (Z.ltb_lt _ _)) by lia. unfold escaped. rewrite (proj2 (Z.eqb_neq c 34)), (proj2 (Z.eqb_neq c 92)), (proj2 (Z.eqb_neq c 10)), (proj2 (Z.eqb_neq c 13)), (proj2 (Z.eqb_neq c 9)) by done. rewrite IH by (done || rewrite length_app; cbn; lia). by rewrite <- app_assoc.
Qed.
Lemma write_value_ok names f obj c : obj !! offset f = Some c -> cell_ok names f c -> ser_write_value print_g encode f obj = Some (cell_text c).
Proof.
  intros Ho Hc. unfold ser_write_value. rewrite Ho. unfold cell_ok in Hc. destruct (type f), c; try done. destruct Hc as (Hl & _ & Hs & _). cbn [cell_text]. f_equal. unfold ser_escape_json.
  rewrite ser_escape_plain by (done || cbn; lia). rewrite app_nil_l, truncated_id; [done|]. rewrite !length_app. cbn. lia.
Qed.
Lemma print_fields_ok names obj max_len fs : forall first out, Forall (field_ok names obj) fs -> Z.of_nat (length out + length (body obj fs first)) < max_len ->
  exists out', print_fields print_g encode max_len fs obj first out = Some (Some out') /\ out' ++ [125] = out ++ body obj fs first.
Proof.
  induction fs as [|f fs IH]; intros first out Hok Hl; [by exists out|]. apply Forall_cons in Hok as [(Hi & Hn & c & Hc & Hcok) Hok]. cbn [print_fields body] in *.
  rewrite Hi, (write_value_ok names f obj c Hc Hcok). cbn [mbind option_bind]. assert (Et : field_text obj f = [34] ++ json_name f ++ [34; 58] ++ cell_text c) by (unfold field_text; by rewrite Hc).
  rewrite <- Et. rewrite !length_app in Hl. assert (Hb : forall b, (0 < length (body obj fs b))%nat) by (intros b; destruct fs; cbn; [lia|destruct b; rewrite ?length_app; cbn; lia]). specialize (Hb false).
  set (o := if first then out else out ++ [44]). assert (Ho : o = out ++ (if first then [] else [44])) by (unfold o; destruct first; [by rewrite app_nil_r|done]).
  assert (Hol : length o = (length out + length (if first then [] else [44%Z]))%nat) by by rewrite Ho, length_app.
  rewrite (proj2 (Z.leb_gt _ _)) by lia. destruct (IH false (o ++ field_text obj f) Hok) as (out' & E & Eq); [rewrite length_app; lia|].
  exists out'. split; [done|]. rewrite Eq, Ho. by rewrite <- !app_assoc.
Qed.

(** The text behind a value: a comma and more, or the end. *)
Definition follows (rest : list Z) : Prop := rest = [125] \/ exists r, rest = 44 :: r.
Lemma body_follows obj fs : follows (body obj fs false).
Proof. destruct fs as [|f fs]; [by left|right; by eexists]. Qed.
Lemma quoted_not_here k rest : 34 ∉ k -> 58 ∉ k -> 44 ∉ k -> follows rest \/ (exists r, rest = 58 :: r) -> starts_with (k ++ [34]) rest = None.
Proof.
  intros H34 H58 H44 Hr. destruct k as [|x k]; cbn [app].
  - destruct Hr as [[->|[r ->]]|[r ->]]; done.
  - apply not_elem_of_cons in H58 as [H58 _], H44 as [H44 _]. destruct Hr as [[->|[r ->]]|[r ->]]; cbn.
    + destruct (x =? 125); [by destruct k|done].
    + by rewrite (proj2 (Z.eqb_neq x 44)).
    + by rewrite (proj2 (Z.eqb_neq x 58)).
Qed.
Lemma cell_text_search names f c k rest : cell_ok names f c -> k ∈ names -> name_ok k -> follows rest -> strstr_after (34 :: k ++ [34]) (58 :: cell_text c ++ rest) = strstr_after (34 :: k ++ [34]) rest.
Proof.
  intros Hc Hin (H34 & H58 & H44 & _) Hr. unfold cell_ok in Hc. destruct (type f), c as [z| | | |cap s|b|]; try done; cbn [cell_text].
  - rewrite <- (strstr_after_skip 34 (k ++ [34]) (58 :: print_lld z) rest); [done|]. intros [?|Hx]%elem_of_cons; [done|]. pose proof (print_lld_chars z) as Hp. rewrite Forall_forall in Hp. specialize (Hp _ Hx). cbn in Hp. lia.
  - destruct Hc as (_ & _ & Hs & Hns). rewrite <- !app_assoc. change (58 :: [34] ++ s ++ [34] ++ rest) with ([58] ++ [34] ++ s ++ [34] ++ rest). rewrite strstr_after_skip by (by intros ?%list_elem_of_singleton).
    cbn [app]. rewrite strstr_after_no. 2: { cbn [starts_with]. rewrite Z.eqb_refl. apply starts_with_quoted_ne; [done| |by intros ->]. intros Hx. rewrite Forall_forall in Hs. by destruct (Hs _ Hx). }
    rewrite strstr_after_skip by (intros Hx; rewrite Forall_forall in Hs; by destruct (Hs _ Hx)).
    rewrite strstr_after_no; [done|]. cbn [starts_with]. rewrite Z.eqb_refl. apply quoted_not_here; try done. by left.
  - rewrite <- (strstr_after_skip 34 (k ++ [34]) (58 :: (if b then str_bytes "true" else str_bytes "false")) rest); [done|]. destruct b; apply (bool_decide_unpack _); vm_compute; reflexivity.
Qed.
Lemma find_key names obj fs f : forall first, Forall (field_ok names obj) fs -> (forall g, g ∈ fs -> json_name g ∈ names) -> NoDup (json_name <$> fs) -> f ∈ fs ->
  exists rest, follows rest /\ strstr_after (34 :: json_name f ++ [34]) (body obj fs first) = Some (58 :: from_option cell_text [] (obj !! offset f) ++ rest).
Proof.
  induction fs as [|g fs IH]; intros first Hok Hin Hnd Hf; [by apply elem_of_nil in Hf|]. apply Forall_cons in Hok as [(_ & (H34 & H58 & H44 & Hlen) & c & Hc & Hcok) Hok].
  cbn [body]. assert (Hfirst : 34 ∉ (if first then [] else [44])) by (destruct first; [apply not_elem_of_nil|by intros ?%list_elem_of_singleton]).
  rewrite strstr_after_skip by done. unfold field_text. rewrite Hc. cbn [from_option]. rewrite <- !app_assoc. cbn [app].
  rewrite fmap_cons, NoDup_cons in Hnd. destruct Hnd as [Hng Hnd]. destruct (decide (json_name f = json_name g)) as [E|Hne].
  - assert (f = g) as ->. { apply elem_of_cons in Hf as [?|Hf]; [done|]. exfalso. apply Hng. rewrite <- E. by apply list_elem_of_fmap_2. }
    exists (body obj fs false). split; [apply body_follows|]. rewrite Hc. cbn [from_option].
    assert (Hq : 34 :: json_name g ++ 34 :: 58 :: cell_text c ++ body obj fs false = (34 :: json_name g ++ [34]) ++ 58 :: cell_text c ++ body obj fs false) by (cbn; by rewrite <- app_assoc).
    rewrite Hq. apply strstr_after_here.
  - apply elem_of_cons in Hf as [->|Hf]; [done|]. assert (Hfok : name_ok (json_name f)) by (rewrite Forall_forall in Hok; by destruct (Hok f Hf) as (_ & ? & _)).
    pose proof Hfok as (F34 & F58 & F44 & _).
    rewrite strstr_after_no. 2: { cbn [starts_with]. rewrite Z.eqb_refl. by apply starts_with_quoted_ne. }
    rewrite strstr_after_skip by done. rewrite strstr_after_no. 2: { cbn [starts_with]. rewrite Z.eqb_refl. apply quoted_not_here; try done. right. by eexists. }
    rewrite (cell_text_search names g) by (done || apply body_follows || (apply Hin; by right)).
    apply IH; try done. intros h Hh. apply Hin. by right.
Qed.
Lemma take_while_stop p l x r : forallb p l = true -> p x = false -> take_while p (l ++ x :: r) = l.
Proof. intros Hl Hx. rewrite take_while_app by done. cbn. rewrite Hx. by rewrite app_nil_r. Qed.
Lemma follows_stop rest : follows rest -> exists x r, rest = x :: r /\ (x = 44 \/ x = 125).
Proof. intros [->|[r ->]]; eexists _, _; split; try done; lia. Qed.
Lemma value_span_cell names f c rest : cell_ok names f c -> follows rest -> drop_while (fun x => (x =? 32) || (x =? 58)) (58 :: cell_text c ++ rest) = cell_text c ++ rest /\ value_span (cell_text c ++ rest) = cell_text c.
Proof.
  intros Hc (x & r & -> & Hx)%follows_stop. unfold cell_ok in Hc.
  assert (Hplain : forall y l, 48 <= y <= 57 \/ y = 45 \/ 97 <= y <= 122 -> forallb (fun x => negb ((x =? 44) || (x =? 125) || (x =? 93))) (y :: l) = true ->
    drop_while (fun x => (x =? 32) || (x =? 58)) (58 :: (y :: l) ++ x :: r) = (y :: l) ++ x :: r /\ value_span ((y :: l) ++ x :: r) = y :: l).
  { intros y l Hy Hl. split; [cbn; by rewrite (proj2 (Z.eqb_neq y 32)), (proj2 (Z.eqb_neq y 58)) by lia|]. cbn [app value_span].
    rewrite (proj2 (Z.eqb_neq y 34)), (proj2 (Z.eqb_neq y 123)), (proj2 (Z.eqb_neq y 91)) by lia. change (y :: l ++ x :: r) with ((y :: l) ++ x :: r). apply take_while_stop; [done|].
    by destruct Hx as [-> | ->]. }
  destruct (type f), c as [z| | | |cap s|b|]; try done; cbn [cell_text].
  - pose proof (print_lld_chars z) as Hp. destruct (print_lld z) as [|y l] eqn:E.
    { exfalso. unfold print_lld in E. destruct (z <? 0); [done|]. by apply digits_nonempty in E. }
    apply Hplain; [apply Forall_cons in Hp as [Hp _]; cbn in Hp; lia|]. apply forallb_forall. intros w Hw. apply list_elem_of_In in Hw. rewrite Forall_forall in Hp. specialize (Hp _ Hw). cbn in Hp.
    rewrite (proj2 (Z.eqb_neq w 44)), (proj2 (Z.eqb_neq w 125)), (proj2 (Z.eqb_neq w 93)) by lia. done.
  - destruct Hc as (_ & _ & Hs & _). split; [done|]. cbn [app value_span Z.eqb Pos.eqb]. f_equal. rewrite <- app_assoc. change ([34] ++ x :: r) with (34 :: x :: r). clear -Hs. induction s as [|y s IH]; [done|].
    apply Forall_cons in Hs as [(H1 & H2 & _) Hs]. cbn. rewrite (proj2 (Z.eqb_neq y 34)), (proj2 (Z.eqb_neq y 92)) by done. by rewrite IH.
  - destruct b; apply Hplain; try (cbn; lia); vm_compute; reflexivity.
Qed.
(** Another object has arrays of the same sizes for the texts. *)
Definition same_arrays (obj obj' : object (D := D)) (fs : list SerField) : Prop :=
  forall f cap s, f ∈ fs -> obj !! offset f = Some (CString cap s) -> exists s', obj' !! offset f = Some (CString cap s').
Lemma same_arrays_step obj obj' fs a c : same_arrays obj obj' fs -> obj !! a = Some c -> same_arrays obj (<[a := c]> obj') fs.
Proof.
  intros H Hc f cap s Hf Hs. destruct (decide (a = offset f)) as [->|Hne].
  - exists s. rewrite Hc in Hs. injection Hs as ->. apply (lookup_insert_eq (M := gmap nat)).
  - destruct (H f cap s Hf Hs) as (s' & Hs'). exists s'. etrans; [by apply (lookup_insert_ne (M := gmap nat))|exact Hs'].
Qed.
Lemma read_field_ok names obj fs f obj' : same_arrays obj obj' fs -> Forall (field_ok names obj) fs -> (forall g, g ∈ fs -> json_name g ∈ names) -> NoDup (json_name <$> fs) -> f ∈ fs ->
  exists c, obj !! offset f = Some c /\ read_field zero decode f (123 :: body obj fs true) obj' = Some (<[offset f := c]> obj').
Proof.
  intros Hsame Hok Hin Hnd Hf. destruct (find_key names obj fs f true Hok Hin Hnd Hf) as (rest & Hr & Hfind). rewrite Forall_forall in Hok. destruct (Hok f Hf) as (_ & (H34 & _ & _ & Hlen) & c & Hc & Hcok).
  exists c. split; [done|]. rewrite Hc in Hfind. cbn [from_option] in Hfind. destruct (value_span_cell names f c rest Hcok Hr) as [Hdrop Hspan].
  unfold read_field, ser_find_json_value. 
  assert (Ht : truncated 128 ([34] ++ json_name f ++ [34]) = 34 :: json_name f ++ [34]) by (apply truncated_id; cbn; rewrite length_app; cbn; unfold SER_MAX_NAME in Hlen; lia).
  rewrite Ht. change (123 :: body obj fs true) with ([123] ++ body obj fs true). rewrite (strstr_after_skip 34 _ [123]) by (by intros ?%list_elem_of_singleton). rewrite Hfind. rewrite Nat.sub_diag. cbn [Nat.ltb Nat.leb drop]. rewrite Hdrop, Hspan. cbn [mbind option_bind].
  unfold cell_ok in Hcok. destruct (type f), c as [z| | | |cap s|b|]; try done; cbn [cell_text].
  - rewrite take_ge by (pose proof (print_lld_length z); lia). by rewrite atoi_print_any.
  - destruct Hcok as (Hl & Hcap & Hs & _). destruct (Hsame f cap s Hf Hc) as (s' & Hs'). cbn [app Z.eqb Pos.eqb]. rewrite <- app_assoc. cbn [app]. rewrite take_while_stop; [|apply forallb_forall; intros y Hy; apply list_elem_of_In in Hy; rewrite Forall_forall in Hs; destruct (Hs _ Hy); by rewrite (proj2 (Z.eqb_neq y 34))|done].
    rewrite take_ge by done. unfold store_text. by rewrite Hs', (proj2 (Nat.ltb_lt _ _)).
  - by destruct b.
Qed.
(** C40: Take an object whose fields are 32-bit integers, truth values and texts of at most 254
    bytes, the texts without quotes, backslashes, line breaks and tabs and different from the
    names of the fields, these without quotes, colons and commas and all different.  Printed in
    a buffer with room for it, it is read back into any other object with arrays of the same
    sizes, and nothing else of that object changes. *)
Theorem ser_roundtrip s obj max_len : let names := json_name <$> fields s in Forall (field_ok names obj) (fields s) -> NoDup names -> Z.of_nat (S (length (body obj (fields s) true))) < max_len ->
  exists json, ser_to_json print_g encode s obj max_len = Some (Some json) /\
  forall obj', same_arrays obj obj' (fields s) -> exists obj'', ser_from_json zero decode s obj' json = Some obj'' /\ (forall f, f ∈ fields s -> obj'' !! offset f = obj !! offset f) /\ (forall a, a ∉ offset <$> fields s -> obj'' !! a = obj' !! a).
Proof.
  intros names Hok Hnd Hl. destruct (print_fields_ok names obj max_len (fields s) true [123] Hok) as (out & E & Eq); [cbn [length]; lia|].
  exists (out ++ [125]). split.
  - unfold ser_to_json. rewrite E. cbn [mbind option_bind]. apply (f_equal length) in Eq. rewrite !length_app in Eq. cbn [length] in Eq. by rewrite (proj2 (Z.leb_gt _ _)) by lia.
  - rewrite Eq. intros obj' Hsame. unfold ser_from_json. cbn [app].
    assert (Hgo : forall gs obj', (forall g, g ∈ gs -> g ∈ fields s) -> same_arrays obj obj' (fields s) -> exists obj'', read_fields zero decode gs (123 :: body obj (fields s) true) obj' = Some obj'' /\
      (forall a, (exists f, f ∈ gs /\ offset f = a) -> obj'' !! a = obj !! a) /\ (forall a, a ∉ offset <$> gs -> obj'' !! a = obj' !! a)).
    { induction gs as [|g gs IH]; intros o Hgs Ho; [exists o; split; [done|]; split; [intros a (f & Hf & _); by apply elem_of_nil in Hf|done]|].
      assert (Hg : g ∈ fields s) by (apply Hgs; left). cbn [read_fields]. pose proof Hok as Hok'. rewrite Forall_forall in Hok'. destruct (Hok' g Hg) as (-> & _).
      destruct (read_field_ok names obj (fields s) g o Ho Hok) as (c & Hc & ->); [by intros h Hh; apply list_elem_of_fmap_2|done|done|]. cbn [mbind option_bind].
      destruct (IH (<[offset g := c]> o)) as (o' & -> & Hin & Hout); [intros h Hh; apply Hgs; by right|by apply same_arrays_step|]. exists o'. split; [done|]. split.
      - intros a (f & Hf & <-). destruct (decide (offset f ∈ offset <$> gs)) as [(h & Eh & Hh)%list_elem_of_fmap|Hn]; [apply Hin; by exists h|].
        rewrite Hout by done. apply elem_of_cons in Hf as [->|Hf]; [rewrite Hc; apply (lookup_insert_eq (M := gmap nat))|]. exfalso. apply Hn. by apply list_elem_of_fmap_2.
      - intros a Ha. rewrite fmap_cons, not_elem_of_cons in Ha. destruct Ha as [Ha1 Ha2]. rewrite Hout by done. by apply (lookup_insert_ne (M := gmap nat)). }
    destruct (Hgo (fields s) obj') as (obj'' & Hrun & Hin & Hout); [done|done|]. exists obj''. split; [exact Hrun|]. split; [|exact Hout]. intros f Hf. apply Hin. by exists f.
Qed.
End roundtrip.
Definition pg (d : Z) : list Z := print_lld d.
Definition sample : Serializer := ser_add_bool (ser_add_string (ser_add_int (ser_init 40 None) (str_bytes "id") 0 None) (str_bytes "name") 4 (Some (str_bytes "n"))) (str_bytes "ok") 36 None.
Definition sample_object : object (D := Z) := {[0%nat := CInt (-12); 4%nat := CString 32 (str_bytes "a b"); 36%nat := CBool true]}.
Lemma ser_roundtrip_witness : exists json, ser_to_json pg (fun _ _ => []) sample sample_object 100 = Some (Some json) /\
  forall obj', same_arrays sample_object obj' (fields sample) -> exists obj'', ser_from_json 0 (fun _ _ => 0) sample obj' json = Some obj'' /\ (forall f, f ∈ fields sample -> obj'' !! offset f = sample_object !! offset f) /\ (forall a, a ∉ offset <$> fields sample -> obj'' !! a = obj' !! a).
Proof.
  refine (ser_roundtrip 0 pg (fun _ _ => []) (fun _ _ => 0) sample sample_object 100 _ _ _).
  - repeat constructor; try (apply (bool_decide_unpack _); vm_compute; reflexivity).
    + eexists. split; [reflexivity|]. vm_compute. split; [discriminate|reflexivity].
    + eexists. split; [reflexivity|]. split; [vm_compute; lia|]. split; [vm_compute; lia|]. split; [repeat constructor; discriminate|apply (bool_decide_unpack _); vm_compute; reflexivity].
    + eexists. split; [reflexivity|]. exact I.
  - apply (bool_decide_unpack _). vm_compute. reflexivity.
  - vm_compute. reflexivity.
Defined.

(** ** What the code does not do *)

Definition q (s : string) : list Z := [34] ++ str_bytes s ++ [34].
Definition to_json (s : Serializer) (o : object (D := Z)) : option (option (list Z)) := ser_to_json pg (fun _ _ => []) s o 4000.
Definition from_json (s : Serializer) (obj : object (D := Z)) (json : list Z) : option (object (D := Z)) := ser_from_json 0 (fun _ _ => 0) s obj json.
(** A text with a quote in it is not read back: its escapes are kept, and it ends at the quote. *)
Example escapes_not_undone : let s := ser_add_string (ser_init 8 None) (str_bytes "n") 0 None in
  (j ← to_json s {[0%nat := CString 8 [97; 34; 98]]}; j ← j; from_json s {[0%nat := CString 8 []]} j) = Some {[0%nat := CString 8 [97; 92]]}.
Proof. vm_compute. reflexivity. Qed.
(** A text that is longer than its array is written behind it. *)
Example text_overflows : let s := ser_add_string (ser_init 4 None) (str_bytes "n") 0 None in from_json s {[0%nat := CString 4 []]} (str_bytes "{" ++ q "n" ++ str_bytes ":" ++ q "abcd" ++ str_bytes "}") = None.
Proof. vm_compute. reflexivity. Qed.
(** Numbers of 64 bits, and those with a fraction, are read as zero. *)
Example wide_numbers_lost : let s := ser_add_double (ser_add_int64 (ser_init 16 None) (str_bytes "a") 0 None) (str_bytes "b") 8 None in
  (j ← to_json s {[0%nat := CInt64 7; 8%nat := CDouble 9]}; j ← j; from_json s ∅ j) = Some {[0%nat := CInt64 0; 8%nat := CDouble 0]}.
Proof. vm_compute. reflexivity. Qed.
(** A value that is the name of a key is taken for it. *)
Example value_taken_for_key : ser_json_get_int (str_bytes "{" ++ q "x" ++ str_bytes ":" ++ q "id" ++ str_bytes "," ++ q "id" ++ str_bytes ":5}") (str_bytes "id") 1 = Some 0.
Proof. vm_compute. reflexivity. Qed.
(** A truth value with a space behind it is read as false. *)
Example true_with_space : ser_json_get_bool (str_bytes "{" ++ q "ok" ++ str_bytes ": true }") (str_bytes "ok") = Some false.
Proof. vm_compute. reflexivity. Qed.
(** A value that is a single quote is copied with a length below zero. *)
Example lone_quote : ser_json_get_string (str_bytes "{" ++ q "a" ++ str_bytes ":" ++ [34]) (str_bytes "a") 10 = None.
Proof. vm_compute. reflexivity. Qed.
(** The closing quote of a long text is not printed. *)
Example long_text_open : let s := ser_add_string (ser_init 2000 None) (str_bytes "n") 0 None in
  (j ← to_json s {[0%nat := CString 1200 (replicate 1100 97)]}; j) = Some ([123] ++ q "n" ++ [58; 34] ++ replicate 1022 97 ++ [125]).
Proof. vm_compute. reflexivity. Qed.
(** The text of a nested object is never written before it is printed. *)
Theorem object_undefined {D} (print_g : D -> list Z) encode f obj : type f = SER_TYPE_OBJECT \/ type f = SER_TYPE_ARRAY -> ser_write_value print_g encode f obj = None.
Proof. unfold ser_write_value. by intros [-> | ->]. Qed.
Lemma object_undefined_witness : ser_write_value pg (fun _ _ => []) (mk_field [97] [97] SER_TYPE_OBJECT 0 0 None None false false true) ∅ = None.
Proof. refine (object_undefined pg (fun _ _ => []) (mk_field [97] [97] SER_TYPE_OBJECT 0 0 None None false false true) ∅ _). left. reflexivity. Defined.
(** Spaces inside of texts are removed, too. *)
Example spaces_in_text_lost : ser_strip_whitespace (str_bytes "{" ++ q "a b" ++ str_bytes "}") = str_bytes "{" ++ q "ab" ++ str_bytes "}".
Proof. vm_compute. reflexivity. Qed.
