(* ===== verification/StaticServe.v ===== *)
(** Model of [mini-web-server/src/static_serve.c]: the files of a directory as responses, with
    entity tags and ranges; and the theorems on it.

    The file system is the parameter [fs] and the text of a date for [strftime] the parameter
    [gmt]; both answer the same during a request.  Reading a directory as a file, and a path
    that does not fit its buffer with its end, are undefined ([None]).  Memory is never short. *)

From S2P Require Import Prelude Bytes HttpCore.
#[local] Open Scope Z_scope.

Definition STATIC_MAX_MIME_TYPES : nat := 128.
Definition STATIC_MAX_EXT_LEN : nat := 16.
Definition STATIC_MAX_MIME_LEN : nat := 64.
Definition STATIC_MAX_ROOT_PATH : nat := Z.to_nat 1024.
#[global] Arguments STATIC_MAX_ROOT_PATH : simpl never.
Definition STATIC_DEFAULT_INDEX : list Z := str_bytes "index.html".
Record MimeEntry := mk_mime { extension : list Z; mime_type : list Z }.
Record StaticConfig := mk_static { root_dir : list Z; mime_table : list MimeEntry; enable_caching : bool; enable_range : bool; directory_listing : bool; index_file : list Z }.
Record FileCacheInfo := mk_info { etag : list Z; last_modified : list Z; file_size : Z; mtime : Z }.
(** What [stat] and [fopen] find; a size is the length of the content. *)
Record node := mk_node { is_dir : bool; st_mtime : Z; readable : bool; content : list Z }.

Definition g_default_mimes : list MimeEntry :=
  (fun x => mk_mime (str_bytes x.1) (str_bytes x.2)) <$>
  [(".html", "text/html; charset=utf-8"); (".htm", "text/html; charset=utf-8"); (".css", "text/css; charset=utf-8"); (".js", "application/javascript; charset=utf-8"); (".json", "application/json; charset=utf-8");
   (".png", "image/png"); (".jpg", "image/jpeg"); (".jpeg", "image/jpeg"); (".gif", "image/gif"); (".svg", "image/svg+xml"); (".ico", "image/x-icon"); (".webp", "image/webp"); (".mp4", "video/mp4"); (".webm", "video/webm");
   (".mp3", "audio/mpeg"); (".wav", "audio/wav"); (".ogg", "audio/ogg"); (".pdf", "application/pdf"); (".zip", "application/zip"); (".gz", "application/gzip"); (".tar", "application/x-tar"); (".txt", "text/plain; charset=utf-8");
   (".xml", "application/xml; charset=utf-8"); (".woff2", "font/woff2"); (".ttf", "font/ttf"); ("", "application/octet-stream")]%string.

Definition static_config_init (root : list Z) : StaticConfig := mk_static (truncated STATIC_MAX_ROOT_PATH root) [] true true false (truncated 64 STATIC_DEFAULT_INDEX).
Definition static_config_add_mime (cfg : StaticConfig) (ext mime : list Z) : StaticConfig :=
  if (STATIC_MAX_MIME_TYPES <=? length (mime_table cfg))%nat then cfg
  else cfg <| mime_table ::= fun l => l ++ [mk_mime (truncated STATIC_MAX_EXT_LEN ext) (truncated STATIC_MAX_MIME_LEN mime)] |>.
Definition static_config_load_default_mimes (cfg : StaticConfig) : StaticConfig := foldl (fun cfg m => static_config_add_mime cfg (extension m) (mime_type m)) cfg g_default_mimes.
(** [strrchr] *)
Fixpoint last_from (c : Z) (s : list Z) : option (list Z) :=
  match s with [] => None | x :: s' => match last_from c s' with Some r => Some r | None => if x =? c then Some s else None end end.
Definition octet_stream : list Z := str_bytes "application/octet-stream".
Definition static_get_mime_type (cfg : StaticConfig) (path : list Z) : list Z :=
  match last_from 46 path with
  | None => octet_stream
  | Some dot => match find_idx (fun m => strcasecmp_eq dot (extension m)) (mime_table cfg) ≫= fun i => mime_table cfg !! i with Some m => mime_type m | None => octet_stream end
  end.
Definition FPATH : nat := Z.to_nat 1280.
#[global] Arguments FPATH : simpl never.
(** The characters 47 and 92 are the slash and the backslash. *)
Fixpoint drop_slashes (s : list Z) : list Z := match s with x :: s' => if (x =? 47) || (x =? 92) then drop_slashes s' else s | [] => [] end.
Definition build_full_path (cfg : StaticConfig) (url_path : list Z) (out_sz : nat) : option (list Z) :=
  let out := root_dir cfg ++ url_path in
  if (out_sz <=? length out)%nat then None
  else Some (match rev (drop_slashes (rev out)) with [] => truncated out_sz (index_file cfg) | out => out end).
Definition static_build_etag (mtime size : Z) (buf_sz : nat) : list Z :=
  truncated buf_sz ([34] ++ print_hex 1 (u64 mtime) ++ [45] ++ print_hex 1 (u64 size) ++ [34]).
Definition static_build_cache_headers (info : FileCacheInfo) (res : HttpResponse) : HttpResponse :=
  let res := http_response_add_header res (str_bytes "ETag") (etag info) in
  let res := http_response_add_header res (str_bytes "Last-Modified") (last_modified info) in
  http_response_add_header res (str_bytes "Cache-Control") (str_bytes "public, max-age=3600").
Definition static_check_not_modified (req : HttpRequest) (info : FileCacheInfo) : bool :=
  match http_request_get_header req (str_bytes "If-Modified-Since") with
  | Some ims => if 0 <=? strcmp ims (last_modified info) then true else match http_request_get_header req (str_bytes "If-None-Match") with Some inm => bool_decide (inm = etag info) | None => false end
  | None => match http_request_get_header req (str_bytes "If-None-Match") with Some inm => bool_decide (inm = etag info) | None => false end
  end.
(** The two numbers of [bytes=%lld-%lld], when there is the first; the second is -1 without it. *)
Definition parse_range (hdr : list Z) : option (Z * Z) :=
  s ← starts_with (str_bytes "bytes=") hdr;
  '(a, s) ← scan_lld s;
  Some (a, match s with c :: s => if c =? 45 then match scan_lld s with Some (b, _) => b | None => -1 end else -1 | [] => -1 end).

Section files.
Context (fs : list Z -> option node) (gmt : Z -> list Z).
Definition static_serve_range (path : list Z) (res : HttpResponse) (range_start range_end : Z) : option (bool * HttpResponse) :=
  match fs path with
  | None => Some (false, res)
  | Some st =>
      let size := Z.of_nat (length (content st)) in
      let range_start := if range_start <? 0 then 0 else range_start in
      let range_end := if size <=? range_end then size - 1 else range_end in
      if range_end <? range_start then Some (true, http_response_set_status res 416)
      else if is_dir st then None
      else if negb (readable st) then Some (false, res)
      else
        let chunk := take (Z.to_nat (range_end - range_start + 1)) (drop (Z.to_nat range_start) (content st)) in
        let res := http_response_set_status res 206 in
        let res := http_response_add_header res (str_bytes "Content-Range") (str_bytes "bytes " ++ print_lld range_start ++ [45] ++ print_lld range_end ++ [47] ++ print_lld size) in
        Some (true, http_response_set_body res chunk)
  end.
(** The path is one of a file, with the status of the file. *)
Definition serve_found (cfg : StaticConfig) (fpath : list Z) (st : node) (req : HttpRequest) (res : HttpResponse) : option (bool * HttpResponse) :=
  let size := Z.of_nat (length (content st)) in
  let res := http_response_add_header res (str_bytes "Content-Type") (static_get_mime_type cfg fpath) in
  let res := http_response_add_header res (str_bytes "Accept-Ranges") (str_bytes "bytes") in
  let info := mk_info (static_build_etag (st_mtime st) size 64) (truncated 128 (gmt (st_mtime st))) size (st_mtime st) in
  let res := if enable_caching cfg then static_build_cache_headers info res else res in
  if enable_caching cfg && static_check_not_modified req info then Some (true, http_response_set_status res 304)
  else
    match (if enable_range cfg then http_request_get_header req (str_bytes "Range") ≫= parse_range else None) with
    | Some (a, b) => static_serve_range fpath res a (if b <? 0 then size - 1 else b)
    | None =>
        if is_dir st then None
        else if negb (readable st) then Some (false, res)
        else Some (true, http_response_set_body (http_response_set_status res 200) (content st))
    end.
Definition static_serve_file (cfg : StaticConfig) (url_path : list Z) (req : HttpRequest) (res : HttpResponse) : option (bool * HttpResponse) :=
  match build_full_path cfg url_path FPATH with
  | None => Some (false, res)
  | Some fpath =>
      match fs fpath with
      | None => Some (true, http_response_set_body_str (http_response_set_status res 404) (str_bytes "404 Not Found"))
      | Some st =>
          if is_dir st then
            let ipath := fpath ++ [47] ++ index_file cfg in
            match fs ipath with
            | Some st => if (FPATH - 1 <=? length ipath)%nat then None else serve_found cfg ipath st req res
            | None => Some (true, http_response_set_body_str (http_response_set_status res 403) (str_bytes "403 Forbidden"))
            end
          else serve_found cfg fpath st req res
      end
  end.
End files.

(** ** Ranges *)

Definition range_header (a b : Z) : list Z := str_bytes "bytes=" ++ print_lld a ++ [45] ++ print_lld b.
Lemma parse_range_printed a b : 0 <= a < 2 ^ 63 -> 0 <= b < 2 ^ 63 -> parse_range (range_header a b) = Some (a, b).
Proof.
  intros Ha Hb. unfold parse_range, range_header. rewrite starts_with_app. cbn [mbind option_bind]. rewrite scan_lld_print by done. cbn [mbind option_bind app].
  rewrite <- (app_nil_r (print_lld b)), scan_lld_print by done. done.
Qed.
Section serving.
Context (fs : list Z -> option node) (gmt : Z -> list Z).
(** A range of a file. *)
Definition slice (a b : Z) (l : list Z) : list Z := take (Z.to_nat (b - a + 1)) (drop (Z.to_nat a) l).
Lemma serve_range_slice path st res a b : fs path = Some st -> is_dir st = false -> readable st = true -> 0 <= a <= b -> b < Z.of_nat (length (content st)) ->
  exists res', static_serve_range fs path res a b = Some (true, res') /\ status_code res' = 206 /\ res_body res' = Some (slice a b (content st)).
Proof.
  intros Hf Hd Hr Ha Hb. unfold static_serve_range. rewrite Hf, Hd, Hr. rewrite (proj2 (Z.ltb_ge a 0)), (proj2 (Z.leb_gt (Z.of_nat (length (content st))) b)), (proj2 (Z.ltb_ge b a)) by lia.
  eexists. split; [done|]. split; [|done]. cbn [status_code http_response_set_body]. unfold http_response_add_header. by case_match.
Qed.
(** The file in the place of a request. *)
Definition at_path (cfg : StaticConfig) (url : list Z) (st : node) : Prop := exists p, build_full_path cfg url FPATH = Some p /\ fs p = Some st /\ is_dir st = false /\ readable st = true.
Definition plain (req : HttpRequest) : Prop := http_request_get_header req (str_bytes "If-Modified-Since") = None /\ http_request_get_header req (str_bytes "If-None-Match") = None.
Lemma check_plain req info : plain req -> static_check_not_modified req info = false.
Proof. intros [H1 H2]. unfold static_check_not_modified. by rewrite H1, H2. Qed.
(** A request without conditions is answered with the whole file, and one with a range in it
    with the bytes of the range. *)
Theorem static_serve_file_correct cfg url st req res : at_path cfg url st -> plain req ->
  (http_request_get_header req (str_bytes "Range") = None -> exists res', static_serve_file fs gmt cfg url req res = Some (true, res') /\ status_code res' = 200 /\ res_body res' = Some (content st)) /\
  (forall a b, http_request_get_header req (str_bytes "Range") = Some (range_header a b) -> enable_range cfg = true -> 0 <= a <= b -> b < Z.of_nat (length (content st)) < 2 ^ 63 ->
    exists res', static_serve_file fs gmt cfg url req res = Some (true, res') /\ status_code res' = 206 /\ res_body res' = Some (slice a b (content st))).
Proof.
  intros (p & Hp & Hf & Hd & Hr) Hplain. unfold static_serve_file. rewrite Hp, Hf, Hd. unfold serve_found. rewrite check_plain by done. rewrite andb_false_r. split.
  - intros Hrange. rewrite Hrange. cbn [mbind option_bind]. rewrite Hd, Hr. cbn [negb]. destruct (enable_range cfg); eexists; by repeat split.
  - intros a b Hrange -> Ha Hb. rewrite Hrange. cbn [mbind option_bind]. rewrite parse_range_printed by lia. rewrite (proj2 (Z.ltb_ge b 0)) by lia.
    apply serve_range_slice; done || lia.
Qed.
(** The bodies of ranges that follow each other: between the bounds [cs], the last range ends
    before the last bound. *)
Fixpoint bodies (path : list Z) (res : HttpResponse) (a : Z) (cs : list Z) : option (list Z) :=
  match cs with
  | [] => Some []
  | c :: cs => r ← static_serve_range fs path res a (c - 1); b ← res_body r.2; rest ← bodies path res c cs; Some (b ++ rest)
  end.
Fixpoint increasing (a : Z) (cs : list Z) (last : Z) : Prop := match cs with [] => a = last | c :: cs => a < c <= last /\ increasing c cs last end.
(** A file that is fetched range by range arrives as it is. *)
Theorem static_ranges_cover path st res cs : fs path = Some st -> is_dir st = false -> readable st = true -> increasing 0 cs (Z.of_nat (length (content st))) -> bodies path res 0 cs = Some (content st).
Proof.
  intros Hf Hd Hr. cut (forall a, 0 <= a -> increasing a cs (Z.of_nat (length (content st))) -> bodies path res a cs = Some (drop (Z.to_nat a) (content st))).
  { intros H Hinc. by apply (H 0). }
  induction cs as [|c cs IH]; intros a Ha Hinc; cbn [bodies increasing] in *.
  - rewrite Hinc, Nat2Z.id, drop_all. done.
  - destruct Hinc as [Hc Hinc]. destruct (serve_range_slice path st res a (c - 1) Hf Hd Hr) as (res' & -> & _ & Hb); [lia|lia|]. cbn [mbind option_bind snd]. rewrite Hb. cbn [mbind option_bind].
    rewrite IH by (done || lia). cbn [mbind option_bind]. f_equal. unfold slice. replace (c - 1 - a + 1) with (c - a) by lia.
    rewrite <- (take_drop (Z.to_nat (c - a)) (drop (Z.to_nat a) (content st))) at 2. f_equal. rewrite drop_drop. f_equal. lia.
Qed.
End serving.
Definition sample_fs (p : list Z) : option node :=
  if bool_decide (p = str_bytes "/www/a.txt") then Some (mk_node false 100 true (str_bytes "hello")) else if bool_decide (p = str_bytes "/www") then Some (mk_node true 7 true []) else None.
Definition sample_cfg : StaticConfig := static_config_load_default_mimes (static_config_init (str_bytes "/www")).
Definition no_date (t : Z) : list Z := [].
Definition asking (k : string) (v : list Z) : HttpRequest := mk_request HTTP_GET (str_bytes "/a.txt") [] [mk_header (str_bytes k) v] [].
Lemma static_serve_file_correct_witness : exists res', static_serve_file sample_fs no_date sample_cfg (str_bytes "/a.txt") (asking "Range" (range_header 1 3)) http_response_init = Some (true, res') /\ status_code res' = 206 /\ res_body res' = Some (str_bytes "ell").
Proof.
  refine (proj2 (static_serve_file_correct sample_fs no_date sample_cfg (str_bytes "/a.txt") (mk_node false 100 true (str_bytes "hello")) (asking "Range" (range_header 1 3)) http_response_init _ _) 1 3 _ _ _ _).
  - exists (str_bytes "/www/a.txt"). vm_compute. repeat split; reflexivity.
  - split; vm_compute; reflexivity.
  - vm_compute. reflexivity.
  - reflexivity.
  - lia.
  - vm_compute. split; reflexivity.
Defined.
Lemma static_ranges_cover_witness : bodies sample_fs (str_bytes "/www/a.txt") http_response_init 0 [2; 5] = Some (str_bytes "hello").
Proof. refine (static_ranges_cover sample_fs (str_bytes "/www/a.txt") (mk_node false 100 true (str_bytes "hello")) http_response_init [2; 5] _ _ _ _); vm_compute; repeat split; (reflexivity || discriminate). Defined.
(** The tag that was sent with a file is a condition that answers 304 as long as the file has its
    size and its time. *)
Theorem static_etag_revalidates fs gmt cfg url p st req res : build_full_path cfg url FPATH = Some p -> fs p = Some st -> is_dir st = false -> enable_caching cfg = true ->
  http_request_get_header req (str_bytes "If-None-Match") = Some (static_build_etag (st_mtime st) (Z.of_nat (length (content st))) 64) ->
  exists res', static_serve_file fs gmt cfg url req res = Some (true, res') /\ status_code res' = 304 /\ res_body res' = res_body res.
Proof.
  intros Hp Hf Hd Hc Hm. unfold static_serve_file. rewrite Hp, Hf, Hd. unfold serve_found. rewrite Hc.
  set (info := mk_info _ _ _ _). assert (static_check_not_modified req info = true) as ->.
  { unfold static_check_not_modified. rewrite Hm. rewrite bool_decide_eq_true_2 by done. by repeat case_match. }
  cbn [andb]. eexists. split; [done|]. split; [done|]. cbn [res_body http_response_set_status]. unfold static_build_cache_headers, http_response_add_header. repeat case_match; done.
Qed.
Lemma static_etag_revalidates_witness : exists res', static_serve_file sample_fs no_date sample_cfg (str_bytes "/a.txt") (asking "If-None-Match" (static_build_etag 100 5 64)) http_response_init = Some (true, res') /\ status_code res' = 304 /\ res_body res' = None.
Proof.
  refine (static_etag_revalidates sample_fs no_date sample_cfg (str_bytes "/a.txt") (str_bytes "/www/a.txt") (mk_node false 100 true (str_bytes "hello")) _ _ _ _ _ _ _); vm_compute; reflexivity.
Defined.

(** ** What the code does not do *)

(** The last bytes of a file cannot be asked for: the whole file is sent as a part. *)
Example suffix_is_whole : (fun x => (status_code x.2, res_body x.2)) <$> static_serve_file sample_fs no_date sample_cfg (str_bytes "/a.txt") (asking "Range" (str_bytes "bytes=-2")) http_response_init = Some (206, Some (str_bytes "hello")).
Proof. vm_compute. reflexivity. Qed.
(** Dates are compared as texts, which begin with the name of the day: a file of a Monday counts as
    not modified since any Wednesday. *)
Example date_compared_as_text : let gmt t := str_bytes "Mon, 07 Jul 2025 00:00:00 GMT" in
  (fun x => status_code x.2) <$> static_serve_file sample_fs gmt sample_cfg (str_bytes "/a.txt") (asking "If-Modified-Since" (str_bytes "Wed, 01 Jan 2020 00:00:00 GMT")) http_response_init = Some 304.
Proof. vm_compute. reflexivity. Qed.
(** A path that leads out of the directory is followed. *)
Example path_leads_out : let fs p := if bool_decide (p = str_bytes "/www/../secret") then Some (mk_node false 1 true (str_bytes "key")) else None in
  (fun x => res_body x.2) <$> static_serve_file fs no_date sample_cfg (str_bytes "/../secret") (asking "X" []) http_response_init = Some (Some (str_bytes "key")).
Proof. vm_compute. reflexivity. Qed.
