(* ===== verification/Cgi.v ===== *)
(** Model of [mini-web-server/src/cgi_handler.c]: a script that is run with the request in its
    environment, its output as a response, and the headers of FastCGI records; and the theorems
    on it.

    The script is the parameter [child]: what the first read of its output and of its errors
    gives, by its path, its environment and its input, and what [waitpid] answers in each second.
    Pipes and processes are always there. *)

From S2P Require Import Prelude Bytes HttpCore.
#[local] Open Scope Z_scope.

Definition CGI_MAX_ENV_VARS : nat := 64.
Definition CGI_MAX_ENV_KEY : nat := 128.
Definition CGI_MAX_ENV_VALUE : nat := Z.to_nat 4096.
Definition CGI_MAX_SCRIPT_PATH : nat := Z.to_nat 1024.
Definition CGI_MAX_OUTPUT : nat := Z.to_nat (8 * 1024 * 1024).
#[global] Arguments CGI_MAX_ENV_VALUE : simpl never.
#[global] Arguments CGI_MAX_SCRIPT_PATH : simpl never.
#[global] Arguments CGI_MAX_OUTPUT : simpl never.
Definition CGI_TIMEOUT_SECONDS : Z := 30.
Record CgiEnvVar := mk_env { key : list Z; env_value : list Z }.
Record CgiConfig := mk_config { script_path : list Z; env_vars : list CgiEnvVar; pass_headers : bool; pass_body : bool; timeout_seconds : Z }.
Record CgiResult := mk_result { exit_code : Z; stdout_data : list Z; stderr_data : list Z; signal_number : Z; timed_out : bool }.
Inductive FcgiRecordType := FCGI_BEGIN_REQUEST | FCGI_ABORT_REQUEST | FCGI_END_REQUEST | FCGI_PARAMS | FCGI_STDIN | FCGI_STDOUT | FCGI_STDERR | FCGI_DATA | FCGI_GET_VALUES | FCGI_GET_VALUES_RESULT | FCGI_UNKNOWN_TYPE.
Inductive FcgiRole := FCGI_RESPONDER | FCGI_AUTHORIZER | FCGI_FILTER.
Record FcgiHeader := mk_fcgi { version : Z; type : Z; request_id : Z; content_length : Z; padding_length : Z; reserved : Z }.
Record FcgiBeginRequestBody := mk_begin { role : Z; flags : Z; begin_reserved : list Z }.
Record FcgiEndRequestBody := mk_end { app_status : Z; protocol_status : Z; end_reserved : list Z }.

Definition cgi_config_init (script : list Z) : CgiConfig := mk_config (truncated CGI_MAX_SCRIPT_PATH script) [] true true CGI_TIMEOUT_SECONDS.
Definition cgi_config_add_env (cfg : CgiConfig) (k v : list Z) : CgiConfig :=
  if (CGI_MAX_ENV_VARS <=? length (env_vars cfg))%nat then cfg else cfg <| env_vars ::= fun l => l ++ [mk_env (truncated CGI_MAX_ENV_KEY k) (truncated CGI_MAX_ENV_VALUE v)] |>.
Definition add_header_env (req : HttpRequest) (cfg : CgiConfig) (x : string * string) : CgiConfig :=
  match http_request_get_header req (str_bytes x.1) with Some v => cgi_config_add_env cfg (str_bytes x.2) v | None => cfg end.
Definition cgi_config_set_request_env (cfg : CgiConfig) (req : HttpRequest) : CgiConfig :=
  let cfg := cgi_config_add_env cfg (str_bytes "REQUEST_METHOD") (http_method_str (method req)) in
  let cfg := cgi_config_add_env cfg (str_bytes "REQUEST_URI") (path req) in
  let cfg := cgi_config_add_env cfg (str_bytes "QUERY_STRING") (truncated HTTP_MAX_PATH (query_string req)) in
  let cfg := cgi_config_add_env cfg (str_bytes "GATEWAY_INTERFACE") (str_bytes "CGI/1.1") in
  let cfg := cgi_config_add_env cfg (str_bytes "SERVER_PROTOCOL") (str_bytes "HTTP/1.1") in
  let cfg := cgi_config_add_env cfg (str_bytes "SERVER_SOFTWARE") (str_bytes "mini-web-server/0.1") in
  foldl (add_header_env req) cfg [("Content-Type", "CONTENT_TYPE"); ("Content-Length", "CONTENT_LENGTH"); ("Host", "HTTP_HOST"); ("User-Agent", "HTTP_USER_AGENT")]%string.

(** ** Running the script *)

(** What [waitpid] answers: the child runs, it ended with a code or by a signal, or there is an
    error, which is an interrupted call or not. *)
Inductive wait_answer := Running | Exited (code : Z) | Signalled (signal : Z) | Interrupted | Failed.
(** How the wait ended: with a status of the child, which may be one of the numbers that stand
    for an error and for a time-out. *)
Inductive wait_result := Status (a : wait_answer) | WaitError | TimedOut.
Record child_behaviour := mk_child { first_out : list Z; first_err : list Z; answers : nat -> wait_answer }.
Fixpoint wait_from (rounds : nat) (i : nat) (answers : nat -> wait_answer) : wait_result :=
  match rounds with
  | O => TimedOut
  | S rounds => match answers i with Exited c => Status (Exited c) | Signalled s => Status (Signalled s) | Failed => WaitError | _ => wait_from rounds (S i) answers end
  end.
Definition wait_with_timeout (answers : nat -> wait_answer) (timeout_sec : Z) : wait_result := wait_from (Z.to_nat timeout_sec) 0 answers.
Definition child_env (cfg : CgiConfig) : list (list Z * list Z) := (fun e => (key e, env_value e)) <$> env_vars cfg.
(** The -1 of an error is neither the status of an exit nor that of a signal. *)
Definition cgi_execute (child : list Z -> list (list Z * list Z) -> list Z -> child_behaviour) (cfg : CgiConfig) (req : HttpRequest) : bool * CgiResult :=
  let input := if pass_body cfg then body req else [] in
  let c := child (script_path cfg) (child_env cfg) input in
  let out := take (CGI_MAX_OUTPUT - 1) (first_out c) in
  let err := take (CGI_MAX_OUTPUT - 1) (first_err c) in
  match wait_with_timeout (answers c) (timeout_seconds cfg) with
  | TimedOut => (true, mk_result (-1) out err 0 true)
  | Status (Exited code) => (true, mk_result code out err 0 false)
  | Status (Signalled s) => (true, mk_result (128 + s) out err s false)
  | _ => (true, mk_result (-1) out err 0 false)
  end.

(** ** The output as a response *)

(** [%d] *)
Definition scan_int (s : list Z) : option Z := (fun r => s32 r.1) <$> scan_lld s.
Definition cgi_parse_status_line (data : list Z) : option Z :=
  if (length data <? 12)%nat then None
  else
    match starts_with (str_bytes "HTTP/") data, starts_with (str_bytes "Status:") data with
    | None, None => None
    | _, Some rest => scan_int rest
    | Some _, None => match starts_with (str_bytes "HTTP/1.") data with Some (_ :: rest) => scan_int rest | _ => None end
    end.
(** The characters 13 and 10 end a line, 58 ends a name.  The end of the value, as the text
    before it and the text behind its line. *)
Definition value_end (v : list Z) : list Z * list Z :=
  match strstr_before [13; 10] v with
  | Some x => (x, drop (length x + 2) v)
  | None => match strchr_before 10 v with Some x => (x, drop (length x + 1) v) | None => (v, []) end
  end.
Fixpoint cgi_headers (fuel : nat) (p : list Z) (res : HttpResponse) : option HttpResponse :=
  match fuel with
  | O => None
  | S fuel =>
      match p with
      | [] => Some res
      | 10 :: _ => Some res
      | 13 :: 10 :: _ => Some res
      | _ =>
          match strchr_before 58 p with
          | None => Some res
          | Some nm =>
              let v := drop_while (fun x => x =? 32) (drop (length nm + 1) p) in
              let '(value, next) := value_end v in
              cgi_headers fuel next (http_response_add_header res (take 127 nm) (take 4095 value))
          end
      end
  end.
(** The output is without zero bytes. *)
Definition cgi_parse_headers (result : CgiResult) (res : HttpResponse) : option HttpResponse := cgi_headers (S (length (stdout_data result))) (stdout_data result) res.
Definition body_start (data : list Z) : option (list Z) := match strstr_after [13; 10; 13; 10] data with Some b => Some b | None => strstr_after [10; 10] data end.
Definition cgi_result_to_response (result : CgiResult) (res : HttpResponse) : option (bool * HttpResponse) :=
  match stdout_data result with
  | [] => Some (false, res)
  | data =>
      let res := match cgi_parse_status_line data with Some c => http_response_set_status res c | None => res end in
      res ← cgi_parse_headers result res;
      Some (true, match body_start data with Some b => http_response_set_body res b | None => res end)
  end.

(** ** FastCGI *)

Definition swap16 (x : Z) : Z := Z.lor (Z.shiftl (Z.land x 255) 8) (Z.land (Z.shiftr x 8) 255).
Definition fcgi_build_header (type request_id content_len padding_len : Z) : FcgiHeader := mk_fcgi 1 type (swap16 request_id) (swap16 content_len) padding_len 0.
Definition fcgi_build_begin_request (role flags : Z) : FcgiBeginRequestBody := mk_begin (swap16 role) flags [0; 0; 0; 0; 0].
Definition byte (data : list Z) (i : nat) : Z := default 0 (data !! i).
Definition word (hi lo : Z) : Z := Z.lor (Z.shiftl hi 8) lo.
Definition fcgi_parse_header (data : list Z) : bool * option FcgiHeader :=
  if (length data <? 8)%nat then (false, None)
  else (byte data 0 =? 1, Some (mk_fcgi (byte data 0) (byte data 1) (word (byte data 2) (byte data 3)) (word (byte data 4) (byte data 5)) (byte data 6) (byte data 7))).
Definition fcgi_parse_end_request (data : list Z) : Z * Z :=
  (Z.lor (Z.lor (Z.lor (Z.shiftl (byte data 0) 24) (Z.shiftl (byte data 1) 16)) (Z.shiftl (byte data 2) 8)) (byte data 3), byte data 4).

(** ** Properties *)

(** Whatever the child does, the wait lasts at most as long as it may, and reports a time-out
    exactly when the child did not end by then. *)
Theorem cgi_timeout_correct child cfg req : let c := child (script_path cfg) (child_env cfg) (if pass_body cfg then body req else []) in
  let r := (cgi_execute child cfg req).2 in
  timed_out r = true <-> forall i, (i < Z.to_nat (timeout_seconds cfg))%nat -> answers c i = Running \/ answers c i = Interrupted.
Proof.
  intros c r. assert (Hw : forall rounds i, wait_from rounds i (answers c) = TimedOut <-> forall j, (j < rounds)%nat -> answers c (i + j)%nat = Running \/ answers c (i + j)%nat = Interrupted).
  { induction rounds as [|rounds IH]; intros i; cbn [wait_from]; [split; [intros _ j Hj; lia|done]|].
    assert (Hstep : (forall j, (j < S rounds)%nat -> answers c (i + j)%nat = Running \/ answers c (i + j)%nat = Interrupted) <->
      (answers c i = Running \/ answers c i = Interrupted) /\ forall j, (j < rounds)%nat -> answers c (S i + j)%nat = Running \/ answers c (S i + j)%nat = Interrupted).
    { split.
      - intros H. split; [rewrite <- (Nat.add_0_r i); apply H; lia|]. intros j Hj. replace (S i + j)%nat with (i + S j)%nat by lia. apply H. lia.
      - intros [H0 H] [|j] Hj; [by rewrite Nat.add_0_r|]. replace (i + S j)%nat with (S i + j)%nat by lia. apply H. lia. }
    rewrite Hstep, <- IH. destruct (answers c i); split; try tauto; try (intros [[?|?] _]; discriminate); discriminate. }
  specialize (Hw (Z.to_nat (timeout_seconds cfg)) 0%nat). unfold r, cgi_execute, wait_with_timeout. fold c. rewrite <- (Hw : _ <-> _).
  destruct (wait_from _ 0 (answers c)) as [[]| |]; cbn; split; done.
Qed.

(** A FastCGI header lies in the memory of a machine that stores the low byte of a number
    first. *)
Definition header_bytes (h : FcgiHeader) : list Z :=
  [version h; type h; request_id h mod 256; request_id h / 256; content_length h mod 256; content_length h / 256; padding_length h; reserved h].
Lemma swap16_bytes x : 0 <= x < 2 ^ 16 -> swap16 x mod 256 = x / 256 /\ swap16 x / 256 = x mod 256.
Proof.
  intros H. unfold swap16. rewrite !land_255, Z.shiftr_div_pow2 by lia. rewrite (Z.mod_small (x / 2 ^ 8) 256) by (change (2 ^ 8) with 256; split; [apply Z.div_pos; lia|apply Z.div_lt_upper_bound; lia]).
  rewrite lor_shiftl by first [lia|change (2 ^ 8) with 256; split; [apply Z.div_pos; lia|apply Z.div_lt_upper_bound; lia]]. change (2 ^ 8) with 256.
  assert (0 <= x / 256 < 256) by (split; [apply Z.div_pos; lia|apply Z.div_lt_upper_bound; lia]). split.
  - rewrite Z.add_comm, Z.mod_add by lia. by apply Z.mod_small.
  - rewrite Z.add_comm, Z.div_add by lia. rewrite Z.div_small by done. lia.
Qed.
(** A header that is built and sent is read as the numbers it was built from. *)
Theorem fcgi_header_roundtrip t id len pad : byte_ok t -> 0 <= id < 2 ^ 16 -> 0 <= len < 2 ^ 16 -> byte_ok pad -> fcgi_parse_header (header_bytes (fcgi_build_header t id len pad)) = (true, Some (mk_fcgi 1 t id len pad 0)).
Proof.
  intros Ht Hi Hl Hp. unfold fcgi_parse_header, header_bytes, byte, word. cbn [length Nat.ltb Nat.leb lookup list_lookup default from_option fcgi_build_header version type request_id content_length padding_length reserved Z.eqb Pos.eqb].
  destruct (swap16_bytes id Hi) as [-> ->], (swap16_bytes len Hl) as [-> ->]. 
  assert (Hw : forall x, 0 <= x < 2 ^ 16 -> Z.lor (Z.shiftl (x / 256) 8) (x mod 256) = x).
  { intros x Hx. rewrite lor_shiftl by first [lia|by apply Z.mod_pos_bound]. change (2 ^ 8) with 256. rewrite (Z.div_mod x 256) at 3 by lia. lia. }
  unfold Datatypes.id. by rewrite !Hw.
Qed.
Lemma fcgi_header_roundtrip_witness : fcgi_parse_header (header_bytes (fcgi_build_header 5 258 1000 3)) = (true, Some (mk_fcgi 1 5 258 1000 3 0)).
Proof. refine (fcgi_header_roundtrip 5 258 1000 3 _ _ _ _); vm_compute; split; (reflexivity || discriminate). Defined.

(** ** Responses *)

(** The line of a header of the output. *)
Definition line_of (h : list Z * list Z) : list Z := h.1 ++ [58; 32] ++ h.2 ++ [13; 10].
Definition line_ok (h : list Z * list Z) : Prop :=
  h.1 <> [] /\ 58 ∉ h.1 /\ 13 ∉ h.1 /\ 10 ∉ h.1 /\ (length h.1 <= 127)%nat /\ 13 ∉ h.2 /\ 10 ∉ h.2 /\ (length h.2 <= 4095)%nat /\ match h.2 with x :: _ => x <> 32 | [] => True end.
Lemma strstr_before_line v r : 13 ∉ v -> strstr_before [13; 10] (v ++ 13 :: 10 :: r) = Some v.
Proof. intros Hv. rewrite strstr_before_skip by done. change (13 :: 10 :: r) with ([13; 10] ++ r). rewrite strstr_before_here. cbn. by rewrite app_nil_r. Qed.
Lemma cgi_headers_line fuel h r res : line_ok h -> cgi_headers (S fuel) (line_of h ++ r) res = cgi_headers fuel r (http_response_add_header res h.1 h.2).
Proof.
  intros (Hne & H58 & H13 & H10 & Hl & Hv13 & Hv10 & Hvl & Hsp). unfold line_of. rewrite <- !app_assoc. cbn [app].
  assert (Hb : strchr_before 58 (h.1 ++ 58 :: 32 :: h.2 ++ 13 :: 10 :: r) = Some h.1) by by apply strchr_before_app.
  assert (Hd : drop (length h.1 + 1) (h.1 ++ 58 :: 32 :: h.2 ++ 13 :: 10 :: r) = 32 :: h.2 ++ 13 :: 10 :: r).
  { rewrite drop_app_ge by lia. replace (length h.1 + 1 - length h.1)%nat with 1%nat by lia. done. }
  assert (Hw : drop_while (fun x => x =? 32) (32 :: h.2 ++ 13 :: 10 :: r) = h.2 ++ 13 :: 10 :: r).
  { cbn. destruct h.2 as [|x v]; [done|]. cbn. by rewrite (proj2 (Z.eqb_neq x 32)). }
  assert (He : value_end (h.2 ++ 13 :: 10 :: r) = (h.2, r)).
  { unfold value_end. rewrite strstr_before_line by done. f_equal. rewrite drop_app_ge by lia. by replace (length h.2 + 2 - length h.2)%nat with 2%nat by lia. }
  cbn [cgi_headers]. rewrite Hb, Hd, Hw, He, (take_ge h.1), (take_ge h.2) by done.
  destruct h.1 as [|x n] eqn:En; [done|]. cbn [app]. apply not_elem_of_cons in H13 as [H13 _], H10 as [H10 _].
  destruct x as [|x|x]; try done. do 4 (destruct x as [x|x|]; try done).
Qed.
Lemma body_start_lines hs b : Forall line_ok hs -> strstr_after [13; 10; 13; 10] (mjoin (line_of <$> hs) ++ [13; 10] ++ b) = if bool_decide (hs = []) then strstr_after [13; 10; 13; 10] ([13; 10] ++ b) else Some b.
Proof.
  induction hs as [|h hs IH]; intros Hok; [done|]. apply Forall_cons in Hok as [Hh Hok]. rewrite bool_decide_eq_false_2 by done.
  change (mjoin (line_of <$> h :: hs)) with (line_of h ++ mjoin (line_of <$> hs)). destruct Hh as (Hne & H58 & H13 & H10 & Hl & Hv13 & Hv10 & Hvl & Hsp).
  assert (Hline : line_of h = (h.1 ++ [58; 32] ++ h.2) ++ [13; 10]) by (unfold line_of; by rewrite <- !app_assoc).
  rewrite Hline, <- !app_assoc. rewrite (app_assoc h.1), (app_assoc (h.1 ++ _)). rewrite strstr_after_skip.
  2: { rewrite !elem_of_app. intros [[?|Hin]|?]; [done| |done]. rewrite !elem_of_cons, elem_of_nil in Hin. lia. }
  destruct hs as [|g hs]; [apply (strstr_after_here [13; 10; 13; 10])|].
  change (mjoin (line_of <$> g :: hs)) with (line_of g ++ mjoin (line_of <$> hs)) in *. rewrite bool_decide_eq_false_2 in IH by done. rewrite <- IH by done.
  apply Forall_cons in Hok as [(Gne & _ & G13 & _) _]. cbn [app]. rewrite !strstr_after_no; [done| |].
  - done.
  - unfold line_of. destruct g.1 as [|x n]; [done|]. apply not_elem_of_cons in G13 as [G13 _]. cbn [app starts_with]. rewrite !Z.eqb_refl. by rewrite (proj2 (Z.eqb_neq 13 x)).
Qed.
(** An output of header lines, an empty line and a body becomes a response with these headers
    and this body; the status is the one of a status line, when the output starts with one. *)
Theorem cgi_response_correct hs b r res : hs <> [] -> Forall line_ok hs -> stdout_data r = mjoin (line_of <$> hs) ++ [13; 10] ++ b ->
  cgi_result_to_response r res = Some (true, http_response_set_body (foldl (fun res h => http_response_add_header res h.1 h.2) (match cgi_parse_status_line (stdout_data r) with Some c => http_response_set_status res c | None => res end) hs) b).
Proof.
  intros Hne Hok Ho. unfold cgi_result_to_response, cgi_parse_headers.
  assert (Hb : body_start (stdout_data r) = Some b) by (unfold body_start; rewrite Ho, body_start_lines, bool_decide_eq_false_2 by done; done).
  assert (Hh : forall fuel res, (length (mjoin (line_of <$> hs)) < fuel)%nat -> cgi_headers fuel (mjoin (line_of <$> hs) ++ [13; 10] ++ b) res = Some (foldl (fun res h => http_response_add_header res h.1 h.2) res hs)).
  { clear -Hok. induction hs as [|h hs IH]; intros fuel res Hf; (destruct fuel as [|fuel]; [cbn in Hf; lia|]); [done|]. apply Forall_cons in Hok as [Hh Hok].
    change (mjoin (line_of <$> h :: hs)) with (line_of h ++ mjoin (line_of <$> hs)) in *. rewrite <- app_assoc, cgi_headers_line by done. apply IH; [done|].
    rewrite length_app in Hf. unfold line_of in Hf at 1. rewrite !length_app in Hf. cbn in Hf. lia. }
  destruct (stdout_data r) as [|x l] eqn:E.
  { destruct hs as [|h hs]; [done|]. apply (f_equal length) in Ho. rewrite !length_app in Ho. cbn in Ho. lia. }
  rewrite Hb, Ho. rewrite Hh; [done|]. rewrite length_app. lia.
Qed.
Definition sample_lines : list (list Z * list Z) := [(str_bytes "Status", str_bytes "404 Not Found"); (str_bytes "A", str_bytes "b c")].
Definition sample_output : list Z := mjoin (line_of <$> sample_lines) ++ [13; 10] ++ str_bytes "hi".
Lemma cgi_response_correct_witness : cgi_result_to_response (mk_result 0 sample_output [] 0 false) http_response_init =
  Some (true, http_response_set_body (foldl (fun res h => http_response_add_header res h.1 h.2) (http_response_set_status http_response_init 404) sample_lines) (str_bytes "hi")).
Proof.
  refine (cgi_response_correct sample_lines (str_bytes "hi") (mk_result 0 sample_output [] 0 false) http_response_init _ _ _); [discriminate| |reflexivity].
  repeat constructor; try (apply (bool_decide_unpack _); vm_compute; reflexivity).
Defined.

(** ** What the code does not do *)

(** A status line as HTTP has it becomes a part of the name of the first header. *)
Example status_line_in_header : (fun x => name <$> res_headers x.2) <$> cgi_result_to_response (mk_result 0 (str_bytes "HTTP/1.1 200 OK" ++ [13; 10] ++ str_bytes "A: b" ++ [13; 10; 13; 10]) [] 0 false) http_response_init =
  Some [str_bytes "HTTP/1.1 200 OK" ++ [13; 10; 65]].
Proof. vm_compute. reflexivity. Qed.
(** Lines that end with a line break alone are one value, up to the first CRLF in the body. *)
Example lines_merged : (fun x => value <$> res_headers x.2) <$> cgi_result_to_response (mk_result 0 (str_bytes "A: b" ++ [10] ++ str_bytes "C: d" ++ [10; 10] ++ str_bytes "x" ++ [13; 10]) [] 0 false) http_response_init =
  Some [str_bytes "b" ++ [10] ++ str_bytes "C: d" ++ [10; 10] ++ str_bytes "x"].
Proof. vm_compute. reflexivity. Qed.
